(* ===== verification/_CoqProject ===== *)
-Q . S2P
Prelude.v
Dau.v
Extent.v
DList.v
Plist.v
Monad.v
ArQueue.v
Interval.v
RecHash.v
QuotaRec.v
QuotaBytes.v
QuotaCache.v
QuotaLinks.v
QuotaPrims.v
QuotaInv.v
QuotaGet.v
QuotaRel.v
QuotaOps.v
QuotaAdmin.v
QuotaFrame.v
QuotaCharge.v
QuotaThms.v
QuotaInit.v
QuotaOwner.v
QuotaInfo.v
QuotaDemo.v
Bitmap.v
BlockPool.v
BlockScan.v
BlockAlloc.v
BlockRefill.v
BlockFree.v
BlockSys.v
BlockThms.v
Prealloc.v
PreallocThms.v
PreallocRun.v
AllocLinks.v
AllocThms.v
AllocUnits.v
AllocSource.v
FileTree.v
Truncate.v
TruncTree.v
TruncFree.v
TruncPath.v
TruncFile.v
TruncThms.v
ReclaimThms.v
TruncDirect.v
TruncMain.v
MoveOrd.v
TruncError.v
TruncPrealloc.v
TruncDemo.v
TruncProps.v
FreeBlocks.v
SmallBlocks.v
SmallGeo.v
SmallThms.v
SmallType.v
SmallTake.v
SmallMaps.v
PartMaps.v
SpaceProps.v
Lease.v
LeaseOps.v
LeaseExpire.v
LeaseTable.v
LeaseGrant.v
LeaseInv.v
LeaseRemove.v
LeaseTimes.v
LeaseClients.v
LeaseServer.v
LeaseRun.v
LeaseDecide.v
LeaseReq.v
LeaseHandlers.v
LeaseProps.v
