(* ===== verification/Prelude.v ===== *)
(** * SAM-QFS: a verification library

    SAM-QFS is a file system with hierarchical storage management: files have quotas,
    are laid out in extents of two block sizes, are copied to archive media by an
    archiver, released from disk by a releaser when space is short, and their old
    copies are reclaimed by a recycler. Several hosts can share a file system: a metadata
    server grants them leases on files. This library models parts of that code as
    executable Rocq functions and proves what makes them correct.

    ** Parts, files and correspondence

    - [Prelude]: machine integers as [Z] with explicit wrap-around ([u32], [s64], ...),
      errno values, bit masks, generic lemmas, the hint database [cint].
    - [Dau], [Extent]: disk allocation units (src/src/fs/lib/setdau.c, [sam_set_dau])
      and the extent of a file offset (src/src/fs/lib/extent.c, [sam_get_extent]),
      against the layout of a file as a sequence of extents.
    - [DList]: circular doubly linked lists and null-terminated chains as predicates on
      link functions, with the effect of the four assignments of an insertion and the
      two of a removal; shared by the quota cache and the archiver.
    - [Monad]: code with state and faults. [wp m Q s] holds when [m] run in [s]
      completes, without a failed assertion, wild pointer, self-deadlock or exhausted
      loop bound, in a state satisfying [Q].
    - [Plist]: the releaser's list of candidates (src/src/releaser/plist.c).
    - [ArQueue]: the archiver's queues (src/src/archiver/archiverd/queue.c) and the
      requeueing step of schedule.c.
    - [Interval]: intervals as strings (src/src/lib/samut/intervalstr.c), with a model
      of [strtoll] and of the conversions of [snprintf] that they use.
    - [RecHash]: the recycler's volume table (src/src/recycler/findvsn.c) and its hash
      table (src/src/recycler/lib/hash_table.c).
    - Quotas (src/src/fs/samfs/quota.c and cquota.c, the whole of both):
      [QuotaRec] one record and its charging ([testquota], [sam_quota_bcheck], the body
      of [sam_quota_fcheck]); [QuotaBytes] records as bytes ([sam_zerocmp], [b_log_AND]
      and the merge of [sam_quota_set_info]); [QuotaCache] the in-core structures with
      hash table, available list, inode pointers, locks and reference counts
      ([sam_quot_get] to [sam_quot_rel]); [QuotaOps] charging of blocks and files;
      [QuotaAdmin] change of owner, system calls, mount and unmount. Their proofs are
      in [QuotaLinks] (the representation of the linked structures), [QuotaPrims]
      (primitive steps), [QuotaInv] (the invariant [cache_ok] and the usage [usage_of]
      of a key), [QuotaGet], [QuotaRel], [QuotaFrame], [QuotaCharge], [QuotaThms],
      [QuotaInit], [QuotaOwner], [QuotaInfo]. [QuotaDemo] implements the interface of
      the quota files in memory and applies the theorems to a mounted file system.
    - Disk space of one partition (src/src/fs/samfs/block.c, with parts of balloc.c and
      update.c): [Bitmap] the free map as words and the units it stands for; [BlockPool]
      the circular queues of free blocks; [BlockScan] the scan of [sam_set_block] over a
      map block; [BlockAlloc] the refill ([sam_get_blklist] to [sam_write_map]), its
      completion and commit, freeing of a large block, space and watermarks, as state
      [bfs] and configuration [bconf] of a partition; [Prealloc] requests for
      consecutive units. Proofs: [BlockRefill], [BlockFree], [BlockSys] (the partition
      as a step relation [bstep]), [BlockThms], [PreallocThms], [PreallocRun].
    - Allocation over several partitions: [AllocLinks] the device table with its lists
      of data and metadata partitions ([sam_build_allocation_links] of
      src/src/fs/samfs/mount.c, [sam_remove_from_allocation_links] of block.c), the
      partition of a new file ([sam_set_unit] of create.c) and the allocation of a block
      round the list ([sam_alloc_block] of balloc.c). Proofs: [AllocThms] (the predicate
      [links_ok] that ties a list of ordinals to the device table), [AllocUnits] (choice
      and rotation of the partition), [AllocSource] (with the refill of [BlockAlloc] as
      the block thread).
    - Truncation (src/src/fs/samfs/truncate.c, reclaim.c, map.c): [FileTree] the extents
      of an inode and the indirect blocks below them (ino.h), with the blocks of such a
      tree as a list; [Truncate] the inode, the disk and the list of extents to be
      released as state [ts], [sam_reduce_ino], [sam_sync_inode],
      [sam_proc_indirect_block] with its commands for freeing, finding and moving, and
      the reclaim thread from [sam_free_extents] down; [MoveOrd] the loops of
      [sam_fseq_ord] and [sam_move_ip_extents] (psyscall.c). Proofs: [TruncTree],
      [TruncFree], [TruncPath] (one tree of indirect blocks), [TruncFile], [TruncThms],
      [ReclaimThms], [TruncDirect], [TruncMain] (the whole file), [TruncError],
      [TruncPrealloc], [TruncDemo] (a concrete file), [TruncProps].
    - Freed blocks: [FreeBlocks] the two arrays for each block type ([sam_free_block] to
      [sam_release_blocks] of reclaim.c, [sam_merge_blocks] of update.c); [SmallBlocks]
      the file .blocks of free small blocks as a list of entries
      ([sam_merge_sm_blks] of update.c, [sam_get_sm_blklist] of block.c). Proofs:
      [SmallGeo] (large blocks and their parts), [SmallThms] (recording), [SmallType]
      (damaged files), [SmallTake] (refill of the pools), [SmallMaps], [PartMaps],
      [SpaceProps].
    - Leases of a shared file system (src/src/fs/samfs/server.c and reclaim.c, with
      share.h and client.h): [Lease] the lease types and masks, the table of an inode
      ([sam_lease_ino_t]) and its entries, the message and the mount point with its chain
      of tables, its outgoing messages and its expiry task; [LeaseOps] granting
      ([sam_record_lease], [sam_new_ino_lease], [sam_add_ino_lease]), removal, extension,
      wake-up, callouts and size updates; [LeaseExpire] the expiry task
      ([sam_expire_server_leases] and what it calls, [sam_clear_server_leases]);
      [LeaseReq] the handlers of the five messages below [sam_process_lease_request].
      Proofs: [LeaseTable] (which leases conflict, the invariant of a table), [LeaseGrant]
      and [LeaseInv] (granting), [LeaseRemove], [LeaseTimes] and [LeaseClients] (one run
      over a table), [LeaseServer] (all inodes, and the server as a step relation
      [lstep]), [LeaseRun] (the run over the chain ends), [LeaseDecide] (granting against
      an abstract table), [LeaseHandlers], [LeaseProps].

    ** Interfaces

    The quota code reads and writes quota files through the class [QuotaEnv]
    (operations) and [QuotaEnvLaws] (a file is a sequence of records, a write changes
    one, and neither fails: the theorems that use the laws are about runs without I/O
    errors on the quota files, and [flush_error_forgotten] shows what an error does); the
    instance [mem_laws] of [QuotaDemo] satisfies them. [QSort] of [Plist] is
    the C library's [qsort]. Calls of the host kernel that only return a value (file
    lookup, access checks, copyin and copyout) are fields of the records [call_env] and
    [admid_env]. [sam_alloc_block] waits for the block thread: the class [BlockThread] of
    [AllocUnits] says what it relies on when it wakes up, and the instance
    [refill_source] of [AllocSource] shows that a refill of [BlockAlloc] provides it.

    Freed blocks pass three interfaces on their way to the free map. [FileEnv] has the
    calls of truncation, and [BlockSink] ([TruncTree]) says that a block that is in use
    can be given back once; [frs_sink] shows that the arrays of [FreeBlocks] do so,
    relying on [BlockMaps] and [BlockMapsLaws]: the maps take a block that is not free.
    [small_maps_laws] shows this of .blocks, relying on [LargeMaps] and [LargeMapsLaws]
    (and on [PoolLaws] for the pools), and [part_laws] and [part_pool_laws] of the free
    map of one partition in [BlockAlloc]. The contracts speak of cells, the small blocks
    that a block consists of. The allocation and copy of a block when a file is moved
    (src/src/fs/samfs/copy_extents.c) are fields of [FileEnv] without laws.

    The lease code calls the block layer: [LeaseCalls] is [sam_trunc_excess_blocks], and
    [ReqCalls] the allocation, truncation and staging that a granted lease brings with it,
    and the host's file locks. Their laws [LeaseCallsLaws] and [ReqCallsLaws] say that they
    leave the lease table alone; [demo_laws] and [demo_req_laws] of [LeaseProps] satisfy
    them.

    ** What the theorems show

    - Quota records: grants stay within hard limits, refusals change nothing, the grace
      timer is started exactly when the record goes over its soft limit, is not extended
      and is enforced when it has expired, the loop over changed bits
      ends.
    - Quota cache, as a refinement: the abstract state is the function [usage_of] from a
      type and an index to the counts charged to it. Every operation completes, keeps
      [cache_ok], and acts on [usage_of] as specified: all or nothing for balloc and
      falloc, an exact move for chown and set_aid, no change for get and release;
      released records are on disk; mounting establishes the invariant.
    - System calls: who may read and who may write a record.
    - Extents: the location found is the one whose range contains the offset.
    - Releaser, archiver, recycler: the candidate list is the best [list_size] entries
      in order; queues stay in scheduling order under every operation; volumes stay
      findable and unique as long as the tables need not grow and the probe of an
      insertion does not reach the end of the hash table.
    - Disk space: under every interleaving of refills, completions, commits,
      allocations and frees of large blocks no block is in two places, and the space
      count follows the map; a refill moves exactly the units it takes from the map to the
      pools, supplies a large block unless all free units go to the small pool, and
      reports an empty map only when it is; a freed large block goes back to its own bit
      or into reserve; a request for consecutive units gets the first run that is long
      enough. Map writes may fail where there is no pool of small blocks only, and the
      last statement excludes maps in which a word without free units directly follows a
      free unit; in both cases a theorem shows what goes wrong otherwise.
    - Partitions: mounting links exactly the partitions in use, in order, and removal
      takes one out; a new file goes to the first partition with space from the one
      whose turn it is; allocation ends, with a block of the first partition that can
      supply one, and reports a full file system only when nothing is left. The
      partition whose turn it is, or the file's own, has to be in the list; when it has
      been taken out both searches may run for ever, which is proved as well.
    - Truncation, of files that are [truncatable] (not preallocated, and with striped
      groups of one size): the file keeps exactly the blocks up to its new end, and the data and
      indirect blocks behind it reach the free map or .blocks, each once, through the
      reclaim thread and the arrays; a failed write of the inode restores it; the search
      for a partition finds it exactly when it is there.
    - Free small blocks: recording one adds it to the free ones and nothing else, the
      refill moves blocks from .blocks to the pools without loss or duplication, and
      whatever the I/O returns both routines stay within their tables as long as the
      entries of the file name existing partitions, which they keep so.
    - Leases: whatever the order of the critical sections of requests, removals and
      expiry, two clients never hold conflicting leases, tables stay within their arrays
      and arrays within the number of hosts, and the chain has exactly the inodes with a
      table. The handlers of all messages keep this, requests for a mapping that ask
      for neither reading nor writing excepted. Without multi-host writes and without
      clients that wait for an exclusive lease, a request is granted or waits exactly as
      the leases of the others say and changes nothing else; a removal takes exactly what
      the message asks for and tells everyone who waits, once; an extension succeeds
      exactly when nobody waits. A run of the expiry task ends, removes exactly the leases
      that are due (and those of clients that are down with them), tells each client what
      it lost, and schedules the next run in time.
    - Strings: printing and reading intervals is a round trip.
    - Defects that modelling showed are theorems too: they state what the code does.

    ** Bounds

    Loops that are not structural take fuel, and a theorem or lemma shows that the fuel
    is enough: 32 doublings in [find_shift] (a run that takes more never stops), 33
    turns of the bit loop of a charge, the number of allocated structures for hash
    chains and lists, two turns for [sam_quot_getfree], the number of entries for
    [add_walk] and [find_name], one more than the table size for probe sequences, ten
    digits for an [int]. A refill visits each map block at most twice ([disk_fuel]); a
    pool is emptied in at most [b_limit] turns; a word has 32 bits. The search for the
    partition of a new file takes a turn per partition of the list, and
    [sam_alloc_block] at most nine per partition and one more: three rounds of at most
    three steps. [sam_free_extents] takes a turn per entry of the list, [direct_loop] one
    per block of the extent, [take_blks] at most one per entry of .blocks and one more.
    A run of the expiry task takes [run_fuel] turns: each restart from the head of the
    chain follows the loss of a lease or of a table ([load]), and between two restarts
    there is a turn per inode; [compact_loop] takes a turn per entry.

    ** Not modelled

    In the quota code and in truncation one thread runs at a time: a mutex is a boolean,
    and interleavings of several threads are not modelled. For the pools of a partition
    and for leases they are: the steps of [bstep] and [lstep] are critical sections in any
    order, and a lease operation that drops a mutex takes what the other threads do in
    between as an argument ([other]). Of leases, the client's side, the list of blocked
    file locks, the batches in which inodes without leases are released, and the DEBUG
    assertions are not modelled; a lease type outside the enumeration cannot be expressed.
    Page flushing, vnode reference counts and the transport
    of messages of a shared file system are outside. Trace output is left out. The
    [float] priorities of the releaser and the archiver are modelled without NaN.
    Of block allocation, online growing is not modelled; a failed read or write of the
    map, of .blocks, of an indirect block or of an inode is an outcome that the state or
    an argument provides ([f_rio], [f_wio], [sb_io], [rd], [t_upd]). Of truncation, the
    journal, [sam_proc_truncate] with its leases and staging, and the allocation of
    blocks to a file are not modelled; that a file is well formed before it is cut is a
    hypothesis ([truncatable]). Moving a file takes the copy of a block as an argument,
    and leaves out preallocated files and the choice of the new partition. While
    [sam_alloc_block] sleeps other threads act as its parameter [wait] says; the commands
    that change the state of a partition, and the allocation for a client of a shared
    file system, are not modelled. The rest of the system is not: directories and the
    vnode layer depend on the host kernel throughout, the messages of a shared file
    system on its sockets, the catalog and the stager are daemons on memory-mapped files,
    and the robots, the management library and the commands are glue over devices and
    system services. *)

From stdpp Require Export base list gmap.
From Stdlib Require Export ZArith Lia.

#[global] Open Scope Z_scope.

(** ** Machine integers

    C integers are modelled as [Z] with their wrap-around written out:
    [uwrap w] is conversion to a [w]-bit unsigned type, [swrap w] conversion to
    a [w]-bit two's complement type. *)

Definition uwrap (w x : Z) : Z := x mod 2 ^ w.
Definition swrap (w x : Z) : Z := (x + 2 ^ (w - 1)) mod 2 ^ w - 2 ^ (w - 1).

Declare Scope cint_scope.
Delimit Scope cint_scope with cint.
Notation "'u32' x" := (uwrap 32 x) (at level 10, x at level 9) : cint_scope.
Notation "'u64' x" := (uwrap 64 x) (at level 10, x at level 9) : cint_scope.
Notation "'s32' x" := (swrap 32 x) (at level 10, x at level 9) : cint_scope.
Notation "'s64' x" := (swrap 64 x) (at level 10, x at level 9) : cint_scope.
#[global] Open Scope cint_scope.

(** Values of the two families of types. *)
Definition uint_range (w x : Z) : Prop := 0 <= x < 2 ^ w.
Definition sint_range (w x : Z) : Prop := - 2 ^ (w - 1) <= x < 2 ^ (w - 1).

(** [lia] with division and modulo. *)
Ltac dlia := Z.to_euclidean_division_equations; lia.

Create HintDb cint.
Create Rewrite HintDb cint.

Lemma pow2_pos (w : Z) : 0 <= w -> 0 < 2 ^ w.
Proof. intros. apply Z.pow_pos_nonneg; lia. Qed.

Lemma pow2_half (w : Z) : 0 < w -> 2 ^ w = 2 * 2 ^ (w - 1).
Proof.
  intros. replace w with (Z.succ (w - 1)) at 1 by lia. apply Z.pow_succ_r. lia.
Qed.

Lemma uwrap_id (w x : Z) : uint_range w x -> uwrap w x = x.
Proof. unfold uint_range, uwrap. intros. apply Z.mod_small. lia. Qed.

Lemma swrap_id (w x : Z) : 0 < w -> sint_range w x -> swrap w x = x.
Proof.
  unfold sint_range, swrap. intros Hw Hx. pose proof (pow2_half w Hw).
  rewrite Z.mod_small; lia.
Qed.

Lemma uwrap_range (w x : Z) : 0 <= w -> uint_range w (uwrap w x).
Proof. intros. apply Z.mod_pos_bound, pow2_pos. lia. Qed.

Lemma swrap_range (w x : Z) : 0 < w -> sint_range w (swrap w x).
Proof.
  intros Hw. unfold sint_range, swrap. pose proof (pow2_half w Hw).
  pose proof (Z.mod_pos_bound (x + 2 ^ (w - 1)) (2 ^ w)
                (pow2_pos w ltac:(lia))).
  lia.
Qed.

(** Two wrapped values agree when their arguments agree modulo [2 ^ w]. *)
Lemma swrap_congr (w x y : Z) :
  x mod 2 ^ w = y mod 2 ^ w -> swrap w x = swrap w y.
Proof.
  intros H. unfold swrap. f_equal.
  rewrite (Zplus_mod x), (Zplus_mod y), H. reflexivity.
Qed.

Lemma swrap_mod (w x : Z) : swrap w x mod 2 ^ w = x mod 2 ^ w.
Proof.
  unfold swrap. rewrite Zminus_mod, Zmod_mod, <- Zminus_mod. f_equal. lia.
Qed.

(** Undoing a wrapped addition restores the value, whatever overflowed. *)
Lemma swrap_add_sub (w x d : Z) :
  0 < w -> sint_range w x -> swrap w (swrap w (x + d) - d) = x.
Proof.
  intros Hw Hx. rewrite <- (swrap_id w x) at 2 by assumption.
  apply swrap_congr. rewrite Zminus_mod, swrap_mod, <- Zminus_mod. f_equal. lia.
Qed.

Lemma uwrap_swrap (w x : Z) : uwrap w (swrap w x) = uwrap w x.
Proof. apply swrap_mod. Qed.

#[export] Hint Resolve uwrap_range swrap_range : cint.
#[export] Hint Rewrite uwrap_swrap : cint.

(** Setting the low bit of an even number. *)
Lemma lor_even_1 (a : Z) : 0 <= a -> Z.lor (2 * a) 1 = 2 * a + 1.
Proof. intros. destruct a; [reflexivity | reflexivity | lia]. Qed.

(** ** Errno values used by the modelled code *)

Definition EPERM : Z := 1.
Definition ENOENT : Z := 2.
Definition EIO : Z := 5.
Definition ENXIO : Z := 6.
Definition EBADF : Z := 9.
Definition EACCES : Z := 13.
Definition EFAULT : Z := 14.
Definition EBUSY : Z := 16.
Definition EINVAL : Z := 22.
Definition ENOTTY : Z := 25.
Definition EFBIG : Z := 27.
Definition ENOSPC : Z := 28.
Definition ERANGE : Z := 34.
Definition ENOTSUP : Z := 48.
Definition EDQUOT : Z := 49.
Definition EREMOTE : Z := 66.

(** ** Bit masks *)

(** [x & m] as a C condition. *)
Definition has_any (x m : Z) : bool := negb (Z.land x m =? 0).

Lemma has_any_lor (x m n : Z) : has_any x (Z.lor m n) = has_any x m || has_any x n.
Proof.
  unfold has_any. rewrite Z.land_lor_distr_r.
  destruct (Z.eqb_spec (Z.lor (Z.land x m) (Z.land x n)) 0) as [E|E].
  - apply Z.lor_eq_0_iff in E as [-> ->]. reflexivity.
  - destruct (Z.eqb_spec (Z.land x m) 0) as [E1|]; [|reflexivity].
    destruct (Z.eqb_spec (Z.land x n) 0) as [E2|]; [|reflexivity].
    exfalso. apply E. now rewrite E1, E2.
Qed.

(** ** Clearing the lowest bit

    The loop [for (; c; c &= ~bit)] with [bit = c ^ (c & (c-1))] runs once per set
    bit. *)

Fixpoint pos_pop (p : positive) : nat :=
  match p with xH => 1 | xO q => pos_pop q | xI q => S (pos_pop q) end.
Definition popcount (c : Z) : nat := match c with Zpos p => pos_pop p | _ => O end.

Lemma clear_low_bit (c e : Z) :
  Z.land c (Z.lnot (Z.lxor c (Z.land c e))) = Z.land c e.
Proof.
  apply Z.bits_inj'. intros n Hn.
  rewrite !Z.land_spec, Z.lnot_spec, Z.lxor_spec, Z.land_spec by assumption.
  destruct (Z.testbit c n), (Z.testbit e n); reflexivity.
Qed.

Lemma popcount_double (n : N) :
  popcount (Z.of_N (Pos.Ndouble n)) = popcount (Z.of_N n).
Proof. destruct n; reflexivity. Qed.

Lemma land_diag_pos (p : positive) : Pos.land p p = N.pos p.
Proof. change (Pos.land p p) with (N.land (N.pos p) (N.pos p)). apply N.land_diag. Qed.

Lemma popcount_pred (p : positive) :
  (popcount (Z.of_N (Pos.land (xO p) (Pos.pred_double p))) < pos_pop p)%nat.
Proof.
  induction p as [q _|q IH|]; [| |vm_compute; constructor].
  - change (Pos.land (q~1~0) (Pos.pred_double q~1))
      with (Pos.Ndouble (Pos.Ndouble (Pos.land q q))).
    rewrite !popcount_double, land_diag_pos. cbn. lia.
  - change (Pos.land (q~0~0) (Pos.pred_double q~0))
      with (Pos.Ndouble (Pos.land (q~0) (Pos.pred_double q))).
    rewrite popcount_double. cbn [pos_pop]. exact IH.
Qed.

Lemma popcount_clear (c : Z) :
  0 < c -> 0 <= Z.land c (c - 1) /\ (popcount (Z.land c (c - 1)) < popcount c)%nat.
Proof.
  intros Hc. split; [apply Z.land_nonneg; lia|]. destruct c as [|p|p]; [lia| |lia].
  destruct p as [q|q|]; [| |vm_compute; constructor].
  - change (Z.land (Z.pos q~1) (Z.pos q~1 - 1)) with (Z.of_N (Pos.Ndouble (Pos.land q q))).
    rewrite popcount_double, land_diag_pos. cbn. lia.
  - change (Z.land (Z.pos q~0) (Z.pos q~0 - 1))
      with (Z.of_N (Pos.land (q~0) (Pos.pred_double q))).
    apply popcount_pred.
Qed.

Lemma popcount_bound (n : nat) (c : Z) : c < 2 ^ Z.of_nat n -> (popcount c <= n)%nat.
Proof.
  intros Hc. destruct c as [|p|p]; cbn; [lia| |lia].
  revert p Hc. induction n as [|n IH]; intros p Hc; [cbn in Hc; lia|].
  rewrite Nat2Z.inj_succ, Z.pow_succ_r in Hc by lia.
  destruct p as [q|q|]; cbn; [| |lia].
  - specialize (IH q). lia.
  - specialize (IH q). lia.
Qed.

(** ** Lists *)

#[export] Instance bind_perm {A B : Type} (f : A -> list B) : Proper ((≡ₚ) ==> (≡ₚ)) (mbind f).
Proof.
  intros l1 l2 E. induction E; rewrite ?bind_cons; [reflexivity| | |]; [now rewrite IHE| |etrans; eauto].
  rewrite !app_assoc. apply Permutation_app_tail, Permutation_app_comm.
Qed.
