(* ===== verification/Dau.v ===== *)
(** * Disk allocation units

    Model of [sam_set_dau] (src/src/fs/lib/setdau.c) and of [sam_dau_t]
    (src/src/fs/include/block.h). *)

From S2P Require Import Prelude.

Definition SAM_DEV_BSIZE : Z := 1024.
Definition SAM_DEV_BSHIFT : Z := 10.
Definition SAM_DEV_WSIZE : Z := 256.
Definition SAM_LOG_BLOCK : Z := 4.
Definition MAXBSIZE : Z := 8192.
Definition NSDEXT : Z := 8.
Definition NLDEXT : Z := 8.
Definition NDEXT : Z := NSDEXT + NLDEXT.

(** Block type, the index of the two-element arrays of [sam_dau_t]. *)
Inductive btype : Type := SM | LG.

#[export] Instance btype_eq_dec : EqDecision btype.
Proof. solve_decision. Defined.

Record per_bt (A : Type) : Type := mk_per_bt { at_sm : A; at_lg : A }.
Arguments mk_per_bt {A} _ _.
Arguments at_sm {A} _.
Arguments at_lg {A} _.

Definition bt_get {A} (p : per_bt A) (bt : btype) : A :=
  match bt with SM => at_sm p | LG => at_lg p end.
Definition bt_set {A} (p : per_bt A) (bt : btype) (v : A) : per_bt A :=
  match bt with
  | SM => mk_per_bt v (at_lg p)
  | LG => mk_per_bt (at_sm p) v
  end.

Record sam_dau_t : Type := mk_sam_dau {
  mask : per_bt Z;
  seg : per_bt Z;
  sm_bmask : Z;
  size : per_bt Z;
  wsize : per_bt Z;
  shift : per_bt Z;
  dif_shift : per_bt Z;
  blocks : per_bt Z;
  kblocks : per_bt Z;
  sm_blkcount : Z;
  sm_bits : Z;
  sm_off : Z
}.

(** The search loop of [sam_set_dau]: [value] is an [int] compared with the
    unsigned [size], so the comparison is done on 32-bit unsigned values. *)
Fixpoint find_shift (fuel : nat) (sz shift value : Z) : option Z :=
  match fuel with
  | O => None
  | S fuel' =>
      if Z.ltb sz (u32 value) then Some 0
      else if u32 value =? sz then Some shift
      else find_shift fuel' sz (shift + 1) (s32 (Z.shiftl value 1))
  end.

(** [value] doubles from 2^10 and is zero after 22 doublings, so a run that has
    not stopped after 32 iterations never stops. *)
Definition shift_fuel : nat := 32.

(** The loop that accumulates [sm_bits]. *)
Fixpoint set_sm_bits (n : nat) (bits : Z) : Z :=
  match n with
  | O => bits
  | S n' => set_sm_bits n' (Z.lor (u32 (Z.shiftl bits 1)) 1)
  end.

(** One iteration of the loop over the block types. *)
Definition set_dau_bt (bt : btype) (d : sam_dau_t) : option sam_dau_t :=
  let kb := bt_get (kblocks d) bt in
  let sz := u32 (kb * SAM_DEV_BSIZE) in
  let wsz := u32 (kb * SAM_DEV_WSIZE) in
  match find_shift shift_fuel sz SAM_DEV_BSHIFT SAM_DEV_BSIZE with
  | None => None
  | Some sh =>
      let found := negb (sh =? 0) in
      Some {|
        mask := if found then bt_set (mask d) bt (u32 (sz - 1)) else mask d;
        seg := bt_set (seg d) bt (match bt with LG => MAXBSIZE | SM => sz end);
        sm_bmask := sm_bmask d;
        size := bt_set (size d) bt sz;
        wsize := bt_set (wsize d) bt wsz;
        shift := if found then bt_set (shift d) bt sh else shift d;
        dif_shift :=
          if found then bt_set (dif_shift d) bt (u32 (sh - SAM_DEV_BSHIFT))
          else dif_shift d;
        blocks := bt_set (blocks d) bt (kb / SAM_LOG_BLOCK);
        kblocks := kblocks d;
        sm_blkcount := sm_blkcount d;
        sm_bits := sm_bits d;
        sm_off := sm_off d
      |}
  end.

(** [None] when the search loop does not stop. *)
Definition sam_set_dau (d : sam_dau_t) (sm_kblocks lg_kblocks : Z)
  : option sam_dau_t :=
  let d0 := {|
    mask := mask d; seg := seg d; sm_bmask := sm_bmask d; size := size d;
    wsize := wsize d; shift := shift d; dif_shift := dif_shift d;
    blocks := blocks d;
    kblocks := mk_per_bt sm_kblocks lg_kblocks;
    sm_blkcount := sm_blkcount d; sm_bits := sm_bits d; sm_off := sm_off d |} in
  match set_dau_bt SM d0 with
  | None => None
  | Some d1 =>
      match set_dau_bt LG d1 with
      | None => None
      | Some d2 =>
          let cnt := if at_sm (kblocks d2) =? 0 then 0
                     else at_lg (kblocks d2) / at_sm (kblocks d2) in
          Some {|
            mask := mask d2; seg := seg d2;
            sm_bmask := u32 (at_lg (kblocks d2) - 1);
            size := size d2; wsize := wsize d2; shift := shift d2;
            dif_shift := dif_shift d2; blocks := blocks d2;
            kblocks := kblocks d2;
            sm_blkcount := cnt;
            sm_bits := set_sm_bits (Z.to_nat cnt) 0;
            sm_off := u32 (NSDEXT * at_sm (size d2)) |}
      end
  end.

(** ** The search loop *)

(** Doubling a value that is held in an [int]. *)
Lemma s32_double (i : Z) :
  0 <= i -> s32 (Z.shiftl (s32 (2 ^ i)) 1) = s32 (2 ^ (i + 1)).
Proof.
  intros. apply swrap_congr. rewrite Z.shiftl_mul_pow2 by lia.
  rewrite Z.mul_mod, swrap_mod, <- Z.mul_mod by lia. f_equal.
  rewrite Z.pow_add_r by lia. reflexivity.
Qed.

Lemma find_shift_spec (n : nat) (i sz : Z) :
  10 <= i <= 31 -> 32 - i <= Z.of_nat n -> 0 <= sz <= 2 ^ 31 ->
  (forall k, 10 <= k < i -> sz <> 2 ^ k) ->
  exists r, find_shift n sz i (s32 (2 ^ i)) = Some r /\
    ((r = 0 /\ forall k, 10 <= k -> sz <> 2 ^ k) \/ (10 <= r <= 31 /\ sz = 2 ^ r)).
Proof.
  revert i. induction n as [|n IH]; intros i Hi Hn Hsz Hno; [lia|].
  assert (Hp : 2 ^ i <= 2 ^ 31) by (apply Z.pow_le_mono_r; lia).
  assert (Hp0 : 0 < 2 ^ i) by (apply pow2_pos; lia).
  cbn [find_shift]. autorewrite with cint.
  rewrite (uwrap_id 32 (2 ^ i)) by (unfold uint_range; lia).
  destruct (Z.ltb_spec sz (2 ^ i)) as [Hlt|Hge].
  - exists 0. split; [reflexivity|]. left. split; [reflexivity|]. intros k Hk ->.
    destruct (Z.le_gt_cases i k) as [Hik|Hik].
    + pose proof (Z.pow_le_mono_r 2 i k ltac:(lia) Hik). lia.
    + apply (Hno k); lia.
  - destruct (Z.eqb_spec (2 ^ i) sz) as [Heq|Hne].
    + exists i. split; [reflexivity|]. right. lia.
    + assert (i <> 31) by (intros ->; lia).
      rewrite s32_double by lia. apply IH; [lia|lia|lia|]. intros k Hk ->.
      destruct (Z.eq_dec k i) as [->|]; [lia|]. apply (Hno k); lia.
Qed.

(** Past 2^31 the doubled value wraps to zero and the loop spins for ever. *)
Lemma find_shift_diverges (sz : Z) :
  2 ^ 31 < sz < 2 ^ 32 -> forall fuel, find_shift fuel sz SAM_DEV_BSHIFT SAM_DEV_BSIZE = None.
Proof.
  intros Hsz.
  assert (Hz : forall n sh, find_shift n sz sh 0 = None).
  { induction n as [|n IH]; intros sh; [reflexivity|]. cbn [find_shift].
    change (u32 0) with 0.
    destruct (Z.ltb_spec sz 0); [lia|]. destruct (Z.eqb_spec 0 sz); [lia|]. apply IH. }
  enough (Hi : forall n i, 10 <= i <= 31 -> find_shift n sz i (s32 (2 ^ i)) = None)
    by (intros fuel; apply (Hi fuel 10); lia).
  induction n as [|n IH]; intros i Hi; [reflexivity|]. cbn [find_shift].
  autorewrite with cint.
  assert (2 ^ i <= 2 ^ 31) by (apply Z.pow_le_mono_r; lia).
  assert (0 < 2 ^ i) by (apply pow2_pos; lia).
  rewrite (uwrap_id 32 (2 ^ i)) by (unfold uint_range; lia).
  destruct (Z.ltb_spec sz (2 ^ i)); [lia|]. destruct (Z.eqb_spec (2 ^ i) sz); [lia|].
  destruct (Z.eq_dec i 31) as [->|].
  - change (s32 (Z.shiftl (s32 (2 ^ 31)) 1)) with 0. apply Hz.
  - rewrite s32_double by lia. apply IH. lia.
Qed.

(** [n] rounds set the low [min n 32] bits. *)
Lemma set_sm_bits_ones (n : nat) (k : Z) :
  0 <= k <= 32 -> set_sm_bits n (2 ^ k - 1) = 2 ^ Z.min (k + Z.of_nat n) 32 - 1.
Proof.
  revert k. induction n as [|n IH]; intros k Hk; cbn [set_sm_bits].
  - f_equal. f_equal. lia.
  - assert (Hp : 1 <= 2 ^ k) by (pose proof (pow2_pos k); lia).
    rewrite Z.shiftl_mul_pow2 by lia.
    destruct (Z.eq_dec k 32) as [->|Hne].
    + change (Z.lor (u32 ((2 ^ 32 - 1) * 2 ^ 1)) 1) with (2 ^ 32 - 1).
      rewrite (IH 32) by lia. f_equal. f_equal. lia.
    + assert (Hle : 2 ^ (k + 1) <= 2 ^ 32) by (apply Z.pow_le_mono_r; lia).
      rewrite Z.pow_add_r in Hle by lia.
      rewrite uwrap_id by (unfold uint_range; lia).
      replace ((2 ^ k - 1) * 2 ^ 1) with (2 * (2 ^ k - 1)) by lia.
      rewrite lor_even_1 by lia.
      replace (2 * (2 ^ k - 1) + 1) with (2 ^ (k + 1) - 1)
        by (rewrite Z.pow_add_r by lia; lia).
      rewrite IH by lia. f_equal. f_equal. lia.
Qed.

(** ** What [sam_set_dau] establishes *)

(** The fields of one block type after [sam_set_dau], [d0] being the record it
    was called on: a DAU that is not a power of two keeps the old shift, difference
    shift and mask, which is how [sam_get_extent] knows that it has to divide. *)
Definition dau_bt_ok (d0 d : sam_dau_t) (bt : btype) : Prop :=
  let kb := bt_get (kblocks d) bt in
  bt_get (size d) bt = kb * SAM_DEV_BSIZE /\
  bt_get (wsize d) bt = kb * SAM_DEV_WSIZE /\
  bt_get (blocks d) bt = kb / SAM_LOG_BLOCK /\
  bt_get (seg d) bt = match bt with SM => bt_get (size d) bt | LG => MAXBSIZE end /\
  (forall k, 0 <= k -> kb = 2 ^ k ->
     bt_get (shift d) bt = SAM_DEV_BSHIFT + k /\
     bt_get (dif_shift d) bt = k /\
     bt_get (mask d) bt = bt_get (size d) bt - 1) /\
  ((forall k, 0 <= k -> kb <> 2 ^ k) ->
     bt_get (shift d) bt = bt_get (shift d0) bt /\
     bt_get (dif_shift d) bt = bt_get (dif_shift d0) bt /\
     bt_get (mask d) bt = bt_get (mask d0) bt).

(** Largest DAU, in kilobytes, for which the search loop stops. *)
Definition dau_kblocks_max : Z := 2 ^ 21.

Lemma pow2_kblocks (kb k : Z) : 0 <= k -> kb * 1024 = 2 ^ (10 + k) <-> kb = 2 ^ k.
Proof. intros. rewrite Z.pow_add_r by lia. change (2 ^ 10) with 1024. lia. Qed.

(** The search loop on a DAU of [kb] kilobytes. *)
Lemma find_shift_kblocks (kb : Z) :
  0 <= kb <= dau_kblocks_max ->
  exists r, find_shift shift_fuel (kb * SAM_DEV_BSIZE) SAM_DEV_BSHIFT SAM_DEV_BSIZE = Some r /\
    ((r = 0 /\ forall k, 0 <= k -> kb <> 2 ^ k) \/
     exists k, r = 10 + k /\ kb = 2 ^ k /\ 0 <= k <= 21).
Proof.
  unfold dau_kblocks_max, SAM_DEV_BSHIFT, SAM_DEV_BSIZE. intros Hkb.
  destruct (find_shift_spec shift_fuel 10 (kb * 1024)) as (r & Hf & Hr);
    [lia | unfold shift_fuel; lia | lia | lia |].
  exists r. split; [exact Hf|]. destruct Hr as [[-> Hr]|[Hr E]].
  - left. split; [reflexivity|]. intros k Hk E. apply (Hr (10 + k)); [lia|].
    apply pow2_kblocks; assumption.
  - right. exists (r - 10).
    split; [lia|]. split; [|lia]. apply pow2_kblocks; [lia|].
    replace (10 + (r - 10)) with r by lia. exact E.
Qed.

(** What one block type needs of the result [r] of the search loop. *)
Lemma dau_bt_ok_intro (d0 d : sam_dau_t) (bt : btype) (kb r : Z) :
  bt_get (kblocks d) bt = kb -> 0 <= kb <= dau_kblocks_max ->
  ((r = 0 /\ forall k, 0 <= k -> kb <> 2 ^ k) \/
   exists k, r = 10 + k /\ kb = 2 ^ k /\ 0 <= k <= 21) ->
  bt_get (size d) bt = kb * SAM_DEV_BSIZE ->
  bt_get (wsize d) bt = u32 (kb * SAM_DEV_WSIZE) ->
  bt_get (blocks d) bt = kb / SAM_LOG_BLOCK ->
  bt_get (seg d) bt = match bt with SM => bt_get (size d) bt | LG => MAXBSIZE end ->
  bt_get (shift d) bt = (if negb (r =? 0) then r else bt_get (shift d0) bt) ->
  bt_get (dif_shift d) bt =
    (if negb (r =? 0) then u32 (r - SAM_DEV_BSHIFT) else bt_get (dif_shift d0) bt) ->
  bt_get (mask d) bt =
    (if negb (r =? 0) then u32 (kb * SAM_DEV_BSIZE - 1) else bt_get (mask d0) bt) ->
  dau_bt_ok d0 d bt.
Proof.
  unfold dau_bt_ok, dau_kblocks_max, SAM_DEV_BSHIFT.
  intros -> Hkb Hr -> Hw -> -> -> -> ->. rewrite Hw.
  unfold SAM_DEV_BSIZE, SAM_DEV_WSIZE.
  rewrite (uwrap_id 32 (kb * 256)) by (unfold uint_range; lia).
  do 4 (split; [reflexivity|]).
  destruct Hr as [[-> Hno]|(k & -> & -> & Hk)].
  - split; [|cbn; tauto]. intros k Hk E. exfalso. eapply Hno; eauto.
  - pose proof (pow2_pos k ltac:(lia)).
    destruct (Z.eqb_spec (10 + k) 0); [lia|]. cbn [negb]. split.
    + intros k' Hk' E. assert (k' = k) as -> by (apply (Z.pow_inj_r 2); lia).
      rewrite !uwrap_id by (unfold uint_range; lia). lia.
    + intros Hno. exfalso. apply (Hno k); lia.
Qed.

Lemma sam_set_dau_ok (d : sam_dau_t) (sk lk : Z) :
  0 <= sk <= dau_kblocks_max -> 0 <= lk <= dau_kblocks_max ->
  exists d', sam_set_dau d sk lk = Some d' /\
    kblocks d' = mk_per_bt sk lk /\
    dau_bt_ok d d' SM /\ dau_bt_ok d d' LG /\
    sm_blkcount d' = (if sk =? 0 then 0 else lk / sk) /\
    sm_bits d' = 2 ^ Z.min (sm_blkcount d') 32 - 1 /\
    sm_bmask d' = (if lk =? 0 then 2 ^ 32 - 1 else lk - 1) /\
    (sk < 2 ^ 19 -> sm_off d' = NSDEXT * (sk * SAM_DEV_BSIZE)).
Proof.
  intros Hs Hl.
  destruct (find_shift_kblocks sk Hs) as (rs & Hfs & Hrs).
  destruct (find_shift_kblocks lk Hl) as (rl & Hfl & Hrl).
  pose proof Hs as Hs'. pose proof Hl as Hl'. unfold dau_kblocks_max in Hs', Hl'.
  assert (Us : u32 (sk * SAM_DEV_BSIZE) = sk * SAM_DEV_BSIZE)
    by (apply uwrap_id; unfold uint_range, SAM_DEV_BSIZE; lia).
  assert (Ul : u32 (lk * SAM_DEV_BSIZE) = lk * SAM_DEV_BSIZE)
    by (apply uwrap_id; unfold uint_range, SAM_DEV_BSIZE; lia).
  unfold sam_set_dau, set_dau_bt. cbn [kblocks bt_get at_sm at_lg].
  rewrite Us, Hfs. cbn [kblocks bt_get at_sm at_lg]. rewrite Ul, Hfl.
  eexists. split; [reflexivity|]. cbn [kblocks sm_blkcount sm_bits sm_bmask sm_off].
  split; [reflexivity|].
  assert (Hc : 0 <= if sk =? 0 then 0 else lk / sk).
  { destruct (Z.eqb_spec sk 0); [lia|]. apply Z.div_pos; lia. }
  split; [|split; [|split; [reflexivity|split; [|split]]]].
  - apply dau_bt_ok_intro with (kb := sk) (r := rs); cbn; auto;
      destruct (rs =? 0), (rl =? 0); reflexivity.
  - apply dau_bt_ok_intro with (kb := lk) (r := rl); cbn; auto;
      destruct (rs =? 0), (rl =? 0); reflexivity.
  - cbn [at_sm at_lg]. change 0 with (2 ^ 0 - 1) at 3.
    rewrite set_sm_bits_ones by lia. rewrite Z2Nat.id by exact Hc. reflexivity.
  - cbn [at_lg]. destruct (Z.eqb_spec lk 0) as [->|]; [reflexivity|].
    apply uwrap_id. unfold uint_range. lia.
  - cbn. intros. apply uwrap_id. unfold uint_range, NSDEXT, SAM_DEV_BSIZE. lia.
Qed.
