(* ===== verification/Extent.v ===== *)
(** * From a file offset to an extent

    Model of [sam_get_extent] (src/src/fs/lib/extent.c): where in the inode's
    extent array, and under which indirect blocks, the byte offset of a file is
    mapped; and the layout of a file's extents, against which it is verified. *)

From S2P Require Import Prelude Dau.

Definition DEXT : Z := 2048.
Definition DEXTSHIFT : Z := 11.
Definition SAMFS_SBLKV1 : Z := 1.
Definition SAMFS_SBLKV2 : Z := 2.

(** Device type: data or metadata disk, the value of [status.b.meta]. *)
Inductive dtype : Type := DD | MM.

(** The bits of [ino_st_t] that the function reads. *)
Record ino_status : Type := mk_ino_status { st_meta : bool; st_on_large : bool }.

Record sam_get_extent_args : Type := mk_get_extent_args {
  ga_dau : dtype -> sam_dau_t;
  ga_num_group : Z;
  ga_sblk_vers : Z;
  ga_status : ino_status;
  ga_offset : Z
}.

(** The out array of indirect extent locations. *)
Record kptr_t : Type := mk_kptr { kptr0 : Z; kptr1 : Z; kptr2 : Z }.

Record sam_get_extent_rval : Type := mk_get_extent_rval {
  rv_de : Z; rv_dtype : dtype; rv_btype : btype; rv_ileft : Z
}.

Definition ga_dt (a : sam_get_extent_args) : dtype :=
  if st_meta (ga_status a) then MM else DD.
Definition ga_d (a : sam_get_extent_args) : sam_dau_t := ga_dau a (ga_dt a).

(** The function's local quantities. *)
Definition dau_blks (a : sam_get_extent_args) : Z :=
  let b := at_lg (kblocks (ga_d a)) in
  if 1 <? ga_num_group a then s64 (b * ga_num_group a) else b.
Definition use_shift (a : sam_get_extent_args) : bool :=
  negb (at_lg (dif_shift (ga_d a)) =? 0) && (ga_num_group a =? 1).
Definition sm_kb (a : sam_get_extent_args) : Z :=
  s32 (Z.shiftl NSDEXT (at_sm (dif_shift (ga_d a)))).
Definition dir_blks (a : sam_get_extent_args) : Z :=
  let dl := at_lg (dif_shift (ga_d a)) in
  if use_shift a then
    if st_on_large (ga_status a) then s32 (Z.shiftl NDEXT dl)
    else s32 (sm_kb a + s32 (Z.shiftl NLDEXT dl))
  else s64 (NDEXT * dau_blks a).
Definition in_large_units (a : sam_get_extent_args) (b : Z) : Z :=
  if use_shift a then Z.shiftr b (at_lg (dif_shift (ga_d a)))
  else Z.quot b (dau_blks a).

(** The indirect part: the location of the large extent number [bn] past the
    direct extents. The first component is the errno. *)
Definition get_indirect (vers bn : Z) (kp : kptr_t) : Z * kptr_t * option Z :=
  if DEXT <=? bn then
    let tmp_bn := Z.shiftr bn DEXTSHIFT - 1 in
    if DEXT <=? tmp_bn then
      let k1 := s32 (Z.land tmp_bn (DEXT - 1)) in
      let k1' := if vers <? SAMFS_SBLKV2 then s32 (k1 + 1) else k1 in
      let kp1 := mk_kptr (kptr0 kp) k1' (kptr2 kp) in
      if (vers <? SAMFS_SBLKV2) && (DEXT <=? k1') then (EFBIG, kp1, None)
      else
        let tmp_bn' := Z.shiftr tmp_bn DEXTSHIFT - 1 in
        let kp2 := mk_kptr (s32 tmp_bn') k1' (s32 (Z.land bn (DEXT - 1))) in
        if DEXT <=? tmp_bn' then (EFBIG, kp2, None)
        else (0, kp2, Some (NDEXT + 2))
    else (0, mk_kptr (s32 tmp_bn) (s32 (Z.land bn (DEXT - 1))) (kptr2 kp),
          Some (NDEXT + 1))
  else (0, mk_kptr (s32 bn) (kptr1 kp) (kptr2 kp), Some NDEXT).

Definition sam_get_extent (a : sam_get_extent_args) (kp : kptr_t)
  : Z * kptr_t * option sam_get_extent_rval :=
  let offset := ga_offset a in
  if offset <? 0 then (EFBIG, kp, None)
  else
    let bn := Z.shiftr offset SAM_DEV_BSHIFT in
    let dt := ga_dt a in
    if bn <? dir_blks a then
      if st_on_large (ga_status a) then
        let extent := s32 (in_large_units a bn) in
        (0, kp, Some (mk_get_extent_rval extent dt LG (NDEXT - extent)))
      else if bn <? sm_kb a then
        let extent := s32 (Z.shiftr bn (at_sm (dif_shift (ga_d a)))) in
        (0, kp, Some (mk_get_extent_rval extent dt SM (NSDEXT - extent)))
      else
        let extent :=
          s32 (Z.shiftr (bn - sm_kb a) (at_lg (dif_shift (ga_d a))) + NSDEXT) in
        (0, kp, Some (mk_get_extent_rval extent dt LG (NDEXT - extent)))
    else
      match get_indirect (ga_sblk_vers a) (in_large_units a (bn - dir_blks a)) kp with
      | (err, kp', Some extent) =>
          (err, kp', Some (mk_get_extent_rval extent dt LG 0))
      | (err, kp', None) => (err, kp', None)
      end.

(** ** The layout of a file

    A file is a sequence of extents: 16 direct ones (the first 8 small unless the
    file is on large extents), then the 2048 extents of one indirect block, the
    2048^2 of a double and the 2048^3 of a triple indirect block. *)

Inductive loc : Type :=
  | Direct (i : Z)
  | Ind1 (k0 : Z)
  | Ind2 (k0 k1 : Z)
  | Ind3 (k0 k1 k2 : Z).

Definition idx_ok (k : Z) : Prop := 0 <= k < DEXT.
Definition loc_ok (l : loc) : Prop :=
  match l with
  | Direct i => 0 <= i < NDEXT
  | Ind1 k0 => idx_ok k0
  | Ind2 k0 k1 => idx_ok k0 /\ idx_ok k1
  | Ind3 k0 k1 k2 => idx_ok k0 /\ idx_ok k1 /\ idx_ok k2
  end.

Record layout : Type := mk_layout {
  lo_small : option Z;   (* kilobytes of a small extent, if there are any *)
  lo_unit : Z            (* kilobytes of a large extent *)
}.

Definition direct_start (lo : layout) (i : Z) : Z :=
  match lo_small lo with
  | None => i * lo_unit lo
  | Some s => if i <=? NSDEXT then i * s else NSDEXT * s + (i - NSDEXT) * lo_unit lo
  end.

(** Ordinal of an indirectly mapped extent among those past the direct ones. *)
Definition loc_index (l : loc) : Z :=
  match l with
  | Direct i => i - NDEXT
  | Ind1 k0 => k0
  | Ind2 k0 k1 => DEXT + (k0 * DEXT + k1)
  | Ind3 k0 k1 k2 => DEXT + DEXT * DEXT + ((k0 * DEXT + k1) * DEXT + k2)
  end.

Definition n_indirect : Z := DEXT + DEXT * DEXT + DEXT * DEXT * DEXT.

Definition loc_start (lo : layout) (l : loc) : Z :=
  match l with
  | Direct i => direct_start lo i
  | _ => direct_start lo NDEXT + loc_index l * lo_unit lo
  end.

Definition loc_len (lo : layout) (l : loc) : Z :=
  match l with
  | Direct i => direct_start lo (i + 1) - direct_start lo i
  | _ => lo_unit lo
  end.

(** [l] holds kilobyte [bn] of the file. *)
Definition covers (lo : layout) (l : loc) (bn : Z) : Prop :=
  loc_ok l /\ loc_start lo l <= bn < loc_start lo l + loc_len lo l.

(** What the caller of [sam_get_extent] reads off its results. *)
Definition result_loc (de : Z) (kp : kptr_t) : loc :=
  if de <? NDEXT then Direct de
  else if de =? NDEXT then Ind1 (kptr0 kp)
  else if de =? NDEXT + 1 then Ind2 (kptr0 kp) (kptr1 kp)
  else Ind3 (kptr0 kp) (kptr1 kp) (kptr2 kp).

Definition args_layout (a : sam_get_extent_args) : layout :=
  {| lo_small := if st_on_large (ga_status a) then None
                 else Some (2 ^ at_sm (dif_shift (ga_d a)));
     lo_unit := at_lg (kblocks (ga_d a)) * Z.max 1 (ga_num_group a) |}.

(** What the function needs of the DAU table and the file: the large difference
    shift is zero or right, and a file with small extents is on a device with a
    power-of-two DAU and no stripe group. *)
Record geometry_ok (a : sam_get_extent_args) : Prop := mk_geometry_ok {
  geo_lg : 0 < at_lg (kblocks (ga_d a)) <= dau_kblocks_max;
  geo_dif : 0 <= at_lg (dif_shift (ga_d a));
  geo_shift : at_lg (dif_shift (ga_d a)) = 0 \/
              at_lg (kblocks (ga_d a)) = 2 ^ at_lg (dif_shift (ga_d a));
  geo_group : 0 <= ga_num_group a < 2 ^ 31;
  geo_small : st_on_large (ga_status a) = true \/
              (at_lg (dif_shift (ga_d a)) <> 0 /\ ga_num_group a = 1 /\
               0 <= at_sm (dif_shift (ga_d a)) <= 21)
}.

(** ** The quantities the function computes *)

Lemma s32_small (x : Z) : 0 <= x < 2 ^ 31 -> s32 x = x.
Proof. intros. apply swrap_id; [lia|]. unfold sint_range. lia. Qed.

Lemma shiftr_dext (x : Z) : Z.shiftr x DEXTSHIFT = x / 2048.
Proof. unfold DEXTSHIFT. now rewrite Z.shiftr_div_pow2 by lia. Qed.

Lemma land_dext (x : Z) : Z.land x (DEXT - 1) = x mod 2048.
Proof. change (DEXT - 1) with (Z.ones 11). now rewrite Z.land_ones by lia. Qed.

Ltac unfold_dext := unfold loc_ok, idx_ok, loc_index, n_indirect, NDEXT, NSDEXT, NLDEXT,
  SAMFS_SBLKV2 in *; change DEXT with 2048 in *.

Section Geometry.
Context (a : sam_get_extent_args) (G : geometry_ok a).
Let lo := args_layout a.

Lemma unit_pos : 0 < lo_unit lo.
Proof. destruct G. cbn. nia. Qed.

Lemma dif_bound : at_lg (dif_shift (ga_d a)) <= 21.
Proof.
  destruct (geo_shift a G) as [E|E]; [lia|].
  pose proof (geo_lg a G) as H. unfold dau_kblocks_max in H. rewrite E in H.
  apply (Z.pow_le_mono_r_iff 2); lia.
Qed.

Lemma dau_blks_unit : dau_blks a = lo_unit lo.
Proof.
  destruct G. unfold dau_blks. cbn. unfold dau_kblocks_max in *.
  destruct (Z.ltb_spec 1 (ga_num_group a)); [|lia].
  rewrite swrap_id; [lia|lia|]. unfold sint_range. nia.
Qed.

(** Shifting and dividing agree: the two ways the code counts large extents. *)
Lemma in_large_units_div (b : Z) : 0 <= b -> in_large_units a b = b / lo_unit lo.
Proof.
  intros Hb. unfold in_large_units, use_shift.
  destruct (Z.eqb_spec (at_lg (dif_shift (ga_d a))) 0) as [E|E]; cbn [negb andb].
  - rewrite dau_blks_unit. apply Z.quot_div_nonneg; [lia|apply unit_pos].
  - destruct (Z.eqb_spec (ga_num_group a) 1) as [E1|E1].
    + rewrite Z.shiftr_div_pow2 by apply (geo_dif a G). f_equal. cbn.
      destruct (geo_shift a G); [lia|]. rewrite E1. lia.
    + rewrite dau_blks_unit. apply Z.quot_div_nonneg; [lia|apply unit_pos].
Qed.

Lemma sm_kb_val :
  st_on_large (ga_status a) = false ->
  sm_kb a = NSDEXT * 2 ^ at_sm (dif_shift (ga_d a)) /\ sm_kb a <= 2 ^ 24.
Proof.
  intros Hl. destruct (geo_small a G) as [?|(_ & _ & Hs)]; [congruence|].
  unfold sm_kb, NSDEXT. rewrite Z.shiftl_mul_pow2 by lia.
  pose proof (Z.pow_le_mono_r 2 (at_sm (dif_shift (ga_d a))) 21 ltac:(lia) ltac:(lia)).
  pose proof (pow2_pos (at_sm (dif_shift (ga_d a))) ltac:(lia)).
  rewrite s32_small; lia.
Qed.

Lemma use_shift_unit :
  use_shift a = true -> lo_unit lo = 2 ^ at_lg (dif_shift (ga_d a)).
Proof.
  unfold use_shift. intros [E1 E2]%andb_prop.
  apply negb_true_iff, Z.eqb_neq in E1. apply Z.eqb_eq in E2. cbn. rewrite E2.
  destruct (geo_shift a G); lia.
Qed.

Lemma dir_blks_val : dir_blks a = direct_start lo NDEXT.
Proof.
  pose proof dif_bound as Hd. pose proof (geo_dif a G) as Hd0.
  pose proof (Z.pow_le_mono_r 2 _ 21 ltac:(lia) Hd) as Hp.
  pose proof (pow2_pos _ Hd0) as Hp0. pose proof unit_pos as Hu.
  unfold dir_blks, direct_start, NDEXT, NSDEXT, NLDEXT.
  destruct (use_shift a) eqn:Us.
  - pose proof (use_shift_unit Us) as U. rewrite !Z.shiftl_mul_pow2 by lia.
    destruct (st_on_large (ga_status a)) eqn:L; unfold lo in *;
      cbn [args_layout lo_small]; rewrite L, U.
    + rewrite s32_small; lia.
    + destruct (sm_kb_val L) as [E Hs]. unfold NSDEXT in E.
      pose proof (pow2_pos (at_sm (dif_shift (ga_d a)))) as Hs0.
      destruct (geo_small a G) as [?|(_ & _ & ?)]; [congruence|].
      rewrite (s32_small (8 * 2 ^ _)) by lia. rewrite s32_small by lia. rewrite E.
      change (8 + 8 <=? 8) with false. cbv iota. lia.
  - assert (L : st_on_large (ga_status a) = true).
    { destruct (geo_small a G) as [?|(E1 & E2 & _)]; [assumption|].
      unfold use_shift in Us. apply andb_false_iff in Us.
      rewrite negb_false_iff, Z.eqb_eq, Z.eqb_neq in Us. lia. }
    unfold lo. cbn [args_layout lo_small]. rewrite L, dau_blks_unit. unfold lo.
    apply swrap_id; [lia|]. unfold sint_range.
    destruct G. unfold dau_kblocks_max in *. cbn in *. nia.
Qed.
End Geometry.

(** ** The layout: every kilobyte is in at most one extent *)

Definition layout_ok (lo : layout) : Prop :=
  0 < lo_unit lo /\ match lo_small lo with Some s => 0 < s | None => True end.

Lemma direct_start_mono (lo : layout) (i j : Z) :
  layout_ok lo -> 0 <= i -> i <= j -> direct_start lo i <= direct_start lo j.
Proof.
  intros [Hu Hs] Hi Hij. unfold direct_start. destruct (lo_small lo) as [s|]; [|nia].
  destruct (Z.leb_spec i NSDEXT), (Z.leb_spec j NSDEXT); unfold NSDEXT in *; nia.
Qed.

Lemma direct_start_nonneg (lo : layout) (i : Z) :
  layout_ok lo -> 0 <= i -> 0 <= direct_start lo i.
Proof.
  intros H Hi. etransitivity; [|apply (direct_start_mono lo 0 i); auto; lia].
  unfold direct_start. destruct (lo_small lo); cbn; lia.
Qed.

(** An indirectly mapped extent covers exactly the kilobytes of its ordinal. *)
Lemma covers_indirect (lo : layout) (l : loc) (bn : Z) :
  layout_ok lo -> (forall i, l <> Direct i) ->
  covers lo l bn <->
  loc_ok l /\ direct_start lo NDEXT + loc_index l * lo_unit lo <= bn /\
  (bn - direct_start lo NDEXT) / lo_unit lo = loc_index l.
Proof.
  intros [Hu _] Hnd. unfold covers.
  assert (Hst : loc_start lo l = direct_start lo NDEXT + loc_index l * lo_unit lo /\
                loc_len lo l = lo_unit lo)
    by (destruct l; [exfalso; eapply Hnd|..]; eauto).
  destruct Hst as [-> ->]. set (d := direct_start lo NDEXT).
  split; intros [Hok H]; (split; [assumption|]).
  - split; [lia|]. symmetry. apply Z.div_unique with (bn - d - loc_index l * lo_unit lo); lia.
  - destruct H as [H1 H2]. pose proof (Z.mod_pos_bound (bn - d) (lo_unit lo) Hu).
    pose proof (Z.div_mod (bn - d) (lo_unit lo)). nia.
Qed.

Lemma loc_index_range (l : loc) :
  (forall i, l <> Direct i) -> loc_ok l -> 0 <= loc_index l < n_indirect.
Proof. intros Hnd Hok. destruct l; [exfalso; eapply Hnd; eauto|..]; unfold_dext; lia. Qed.

Lemma loc_index_inj (l l' : loc) :
  (forall i, l <> Direct i) -> (forall i, l' <> Direct i) ->
  loc_ok l -> loc_ok l' -> loc_index l = loc_index l' -> l = l'.
Proof.
  intros Hl Hl' Ho Ho' E.
  destruct l; [exfalso; eapply Hl; eauto|..];
    (destruct l'; [exfalso; eapply Hl'; eauto|..]); unfold_dext;
    try (exfalso; lia); f_equal; lia.
Qed.

Lemma covers_direct_bound (lo : layout) (i bn : Z) :
  layout_ok lo -> covers lo (Direct i) bn -> bn < direct_start lo NDEXT.
Proof.
  intros Hlo [Hok H]. cbn in *.
  pose proof (direct_start_mono lo (i + 1) NDEXT Hlo). lia.
Qed.

Lemma covers_indirect_bound (lo : layout) (l : loc) (bn : Z) :
  layout_ok lo -> (forall i, l <> Direct i) -> covers lo l bn -> direct_start lo NDEXT <= bn.
Proof.
  intros Hlo Hnd Hc. apply covers_indirect in Hc as (Hok & H & _); [|assumption..].
  pose proof (loc_index_range l Hnd Hok). destruct Hlo. nia.
Qed.

Lemma covers_inj (lo : layout) (l l' : loc) (bn : Z) :
  layout_ok lo -> covers lo l bn -> covers lo l' bn -> l = l'.
Proof.
  intros Hlo Hc Hc'.
  assert (Hd : (exists i, l = Direct i) \/ forall i, l <> Direct i)
    by (destruct l; [left; eauto|right; congruence..]).
  assert (Hd' : (exists i, l' = Direct i) \/ forall i, l' <> Direct i)
    by (destruct l'; [left; eauto|right; congruence..]).
  destruct Hd as [[i ->]|Hd], Hd' as [[j ->]|Hd'].
  - destruct Hc as [Ho H], Hc' as [Ho' H']. cbn in *. f_equal.
    destruct (Z.lt_trichotomy i j) as [Hij|[E|Hij]]; [|exact E|].
    + pose proof (direct_start_mono lo (i + 1) j Hlo). lia.
    + pose proof (direct_start_mono lo (j + 1) i Hlo). lia.
  - apply covers_direct_bound in Hc; [|assumption].
    apply covers_indirect_bound in Hc'; [lia|assumption..].
  - apply covers_direct_bound in Hc'; [|assumption].
    apply covers_indirect_bound in Hc; [lia|assumption..].
  - apply covers_indirect in Hc as (Ho & _ & E); [|assumption..].
    apply covers_indirect in Hc' as (Ho' & _ & E'); [|assumption..].
    apply loc_index_inj; congruence.
Qed.

(** ** The indirect part *)

Lemma result_loc_ind1 (kp : kptr_t) : result_loc NDEXT kp = Ind1 (kptr0 kp).
Proof. reflexivity. Qed.
Lemma result_loc_ind2 (kp : kptr_t) :
  result_loc (NDEXT + 1) kp = Ind2 (kptr0 kp) (kptr1 kp).
Proof. reflexivity. Qed.
Lemma result_loc_ind3 (kp : kptr_t) :
  result_loc (NDEXT + 2) kp = Ind3 (kptr0 kp) (kptr1 kp) (kptr2 kp).
Proof. reflexivity. Qed.

Lemma get_indirect_v2 (vers bn : Z) (kp : kptr_t) :
  SAMFS_SBLKV2 <= vers -> 0 <= bn < n_indirect ->
  exists de kp', get_indirect vers bn kp = (0, kp', Some de) /\
    NDEXT <= de <= NDEXT + 2 /\ loc_ok (result_loc de kp') /\
    loc_index (result_loc de kp') = bn.
Proof.
  intros Hv Hbn. unfold get_indirect. rewrite !shiftr_dext, !land_dext.
  change DEXT with 2048. unfold n_indirect, SAMFS_SBLKV2 in *. change DEXT with 2048 in *.
  destruct (Z.leb_spec 2048 bn) as [H1|H1].
  - destruct (Z.leb_spec 2048 (bn / 2048 - 1)) as [H2|H2].
    + destruct (Z.ltb_spec vers 2) as [?|_]; [lia|]. cbn [andb].
      destruct (Z.leb_spec 2048 ((bn / 2048 - 1) / 2048 - 1)) as [?|H3]; [dlia|].
      eexists _, _. split; [reflexivity|]. rewrite result_loc_ind3.
      cbn [kptr0 kptr1 kptr2]. rewrite !s32_small by dlia. unfold_dext. dlia.
    + eexists _, _. split; [reflexivity|]. rewrite result_loc_ind2.
      cbn [kptr0 kptr1 kptr2]. rewrite !s32_small by dlia. unfold_dext. dlia.
  - eexists _, _. split; [reflexivity|]. rewrite result_loc_ind1.
    cbn [kptr0 kptr1 kptr2]. rewrite !s32_small by dlia. unfold_dext. lia.
Qed.

Lemma get_indirect_v2_big (vers bn : Z) (kp : kptr_t) :
  SAMFS_SBLKV2 <= vers -> n_indirect <= bn ->
  exists kp', get_indirect vers bn kp = (EFBIG, kp', None).
Proof.
  intros Hv Hbn. unfold get_indirect. rewrite !shiftr_dext, !land_dext. unfold_dext.
  destruct (Z.leb_spec 2048 bn) as [H1|H1]; [|dlia].
  destruct (Z.leb_spec 2048 (bn / 2048 - 1)) as [H2|H2]; [|dlia].
  destruct (Z.ltb_spec vers 2) as [?|_]; [dlia|]. cbn [andb].
  destruct (Z.leb_spec 2048 ((bn / 2048 - 1) / 2048 - 1)); [eauto|dlia].
Qed.

(** With a version 1 superblock the middle index of a triple indirect location is
    one too large, and the last one is lost. *)
Lemma get_indirect_v1 (bn : Z) (kp : kptr_t) :
  0 <= bn < n_indirect ->
  match get_indirect SAMFS_SBLKV2 bn kp with
  | (_, kp2, Some de) =>
      get_indirect SAMFS_SBLKV1 bn kp =
      if de =? NDEXT + 2 then
        if kptr1 kp2 =? DEXT - 1 then (EFBIG, mk_kptr (kptr0 kp) DEXT (kptr2 kp), None)
        else (0, mk_kptr (kptr0 kp2) (kptr1 kp2 + 1) (kptr2 kp2), Some de)
      else (0, kp2, Some de)
  | _ => False
  end.
Proof.
  intros Hbn. unfold get_indirect, SAMFS_SBLKV1. rewrite !shiftr_dext, !land_dext.
  unfold_dext. change (2 <? 2) with false. change (1 <? 2) with true. cbn [andb].
  destruct (Z.leb_spec 2048 bn) as [H1|H1]; [|reflexivity].
  destruct (Z.leb_spec 2048 (bn / 2048 - 1)) as [H2|H2]; [|reflexivity].
  rewrite (s32_small ((bn / 2048 - 1) mod 2048)) by dlia.
  rewrite (s32_small ((bn / 2048 - 1) mod 2048 + 1)) by dlia.
  destruct (Z.leb_spec 2048 ((bn / 2048 - 1) / 2048 - 1)) as [?|H3]; [dlia|].
  cbn [kptr0 kptr1 kptr2]. rewrite Z.eqb_refl.
  destruct (Z.leb_spec 2048 ((bn / 2048 - 1) mod 2048 + 1)),
    (Z.eqb_spec ((bn / 2048 - 1) mod 2048) (2048 - 1)); try dlia; [|reflexivity].
  repeat f_equal. dlia.
Qed.

(** ** [sam_get_extent] *)

Lemma args_layout_ok (a : sam_get_extent_args) : geometry_ok a -> layout_ok (args_layout a).
Proof.
  intros G. split; [apply unit_pos; exact G|]. cbn.
  destruct (st_on_large (ga_status a)) eqn:L; [exact I|].
  destruct (geo_small a G) as [?|(_ & _ & ?)]; [congruence|]. apply pow2_pos. lia.
Qed.

(** Number of extents left in the group of like extents that [l] is in. *)
Definition like_left (lo : layout) (l : loc) : Z :=
  match l with
  | Direct i =>
      if bool_decide (lo_small lo = None) then NDEXT - i
      else if i <? NSDEXT then NSDEXT - i else NDEXT - i
  | _ => 0
  end.

Definition loc_btype (lo : layout) (l : loc) : btype :=
  match l with
  | Direct i =>
      if bool_decide (lo_small lo = None) then LG else if i <? NSDEXT then SM else LG
  | _ => LG
  end.

(** The results describe the extent [l] that holds kilobyte [bn]. *)
Definition describes (a : sam_get_extent_args) (bn : Z)
    (r : sam_get_extent_rval) (kp : kptr_t) : Prop :=
  let l := result_loc (rv_de r) kp in
  covers (args_layout a) l bn /\ rv_dtype r = ga_dt a /\
  rv_btype r = loc_btype (args_layout a) l /\ rv_ileft r = like_left (args_layout a) l.

Lemma result_loc_direct (de : Z) (kp : kptr_t) :
  0 <= de < NDEXT -> result_loc de kp = Direct de.
Proof. intros. unfold result_loc. destruct (Z.ltb_spec de NDEXT); [reflexivity|lia]. Qed.

Lemma div_slot (bn u n : Z) : 0 < u -> 0 <= bn < n * u -> 0 <= bn / u < n.
Proof.
  intros Hu [H0 H]. split; [apply Z.div_pos; lia|].
  apply Z.div_lt_upper_bound; lia.
Qed.

Lemma div_slot_bounds (bn u : Z) : 0 < u -> bn / u * u <= bn < (bn / u + 1) * u.
Proof.
  intros Hu. pose proof (Z.div_mod bn u ltac:(lia)).
  pose proof (Z.mod_pos_bound bn u Hu). nia.
Qed.

Section Direct.
Context (a : sam_get_extent_args) (kp : kptr_t) (G : geometry_ok a).
Context (Hoff : 0 <= ga_offset a).
Let lo := args_layout a.
Let bn := Z.shiftr (ga_offset a) SAM_DEV_BSHIFT.

Lemma bn_nonneg : 0 <= bn.
Proof. apply Z.shiftr_nonneg. exact Hoff. Qed.

Lemma get_extent_on_large :
  st_on_large (ga_status a) = true -> bn < dir_blks a ->
  exists r, sam_get_extent a kp = (0, kp, Some r) /\ describes a bn r kp.
Proof.
  intros L Hd. pose proof bn_nonneg as H0. pose proof (unit_pos a G) as Hu.
  assert (Hs : lo_small (args_layout a) = None) by (cbn; now rewrite L).
  unfold sam_get_extent. fold bn. destruct (Z.ltb_spec (ga_offset a) 0); [lia|].
  destruct (Z.ltb_spec bn (dir_blks a)); [|lia]. rewrite L.
  rewrite in_large_units_div by assumption. fold lo in Hu, Hs |- *.
  rewrite dir_blks_val in Hd by assumption. fold lo in Hd.
  unfold direct_start in Hd. rewrite Hs in Hd.
  pose proof (div_slot bn (lo_unit lo) NDEXT Hu ltac:(lia)) as Hde.
  rewrite s32_small by (unfold NDEXT, NSDEXT, NLDEXT in *; lia).
  eexists. split; [reflexivity|]. unfold describes. cbn [rv_de rv_dtype rv_btype rv_ileft].
  fold lo. rewrite (result_loc_direct _ _ Hde).
  unfold loc_btype, like_left. rewrite Hs.
  split; [|repeat split]. split; [exact Hde|]. cbn [loc_start loc_len].
  unfold direct_start. rewrite Hs. pose proof (div_slot_bounds bn (lo_unit lo) Hu). lia.
Qed.

Lemma get_extent_small :
  st_on_large (ga_status a) = false -> bn < dir_blks a ->
  exists r, sam_get_extent a kp = (0, kp, Some r) /\ describes a bn r kp.
Proof.
  intros L Hd. pose proof bn_nonneg as H0. pose proof (unit_pos a G) as Hu.
  destruct (geo_small a G) as [?|(Hdl & Hng & Hds)]; [congruence|].
  set (s := 2 ^ at_sm (dif_shift (ga_d a))).
  assert (Hs0 : 0 < s) by (apply pow2_pos; lia).
  assert (Hs : lo_small (args_layout a) = Some s) by (cbn; now rewrite L).
  assert (Hsm : sm_kb a = 8 * s) by (apply (sm_kb_val a G L)).
  assert (Us : use_shift a = true).
  { unfold use_shift. apply Z.eqb_neq in Hdl. rewrite Hdl, Hng. reflexivity. }
  pose proof (use_shift_unit a G Us) as Hun.
  unfold sam_get_extent. fold bn. destruct (Z.ltb_spec (ga_offset a) 0); [lia|].
  destruct (Z.ltb_spec bn (dir_blks a)); [|lia]. rewrite L, Hsm.
  rewrite dir_blks_val in Hd by assumption. fold lo in Hu, Hs, Hun, Hd.
  unfold direct_start, NDEXT, NSDEXT, NLDEXT in Hd. rewrite Hs in Hd.
  change (8 + 8 <=? 8) with false in Hd. cbv iota in Hd.
  rewrite !Z.shiftr_div_pow2 by (lia || apply (geo_dif a G)). fold s. rewrite <- Hun.
  destruct (Z.ltb_spec bn (8 * s)) as [Hb|Hb].
  - pose proof (div_slot bn s 8 Hs0 ltac:(lia)) as Hde.
    pose proof (div_slot_bounds bn s Hs0).
    rewrite s32_small by lia. eexists. split; [reflexivity|].
    unfold describes. cbn [rv_de rv_dtype rv_btype rv_ileft]. fold lo.
    rewrite result_loc_direct by (unfold_dext; lia).
    unfold loc_btype, like_left. rewrite Hs. cbn [bool_decide].
    unfold_dext. destruct (Z.ltb_spec (bn / s) 8); [|lia].
    split; [|repeat split]. split; [cbn; unfold_dext; lia|]. cbn [loc_start loc_len].
    unfold direct_start. rewrite Hs. unfold_dext.
    destruct (Z.leb_spec (bn / s) 8), (Z.leb_spec (bn / s + 1) 8); lia.
  - pose proof (div_slot (bn - 8 * s) (lo_unit lo) 8 Hu ltac:(lia)) as Hde.
    pose proof (div_slot_bounds (bn - 8 * s) (lo_unit lo) Hu).
    set (q := (bn - 8 * s) / lo_unit lo) in *.
    rewrite s32_small by (unfold_dext; lia). eexists. split; [reflexivity|].
    unfold describes. cbn [rv_de rv_dtype rv_btype rv_ileft]. fold lo.
    rewrite result_loc_direct by (unfold_dext; lia).
    unfold loc_btype, like_left. rewrite Hs. cbn [bool_decide].
    unfold_dext. destruct (Z.ltb_spec (q + 8) 8); [lia|].
    split; [|repeat split]. split; [cbn; unfold_dext; lia|]. cbn [loc_start loc_len].
    unfold direct_start. rewrite Hs. unfold_dext.
    destruct (Z.leb_spec (q + 8) 8), (Z.leb_spec (q + 8 + 1) 8); nia.
Qed.

Lemma get_extent_direct :
  bn < dir_blks a ->
  exists r, sam_get_extent a kp = (0, kp, Some r) /\ describes a bn r kp.
Proof.
  destruct (st_on_large (ga_status a)) eqn:L;
    [apply get_extent_on_large | apply get_extent_small]; assumption.
Qed.
End Direct.

(** Kilobytes that the layout can address. *)
Definition max_kb (lo : layout) : Z := direct_start lo NDEXT + n_indirect * lo_unit lo.

Lemma result_loc_not_direct (de : Z) (kp : kptr_t) :
  NDEXT <= de -> forall i, result_loc de kp <> Direct i.
Proof.
  intros H i. unfold result_loc. destruct (Z.ltb_spec de NDEXT); [lia|].
  destruct (de =? NDEXT), (de =? NDEXT + 1); congruence.
Qed.

Lemma get_extent_indirect (a : sam_get_extent_args) (kp : kptr_t) :
  0 <= ga_offset a -> dir_blks a <= Z.shiftr (ga_offset a) SAM_DEV_BSHIFT ->
  sam_get_extent a kp =
  match get_indirect (ga_sblk_vers a)
          (in_large_units a (Z.shiftr (ga_offset a) SAM_DEV_BSHIFT - dir_blks a)) kp with
  | (err, kp', Some extent) => (err, kp', Some (mk_get_extent_rval extent (ga_dt a) LG 0))
  | (err, kp', None) => (err, kp', None)
  end.
Proof.
  intros H0 Hd. unfold sam_get_extent.
  destruct (Z.ltb_spec (ga_offset a) 0); [lia|].
  destruct (Z.ltb_spec (Z.shiftr (ga_offset a) SAM_DEV_BSHIFT) (dir_blks a)); [lia|].
  reflexivity.
Qed.

Lemma get_extent_sound (a : sam_get_extent_args) (kp : kptr_t) :
  geometry_ok a -> SAMFS_SBLKV2 <= ga_sblk_vers a -> 0 <= ga_offset a ->
  let bn := ga_offset a / 1024 in
  if bn <? max_kb (args_layout a)
  then exists kp' r, sam_get_extent a kp = (0, kp', Some r) /\ describes a bn r kp'
  else exists kp', sam_get_extent a kp = (EFBIG, kp', None).
Proof.
  intros G Hv H0 bn.
  assert (Hbn : Z.shiftr (ga_offset a) SAM_DEV_BSHIFT = bn)
    by (unfold SAM_DEV_BSHIFT; now rewrite Z.shiftr_div_pow2 by lia).
  pose proof (unit_pos a G) as Hu. pose proof (args_layout_ok a G) as Hlo.
  destruct (Z.lt_ge_cases bn (dir_blks a)) as [Hd|Hd].
  - assert (Hm : bn < max_kb (args_layout a)).
    { rewrite dir_blks_val in Hd by assumption. unfold max_kb, n_indirect, DEXT. nia. }
    apply Z.ltb_lt in Hm. rewrite Hm. exists kp. rewrite <- Hbn in Hd |- *.
    apply get_extent_direct; assumption.
  - rewrite get_extent_indirect by (rewrite ?Hbn; assumption). rewrite Hbn.
    rewrite in_large_units_div by (assumption || lia).
    rewrite dir_blks_val in * by assumption. unfold max_kb.
    set (lo := args_layout a) in *. set (d := direct_start lo NDEXT) in *.
    pose proof (div_slot_bounds (bn - d) (lo_unit lo) Hu) as Hq.
    assert (Hq0 : 0 <= (bn - d) / lo_unit lo) by (apply Z.div_pos; lia).
    destruct (Z.ltb_spec bn (d + n_indirect * lo_unit lo)) as [Hm|Hm].
    + destruct (get_indirect_v2 (ga_sblk_vers a) ((bn - d) / lo_unit lo) kp)
        as (de & kp' & -> & Hde & Hok & Hix); [assumption| |].
      { apply div_slot; [assumption|lia]. }
      eexists kp', _. split; [reflexivity|]. unfold describes. cbn [rv_de rv_dtype rv_btype rv_ileft].
      pose proof (result_loc_not_direct de kp' ltac:(lia)) as Hnd.
      split; [|destruct (result_loc de kp'); [exfalso; eapply Hnd; eauto|repeat split..]].
      apply covers_indirect; [assumption..|]. fold lo d. rewrite Hix. split; [assumption|]. split; [lia|reflexivity].
    + destruct (get_indirect_v2_big (ga_sblk_vers a) ((bn - d) / lo_unit lo) kp)
        as (kp' & ->); [assumption| |eauto].
      apply Z.div_le_lower_bound; [assumption|lia].
Qed.

(** What a location covers is within the layout. *)
Lemma covers_max_kb (lo : layout) (l : loc) (bn : Z) :
  layout_ok lo -> covers lo l bn -> bn < max_kb lo.
Proof.
  intros Hlo Hc. destruct (Z.lt_ge_cases bn (max_kb lo)) as [|Hm]; [assumption|]. exfalso.
  assert (Hnd : forall i, l <> Direct i).
  { intros i ->. apply covers_direct_bound in Hc; [|assumption].
    unfold max_kb, n_indirect, DEXT in Hm. destruct Hlo. nia. }
  apply covers_indirect in Hc as (Hok & _ & Hix); [|assumption..].
  pose proof (loc_index_range l Hnd Hok) as Hr. rewrite <- Hix in Hr.
  unfold max_kb in Hm. destruct Hlo as [Hu _].
  pose proof (div_slot_bounds (bn - direct_start lo NDEXT) (lo_unit lo) Hu). nia.
Qed.

(** C33. For a version 2 superblock, [sam_get_extent] succeeds exactly on the
    offsets that the file layout can address, and then it returns the one extent
    that holds the offset, with the right block type, device and count of like
    extents left; past the end of the layout it fails with EFBIG. *)
Theorem sam_get_extent_correct (a : sam_get_extent_args) (kp : kptr_t) :
  geometry_ok a -> SAMFS_SBLKV2 <= ga_sblk_vers a -> 0 <= ga_offset a ->
  (forall l, covers (args_layout a) l (ga_offset a / 1024) <->
     exists kp' r, sam_get_extent a kp = (0, kp', Some r) /\
       describes a (ga_offset a / 1024) r kp' /\ result_loc (rv_de r) kp' = l) /\
  (max_kb (args_layout a) <= ga_offset a / 1024 <->
     exists kp', sam_get_extent a kp = (EFBIG, kp', None)).
Proof.
  intros G Hv H0. pose proof (get_extent_sound a kp G Hv H0) as H.
  pose proof (args_layout_ok a G) as Hlo. cbv zeta in H.
  destruct (Z.ltb_spec (ga_offset a / 1024) (max_kb (args_layout a))) as [Hm|Hm].
  - destruct H as (kp' & r & E & Hd). split.
    + intros l. split.
      * intros Hc. exists kp', r. split; [assumption|]. split; [assumption|].
        destruct Hd as [Hd _]. eapply covers_inj; eauto.
      * intros (kp1 & r1 & E1 & [Hc _] & <-). exact Hc.
    + split; [lia|]. intros (kp1 & E1). congruence.
  - destruct H as (kp' & E). split.
    + intros l. split; [|intros (? & ? & E1 & _); congruence].
      intros Hc. exfalso. pose proof (covers_max_kb _ _ _ Hlo Hc). lia.
    + split; [eauto|]. intros _. exact Hm.
Qed.

(** The entry of the inode's extent array that leads to a location. *)
Definition loc_ext (l : loc) : Z :=
  match l with Direct i => i | Ind1 _ => NDEXT | Ind2 _ _ => NDEXT + 1 | Ind3 _ _ _ => NDEXT + 2 end.

Lemma result_loc_ext (de : Z) (kp : kptr_t) :
  de <= NDEXT + 2 -> loc_ext (result_loc de kp) = de.
Proof.
  intros H. unfold result_loc. destruct (Z.ltb_spec de NDEXT); [reflexivity|].
  destruct (Z.eqb_spec de NDEXT) as [->|]; [reflexivity|].
  destruct (Z.eqb_spec de (NDEXT + 1)) as [->|]; cbn; lia.
Qed.

Definition with_vers (a : sam_get_extent_args) (v : Z) : sam_get_extent_args :=
  mk_get_extent_args (ga_dau a) (ga_num_group a) v (ga_status a) (ga_offset a).

(** A direct location is found without looking at the superblock version. *)
Lemma get_extent_direct_vers (a : sam_get_extent_args) (kp : kptr_t) (v : Z) :
  Z.shiftr (ga_offset a) SAM_DEV_BSHIFT < dir_blks a ->
  sam_get_extent (with_vers a v) kp = sam_get_extent a kp.
Proof.
  intros Hlt. apply Z.ltb_lt in Hlt. unfold sam_get_extent. cbn [ga_offset with_vers].
  change (dir_blks (with_vers a v)) with (dir_blks a). rewrite Hlt.
  destruct (ga_offset a <? 0); reflexivity.
Qed.

Lemma describes_direct (a : sam_get_extent_args) (bn : Z) r kp :
  geometry_ok a -> bn < dir_blks a -> describes a bn r kp -> rv_de r < NDEXT.
Proof.
  intros G Hlt [Hc _]. destruct (Z.lt_ge_cases (rv_de r) NDEXT) as [|Hn]; [assumption|].
  apply covers_indirect_bound in Hc;
    [|apply args_layout_ok; assumption|apply result_loc_not_direct; assumption].
  rewrite <- dir_blks_val in Hc by assumption. lia.
Qed.

(** [sam_get_extent] finds the location that covers an offset. *)
Lemma get_extent_loc (a : sam_get_extent_args) (kp : kptr_t) (l : loc) :
  geometry_ok a -> SAMFS_SBLKV2 <= ga_sblk_vers a -> 0 <= ga_offset a ->
  covers (args_layout a) l (ga_offset a / 1024) ->
  exists kp' r, sam_get_extent a kp = (0, kp', Some r) /\ result_loc (rv_de r) kp' = l /\
    rv_de r = loc_ext l.
Proof.
  intros G Hv H0 Hc. pose proof (args_layout_ok a G) as Hlo. pose proof (get_extent_sound a kp G Hv H0) as H.
  cbv zeta in H. pose proof (covers_max_kb _ _ _ Hlo Hc) as Hm. apply Z.ltb_lt in Hm. rewrite Hm in H.
  destruct H as (kp' & r & E & Hd). exists kp', r. split; [exact E|].
  assert (El : result_loc (rv_de r) kp' = l) by (eapply covers_inj; [exact Hlo|apply Hd|exact Hc]).
  split; [exact El|]. rewrite <- El. symmetry. apply result_loc_ext.
  assert (Hbn : Z.shiftr (ga_offset a) SAM_DEV_BSHIFT = ga_offset a / 1024)
    by (unfold SAM_DEV_BSHIFT; now rewrite Z.shiftr_div_pow2 by lia).
  destruct (Z.lt_ge_cases (ga_offset a / 1024) (dir_blks a)) as [Hlt|Hge].
  - pose proof (describes_direct a _ r kp' G Hlt Hd). lia.
  - rewrite get_extent_indirect in E by (rewrite ?Hbn; lia). rewrite Hbn in E. unfold get_indirect in E.
    repeat (match type of E with context [if ?b then _ else _] => destruct b end; try discriminate);
      injection E as _ <-; cbn [rv_de]; lia.
Qed.

Lemma large_index_range (a : sam_get_extent_args) :
  geometry_ok a -> 0 <= ga_offset a -> ga_offset a / 1024 < max_kb (args_layout a) ->
  dir_blks a <= Z.shiftr (ga_offset a) SAM_DEV_BSHIFT ->
  0 <= in_large_units a (Z.shiftr (ga_offset a) SAM_DEV_BSHIFT - dir_blks a) < n_indirect.
Proof.
  intros G H0 Hm Hge. rewrite in_large_units_div by (assumption || lia).
  apply div_slot; [apply unit_pos; assumption|].
  rewrite dir_blks_val in * by assumption. unfold SAM_DEV_BSHIFT in *.
  rewrite Z.shiftr_div_pow2 in * by lia. change (2 ^ 10) with 1024 in *.
  unfold max_kb in Hm. lia.
Qed.

(** A version 1 superblock maps every addressable offset as version 2 does,
    except under the triple indirect block: there the middle index is one larger,
    and where version 2 uses the last entry of a middle block the call fails with
    EFBIG, so that one offset range in 2048 cannot be mapped at all. *)
Theorem sam_get_extent_v1 (a : sam_get_extent_args) (kp : kptr_t) :
  geometry_ok a -> 0 <= ga_offset a -> ga_offset a / 1024 < max_kb (args_layout a) ->
  exists kp2 r, sam_get_extent (with_vers a SAMFS_SBLKV2) kp = (0, kp2, Some r) /\
    sam_get_extent (with_vers a SAMFS_SBLKV1) kp =
    if rv_de r =? NDEXT + 2 then
      if kptr1 kp2 =? DEXT - 1
      then (EFBIG, mk_kptr (kptr0 kp) DEXT (kptr2 kp), None)
      else (0, mk_kptr (kptr0 kp2) (kptr1 kp2 + 1) (kptr2 kp2), Some r)
    else (0, kp2, Some r).
Proof.
  intros G H0 Hm.
  destruct (Z.lt_ge_cases (Z.shiftr (ga_offset a) SAM_DEV_BSHIFT) (dir_blks a)) as [Hlt|Hge].
  - destruct (get_extent_direct a kp G H0 Hlt) as (r & E & Hd). exists kp, r.
    rewrite !get_extent_direct_vers by assumption. split; [exact E|].
    apply describes_direct in Hd; [|assumption..].
    destruct (Z.eqb_spec (rv_de r) (NDEXT + 2)); [lia|exact E].
  - rewrite !get_extent_indirect by assumption.
    pose proof (large_index_range a G H0 Hm Hge) as Hq.
    cbn [ga_sblk_vers ga_offset with_vers].
    change (dir_blks (with_vers a _)) with (dir_blks a).
    change (in_large_units (with_vers a _)) with (in_large_units a).
    set (q := in_large_units a _) in *.
    destruct (get_indirect_v2 SAMFS_SBLKV2 q kp) as (de & kp2 & E & _); [lia|assumption|].
    pose proof (get_indirect_v1 q kp Hq) as Hv. rewrite E in Hv |- *. rewrite Hv.
    eexists kp2, _. split; [reflexivity|]. cbn [rv_de].
    destruct (de =? NDEXT + 2); [destruct (kptr1 kp2 =? DEXT - 1)|]; reflexivity.
Qed.

(** [sam_set_dau], called on a record whose difference shifts are zero, builds
    a DAU table that [sam_get_extent] can use: for files on large extents whatever
    the DAU sizes, and for files with small extents when both DAUs are powers of two
    and the device is not a striped group. *)
Theorem sam_set_dau_geometry (d : sam_dau_t) (sk lk : Z) :
  dif_shift d = mk_per_bt 0 0 ->
  0 < sk <= dau_kblocks_max -> 0 < lk <= dau_kblocks_max ->
  exists d', sam_set_dau d sk lk = Some d' /\
    forall a, ga_d a = d' -> 0 <= ga_num_group a < 2 ^ 31 ->
      (st_on_large (ga_status a) = true \/
       exists i j, sk = 2 ^ i /\ lk = 2 ^ j /\ 0 <= i /\ 0 < j /\ ga_num_group a = 1) ->
      geometry_ok a /\
      lo_unit (args_layout a) = lk * Z.max 1 (ga_num_group a) /\
      lo_small (args_layout a) = (if st_on_large (ga_status a) then None else Some sk).
Proof.
  intros Hdif Hs Hl.
  destruct (sam_set_dau_ok d sk lk) as (d' & E & Hkb & HS & HL & _); [lia|lia|].
  exists d'. split; [exact E|]. intros a Ha Hng Hst.
  destruct HS as (_ & _ & _ & _ & HSp & _), HL as (_ & _ & _ & _ & HLp & HLn).
  rewrite Hkb, Hdif in *. cbn [bt_get at_sm at_lg] in *.
  assert (Hlg : 0 <= at_lg (dif_shift d') /\
    (at_lg (dif_shift d') = 0 \/ lk = 2 ^ at_lg (dif_shift d'))).
  { destruct (Z.eq_dec lk (2 ^ Z.log2 lk)) as [Ep|Ep].
    - destruct (HLp (Z.log2 lk) (Z.log2_nonneg _) Ep) as (_ & -> & _).
      split; [apply Z.log2_nonneg|]. right. exact Ep.
    - destruct HLn as (_ & -> & _); [|lia]. intros k Hk ->. apply Ep.
      now rewrite Z.log2_pow2. }
  split; [constructor; rewrite ?Ha, ?Hkb; cbn [at_lg]; try tauto|].
  - destruct Hst as [Hst|(i & j & -> & -> & Hi & Hj & Hn)]; [left; exact Hst|right].
    destruct (HLp j ltac:(lia) eq_refl) as (_ & -> & _).
    destruct (HSp i ltac:(lia) eq_refl) as (_ & -> & _).
    split; [lia|]. split; [exact Hn|]. split; [lia|].
    apply (Z.pow_le_mono_r_iff 2); [lia|lia|]. apply Hs.
  - cbn. rewrite Ha, Hkb. split; [reflexivity|].
    destruct (st_on_large (ga_status a)); [reflexivity|].
    destruct Hst as [?|(i & j & -> & -> & Hi & _)]; [congruence|].
    destruct (HSp i Hi eq_refl) as (_ & -> & _). reflexivity.
Qed.

(** ** Concrete instances *)

Definition zero_dau : sam_dau_t :=
  let z := mk_per_bt 0 0 in
  mk_sam_dau z z 0 z z z z z z 0 0 0.

(** The default geometry: 4 kilobyte small and 16 kilobyte large extents. *)
Definition dau_4_16 : sam_dau_t := default zero_dau (sam_set_dau zero_dau 4 16).

Definition args_4_16 (offset : Z) : sam_get_extent_args :=
  mk_get_extent_args (fun _ => dau_4_16) 1 SAMFS_SBLKV2 (mk_ino_status false false) offset.

Lemma args_4_16_geometry (offset : Z) : geometry_ok (args_4_16 offset).
Proof.
  constructor; [| |right|split|right]; vm_compute; intuition congruence.
Defined.

Lemma sam_get_extent_correct_witness :
  exists kp' r,
    sam_get_extent (args_4_16 (1024 * 1024 * 1024)) (mk_kptr (-1) (-1) (-1)) = (0, kp', Some r) /\
    describes (args_4_16 (1024 * 1024 * 1024)) 1048576 r kp' /\
    result_loc (rv_de r) kp' = Ind2 30 2038.
Proof.
  apply (sam_get_extent_correct (args_4_16 (1024 * 1024 * 1024)) (mk_kptr (-1) (-1) (-1))
           (args_4_16_geometry _)); [cbn; lia | cbn; lia |].
  vm_compute; intuition congruence.
Defined.

Lemma sam_get_extent_v1_witness :
  exists kp2 r,
    sam_get_extent (args_4_16 (2 ^ 40)) (mk_kptr (-1) (-1) (-1)) = (0, kp2, Some r) /\
    sam_get_extent (with_vers (args_4_16 (2 ^ 40)) SAMFS_SBLKV1) (mk_kptr (-1) (-1) (-1)) =
      (0, mk_kptr (kptr0 kp2) (kptr1 kp2 + 1) (kptr2 kp2), Some r).
Proof.
  destruct (sam_get_extent_v1 (args_4_16 (2 ^ 40)) (mk_kptr (-1) (-1) (-1))
              (args_4_16_geometry _)) as (kp2 & r & E & E1);
    [cbn; lia | vm_compute; reflexivity |].
  exists kp2, r. split; [exact E|]. etransitivity; [exact E1|].
  vm_compute in E. injection E as <- <-. reflexivity.
Defined.

Lemma sam_set_dau_geometry_witness :
  exists d', sam_set_dau zero_dau 4 16 = Some d' /\ forall a, ga_d a = d' ->
    ga_num_group a = 1 -> geometry_ok a.
Proof.
  destruct (sam_set_dau_geometry zero_dau 4 16 eq_refl) as (d' & E & H);
    [unfold dau_kblocks_max; lia | unfold dau_kblocks_max; lia |].
  exists d'. split; [exact E|]. intros a Ha Hn. apply H; [exact Ha | lia |].
  right. exists 2, 4. lia.
Defined.
