(* ===== verification/DList.v ===== *)
(** * Intrusive linked lists

    The kernel and the daemons keep their structures on lists whose links are
    fields of the structures: circular doubly linked lists with an anchor (the
    available list of the quota cache, the queues of the archiver) and
    null-terminated chains (the quota hash table). Here a list is described by the
    functions that read the links, so that the same lemmas serve every structure. *)

From S2P Require Import Prelude.

Section Links.
Context {A : Type} `{EqDecision A}.
Implicit Types (nx pv : A -> option A) (x y z p n : A) (l : list A).

(** Overwriting one link field. *)
Definition relink (f : A -> option A) (a : A) (v : option A) : A -> option A :=
  fun b => if decide (b = a) then v else f b.

Lemma relink_eq (f : A -> option A) a v : relink f a v a = v.
Proof. unfold relink. now rewrite decide_True. Qed.
Lemma relink_ne (f : A -> option A) a b v : b <> a -> relink f a v b = f b.
Proof. intros. unfold relink. now rewrite decide_False. Qed.

Ltac relinks := repeat (rewrite relink_eq || rewrite relink_ne by congruence).

(** From [x] through the elements of [l] to [y], links in both directions. *)
Fixpoint dseg nx pv x l y : Prop :=
  match l with
  | [] => nx x = Some y /\ pv y = Some x
  | z :: l' => nx x = Some z /\ pv z = Some x /\ dseg nx pv z l' y
  end.

(** A circular list with anchor [a]. *)
Definition dlist nx pv (a : A) l : Prop := dseg nx pv a l a.

Lemma dseg_app nx pv x l1 z l2 y :
  dseg nx pv x (l1 ++ z :: l2) y <-> dseg nx pv x l1 z /\ dseg nx pv z l2 y.
Proof.
  revert x. induction l1 as [|w l1 IH]; intros x; cbn; [tauto|]. rewrite IH. tauto.
Qed.

Lemma dseg_ext nx pv nx' pv' x l y :
  (forall b, b ∈ x :: l -> nx' b = nx b) ->
  (forall b, b ∈ l ++ [y] -> pv' b = pv b) ->
  dseg nx pv x l y -> dseg nx' pv' x l y.
Proof.
  revert x. induction l as [|z l IH]; intros x Hn Hp H; cbn in *.
  - rewrite Hn, Hp by set_solver. exact H.
  - rewrite Hn, (Hp z) by set_solver. destruct H as (H1 & H2 & H3).
    split; [exact H1|]. split; [exact H2|].
    apply IH; [intros; apply Hn; set_solver|intros; apply Hp; set_solver|exact H3].
Qed.

(** The element before the end and the one after the start. *)
Definition seg_last x l : A := List.last l x.
Definition seg_first l y : A := match l with [] => y | z :: _ => z end.

Lemma dseg_first nx pv x l y : dseg nx pv x l y -> nx x = Some (seg_first l y).
Proof. destruct l; cbn; tauto. Qed.

Lemma seg_last_cons x z l : seg_last x (z :: l) = seg_last z l.
Proof.
  unfold seg_last. cbn. revert z. induction l as [|w l IH]; intros z; [reflexivity|].
  cbn. destruct l; [reflexivity|]. apply IH.
Qed.

Lemma seg_last_elem x l : seg_last x l ∈ x :: l.
Proof.
  revert x. induction l as [|z l IH]; intros x; [cbn; set_solver|].
  rewrite seg_last_cons. specialize (IH z). set_solver.
Qed.

Lemma seg_first_elem l y : seg_first l y ∈ l ++ [y].
Proof. destruct l; set_solver. Qed.

Lemma dseg_last nx pv x l y : dseg nx pv x l y -> pv y = Some (seg_last x l).
Proof.
  revert x. induction l as [|z l IH]; intros x H; [cbn in H; tauto|].
  rewrite seg_last_cons. apply IH. cbn in H. tauto.
Qed.

(** Two segments are joined by linking the last element of the first to the
    first element of the second. *)
Lemma dseg_join nx pv x l1 z l2 w y :
  NoDup (x :: l1 ++ l2) -> NoDup (l1 ++ l2 ++ [y]) -> z ∉ l2 -> w ∉ l1 ->
  dseg nx pv x l1 w -> dseg nx pv z l2 y ->
  dseg (relink nx (seg_last x l1) (Some (seg_first l2 y)))
       (relink pv (seg_first l2 y) (Some (seg_last x l1))) x (l1 ++ l2) y.
Proof.
  revert x. induction l1 as [|u l1 IH]; intros x Hs Ht Hz Hw H1 H2.
  - cbn [seg_last List.last app]. destruct l2 as [|v l2]; cbn [seg_first dseg].
    + now rewrite !relink_eq.
    + rewrite !relink_eq. split; [reflexivity|]. split; [reflexivity|].
      destruct H2 as (_ & _ & H2). eapply dseg_ext; [| |exact H2].
      * intros b Hb. apply relink_ne. intros ->. cbn in Hs.
        apply NoDup_cons in Hs as [Hs _]. contradiction.
      * intros b Hb. apply relink_ne. intros ->. cbn in Ht.
        apply NoDup_cons in Ht as [Ht _]. contradiction.
  - rewrite seg_last_cons. cbn [app dseg] in *. destruct H1 as (E1 & E2 & H1).
    apply NoDup_cons in Hs as [Hx Hs]. pose proof Ht as Ht'.
    apply NoDup_cons in Ht as [Hu Ht].
    pose proof (seg_last_elem u l1) as HL. pose proof (seg_first_elem l2 y) as HF.
    rewrite relink_ne by (intros ->; apply Hx; set_solver).
    rewrite relink_ne by (intros ->; apply Hu; set_solver).
    split; [exact E1|]. split; [exact E2|].
    apply IH; [exact Hs|exact Ht|exact Hz|set_solver|exact H1|exact H2].
Qed.

(** [z->next->prev = z->prev; z->prev->next = z->next]. *)
Lemma dlist_remove nx pv a l1 z l2 :
  NoDup (a :: l1 ++ z :: l2) -> dlist nx pv a (l1 ++ z :: l2) ->
  let p := seg_last a l1 in let n := seg_first l2 a in
  nx z = Some n /\ pv z = Some p /\
  dlist (relink nx p (Some n)) (relink pv n (Some p)) a (l1 ++ l2).
Proof.
  intros Hnd H p n. apply dseg_app in H as [H1 H2].
  split; [exact (dseg_first _ _ _ _ _ H2)|]. split; [exact (dseg_last _ _ _ _ _ H1)|].
  apply NoDup_cons in Hnd as [Ha Hnd]. apply NoDup_app in Hnd as (N1 & N12 & N2).
  apply NoDup_cons in N2 as [Nz N2].
  apply (dseg_join nx pv a l1 z l2 z a);
    [| |exact Nz|intros Hi; exact (N12 z Hi ltac:(set_solver))|exact H1|exact H2].
  - apply NoDup_cons. split; [set_solver|]. apply NoDup_app.
    split; [exact N1|]. split; [set_solver|exact N2].
  - rewrite app_assoc. apply NoDup_app.
    split; [apply NoDup_app; split; [exact N1|split; [set_solver|exact N2]]|].
    split; [set_solver|apply NoDup_singleton].
Qed.

Lemma dseg_insert nx pv x l1 z l2 y :
  NoDup (x :: l1 ++ l2) -> NoDup (l1 ++ l2 ++ [y]) -> z ∉ x :: l1 ++ l2 -> z <> y ->
  dseg nx pv x (l1 ++ l2) y ->
  let p := seg_last x l1 in let n := seg_first l2 y in
  nx p = Some n /\ pv n = Some p /\
  dseg (relink (relink nx z (Some n)) p (Some z))
       (relink (relink pv z (Some p)) n (Some z)) x (l1 ++ z :: l2) y.
Proof.
  cbv zeta. revert x. induction l1 as [|u l1 IH]; intros x Hs Ht Hz Hy H.
  - cbn [app seg_last List.last] in *. apply not_elem_of_cons in Hz as [Hzx Hz].
    destruct l2 as [|v l2]; cbn [seg_first dseg app] in *.
    + destruct H as [H1 H2]. relinks. now repeat split.
    + destruct H as (H1 & H2 & H3). apply not_elem_of_cons in Hz as [Hzv Hz].
      relinks. do 6 (split; [auto|]).
      apply NoDup_cons in Hs as [Hs _]. apply NoDup_cons in Ht as [Ht _].
      eapply dseg_ext; [| |exact H3]; intros b Hb;
        rewrite !relink_ne; [reflexivity| | |reflexivity| |]; intros ->; set_solver.
  - rewrite seg_last_cons. cbn [app dseg] in *. destruct H as (E1 & E2 & H).
    apply NoDup_cons in Hs as [Hx Hs]. apply NoDup_cons in Ht as [Hu Ht].
    pose proof (seg_last_elem u l1) as HL. pose proof (seg_first_elem l2 y) as HF.
    destruct (IH u Hs Ht ltac:(set_solver) Hy H) as (H1 & H2 & H3).
    split; [exact H1|]. split; [exact H2|].
    rewrite !(relink_ne _ _ x) by (intros ->; set_solver).
    rewrite !(relink_ne _ _ u) by (intros ->; set_solver). auto.
Qed.

Lemma NoDup_rotate a l : NoDup (a :: l) -> NoDup (l ++ [a]).
Proof.
  intros [Ha Hl]%NoDup_cons. apply NoDup_app. split; [exact Hl|].
  split; [set_solver|apply NoDup_singleton].
Qed.

(** Linking a new element [z] between the halves of the list. *)
Lemma dlist_insert nx pv a l1 z l2 :
  NoDup (a :: l1 ++ l2) -> z ∉ a :: l1 ++ l2 -> dlist nx pv a (l1 ++ l2) ->
  let p := seg_last a l1 in let n := seg_first l2 a in
  nx p = Some n /\ pv n = Some p /\
  dlist (relink (relink nx z (Some n)) p (Some z))
        (relink (relink pv z (Some p)) n (Some z)) a (l1 ++ z :: l2).
Proof.
  intros Hnd Hz H. apply dseg_insert; [exact Hnd| |exact Hz|set_solver|exact H].
  rewrite app_assoc. now apply NoDup_rotate.
Qed.
End Links.

(** ** Null-terminated chains *)

Section Chains.
Context {A : Type} `{EqDecision A}.
Implicit Types (nx : A -> option A) (l : list A).

Fixpoint chain nx (head : option A) l : Prop :=
  match l with
  | [] => head = None
  | x :: l' => head = Some x /\ chain nx (nx x) l'
  end.

Lemma chain_ext nx nx' head l :
  (forall b, b ∈ l -> nx' b = nx b) -> chain nx head l -> chain nx' head l.
Proof.
  revert head. induction l as [|x l IH]; intros head Hn H; cbn in *; [exact H|].
  destruct H as [-> H]. split; [reflexivity|]. rewrite Hn by set_solver.
  apply IH; [set_solver|exact H].
Qed.

Lemma chain_push nx head l x :
  x ∉ l -> chain nx head l -> chain (relink nx x head) (Some x) (x :: l).
Proof.
  intros Hx H. cbn. split; [reflexivity|]. rewrite relink_eq.
  eapply chain_ext; [|exact H]. intros b Hb. apply relink_ne. set_solver.
Qed.

(** Unlinking [x] from the middle: [prev->next = x->next]. *)
Lemma chain_unlink nx head l1 p x l2 :
  NoDup (l1 ++ p :: x :: l2) -> chain nx head (l1 ++ p :: x :: l2) ->
  chain (relink nx p (nx x)) head (l1 ++ p :: l2).
Proof.
  revert head. induction l1 as [|u l1 IH]; intros head Hnd H; cbn in *.
  - destruct H as (-> & Hp & H). split; [reflexivity|]. rewrite relink_eq.
    apply NoDup_cons in Hnd as [Hnp Hnd].
    eapply chain_ext; [|exact H]. intros b Hb. apply relink_ne. set_solver.
  - destruct H as [-> H]. split; [reflexivity|]. apply NoDup_cons in Hnd as [Hu Hnd].
    rewrite relink_ne by (intros ->; set_solver). now apply IH.
Qed.

Lemma chain_tail nx head l1 x l2 :
  chain nx head (l1 ++ x :: l2) -> chain nx (nx x) l2.
Proof.
  revert head. induction l1 as [|u l1 IH]; intros head H; cbn in *; [tauto|].
  destruct H as [_ H]. eapply IH; eauto.
Qed.

Lemma chain_det nx head l l' : chain nx head l -> chain nx head l' -> l = l'.
Proof.
  revert head l'. induction l as [|x l IH]; intros head [|y l'] H H'; cbn in *.
  - reflexivity.
  - destruct H'. congruence.
  - destruct H. congruence.
  - destruct H as [-> H], H' as [[= <-] H']. f_equal. eauto.
Qed.
End Chains.
