(* ===== verification/Plist.v ===== *)
(** * The releaser's candidate list

    The releaser scans all files and keeps the [list_size] best candidates for
    release (src/src/releaser/plist.c). Three arrays take turns: entries are
    appended to a working array; when it is full it is sorted and merged with the
    best entries so far; entries no better than the worst one kept are skipped.
    The theorem is that this machinery computes the best [list_size] entries, best
    first.

    Priorities are [float]s that are only compared. A finite [float] is a multiple
    of [2 ^ -149]; it is modelled as that multiple, so that comparisons are exact. *)

From stdpp Require Import sorting.
From Stdlib Require Import Sorting.Sorted Permutation.
From S2P Require Import Prelude.

Section Plist.
Context {I : Type}.

(** [struct priority_list_element]; of [struct data] only the inode number is
    looked at. *)
Record element : Type := mk_element { priority : Z; ino : Z; info : I }.

Definition better_than (a b : Z) : bool := b <? a.

Definition compare_working (pi pj : element) : Z :=
  if priority pi =? priority pj then
    if ino pj <? ino pi then -1 else if ino pi <? ino pj then 1 else 0
  else if better_than (priority pi) (priority pj) then -1 else 1.

(** [qsort] of the C library with this comparison: a permutation in order; the
    order of entries that compare equal is not specified. *)
Class QSort : Type := {
  qsort : list element -> list element;
  qsort_perm : forall l, qsort l ≡ₚ l;
  qsort_sorted : forall l, StronglySorted (fun x y => compare_working x y <= 0) (qsort l)
}.

(** The static variables. *)
Record plist : Type := mk_plist {
  lists : list (list element);  (* the three arrays *)
  working : nat;
  merge_in : nat;
  merge_out : nat;
  working_length : nat;
  merge_in_list_is_full : bool;
  worst_saved_priority : Z;
  wsp_valid : bool;
  finish_has_been_called : bool;
  remove_index : nat
}.

(** [list[i]] *)
Definition arr (s : plist) (i : nat) : list element := default [] (lists s !! i).
Definition set_arr (i : nat) (v : list element) (s : plist) : plist :=
  mk_plist (<[i := v]> (lists s)) (working s) (merge_in s) (merge_out s) (working_length s)
    (merge_in_list_is_full s) (worst_saved_priority s) (wsp_valid s) (finish_has_been_called s)
    (remove_index s).
Definition set_length (v : nat) (s : plist) : plist :=
  mk_plist (lists s) (working s) (merge_in s) (merge_out s) v
    (merge_in_list_is_full s) (worst_saved_priority s) (wsp_valid s) (finish_has_been_called s)
    (remove_index s).
Definition set_wsp (v : Z) (s : plist) : plist :=
  mk_plist (lists s) (working s) (merge_in s) (merge_out s) (working_length s)
    (merge_in_list_is_full s) v true (finish_has_been_called s) (remove_index s).
Definition set_full (s : plist) : plist :=
  mk_plist (lists s) (working s) (merge_in s) (merge_out s) (working_length s)
    true (worst_saved_priority s) (wsp_valid s) (finish_has_been_called s) (remove_index s).
Definition set_subscripts (w i o : nat) (s : plist) : plist :=
  mk_plist (lists s) w i o (working_length s)
    (merge_in_list_is_full s) (worst_saved_priority s) (wsp_valid s) (finish_has_been_called s)
    (remove_index s).
Definition set_removing (b : bool) (r : nat) (s : plist) : plist :=
  mk_plist (lists s) (working s) (merge_in s) (merge_out s) (working_length s)
    (merge_in_list_is_full s) (worst_saved_priority s) (wsp_valid s) b r.

Definition init (s : plist) : plist :=
  mk_plist (lists s) 0 1 2 0 false (worst_saved_priority s) false false (remove_index s).

(** The three arrays, with whatever [malloc] leaves in them. *)
Definition remake_lists (garbage : list (list element)) (s : plist) : plist :=
  mk_plist garbage (working s) (merge_in s) (merge_out s) (working_length s)
    (merge_in_list_is_full s) (worst_saved_priority s) (wsp_valid s) (finish_has_been_called s)
    (remove_index s).

Definition add_to_working (e : element) (s : plist) : plist :=
  let s1 := set_arr (working s) (<[working_length s := e]> (arr s (working s))) s in
  let s2 := set_length (S (working_length s)) s1 in
  if negb (wsp_valid s2) || (priority e <? worst_saved_priority s2)
  then set_wsp (priority e) s2 else s2.

Context `{QSort}.

Definition sort_working (s : plist) : plist :=
  let a := arr s (working s) in
  set_arr (working s) (qsort (take (working_length s) a) ++ drop (working_length s) a) s.

(** The loop of [merge]: [k] turns left, the subscripts of the two inputs, and the
    output so far. An index out of range would read beyond an array. *)
Fixpoint merge_loop (k : nat) (w i : list element) (wlen iw ii : nat) (out : list element) :
    option (list element) :=
  match k with
  | O => Some out
  | S k' =>
      match i !! ii with
      | None => None
      | Some pi =>
          if bool_decide (iw < wlen)%nat then
            match w !! iw with
            | None => None
            | Some pw =>
                if better_than (priority pw) (priority pi)
                then merge_loop k' w i wlen (S iw) ii (out ++ [pw])
                else merge_loop k' w i wlen iw (S ii) (out ++ [pi])
            end
          else merge_loop k' w i wlen iw (S ii) (out ++ [pi])
      end
  end.

Context (list_size : nat).

(** The first [list_size] places of the output array are assigned. *)
Definition merge (s : plist) : option plist :=
  out ← merge_loop list_size (arr s (working s)) (arr s (merge_in s)) (working_length s) 0 0 [];
  Some (set_arr (merge_out s) (out ++ drop list_size (arr s (merge_out s))) s).

Definition add_entry (e : element) (s : plist) : option plist :=
  let s := if wsp_valid s then s else set_wsp (priority e) s in
  if negb (merge_in_list_is_full s) && bool_decide (working_length s < list_size)%nat
  then Some (add_to_working e s)
  else if negb (better_than (priority e) (worst_saved_priority s)) then Some s
  else if bool_decide (working_length s < list_size)%nat then Some (add_to_working e s)
  else
    let s := sort_working s in
    if negb (merge_in_list_is_full s) then
      let s := set_full s in
      let s := set_subscripts (merge_in s) (working s) (merge_out s) s in
      let s := set_length 0 s in
      Some (add_to_working e s)
    else
      s ← merge s;
      let s := set_subscripts (working s) (merge_out s) (merge_in s) s in
      let s := set_length 0 s in
      last ← arr s (merge_in s) !! (list_size - 1)%nat;
      let s := set_wsp (priority last) s in
      if better_than (priority e) (worst_saved_priority s)
      then Some (add_to_working e s) else Some s.

Definition finish (s : plist) : option (nat * plist) :=
  let s := sort_working s in
  s ← (if merge_in_list_is_full s then
         s ← merge s;
         let s := set_length list_size s in
         Some (set_subscripts (merge_out s) (merge_in s) (working s) s)
       else Some s);
  Some (working_length s, set_removing true 0 s).

(** The entry, if there is one, and the new state. *)
Definition remove_entry (s : plist) : option (option element * plist) :=
  if negb (finish_has_been_called s) || bool_decide (working_length s <= remove_index s)%nat
  then Some (None, s)
  else
    e ← arr s (working s) !! remove_index s;
    Some (Some e, set_removing (finish_has_been_called s) (S (remove_index s)) s).

(** The releaser's use of the list: every candidate is added, then the list is read
    to its end. *)
Fixpoint add_entries (es : list element) (s : plist) : option plist :=
  match es with [] => Some s | e :: es' => s ← add_entry e s; add_entries es' s end.
Fixpoint remove_entries (fuel : nat) (s : plist) : option (list element) :=
  match fuel with
  | O => None
  | S fuel' =>
      '(r, s) ← remove_entry s;
      match r with
      | None => Some []
      | Some e => l ← remove_entries fuel' s; Some (e :: l)
      end
  end.
Definition candidates (es : list element) (s : plist) : option (list element) :=
  s ← add_entries es (init s);
  '(n, s) ← finish s;
  remove_entries (S n) s.

(** ** Order *)

Abbreviation desc := (StronglySorted (fun x y : element => priority y <= priority x)).
(** Every entry of [l1] is at least as good as every entry of [l2]. *)
Definition dominates (l1 l2 : list element) : Prop :=
  forall x y, x ∈ l1 -> y ∈ l2 -> priority y <= priority x.

Lemma compare_le (x y : element) : compare_working x y <= 0 -> priority y <= priority x.
Proof.
  unfold compare_working, better_than. destruct (Z.eqb_spec (priority x) (priority y)); [lia|].
  destruct (Z.ltb_spec (priority y) (priority x)); lia.
Qed.

Lemma qsort_desc (l : list element) : desc (qsort l).
Proof.
  generalize (qsort_sorted l). induction 1 as [|x l' _ IH Hx]; constructor; [exact IH|].
  eapply Forall_impl; [exact Hx|]. intros y. apply compare_le.
Qed.

Lemma desc_snoc (l : list element) (x : element) : desc l -> dominates l [x] -> desc (l ++ [x]).
Proof.
  intros Hl. induction Hl as [|y l _ IH Hy]; intros Hd; cbn; [repeat constructor|].
  constructor; [apply IH; intros a b Ha; apply Hd; set_solver|].
  apply Forall_app. split; [exact Hy|]. constructor; [|constructor]. apply Hd; set_solver.
Qed.

Lemma desc_drop_cons (l : list element) k (x : element) :
  desc l -> l !! k = Some x -> drop k l = x :: drop (S k) l /\ dominates [x] (drop k l).
Proof.
  intros Hl Hk. assert (E : drop k l = x :: drop (S k) l) by now apply drop_S. split; [exact E|].
  rewrite E. clear E. revert k Hk. induction Hl as [|y l _ IH Hy]; intros k Hk; [discriminate|].
  destruct k as [|k]; cbn in *.
  - injection Hk as ->. intros a b ->%list_elem_of_singleton [->|Hb]%elem_of_cons; [lia|].
    rewrite Forall_forall in Hy. exact (Hy b Hb).
  - now apply IH.
Qed.

(** ** Merging *)

Record merged (w i out rest : list element) : Prop := mk_merged {
  mg_perm : w ++ i ≡ₚ out ++ rest;
  mg_desc : desc out;
  mg_best : dominates out rest
}.

Lemma merge_loop_spec k w i wlen iw ii out :
  let W := take wlen w in
  (wlen <= length w)%nat -> desc W -> desc i ->
  (iw <= wlen)%nat -> (ii + k <= length i)%nat -> desc out ->
  out ≡ₚ take iw W ++ take ii i -> dominates out (drop iw W) -> dominates out (drop ii i) ->
  exists out' rest, merge_loop k w i wlen iw ii out = Some out' /\
    length out' = (length out + k)%nat /\ merged W i out' rest.
Proof.
  cbv zeta. intros Hwl HW Hi. set (W := take wlen w) in *.
  revert iw ii out. induction k as [|k IH]; intros iw ii out Hiw Hii Ho Hp Dw Di; cbn [merge_loop].
  - exists out, (drop iw W ++ drop ii i). split; [reflexivity|]. split; [lia|]. split; [|exact Ho|].
    + rewrite Hp. rewrite <- (take_drop iw W) at 1. rewrite <- (take_drop ii i) at 1. solve_Permutation.
    + intros x y Hx [Hy|Hy]%elem_of_app; [now apply Dw|now apply Di].
  - destruct (lookup_lt_is_Some_2 i ii ltac:(lia)) as [pi Epi]. rewrite Epi.
    destruct (desc_drop_cons i ii pi Hi Epi) as [Edi Dpi].
    assert (Htake : take (S ii) i = take ii i ++ [pi]) by now apply take_S_r.
    (* taking from merge_in *)
    assert (Hin : dominates [pi] (drop iw W) -> exists out' rest,
      merge_loop k w i wlen iw (S ii) (out ++ [pi]) = Some out' /\
      length out' = (length out + S k)%nat /\ merged W i out' rest).
    { intros Dx. destruct (IH iw (S ii) (out ++ [pi])) as (out' & rest & E & El & Hm).
      - exact Hiw.
      - lia.
      - apply desc_snoc; [exact Ho|]. intros x y Hx ->%list_elem_of_singleton. apply Di; [exact Hx|].
        rewrite Edi. set_solver.
      - rewrite Hp, Htake. solve_Permutation.
      - intros x y [Hx|Hx]%elem_of_app Hy; [now apply Dw|now apply Dx].
      - intros x y [Hx|Hx]%elem_of_app Hy; [apply Di; [exact Hx|]|apply Dpi; [exact Hx|]];
          rewrite Edi; set_solver.
      - exists out', rest. rewrite length_app in El. cbn in El. split; [exact E|]. split; [lia|exact Hm]. }
    destruct (bool_decide (iw < wlen)%nat) eqn:Elt.
    + apply bool_decide_eq_true in Elt. destruct (lookup_lt_is_Some_2 w iw ltac:(lia)) as [pw Epw]. rewrite Epw.
      assert (EpW : W !! iw = Some pw) by (unfold W; now rewrite lookup_take_lt).
      destruct (desc_drop_cons W iw pw HW EpW) as [EdW DpW]. unfold better_than.
      destruct (Z.ltb_spec (priority pi) (priority pw)) as [Hlt|Hge].
      * destruct (IH (S iw) ii (out ++ [pw])) as (out' & rest & E & El & Hm).
        -- lia.
        -- lia.
        -- apply desc_snoc; [exact Ho|]. intros x y Hx ->%list_elem_of_singleton. apply Dw; [exact Hx|].
           rewrite EdW. set_solver.
        -- rewrite Hp, (take_S_r W iw pw EpW). solve_Permutation.
        -- intros x y [Hx|Hx]%elem_of_app Hy; [apply Dw; [exact Hx|]|apply DpW; [exact Hx|]];
             rewrite EdW; set_solver.
        -- intros x y [Hx|Hx]%elem_of_app Hy; [now apply Di|]. apply list_elem_of_singleton in Hx as ->.
           pose proof (Dpi pi y ltac:(set_solver) Hy). lia.
        -- exists out', rest. rewrite length_app in El. cbn in El. split; [exact E|]. split; [lia|exact Hm].
      * apply Hin. intros x y ->%list_elem_of_singleton Hy. pose proof (DpW pw y ltac:(set_solver) Hy). lia.
    + apply Hin. apply bool_decide_eq_false in Elt. rewrite drop_ge; [intros x y _ Hy; now apply elem_of_nil in Hy|].
      unfold W. rewrite length_take. lia.
Qed.

Lemma merge_spec w i wlen :
  (wlen <= length w)%nat -> desc (take wlen w) -> desc i -> length i = list_size ->
  exists out rest, merge_loop list_size w i wlen 0 0 [] = Some out /\ length out = list_size /\
    merged (take wlen w) i out rest.
Proof.
  intros Hl HW Hi Ei.
  destruct (merge_loop_spec list_size w i wlen 0 0 []) as (out & rest & E & El & Hm);
    try assumption; try lia; try constructor; try (intros x y Hx; set_solver).
  exists out, rest. auto.
Qed.

(** ** The invariant *)

Record wf (s : plist) : Prop := mk_wf {
  wf_lists : length (lists s) = 3%nat;
  wf_arrays : forall i, (i < 3)%nat -> length (arr s i) = list_size;
  wf_working : (working s < 3)%nat;
  wf_in : (merge_in s < 3)%nat;
  wf_out : (merge_out s < 3)%nat;
  wf_distinct : working s <> merge_in s /\ working s <> merge_out s /\ merge_in s <> merge_out s;
  wf_length : (working_length s <= list_size)%nat
}.

(** The filled part of the working array, and the best entries so far. *)
Definition filled (s : plist) : list element := take (working_length s) (arr s (working s)).
Definition best (s : plist) : list element := arr s (merge_in s).

Lemma arr_set (i j : nat) v (s : plist) :
  (i < length (lists s))%nat -> arr (set_arr i v s) j = if decide (j = i) then v else arr s j.
Proof.
  intros Hi. unfold arr. cbn. destruct (decide (j = i)) as [->|Hne].
  - now rewrite list_lookup_insert_eq.
  - now rewrite list_lookup_insert_ne by congruence.
Qed.

Lemma wf_set_arr i v (s : plist) : wf s -> (i < 3)%nat -> length v = list_size -> wf (set_arr i v s).
Proof.
  intros [] Hi Hv. constructor; try assumption; [cbn; now rewrite length_insert|].
  intros j Hj. rewrite arr_set by lia. destruct (decide (j = i)); auto.
Qed.

Lemma filled_length (s : plist) : wf s -> length (filled s) = working_length s.
Proof. intros []. unfold filled. rewrite length_take, wf_arrays0 by assumption. lia. Qed.

(** Everything seen so far is kept or is no better than what is kept. *)
Definition kept (es : list element) (full : bool) (w m : list element) (wsp : Z) (dropped : list element) : Prop :=
  if full then
    es ≡ₚ w ++ m ++ dropped /\ desc m /\ dominates m dropped /\
    (forall x, x ∈ w ++ m -> wsp <= priority x)
  else
    es ≡ₚ w ++ dropped /\ (dropped = [] \/ length w = list_size) /\
    (forall d, d ∈ dropped -> priority d <= wsp) /\ (forall x, x ∈ w -> wsp <= priority x).

Definition good (es : list element) (s : plist) : Prop :=
  wf s /\ exists dropped, kept es (merge_in_list_is_full s) (filled s) (best s) (worst_saved_priority s) dropped /\
    (wsp_valid s = true \/ es = [] /\ merge_in_list_is_full s = false).

Lemma add_to_working_spec e (s : plist) :
  wf s -> (working_length s < list_size)%nat ->
  let s' := add_to_working e s in
  wf s' /\ filled s' = filled s ++ [e] /\ best s' = best s /\
  merge_in_list_is_full s' = merge_in_list_is_full s /\ wsp_valid s' = true /\
  (wsp_valid s = true -> worst_saved_priority s' = Z.min (worst_saved_priority s) (priority e)).
Proof.
  intros Hwf Hlt. cbv zeta. pose proof Hwf as [H1 H2 H3 H4 H5 H6 H7].
  set (s1 := set_length (S (working_length s)) (set_arr (working s) (<[working_length s := e]> (arr s (working s))) s)).
  assert (W1 : wf s1).
  { assert (W0 : wf (set_arr (working s) (<[working_length s := e]> (arr s (working s))) s))
      by (apply wf_set_arr; [exact Hwf|exact H3|rewrite length_insert; auto]).
    destruct W0. constructor; try assumption. }
  assert (F1 : filled s1 = filled s ++ [e]).
  { unfold filled, s1. change (arr (set_length _ ?x) ?i) with (arr x i). cbn [working_length set_length working set_arr].
    rewrite arr_set, decide_True by (reflexivity || lia).
    rewrite (take_S_r _ _ e) by (apply list_lookup_insert_eq; rewrite H2; auto).
    now rewrite take_insert_ge by lia. }
  assert (B1 : best s1 = best s).
  { unfold best, s1. change (arr (set_length _ ?x) ?i) with (arr x i). cbn [merge_in set_length set_arr].
    rewrite arr_set by lia. rewrite decide_False; [reflexivity|]. intuition congruence. }
  unfold add_to_working. fold s1. change (wsp_valid s1) with (wsp_valid s).
  change (worst_saved_priority s1) with (worst_saved_priority s).
  destruct (wsp_valid s) eqn:Ev; cbn [negb orb].
  - destruct (Z.ltb_spec (priority e) (worst_saved_priority s)).
    + split; [destruct W1; now constructor|]. repeat (split; [assumption || reflexivity|]). cbn. lia.
    + repeat (split; [assumption || reflexivity|]). cbn. lia.
  - split; [destruct W1; now constructor|]. repeat (split; [assumption || reflexivity|]). discriminate.
Qed.

Lemma sort_working_spec (s : plist) :
  wf s -> let s' := sort_working s in
  wf s' /\ filled s' ≡ₚ filled s /\ desc (filled s') /\ best s' = best s /\
  (forall i, i <> working s -> arr s' i = arr s i) /\ working_length s' = working_length s.
Proof.
  intros Hwf. cbv zeta. pose proof Hwf as [H1 H2 H3 H4 H5 H6 H7]. unfold sort_working. cbv zeta.
  set (v := qsort _ ++ _).
  assert (Ef : filled (set_arr (working s) v s) = qsort (filled s)).
  { unfold filled. cbn [working_length set_arr working]. rewrite arr_set, decide_True by (reflexivity || lia).
    unfold v. rewrite take_app_length'; [reflexivity|].
    rewrite qsort_perm, length_take, H2 by assumption. lia. }
  rewrite Ef. split; [|split; [apply qsort_perm|split; [apply qsort_desc|split; [|split; [|reflexivity]]]]].
  - apply wf_set_arr; [exact Hwf|exact H3|]. unfold v.
    rewrite length_app, qsort_perm, length_take, length_drop, H2 by assumption. lia.
  - unfold best. cbn [merge_in set_arr]. rewrite arr_set by lia. rewrite decide_False; [reflexivity|].
    intuition congruence.
  - intros i Hi. rewrite arr_set by lia. now rewrite decide_False.
Qed.

Lemma merge_state (s : plist) :
  wf s -> desc (filled s) -> desc (best s) ->
  exists out rest s', merge s = Some s' /\ wf s' /\ arr s' (merge_out s) = out /\
    length out = list_size /\ merged (filled s) (best s) out rest /\
    s' = set_arr (merge_out s) out s.
Proof.
  intros Hwf Hf Hb. pose proof Hwf as [H1 H2 H3 H4 H5 H6 H7].
  destruct (merge_spec (arr s (working s)) (arr s (merge_in s)) (working_length s))
    as (out & rest & E & El & Hm); [rewrite H2; auto|exact Hf|exact Hb|auto|].
  exists out, rest, (set_arr (merge_out s) out s). unfold merge. rewrite E. cbn [mbind option_bind].
  rewrite drop_ge, app_nil_r by (rewrite H2; auto). split; [reflexivity|].
  split; [now apply wf_set_arr|]. split; [rewrite arr_set, decide_True by (reflexivity || lia); reflexivity|]. auto.
Qed.

(** ** Adding an entry *)

(** A new entry in the working array. *)
Lemma kept_add es full w m wsp dropped e :
  (full = true -> wsp <= priority e) -> dropped = [] \/ full = true ->
  kept es full w m wsp dropped -> kept (e :: es) full (w ++ [e]) m (Z.min wsp (priority e)) dropped.
Proof.
  unfold kept. destruct full; intros He Hd.
  - intros (P & Hm & Dm & Hx). split; [rewrite P; solve_Permutation|]. split; [exact Hm|]. split; [exact Dm|].
    specialize (He eq_refl). intros x Hin. rewrite <- app_assoc in Hin.
    apply elem_of_app in Hin as [Hin|Hin]; [pose proof (Hx x ltac:(set_solver)); lia|].
    cbn in Hin. apply elem_of_cons in Hin as [->|Hin]; [lia|]. pose proof (Hx x ltac:(set_solver)). lia.
  - intros (P & _ & _ & Hx). destruct Hd as [-> |]; [|discriminate].
    split; [rewrite P; solve_Permutation|]. split; [now left|]. split; [set_solver|].
    intros x [Hin|Hin%list_elem_of_singleton]%elem_of_app; [pose proof (Hx x Hin); lia|subst; lia].
Qed.

(** An entry that is no better than the worst one kept, when nothing more fits. *)
Lemma kept_drop es full w m wsp dropped e :
  priority e <= wsp -> full = true \/ length w = list_size ->
  kept es full w m wsp dropped -> kept (e :: es) full w m wsp (e :: dropped).
Proof.
  unfold kept. destruct full; intros He Hf.
  - intros (P & Hm & Dm & Hx). split; [rewrite P; solve_Permutation|]. split; [exact Hm|]. split; [|exact Hx].
    intros x y Hin [->|Hy]%elem_of_cons; [|now apply Dm]. pose proof (Hx x ltac:(set_solver)). lia.
  - intros (P & _ & Hd & Hx). split; [rewrite P; solve_Permutation|]. destruct Hf as [|Hf]; [discriminate|].
    split; [now right|]. split; [|exact Hx]. intros d [->|Hin]%elem_of_cons; auto.
Qed.

(** The first full array becomes the array of the best. *)
Lemma kept_first es w w' wsp m dropped :
  w' ≡ₚ w -> desc w' -> kept es false w m wsp dropped -> kept es true [] w' wsp dropped.
Proof.
  intros Hp Hd (P & _ & Hdr & Hx). unfold kept. cbn. split; [rewrite Hp; exact P|]. split; [exact Hd|]. split.
  - intros x y Hin Hy. rewrite Hp in Hin. pose proof (Hx x Hin). pose proof (Hdr y Hy). lia.
  - intros x Hin. rewrite Hp in Hin. auto.
Qed.

Lemma filter_all (P : element -> Prop) `{forall x, Decision (P x)} (l : list element) :
  (forall x, x ∈ l -> P x) -> filter P l = l.
Proof.
  induction l as [|x l IH]; intros Hl; [reflexivity|].
  rewrite filter_cons_True by (apply Hl; set_solver). f_equal. apply IH. set_solver.
Qed.
Lemma filter_none (P : element -> Prop) `{forall x, Decision (P x)} (l : list element) :
  (forall x, x ∈ l -> ~ P x) -> filter P l = [].
Proof.
  induction l as [|x l IH]; intros Hl; [reflexivity|].
  rewrite filter_cons_False by (apply Hl; set_solver). apply IH. set_solver.
Qed.

(** Among the old best there is an entry that is no better than one that was
    merged: otherwise there would be too many better ones. *)
Lemma entry_below (m w out rest : list element) x :
  w ++ m ≡ₚ out ++ rest -> dominates out rest -> (length out <= length m)%nat -> x ∈ out ->
  exists z, z ∈ m /\ priority z <= priority x.
Proof.
  intros P B Hl Hx. destruct (decide (Exists (fun z => priority z <= priority x) m)) as [Hex|Hno].
  { apply Exists_exists in Hex as (z & ? & ?). eauto. }
  exfalso. set (better := fun z => priority x < priority z).
  assert (Hdec : forall z, Decision (better z)) by (intros; unfold better; apply _).
  assert (Hm : filter better m = m).
  { apply filter_all. intros z Hz. unfold better.
    destruct (Z.le_gt_cases (priority z) (priority x)); [|assumption].
    destruct Hno. apply Exists_exists. eauto. }
  assert (Hr : filter better rest = []).
  { apply filter_none. intros z Hz. unfold better. pose proof (B x z Hx Hz). lia. }
  pose proof (filter_Permutation better _ _ P) as Pf. rewrite !filter_app, Hm, Hr, app_nil_r in Pf.
  apply Permutation_length in Pf. rewrite length_app in Pf.
  pose proof (length_filter_lt better out x Hx ltac:(unfold better; lia)). lia.
Qed.

(** A merge. The worst entry of its result is the new bound. *)
Lemma kept_merge es w w' m out rest last wsp dropped :
  w' ≡ₚ w -> merged w' m out rest -> out !! (list_size - 1)%nat = Some last -> length out = list_size ->
  length m = list_size -> kept es true w m wsp dropped ->
  kept es true [] out (priority last) (rest ++ dropped).
Proof.
  intros Hp [P D B] Hlast Hlo Hlm (Pe & Hm & Dm & Hx). unfold kept. cbn.
  assert (Hmin : forall x, x ∈ out -> priority last <= priority x).
  { intros x [i Hi]%list_elem_of_lookup. destruct (desc_drop_cons out i x D Hi) as [_ Dd].
    apply Dd; [set_solver|]. apply list_elem_of_lookup. exists (list_size - 1 - i)%nat.
    rewrite lookup_drop. apply lookup_lt_Some in Hi.
    now replace (i + (list_size - 1 - i))%nat with (list_size - 1)%nat by lia. }
  split; [|split; [exact D|split; [|exact Hmin]]].
  - rewrite Pe, <- Hp. rewrite app_assoc, P. solve_Permutation.
  - intros x y Hx' [Hy|Hy]%elem_of_app; [now apply B|].
    destruct (entry_below m w' out rest x P B ltac:(lia) Hx') as (z & Hzm & Hzx).
    pose proof (Dm z y Hzm Hy). lia.
Qed.

Lemma best_length (s : plist) : wf s -> length (best s) = list_size.
Proof. intros []. now apply wf_arrays0. Qed.

(** The step in which the working array is full. *)
Lemma add_full_spec es e (s : plist) dropped :
  (0 < list_size)%nat -> wf s -> working_length s = list_size -> wsp_valid s = true ->
  worst_saved_priority s < priority e ->
  kept es (merge_in_list_is_full s) (filled s) (best s) (worst_saved_priority s) dropped ->
  exists s', (let s := sort_working s in
    if negb (merge_in_list_is_full s) then
      let s := set_full s in
      let s := set_subscripts (merge_in s) (working s) (merge_out s) s in
      let s := set_length 0 s in
      Some (add_to_working e s)
    else
      s ← merge s;
      let s := set_subscripts (working s) (merge_out s) (merge_in s) s in
      let s := set_length 0 s in
      last ← arr s (merge_in s) !! (list_size - 1)%nat;
      let s := set_wsp (priority last) s in
      if better_than (priority e) (worst_saved_priority s)
      then Some (add_to_working e s) else Some s) = Some s' /\ good (e :: es) s'.
Proof.
  intros Hpos Hwf Hlen Hv He Hk. destruct (sort_working_spec s Hwf) as (W1 & P1 & D1 & B1 & A1 & L1).
  set (s1 := sort_working s) in *. cbv zeta.
  change (merge_in_list_is_full s1) with (merge_in_list_is_full s).
  destruct (merge_in_list_is_full s) eqn:Ef; cbn [negb].
  - destruct Hk as (Pe & Hm & Dm & Hx).
    destruct (merge_state s1 W1 D1 ltac:(rewrite B1; exact Hm)) as (out & rest & s2 & E2 & W2 & A2 & Hlo & Hmg & Es2).
    rewrite E2. cbn [mbind option_bind].
    set (s3 := set_length 0 (set_subscripts (working s2) (merge_out s2) (merge_in s2) s2)).
    assert (Hout : arr s3 (merge_in s3) = out) by (unfold s3; rewrite <- A2, Es2; reflexivity).
    rewrite Hout. destruct (lookup_lt_is_Some_2 out (list_size - 1)) as [last Elast]; [lia|]. rewrite Elast.
    cbn [mbind option_bind].
    assert (W3 : wf (set_wsp (priority last) s3)).
    { destruct W2 as [? ? ? ? ? (? & ? & ?) ?]. constructor; auto; cbn; first [lia | intuition congruence]. }
    assert (K3 : kept es true [] out (priority last) (rest ++ dropped)).
    { eapply (kept_merge es (filled s) (filled s1) (best s)); [exact P1|now rewrite B1 in Hmg|
        exact Elast|exact Hlo|now apply best_length|exact (conj Pe (conj Hm (conj Dm Hx)))]. }
    change (worst_saved_priority (set_wsp (priority last) s3)) with (priority last).
    assert (Hfill : filled (set_wsp (priority last) s3) = []) by reflexivity.
    assert (Hfull : merge_in_list_is_full (set_wsp (priority last) s3) = true)
      by (unfold s3; rewrite Es2; exact Ef).
    unfold better_than. destruct (Z.ltb_spec (priority last) (priority e)) as [Hlt|Hge]; eexists; (split; [reflexivity|]).
    + destruct (add_to_working_spec e _ W3 ltac:(cbn; lia)) as (W4 & F4 & B4 & U4 & V4 & M4).
      split; [exact W4|]. exists (rest ++ dropped). rewrite F4, B4, U4, (M4 eq_refl), Hfill, Hfull.
      split; [|now left]. unfold best. change (arr (set_wsp _ s3)) with (arr s3). cbn [merge_in set_wsp]. rewrite Hout.
      apply kept_add; [intros _; cbn; lia|now right|exact K3].
    + split; [exact W3|]. exists (e :: rest ++ dropped). rewrite Hfill, Hfull. split; [|now left].
      unfold best. change (arr (set_wsp _ s3)) with (arr s3). cbn [merge_in set_wsp]. rewrite Hout.
      apply kept_drop; [exact Hge|now left|exact K3].
  - set (s2 := set_length 0 (set_subscripts (merge_in (set_full s1)) (working (set_full s1)) (merge_out (set_full s1)) (set_full s1))).
    assert (W2 : wf s2).
    { destruct W1 as [? ? ? ? ? (? & ? & ?) ?]. constructor; auto; cbn; first [lia | intuition congruence]. }
    eexists. split; [reflexivity|]. destruct (add_to_working_spec e s2 W2 ltac:(cbn; lia)) as (W4 & F4 & B4 & U4 & V4 & M4).
    split; [exact W4|]. exists dropped. rewrite F4, B4, U4, M4 by exact Hv. split; [|now left].
    change (filled s2) with (@nil element). change (merge_in_list_is_full s2) with true.
    change (worst_saved_priority s2) with (worst_saved_priority s).
    apply kept_add; [intros _; lia|now right|].
    eapply (kept_first es (filled s)); [|  |exact Hk].
    + unfold best. cbn. change (arr s2 (working s1)) with (arr s1 (working s1)).
      rewrite <- P1. unfold filled. rewrite L1, Hlen, take_ge; [reflexivity|].
      rewrite (wf_arrays _ W1); [lia|apply W1].
    + replace (best s2) with (filled s1); [exact D1|]. unfold best, filled. rewrite L1, Hlen, take_ge; [reflexivity|].
      rewrite (wf_arrays _ W1); [lia|apply W1].
Qed.

Lemma add_entry_spec es e (s : plist) :
  (0 < list_size)%nat -> good es s -> exists s', add_entry e s = Some s' /\ good (e :: es) s'.
Proof.
  intros Hpos (Hwf & dropped & Hk & Hv). unfold add_entry.
  set (s1 := if wsp_valid s then s else set_wsp (priority e) s).
  assert (H1 : wf s1 /\ wsp_valid s1 = true /\ filled s1 = filled s /\ best s1 = best s /\
    merge_in_list_is_full s1 = merge_in_list_is_full s /\
    kept es (merge_in_list_is_full s1) (filled s1) (best s1) (worst_saved_priority s1) dropped).
  { unfold s1. destruct (wsp_valid s) eqn:Ev; [auto 10|].
    destruct Hv as [|[-> Ef]]; [discriminate|]. rewrite Ef in Hk. destruct Hk as (P & _ & _ & _).
    symmetry in P. apply Permutation_nil_r in P. apply app_eq_nil in P as [E1 E2].
    split; [destruct Hwf; now constructor|]. repeat (split; [reflexivity|]).
    change (merge_in_list_is_full (set_wsp _ s)) with (merge_in_list_is_full s).
    change (filled (set_wsp _ s)) with (filled s). rewrite Ef, E1, E2.
    split; [reflexivity|]. split; [now left|]. split; set_solver. }
  clearbody s1. clear Hk Hv. destruct H1 as (W1 & V1 & _ & _ & _ & Hk). cbv zeta.
  assert (Hadd : (working_length s1 < list_size)%nat -> dropped = [] \/ merge_in_list_is_full s1 = true ->
    (merge_in_list_is_full s1 = true -> worst_saved_priority s1 <= priority e) ->
    good (e :: es) (add_to_working e s1)).
  { intros Hlt Hd Hle. destruct (add_to_working_spec e s1 W1 Hlt) as (W2 & F2 & B2 & U2 & V2 & M2).
    split; [exact W2|]. exists dropped. rewrite F2, B2, U2, (M2 V1). split; [|now left]. now apply kept_add. }
  destruct (merge_in_list_is_full s1) eqn:Ef; cbn [negb andb].
  - unfold better_than. destruct (Z.ltb_spec (worst_saved_priority s1) (priority e)) as [Hlt|Hge]; cbn [negb].
    + destruct (bool_decide (working_length s1 < list_size)%nat) eqn:El.
      * apply bool_decide_eq_true in El. eexists. split; [reflexivity|]. apply Hadd; auto. intros _. lia.
      * apply bool_decide_eq_false in El. pose proof (wf_length _ W1).
        apply (add_full_spec es e s1 dropped); auto; [lia|rewrite Ef; exact Hk].
    + eexists. split; [reflexivity|]. split; [exact W1|]. exists (e :: dropped). rewrite Ef. split; [|now left].
      apply kept_drop; [exact Hge|now left|exact Hk].
  - destruct (bool_decide (working_length s1 < list_size)%nat) eqn:El.
    + apply bool_decide_eq_true in El. eexists. split; [reflexivity|]. apply Hadd; [exact El| |discriminate].
      left. destruct Hk as (_ & [->|Hd] & _); [reflexivity|]. rewrite filled_length in Hd by exact W1. lia.
    + apply bool_decide_eq_false in El. pose proof (wf_length _ W1). unfold better_than.
      destruct (Z.ltb_spec (worst_saved_priority s1) (priority e)) as [Hlt|Hge]; cbn [negb].
      * apply (add_full_spec es e s1 dropped); auto; [lia|rewrite Ef; exact Hk].
      * eexists. split; [reflexivity|]. split; [exact W1|]. exists (e :: dropped). rewrite Ef. split; [|now left].
        apply kept_drop; [exact Hge|right; rewrite filled_length by exact W1; lia|exact Hk].
Qed.

Lemma add_entries_spec es0 es (s : plist) :
  (0 < list_size)%nat -> good es0 s ->
  exists s' es', add_entries es s = Some s' /\ es' ≡ₚ es0 ++ es /\ good es' s'.
Proof.
  intros Hpos. revert es0 s. induction es as [|e es IH]; intros es0 s Hg; cbn [add_entries].
  - exists s, es0. rewrite app_nil_r. auto.
  - destruct (add_entry_spec es0 e s Hpos Hg) as (s1 & -> & Hg1). cbn [mbind option_bind].
    destruct (IH (e :: es0) s1 Hg1) as (s2 & es' & -> & P & Hg2). exists s2, es'. split; [reflexivity|].
    split; [|exact Hg2]. rewrite P. solve_Permutation.
Qed.

(** ** The result *)

(** [out] is the best [list_size] entries of [es], best first. *)
Definition best_of (es out : list element) : Prop :=
  desc out /\ length out = Nat.min list_size (length es) /\
  exists dropped, es ≡ₚ out ++ dropped /\ dominates out dropped.

Lemma finish_spec es (s : plist) :
  good es s -> exists out s', finish s = Some (length out, s') /\ best_of es out /\
    wf s' /\ filled s' = out /\ working_length s' = length out /\ finish_has_been_called s' = true /\
    remove_index s' = 0%nat.
Proof.
  intros (Hwf & dropped & Hk & Hv). unfold finish.
  destruct (sort_working_spec s Hwf) as (W1 & P1 & D1 & B1 & A1 & L1). set (s1 := sort_working s) in *.
  change (merge_in_list_is_full s1) with (merge_in_list_is_full s). destruct (merge_in_list_is_full s).
  - destruct Hk as (Pe & Hm & Dm & Hx).
    destruct (merge_state s1 W1 D1 ltac:(rewrite B1; exact Hm)) as (out & rest & s2 & E2 & W2 & A2 & Hlo & Hmg & Es2).
    rewrite E2. cbn [mbind option_bind]. rewrite B1 in Hmg. destruct Hmg as [P D B].
    set (s3 := set_subscripts _ _ _ (set_length list_size s2)).
    assert (W3 : wf s3) by (destruct W2 as [? ? ? ? ? (? & ? & ?) ?]; constructor; auto; cbn; first [lia | intuition congruence]).
    assert (F3 : filled s3 = out).
    { unfold filled. cbn. change (arr s3 (merge_out s2)) with (arr s2 (merge_out s2)).
      replace (merge_out s2) with (merge_out s1) by now rewrite Es2. rewrite A2. apply take_ge. lia. }
    exists out, (set_removing true 0 s3). change (working_length s3) with list_size. rewrite Hlo.
    split; [reflexivity|]. split; [|split; [destruct W3; now constructor|split; [exact F3|auto]]].
    split; [exact D|]. split.
    + rewrite Hlo, Pe, !length_app, best_length by exact Hwf. lia.
    + exists (rest ++ dropped). split; [rewrite Pe, <- P1, app_assoc, P; solve_Permutation|].
      intros x y Hx' [Hy|Hy]%elem_of_app; [now apply B|].
      destruct (entry_below (best s) (filled s1) out rest x P B) as (z & Hz & Hzx);
        [rewrite best_length by exact Hwf; lia|exact Hx'|]. pose proof (Dm z y Hz Hy). lia.
  - destruct Hk as (Pe & Hd & Hdr & Hx). cbn [mbind option_bind].
    exists (filled s1), (set_removing true 0 s1). rewrite filled_length by exact W1.
    split; [reflexivity|]. split; [|split; [destruct W1; now constructor|auto]].
    split; [exact D1|]. pose proof (filled_length s Hwf) as Hfl. pose proof (wf_length s Hwf). split.
    + rewrite filled_length by exact W1. rewrite L1, Pe, length_app, Hfl.
      destruct Hd as [-> |Hd]; cbn; lia.
    + exists dropped. split; [now rewrite Pe, P1|]. intros x y Hx' Hy. rewrite P1 in Hx'.
      pose proof (Hx x Hx'). pose proof (Hdr y Hy). lia.
Qed.

Lemma remove_entries_spec fuel (s : plist) :
  wf s -> finish_has_been_called s = true -> (remove_index s <= working_length s)%nat ->
  (working_length s - remove_index s < fuel)%nat ->
  remove_entries fuel s = Some (drop (remove_index s) (filled s)).
Proof.
  revert s. induction fuel as [|fuel IH]; intros s Hwf Hf Hr Hlt; [lia|]. cbn [remove_entries].
  unfold remove_entry. rewrite Hf. cbn [negb orb].
  destruct (bool_decide (working_length s <= remove_index s)%nat) eqn:El.
  - apply bool_decide_eq_true in El. cbn [mbind option_bind]. rewrite drop_ge; [reflexivity|].
    rewrite filled_length by exact Hwf. lia.
  - apply bool_decide_eq_false in El. pose proof (wf_length _ Hwf).
    destruct (lookup_lt_is_Some_2 (arr s (working s)) (remove_index s)) as [e Ee].
    { rewrite (wf_arrays _ Hwf); [lia|apply Hwf]. }
    rewrite Ee. cbn [mbind option_bind]. rewrite IH; [|destruct Hwf; now constructor|reflexivity|cbn; lia|cbn; lia].
    cbn [mbind option_bind]. f_equal. cbn [remove_index set_removing].
    change (filled (set_removing true (S (remove_index s)) s)) with (filled s).
    symmetry. apply drop_S. unfold filled. rewrite lookup_take_lt by lia. exact Ee.
Qed.

(** C37. The releaser's list does what it is for: after any number of candidates,
    reading the list returns the best [list_size] of them (all of them when there
    are fewer), best first. No array is read or written out of bounds on the way,
    and every entry that was skipped or thrown away in a merge is no better than
    any that is returned. *)
Theorem candidates_best (es : list element) (s : plist) :
  (0 < list_size)%nat -> length (lists s) = 3%nat ->
  (forall i, (i < 3)%nat -> length (arr s i) = list_size) ->
  exists out, candidates es s = Some out /\ best_of es out.
Proof.
  intros Hpos H3 Ha. unfold candidates.
  assert (Hg : good [] (init s)).
  { split; [constructor; cbn; auto with lia|]. exists []. split; [|right; auto].
    unfold kept. cbn. split; [reflexivity|]. split; [now left|]. split; set_solver. }
  destruct (add_entries_spec [] es (init s) Hpos Hg) as (s1 & es' & -> & P & Hg1). cbn [mbind option_bind].
  destruct (finish_spec es' s1 Hg1) as (out & s2 & -> & Hb & W2 & F2 & L2 & Hf2 & R2). cbn [mbind option_bind].
  exists out. rewrite remove_entries_spec; [|assumption..|lia|lia].
  rewrite F2, R2. split; [reflexivity|]. cbn in P. destruct Hb as (D & Hl & dropped & Pd & Hdom).
  split; [exact D|]. split; [now rewrite <- P|]. exists dropped. rewrite <- P. auto.
Qed.
End Plist.

(** ** A sort *)

#[export] Instance compare_working_dec {I : Type} :
  RelDecision (fun x y : element (I := I) => compare_working x y <= 0).
Proof. intros x y. apply _. Defined.

Ltac compare_cases :=
  cbv beta delta [compare_working better_than];
  repeat match goal with
    | |- context [?a =? ?b] => destruct (Z.eqb_spec a b)
    | |- context [?a <? ?b] => destruct (Z.ltb_spec a b)
    end; lia.

Lemma compare_working_trans {I : Type} : Transitive (fun x y : element (I := I) => compare_working x y <= 0).
Proof. intros x y z. compare_cases. Qed.

Lemma compare_working_total {I : Type} : Total (fun x y : element (I := I) => compare_working x y <= 0).
Proof.
  intros x y. destruct (Z.le_gt_cases (compare_working x y) 0) as [|Hgt]; [now left|right].
  revert Hgt. compare_cases.
Qed.

#[export] Instance merge_qsort {I : Type} : QSort (I := I).
Proof.
  refine {| qsort := merge_sort (fun x y => compare_working x y <= 0) |}.
  - apply merge_sort_Permutation.
  - pose proof (@compare_working_trans I). pose proof (@compare_working_total I).
    intros l. now apply StronglySorted_merge_sort.
Defined.

(** Ten candidates for a list of three: the arrays are filled, sorted and merged
    several times. *)
Definition sample : list (element (I := unit)) :=
  (fun p => mk_element p p tt) <$> [5; 9; 2; 7; 7; 1; 8; 3; 12; 4].
Definition blank_lists : plist (I := unit) :=
  mk_plist (replicate 3 (replicate 3 (mk_element 0 0 tt))) 0 0 0 0 false 0 false false 0.

Example candidates_sample :
  option_map (map priority) (candidates 3 sample blank_lists) = Some [12; 9; 8].
Proof. vm_compute. reflexivity. Qed.

Lemma candidates_best_witness :
  exists out, candidates 3 sample blank_lists = Some out /\ best_of 3 sample out.
Proof.
  apply candidates_best; [lia|reflexivity|].
  intros i Hi. do 3 (destruct i as [|i]; [reflexivity|]). lia.
Defined.
