(* ===== verification/Monad.v ===== *)
(** * Kernel code as state passing with faults

    A kernel routine either completes with a value and a new state, or stops the
    system: an [ASSERT] fails, a pointer does not point to an allocated structure,
    or a thread enters a mutex that it already holds. [wp m Q s] says that [m],
    started in [s], completes, and that [Q] holds of its value and final state; it
    is false of every faulting run, so a [wp] is a total-correctness statement. *)

From S2P Require Import Prelude.

Inductive fault : Type :=
  | AssertionFailed      (* ASSERT(...) *)
  | WildPointer          (* dereference of NULL or of a freed structure *)
  | SelfDeadlock         (* mutex_enter of a mutex this thread holds *)
  | OutOfFuel.           (* a loop ran longer than its bound *)

Inductive outcome (S A : Type) : Type :=
  | Done (a : A) (s : S)
  | Fault (f : fault).
Arguments Done {S A} a s.
Arguments Fault {S A} f.

Definition M (S A : Type) : Type := S -> outcome S A.

#[export] Instance M_ret (S : Type) : MRet (M S) := fun A a s => Done a s.
#[export] Instance M_bind (S : Type) : MBind (M S) := fun A B f m s =>
  match m s with Done a s' => f a s' | Fault e => Fault e end.

Definition fail {S A : Type} (f : fault) : M S A := fun _ => Fault f.
Definition gets {S A : Type} (f : S -> A) : M S A := fun s => Done (f s) s.
Definition modify {S : Type} (f : S -> S) : M S unit := fun s => Done tt (f s).
Definition assert {S : Type} (b : bool) : M S unit :=
  fun s => if b then Done tt s else Fault AssertionFailed.
Definition when {S : Type} (b : bool) (m : M S unit) : M S unit := if b then m else mret tt.
(** A pointer that must point somewhere. *)
Definition deref {S A : Type} (o : option A) : M S A :=
  match o with Some a => mret a | None => fail WildPointer end.

(** Loops over a fixed range. *)
Fixpoint for_each {S A : Type} (l : list A) (body : A -> M S unit) : M S unit :=
  match l with [] => mret tt | x :: l' => body x;; for_each l' body end.

(** The first step of a run that completes. *)
Lemma bind_done {S A B : Type} (m : M S A) (f : A -> M S B) (s s' : S) (a : A) :
  m s = Done a s' -> (m ≫= f) s = f a s'.
Proof. unfold mbind, M_bind. now intros ->. Qed.

(** ** Total correctness *)

Section WP.
Context {S : Type}.

Definition wp {A : Type} (m : M S A) (Q : A -> S -> Prop) (s : S) : Prop :=
  match m s with Done a s' => Q a s' | Fault _ => False end.

Lemma wp_ret {A : Type} (a : A) (Q : A -> S -> Prop) s : Q a s -> wp (mret a) Q s.
Proof. exact id. Qed.

Lemma wp_bind {A B : Type} (m : M S A) (f : A -> M S B) (Q : B -> S -> Prop) s :
  wp m (fun a s' => wp (f a) Q s') s -> wp (m ≫= f) Q s.
Proof. unfold wp, mbind, M_bind. now destruct (m s). Qed.

(** Running the first two steps together. *)
Lemma wp_assoc {A B C : Type} (m : M S A) (f : A -> M S B) (g : B -> M S C)
    (Q : C -> S -> Prop) s :
  wp (m ≫= f) (fun b s' => wp (g b) Q s') s -> wp (m ≫= fun a => f a ≫= g) Q s.
Proof. unfold wp, mbind, M_bind. destruct (m s) as [a s'|]; [|auto]. now destruct (f a s'). Qed.

Lemma wp_mono {A : Type} (m : M S A) (P Q : A -> S -> Prop) s :
  wp m P s -> (forall a s', P a s' -> Q a s') -> wp m Q s.
Proof. unfold wp. destruct (m s); auto. Qed.

Lemma wp_gets {A : Type} (f : S -> A) (Q : A -> S -> Prop) s : Q (f s) s -> wp (gets f) Q s.
Proof. exact id. Qed.

Lemma wp_modify (f : S -> S) (Q : unit -> S -> Prop) s : Q tt (f s) -> wp (modify f) Q s.
Proof. exact id. Qed.

Lemma wp_assert (b : bool) (Q : unit -> S -> Prop) s : b = true -> Q tt s -> wp (assert b) Q s.
Proof. intros -> H. exact H. Qed.

Lemma wp_when (b : bool) (m : M S unit) (Q : unit -> S -> Prop) s :
  (b = true -> wp m Q s) -> (b = false -> Q tt s) -> wp (when b m) Q s.
Proof. destruct b; cbn; auto. Qed.

Lemma wp_deref {A : Type} (o : option A) (a : A) (Q : A -> S -> Prop) s :
  o = Some a -> Q a s -> wp (deref o) Q s.
Proof. intros -> H. exact H. Qed.

Lemma wp_done {A : Type} (m : M S A) (Q : A -> S -> Prop) s :
  wp m Q s -> exists a s', m s = Done a s' /\ Q a s'.
Proof. unfold wp. destruct (m s) as [a s'|]; [eauto|contradiction]. Qed.

Lemma wp_of_done {A : Type} (m : M S A) (Q : A -> S -> Prop) s a s' :
  m s = Done a s' -> wp m Q s -> Q a s'.
Proof. unfold wp. now intros ->. Qed.

(** A loop keeps an invariant indexed by the elements already visited. *)
Lemma wp_for_each {A : Type} (l : list A) (body : A -> M S unit) (I : list A -> S -> Prop) s :
  (forall done x rest s', l = done ++ x :: rest -> I done s' ->
     wp (body x) (fun _ => I (done ++ [x])) s') ->
  I [] s -> wp (for_each l body) (fun _ => I l) s.
Proof.
  intros Hb. assert (H : forall rest done s', l = done ++ rest -> I done s' ->
    wp (for_each rest body) (fun _ => I l) s').
  { induction rest as [|x rest IH]; intros done s' El HI; cbn [for_each].
    - rewrite app_nil_r in El. subst. exact HI.
    - apply wp_bind. eapply wp_mono; [eapply Hb; eauto|]. cbn. intros _ s'' HI'.
      eapply IH; [|exact HI']. now rewrite <- app_assoc. }
  intros HI. now apply (H l []).
Qed.
End WP.

#[global] Opaque wp.

(** One step of a symbolic run. *)
Ltac wp_pure :=
  first
    [ apply wp_bind
    | apply wp_ret
    | apply wp_gets
    | apply wp_modify
    | apply wp_assert ].
