(* ===== verification/ArQueue.v ===== *)
(** * The archiver's queues

    The archiver daemon keeps its archive requests on circular doubly linked queues
    in scheduling order, highest priority first and the oldest first among equals;
    unused entries are on a queue of their own (src/src/archiver/archiverd/queue.c).
    The mutex is a boolean, as for the quota cache. Priorities are [float]s,
    modelled as multiples of [2 ^ -149]. *)

From stdpp Require Import strings.
From Stdlib Require Import Sorting.Sorted.
From S2P Require Import Prelude DList Monad.

Abbreviation addr := nat.

(** The fields of [struct ArchReq] that order the queue. *)
Record ArchReq : Type := mk_ArchReq { ArSchedPriority : Z; ArTime : Z }.

(** [struct ArchReq *]: the shared empty request, or one in memory. *)
Inductive arptr : Type := ArNull | ArAt (a : addr).
#[export] Instance arptr_eq_dec : EqDecision arptr.
Proof. solve_decision. Defined.

Record QueueEntry : Type := mk_QueueEntry {
  QeFwd : option addr;
  QeBak : option addr;
  QeNext : option addr;
  QeAr : arptr;
  QeArname : string
}.

Record qstate : Type := mk_qstate {
  entries : gmap addr QueueEntry;   (* entries and queue heads *)
  reqs : gmap addr ArchReq;
  arNull : ArchReq;
  qeAll : option addr;
  QueueMutex : bool;
  qbrk : addr
}.

(** The head of the queue of free entries. *)
Definition freeQ : addr := 0%nat.
Definition FLT_MAX : Z := (2 ^ 24 - 1) * 2 ^ 253.
(** [-3.4E+38F]; rounded to a [float] it is above [- FLT_MAX]. *)
Definition PR_MIN : Z := - (16763294 * 2 ^ 253).
Definition PR_MAX : Z := FLT_MAX.

Definition set_QeFwd v e := mk_QueueEntry v (QeBak e) (QeNext e) (QeAr e) (QeArname e).
Definition set_QeBak v e := mk_QueueEntry (QeFwd e) v (QeNext e) (QeAr e) (QeArname e).
Definition set_QeNext v e := mk_QueueEntry (QeFwd e) (QeBak e) v (QeAr e) (QeArname e).
Definition set_QeAr v nm e := mk_QueueEntry (QeFwd e) (QeBak e) (QeNext e) v nm.

Definition upd_entries (f : gmap addr QueueEntry -> gmap addr QueueEntry) (s : qstate) : qstate :=
  mk_qstate (f (entries s)) (reqs s) (arNull s) (qeAll s) (QueueMutex s) (qbrk s).
Definition set_arNull v (s : qstate) : qstate :=
  mk_qstate (entries s) (reqs s) v (qeAll s) (QueueMutex s) (qbrk s).
Definition set_qeAll v (s : qstate) : qstate :=
  mk_qstate (entries s) (reqs s) (arNull s) v (QueueMutex s) (qbrk s).
Definition set_mutex v (s : qstate) : qstate :=
  mk_qstate (entries s) (reqs s) (arNull s) (qeAll s) v (qbrk s).
Definition set_qbrk v (s : qstate) : qstate :=
  mk_qstate (entries s) (reqs s) (arNull s) (qeAll s) (QueueMutex s) v.

Abbreviation K := (M qstate).

Definition get_e (a : addr) : K QueueEntry :=
  fun s => match entries s !! a with Some e => Done e s | None => Fault WildPointer end.
Definition mod_e (a : addr) (f : QueueEntry -> QueueEntry) : K unit :=
  fun s => match entries s !! a with
           | Some _ => Done tt (upd_entries (alter f a) s)
           | None => Fault WildPointer
           end.
(** [*qe->QeAr] *)
Definition get_ar (p : arptr) : K ArchReq :=
  fun s => match p with
           | ArNull => Done (arNull s) s
           | ArAt a => match reqs s !! a with Some r => Done r s | None => Fault WildPointer end
           end.
Definition QueueLock : K unit :=
  l ← gets QueueMutex; if (l : bool) then fail SelfDeadlock else modify (set_mutex true).
Definition QueueUnlock : K unit := modify (set_mutex false).

(** The condition of the loop of [QueueAdd]: [r] stays ahead of [q]. *)
Definition ahead (r q : ArchReq) : bool :=
  (ArSchedPriority q <? ArSchedPriority r) ||
  ((ArSchedPriority r =? ArSchedPriority q) && (ArTime r <? ArTime q)).

(** [for (qet = ...; ahead; qet = qet->QeFwd);] *)
Fixpoint add_walk (fuel : nat) (qet : addr) (q : ArchReq) : K addr :=
  e ← get_e qet; r ← get_ar (QeAr e);
  if ahead r q then
    match fuel with
    | O => fail OutOfFuel
    | S fuel' => n ← deref (QeFwd e); add_walk fuel' n q
    end
  else mret qet.

Definition QueueAdd (qe qu : addr) : K unit :=
  QueueLock;;
  h ← get_e qu; first ← deref (QeFwd h);
  e ← get_e qe; q ← get_ar (QeAr e);
  fuel ← gets (fun s => size (entries s));
  qet ← add_walk fuel first q;
  mod_e qe (set_QeFwd (Some qet));;
  t ← get_e qet; mod_e qe (set_QeBak (QeBak t));;
  t ← get_e qet; b ← deref (QeBak t); mod_e b (set_QeFwd (Some qe));;
  mod_e qet (set_QeBak (Some qe));;
  QueueUnlock.

Definition QueueFree (qe : addr) : K unit :=
  mod_e qe (set_QeAr ArNull "null"%string);;
  QueueAdd qe freeQ.

(** [qe->QeBak->QeFwd = qe->QeFwd; qe->QeFwd->QeBak = qe->QeBak] *)
Definition unlink_entry (qe : addr) : K unit :=
  e ← get_e qe; b ← deref (QeBak e); mod_e b (set_QeFwd (QeFwd e));;
  e ← get_e qe; f ← deref (QeFwd e); mod_e f (set_QeBak (QeBak e)).

(** A new entry; its links are whatever the memory held. *)
Definition SamMalloc : K addr :=
  fun s => let a := qbrk s in
           Done a (set_qbrk (S a) (upd_entries (<[a := mk_QueueEntry None None None ArNull ""%string]>) s)).

Definition QueueGetFree : K addr :=
  QueueLock;;
  h ← get_e freeQ; first ← deref (QeFwd h);
  if negb (bool_decide (first = freeQ)) then
    unlink_entry first;; QueueUnlock;; mret first
  else
    qe ← SamMalloc;
    mod_e qe (set_QeAr ArNull "null"%string);;
    all ← gets qeAll;
    mod_e qe (set_QeNext all);;
    modify (set_qeAll (Some qe));;
    QueueUnlock;; mret qe.

(** [for (qe = qeAll; qe != NULL; qe = qe->QeNext)] with the comparison of names. *)
Fixpoint find_name (fuel : nat) (qe : option addr) (arname : string) : K bool :=
  match qe, fuel with
  | None, _ => mret false
  | Some _, O => fail OutOfFuel
  | Some a, S fuel' =>
      e ← get_e a;
      if bool_decide (QeArname e = arname) then mret true else find_name fuel' (QeNext e) arname
  end.
Definition QueueHasArchReq (arname : string) : K bool :=
  QueueLock;;
  all ← gets qeAll; fuel ← gets (fun s => size (entries s));
  r ← find_name fuel all arname;
  QueueUnlock;; mret r.

Definition init_head (qu : addr) : K unit :=
  mod_e qu (set_QeFwd (Some qu));;
  mod_e qu (set_QeBak (Some qu));;
  mod_e qu (set_QeAr ArNull "head"%string).

(** The first call sets the priority of the empty request, and initialises the free
    queue: a recursive call, in which the priority is no longer 0. *)
Definition QueueInit (qu : addr) : K unit :=
  init_head qu;;
  p ← gets (fun s => ArSchedPriority (arNull s));
  when (p =? 0)
    (modify (fun s => set_arNull (mk_ArchReq (- FLT_MAX) (ArTime (arNull s))) s);;
     init_head freeQ).

Definition QueueRemove (qe : addr) : K unit :=
  QueueLock;; unlink_entry qe;; QueueUnlock.

(** [ar->ArSchedPriority = priority] *)
Definition set_priority (ar : arptr) (priority : Z) : K unit :=
  r ← get_ar ar;
  modify (fun s =>
    let r' := mk_ArchReq priority (ArTime r) in
    match ar with
    | ArNull => set_arNull r' s
    | ArAt a => mk_qstate (entries s) (<[a := r']> (reqs s)) (arNull s) (qeAll s) (QueueMutex s) (qbrk s)
    end).

(** The scheduler gives the request of an entry a new priority, kept between [PR_MIN]
    and [PR_MAX]; if it differs, the entry is queued again. *)
Definition requeue (qe archQ : addr) (priority : Z) : K unit :=
  e ← get_e qe; r ← get_ar (QeAr e);
  let p1 := if PR_MAX <? priority then PR_MAX else priority in
  let p2 := if p1 <? PR_MIN then PR_MIN else p1 in
  when (negb (p2 =? ArSchedPriority r))
    (set_priority (QeAr e) p2;; QueueRemove qe;; QueueAdd qe archQ).

(** ** Queues as lists *)

Definition fwd (s : qstate) (a : addr) : option addr := entries s !! a ≫= QeFwd.
Definition bak (s : qstate) (a : addr) : option addr := entries s !! a ≫= QeBak.
Definition req_of (s : qstate) (a : addr) : option ArchReq :=
  e ← entries s !! a; match QeAr e with ArNull => Some (arNull s) | ArAt r => reqs s !! r end.

(** The queue with head [qu] holds the entries [L]. *)
Record queue (s : qstate) (qu : addr) (L : list addr) : Prop := mk_queue {
  qu_nodup : NoDup (qu :: L);
  qu_links : dlist (fwd s) (bak s) qu L;
  qu_reqs : forall a, a ∈ qu :: L -> is_Some (req_of s a);
  qu_head : req_of s qu = Some (arNull s)
}.

(** In scheduling order: by priority, highest first, and by age among equals. *)
Definition precedes (r q : ArchReq) : Prop :=
  ArSchedPriority q < ArSchedPriority r \/
  (ArSchedPriority r = ArSchedPriority q /\ ArTime r <= ArTime q).
Definition in_order (s : qstate) : list addr -> Prop :=
  StronglySorted (fun a b => forall r q, req_of s a = Some r -> req_of s b = Some q -> precedes r q).

Lemma precedes_trans r q p : precedes r q -> precedes q p -> precedes r p.
Proof. unfold precedes. lia. Qed.
Lemma precedes_refl r : precedes r r.
Proof. unfold precedes. lia. Qed.

(** The loop stops at the first request that the new one precedes. *)
Lemma ahead_precedes r q : ahead r q = false -> precedes q r.
Proof.
  unfold ahead, precedes. rewrite orb_false_iff, andb_false_iff, !Z.ltb_ge, Z.eqb_neq. lia.
Qed.
Lemma ahead_before r q : ahead r q = true -> precedes r q.
Proof.
  unfold ahead, precedes. rewrite orb_true_iff, andb_true_iff, !Z.ltb_lt, Z.eqb_eq. lia.
Qed.

(** Regrouping the assignments of [QueueAdd]. *)
Lemma wp_assoc4 {S A B : Type} (m1 : M S unit) (m2 : M S A) (m3 : A -> M S unit) (m4 : M S A)
    (m5 : A -> M S B) (m6 : B -> M S unit) (m7 k : M S unit) Q (s : S) :
  wp (m1;; a ← m2; m3 a;; a ← m4; b ← m5 a; m6 b;; m7) (fun _ s' => wp k Q s') s ->
  wp (m1;; a ← m2; m3 a;; a ← m4; b ← m5 a; m6 b;; m7;; k) Q s.
Proof.
  with_strategy transparent [wp] unfold wp, mbind, M_bind.
  destruct (m1 s) as [? s1|]; [|auto]. destruct (m2 s1) as [x s2|]; [|auto].
  destruct (m3 x s2) as [? s3|]; [|auto]. destruct (m4 s3) as [y s4|]; [|auto].
  destruct (m5 y s4) as [z s5|]; [|auto]. destruct (m6 z s5) as [? s6|]; [|auto]. now destruct (m7 s6).
Qed.

Section WP.
Implicit Types (s : qstate) (a b qe qu : addr) (L : list addr).

Lemma wp_get_e a e (Q : QueueEntry -> qstate -> Prop) s :
  entries s !! a = Some e -> Q e s -> wp (get_e a) Q s.
Proof. intros Ha HQ. with_strategy transparent [wp] unfold wp, get_e. now rewrite Ha. Qed.
Lemma wp_mod_e a f (Q : unit -> qstate -> Prop) s :
  is_Some (entries s !! a) -> Q tt (upd_entries (alter f a) s) -> wp (mod_e a f) Q s.
Proof. intros [e Ha] HQ. with_strategy transparent [wp] unfold wp, mod_e. now rewrite Ha. Qed.
Lemma wp_get_ar a e r (Q : ArchReq -> qstate -> Prop) s :
  entries s !! a = Some e -> req_of s a = Some r -> Q r s -> wp (get_ar (QeAr e)) Q s.
Proof.
  unfold req_of. intros -> Hr HQ. with_strategy transparent [wp] unfold wp, get_ar. cbn in Hr.
  destruct (QeAr e); [now injection Hr as ->|now rewrite Hr].
Qed.
Lemma wp_lock (Q : unit -> qstate -> Prop) s :
  QueueMutex s = false -> Q tt (set_mutex true s) -> wp QueueLock Q s.
Proof. intros Hm HQ. unfold QueueLock. apply wp_bind, wp_gets. rewrite Hm. now apply wp_modify. Qed.

(** One link of one entry. *)
Lemma fwd_set s a v b :
  is_Some (entries s !! a) -> fwd (upd_entries (alter (set_QeFwd v) a) s) b = relink (fwd s) a v b.
Proof.
  intros [e He]. unfold fwd, relink. cbn. destruct (decide (b = a)) as [->|Hne].
  - now rewrite lookup_alter_eq, He.
  - now rewrite lookup_alter_ne by congruence.
Qed.
Lemma bak_set s a v b :
  is_Some (entries s !! a) -> bak (upd_entries (alter (set_QeBak v) a) s) b = relink (bak s) a v b.
Proof.
  intros [e He]. unfold bak, relink. cbn. destruct (decide (b = a)) as [->|Hne].
  - now rewrite lookup_alter_eq, He.
  - now rewrite lookup_alter_ne by congruence.
Qed.
Lemma fwd_set_bak s a v b : fwd (upd_entries (alter (set_QeBak v) a) s) b = fwd s b.
Proof.
  unfold fwd. cbn. destruct (decide (a = b)) as [->|Hne].
  - rewrite lookup_alter_eq. now destruct (entries s !! b).
  - now rewrite lookup_alter_ne.
Qed.
Lemma bak_set_fwd s a v b : bak (upd_entries (alter (set_QeFwd v) a) s) b = bak s b.
Proof.
  unfold bak. cbn. destruct (decide (a = b)) as [->|Hne].
  - rewrite lookup_alter_eq. now destruct (entries s !! b).
  - now rewrite lookup_alter_ne.
Qed.

(** What an operation on links leaves alone. *)
Record same_but_links s s' : Prop := mk_same {
  sl_req : forall a, req_of s' a = req_of s a;
  sl_dom : forall a, is_Some (entries s' !! a) <-> is_Some (entries s !! a);
  sl_arNull : arNull s' = arNull s;
  sl_all : qeAll s' = qeAll s;
  sl_brk : qbrk s' = qbrk s
}.

#[local] Instance same_preorder : PreOrder same_but_links.
Proof.
  split.
  - intros s. now constructor.
  - intros s1 s2 s3 [A1 A2 A3 A4 A5] [B1 B2 B3 B4 B5]. constructor;
      [intros a; now rewrite B1, A1|intros a; now rewrite B2, A2|congruence..].
Qed.

Lemma same_alter s f a :
  (forall e, QeAr (f e) = QeAr e) -> same_but_links s (upd_entries (alter f a) s).
Proof.
  intros Hf. constructor; try reflexivity; intros b; cbn.
  - unfold req_of. cbn. destruct (decide (a = b)) as [->|Hne].
    + rewrite lookup_alter_eq. destruct (entries s !! b); [cbn; now rewrite Hf|reflexivity].
    + now rewrite lookup_alter_ne.
  - destruct (decide (a = b)) as [->|Hne]; [|now rewrite lookup_alter_ne].
    rewrite lookup_alter_eq. apply fmap_is_Some.
Qed.

Lemma same_mutex s v : same_but_links s (set_mutex v s).
Proof. now constructor. Qed.

Lemma in_order_ext s s' L :
  (forall a, a ∈ L -> req_of s' a = req_of s a) -> in_order s L -> in_order s' L.
Proof.
  unfold in_order. intros Hs. induction 1 as [|a L _ IH Ha]; constructor; [apply IH; set_solver|].
  rewrite Forall_forall in Ha |- *. intros b Hb r q. rewrite !Hs by set_solver. now apply Ha.
Qed.
Lemma in_order_same s s' L : same_but_links s s' -> in_order s L -> in_order s' L.
Proof. intros Hs. apply in_order_ext. intros a _. apply (sl_req _ _ Hs). Qed.

(** A queue none of whose links changed. *)
Lemma queue_same s s' qu L :
  same_but_links s s' -> (forall a, a ∈ qu :: L -> fwd s' a = fwd s a /\ bak s' a = bak s a) ->
  queue s qu L -> queue s' qu L.
Proof.
  intros Hs Hl [Hnd Hd Hr Hh]. constructor; [exact Hnd| |intros a Ha; rewrite (sl_req _ _ Hs); auto|].
  - eapply dseg_ext; [| |exact Hd]; intros b Hb; apply Hl; [exact Hb|set_solver].
  - rewrite (sl_req _ _ Hs), (sl_arNull _ _ Hs). exact Hh.
Qed.

Lemma req_entry s a r : req_of s a = Some r -> exists e, entries s !! a = Some e.
Proof. unfold req_of. destruct (entries s !! a); [eauto|discriminate]. Qed.

(** ** Finding the place *)

Lemma add_walk_spec fuel s x L qu q :
  dseg (fwd s) (bak s) x L qu -> (length L <= fuel)%nat ->
  (forall a, a ∈ qu :: L -> is_Some (req_of s a)) ->
  (forall r, req_of s qu = Some r -> ahead r q = false) ->
  wp (add_walk fuel (seg_first L qu) q) (fun qet s' => s' = s /\ exists L1 L2,
    L = L1 ++ L2 /\ qet = seg_first L2 qu /\
    (forall a r, a ∈ L1 -> req_of s a = Some r -> ahead r q = true) /\
    (forall r, req_of s (seg_first L2 qu) = Some r -> ahead r q = false)) s.
Proof.
  revert x fuel. induction L as [|z L IH]; intros x fuel Hd Hf Hr Hh.
  - cbn [seg_first]. destruct (Hr qu ltac:(set_solver)) as [r Er]. destruct (req_entry _ _ _ Er) as [e Ee].
    assert (Hgo : wp (add_walk fuel qu q) (fun qet s' => s' = s /\ qet = qu) s).
    { destruct fuel; cbn [add_walk]; (apply wp_bind; eapply wp_get_e; [exact Ee|]);
        (apply wp_bind; eapply wp_get_ar; [exact Ee|exact Er|]); rewrite (Hh r Er); now apply wp_ret. }
    eapply wp_mono; [exact Hgo|]. intros qet s' [-> ->]. split; [reflexivity|]. exists [], []. cbn.
    repeat split; auto. set_solver.
  - cbn [seg_first]. destruct (Hr z ltac:(set_solver)) as [r Er]. destruct (req_entry _ _ _ Er) as [e Ee].
    destruct fuel as [|fuel]; [cbn in Hf; lia|]. cbn [add_walk].
    apply wp_bind; eapply wp_get_e; [exact Ee|]. apply wp_bind; eapply wp_get_ar; [exact Ee|exact Er|].
    destruct Hd as (H1 & H2 & Hd). destruct (ahead r q) eqn:Ea.
    + pose proof (dseg_first _ _ _ _ _ Hd) as Hz. unfold fwd in Hz. rewrite Ee in Hz. cbn in Hz.
      apply wp_bind. eapply wp_deref; [exact Hz|].
      eapply wp_mono; [apply (IH z fuel Hd); [cbn in Hf; lia|set_solver|exact Hh]|].
      intros qet s' (-> & L1 & L2 & -> & -> & Ha & Hn). split; [reflexivity|]. exists (z :: L1), L2.
      split; [reflexivity|]. split; [reflexivity|]. split; [|exact Hn].
      intros a r' [->|Hin]%elem_of_cons Hr'; [congruence|eauto].
    + apply wp_ret. split; [reflexivity|]. exists [], (z :: L). cbn. repeat split; [set_solver|].
      intros r'. congruence.
Qed.

(** ** [QueueAdd] *)

(** The four assignments of the insertion. *)
Lemma link_entry_spec s qe qu L1 L2 :
  queue s qu (L1 ++ L2) -> qe ∉ qu :: L1 ++ L2 -> is_Some (req_of s qe) ->
  let n := seg_first L2 qu in
  wp (mod_e qe (set_QeFwd (Some n));;
      t ← get_e n; mod_e qe (set_QeBak (QeBak t));;
      t ← get_e n; b ← deref (QeBak t); mod_e b (set_QeFwd (Some qe));;
      mod_e n (set_QeBak (Some qe)))
    (fun _ s' => same_but_links s s' /\ queue s' qu (L1 ++ qe :: L2) /\ QueueMutex s' = QueueMutex s /\
      forall a, a ∉ qe :: qu :: L1 ++ L2 -> fwd s' a = fwd s a /\ bak s' a = bak s a) s.
Proof.
  intros [Hnd Hd Hr Hh] Hqe [rq Hrq]. cbv zeta. set (n := seg_first L2 qu). set (p := seg_last qu L1).
  destruct (dlist_insert _ _ _ _ _ _ Hnd Hqe Hd) as (Hfp & Hbn & Hd'). fold n p in Hfp, Hbn, Hd'.
  assert (Hin : n ∈ qu :: L1 ++ L2) by (pose proof (seg_first_elem L2 qu); set_solver).
  assert (Hip : p ∈ qu :: L1 ++ L2) by (pose proof (seg_last_elem qu L1); set_solver).
  assert (Hnq : n <> qe) by (intros ->; contradiction).
  assert (Hpq : p <> qe) by (intros ->; contradiction).
  assert (Hex : forall a, a ∈ qu :: L1 ++ L2 -> exists e, entries s !! a = Some e).
  { intros a Ha. destruct (Hr a Ha) as [r Er]. eapply req_entry; eauto. }
  destruct (Hex n Hin) as [en Een]. destruct (Hex p Hip) as [ep Eep].
  destruct (req_entry _ _ _ Hrq) as [eq Eeq].
  assert (Ebn : QeBak en = Some p) by (unfold bak in Hbn; now rewrite Een in Hbn).
  (* the states of the run *)
  apply wp_bind, wp_mod_e; [eauto|]. set (s1 := upd_entries _ s).
  pose proof (same_alter s (set_QeFwd (Some n)) qe ltac:(reflexivity)) as S1. fold s1 in S1.
  assert (En1 : entries s1 !! n = Some en) by (unfold s1; cbn; now rewrite lookup_alter_ne).
  apply wp_bind; eapply wp_get_e; [exact En1|].
  apply wp_bind, wp_mod_e; [apply (sl_dom _ _ S1); eauto|]. set (s2 := upd_entries _ s1).
  pose proof (same_alter s1 (set_QeBak (QeBak en)) qe ltac:(reflexivity)) as S2. fold s2 in S2.
  assert (En2 : entries s2 !! n = Some en) by (unfold s2; cbn; now rewrite lookup_alter_ne).
  apply wp_bind; eapply wp_get_e; [exact En2|]. apply wp_bind. eapply wp_deref; [exact Ebn|].
  apply wp_bind, wp_mod_e; [apply (sl_dom _ _ S2), (sl_dom _ _ S1); eauto|]. set (s3 := upd_entries _ s2).
  pose proof (same_alter s2 (set_QeFwd (Some qe)) p ltac:(reflexivity)) as S3. fold s3 in S3.
  apply wp_mod_e; [apply (sl_dom _ _ S3), (sl_dom _ _ S2), (sl_dom _ _ S1); eauto|]. set (s4 := upd_entries _ s3).
  pose proof (same_alter s3 (set_QeBak (Some qe)) n ltac:(reflexivity)) as S4. fold s4 in S4.
  assert (Ssame : same_but_links s s4) by (etransitivity; [exact S1|]; etransitivity; [exact S2|]; etransitivity; eauto).
  (* their links *)
  assert (Hf4 : forall b, fwd s4 b = relink (relink (fwd s) qe (Some n)) p (Some qe) b).
  { intros b. unfold s4. rewrite fwd_set_bak. unfold s3. rewrite fwd_set by (apply (sl_dom _ _ S2), (sl_dom _ _ S1); eauto).
    unfold relink at 1 2. destruct (decide (b = p)); [reflexivity|]. unfold s2. rewrite fwd_set_bak. unfold s1. apply fwd_set. eauto. }
  assert (Hb4 : forall b, bak s4 b = relink (relink (bak s) qe (Some p)) n (Some qe) b).
  { intros b. unfold s4. rewrite bak_set by (apply (sl_dom _ _ S3), (sl_dom _ _ S2), (sl_dom _ _ S1); eauto).
    unfold relink at 1 2. destruct (decide (b = n)); [reflexivity|]. unfold s3. rewrite bak_set_fwd.
    unfold s2. rewrite bak_set by (apply (sl_dom _ _ S1); eauto). rewrite Ebn. unfold relink.
    destruct (decide (b = qe)); [reflexivity|]. unfold s1. apply bak_set_fwd. }
  split; [exact Ssame|]. split; [|split; [reflexivity|]].
  - constructor.
    + apply NoDup_cons in Hnd as [Hq Hnd]. apply NoDup_cons. split; [set_solver|].
      apply NoDup_app in Hnd as (N1 & N12 & N2). apply NoDup_app. split; [exact N1|].
      split; [set_solver|]. apply NoDup_cons. split; [set_solver|exact N2].
    + eapply dseg_ext; [| |exact Hd']; intros b _; [apply Hf4|apply Hb4].
    + intros a Ha. rewrite (sl_req _ _ Ssame). apply elem_of_cons in Ha as [->|Ha]; [apply Hr; set_solver|].
      apply elem_of_app in Ha as [Ha|[->|Ha]%elem_of_cons]; [apply Hr; set_solver|eauto|apply Hr; set_solver].
    + rewrite (sl_req _ _ Ssame), (sl_arNull _ _ Ssame). exact Hh.
  - intros a Ha. rewrite Hf4, Hb4, !relink_ne; [auto|set_solver..].
Qed.

(** Where a new entry goes keeps the order. *)
Lemma in_order_insert s qe rq L1 L2 qu :
  in_order s (L1 ++ L2) -> req_of s qe = Some rq -> (forall a, a ∈ L1 ++ L2 -> is_Some (req_of s a)) ->
  (forall a r, a ∈ L1 -> req_of s a = Some r -> ahead r rq = true) ->
  (forall r, req_of s (seg_first L2 qu) = Some r -> ahead r rq = false) ->
  in_order s (L1 ++ qe :: L2).
Proof.
  unfold in_order. intros Ho Hq Hr H1 H2. induction L1 as [|a L1 IH]; cbn in *.
  - constructor; [exact Ho|]. destruct L2 as [|b L2]; [constructor|]. cbn in H2.
    destruct (Hr b ltac:(set_solver)) as [rb Hb]. specialize (H2 rb Hb).
    apply StronglySorted_inv in Ho as [_ Hb2]. constructor.
    + intros r q. rewrite Hq, Hb. intros [= <-] [= <-]. now apply ahead_precedes.
    + rewrite Forall_forall in Hb2 |- *. intros c Hc r q Er Ec. rewrite Hq in Er. injection Er as <-.
      eapply precedes_trans; [apply ahead_precedes, H2|]. exact (Hb2 c Hc rb q Hb Ec).
  - apply StronglySorted_inv in Ho as [Ho Ha]. constructor; [apply IH; [exact Ho|set_solver|]|].
    + intros a' r Ha'. apply H1. set_solver.
    + rewrite Forall_forall in Ha |- *. intros b [Hb|[->|Hb]%elem_of_cons]%elem_of_app; [apply Ha; set_solver| |apply Ha; set_solver].
      intros r q Er Eq. rewrite Hq in Eq. injection Eq as <-. apply ahead_before. apply (H1 a); [set_solver|exact Er].
Qed.

Lemma QueueAdd_run s qe qu L rq :
  queue s qu L -> in_order s L -> qe ∉ qu :: L -> req_of s qe = Some rq -> ahead (arNull s) rq = false ->
  QueueMutex s = false ->
  wp (QueueAdd qe qu) (fun _ s' => same_but_links s s' /\ QueueMutex s' = false /\
    (exists L1 L2, L = L1 ++ L2 /\ queue s' qu (L1 ++ qe :: L2) /\ in_order s' (L1 ++ qe :: L2) /\
       forall a r, a ∈ L1 -> req_of s a = Some r -> ahead r rq = true) /\
    (forall a, a ∉ qe :: qu :: L -> fwd s' a = fwd s a /\ bak s' a = bak s a)) s.
Proof.
  intros Hq Ho Hqe Hrq Hn Hm. unfold QueueAdd. apply wp_bind, wp_lock; [exact Hm|].
  set (s0 := set_mutex true s). pose proof (same_mutex s true) as S0. fold s0 in S0.
  assert (Hq0 : queue s0 qu L) by (eapply queue_same; [exact S0|auto|exact Hq]).
  assert (Ho0 : in_order s0 L) by (eapply in_order_same; eauto).
  destruct Hq0 as [Hnd Hd Hr Hh]. destruct (req_entry _ _ _ Hh) as [eh Eh].
  apply wp_bind; eapply wp_get_e; [exact Eh|].
  pose proof (dseg_first _ _ _ _ _ Hd) as Hfirst. unfold fwd in Hfirst. rewrite Eh in Hfirst. cbn in Hfirst.
  apply wp_bind. eapply wp_deref; [exact Hfirst|].
  assert (Hrq0 : req_of s0 qe = Some rq) by (rewrite (sl_req _ _ S0); exact Hrq).
  destruct (req_entry _ _ _ Hrq0) as [e Ee]. apply wp_bind; eapply wp_get_e; [exact Ee|].
  apply wp_bind; eapply wp_get_ar; [exact Ee|exact Hrq0|]. apply wp_bind, wp_gets.
  apply wp_bind. eapply wp_mono.
  { apply (add_walk_spec _ s0 qu L qu rq Hd); [|exact Hr|intros r; rewrite Hh; now intros [= <-]].
    assert (Hsub : list_to_set L ⊆ dom (entries s0)).
    { intros a Ha%elem_of_list_to_set. apply elem_of_dom. destruct (Hr a ltac:(set_solver)) as [r Er].
      destruct (req_entry _ _ _ Er). eauto. }
    apply NoDup_cons in Hnd as [_ Hnd]. rewrite <- size_dom, <- (size_list_to_set (C := gset addr) L Hnd).
    now apply subseteq_size. }
  intros qet s' (-> & L1 & L2 & -> & -> & Ha & Hnot).
  apply wp_assoc4. eapply wp_mono.
  { apply (link_entry_spec s0 qe qu L1 L2); [now constructor|exact Hqe|rewrite Hrq0; eauto]. }
  intros u s1 (S1 & Hq1 & Hm1 & Hfr). apply wp_modify.
  assert (Sf : same_but_links s (set_mutex false s1))
    by (etransitivity; [exact S0|]; etransitivity; [exact S1|apply same_mutex]).
  split; [exact Sf|]. split; [reflexivity|]. split; [|exact Hfr].
  exists L1, L2. split; [reflexivity|]. split; [eapply queue_same; [apply same_mutex|auto|exact Hq1]|].
  split; [|exact Ha]. eapply in_order_same; [etransitivity; [exact S1|apply same_mutex]|].
  eapply in_order_insert; [exact Ho0|exact Hrq0| |exact Ha|exact Hnot].
  intros a Hin. apply Hr. set_solver.
Qed.

(** ** Unlinking *)

Lemma unlink_entry_spec s qe qu L1 L2 :
  queue s qu (L1 ++ qe :: L2) ->
  wp (unlink_entry qe) (fun _ s' => same_but_links s s' /\ queue s' qu (L1 ++ L2) /\
    QueueMutex s' = QueueMutex s /\
    forall a, a ∉ qu :: L1 ++ L2 -> fwd s' a = fwd s a /\ bak s' a = bak s a) s.
Proof.
  intros [Hnd Hd Hr Hh]. set (n := seg_first L2 qu). set (p := seg_last qu L1).
  destruct (dlist_remove _ _ _ _ _ _ Hnd Hd) as (Hf & Hb & Hd'). fold n p in Hf, Hb, Hd'.
  assert (Hqe : qe ∉ qu :: L1 ++ L2).
  { apply NoDup_cons in Hnd as [Hq Hnd]. apply NoDup_app in Hnd as (_ & H12 & H2).
    apply NoDup_cons in H2 as [H2 _]. set_solver. }
  assert (Hin : n ∈ qu :: L1 ++ L2) by (pose proof (seg_first_elem L2 qu); set_solver).
  assert (Hip : p ∈ qu :: L1 ++ L2) by (pose proof (seg_last_elem qu L1); set_solver).
  assert (Hex : forall a, a ∈ qu :: L1 ++ qe :: L2 -> exists e, entries s !! a = Some e).
  { intros a Ha. destruct (Hr a Ha) as [r Er]. eapply req_entry; eauto. }
  destruct (Hex n ltac:(set_solver)) as [en Een]. destruct (Hex p ltac:(set_solver)) as [ep Eep].
  destruct (Hex qe ltac:(set_solver)) as [e Ee].
  assert (Ef : QeFwd e = Some n) by (unfold fwd in Hf; now rewrite Ee in Hf).
  assert (Eb : QeBak e = Some p) by (unfold bak in Hb; now rewrite Ee in Hb).
  unfold unlink_entry. apply wp_bind; eapply wp_get_e; [exact Ee|].
  apply wp_bind. eapply wp_deref; [exact Eb|]. apply wp_bind, wp_mod_e; [eauto|]. set (s1 := upd_entries _ s).
  pose proof (same_alter s (set_QeFwd (QeFwd e)) p ltac:(reflexivity)) as S1. fold s1 in S1.
  assert (Ee1 : entries s1 !! qe = Some e) by (unfold s1; cbn; rewrite lookup_alter_ne; [exact Ee|set_solver]).
  apply wp_bind; eapply wp_get_e; [exact Ee1|]. apply wp_bind. eapply wp_deref; [exact Ef|].
  apply wp_mod_e; [apply (sl_dom _ _ S1); eauto|]. set (s2 := upd_entries _ s1).
  pose proof (same_alter s1 (set_QeBak (QeBak e)) n ltac:(reflexivity)) as S2. fold s2 in S2.
  assert (Ssame : same_but_links s s2) by (etransitivity; eauto).
  assert (Hf2 : forall b, fwd s2 b = relink (fwd s) p (Some n) b).
  { intros b. unfold s2. rewrite fwd_set_bak. unfold s1. rewrite fwd_set by eauto. now rewrite Ef. }
  assert (Hb2 : forall b, bak s2 b = relink (bak s) n (Some p) b).
  { intros b. unfold s2. rewrite bak_set by (apply (sl_dom _ _ S1); eauto). rewrite Eb. unfold relink.
    destruct (decide (b = n)); [reflexivity|]. unfold s1. apply bak_set_fwd. }
  split; [exact Ssame|]. split; [|split; [reflexivity|]].
  - constructor.
    + apply NoDup_cons in Hnd as [Hq Hnd]. apply NoDup_app in Hnd as (N1 & N12 & N2).
      apply NoDup_cons in N2 as [Nz N2]. apply NoDup_cons. split; [set_solver|].
      apply NoDup_app. split; [exact N1|]. split; [set_solver|exact N2].
    + eapply dseg_ext; [| |exact Hd']; intros b _; [apply Hf2|apply Hb2].
    + intros a Ha. rewrite (sl_req _ _ Ssame). apply Hr. set_solver.
    + rewrite (sl_req _ _ Ssame), (sl_arNull _ _ Ssame). exact Hh.
  - intros a Ha. rewrite Hf2, Hb2, !relink_ne; [auto|intros ->; contradiction..].
Qed.

(** Leaving elements out keeps the order. *)
Lemma in_order_remove s L1 qe L2 : in_order s (L1 ++ qe :: L2) -> in_order s (L1 ++ L2).
Proof.
  unfold in_order. induction L1 as [|a L1 IH]; cbn.
  - now intros [H _]%StronglySorted_inv.
  - intros [H Ha]%StronglySorted_inv. constructor; [auto|].
    rewrite Forall_forall in Ha |- *. intros b Hb. apply Ha. set_solver.
Qed.

Lemma QueueRemove_run s qe qu L1 L2 :
  queue s qu (L1 ++ qe :: L2) -> QueueMutex s = false ->
  wp (QueueRemove qe) (fun _ s' => same_but_links s s' /\ QueueMutex s' = false /\
    queue s' qu (L1 ++ L2) /\
    (forall a, a ∉ qu :: L1 ++ L2 -> fwd s' a = fwd s a /\ bak s' a = bak s a)) s.
Proof.
  intros Hq Hm. unfold QueueRemove. apply wp_bind, wp_lock; [exact Hm|].
  apply wp_bind. eapply wp_mono.
  { apply (unlink_entry_spec (set_mutex true s) qe qu L1 L2).
    eapply queue_same; [apply same_mutex|auto|exact Hq]. }
  intros _ s1 (S1 & Hq1 & Hm1 & Hfr). apply wp_modify.
  split; [etransitivity; [|etransitivity; [exact S1|]]; apply same_mutex|]. split; [reflexivity|].
  split; [eapply queue_same; [apply same_mutex|auto|exact Hq1]|exact Hfr].
Qed.

(** A queue that shares no entry with the ones an operation touches. *)
Lemma queue_other s s' T qu' L' :
  same_but_links s s' -> (forall a, a ∉ T -> fwd s' a = fwd s a /\ bak s' a = bak s a) ->
  qu' :: L' ## T -> queue s qu' L' -> queue s' qu' L'.
Proof. intros Hs Hl Hd. apply queue_same; [exact Hs|]. intros a Ha. apply Hl. exact (Hd a Ha). Qed.

Lemma min_not_ahead n rq :
  ArSchedPriority n = - FLT_MAX -> PR_MIN <= ArSchedPriority rq -> ahead n rq = false.
Proof. unfold ahead. intros -> H. apply orb_false_iff. rewrite andb_false_iff, Z.ltb_ge, Z.eqb_neq. unfold PR_MIN, FLT_MAX in *. lia. Qed.

(** C38. [QueueAdd] completes on a queue in scheduling order and leaves it in order:
    the new entry is between a part of the queue that is ahead of it and the rest.
    Every request keeps its fields, and a queue that shares no entry is unchanged. *)
Theorem QueueAdd_ordered s qe qu L rq :
  queue s qu L -> in_order s L -> qe ∉ qu :: L -> req_of s qe = Some rq ->
  ArSchedPriority (arNull s) = - FLT_MAX -> PR_MIN <= ArSchedPriority rq -> QueueMutex s = false ->
  exists s' L1 L2, QueueAdd qe qu s = Done tt s' /\ QueueMutex s' = false /\
    L = L1 ++ L2 /\ queue s' qu (L1 ++ qe :: L2) /\ in_order s' (L1 ++ qe :: L2) /\
    (forall a, req_of s' a = req_of s a) /\
    (forall qu' L', qu' :: L' ## qe :: qu :: L -> queue s qu' L' -> queue s' qu' L').
Proof.
  intros Hq Ho Hqe Hr Hn Hp Hm.
  destruct (wp_done _ _ _ (QueueAdd_run s qe qu L rq Hq Ho Hqe Hr (min_not_ahead _ _ Hn Hp) Hm))
    as ([] & s' & E & Ss & Hm' & (L1 & L2 & EL & Hq' & Ho' & _) & Hfr).
  exists s', L1, L2. split; [exact E|]. do 4 (split; [assumption|]). split; [apply (sl_req _ _ Ss)|].
  intros qu' L' Hd. eapply queue_other; eauto.
Qed.

(** [QueueRemove] completes and takes exactly the entry off its queue, keeping
    the order of the others and the queues that do not share an entry. *)
Theorem QueueRemove_unlinks s qe qu L1 L2 :
  queue s qu (L1 ++ qe :: L2) -> in_order s (L1 ++ qe :: L2) -> QueueMutex s = false ->
  exists s', QueueRemove qe s = Done tt s' /\ QueueMutex s' = false /\
    queue s' qu (L1 ++ L2) /\ in_order s' (L1 ++ L2) /\ (forall a, req_of s' a = req_of s a) /\
    (forall qu' L', qu' :: L' ## qu :: L1 ++ L2 -> queue s qu' L' -> queue s' qu' L').
Proof.
  intros Hq Ho Hm. destruct (wp_done _ _ _ (QueueRemove_run s qe qu L1 L2 Hq Hm)) as ([] & s' & E & Ss & Hm' & Hq' & Hfr).
  exists s'. split; [exact E|]. do 2 (split; [assumption|]).
  split; [eapply in_order_same; [exact Ss|]; eapply in_order_remove; exact Ho|].
  split; [apply (sl_req _ _ Ss)|]. intros qu' L' Hd. eapply queue_other; eauto.
Qed.

(** ** Giving a request another priority *)

Definition with_req (a : addr) (r : ArchReq) s : qstate :=
  mk_qstate (entries s) (<[a := r]> (reqs s)) (arNull s) (qeAll s) (QueueMutex s) (qbrk s).

Lemma wp_set_priority ar r p (Q : unit -> qstate -> Prop) s :
  reqs s !! ar = Some r -> Q tt (with_req ar (mk_ArchReq p (ArTime r)) s) ->
  wp (set_priority (ArAt ar) p) Q s.
Proof.
  intros Hr HQ. unfold set_priority. with_strategy transparent [wp] unfold wp, mbind, M_bind, get_ar.
  rewrite Hr. exact HQ.
Qed.

Lemma req_of_with_req s ar r a e :
  entries s !! a = Some e ->
  req_of (with_req ar r s) a = if decide (QeAr e = ArAt ar) then Some r else req_of s a.
Proof.
  intros He. unfold req_of. cbn. rewrite He. cbn. destruct (QeAr e) as [|b]; [now rewrite decide_False|].
  destruct (decide (ArAt b = ArAt ar)) as [[= ->]|Hne]; [apply lookup_insert_eq|].
  apply lookup_insert_ne. congruence.
Qed.

(** The rest of a queue does not see the change of a request it does not point to. *)
Lemma queue_with_req s ar r qu L1 qe L2 :
  queue s qu (L1 ++ qe :: L2) ->
  (forall a e, a ∈ qu :: L1 ++ L2 -> entries s !! a = Some e -> QeAr e <> ArAt ar) ->
  queue (with_req ar r s) qu (L1 ++ qe :: L2) /\
  (forall a, a ∈ qu :: L1 ++ L2 -> req_of (with_req ar r s) a = req_of s a).
Proof.
  intros [Hnd Hd Hr Hh] Hne.
  assert (Hsame : forall a, a ∈ qu :: L1 ++ L2 -> req_of (with_req ar r s) a = req_of s a).
  { intros a Ha. destruct (Hr a ltac:(set_solver)) as [ra Hra]. destruct (req_entry _ _ _ Hra) as [e He].
    rewrite (req_of_with_req _ _ _ _ e He), decide_False; eauto. }
  split; [|exact Hsame]. constructor; [exact Hnd|exact Hd| |rewrite Hsame by set_solver; exact Hh].
  intros a Ha. destruct (decide (a = qe)) as [->|Hq]; [|rewrite Hsame by set_solver; auto].
  destruct (Hr qe ltac:(set_solver)) as [ra Hra]. destruct (req_entry _ _ _ Hra) as [e He].
  rewrite (req_of_with_req _ _ _ _ e He). destruct (decide _); eauto.
Qed.

Lemma clamp_bounds p :
  (let p1 := if PR_MAX <? p then PR_MAX else p in if p1 <? PR_MIN then PR_MIN else p1)
  = Z.max PR_MIN (Z.min PR_MAX p).
Proof.
  cbv zeta. destruct (Z.ltb_spec PR_MAX p); [|destruct (Z.ltb_spec p PR_MIN)].
  - rewrite Z.min_l by lia. reflexivity.
  - rewrite Z.min_r by lia. lia.
  - rewrite Z.min_r by lia. lia.
Qed.

(** The three steps of the scheduler, for a new priority. *)
Lemma requeue_steps s qe qu L1 L2 e ar r p :
  queue s qu (L1 ++ qe :: L2) -> in_order s (L1 ++ qe :: L2) -> entries s !! qe = Some e ->
  QeAr e = ArAt ar -> reqs s !! ar = Some r ->
  (forall a e', a ∈ qu :: L1 ++ L2 -> entries s !! a = Some e' -> QeAr e' <> ArAt ar) ->
  ArSchedPriority (arNull s) = - FLT_MAX -> PR_MIN <= p -> QueueMutex s = false ->
  wp (set_priority (QeAr e) p;; QueueRemove qe;; QueueAdd qe qu) (fun _ s' =>
    QueueMutex s' = false /\ req_of s' qe = Some (mk_ArchReq p (ArTime r)) /\
    exists M1 M2, L1 ++ L2 = M1 ++ M2 /\ queue s' qu (M1 ++ qe :: M2) /\ in_order s' (M1 ++ qe :: M2)) s.
Proof.
  intros Hq Ho He Hear Hr Hne Hn Hp Hm. rewrite Hear.
  apply wp_bind. eapply wp_set_priority; [exact Hr|]. set (r' := mk_ArchReq p (ArTime r)).
  destruct (queue_with_req s ar r' qu L1 qe L2 Hq Hne) as [Hq1 Hsame].
  assert (Hrq : req_of (with_req ar r' s) qe = Some r')
    by (rewrite (req_of_with_req _ _ _ _ e He), decide_True; auto).
  apply wp_bind. eapply wp_mono; [apply (QueueRemove_run _ qe qu L1 L2 Hq1); exact Hm|].
  intros _ s2 (S2 & Hm2 & Hq2 & _). eapply wp_mono.
  { apply (QueueAdd_run s2 qe qu (L1 ++ L2) r'); [exact Hq2| | | | |exact Hm2].
    - eapply in_order_same; [exact S2|]. eapply in_order_ext; [|eapply in_order_remove; exact Ho].
      intros a Ha. apply Hsame. set_solver.
    - pose proof (qu_nodup _ _ _ Hq) as Hnd. apply NoDup_cons in Hnd as [Hx Hnd].
      apply NoDup_app in Hnd as (_ & Hd & [Hy _]%NoDup_cons). set_solver.
    - now rewrite (sl_req _ _ S2).
    - apply min_not_ahead; [rewrite (sl_arNull _ _ S2); exact Hn|exact Hp]. }
  intros _ s3 (S3 & Hm3 & (M1 & M2 & EM & Hq3 & Ho3 & _) & _). split; [exact Hm3|].
  split; [now rewrite (sl_req _ _ S3), (sl_req _ _ S2)|]. eauto.
Qed.

(** when the scheduler changes the priority of a queued request, the queue holds
    the same entries afterwards and is in scheduling order for the new priority, which
    is kept within its bounds. The request must not be shared with another entry. *)
Theorem requeue_restores_order s qe qu L1 L2 e ar r priority :
  queue s qu (L1 ++ qe :: L2) -> in_order s (L1 ++ qe :: L2) -> entries s !! qe = Some e ->
  QeAr e = ArAt ar -> reqs s !! ar = Some r ->
  (forall a e', a ∈ qu :: L1 ++ L2 -> entries s !! a = Some e' -> QeAr e' <> ArAt ar) ->
  ArSchedPriority (arNull s) = - FLT_MAX -> QueueMutex s = false ->
  exists s' L', requeue qe qu priority s = Done tt s' /\ QueueMutex s' = false /\
    L' ≡ₚ L1 ++ qe :: L2 /\ queue s' qu L' /\ in_order s' L' /\
    req_of s' qe = Some (mk_ArchReq (Z.max PR_MIN (Z.min PR_MAX priority)) (ArTime r)).
Proof.
  intros Hq Ho He Hear Hr Hne Hn Hm. pose proof (clamp_bounds priority) as Hc. cbv zeta in Hc.
  set (p := Z.max PR_MIN (Z.min PR_MAX priority)) in *. assert (Hp : PR_MIN <= p) by (unfold p; lia).
  assert (Hreq : req_of s qe = Some r) by (unfold req_of; rewrite He; cbn; now rewrite Hear).
  assert (Hrun : wp (requeue qe qu priority) (fun _ s' => QueueMutex s' = false /\
    req_of s' qe = Some (mk_ArchReq p (ArTime r)) /\
    exists L', L' ≡ₚ L1 ++ qe :: L2 /\ queue s' qu L' /\ in_order s' L') s).
  { unfold requeue. apply wp_bind; eapply wp_get_e; [exact He|].
    apply wp_bind; eapply wp_get_ar; [exact He|exact Hreq|]. cbv zeta. rewrite Hc. apply wp_when.
    - intros _. eapply wp_mono; [eapply requeue_steps; eauto|].
      intros _ s' (Hm' & Hr' & M1 & M2 & EM & Hq' & Ho'). split; [exact Hm'|]. split; [exact Hr'|].
      exists (M1 ++ qe :: M2). split; [|auto]. rewrite <- !Permutation_middle. now rewrite EM.
    - intros ->%negb_false_iff%Z.eqb_eq. split; [exact Hm|]. split; [rewrite Hreq; now destruct r|]. eauto. }
  destruct (wp_done _ _ _ Hrun) as ([] & s' & E & Hm' & Hr' & L' & HL & Hq' & Ho'). exists s', L'. auto 6.
Qed.

(** ** Free entries *)

Lemma ahead_irrefl r : ahead r r = false.
Proof. unfold ahead. now rewrite !Z.ltb_irrefl, andb_false_r. Qed.

(** Entries that all have the empty request are in order. *)
Lemma in_order_null s F : (forall a, a ∈ F -> req_of s a = Some (arNull s)) -> in_order s F.
Proof.
  unfold in_order. induction F as [|a F IH]; intros HF; constructor; [apply IH; set_solver|].
  apply Forall_forall. intros b Hb r q. rewrite !HF by set_solver. intros [= <-] [= <-]. apply precedes_refl.
Qed.

(** A queue whose entries are the same structures. *)
Lemma queue_entries s s' qu L :
  (forall a, a ∈ qu :: L -> entries s' !! a = entries s !! a) ->
  reqs s' = reqs s -> arNull s' = arNull s -> queue s qu L -> queue s' qu L.
Proof.
  intros Hsame Er En [Hnd Hd Hr Hh].
  assert (Hreq : forall a, a ∈ qu :: L -> req_of s' a = req_of s a)
    by (intros a Ha; unfold req_of; now rewrite Hsame, Er, En by exact Ha).
  constructor; [exact Hnd| | |].
  - eapply dseg_ext; [| |exact Hd]; intros b Hb; unfold fwd, bak; rewrite Hsame; try reflexivity; [exact Hb|set_solver].
  - intros a Ha. rewrite Hreq by exact Ha. apply Hr, Ha.
  - rewrite Hreq, En by set_solver. exact Hh.
Qed.

(** [qe->QeAr = &arNull] of an entry on no queue. *)
Lemma queue_clear s qe nm qu L :
  qe ∉ qu :: L -> queue s qu L -> queue (upd_entries (alter (set_QeAr ArNull nm) qe) s) qu L.
Proof.
  intros Hqe. apply queue_entries; [|reflexivity..]. intros a Ha. cbn. apply lookup_alter_ne. set_solver.
Qed.

Lemma QueueFree_run s qe F :
  queue s freeQ F -> (forall a, a ∈ F -> req_of s a = Some (arNull s)) -> qe ∉ freeQ :: F ->
  is_Some (entries s !! qe) -> QueueMutex s = false ->
  wp (QueueFree qe) (fun _ s' => QueueMutex s' = false /\ queue s' freeQ (qe :: F) /\
    qeAll s' = qeAll s /\ arNull s' = arNull s /\ (forall a, a ∈ qe :: F -> req_of s' a = Some (arNull s)) /\
    (forall qu' L', qu' :: L' ## qe :: freeQ :: F -> queue s qu' L' -> queue s' qu' L')) s.
Proof.
  intros Hq HF Hqe [e He] Hm. unfold QueueFree. apply wp_bind, wp_mod_e; [eauto|].
  pose proof (queue_clear s qe "null"%string freeQ F Hqe Hq) as Hq1.
  assert (Hfr0 : forall qu' L', qu' :: L' ## qe :: freeQ :: F -> queue s qu' L' ->
    queue (upd_entries (alter (set_QeAr ArNull "null"%string) qe) s) qu' L').
  { intros qu' L' Hd. apply queue_clear. intros Hin. exact (Hd qe Hin ltac:(set_solver)). }
  set (s1 := upd_entries _ s) in *.
  assert (Hrq : req_of s1 qe = Some (arNull s)) by (unfold req_of, s1; cbn; now rewrite lookup_alter_eq, He).
  assert (HF1 : forall a, a ∈ F -> req_of s1 a = Some (arNull s1)).
  { intros a Ha. unfold req_of, s1. cbn. rewrite lookup_alter_ne by set_solver. now apply HF. }
  eapply wp_mono; [apply (QueueAdd_run s1 qe freeQ F (arNull s) Hq1 (in_order_null _ _ HF1) Hqe Hrq (ahead_irrefl _) Hm)|].
  intros _ s' (Ss & Hm' & (L1 & L2 & EL & Hq' & _ & Ha) & Hfr). split; [exact Hm'|].
  assert (L1 = []) as ->.
  { destruct L1 as [|a L1]; [reflexivity|]. specialize (Ha a (arNull s) ltac:(set_solver)).
    rewrite ahead_irrefl in Ha. discriminate Ha. apply HF1. set_solver. }
  cbn in EL. subst L2. split; [exact Hq'|]. split; [apply (sl_all _ _ Ss)|]. split; [apply (sl_arNull _ _ Ss)|].
  split; [|intros qu' L' Hd HqL; eapply queue_other; [exact Ss|exact Hfr|exact Hd|now apply Hfr0]].
  intros a [->|Hin]%elem_of_cons; rewrite (sl_req _ _ Ss); [exact Hrq|apply HF1, Hin].
Qed.

Lemma QueueGetFree_recycled s qe F :
  queue s freeQ (qe :: F) -> QueueMutex s = false ->
  wp QueueGetFree (fun a s' => a = qe /\ QueueMutex s' = false /\ queue s' freeQ F /\ same_but_links s s' /\
    (forall qu' L', qu' :: L' ## freeQ :: F -> queue s qu' L' -> queue s' qu' L')) s.
Proof.
  intros Hq Hm. unfold QueueGetFree. apply wp_bind, wp_lock; [exact Hm|].
  set (s0 := set_mutex true s). pose proof (same_mutex s true) as S0. fold s0 in S0.
  assert (Hq0 : queue s0 freeQ (qe :: F)) by (eapply queue_same; [exact S0|auto|exact Hq]).
  pose proof Hq0 as [Hnd Hd Hr Hh]. destruct (req_entry _ _ _ Hh) as [eh Eh].
  apply wp_bind; eapply wp_get_e; [exact Eh|].
  pose proof (dseg_first _ _ _ _ _ Hd) as Hfirst. unfold fwd in Hfirst. rewrite Eh in Hfirst. cbn in Hfirst.
  apply wp_bind. eapply wp_deref; [exact Hfirst|].
  rewrite bool_decide_false by (apply NoDup_cons in Hnd as [Hx _]; set_solver). cbn [negb].
  apply wp_bind. eapply wp_mono; [apply (unlink_entry_spec s0 qe freeQ [] F Hq0)|].
  intros _ s1 (S1 & Hq1 & Hm1 & Hfr). apply wp_bind, wp_modify, wp_ret.
  assert (Sf : same_but_links s (set_mutex false s1))
    by (etransitivity; [exact S0|]; etransitivity; [exact S1|apply same_mutex]).
  split; [reflexivity|]. split; [reflexivity|].
  split; [eapply queue_same; [apply same_mutex|auto|exact Hq1]|]. split; [exact Sf|].
  intros qu' L' Hdj. eapply queue_other; [exact Sf|exact Hfr|exact Hdj].
Qed.

(** an entry given back with [QueueFree] goes to the front of the free queue with
    the empty request, and the next [QueueGetFree] returns that entry and leaves the
    free queue, and every queue that does not share an entry, as it was. *)
Theorem QueueFree_recycles s qe F :
  queue s freeQ F -> (forall a, a ∈ F -> req_of s a = Some (arNull s)) -> qe ∉ freeQ :: F ->
  is_Some (entries s !! qe) -> QueueMutex s = false ->
  exists s1 s2, QueueFree qe s = Done tt s1 /\ queue s1 freeQ (qe :: F) /\
    QueueGetFree s1 = Done qe s2 /\ queue s2 freeQ F /\ req_of s2 qe = Some (arNull s) /\ qeAll s2 = qeAll s /\
    (forall qu' L', qu' :: L' ## qe :: freeQ :: F -> queue s qu' L' -> queue s2 qu' L').
Proof.
  intros Hq HF Hqe He Hm.
  destruct (wp_done _ _ _ (QueueFree_run s qe F Hq HF Hqe He Hm)) as ([] & s1 & E1 & Hm1 & Hq1 & Ha1 & Hn1 & Hr1 & Hfr1).
  destruct (wp_done _ _ _ (QueueGetFree_recycled s1 qe F Hq1 Hm1)) as (a & s2 & E2 & -> & Hm2 & Hq2 & S2 & Hfr2).
  exists s1, s2. do 4 (split; [assumption|]).
  split; [rewrite (sl_req _ _ S2); apply Hr1; set_solver|]. split; [now rewrite (sl_all _ _ S2)|].
  intros qu' L' Hd HL. apply Hfr2; [intros a Ha Hb; exact (Hd a Ha ltac:(set_solver))|auto].
Qed.

(** with no free entry [QueueGetFree] allocates one that no queue holds, with the
    empty request, and puts it first on the list of all entries; no queue changes. *)
Theorem QueueGetFree_allocates s :
  queue s freeQ [] -> entries s !! qbrk s = None -> QueueMutex s = false ->
  exists s', QueueGetFree s = Done (qbrk s) s' /\ QueueMutex s' = false /\
    req_of s' (qbrk s) = Some (arNull s) /\
    qeAll s' = Some (qbrk s) /\ (mbind QeNext (entries s' !! qbrk s)) = qeAll s /\
    (forall qu' L', queue s qu' L' -> (qbrk s ∉ qu' :: L') /\ queue s' qu' L').
Proof.
  intros Hq Hb Hm. pose proof Hq as [_ Hd _ Hh]. destruct (req_entry _ _ _ Hh) as [eh Eh].
  pose proof (dseg_first _ _ _ _ _ Hd) as Hfirst. unfold fwd in Hfirst. rewrite Eh in Hfirst. cbn in Hfirst.
  eexists. split.
  { unfold QueueGetFree, QueueLock, get_e, deref, SamMalloc, mod_e, gets, modify, mbind, M_bind.
    rewrite Hm. cbn. rewrite Eh. cbn. rewrite Hfirst. cbn. rewrite bool_decide_true by reflexivity. cbn. rewrite lookup_insert_eq. cbn.
    rewrite lookup_alter_eq, lookup_insert_eq. cbn. reflexivity. }
  cbn. split; [reflexivity|].
  split; [unfold req_of; cbn; now rewrite !lookup_alter_eq, lookup_insert_eq|]. split; [reflexivity|].
  split; [now rewrite !lookup_alter_eq, lookup_insert_eq|]. intros qu' L' Hq'.
  assert (Hnin : qbrk s ∉ qu' :: L').
  { intros Hin. destruct (qu_reqs _ _ _ Hq' _ Hin) as [r Hr]. destruct (req_entry _ _ _ Hr). congruence. }
  split; [exact Hnin|]. revert Hq'. apply queue_entries; [|reflexivity..].
  intros a Ha. cbn. rewrite !lookup_alter_ne, lookup_insert_ne; set_solver.
Qed.

(** ** Starting, and looking for a name *)

Lemma wp_init_head qu s (Q : unit -> qstate -> Prop) :
  is_Some (entries s !! qu) ->
  (forall e, entries s !! qu = Some e ->
     Q tt (upd_entries (<[qu := mk_QueueEntry (Some qu) (Some qu) (QeNext e) ArNull "head"%string]>) s)) ->
  wp (init_head qu) Q s.
Proof.
  intros [e He] HQ. specialize (HQ e He).
  with_strategy transparent [wp] unfold wp, init_head, mod_e, mbind, M_bind.
  rewrite He. cbn. rewrite lookup_alter_eq, He. cbn. rewrite !lookup_alter_eq, He. cbn.
  unfold upd_entries in *. cbn.
  replace (alter _ qu (alter _ qu _)) with
    (<[qu := mk_QueueEntry (Some qu) (Some qu) (QeNext e) ArNull "head"%string]> (entries s)); [exact HQ|].
  apply map_eq. intros a. destruct (decide (qu = a)) as [<-|Hne].
  - now rewrite lookup_insert_eq, !lookup_alter_eq, He.
  - now rewrite lookup_insert_ne, !lookup_alter_ne.
Qed.

(** A head that points to itself with the empty request is an empty queue. *)
Lemma empty_queue s qu e :
  entries s !! qu = Some e -> QeFwd e = Some qu -> QeBak e = Some qu -> QeAr e = ArNull -> queue s qu [].
Proof.
  intros He Hf Hb Ha. assert (Hr : req_of s qu = Some (arNull s)) by (unfold req_of; rewrite He; cbn; now rewrite Ha).
  constructor; [apply NoDup_singleton| |set_solver|exact Hr].
  cbn. unfold fwd, bak. now rewrite He.
Qed.

(** [QueueInit] makes an empty queue. The first call also gives the empty request
    the lowest priority and makes the free queue empty; the later ones leave the empty
    request and all other queues as they are. *)
Theorem QueueInit_empty s qu :
  qu <> freeQ -> is_Some (entries s !! qu) -> is_Some (entries s !! freeQ) ->
  exists s', QueueInit qu s = Done tt s' /\ queue s' qu [] /\
    (ArSchedPriority (arNull s) = 0 -> queue s' freeQ [] /\ ArSchedPriority (arNull s') = - FLT_MAX) /\
    (ArSchedPriority (arNull s) <> 0 -> arNull s' = arNull s /\
       forall qu' L', qu ∉ qu' :: L' -> queue s qu' L' -> queue s' qu' L').
Proof.
  intros Hne Hq Hf.
  assert (Hrun : wp (QueueInit qu) (fun _ s' => queue s' qu [] /\
    (ArSchedPriority (arNull s) = 0 -> queue s' freeQ [] /\ ArSchedPriority (arNull s') = - FLT_MAX) /\
    (ArSchedPriority (arNull s) <> 0 -> arNull s' = arNull s /\
       forall qu' L', qu ∉ qu' :: L' -> queue s qu' L' -> queue s' qu' L')) s).
  { unfold QueueInit. apply wp_bind, wp_init_head; [exact Hq|]. intros e He. apply wp_bind, wp_gets. apply wp_when.
    - intros Hz%Z.eqb_eq. apply wp_bind, wp_modify, wp_init_head.
      + cbn. rewrite lookup_insert_ne by congruence. exact Hf.
      + intros e' _. split; [eapply empty_queue; [cbn; rewrite lookup_insert_ne, lookup_insert_eq; [reflexivity|congruence]|reflexivity..]|].
        split; [|cbn in Hz; congruence]. intros _. split; [|reflexivity].
        eapply empty_queue; [cbn; apply lookup_insert_eq|reflexivity..].
    - intros Hz%Z.eqb_neq. split; [eapply empty_queue; [cbn; apply lookup_insert_eq|reflexivity..]|].
      split; [cbn in Hz; congruence|]. intros _. split; [reflexivity|]. intros qu' L' Hin.
      apply queue_entries; [|reflexivity..]. intros a Ha. cbn. apply lookup_insert_ne. set_solver. }
  destruct (wp_done _ _ _ Hrun) as ([] & s' & E & H). eauto.
Qed.

Definition next (s : qstate) (a : addr) : option addr := entries s !! a ≫= QeNext.

Lemma find_name_spec fuel s head A nm :
  chain (next s) head A -> (forall a, a ∈ A -> is_Some (entries s !! a)) -> (length A <= fuel)%nat ->
  wp (find_name fuel head nm) (fun (b : bool) s' => s' = s /\
    (b = true <-> exists a e, a ∈ A /\ entries s !! a = Some e /\ QeArname e = nm)) s.
Proof.
  revert fuel head. induction A as [|z A IH]; cbn [chain]; intros fuel head.
  - intros -> _ _. destruct fuel; cbn [find_name]; apply wp_ret; (split; [reflexivity|]);
      (split; [discriminate|intros (a & e & Ha & _); set_solver]).
  - intros [-> Hc] Hs Hf. destruct fuel as [|fuel]; [cbn in Hf; lia|]. cbn [find_name].
    destruct (Hs z ltac:(set_solver)) as [e He]. apply wp_bind; eapply wp_get_e; [exact He|].
    destruct (bool_decide_reflect (QeArname e = nm)) as [En|En].
    + apply wp_ret. split; [reflexivity|]. split; [|reflexivity]. intros _. exists z, e. set_solver.
    + unfold next in Hc at 2. rewrite He in Hc. cbn in Hc.
      eapply wp_mono; [apply (IH fuel _ Hc); [set_solver|cbn in Hf; lia]|]. intros b s' [-> Hb].
      split; [reflexivity|]. rewrite Hb. split.
      * intros (a & e' & Ha & Hr). exists a, e'. set_solver.
      * intros (a & e' & [->|Ha]%elem_of_cons & He' & Hn); [congruence|]. eauto.
Qed.

(** [QueueHasArchReq] finds the name exactly when an entry of the list of all
    entries carries it, whatever queue that entry is on, and changes nothing. *)
Theorem QueueHasArchReq_correct s A nm :
  chain (next s) (qeAll s) A -> NoDup A -> (forall a, a ∈ A -> is_Some (entries s !! a)) ->
  QueueMutex s = false ->
  exists b : bool, QueueHasArchReq nm s = Done b s /\
    (b = true <-> exists a e, a ∈ A /\ entries s !! a = Some e /\ QeArname e = nm).
Proof.
  intros Hc Hnd Hs Hm.
  assert (Hrun : wp (QueueHasArchReq nm) (fun (b : bool) s' => s' = s /\
    (b = true <-> exists a e, a ∈ A /\ entries s !! a = Some e /\ QeArname e = nm)) s).
  { unfold QueueHasArchReq. apply wp_bind, wp_lock; [exact Hm|]. do 2 apply wp_bind, wp_gets.
    apply wp_bind. eapply wp_mono; [apply (find_name_spec _ (set_mutex true s) _ A nm Hc Hs)|].
    - cbn. rewrite <- size_dom, <- (size_list_to_set (C := gset addr) A Hnd). apply subseteq_size.
      intros a Ha%elem_of_list_to_set. apply elem_of_dom, Hs, Ha.
    - intros b s' [-> Hb]. apply wp_bind, wp_modify, wp_ret. split; [|exact Hb].
      destruct s; cbn in *. now subst. }
  destruct (wp_done _ _ _ Hrun) as (b & s' & E & -> & Hb). eauto.
Qed.
End WP.

(** ** A small daemon *)

(** Two heads (the free queue and one other), an idle entry 4, and entries 2 and 3
    queued with priorities 7 and 5; entry 5 is free. *)
Definition sample_queues : qstate :=
  let e f b nx ar nm := mk_QueueEntry (Some f) (Some b) nx ar nm in
  mk_qstate
    (list_to_map [(0, e 5 5 None ArNull "head"); (1, e 2 3 None ArNull "head");
                  (2, e 3 1 None (ArAt 2) "r2"); (3, e 1 2 (Some 2) (ArAt 3) "r3");
                  (4, e 4 4 (Some 3) (ArAt 4) "r4"); (5, e 0 0 (Some 4) ArNull "null")]%nat%string)
    (list_to_map [(2%nat, mk_ArchReq 7 100); (3%nat, mk_ArchReq 5 90); (4%nat, mk_ArchReq 5 80)])
    (mk_ArchReq (- FLT_MAX) 0) (Some 5%nat) false 6.

Ltac concrete_queue :=
  constructor;
    [now apply (bool_decide_unpack _); vm_compute
    |vm_compute; repeat split; reflexivity
    |apply Forall_forall; repeat constructor; eexists; reflexivity
    |reflexivity].
Ltac concrete_order :=
  unfold in_order;
  repeat first [apply SSorted_nil | apply SSorted_cons | apply List.Forall_nil | apply List.Forall_cons];
  intros r q Hr Hq; vm_compute in Hr, Hq;
  injection Hr as <-; injection Hq as <-; unfold precedes; cbn; lia.

Lemma sample_queue : queue sample_queues 1 [2; 3]%nat.
Proof. concrete_queue. Qed.
Lemma sample_order : in_order sample_queues [2; 3]%nat.
Proof. concrete_order. Qed.
Lemma sample_free : queue sample_queues freeQ [5]%nat.
Proof. concrete_queue. Qed.

(** The entry of priority 5 that is older goes between the two. *)
Lemma QueueAdd_ordered_witness : exists s' L1 L2, QueueAdd 4 1 sample_queues = Done tt s' /\
  [2; 3]%nat = L1 ++ L2 /\ queue s' 1 (L1 ++ 4%nat :: L2) /\ in_order s' (L1 ++ 4%nat :: L2).
Proof.
  destruct (QueueAdd_ordered sample_queues 4 1 [2; 3]%nat (mk_ArchReq 5 80)) as (s' & L1 & L2 & E & _ & EL & Hq & Ho & _);
    [apply sample_queue|apply sample_order|apply (bool_decide_unpack _); reflexivity|reflexivity|reflexivity
    |vm_compute; discriminate|reflexivity|].
  exists s', L1, L2. auto.
Defined.

Lemma QueueRemove_unlinks_witness : exists s', QueueRemove 2 sample_queues = Done tt s' /\ queue s' 1 [3]%nat.
Proof.
  destruct (QueueRemove_unlinks sample_queues 2 1 [] [3]%nat) as (s' & E & _ & Hq & _);
    [apply sample_queue|apply sample_order|reflexivity|].
  exists s'. auto.
Defined.

Lemma requeue_restores_order_witness : exists s' L', requeue 2 1 3 sample_queues = Done tt s' /\
  L' ≡ₚ [2; 3]%nat /\ queue s' 1 L' /\ in_order s' L' /\ req_of s' 2 = Some (mk_ArchReq 3 100).
Proof.
  destruct (requeue_restores_order sample_queues 2 1 [] [3]%nat
    (mk_QueueEntry (Some 3%nat) (Some 1%nat) None (ArAt 2) "r2"%string) 2 (mk_ArchReq 7 100) 3)
    as (s' & L' & E & _ & HL & Hq & Ho & Hr);
    [apply sample_queue|apply sample_order|reflexivity|reflexivity|reflexivity| |reflexivity|reflexivity|].
  - intros a e' [->|[->|[]%elem_of_nil]%elem_of_cons]%elem_of_cons E; vm_compute in E; injection E as <-; discriminate.
  - exists s', L'. auto.
Defined.

Lemma QueueFree_recycles_witness : exists s1 s2, QueueFree 4 sample_queues = Done tt s1 /\
  queue s1 freeQ [4; 5]%nat /\ QueueGetFree s1 = Done 4%nat s2 /\ queue s2 freeQ [5]%nat.
Proof.
  destruct (QueueFree_recycles sample_queues 4 [5]%nat) as (s1 & s2 & E1 & Hq1 & E2 & Hq2 & _);
    [apply sample_free| |apply (bool_decide_unpack _); reflexivity|eexists; reflexivity|reflexivity|].
  - intros a [->|[]%elem_of_nil]%elem_of_cons. reflexivity.
  - exists s1, s2. auto.
Defined.

(** Two heads that no call has initialised. *)
Definition new_daemon : qstate :=
  mk_qstate (list_to_map [(0%nat, mk_QueueEntry None None None ArNull ""%string);
                          (1%nat, mk_QueueEntry None None None ArNull ""%string)])
    ∅ (mk_ArchReq 0 0) None false 2.

Lemma QueueInit_empty_witness : exists s', QueueInit 1 new_daemon = Done tt s' /\
  queue s' 1 [] /\ queue s' freeQ [].
Proof.
  destruct (QueueInit_empty new_daemon 1) as (s' & E & Hq & Hf & _); [discriminate|eexists; reflexivity..|].
  exists s'. destruct (Hf eq_refl). auto.
Defined.

Definition started : qstate := match QueueInit 1 new_daemon with Done _ s => s | Fault _ => new_daemon end.

Lemma QueueGetFree_allocates_witness : exists s', QueueGetFree started = Done 2%nat s' /\ qeAll s' = Some 2%nat.
Proof.
  destruct (QueueGetFree_allocates started) as (s' & E & _ & _ & Ha & _); [concrete_queue|reflexivity|reflexivity|].
  exists s'. auto.
Defined.

Lemma QueueHasArchReq_correct_witness :
  exists b : bool, QueueHasArchReq "r3"%string sample_queues = Done b sample_queues /\ b = true.
Proof.
  destruct (QueueHasArchReq_correct sample_queues [5; 4; 3; 2]%nat "r3"%string) as (b & E & Hb);
    [vm_compute; auto 10|apply (bool_decide_unpack _); reflexivity| |reflexivity|].
  - apply Forall_forall. repeat constructor; eexists; reflexivity.
  - exists b. split; [exact E|]. apply Hb. exists 3%nat. eexists. split; [set_solver|]. split; reflexivity.
Defined.
