(* ===== verification/Interval.v ===== *)
(** * Time intervals as strings

    [StrFromInterval] and [StrToInterval] of src/src/lib/samut/intervalstr.c, used by
    every configuration file. [strtoll] with base 0 and the conversions ["%d%c"] are
    modelled as the C standard defines them. *)

From Stdlib Require Import Ascii String.
From S2P Require Import Prelude.

#[local] Open Scope string_scope.
#[local] Open Scope Z_scope.

Definition MINUTE : Z := 60.
Definition HOUR : Z := 60 * 60.
Definition DAY : Z := 24 * 60 * 60.
Definition WEEK : Z := 7 * 24 * 60 * 60.
Definition YEAR : Z := 365 * 24 * 60 * 60.
Definition INT_MAX : Z := 2 ^ 31 - 1.
Definition LLONG_MAX : Z := 2 ^ 63 - 1.
Definition LLONG_MIN : Z := - 2 ^ 63.
Definition STR_FROM_INTERVAL_BUF_SIZE : Z := 18.

(** ** The C library *)

Definition code (c : ascii) : Z := Z.of_N (N_of_ascii c).
Definition char_of (n : Z) : ascii := ascii_of_N (Z.to_N n).

(** The digits of the number, in front of [acc]. *)
Fixpoint dec (fuel : nat) (n : Z) (acc : string) : string :=
  let acc' := String (char_of (48 + n mod 10)) acc in
  match fuel with
  | O => acc'
  | S fuel' => if n <? 10 then acc' else dec fuel' (n / 10) acc'
  end.
(** ["%d"]: an [int] has at most ten digits. *)
Definition print_d (v : Z) (acc : string) : string :=
  if v <? 0 then String "-" (dec 9 (- v) acc) else dec 9 v acc.

Definition digit_val (c : ascii) : option Z :=
  let n := code c in
  if (48 <=? n) && (n <=? 57) then Some (n - 48)
  else if (97 <=? n) && (n <=? 122) then Some (n - 87)
  else if (65 <=? n) && (n <=? 90) then Some (n - 55)
  else None.
Definition digit_of (base : Z) (c : ascii) : option Z :=
  match digit_val c with
  | Some d => if d <? base then Some d else None
  | None => None
  end.
Definition isspace (c : ascii) : bool :=
  let n := code c in (n =? 32) || ((9 <=? n) && (n <=? 13)).
Fixpoint skip_space (s : string) : string :=
  match s with String c s' => if isspace c then skip_space s' else s | EmptyString => s end.
Fixpoint scan (base acc : Z) (s : string) : Z * string :=
  match s with
  | EmptyString => (acc, s)
  | String c s' =>
      match digit_of base c with
      | Some d => scan base (acc * base + d) s'
      | None => (acc, s)
      end
  end.
Definition starts_digit (base : Z) (s : string) : bool :=
  match s with String c _ => bool_decide (is_Some (digit_of base c)) | EmptyString => false end.
Definition take_sign (s : string) : bool * string :=
  match s with
  | String "-" s' => (true, s')
  | String "+" s' => (false, s')
  | _ => (false, s)
  end.
(** The base that a prefix selects; [0x] counts only before a hexadecimal digit. *)
Definition take_base (s : string) : Z * string :=
  match s with
  | String "0" (String c s') =>
      if (Ascii.eqb c "x" || Ascii.eqb c "X") && starts_digit 16 s' then (16, s') else (8, s)
  | String "0" EmptyString => (8, s)
  | _ => (10, s)
  end.

(** Value, rest of the string and [errno]; no rest when nothing was converted. *)
Definition strtoll (s : string) : Z * option string * Z :=
  let (neg, s1) := take_sign (skip_space s) in
  let (base, s2) := take_base s1 in
  if starts_digit base s2 then
    let (m, rest) := scan base 0 s2 in
    let v := if neg : bool then - m else m in
    if LLONG_MAX <? v then (LLONG_MAX, Some rest, ERANGE)
    else if v <? LLONG_MIN then (LLONG_MIN, Some rest, ERANGE)
    else (v, Some rest, 0)
  else (0, None, 0).

(** ** The conversions *)

Definition interval_unit (v : Z) : Z * string :=
  if (YEAR <? v) && (Z.rem v YEAR =? 0) then (Z.quot v YEAR, "y")
  else if (WEEK <? v) && (Z.rem v WEEK =? 0) then (Z.quot v WEEK, "w")
  else if (DAY <? v) && (Z.rem v DAY =? 0) then (Z.quot v DAY, "d")
  else if (HOUR <? v) && (Z.rem v HOUR =? 0) then (Z.quot v HOUR, "h")
  else if (MINUTE <? v) && (Z.rem v MINUTE =? 0) then (Z.quot v MINUTE, "m")
  else (v, "").

(** [snprintf] ends the string at the NUL that ["%c"] writes when there is no unit, and
    keeps [buf_size - 1] characters. With [buf == NULL] the static buffer of
    [STR_FROM_INTERVAL_BUF_SIZE] bytes is used. *)
Definition StrFromInterval (interval : Z) (buf : option Z) : string :=
  let buf_size := default STR_FROM_INTERVAL_BUF_SIZE buf in
  if buf_size <? STR_FROM_INTERVAL_BUF_SIZE then EmptyString
  else let (v, c) := interval_unit interval in
       String.substring 0 (Z.to_nat (buf_size - 1)) (print_d v c).

(** The unit after the number: its length in seconds and the rest. *)
Definition take_unit (p : string) : Z * string :=
  match p with
  | String "s" p' => (1, p')
  | String "m" p' => (MINUTE, p')
  | String "h" p' => (HOUR, p')
  | String "d" p' => (DAY, p')
  | String "w" p' => (WEEK, p')
  | String "y" p' => (YEAR, p')
  | _ => (1, p)
  end.

(** The interval, or the [errno] of the failure. *)
Definition StrToInterval (s : string) : Z + Z :=
  let '(value, rest, errno) := strtoll s in
  match rest with
  | None => inr EINVAL
  | Some p =>
      if negb (errno =? 0) then inr errno
      else if value <? 0 then inr EINVAL
      else
        let (unit, p') := take_unit p in
        let value := s64 (value * unit) in
        match p' with
        | String _ _ => inr EINVAL
        | EmptyString => if INT_MAX <=? value then inr ERANGE else inl (s32 value)
        end
  end.

Example interval_days : StrFromInterval 172800 None = "2d"%string.
Proof. reflexivity. Qed.
Example interval_octal : StrToInterval "010m" = inl 480.
Proof. reflexivity. Qed.

(** ** Reading back a printed number *)

Lemma digit_dec d : 0 <= d < 10 -> digit_val (char_of (48 + d)) = Some d.
Proof.
  intros Hd. assert (H : d = 0 \/ d = 1 \/ d = 2 \/ d = 3 \/ d = 4 \/ d = 5 \/ d = 6 \/ d = 7 \/ d = 8 \/ d = 9) by lia.
  intuition (subst; reflexivity).
Qed.

Lemma scan_dec fuel n acc : 0 <= n < 10 ^ (Z.of_nat fuel + 1) -> scan 10 0 (dec fuel n acc) = scan 10 n acc.
Proof.
  revert n acc. induction fuel as [|fuel IH]; intros n acc Hn.
  - cbn [dec scan]. change (10 ^ _) with 10 in Hn. unfold digit_of. rewrite Z.mod_small, digit_dec by lia.
    destruct (Z.ltb_spec n 10); [f_equal; lia|lia].
  - cbn [dec]. pose proof (Z.mod_pos_bound n 10 ltac:(lia)) as Hm.
    assert (Hs : forall a, scan 10 a (String (char_of (48 + n mod 10)) acc) = scan 10 (a * 10 + n mod 10) acc).
    { intros a. cbn [scan]. unfold digit_of. rewrite digit_dec by lia. destruct (Z.ltb_spec (n mod 10) 10); [reflexivity|lia]. }
    destruct (Z.ltb_spec n 10).
    + rewrite Hs. f_equal. rewrite Z.mod_small; lia.
    + rewrite IH, Hs; [f_equal; dlia|].
      replace (Z.of_nat (S fuel) + 1) with (Z.succ (Z.of_nat fuel + 1)) in Hn by lia.
      rewrite Z.pow_succ_r in Hn by lia. dlia.
Qed.

(** A positive number starts with a digit that is neither 0 nor a sign or a blank. *)
Lemma dec_head fuel n acc :
  0 < n < 10 ^ (Z.of_nat fuel + 1) -> exists d t, 0 < d < 10 /\ dec fuel n acc = String (char_of (48 + d)) t.
Proof.
  revert n acc. induction fuel as [|fuel IH]; intros n acc Hn.
  - cbn [dec]. change (10 ^ _) with 10 in Hn. exists n, acc. split; [lia|]. now rewrite Z.mod_small by lia.
  - cbn [dec]. destruct (Z.ltb_spec n 10).
    + exists n, acc. split; [lia|]. now rewrite Z.mod_small by lia.
    + apply IH. replace (Z.of_nat (S fuel) + 1) with (Z.succ (Z.of_nat fuel + 1)) in Hn by lia.
      rewrite Z.pow_succ_r in Hn by lia. dlia.
Qed.

Lemma head_plain d t : 0 < d < 10 ->
  let s := String (char_of (48 + d)) t in
  take_sign (skip_space s) = (false, s) /\ take_base s = (10, s) /\ starts_digit 10 s = true.
Proof.
  intros Hd. assert (H : d = 1 \/ d = 2 \/ d = 3 \/ d = 4 \/ d = 5 \/ d = 6 \/ d = 7 \/ d = 8 \/ d = 9) by lia.
  cbv zeta. destruct_or! H; subst d; repeat split; reflexivity.
Qed.

(** What follows is not a decimal digit. *)
Definition ends_number (s : string) : Prop := starts_digit 10 s = false.

Lemma scan_stop n s : ends_number s -> scan 10 n s = (n, s).
Proof.
  unfold ends_number. destruct s as [|c s]; [reflexivity|]. cbn. intros H%bool_decide_eq_false.
  destruct (digit_of 10 c); [exfalso; eauto|reflexivity].
Qed.

Lemma strtoll_dec fuel n s :
  0 < n < 10 ^ (Z.of_nat fuel + 1) -> n <= LLONG_MAX -> ends_number s ->
  strtoll (dec fuel n s) = (n, Some s, 0).
Proof.
  intros Hn Hmax Hs. pose proof (scan_dec fuel n s ltac:(lia)) as Hscan. rewrite (scan_stop _ _ Hs) in Hscan.
  destruct (dec_head fuel n s Hn) as (d & t & Hd & E). destruct (head_plain d t Hd) as (H1 & H2 & H3).
  unfold strtoll. rewrite E in *. rewrite H1, H2, H3, Hscan.
  destruct (Z.ltb_spec LLONG_MAX n); [lia|]. destruct (Z.ltb_spec n LLONG_MIN); [unfold LLONG_MIN in *; lia|reflexivity].
Qed.

(** ** Units *)

(** The units of [StrToInterval]. *)
Definition unit_of (c : string) : option Z :=
  match c with
  | "" => Some 1 | "s" => Some 1 | "m" => Some MINUTE | "h" => Some HOUR
  | "d" => Some DAY | "w" => Some WEEK | "y" => Some YEAR | _ => None
  end.

Lemma unit_cases c u : unit_of c = Some u -> 0 < u <= YEAR /\ ends_number c /\ take_unit c = (u, EmptyString).
Proof.
  assert (Hc : unit_of c = Some u -> (c = "" \/ c = "s" \/ c = "m" \/ c = "h" \/ c = "d" \/ c = "w" \/ c = "y")%string).
  { destruct c as [|a t]; [tauto|]. destruct t as [|b t]; [|now destruct a as [[] [] [] [] [] [] [] []]].
    destruct a as [[] [] [] [] [] [] [] []]; cbn; try discriminate; tauto. }
  intros H. specialize (Hc H). unfold ends_number.
  destruct_or! Hc; subst c; cbn in H; injection H as <-;
    (split; [split; [reflexivity|vm_compute; discriminate]|split; reflexivity]).
Qed.

Lemma StrToInterval_dec fuel n c u :
  unit_of c = Some u -> 0 < n < 10 ^ (Z.of_nat fuel + 1) -> n * u <= LLONG_MAX ->
  StrToInterval (dec fuel n c) = if n * u <? INT_MAX then inl (n * u) else inr ERANGE.
Proof.
  intros Hu Hn Hmax. destruct (unit_cases c u Hu) as (Hu1 & Hend & Htake).
  unfold StrToInterval. rewrite (strtoll_dec fuel n c Hn) by (assumption || nia).
  cbn [Z.eqb negb]. destruct (Z.ltb_spec n 0); [lia|]. rewrite Htake.
  rewrite (swrap_id 64) by (unfold sint_range, LLONG_MAX in *; cbn -[Z.mul]; nia || lia).
  destruct (Z.leb_spec INT_MAX (n * u)), (Z.ltb_spec (n * u) INT_MAX); try lia; [reflexivity|].
  now rewrite (swrap_id 32) by (unfold sint_range, INT_MAX in *; cbn -[Z.mul]; nia || lia).
Qed.

(** a decimal number with one of the units is read exactly, and refused with
    [ERANGE] from [INT_MAX] seconds on, as long as the product fits 64 bits. *)
Theorem StrToInterval_exact n c u :
  unit_of c = Some u -> 0 < n -> n * u <= LLONG_MAX ->
  StrToInterval (dec 18 n c) = if n * u <? INT_MAX then inl (n * u) else inr ERANGE.
Proof.
  intros Hu Hn Hmax. destruct (unit_cases c u Hu) as (Hu1 & _). apply StrToInterval_dec; [exact Hu| |exact Hmax].
  split; [exact Hn|]. change (10 ^ _) with 10000000000000000000. unfold LLONG_MAX in Hmax. nia.
Qed.

Lemma StrToInterval_exact_witness : StrToInterval (dec 18 3 "w") = inl 1814400.
Proof. rewrite (StrToInterval_exact 3 "w" WEEK); [reflexivity|reflexivity|lia|vm_compute; discriminate]. Defined.

(** ** Round trip *)

Lemma interval_unit_spec v :
  0 < v -> exists u, let (w, c) := interval_unit v in
  unit_of c = Some u /\ w * u = v /\ 0 < w <= v /\ (String.length c <= 1)%nat.
Proof.
  intros Hv. unfold interval_unit.
  assert (Hdiv : forall u, 0 < u -> (u <? v) && (Z.rem v u =? 0) = true -> Z.quot v u * u = v /\ 0 < Z.quot v u <= v).
  { intros u Hu [H1%Z.ltb_lt H2%Z.eqb_eq]%andb_true_iff. pose proof (Z.quot_rem' v u). split; [lia|]. nia. }
  destruct (_ && _) eqn:E1; [exists YEAR; destruct (Hdiv YEAR ltac:(reflexivity) E1); cbn; auto|clear E1].
  destruct (_ && _) eqn:E1; [exists WEEK; destruct (Hdiv WEEK ltac:(reflexivity) E1); cbn; auto|clear E1].
  destruct (_ && _) eqn:E1; [exists DAY; destruct (Hdiv DAY ltac:(reflexivity) E1); cbn; auto|clear E1].
  destruct (_ && _) eqn:E1; [exists HOUR; destruct (Hdiv HOUR ltac:(reflexivity) E1); cbn; auto|clear E1].
  destruct (_ && _) eqn:E1; [exists MINUTE; destruct (Hdiv MINUTE ltac:(reflexivity) E1); cbn; auto|clear E1].
  exists 1. cbn. repeat split; lia || reflexivity.
Qed.

Lemma dec_length fuel n acc : (String.length (dec fuel n acc) <= S fuel + String.length acc)%nat.
Proof.
  revert n acc. induction fuel as [|fuel IH]; intros n acc; cbn [dec]; [cbn; lia|].
  destruct (n <? 10); [cbn; lia|]. etransitivity; [apply IH|]. cbn. lia.
Qed.

Lemma substring_all s n : (String.length s <= n)%nat -> String.substring 0 n s = s.
Proof.
  revert n. induction s as [|c s IH]; intros n Hn; [now destruct n|].
  destruct n as [|n]; [cbn in Hn; lia|]. cbn. f_equal. apply IH. cbn in Hn. lia.
Qed.

(** C39. every interval below [INT_MAX] seconds that is printed into a buffer of the
    documented size, or the static one, is read back as the same value. *)
Theorem interval_roundtrip v buf :
  0 <= v < INT_MAX -> STR_FROM_INTERVAL_BUF_SIZE <= default STR_FROM_INTERVAL_BUF_SIZE buf ->
  StrToInterval (StrFromInterval v buf) = inl v.
Proof.
  intros Hv Hb. unfold StrFromInterval. set (bs := default _ buf) in *.
  destruct (Z.ltb_spec bs STR_FROM_INTERVAL_BUF_SIZE) as [|_]; [lia|]. unfold STR_FROM_INTERVAL_BUF_SIZE in Hb.
  destruct (Z.eq_dec v 0) as [->|Hne].
  { change (interval_unit 0) with (0, ""). cbv iota beta. rewrite substring_all; [reflexivity|]. cbn. lia. }
  pose proof (interval_unit_spec v ltac:(lia)) as [u Hs]. destruct (interval_unit v) as [w c].
  destruct Hs as (Hu & Hw & Hpos & Hc). unfold print_d. destruct (Z.ltb_spec w 0) as [|_]; [lia|].
  pose proof (dec_length 9 w c) as Hl. rewrite substring_all by lia.
  unfold INT_MAX in Hv. rewrite (StrToInterval_dec 9 w c u Hu); [| |unfold LLONG_MAX; lia].
  - rewrite Hw. unfold INT_MAX. destruct (Z.ltb_spec v (2 ^ 31 - 1)); [reflexivity|lia].
  - split; [lia|]. change (10 ^ _) with 10000000000. lia.
Qed.

Lemma interval_roundtrip_witness : StrToInterval (StrFromInterval 1209600 (Some 32)) = inl 1209600.
Proof. apply (interval_roundtrip 1209600 (Some 32)); vm_compute; [split; [discriminate|reflexivity]|discriminate]. Defined.

(** the product of the number and its unit overflows 64 bits before the range is
    tested, so that intervals of billions of years are accepted as short ones. *)
Theorem StrToInterval_overflow :
  StrToInterval "307445734561825861m" = inl 44 /\
  307445734561825861 * MINUTE > INT_MAX.
Proof. split; reflexivity. Qed.
