(* ===== verification/RecHash.v ===== *)
(** * The recycler's table of volumes

    [Find_VSN] (src/src/recycler/findvsn.c) looks a volume up in, or adds it to, an
    array that is indexed by an open-addressing hash table of array indexes
    (src/src/recycler/lib/hash_table.c). An access outside an array is a fault. *)

From Stdlib Require Import Ascii String.
From S2P Require Import Prelude Monad.

#[local] Open Scope string_scope.
#[local] Open Scope Z_scope.

Definition TABLE_INCREMENT : Z := 1000.
Definition HASH_MULTIPLIER : Z := 13.
Definition HASH_SLOP : Z := 13.
Definition HASH_INITIAL_SIZE : Z := TABLE_INCREMENT * HASH_MULTIPLIER + HASH_SLOP.
Definition HASH_EMPTY : Z := -1.
Definition ROBOT_NO_SLOT : Z := -1.   (* 0xffffffff stored in an int *)
Definition DT_CLASS_MASK : Z := 0xff00.
Definition DT_DISK : Z := 0x100.
Definition DT_TAPE : Z := 0x200.
Definition DT_OPTICAL : Z := 0x500.

Record HashTable : Type := mk_HashTable { ht_size : Z; ht_values : list Z }.

(** The fields of a volume that its insertion sets. *)
Record VSN_TABLE : Type := mk_VSN {
  v_media : Z;
  v_vsn : string;
  v_size : Z;
  v_count : Z;
  v_in_robot : Z;
  v_slot : Z
}.
Definition zero_vsn : VSN_TABLE := mk_VSN 0 "" 0 0 0 0.

Record vsn_state : Type := mk_vsn_state {
  hashTable : option HashTable;
  vsn_table : list VSN_TABLE;
  vsn_permute : list Z;
  table_used : Z;
  table_avail : Z;
  VSNs_in_robot : Z
}.
Definition set_hash h s := mk_vsn_state (Some h) (vsn_table s) (vsn_permute s) (table_used s) (table_avail s) (VSNs_in_robot s).
Definition set_table t s := mk_vsn_state (hashTable s) t (vsn_permute s) (table_used s) (table_avail s) (VSNs_in_robot s).
Definition set_permute p s := mk_vsn_state (hashTable s) (vsn_table s) p (table_used s) (table_avail s) (VSNs_in_robot s).
Definition set_used n s := mk_vsn_state (hashTable s) (vsn_table s) (vsn_permute s) n (table_avail s) (VSNs_in_robot s).
Definition set_avail n s := mk_vsn_state (hashTable s) (vsn_table s) (vsn_permute s) (table_used s) n (VSNs_in_robot s).

Abbreviation V := (M vsn_state).

(** ** Array accesses *)

(** [t[i]] *)
Definition at_index {A : Type} (t : list A) (i : Z) : option A :=
  if i <? 0 then None else t !! Z.to_nat i.
Definition get_hash : V HashTable := h ← gets hashTable; deref h.
Definition get_value (key : Z) : V Z := h ← get_hash; deref (at_index (ht_values h) key).
Definition set_value (key v : Z) : V unit :=
  get_value key;; h ← get_hash;
  modify (set_hash (mk_HashTable (ht_size h) (<[Z.to_nat key := v]> (ht_values h)))).

(** ** hash_table.c *)

Definition AllocateHashTable : HashTable :=
  mk_HashTable HASH_INITIAL_SIZE (replicate (Z.to_nat HASH_INITIAL_SIZE) HASH_EMPTY).

(** A [char] is signed. *)
Definition schar (c : ascii) : Z := swrap 8 (Z.of_N (N_of_ascii c)).
Fixpoint djb2 (key : Z) (vsn : string) : Z :=
  match vsn with
  | EmptyString => key
  | String c vsn' => djb2 (u32 (u32 (u32 (Z.shiftl key 5) + key) + schar c)) vsn'
  end.
Definition GenerateHashKey (vsn : string) (size : Z) : Z := djb2 5381 vsn mod u32 size.

(** [while (values[key] != HASH_EMPTY) ...], with the test of the source. *)
Fixpoint insert_probe (fuel : nat) (key : Z) : V Z :=
  v ← get_value key;
  if v =? HASH_EMPTY then mret key
  else match fuel with
       | O => fail OutOfFuel
       | S fuel' =>
           h ← get_hash;
           let key := u32 (key + 1) in
           insert_probe fuel' (if u32 (ht_size h) <? key then 0 else key)
       end.

(** A probe sequence visits each slot once before it repeats. *)
Definition probe_fuel (h : HashTable) : nat := S (List.length (ht_values h)).

Definition InsertIntoHashTable (index : Z) (vsn : string) : V unit :=
  match vsn with
  | EmptyString => mret tt
  | String _ _ =>
      h ← get_hash;
      key ← insert_probe (probe_fuel h) (GenerateHashKey vsn (ht_size h));
      set_value key index
  end.

Definition ExtendHashTable : V unit :=
  h ← get_hash;
  let size := s32 (ht_size h + TABLE_INCREMENT * HASH_MULTIPLIER) in
  modify (set_hash (mk_HashTable size (replicate (Z.to_nat size) HASH_EMPTY))).

(** ** findvsn.c *)

Fixpoint lookup_probe (fuel : nat) (key : Z) (vsn : string) (media : Z) : V (option Z) :=
  value ← get_value key;
  if value =? HASH_EMPTY then mret None
  else
    t ← gets vsn_table; entry ← deref (at_index t value);
    if (v_media entry =? media) && String.eqb (v_vsn entry) vsn then mret (Some value)
    else match fuel with
         | O => fail OutOfFuel
         | S fuel' =>
             h ← get_hash;
             let key := u32 (key + 1) in
             lookup_probe fuel' (if u32 (ht_size h) <=? key then 0 else key) vsn media
         end.
Definition lookupVsnTable (vsn : string) (media : Z) : V (option Z) :=
  h ← get_hash; lookup_probe (probe_fuel h) (GenerateHashKey vsn (ht_size h)) vsn media.

Definition insertIntoVsnTable (vsn : string) (media : Z) : V Z :=
  used ← gets table_used; t ← gets vsn_table; robot ← gets VSNs_in_robot;
  deref (at_index t used);;
  let entry := mk_VSN media vsn 0 0 (if robot =? 0 then 0 else 1) ROBOT_NO_SLOT in
  modify (set_table (<[Z.to_nat used := entry]> t));;
  InsertIntoHashTable used vsn;;
  modify (set_used (s32 (used + 1)));;
  mret used.

(** [Resize] keeps what the old array held. *)
Definition Resize {A : Type} (t : list A) (n : Z) (x : A) : list A :=
  t ++ replicate (Z.to_nat n - List.length t) x.

Definition extendTables : V unit :=
  avail ← gets table_avail;
  let new_size := u64 (avail + TABLE_INCREMENT) in
  modify (fun s => set_table (Resize (vsn_table s) new_size zero_vsn) s);;
  modify (fun s => set_permute (vsn_permute s ++ seqZ avail TABLE_INCREMENT) s);;
  modify (set_avail new_size);;
  ExtendHashTable;;
  used ← gets table_used;
  for_each (seqZ 0 used) (fun i =>
    t ← gets vsn_table; e ← deref (at_index t i); InsertIntoHashTable i (v_vsn e)).

Definition isupper (c : ascii) : bool := (65 <=? schar c) && (schar c <=? 90).
Definition islower (c : ascii) : bool := (97 <=? schar c) && (schar c <=? 122).
Definition isdigit (c : ascii) : bool := (48 <=? schar c) && (schar c <=? 57).
Definition one_of (cs : list Z) (c : ascii) : bool := bool_decide (schar c ∈ cs).
Fixpoint all_chars (ok : ascii -> bool) (s : string) : bool :=
  match s with EmptyString => true | String c s' => ok c && all_chars ok s' end.
Definition strlen (s : string) : Z := Z.of_nat (String.length s).

(** ! double-quote % & ' ( ) * + , - . / : ; < = > ? _ *)
Definition tp_chars : list Z :=
  [33; 34; 37; 38; 39; 40; 41; 42; 43; 44; 45; 46; 47; 58; 59; 60; 61; 62; 63; 95].
(** the same without = and with @ [ ] ^ ` { | } ~ *)
Definition label_chars : list Z :=
  [33; 34; 37; 38; 39; 40; 41; 42; 43; 44; 45; 46; 47; 58; 59; 60; 62; 63; 64; 91; 93; 94; 96; 95;
   123; 124; 125; 126].
Definition is_ansi_tp_label (s : string) (size : Z) : bool :=
  if size <? strlen s then false
  else all_chars (fun c => isupper c || isdigit c || one_of tp_chars c) s.
Definition is_valid_label (s : string) (size : Z) : bool :=
  if size <? strlen s then false
  else all_chars (fun c => isupper c || islower c || isdigit c || one_of label_chars c) s.
Definition is_valid_vsn (vsn : string) (media : Z) : bool :=
  match vsn with
  | EmptyString => false
  | String _ _ =>
      let class := Z.land media DT_CLASS_MASK in
      if class =? DT_TAPE then is_ansi_tp_label vsn 6
      else if (class =? DT_DISK) || (class =? DT_OPTICAL) then
        if 31 <? strlen vsn then false else is_valid_label vsn (strlen vsn)
      else false
  end.

(** The index of the volume in [vsn_table]; [None] for NULL. *)
Definition Find_VSN (media : Z) (vsn : string) : V (option Z) :=
  if negb (is_valid_vsn vsn media) then mret None
  else
    h ← gets hashTable;
    when (if h is Some _ then false else true) (modify (set_hash AllocateHashTable));;
    entry ← lookupVsnTable vsn media;
    match entry with
    | Some i => mret (Some i)
    | None =>
        used ← gets table_used; avail ← gets table_avail;
        when (avail <=? used) extendTables;;
        i ← insertIntoVsnTable vsn media; mret (Some i)
    end.

(** ** Probing *)

Section Hash.
Implicit Types (s : vsn_state) (h : HashTable) (t : list VSN_TABLE) (k key i : Z) (vsn : string).

(** The slots of a table. *)
Definition slot h k : option Z := at_index (ht_values h) k.
Record hash_shape h : Prop := mk_shape {
  hs_len : ht_size h = Z.of_nat (List.length (ht_values h));
  hs_pos : 0 < ht_size h < 2 ^ 31
}.
(** The slots from [a] up to [b] are in use. *)
Definition in_use h a b : Prop := forall k, a <= k < b -> exists v, slot h k = Some v /\ v <> HASH_EMPTY.
Definition home h vsn : Z := GenerateHashKey vsn (ht_size h).

Lemma djb2_range key vsn : uint_range 32 key -> uint_range 32 (djb2 key vsn).
Proof. revert key. induction vsn as [|c vsn IH]; intros key Hk; cbn; [exact Hk|]. apply IH, uwrap_range. lia. Qed.

Lemma home_range h vsn : hash_shape h -> 0 <= home h vsn < ht_size h.
Proof.
  intros [_ Hp]. unfold home, GenerateHashKey. rewrite uwrap_id by (unfold uint_range; lia).
  apply Z.mod_pos_bound. lia.
Qed.

Lemma at_index_spec {A : Type} (l : list A) i x :
  at_index l i = Some x <-> 0 <= i /\ l !! Z.to_nat i = Some x.
Proof. unfold at_index. destruct (Z.ltb_spec i 0); [split; [discriminate|lia]|]. tauto. Qed.

Lemma slot_some h k : hash_shape h -> 0 <= k < ht_size h -> exists v, slot h k = Some v.
Proof.
  intros [Hl _] Hk. destruct (lookup_lt_is_Some_2 (ht_values h) (Z.to_nat k)) as [v Hv]; [lia|].
  exists v. apply at_index_spec. split; [lia|exact Hv].
Qed.
Lemma slot_end h k : hash_shape h -> slot h k <> None <-> 0 <= k < ht_size h.
Proof.
  intros [Hl _]. unfold slot, at_index. destruct (Z.ltb_spec k 0); [split; [congruence|lia]|].
  split; [|intros Hk; destruct (lookup_lt_is_Some_2 (ht_values h) (Z.to_nat k)) as [v Hv]; [lia|congruence]].
  destruct (ht_values h !! Z.to_nat k) eqn:E; [|congruence]. apply lookup_lt_Some in E. lia.
Qed.

Lemma get_value_run s h k : hashTable s = Some h -> get_value k s = match slot h k with Some v => Done v s | None => Fault WildPointer end.
Proof. intros Hh. unfold get_value, get_hash, gets, mbind, M_bind. rewrite Hh. cbn. unfold slot. now destruct (at_index _ _). Qed.
Lemma get_hash_run s h : hashTable s = Some h -> get_hash s = Done h s.
Proof. intros Hh. unfold get_hash, gets, mbind, M_bind. now rewrite Hh. Qed.

(** [while] of the insertion, up to the first free slot, which is [n] slots away. *)
Lemma insert_probe_free n fuel s h k :
  hashTable s = Some h -> hash_shape h -> 0 <= k -> in_use h k (k + Z.of_nat n) ->
  slot h (k + Z.of_nat n) = Some HASH_EMPTY -> (n <= fuel)%nat ->
  insert_probe fuel k s = Done (k + Z.of_nat n) s.
Proof.
  revert fuel k. induction n as [|n IH]; intros fuel k Hh Hs Hk Hu He Hf.
  - rewrite Z.add_0_r in *. destruct fuel; cbn [insert_probe]; unfold mbind, M_bind;
      rewrite (get_value_run s h _ Hh), He; reflexivity.
  - destruct fuel as [|fuel]; [lia|]. cbn [insert_probe]. unfold mbind, M_bind at 1.
    destruct (Hu k ltac:(lia)) as (v & Hv & Hne). rewrite (get_value_run s h _ Hh), Hv.
    destruct (Z.eqb_spec v HASH_EMPTY); [congruence|]. unfold M_bind. rewrite (get_hash_run s h Hh). cbv zeta.
    assert (Hin : 0 <= k + Z.of_nat (S n) < ht_size h) by (apply (slot_end h _ Hs); congruence).
    pose proof (hs_pos h Hs) as Hp. rewrite !uwrap_id by (unfold uint_range; lia).
    destruct (Z.ltb_spec (ht_size h) (k + 1)) as [|_]; [lia|].
    replace (k + Z.of_nat (S n)) with (k + 1 + Z.of_nat n) in * by lia.
    apply IH; auto; [lia| |lia]. intros j Hj. apply Hu. lia.
Qed.

(** With no free slot up to the end the loop reads beyond the array. *)
Lemma insert_probe_overrun n fuel s h k :
  hashTable s = Some h -> hash_shape h -> 0 <= k -> k + Z.of_nat n = ht_size h -> in_use h k (ht_size h) ->
  (n <= fuel)%nat -> insert_probe fuel k s = Fault WildPointer.
Proof.
  revert fuel k. induction n as [|n IH]; intros fuel k Hh Hs Hk En Hu Hf.
  - assert (Hno : slot h k = None).
    { destruct (slot h k) eqn:E; [|reflexivity]. assert (0 <= k < ht_size h) by (apply (slot_end h _ Hs); congruence). lia. }
    destruct fuel; cbn [insert_probe]; unfold mbind, M_bind; rewrite (get_value_run s h _ Hh), Hno; reflexivity.
  - destruct fuel as [|fuel]; [lia|]. cbn [insert_probe]. unfold mbind, M_bind at 1.
    destruct (Hu k ltac:(lia)) as (v & Hv & Hne). rewrite (get_value_run s h _ Hh), Hv.
    destruct (Z.eqb_spec v HASH_EMPTY); [congruence|]. unfold M_bind. rewrite (get_hash_run s h Hh). cbv zeta.
    pose proof (hs_pos h Hs) as Hp. rewrite !uwrap_id by (unfold uint_range; lia).
    destruct (Z.ltb_spec (ht_size h) (k + 1)) as [|_]; [lia|].
    apply IH; auto; [lia|lia| |lia]. intros j Hj. apply Hu. lia.
Qed.

Definition store h k v : HashTable := mk_HashTable (ht_size h) (<[Z.to_nat k := v]> (ht_values h)).

Lemma set_value_run s h k v :
  hashTable s = Some h -> hash_shape h -> 0 <= k < ht_size h -> set_value k v s = Done tt (set_hash (store h k v) s).
Proof.
  intros Hh Hs Hk. unfold set_value, mbind, M_bind. rewrite (get_value_run s h _ Hh).
  destruct (slot_some h k Hs Hk) as [w ->]. now rewrite (get_hash_run s h Hh).
Qed.

Lemma insert_at s h index vsn k :
  hashTable s = Some h -> hash_shape h -> vsn <> "" -> home h vsn <= k -> in_use h (home h vsn) k ->
  slot h k = Some HASH_EMPTY -> InsertIntoHashTable index vsn s = Done tt (set_hash (store h k index) s).
Proof.
  intros Hh Hs Hv Hk Hu He. pose proof (home_range h vsn Hs) as Hhome.
  assert (Hkr : 0 <= k < ht_size h) by (apply (slot_end h k Hs); congruence).
  unfold InsertIntoHashTable. destruct vsn as [|c vsn]; [congruence|].
  unfold mbind, M_bind. rewrite (get_hash_run s h Hh). fold (home h (String c vsn)).
  rewrite (insert_probe_free (Z.to_nat (k - home h (String c vsn))) _ s h).
  - rewrite Z2Nat.id by lia. replace (home h (String c vsn) + (k - home h (String c vsn))) with k by lia.
    now apply set_value_run.
  - exact Hh.
  - exact Hs.
  - lia.
  - rewrite Z2Nat.id by lia. intros j Hj. apply Hu. lia.
  - rewrite Z2Nat.id by lia. rewrite <- He. f_equal. lia.
  - unfold probe_fuel. pose proof (hs_len h Hs). lia.
Qed.

(** [InsertIntoHashTable] stores the index in the first free slot at or after the
    one the name hashes to. When all slots from there to the end of the table are in
    use it does not go on at slot 0: [key > size] lets it read the word after the
    array. *)
Theorem InsertIntoHashTable_outcome s h index vsn :
  hashTable s = Some h -> hash_shape h -> vsn <> "" ->
  (forall k, home h vsn <= k -> in_use h (home h vsn) k -> slot h k = Some HASH_EMPTY ->
     InsertIntoHashTable index vsn s = Done tt (set_hash (store h k index) s)) /\
  (in_use h (home h vsn) (ht_size h) -> InsertIntoHashTable index vsn s = Fault WildPointer).
Proof.
  intros Hh Hs Hv. split; [intros k; now apply insert_at|]. intros Hu.
  pose proof (home_range h vsn Hs) as Hhome. destruct vsn as [|c vsn]; [congruence|]. unfold InsertIntoHashTable, mbind, M_bind.
  rewrite (get_hash_run s h Hh). fold (home h (String c vsn)).
  rewrite (insert_probe_overrun (Z.to_nat (ht_size h - home h (String c vsn))) _ s h); auto; [lia|lia|].
  unfold probe_fuel. pose proof (hs_len h Hs). lia.
Qed.

(** ** Lookups *)

Definition matches (e : VSN_TABLE) vsn (media : Z) : bool := (v_media e =? media) && String.eqb (v_vsn e) vsn.
Lemma matches_spec e vsn media : matches e vsn media = true <-> v_media e = media /\ v_vsn e = vsn.
Proof. unfold matches. now rewrite andb_true_iff, Z.eqb_eq, String.eqb_eq. Qed.

(** Each volume in use is found from the slot its name hashes to. *)
Record tables_ok s h : Prop := mk_tables {
  to_hash : hashTable s = Some h;
  to_shape : hash_shape h;
  to_avail : table_avail s = Z.of_nat (List.length (vsn_table s)) /\ table_avail s < 2 ^ 31;
  to_used : 0 <= table_used s <= table_avail s;
  to_values : forall k v, slot h k = Some v -> v = HASH_EMPTY \/ 0 <= v < table_used s;
  to_found : forall i e, i < table_used s -> at_index (vsn_table s) i = Some e ->
    exists k, home h (v_vsn e) <= k /\ slot h k = Some i /\ in_use h (home h (v_vsn e)) k;
  to_distinct : forall i j ei ej, i < table_used s -> j < table_used s ->
    at_index (vsn_table s) i = Some ei -> at_index (vsn_table s) j = Some ej ->
    v_media ei = v_media ej -> v_vsn ei = v_vsn ej -> i = j
}.

Lemma used_entry s h v :
  tables_ok s h -> 0 <= v < table_used s -> exists e, at_index (vsn_table s) v = Some e.
Proof.
  intros Ht Hv. destruct (to_avail _ _ Ht) as [Ha _]. pose proof (to_used _ _ Ht).
  destruct (lookup_lt_is_Some_2 (vsn_table s) (Z.to_nat v)) as [e He]; [lia|].
  exists e. apply at_index_spec. split; [lia|exact He].
Qed.

(** A probe sequence that ends [n] slots away, at a free slot or at the volume. *)
Lemma lookup_probe_run n fuel s h k vsn media r :
  tables_ok s h -> 0 <= k -> in_use h k (k + Z.of_nat n) -> (n <= fuel)%nat ->
  (forall v e, at_index (vsn_table s) v = Some e -> v < table_used s -> matches e vsn media = true -> r = Some v) ->
  (slot h (k + Z.of_nat n) = Some HASH_EMPTY /\ r = None \/
   exists v e, slot h (k + Z.of_nat n) = Some v /\ 0 <= v < table_used s /\
     at_index (vsn_table s) v = Some e /\ matches e vsn media = true) ->
  lookup_probe fuel k vsn media s = Done r s.
Proof.
  intros Ht Hk Hu Hf Hr Hend. pose proof (to_hash _ _ Ht) as Hh. pose proof (to_shape _ _ Ht) as Hs.
  revert fuel k Hk Hu Hf Hend. induction n as [|n IH]; intros fuel k Hk Hu Hf Hend.
  - rewrite Z.add_0_r in Hend. destruct Hend as [[He ->]|(v & e & Hv & Hvr & He & Hm)].
    + destruct fuel; cbn [lookup_probe]; unfold mbind, M_bind; rewrite (get_value_run s h _ Hh), He; reflexivity.
    + rewrite (Hr v e He ltac:(lia) Hm). unfold matches in Hm.
      destruct fuel; cbn [lookup_probe]; unfold mbind, M_bind; rewrite (get_value_run s h _ Hh), Hv;
        (destruct (Z.eqb_spec v HASH_EMPTY); [unfold HASH_EMPTY in *; lia|]); cbn; rewrite He; cbn; now rewrite Hm.
  - destruct fuel as [|fuel]; [lia|]. cbn [lookup_probe]. unfold mbind, M_bind at 1.
    destruct (Hu k ltac:(lia)) as (v & Hv & Hne). rewrite (get_value_run s h _ Hh), Hv.
    destruct (Z.eqb_spec v HASH_EMPTY); [congruence|].
    destruct (to_values _ _ Ht k v Hv) as [|Hvr]; [congruence|]. destruct (used_entry s h v Ht Hvr) as [e He].
    unfold M_bind. cbn [gets]. rewrite He. cbn [deref]. unfold mret at 1, M_ret at 1.
    destruct (_ && _) eqn:Hm; [now rewrite (Hr v e He ltac:(lia) Hm)|].
    rewrite (get_hash_run s h Hh). cbv zeta.
    assert (Hin : 0 <= k + Z.of_nat (S n) < ht_size h).
    { apply (slot_end h _ Hs). destruct Hend as [[-> _]|(? & ? & -> & _)]; discriminate. }
    pose proof (hs_pos h Hs) as Hp. rewrite !uwrap_id by (unfold uint_range; lia).
    destruct (Z.leb_spec (ht_size h) (k + 1)) as [|_]; [lia|].
    replace (k + Z.of_nat (S n)) with (k + 1 + Z.of_nat n) in * by lia.
    apply IH; [lia| |lia|exact Hend]. intros j Hj. apply Hu. lia.
Qed.

(** The volume [i] is in the table, or no entry in use has the name. *)
Definition holds s vsn media (r : option Z) : Prop :=
  match r with
  | Some i => 0 <= i < table_used s /\ exists e, at_index (vsn_table s) i = Some e /\ v_media e = media /\ v_vsn e = vsn
  | None => forall i e, i < table_used s -> at_index (vsn_table s) i = Some e -> ~ (v_media e = media /\ v_vsn e = vsn)
  end.

(** Whether an entry in use has the name. *)
Lemma holds_dec s vsn media : exists r, holds s vsn media r.
Proof.
  destruct (list_find (fun p => p.1 < table_used s /\ v_media p.2 = media /\ v_vsn p.2 = vsn)
              (zip (seqZ 0 (Z.of_nat (List.length (vsn_table s)))) (vsn_table s))) as [[n [i e]]|] eqn:E.
  - apply list_find_Some in E as (Hl & (Hi & Hm & Hv) & _). cbn in *.
    apply lookup_zip_Some in Hl as [Hi' He]. apply lookup_seqZ in Hi' as [-> Hn].
    exists (Some (0 + Z.of_nat n)). split; [lia|]. exists e. split; [|auto]. apply at_index_spec.
    split; [lia|]. now replace (Z.to_nat (0 + Z.of_nat n)) with n by lia.
  - exists None. intros i e Hi He Hm. apply list_find_None in E. rewrite Forall_lookup in E.
    apply at_index_spec in He as [Hi0 He].
    apply (E (Z.to_nat i) (i, e)); [|cbn; tauto]. apply lookup_zip_Some. split; [|exact He].
    apply lookup_seqZ. apply lookup_lt_Some in He. lia.
Qed.

Lemma lookup_run s h vsn media r k :
  tables_ok s h -> holds s vsn media r -> home h vsn <= k -> in_use h (home h vsn) k -> slot h k = Some HASH_EMPTY ->
  lookupVsnTable vsn media s = Done r s.
Proof.
  intros Ht Hr Hk Hu He. pose proof (home_range h vsn (to_shape _ _ Ht)) as Hhome.
  pose proof (to_shape _ _ Ht) as Hs. pose proof (hs_len h Hs) as Hlen.
  assert (Hkr : 0 <= k < ht_size h) by (apply (slot_end h k Hs); congruence).
  unfold lookupVsnTable, mbind, M_bind. rewrite (get_hash_run s h (to_hash _ _ Ht)). fold (home h vsn).
  assert (Huniq : forall v e, at_index (vsn_table s) v = Some e -> v < table_used s -> matches e vsn media = true -> r = Some v).
  { intros v e Hv Hlt [Hm1 Hm2]%matches_spec. destruct r as [i|]; [|exfalso; exact (Hr v e Hlt Hv (conj Hm1 Hm2))].
    destruct Hr as (Hi & e' & Hi' & Hm1' & Hm2'). f_equal. apply (to_distinct _ _ Ht i v e' e); try lia; congruence. }
  destruct r as [i|].
  - destruct Hr as (Hi & e & Hie & Hm1 & Hm2). destruct (to_found _ _ Ht i e ltac:(lia) Hie) as (j & Hj1 & Hj2 & Hj3).
    rewrite Hm2 in Hj1, Hj3. assert (Hjr : 0 <= j < ht_size h) by (apply (slot_end h j Hs); congruence).
    apply (lookup_probe_run (Z.to_nat (j - home h vsn)) _ s h); [exact Ht|lia| |unfold probe_fuel; lia|exact Huniq|];
      rewrite Z2Nat.id by lia; replace (home h vsn + (j - home h vsn)) with j by lia; [exact Hj3|].
    right. exists i, e. repeat split; auto; [lia|lia|]. now apply matches_spec.
  - apply (lookup_probe_run (Z.to_nat (k - home h vsn)) _ s h); [exact Ht|lia| |unfold probe_fuel; lia|exact Huniq|];
      rewrite Z2Nat.id by lia; replace (home h vsn + (k - home h vsn)) with k by lia; [exact Hu|].
    left. auto.
Qed.

Lemma slot_store h k v j :
  hash_shape h -> 0 <= k < ht_size h -> slot (store h k v) j = if decide (j = k) then Some v else slot h j.
Proof.
  intros [Hl _] Hk. unfold slot, at_index, store. cbn. destruct (Z.ltb_spec j 0).
  - destruct (decide (j = k)); [lia|reflexivity].
  - destruct (decide (j = k)) as [->|Hne].
    + apply list_lookup_insert_eq. lia.
    + apply list_lookup_insert_ne. lia.
Qed.

Lemma shape_store h k v : hash_shape h -> hash_shape (store h k v).
Proof. intros [Hl Hp]. constructor; cbn; [now rewrite length_insert|exact Hp]. Qed.

Lemma in_use_store h k v a b :
  hash_shape h -> 0 <= k < ht_size h -> v <> HASH_EMPTY -> in_use h a b -> in_use (store h k v) a b.
Proof.
  intros Hs Hk Hv Hu j Hj. rewrite slot_store by assumption. destruct (decide (j = k)); [eauto|]. now apply Hu.
Qed.

(** The state after a new volume was added. *)
Definition added s h k vsn media : vsn_state :=
  let e := mk_VSN media vsn 0 0 (if VSNs_in_robot s =? 0 then 0 else 1) ROBOT_NO_SLOT in
  set_used (table_used s + 1)
    (set_hash (store h k (table_used s)) (set_table (<[Z.to_nat (table_used s) := e]> (vsn_table s)) s)).

Lemma insertVsn_run s h vsn media k :
  tables_ok s h -> table_used s < table_avail s -> vsn <> "" ->
  home h vsn <= k -> in_use h (home h vsn) k -> slot h k = Some HASH_EMPTY ->
  insertIntoVsnTable vsn media s = Done (table_used s) (added s h k vsn media).
Proof.
  intros Ht Hroom Hv Hk Hu He. destruct (to_avail _ _ Ht) as [Ha Hb]. pose proof (to_used _ _ Ht) as Hused.
  destruct (lookup_lt_is_Some_2 (vsn_table s) (Z.to_nat (table_used s))) as [e0 He0]; [lia|].
  unfold insertIntoVsnTable, gets, modify, mbind, M_bind. cbv beta iota.
  assert (Hidx : at_index (vsn_table s) (table_used s) = Some e0) by (apply at_index_spec; split; [lia|exact He0]).
  rewrite Hidx. cbn [deref]. unfold mret at 1, M_ret at 1.
  rewrite (insert_at _ h _ vsn k); [|exact (to_hash _ _ Ht)|exact (to_shape _ _ Ht)|exact Hv|exact Hk|exact Hu|exact He].
  unfold mret, M_ret. rewrite swrap_id by (unfold sint_range; lia). reflexivity.
Qed.

Lemma added_entry s h k vsn media i :
  0 <= table_used s < Z.of_nat (List.length (vsn_table s)) ->
  at_index (vsn_table (added s h k vsn media)) i =
  if decide (i = table_used s)
  then Some (mk_VSN media vsn 0 0 (if VSNs_in_robot s =? 0 then 0 else 1) ROBOT_NO_SLOT)
  else at_index (vsn_table s) i.
Proof.
  intros Hu. unfold at_index. cbn. destruct (Z.ltb_spec i 0); [destruct (decide _); [lia|reflexivity]|].
  destruct (decide (i = table_used s)) as [->|Hne]; [apply list_lookup_insert_eq; lia|apply list_lookup_insert_ne; lia].
Qed.

Lemma tables_added s h k vsn media :
  tables_ok s h -> table_used s < table_avail s -> holds s vsn media None ->
  home h vsn <= k -> in_use h (home h vsn) k -> slot h k = Some HASH_EMPTY ->
  tables_ok (added s h k vsn media) (store h k (table_used s)).
Proof.
  intros Ht Hroom Hnone Hk Hu He. destruct (to_avail _ _ Ht) as [Ha Hb]. pose proof (to_used _ _ Ht) as Hused.
  pose proof (to_shape _ _ Ht) as Hs.
  assert (Hkr : 0 <= k < ht_size h) by (apply (slot_end h k Hs); congruence).
  assert (Hne : table_used s <> HASH_EMPTY) by (unfold HASH_EMPTY; lia).
  assert (Hent := fun i => added_entry s h k vsn media i ltac:(lia)).
  constructor; [reflexivity|now apply shape_store|cbn; now rewrite length_insert|cbn; lia| | |].
  - intros j v. rewrite slot_store by assumption. cbn [added set_used table_used].
    destruct (decide (j = k)); [intros [= <-]; lia|]. intros Hj. destruct (to_values _ _ Ht j v Hj); [auto|lia].
  - intros i e Hi. rewrite Hent. cbn in Hi. unfold home. cbn [store ht_size].
    destruct (decide (i = table_used s)) as [->|Hine].
    + intros [= <-]. cbn [v_vsn]. exists k. split; [exact Hk|]. rewrite slot_store by assumption.
      split; [now rewrite decide_True|]. now apply in_use_store.
    + intros Hie. destruct (to_found _ _ Ht i e ltac:(lia) Hie) as (j & H1 & H2 & H3). exists j.
      split; [exact H1|]. rewrite slot_store by assumption.
      split; [|now apply in_use_store]. destruct (decide (j = k)) as [->|]; [|exact H2].
      rewrite He in H2. injection H2 as <-. apply at_index_spec in Hie as [? _]. unfold HASH_EMPTY in *. lia.
  - intros i j ei ej Hi Hj. cbn in Hi, Hj. rewrite !Hent.
    destruct (decide (i = table_used s)) as [->|Hi']; destruct (decide (j = table_used s)) as [->|Hj']; [reflexivity| | |].
    + intros [= <-] Hej Hm Hv. exfalso. apply (Hnone j ej); [lia|exact Hej|cbn in *; auto].
    + intros Hei [= <-] Hm Hv. exfalso. apply (Hnone i ei); [lia|exact Hei|cbn in *; auto].
    + intros Hei Hej. apply (to_distinct _ _ Ht); [lia|lia|assumption..].
Qed.

(** C40. When the table of volumes has a free entry and the hash table a free slot between
    the one the name hashes to and its end, [Find_VSN] completes and returns the index of
    the one entry with the media and name: an existing one, in which case nothing changes,
    or the next free entry. All other entries are kept, and every volume can still be
    found. The extension of the tables is not covered, and without a free slot up to the
    end the insertion reads behind the table ([InsertIntoHashTable_outcome]). *)
Theorem Find_VSN_correct s h vsn media k :
  tables_ok s h -> is_valid_vsn vsn media = true -> table_used s < table_avail s ->
  home h vsn <= k -> in_use h (home h vsn) k -> slot h k = Some HASH_EMPTY ->
  exists i s', Find_VSN media vsn s = Done (Some i) s' /\ holds s' vsn media (Some i) /\
    (exists h', tables_ok s' h') /\
    (forall j, j < table_used s -> at_index (vsn_table s') j = at_index (vsn_table s) j) /\
    (holds s vsn media (Some i) /\ s' = s \/
     holds s vsn media None /\ i = table_used s /\ table_used s' = table_used s + 1).
Proof.
  intros Ht Hvalid Hroom Hk Hu He. destruct (holds_dec s vsn media) as [r Hr].
  assert (Hv : vsn <> "") by (intros ->; discriminate).
  unfold Find_VSN. rewrite Hvalid. cbn [negb]. unfold mbind, M_bind, gets, when. cbv beta iota.
  rewrite (to_hash _ _ Ht). unfold mret at 1, M_ret at 1. rewrite (lookup_run s h vsn media r k Ht Hr Hk Hu He).
  destruct r as [i|].
  - exists i, s. split; [reflexivity|]. split; [exact Hr|]. split; [eauto|]. auto.
  - destruct (Z.leb_spec (table_avail s) (table_used s)) as [|_]; [lia|]. unfold mret at 1, M_ret at 1.
    rewrite (insertVsn_run s h vsn media k Ht Hroom Hv Hk Hu He).
    destruct (to_avail _ _ Ht) as [Ha _]. pose proof (to_used _ _ Ht) as Hused.
    exists (table_used s), (added s h k vsn media). split; [reflexivity|]. split; [|split; [|split; [|auto]]].
    + split; [cbn; lia|]. eexists. rewrite added_entry by lia. rewrite decide_True by reflexivity. auto.
    + eexists. now apply tables_added.
    + intros j Hj. rewrite added_entry by lia. now rewrite decide_False by lia.
Qed.
End Hash.

(** ** Small tables *)

(** Room for three volumes, one in use. *)
Definition small_hash : HashTable := mk_HashTable 4 [-1; -1; -1; 0].
Definition small_tables : vsn_state :=
  mk_vsn_state (Some small_hash) [mk_VSN DT_TAPE "VOL001" 0 0 0 0; zero_vsn; zero_vsn] [0; 1; 2] 1 3 0.

Lemma small_ok : tables_ok small_tables small_hash.
Proof.
  constructor; [reflexivity|split; vm_compute; auto|split; reflexivity|cbn; lia| | |].
  - intros k v. unfold slot. rewrite at_index_spec. intros [Hk Hv]. cbn. unfold HASH_EMPTY.
    destruct (Z.to_nat k) as [|[|[|[|n]]]]; cbn in Hv; try (injection Hv as <-); lia || discriminate.
  - intros i e Hi. rewrite at_index_spec. intros [Hi0 He]. assert (i = 0) as -> by (cbn in Hi; lia).
    injection He as <-. exists 3. split; [vm_compute; discriminate|]. split; [reflexivity|].
    change (in_use small_hash 3 3). intros j Hj. lia.
  - intros i j ei ej Hi Hj. rewrite !at_index_spec. cbn in Hi, Hj. intros [Hi0 _] [Hj0 _]. lia.
Qed.

Lemma Find_VSN_correct_witness : exists i s', Find_VSN DT_TAPE "VOL002" small_tables = Done (Some i) s' /\
  holds s' "VOL002" DT_TAPE (Some i).
Proof.
  destruct (Find_VSN_correct small_tables small_hash "VOL002" DT_TAPE 0) as (i & s' & E & Hh & _);
    [apply small_ok|reflexivity|reflexivity|vm_compute; discriminate| |reflexivity|exists i, s'; auto].
  change (in_use small_hash 0 0). intros k Hk. lia.
Defined.

(** The name hashes to the last slot, which is in use; the other three are free. *)
Lemma InsertIntoHashTable_outcome_witness :
  InsertIntoHashTable 1 "VOL001" small_tables = Fault WildPointer.
Proof.
  refine (proj2 (InsertIntoHashTable_outcome small_tables small_hash 1 "VOL001" eq_refl _ _) _);
    [split; vm_compute; auto|discriminate|].
  change (in_use small_hash 3 4). intros k Hk. assert (k = 3) as -> by lia. exists 0. split; [reflexivity|discriminate].
Defined.
