(* ===== verification/QuotaRec.v ===== *)
(** * Quota records and the limit checks

    The on-disk quota record and its test ([testquota], src/src/fs/samfs/cquota.c),
    the in-core structure [sam_quot] (src/src/fs/include/quota.h), and the two
    functions that charge a record: [sam_quota_bcheck] (src/src/fs/samfs/quota.c)
    for blocks and the body of [sam_quota_fcheck] (cquota.c) for files. *)

From S2P Require Import Prelude.

(** ** The record on disk *)

Record sam_quota_group : Type := mk_qgroup {
  qg_in_use : Z; qg_soft_limit : Z; qg_hard_limit : Z }.

Record sam_quota_group_pair : Type := mk_qpair {
  qgp_files : sam_quota_group; qgp_blocks : sam_quota_group }.

Record sam_dquot : Type := mk_dquot {
  dq_online : sam_quota_group_pair;
  dq_total : sam_quota_group_pair;
  dq_ol_grace : Z;
  dq_ol_enforce : Z;
  dq_tot_grace : Z;
  dq_tot_enforce : Z;
  unused2 : Z;
  unused3 : Z
}.

Definition dq_folused (d : sam_dquot) : Z := qg_in_use (qgp_files (dq_online d)).
Definition dq_folsoft (d : sam_dquot) : Z := qg_soft_limit (qgp_files (dq_online d)).
Definition dq_folhard (d : sam_dquot) : Z := qg_hard_limit (qgp_files (dq_online d)).
Definition dq_bolused (d : sam_dquot) : Z := qg_in_use (qgp_blocks (dq_online d)).
Definition dq_bolsoft (d : sam_dquot) : Z := qg_soft_limit (qgp_blocks (dq_online d)).
Definition dq_bolhard (d : sam_dquot) : Z := qg_hard_limit (qgp_blocks (dq_online d)).
Definition dq_ftotused (d : sam_dquot) : Z := qg_in_use (qgp_files (dq_total d)).
Definition dq_ftotsoft (d : sam_dquot) : Z := qg_soft_limit (qgp_files (dq_total d)).
Definition dq_ftothard (d : sam_dquot) : Z := qg_hard_limit (qgp_files (dq_total d)).
Definition dq_btotused (d : sam_dquot) : Z := qg_in_use (qgp_blocks (dq_total d)).
Definition dq_btotsoft (d : sam_dquot) : Z := qg_soft_limit (qgp_blocks (dq_total d)).
Definition dq_btothard (d : sam_dquot) : Z := qg_hard_limit (qgp_blocks (dq_total d)).

Definition set_in_use (v : Z) (g : sam_quota_group) : sam_quota_group :=
  mk_qgroup v (qg_soft_limit g) (qg_hard_limit g).
Definition set_files (v : Z) (p : sam_quota_group_pair) : sam_quota_group_pair :=
  mk_qpair (set_in_use v (qgp_files p)) (qgp_blocks p).
Definition set_blocks (v : Z) (p : sam_quota_group_pair) : sam_quota_group_pair :=
  mk_qpair (qgp_files p) (set_in_use v (qgp_blocks p)).
Definition set_pairs (ol tot : sam_quota_group_pair) (d : sam_dquot) : sam_dquot :=
  mk_dquot ol tot (dq_ol_grace d) (dq_ol_enforce d) (dq_tot_grace d)
    (dq_tot_enforce d) (unused2 d) (unused3 d).
Definition set_folused (v : Z) (d : sam_dquot) : sam_dquot :=
  set_pairs (set_files v (dq_online d)) (dq_total d) d.
Definition set_ftotused (v : Z) (d : sam_dquot) : sam_dquot :=
  set_pairs (dq_online d) (set_files v (dq_total d)) d.
Definition set_bolused (v : Z) (d : sam_dquot) : sam_dquot :=
  set_pairs (set_blocks v (dq_online d)) (dq_total d) d.
Definition set_btotused (v : Z) (d : sam_dquot) : sam_dquot :=
  set_pairs (dq_online d) (set_blocks v (dq_total d)) d.
Definition set_ol_enforce (v : Z) (d : sam_dquot) : sam_dquot :=
  mk_dquot (dq_online d) (dq_total d) (dq_ol_grace d) v (dq_tot_grace d)
    (dq_tot_enforce d) (unused2 d) (unused3 d).
Definition set_tot_enforce (v : Z) (d : sam_dquot) : sam_dquot :=
  mk_dquot (dq_online d) (dq_total d) (dq_ol_grace d) (dq_ol_enforce d)
    (dq_tot_grace d) v (unused2 d) (unused3 d).

(** [d->dq_bolused += ol; d->dq_btotused += tot], and the same for files. *)
Definition charge_blocks (ol tot : Z) (d : sam_dquot) : sam_dquot :=
  let d1 := set_bolused (s64 (dq_bolused d + ol)) d in
  set_btotused (s64 (dq_btotused d1 + tot)) d1.
Definition charge_files (ol tot : Z) (d : sam_dquot) : sam_dquot :=
  let d1 := set_folused (s64 (dq_folused d + ol)) d in
  set_ftotused (s64 (dq_ftotused d1 + tot)) d1.

Definition zero_group : sam_quota_group := mk_qgroup 0 0 0.
Definition zero_dquot : sam_dquot :=
  mk_dquot (mk_qpair zero_group zero_group) (mk_qpair zero_group zero_group) 0 0 0 0 0 0.

(** ** Limits *)

Definition QUOTA_INF (d : sam_dquot) : bool := (dq_ftothard d =? 0) && (dq_btothard d =? 0).

Definition QUOTA_SANE (d : sam_dquot) : bool :=
  (0 <=? dq_folsoft d) && (dq_folsoft d <=? dq_ftotsoft d) &&
  (dq_ftotsoft d <=? dq_ftothard d) && (dq_folsoft d <=? dq_folhard d) &&
  (dq_folhard d <=? dq_ftothard d) && (0 <=? dq_bolsoft d) &&
  (dq_bolsoft d <=? dq_btotsoft d) && (dq_btotsoft d <=? dq_btothard d) &&
  (dq_bolsoft d <=? dq_bolhard d) && (dq_bolhard d <=? dq_btothard d).

Definition SAM_QT_OK : Z := 0x0.
Definition SAM_QT_OL_FILE_SOFT : Z := 0x01.
Definition SAM_QT_OL_FILE_HARD : Z := 0x02.
Definition SAM_QT_TOT_FILE_SOFT : Z := 0x04.
Definition SAM_QT_TOT_FILE_HARD : Z := 0x08.
Definition SAM_QT_OL_BLOCK_SOFT : Z := 0x10.
Definition SAM_QT_OL_BLOCK_HARD : Z := 0x20.
Definition SAM_QT_TOT_BLOCK_SOFT : Z := 0x40.
Definition SAM_QT_TOT_BLOCK_HARD : Z := 0x80.
Definition SAM_QT_ERROR : Z := 0x8000.

(** [if (b) r |= m] *)
Definition or_if (b : bool) (m r : Z) : Z := if b then Z.lor r m else r.

(** [SAM_QUOTA_TOTALS] is not defined by any build file, so the total file counts
    are not compared. *)
Definition testquota (d : sam_dquot) (checktotal : bool) : Z :=
  if negb (QUOTA_SANE d) then SAM_QT_ERROR
  else if QUOTA_INF d then SAM_QT_OK
  else
    let r := SAM_QT_OK in
    let r := or_if (dq_folsoft d <? dq_folused d) SAM_QT_OL_FILE_SOFT r in
    let r := or_if (dq_folhard d <? dq_folused d) SAM_QT_OL_FILE_HARD r in
    let r := or_if (dq_bolsoft d <? dq_bolused d) SAM_QT_OL_BLOCK_SOFT r in
    let r := or_if (dq_bolhard d <? dq_bolused d) SAM_QT_OL_BLOCK_HARD r in
    if checktotal then
      let r := or_if (dq_btotsoft d <? dq_btotused d) SAM_QT_TOT_BLOCK_SOFT r in
      or_if (dq_btothard d <? dq_btotused d) SAM_QT_TOT_BLOCK_HARD r
    else r.

(** ** The structure in core *)

Definition addr : Type := nat.

Record sam_quot : Type := mk_quot {
  qt_vp : addr;                 (* the quota file, as the inode it belongs to *)
  qt_flags : Z;
  qt_ref : Z;
  qt_type : Z;
  qt_index : Z;
  qt_lastref : Z;
  qt_lock : bool;
  qt_hash_next : option addr;
  qt_avail_next : option addr;
  qt_avail_prev : option addr;
  qt_dent : sam_dquot
}.

Definition SAM_QF_BUSY : Z := 0x01.
Definition SAM_QF_DIRTY : Z := 0x02.
Definition SAM_QF_OVEROB : Z := 0x10.
Definition SAM_QF_OVERTB : Z := 0x20.
Definition SAM_QF_OVEROF : Z := 0x40.
Definition SAM_QF_OVERTF : Z := 0x80.
Definition SAM_QF_AVAIL : Z := 0x100.
Definition SAM_QF_HASHED : Z := 0x200.
Definition SAM_QF_ANCHOR : Z := 0x1000.

Definition set_flags (v : Z) (q : sam_quot) : sam_quot :=
  mk_quot (qt_vp q) v (qt_ref q) (qt_type q) (qt_index q) (qt_lastref q) (qt_lock q)
    (qt_hash_next q) (qt_avail_next q) (qt_avail_prev q) (qt_dent q).
Definition or_flags (m : Z) (q : sam_quot) : sam_quot := set_flags (Z.lor (qt_flags q) m) q.
Definition clear_flags (m : Z) (q : sam_quot) : sam_quot :=
  set_flags (Z.land (qt_flags q) (Z.lnot m)) q.
Definition set_lastref (v : Z) (q : sam_quot) : sam_quot :=
  mk_quot (qt_vp q) (qt_flags q) (qt_ref q) (qt_type q) (qt_index q) v (qt_lock q)
    (qt_hash_next q) (qt_avail_next q) (qt_avail_prev q) (qt_dent q).
Definition upd_dent (f : sam_dquot -> sam_dquot) (q : sam_quot) : sam_quot :=
  mk_quot (qt_vp q) (qt_flags q) (qt_ref q) (qt_type q) (qt_index q) (qt_lastref q)
    (qt_lock q) (qt_hash_next q) (qt_avail_next q) (qt_avail_prev q) (f (qt_dent q)).

(** What is counted: files ([sam_quota_fcheck]) or blocks ([sam_quota_bcheck]).
    The two functions have the same body over different limit bits and flags. *)
Inductive counted : Type := FILES | BLOCKS.

Definition ol_soft (k : counted) : Z :=
  match k with FILES => SAM_QT_OL_FILE_SOFT | BLOCKS => SAM_QT_OL_BLOCK_SOFT end.
Definition ol_hard (k : counted) : Z :=
  match k with FILES => SAM_QT_OL_FILE_HARD | BLOCKS => SAM_QT_OL_BLOCK_HARD end.
Definition tot_soft (k : counted) : Z :=
  match k with FILES => SAM_QT_TOT_FILE_SOFT | BLOCKS => SAM_QT_TOT_BLOCK_SOFT end.
Definition tot_hard (k : counted) : Z :=
  match k with FILES => SAM_QT_TOT_FILE_HARD | BLOCKS => SAM_QT_TOT_BLOCK_HARD end.
Definition over_ol (k : counted) : Z :=
  match k with FILES => SAM_QF_OVEROF | BLOCKS => SAM_QF_OVEROB end.
Definition over_tot (k : counted) : Z :=
  match k with FILES => SAM_QF_OVERTF | BLOCKS => SAM_QF_OVERTB end.
Definition charge (k : counted) : Z -> Z -> sam_dquot -> sam_dquot :=
  match k with FILES => charge_files | BLOCKS => charge_blocks end.

Definition any_ol_soft : Z := Z.lor SAM_QT_OL_BLOCK_SOFT SAM_QT_OL_FILE_SOFT.
Definition any_tot_soft : Z := Z.lor SAM_QT_TOT_BLOCK_SOFT SAM_QT_TOT_FILE_SOFT.
Definition refusing (k : counted) : Z := Z.lor SAM_QT_ERROR (Z.lor (ol_hard k) (tot_hard k)).

(** The terminal messages of [uwarn]; their arguments, the type and index of the
    record, are left out. *)
Inductive qmsg : Type :=
  | OverOnlineSoft (k : counted) | OverTotalSoft (k : counted)
  | OverOnlineHard (k : counted) | OverTotalHard (k : counted)
  | UnderOnlineHard (k : counted) | UnderTotalHard (k : counted)
  | UnexpectedChange (k : counted).

Definition say_if (b : bool) (m : qmsg) : list qmsg := if b then [m] else [].

(** One turn of the loop over the changed bits: the [switch (bit)]. *)
Definition change_bit (k : counted) (after bit : Z) (q : sam_quot) : sam_quot * list qmsg :=
  let named := negb (qt_index q =? 0) in
  if bit =? ol_soft k then
    if has_any after (ol_soft k) then
      (or_flags (over_ol k) q,
       say_if (named && negb (has_any (qt_flags q) (over_ol k))) (OverOnlineSoft k))
    else
      let q1 := clear_flags (over_ol k) q in
      (if has_any after any_ol_soft then q1 else upd_dent (set_ol_enforce 0) q1, [])
  else if bit =? tot_soft k then
    if has_any after (tot_soft k) then
      (or_flags (over_tot k) q,
       say_if (named && negb (has_any (qt_flags q) (over_tot k))) (OverTotalSoft k))
    else
      let q1 := clear_flags (over_tot k) q in
      (if has_any after any_tot_soft then q1 else upd_dent (set_tot_enforce 0) q1, [])
  else if bit =? ol_hard k then
    if has_any after (ol_hard k) then
      (or_flags (over_ol k) q, say_if named (OverOnlineHard k))
    else (q, say_if named (UnderOnlineHard k))
  else if bit =? tot_hard k then
    if has_any after (tot_hard k) then
      (or_flags (over_tot k) q, say_if named (OverTotalHard k))
    else (q, say_if named (UnderTotalHard k))
  else (q, [UnexpectedChange k]).

(** [for (changes = ...; changes; changes &= ~bit)], lowest bit first. The last
    component is what is left of [changes]: 0 when the loop ended. *)
Fixpoint change_loop (fuel : nat) (step : Z -> sam_quot -> sam_quot * list qmsg)
    (changes : Z) (q : sam_quot) : sam_quot * list qmsg * Z :=
  match fuel with
  | O => (q, [], changes)
  | S fuel' =>
      if changes =? 0 then (q, [], 0)
      else
        let bit := Z.lxor changes (Z.land changes (changes - 1)) in
        let '(q1, m1) := step bit q in
        let '(q2, m2, rest) :=
          change_loop fuel' step (Z.land changes (Z.lnot bit)) q1 in
        (q2, m1 ++ m2, rest)
  end.

(** An [int] has 32 bits and each turn clears one. *)
Definition change_fuel : nat := 33.

(** Restart a grace counter that the walk above cleared. *)
Definition restart_ol (k : counted) (now after : Z) (q : sam_quot) : sam_quot * list qmsg :=
  if has_any after (ol_soft k) && (dq_ol_enforce (qt_dent q) =? 0) then
    (or_flags (over_ol k)
       (upd_dent (fun d => set_ol_enforce (s32 (now + dq_ol_grace d)) d) q),
     say_if (negb (qt_index q =? 0) && negb (has_any (qt_flags q) (over_ol k)))
       (OverOnlineSoft k))
  else (q, []).
Definition restart_tot (k : counted) (now after : Z) (q : sam_quot) : sam_quot * list qmsg :=
  if has_any after (tot_soft k) && (dq_tot_enforce (qt_dent q) =? 0) then
    (or_flags (over_tot k)
       (upd_dent (fun d => set_tot_enforce (s32 (now + dq_tot_grace d)) d) q),
     say_if (negb (qt_index q =? 0) && negb (has_any (qt_flags q) (over_tot k)))
       (OverTotalSoft k))
  else (q, []).

Definition expired (enforce now : Z) : bool := negb (enforce =? 0) && (enforce <? now).

(** The tests before charging: the condition of the three [goto errout]. *)
Definition refused_before (k : counted) (now before ol tot : Z) (d : sam_dquot) : bool :=
  has_any before (refusing k) ||
  ((0 <? ol) && has_any before (ol_soft k) && expired (dq_ol_enforce d) now) ||
  ((0 <? tot) && has_any before (tot_soft k) && expired (dq_tot_enforce d) now).

(** The timers that are stopped when the record is under its soft limits. *)
Definition stop_timers (before : Z) (d : sam_dquot) : sam_dquot :=
  let d1 := if has_any before any_ol_soft then d else set_ol_enforce 0 d in
  if has_any before any_tot_soft then d1 else set_tot_enforce 0 d1.

(** The caller is a user that limits apply to: a named record, a credential, and
    not the superuser. *)
Definition limited_user (index : Z) (cred : option Z) : bool :=
  negb (index =? 0) &&
  match cred with Some uid => negb (uid =? 0) | None => false end.

(** From the computation of [check] to the return, in both functions. [sum] is
    [tot+ol] in the integer type of the function. *)
Definition quota_charge (k : counted) (sam_enabled : bool) (now sum : Z)
    (q : sam_quot) (ol tot : Z) (cred : option Z) : Z * sam_quot * list qmsg :=
  let check := (0 <? sum) && limited_user (qt_index q) cred in
  let before := testquota (qt_dent q) sam_enabled in
  if check && refused_before k now before ol tot (qt_dent q)
  then (EDQUOT, set_lastref now q, [])
  else
    let q1 := if check then upd_dent (stop_timers before) q else q in
    let q2 := upd_dent (charge k ol tot) q1 in
    let after := testquota (qt_dent q2) sam_enabled in
    if check && has_any after (refusing k)
    then (EDQUOT, set_lastref now (upd_dent (charge k (- ol) (- tot)) q2), [])
    else
      let '(q3, m3, _) :=
        change_loop change_fuel (change_bit k after) (Z.lxor before after)
          (or_flags SAM_QF_DIRTY q2) in
      let '(q4, m4) := restart_ol k now after q3 in
      let '(q5, m5) := restart_tot k now after q4 in
      (0, set_lastref now q5, m3 ++ m4 ++ m5).

(** No complicated cases: the signs of the two counts differ. *)
Definition mixed_signs (ol tot : Z) : bool :=
  ((ol <? 0) && (0 <? tot)) || ((tot <? 0) && (0 <? ol)).

(** [sam_quota_bcheck]; [sam_enabled] is [fi_config & MT_SAM_ENABLED] of the mount
    the quota file belongs to. *)
Definition sam_quota_bcheck (sam_enabled : bool) (now : Z) (q : sam_quot)
    (ol tot : Z) (cred : option Z) : Z * sam_quot * list qmsg :=
  if mixed_signs ol tot then (EDQUOT, q, [])
  else quota_charge BLOCKS sam_enabled now (s64 (tot + ol)) q ol tot cred.

(** [sam_quota_fcheck] once it holds the record. *)
Definition fcheck_record (sam_enabled : bool) (now : Z) (q : sam_quot)
    (ol tot : Z) (cred : option Z) : Z * sam_quot * list qmsg :=
  quota_charge FILES sam_enabled now (s32 (tot + ol)) q ol tot cred.

(** ** The loop over the changed bits *)

Lemma change_loop_ends (fuel : nat) step (changes : Z) (q : sam_quot) :
  0 <= changes -> (popcount changes < fuel)%nat ->
  snd (change_loop fuel step changes q) = 0.
Proof.
  revert changes q. induction fuel as [|fuel IH]; intros changes q H0 Hf; [lia|].
  cbn [change_loop]. destruct (Z.eqb_spec changes 0) as [->|Hne]; [reflexivity|].
  rewrite clear_low_bit. destruct (step _ q) as [q1 m1].
  destruct (popcount_clear changes) as [Hn Hp]; [lia|].
  specialize (IH (Z.land changes (changes - 1)) q1 Hn ltac:(lia)).
  destruct (change_loop fuel _ _ q1) as [[q2 m2] rest]. exact IH.
Qed.

(** A property that every turn preserves holds after the loop. *)
Lemma change_loop_ind (P : sam_quot -> Prop) (M : qmsg -> Prop) fuel step changes q :
  (forall bit q, P q -> P (fst (step bit q)) /\ Forall M (snd (step bit q))) ->
  P q ->
  P (fst (fst (change_loop fuel step changes q))) /\
  Forall M (snd (fst (change_loop fuel step changes q))).
Proof.
  intros Hstep. revert changes q. induction fuel as [|fuel IH]; intros changes q HP.
  - split; [exact HP|constructor].
  - cbn [change_loop]. destruct (changes =? 0); [split; [exact HP|constructor]|].
    destruct (Hstep (Z.lxor changes (Z.land changes (changes - 1))) q HP) as [HP1 HM1].
    destruct (step _ q) as [q1 m1]. specialize (IH (Z.land changes
      (Z.lnot (Z.lxor changes (Z.land changes (changes - 1))))) q1 HP1) as [HP2 HM2].
    destruct (change_loop fuel _ _ q1) as [[q2 m2] rest]. cbn in *.
    split; [exact HP2|]. now apply Forall_app.
Qed.

(** ** What a charge leaves alone *)

(** Bits of [qt_flags] that say where the structure is, not what it counts. *)
Definition struct_flags : Z :=
  Z.lor SAM_QF_BUSY (Z.lor SAM_QF_AVAIL (Z.lor SAM_QF_HASHED SAM_QF_ANCHOR)).

(** Limits and grace periods: what only an administrator sets. *)
Definition limits (d : sam_dquot) :=
  (dq_folsoft d, dq_folhard d, dq_bolsoft d, dq_bolhard d,
   dq_ftotsoft d, dq_ftothard d, dq_btotsoft d, dq_btothard d,
   dq_ol_grace d, dq_tot_grace d, unused2 d, unused3 d).
Definition usage (d : sam_dquot) := (dq_folused d, dq_ftotused d, dq_bolused d, dq_btotused d).

Record quot_frame (q q' : sam_quot) : Prop := mk_quot_frame {
  fr_vp : qt_vp q' = qt_vp q;
  fr_ref : qt_ref q' = qt_ref q;
  fr_type : qt_type q' = qt_type q;
  fr_index : qt_index q' = qt_index q;
  fr_lock : qt_lock q' = qt_lock q;
  fr_hash : qt_hash_next q' = qt_hash_next q;
  fr_an : qt_avail_next q' = qt_avail_next q;
  fr_ap : qt_avail_prev q' = qt_avail_prev q;
  fr_flags : Z.land (qt_flags q') struct_flags = Z.land (qt_flags q) struct_flags;
  fr_limits : limits (qt_dent q') = limits (qt_dent q)
}.

#[global] Instance quot_frame_preorder : PreOrder quot_frame.
Proof.
  split.
  - intros q. now constructor.
  - intros q1 q2 q3 [] []. constructor; congruence.
Qed.

Lemma or_flags_frame (m : Z) (q : sam_quot) :
  Z.land m struct_flags = 0 -> quot_frame q (or_flags m q).
Proof.
  intros Hm. constructor; try reflexivity. cbn.
  rewrite Z.land_lor_distr_l, Hm. apply Z.lor_0_r.
Qed.

Lemma clear_flags_frame (m : Z) (q : sam_quot) :
  Z.land (Z.lnot m) struct_flags = struct_flags -> quot_frame q (clear_flags m q).
Proof.
  intros Hm. constructor; try reflexivity. cbn. now rewrite <- Z.land_assoc, Hm.
Qed.

Lemma set_lastref_frame (v : Z) (q : sam_quot) : quot_frame q (set_lastref v q).
Proof. now constructor. Qed.

Lemma upd_dent_frame (f : sam_dquot -> sam_dquot) (q : sam_quot) :
  (forall d, limits (f d) = limits d) -> quot_frame q (upd_dent f q).
Proof. intros Hf. constructor; try reflexivity. cbn. apply Hf. Qed.

Lemma charge_limits (k : counted) (ol tot : Z) (d : sam_dquot) :
  limits (charge k ol tot d) = limits d.
Proof. destruct k; reflexivity. Qed.

Lemma stop_timers_limits (before : Z) (d : sam_dquot) :
  limits (stop_timers before d) = limits d.
Proof. unfold stop_timers. now repeat destruct (has_any _ _). Qed.

Create HintDb qframe.
#[export] Hint Resolve set_lastref_frame upd_dent_frame charge_limits
  stop_timers_limits : qframe.
#[export] Hint Extern 2 (quot_frame _ (or_flags _ _)) =>
  apply or_flags_frame; reflexivity : qframe.
#[export] Hint Extern 2 (quot_frame _ (clear_flags _ _)) =>
  apply clear_flags_frame; reflexivity : qframe.

(** One turn of the walk changes flags and stops timers; counts stay. *)
Definition counts (d : sam_dquot) := (dq_online d, dq_total d).

Lemma change_bit_frame (k : counted) (after bit : Z) (q : sam_quot) :
  quot_frame q (fst (change_bit k after bit q)) /\
  counts (qt_dent (fst (change_bit k after bit q))) = counts (qt_dent q).
Proof.
  unfold change_bit.
  destruct (bit =? _); [|destruct (bit =? _); [|destruct (bit =? _);
    [|destruct (bit =? _)]]];
    repeat (destruct (has_any _ _)); cbn [fst]; (split; [|reflexivity]);
    try reflexivity; destruct k; auto with qframe;
    (etransitivity; [|apply upd_dent_frame; reflexivity]); auto with qframe.
Qed.

Lemma counts_usage_limits (d d' : sam_dquot) :
  counts d = counts d' -> usage d = usage d' /\
  forall checktotal, testquota d checktotal = testquota d' checktotal.
Proof. destruct d, d'. unfold counts. cbn. intros [= -> ->]. now split. Qed.

(** Dirty records are the ones that [sam_quota_flush] writes back. *)
Definition dirty (q : sam_quot) : bool := has_any (qt_flags q) SAM_QF_DIRTY.

Lemma has_any_lor_l (x y m : Z) : has_any (Z.lor x y) m = has_any x m || has_any y m.
Proof.
  unfold has_any. rewrite Z.land_comm, Z.land_lor_distr_r, !(Z.land_comm m).
  pose proof (has_any_lor m x y) as H. unfold has_any in H.
  rewrite Z.land_lor_distr_r, !(Z.land_comm m) in H. exact H.
Qed.

Lemma dirty_or_flags (m : Z) (q : sam_quot) : dirty q = true -> dirty (or_flags m q) = true.
Proof. unfold dirty. cbn. intros H. now rewrite has_any_lor_l, H. Qed.

Lemma dirty_clear_flags (m : Z) (q : sam_quot) :
  Z.land (Z.lnot m) SAM_QF_DIRTY = SAM_QF_DIRTY -> dirty (clear_flags m q) = dirty q.
Proof. unfold dirty, has_any. cbn. intros H. now rewrite <- Z.land_assoc, H. Qed.

Lemma change_bit_dirty (k : counted) (after bit : Z) (q : sam_quot) :
  dirty q = true -> dirty (fst (change_bit k after bit q)) = true.
Proof.
  intros H. unfold change_bit.
  destruct (bit =? _); [|destruct (bit =? _); [|destruct (bit =? _);
    [|destruct (bit =? _)]]];
    repeat (destruct (has_any _ _)); cbn [fst]; auto using dirty_or_flags;
    try exact H; try (rewrite dirty_clear_flags; [exact H|destruct k; reflexivity]).
  all: change (dirty (upd_dent ?f ?x)) with (dirty x);
    (rewrite dirty_clear_flags; [exact H|destruct k; reflexivity]).
Qed.

(** The tail of a granted charge: the walk, then the two restarts. *)
Definition settle (k : counted) (now before after : Z) (q : sam_quot) : sam_quot * list qmsg :=
  let '(q3, m3, _) := change_loop change_fuel (change_bit k after) (Z.lxor before after) q in
  let '(q4, m4) := restart_ol k now after q3 in
  let '(q5, m5) := restart_tot k now after q4 in
  (set_lastref now q5, m3 ++ m4 ++ m5).

Lemma change_loop_frame (k : counted) (after : Z) fuel changes q :
  dirty q = true ->
  let q' := fst (fst (change_loop fuel (change_bit k after) changes q)) in
  quot_frame q q' /\ counts (qt_dent q') = counts (qt_dent q) /\ dirty q' = true.
Proof.
  intros Hd.
  refine (proj1 (change_loop_ind (fun q' => quot_frame q q' /\
    counts (qt_dent q') = counts (qt_dent q) /\ dirty q' = true) (fun _ => True)
    _ _ _ _ _ _)); [|split; [reflexivity|auto]].
  intros bit q1 (Hf & Hc & Hd1). destruct (change_bit_frame k after bit q1) as [Hf1 Hc1].
  split; [|apply Forall_forall; auto]. split; [etransitivity; eassumption|].
  split; [congruence|]. now apply change_bit_dirty.
Qed.

Lemma restart_ol_frame (k : counted) (now after : Z) (q : sam_quot) :
  dirty q = true ->
  let q' := fst (restart_ol k now after q) in
  quot_frame q q' /\ counts (qt_dent q') = counts (qt_dent q) /\ dirty q' = true.
Proof.
  intros Hd. unfold restart_ol. destruct (_ && _); cbn [fst]; [|split; [reflexivity|auto]].
  split; [|split; [reflexivity|now apply dirty_or_flags]].
  etransitivity; [apply upd_dent_frame|destruct k; auto with qframe]. reflexivity.
Qed.

Lemma restart_tot_frame (k : counted) (now after : Z) (q : sam_quot) :
  dirty q = true ->
  let q' := fst (restart_tot k now after q) in
  quot_frame q q' /\ counts (qt_dent q') = counts (qt_dent q) /\ dirty q' = true.
Proof.
  intros Hd. unfold restart_tot. destruct (_ && _); cbn [fst]; [|split; [reflexivity|auto]].
  split; [|split; [reflexivity|now apply dirty_or_flags]].
  etransitivity; [apply upd_dent_frame|destruct k; auto with qframe]. reflexivity.
Qed.

Lemma settle_frame (k : counted) (now before after : Z) (q : sam_quot) :
  dirty q = true ->
  let q' := fst (settle k now before after q) in
  quot_frame q q' /\ counts (qt_dent q') = counts (qt_dent q) /\ dirty q' = true /\
  qt_lastref q' = now.
Proof.
  intros Hd. unfold settle.
  pose proof (change_loop_frame k after change_fuel (Z.lxor before after) q Hd) as H.
  destruct (change_loop _ _ _ q) as [[q3 m3] r]. cbn in H. destruct H as (F3 & C3 & D3).
  pose proof (restart_ol_frame k now after q3 D3) as H.
  destruct (restart_ol k now after q3) as [q4 m4]. cbn in H. destruct H as (F4 & C4 & D4).
  pose proof (restart_tot_frame k now after q4 D4) as H.
  destruct (restart_tot k now after q4) as [q5 m5]. cbn in H. destruct H as (F5 & C5 & D5).
  cbn [fst]. split; [|split; [cbn; congruence|split; [exact D5|reflexivity]]].
  etransitivity; [exact F3|]. etransitivity; [exact F4|]. etransitivity; [exact F5|].
  apply set_lastref_frame.
Qed.

(** ** Charging a record *)

(** Counts are 64-bit values. *)
Definition dquot_ok (d : sam_dquot) : Prop :=
  sint_range 64 (dq_folused d) /\ sint_range 64 (dq_ftotused d) /\
  sint_range 64 (dq_bolused d) /\ sint_range 64 (dq_btotused d).

Lemma charge_undo (k : counted) (ol tot : Z) (d : sam_dquot) :
  dquot_ok d -> counts (charge k (- ol) (- tot) (charge k ol tot d)) = counts d.
Proof.
  intros (H1 & H2 & H3 & H4).
  destruct d as [[[] []] [[] []] ? ? ? ? ? ?].
  destruct k; cbn in *; unfold counts; cbn; unfold set_files, set_blocks, set_in_use; cbn;
    rewrite !Z.add_opp_r, !swrap_add_sub by (lia || assumption); reflexivity.
Qed.

Lemma counts_charge (k : counted) (ol tot : Z) (d d' : sam_dquot) :
  counts d = counts d' -> counts (charge k ol tot d) = counts (charge k ol tot d').
Proof. destruct d, d'. unfold counts. cbn. intros [= -> ->]. destruct k; reflexivity. Qed.

Lemma stop_timers_counts (before : Z) (d : sam_dquot) :
  counts (stop_timers before d) = counts d.
Proof. unfold stop_timers. now repeat destruct (has_any _ _). Qed.

Definition checked (sum index : Z) (cred : option Z) : bool :=
  (0 <? sum) && limited_user index cred.

(** The two outcomes of a charge. *)
Definition charge_refused (k : counted) (se : bool) (now ol tot : Z) (q q' : sam_quot) : Prop :=
  (refused_before k now (testquota (qt_dent q) se) ol tot (qt_dent q) = true \/
   has_any (testquota (charge k ol tot (qt_dent q)) se) (refusing k) = true) /\
  (dquot_ok (qt_dent q) -> counts (qt_dent q') = counts (qt_dent q)).

Definition charge_granted (k : counted) (se check : bool) (now ol tot : Z) (q q' : sam_quot)
    : Prop :=
  counts (qt_dent q') = counts (charge k ol tot (qt_dent q)) /\ dirty q' = true /\
  (check = true ->
     refused_before k now (testquota (qt_dent q) se) ol tot (qt_dent q) = false /\
     has_any (testquota (qt_dent q') se) (refusing k) = false).

Lemma quota_charge_cases (k : counted) (se : bool) (now sum : Z) (q : sam_quot)
    (ol tot : Z) (cred : option Z) (err : Z) (q' : sam_quot) (msgs : list qmsg) :
  quota_charge k se now sum q ol tot cred = (err, q', msgs) ->
  quot_frame q q' /\ qt_lastref q' = now /\
  ((err = EDQUOT /\ checked sum (qt_index q) cred = true /\
    charge_refused k se now ol tot q q' /\ msgs = []) \/
   (err = 0 /\ charge_granted k se (checked sum (qt_index q) cred) now ol tot q q')).
Proof.
  unfold quota_charge. fold (checked sum (qt_index q) cred).
  set (check := checked sum (qt_index q) cred).
  set (before := testquota (qt_dent q) se).
  destruct (check && refused_before k now before ol tot (qt_dent q)) eqn:R.
  { intros [= <- <- <-]. apply andb_prop in R as [Hc R].
    split; [auto with qframe|]. split; [reflexivity|]. left.
    split; [reflexivity|]. split; [exact Hc|]. split; [|reflexivity].
    split; [left; exact R|reflexivity]. }
  set (q1 := if check then upd_dent (stop_timers before) q else q).
  assert (F1 : quot_frame q q1) by (unfold q1; destruct check; auto with qframe; reflexivity).
  assert (C1 : counts (qt_dent q1) = counts (qt_dent q))
    by (unfold q1; destruct check; [apply stop_timers_counts|reflexivity]).
  set (q2 := upd_dent (charge k ol tot) q1).
  assert (F2 : quot_frame q q2) by (etransitivity; [exact F1|]; apply upd_dent_frame, charge_limits).
  assert (C2 : counts (qt_dent q2) = counts (charge k ol tot (qt_dent q)))
    by (now apply counts_charge).
  assert (T2 : testquota (qt_dent q2) se = testquota (charge k ol tot (qt_dent q)) se)
    by (now apply counts_usage_limits).
  set (after := testquota (qt_dent q2) se) in *.
  destruct (check && has_any after (refusing k)) eqn:A.
  { intros [= <- <- <-]. apply andb_prop in A as [Hc A]. rewrite T2 in A.
    split; [|split; [reflexivity|]].
    - etransitivity; [exact F2|]. etransitivity; [|apply set_lastref_frame]. auto with qframe.
    - left. unfold charge_refused. split; [reflexivity|]. split; [exact Hc|].
      split; [split; [now right|]|reflexivity]. intros Hok. cbn.
      rewrite <- (charge_undo k ol tot (qt_dent q)) by assumption.
      now apply counts_charge, counts_charge. }
  intros E.
  assert (Es : settle k now before after (or_flags SAM_QF_DIRTY q2) = (q', msgs) /\ err = 0).
  { unfold settle. destruct (change_loop _ _ _ _) as [[q3 m3] r].
    destruct (restart_ol k now after q3) as [q4 m4].
    destruct (restart_tot k now after q4) as [q5 m5]. injection E as <- <- <-. now split. }
  destruct Es as [Es ->].
  destruct (settle_frame k now before after (or_flags SAM_QF_DIRTY q2)) as (F & C & D & L);
    [unfold dirty; cbn; rewrite has_any_lor_l; apply orb_true_r|].
  rewrite Es in F, C, D, L. cbn [fst] in *.
  split; [|split; [exact L|]].
  - etransitivity; [exact F2|]. etransitivity; [|exact F]. auto with qframe.
  - right. split; [reflexivity|]. split; [etransitivity; [exact C|exact C2]|].
    split; [exact D|]. intros Hc. rewrite Hc in R, A. cbn [andb] in R, A.
    split; [exact R|].
    rewrite (proj2 (counts_usage_limits (qt_dent q') (qt_dent q2) C)). exact A.
Qed.

(** ** The bits of [testquota] *)

Definition limited (d : sam_dquot) : bool := QUOTA_SANE d && negb (QUOTA_INF d).

Ltac testquota_bit :=
  intros; unfold testquota, limited;
  destruct (QUOTA_SANE _); [|reflexivity]; destruct (QUOTA_INF _); [reflexivity|];
  cbn [negb andb]; unfold or_if;
  repeat match goal with
  | |- context [if ?b then _ else _] => destruct b
  end; reflexivity.

Lemma testquota_error d ct : has_any (testquota d ct) SAM_QT_ERROR = negb (QUOTA_SANE d).
Proof. testquota_bit. Qed.
Lemma testquota_ol_soft d ct :
  has_any (testquota d ct) SAM_QT_OL_BLOCK_SOFT = limited d && (dq_bolsoft d <? dq_bolused d).
Proof. testquota_bit. Qed.
Lemma testquota_ol_hard d ct :
  has_any (testquota d ct) SAM_QT_OL_BLOCK_HARD = limited d && (dq_bolhard d <? dq_bolused d).
Proof. testquota_bit. Qed.
Lemma testquota_tot_soft d ct :
  has_any (testquota d ct) SAM_QT_TOT_BLOCK_SOFT =
  limited d && (ct && (dq_btotsoft d <? dq_btotused d)).
Proof. testquota_bit. Qed.
Lemma testquota_tot_hard d ct :
  has_any (testquota d ct) SAM_QT_TOT_BLOCK_HARD =
  limited d && (ct && (dq_btothard d <? dq_btotused d)).
Proof. testquota_bit. Qed.
Lemma testquota_file_soft d ct :
  has_any (testquota d ct) SAM_QT_OL_FILE_SOFT = limited d && (dq_folsoft d <? dq_folused d).
Proof. testquota_bit. Qed.
Lemma testquota_file_hard d ct :
  has_any (testquota d ct) SAM_QT_OL_FILE_HARD = limited d && (dq_folhard d <? dq_folused d).
Proof. testquota_bit. Qed.
Lemma testquota_tot_file d ct :
  has_any (testquota d ct) (Z.lor SAM_QT_TOT_FILE_SOFT SAM_QT_TOT_FILE_HARD) = false.
Proof. testquota_bit. Qed.

Create Rewrite HintDb tquota.
#[export] Hint Rewrite testquota_error testquota_ol_soft testquota_ol_hard testquota_tot_soft
  testquota_tot_hard testquota_file_soft testquota_file_hard : tquota.

(** Within the hard limits, as the two check functions understand them. *)
Definition within_hard (k : counted) (checktotal : bool) (d : sam_dquot) : Prop :=
  QUOTA_SANE d = true /\
  (QUOTA_INF d = false ->
   match k with
   | BLOCKS => dq_bolused d <= dq_bolhard d /\
               (checktotal = true -> dq_btotused d <= dq_btothard d)
   | FILES => dq_folused d <= dq_folhard d
   end).

Lemma not_refusing (k : counted) (ct : bool) (d : sam_dquot) :
  has_any (testquota d ct) (refusing k) = false <-> within_hard k ct d.
Proof.
  unfold refusing, within_hard. rewrite !has_any_lor, !orb_false_iff, testquota_error.
  destruct k; cbn [ol_hard tot_hard].
  - rewrite testquota_file_hard.
    pose proof (testquota_tot_file d ct) as HT. rewrite has_any_lor in HT.
    apply orb_false_iff in HT as [_ ->]. unfold limited.
    destruct (QUOTA_SANE d); [|cbn; intuition congruence].
    destruct (QUOTA_INF d); cbn; rewrite ?Z.ltb_ge; intuition (auto; congruence).
  - rewrite testquota_ol_hard, testquota_tot_hard. unfold limited.
    destruct (QUOTA_SANE d); [|cbn; intuition congruence].
    destruct (QUOTA_INF d); [cbn; intuition congruence|]. destruct ct; cbn;
      rewrite ?Z.ltb_ge; intuition (auto; congruence).
Qed.

Lemma within_hard_counts (k : counted) (ct : bool) (d d' : sam_dquot) :
  counts d = counts d' -> within_hard k ct d -> within_hard k ct d'.
Proof.
  intros H. rewrite <- !not_refusing. now rewrite (proj2 (counts_usage_limits _ _ H)).
Qed.

(** ** Blocks: [sam_quota_bcheck] *)

(** C6. A grant of blocks to a user that limits apply to leaves the record within
    its hard limits: online blocks always, total blocks on a file system that
    archives. The counts grow by exactly what was asked for, and the record is
    marked for writing. *)
Theorem bcheck_grant_within_hard (se : bool) (now : Z) (q q' : sam_quot) (ol tot uid : Z) msgs :
  sam_quota_bcheck se now q ol tot (Some uid) = (0, q', msgs) ->
  uid <> 0 -> qt_index q <> 0 -> 0 < s64 (tot + ol) ->
  within_hard BLOCKS se (qt_dent q') /\
  dq_bolused (qt_dent q') = s64 (dq_bolused (qt_dent q) + ol) /\
  dq_btotused (qt_dent q') = s64 (dq_btotused (qt_dent q) + tot) /\
  dq_folused (qt_dent q') = dq_folused (qt_dent q) /\
  dq_ftotused (qt_dent q') = dq_ftotused (qt_dent q) /\
  limits (qt_dent q') = limits (qt_dent q) /\ dirty q' = true.
Proof.
  intros E Hu Hi Hs. unfold sam_quota_bcheck in E.
  destruct (mixed_signs ol tot); [discriminate|].
  apply quota_charge_cases in E as (F & _ & [(? & _)|(_ & C & D & H)]); [discriminate|].
  assert (Hc : checked (s64 (tot + ol)) (qt_index q) (Some uid) = true).
  { unfold checked, limited_user. apply Z.ltb_lt in Hs. rewrite Hs.
    apply Z.eqb_neq in Hi, Hu. now rewrite Hi, Hu. }
  split; [apply not_refusing, (H Hc)|].
  destruct (counts_usage_limits _ _ C) as [U _]. unfold usage in U.
  injection U as U1 U2 U3 U4. rewrite U1, U2, U3, U4.
  repeat split; [apply (fr_limits _ _ F)|exact D].
Qed.

(** C17. A refused charge changes no count and no limit of the record, whether it
    was refused before or after the counts were tried. *)
Theorem bcheck_refusal_neutral (se : bool) (now : Z) (q q' : sam_quot) (ol tot : Z) cred msgs :
  dquot_ok (qt_dent q) ->
  sam_quota_bcheck se now q ol tot cred = (EDQUOT, q', msgs) ->
  usage (qt_dent q') = usage (qt_dent q) /\ limits (qt_dent q') = limits (qt_dent q) /\ msgs = [].
Proof.
  intros Hok E. unfold sam_quota_bcheck in E.
  destruct (mixed_signs ol tot); [injection E as <- <-; auto|].
  apply quota_charge_cases in E as (F & _ & [(_ & _ & [_ C] & M)|(? & _)]); [|discriminate].
  split; [now apply counts_usage_limits, C|]. split; [apply (fr_limits _ _ F)|exact M].
Qed.

(** A charge made without credentials (every release and every back-out) is
    granted. *)
Lemma bcheck_no_cred (se : bool) (now : Z) (q : sam_quot) (ol tot : Z) :
  mixed_signs ol tot = false ->
  exists q' msgs, sam_quota_bcheck se now q ol tot None = (0, q', msgs) /\
    quot_frame q q' /\ counts (qt_dent q') = counts (charge_blocks ol tot (qt_dent q)) /\
    dirty q' = true.
Proof.
  intros Hm. unfold sam_quota_bcheck. rewrite Hm.
  destruct (quota_charge _ _ _ _ _ _ _ _) as [[err q'] msgs] eqn:E.
  apply quota_charge_cases in E as (F & _ & [(_ & Hc & _)|(-> & C & D & _)]).
  - unfold checked, limited_user in Hc. now rewrite !andb_false_r in Hc.
  - eauto 10.
Qed.

(** ** Soft limits and the grace period *)

(** The walk leaves a running online timer alone while some online soft limit is
    still exceeded. *)
Lemma change_bit_keeps_ol (k : counted) (after bit : Z) (q : sam_quot) :
  has_any after any_ol_soft = true ->
  dq_ol_enforce (qt_dent (fst (change_bit k after bit q))) = dq_ol_enforce (qt_dent q).
Proof.
  intros Ha. unfold change_bit. rewrite Ha.
  destruct (bit =? _); [|destruct (bit =? _); [|destruct (bit =? _);
    [|destruct (bit =? _)]]]; repeat (destruct (has_any _ _)); reflexivity.
Qed.

Lemma settle_ol_timer (now before after : Z) (q : sam_quot) :
  has_any after SAM_QT_OL_BLOCK_SOFT = true ->
  dq_ol_enforce (qt_dent (fst (settle BLOCKS now before after q))) =
  if dq_ol_enforce (qt_dent q) =? 0 then s32 (now + dq_ol_grace (qt_dent q))
  else dq_ol_enforce (qt_dent q).
Proof.
  intros Ha. unfold settle.
  assert (Hany : has_any after any_ol_soft = true)
    by (unfold any_ol_soft; rewrite has_any_lor, Ha; reflexivity).
  assert (H : dq_ol_enforce (qt_dent (fst (fst (change_loop change_fuel (change_bit BLOCKS after)
                (Z.lxor before after) q)))) = dq_ol_enforce (qt_dent q) /\
              dq_ol_grace (qt_dent (fst (fst (change_loop change_fuel (change_bit BLOCKS after)
                (Z.lxor before after) q)))) = dq_ol_grace (qt_dent q)).
  { refine (proj1 (change_loop_ind (fun q' => dq_ol_enforce (qt_dent q') = dq_ol_enforce (qt_dent q)
      /\ dq_ol_grace (qt_dent q') = dq_ol_grace (qt_dent q)) (fun _ => True) _ _ _ _ _ _)); [|auto].
    intros bit q1 [H1 H2]. rewrite change_bit_keeps_ol by assumption.
    pose proof (fr_limits _ _ (proj1 (change_bit_frame BLOCKS after bit q1))) as HL.
    unfold limits in HL. injection HL as ? ? ? ? ? ? ? ? HG ? ? ?. rewrite HG.
    split; [auto|]. apply Forall_forall; auto. }
  destruct (change_loop _ _ _ q) as [[q3 m3] r]. cbn [fst] in H. destruct H as [<- <-].
  unfold restart_ol. cbn [ol_soft]. rewrite Ha. cbn [andb].
  destruct (dq_ol_enforce (qt_dent q3) =? 0);
    unfold restart_tot; destruct (_ && _); reflexivity.
Qed.

(** The record that a charge starts from: its timers may have been stopped. *)
Definition stopped (check se : bool) (d : sam_dquot) : sam_dquot :=
  if check then stop_timers (testquota d se) d else d.

Lemma stopped_ol (check se : bool) (d : sam_dquot) :
  dq_ol_grace (stopped check se d) = dq_ol_grace d /\
  dq_ol_enforce (stopped check se d) =
    if check && negb (has_any (testquota d se) any_ol_soft) then 0 else dq_ol_enforce d.
Proof.
  unfold stopped, stop_timers. destruct check; [|auto].
  destruct (has_any _ any_ol_soft), (has_any _ any_tot_soft); auto.
Qed.

(** The granted branch of a charge, as [settle]. *)
Lemma quota_charge_granted_settle k se now sum q ol tot cred q' msgs :
  quota_charge k se now sum q ol tot cred = (0, q', msgs) ->
  exists q2, q2 = upd_dent (fun d => charge k ol tot (stopped (checked sum (qt_index q) cred) se d)) q /\
    settle k now (testquota (qt_dent q) se) (testquota (charge k ol tot (qt_dent q)) se)
      (or_flags SAM_QF_DIRTY q2) = (q', msgs).
Proof.
  unfold quota_charge. destruct (_ && refused_before _ _ _ _ _ _); [discriminate|].
  fold (checked sum (qt_index q) cred). set (check := checked sum (qt_index q) cred).
  assert (E1 : upd_dent (charge k ol tot) (if check then upd_dent (stop_timers (testquota (qt_dent q) se)) q else q) =
    upd_dent (fun d => charge k ol tot (stopped check se d)) q) by (unfold stopped; now destruct check).
  assert (T2 : testquota (charge k ol tot (stopped check se (qt_dent q))) se =
               testquota (charge k ol tot (qt_dent q)) se).
  { apply counts_usage_limits, counts_charge. unfold stopped.
    destruct check; [apply stop_timers_counts|reflexivity]. }
  rewrite E1. cbn [qt_dent upd_dent]. rewrite T2.
  destruct (_ && has_any _ _); [discriminate|]. intros E.
  eexists. split; [reflexivity|].
  unfold settle. destruct (change_loop _ _ _ _) as [[q3 m3] r].
  destruct (restart_ol _ _ _ q3) as [q4 m4]. destruct (restart_tot _ _ _ q4) as [q5 m5].
  injection E as <- <-. reflexivity.
Qed.

(** C31. The grace timer of a record that a grant leaves over its online soft block
    limit, exactly. It is started, with the grace period from now, when it was not running
    or when limits apply to the caller and the record was under its online soft limits for
    blocks and files before; otherwise it keeps its value. In particular a timer that runs
    is not touched by further writes while the record is over the limit: they do not extend
    the grace period. *)
Theorem bcheck_grace_timer (se : bool) (now : Z) (q q' : sam_quot) (ol tot : Z) cred msgs :
  sam_quota_bcheck se now q ol tot cred = (0, q', msgs) ->
  limited (qt_dent q') = true -> dq_bolsoft (qt_dent q') < dq_bolused (qt_dent q') ->
  dq_ol_enforce (qt_dent q') =
    (if (dq_ol_enforce (qt_dent q) =? 0) ||
        (checked (s64 (tot + ol)) (qt_index q) cred &&
         negb (has_any (testquota (qt_dent q) se) any_ol_soft))
     then s32 (now + dq_ol_grace (qt_dent q)) else dq_ol_enforce (qt_dent q)) /\
  (dq_ol_enforce (qt_dent q) <> 0 -> limited (qt_dent q) = true ->
   dq_bolsoft (qt_dent q) < dq_bolused (qt_dent q) ->
   dq_ol_enforce (qt_dent q') = dq_ol_enforce (qt_dent q)).
Proof.
  intros E Hl Hsoft. unfold sam_quota_bcheck in E.
  destruct (mixed_signs ol tot); [discriminate|].
  pose proof (quota_charge_cases _ _ _ _ _ _ _ _ _ _ _ E) as (_ & _ & [(? & _)|(_ & C & _)]);
    [discriminate|].
  apply quota_charge_granted_settle in E as (q2 & Hq2 & Es).
  assert (Ha : has_any (testquota (charge BLOCKS ol tot (qt_dent q)) se) SAM_QT_OL_BLOCK_SOFT = true).
  { rewrite <- (proj2 (counts_usage_limits _ _ C)), testquota_ol_soft, Hl.
    now apply Z.ltb_lt. }
  pose proof (settle_ol_timer now (testquota (qt_dent q) se) _ (or_flags SAM_QF_DIRTY q2) Ha) as HT.
  rewrite Es in HT. cbn [fst] in HT. rewrite HT, Hq2.
  set (d := qt_dent q). set (stop := checked _ _ _).
  assert (G : dq_ol_grace (stopped stop se d) = dq_ol_grace d /\ dq_ol_enforce (stopped stop se d) =
    if stop && negb (has_any (testquota d se) any_ol_soft) then 0 else dq_ol_enforce d)
    by apply stopped_ol.
  change (qt_dent (or_flags _ _)) with (charge BLOCKS ol tot (stopped stop se d)).
  change (dq_ol_grace (charge _ _ _ ?x)) with (dq_ol_grace x).
  change (dq_ol_enforce (charge _ _ _ ?x)) with (dq_ol_enforce x). destruct G as [-> ->]. split.
  - destruct (stop && _); [now rewrite orb_true_r|]. now rewrite orb_false_r.
  - intros Hne Hlq Hs. unfold any_ol_soft. rewrite has_any_lor, testquota_ol_soft.
    fold d in Hlq, Hs. rewrite Hlq, (proj2 (Z.ltb_lt _ _) Hs). cbn [andb orb negb].
    rewrite andb_false_r. apply Z.eqb_neq in Hne. fold d in Hne. now rewrite Hne.
Qed.

(** C32. Once the grace period has run out the soft limit is enforced: a limited
    user over the online soft block limit whose timer has expired is refused any
    further online blocks. *)
Theorem bcheck_grace_expired (se : bool) (now : Z) (q : sam_quot) (ol tot uid : Z) :
  uid <> 0 -> qt_index q <> 0 -> 0 < s64 (tot + ol) -> 0 < ol ->
  limited (qt_dent q) = true -> dq_bolsoft (qt_dent q) < dq_bolused (qt_dent q) ->
  dq_ol_enforce (qt_dent q) <> 0 -> dq_ol_enforce (qt_dent q) < now ->
  fst (fst (sam_quota_bcheck se now q ol tot (Some uid))) = EDQUOT.
Proof.
  intros Hu Hi Hs Hol Hl Hsoft He Hn. unfold sam_quota_bcheck.
  destruct (mixed_signs ol tot); [reflexivity|]. unfold quota_charge.
  apply Z.ltb_lt in Hs. apply Z.eqb_neq in Hu, Hi. unfold limited_user. rewrite Hs, Hi, Hu.
  cbn [andb negb].
  assert (R : refused_before BLOCKS now (testquota (qt_dent q) se) ol tot (qt_dent q) = true).
  { unfold refused_before, expired. cbn [ol_soft]. rewrite testquota_ol_soft, Hl.
    apply Z.ltb_lt in Hol, Hsoft, Hn. apply Z.eqb_neq in He. rewrite Hol, Hsoft, Hn, He.
    cbn. rewrite orb_true_r. reflexivity. }
  now rewrite R.
Qed.

(** ** The walk over the changed bits is complete *)

Definition kind_mask (k : counted) : Z :=
  Z.lor (Z.lor (ol_soft k) (tot_soft k)) (Z.lor (ol_hard k) (tot_hard k)).

Lemma charge_changes (k : counted) (ol tot : Z) (d : sam_dquot) (ct : bool) :
  let c := Z.lxor (testquota d ct) (testquota (charge k ol tot d) ct) in
  0 <= c /\ Z.land c (kind_mask k) = c.
Proof.
  cbv zeta. unfold testquota.
  replace (QUOTA_SANE (charge k ol tot d)) with (QUOTA_SANE d) by (destruct k; reflexivity).
  replace (QUOTA_INF (charge k ol tot d)) with (QUOTA_INF d) by (destruct k; reflexivity).
  destruct (QUOTA_SANE d); [|destruct k; vm_compute; split; congruence].
  destruct (QUOTA_INF d); [destruct k; vm_compute; split; congruence|]. cbn [negb]. unfold or_if.
  set (d' := charge k ol tot d).
  assert (HL : limits d' = limits d) by apply charge_limits.
  unfold limits in HL. injection HL as -> -> -> -> _ _ -> -> _ _ _ _.
  destruct k.
  - change (dq_bolused d') with (dq_bolused d). change (dq_btotused d') with (dq_btotused d).
    clearbody d'. destruct ct; repeat match goal with
    | |- context [if ?b then _ else _] => destruct b
    end; vm_compute; split; congruence.
  - change (dq_folused d') with (dq_folused d).
    clearbody d'. destruct ct; repeat match goal with
    | |- context [if ?b then _ else _] => destruct b
    end; vm_compute; split; congruence.
Qed.

(** The sixteen values that [changes] can take for one kind. *)
Definition kind_unit (k : counted) : Z := match k with FILES => 1 | BLOCKS => 16 end.

Lemma kind_mask_values (k : counted) (c : Z) :
  0 <= c -> Z.land c (kind_mask k) = c ->
  exists j, 0 <= j < 16 /\ c = kind_unit k * j.
Proof.
  intros H0 Hm. destruct k; cbn [kind_unit].
  - exists c. change (kind_mask FILES) with (Z.ones 4) in Hm.
    rewrite Z.land_ones in Hm by lia. pose proof (Z.mod_pos_bound c (2 ^ 4)). lia.
  - exists (c / 16). change (kind_mask BLOCKS) with (Z.shiftl (Z.ones 4) 4) in Hm.
    assert (E : Z.land c (Z.ones 4) = 0).
    { rewrite <- Hm, <- Z.land_assoc. apply Z.land_0_r. }
    rewrite Z.land_ones in E by lia. change (2 ^ 4) with 16 in E.
    assert (c < 256).
    { assert (Z.land c (Z.ones 8) = c).
      { rewrite <- Hm at 1. rewrite <- Z.land_assoc. exact Hm. }
      rewrite Z.land_ones in * by lia. pose proof (Z.mod_pos_bound c (2 ^ 8)). lia. }
    dlia.
Qed.

Ltac each_of_16 j :=
  let H := fresh in
  assert (H : j = 0 \/ j = 1 \/ j = 2 \/ j = 3 \/ j = 4 \/ j = 5 \/ j = 6 \/ j = 7 \/
              j = 8 \/ j = 9 \/ j = 10 \/ j = 11 \/ j = 12 \/ j = 13 \/ j = 14 \/ j = 15) by lia;
  repeat (destruct H as [->|H]); [..|subst j].

Definition expected (m : qmsg) : Prop := match m with UnexpectedChange _ => False | _ => True end.

(** Each turn on such a value takes one of the four named cases and leaves such a
    value. *)
Lemma change_turn (k : counted) (j : Z) :
  0 < j < 16 ->
  let c := kind_unit k * j in
  let bit := Z.lxor c (Z.land c (c - 1)) in
  (bit = ol_soft k \/ bit = tot_soft k \/ bit = ol_hard k \/ bit = tot_hard k) /\
  exists j', 0 <= j' < j /\ Z.land c (Z.lnot bit) = kind_unit k * j'.
Proof.
  intros Hj. destruct k; each_of_16 j; try lia; (split; [vm_compute; tauto|]);
    match goal with |- exists j', _ /\ ?x = kind_unit ?k * j' =>
      exists (x / kind_unit k) end; vm_compute; intuition congruence.
Qed.

Lemma change_bit_expected (k : counted) (after bit : Z) (q : sam_quot) :
  bit = ol_soft k \/ bit = tot_soft k \/ bit = ol_hard k \/ bit = tot_hard k ->
  Forall expected (snd (change_bit k after bit q)).
Proof.
  intros Hb. unfold change_bit, say_if.
  destruct (Z.eqb_spec bit (ol_soft k)), (Z.eqb_spec bit (tot_soft k)),
    (Z.eqb_spec bit (ol_hard k)), (Z.eqb_spec bit (tot_hard k)); try tauto;
    repeat (destruct (has_any _ _)); repeat (destruct (_ && _)); repeat (destruct (negb _));
    repeat constructor.
Qed.

Lemma change_loop_expected (k : counted) (after : Z) (fuel : nat) (j : Z) (q : sam_quot) :
  0 <= j < 16 ->
  Forall expected (snd (fst (change_loop fuel (change_bit k after) (kind_unit k * j) q))).
Proof.
  revert j q. induction fuel as [|fuel IH]; intros j q Hj; [constructor|].
  cbn [change_loop]. destruct (Z.eqb_spec (kind_unit k * j) 0) as [|Hne]; [constructor|].
  assert (Hj0 : 0 < j) by (destruct (Z.eq_dec j 0) as [->|]; lia).
  destruct (change_turn k j ltac:(lia)) as (Hb & j' & Hj' & ->).
  pose proof (change_bit_expected k after _ q Hb) as Hm.
  destruct (change_bit _ _ _ q) as [q1 m1]. specialize (IH j' q1 ltac:(lia)).
  destruct (change_loop fuel _ _ q1) as [[q2 m2] r]. cbn in *. now apply Forall_app.
Qed.

Lemma restart_expected (k : counted) (now after : Z) (q : sam_quot) :
  Forall expected (snd (restart_ol k now after q)) /\
  Forall expected (snd (restart_tot k now after q)).
Proof.
  unfold restart_ol, restart_tot, say_if.
  split; destruct (_ && _); cbn [snd]; try destruct (_ && _); repeat constructor.
Qed.

Lemma settle_expected (k : counted) (now before after j : Z) (q : sam_quot) :
  0 <= j < 16 -> Z.lxor before after = kind_unit k * j ->
  Forall expected (snd (settle k now before after q)).
Proof.
  intros Hj E. unfold settle. rewrite E.
  pose proof (change_loop_expected k after change_fuel j q Hj) as Hm.
  revert Hm. generalize change_fuel as fuel. intros fuel Hm.
  destruct (change_loop fuel _ _ q) as [[q3 m3] r]. cbn [fst snd] in Hm.
  destruct (restart_expected k now after q3) as [H4 _].
  destruct (restart_ol k now after q3) as [q4 m4]. cbn [snd] in H4.
  destruct (restart_expected k now after q4) as [_ H5].
  destruct (restart_tot k now after q4) as [q5 m5]. cbn [snd] in *.
  now repeat (apply Forall_app; split).
Qed.

Lemma popcount_kind (k : counted) (j : Z) :
  0 <= j < 16 -> (popcount (kind_unit k * j) < change_fuel)%nat.
Proof.
  intros Hj. assert (Hb : (popcount (kind_unit k * j) <= 8)%nat)
    by (apply popcount_bound; destruct k; cbn; lia).
  unfold change_fuel. lia.
Qed.

(** The walk over the changed limit bits ends with every bit handled, and it
    never reaches its default case: a charge of blocks changes block limit bits
    only, a charge of files file limit bits only, so that no unexpected change is
    ever reported. *)
Theorem quota_charge_walk_complete (k : counted) (se : bool) (now sum : Z) (q : sam_quot)
    (ol tot : Z) (cred : option Z) :
  Forall expected (snd (quota_charge k se now sum q ol tot cred)) /\
  forall after q2,
    snd (change_loop change_fuel (change_bit k after)
           (Z.lxor (testquota (qt_dent q) se) (testquota (charge k ol tot (qt_dent q)) se)) q2) = 0.
Proof.
  destruct (charge_changes k ol tot (qt_dent q) se) as [Hc0 Hcm].
  destruct (kind_mask_values k _ Hc0 Hcm) as (j & Hj & Ej). split.
  - destruct (quota_charge k se now sum q ol tot cred) as [[err q'] msgs] eqn:E.
    pose proof E as Ec.
    apply quota_charge_cases in Ec as (_ & _ & [(_ & _ & _ & ->)|(-> & _)]); [constructor|].
    apply quota_charge_granted_settle in E as (q2 & _ & Es).
    pose proof (settle_expected k now _ _ j (or_flags SAM_QF_DIRTY q2) Hj Ej) as Hm.
    rewrite Es in Hm. exact Hm.
  - intros after q2. apply change_loop_ends; [exact Hc0|].
    rewrite Ej. now apply popcount_kind.
Qed.
