(* ===== verification/QuotaBytes.v ===== *)
(** * The bytes of a quota record

    The kernel treats a quota record as an array of bytes in two places: a record
    that is all zero bytes stands for the default record ([sam_zerocmp],
    src/src/fs/samfs/cquota.c), and [sam_quota_set_info] (src/src/fs/samfs/quota.c)
    merges the administrator's record into the current one with three byte loops
    under a mask. A record is 128 bytes, little endian, without padding. *)

From S2P Require Import Prelude QuotaRec.

(** ** Integers as bytes *)

Fixpoint le_bytes (n : nat) (x : Z) : list Z :=
  match n with O => [] | S n' => x mod 256 :: le_bytes n' (x / 256) end.

Fixpoint le_value (bs : list Z) : Z :=
  match bs with [] => 0 | b :: bs' => b + 256 * le_value bs' end.

Definition is_byte (b : Z) : Prop := 0 <= b < 256.

Lemma le_bytes_length n x : length (le_bytes n x) = n.
Proof. revert x. induction n; intros; cbn; congruence. Qed.

Lemma le_bytes_byte n x : Forall is_byte (le_bytes n x).
Proof.
  revert x. induction n; intros; cbn; constructor; [|auto].
  unfold is_byte. apply Z.mod_pos_bound. lia.
Qed.

Lemma le_value_bytes n x : le_value (le_bytes n x) = x mod 2 ^ (8 * Z.of_nat n).
Proof.
  revert x. induction n as [|n IH]; intros x; [cbn; now rewrite Z.mod_1_r|].
  cbn [le_bytes le_value]. rewrite IH.
  replace (8 * Z.of_nat (S n)) with (8 + 8 * Z.of_nat n) by lia.
  rewrite Z.pow_add_r by lia. change (2 ^ 8) with 256.
  rewrite Z.rem_mul_r by (try lia; apply pow2_pos; lia). reflexivity.
Qed.

Lemma le_signed_roundtrip n x :
  (0 < n)%nat -> sint_range (8 * Z.of_nat n) x ->
  swrap (8 * Z.of_nat n) (le_value (le_bytes n x)) = x.
Proof.
  intros Hn Hx. rewrite le_value_bytes. rewrite <- (swrap_id (8 * Z.of_nat n) x) at 2 by
    (assumption || lia).
  apply swrap_congr. apply Z.mod_mod. pose proof (pow2_pos (8 * Z.of_nat n)). lia.
Qed.

(** ** The layout of the record *)

(** The fields in memory order, each with its size in bytes. *)
Definition dquot_fields (d : sam_dquot) : list (nat * Z) :=
  [(8%nat, dq_folused d); (8%nat, dq_folsoft d); (8%nat, dq_folhard d);
   (8%nat, dq_bolused d); (8%nat, dq_bolsoft d); (8%nat, dq_bolhard d);
   (8%nat, dq_ftotused d); (8%nat, dq_ftotsoft d); (8%nat, dq_ftothard d);
   (8%nat, dq_btotused d); (8%nat, dq_btotsoft d); (8%nat, dq_btothard d);
   (4%nat, dq_ol_grace d); (4%nat, dq_ol_enforce d);
   (4%nat, dq_tot_grace d); (4%nat, dq_tot_enforce d);
   (8%nat, unused2 d); (8%nat, unused3 d)].

Definition fields_bytes (fs : list (nat * Z)) : list Z :=
  concat (map (fun f => le_bytes (fst f) (snd f)) fs).

Definition dquot_bytes (d : sam_dquot) : list Z := fields_bytes (dquot_fields d).

(** Reading [n]-byte signed integers off the front. *)
Fixpoint read_fields (sizes : list nat) (bs : list Z) : list Z :=
  match sizes with
  | [] => []
  | n :: sizes' =>
      swrap (8 * Z.of_nat n) (le_value (take n bs)) :: read_fields sizes' (drop n bs)
  end.

Definition dquot_sizes : list nat := map fst (dquot_fields zero_dquot).

Definition dquot_of_list (vs : list Z) : sam_dquot :=
  let v i := nth i vs 0 in
  mk_dquot
    (mk_qpair (mk_qgroup (v 0%nat) (v 1%nat) (v 2%nat)) (mk_qgroup (v 3%nat) (v 4%nat) (v 5%nat)))
    (mk_qpair (mk_qgroup (v 6%nat) (v 7%nat) (v 8%nat)) (mk_qgroup (v 9%nat) (v 10%nat) (v 11%nat)))
    (v 12%nat) (v 13%nat) (v 14%nat) (v 15%nat) (v 16%nat) (v 17%nat).

Definition dquot_of_bytes (bs : list Z) : sam_dquot := dquot_of_list (read_fields dquot_sizes bs).

(** Every field fits its type. *)
Definition dquot_typed (d : sam_dquot) : Prop :=
  Forall (fun f => (0 < fst f)%nat /\ sint_range (8 * Z.of_nat (fst f)) (snd f)) (dquot_fields d).

Lemma read_fields_bytes (fs : list (nat * Z)) :
  Forall (fun f => (0 < fst f)%nat /\ sint_range (8 * Z.of_nat (fst f)) (snd f)) fs ->
  read_fields (map fst fs) (fields_bytes fs) = map snd fs.
Proof.
  induction 1 as [|[n x] fs [Hn Hx] _ IH]; [reflexivity|].
  unfold fields_bytes in *. cbn [map concat fst snd read_fields].
  rewrite take_app_length', drop_app_length' by (symmetry; apply le_bytes_length).
  rewrite le_signed_roundtrip by assumption. f_equal. exact IH.
Qed.

Lemma dquot_bytes_roundtrip (d : sam_dquot) :
  dquot_typed d -> dquot_of_bytes (dquot_bytes d) = d.
Proof.
  intros H. unfold dquot_of_bytes, dquot_bytes.
  change dquot_sizes with (map fst (dquot_fields d)).
  rewrite read_fields_bytes by exact H.
  destruct d as [[[] []] [[] []] ? ? ? ? ? ?]. reflexivity.
Qed.

(** ** [sam_zerocmp] *)

(** The loop: 0 at the first byte that is not zero, 1 at the end. *)
Fixpoint sam_zerocmp (bs : list Z) : bool :=
  match bs with
  | [] => true
  | b :: bs' => if negb (b =? 0) then false else sam_zerocmp bs'
  end.

Lemma sam_zerocmp_app (bs cs : list Z) :
  sam_zerocmp (bs ++ cs) = sam_zerocmp bs && sam_zerocmp cs.
Proof. induction bs as [|b bs IH]; [reflexivity|]. cbn. destruct (b =? 0); [exact IH|reflexivity]. Qed.

Lemma sam_zerocmp_value (bs : list Z) :
  Forall is_byte bs -> sam_zerocmp bs = true -> le_value bs = 0.
Proof.
  induction 1 as [|b bs Hb _ IH]; cbn; [reflexivity|].
  destruct (Z.eqb_spec b 0) as [->|]; cbn; [|discriminate]. intros H. rewrite IH; auto.
Qed.

Lemma sam_zerocmp_fields (fs : list (nat * Z)) :
  Forall (fun f => (0 < fst f)%nat /\ sint_range (8 * Z.of_nat (fst f)) (snd f)) fs ->
  sam_zerocmp (fields_bytes fs) = true -> Forall (fun f => snd f = 0) fs.
Proof.
  induction 1 as [|[n x] fs [Hn Hx] _ IH]; [constructor|].
  unfold fields_bytes in *. cbn [map concat fst snd] in *. rewrite sam_zerocmp_app.
  intros [H1 H2]%andb_prop. constructor; [|auto]. cbn.
  apply sam_zerocmp_value in H1; [|apply le_bytes_byte].
  rewrite <- (le_signed_roundtrip n x Hn Hx), H1. apply swrap_id; [lia|].
  pose proof (pow2_pos (8 * Z.of_nat n - 1) ltac:(lia)). unfold sint_range. lia.
Qed.

(** A record is all zero bytes exactly when it is the zero record. *)
Lemma sam_zerocmp_dquot (d : sam_dquot) :
  dquot_typed d -> sam_zerocmp (dquot_bytes d) = true <-> d = zero_dquot.
Proof.
  intros H. split; [|intros ->; reflexivity]. intros Hz.
  apply sam_zerocmp_fields in Hz; [|exact H].
  destruct d as [[[] []] [[] []] ? ? ? ? ? ?]. unfold dquot_fields in Hz. cbn in Hz.
  repeat match goal with H : Forall _ (_ :: _) |- _ => inversion H; clear H; subst end.
  cbn in *. subst. reflexivity.
Qed.

(** ** The byte loops of [sam_quota_set_info] *)

(** Each runs over [n] bytes of both operands; a [char] keeps the low eight bits. *)
Fixpoint b_log_AND (d s : list Z) (n : nat) : list Z :=
  match n, d, s with
  | S n', x :: d', y :: s' => Z.land x y mod 256 :: b_log_AND d' s' n'
  | _, _, _ => d
  end.
Fixpoint b_log_CAND (d s : list Z) (n : nat) : list Z :=
  match n, d, s with
  | S n', x :: d', y :: s' => Z.land x (Z.lnot y) mod 256 :: b_log_CAND d' s' n'
  | _, _, _ => d
  end.
Fixpoint b_log_OR (d s : list Z) (n : nat) : list Z :=
  match n, d, s with
  | S n', x :: d', y :: s' => Z.lor x y mod 256 :: b_log_OR d' s' n'
  | _, _, _ => d
  end.

(** [sam_usemask]: all ones in the counts, the timers and the unused words. *)
Definition sam_usemask : sam_dquot :=
  let used := mk_qgroup (-1) 0 0 in
  mk_dquot (mk_qpair used used) (mk_qpair used used) 0 (-1) 0 (-1) (-1) (-1).

(** The merge that [sam_quota_set_info] makes for SAM_QOP_PUT. *)
Definition put_merge (cur new : sam_dquot) : sam_dquot :=
  let m := dquot_bytes sam_usemask in
  let n := length m in
  let cur' := b_log_AND (dquot_bytes cur) m n in
  let new' := b_log_CAND (dquot_bytes new) m n in
  dquot_of_bytes (b_log_OR cur' new' n).

(** The intended result: the administrator's limits and grace periods, the current
    counts, timers and unused words. *)
Definition take_limits (cur new : sam_dquot) : sam_dquot :=
  let grp c n := mk_qgroup (qg_in_use c) (qg_soft_limit n) (qg_hard_limit n) in
  let pair c n := mk_qpair (grp (qgp_files c) (qgp_files n)) (grp (qgp_blocks c) (qgp_blocks n)) in
  mk_dquot (pair (dq_online cur) (dq_online new)) (pair (dq_total cur) (dq_total new))
    (dq_ol_grace new) (dq_ol_enforce cur) (dq_tot_grace new) (dq_tot_enforce cur)
    (unused2 cur) (unused3 cur).

(** ** The merge is the intended one *)

(** Over the whole length the loops are pointwise. *)
Lemma b_log_AND_zip (d s : list Z) :
  length d = length s ->
  b_log_AND d s (length d) = zip_with (fun x y => Z.land x y mod 256) d s.
Proof.
  revert s. induction d as [|x d IH]; intros [|y s] H; cbn in *; try congruence.
  f_equal. apply IH. congruence.
Qed.
Lemma b_log_CAND_zip (d s : list Z) :
  length d = length s ->
  b_log_CAND d s (length d) = zip_with (fun x y => Z.land x (Z.lnot y) mod 256) d s.
Proof.
  revert s. induction d as [|x d IH]; intros [|y s] H; cbn in *; try congruence.
  f_equal. apply IH. congruence.
Qed.
Lemma b_log_OR_zip (d s : list Z) :
  length d = length s ->
  b_log_OR d s (length d) = zip_with (fun x y => Z.lor x y mod 256) d s.
Proof.
  revert s. induction d as [|x d IH]; intros [|y s] H; cbn in *; try congruence.
  f_equal. apply IH. congruence.
Qed.

(** The three loops in sequence, on any three byte strings of one length. *)
Definition merge_bytes (c x m : list Z) : list Z :=
  zip_with (fun a b => Z.lor a b mod 256)
    (zip_with (fun a b => Z.land a b mod 256) c m)
    (zip_with (fun a b => Z.land a (Z.lnot b) mod 256) x m).

Lemma merge_bytes_app c c' x x' m m' :
  length c = length m -> length x = length m ->
  merge_bytes (c ++ c') (x ++ x') (m ++ m') = merge_bytes c x m ++ merge_bytes c' x' m'.
Proof.
  intros Hc Hx. unfold merge_bytes. rewrite !zip_with_app by congruence.
  apply zip_with_app. rewrite !length_zip_with. lia.
Qed.

(** One byte: kept under an all-ones mask, replaced under a zero mask. *)
Lemma merge_byte (a b : Z) (keep : bool) :
  let a := a mod 256 in let b := b mod 256 in let m := if keep then 255 else 0 in
  Z.lor (Z.land a m mod 256) (Z.land b (Z.lnot m) mod 256) mod 256 = if keep then a else b.
Proof.
  cbv zeta. pose proof (Z.mod_pos_bound a 256 ltac:(lia)) as Ha.
  pose proof (Z.mod_pos_bound b 256 ltac:(lia)) as Hb. destruct keep.
  - change 255 with (Z.ones 8).
    rewrite Z.land_ones by lia. change (2 ^ 8) with 256.
    assert (E : Z.land (b mod 256) (Z.lnot (Z.ones 8)) = 0).
    { change 256 with (2 ^ 8). rewrite <- Z.land_ones by lia.
      rewrite <- Z.land_assoc, Z.land_lnot_diag. apply Z.land_0_r. }
    rewrite E. change (0 mod 256) with 0. rewrite Z.lor_0_r, !Z.mod_mod by lia. reflexivity.
  - rewrite Z.land_0_r. change (0 mod 256) with 0. change (Z.lnot 0) with (-1).
    rewrite Z.land_m1_r, Z.lor_0_l, !Z.mod_mod by lia. reflexivity.
Qed.

Lemma merge_field (n : nat) (c x : Z) (keep : bool) :
  merge_bytes (le_bytes n c) (le_bytes n x) (le_bytes n (if keep then -1 else 0)) =
  le_bytes n (if keep then c else x).
Proof.
  revert c x. induction n as [|n IH]; intros c x; [reflexivity|].
  specialize (IH (c / 256) (x / 256)). unfold merge_bytes in *. cbn [le_bytes zip_with].
  replace ((if keep then -1 else 0) / 256) with (if keep then -1 else 0)
    by (destruct keep; reflexivity).
  replace ((if keep then -1 else 0) mod 256) with (if keep then 255 else 0)
    by (destruct keep; reflexivity).
  rewrite IH, (merge_byte c x keep). destruct keep; reflexivity.
Qed.

(** All fields: size, current value, new value, kept or not. *)
Lemma merge_fields (fs : list (nat * Z * Z * bool)) :
  let pick (g : Z -> Z -> bool -> Z) :=
    fields_bytes (map (fun '(n, c, x, k) => (n, g c x k)) fs) in
  merge_bytes (pick (fun c _ _ => c)) (pick (fun _ x _ => x))
    (pick (fun _ _ k => if k then -1 else 0)) =
  pick (fun c x (k : bool) => if k then c else x).
Proof.
  cbv zeta. unfold fields_bytes. induction fs as [|[[[n c] x] k] fs IH]; [reflexivity|].
  cbn [map concat fst snd]. rewrite merge_bytes_app by now rewrite !le_bytes_length.
  rewrite IH, merge_field. reflexivity.
Qed.

(** The record's fields side by side, with the mask of [sam_usemask]. *)
Definition field_table (cur new : sam_dquot) : list (nat * Z * Z * bool) :=
  zip_with (fun cx k => (cx, k))
    (zip_with (fun c x => (c, snd x)) (dquot_fields cur) (dquot_fields new))
    (map (fun f => negb (snd f =? 0)) (dquot_fields sam_usemask)).

Lemma dquot_bytes_length (d : sam_dquot) : length (dquot_bytes d) = 128%nat.
Proof. reflexivity. Qed.

Lemma put_merge_bytes (cur new : sam_dquot) :
  put_merge cur new = dquot_of_bytes (dquot_bytes (take_limits cur new)).
Proof.
  unfold put_merge. cbv zeta. f_equal.
  rewrite dquot_bytes_length.
  rewrite <- (dquot_bytes_length cur) at 1. rewrite b_log_AND_zip by reflexivity.
  rewrite <- (dquot_bytes_length new) at 1. rewrite b_log_CAND_zip by reflexivity.
  set (a := zip_with _ (dquot_bytes cur) _). set (b := zip_with _ (dquot_bytes new) _).
  replace 128%nat with (length a) by (unfold a; rewrite length_zip_with; reflexivity).
  rewrite b_log_OR_zip by (unfold a, b; rewrite !length_zip_with; reflexivity).
  unfold a, b. exact (merge_fields (field_table cur new)).
Qed.

Lemma take_limits_typed (cur new : sam_dquot) :
  dquot_typed cur -> dquot_typed new -> dquot_typed (take_limits cur new).
Proof.
  unfold dquot_typed, dquot_fields. rewrite !Forall_cons. cbn [fst snd].
  intros Hc Hn. decompose [and] Hc. decompose [and] Hn. clear Hc Hn.
  repeat match goal with |- _ /\ _ => split end; (assumption || constructor).
Qed.

Lemma put_merge_run (cur new : sam_dquot) :
  dquot_typed cur -> dquot_typed new -> put_merge cur new = take_limits cur new.
Proof.
  intros Hc Hn. rewrite put_merge_bytes.
  apply dquot_bytes_roundtrip, take_limits_typed; assumption.
Qed.

(** C34. The byte loops under [sam_usemask] do what their comment says: setting a
    quota record takes the limits and grace periods of the new record and keeps
    the counts, the timers and the unused words of the current one. *)
Theorem put_merge_take_limits (cur new : sam_dquot) :
  dquot_typed cur -> dquot_typed new -> put_merge cur new = take_limits cur new.
Proof. apply put_merge_run. Qed.

Lemma put_merge_take_limits_witness :
  put_merge (charge_files 3 4 (charge_blocks 16 (-24) zero_dquot))
    (set_ol_enforce 5 (charge_files 7 7 zero_dquot)) =
  take_limits (charge_files 3 4 (charge_blocks 16 (-24) zero_dquot))
    (set_ol_enforce 5 (charge_files 7 7 zero_dquot)).
Proof.
  apply put_merge_take_limits; unfold dquot_typed, dquot_fields;
    repeat constructor; vm_compute; congruence.
Defined.
