(* ===== verification/QuotaCache.v ===== *)
(** * The quota cache: state and operations

    Quota records are cached in core as [sam_quot] structures, found through a
    hash table, referenced from the inodes that use them, and reclaimed from an
    available list when they have been idle for a while
    (src/src/fs/samfs/cquota.c, from [sam_quot_get] on). The structures, their
    links, locks and reference counts are modelled as the code has them, in a heap
    of structures. One thread runs at a time: a mutex is a boolean, and entering a
    mutex that is held is the fault [SelfDeadlock]. *)

From S2P Require Import Prelude QuotaRec QuotaBytes Monad.

(** ** What the cache needs from the rest of the file system

    Reading and writing the quota files, and the messages of a shared client to its
    server, act on a state [E]. A record has an index; the byte offset is the index
    times the size of a record. *)
Class QuotaEnv (E : Type) : Type := {
  (** [ip->di.rm.size] of a quota file *)
  qf_size : E -> addr -> Z;
  (** [sam_read_vn] of one record: error and the contents of the buffer, which the
      last argument gives before the read *)
  sam_read_vn : E -> addr -> Z -> sam_dquot -> Z * sam_dquot;
  (** [sam_write_vn] of one record *)
  sam_write_vn : E -> addr -> Z -> sam_dquot -> Z * E;
  (** [sam_proc_block(BLOCK_quota)]: the server fills the buffer *)
  client_get_quota : E -> Z -> Z -> sam_dquot -> Z * sam_dquot;
  (** [sam_proc_inode(INODE_putquota)] *)
  client_put_quota : E -> addr -> sam_dquot -> Z -> Z -> Z -> Z * E
}.

Definition sizeof_dquot : Z := 128.

(** ** Inodes *)

(** A quota pointer of an inode: not looked up yet, known not to apply, or a
    structure. *)
Inductive qptr : Type := QNULL | NODQUOT | QP (a : addr).
#[export] Instance qptr_eq_dec : EqDecision qptr.
Proof. solve_decision. Defined.

(** The fields of an in-core inode that quotas look at. *)
Record sam_node : Type := mk_node {
  seg_file : bool;              (* status.b.seg_file: a segment index *)
  seg_ino : bool;               (* status.b.seg_ino: a data segment *)
  segment_ip : addr;            (* the index inode of a data segment *)
  offline : bool;               (* status.b.offline *)
  nodrop : bool;                (* status.b.nodrop *)
  segment : bool;               (* status.b.segment *)
  di_reg : bool;                (* S_ISREG(di.mode) *)
  di_uid : Z;
  di_gid : Z;
  di_admin_id : Z;
  di_nlink : Z;
  di_blocks : Z;
  di_rm_size : Z;
  di_version : Z;
  di_ino : Z;
  di2_projid : Z;
  di2_p2flags : Z;
  bquota : list qptr            (* SAM_QUOTA_DEFD pointers *)
}.

Definition set_bquota (v : list qptr) (n : sam_node) : sam_node :=
  mk_node (seg_file n) (seg_ino n) (segment_ip n) (offline n) (nodrop n) (segment n) (di_reg n) (di_uid n)
    (di_gid n) (di_admin_id n) (di_nlink n) (di_blocks n) (di_rm_size n) (di_version n)
    (di_ino n) (di2_projid n) (di2_p2flags n) v.

Definition SAM_QUOTA_ADMIN : Z := 0.
Definition SAM_QUOTA_GROUP : Z := 1.
Definition SAM_QUOTA_USER : Z := 2.
Definition SAM_QUOTA_DEFD : Z := 3.
Definition quota_kinds : list Z := [SAM_QUOTA_ADMIN; SAM_QUOTA_GROUP; SAM_QUOTA_USER].

(** [ip->bquota[t]] *)
Definition bq (n : sam_node) (t : Z) : qptr := default QNULL (bquota n !! Z.to_nat t).

(** The index of an inode's record for each type, [None] for a bad type. User and
    group ids are unsigned ([SOL_11_ABOVE]: [GTE_ZERO(a)] is [a]) and are returned
    as an [int]. *)
Definition index_di (n : sam_node) (type : Z) : option Z :=
  if type =? SAM_QUOTA_ADMIN then Some (Z.max (-1) (di_admin_id n))
  else if type =? SAM_QUOTA_GROUP then Some (s32 (di_gid n))
  else if type =? SAM_QUOTA_USER then Some (s32 (di_uid n))
  else None.

(** ** The mount and the machine *)

Definition MT_SAM_ENABLED : Z := 0x4.
Definition MT_QUOTA : Z := 0x2000.
Definition SAM_QUOTA_HASH_SIZE : Z := 128.
Definition SAM_QUOTA_EXPIRE : Z := 120.
Definition SAM_QUOTA_NALLOC : nat := 8.

Record mount : Type := mk_mount {
  fi_config : Z;
  fs_client : bool;             (* fi_status & FS_CLIENT *)
  m_quota_ip : list (option addr);
  m_quota_hash : option (list (option addr));
  m_quota_avail : option addr;
  m_quota_hashlock : bool;
  m_quota_availlock : bool
}.

(** Messages of [cmn_err]. *)
Inductive cmsg : Type :=
  | UnexpectedQuotaPointer | ReadFailedZeroed (err : Z) | ShutdownAdjustment
  | WriteError (err : Z) | AllocationLoop | NotOnHashList | ReadError (err : Z)
  | NegativeIndex | BadQuotaType | MixedSigns | ErrorReturning (t : Z)
  | QuotaFileDisabled | MarkingNoRelease | LookupFailure (err : Z)
  | DirtyAtDone | LockTaken | RefCountNotZero | HaltError | PointerAfterFlush
  | InodeStillUsed.

Record kstate (E : Type) : Type := mk_kstate {
  mp : mount;
  heap : gmap addr sam_quot;    (* kmem: the allocated sam_quot structures *)
  brk : addr;                   (* the next address kmem_zalloc returns *)
  nodes : gmap addr sam_node;
  env : E;
  now : Z;                      (* SAM_SECOND() *)
  console : list cmsg;          (* cmn_err, latest first *)
  terminal : list qmsg          (* uprintf to the user, latest last *)
}.
Arguments mk_kstate {E}. Arguments mp {E}. Arguments heap {E}. Arguments brk {E}.
Arguments nodes {E}. Arguments env {E}. Arguments now {E}. Arguments console {E}.
Arguments terminal {E}.

(** ** Field updates *)

Definition set_lock (v : bool) (q : sam_quot) : sam_quot :=
  mk_quot (qt_vp q) (qt_flags q) (qt_ref q) (qt_type q) (qt_index q) (qt_lastref q) v
    (qt_hash_next q) (qt_avail_next q) (qt_avail_prev q) (qt_dent q).
Definition set_ref (v : Z) (q : sam_quot) : sam_quot :=
  mk_quot (qt_vp q) (qt_flags q) v (qt_type q) (qt_index q) (qt_lastref q) (qt_lock q)
    (qt_hash_next q) (qt_avail_next q) (qt_avail_prev q) (qt_dent q).
Definition set_key (vp : addr) (t i : Z) (q : sam_quot) : sam_quot :=
  mk_quot vp (qt_flags q) (qt_ref q) t i (qt_lastref q) (qt_lock q)
    (qt_hash_next q) (qt_avail_next q) (qt_avail_prev q) (qt_dent q).
Definition set_hash_next (v : option addr) (q : sam_quot) : sam_quot :=
  mk_quot (qt_vp q) (qt_flags q) (qt_ref q) (qt_type q) (qt_index q) (qt_lastref q)
    (qt_lock q) v (qt_avail_next q) (qt_avail_prev q) (qt_dent q).
Definition set_avail_next (v : option addr) (q : sam_quot) : sam_quot :=
  mk_quot (qt_vp q) (qt_flags q) (qt_ref q) (qt_type q) (qt_index q) (qt_lastref q)
    (qt_lock q) (qt_hash_next q) v (qt_avail_prev q) (qt_dent q).
Definition set_avail_prev (v : option addr) (q : sam_quot) : sam_quot :=
  mk_quot (qt_vp q) (qt_flags q) (qt_ref q) (qt_type q) (qt_index q) (qt_lastref q)
    (qt_lock q) (qt_hash_next q) (qt_avail_next q) v (qt_dent q).

(** [kmem_zalloc] *)
Definition zero_quot : sam_quot := mk_quot 0%nat 0 0 0 0 0 false None None None zero_dquot.

Definition set_m_hash (v : option (list (option addr))) (m : mount) : mount :=
  mk_mount (fi_config m) (fs_client m) (m_quota_ip m) v (m_quota_avail m)
    (m_quota_hashlock m) (m_quota_availlock m).
Definition set_m_avail (v : option addr) (m : mount) : mount :=
  mk_mount (fi_config m) (fs_client m) (m_quota_ip m) (m_quota_hash m) v
    (m_quota_hashlock m) (m_quota_availlock m).
Definition set_m_hashlock (v : bool) (m : mount) : mount :=
  mk_mount (fi_config m) (fs_client m) (m_quota_ip m) (m_quota_hash m) (m_quota_avail m)
    v (m_quota_availlock m).
Definition set_m_availlock (v : bool) (m : mount) : mount :=
  mk_mount (fi_config m) (fs_client m) (m_quota_ip m) (m_quota_hash m) (m_quota_avail m)
    (m_quota_hashlock m) v.
Definition set_m_quota_ip (v : list (option addr)) (m : mount) : mount :=
  mk_mount (fi_config m) (fs_client m) v (m_quota_hash m) (m_quota_avail m)
    (m_quota_hashlock m) (m_quota_availlock m).
Definition set_m_config (v : Z) (m : mount) : mount :=
  mk_mount v (fs_client m) (m_quota_ip m) (m_quota_hash m) (m_quota_avail m)
    (m_quota_hashlock m) (m_quota_availlock m).

Section Updates.
Context {E : Type}.
Definition upd_mp (f : mount -> mount) (s : kstate E) : kstate E :=
  mk_kstate (f (mp s)) (heap s) (brk s) (nodes s) (env s) (now s) (console s) (terminal s).
Definition upd_heap (f : gmap addr sam_quot -> gmap addr sam_quot) (s : kstate E) : kstate E :=
  mk_kstate (mp s) (f (heap s)) (brk s) (nodes s) (env s) (now s) (console s) (terminal s).
Definition set_brk (v : addr) (s : kstate E) : kstate E :=
  mk_kstate (mp s) (heap s) v (nodes s) (env s) (now s) (console s) (terminal s).
Definition upd_nodes (f : gmap addr sam_node -> gmap addr sam_node) (s : kstate E) : kstate E :=
  mk_kstate (mp s) (heap s) (brk s) (f (nodes s)) (env s) (now s) (console s) (terminal s).
Definition set_env (v : E) (s : kstate E) : kstate E :=
  mk_kstate (mp s) (heap s) (brk s) (nodes s) v (now s) (console s) (terminal s).
Definition log (m : cmsg) (s : kstate E) : kstate E :=
  mk_kstate (mp s) (heap s) (brk s) (nodes s) (env s) (now s) (m :: console s) (terminal s).
Definition say (m : list qmsg) (s : kstate E) : kstate E :=
  mk_kstate (mp s) (heap s) (brk s) (nodes s) (env s) (now s) (console s) (terminal s ++ m).
End Updates.

(** [(m_quota_ip)[t]] *)
Definition quota_ip {E : Type} (s : kstate E) (t : Z) : option addr :=
  match m_quota_ip (mp s) !! Z.to_nat t with Some (Some ip) => Some ip | _ => None end.

Definition sam_enabled {E : Type} (s : kstate E) : bool := has_any (fi_config (mp s)) MT_SAM_ENABLED.
Definition quota_on {E : Type} (s : kstate E) : bool := has_any (fi_config (mp s)) MT_QUOTA.

(** ** Memory and locks *)

Section Cache.
Context {E : Type} `{QuotaEnv E}.
Abbreviation K := (M (kstate E)).

Definition cmn_err (m : cmsg) : K unit := modify (log m).

Definition get_q (a : addr) : K sam_quot :=
  fun s => match heap s !! a with Some q => Done q s | None => Fault WildPointer end.
Definition mod_q (a : addr) (f : sam_quot -> sam_quot) : K unit :=
  fun s => match heap s !! a with
           | Some _ => Done tt (upd_heap (alter f a) s)
           | None => Fault WildPointer
           end.
(** [KMA(sizeof (struct sam_quot))] *)
Definition kma : K addr :=
  fun s => let a := brk s in
           Done a (set_brk (S a) (upd_heap (<[a := zero_quot]>) s)).
(** [KMF]; the memory is gone. *)
Definition kmf (a : addr) : K unit :=
  fun s => match heap s !! a with
           | Some _ => Done tt (upd_heap (delete a) s)
           | None => Fault WildPointer
           end.

Definition get_node (ip : addr) : K sam_node :=
  fun s => match nodes s !! ip with Some n => Done n s | None => Fault WildPointer end.
Definition set_bq (ip : addr) (t : Z) (v : qptr) : K unit :=
  fun s => match nodes s !! ip with
           | Some _ =>
               Done tt (upd_nodes (alter (fun n => set_bquota (<[Z.to_nat t := v]> (bquota n)) n) ip) s)
           | None => Fault WildPointer
           end.

Definition mutex_enter (a : addr) : K unit :=
  q ← get_q a;
  if qt_lock q then fail SelfDeadlock else mod_q a (set_lock true).
Definition mutex_exit (a : addr) : K unit := mod_q a (set_lock false).
Definition mutex_tryenter (a : addr) : K bool :=
  q ← get_q a;
  if qt_lock q then mret false else (mod_q a (set_lock true);; mret true).
Definition hash_enter : K unit :=
  l ← gets (fun s => m_quota_hashlock (mp s));
  if (l : bool) then fail SelfDeadlock else modify (upd_mp (set_m_hashlock true)).
Definition hash_exit : K unit := modify (upd_mp (set_m_hashlock false)).
Definition avail_enter : K unit :=
  l ← gets (fun s => m_quota_availlock (mp s));
  if (l : bool) then fail SelfDeadlock else modify (upd_mp (set_m_availlock true)).
Definition avail_exit : K unit := modify (upd_mp (set_m_availlock false)).

Definition assert_held (a : addr) : K unit := q ← get_q a; assert (qt_lock q).
Definition assert_flag (a : addr) (m : Z) (v : bool) : K unit :=
  q ← get_q a; assert (Bool.eqb (has_any (qt_flags q) m) v).
Definition assert_ref (a : addr) (p : Z -> bool) : K unit := q ← get_q a; assert (p (qt_ref q)).
Definition assert_availlock : K unit :=
  l ← gets (fun s => m_quota_availlock (mp s)); assert l.
Definition assert_hashlock : K unit :=
  l ← gets (fun s => m_quota_hashlock (mp s)); assert l.
Definition assert_not_client : K unit := c ← gets (fun s => fs_client (mp s)); assert (negb c).

(** ** Indexes *)

Definition sam_quota_get_index_di (n : sam_node) (type : Z) : K Z :=
  match index_di n type with
  | Some i => mret i
  | None => cmn_err BadQuotaType;; mret (-1)
  end.

Definition sam_quota_get_index (ip : addr) (type : Z) : K Z :=
  n ← get_node ip;
  m ← (if seg_ino n then get_node (segment_ip n) else mret n);
  sam_quota_get_index_di m type.

(** ** The available list *)

Definition sam_quot_unfree (dqp : addr) : K unit :=
  assert_availlock;;
  assert_held dqp;;
  assert_flag dqp SAM_QF_ANCHOR false;;
  assert_flag dqp SAM_QF_AVAIL true;;
  assert_ref dqp (Z.eqb 0);;
  q ← get_q dqp; n ← deref (qt_avail_next q);
  mod_q n (set_avail_prev (qt_avail_prev q));;
  q ← get_q dqp; p ← deref (qt_avail_prev q);
  mod_q p (set_avail_next (qt_avail_next q));;
  mod_q dqp (set_avail_next None);;
  mod_q dqp (set_avail_prev None);;
  mod_q dqp (clear_flags SAM_QF_AVAIL).

(** [dqp->next->prev = dqp; dqp->prev->next = dqp] *)
Definition link_in (dqp : addr) : K unit :=
  q ← get_q dqp; n ← deref (qt_avail_next q); mod_q n (set_avail_prev (Some dqp));;
  q ← get_q dqp; p ← deref (qt_avail_prev q); mod_q p (set_avail_next (Some dqp)).

Definition sam_quot_free2back (dqp : addr) : K unit :=
  assert_held dqp;;
  assert_flag dqp SAM_QF_ANCHOR false;;
  assert_flag dqp SAM_QF_AVAIL false;;
  assert_ref dqp (Z.eqb 0);;
  avail_enter;;
  av ← gets (fun s => m_quota_avail (mp s)); an ← deref av;
  mod_q dqp (set_avail_next (Some an));;
  aq ← get_q an;
  mod_q dqp (set_avail_prev (qt_avail_prev aq));;
  link_in dqp;;
  t ← gets now;
  mod_q dqp (set_lastref t);;
  mod_q dqp (or_flags SAM_QF_AVAIL);;
  avail_exit.

Definition sam_quot_free2front (dqp : addr) : K unit :=
  assert_held dqp;;
  assert_flag dqp SAM_QF_ANCHOR false;;
  assert_flag dqp SAM_QF_AVAIL false;;
  assert_ref dqp (Z.eqb 0);;
  avail_enter;;
  av ← gets (fun s => m_quota_avail (mp s)); an ← deref av;
  aq ← get_q an;
  mod_q dqp (set_avail_next (qt_avail_next aq));;
  mod_q dqp (set_avail_prev (Some an));;
  link_in dqp;;
  t ← gets now;
  mod_q dqp (set_lastref (t - SAM_QUOTA_EXPIRE - 1));;
  mod_q dqp (or_flags SAM_QF_AVAIL);;
  avail_exit.

(** ** The hash table *)

Definition hash_slot (index : Z) : nat := Z.to_nat (index mod SAM_QUOTA_HASH_SIZE).

(** [m_quota_hash[index%SAM_QUOTA_HASH_SIZE]] *)
Definition hash_head (index : Z) : K (option addr) :=
  h ← gets (fun s => m_quota_hash (mp s)); t ← deref h; deref (t !! hash_slot index).
Definition set_hash_head (index : Z) (v : option addr) : K unit :=
  h ← gets (fun s => m_quota_hash (mp s)); t ← deref h;
  modify (upd_mp (set_m_hash (Some (<[hash_slot index := v]> t)))).

(** [while (qp) { if (match) break; qp = qp->qt_hash.next; }] *)
Fixpoint hash_walk (fuel : nat) (qp : option addr) (type index : Z) : K (option addr) :=
  match fuel, qp with
  | _, None => mret None
  | O, Some _ => fail OutOfFuel
  | S fuel', Some a =>
      q ← get_q a;
      if (qt_index q =? index) && (qt_type q =? type) then mret (Some a)
      else hash_walk fuel' (qt_hash_next q) type index
  end.
(** A chain has each structure at most once. *)
Definition chain_fuel (s : kstate E) : nat := size (heap s).

(** [hqp] points to the head of the chain or to a [next] field. *)
Inductive hash_ref : Type := AtHead | AtNext (a : addr).
Definition read_ref (index : Z) (r : hash_ref) : K (option addr) :=
  match r with AtHead => hash_head index | AtNext a => q ← get_q a; mret (qt_hash_next q) end.
Definition write_ref (index : Z) (r : hash_ref) (v : option addr) : K unit :=
  match r with AtHead => set_hash_head index v | AtNext a => mod_q a (set_hash_next v) end.
(** [while ( *hqp != NULL && *hqp != dqp) hqp = &( *hqp)->qt_hash.next] *)
Fixpoint unhash_walk (fuel : nat) (index : Z) (r : hash_ref) (dqp : addr) : K hash_ref :=
  v ← read_ref index r;
  match v with
  | None => mret r
  | Some a =>
      if decide (a = dqp) then mret r
      else match fuel with
           | O => fail OutOfFuel
           | S fuel' => unhash_walk fuel' index (AtNext a) dqp
           end
  end.

Definition sam_quot_unhash (dqp : addr) : K unit :=
  assert_hashlock;;
  assert_held dqp;;
  assert_ref dqp (Z.eqb 0);;
  q ← get_q dqp;
  if negb (has_any (qt_flags q) SAM_QF_HASHED) then mret tt
  else
    fuel ← gets chain_fuel;
    r ← unhash_walk fuel (qt_index q) AtHead dqp;
    v ← read_ref (qt_index q) r;
    when (bool_decide (v = None)) (cmn_err NotOnHashList);;
    q' ← get_q dqp;
    write_ref (qt_index q) r (qt_hash_next q');;
    mod_q dqp (clear_flags SAM_QF_HASHED).

(** ** Reclaiming and allocating *)

Definition sam_quot_getfront : K (option addr) :=
  avail_enter;;
  av ← gets (fun s => m_quota_avail (mp s)); an ← deref av; aq ← get_q an;
  r ← deref (qt_avail_next aq); rq ← get_q r;
  if has_any (qt_flags rq) SAM_QF_ANCHOR then (avail_exit;; mret None)
  else
    ok ← mutex_tryenter r;
    avail ← (if (ok : bool) then mret true
             else
               avail_exit;; mutex_enter r;; avail_enter;;
               q ← get_q r;
               if has_any (qt_flags q) SAM_QF_AVAIL then mret true
               else (mutex_exit r;; mret false));
    if negb avail then (avail_exit;; mret None)
    else
      q ← get_q r; t ← gets now;
      if has_any (qt_flags q) (Z.lor SAM_QF_BUSY SAM_QF_DIRTY) ||
         (t <? qt_lastref q + SAM_QUOTA_EXPIRE)
      then (mutex_exit r;; avail_exit;; mret None)
      else (sam_quot_unfree r;; avail_exit;; mret (Some r)).

(** One structure of the batch. *)
Definition alloc_one : K unit :=
  qp ← kma; mutex_enter qp;; sam_quot_free2front qp;; mutex_exit qp.

Fixpoint alloc_loop (n : nat) : K unit :=
  match n with O => mret tt | S n' => alloc_one;; alloc_loop n' end.

(** The endless loop; [n] counts its turns. *)
Fixpoint getfree_loop (fuel : nat) (n : Z) : K addr :=
  match fuel with
  | O => fail OutOfFuel
  | S fuel' =>
      r ← sam_quot_getfront;
      match r with
      | Some qp => sam_quot_unhash qp;; mret qp
      | None =>
          alloc_loop SAM_QUOTA_NALLOC;;
          when ((n + 1) mod 3 =? 0) (cmn_err AllocationLoop);;
          getfree_loop fuel' (n + 1)
      end
  end.
(** The second turn finds one of the structures that the first one allocated. *)
Definition sam_quot_getfree : K addr := assert_hashlock;; getfree_loop 2 0.

(** ** Reference counts *)

Definition sam_quot_hold (qp : addr) : K unit :=
  assert_held qp;;
  assert_flag qp SAM_QF_AVAIL false;;
  assert_ref qp (Z.leb 0);;
  q ← get_q qp; mod_q qp (set_ref (s32 (qt_ref q + 1))).

Definition sam_quot_unhold (qp : addr) : K unit :=
  assert_held qp;;
  assert_flag qp SAM_QF_AVAIL false;;
  assert_ref qp (Z.leb 1);;
  q ← get_q qp; mod_q qp (set_ref (s32 (qt_ref q - 1))).

(** ** The quota files *)

(** [read_default]: the record of index 0 with its counts and timers cleared. *)
Definition clear_usage (d : sam_dquot) : sam_dquot :=
  set_tot_enforce 0 (set_ol_enforce 0 (set_ftotused 0 (set_folused 0
    (set_btotused 0 (set_bolused 0 d))))).

Definition read_default (ip : addr) (dq : sam_dquot) : K (Z * sam_dquot) :=
  e ← gets env;
  let '(error, d) := sam_read_vn e ip 0 dq in
  if negb (error =? 0) then (cmn_err (ReadError error);; mret (error, d))
  else mret (error, clear_usage d).

(** [sam_quota_read_entry]; the buffer [*dqp] is passed and returned. *)
Definition sam_quota_read_entry (ip : addr) (dq : sam_dquot) (index : Z) : K (Z * sam_dquot) :=
  c ← gets (fun s => fs_client (mp s));
  if (c : bool) then mret (EREMOTE, dq)
  else
    e ← gets env;
    if qf_size e ip <=? index * sizeof_dquot then read_default ip dq
    else
      let '(error, d) := sam_read_vn e ip index dq in
      if negb (error =? 0) then (cmn_err (ReadError error);; mret (error, d))
      else if sam_zerocmp (dquot_bytes d) then read_default ip d
      else mret (error, d).

Definition set_dent (d : sam_dquot) : sam_quot -> sam_quot := upd_dent (fun _ => d).

Definition sam_quota_read (qp : addr) : K Z :=
  assert_held qp;;
  q ← get_q qp;
  if qt_index q <? 0 then
    cmn_err NegativeIndex;; mod_q qp (set_dent zero_dquot);; mret EINVAL
  else
    mod_q qp (or_flags SAM_QF_BUSY);;
    '(error, d) ← sam_quota_read_entry (qt_vp q) (qt_dent q) (qt_index q);
    mod_q qp (set_dent d);;
    mod_q qp (clear_flags SAM_QF_BUSY);;
    mret error.

Definition sam_quota_flush (qp : addr) : K Z :=
  assert_held qp;;
  q ← get_q qp;
  if negb (has_any (qt_flags q) SAM_QF_DIRTY) then mret 0
  else if has_any (qt_flags q) SAM_QF_BUSY then mret 0
  else
    qip ← gets (fun s => quota_ip s (qt_type q));
    if bool_decide (qip = None) then (cmn_err ShutdownAdjustment;; mret ENXIO)
    else
      assert_not_client;;
      mod_q qp (or_flags SAM_QF_BUSY);;
      mod_q qp (clear_flags SAM_QF_DIRTY);;
      e ← gets env;
      let '(error, e') := sam_write_vn e (qt_vp q) (qt_index q) (qt_dent q) in
      modify (set_env e');;
      when (negb (error =? 0)) (cmn_err (WriteError error));;
      mod_q qp (clear_flags SAM_QF_BUSY);;
      mret error.

Definition sam_quot_rel (qp : addr) : K unit :=
  assert_held qp;;
  sam_quota_flush qp;;
  q ← get_q qp;
  when (qt_ref q =? 0) (sam_quot_free2back qp);;
  mutex_exit qp.

(** ** Getting a structure *)

(** [if (ip != NULL && ip->bquota[type] == NULL) { hold; ip->bquota[type] = qp; }] *)
Definition attach (ip : option addr) (type : Z) (qp : addr) : K unit :=
  match ip with
  | None => mret tt
  | Some p =>
      n ← get_node p;
      if decide (bq n type = QNULL) then (sam_quot_hold qp;; set_bq p type (QP qp))
      else mret tt
  end.

(** Taking a locked structure off the available list, if it is on it. *)
Definition unpark (qp : addr) : K unit :=
  avail_enter;;
  q ← get_q qp;
  when (has_any (qt_flags q) SAM_QF_AVAIL) (sam_quot_unfree qp);;
  avail_exit.

(** The end of [sam_quot_get] for a structure that was found: [out_wo_hash]. *)
Definition got_entry (ip : option addr) (type : Z) (qp : addr) : K (option addr) :=
  unpark qp;; attach ip type qp;; mret (Some qp).

(** The key, flags and hash link of a new entry, up to the release of the lock. *)
Definition key_in (qp : addr) (type index : Z) : K unit :=
  qip ← gets (fun s => quota_ip s type); vp ← deref qip;
  mod_q qp (set_key vp type index);;
  mod_q qp (set_ref 0);;
  mod_q qp (set_flags 0);;
  t ← gets now;
  mod_q qp (set_lastref t);;
  hd ← hash_head index;
  mod_q qp (set_hash_next hd);;
  set_hash_head index (Some qp);;
  mod_q qp (or_flags SAM_QF_HASHED);;
  hash_exit.

(** ... and for a new one. *)
Definition new_entry (ip : option addr) (type index : Z) : K (option addr) :=
  qp ← sam_quot_getfree;
  assert_held qp;;
  key_in qp type index;;
  error ← sam_quota_read qp;
  when (negb (error =? 0))
    (cmn_err (ReadFailedZeroed error);; mod_q qp (set_dent zero_dquot));;
  attach ip type qp;;
  mret (Some qp).

(** From the label [again]. *)
Fixpoint quot_search (fuel : nat) (ip : option addr) (type index : Z) : K (option addr) :=
  match fuel with
  | O => fail OutOfFuel
  | S fuel' =>
      hash_enter;;
      hd ← hash_head index; wf ← gets chain_fuel;
      found ← hash_walk wf hd type index;
      match found with
      | Some qp =>
          ok ← mutex_tryenter qp;
          if (ok : bool) then (hash_exit;; got_entry ip type qp)
          else
            hash_exit;; mutex_enter qp;;
            q ← get_q qp;
            if negb (qt_index q =? index) || negb (qt_type q =? type)
            then (mutex_exit qp;; quot_search fuel' ip type index)
            else got_entry ip type qp
      | None => new_entry ip type index
      end
  end.

(** [ip] after [if (ip != NULL && S_ISSEGS(&ip->di)) ip = ip->segment_ip] *)
Definition base_ip (ip : option addr) : K (option addr) :=
  match ip with
  | None => mret None
  | Some p => n ← get_node p; mret (Some (if seg_ino n then segment_ip n else p))
  end.
Definition ip_bq (ip : option addr) (type : Z) : K qptr :=
  match ip with None => mret QNULL | Some p => n ← get_node p; mret (bq n type) end.
Definition set_ip_bq (ip : option addr) (type : Z) (v : qptr) : K unit :=
  match ip with None => mret tt | Some p => set_bq p type v end.

(** With one thread, [goto again] is never taken. *)
Definition again_fuel : nat := 1.

Definition sam_quot_get (ip0 : option addr) (type index : Z) : K (option addr) :=
  if (type <? 0) || (SAM_QUOTA_DEFD <=? type) then mret None
  else
    ip ← base_ip ip0;
    b ← ip_bq ip type;
    if decide (b = NODQUOT) then mret None
    else
      qip ← gets (fun s => quota_ip s type);
      if (index <? 0) || bool_decide (qip = None)
      then (set_ip_bq ip type NODQUOT;; mret None)
      else
        match b with
        | QP qp =>
            mutex_enter qp;;
            q ← get_q qp;
            if (type =? qt_type q) && (index =? qt_index q) then mret (Some qp)
            else
              cmn_err UnexpectedQuotaPointer;;
              sam_quot_unhold qp;;
              set_ip_bq ip type QNULL;;
              sam_quot_rel qp;;
              quot_search again_fuel ip type index
        | _ => quot_search again_fuel ip type index
        end.
End Cache.
