(* ===== verification/QuotaLinks.v ===== *)
(** * The quota cache: pointers refine lists

    The available list and the hash chains of the cache as lists of addresses.
    [repr] relates a heap of linked structures to these lists and to the structures
    without their links; the lemmas say what each pointer manipulation of
    src/src/fs/samfs/cquota.c does to the lists. *)

From S2P Require Import Prelude DList QuotaRec QuotaBytes Monad QuotaCache.

(** ** Structures without their links *)

Definition core (q : sam_quot) : sam_quot :=
  set_hash_next None (set_avail_next None (set_avail_prev None q)).

Definition nx (h : gmap addr sam_quot) (a : addr) : option addr := h !! a ≫= qt_avail_next.
Definition pv (h : gmap addr sam_quot) (a : addr) : option addr := h !! a ≫= qt_avail_prev.
Definition hn (h : gmap addr sam_quot) (a : addr) : option addr := h !! a ≫= qt_hash_next.

(** An update of a structure that leaves its links alone. *)
Record keeps_links (f : sam_quot -> sam_quot) : Prop := mk_keeps_links {
  kl_core : forall q, core (f q) = f (core q);
  kl_nx : forall q, qt_avail_next (f q) = qt_avail_next q;
  kl_pv : forall q, qt_avail_prev (f q) = qt_avail_prev q;
  kl_hn : forall q, qt_hash_next (f q) = qt_hash_next q
}.

Lemma keeps_links_compose f g : keeps_links f -> keeps_links g -> keeps_links (fun q => f (g q)).
Proof. intros [] []. constructor; intros; congruence. Qed.

Create HintDb qlinks.
#[export] Hint Extern 1 (keeps_links _) => constructor; reflexivity : qlinks.

Section Alter.
Implicit Types (h : gmap addr sam_quot) (a b : addr).

Lemma nx_alter_same f h a b :
  (forall q, qt_avail_next (f q) = qt_avail_next q) -> nx (alter f a h) b = nx h b.
Proof.
  intros Hf. unfold nx. destruct (decide (a = b)) as [->|Hne].
  - rewrite lookup_alter_eq. destruct (h !! b); cbn; auto.
  - now rewrite lookup_alter_ne.
Qed.
Lemma pv_alter_same f h a b :
  (forall q, qt_avail_prev (f q) = qt_avail_prev q) -> pv (alter f a h) b = pv h b.
Proof.
  intros Hf. unfold pv. destruct (decide (a = b)) as [->|Hne].
  - rewrite lookup_alter_eq. destruct (h !! b); cbn; auto.
  - now rewrite lookup_alter_ne.
Qed.
Lemma hn_alter_same f h a b :
  (forall q, qt_hash_next (f q) = qt_hash_next q) -> hn (alter f a h) b = hn h b.
Proof.
  intros Hf. unfold hn. destruct (decide (a = b)) as [->|Hne].
  - rewrite lookup_alter_eq. destruct (h !! b); cbn; auto.
  - now rewrite lookup_alter_ne.
Qed.

Lemma nx_alter_set v h a b :
  is_Some (h !! a) -> nx (alter (set_avail_next v) a h) b = relink (nx h) a v b.
Proof.
  intros [q Hq]. unfold nx, relink. destruct (decide (b = a)) as [->|Hne].
  - now rewrite lookup_alter_eq, Hq.
  - now rewrite lookup_alter_ne by congruence.
Qed.
Lemma pv_alter_set v h a b :
  is_Some (h !! a) -> pv (alter (set_avail_prev v) a h) b = relink (pv h) a v b.
Proof.
  intros [q Hq]. unfold pv, relink. destruct (decide (b = a)) as [->|Hne].
  - now rewrite lookup_alter_eq, Hq.
  - now rewrite lookup_alter_ne by congruence.
Qed.
Lemma hn_alter_set v h a b :
  is_Some (h !! a) -> hn (alter (set_hash_next v) a h) b = relink (hn h) a v b.
Proof.
  intros [q Hq]. unfold hn, relink. destruct (decide (b = a)) as [->|Hne].
  - now rewrite lookup_alter_eq, Hq.
  - now rewrite lookup_alter_ne by congruence.
Qed.

Lemma core_alter_links f h a :
  (forall q, core (f q) = core q) -> core <$> alter f a h = core <$> h.
Proof.
  intros Hf. apply map_eq. intros b. rewrite !lookup_fmap.
  destruct (decide (a = b)) as [->|Hne].
  - rewrite lookup_alter_eq. destruct (h !! b); cbn; congruence.
  - now rewrite lookup_alter_ne.
Qed.
Lemma core_alter f h a :
  (forall q, core (f q) = f (core q)) -> core <$> alter f a h = alter f a (core <$> h).
Proof.
  intros Hf. apply map_eq. intros b. rewrite lookup_fmap.
  destruct (decide (a = b)) as [->|Hne].
  - rewrite !lookup_alter_eq, lookup_fmap. destruct (h !! b); cbn; congruence.
  - now rewrite !lookup_alter_ne, lookup_fmap.
Qed.
Lemma alter_is_Some f h a b : is_Some (alter f a h !! b) <-> is_Some (h !! b).
Proof. apply lookup_alter_is_Some. Qed.
Lemma core_is_Some h b : is_Some ((core <$> h) !! b) <-> is_Some (h !! b).
Proof. rewrite lookup_fmap. apply fmap_is_Some. Qed.
End Alter.

(** ** The lists *)

Definition chain_table : Type := nat -> list addr.
Definition set_chain (C : chain_table) (i : nat) (l : list addr) : chain_table :=
  fun j => if decide (j = i) then l else C j.

Record repr (h : gmap addr sam_quot) (hash : option (list (option addr))) (an : addr)
    (ents : gmap addr sam_quot) (L : list addr) (C : chain_table) : Prop := mk_repr {
  rp_core : ents = core <$> h;
  rp_anchor : is_Some (h !! an);
  rp_nodup : NoDup (an :: L);
  rp_avail : dlist (nx h) (pv h) an L;
  rp_dom : forall a, a ∈ L -> is_Some (h !! a);
  rp_hash : exists t, hash = Some t /\ length t = 128%nat /\
    forall i, (i < 128)%nat -> exists head, t !! i = Some head /\ chain (hn h) head (C i);
  rp_chain_nodup : forall i, (i < 128)%nat -> NoDup (C i);
  rp_chain_dom : forall i a, (i < 128)%nat -> a ∈ C i -> is_Some (h !! a);
  rp_disjoint : forall i j a, (i < 128)%nat -> (j < 128)%nat -> a ∈ C i -> a ∈ C j -> i = j
}.

Section Repr.
Implicit Types (h ents : gmap addr sam_quot) (a b an : addr) (L : list addr) (C : chain_table).

(** Any update that leaves the links alone. *)
Lemma repr_alter f h hash an ents L C a :
  keeps_links f -> repr h hash an ents L C ->
  repr (alter f a h) hash an (alter f a ents) L C.
Proof.
  intros [Kc Kn Kp Kh] [Rc Ra Rn Rv Rd (t & Et & Elt & Rh) Rcn Rcd Rdj]. constructor.
  - now rewrite core_alter, Rc.
  - now apply alter_is_Some.
  - exact Rn.
  - eapply dseg_ext; [| |exact Rv]; intros b _; [now apply nx_alter_same|now apply pv_alter_same].
  - intros b Hb. now apply alter_is_Some, Rd.
  - exists t. split; [exact Et|]. split; [exact Elt|]. intros i Hi.
    destruct (Rh i Hi) as (hd & E & Hc). exists hd. split; [exact E|].
    eapply chain_ext; [|exact Hc]. intros b _. now apply hn_alter_same.
  - exact Rcn.
  - intros i b Hi Hb. now apply alter_is_Some, (Rcd i).
  - exact Rdj.
Qed.

(** Updates of the available links leave the chains alone. *)
Lemma repr_avail_links h h' hash an ents L L' C :
  repr h hash an ents L C ->
  core <$> h' = core <$> h -> (forall b, hn h' b = hn h b) ->
  (forall b, is_Some (h' !! b) <-> is_Some (h !! b)) ->
  NoDup (an :: L') -> (forall a, a ∈ L' -> is_Some (h !! a)) ->
  dlist (nx h') (pv h') an L' ->
  repr h' hash an ents L' C.
Proof.
  intros [Rc Ra Rn Rv Rd (t & Et & Elt & Rh) Rcn Rcd Rdj] Hc Hh Hd Hnd Hdom Hl.
  constructor; try assumption.
  - congruence.
  - now apply Hd.
  - intros b Hb. now apply Hd, Hdom.
  - exists t. split; [exact Et|]. split; [exact Elt|]. intros i Hi.
    destruct (Rh i Hi) as (hd & E & Hch). exists hd. split; [exact E|].
    eapply chain_ext; [|exact Hch]. auto.
  - intros i b Hi Hb. now apply Hd, (Rcd i).
Qed.

(** The heap after [sam_quot_unfree] has moved the links. *)
Definition unlink_heap (a p n : addr) (h : gmap addr sam_quot) : gmap addr sam_quot :=
  alter (set_avail_prev None) a (alter (set_avail_next None) a
    (alter (set_avail_next (Some n)) p (alter (set_avail_prev (Some p)) n h))).

Lemma seg_last_dom h an L : is_Some (h !! an) -> (forall a, a ∈ L -> is_Some (h !! a)) ->
  is_Some (h !! seg_last an L).
Proof. intros Ha HL. pose proof (seg_last_elem an L) as [->|H]%elem_of_cons; auto. Qed.
Lemma seg_first_dom h an L : is_Some (h !! an) -> (forall a, a ∈ L -> is_Some (h !! a)) ->
  is_Some (h !! seg_first L an).
Proof.
  intros Ha HL. pose proof (seg_first_elem L an) as [H|H%list_elem_of_singleton]%elem_of_app; [auto|].
  now rewrite H.
Qed.

Lemma repr_unlink h hash an ents L1 a L2 C :
  repr h hash an ents (L1 ++ a :: L2) C ->
  let p := seg_last an L1 in let n := seg_first L2 an in
  nx h a = Some n /\ pv h a = Some p /\ is_Some (h !! p) /\ is_Some (h !! n) /\
  a <> p /\ a <> n /\
  repr (unlink_heap a p n h) hash an ents (L1 ++ L2) C.
Proof.
  intros R p n. pose proof (rp_nodup _ _ _ _ _ _ R) as Hnd.
  pose proof (rp_anchor _ _ _ _ _ _ R) as Hda. pose proof (rp_dom _ _ _ _ _ _ R) as Hd.
  destruct (dlist_remove _ _ _ _ _ _ Hnd (rp_avail _ _ _ _ _ _ R)) as (En & Ep & Hl).
  fold n in En, Hl. fold p in Ep, Hl.
  assert (Hp : is_Some (h !! p)) by (apply seg_last_dom; [exact Hda|set_solver]).
  assert (Hn : is_Some (h !! n)) by (apply seg_first_dom; [exact Hda|set_solver]).
  assert (Hnp : a <> p).
  { intros E. pose proof (seg_last_elem an L1) as Hel. fold p in Hel. rewrite <- E in Hel.
    apply NoDup_cons in Hnd as [N1 N2]. apply NoDup_app in N2 as (_ & N2 & _). set_solver. }
  assert (Hnn : a <> n).
  { intros E. pose proof (seg_first_elem L2 an) as Hel. fold n in Hel. rewrite <- E in Hel.
    apply NoDup_cons in Hnd as [N1 N2]. apply NoDup_app in N2 as (_ & _ & N2).
    apply NoDup_cons in N2 as [N2 _]. set_solver. }
  repeat (split; [assumption|]).
  assert (Hda' : is_Some (h !! a)) by set_solver.
  eapply repr_avail_links; [exact R|..].
  - unfold unlink_heap. now rewrite !core_alter_links by reflexivity.
  - intros b. unfold unlink_heap. now rewrite !hn_alter_same by reflexivity.
  - intros b. unfold unlink_heap. now rewrite !alter_is_Some.
  - apply NoDup_cons in Hnd as [N1 N2]. apply NoDup_app in N2 as (N2 & N3 & N4).
    apply NoDup_cons in N4 as [N4 N5]. apply NoDup_cons. split; [set_solver|].
    apply NoDup_app. split; [exact N2|]. split; [set_solver|exact N5].
  - set_solver.
  - assert (Ha : a ∉ an :: L1 ++ L2).
    { apply NoDup_cons in Hnd as [N1 N2]. apply NoDup_app in N2 as (N2 & N3 & N4).
      apply NoDup_cons in N4 as [N4 N5]. set_solver. }
    eapply dseg_ext; [| |exact Hl]; intros b Hb; unfold unlink_heap.
    + rewrite nx_alter_same by reflexivity.
      rewrite nx_alter_set by now rewrite !alter_is_Some.
      rewrite relink_ne by set_solver.
      rewrite nx_alter_set by now rewrite !alter_is_Some.
      unfold relink. destruct (decide _); [reflexivity|]. now apply nx_alter_same.
    + rewrite pv_alter_set by now rewrite !alter_is_Some.
      rewrite relink_ne by set_solver. rewrite !pv_alter_same by reflexivity.
      now rewrite pv_alter_set.
Qed.

(** The heap after the four assignments of [sam_quot_free2back] and
    [sam_quot_free2front]. *)
Definition insert_heap (a p n : addr) (h : gmap addr sam_quot) : gmap addr sam_quot :=
  alter (set_avail_next (Some a)) p (alter (set_avail_prev (Some a)) n
    (alter (set_avail_prev (Some p)) a (alter (set_avail_next (Some n)) a h))).

Lemma repr_insert h hash an ents L1 a L2 C :
  repr h hash an ents (L1 ++ L2) C -> a ∉ an :: L1 ++ L2 -> is_Some (h !! a) ->
  let p := seg_last an L1 in let n := seg_first L2 an in
  nx h p = Some n /\ pv h n = Some p /\ is_Some (h !! p) /\ is_Some (h !! n) /\
  a <> p /\ a <> n /\
  repr (insert_heap a p n h) hash an ents (L1 ++ a :: L2) C.
Proof.
  intros R Ha Hda' p n. pose proof (rp_nodup _ _ _ _ _ _ R) as Hnd.
  pose proof (rp_anchor _ _ _ _ _ _ R) as Hda. pose proof (rp_dom _ _ _ _ _ _ R) as Hd.
  destruct (dlist_insert _ _ _ _ a _ Hnd Ha (rp_avail _ _ _ _ _ _ R)) as (En & Ep & Hl).
  fold p n in En, Ep, Hl.
  assert (Hp : is_Some (h !! p)) by (apply seg_last_dom; [exact Hda|set_solver]).
  assert (Hn : is_Some (h !! n)) by (apply seg_first_dom; [exact Hda|set_solver]).
  pose proof (seg_last_elem an L1) as Hpe. fold p in Hpe.
  pose proof (seg_first_elem L2 an) as Hne. fold n in Hne.
  assert (Hnp : a <> p) by set_solver. assert (Hnn : a <> n) by set_solver.
  repeat (split; [assumption|]).
  eapply repr_avail_links; [exact R|..].
  - unfold insert_heap. now rewrite !core_alter_links by reflexivity.
  - intros b. unfold insert_heap. now rewrite !hn_alter_same by reflexivity.
  - intros b. unfold insert_heap. now rewrite !alter_is_Some.
  - apply NoDup_cons in Hnd as [N1 N2]. apply NoDup_app in N2 as (N2 & N3 & N4).
    apply NoDup_cons. split; [set_solver|]. apply NoDup_app. split; [exact N2|].
    split; [set_solver|]. apply NoDup_cons. split; [set_solver|exact N4].
  - set_solver.
  - eapply dseg_ext; [| |exact Hl]; intros b _; unfold insert_heap.
    + rewrite nx_alter_set by now rewrite !alter_is_Some.
      unfold relink at 1 2. destruct (decide (b = p)); [reflexivity|].
      rewrite !nx_alter_same by reflexivity. now rewrite nx_alter_set.
    + rewrite pv_alter_same by reflexivity.
      rewrite pv_alter_set by now rewrite !alter_is_Some.
      unfold relink at 1 2. destruct (decide (b = n)); [reflexivity|].
      rewrite pv_alter_set by now rewrite !alter_is_Some.
      unfold relink at 1 2. destruct (decide (b = a)); [reflexivity|].
      now apply pv_alter_same.
Qed.

(** *** Chains *)

Lemma set_chain_eq C i l : set_chain C i l i = l.
Proof. unfold set_chain. now rewrite decide_True. Qed.
Lemma set_chain_ne C i j l : j <> i -> set_chain C i l j = C j.
Proof. intros. unfold set_chain. now rewrite decide_False. Qed.

(** Chains change, the available list does not. *)
Lemma repr_chain_links h h' t t' an ents L C i l :
  repr h (Some t) an ents L C -> (i < 128)%nat ->
  core <$> h' = core <$> h ->
  (forall b, nx h' b = nx h b) -> (forall b, pv h' b = pv h b) ->
  (forall b, is_Some (h' !! b) <-> is_Some (h !! b)) ->
  (forall j b, (j < 128)%nat -> j <> i -> b ∈ C j -> hn h' b = hn h b) ->
  length t' = 128%nat -> (forall j, j <> i -> t' !! j = t !! j) ->
  (exists head, t' !! i = Some head /\ chain (hn h') head l) ->
  NoDup l -> (forall a, a ∈ l -> is_Some (h !! a)) ->
  (forall j a, (j < 128)%nat -> j <> i -> a ∈ l -> a ∉ C j) ->
  repr h' (Some t') an ents L (set_chain C i l).
Proof.
  intros [Rc Ra Rn Rv Rd (t0 & [= <-] & Elt & Rh) Rcn Rcd Rdj]
    Hi Hc Hn Hp Hd Hch Hlen Ht Hhead Hnd Hdom Hdis.
  constructor; try assumption.
  - congruence.
  - now apply Hd.
  - eapply dseg_ext; [| |exact Rv]; auto.
  - intros b Hb. now apply Hd, Rd.
  - exists t'. split; [reflexivity|]. split; [exact Hlen|]. intros j Hj.
    destruct (decide (j = i)) as [->|Hne].
    + rewrite set_chain_eq. exact Hhead.
    + rewrite set_chain_ne by exact Hne. rewrite Ht by exact Hne.
      destruct (Rh j Hj) as (hd & E & Hcj). exists hd. split; [exact E|].
      eapply chain_ext; [|exact Hcj]. intros b Hb. eapply Hch; eauto.
  - intros j Hj. destruct (decide (j = i)) as [->|Hne]; [now rewrite set_chain_eq|].
    rewrite set_chain_ne by exact Hne. auto.
  - intros j b Hj. destruct (decide (j = i)) as [->|Hne].
    + rewrite set_chain_eq. intros. apply Hd. auto.
    + rewrite set_chain_ne by exact Hne. intros. apply Hd. eauto.
  - intros j k b Hj Hk. unfold set_chain.
    destruct (decide (j = i)) as [->|Hji], (decide (k = i)) as [->|Hki]; auto.
    + intros H1 H2. exfalso. exact (Hdis k b Hk Hki H1 H2).
    + intros H1 H2. exfalso. exact (Hdis j b Hj Hji H2 H1).
    + intros. now apply (Rdj j k b).
Qed.

Lemma repr_head h t an ents L C i :
  repr h (Some t) an ents L C -> (i < 128)%nat ->
  exists head, t !! i = Some head /\ chain (hn h) head (C i).
Proof. intros [_ _ _ _ _ (t0 & [= <-] & _ & Rh) _ _ _]. apply Rh. Qed.

(** [a->next = head; head = a]. *)
Lemma repr_push h t an ents L C i a head :
  repr h (Some t) an ents L C -> (i < 128)%nat -> t !! i = Some head ->
  is_Some (h !! a) -> (forall j, (j < 128)%nat -> a ∉ C j) ->
  repr (alter (set_hash_next head) a h) (Some (<[i := Some a]> t)) an ents L
    (set_chain C i (a :: C i)).
Proof.
  intros R Hi Ht Ha Hno.
  assert (Hlen : length t = 128%nat).
  { destruct R as [_ _ _ _ _ (t0 & [= <-] & ? & _) _ _ _]. assumption. }
  destruct (repr_head _ _ _ _ _ _ _ R Hi) as (hd & Ehd & Hch).
  rewrite Ht in Ehd. injection Ehd as <-.
  eapply repr_chain_links; [exact R|exact Hi|..].
  - now rewrite core_alter_links.
  - intros b. now apply nx_alter_same.
  - intros b. now apply pv_alter_same.
  - intros b. apply alter_is_Some.
  - intros j b Hj Hne Hb. rewrite hn_alter_set by exact Ha. apply relink_ne.
    intros ->. exact (Hno j Hj Hb).
  - now rewrite length_insert.
  - intros j Hne. apply list_lookup_insert_ne. congruence.
  - exists (Some a). split; [apply list_lookup_insert_eq; lia|].
    eapply chain_ext; [|apply chain_push; [|exact Hch]]; [|exact (Hno i Hi)].
    intros b _. now apply hn_alter_set.
  - apply NoDup_cons. split; [exact (Hno i Hi)|]. now apply (rp_chain_nodup _ _ _ _ _ _ R).
  - intros b [->|Hb]%elem_of_cons; [exact Ha|]. now apply (rp_chain_dom _ _ _ _ _ _ R i).
  - intros j b Hj Hne [->|Hb]%elem_of_cons; [now apply Hno|].
    intros Hb'. apply Hne. symmetry. now apply (rp_disjoint _ _ _ _ _ _ R i j b).
Qed.

(** Unlinking [a], the successor of the head or of [p]. *)
Lemma repr_pop h t an ents L C i a l2 :
  repr h (Some t) an ents L C -> (i < 128)%nat -> C i = a :: l2 ->
  repr h (Some (<[i := hn h a]> t)) an ents L (set_chain C i l2).
Proof.
  intros R Hi Ec.
  assert (Hlen : length t = 128%nat).
  { destruct R as [_ _ _ _ _ (t0 & [= <-] & ? & _) _ _ _]. assumption. }
  pose proof (rp_chain_nodup _ _ _ _ _ _ R i Hi) as Hnd. rewrite Ec in Hnd.
  apply NoDup_cons in Hnd as [Hna Hnd].
  destruct (repr_head _ _ _ _ _ _ _ R Hi) as (hd & Ehd & Hch). rewrite Ec in Hch.
  eapply repr_chain_links; [exact R|exact Hi|reflexivity|auto|auto|reflexivity|auto|..].
  - now rewrite length_insert.
  - intros j Hne. apply list_lookup_insert_ne. congruence.
  - exists (hn h a). split; [apply list_lookup_insert_eq; lia|]. apply Hch.
  - exact Hnd.
  - intros b Hb. apply (rp_chain_dom _ _ _ _ _ _ R i); [exact Hi|]. rewrite Ec. set_solver.
  - intros j b Hj Hne Hb Hb'. apply Hne. symmetry.
    apply (rp_disjoint _ _ _ _ _ _ R i j b); auto. rewrite Ec. set_solver.
Qed.

Lemma repr_unchain h t an ents L C i l1 p a l2 :
  repr h (Some t) an ents L C -> (i < 128)%nat -> C i = l1 ++ p :: a :: l2 ->
  repr (alter (set_hash_next (hn h a)) p h) (Some t) an ents L (set_chain C i (l1 ++ p :: l2)).
Proof.
  intros R Hi Ec.
  pose proof (rp_chain_nodup _ _ _ _ _ _ R i Hi) as Hnd. rewrite Ec in Hnd.
  destruct (repr_head _ _ _ _ _ _ _ R Hi) as (hd & Ehd & Hch). rewrite Ec in Hch.
  assert (Hp : is_Some (h !! p)).
  { apply (rp_chain_dom _ _ _ _ _ _ R i); [exact Hi|]. rewrite Ec. set_solver. }
  eapply repr_chain_links; [exact R|exact Hi|..].
  - now rewrite core_alter_links.
  - intros b. now apply nx_alter_same.
  - intros b. now apply pv_alter_same.
  - intros b. apply alter_is_Some.
  - intros j b Hj Hne Hb. rewrite hn_alter_set by exact Hp. apply relink_ne. intros ->.
    apply Hne. symmetry. apply (rp_disjoint _ _ _ _ _ _ R i j p); auto. rewrite Ec. set_solver.
  - destruct R as [_ _ _ _ _ (t0 & [= <-] & ? & _) _ _ _]. assumption.
  - reflexivity.
  - exists hd. split; [exact Ehd|].
    eapply chain_ext; [|exact (chain_unlink _ _ _ _ _ _ Hnd Hch)].
    intros b _. now apply hn_alter_set.
  - apply NoDup_app in Hnd as (N1 & N2 & N3). apply NoDup_cons in N3 as [N3 N4].
    apply NoDup_cons in N4 as [N4 N5]. apply NoDup_app. split; [exact N1|].
    split; [set_solver|]. apply NoDup_cons. split; [set_solver|exact N5].
  - intros b Hb. apply (rp_chain_dom _ _ _ _ _ _ R i); [exact Hi|]. rewrite Ec. set_solver.
  - intros j b Hj Hne Hb Hb'. apply Hne. symmetry.
    apply (rp_disjoint _ _ _ _ _ _ R i j b); auto. rewrite Ec. set_solver.
Qed.

(** A chain is no longer than the heap. *)
Lemma nodup_dom_length (l : list addr) h :
  NoDup l -> (forall a, a ∈ l -> is_Some (h !! a)) -> (length l <= size h)%nat.
Proof.
  intros Hnd Hd. rewrite <- (size_list_to_set (C := gset addr) l Hnd), <- size_dom.
  apply subseteq_size. intros a Ha. apply elem_of_dom, Hd.
  now apply elem_of_list_to_set in Ha.
Qed.
End Repr.
