(* ===== verification/QuotaPrims.v ===== *)
(** * The quota cache: specifications of the list operations

    For each operation of src/src/fs/samfs/cquota.c that moves a structure between
    the available list and the hash table: it completes without a failed assertion,
    a bad pointer or a deadlock, and changes the lists of [links] in the intended
    way. *)

From S2P Require Import Prelude DList QuotaRec QuotaBytes Monad QuotaCache QuotaLinks.

Section Prims.
Context {E : Type} `{QuotaEnv E}.
Implicit Types (s : kstate E) (a an : addr) (q : sam_quot) (ents : gmap addr sam_quot)
  (L : list addr) (C : chain_table).

(** ** Memory *)

Lemma wp_get_q a q (Q : sam_quot -> kstate E -> Prop) s :
  heap s !! a = Some q -> Q q s -> wp (get_q a) Q s.
Proof. intros Hq HQ. with_strategy transparent [wp] unfold wp, get_q. now rewrite Hq. Qed.

Lemma wp_mod_q a f (Q : unit -> kstate E -> Prop) s :
  is_Some (heap s !! a) -> Q tt (upd_heap (alter f a) s) -> wp (mod_q a f) Q s.
Proof. intros [q Hq] HQ. with_strategy transparent [wp] unfold wp, mod_q. now rewrite Hq. Qed.

Lemma wp_get_node ip n (Q : sam_node -> kstate E -> Prop) s :
  nodes s !! ip = Some n -> Q n s -> wp (get_node ip) Q s.
Proof. intros Hq HQ. with_strategy transparent [wp] unfold wp, get_node. now rewrite Hq. Qed.

Lemma wp_set_bq ip t v (Q : unit -> kstate E -> Prop) s :
  is_Some (nodes s !! ip) ->
  Q tt (upd_nodes (alter (fun n => set_bquota (<[Z.to_nat t := v]> (bquota n)) n) ip) s) ->
  wp (set_bq ip t v) Q s.
Proof. intros [n Hn] HQ. with_strategy transparent [wp] unfold wp, set_bq. now rewrite Hn. Qed.

Lemma wp_kma (Q : addr -> kstate E -> Prop) s :
  Q (brk s) (set_brk (S (brk s)) (upd_heap (<[brk s := zero_quot]>) s)) -> wp kma Q s.
Proof. exact id. Qed.

Lemma wp_fail_if (b : bool) f (m : M (kstate E) unit) (Q : unit -> kstate E -> Prop) s :
  b = false -> wp m Q s -> wp (if b then fail f else m) Q s.
Proof. now intros ->. Qed.

Lemma wp_mutex_enter a q (Q : unit -> kstate E -> Prop) s :
  heap s !! a = Some q -> qt_lock q = false ->
  Q tt (upd_heap (alter (set_lock true) a) s) -> wp (mutex_enter a) Q s.
Proof.
  intros Hq Hl HQ. apply wp_bind. eapply wp_get_q; [exact Hq|].
  apply wp_fail_if; [exact Hl|]. apply wp_mod_q; [eauto|exact HQ].
Qed.

Lemma wp_mutex_tryenter a q (Q : bool -> kstate E -> Prop) s :
  heap s !! a = Some q -> qt_lock q = false ->
  Q true (upd_heap (alter (set_lock true) a) s) -> wp (mutex_tryenter a) Q s.
Proof.
  intros Hq Hl HQ. apply wp_bind. eapply wp_get_q; [exact Hq|]. rewrite Hl.
  apply wp_bind, wp_mod_q; [eauto|]. apply wp_ret. exact HQ.
Qed.

Lemma wp_hash_enter (Q : unit -> kstate E -> Prop) s :
  m_quota_hashlock (mp s) = false -> Q tt (upd_mp (set_m_hashlock true) s) -> wp hash_enter Q s.
Proof. intros Hl HQ. apply wp_bind, wp_gets. apply wp_fail_if; [exact Hl|]. now apply wp_modify. Qed.

Lemma wp_avail_enter (Q : unit -> kstate E -> Prop) s :
  m_quota_availlock (mp s) = false -> Q tt (upd_mp (set_m_availlock true) s) -> wp avail_enter Q s.
Proof. intros Hl HQ. apply wp_bind, wp_gets. apply wp_fail_if; [exact Hl|]. now apply wp_modify. Qed.

Lemma wp_assert_held a q (Q : unit -> kstate E -> Prop) s :
  heap s !! a = Some q -> qt_lock q = true -> Q tt s -> wp (assert_held a) Q s.
Proof. intros Hq Hl HQ. apply wp_bind. eapply wp_get_q; [exact Hq|]. now apply wp_assert. Qed.

Lemma wp_assert_flag a q m v (Q : unit -> kstate E -> Prop) s :
  heap s !! a = Some q -> has_any (qt_flags q) m = v -> Q tt s -> wp (assert_flag a m v) Q s.
Proof.
  intros Hq Hl HQ. apply wp_bind. eapply wp_get_q; [exact Hq|].
  apply wp_assert; [|exact HQ]. rewrite Hl. apply Bool.eqb_reflx.
Qed.

Lemma wp_assert_ref a q p (Q : unit -> kstate E -> Prop) s :
  heap s !! a = Some q -> p (qt_ref q) = true -> Q tt s -> wp (assert_ref a p) Q s.
Proof. intros Hq Hl HQ. apply wp_bind. eapply wp_get_q; [exact Hq|]. now apply wp_assert. Qed.

Lemma wp_assert_availlock (Q : unit -> kstate E -> Prop) s :
  m_quota_availlock (mp s) = true -> Q tt s -> wp assert_availlock Q s.
Proof. intros Hl HQ. apply wp_bind, wp_gets. now apply wp_assert. Qed.
Lemma wp_assert_hashlock (Q : unit -> kstate E -> Prop) s :
  m_quota_hashlock (mp s) = true -> Q tt s -> wp assert_hashlock Q s.
Proof. intros Hl HQ. apply wp_bind, wp_gets. now apply wp_assert. Qed.
Lemma wp_assert_not_client (Q : unit -> kstate E -> Prop) s :
  fs_client (mp s) = false -> Q tt s -> wp assert_not_client Q s.
Proof. intros Hl HQ. apply wp_bind, wp_gets. apply wp_assert; [|exact HQ]. now rewrite Hl. Qed.

(** ** States up to the heap *)

Definition links s an ents L C : Prop :=
  repr (heap s) (m_quota_hash (mp s)) an ents L C /\ m_quota_avail (mp s) = Some an.

(** Everything but the heap of structures and the table. *)
Definition rest s :=
  (set_m_hash None (mp s), nodes s, env s, now s, console s, terminal s).

Lemma links_heap s an ents L C a q :
  links s an ents L C -> ents !! a = Some q ->
  exists q0, heap s !! a = Some q0 /\ q = core q0.
Proof.
  intros [R _] Hq. rewrite (rp_core _ _ _ _ _ _ R), lookup_fmap in Hq.
  destruct (heap s !! a) as [q0|]; [|discriminate]. injection Hq as <-. eauto.
Qed.

Lemma links_ents s an ents L C a q0 :
  links s an ents L C -> heap s !! a = Some q0 -> ents !! a = Some (core q0).
Proof.
  intros [R _] Hq. now rewrite (rp_core _ _ _ _ _ _ R), lookup_fmap, Hq.
Qed.

Lemma links_alter s an ents L C a f :
  keeps_links f -> links s an ents L C ->
  links (upd_heap (alter f a) s) an (alter f a ents) L C.
Proof. intros Hf [R Ha]. split; [now apply repr_alter|exact Ha]. Qed.

(** An update that leaves the links alone. *)
Lemma wp_mod_core a f q s an ents L C (Q : unit -> kstate E -> Prop) :
  keeps_links f -> links s an ents L C -> ents !! a = Some q ->
  (forall s', links s' an (alter f a ents) L C -> rest s' = rest s -> brk s' = brk s -> Q tt s') ->
  wp (mod_q a f) Q s.
Proof.
  intros Hf Hl Hq HQ. destruct (links_heap _ _ _ _ _ _ _ Hl Hq) as (q0 & Hq0 & _).
  apply wp_mod_q; [eauto|]. apply HQ; [now apply links_alter|reflexivity|reflexivity].
Qed.

(** ** The available list *)

Lemma unfree_spec a q s an ents L1 L2 C :
  links s an ents (L1 ++ a :: L2) C -> m_quota_availlock (mp s) = true ->
  ents !! a = Some q -> qt_lock q = true -> has_any (qt_flags q) SAM_QF_ANCHOR = false ->
  has_any (qt_flags q) SAM_QF_AVAIL = true -> qt_ref q = 0 ->
  wp (sam_quot_unfree a) (fun _ s' =>
    links s' an (alter (clear_flags SAM_QF_AVAIL) a ents) (L1 ++ L2) C /\
    rest s' = rest s /\ brk s' = brk s) s.
Proof.
  intros Hl Hal Hq Hlk Han Hav Href.
  destruct (links_heap _ _ _ _ _ _ _ Hl Hq) as (q0 & Hq0 & ->). destruct Hl as [R Ha].
  destruct (repr_unlink _ _ _ _ _ _ _ _ R) as (En & Ep & Hp & Hn & Hap & Han' & R').
  set (p := seg_last an L1) in *. set (n := seg_first L2 an) in *.
  unfold nx, pv in En, Ep. rewrite Hq0 in En, Ep. cbn in En, Ep.
  unfold sam_quot_unfree.
  apply wp_bind, wp_assert_availlock; [exact Hal|].
  apply wp_bind; eapply wp_assert_held; [exact Hq0|exact Hlk|].
  apply wp_bind; eapply wp_assert_flag; [exact Hq0|exact Han|].
  apply wp_bind; eapply wp_assert_flag; [exact Hq0|exact Hav|].
  apply wp_bind; eapply wp_assert_ref; [exact Hq0|cbn in *; now rewrite Href|].
  apply wp_bind; eapply wp_get_q; [exact Hq0|].
  apply wp_bind; eapply wp_deref; [exact En|].
  apply wp_bind, wp_mod_q; [exact Hn|].
  apply wp_bind; eapply wp_get_q; [cbn; rewrite lookup_alter_ne by congruence; exact Hq0|].
  apply wp_bind; eapply wp_deref; [exact Ep|]. rewrite En, Ep.
  apply wp_bind, wp_mod_q; [cbn; now rewrite alter_is_Some|].
  apply wp_bind, wp_mod_q; [cbn; rewrite !alter_is_Some; eauto|].
  apply wp_bind, wp_mod_q; [cbn; rewrite !alter_is_Some; eauto|].
  apply wp_mod_q; [cbn; rewrite !alter_is_Some; eauto|].
  split; [|split; reflexivity]. split; [|exact Ha].
  apply repr_alter; [auto with qlinks|exact R'].
Qed.

(** [link_in] after the structure's own two links have been set. *)
Lemma wp_link_in a p n s an ents L1 L2 C q (Q : unit -> kstate E -> Prop) :
  links s an ents (L1 ++ L2) C -> a ∉ an :: L1 ++ L2 -> ents !! a = Some q ->
  p = seg_last an L1 -> n = seg_first L2 an ->
  (forall s', links s' an ents (L1 ++ a :: L2) C -> rest s' = rest s -> brk s' = brk s -> Q tt s') ->
  wp (link_in a) Q (upd_heap (alter (set_avail_prev (Some p)) a)
                      (upd_heap (alter (set_avail_next (Some n)) a) s)).
Proof.
  intros Hl Hna Hq -> -> HQ. destruct (links_heap _ _ _ _ _ _ _ Hl Hq) as (q0 & Hq0 & ->).
  destruct Hl as [R Ha].
  destruct (repr_insert _ _ _ _ _ a _ _ R Hna ltac:(eauto)) as (En & Ep & Hp & Hn & Hap & Han & R').
  set (p := seg_last an L1) in *. set (n := seg_first L2 an) in *. unfold link_in.
  apply wp_bind; eapply wp_get_q; [cbn; rewrite !lookup_alter_eq, Hq0; reflexivity|].
  apply wp_bind; eapply wp_deref; [reflexivity|].
  apply wp_bind, wp_mod_q; [cbn; now rewrite !alter_is_Some|].
  apply wp_bind; eapply wp_get_q;
    [cbn; rewrite lookup_alter_ne by congruence; rewrite !lookup_alter_eq, Hq0; reflexivity|].
  apply wp_bind; eapply wp_deref; [reflexivity|].
  apply wp_mod_q; [cbn; now rewrite !alter_is_Some|].
  apply HQ; [|reflexivity|reflexivity]. split; [exact R'|exact Ha].
Qed.

Lemma links_anchor s an ents L C : links s an ents L C -> exists aq, heap s !! an = Some aq.
Proof. intros [R _]. destruct (rp_anchor _ _ _ _ _ _ R). eauto. Qed.

Lemma links_availlock s an ents L C v :
  links s an ents L C -> links (upd_mp (set_m_availlock v) s) an ents L C.
Proof. intros [R Ha]. split; assumption. Qed.
Lemma links_hashlock s an ents L C v :
  links s an ents L C -> links (upd_mp (set_m_hashlock v) s) an ents L C.
Proof. intros [R Ha]. split; assumption. Qed.

Lemma rest_availlock s s' v :
  rest s' = rest (upd_mp (set_m_availlock v) s) ->
  rest (upd_mp (set_m_availlock (m_quota_availlock (mp s))) s') = rest s.
Proof.
  destruct s as [[] ? ? ? ? ? ? ?], s' as [[] ? ? ? ? ? ? ?].
  unfold rest, upd_mp, set_m_hash, set_m_availlock. cbn.
  intros [=]. congruence.
Qed.

(** What a structure must be to go on the available list. *)
Definition freeable q : Prop :=
  qt_lock q = true /\ has_any (qt_flags q) SAM_QF_ANCHOR = false /\
  has_any (qt_flags q) SAM_QF_AVAIL = false /\ qt_ref q = 0.

Definition freed (t : Z) (q : sam_quot) : sam_quot := or_flags SAM_QF_AVAIL (set_lastref t q).

Ltac freeable_asserts Hq0 Hlk Han Hav Href :=
  apply wp_bind; eapply wp_assert_held; [exact Hq0|exact Hlk|];
  apply wp_bind; eapply wp_assert_flag; [exact Hq0|exact Han|];
  apply wp_bind; eapply wp_assert_flag; [exact Hq0|exact Hav|];
  apply wp_bind; eapply wp_assert_ref; [exact Hq0|cbn in *; now rewrite Href|].

(** The common end: stamp, flag and unlock. *)
Lemma free_tail t a s s1 an ents L C q :
  m_quota_availlock (mp s) = false ->
  links s1 an ents L C -> rest s1 = rest (upd_mp (set_m_availlock true) s) -> brk s1 = brk s ->
  ents !! a = Some q ->
  wp (mod_q a (set_lastref t);; mod_q a (or_flags SAM_QF_AVAIL);; avail_exit)
    (fun _ s' => links s' an (alter (freed t) a ents) L C /\ rest s' = rest s /\ brk s' = brk s) s1.
Proof.
  intros Hal Hl Hr Hb Hq.
  apply wp_bind; eapply wp_mod_core; [auto with qlinks|exact Hl|exact Hq|].
  intros s2 Hl2 Hr2 Hb2.
  apply wp_bind; eapply wp_mod_core;
    [auto with qlinks|exact Hl2|rewrite lookup_alter_eq, Hq; reflexivity|].
  intros s3 Hl3 Hr3 Hb3. apply wp_modify.
  split; [|split; [|cbn; congruence]].
  - apply links_availlock. rewrite alter_alter_eq in Hl3. exact Hl3.
  - rewrite <- Hal. eapply rest_availlock. rewrite Hr3, Hr2. exact Hr.
Qed.

Lemma free2back_spec a q s an ents L C :
  links s an ents L C -> m_quota_availlock (mp s) = false -> a ∉ an :: L ->
  ents !! a = Some q -> freeable q ->
  wp (sam_quot_free2back a) (fun _ s' =>
    links s' an (alter (freed (now s)) a ents) (L ++ [a]) C /\
    rest s' = rest s /\ brk s' = brk s) s.
Proof.
  intros Hl Hal Hna Hq (Hlk & Han & Hav & Href).
  destruct (links_heap _ _ _ _ _ _ _ Hl Hq) as (q0 & Hq0 & ->).
  unfold sam_quot_free2back. freeable_asserts Hq0 Hlk Han Hav Href.
  apply wp_bind, wp_avail_enter; [exact Hal|].
  apply wp_bind, wp_gets. cbn.
  apply wp_bind; eapply wp_deref; [exact (proj2 Hl)|].
  destruct (links_anchor _ _ _ _ _ Hl) as (aq & Haq).
  assert (Epv : qt_avail_prev aq = Some (seg_last an L)).
  { pose proof (dseg_last _ _ _ _ _ (rp_avail _ _ _ _ _ _ (proj1 Hl))) as Ep.
    unfold pv in Ep. now rewrite Haq in Ep. }
  apply wp_bind, wp_mod_q; [eauto|].
  apply wp_bind; eapply wp_get_q; [cbn; rewrite lookup_alter_ne by set_solver; exact Haq|].
  rewrite Epv. apply wp_bind, wp_mod_q; [cbn; rewrite alter_is_Some; eauto|].
  apply wp_bind. eapply (wp_link_in a _ an (upd_mp (set_m_availlock true) s) an ents L [] C);
    [rewrite app_nil_r; now apply links_availlock|now rewrite app_nil_r|exact Hq|reflexivity..|].
  intros s1 Hl1 Hr1 Hb1. apply wp_bind, wp_gets.
  replace (now s1) with (now s) by (unfold rest in Hr1; injection Hr1; auto).
  eapply free_tail; eauto.
Qed.

Lemma free2front_spec a q s an ents L C :
  links s an ents L C -> m_quota_availlock (mp s) = false -> a ∉ an :: L ->
  ents !! a = Some q -> freeable q ->
  wp (sam_quot_free2front a) (fun _ s' =>
    links s' an (alter (freed (now s - SAM_QUOTA_EXPIRE - 1)) a ents) (a :: L) C /\
    rest s' = rest s /\ brk s' = brk s) s.
Proof.
  intros Hl Hal Hna Hq (Hlk & Han & Hav & Href).
  destruct (links_heap _ _ _ _ _ _ _ Hl Hq) as (q0 & Hq0 & ->).
  unfold sam_quot_free2front. freeable_asserts Hq0 Hlk Han Hav Href.
  apply wp_bind, wp_avail_enter; [exact Hal|].
  apply wp_bind, wp_gets. cbn.
  apply wp_bind; eapply wp_deref; [exact (proj2 Hl)|].
  destruct (links_anchor _ _ _ _ _ Hl) as (aq & Haq).
  assert (Enx : qt_avail_next aq = Some (seg_first L an)).
  { pose proof (dseg_first _ _ _ _ _ (rp_avail _ _ _ _ _ _ (proj1 Hl))) as Ep.
    unfold nx in Ep. now rewrite Haq in Ep. }
  apply wp_bind; eapply wp_get_q; [exact Haq|]. rewrite Enx.
  apply wp_bind, wp_mod_q; [eauto|].
  apply wp_bind, wp_mod_q; [cbn; rewrite alter_is_Some; eauto|].
  apply wp_bind. eapply (wp_link_in a an _ (upd_mp (set_m_availlock true) s) an ents [] L C);
    [now apply links_availlock|exact Hna|exact Hq|reflexivity..|].
  intros s1 Hl1 Hr1 Hb1. apply wp_bind, wp_gets.
  replace (now s1) with (now s) by (unfold rest in Hr1; injection Hr1; auto).
  eapply free_tail; eauto.
Qed.

(** ** The hash table *)

Lemma hash_slot_lt (index : Z) : (hash_slot index < 128)%nat.
Proof.
  unfold hash_slot, SAM_QUOTA_HASH_SIZE. pose proof (Z.mod_pos_bound index 128). lia.
Qed.

Lemma links_table s an ents L C :
  links s an ents L C -> exists t, m_quota_hash (mp s) = Some t /\ length t = 128%nat.
Proof. intros [[_ _ _ _ _ (t & Et & Hlen & _) _ _ _] _]. eauto. Qed.

Lemma wp_hash_head index s an ents L C (Q : option addr -> kstate E -> Prop) :
  links s an ents L C ->
  (forall t head, m_quota_hash (mp s) = Some t -> t !! hash_slot index = Some head ->
     chain (hn (heap s)) head (C (hash_slot index)) -> Q head s) ->
  wp (hash_head index) Q s.
Proof.
  intros Hl HQ. destruct (links_table _ _ _ _ _ Hl) as (t & Et & _).
  destruct (rp_hash _ _ _ _ _ _ (proj1 Hl)) as (t0 & Et0 & _ & Hh).
  rewrite Et in Et0. injection Et0 as <-.
  destruct (Hh (hash_slot index) (hash_slot_lt index)) as (head & Eh & Hc).
  apply wp_bind, wp_gets. apply wp_bind; eapply wp_deref; [exact Et|].
  eapply wp_deref; [exact Eh|]. eauto.
Qed.

Lemma wp_set_hash_head index v t s (Q : unit -> kstate E -> Prop) :
  m_quota_hash (mp s) = Some t ->
  Q tt (upd_mp (set_m_hash (Some (<[hash_slot index := v]> t))) s) ->
  wp (set_hash_head index v) Q s.
Proof.
  intros Et HQ. apply wp_bind, wp_gets. apply wp_bind; eapply wp_deref; [exact Et|].
  now apply wp_modify.
Qed.

Definition has_key q (t i : Z) : Prop := qt_index q = i /\ qt_type q = t.

(** The search ends at the first structure with the key, or finds none. *)
Lemma hash_walk_spec fuel head l (t i : Z) s :
  chain (hn (heap s)) head l -> (forall a, a ∈ l -> is_Some (heap s !! a)) ->
  (length l <= fuel)%nat ->
  wp (hash_walk fuel head t i) (fun r s' => s' = s /\
    match r with
    | Some a => a ∈ l /\ exists q, heap s !! a = Some q /\ has_key q t i
    | None => forall a q, a ∈ l -> heap s !! a = Some q -> ~ has_key q t i
    end) s.
Proof.
  revert head l. induction fuel as [|fuel IH]; intros head l Hc Hd Hf.
  - destruct l; [|cbn in Hf; lia]. cbn in Hc. subst head. apply wp_ret.
    split; [reflexivity|]. set_solver.
  - destruct l as [|a l]; cbn in Hc.
    + subst head. apply wp_ret. split; [reflexivity|]. set_solver.
    + destruct Hc as [-> Hc]. cbn [hash_walk].
      destruct (Hd a) as [q Hq]; [set_solver|].
      apply wp_bind; eapply wp_get_q; [exact Hq|].
      destruct (Z.eqb_spec (qt_index q) i), (Z.eqb_spec (qt_type q) t); cbn [andb];
        [apply wp_ret; split; [reflexivity|]; split; [set_solver|];
         exists q; split; [exact Hq|split; assumption]| | |];
        (eapply wp_mono; [apply (IH _ l);
           [unfold hn in Hc at 2; rewrite Hq in Hc; exact Hc|set_solver|cbn in Hf; lia]|];
         intros r s' [-> Hr]; split; [reflexivity|]; destruct r as [b|];
         [destruct Hr as [Hb Hr]; split; [set_solver|exact Hr]|];
         intros b q' [->|Hb]%elem_of_cons Hq'; [|eauto];
         rewrite Hq in Hq'; injection Hq' as <-; intros []; congruence).
Qed.

Definition ref_of (r : hash_ref) (l : list addr) : hash_ref :=
  match last l with None => r | Some p => AtNext p end.

Lemma ref_of_cons r a l : ref_of r (a :: l) = ref_of (AtNext a) l.
Proof. unfold ref_of. rewrite last_cons. now destruct (last l). Qed.

Lemma wp_read_ref index r v l s an ents L C (Q : option addr -> kstate E -> Prop) :
  links s an ents L C -> chain (hn (heap s)) v l ->
  match r with
  | AtHead => l = C (hash_slot index)
  | AtNext a => is_Some (heap s !! a) /\ v = hn (heap s) a
  end -> Q v s -> wp (read_ref index r) Q s.
Proof.
  intros Hl Hc Hr HQ. destruct r as [|a]; cbn.
  - eapply wp_hash_head; [exact Hl|]. intros t hd _ _ Hch. subst l.
    destruct (C (hash_slot index)); cbn in *; [congruence|].
    destruct Hc as [-> _], Hch as [-> _]. exact HQ.
  - destruct Hr as [[q Hq] ->]. apply wp_bind; eapply wp_get_q; [exact Hq|]. apply wp_ret.
    unfold hn in HQ. now rewrite Hq in HQ.
Qed.

Lemma unhash_walk_spec fuel index r v l1 a l2 s an ents L C :
  links s an ents L C -> chain (hn (heap s)) v (l1 ++ a :: l2) -> a ∉ l1 ->
  (forall b, b ∈ l1 -> is_Some (heap s !! b)) ->
  match r with
  | AtHead => l1 ++ a :: l2 = C (hash_slot index)
  | AtNext b => is_Some (heap s !! b) /\ v = hn (heap s) b
  end ->
  (length l1 <= fuel)%nat ->
  wp (unhash_walk fuel index r a) (fun r' s' => s' = s /\ r' = ref_of r l1) s.
Proof.
  intros Hl. revert fuel r v. induction l1 as [|b l1 IH]; intros fuel r v Hc Hna Hd Hr Hf.
  - cbn in Hc. destruct Hc as [-> Hc].
    destruct fuel; cbn [unhash_walk]; apply wp_bind;
      (eapply (wp_read_ref _ _ _ (a :: l2)); [exact Hl|split; [reflexivity|exact Hc]|exact Hr|]);
      cbv beta iota; (rewrite decide_True by reflexivity); apply wp_ret; split; reflexivity.
  - destruct Hc as [-> Hc]. destruct fuel as [|fuel]; [cbn in Hf; lia|].
    cbn [unhash_walk]. apply wp_bind.
    eapply (wp_read_ref _ _ _ (b :: l1 ++ a :: l2));
      [exact Hl|split; [reflexivity|exact Hc]|exact Hr|].
    cbv beta iota. rewrite decide_False by set_solver. rewrite ref_of_cons.
    eapply IH; [exact Hc|set_solver|set_solver| |cbn in Hf; lia].
    split; [apply Hd; set_solver|reflexivity].
Qed.

Lemma unhash_spec a q s an ents L C l1 l2 :
  links s an ents L C -> m_quota_hashlock (mp s) = true ->
  ents !! a = Some q -> qt_lock q = true -> qt_ref q = 0 ->
  has_any (qt_flags q) SAM_QF_HASHED = true -> C (hash_slot (qt_index q)) = l1 ++ a :: l2 ->
  wp (sam_quot_unhash a) (fun _ s' =>
    links s' an (alter (clear_flags SAM_QF_HASHED) a ents) L
      (set_chain C (hash_slot (qt_index q)) (l1 ++ l2)) /\
    rest s' = rest s /\ brk s' = brk s) s.
Proof.
  intros Hl Hhl Hq Hlk Href Hha Ec.
  destruct (links_heap _ _ _ _ _ _ _ Hl Hq) as (q0 & Hq0 & ->). cbn in Hlk, Href, Hha, Ec.
  pose proof (hash_slot_lt (qt_index q0)) as Hi.
  pose proof (rp_chain_nodup _ _ _ _ _ _ (proj1 Hl) _ Hi) as Hnd. rewrite Ec in Hnd.
  assert (Hdom : forall b, b ∈ l1 ++ a :: l2 -> is_Some (heap s !! b)).
  { intros b Hb. apply (rp_chain_dom _ _ _ _ _ _ (proj1 Hl) _ b Hi). now rewrite Ec. }
  unfold sam_quot_unhash.
  apply wp_bind, wp_assert_hashlock; [exact Hhl|].
  apply wp_bind; eapply wp_assert_held; [exact Hq0|exact Hlk|].
  apply wp_bind; eapply wp_assert_ref; [exact Hq0|now rewrite Href|].
  apply wp_bind; eapply wp_get_q; [exact Hq0|]. rewrite Hha. cbn [negb].
  apply wp_bind, wp_gets. apply wp_bind.
  destruct (links_table _ _ _ _ _ Hl) as (t & Et & _). pose proof Hl as [R Ha].
  rewrite Et in R. destruct (repr_head _ _ _ _ _ _ _ R Hi) as (hd & Ehd & Hch).
  rewrite Ec in Hch.
  eapply wp_mono.
  { eapply (unhash_walk_spec _ _ AtHead hd l1 a l2); [exact Hl|exact Hch| | |now rewrite Ec|].
    - apply NoDup_app in Hnd as (_ & Hnd & _). set_solver.
    - set_solver.
    - unfold chain_fuel. apply nodup_dom_length; [|set_solver].
      now apply NoDup_app in Hnd as (Hnd & _ & _). }
  intros r s' [-> ->]. apply wp_bind. cbn [core qt_index] in *.
  assert (Hcase : l1 = [] \/ exists l1' p, l1 = l1' ++ [p]).
  { destruct l1 as [|x l1' _] using rev_ind; [now left|right; eauto]. }
  destruct Hcase as [->|(l1' & p & ->)].
  - change (ref_of AtHead []) with AtHead. cbn [app] in *.
    eapply wp_read_ref; [exact Hl|exact Hch|now rewrite Ec|].
    destruct Hch as [-> Hch].
    apply wp_bind, wp_when; [intros Hd; apply bool_decide_eq_true in Hd; discriminate|intros _].
    apply wp_bind; eapply wp_get_q; [exact Hq0|]. apply wp_bind. cbn [write_ref].
    eapply wp_set_hash_head; [exact Et|]. apply wp_mod_q; [eauto|].
    split; [|split; reflexivity]. split; [|exact Ha]. cbn.
    apply repr_alter; [auto with qlinks|].
    pose proof (repr_pop _ _ _ _ _ _ _ _ _ R Hi Ec) as R'.
    unfold hn in R' at 1. rewrite Hq0 in R'. exact R'.
  - unfold ref_of. rewrite last_snoc.
    assert (Hap : a <> p).
    { apply NoDup_app in Hnd as (_ & Hnd & _). intros ->. apply (Hnd p); set_solver. }
    assert (Hp : is_Some (heap s !! p)) by (apply Hdom; set_solver).
    rewrite <- app_assoc in Hch. cbn in Hch.
    eapply (wp_read_ref _ _ (hn (heap s) p)); [exact Hl|eapply chain_tail; exact Hch|split; [exact Hp|reflexivity]|].
    apply chain_tail in Hch as Hch'. destruct Hch' as [-> _].
    apply wp_bind, wp_when; [intros Hd; apply bool_decide_eq_true in Hd; discriminate|intros _].
    apply wp_bind; eapply wp_get_q; [exact Hq0|]. apply wp_bind. cbn [write_ref].
    apply wp_mod_q; [exact Hp|]. apply wp_mod_q; [cbn; rewrite alter_is_Some; eauto|].
    split; [|split; reflexivity]. split; [|exact Ha]. cbn. rewrite Et.
    apply repr_alter; [auto with qlinks|].
    rewrite <- app_assoc in Ec. cbn in Ec.
    pose proof (repr_unchain _ _ _ _ _ _ _ _ _ _ _ R Hi Ec) as R'.
    unfold hn in R' at 1. rewrite Hq0 in R'. rewrite <- app_assoc. exact R'.
Qed.

(** Linking a structure in at the head of its chain. *)
Lemma push_links s an ents L C index a q0 t head :
  links s an ents L C -> m_quota_hash (mp s) = Some t -> t !! hash_slot index = Some head ->
  heap s !! a = Some q0 -> (forall j, (j < 128)%nat -> a ∉ C j) ->
  links (upd_mp (set_m_hash (Some (<[hash_slot index := Some a]> t)))
           (upd_heap (alter (set_hash_next head) a) s)) an ents L
    (set_chain C (hash_slot index) (a :: C (hash_slot index))).
Proof.
  intros [R Ha] Et Eh Hq0 Hno. split; [|exact Ha]. cbn. rewrite Et in R.
  apply repr_push; [exact R|apply hash_slot_lt|exact Eh|eauto|exact Hno].
Qed.

(** ** Reclaiming *)

(** What the available list promises of its members. *)
Definition avail_ok ents L : Prop :=
  forall a, a ∈ L -> exists q, ents !! a = Some q /\ qt_lock q = false /\
    has_any (qt_flags q) SAM_QF_AVAIL = true /\ has_any (qt_flags q) SAM_QF_ANCHOR = false /\
    qt_ref q = 0.
Definition anchor_ok ents an : Prop :=
  exists q, ents !! an = Some q /\ qt_flags q = SAM_QF_ANCHOR /\ qt_lock q = false.

(** Old enough to be given to another record. *)
Definition reclaimable (t : Z) q : bool :=
  negb (has_any (qt_flags q) (Z.lor SAM_QF_BUSY SAM_QF_DIRTY)) &&
  (qt_lastref q + SAM_QUOTA_EXPIRE <=? t).

Lemma alter_lock_undo ents a q :
  ents !! a = Some q -> qt_lock q = false ->
  alter (set_lock false) a (alter (set_lock true) a ents) = ents.
Proof.
  intros Hq Hl. rewrite alter_alter_eq. apply alter_id. intros q' Hq'.
  rewrite Hq in Hq'. injection Hq' as <-. destruct q. cbn in *. now subst.
Qed.

Definition front_of (t : Z) ents L : option addr :=
  match L with
  | r :: _ => match ents !! r with
              | Some q => if reclaimable t q then Some r else None
              | None => None
              end
  | [] => None
  end.

Lemma getfront_spec s an ents L C :
  links s an ents L C -> m_quota_availlock (mp s) = false -> avail_ok ents L -> anchor_ok ents an ->
  wp sam_quot_getfront (fun r s' =>
    r = front_of (now s) ents L /\ rest s' = rest s /\ brk s' = brk s /\
    match r with
    | None => links s' an ents L C
    | Some a => links s' an (alter (clear_flags SAM_QF_AVAIL) a (alter (set_lock true) a ents))
                  (tail L) C
    end) s.
Proof.
  intros Hl Hal Hav (aq & Haq & Han & _).
  destruct (links_heap _ _ _ _ _ _ _ Hl Haq) as (aq0 & Haq0 & ->). unfold sam_quot_getfront.
  apply wp_bind, wp_avail_enter; [exact Hal|]. apply wp_bind, wp_gets. cbn.
  apply wp_bind; eapply wp_deref; [exact (proj2 Hl)|].
  apply wp_bind; eapply wp_get_q; [exact Haq0|].
  pose proof (dseg_first _ _ _ _ _ (rp_avail _ _ _ _ _ _ (proj1 Hl))) as En.
  unfold nx in En. rewrite Haq0 in En. cbn in En.
  apply wp_bind; eapply wp_deref; [exact En|].
  assert (Hex : forall s', rest s' = rest (upd_mp (set_m_availlock true) s) ->
    rest (upd_mp (set_m_availlock false) s') = rest s).
  { intros s' Hr. rewrite <- Hal. now apply rest_availlock in Hr. }
  destruct L as [|r L]; cbn [seg_first].
  { apply wp_bind; eapply wp_get_q; [exact Haq0|]. cbn in Han. rewrite Han. change (has_any SAM_QF_ANCHOR SAM_QF_ANCHOR) with true.
    apply wp_bind, wp_modify, wp_ret. split; [reflexivity|]. split; [now apply Hex|].
    split; [reflexivity|now apply links_availlock]. }
  destruct (Hav r ltac:(set_solver)) as (q & Hq & Hlk & Hfa & Hfn & Href).
  destruct (links_heap _ _ _ _ _ _ _ Hl Hq) as (q0 & Hq0 & Eq).
  apply wp_bind; eapply wp_get_q; [exact Hq0|].
  replace (has_any (qt_flags q0) SAM_QF_ANCHOR) with false by (rewrite <- Hfn; now subst q).
  apply wp_bind; eapply wp_mutex_tryenter; [exact Hq0|rewrite <- Hlk; now subst q|].
  apply wp_bind, wp_ret. cbn [negb].
  assert (Hl1 : links (upd_heap (alter (set_lock true) r) (upd_mp (set_m_availlock true) s)) an
    (alter (set_lock true) r ents) (r :: L) C)
    by (apply links_alter; [auto with qlinks|now apply links_availlock]).
  set (s1 := upd_heap (alter (set_lock true) r) (upd_mp (set_m_availlock true) s)) in *.
  assert (Hq1 : heap s1 !! r = Some (set_lock true q0))
    by (unfold s1; cbn; now rewrite lookup_alter_eq, Hq0).
  apply wp_bind; eapply wp_get_q; [exact Hq1|]. apply wp_bind, wp_gets.
  assert (Efr : front_of (now s) ents (r :: L) = if reclaimable (now s) q then Some r else None)
    by (cbn; now rewrite Hq).
  change (qt_flags (set_lock true q0)) with (qt_flags q0).
  change (qt_lastref (set_lock true q0)) with (qt_lastref q0). change (now s1) with (now s).
  replace (has_any (qt_flags q0) (Z.lor SAM_QF_BUSY SAM_QF_DIRTY)
           || (now s <? qt_lastref q0 + SAM_QUOTA_EXPIRE)) with (negb (reclaimable (now s) q)).
  2:{ subst q. unfold reclaimable. cbn.
      now rewrite Z.ltb_antisym, negb_andb, negb_involutive. }
  destruct (reclaimable (now s) q); cbn [negb].
  - apply wp_bind. eapply wp_mono.
    + apply (unfree_spec r (set_lock true q) s1 an _ [] L C Hl1); try reflexivity;
        [now rewrite lookup_alter_eq, Hq|exact Hfn|exact Hfa|exact Href].
    + intros _ s2 (Hl2 & Hr2 & Hb2). apply wp_bind, wp_modify, wp_ret. rewrite Efr.
      split; [reflexivity|]. split; [apply Hex; rewrite Hr2; reflexivity|].
      split; [exact Hb2|]. now apply links_availlock.
  - apply wp_bind, wp_mod_q; [eauto|]. apply wp_bind, wp_modify, wp_ret. rewrite Efr.
    split; [reflexivity|]. split; [now apply Hex|]. split; [reflexivity|].
    rewrite <- (alter_lock_undo ents r q Hq Hlk). apply links_availlock, links_alter;
      [auto with qlinks|exact Hl1].
Qed.

(** ** Allocating *)

Lemma repr_fresh h hash an ents L C a q :
  repr h hash an ents L C -> h !! a = None ->
  repr (<[a := q]> h) hash an (<[a := core q]> ents) L C.
Proof.
  intros [Rc Ra Rn Rv Rd (t & Et & Elt & Rh) Rcn Rcd Rdj] Hf.
  assert (Hne : forall b, is_Some (h !! b) -> a <> b) by (intros b [? Hb] ->; congruence).
  assert (Hlk : forall b, is_Some (h !! b) -> (<[a := q]> h) !! b = h !! b)
    by (intros; apply lookup_insert_ne; auto).
  constructor; try assumption.
  - rewrite Rc. symmetry. apply fmap_insert.
  - rewrite Hlk; assumption.
  - eapply dseg_ext; [| |exact Rv]; intros b Hb; unfold nx, pv; rewrite Hlk; auto.
    + apply elem_of_cons in Hb as [->|Hb]; auto.
    + apply elem_of_app in Hb as [Hb|Hb%list_elem_of_singleton]; [auto|now subst].
  - intros b Hb. rewrite Hlk; auto.
  - exists t. split; [exact Et|]. split; [exact Elt|]. intros i Hi.
    destruct (Rh i Hi) as (hd & Eh & Hc). exists hd. split; [exact Eh|].
    eapply chain_ext; [|exact Hc]. intros b Hb. unfold hn. rewrite Hlk; eauto.
  - intros i b Hi Hb. rewrite Hlk; eauto.
Qed.

(** A structure of a new batch on the available list. *)
Definition new_quot (t : Z) : sam_quot :=
  set_lock false (freed (t - SAM_QUOTA_EXPIRE - 1) (set_lock true zero_quot)).

Definition fresh s ents : Prop := forall b, is_Some (ents !! b) -> (b < brk s)%nat.

Lemma alloc_one_spec s an ents L C :
  links s an ents L C -> m_quota_availlock (mp s) = false -> fresh s ents ->
  wp alloc_one (fun _ s' =>
    links s' an (<[brk s := new_quot (now s)]> ents) (brk s :: L) C /\
    rest s' = rest s /\ brk s' = S (brk s)) s.
Proof.
  intros Hl Hal Hf. unfold alloc_one. apply wp_bind, wp_kma.
  set (a := brk s).
  assert (Hnone : heap s !! a = None).
  { destruct (heap s !! a) eqn:Eh; [|reflexivity]. exfalso.
    pose proof (Hf a (ex_intro _ _ (links_ents _ _ _ _ _ _ _ Hl Eh))). unfold a in *. lia. }
  assert (Ha : a ∉ an :: L).
  { destruct Hl as [R _]. intros [->|Hin]%elem_of_cons.
    - destruct (rp_anchor _ _ _ _ _ _ R). congruence.
    - destruct (rp_dom _ _ _ _ _ _ R a Hin). congruence. }
  set (s1 := set_brk (S a) (upd_heap (<[a := zero_quot]>) s)).
  assert (Hl1 : links s1 an (<[a := zero_quot]> ents) L C).
  { destruct Hl as [R Hav]. split; [|exact Hav]. now apply (repr_fresh _ _ _ _ _ _ a zero_quot). }
  assert (Hq1 : heap s1 !! a = Some zero_quot) by apply lookup_insert_eq.
  apply wp_bind; eapply wp_mutex_enter; [exact Hq1|reflexivity|].
  apply wp_bind. eapply wp_mono.
  { eapply (free2front_spec a (set_lock true zero_quot)).
    - apply links_alter; [auto with qlinks|exact Hl1].
    - exact Hal.
    - exact Ha.
    - now rewrite lookup_alter_eq, lookup_insert_eq.
    - repeat split. }
  intros _ s2 (Hl2 & Hr2 & Hb2). rewrite !alter_alter_eq, alter_insert_eq in Hl2.
  eapply wp_mod_core; [auto with qlinks|exact Hl2|apply lookup_insert_eq|].
  intros s3 Hl3 Hr3 Hb3. rewrite alter_insert_eq in Hl3.
  split; [exact Hl3|]. split; [now rewrite Hr3, Hr2|now rewrite Hb3, Hb2].
Qed.

(** [n] new structures at the front of the list. *)
Record batch (t : Z) (b : addr) (n : nat) ents ents' (news : list addr) : Prop := mk_batch {
  ba_length : length news = n;
  ba_new : forall a, a ∈ news -> (b <= a < b + n)%nat /\ ents !! a = None /\ ents' !! a = Some (new_quot t);
  ba_old : forall a, a ∉ news -> ents' !! a = ents !! a
}.

Lemma alloc_loop_spec n s an ents L C :
  links s an ents L C -> m_quota_availlock (mp s) = false -> fresh s ents ->
  wp (alloc_loop n) (fun _ s' => exists ents' news,
    links s' an ents' (news ++ L) C /\ rest s' = rest s /\ brk s' = (brk s + n)%nat /\
    batch (now s) (brk s) n ents ents' news) s.
Proof.
  revert s ents L. induction n as [|n IH]; intros s ents L Hl Hal Hf; cbn [alloc_loop].
  - apply wp_ret. exists ents, []. split; [exact Hl|]. split; [reflexivity|]. split; [lia|].
    split; [reflexivity|set_solver|auto].
  - apply wp_bind. eapply wp_mono; [eapply alloc_one_spec; eassumption|].
    intros _ s1 (Hl1 & Hr1 & Hb1).
    assert (Enow : now s1 = now s) by (unfold rest in Hr1; injection Hr1; auto).
    assert (Eal : m_quota_availlock (mp s1) = m_quota_availlock (mp s)).
    { unfold rest in Hr1. injection Hr1. auto. }
    assert (Hnone : ents !! brk s = None).
    { destruct (ents !! brk s) eqn:Ee; [|reflexivity]. pose proof (Hf (brk s) (ex_intro _ _ Ee)). lia. }
    eapply wp_mono; [eapply IH; [exact Hl1|congruence|]|].
    { intros b. rewrite lookup_insert_is_Some, Hb1. intros [<-|[_ Hb]]; [lia|].
      specialize (Hf b Hb). lia. }
    intros _ s2 (ents' & news & Hl2 & Hr2 & Hb2 & [Bl Bn Bo]).
    exists ents', (news ++ [brk s]). rewrite <- app_assoc. cbn.
    split; [exact Hl2|]. split; [congruence|]. split; [lia|]. rewrite Enow, Hb1 in *. split.
    + rewrite length_app, Bl. cbn. lia.
    + intros a [Ha|Ha%list_elem_of_singleton]%elem_of_app.
      * destruct (Bn a Ha) as (Hr & Hn & He).
        apply lookup_insert_None in Hn as [Hn _]. split; [lia|]. auto.
      * subst a. split; [lia|]. split; [exact Hnone|].
        rewrite Bo; [apply lookup_insert_eq|].
        intros Hin. destruct (Bn _ Hin) as (Hr & _). lia.
    + intros a Ha. rewrite Bo by set_solver. apply lookup_insert_ne. set_solver.
Qed.
End Prims.
