(* ===== verification/QuotaInv.v ===== *)
(** * The quota cache: its invariant and what it promises

    [cache_ok held s]: the cache of state [s] is consistent while the structures of
    [held] are locked. [usage_of s t i] is what the cache promises to its clients:
    the usage charged to index [i] of quota type [t], wherever the record is at the
    moment, in core or in the quota file. The specifications of [sam_quot_get],
    [sam_quot_rel] and [sam_quota_inode_fini] are in terms of these two. *)

From S2P Require Import Prelude DList QuotaRec QuotaBytes Monad QuotaCache QuotaLinks QuotaPrims.

(** ** The quota files, when reads and writes succeed *)

Class QuotaEnvLaws (E : Type) `{QuotaEnv E} : Type := {
  (** the record at an index of a quota file, [None] at or past the end *)
  qf_rec : E -> addr -> Z -> option sam_dquot;
  qf_rec_size : forall e ip i, 0 <= i -> qf_rec e ip i = None <-> qf_size e ip <= i * sizeof_dquot;
  qf_rec_typed : forall e ip i d, qf_rec e ip i = Some d -> dquot_typed d;
  (** a read returns the record; at the end of the file it leaves the buffer *)
  qf_read : forall e ip i buf, 0 <= i ->
    sam_read_vn e ip i buf = (0, default buf (qf_rec e ip i));
  (** a write stores the record; a gap it leaves reads as zeros *)
  qf_write : forall e ip i d, 0 <= i -> dquot_typed d -> fst (sam_write_vn e ip i d) = 0;
  qf_write_same : forall e ip i d, 0 <= i -> dquot_typed d ->
    qf_rec (snd (sam_write_vn e ip i d)) ip i = Some d;
  qf_write_other : forall e ip i d ip' j, 0 <= i -> 0 <= j -> (ip', j) <> (ip, i) ->
    let e' := snd (sam_write_vn e ip i d) in
    qf_rec e' ip' j = qf_rec e ip' j \/
    (qf_rec e ip' j = None /\ qf_rec e' ip' j = Some zero_dquot)
}.

Definition zero_usage : Z * Z * Z * Z := (0, 0, 0, 0).

(** ** Counting references *)

Definition refs (nd : gmap addr sam_node) (t : Z) (a : addr) : Z :=
  Z.of_nat (size (filter (fun kn : addr * sam_node => bq (snd kn) t = QP a) nd)).

Lemma size_filter_insert (P : addr * sam_node -> Prop) `{forall x, Decision (P x)}
    (m : gmap addr sam_node) ip n :
  m !! ip = None ->
  size (filter P (<[ip := n]> m)) =
  ((if decide (P (ip, n)) then 1 else 0) + size (filter P m))%nat.
Proof.
  intros Hn. destruct (decide (P (ip, n))) as [HP|HP].
  - rewrite map_filter_insert_True by exact HP. apply map_size_insert_None.
    apply map_lookup_filter_None. now left.
  - now rewrite map_filter_insert_not' by (intros; try congruence; assumption).
Qed.

Lemma refs_insert (nd : gmap addr sam_node) t a ip n n' :
  nd !! ip = Some n ->
  refs (<[ip := n']> nd) t a =
  refs nd t a + (if decide (bq n' t = QP a) then 1 else 0)
              - (if decide (bq n t = QP a) then 1 else 0).
Proof.
  intros Hn. unfold refs.
  rewrite <- (insert_delete_id nd ip n Hn) at 2. rewrite <- (insert_delete_eq nd ip n').
  rewrite !size_filter_insert by apply lookup_delete_eq. cbn [snd].
  repeat destruct (decide _); lia.
Qed.

Lemma refs_nonneg nd t a : 0 <= refs nd t a.
Proof. unfold refs. lia. Qed.

Lemma refs_pos nd t a ip n : nd !! ip = Some n -> bq n t = QP a -> 0 < refs nd t a.
Proof.
  intros Hn Hb. pose proof (refs_insert nd t a ip n (set_bquota [] n) Hn) as Hr.
  rewrite (decide_True (P := bq n t = QP a)) in Hr by exact Hb.
  pose proof (refs_nonneg (<[ip:=set_bquota [] n]> nd) t a).
  rewrite decide_False in Hr; [lia|]. cbn. discriminate.
Qed.

Lemma refs_bound nd t a : refs nd t a <= Z.of_nat (size nd).
Proof.
  unfold refs. apply inj_le. apply map_size_filter.
Qed.

(** ** The invariant *)

Definition hashed (q : sam_quot) : bool := has_any (qt_flags q) SAM_QF_HASHED.
Definition on_avail (q : sam_quot) : bool := has_any (qt_flags q) SAM_QF_AVAIL.
Definition busy (q : sam_quot) : bool := has_any (qt_flags q) SAM_QF_BUSY.

Definition is_entry (q : sam_quot) (t i : Z) : bool :=
  hashed q && (qt_type q =? t) && (qt_index q =? i).

(** The in-core record of a key. *)
Definition cached (ents : gmap addr sam_quot) (t i : Z) : option sam_quot :=
  head (filter (fun q => is_entry q t i = true) (map snd (map_to_list ents))).

Section Inv.
Context {E : Type} `{QuotaEnv E} `{!QuotaEnvLaws E}.
Implicit Types (s : kstate E) (a an : addr) (q : sam_quot) (ents : gmap addr sam_quot)
  (L : list addr) (C : chain_table) (held : gset addr).

(** Usage in the file; the zero record when the file is too short. *)
Definition disk_use (e : E) (ip : addr) (i : Z) : Z * Z * Z * Z :=
  match qf_rec e ip i with Some d => usage d | None => zero_usage end.
Definition disk_usage s (t i : Z) : Z * Z * Z * Z :=
  match quota_ip s t with Some ip => disk_use (env s) ip i | None => zero_usage end.

Definition usage_of s (t i : Z) : Z * Z * Z * Z :=
  match cached (core <$> heap s) t i with
  | Some q => usage (qt_dent q)
  | None => disk_usage s t i
  end.

Record ent_ok s held L C a q : Prop := mk_ent_ok {
  eo_anchor : has_any (qt_flags q) SAM_QF_ANCHOR = false;
  eo_busy : busy q = false;
  eo_avail : on_avail q = true <-> a ∈ L;
  eo_hashed : hashed q = true <-> a ∈ C (hash_slot (qt_index q));
  eo_slot : forall i, (i < 128)%nat -> a ∈ C i -> i = hash_slot (qt_index q);
  eo_lock : qt_lock q = true <-> a ∈ held;
  eo_free : a ∈ L -> qt_ref q = 0 /\ (a ∉ held) /\ dirty q = false;
  eo_key : hashed q = true ->
    0 <= qt_type q < SAM_QUOTA_DEFD /\ 0 <= qt_index q /\ quota_ip s (qt_type q) = Some (qt_vp q);
  eo_clean : hashed q = true -> a ∉ held -> dirty q = false;
  eo_disk : hashed q = true -> dirty q = false ->
    usage (qt_dent q) = disk_use (env s) (qt_vp q) (qt_index q);
  eo_ref : hashed q = true -> qt_ref q = refs (nodes s) (qt_type q) a;
  eo_unhashed : hashed q = false -> qt_ref q = 0 /\ (a ∈ L \/ a ∈ held);
  eo_parked : a ∉ held -> a ∈ L \/ 0 < qt_ref q;
  eo_typed : dquot_typed (qt_dent q)
}.

(** A pointer of an inode points to the structure of that inode's record. *)
Definition nodes_ok s ents : Prop :=
  Z.of_nat (size (nodes s)) < 2 ^ 31 - 1 /\
  forall ip n, nodes s !! ip = Some n ->
    length (bquota n) = 3%nat /\
    forall t a, 0 <= t < SAM_QUOTA_DEFD -> bq n t = QP a ->
      exists q, ents !! a = Some q /\ hashed q = true /\ qt_type q = t /\
        index_di n t = Some (qt_index q).

Definition unique_keys ents : Prop :=
  forall a b qa qb, ents !! a = Some qa -> ents !! b = Some qb ->
    hashed qa = true -> hashed qb = true ->
    qt_type qa = qt_type qb -> qt_index qa = qt_index qb -> a = b.

Record cache_inv held s an ents L C : Prop := mk_cache_inv {
  ci_links : links s an ents L C;
  ci_anchor : anchor_ok ents an;
  ci_ent : forall a q, ents !! a = Some q -> a <> an -> ent_ok s held L C a q;
  ci_unique : unique_keys ents;
  ci_fresh : fresh s ents;
  ci_held : forall a, a ∈ held -> is_Some (ents !! a) /\ a <> an;
  ci_an_chain : forall i, (i < 128)%nat -> an ∉ C i;
  ci_nodes : nodes_ok s ents;
  ci_files : forall t t' ip, 0 <= t < SAM_QUOTA_DEFD -> 0 <= t' < SAM_QUOTA_DEFD ->
    quota_ip s t = Some ip -> quota_ip s t' = Some ip -> t = t';
  ci_client : fs_client (mp s) = false
}.

Definition unlocked s : Prop :=
  m_quota_hashlock (mp s) = false /\ m_quota_availlock (mp s) = false.

Definition cache_ok held s : Prop :=
  unlocked s /\ exists an ents L C, cache_inv held s an ents L C.

(** ** Finding the record of a key *)

Lemma is_entry_spec q t i :
  is_entry q t i = true <-> hashed q = true /\ qt_type q = t /\ qt_index q = i.
Proof. unfold is_entry. rewrite !andb_true_iff, !Z.eqb_eq. tauto. Qed.

Lemma cached_Some ents t i q :
  unique_keys ents ->
  cached ents t i = Some q <-> exists a, ents !! a = Some q /\ is_entry q t i = true.
Proof.
  intros Hu. unfold cached. split.
  - intros Hh. assert (Hin : q ∈ filter (fun q => is_entry q t i = true) (map snd (map_to_list ents))).
    { destruct (filter _ _); [discriminate|]. injection Hh as ->. set_solver. }
    apply list_elem_of_filter in Hin as [He Hin].
    apply list_elem_of_fmap in Hin as ([a q'] & -> & Hin). apply elem_of_map_to_list in Hin.
    exists a. auto.
  - intros (a & Ha & He).
    destruct (filter (fun q => is_entry q t i = true) (map snd (map_to_list ents)))
      as [|q' l] eqn:Ef.
    + exfalso. assert (Hin : q ∈ filter (fun q => is_entry q t i = true)
        (map snd (map_to_list ents))).
      { apply list_elem_of_filter. split; [exact He|]. apply list_elem_of_fmap.
        exists (a, q). split; [reflexivity|]. now apply elem_of_map_to_list. }
      rewrite Ef in Hin. set_solver.
    + cbn. f_equal. assert (Hin : q' ∈ q' :: l) by set_solver. rewrite <- Ef in Hin.
      apply list_elem_of_filter in Hin as [He' Hin].
      apply list_elem_of_fmap in Hin as ([b q''] & -> & Hin). cbn in *.
      apply elem_of_map_to_list in Hin. apply is_entry_spec in He as (H1 & H2 & H3), He' as (H1' & H2' & H3').
      assert (a = b) by (eapply (Hu a b); eauto; congruence). subst b. congruence.
Qed.

Lemma cached_None ents t i :
  cached ents t i = None <-> forall a q, ents !! a = Some q -> is_entry q t i = false.
Proof.
  unfold cached. split.
  - intros Hh a q Ha. destruct (is_entry q t i) eqn:He; [|reflexivity]. exfalso.
    assert (Hin : q ∈ filter (fun q => is_entry q t i = true) (map snd (map_to_list ents))).
    { apply list_elem_of_filter. split; [exact He|]. apply list_elem_of_fmap.
      exists (a, q). split; [reflexivity|]. now apply elem_of_map_to_list. }
    destruct (filter _ _); [set_solver|discriminate].
  - intros Hall. destruct (filter _ _) as [|q l] eqn:Ef; [reflexivity|]. exfalso.
    assert (Hin : q ∈ q :: l) by set_solver. rewrite <- Ef in Hin.
    apply list_elem_of_filter in Hin as [He Hin].
    apply list_elem_of_fmap in Hin as ([b q'] & -> & Hin). cbn in *.
    apply elem_of_map_to_list in Hin. rewrite (Hall b q' Hin) in He. discriminate.
Qed.

Lemma usage_of_cached held s an ents L C a q :
  cache_inv held s an ents L C -> ents !! a = Some q -> hashed q = true ->
  usage_of s (qt_type q) (qt_index q) = usage (qt_dent q).
Proof.
  intros I Ha Hh. unfold usage_of.
  rewrite <- (rp_core _ _ _ _ _ _ (proj1 (ci_links _ _ _ _ _ _ I))).
  replace (cached ents _ _) with (Some q); [reflexivity|]. symmetry.
  apply cached_Some; [apply (ci_unique _ _ _ _ _ _ I)|]. exists a. split; [exact Ha|].
  apply is_entry_spec. auto.
Qed.

Lemma usage_of_disk held s an ents L C t i :
  cache_inv held s an ents L C ->
  (forall a q, ents !! a = Some q -> is_entry q t i = false) ->
  usage_of s t i = disk_usage s t i.
Proof.
  intros I Hno. unfold usage_of.
  rewrite <- (rp_core _ _ _ _ _ _ (proj1 (ci_links _ _ _ _ _ _ I))).
  now rewrite (proj2 (cached_None ents t i) Hno).
Qed.

(** Two states have the same usage of a key when its record is in core in both with
    the same usage, or in core in neither, or clean where it is in core. *)
Lemma usage_of_same held held' s s' an an' ents ents' L L' C C' t i :
  cache_inv held s an ents L C -> cache_inv held' s' an' ents' L' C' ->
  ((forall b q', ents' !! b = Some q' -> is_entry q' t i = false) ->
   disk_usage s' t i = disk_usage s t i) ->
  (forall a q, ents !! a = Some q -> is_entry q t i = true ->
     (exists b q', ents' !! b = Some q' /\ is_entry q' t i = true /\
        usage (qt_dent q') = usage (qt_dent q)) \/
     ((forall b q', ents' !! b = Some q' -> is_entry q' t i = false) /\
      usage (qt_dent q) = disk_usage s t i)) ->
  ((forall a q, ents !! a = Some q -> is_entry q t i = false) ->
   forall b q', ents' !! b = Some q' -> is_entry q' t i = true ->
     usage (qt_dent q') = disk_usage s t i) ->
  usage_of s' t i = usage_of s t i.
Proof.
  intros I I' Hd H1 H2.
  destruct (cached ents t i) as [q|] eqn:Ec.
  - apply cached_Some in Ec as (a & Ha & He); [|apply (ci_unique _ _ _ _ _ _ I)].
    pose proof He as Hk. apply is_entry_spec in Hk as (Hh & <- & <-).
    rewrite (usage_of_cached _ _ _ _ _ _ _ _ I Ha Hh).
    destruct (H1 a q Ha He) as [(b & q' & Hb & He' & Hu)|[Hno Hu]].
    + apply is_entry_spec in He' as (Hh' & Et & Ei). rewrite <- Hu, <- Et, <- Ei.
      now apply (usage_of_cached _ _ _ _ _ _ _ _ I' Hb).
    + rewrite (usage_of_disk _ _ _ _ _ _ _ _ I' Hno), (Hd Hno). congruence.
  - pose proof (proj1 (cached_None ents t i) Ec) as Hno.
    rewrite (usage_of_disk _ _ _ _ _ _ _ _ I Hno).
    destruct (cached ents' t i) as [q'|] eqn:Ec'.
    + apply cached_Some in Ec' as (b & Hb & He); [|apply (ci_unique _ _ _ _ _ _ I')].
      rewrite <- (H2 Hno b q' Hb He). apply is_entry_spec in He as (Hh & <- & <-).
      now apply (usage_of_cached _ _ _ _ _ _ _ _ I' Hb).
    + pose proof (proj1 (cached_None ents' t i) Ec') as Hno'.
      rewrite (usage_of_disk _ _ _ _ _ _ _ _ I' Hno'). exact (Hd Hno').
Qed.

(** ** Flags *)

Lemma has_any_clear_eq (f m : Z) : has_any (Z.land f (Z.lnot m)) m = false.
Proof.
  unfold has_any. now rewrite <- Z.land_assoc, (Z.land_comm (Z.lnot m)), Z.land_lnot_diag, Z.land_0_r.
Qed.
Lemma has_any_clear_ne (f m m' : Z) :
  Z.land (Z.lnot m) m' = m' -> has_any (Z.land f (Z.lnot m)) m' = has_any f m'.
Proof. intros Hm. unfold has_any. now rewrite <- Z.land_assoc, Hm. Qed.
Lemma has_any_or_ne (f m m' : Z) : Z.land m m' = 0 -> has_any (Z.lor f m) m' = has_any f m'.
Proof. intros Hm. rewrite has_any_lor_l. unfold has_any at 2. rewrite Hm. apply orb_false_r. Qed.

(** ** Framing *)

Lemma rest_proj s s' :
  rest s' = rest s ->
  m_quota_ip (mp s') = m_quota_ip (mp s) /\ env s' = env s /\ nodes s' = nodes s /\
  now s' = now s /\ fi_config (mp s') = fi_config (mp s) /\ fs_client (mp s') = fs_client (mp s) /\
  m_quota_hashlock (mp s') = m_quota_hashlock (mp s) /\
  m_quota_availlock (mp s') = m_quota_availlock (mp s) /\
  console s' = console s /\ terminal s' = terminal s /\ m_quota_avail (mp s') = m_quota_avail (mp s).
Proof. unfold rest. intros Hr. injection Hr. intuition. Qed.

Lemma quota_ip_eq s s' t : m_quota_ip (mp s') = m_quota_ip (mp s) -> quota_ip s' t = quota_ip s t.
Proof. unfold quota_ip. now intros ->. Qed.

Lemma disk_usage_rest s s' t i :
  m_quota_ip (mp s') = m_quota_ip (mp s) -> env s' = env s -> disk_usage s' t i = disk_usage s t i.
Proof. intros Hm He. unfold disk_usage. now rewrite (quota_ip_eq _ _ _ Hm), He. Qed.

Lemma ent_ok_frame s s' held held' L L' C C' a q :
  ent_ok s held L C a q ->
  m_quota_ip (mp s') = m_quota_ip (mp s) -> env s' = env s -> nodes s' = nodes s ->
  (a ∈ L' <-> a ∈ L) -> (forall i, (i < 128)%nat -> a ∈ C' i <-> a ∈ C i) ->
  (a ∈ held' <-> a ∈ held) ->
  ent_ok s' held' L' C' a q.
Proof.
  intros [] Hm He Hn HL HC HH. pose proof (hash_slot_lt (qt_index q)).
  constructor; rewrite ?HL, ?HH, ?HC, ?He, ?Hn, ?(quota_ip_eq _ _ _ Hm) by assumption; try assumption.
  intros i Hi Hin. apply eo_slot0; [exact Hi|]. now apply HC.
Qed.

Lemma inv_avail_ok held s an ents L C :
  cache_inv held s an ents L C -> avail_ok ents L.
Proof.
  intros I a Ha. destruct (ci_links _ _ _ _ _ _ I) as [R _].
  assert (Hne : a <> an).
  { intros ->. pose proof (rp_nodup _ _ _ _ _ _ R) as Hnd. apply NoDup_cons in Hnd as [Hn _].
    contradiction. }
  destruct (ents !! a) as [q|] eqn:Eq.
  - destruct (ci_ent _ _ _ _ _ _ I a q Eq Hne). exists q. split; [reflexivity|].
    destruct (eo_free0 Ha) as (Hr & Hh & _).
    split; [destruct (qt_lock q); [exfalso; apply Hh, eo_lock0; reflexivity|reflexivity]|].
    split; [now apply eo_avail0|]. auto.
  - exfalso. destruct (rp_dom _ _ _ _ _ _ R a Ha) as [q0 Hq0].
    rewrite (rp_core _ _ _ _ _ _ R), lookup_fmap, Hq0 in Eq. discriminate.
Qed.

Lemma alter_as_insert ents f a q : ents !! a = Some q -> alter f a ents = <[a := f q]> ents.
Proof.
  intros Ha. apply map_eq. intros b. destruct (decide (a = b)) as [->|Hne].
  - now rewrite lookup_alter_eq, lookup_insert_eq, Ha.
  - now rewrite lookup_alter_ne, lookup_insert_ne.
Qed.

(** ** Taking the front of the available list *)

(** A structure out of both lists and locked, ready to be given a key. *)
Record blank q : Prop := mk_blank {
  bl_anchor : has_any (qt_flags q) SAM_QF_ANCHOR = false;
  bl_busy : busy q = false;
  bl_avail : on_avail q = false;
  bl_hashed : hashed q = false;
  bl_lock : qt_lock q = true;
  bl_ref : qt_ref q = 0;
  bl_typed : dquot_typed (qt_dent q)
}.

Lemma inv_take held s s' an ents L C C' r q q' :
  cache_inv held s an ents (r :: L) C -> ents !! r = Some q ->
  links s' an (<[r := q']> ents) L C' -> rest s' = rest s -> brk s' = brk s -> blank q' ->
  (forall b i, (i < 128)%nat -> b <> r -> b ∈ C' i <-> b ∈ C i) ->
  (forall i, (i < 128)%nat -> r ∉ C' i) ->
  cache_inv ({[r]} ∪ held) s' an (<[r := q']> ents) L C'.
Proof.
  intros I Hq Hl Hr Hb [] HC HrC. destruct (rest_proj _ _ Hr) as (Hm & He & Hn & _ & _ & Hcl & _).
  destruct (ci_links _ _ _ _ _ _ I) as [R _].
  pose proof (rp_nodup _ _ _ _ _ _ R) as Hnd. apply NoDup_cons in Hnd as [Hna Hnd].
  apply NoDup_cons in Hnd as [HrL _]. assert (Hran : r <> an) by set_solver.
  pose proof (ci_ent _ _ _ _ _ _ I r q Hq Hran) as Or.
  destruct (eo_free _ _ _ _ _ _ Or ltac:(set_solver)) as (Hr0 & Hrh & Hrd).
  assert (Hnode : forall ip n t, nodes s !! ip = Some n -> 0 <= t < SAM_QUOTA_DEFD -> bq n t <> QP r).
  { intros ip n t Hin Ht Hbq.
    destruct (ci_nodes _ _ _ _ _ _ I) as [_ Hnodes].
    destruct (proj2 (Hnodes ip n Hin) t r Ht Hbq) as (q0 & Hq0 & Hh0 & Et & _).
    rewrite Hq in Hq0. injection Hq0 as <-. pose proof (eo_ref _ _ _ _ _ _ Or Hh0) as Href.
    rewrite Et in Href. pose proof (refs_pos _ t r ip n Hin Hbq). lia. }
  constructor.
  - exact Hl.
  - destruct (ci_anchor _ _ _ _ _ _ I) as (aq & Haq & Hf & Hk). exists aq.
    rewrite lookup_insert_ne by exact Hran. auto.
  - intros b qb [[-> <-]|[Hne Hqb]]%lookup_insert_Some Hban.
    + constructor; try assumption.
      * rewrite bl_avail0. split; [discriminate|]. intros. exfalso. auto.
      * rewrite bl_hashed0. split; [discriminate|]. intros Hin. exfalso.
        exact (HrC _ (hash_slot_lt _) Hin).
      * intros i Hi Hin. exfalso. exact (HrC i Hi Hin).
      * rewrite bl_lock0. set_solver.
      * intros. exfalso. auto.
      * rewrite bl_hashed0. discriminate.
      * rewrite bl_hashed0. discriminate.
      * rewrite bl_hashed0. discriminate.
      * rewrite bl_hashed0. discriminate.
      * intros _. split; [exact bl_ref0|]. right. set_solver.
      * set_solver.
    + eapply ent_ok_frame; [apply (ci_ent _ _ _ _ _ _ I b qb Hqb Hban)|exact Hm|exact He|exact Hn| | |].
      * set_solver.
      * intros i Hi. now apply HC.
      * set_solver.
  - intros a b qa qb [[-> <-]|[Hna' Ha]]%lookup_insert_Some [[-> <-]|[Hnb' Hqb]]%lookup_insert_Some
      Hha Hhb; try congruence. now apply (ci_unique _ _ _ _ _ _ I).
  - intros b. rewrite lookup_insert_is_Some', Hb. intros [->|Hs];
      apply (ci_fresh _ _ _ _ _ _ I); eauto.
  - intros b [->%elem_of_singleton|Hbh]%elem_of_union.
    + rewrite lookup_insert_eq. eauto.
    + destruct (ci_held _ _ _ _ _ _ I b Hbh) as [Hs Hbn]. split; [|exact Hbn].
      apply lookup_insert_is_Some'. now right.
  - intros i Hi Hin. apply (ci_an_chain _ _ _ _ _ _ I i Hi). apply HC; auto.
  - destruct (ci_nodes _ _ _ _ _ _ I) as [Hsz Hnodes]. split; [now rewrite Hn|]. rewrite Hn.
    intros ip n Hin. destruct (Hnodes ip n Hin) as [Hlen Hp]. split; [exact Hlen|].
    intros t a Ht Hbq. destruct (Hp t a Ht Hbq) as (q0 & Hq0 & Hrest). exists q0.
    split; [|exact Hrest]. rewrite lookup_insert_ne; [exact Hq0|].
    intros ->. exact (Hnode ip n t Hin Ht Hbq).
  - intros t t' ip. rewrite !(quota_ip_eq _ _ _ Hm). apply (ci_files _ _ _ _ _ _ I).
  - rewrite Hcl. apply (ci_client _ _ _ _ _ _ I).
Qed.

(** [sam_quot_unhash] of a structure that was never given a key. *)
Lemma unhash_blank a q s :
  m_quota_hashlock (mp s) = true -> heap s !! a = Some q -> qt_lock q = true -> qt_ref q = 0 ->
  hashed q = false -> wp (sam_quot_unhash a) (fun _ s' => s' = s) s.
Proof.
  intros Hhl Hq Hlk Href Hh. unfold sam_quot_unhash.
  apply wp_bind, wp_assert_hashlock; [exact Hhl|].
  apply wp_bind; eapply wp_assert_held; [exact Hq|exact Hlk|].
  apply wp_bind; eapply wp_assert_ref; [exact Hq|now rewrite Href|].
  apply wp_bind; eapply wp_get_q; [exact Hq|]. unfold hashed in Hh. rewrite Hh.
  now apply wp_ret.
Qed.

(** What happens to the records when [a] is taken: others stay, [a] was clean. *)
Record evicted held s ents ents' a : Prop := mk_evicted {
  ev_kept : forall b q, b <> a -> ents !! b = Some q -> ents' !! b = Some q;
  ev_new : forall b q, b <> a -> ents' !! b = Some q -> ents !! b = Some q \/ hashed q = false;
  ev_clean : forall q, ents !! a = Some q -> hashed q = true ->
    usage (qt_dent q) = disk_use (env s) (qt_vp q) (qt_index q);
  ev_held : a ∉ held
}.

Definition taken held s an ents a s' : Prop :=
  rest s' = rest s /\ exists ents' L' C' q,
    cache_inv ({[a]} ∪ held) s' an ents' L' C' /\ ents' !! a = Some q /\ blank q /\
    evicted held s ents ents' a.

Lemma in_middle_iff (b a : addr) (l1 l2 : list addr) :
  b <> a -> b ∈ l1 ++ l2 <-> b ∈ l1 ++ a :: l2.
Proof. set_solver. Qed.

Lemma blank_taken s held L C a q :
  ent_ok s held L C a q -> qt_ref q = 0 ->
  let q1 := clear_flags SAM_QF_AVAIL (set_lock true q) in
  blank (clear_flags SAM_QF_HASHED q1) /\ (hashed q = false -> blank q1).
Proof.
  intros [Han Hbu _ _ _ _ _ _ _ _ _ _ _ Hty] Hr. cbv zeta.
  split; [|intros Hh]; constructor; unfold busy, on_avail, hashed in *; cbn;
    rewrite ?has_any_clear_eq, ?has_any_clear_ne, ?has_any_clear_eq by reflexivity;
    try reflexivity; assumption.
Qed.

Lemma take_front_spec held s s1 an ents L C r q :
  cache_inv held s an ents (r :: L) C -> ents !! r = Some q ->
  m_quota_hashlock (mp s) = true ->
  links s1 an (alter (clear_flags SAM_QF_AVAIL) r (alter (set_lock true) r ents)) L C ->
  rest s1 = rest s -> brk s1 = brk s ->
  wp (sam_quot_unhash r) (fun _ s' => taken held s an ents r s') s1.
Proof.
  intros I Hq Hhl Hl1 Hr1 Hb1.
  destruct (ci_links _ _ _ _ _ _ I) as [R _].
  pose proof (rp_nodup _ _ _ _ _ _ R) as Hnd. apply NoDup_cons in Hnd as [Hna Hnd].
  assert (Hran : r <> an) by set_solver.
  pose proof (ci_ent _ _ _ _ _ _ I r q Hq Hran) as Or.
  destruct (eo_free _ _ _ _ _ _ Or ltac:(set_solver)) as (Hr0 & Hrh & Hrd).
  rewrite alter_alter_eq, (alter_as_insert _ _ _ _ Hq) in Hl1.
  set (q1 := clear_flags SAM_QF_AVAIL (set_lock true q)) in *.
  cbn in Hl1. fold q1 in Hl1.
  assert (Hev : forall q', evicted held s ents (<[r := q']> ents) r).
  { intros q'. split.
    - intros b qb Hne Hb. now rewrite lookup_insert_ne by congruence.
    - intros b qb Hne Hb. rewrite lookup_insert_ne in Hb by congruence. now left.
    - intros q0 Hq0 Hh. rewrite Hq in Hq0. injection Hq0 as <-.
      apply (eo_disk _ _ _ _ _ _ Or Hh Hrd).
    - exact Hrh. }
  destruct (hashed q) eqn:Hh.
  - pose proof (proj1 (eo_hashed _ _ _ _ _ _ Or) Hh) as Hin.
    apply list_elem_of_split in Hin as (l1 & l2 & Ec).
    eapply wp_mono.
    { eapply (unhash_spec r q1 s1 an _ _ _ l1 l2 Hl1).
      - rewrite <- Hhl. apply (rest_proj _ _ Hr1).
      - apply lookup_insert_eq.
      - reflexivity.
      - exact Hr0.
      - unfold q1. cbn. rewrite has_any_clear_ne by reflexivity. exact Hh.
      - exact Ec. }
    intros _ s2 (Hl2 & Hr2 & Hb2). split; [congruence|].
    rewrite alter_insert_eq in Hl2. change (qt_index q1) with (qt_index q) in Hl2.
    eexists _, L, _, _. split; [|split; [apply lookup_insert_eq|split; [|apply Hev]]].
    + eapply inv_take; [exact I|exact Hq|exact Hl2|congruence|congruence| | |].
      * apply (blank_taken _ _ _ _ _ _ Or Hr0).
      * intros b i Hi Hne. unfold set_chain. destruct (decide _) as [->|_]; [|reflexivity].
        rewrite Ec. now apply in_middle_iff.
      * intros i Hi. unfold set_chain. destruct (decide _) as [->|Hne].
        -- pose proof (rp_chain_nodup _ _ _ _ _ _ R _ Hi) as Hndc. rewrite Ec in Hndc.
           apply NoDup_app in Hndc as (_ & N1 & N2). apply NoDup_cons in N2 as [N2 _]. set_solver.
        -- intros Hin. apply Hne. apply (eo_slot _ _ _ _ _ _ Or i Hi Hin).
    + apply (blank_taken _ _ _ _ _ _ Or Hr0).
  - destruct (links_heap _ _ _ _ _ r q1 Hl1 ltac:(apply lookup_insert_eq)) as (q0 & Hq0 & E1).
    pose proof (proj2 (blank_taken _ _ _ _ _ _ Or Hr0) Hh) as Hb1'. fold q1 in Hb1'.
    eapply wp_mono.
    { eapply (unhash_blank r q0 s1).
      - rewrite <- Hhl. apply (rest_proj _ _ Hr1).
      - exact Hq0.
      - apply (f_equal qt_lock) in E1. cbn in E1. congruence.
      - apply (f_equal qt_ref) in E1. cbn in E1. congruence.
      - rewrite <- (bl_hashed _ Hb1'). rewrite E1. reflexivity. }
    intros _ s2 ->. split; [exact Hr1|]. eexists _, L, _, q1.
    split; [|split; [apply lookup_insert_eq|split; [exact Hb1'|apply Hev]]].
    eapply inv_take; [exact I|exact Hq|exact Hl1|exact Hr1|exact Hb1|exact Hb1'|reflexivity|].
    intros i Hi Hin. pose proof (eo_slot _ _ _ _ _ _ Or i Hi Hin) as ->.
    apply (eo_hashed _ _ _ _ _ _ Or) in Hin. congruence.
Qed.

(** ** Allocating a batch *)

Lemma zero_dquot_typed : dquot_typed zero_dquot.
Proof. unfold dquot_typed, dquot_fields. repeat constructor; vm_compute; congruence. Qed.

Lemma new_quot_ok s held L C t a :
  a ∈ L -> a ∉ held -> (forall i, (i < 128)%nat -> a ∉ C i) -> ent_ok s held L C a (new_quot t).
Proof.
  intros HL Hh HC. constructor; cbn; try reflexivity; try discriminate.
  - tauto.
  - split; [discriminate|]. intros Hin. exfalso. exact (HC _ (hash_slot_lt _) Hin).
  - intros i Hi Hin. exfalso. exact (HC i Hi Hin).
  - split; [discriminate|contradiction].
  - auto.
  - intros _. auto.
  - intros _. auto.
  - apply zero_dquot_typed.
Qed.

Lemma inv_batch held s s' an ents ents' L C news n :
  cache_inv held s an ents L C -> links s' an ents' (news ++ L) C -> rest s' = rest s ->
  brk s' = (brk s + n)%nat -> batch (now s) (brk s) n ents ents' news ->
  cache_inv held s' an ents' (news ++ L) C.
Proof.
  intros I Hl Hr Hb [_ Bn Bo]. destruct (rest_proj _ _ Hr) as (Hm & He & Hn & _ & _ & Hcl & _).
  destruct (ci_links _ _ _ _ _ _ I) as [R _].
  assert (Hold : forall b q, ents !! b = Some q -> b ∉ news).
  { intros b q Hq Hin. destruct (Bn b Hin) as (_ & Hno & _). congruence. }
  assert (Hcd : forall i b, (i < 128)%nat -> b ∈ C i -> is_Some (ents !! b)).
  { intros i b Hi Hin. rewrite (rp_core _ _ _ _ _ _ R). apply core_is_Some.
    now apply (rp_chain_dom _ _ _ _ _ _ R i). }
  constructor.
  - exact Hl.
  - destruct (ci_anchor _ _ _ _ _ _ I) as (aq & Haq & Hf). exists aq.
    rewrite Bo by eauto. auto.
  - intros b q Hq Hne. destruct (decide (b ∈ news)) as [Hin|Hnin].
    + destruct (Bn b Hin) as (_ & Hno & Hnew). rewrite Hq in Hnew. injection Hnew as ->.
      apply new_quot_ok; [set_solver| |].
      * intros Hbh. destruct (ci_held _ _ _ _ _ _ I b Hbh) as [[? ?] _]. congruence.
      * intros i Hi Hc. destruct (Hcd i b Hi Hc). congruence.
    + rewrite Bo in Hq by exact Hnin.
      eapply ent_ok_frame; [apply (ci_ent _ _ _ _ _ _ I b q Hq Hne)|exact Hm|exact He|exact Hn|
        set_solver|reflexivity|reflexivity].
  - intros a b qa qb Ha Hqb Hha Hhb.
    assert (Hx : forall x qx, ents' !! x = Some qx -> hashed qx = true -> ents !! x = Some qx).
    { intros x qx Hx Hhx. destruct (decide (x ∈ news)) as [Hin|Hnin]; [|now rewrite <- Bo].
      destruct (Bn x Hin) as (_ & _ & Hnew). rewrite Hx in Hnew. injection Hnew as ->. discriminate. }
    apply (ci_unique _ _ _ _ _ _ I); auto.
  - intros b Hsb. rewrite Hb. destruct (decide (b ∈ news)) as [Hin|Hnin].
    + destruct (Bn b Hin). lia.
    + rewrite Bo in Hsb by exact Hnin. pose proof (ci_fresh _ _ _ _ _ _ I b Hsb). lia.
  - intros b Hbh. destruct (ci_held _ _ _ _ _ _ I b Hbh) as [[q Hq] Hne]. split; [|exact Hne].
    rewrite Bo by eauto. eauto.
  - apply (ci_an_chain _ _ _ _ _ _ I).
  - destruct (ci_nodes _ _ _ _ _ _ I) as [Hsz Hnodes]. unfold nodes_ok. rewrite Hn.
    split; [exact Hsz|]. intros ip n0 Hin. destruct (Hnodes ip n0 Hin) as [Hlen Hp].
    split; [exact Hlen|]. intros t a Ht Hbq. destruct (Hp t a Ht Hbq) as (q0 & Hq0 & Hrest).
    exists q0. split; [rewrite Bo; eauto|exact Hrest].
  - intros t t' ip. rewrite !(quota_ip_eq _ _ _ Hm). apply (ci_files _ _ _ _ _ _ I).
  - rewrite Hcl. apply (ci_client _ _ _ _ _ _ I).
Qed.

Lemma evicted_batch held s s1 ents ents1 ents2 news n a :
  batch (now s) (brk s) n ents ents1 news -> env s1 = env s ->
  evicted held s1 ents1 ents2 a -> evicted held s ents ents2 a.
Proof.
  intros [_ Bn Bo] He [Ek En Ec Eh]. split; [| | |exact Eh].
  - intros b q Hne Hb. apply Ek; [exact Hne|]. rewrite Bo; [exact Hb|].
    intros Hin. destruct (Bn b Hin) as (_ & ? & _). congruence.
  - intros b q Hne Hb. destruct (En b q Hne Hb) as [Hb1|]; [|now right].
    destruct (decide (b ∈ news)) as [Hin|Hnin]; [right|left; now rewrite <- Bo].
    destruct (Bn b Hin) as (_ & _ & Hnew). rewrite Hb1 in Hnew. injection Hnew as ->. reflexivity.
  - intros q Hq Hh. rewrite <- He. apply Ec; [|exact Hh]. rewrite Bo; [exact Hq|].
    intros Hin. destruct (Bn a Hin) as (_ & ? & _). congruence.
Qed.

Lemma new_quot_reclaimable t : reclaimable t (new_quot t) = true.
Proof.
  unfold reclaimable. change (has_any (qt_flags (new_quot t)) (Z.lor SAM_QF_BUSY SAM_QF_DIRTY)) with false.
  cbn [negb andb]. apply Z.leb_le. cbn. unfold SAM_QUOTA_EXPIRE. lia.
Qed.

(** The loop of [sam_quot_getfree] returns a blank structure in at most two turns:
    either the oldest available one, or one of a new batch. *)
Lemma getfree_spec held s an ents L C :
  cache_inv held s an ents L C ->
  m_quota_hashlock (mp s) = true -> m_quota_availlock (mp s) = false ->
  wp sam_quot_getfree (fun a s' => taken held s an ents a s') s.
Proof.
  intros I Hhl Hal. unfold sam_quot_getfree.
  apply wp_bind, wp_assert_hashlock; [exact Hhl|].
  cbn [getfree_loop]. apply wp_bind. eapply wp_mono.
  { eapply getfront_spec; [apply I|exact Hal|eapply inv_avail_ok; exact I|apply I]. }
  intros r s1 (Er & Hr1 & Hb1 & Hl1). destruct r as [r|].
  - symmetry in Er. unfold front_of in Er. destruct L as [|r0 L]; [discriminate|].
    destruct (ents !! r0) as [q|] eqn:Hq; [|discriminate].
    destruct (reclaimable (now s) q); [|discriminate]. injection Er as ->.
    apply wp_bind. eapply wp_mono.
    { eapply (take_front_spec held s s1); [exact I|exact Hq|exact Hhl|exact Hl1|exact Hr1|exact Hb1]. }
    intros u s2 Ht. now apply wp_ret.
  - destruct (rest_proj _ _ Hr1) as (Hm1 & He1 & Hn1 & Hw1 & _ & _ & Hh1 & Ha1 & _).
    assert (Hf1 : fresh s1 ents) by (intros b Hb; rewrite Hb1; now apply (ci_fresh _ _ _ _ _ _ I)).
    apply wp_bind. eapply wp_mono.
    { eapply alloc_loop_spec; [exact Hl1|congruence|exact Hf1]. }
    intros _ s2 (ents2 & news & Hl2 & Hr2 & Hb2 & HB). rewrite Hw1, Hb1 in *.
    assert (Hr2' : rest s2 = rest s) by congruence.
    destruct (rest_proj _ _ Hr2') as (Hm2 & He2 & Hn2 & Hw2 & _ & _ & Hh2 & Ha2 & _).
    pose proof (inv_batch _ _ s2 _ _ _ _ _ _ _ I Hl2 Hr2' Hb2 HB) as I2.
    apply wp_bind, wp_when; [intros Hd; discriminate Hd|intros _].
    apply wp_bind. eapply wp_mono.
    { eapply getfront_spec; [exact Hl2|congruence|eapply inv_avail_ok; exact I2|apply I2]. }
    intros r s3 (Er3 & Hr3 & Hb3 & Hl3). rewrite Hw2 in Er3.
    destruct news as [|a0 news]; [destruct HB as [HBl _ _]; discriminate HBl|].
    destruct (ba_new _ _ _ _ _ _ HB a0 ltac:(set_solver)) as (_ & _ & Hnew).
    cbn [app front_of] in Er3. rewrite Hnew, new_quot_reclaimable in Er3. subst r.
    apply wp_bind. eapply wp_mono.
    { eapply (take_front_spec held s2 s3); [exact I2|exact Hnew|congruence|exact Hl3|exact Hr3|exact Hb3]. }
    intros _ s4 (Hr4 & ents' & L' & C' & q' & I' & Hq' & Hbl & Hev). apply wp_ret.
    split; [congruence|]. exists ents', L', C', q'. repeat (split; [assumption|]).
    eapply evicted_batch; [exact HB|exact He2|exact Hev].
Qed.
End Inv.
