(* ===== verification/QuotaGet.v ===== *)
(** * The quota cache: getting and releasing a record

    [sam_quot_get] and [sam_quot_rel] of src/src/fs/samfs/cquota.c keep the
    invariant of the cache and the usage of every key. *)

From S2P Require Import Prelude DList QuotaRec QuotaBytes Monad QuotaCache QuotaLinks QuotaPrims QuotaInv.

Section Get.
Context {E : Type} `{QuotaEnv E} `{!QuotaEnvLaws E}.
Implicit Types (s : kstate E) (a an : addr) (q : sam_quot) (ents : gmap addr sam_quot)
  (L : list addr) (C : chain_table) (held : gset addr).

(** ** Reading a record *)

Lemma clear_usage_typed (d : sam_dquot) : dquot_typed d -> dquot_typed (clear_usage d).
Proof.
  unfold dquot_typed, dquot_fields. rewrite !Forall_cons. cbn [fst snd].
  intros Hd. decompose [and] Hd. clear Hd. cbn.
  repeat match goal with |- _ /\ _ => split end;
    (assumption || apply Forall_nil || (unfold sint_range; cbn; lia)).
Qed.

Lemma read_default_spec ip buf s :
  dquot_typed buf ->
  wp (read_default ip buf) (fun r s' => s' = s /\ fst r = 0 /\ dquot_typed (snd r) /\
    usage (snd r) = zero_usage) s.
Proof.
  intros Hb. unfold read_default. apply wp_bind, wp_gets. rewrite qf_read by lia. cbn [negb Z.eqb].
  apply wp_ret. split; [reflexivity|]. split; [reflexivity|]. split; [|reflexivity].
  apply clear_usage_typed. destruct (qf_rec (env s) ip 0) eqn:Er; [|exact Hb].
  eapply qf_rec_typed. exact Er.
Qed.

(** A record reads as the usage in the file; an unset record as no usage, with the
    limits of record 0. *)
Lemma read_entry_spec ip buf i s :
  fs_client (mp s) = false -> 0 <= i -> dquot_typed buf ->
  wp (sam_quota_read_entry ip buf i) (fun r s' => s' = s /\ fst r = 0 /\ dquot_typed (snd r) /\
    usage (snd r) = disk_use (env s) ip i) s.
Proof.
  intros Hc Hi Hb. unfold sam_quota_read_entry. apply wp_bind, wp_gets. rewrite Hc.
  apply wp_bind, wp_gets. unfold disk_use.
  destruct (Z.leb_spec (qf_size (env s) ip) (i * sizeof_dquot)) as [Hs|Hs].
  - rewrite (proj2 (qf_rec_size (env s) ip i Hi) Hs). now apply read_default_spec.
  - destruct (qf_rec (env s) ip i) as [d|] eqn:Er.
    2:{ apply qf_rec_size in Er; lia. }
    rewrite qf_read by exact Hi. rewrite Er. cbn [from_option negb Z.eqb]. unfold id.
    pose proof (qf_rec_typed _ _ _ _ Er) as Hd.
    destruct (sam_zerocmp (dquot_bytes d)) eqn:Ez.
    + apply sam_zerocmp_dquot in Ez; [|exact Hd]. subst d. now apply read_default_spec.
    + apply wp_ret. repeat split; auto.
Qed.

Lemma quota_read_spec a q s an ents L C :
  links s an ents L C -> ents !! a = Some q -> qt_lock q = true -> 0 <= qt_index q ->
  fs_client (mp s) = false -> dquot_typed (qt_dent q) ->
  wp (sam_quota_read a) (fun err s' => err = 0 /\ rest s' = rest s /\ brk s' = brk s /\
    exists d, dquot_typed d /\ usage d = disk_use (env s) (qt_vp q) (qt_index q) /\
      links s' an (<[a := clear_flags SAM_QF_BUSY (set_dent d (or_flags SAM_QF_BUSY q))]> ents) L C) s.
Proof.
  intros Hl Hq Hlk Hi Hc Ht. destruct (links_heap _ _ _ _ _ _ _ Hl Hq) as (q0 & Hq0 & Eq).
  assert (Ef : qt_lock q0 = true /\ qt_index q0 = qt_index q /\ qt_vp q0 = qt_vp q /\
    qt_dent q0 = qt_dent q) by (subst q; auto).
  destruct Ef as (E1 & E2 & E3 & E4). unfold sam_quota_read.
  apply wp_bind; eapply wp_assert_held; [exact Hq0|exact E1|].
  apply wp_bind; eapply wp_get_q; [exact Hq0|]. rewrite E2, E3, E4.
  rewrite (proj2 (Z.ltb_ge _ _) Hi).
  apply wp_bind; eapply wp_mod_core; [auto with qlinks|exact Hl|exact Hq|].
  intros s1 Hl1 Hr1 Hb1. destruct (rest_proj _ _ Hr1) as (_ & He1 & _ & _ & _ & Hc1 & _).
  apply wp_bind. eapply wp_mono; [apply read_entry_spec; [congruence|exact Hi|exact Ht]|].
  intros [err d] s2 (-> & Herr & Hty & Hu). cbn [fst snd] in *. subst err.
  rewrite (alter_as_insert _ _ _ _ Hq) in Hl1.
  apply wp_bind; eapply wp_mod_core; [unfold set_dent; auto with qlinks|exact Hl1|apply lookup_insert_eq|].
  intros s3 Hl3 Hr3 Hb3. rewrite alter_insert_eq in Hl3.
  apply wp_bind; eapply wp_mod_core; [auto with qlinks|exact Hl3|apply lookup_insert_eq|].
  intros s4 Hl4 Hr4 Hb4. rewrite alter_insert_eq in Hl4. apply wp_ret.
  split; [reflexivity|]. split; [congruence|]. split; [congruence|].
  exists d. split; [exact Hty|]. split; [congruence|exact Hl4].
Qed.

(** ** Giving a blank structure a key *)

Lemma refs_none nd t a : (forall ip n, nd !! ip = Some n -> bq n t <> QP a) -> refs nd t a = 0.
Proof.
  intros Hno. unfold refs. rewrite (proj2 (map_size_empty_iff _)); [reflexivity|].
  apply map_empty. intros ip. apply map_lookup_filter_None. right. intros n Hn. cbn. exact (Hno ip n Hn).
Qed.

(** A structure that has just been given a key. *)
Record keyed s q (t i : Z) : Prop := mk_keyed {
  ky_anchor : has_any (qt_flags q) SAM_QF_ANCHOR = false;
  ky_busy : busy q = false;
  ky_avail : on_avail q = false;
  ky_hashed : hashed q = true;
  ky_dirty : dirty q = false;
  ky_lock : qt_lock q = true;
  ky_ref : qt_ref q = 0;
  ky_type : qt_type q = t;
  ky_index : qt_index q = i;
  ky_vp : quota_ip s t = Some (qt_vp q);
  ky_typed : dquot_typed (qt_dent q);
  ky_usage : usage (qt_dent q) = disk_use (env s) (qt_vp q) i
}.

Lemma inv_hash_in held s s' an ents L C a q q' t i :
  cache_inv held s an ents L C -> a ∈ held -> ents !! a = Some q -> blank q ->
  0 <= t < SAM_QUOTA_DEFD -> 0 <= i ->
  (forall b qb, ents !! b = Some qb -> is_entry qb t i = false) ->
  m_quota_ip (mp s') = m_quota_ip (mp s) -> env s' = env s -> nodes s' = nodes s ->
  fs_client (mp s') = fs_client (mp s) -> brk s' = brk s ->
  keyed s q' t i ->
  links s' an (<[a := q']> ents) L (set_chain C (hash_slot i) (a :: C (hash_slot i))) ->
  cache_inv held s' an (<[a := q']> ents) L (set_chain C (hash_slot i) (a :: C (hash_slot i))).
Proof.
  intros I Hah Hq Hbl Ht Hi Hno Hm He Hn Hcl Hb [] Hl.
  destruct (ci_held _ _ _ _ _ _ I a Hah) as [_ Haan].
  pose proof (ci_ent _ _ _ _ _ _ I a q Hq Haan) as Oa.
  assert (HaC : forall j, (j < 128)%nat -> a ∉ C j).
  { intros j Hj Hin. pose proof (eo_slot _ _ _ _ _ _ Oa j Hj Hin) as ->.
    apply (eo_hashed _ _ _ _ _ _ Oa) in Hin. rewrite (bl_hashed _ Hbl) in Hin. discriminate. }
  assert (HaL : a ∉ L).
  { intros Hin. apply (eo_avail _ _ _ _ _ _ Oa) in Hin. rewrite (bl_avail _ Hbl) in Hin. discriminate. }
  assert (Hnoref : forall ip n t', nodes s !! ip = Some n -> 0 <= t' < SAM_QUOTA_DEFD -> bq n t' <> QP a).
  { intros ip n t' Hin Ht' Hbq. destruct (ci_nodes _ _ _ _ _ _ I) as [_ Hnodes].
    destruct (proj2 (Hnodes ip n Hin) t' a Ht' Hbq) as (q0 & Hq0 & Hh0 & _).
    rewrite Hq in Hq0. injection Hq0 as <-. rewrite (bl_hashed _ Hbl) in Hh0. discriminate. }
  assert (HC : forall b j, (j < 128)%nat -> b <> a ->
    b ∈ set_chain C (hash_slot i) (a :: C (hash_slot i)) j <-> b ∈ C j).
  { intros b j Hj Hne. unfold set_chain. destruct (decide _) as [->|_]; set_solver. }
  constructor.
  - exact Hl.
  - destruct (ci_anchor _ _ _ _ _ _ I) as (aq & Haq & Hf). exists aq.
    rewrite lookup_insert_ne by congruence. auto.
  - intros b qb [[-> <-]|[Hne Hqb]]%lookup_insert_Some Hban.
    + constructor; try assumption.
      * rewrite ky_avail0. split; [discriminate|contradiction].
      * rewrite ky_hashed0, ky_index0, set_chain_eq. set_solver.
      * intros j Hj. unfold set_chain. destruct (decide _) as [->|Hne]; [congruence|].
        intros Hin. exfalso. exact (HaC j Hj Hin).
      * rewrite ky_lock0. tauto.
      * contradiction.
      * intros _. rewrite ky_type0, ky_index0, (quota_ip_eq _ _ _ Hm). auto.
      * contradiction.
      * intros _ _. rewrite He, ky_index0. exact ky_usage0.
      * intros _. rewrite ky_ref0, Hn, ky_type0. symmetry. apply refs_none. intros ip n Hin.
        now apply (Hnoref ip).
      * rewrite ky_hashed0. discriminate.
      * contradiction.
    + eapply ent_ok_frame; [apply (ci_ent _ _ _ _ _ _ I b qb Hqb Hban)|exact Hm|exact He|exact Hn|
        reflexivity|intros j Hj; now apply HC|reflexivity].
  - assert (Hclash : forall b qb, ents !! b = Some qb -> hashed qb = true ->
      qt_type qb = t -> qt_index qb = i -> False).
    { intros b qb Hb' Hh1 Ht1 Hi1. pose proof (Hno b qb Hb') as Hf.
      rewrite (proj2 (is_entry_spec qb t i)) in Hf; [discriminate|auto]. }
    intros b c qb qc [[-> <-]|[Hnb Hqb]]%lookup_insert_Some [[-> <-]|[Hnc Hqc]]%lookup_insert_Some
      Hhb Hhc Et Ei; [reflexivity|exfalso; eapply (Hclash c qc); eauto; congruence|
        exfalso; eapply (Hclash b qb); eauto; congruence|].
    now apply (ci_unique _ _ _ _ _ _ I b c qb qc).
  - intros b. rewrite lookup_insert_is_Some', Hb. intros [->|Hs];
      apply (ci_fresh _ _ _ _ _ _ I); eauto.
  - intros b Hbh. destruct (ci_held _ _ _ _ _ _ I b Hbh) as [Hs Hbn]. split; [|exact Hbn].
    apply lookup_insert_is_Some'. now right.
  - intros j Hj Hin. apply (ci_an_chain _ _ _ _ _ _ I j Hj). apply (HC an); auto.
  - destruct (ci_nodes _ _ _ _ _ _ I) as [Hsz Hnodes]. unfold nodes_ok. rewrite Hn.
    split; [exact Hsz|]. intros ip n Hin. destruct (Hnodes ip n Hin) as [Hlen Hp].
    split; [exact Hlen|]. intros t' b Ht' Hbq. destruct (Hp t' b Ht' Hbq) as (q0 & Hq0 & Hrest).
    exists q0. split; [|exact Hrest]. rewrite lookup_insert_ne; [exact Hq0|].
    intros ->. exact (Hnoref ip n t' Hin Ht' Hbq).
  - intros t1 t2 ip. rewrite !(quota_ip_eq _ _ _ Hm). apply (ci_files _ _ _ _ _ _ I).
  - rewrite Hcl. apply (ci_client _ _ _ _ _ _ I).
Qed.

(** ** Which record an inode is charged to *)

(** The index charged for type [t], [None] when no quota applies. *)
Definition record_for s (n : sam_node) (t : Z) : option Z :=
  match index_di n t with
  | Some i => if bool_decide (bq n t = NODQUOT) || (i <? 0) || bool_decide (quota_ip s t = None)
              then None else Some i
  | None => None
  end.

(** Inodes that differ only in quota pointers, and not in what they are charged to. *)
Definition node_like s s' (n n' : sam_node) : Prop :=
  set_bquota [] n' = set_bquota [] n /\
  forall t, 0 <= t < SAM_QUOTA_DEFD -> record_for s' n' t = record_for s n t.
Definition nodes_like s s' : Prop :=
  forall ip, option_Forall2 (node_like s s') (nodes s !! ip) (nodes s' !! ip).

(** What every use of the cache leaves alone. *)
Record keeps held s s' : Prop := mk_keeps {
  kp_config : fi_config (mp s') = fi_config (mp s);
  kp_client : fs_client (mp s') = fs_client (mp s);
  kp_files : m_quota_ip (mp s') = m_quota_ip (mp s);
  kp_now : now s' = now s;
  kp_console : console s' = console s;
  kp_nodes : nodes_like s s';
  kp_held : forall a, a ∈ held -> core <$> heap s' !! a = core <$> heap s !! a;
  kp_usage : forall t i, 0 <= t < SAM_QUOTA_DEFD -> 0 <= i -> usage_of s' t i = usage_of s t i
}.

Lemma node_like_refl s s' n :
  m_quota_ip (mp s') = m_quota_ip (mp s) -> node_like s s' n n.
Proof.
  intros Hm. split; [reflexivity|]. intros t _. unfold record_for.
  now rewrite (quota_ip_eq _ _ _ Hm).
Qed.

Lemma nodes_like_eq s s' :
  m_quota_ip (mp s') = m_quota_ip (mp s) -> nodes s' = nodes s -> nodes_like s s'.
Proof.
  intros Hm Hn ip. rewrite Hn. destruct (nodes s !! ip); constructor. now apply node_like_refl.
Qed.

Lemma nodes_like_trans s1 s2 s3 : nodes_like s1 s2 -> nodes_like s2 s3 -> nodes_like s1 s3.
Proof.
  intros H1 H2 ip. specialize (H1 ip). specialize (H2 ip).
  destruct H1 as [n1 n2 [E1 R1]|]; inversion H2 as [? n3 [E2 R2]|]; subst; constructor.
  split; [congruence|]. intros t Ht. now rewrite R2, R1.
Qed.

#[export] Instance keeps_preorder held : PreOrder (keeps held).
Proof.
  split.
  - intros s. constructor; auto. now apply nodes_like_eq.
  - intros s1 s2 s3 [] []. constructor; try congruence.
    + eapply nodes_like_trans; eauto.
    + intros a Ha. rewrite kp_held1, kp_held0; auto.
    + intros t i Ht Hi. rewrite kp_usage1, kp_usage0; auto.
Qed.

Lemma keeps_weaken held held' s s' : held' ⊆ held -> keeps held s s' -> keeps held' s s'.
Proof. intros Hs []. constructor; auto. Qed.

(** ** Reference counts *)

Lemma bq_set (n : sam_node) (t t' : Z) (v : qptr) :
  length (bquota n) = 3%nat -> 0 <= t < SAM_QUOTA_DEFD -> 0 <= t' < SAM_QUOTA_DEFD ->
  bq (set_bquota (<[Z.to_nat t := v]> (bquota n)) n) t' = if decide (t' = t) then v else bq n t'.
Proof.
  unfold SAM_QUOTA_DEFD. intros Hlen Ht Ht'. unfold bq. cbn.
  destruct (decide (t' = t)) as [->|Hne].
  - rewrite list_lookup_insert_eq by lia. reflexivity.
  - rewrite list_lookup_insert_ne by lia. reflexivity.
Qed.

(** Changing the pointer of inode [ip] for type [t] from [old] to [new], and the
    count of structure [a] with it. *)
Lemma inv_repoint held s an ents L C a q ip n t (new : qptr) (r : Z) s' :
  cache_inv held s an ents L C -> a ∈ held -> ents !! a = Some q -> hashed q = true ->
  qt_type q = t -> 0 <= t < SAM_QUOTA_DEFD -> nodes s !! ip = Some n ->
  (bq n t = QNULL /\ new = QP a /\ index_di n t = Some (qt_index q) /\ r = qt_ref q + 1 \/
   bq n t = QP a /\ new = QNULL /\ r = qt_ref q - 1) ->
  links s' an (<[a := set_ref r q]> ents) L C ->
  m_quota_ip (mp s') = m_quota_ip (mp s) -> fs_client (mp s') = fs_client (mp s) ->
  env s' = env s -> brk s' = brk s ->
  nodes s' = <[ip := set_bquota (<[Z.to_nat t := new]> (bquota n)) n]> (nodes s) ->
  cache_inv held s' an (<[a := set_ref r q]> ents) L C.
Proof.
  intros I Hah Hq Hh Et Ht Hn Hcase Hl Hmp Hcl He Hb Hns.
  destruct (ci_held _ _ _ _ _ _ I a Hah) as [_ Haan].
  pose proof (ci_ent _ _ _ _ _ _ I a q Hq Haan) as Oa.
  destruct (ci_nodes _ _ _ _ _ _ I) as [Hsz Hnodes].
  destruct (Hnodes ip n Hn) as [Hlen Hptr].
  set (n' := set_bquota (<[Z.to_nat t := new]> (bquota n)) n) in *.
  assert (Hbq : forall t', 0 <= t' < SAM_QUOTA_DEFD -> bq n' t' = if decide (t' = t) then new else bq n t')
    by (intros; now apply bq_set).
  assert (Hidx : forall t', index_di n' t' = index_di n t') by reflexivity.
  assert (Hrefs : forall t' b, 0 <= t' < SAM_QUOTA_DEFD -> (t', b) <> (t, a) ->
    refs (nodes s') t' b = refs (nodes s) t' b).
  { intros t' b Ht' Hne. rewrite Hns, (refs_insert _ _ _ _ n n' Hn), Hbq by exact Ht'.
    destruct (decide (t' = t)) as [->|_]; [|lia].
    destruct Hcase as [(Eo & -> & _)|(Eo & -> & _)]; rewrite Eo;
      repeat destruct (decide _); try congruence; lia. }
  assert (Hrefa : refs (nodes s') t a = r).
  { rewrite Hns, (refs_insert _ _ _ _ n n' Hn), Hbq by exact Ht. rewrite (decide_True (P := t = t)) by reflexivity.
    pose proof (eo_ref _ _ _ _ _ _ Oa Hh) as Hr. rewrite Et in Hr.
    destruct Hcase as [(Eo & -> & _ & ->)|(Eo & -> & ->)]; rewrite Eo;
      repeat destruct (decide _); try congruence; lia. }
  assert (HaL : a ∉ L) by (intros Hin; apply (eo_free _ _ _ _ _ _ Oa) in Hin as (_ & ? & _); contradiction).
  assert (Hqip : forall t', quota_ip s' t' = quota_ip s t') by (intros; now apply quota_ip_eq).
  constructor.
  - exact Hl.
  - destruct (ci_anchor _ _ _ _ _ _ I) as (aq & Haq & Hf). exists aq.
    rewrite lookup_insert_ne by congruence. auto.
  - intros b qb [[-> <-]|[Hne Hqb]]%lookup_insert_Some Hban.
    + destruct Oa. constructor; cbn; try assumption.
      * intros Hin. contradiction.
      * now rewrite Hqip.
      * now rewrite He.
      * intros _. rewrite Et. auto.
      * unfold hashed in *. cbn. congruence.
      * contradiction.
    + pose proof (ci_ent _ _ _ _ _ _ I b qb Hqb Hban) as Ob.
      destruct Ob. constructor; try assumption.
      * now rewrite Hqip.
      * now rewrite He.
      * intros Hhb. rewrite Hrefs; [auto| |congruence]. now apply eo_key.
  - intros b c qb qc Hqb Hqc. assert (Hx : forall x qx, <[a := set_ref r q]> ents !! x = Some qx ->
      exists qx0, ents !! x = Some qx0 /\ hashed qx = hashed qx0 /\ qt_type qx = qt_type qx0 /\
        qt_index qx = qt_index qx0).
    { intros x qx [[-> <-]|[_ Hx]]%lookup_insert_Some; eauto. }
    destruct (Hx b qb Hqb) as (b0 & Hb0 & -> & -> & ->), (Hx c qc Hqc) as (c0 & Hc0 & -> & -> & ->).
    now apply (ci_unique _ _ _ _ _ _ I b c b0 c0).
  - intros b. rewrite lookup_insert_is_Some', Hb. intros [->|Hs];
      apply (ci_fresh _ _ _ _ _ _ I); eauto.
  - intros b Hbh. destruct (ci_held _ _ _ _ _ _ I b Hbh) as [Hs Hbn]. split; [|exact Hbn].
    apply lookup_insert_is_Some'. now right.
  - apply (ci_an_chain _ _ _ _ _ _ I).
  - unfold nodes_ok. rewrite Hns. split; [now rewrite map_size_insert_Some|].
    assert (Hsame : forall b qb, ents !! b = Some qb -> hashed qb = true -> exists q',
      <[a := set_ref r q]> ents !! b = Some q' /\ hashed q' = true /\ qt_type q' = qt_type qb /\
      qt_index q' = qt_index qb).
    { intros b qb Hqb Hhb. destruct (decide (b = a)) as [->|Hne].
      - rewrite Hq in Hqb. injection Hqb as <-. eexists. rewrite lookup_insert_eq. eauto.
      - exists qb. rewrite lookup_insert_ne by congruence. auto. }
    intros ip' m [[<- <-]|[Hne Hm]]%lookup_insert_Some.
    + split; [unfold n'; cbn; now rewrite length_insert|]. intros t' b Ht'. rewrite Hbq, Hidx by exact Ht'.
      destruct (decide (t' = t)) as [->|Hnt].
      * intros ->. destruct Hcase as [(_ & [= <-] & Hix & _)|(_ & Hd & _)]; [|discriminate].
        exists (set_ref r q). rewrite lookup_insert_eq. auto.
      * intros Hb'. destruct (Hptr t' b Ht' Hb') as (q0 & Hq0 & Hh0 & <- & Hix).
        destruct (Hsame b q0 Hq0 Hh0) as (q' & ? & ? & ? & ?). exists q'.
        repeat split; congruence.
    + destruct (Hnodes ip' m Hm) as [Hlen' Hptr']. split; [exact Hlen'|].
      intros t' b Ht' Hb'. destruct (Hptr' t' b Ht' Hb') as (q0 & Hq0 & Hh0 & <- & Hix).
      destruct (Hsame b q0 Hq0 Hh0) as (q' & ? & ? & ? & ?). exists q'.
      repeat split; congruence.
  - intros t1 t2 ip'. rewrite !Hqip. apply (ci_files _ _ _ _ _ _ I).
  - rewrite Hcl. apply (ci_client _ _ _ _ _ _ I).
Qed.

(** ** Updating one structure *)

(** The invariant when one structure changes in place: its own obligations, and the
    frame for the others. *)
Lemma inv_update held held' s s' an ents L L' C a q q' :
  cache_inv held s an ents L C -> ents !! a = Some q -> a <> an ->
  links s' an (<[a := q']> ents) L' C ->
  m_quota_ip (mp s') = m_quota_ip (mp s) -> nodes s' = nodes s ->
  fs_client (mp s') = fs_client (mp s) -> brk s' = brk s ->
  hashed q' = hashed q -> qt_type q' = qt_type q -> qt_index q' = qt_index q ->
  (forall b qb, b <> a -> ents !! b = Some qb -> hashed qb = true ->
     disk_use (env s') (qt_vp qb) (qt_index qb) = disk_use (env s) (qt_vp qb) (qt_index qb)) ->
  (forall b, b <> a -> b ∈ L' <-> b ∈ L) -> (forall b, b <> a -> b ∈ held' <-> b ∈ held) ->
  ent_ok s' held' L' C a q' ->
  cache_inv held' s' an (<[a := q']> ents) L' C.
Proof.
  intros I Hq Haan Hl Hm Hn Hcl Hb Eh Et Ei Hdisk HL HH Oa.
  assert (Hsame : forall b qb, <[a := q']> ents !! b = Some qb -> exists q0,
    ents !! b = Some q0 /\ hashed qb = hashed q0 /\ qt_type qb = qt_type q0 /\ qt_index qb = qt_index q0).
  { intros b qb [[-> <-]|[_ Hqb]]%lookup_insert_Some; eauto. }
  constructor.
  - exact Hl.
  - destruct (ci_anchor _ _ _ _ _ _ I) as (aq & Haq & Hf). exists aq.
    rewrite lookup_insert_ne by congruence. auto.
  - intros b qb [[-> <-]|[Hne Hqb]]%lookup_insert_Some Hban; [exact Oa|].
    destruct (ci_ent _ _ _ _ _ _ I b qb Hqb Hban).
    constructor; rewrite ?HL, ?HH, ?Hn, ?(quota_ip_eq _ _ _ Hm) by congruence; try assumption.
    intros Hh Hd. rewrite (Hdisk b); auto.
  - intros b c qb qc Hqb Hqc.
    destruct (Hsame b qb Hqb) as (b0 & Hb0 & -> & -> & ->), (Hsame c qc Hqc) as (c0 & Hc0 & -> & -> & ->).
    now apply (ci_unique _ _ _ _ _ _ I b c b0 c0).
  - intros b. rewrite lookup_insert_is_Some', Hb. intros [->|Hs];
      apply (ci_fresh _ _ _ _ _ _ I); eauto.
  - intros b Hbh. rewrite lookup_insert_is_Some'. destruct (decide (b = a)) as [->|Hne]; [auto|].
    apply HH in Hbh; [|exact Hne]. destruct (ci_held _ _ _ _ _ _ I b Hbh). auto.
  - apply (ci_an_chain _ _ _ _ _ _ I).
  - destruct (ci_nodes _ _ _ _ _ _ I) as [Hsz Hnodes]. unfold nodes_ok. rewrite Hn.
    split; [exact Hsz|]. intros ip n Hin. destruct (Hnodes ip n Hin) as [Hlen Hp].
    split; [exact Hlen|]. intros t b Ht Hbq. destruct (Hp t b Ht Hbq) as (q0 & Hq0 & Hh0 & Et0 & Ei0).
    destruct (decide (b = a)) as [->|Hne].
    + rewrite Hq in Hq0. injection Hq0 as <-. exists q'. rewrite lookup_insert_eq.
      repeat split; congruence.
    + exists q0. rewrite lookup_insert_ne by congruence. auto.
  - intros t t' ip. rewrite !(quota_ip_eq _ _ _ Hm). apply (ci_files _ _ _ _ _ _ I).
  - rewrite Hcl. apply (ci_client _ _ _ _ _ _ I).
Qed.

(** ... and the usage of every key but its own. *)
Lemma usage_update held held' s s' an ents L L' C C' a q q' t i :
  cache_inv held s an ents L C -> cache_inv held' s' an (<[a := q']> ents) L' C' ->
  ents !! a = Some q ->
  hashed q' = hashed q -> qt_type q' = qt_type q -> qt_index q' = qt_index q ->
  (is_entry q t i = false -> disk_usage s' t i = disk_usage s t i) ->
  (is_entry q t i = true -> usage (qt_dent q') = usage (qt_dent q)) ->
  usage_of s' t i = usage_of s t i.
Proof.
  intros I I' Hq Eh Et Ei Hd Hu.
  assert (Ee : is_entry q' t i = is_entry q t i) by (unfold is_entry; congruence).
  eapply usage_of_same; [exact I|exact I'|..].
  - intros Hno. apply Hd. rewrite <- Ee. apply (Hno a). apply lookup_insert_eq.
  - intros b qb Hqb He. left. destruct (decide (b = a)) as [->|Hne].
    + rewrite Hq in Hqb. injection Hqb as <-. exists a, q'. rewrite lookup_insert_eq.
      rewrite Ee. auto.
    + exists b, qb. rewrite lookup_insert_ne by congruence. auto.
  - intros Hno b qb [[-> <-]|[Hne Hqb]]%lookup_insert_Some He.
    + rewrite Ee, (Hno _ _ Hq) in He. discriminate.
    + rewrite (Hno _ _ Hqb) in He. discriminate.
Qed.

(** ** [attach] *)

(** The caller's inode wants the record of index [i]. *)
Definition wants s (ip : option addr) (t i : Z) : Prop :=
  match ip with
  | None => True
  | Some p => exists n, nodes s !! p = Some n /\ index_di n t = Some i /\ bq n t = QNULL
  end.

Lemma core_heap_other s s' an an' ents L L' C C' a q' :
  links s an ents L C -> links s' an' (<[a := q']> ents) L' C' ->
  forall b, b <> a -> core <$> heap s' !! b = core <$> heap s !! b.
Proof.
  intros [R _] [R' _] b Hne. rewrite <- !lookup_fmap, <- (rp_core _ _ _ _ _ _ R),
    <- (rp_core _ _ _ _ _ _ R'). now apply lookup_insert_ne.
Qed.

Lemma hold_spec a q s an ents L C :
  links s an ents L C -> ents !! a = Some q -> qt_lock q = true -> on_avail q = false ->
  0 <= qt_ref q < 2 ^ 31 - 1 ->
  wp (sam_quot_hold a) (fun _ s' =>
    links s' an (<[a := set_ref (qt_ref q + 1) q]> ents) L C /\ rest s' = rest s /\ brk s' = brk s) s.
Proof.
  intros Hl Hq Hlk Hav Href. destruct (links_heap _ _ _ _ _ _ _ Hl Hq) as (q0 & Hq0 & ->).
  unfold sam_quot_hold.
  apply wp_bind; eapply wp_assert_held; [exact Hq0|exact Hlk|].
  apply wp_bind; eapply wp_assert_flag; [exact Hq0|exact Hav|].
  apply wp_bind; eapply wp_assert_ref; [exact Hq0|apply Z.leb_le; cbn in Href; lia|].
  apply wp_bind; eapply wp_get_q; [exact Hq0|].
  eapply wp_mod_core; [auto with qlinks|exact Hl|exact Hq|]. intros s' Hl' Hr Hb.
  rewrite (alter_as_insert _ _ _ _ Hq) in Hl'. cbn in Href. rewrite swrap_id in Hl' by
    (unfold sint_range; lia). auto.
Qed.

Lemma unhold_spec a q s an ents L C :
  links s an ents L C -> ents !! a = Some q -> qt_lock q = true -> on_avail q = false ->
  0 < qt_ref q < 2 ^ 31 ->
  wp (sam_quot_unhold a) (fun _ s' =>
    links s' an (<[a := set_ref (qt_ref q - 1) q]> ents) L C /\ rest s' = rest s /\ brk s' = brk s) s.
Proof.
  intros Hl Hq Hlk Hav Href. destruct (links_heap _ _ _ _ _ _ _ Hl Hq) as (q0 & Hq0 & ->).
  unfold sam_quot_unhold.
  apply wp_bind; eapply wp_assert_held; [exact Hq0|exact Hlk|].
  apply wp_bind; eapply wp_assert_flag; [exact Hq0|exact Hav|].
  apply wp_bind; eapply wp_assert_ref; [exact Hq0|apply Z.leb_le; cbn in Href; lia|].
  apply wp_bind; eapply wp_get_q; [exact Hq0|].
  eapply wp_mod_core; [auto with qlinks|exact Hl|exact Hq|]. intros s' Hl' Hr Hb.
  rewrite (alter_as_insert _ _ _ _ Hq) in Hl'. cbn in Href. rewrite swrap_id in Hl' by
    (unfold sint_range; lia). auto.
Qed.

(** What holds of a structure that is locked by the caller. *)
Definition holding held s a q : Prop :=
  exists an ents L C, cache_inv held s an ents L C /\ a ∈ held /\ ents !! a = Some q /\ hashed q = true.

Lemma held_facts held s an ents L C a q :
  cache_inv held s an ents L C -> a ∈ held -> ents !! a = Some q ->
  ent_ok s held L C a q /\ a <> an /\ qt_lock q = true /\ on_avail q = false /\ (a ∉ L) /\
  (hashed q = true -> 0 <= qt_ref q < 2 ^ 31 - 1).
Proof.
  intros I Hah Hq. destruct (ci_held _ _ _ _ _ _ I a Hah) as [_ Haan].
  pose proof (ci_ent _ _ _ _ _ _ I a q Hq Haan) as Oa.
  assert (HaL : a ∉ L) by (intros Hin; apply (eo_free _ _ _ _ _ _ Oa) in Hin as (_ & ? & _); contradiction).
  split; [exact Oa|]. split; [exact Haan|]. split; [now apply (eo_lock _ _ _ _ _ _ Oa)|].
  split; [destruct (on_avail q) eqn:Ea; [exfalso; apply HaL, (eo_avail _ _ _ _ _ _ Oa), Ea|reflexivity]|].
  split; [exact HaL|]. intros Hh. rewrite (eo_ref _ _ _ _ _ _ Oa Hh).
  pose proof (refs_nonneg (nodes s) (qt_type q) a). pose proof (refs_bound (nodes s) (qt_type q) a).
  destruct (ci_nodes _ _ _ _ _ _ I). lia.
Qed.

(** Same structure but for the reference count. *)
Definition same_record q q' : Prop :=
  qt_dent q' = qt_dent q /\ qt_flags q' = qt_flags q /\ qt_type q' = qt_type q /\
  qt_index q' = qt_index q /\ qt_vp q' = qt_vp q /\ qt_lock q' = qt_lock q.

Lemma rest_mount s s' : rest s' = rest s -> set_m_hash None (mp s') = set_m_hash None (mp s).
Proof. intros Hr. exact (f_equal (fun r => fst (fst (fst (fst (fst r))))) Hr). Qed.

Lemma nodes_like_repoint s s' ip n t (new : qptr) :
  m_quota_ip (mp s') = m_quota_ip (mp s) -> nodes s !! ip = Some n -> length (bquota n) = 3%nat ->
  0 <= t < SAM_QUOTA_DEFD -> bq n t <> NODQUOT ->
  (new = NODQUOT -> record_for s n t = None) ->
  nodes s' = <[ip := set_bquota (<[Z.to_nat t := new]> (bquota n)) n]> (nodes s) ->
  nodes_like s s'.
Proof.
  intros Hm Hn Hlen Ht Hb Hnew Hns ip'. rewrite Hns.
  destruct (decide (ip' = ip)) as [->|Hne].
  - rewrite lookup_insert_eq, Hn. constructor. split; [reflexivity|]. intros t' Ht'.
    unfold record_for in *. change (index_di (set_bquota ?l n) t') with (index_di n t').
    rewrite bq_set, (quota_ip_eq _ _ _ Hm) by assumption.
    destruct (decide (t' = t)) as [->|_]; [|reflexivity].
    rewrite (bool_decide_eq_false_2 (bq n t = NODQUOT)) in * by exact Hb.
    destruct (index_di n t) as [i|]; [|reflexivity].
    destruct (decide (new = NODQUOT)) as [->|Hnn].
    + rewrite bool_decide_eq_true_2 by reflexivity. cbn [orb] in *. symmetry. now apply Hnew.
    + now rewrite bool_decide_eq_false_2 by exact Hnn.
  - rewrite lookup_insert_ne by congruence. destruct (nodes s !! ip'); constructor.
    now apply node_like_refl.
Qed.

Lemma attach_spec held s an ents L C a q ip t :
  cache_inv held s an ents L C -> a ∈ held -> ents !! a = Some q -> hashed q = true ->
  qt_type q = t -> 0 <= t < SAM_QUOTA_DEFD -> wants s ip t (qt_index q) ->
  wp (attach ip t a) (fun _ s' => exists q',
    cache_inv held s' an (<[a := q']> ents) L C /\ same_record q q' /\
    set_m_hash None (mp s') = set_m_hash None (mp s) /\ env s' = env s /\
    terminal s' = terminal s /\ keeps (held ∖ {[a]}) s s') s.
Proof.
  intros I Hah Hq Hh Et Ht Hw.
  destruct (held_facts _ _ _ _ _ _ _ _ I Hah Hq) as (Oa & Haan & Hlk & Hav & HaL & Href).
  specialize (Href Hh). destruct ip as [p|]; cbn [attach].
  2:{ apply wp_ret. exists q. rewrite insert_id by exact Hq.
      split; [exact I|]. split; [now repeat split|]. repeat (split; [reflexivity|]). reflexivity. }
  destruct Hw as (n & Hn & Hix & Hbq).
  apply wp_bind; eapply wp_get_node; [exact Hn|]. rewrite decide_True by exact Hbq.
  apply wp_bind. eapply wp_mono; [eapply hold_spec; [apply I|exact Hq|exact Hlk|exact Hav|exact Href]|].
  intros u s1 (Hl1 & Hr1 & Hb1). destruct (rest_proj _ _ Hr1) as (Hm1 & He1 & Hn1 & Hw1 & Hf1 & Hc1 & Hh1 & Ha1 & Hco1 & Hte1 & _).
  apply wp_set_bq; [rewrite Hn1; eauto|].
  set (s2 := upd_nodes _ s1).
  assert (Hns : nodes s2 = <[p := set_bquota (<[Z.to_nat t := QP a]> (bquota n)) n]> (nodes s)).
  { unfold s2. cbn. rewrite Hn1. apply map_eq. intros b. destruct (decide (p = b)) as [->|Hne].
    - now rewrite lookup_alter_eq, lookup_insert_eq, Hn.
    - now rewrite lookup_alter_ne, lookup_insert_ne. }
  assert (Hmp : set_m_hash None (mp s2) = set_m_hash None (mp s)).
  { exact (rest_mount _ _ Hr1). }
  exists (set_ref (qt_ref q + 1) q).
  assert (I2 : cache_inv held s2 an (<[a := set_ref (qt_ref q + 1) q]> ents) L C).
  { eapply (inv_repoint held s an ents L C a q p n t (QP a)); try eassumption. left; auto. }
  split; [exact I2|]. split; [now repeat split|]. split; [exact Hmp|]. split; [exact He1|].
  split; [exact Hte1|]. constructor; try assumption.
  - apply (nodes_like_repoint s s2 p n t (QP a)); [exact Hm1|exact Hn| |exact Ht|congruence|discriminate|exact Hns].
    destruct (ci_nodes _ _ _ _ _ _ I) as [_ Hnodes]. now apply (Hnodes p n).
  - intros b Hb. eapply core_heap_other; [apply I|apply I2|set_solver].
  - intros t' i' _ _. eapply (usage_update held held); [exact I|exact I2|exact Hq|reflexivity..| |reflexivity].
    intros _. now apply disk_usage_rest.
Qed.

(** ** [sam_quot_get] *)

Definition rec_at s a : option sam_quot := core <$> heap s !! a.

(** The caller holds structure [a], and it is the record of the key. *)
Record got held s (t i : Z) (a : addr) s' : Prop := mk_got {
  gt_new : a ∉ held;
  gt_ok : cache_ok ({[a]} ∪ held) s';
  gt_keeps : keeps held s s';
  gt_env : env s' = env s;
  gt_terminal : terminal s' = terminal s;
  gt_rec : exists q, rec_at s' a = Some q /\ is_entry q t i = true /\ dirty q = false /\
    usage (qt_dent q) = usage_of s t i
}.

Lemma inv_rec_at held s an ents L C a : cache_inv held s an ents L C -> rec_at s a = ents !! a.
Proof.
  intros I. unfold rec_at. rewrite <- lookup_fmap.
  now rewrite <- (rp_core _ _ _ _ _ _ (proj1 (ci_links _ _ _ _ _ _ I))).
Qed.

Lemma unlocked_mount s s' :
  set_m_hash None (mp s') = set_m_hash None (mp s) -> unlocked s -> unlocked s'.
Proof.
  unfold unlocked. destruct (mp s), (mp s'). cbn. intros [=]. subst. auto.
Qed.

Lemma wants_nodes s s' ip t i : nodes s' = nodes s -> wants s ip t i -> wants s' ip t i.
Proof. intros Hn. unfold wants. destruct ip; [|auto]. now rewrite Hn. Qed.

(** The structure's own obligations once it is locked and off the list. *)
Lemma ent_ok_locked s s1 held L L' C a q q' :
  ent_ok s held L C a q -> hashed q = true -> a ∉ held -> a ∉ L' ->
  m_quota_ip (mp s1) = m_quota_ip (mp s) -> env s1 = env s -> nodes s1 = nodes s ->
  q' = clear_flags SAM_QF_AVAIL (set_lock true q) \/
  q' = set_lock true q /\ on_avail q = false ->
  ent_ok s1 ({[a]} ∪ held) L' C a q'.
Proof.
  intros O Hh Hnh HL' Hm He Hn Hq'.
  assert (F : forall m, Z.land (Z.lnot SAM_QF_AVAIL) m = m -> has_any (qt_flags q') m = has_any (qt_flags q) m).
  { intros m Hmm. destruct Hq' as [-> | [-> _]]; [|reflexivity]. cbn. now apply has_any_clear_ne. }
  assert (Fa : on_avail q' = false).
  { destruct Hq' as [-> | [-> Ha]]; [|exact Ha]. apply has_any_clear_eq. }
  assert (G : qt_index q' = qt_index q /\ qt_type q' = qt_type q /\ qt_vp q' = qt_vp q /\
    qt_ref q' = qt_ref q /\ qt_dent q' = qt_dent q /\ qt_lock q' = true)
    by (destruct Hq' as [-> | [-> _]]; repeat split).
  destruct G as (Gi & Gt & Gv & Gr & Gd & Gl). destruct O.
  constructor; unfold hashed, busy, dirty in *;
    rewrite ?Gi, ?Gt, ?Gv, ?Gr, ?Gd, ?Gl, ?Fa, ?He, ?Hn, ?(quota_ip_eq _ _ _ Hm), ?F by reflexivity;
    try assumption; try set_solver.
Qed.

Lemma unpark_spec held s s1 an ents L C a q :
  cache_inv held s an ents L C -> unlocked s -> a ∉ held -> a <> an ->
  ents !! a = Some q -> hashed q = true ->
  links s1 an (<[a := set_lock true q]> ents) L C -> rest s1 = rest s -> brk s1 = brk s ->
  wp (unpark a) (fun _ s2 => rest s2 = rest s /\ exists L' q',
    cache_inv ({[a]} ∪ held) s2 an (<[a := q']> ents) L' C /\
    same_record (set_lock true q) (set_flags (qt_flags q) q') /\
    hashed q' = true /\ dirty q' = false) s1.
Proof.
  intros I Hul Hnh Haan Hq Hh Hl1 Hr1 Hb1.
  pose proof (ci_ent _ _ _ _ _ _ I a q Hq Haan) as Oa.
  pose proof (eo_clean _ _ _ _ _ _ Oa Hh Hnh) as Hdirty.
  destruct (rest_proj _ _ Hr1) as (Hm1 & He1 & Hn1 & Hw1 & Hf1 & Hc1 & Hh1 & Ha1 & Hco1 & Hte1 & _).
  unfold unpark.
  destruct (links_heap _ _ _ _ _ a _ Hl1 ltac:(apply lookup_insert_eq)) as (q0 & Hq0 & E0).
  assert (Ef : qt_flags q0 = qt_flags q) by (apply (f_equal qt_flags) in E0; cbn in E0; congruence).
  apply wp_bind, wp_avail_enter; [rewrite Ha1; apply Hul|].
  apply wp_bind; eapply wp_get_q; [exact Hq0|]. rewrite Ef. apply wp_bind, wp_when; intros Hav.
  - pose proof (proj1 (eo_avail _ _ _ _ _ _ Oa) Hav) as HaL.
    apply list_elem_of_split in HaL as (L1 & L2 & EL). subst L.
    eapply wp_mono.
    { eapply (unfree_spec a (set_lock true q)).
      - apply links_availlock. exact Hl1.
      - reflexivity.
      - apply lookup_insert_eq.
      - reflexivity.
      - apply (eo_anchor _ _ _ _ _ _ Oa).
      - exact Hav.
      - apply (eo_free _ _ _ _ _ _ Oa). set_solver. }
    intros u s2 (Hl2 & Hr2 & Hb2). apply wp_modify. rewrite alter_insert_eq in Hl2.
    assert (Hr2' : rest (upd_mp (set_m_availlock false) s2) = rest s).
    { rewrite <- Hr1. replace false with (m_quota_availlock (mp s1)) by (rewrite Ha1; apply Hul).
      eapply rest_availlock. exact Hr2. }
    destruct (rest_proj _ _ Hr2') as (Hm2 & He2 & Hn2 & _ & _ & Hc2 & _).
    assert (HaL' : a ∉ L1 ++ L2).
    { destruct (ci_links _ _ _ _ _ _ I) as [R _]. pose proof (rp_nodup _ _ _ _ _ _ R) as Hnd.
      apply NoDup_cons in Hnd as [_ Hnd]. apply NoDup_app in Hnd as (_ & N1 & N2).
      apply NoDup_cons in N2 as [N2 _]. set_solver. }
    split; [exact Hr2'|]. exists (L1 ++ L2), (clear_flags SAM_QF_AVAIL (set_lock true q)).
    split; [|split; [now repeat split|]].
    + eapply (inv_update held); [exact I|exact Hq|exact Haan|apply links_availlock; exact Hl2|
        exact Hm2|exact Hn2|exact Hc2|cbn in Hb2 |- *; congruence| |reflexivity|reflexivity| | | |].
      * unfold hashed. cbn. now apply has_any_clear_ne.
      * intros. now rewrite He2.
      * set_solver.
      * set_solver.
      * eapply ent_ok_locked; eauto.
    + unfold hashed, dirty in *. cbn. now rewrite !has_any_clear_ne by reflexivity.
  - apply wp_modify.
    assert (Hr2' : rest (upd_mp (set_m_availlock false) (upd_mp (set_m_availlock true) s1)) = rest s).
    { rewrite <- Hr1. replace false with (m_quota_availlock (mp s1)) by (rewrite Ha1; apply Hul).
      eapply rest_availlock. reflexivity. }
    destruct (rest_proj _ _ Hr2') as (Hm2 & He2 & Hn2 & _ & _ & Hc2 & _).
    split; [exact Hr2'|]. exists L, (set_lock true q). split; [|split; [now repeat split|split; assumption]].
    eapply (inv_update held); [exact I|exact Hq|exact Haan|do 2 apply links_availlock; exact Hl1|
      exact Hm2|exact Hn2|exact Hc2|exact Hb1|reflexivity..| | | |].
    + intros. now rewrite He2.
    + reflexivity.
    + set_solver.
    + eapply ent_ok_locked; eauto. intros HaL. apply (eo_avail _ _ _ _ _ _ Oa) in HaL.
      unfold on_avail in HaL. congruence.
Qed.

Lemma got_entry_spec held s s1 an ents L C a q ip t i :
  cache_inv held s an ents L C -> unlocked s -> a ∉ held -> a <> an ->
  ents !! a = Some q -> is_entry q t i = true -> 0 <= t < SAM_QUOTA_DEFD -> wants s ip t i ->
  links s1 an (<[a := set_lock true q]> ents) L C -> rest s1 = rest s -> brk s1 = brk s ->
  wp (got_entry ip t a) (fun r s' => r = Some a /\ got held s t i a s') s1.
Proof.
  intros I Hul Hnh Haan Hq He Ht Hw Hl1 Hr1 Hb1.
  pose proof (proj1 (is_entry_spec _ _ _) He) as (Hh & Et & Ei).
  unfold got_entry. apply wp_bind. eapply wp_mono; [now apply (unpark_spec held s s1 an ents L C a q)|].
  intros u s2 (Hr2 & L' & q' & I2 & (Sd & _ & St & Si & Sv & _) & Hh' & Hd'). cbn in Sd, St, Si, Sv.
  destruct (rest_proj _ _ Hr2) as (Hm2 & He2 & Hn2 & Hw2 & Hf2 & Hc2 & _ & _ & Hco2 & Hte2 & _).
  apply wp_bind. eapply wp_mono.
  { eapply (attach_spec _ _ _ _ _ _ a q'); [exact I2|set_solver|apply lookup_insert_eq|exact Hh'|
      rewrite St; exact Et|exact Ht|]. rewrite Si, Ei. eapply wants_nodes; [exact Hn2|exact Hw]. }
  intros u' s3 (q'' & I3 & (Sd3 & Sf3 & St3 & Si3 & _ & _) & Hmp3 & He3 & Hte3 & K3).
  rewrite insert_insert_eq in I3. apply wp_ret. split; [reflexivity|].
  assert (K : keeps held s s3).
  { transitivity s2.
    - constructor; try assumption.
      + now apply nodes_like_eq.
      + intros b Hb. eapply core_heap_other; [apply I|apply I2|set_solver].
      + intros t' i' _ _. eapply (usage_update held); [exact I|exact I2|exact Hq|congruence|congruence|
          congruence| |intros; congruence]. intros _. now apply disk_usage_rest.
    - eapply keeps_weaken; [|exact K3]. set_solver. }
  constructor; [exact Hnh| |exact K|congruence|congruence|].
  - split; [|eauto]. eapply unlocked_mount; [|exact Hul]. rewrite Hmp3. now apply rest_mount.
  - exists q''. rewrite (inv_rec_at _ _ _ _ _ _ _ I3), lookup_insert_eq.
    split; [reflexivity|]. unfold dirty. rewrite Sf3. split; [|split; [exact Hd'|]].
    + apply is_entry_spec. unfold hashed in *. rewrite Sf3. split; [exact Hh'|]. split; congruence.
    + rewrite Sd3, Sd. rewrite <- Et, <- Ei. symmetry. now apply (usage_of_cached _ _ _ _ _ _ a q I).
Qed.

Lemma inv_hashlock held s an ents L C v :
  cache_inv held s an ents L C -> cache_inv held (upd_mp (set_m_hashlock v) s) an ents L C.
Proof. intros [Hl ? He ? ? ? ? ? ? ?]. constructor; try assumption. intros a q Ha Hne. now destruct (He a q Ha Hne). Qed.

Lemma rest_hashlock s s' v :
  rest s' = rest (upd_mp (set_m_hashlock v) s) ->
  rest (upd_mp (set_m_hashlock (m_quota_hashlock (mp s))) s') = rest s.
Proof.
  destruct s as [[] ? ? ? ? ? ? ?], s' as [[] ? ? ? ? ? ? ?].
  unfold rest, upd_mp, set_m_hash, set_m_hashlock. cbn.
  intros [=]. congruence.
Qed.

(** A search that found nothing on the chain: no record in core has the key. *)
Lemma not_in_core held s an ents L C t i :
  cache_inv held s an ents L C ->
  (forall a q, a ∈ C (hash_slot i) -> heap s !! a = Some q -> ~ has_key q t i) ->
  forall b qb, ents !! b = Some qb -> is_entry qb t i = false.
Proof.
  intros I Hno b qb Hqb. destruct (is_entry qb t i) eqn:He; [|reflexivity]. exfalso.
  apply is_entry_spec in He as (Hh & Et & Ei).
  assert (Hban : b <> an).
  { intros ->. destruct (ci_anchor _ _ _ _ _ _ I) as (aq & Haq & Hf & _).
    rewrite Hqb in Haq. injection Haq as ->. unfold hashed in Hh. rewrite Hf in Hh. discriminate. }
  pose proof (ci_ent _ _ _ _ _ _ I b qb Hqb Hban) as Ob.
  pose proof (proj1 (eo_hashed _ _ _ _ _ _ Ob) Hh) as Hin. rewrite Ei in Hin.
  destruct (links_heap _ _ _ _ _ _ _ (ci_links _ _ _ _ _ _ I) Hqb) as (q0 & Hq0 & ->).
  apply (Hno b q0 Hin Hq0). split; assumption.
Qed.

Definition keyed_quot (vp : addr) (t i lastref : Z) q : sam_quot :=
  or_flags SAM_QF_HASHED (set_lastref lastref (set_flags 0 (set_ref 0 (set_key vp t i q)))).

Lemma key_in_spec held s an ents L C a q vp t i :
  cache_inv held s an ents L C -> a ∈ held -> ents !! a = Some q -> blank q ->
  quota_ip s t = Some vp ->
  wp (key_in a t i) (fun _ s' =>
    rest s' = rest (upd_mp (set_m_hashlock false) s) /\ brk s' = brk s /\
    links s' an (<[a := keyed_quot vp t i (now s) q]> ents) L
      (set_chain C (hash_slot i) (a :: C (hash_slot i)))) s.
Proof.
  intros I Hah Hq Hbl Hvp.
  destruct (held_facts _ _ _ _ _ _ _ _ I Hah Hq) as (Oa & Haan & _).
  assert (HaC : forall j, (j < 128)%nat -> a ∉ C j).
  { intros j Hj Hin. pose proof (eo_slot _ _ _ _ _ _ Oa j Hj Hin) as ->.
    apply (eo_hashed _ _ _ _ _ _ Oa) in Hin. rewrite (bl_hashed _ Hbl) in Hin. discriminate. }
  unfold key_in. apply wp_bind, wp_gets. apply wp_bind; eapply wp_deref; [exact Hvp|].
  apply wp_bind; eapply wp_mod_core; [auto with qlinks|apply I|exact Hq|].
  intros s1 Hl1 Hr1 Hb1. rewrite (alter_as_insert _ _ _ _ Hq) in Hl1.
  apply wp_bind; eapply wp_mod_core; [auto with qlinks|exact Hl1|apply lookup_insert_eq|].
  intros s2 Hl2 Hr2 Hb2. rewrite alter_insert_eq in Hl2.
  apply wp_bind; eapply wp_mod_core; [auto with qlinks|exact Hl2|apply lookup_insert_eq|].
  intros s3 Hl3 Hr3 Hb3. rewrite alter_insert_eq in Hl3.
  apply wp_bind, wp_gets.
  replace (now s3) with (now s) by (symmetry; apply (rest_proj s s3); congruence).
  apply wp_bind; eapply wp_mod_core; [auto with qlinks|exact Hl3|apply lookup_insert_eq|].
  intros s4 Hl4 Hr4 Hb4. rewrite alter_insert_eq in Hl4.
  apply wp_bind; eapply wp_hash_head; [exact Hl4|]. intros tb head Et Eh _.
  destruct (links_heap _ _ _ _ _ a _ Hl4 ltac:(apply lookup_insert_eq)) as (q0 & Hq0 & E0).
  apply wp_bind, wp_mod_q; [eauto|].
  apply wp_bind; eapply wp_set_hash_head; [exact Et|].
  apply wp_bind; eapply wp_mod_core; [auto with qlinks|eapply push_links; eassumption|
    apply lookup_insert_eq|].
  intros s5 Hl5 Hr5 Hb5. rewrite alter_insert_eq in Hl5. apply wp_modify.
  assert (Hr : rest s5 = rest s) by (rewrite Hr5; transitivity (rest s4); [reflexivity|congruence]).
  split; [|split].
  - destruct s5 as [[] ? ? ? ? ? ? ?], s as [[] ? ? ? ? ? ? ?].
    unfold rest, upd_mp, set_m_hash, set_m_hashlock in *. cbn in *. congruence.
  - cbn in *. congruence.
  - now apply links_hashlock.
Qed.


(** The record read into a keyed structure. *)
Lemma keyed_read s vp t i lastref q d :
  blank q -> quota_ip s t = Some vp -> dquot_typed d -> usage d = disk_use (env s) vp i ->
  keyed s (clear_flags SAM_QF_BUSY (set_dent d (or_flags SAM_QF_BUSY (keyed_quot vp t i lastref q)))) t i.
Proof. intros [] Hvp Hty Hu. constructor; try reflexivity; assumption. Qed.

(** Usage when a clean structure was given to a key that was not in core. *)
Lemma usage_evicted held s s' an ents ents1 L L' C C' a q' t0 i0 vp t i :
  cache_inv held s an ents L C -> cache_inv ({[a]} ∪ held) s' an (<[a := q']> ents1) L' C' ->
  evicted held s ents ents1 a ->
  m_quota_ip (mp s') = m_quota_ip (mp s) -> env s' = env s ->
  quota_ip s t0 = Some vp -> qt_type q' = t0 -> qt_index q' = i0 ->
  usage (qt_dent q') = disk_use (env s) vp i0 ->
  (forall b qb, ents !! b = Some qb -> is_entry qb t0 i0 = false) ->
  usage_of s' t i = usage_of s t i.
Proof.
  intros I I' [Ek En Ec Eh] Hm He Hvp Et Ei Hu Hno.
  assert (Hdisk0 : disk_usage s t0 i0 = disk_use (env s) vp i0) by (unfold disk_usage; now rewrite Hvp).
  eapply usage_of_same; [exact I|exact I'|..].
  - intros _. now apply disk_usage_rest.
  - intros b qb Hqb Heb. destruct (decide (b = a)) as [->|Hne].
    + destruct (is_entry q' t i) eqn:Eq'.
      * apply is_entry_spec in Eq' as (_ & <- & <-). rewrite Et, Ei in Heb.
        rewrite (Hno _ _ Hqb) in Heb. discriminate.
      * right. split.
        -- intros c qc [[-> <-]|[Hca Hqc]]%lookup_insert_Some; [exact Eq'|].
           destruct (is_entry qc t i) eqn:Ecc; [|reflexivity]. exfalso.
           destruct (En c qc ltac:(congruence) Hqc) as [Hqc0|Hun].
           ++ apply Hca. apply is_entry_spec in Heb as (Hh & H1 & H2), Ecc as (Hh' & H1' & H2').
              eapply (ci_unique _ _ _ _ _ _ I a c); eauto; congruence.
           ++ apply is_entry_spec in Ecc as (Hh' & _). congruence.
        -- apply is_entry_spec in Heb as (Hh & <- & <-). rewrite (Ec qb Hqb Hh).
           assert (Han : a <> an).
           { destruct (ci_held _ _ _ _ _ _ I' a ltac:(set_solver)). assumption. }
           destruct (eo_key _ _ _ _ _ _ (ci_ent _ _ _ _ _ _ I a qb Hqb Han) Hh) as (_ & _ & Hv).
           unfold disk_usage. now rewrite Hv.
    + left. exists b, qb. rewrite lookup_insert_ne by congruence. auto.
  - intros Hnone b qb [[-> <-]|[Hne Hqb]]%lookup_insert_Some Heb.
    + apply is_entry_spec in Heb as (_ & <- & <-). rewrite Et, Ei, Hdisk0. exact Hu.
    + destruct (En b qb ltac:(congruence) Hqb) as [Hqb0|Hun].
      * rewrite (Hnone b qb Hqb0) in Heb. discriminate.
      * apply is_entry_spec in Heb as (Hh & _). congruence.
Qed.

Lemma new_entry_spec held s an ents L C ip t i vp :
  cache_inv held s an ents L C -> unlocked s -> 0 <= t < SAM_QUOTA_DEFD -> 0 <= i ->
  quota_ip s t = Some vp -> wants s ip t i ->
  (forall b qb, ents !! b = Some qb -> is_entry qb t i = false) ->
  wp (new_entry ip t i) (fun r s' => exists a, r = Some a /\ got held s t i a s')
    (upd_mp (set_m_hashlock true) s).
Proof.
  intros I Hul Ht Hi Hvp Hw Hno. unfold new_entry. apply wp_bind.
  eapply wp_mono; [eapply getfree_spec; [apply inv_hashlock; exact I|reflexivity|apply Hul]|].
  intros a s1 (Hr1 & ents1 & L1 & C1 & q1 & I1 & Hq1 & Hbl & Hev).
  assert (Hr1' : rest (upd_mp (set_m_hashlock false) s1) = rest s).
  { replace false with (m_quota_hashlock (mp s)) by apply Hul. eapply rest_hashlock. exact Hr1. }
  destruct (rest_proj _ _ Hr1') as (Hm1 & He1 & Hn1 & Hw1 & Hf1 & Hc1 & _ & _ & Hco1 & Hte1 & _).
  cbn in Hm1, He1, Hn1, Hw1, Hf1, Hc1, Hco1, Hte1.
  assert (Hev' : evicted held s ents ents1 a) by (destruct Hev; constructor; assumption).
  destruct (links_heap _ _ _ _ _ _ _ (ci_links _ _ _ _ _ _ I1) Hq1) as (q0 & Hq0 & E0).
  apply wp_bind. eapply wp_assert_held; [exact Hq0|pose proof (bl_lock _ Hbl) as Elk; rewrite E0 in Elk; exact Elk|].
  apply wp_bind. eapply wp_mono.
  { eapply (key_in_spec _ _ _ _ _ _ _ q1 vp); [exact I1|set_solver|exact Hq1|exact Hbl|].
    now rewrite (quota_ip_eq _ _ _ Hm1). }
  intros u s2 (Hr2 & Hb2 & Hl2). assert (Hr2' : rest s2 = rest s) by congruence.
  destruct (rest_proj _ _ Hr2') as (Hm2 & He2 & Hn2 & Hw2 & Hf2 & Hc2 & Hh2 & Ha2 & Hco2 & Hte2 & _).
  apply wp_bind. eapply wp_mono.
  { eapply quota_read_spec; [exact Hl2|apply lookup_insert_eq|apply (bl_lock _ Hbl)|exact Hi| |].
    - rewrite Hc2. apply (ci_client _ _ _ _ _ _ I).
    - apply (bl_typed _ Hbl). }
  intros err s3 (-> & Hr3 & Hb3 & d & Hty & Hu & Hl3). rewrite insert_insert_eq in Hl3.
  assert (Hr3' : rest s3 = rest s) by congruence.
  destruct (rest_proj _ _ Hr3') as (Hm3 & He3 & Hn3 & Hw3 & Hf3 & Hc3 & Hh3 & Ha3 & Hco3 & Hte3 & _).
  set (q3 := clear_flags SAM_QF_BUSY _) in Hl3. cbn [keyed_quot qt_vp qt_index] in Hu.
  change (usage d = disk_use (env s2) vp i) in Hu.
  assert (Hky : keyed s1 q3 t i).
  { unfold q3. apply keyed_read; [exact Hbl|now rewrite (quota_ip_eq _ _ _ Hm1)|exact Hty|congruence]. }
  assert (I3 : cache_inv ({[a]} ∪ held) s3 an (<[a := q3]> ents1) L1
    (set_chain C1 (hash_slot i) (a :: C1 (hash_slot i)))).
  { eapply inv_hash_in; [exact I1|set_solver|exact Hq1|exact Hbl|exact Ht|exact Hi| |congruence..|
      exact Hky|exact Hl3].
    intros b qb Hqb. destruct (is_entry qb t i) eqn:Eb; [|reflexivity]. exfalso.
    apply is_entry_spec in Eb as Eb'. destruct (decide (b = a)) as [->|Hne].
    - rewrite Hq1 in Hqb. injection Hqb as <-. pose proof (bl_hashed _ Hbl). destruct Eb'. congruence.
    - destruct (ev_new _ _ _ _ _ Hev' b qb Hne Hqb) as [Hqb0|]; [|destruct Eb'; congruence].
      rewrite (Hno b qb Hqb0) in Eb. discriminate. }
  apply wp_bind, wp_when; [discriminate|intros _].
  apply wp_bind. eapply wp_mono.
  { eapply (attach_spec _ _ _ _ _ _ a q3); [exact I3|set_solver|apply lookup_insert_eq|
      apply Hky|apply Hky|exact Ht|]. eapply wants_nodes; [exact Hn3|exact Hw]. }
  intros u' s4 (q4 & I4 & (Sd & Sf & St & Si & _) & Hmp4 & He4 & Hte4 & K4).
  apply wp_ret. exists a. split; [reflexivity|].
  assert (Hna : a ∉ held) by apply Hev'.
  assert (K : keeps held s s4).
  { transitivity s3; [|eapply keeps_weaken; [|exact K4]; set_solver].
    constructor; try assumption.
    - now apply nodes_like_eq.
    - intros b Hb. change (rec_at s3 b = rec_at s b).
      rewrite (inv_rec_at _ _ _ _ _ _ _ I), (inv_rec_at _ _ _ _ _ _ _ I3), lookup_insert_ne by set_solver.
      destruct (ci_held _ _ _ _ _ _ I b Hb) as [[qb Hqb] _]. rewrite Hqb.
      apply (ev_kept _ _ _ _ _ Hev' b qb); [set_solver|exact Hqb].
    - intros t' i' _ _. eapply (usage_evicted held s s3 an ents ents1 _ _ _ _ a q3 t i vp);
        [exact I|exact I3|exact Hev'|congruence|congruence|exact Hvp|reflexivity|reflexivity| |exact Hno].
      unfold q3. cbn. congruence. }
  constructor; [exact Hna| |exact K|congruence|congruence|].
  - split; [|eauto]. eapply unlocked_mount; [|exact Hul]. rewrite Hmp4. now apply rest_mount.
  - exists q4. rewrite (inv_rec_at _ _ _ _ _ _ _ I4), lookup_insert_eq. split; [reflexivity|].
    assert (Fh : hashed q4 = true /\ dirty q4 = false)
      by (unfold hashed, dirty; rewrite Sf; split; apply Hky).
    split; [|split; [apply Fh|]].
    + apply is_entry_spec. split; [apply Fh|]. rewrite St, Si. split; apply Hky.
    + rewrite Sd. rewrite (usage_of_disk _ _ _ _ _ _ _ _ I Hno). unfold disk_usage. rewrite Hvp.
      unfold q3. cbn. congruence.
Qed.

(** The caller does not hold the record of the key already. *)
Definition not_holding held s (t i : Z) : Prop :=
  forall b q, b ∈ held -> rec_at s b = Some q -> is_entry q t i = false.

Lemma hashed_not_anchor held s an ents L C a q :
  cache_inv held s an ents L C -> ents !! a = Some q -> hashed q = true -> a <> an.
Proof.
  intros I Hq Hh ->. destruct (ci_anchor _ _ _ _ _ _ I) as (aq & Haq & Hf & _).
  rewrite Hq in Haq. injection Haq as ->. unfold hashed in Hh. rewrite Hf in Hh. discriminate.
Qed.

Lemma quot_search_spec held s ip t i vp :
  cache_ok held s -> 0 <= t < SAM_QUOTA_DEFD -> 0 <= i ->
  quota_ip s t = Some vp -> wants s ip t i -> not_holding held s t i ->
  wp (quot_search again_fuel ip t i) (fun r s' => exists a, r = Some a /\ got held s t i a s') s.
Proof.
  intros (Hul & an & ents & L & C & I) Ht Hi Hvp Hw Hnh. cbn [again_fuel quot_search].
  apply wp_bind, wp_hash_enter; [apply Hul|].
  pose proof (inv_hashlock _ _ _ _ _ _ true I) as I1.
  apply wp_bind; eapply wp_hash_head; [apply I1|]. intros tb head _ _ Hch.
  apply wp_bind, wp_gets. apply wp_bind. eapply wp_mono.
  { pose proof (rp_chain_dom _ _ _ _ _ _ (proj1 (ci_links _ _ _ _ _ _ I1))) as Hcd.
    eapply hash_walk_spec; [exact Hch|intros a Ha; apply (Hcd (hash_slot i)); [apply hash_slot_lt|exact Ha]|].
    apply nodup_dom_length; [|intros a Ha; apply (Hcd (hash_slot i)); [apply hash_slot_lt|exact Ha]].
    apply (rp_chain_nodup _ _ _ _ _ _ (proj1 (ci_links _ _ _ _ _ _ I1))), hash_slot_lt. }
  intros found s1 [-> Hf]. destruct found as [a|].
  - destruct Hf as (Ha & q0 & Hq0 & Hix & Hty).
    pose proof (links_ents _ _ _ _ _ _ _ (ci_links _ _ _ _ _ _ I) Hq0) as Hq.
    assert (Haan : a <> an)
      by (intros ->; exact (ci_an_chain _ _ _ _ _ _ I _ (hash_slot_lt i) Ha)).
    pose proof (ci_ent _ _ _ _ _ _ I a _ Hq Haan) as Oa.
    assert (Hh : hashed (core q0) = true).
    { apply (eo_hashed _ _ _ _ _ _ Oa). cbn. now rewrite Hix. }
    assert (He : is_entry (core q0) t i = true) by (apply is_entry_spec; auto).
    assert (Hna : a ∉ held).
    { intros Hah. rewrite (Hnh a (core q0) Hah) in He; [discriminate|].
      now rewrite (inv_rec_at _ _ _ _ _ _ _ I). }
    assert (Hlk : qt_lock q0 = false).
    { destruct (qt_lock q0) eqn:El; [|reflexivity]. exfalso. apply Hna.
      now apply (eo_lock _ _ _ _ _ _ Oa). }
    apply wp_bind; eapply wp_mutex_tryenter; [exact Hq0|exact Hlk|].
    apply wp_bind, wp_modify. eapply wp_mono.
    { eapply (got_entry_spec held s _ an ents L C a (core q0)); try eassumption.
      - apply links_hashlock. rewrite <- (alter_as_insert _ (set_lock true) _ _ Hq).
        apply links_alter; [auto with qlinks|]. apply links_hashlock, I.
      - replace false with (m_quota_hashlock (mp s)) by apply Hul. eapply rest_hashlock. reflexivity.
      - reflexivity. }
    intros r s' [-> Hgot]. eauto.
  - eapply new_entry_spec; try eassumption. eapply (not_in_core _ _ _ _ _ _ _ _ I). exact Hf.
Qed.

(** The inode whose pointers are used, and its record. *)
Definition base_of s (p : addr) : addr :=
  match nodes s !! p with Some n => if seg_ino n then segment_ip n else p | None => p end.

(** The caller passes no inode, or an inode with the index of its record. *)
Definition caller_ok s (ip : option addr) (t i : Z) : Prop :=
  match ip with
  | None => True
  | Some p => is_Some (nodes s !! p) /\
      exists n, nodes s !! base_of s p = Some n /\ index_di n t = Some i
  end.

Definition charged s (ip : option addr) (t i : Z) : bool :=
  match ip with
  | None => (0 <=? i) && negb (bool_decide (quota_ip s t = None))
  | Some p => match nodes s !! base_of s p with
              | Some n => bool_decide (record_for s n t = Some i)
              | None => false
              end
  end.

(** Locking the record that a pointer in an inode leads to. *)
Lemma lock_spec held s an ents L C a q t i :
  cache_inv held s an ents L C -> unlocked s -> ents !! a = Some q -> is_entry q t i = true ->
  0 < qt_ref q -> not_holding held s t i ->
  wp (mutex_enter a) (fun _ s' => got held s t i a s' /\ nodes s' = nodes s) s.
Proof.
  intros I Hul Hq He Href Hnh. pose proof (proj1 (is_entry_spec _ _ _) He) as (Hh & Et & Ei).
  pose proof (hashed_not_anchor _ _ _ _ _ _ _ _ I Hq Hh) as Haan.
  pose proof (ci_ent _ _ _ _ _ _ I a q Hq Haan) as Oa.
  assert (Hna : a ∉ held).
  { intros Hah. rewrite (Hnh a q Hah) in He; [discriminate|].
    now rewrite (inv_rec_at _ _ _ _ _ _ _ I). }
  assert (HaL : a ∉ L) by (intros Hin; apply (eo_free _ _ _ _ _ _ Oa) in Hin as (Hr0 & _); lia).
  destruct (links_heap _ _ _ _ _ _ _ (ci_links _ _ _ _ _ _ I) Hq) as (q0 & Hq0 & Eq).
  eapply wp_mutex_enter; [exact Hq0| |].
  { destruct (qt_lock q0) eqn:El; [|reflexivity]. exfalso. apply Hna, (eo_lock _ _ _ _ _ _ Oa).
    now rewrite Eq. }
  split; [|reflexivity]. set (s1 := upd_heap _ s).
  assert (I1 : cache_inv ({[a]} ∪ held) s1 an (<[a := set_lock true q]> ents) L C).
  { eapply (inv_update held); [exact I|exact Hq|exact Haan| |reflexivity..| | |].
    - unfold s1. rewrite <- (alter_as_insert _ (set_lock true) _ _ Hq).
      apply links_alter; [auto with qlinks|apply I].
    - reflexivity.
    - set_solver.
    - eapply ent_ok_locked; [exact Oa|exact Hh|exact Hna|exact HaL|reflexivity..|right].
      split; [reflexivity|]. destruct (on_avail q) eqn:Ea; [|reflexivity].
      exfalso. apply HaL, (eo_avail _ _ _ _ _ _ Oa), Ea. }
  constructor; [exact Hna| | |reflexivity|reflexivity|].
  - split; [exact Hul|eauto].
  - constructor; try reflexivity.
    + now apply nodes_like_eq.
    + intros b Hb. eapply core_heap_other; [apply I|apply I1|set_solver].
    + intros t' i' _ _. eapply (usage_update held); [exact I|exact I1|exact Hq|reflexivity..].
  - exists (set_lock true q). rewrite (inv_rec_at _ _ _ _ _ _ _ I1), lookup_insert_eq.
    split; [reflexivity|]. split; [exact He|]. split; [apply (eo_clean _ _ _ _ _ _ Oa Hh Hna)|].
    rewrite <- Et, <- Ei. symmetry. now apply (usage_of_cached _ _ _ _ _ _ a q I).
Qed.

Lemma pointer_spec held s an ents L C a q t i (other : M (kstate E) (option addr)) :
  cache_inv held s an ents L C -> unlocked s -> ents !! a = Some q -> is_entry q t i = true ->
  0 < qt_ref q -> not_holding held s t i ->
  wp (mutex_enter a;; q ← get_q a;
      if (t =? qt_type q) && (i =? qt_index q) then mret (Some a) else other)
    (fun r s' => r = Some a /\ got held s t i a s') s.
Proof.
  intros I Hul Hq He Href Hnh. apply wp_bind. eapply wp_mono; [eapply lock_spec; eauto|].
  intros u s1 [Hgot _]. destruct (gt_rec _ _ _ _ _ _ Hgot) as (q1 & Hrec & He1 & _).
  unfold rec_at in Hrec. destruct (heap s1 !! a) as [q0|] eqn:Hq0; [|discriminate].
  injection Hrec as <-. apply is_entry_spec in He1 as (_ & Et & Ei). cbn in Et, Ei.
  apply wp_bind; eapply wp_get_q; [exact Hq0|]. rewrite Et, Ei, !Z.eqb_refl. now apply wp_ret.
Qed.
End Get.
