(* ===== verification/QuotaRel.v ===== *)
(** * The quota cache: the contract of its users

    [sam_quot_get] as a whole, [sam_quota_flush] and [sam_quot_rel], and
    [sam_quota_inode_fini] (src/src/fs/samfs/cquota.c), against the invariant and
    the usage of the keys. *)

From S2P Require Import Prelude DList QuotaRec QuotaBytes Monad QuotaCache QuotaLinks QuotaPrims QuotaInv QuotaGet.

Section Rel.
Context {E : Type} `{QuotaEnv E} `{!QuotaEnvLaws E}.
Implicit Types (s : kstate E) (a an : addr) (q : sam_quot) (ents : gmap addr sam_quot)
  (L : list addr) (C : chain_table) (held : gset addr).

(** ** An inode to which no record applies *)

Lemma inv_nodquot held s an ents L C ip n t :
  cache_inv held s an ents L C -> nodes s !! ip = Some n -> bq n t = QNULL ->
  0 <= t < SAM_QUOTA_DEFD ->
  let f n := set_bquota (<[Z.to_nat t := NODQUOT]> (bquota n)) n in
  cache_inv held (upd_nodes (alter f ip) s) an ents L C.
Proof.
  intros I Hn Hb Ht f. set (s' := upd_nodes _ s).
  destruct (ci_nodes _ _ _ _ _ _ I) as [Hsz Hnodes]. destruct (Hnodes ip n Hn) as [Hlen Hptr].
  assert (Hbq : forall t', 0 <= t' < SAM_QUOTA_DEFD ->
    bq (f n) t' = if decide (t' = t) then NODQUOT else bq n t') by (intros; now apply bq_set).
  assert (Hns : nodes s' = <[ip := f n]> (nodes s)).
  { apply map_eq. intros b. unfold s'. cbn. destruct (decide (ip = b)) as [->|Hne].
    - now rewrite lookup_alter_eq, lookup_insert_eq, Hn.
    - now rewrite lookup_alter_ne, lookup_insert_ne. }
  assert (Hrefs : forall t' a, 0 <= t' < SAM_QUOTA_DEFD -> refs (nodes s') t' a = refs (nodes s) t' a).
  { intros t' a Ht'. rewrite Hns, (refs_insert _ _ _ _ n (f n) Hn), Hbq by exact Ht'.
    destruct (decide (t' = t)) as [->|_]; [|lia]. rewrite Hb.
    rewrite !decide_False by discriminate. lia. }
  destruct I as [Hlinks Hanch Hent Huni Hfr Hheld Hanc Hnod Hfil Hcli]. constructor; try assumption.
  - intros b qb Hqb Hban. pose proof (Hent b qb Hqb Hban) as Ob.
    pose proof (eo_key _ _ _ _ _ _ Ob) as Hk. pose proof (eo_ref _ _ _ _ _ _ Ob) as Hr.
    destruct Ob. constructor; try assumption.
    intros Hh. rewrite Hrefs; [auto|]. now apply Hk.
  - unfold nodes_ok. rewrite Hns. split; [now rewrite map_size_insert_Some|].
    intros ip' m [[<- <-]|[Hne Hm]]%lookup_insert_Some; [|exact (Hnodes _ _ Hm)].
    split; [unfold f; cbn; now rewrite length_insert|]. intros t' b Ht'. rewrite Hbq by exact Ht'.
    destruct (decide (t' = t)); [discriminate|]. now apply Hptr.
Qed.

(** ** [sam_quot_get] *)

(** No record: nothing is held and nothing is charged. *)
Record got_none held s s' : Prop := mk_got_none {
  gn_ok : cache_ok held s';
  gn_keeps : keeps held s s';
  gn_env : env s' = env s;
  gn_terminal : terminal s' = terminal s
}.

Lemma got_none_refl held s : cache_ok held s -> got_none held s s.
Proof. intros Hok. constructor; auto. reflexivity. Qed.

Lemma nodquot_spec held s p n t i :
  cache_ok held s -> nodes s !! p = Some n -> bq n t = QNULL -> 0 <= t < SAM_QUOTA_DEFD ->
  index_di n t = Some i -> i < 0 \/ quota_ip s t = None ->
  wp (set_bq p t NODQUOT) (fun _ s' => got_none held s s') s.
Proof.
  intros (Hul & an & ents & L & C & I) Hn Hb Ht Hix Hno.
  apply wp_set_bq; [eauto|]. pose proof (inv_nodquot _ _ _ _ _ _ _ _ _ I Hn Hb Ht) as I'.
  cbv zeta in I'. set (s' := upd_nodes _ s) in *.
  assert (Hnl : nodes_like s s').
  { apply (nodes_like_repoint s s' p n t NODQUOT); [reflexivity|exact Hn| |exact Ht|congruence| |].
    - destruct (ci_nodes _ _ _ _ _ _ I) as [_ Hnodes]. now apply (Hnodes p n).
    - intros _. unfold record_for. rewrite Hix. destruct Hno as [Hneg| ->].
      + rewrite (proj2 (Z.ltb_lt _ _) Hneg). now rewrite orb_true_r.
      + rewrite (bool_decide_eq_true_2 (None = None)) by reflexivity. now rewrite !orb_true_r.
    - unfold s'. cbn. apply map_eq. intros b. destruct (decide (p = b)) as [->|Hne].
      + now rewrite lookup_alter_eq, lookup_insert_eq, Hn.
      + now rewrite lookup_alter_ne, lookup_insert_ne. }
  constructor; [|constructor; auto|reflexivity|reflexivity]. split; [exact Hul|eauto 10].
Qed.

Lemma pointed_record held s an ents L C p n t i a :
  cache_inv held s an ents L C -> nodes s !! p = Some n -> 0 <= t < SAM_QUOTA_DEFD ->
  index_di n t = Some i -> bq n t = QP a ->
  exists q, ents !! a = Some q /\ is_entry q t i = true /\ 0 < qt_ref q /\ 0 <= i /\
    quota_ip s t <> None.
Proof.
  intros I Hn Ht Hix Hb. destruct (ci_nodes _ _ _ _ _ _ I) as [_ Hnodes].
  destruct (proj2 (Hnodes p n Hn) t a Ht Hb) as (q & Hq & Hh & Et & Hix').
  assert (Ei : qt_index q = i) by congruence.
  pose proof (hashed_not_anchor _ _ _ _ _ _ _ _ I Hq Hh) as Haan.
  pose proof (ci_ent _ _ _ _ _ _ I a q Hq Haan) as Oa.
  destruct (eo_key _ _ _ _ _ _ Oa Hh) as (_ & Hi & Hv). rewrite Et in Hv. rewrite Ei in Hi.
  exists q. split; [exact Hq|]. split; [now apply is_entry_spec|].
  split; [|split; [exact Hi|congruence]].
  rewrite (eo_ref _ _ _ _ _ _ Oa Hh), Et. eapply refs_pos; eauto.
Qed.

Definition get_post held s (ip : option addr) (t i : Z) (r : option addr) s' : Prop :=
  if charged s ip t i then exists a, r = Some a /\ got held s t i a s'
  else r = None /\ got_none held s s'.

Lemma get_spec held s ip t i :
  cache_ok held s -> 0 <= t < SAM_QUOTA_DEFD -> caller_ok s ip t i -> not_holding held s t i ->
  wp (sam_quot_get ip t i) (get_post held s ip t i) s.
Proof.
  intros Hok Ht Hc Hnh. unfold sam_quot_get, get_post.
  rewrite (proj2 (Z.ltb_ge t 0)), (proj2 (Z.leb_gt SAM_QUOTA_DEFD t)) by lia. cbn [orb].
  destruct ip as [p|]; cbn [base_ip ip_bq charged].
  - destruct Hc as ([np Hnp] & n & Hn & Hix). unfold base_of in Hn |- *. rewrite Hnp in Hn |- *.
    rewrite Hn. set (b := if seg_ino np then segment_ip np else p) in *.
    apply wp_bind, wp_bind; eapply wp_get_node; [exact Hnp|]. apply wp_ret. fold b.
    apply wp_bind, wp_bind; eapply wp_get_node; [exact Hn|]. apply wp_ret.
    unfold record_for. rewrite Hix.
    destruct (decide (bq n t = NODQUOT)) as [Hb|Hb].
    { rewrite (bool_decide_eq_true_2 (bq n t = NODQUOT)) by exact Hb. cbn [orb].
      apply wp_ret. rewrite bool_decide_eq_false_2 by discriminate.
      split; [reflexivity|now apply got_none_refl]. }
    rewrite (bool_decide_eq_false_2 (bq n t = NODQUOT)) by exact Hb. cbn [orb].
    apply wp_bind, wp_gets. destruct Hok as (Hul & an & ents & L & C & I).
    destruct ((i <? 0) || bool_decide (quota_ip s t = None)) eqn:Eno.
    + rewrite bool_decide_eq_false_2 by discriminate.
      assert (Hno : i < 0 \/ quota_ip s t = None).
      { apply orb_prop in Eno as [Hz|Hz]; [left; now apply Z.ltb_lt|right].
        now apply bool_decide_eq_true in Hz. }
      assert (Hnull : bq n t = QNULL).
      { destruct (bq n t) as [| |a] eqn:Eb; [reflexivity|congruence|]. exfalso.
        destruct (pointed_record _ _ _ _ _ _ _ _ _ _ _ I Hn Ht Hix Eb) as (_ & _ & _ & _ & ? & ?).
        destruct Hno; [lia|congruence]. }
      apply wp_bind. eapply wp_mono; [eapply nodquot_spec; eauto; split; [exact Hul|eauto]|].
      intros u s' Hg. apply wp_ret. auto.
    + rewrite bool_decide_eq_true_2 by reflexivity. apply orb_false_iff in Eno as [Hi Hqip].
      apply Z.ltb_ge in Hi. apply bool_decide_eq_false in Hqip.
      destruct (quota_ip s t) as [vp|] eqn:Hvp; [|congruence].
      destruct (bq n t) as [| |a] eqn:Eb; [|congruence|].
      * eapply quot_search_spec; [split; [exact Hul|eauto]|exact Ht|exact Hi|exact Hvp| |exact Hnh].
        exists n. auto.
      * destruct (pointed_record _ _ _ _ _ _ _ _ _ _ _ I Hn Ht Hix Eb) as (q & Hq & He & Hr & _).
        eapply wp_mono; [eapply pointer_spec; eauto|]. intros r s' [-> Hg]. eauto.
  - apply wp_bind, wp_ret, wp_bind, wp_ret. rewrite decide_False by discriminate.
    apply wp_bind, wp_gets.
    destruct ((i <? 0) || bool_decide (quota_ip s t = None)) eqn:Eno.
    + replace ((0 <=? i) && negb (bool_decide (quota_ip s t = None))) with false.
      2:{ rewrite Z.leb_antisym, <- negb_orb, Eno. reflexivity. }
      apply wp_bind, wp_ret, wp_ret. split; [reflexivity|now apply got_none_refl].
    + replace ((0 <=? i) && negb (bool_decide (quota_ip s t = None))) with true.
      2:{ rewrite Z.leb_antisym, <- negb_orb, Eno. reflexivity. }
      apply orb_false_iff in Eno as [Hi Hqip]. apply Z.ltb_ge in Hi. apply bool_decide_eq_false in Hqip.
      destruct (quota_ip s t) as [vp|] eqn:Hvp; [|congruence].
      eapply quot_search_spec; eauto.
Qed.

(** ** [sam_quota_flush] *)

(** The structure after a flush. *)
Definition flushed q : sam_quot :=
  if dirty q then clear_flags SAM_QF_BUSY (clear_flags SAM_QF_DIRTY (or_flags SAM_QF_BUSY q)) else q.

Definition flushed_env s q : E :=
  if dirty q then snd (sam_write_vn (env s) (qt_vp q) (qt_index q) (qt_dent q)) else env s.

Lemma flushed_flags q (m : Z) :
  Z.land m (Z.lor SAM_QF_BUSY SAM_QF_DIRTY) = 0 ->
  Z.land (Z.lnot SAM_QF_BUSY) m = m -> Z.land (Z.lnot SAM_QF_DIRTY) m = m ->
  Z.land SAM_QF_BUSY m = 0 ->
  has_any (qt_flags (flushed q)) m = has_any (qt_flags q) m.
Proof.
  intros Hm H1 H2 H3. unfold flushed. destruct (dirty q); [|reflexivity]. cbn.
  now rewrite !has_any_clear_ne, has_any_or_ne by assumption.
Qed.

Lemma flushed_clean q : dirty (flushed q) = false.
Proof.
  unfold flushed. destruct (dirty q) eqn:Hd; [|exact Hd]. unfold dirty. cbn.
  rewrite has_any_clear_ne by reflexivity. apply has_any_clear_eq.
Qed.

Lemma flushed_busy q : busy q = false -> busy (flushed q) = false.
Proof.
  intros Hb. unfold flushed. destruct (dirty q); [|exact Hb]. unfold busy. cbn. apply has_any_clear_eq.
Qed.

Lemma flushed_same q :
  qt_vp (flushed q) = qt_vp q /\ qt_ref (flushed q) = qt_ref q /\ qt_type (flushed q) = qt_type q /\
  qt_index (flushed q) = qt_index q /\ qt_lock (flushed q) = qt_lock q /\
  qt_dent (flushed q) = qt_dent q.
Proof. unfold flushed. destruct (dirty q); repeat split. Qed.

Lemma flush_spec a q s an ents L C :
  links s an ents L C -> ents !! a = Some q -> qt_lock q = true -> busy q = false ->
  dquot_typed (qt_dent q) -> 0 <= qt_index q -> quota_ip s (qt_type q) = Some (qt_vp q) ->
  fs_client (mp s) = false ->
  wp (sam_quota_flush a) (fun err s' => err = 0 /\
    links s' an (<[a := flushed q]> ents) L C /\ rest s' = rest (set_env (flushed_env s q) s) /\
    brk s' = brk s) s.
Proof.
  intros Hl Hq Hlk Hbu Hty Hi Hvp Hcl.
  destruct (links_heap _ _ _ _ _ _ _ Hl Hq) as (q0 & Hq0 & Eq).
  assert (Ef : qt_lock q0 = qt_lock q /\ qt_flags q0 = qt_flags q /\ qt_index q0 = qt_index q /\
    qt_vp q0 = qt_vp q /\ qt_dent q0 = qt_dent q /\ qt_type q0 = qt_type q) by (subst q; repeat split).
  destruct Ef as (E1 & E2 & E3 & E4 & E5 & E6). unfold sam_quota_flush, flushed, flushed_env.
  apply wp_bind; eapply wp_assert_held; [exact Hq0|congruence|].
  apply wp_bind; eapply wp_get_q; [exact Hq0|]. rewrite E2.
  fold (dirty q). destruct (dirty q); cbn [negb].
  2:{ apply wp_ret. rewrite insert_id by exact Hq. repeat (split; [reflexivity || exact Hl|]). reflexivity. }
  unfold busy in Hbu. rewrite Hbu, E3, E4, E5, E6.
  apply wp_bind, wp_gets. rewrite Hvp. rewrite bool_decide_eq_false_2 by discriminate.
  apply wp_bind, wp_assert_not_client; [exact Hcl|].
  apply wp_bind; eapply wp_mod_core; [auto with qlinks|exact Hl|exact Hq|].
  intros s1 Hl1 Hr1 Hb1. rewrite (alter_as_insert _ _ _ _ Hq) in Hl1.
  apply wp_bind; eapply wp_mod_core; [auto with qlinks|exact Hl1|apply lookup_insert_eq|].
  intros s2 Hl2 Hr2 Hb2. rewrite alter_insert_eq in Hl2. apply wp_bind, wp_gets.
  assert (Hr2' : rest s2 = rest s) by congruence.
  destruct (rest_proj _ _ Hr2') as (_ & He2 & _). rewrite He2.
  pose proof (qf_write (env s) (qt_vp q) (qt_index q) (qt_dent q) Hi Hty) as Hw.
  destruct (sam_write_vn (env s) (qt_vp q) (qt_index q) (qt_dent q)) as [err e']. cbn in Hw. subst err.
  apply wp_bind, wp_modify. apply wp_bind, wp_when; [discriminate|intros _].
  apply wp_bind; eapply wp_mod_core;
    [auto with qlinks|instantiate (1 := C); exact Hl2|apply lookup_insert_eq|].
  intros s3 Hl3 Hr3 Hb3. rewrite alter_insert_eq in Hl3. apply wp_ret.
  split; [reflexivity|]. split; [exact Hl3|]. split; [|cbn in Hb3; congruence].
  rewrite Hr3. unfold rest in *. cbn. congruence.
Qed.

(** ** [sam_quot_rel] *)

Lemma disk_use_flushed s q ip j :
  dquot_typed (qt_dent q) -> 0 <= qt_index q -> 0 <= j -> (ip, j) <> (qt_vp q, qt_index q) ->
  disk_use (flushed_env s q) ip j = disk_use (env s) ip j.
Proof.
  intros Hty Hi Hj Hne. unfold flushed_env. destruct (dirty q); [|reflexivity]. unfold disk_use.
  destruct (qf_write_other (env s) (qt_vp q) (qt_index q) (qt_dent q) ip j Hi Hj Hne) as [-> |[-> ->]];
    reflexivity.
Qed.

Lemma disk_use_flushed_own s q :
  dquot_typed (qt_dent q) -> 0 <= qt_index q ->
  (dirty q = false -> usage (qt_dent q) = disk_use (env s) (qt_vp q) (qt_index q)) ->
  usage (qt_dent q) = disk_use (flushed_env s q) (qt_vp q) (qt_index q).
Proof.
  intros Hty Hi Hcl. unfold flushed_env. destruct (dirty q); [|auto]. unfold disk_use.
  now rewrite qf_write_same.
Qed.

(** The structure after [sam_quot_rel]. *)
Definition released (t : Z) q : sam_quot :=
  set_lock false (if qt_ref q =? 0 then freed t (flushed q) else flushed q).

Lemma released_flags t q (m : Z) :
  Z.land m (Z.lor (Z.lor SAM_QF_BUSY SAM_QF_DIRTY) SAM_QF_AVAIL) = 0 ->
  Z.land (Z.lnot SAM_QF_BUSY) m = m -> Z.land (Z.lnot SAM_QF_DIRTY) m = m ->
  Z.land SAM_QF_BUSY m = 0 -> Z.land SAM_QF_AVAIL m = 0 ->
  has_any (qt_flags (released t q)) m = has_any (qt_flags q) m.
Proof.
  intros Hm H1 H2 H3 H4. unfold released.
  assert (E1 : Z.land m (Z.lor SAM_QF_BUSY SAM_QF_DIRTY) = 0).
  { rewrite Z.land_lor_distr_r in Hm. now apply Z.lor_eq_0_iff in Hm. }
  destruct (qt_ref q =? 0); cbn; [rewrite has_any_or_ne by exact H4|]; now apply flushed_flags.
Qed.

Lemma released_same t q :
  qt_vp (released t q) = qt_vp q /\ qt_ref (released t q) = qt_ref q /\
  qt_type (released t q) = qt_type q /\ qt_index (released t q) = qt_index q /\
  qt_lock (released t q) = false /\ qt_dent (released t q) = qt_dent q.
Proof.
  destruct (flushed_same q) as (H1 & H2 & H3 & H4 & H5 & H6).
  unfold released. destruct (qt_ref q =? 0); cbn; auto 10.
Qed.

Lemma ent_ok_released s s' held L C a q t :
  ent_ok s held L C a q -> hashed q = true -> a ∈ held -> a ∉ L ->
  m_quota_ip (mp s') = m_quota_ip (mp s) -> nodes s' = nodes s -> env s' = flushed_env s q ->
  ent_ok s' (held ∖ {[a]}) (if qt_ref q =? 0 then L ++ [a] else L) C a (released t q).
Proof.
  intros O Hh Hah HaL Hm Hn He.
  destruct (released_same t q) as (Gv & Gr & Gt & Gi & Gl & Gd).
  assert (Fh : hashed (released t q) = true) by (rewrite <- Hh; now apply released_flags).
  assert (Fd : dirty (released t q) = false).
  { unfold released, dirty. destruct (qt_ref q =? 0); cbn; [rewrite has_any_or_ne by reflexivity|];
      apply flushed_clean. }
  destruct (eo_key _ _ _ _ _ _ O Hh) as (K1 & K2 & K3).
  pose proof (eo_typed _ _ _ _ _ _ O) as Hty. pose proof (eo_disk _ _ _ _ _ _ O Hh) as Hdi.
  pose proof (eo_ref _ _ _ _ _ _ O Hh) as Hrf. pose proof (refs_nonneg (nodes s) (qt_type q) a) as Hr0.
  constructor; rewrite ?Gv, ?Gr, ?Gt, ?Gi, ?Gl, ?Gd, ?Hn, ?He, ?(quota_ip_eq _ _ _ Hm), ?Fd; auto.
  - rewrite <- (eo_anchor _ _ _ _ _ _ O). now apply released_flags.
  - pose proof (flushed_busy q (eo_busy _ _ _ _ _ _ O)) as Hb. unfold released, busy in *.
    destruct (qt_ref q =? 0); cbn; [rewrite has_any_or_ne by reflexivity|]; exact Hb.
  - assert (Hna : on_avail (flushed q) = false).
    { unfold on_avail. rewrite flushed_flags by reflexivity.
      destruct (has_any (qt_flags q) SAM_QF_AVAIL) eqn:Ea; [|reflexivity].
      exfalso. apply HaL, (eo_avail _ _ _ _ _ _ O), Ea. }
    unfold released, on_avail in *. destruct (qt_ref q =? 0); cbn.
    + rewrite has_any_lor_l. split; [set_solver|]. intros _. apply orb_true_r.
    + rewrite Hna. split; [discriminate|contradiction].
  - rewrite Fh, <- (eo_hashed _ _ _ _ _ _ O), Hh. tauto.
  - apply (eo_slot _ _ _ _ _ _ O).
  - set_solver.
  - destruct (Z.eqb_spec (qt_ref q) 0) as [Er|Er]; [|contradiction]. intros _. split; [exact Er|set_solver].
  - intros _ _. now apply disk_use_flushed_own.
  - rewrite Fh. discriminate.
  - intros _. destruct (Z.eqb_spec (qt_ref q) 0); [left; set_solver|right; lia].
Qed.

Lemma rel_run held s an ents L C a q :
  cache_inv held s an ents L C -> unlocked s -> a ∈ held -> ents !! a = Some q -> hashed q = true ->
  wp (sam_quot_rel a) (fun _ s' =>
    links s' an (<[a := released (now s) q]> ents) (if qt_ref q =? 0 then L ++ [a] else L) C /\
    rest s' = rest (set_env (flushed_env s q) s) /\ brk s' = brk s) s.
Proof.
  intros I Hul Hah Hq Hh.
  destruct (held_facts _ _ _ _ _ _ _ _ I Hah Hq) as (Oa & Haan & Hlk & Hav & HaL & Href).
  destruct (eo_key _ _ _ _ _ _ Oa Hh) as (K1 & K2 & K3).
  destruct (links_heap _ _ _ _ _ _ _ (ci_links _ _ _ _ _ _ I) Hq) as (q0 & Hq0 & Eq).
  unfold sam_quot_rel.
  apply wp_bind; eapply wp_assert_held; [exact Hq0|rewrite Eq in Hlk; exact Hlk|].
  apply wp_bind. eapply wp_mono.
  { eapply flush_spec; [apply I|exact Hq|exact Hlk|apply Oa|apply Oa|exact K2|exact K3|apply I]. }
  intros err s1 (_ & Hl1 & Hr1 & Hb1). destruct (flushed_same q) as (F1 & F2 & F3 & F4 & F5 & F6).
  destruct (links_heap _ _ _ _ _ a _ Hl1 ltac:(apply lookup_insert_eq)) as (q1 & Hq1 & Eq1).
  destruct (rest_proj _ _ Hr1) as (_ & _ & _ & Hw1 & _ & _ & _ & Ha1 & _). cbn in Hw1, Ha1.
  apply wp_bind; eapply wp_get_q; [exact Hq1|].
  replace (qt_ref q1) with (qt_ref q) by (rewrite <- F2, Eq1; reflexivity).
  unfold released. apply wp_bind, wp_when; intros Er; rewrite Er.
  - eapply wp_mono.
    { eapply free2back_spec; [exact Hl1|rewrite Ha1; apply Hul|set_solver|apply lookup_insert_eq|].
      split; [congruence|]. rewrite !flushed_flags by reflexivity.
      split; [apply Oa|]. split; [exact Hav|]. apply Z.eqb_eq in Er. congruence. }
    intros u s2 (Hl2 & Hr2 & Hb2). rewrite alter_insert_eq, Hw1 in Hl2.
    eapply wp_mod_core; [auto with qlinks|exact Hl2|apply lookup_insert_eq|].
    intros s3 Hl3 Hr3 Hb3. rewrite alter_insert_eq in Hl3. split; [exact Hl3|]. split; congruence.
  - eapply wp_mod_core; [auto with qlinks|exact Hl1|apply lookup_insert_eq|].
    intros s3 Hl3 Hr3 Hb3. rewrite alter_insert_eq in Hl3. split; [exact Hl3|]. split; congruence.
Qed.

(** Releasing a record: it is written if it changed, it is unlocked, and no key
    changes its usage. *)
Lemma rel_spec held s a q :
  cache_ok held s -> a ∈ held -> rec_at s a = Some q -> hashed q = true ->
  wp (sam_quot_rel a) (fun _ s' => cache_ok (held ∖ {[a]}) s' /\ keeps (held ∖ {[a]}) s s' /\
    terminal s' = terminal s /\ nodes s' = nodes s) s.
Proof.
  intros (Hul & an & ents & L & C & I) Hah Hrec Hh.
  rewrite (inv_rec_at _ _ _ _ _ _ _ I) in Hrec. rename Hrec into Hq.
  destruct (held_facts _ _ _ _ _ _ _ _ I Hah Hq) as (Oa & Haan & _ & _ & HaL & _).
  destruct (eo_key _ _ _ _ _ _ Oa Hh) as (K1 & K2 & K3).
  pose proof (eo_typed _ _ _ _ _ _ Oa) as Hty.
  eapply wp_mono; [eapply rel_run; eauto|]. intros u s' (Hl & Hr & Hb).
  destruct (rest_proj _ _ Hr) as (Hm & He & Hn & Hw & Hf & Hcl & Hhl & Hal & Hco & Hte & _).
  cbn in Hm, He, Hn, Hw, Hf, Hcl, Hhl, Hal, Hco, Hte.
  destruct (released_same (now s) q) as (Gv & Gr & Gt & Gi & Gl & Gd).
  assert (Fh : hashed (released (now s) q) = hashed q) by now apply released_flags.
  assert (Hother : forall b qb, b <> a -> ents !! b = Some qb -> hashed qb = true ->
    disk_use (env s') (qt_vp qb) (qt_index qb) = disk_use (env s) (qt_vp qb) (qt_index qb)).
  { intros b qb Hne Hqb Hhb. rewrite He.
    destruct (eo_key _ _ _ _ _ _ (ci_ent _ _ _ _ _ _ I b qb Hqb (hashed_not_anchor _ _ _ _ _ _ _ _ I Hqb Hhb)) Hhb)
      as (B1 & B2 & B3).
    apply disk_use_flushed; auto. intros [= Ev Ei]. apply Hne.
    eapply (ci_unique _ _ _ _ _ _ I b a); eauto.
    eapply (ci_files _ _ _ _ _ _ I); eauto. congruence. }
  assert (I' : cache_inv (held ∖ {[a]}) s' an (<[a := released (now s) q]> ents)
    (if qt_ref q =? 0 then L ++ [a] else L) C).
  { eapply (inv_update held); [exact I|exact Hq|exact Haan|exact Hl|exact Hm|exact Hn|exact Hcl|exact Hb|
      exact Fh|exact Gt|exact Gi|exact Hother| | |].
    - intros b Hne. destruct (qt_ref q =? 0); [set_solver|reflexivity].
    - set_solver.
    - eapply ent_ok_released; eauto. }
  split; [split; [split; [rewrite Hhl|rewrite Hal]; apply Hul|eauto]|].
  split; [|split; [exact Hte|exact Hn]]. constructor; try assumption.
  - now apply nodes_like_eq.
  - intros b Hb'. eapply core_heap_other; [apply I|apply I'|set_solver].
  - intros t i Ht Hi. eapply (usage_update held); [exact I|exact I'|exact Hq|exact Fh|exact Gt|exact Gi| |
      intros; congruence].
    intros Hne. unfold disk_usage. rewrite (quota_ip_eq _ _ _ Hm). destruct (quota_ip s t) as [ip|] eqn:Hip; [|reflexivity].
    rewrite He. apply disk_use_flushed; auto. intros [= -> ->].
    assert (qt_type q = t) by (eapply (ci_files _ _ _ _ _ _ I); eauto).
    rewrite (proj2 (is_entry_spec q t (qt_index q))) in Hne; [discriminate|auto].
Qed.
End Rel.
