(* ===== verification/QuotaOps.v ===== *)
(** * Quota operations

    The operations that the rest of the file system calls: charging and returning
    blocks and files, changing the owner of a file, setting and reading records,
    starting and stopping quotas (src/src/fs/samfs/quota.c and the first half of
    src/src/fs/samfs/cquota.c), on top of the cache. *)

From S2P Require Import Prelude QuotaRec QuotaBytes Monad QuotaCache.

Section Ops.
Context {E : Type} `{QuotaEnv E}.
Abbreviation K := (M (kstate E)).

(** ** Charging one record *)

(** [sam_quota_bcheck] and the body of [sam_quota_fcheck] assign these fields. *)
Definition store_charge (q' : sam_quot) (q : sam_quot) : sam_quot :=
  mk_quot (qt_vp q) (qt_flags q') (qt_ref q) (qt_type q) (qt_index q) (qt_lastref q') (qt_lock q)
    (qt_hash_next q) (qt_avail_next q) (qt_avail_prev q) (qt_dent q').

Definition bcheck (qp : addr) (ol tot : Z) (cr : option Z) : K Z :=
  assert_held qp;;
  q ← get_q qp; se ← gets sam_enabled; t ← gets now;
  let '(err, q', msgs) := sam_quota_bcheck se t q ol tot cr in
  when (mixed_signs ol tot) (cmn_err MixedSigns);;
  mod_q qp (store_charge q');;
  modify (say msgs);;
  mret err.

Definition sam_quota_fcheck (type index ol tot : Z) (cr : option Z) : K Z :=
  qip ← gets (fun s => quota_ip s type);
  if bool_decide (qip = None) then mret 0
  else if index <? 0 then (cmn_err NegativeIndex;; mret EDQUOT)
  else if mixed_signs ol tot then (cmn_err MixedSigns;; mret EDQUOT)
  else
    r ← sam_quot_get None type index;
    match r with
    | None => mret 0
    | Some qp =>
        q ← get_q qp; se ← gets sam_enabled; t ← gets now;
        let '(err, q', msgs) := fcheck_record se t q ol tot cr in
        mod_q qp (store_charge q');;
        modify (say msgs);;
        sam_quot_rel qp;;
        mret err
    end.

(** ** Loops over the quota types *)

(** [for (i = 0; ...) { err = step(i); if (err) break; }]: the types done before the
    failing one, and the error. *)
Fixpoint until_err (kinds : list Z) (step : Z -> K Z) : K (list Z * Z) :=
  match kinds with
  | [] => mret ([], 0)
  | t :: kinds' =>
      err ← step t;
      if negb (err =? 0) then mret ([], err)
      else
        '(done, e) ← until_err kinds' step;
        mret (t :: done, e)
  end.

(** The body of the loops of [sam_quota_balloc], for the inode [ip] or for none. *)
Definition bcharge (ip : option addr) (index : Z -> K Z) (ol tot : Z) (cr : option Z)
    (type : Z) : K Z :=
  i ← index type;
  r ← sam_quot_get ip type i;
  match r with
  | None => mret 0
  | Some qp => err ← bcheck qp ol tot cr; sam_quot_rel qp;; mret err
  end.

(** ... and of the loop that gives back what was charged. *)
Definition bgiveback (ip : option addr) (index : Z -> K Z) (ol tot : Z) (type : Z) : K unit :=
  err ← bcharge ip index (s64 (- ol)) (s64 (- tot)) None type;
  when (negb (err =? 0)) (cmn_err (ErrorReturning type)).

(** Inodes of the file system itself are not charged. *)
Definition SAM_MAX_PRIV_INO : Z := 1024.
Definition SAM_MAX_PRIV_INO_VERS_1 : Z := 5.
Definition SAM_LOSTFOUND_INO : Z := 6.
Definition SAM_OBJ_OBJCTL_INO : Z := 26.
Definition SAM_OBJ_ROOT_INO : Z := 32.
Definition SAMFS_SBLKV1 : Z := 1.
Definition SAM_PRIVILEGE_INO (vers ino : Z) : bool :=
  (((ino <=? SAM_MAX_PRIV_INO) && negb (ino =? SAM_LOSTFOUND_INO) && negb (vers =? SAMFS_SBLKV1))
   || (ino <=? SAM_MAX_PRIV_INO_VERS_1)) &&
  negb ((SAM_OBJ_OBJCTL_INO <=? ino) && (ino <=? SAM_OBJ_ROOT_INO)).

(** ** Blocks *)

Definition charge_blocks_all (ip : option addr) (index : Z -> K Z) (nblks nblks2 : Z)
    (cr : option Z) : K Z :=
  '(done, err) ← until_err quota_kinds (bcharge ip index nblks nblks2 cr);
  if err =? 0 then mret 0
  else
    for_each (rev done) (bgiveback ip index nblks nblks2);;
    mret EDQUOT.

Definition sam_quota_balloc (ip : addr) (nblks nblks2 : Z) (cr : option Z) : K Z :=
  assert_not_client;;
  n ← get_node ip;
  if seg_file n then mret 0
  else
    on ← gets quota_on;
    if negb on then mret 0
    else if SAM_PRIVILEGE_INO (di_version n) (di_ino n) then mret 0
    else charge_blocks_all (Some ip) (sam_quota_get_index ip) nblks nblks2 cr.

(** The flavour for an inode that is not in core; it has no quota pointers. *)
Definition sam_quota_balloc_perm (permip : sam_node) (nblks nblks2 : Z) (cr : option Z) : K Z :=
  assert_not_client;;
  if seg_file permip then mret 0
  else
    on ← gets quota_on;
    if negb on then mret 0
    else if SAM_PRIVILEGE_INO (di_version permip) (di_ino permip) then mret 0
    else charge_blocks_all None (sam_quota_get_index_di permip) nblks nblks2 cr.

Fixpoint bret_loop (kinds : list Z) (ip : addr) (nblks nblks2 : Z) (err : bool) : K bool :=
  match kinds with
  | [] => mret err
  | t :: kinds' =>
      e ← bcharge (Some ip) (sam_quota_get_index ip) (s64 (- nblks)) (s64 (- nblks2)) None t;
      when (negb (e =? 0)) (cmn_err (ErrorReturning t));;
      bret_loop kinds' ip nblks nblks2 (err || negb (e =? 0))
  end.

Definition sam_quota_bret (ip : addr) (nblks nblks2 : Z) : K Z :=
  assert_not_client;;
  on ← gets quota_on;
  if negb on then mret 0
  else
    n ← get_node ip;
    if SAM_PRIVILEGE_INO (di_version n) (di_ino n) then mret 0
    else
      err ← bret_loop quota_kinds ip nblks nblks2 false;
      mret (if (err : bool) then EDQUOT else 0).

(** ** Files *)

(** [if (m_quota_ip[i] && idx[i] >= 0) err = sam_quota_fcheck(...)] *)
Definition fcharge (idx : Z -> Z) (ol tot : Z) (cr : option Z) (type : Z) : K Z :=
  qip ← gets (fun s => quota_ip s type);
  if negb (bool_decide (qip = None)) && (0 <=? idx type)
  then sam_quota_fcheck type (idx type) ol tot cr
  else mret 0.

Definition fgiveback (idx : Z -> Z) (type : Z) : K unit :=
  err ← fcharge idx (-1) (-1) None type;
  when (negb (err =? 0)) (cmn_err (ErrorReturning type)).

Definition falloc_idx (uid gid aid : Z) (type : Z) : Z :=
  if type =? SAM_QUOTA_ADMIN then aid
  else if type =? SAM_QUOTA_GROUP then s32 gid else s32 uid.

Definition sam_quota_falloc (uid gid aid : Z) (cr : option Z) : K Z :=
  assert_not_client;;
  on ← gets quota_on;
  if negb on then mret 0
  else
    '(done, err) ← until_err quota_kinds (fcharge (falloc_idx uid gid aid) 1 1 cr);
    if err =? 0 then mret 0
    else
      for_each (rev done) (fgiveback (falloc_idx uid gid aid));;
      mret EDQUOT.

(** The guard [ip->bquota[i] != NODQUOT && mp->mi.m_quota_ip[i]] of the three
    functions below. *)
Definition fcharge_ip (ip : addr) (ol tot : Z) (cr : option Z) (type : Z) : K Z :=
  n ← get_node ip; qip ← gets (fun s => quota_ip s type);
  if negb (bool_decide (bq n type = NODQUOT)) && negb (bool_decide (qip = None)) then
    i ← sam_quota_get_index ip type; sam_quota_fcheck type i ol tot cr
  else mret 0.

Definition sam_quota_fret (ip : addr) : K Z :=
  assert_not_client;;
  on ← gets quota_on;
  if negb on then mret 0
  else
    for_each quota_kinds (fun t =>
      err ← (n ← get_node ip; fcharge_ip ip (if offline n then 0 else -1) (-1) None t);
      when (negb (err =? 0)) (cmn_err (ErrorReturning t)));;
    mret 0.

Definition sam_quota_fonline (ip : addr) (cr : option Z) : K Z :=
  on ← gets quota_on;
  if negb on then mret 0
  else
    '(done, err) ← until_err quota_kinds (fcharge_ip ip 0 0 cr);
    if err =? 0 then mret 0
    else
      for_each (rev done) (fun t =>
        e ← fcharge_ip ip 0 0 cr t;
        when (negb (e =? 0)) (cmn_err (ErrorReturning t)));;
      mret EDQUOT.

Definition sam_quota_foffline (ip : addr) (cr : option Z) : K Z :=
  on ← gets quota_on;
  if negb on then mret 0
  else
    for_each quota_kinds (fun t =>
      e ← fcharge_ip ip 0 0 cr t;
      when (negb (e =? 0)) (cmn_err (ErrorReturning t)));;
    mret 0.

(** ** Inodes *)

Definition sam_is_quota_inode (s : kstate E) (ip : addr) : bool :=
  existsb (fun t => bool_decide (quota_ip s t = Some ip)) quota_kinds.

(** One type of [sam_quota_inode_fini]. With one thread the pointer cannot change
    between the two reads. *)
Definition fini_one (ip : addr) (type : Z) : K unit :=
  n ← get_node ip;
  match bq n type with
  | QP qp =>
      assert_not_client;;
      mutex_enter qp;;
      n' ← get_node ip;
      if decide (bq n' type = QP qp) then
        sam_quot_unhold qp;;
        set_bq ip type QNULL;;
        sam_quot_rel qp
      else mutex_exit qp
  | _ => mret tt
  end.

Definition sam_quota_inode_fini (ip : addr) : K unit :=
  h ← gets (fun s => m_quota_hash (mp s));
  if bool_decide (h = None) then mret tt
  else for_each quota_kinds (fini_one ip).
End Ops.
