(* ===== verification/QuotaAdmin.v ===== *)
(** * Quota administration

    Changing the owner of a file, setting and reading records, the two system
    calls, and starting and stopping quotas on a mount (src/src/fs/samfs/quota.c,
    and [sam_quota_stat] and [sam_quota_get_info] of cquota.c). *)

From S2P Require Import Prelude QuotaRec QuotaBytes Monad QuotaCache QuotaOps.

(** ** Blocks of a file in the units of quotas *)

Definition D2QBLKS (x : Z) : Z := s64 (8 * x).
Definition S2QBLKS (x : Z) : Z := Z.quot (s64 (x + 512 - 1)) 512.
Definition TOTBLKS (n : sam_node) : Z :=
  if offline n then S2QBLKS (di_rm_size n) else D2QBLKS (di_blocks n).

(** A file and its blocks added to a record, or taken off it:
    [dq_folused++; dq_ftotused++; dq_bolused += ndkblks; dq_btotused += ntpblks]. *)
Definition owner_add (ndkblks ntpblks : Z) (d : sam_dquot) : sam_dquot :=
  charge_blocks ndkblks ntpblks (charge_files 1 1 d).
Definition owner_sub (ndkblks ntpblks : Z) (d : sam_dquot) : sam_dquot :=
  charge_blocks (- ndkblks) (- ntpblks) (charge_files (-1) (-1) d).

Definition hard_bits : Z :=
  Z.lor SAM_QT_OL_FILE_HARD (Z.lor SAM_QT_TOT_FILE_HARD
    (Z.lor SAM_QT_OL_BLOCK_HARD SAM_QT_TOT_BLOCK_HARD)).

Definition SAM_QOP_QSTAT : Z := 1.
Definition SAM_QOP_GET : Z := 2.
Definition SAM_QOP_PUT : Z := 3.
Definition SAM_QOP_PUTALL : Z := 4.
Definition SAM_QFL_INDEX : Z := 0x100.
Definition SAM_INODE_AID : Z := 0.
Definition SAM_INODE_PROJID : Z := 1.
Definition P2FLAGS_PROJID_VALID : Z := 0x04.

Definition set_admin_id (v : Z) (n : sam_node) : sam_node :=
  mk_node (seg_file n) (seg_ino n) (segment_ip n) (offline n) (nodrop n) (segment n) (di_reg n) (di_uid n)
    (di_gid n) v (di_nlink n) (di_blocks n) (di_rm_size n) (di_version n)
    (di_ino n) (di2_projid n) (di2_p2flags n) (bquota n).
Definition set_projid (v : Z) (n : sam_node) : sam_node :=
  mk_node (seg_file n) (seg_ino n) (segment_ip n) (offline n) (nodrop n) (segment n) (di_reg n) (di_uid n)
    (di_gid n) (di_admin_id n) (di_nlink n) (di_blocks n) (di_rm_size n) (di_version n)
    (di_ino n) v (Z.lor (di2_p2flags n) P2FLAGS_PROJID_VALID) (bquota n).
Definition set_nodrop (v : bool) (n : sam_node) : sam_node :=
  mk_node (seg_file n) (seg_ino n) (segment_ip n) (offline n) v (segment n) (di_reg n) (di_uid n)
    (di_gid n) (di_admin_id n) (di_nlink n) (di_blocks n) (di_rm_size n) (di_version n)
    (di_ino n) (di2_projid n) (di2_p2flags n) (bquota n).

(** ** The limits and timers of a record that is set *)

(** [op] replaces all of the record, or all but its usage and timers. *)
Definition put_record (op : Z) (nqd d : sam_dquot) : sam_dquot :=
  if op =? SAM_QOP_PUTALL then nqd else put_merge d nqd.

(** The two enforcement timers, from the tests before and after the change. *)
Definition ol_timer (now before after : Z) (d : sam_dquot) : sam_dquot :=
  if has_any after any_ol_soft then
    if (dq_ol_enforce d =? 0) && has_any (Z.lxor before after) any_ol_soft
    then set_ol_enforce (s32 (now + dq_ol_grace d)) d else d
  else set_ol_enforce 0 d.
Definition tot_timer (now before after : Z) (d : sam_dquot) : sam_dquot :=
  if has_any after any_tot_soft then
    if (dq_tot_enforce d =? 0) && has_any (Z.lxor before after) any_tot_soft
    then set_tot_enforce (s32 (now + dq_tot_grace d)) d else d
  else set_tot_enforce 0 d.

Definition over_flags : Z :=
  Z.lor SAM_QF_OVEROB (Z.lor SAM_QF_OVERTB (Z.lor SAM_QF_OVEROF SAM_QF_OVERTF)).

(** What [sam_quota_set_info] does to the structure, up to the flush. *)
Definition set_info_quot (se : bool) (now op : Z) (nqd : sam_dquot) (q : sam_quot) : sam_quot :=
  let before := testquota (qt_dent q) se in
  let d1 := put_record op nqd (qt_dent q) in
  let after := testquota d1 se in
  clear_flags over_flags (or_flags SAM_QF_DIRTY
    (upd_dent (fun _ => tot_timer now before after (ol_timer now before after d1)) q)).

Section Admin.
Context {E : Type} `{QuotaEnv E}.
Abbreviation K := (M (kstate E)).

Definition upd_node (ip : addr) (f : sam_node -> sam_node) : K unit :=
  fun s => match nodes s !! ip with
           | Some _ => Done tt (upd_nodes (alter f ip) s)
           | None => Fault WildPointer
           end.

Definition rel_opt (o : option addr) : K unit :=
  match o with Some qp => sam_quot_rel qp | None => mret tt end.

(** ** Changing the owner *)

(** The record of a new owner: charged, tested, and given back when it is over a
    hard limit; [true] when it was refused. *)
Definition owner_in (qp : option addr) (ndkblks ntpblks cruid : Z) : K bool :=
  match qp with
  | None => mret false
  | Some a =>
      mod_q a (upd_dent (owner_add ndkblks ntpblks));;
      q ← get_q a; se ← gets sam_enabled;
      let r := if cruid =? 0 then 0 else testquota (qt_dent q) se in
      if has_any r hard_bits then
        mod_q a (upd_dent (owner_sub ndkblks ntpblks));; mret true
      else
        mod_q a (or_flags SAM_QF_DIRTY);; mret false
  end.

(** Taking a file off a record that is held. *)
Definition owner_out (qp : option addr) (ndkblks ntpblks : Z) : K unit :=
  match qp with
  | None => mret tt
  | Some a =>
      mod_q a (upd_dent (owner_sub ndkblks ntpblks));;
      mod_q a (or_flags SAM_QF_DIRTY)
  end.

(** [if (cond) quot = sam_quot_get(mp, NULL, type, index)] *)
Definition get_if (cond : bool) (type index : Z) : K (option addr) :=
  if cond then sam_quot_get None type index else mret None.

(** The old record of one type, taken off when the id changes. *)
Definition old_owner (cond : bool) (type index ndkblks ntpblks : Z) : K unit :=
  qp ← get_if cond type index;
  owner_out qp ndkblks ntpblks;;
  rel_opt qp.

Definition sam_quota_chown (ip : addr) (uid gid cruid : Z) : K Z :=
  on ← gets quota_on;
  if negb on then mret 0
  else
    n ← get_node ip;
    let newu := negb (di_uid n =? uid) in
    let newg := negb (di_gid n =? gid) in
    if negb newu && negb newg then mret 0
    else
      uip ← gets (fun s => quota_ip s SAM_QUOTA_USER);
      gip ← gets (fun s => quota_ip s SAM_QUOTA_GROUP);
      if bool_decide (uip = None) && bool_decide (gip = None) then mret 0
      else if newu && bool_decide (uip = Some ip) then mret EBUSY
      else if newg && bool_decide (gip = Some ip) then mret EBUSY
      else
        sam_quota_inode_fini ip;;
        let ndkblks := D2QBLKS (di_blocks n) in
        let ntpblks := TOTBLKS n in
        uquot ← get_if newu SAM_QUOTA_USER (s32 uid);
        gquot ← get_if newg SAM_QUOTA_GROUP (s32 gid);
        ur ← owner_in uquot ndkblks ntpblks cruid;
        if (ur : bool) then
          rel_opt gquot;; rel_opt uquot;; mret EDQUOT
        else
          gr ← owner_in gquot ndkblks ntpblks cruid;
          if (gr : bool) then
            rel_opt gquot;;
            owner_out uquot ndkblks ntpblks;; rel_opt uquot;;
            mret EDQUOT
          else
            rel_opt gquot;; rel_opt uquot;;
            old_owner newu SAM_QUOTA_USER (s32 (di_uid n)) ndkblks ntpblks;;
            old_owner newg SAM_QUOTA_GROUP (s32 (di_gid n)) ndkblks ntpblks;;
            mret 0.

(** Adding a file to a record without a test, as [sam_set_aid] does. *)
Definition owner_add_untested (qp : option addr) (ndkblks ntpblks : Z) : K unit :=
  match qp with
  | None => mret tt
  | Some a =>
      mod_q a (upd_dent (owner_add ndkblks ntpblks));;
      mod_q a (or_flags SAM_QF_DIRTY)
  end.

(** [sam_set_aid]; [aid] is the [int32_t] of the request, [id] the same bits
    unsigned. *)
Definition sam_set_aid (ip : addr) (operation aid : Z) : K Z :=
  let id := u32 aid in
  on ← gets quota_on; qip ← gets (fun s => quota_ip s SAM_QUOTA_ADMIN);
  when ((operation =? SAM_INODE_AID) && on && negb (bool_decide (qip = None)))
    (sam_quota_inode_fini ip;;
     n ← get_node ip;
     let ndkblks := D2QBLKS (di_blocks n) in
     let ntpblks := TOTBLKS n in
     aquot ← sam_quot_get None SAM_QUOTA_ADMIN (s32 id);
     owner_add_untested aquot ndkblks ntpblks;;
     rel_opt aquot;;
     old_owner true SAM_QUOTA_ADMIN (di_admin_id n) ndkblks ntpblks);;
  if operation =? SAM_INODE_AID then upd_node ip (set_admin_id (s32 id));; mret 0
  else if operation =? SAM_INODE_PROJID then upd_node ip (set_projid (s32 id));; mret 0
  else mret EINVAL.

(** The environment of [sam_set_admid]: what the calls it makes return. *)
Record admid_env : Type := mk_admid_env {
  am_args : option (bool * Z);          (* size right and copyin: follow, admin_id *)
  am_lookup : bool -> Z * addr;         (* lookupname: error and inode *)
  am_samfs : bool;                      (* sam_set_realvp succeeds *)
  am_secpolicy : bool;                  (* secpolicy_fs_quota denies *)
  am_open : Z;                          (* sam_open_operation *)
  am_proc_inode : Z                     (* sam_proc_inode(INODE_samaid) on a client *)
}.

Definition sam_set_admid (w : admid_env) : K Z :=
  match am_args w with
  | None => mret EFAULT
  | Some (follow, admin_id) =>
      let '(error, ip) := am_lookup w follow in
      if negb (error =? 0) then mret error
      else if negb (am_samfs w) then mret ENOTTY
      else if am_secpolicy w then mret EPERM
      else
        n ← get_node ip;
        if di_admin_id n =? admin_id then mret 0
        else
          qip ← gets (fun s => quota_ip s SAM_QUOTA_ADMIN);
          if bool_decide (qip = Some ip) then mret EBUSY
          else if negb (am_open w =? 0) then mret (am_open w)
          else
            c ← gets (fun s => fs_client (mp s));
            if (c : bool) then mret (am_proc_inode w)
            else sam_set_aid ip SAM_INODE_AID admin_id
  end.

(** ** Reading and setting a record *)

Definition sam_quota_get_info (typ idx : Z) (dq : sam_dquot) : K (Z * sam_dquot) :=
  c ← gets (fun s => fs_client (mp s));
  if (c : bool) then
    e ← gets env; mret (client_get_quota e typ idx dq)
  else
    r ← sam_quot_get None typ idx;
    match r with
    | Some qp => q ← get_q qp; sam_quot_rel qp;; mret (0, qt_dent q)
    | None => mret (ENOENT, dq)
    end.

Definition sam_quota_set_info (ip : addr) (nqd : sam_dquot) (op type index : Z) : K Z :=
  c ← gets (fun s => fs_client (mp s));
  if (c : bool) then
    e ← gets env;
    let '(err, e') := client_put_quota e ip nqd op type index in
    modify (set_env e');; mret err
  else
    r ← sam_quot_get None type index;
    match r with
    | None => mret ENOENT
    | Some qp =>
        se ← gets sam_enabled; t ← gets now;
        mod_q qp (set_info_quot se t op nqd);;
        err ← sam_quota_flush qp;
        sam_quot_rel qp;;
        mret err
    end.

(** ** The system calls *)

(** [struct sam_quota_arg], without the user's pointer. *)
Record sam_quota_arg : Type := mk_qarg {
  qcmd : Z; qflags : Z; qsize_ok : bool; qtype : Z; qindex : Z; qfd : Z }.
Definition set_qindex (v : Z) (a : sam_quota_arg) : sam_quota_arg :=
  mk_qarg (qcmd a) (qflags a) (qsize_ok a) (qtype a) v (qfd a).
Definition set_qflags (v : Z) (a : sam_quota_arg) : sam_quota_arg :=
  mk_qarg (qcmd a) v (qsize_ok a) (qtype a) (qindex a) (qfd a).

(** What the calls of the kernel return to them. *)
Record call_env : Type := mk_call_env {
  ce_args : option sam_quota_arg;       (* copyin of the argument *)
  ce_getf : Z -> option (option addr);  (* getf: no file; a file of another type; an inode *)
  ce_secpolicy : bool;                  (* secpolicy_fs_quota denies *)
  ce_cruid : Z;
  ce_groupmember : Z -> bool;
  ce_access : Z;                        (* sam_access_ino(S_IWRITE) *)
  ce_copyin : option sam_dquot;         (* copyin of the record *)
  ce_copyout_rec : bool;                (* copyout of the record faults *)
  ce_copyout_args : bool;               (* copyout of the argument faults *)
  ce_stack : sam_dquot                  (* the local record before it is assigned *)
}.

(** The error, and what was copied out: the record and the argument. *)
Record call_result : Type := mk_call_result {
  cr_err : Z; cr_rec : option sam_dquot; cr_args : option sam_quota_arg }.
Definition returns (err : Z) : call_result := mk_call_result err None None.

(** [args.qindex = sam_quota_get_index(ip, args.qtype)] without [SAM_QFL_INDEX] *)
Definition fill_index (ip : addr) (args : sam_quota_arg) : K sam_quota_arg :=
  if has_any (qflags args) SAM_QFL_INDEX then mret args
  else i ← sam_quota_get_index ip (qtype args); mret (set_qindex (u32 i) args).

Definition sam_quota_op (w : call_env) : K call_result :=
  match ce_args w with
  | None => mret (returns EFAULT)
  | Some args0 =>
      if negb (qsize_ok args0) then mret (returns EFAULT)
      else if negb (qcmd args0 =? SAM_QOP_PUT) && negb (qcmd args0 =? SAM_QOP_PUTALL)
      then mret (returns EINVAL)
      else
        match ce_getf w (qfd args0) with
        | None => mret (returns EBADF)
        | Some None => mret (returns ENOTSUP)
        | Some (Some ip) =>
            if ce_secpolicy w then mret (returns EPERM)
            else if SAM_QUOTA_DEFD <=? qtype args0 then mret (returns EINVAL)
            else
              args ← fill_index ip args0;
              match ce_copyin w with
              | None => mret (returns EFAULT)
              | Some dq =>
                  err ← sam_quota_set_info ip dq (qcmd args) (qtype args) (s32 (qindex args));
                  if negb (err =? 0) then mret (returns err)
                  else if ce_copyout_args w then mret (returns EFAULT)
                  else mret (mk_call_result 0 None (Some args))
              end
        end
  end.

(** The first permission check of [SAM_QOP_GET]: the caller's own record. *)
Definition own_record (w : call_env) (args : sam_quota_arg) : bool :=
  if qtype args =? SAM_QUOTA_GROUP then ce_groupmember w (qindex args)
  else if qtype args =? SAM_QUOTA_USER then qindex args =? ce_cruid w
  else false.
(** ... and the second: the record of the file. *)
Definition file_record (n : sam_node) (args : sam_quota_arg) : bool :=
  if qtype args =? SAM_QUOTA_ADMIN then qindex args =? u32 (di_admin_id n)
  else if qtype args =? SAM_QUOTA_GROUP then qindex args =? di_gid n
  else if qtype args =? SAM_QUOTA_USER then qindex args =? di_uid n
  else false.

(** The permission part of [case SAM_QOP_GET]: the error, 0 when permitted. *)
Definition get_permitted (w : call_env) (n : sam_node) (args : sam_quota_arg) : Z :=
  if has_any (qflags args) SAM_QFL_INDEX then
    let ok := own_record w args in
    let err := if ok then 0 else ce_access w in
    let ok := ok || ((err =? 0) && file_record n args) in
    let ok := ok || negb (ce_secpolicy w) in
    if ok then 0 else if err =? 0 then EACCES else err
  else ce_access w.

(** The bits of the active quotas. *)
Definition active_quotas (s : kstate E) : Z :=
  foldl (fun f i => if bool_decide (quota_ip s i = None) then f else Z.lor f (Z.shiftl 1 i)) 0 quota_kinds.

(** The label [copyout]. *)
Definition copy_args (w : call_env) (err : Z) (rec : option sam_dquot) (args : sam_quota_arg) :
    call_result :=
  if ce_copyout_args w then mk_call_result EFAULT rec None else mk_call_result err rec (Some args).

Definition sam_quota_stat (w : call_env) : K call_result :=
  match ce_args w with
  | None => mret (returns EFAULT)
  | Some args0 =>
      if negb (qsize_ok args0) then mret (returns EFAULT)
      else
        match ce_getf w (qfd args0) with
        | None => mret (returns EBADF)
        | Some None => mret (returns ENOTSUP)
        | Some (Some ip) =>
            if qcmd args0 =? SAM_QOP_QSTAT then
              f ← gets active_quotas; mret (copy_args w 0 None (set_qflags f args0))
            else if negb (qcmd args0 =? SAM_QOP_GET) then mret (returns EINVAL)
            else
              n ← get_node ip;
              let err := get_permitted w n args0 in
              if negb (err =? 0) then mret (returns err)
              else if SAM_QUOTA_DEFD <=? qtype args0 then mret (returns EINVAL)
              else
                args ← fill_index ip args0;
                '(err, q) ← sam_quota_get_info (qtype args) (s32 (qindex args)) (ce_stack w);
                if err <? 0 then mret (returns err)
                else if ce_copyout_rec w then mret (copy_args w EFAULT None args)
                else mret (copy_args w err (Some q) args)
        end
  end.

(** ** Starting quotas *)

Definition set_quota_ip (i : Z) (v : option addr) : K unit :=
  modify (upd_mp (fun m => set_m_quota_ip (<[Z.to_nat i := v]> (m_quota_ip m)) m)).

(** One quota file, by the error and the inode that the lookup of its name returns;
    [true] when it is used. *)
Definition init_file (lookup : Z -> Z * addr) (i : Z) : K bool :=
  set_quota_ip i None;;
  let '(error, ip) := lookup i in
  if negb (error =? 0) then
    when (negb (error =? ENOENT)) (cmn_err (LookupFailure error));; mret false
  else
    n ← get_node ip;
    when (negb (di_reg n)) (cmn_err QuotaFileDisabled);;
    when (segment n) (cmn_err QuotaFileDisabled);;
    when (offline n) (cmn_err QuotaFileDisabled);;
    when (negb (nodrop n)) (cmn_err MarkingNoRelease;; upd_node ip (set_nodrop true));;
    if di_reg n && negb (segment n) && negb (offline n) then
      for_each quota_kinds (fun j => set_bq ip j NODQUOT);;
      set_quota_ip i (Some ip);;
      mret true
    else mret false.

Fixpoint init_files (lookup : Z -> Z * addr) (kinds : list Z) (nqf : Z) : K Z :=
  match kinds with
  | [] => mret nqf
  | i :: kinds' =>
      used ← init_file lookup i;
      init_files lookup kinds' (if (used : bool) then nqf + 1 else nqf)
  end.

(** The mutexes, the hash table and the anchor of the available list. *)
Definition init_tables : K unit :=
  modify (upd_mp (set_m_hashlock false));;
  modify (upd_mp (set_m_availlock false));;
  modify (upd_mp (set_m_hash (Some (replicate (Z.to_nat SAM_QUOTA_HASH_SIZE) None))));;
  an ← kma;
  modify (upd_mp (set_m_avail (Some an)));;
  mod_q an (set_flags SAM_QF_ANCHOR);;
  mod_q an (set_avail_next (Some an));;
  mod_q an (set_avail_prev (Some an)).

Definition sam_quota_init (lookup : Z -> Z * addr) : K unit :=
  on ← gets quota_on; h ← gets (fun s => m_quota_hash (mp s));
  if negb on then mret tt
  else if negb (bool_decide (h = None)) then mret tt
  else
    nqf ← init_files lookup quota_kinds 0;
    if negb (nqf =? 0) then init_tables
    else modify (upd_mp (fun m => set_m_config (Z.land (fi_config m) (Z.lnot MT_QUOTA)) m)).

(** ** Stopping quotas *)

(** Locking a structure while holding another mutex, which is dropped if need be. *)
Definition enter_under (leave enter : K unit) (qp : addr) : K unit :=
  ok ← mutex_tryenter qp;
  if (ok : bool) then mret tt else (leave;; mutex_enter qp;; enter).

(** Emptying one hash chain. *)
Fixpoint drain_chain (fuel : nat) (i : Z) : K unit :=
  hd ← hash_head i;
  match hd, fuel with
  | None, _ => mret tt
  | Some _, O => fail OutOfFuel
  | Some qp, S fuel' =>
      enter_under hash_exit hash_enter qp;;
      sam_quot_unhash qp;;
      q ← get_q qp;
      when (has_any (qt_flags q) SAM_QF_DIRTY) (cmn_err DirtyAtDone);;
      when (has_any (qt_flags q) SAM_QF_AVAIL)
        (avail_enter;; sam_quot_unfree qp;; avail_exit);;
      kmf qp;;
      drain_chain fuel' i
  end.

(** Emptying the available list. *)
Fixpoint drain_avail (fuel : nat) : K unit :=
  av ← gets (fun s => m_quota_avail (mp s)); an ← deref av; aq ← get_q an;
  if bool_decide (qt_avail_next aq = Some an) then mret tt
  else
    match fuel with
    | O => fail OutOfFuel
    | S fuel' =>
        qp ← deref (qt_avail_next aq);
        enter_under avail_exit avail_enter qp;;
        q ← get_q qp;
        when (has_any (qt_flags q) SAM_QF_DIRTY) (cmn_err DirtyAtDone);;
        sam_quot_unfree qp;;
        kmf qp;;
        drain_avail fuel'
    end.

Definition hash_slots : list Z := Z.of_nat <$> seq 0 (Z.to_nat SAM_QUOTA_HASH_SIZE).

(** Letting the anchor go. *)
Definition drop_anchor : K unit :=
  av ← gets (fun s => m_quota_avail (mp s)); an ← deref av;
  assert_flag an SAM_QF_ANCHOR true;;
  avail_exit;; mutex_enter an;; avail_enter;;
  kmf an;;
  modify (upd_mp (set_m_avail None));;
  avail_exit.

(** Closing one quota file; [in_use] tells whether the inode cannot be destroyed
    ([v_count || sam_delete_ino(vp)]). *)
Definition close_file (in_use : addr -> bool) (i : Z) : K unit :=
  qip ← gets (fun s => quota_ip s i);
  match qip with
  | None => mret tt
  | Some ip =>
      set_quota_ip i None;;
      if in_use ip then cmn_err InodeStillUsed
      else modify (upd_nodes (delete ip))
  end.

Definition sam_quota_common_done (in_use : addr -> bool) (close : bool) : K unit :=
  h ← gets (fun s => m_quota_hash (mp s));
  if bool_decide (h = None) then mret tt
  else
    hash_enter;;
    for_each hash_slots (fun i => fuel ← gets chain_fuel; drain_chain fuel i);;
    hash_exit;;
    avail_enter;;
    (fuel ← gets chain_fuel; drain_avail fuel);;
    if negb close then avail_exit
    else
      drop_anchor;;
      for_each quota_kinds (close_file in_use);;
      hash_enter;;
      modify (upd_mp (set_m_hash None));;
      hash_exit.

(** The sweep over one hash chain: the number of structures in use. *)
Fixpoint halt_chain (fuel : nat) (qp : option addr) (err : Z) : K Z :=
  match qp, fuel with
  | None, _ => mret err
  | Some _, O => fail OutOfFuel
  | Some a, S fuel' =>
      ok ← mutex_tryenter a;
      q ← get_q a;
      if negb ok then cmn_err LockTaken;; halt_chain fuel' (qt_hash_next q) (err + 1)
      else
        when (negb (qt_ref q =? 0)) (cmn_err RefCountNotZero);;
        mutex_exit a;;
        halt_chain fuel' (qt_hash_next q) (if qt_ref q =? 0 then err else err + 1)
  end.

Fixpoint halt_chains (slots : list Z) (err : Z) : K Z :=
  match slots with
  | [] => mret err
  | i :: slots' =>
      hd ← hash_head i; fuel ← gets chain_fuel;
      e ← halt_chain fuel hd err;
      halt_chains slots' e
  end.

(** [sam_quota_halt]; [inodes] are the inodes of the mount in the order in which
    the inode hash is swept. *)
Definition sam_quota_halt (in_use : addr -> bool) (inodes : list addr) : K Z :=
  h ← gets (fun s => m_quota_hash (mp s));
  if bool_decide (h = None) then mret 0
  else
    for_each inodes sam_quota_inode_fini;;
    hash_enter;;
    err ← halt_chains hash_slots 0;
    hash_exit;;
    if negb (err =? 0) then cmn_err HaltError;; mret err
    else
      for_each quota_kinds (fun i =>
        qip ← gets (fun s => quota_ip s i);
        match qip with
        | Some ip => n ← get_node ip; when (di_nlink n =? 0) (set_quota_ip i None)
        | None => mret tt
        end);;
      for_each quota_kinds (fun i =>
        qip ← gets (fun s => quota_ip s i);
        match qip with Some ip => sam_quota_inode_fini ip | None => mret tt end);;
      for_each quota_kinds (fun i =>
        qip ← gets (fun s => quota_ip s i);
        match qip with
        | Some ip =>
            for_each quota_kinds (fun j =>
              n ← get_node ip;
              when (negb (bool_decide (bq n j = NODQUOT))) (cmn_err PointerAfterFlush))
        | None => mret tt
        end);;
      sam_quota_common_done in_use false;;
      mret 0.

Definition sam_quota_fini (in_use : addr -> bool) : K unit := sam_quota_common_done in_use true.
End Admin.
