(* ===== verification/QuotaFrame.v ===== *)
(** * What the operations leave alone, by their shape

    Getting a record without an inode, changing it and releasing it touch no inode.
    This follows from the primitives that the operations are made of: a hint
    database walks their definitions. *)

From S2P Require Import Prelude QuotaRec QuotaBytes Monad QuotaCache QuotaOps QuotaAdmin.

Create HintDb spares discriminated.
#[export] Hint Constants Opaque : spares.

Section Spares.
Context {E : Type} `{QuotaEnv E}.
Abbreviation K := (M (kstate E)).

Definition spares_nodes {A : Type} (m : K A) : Prop :=
  forall s, match m s with Done _ s' => nodes s' = nodes s | Fault _ => True end.

Lemma spares_wp {A : Type} (m : K A) (Q : A -> kstate E -> Prop) s :
  spares_nodes m -> wp m Q s -> wp m (fun r s' => Q r s' /\ nodes s' = nodes s) s.
Proof.
  intros Hm. specialize (Hm s). with_strategy transparent [wp] unfold wp.
  destruct (m s); auto.
Qed.

Lemma spares_ret {A : Type} (a : A) : spares_nodes (mret a).
Proof. intros s. reflexivity. Qed.
Lemma spares_bind {A B : Type} (m : K A) (f : A -> K B) :
  spares_nodes m -> (forall a, spares_nodes (f a)) -> spares_nodes (m ≫= f).
Proof.
  intros Hm Hf s. specialize (Hm s). unfold mbind, M_bind. destruct (m s) as [a s1|]; [|exact Logic.I].
  specialize (Hf a s1). destruct (f a s1); congruence || exact Logic.I.
Qed.
Lemma spares_fail {A : Type} e : spares_nodes (fail (A := A) e).
Proof. intros s. exact Logic.I. Qed.
Lemma spares_gets {A : Type} (f : kstate E -> A) : spares_nodes (gets f).
Proof. intros s. reflexivity. Qed.
Lemma spares_modify (f : kstate E -> kstate E) :
  (forall s, nodes (f s) = nodes s) -> spares_nodes (modify f).
Proof. intros Hf s. apply Hf. Qed.
Lemma spares_assert b : spares_nodes (assert b).
Proof. destruct b; intros s; reflexivity || exact Logic.I. Qed.
Lemma spares_when (b : bool) (m : K unit) : spares_nodes m -> spares_nodes (when b m).
Proof. destruct b; [auto|]. intros _ s. reflexivity. Qed.
Lemma spares_deref {A : Type} (o : option A) : spares_nodes (deref o).
Proof. destruct o; intros s; reflexivity || exact Logic.I. Qed.
Lemma spares_get_q a : spares_nodes (get_q a).
Proof. intros s. unfold get_q. destruct (heap s !! a); reflexivity || exact Logic.I. Qed.
Lemma spares_mod_q a f : spares_nodes (mod_q a f).
Proof. intros s. unfold mod_q. destruct (heap s !! a); reflexivity || exact Logic.I. Qed.
Lemma spares_kma : spares_nodes kma.
Proof. intros s. reflexivity. Qed.
End Spares.

#[export] Hint Resolve spares_ret spares_fail spares_gets spares_assert spares_deref spares_get_q
  spares_mod_q spares_kma : spares.

(** Walks a definition down to its primitives. *)
Ltac spare :=
  repeat first
    [ solve [eauto 1 with spares]
    | apply spares_bind; [|intros ?]
    | apply spares_when
    | (apply spares_modify; intros ?; reflexivity)
    | match goal with |- spares_nodes (match ?x with _ => _ end) => destruct x end ].

Section Ops.
Context {E : Type} `{QuotaEnv E}.

Lemma spares_cmn_err m : spares_nodes (E := E) (cmn_err m).
Proof. unfold cmn_err. spare. Qed.
#[local] Hint Resolve spares_cmn_err : spares.
Lemma spares_mutex_enter a : spares_nodes (E := E) (mutex_enter a).
Proof. unfold mutex_enter. spare. Qed.
Lemma spares_mutex_tryenter a : spares_nodes (E := E) (mutex_tryenter a).
Proof. unfold mutex_tryenter. spare. Qed.
Lemma spares_mutex_exit a : spares_nodes (E := E) (mutex_exit a).
Proof. unfold mutex_exit. spare. Qed.
Lemma spares_hash_enter : spares_nodes (E := E) hash_enter.
Proof. unfold hash_enter. spare. Qed.
Lemma spares_hash_exit : spares_nodes (E := E) hash_exit.
Proof. unfold hash_exit. spare. Qed.
Lemma spares_avail_enter : spares_nodes (E := E) avail_enter.
Proof. unfold avail_enter. spare. Qed.
Lemma spares_avail_exit : spares_nodes (E := E) avail_exit.
Proof. unfold avail_exit. spare. Qed.
Lemma spares_assert_held a : spares_nodes (E := E) (assert_held a).
Proof. unfold assert_held. spare. Qed.
Lemma spares_assert_flag a m v : spares_nodes (E := E) (assert_flag a m v).
Proof. unfold assert_flag. spare. Qed.
Lemma spares_assert_ref a p : spares_nodes (E := E) (assert_ref a p).
Proof. unfold assert_ref. spare. Qed.
Lemma spares_assert_locks :
  spares_nodes (E := E) assert_availlock /\ spares_nodes (E := E) assert_hashlock /\
  spares_nodes (E := E) assert_not_client.
Proof. repeat split; [unfold assert_availlock|unfold assert_hashlock|unfold assert_not_client]; spare. Qed.
Definition spares_availlock := proj1 spares_assert_locks.
Definition spares_hashlock := proj1 (proj2 spares_assert_locks).
Definition spares_not_client := proj2 (proj2 spares_assert_locks).
#[local] Hint Resolve spares_mutex_enter spares_mutex_tryenter spares_mutex_exit spares_hash_enter
  spares_hash_exit spares_avail_enter spares_avail_exit spares_assert_held spares_assert_flag
  spares_assert_ref spares_availlock spares_hashlock spares_not_client : spares.

Lemma spares_unfree a : spares_nodes (E := E) (sam_quot_unfree a).
Proof. unfold sam_quot_unfree. spare. Qed.
Lemma spares_free2back a : spares_nodes (E := E) (sam_quot_free2back a).
Proof. unfold sam_quot_free2back, link_in. spare. Qed.
Lemma spares_free2front a : spares_nodes (E := E) (sam_quot_free2front a).
Proof. unfold sam_quot_free2front, link_in. spare. Qed.
Lemma spares_hash_head i : spares_nodes (E := E) (hash_head i).
Proof. unfold hash_head. spare. Qed.
Lemma spares_set_hash_head i v : spares_nodes (E := E) (set_hash_head i v).
Proof. unfold set_hash_head. spare. Qed.
#[local] Hint Resolve spares_unfree spares_free2back spares_free2front spares_hash_head
  spares_set_hash_head : spares.

Lemma spares_hash_walk fuel qp t i : spares_nodes (E := E) (hash_walk fuel qp t i).
Proof. revert qp. induction fuel; intros [a|]; cbn [hash_walk]; spare. Qed.
Lemma spares_read_ref i r : spares_nodes (E := E) (read_ref i r).
Proof. unfold read_ref. spare. Qed.
Lemma spares_write_ref i r v : spares_nodes (E := E) (write_ref i r v).
Proof. unfold write_ref. spare. Qed.
#[local] Hint Resolve spares_hash_walk spares_read_ref spares_write_ref : spares.
Lemma spares_unhash_walk fuel i r a : spares_nodes (E := E) (unhash_walk fuel i r a).
Proof. revert r. induction fuel; intros r; cbn [unhash_walk]; spare. Qed.
#[local] Hint Resolve spares_unhash_walk : spares.
Lemma spares_unhash a : spares_nodes (E := E) (sam_quot_unhash a).
Proof. unfold sam_quot_unhash. spare. Qed.
Lemma spares_getfront : spares_nodes (E := E) sam_quot_getfront.
Proof. unfold sam_quot_getfront. spare. Qed.
Lemma spares_alloc_loop n : spares_nodes (E := E) (alloc_loop n).
Proof. induction n; cbn [alloc_loop]; unfold alloc_one; spare. Qed.
#[local] Hint Resolve spares_unhash spares_getfront spares_alloc_loop : spares.
Lemma spares_getfree : spares_nodes (E := E) sam_quot_getfree.
Proof. unfold sam_quot_getfree, getfree_loop. spare. Qed.
#[local] Hint Resolve spares_getfree : spares.
Lemma spares_read_default ip d : spares_nodes (E := E) (read_default ip d).
Proof. unfold read_default. spare. Qed.
#[local] Hint Resolve spares_read_default : spares.
Lemma spares_quota_read a : spares_nodes (E := E) (sam_quota_read a).
Proof. unfold sam_quota_read, sam_quota_read_entry. spare. Qed.
Lemma spares_flush a : spares_nodes (E := E) (sam_quota_flush a).
Proof. unfold sam_quota_flush. spare. Qed.
#[local] Hint Resolve spares_quota_read spares_flush : spares.
Lemma spares_rel a : spares_nodes (E := E) (sam_quot_rel a).
Proof. unfold sam_quot_rel. spare. Qed.
Lemma spares_got_entry t a : spares_nodes (E := E) (got_entry None t a).
Proof. unfold got_entry, unpark, attach. spare. Qed.
Lemma spares_new_entry t i : spares_nodes (E := E) (new_entry None t i).
Proof. unfold new_entry, key_in, attach. spare. Qed.
#[local] Hint Resolve spares_rel spares_got_entry spares_new_entry : spares.
Lemma spares_search fuel t i : spares_nodes (E := E) (quot_search fuel None t i).
Proof. induction fuel; cbn [quot_search]; spare. Qed.
#[local] Hint Resolve spares_search : spares.

(** Getting a record without an inode. *)
Lemma spares_ret_bind {A B : Type} (a : A) (f : A -> M (kstate E) B) :
  spares_nodes (f a) -> spares_nodes (mret a ≫= f).
Proof. intros Hf s. exact (Hf s). Qed.

Lemma spares_get t i : spares_nodes (E := E) (sam_quot_get None t i).
Proof.
  unfold sam_quot_get, base_ip, ip_bq, set_ip_bq. destruct (_ || _); [apply spares_ret|].
  do 2 apply spares_ret_bind. rewrite decide_False by discriminate. cbv iota. spare.
Qed.
#[local] Hint Resolve spares_get : spares.
Lemma spares_get_if cond t i : spares_nodes (E := E) (get_if cond t i).
Proof. unfold get_if. spare. Qed.
Lemma spares_rel_opt o : spares_nodes (E := E) (rel_opt o).
Proof. unfold rel_opt. spare. Qed.
Lemma spares_owner_out o x y : spares_nodes (E := E) (owner_out o x y).
Proof. unfold owner_out. spare. Qed.
Lemma spares_owner_add o x y : spares_nodes (E := E) (owner_add_untested o x y).
Proof. unfold owner_add_untested. spare. Qed.
#[local] Hint Resolve spares_get_if spares_rel_opt spares_owner_out spares_owner_add : spares.
Lemma spares_old_owner c t i x y : spares_nodes (E := E) (old_owner c t i x y).
Proof. unfold old_owner. spare. Qed.
End Ops.

#[export] Hint Resolve spares_get spares_get_if spares_rel spares_rel_opt spares_owner_out
  spares_owner_add spares_old_owner spares_flush : spares.
