(* ===== verification/QuotaCharge.v ===== *)
(** * Charging records through the cache

    What one charge does to the usage of its key, for blocks ([bcharge]) and files
    ([sam_quota_fcheck]), and what [sam_quota_inode_fini] does. *)

From S2P Require Import Prelude DList QuotaRec QuotaBytes Monad QuotaCache QuotaLinks QuotaPrims QuotaInv QuotaGet QuotaRel QuotaOps.

(** ** Usage as a value *)

Definition use (k : counted) (ol tot : Z) (u : Z * Z * Z * Z) : Z * Z * Z * Z :=
  let '(fol, ftot, bol, btot) := u in
  match k with
  | FILES => (s64 (fol + ol), s64 (ftot + tot), bol, btot)
  | BLOCKS => (fol, ftot, s64 (bol + ol), s64 (btot + tot))
  end.

Lemma usage_charge k ol tot d : usage (charge k ol tot d) = use k ol tot (usage d).
Proof. destruct k; reflexivity. Qed.

(** Counts are 64-bit values. *)
Definition usage_range (u : Z * Z * Z * Z) : Prop :=
  let '(fol, ftot, bol, btot) := u in
  sint_range 64 fol /\ sint_range 64 ftot /\ sint_range 64 bol /\ sint_range 64 btot.

Lemma use_back k ol tot u :
  usage_range u -> sint_range 64 ol -> sint_range 64 tot ->
  use k (s64 (- ol)) (s64 (- tot)) (use k ol tot u) = u.
Proof.
  destruct u as [[[fol ftot] bol] btot]. intros (H1 & H2 & H3 & H4) Hol Htot.
  assert (Hx : forall x o, sint_range 64 x -> s64 (s64 (x + o) + s64 (- o)) = x).
  { intros x o Hx. rewrite <- (swrap_id 64 x) at 2 by (lia || assumption). apply swrap_congr.
    rewrite Zplus_mod, !swrap_mod, <- Zplus_mod. f_equal. lia. }
  destruct k; cbn; now rewrite !Hx.
Qed.

(** ** Records keep their types *)

Definition timers_typed (d : sam_dquot) : Prop :=
  sint_range 32 (dq_ol_enforce d) /\ sint_range 32 (dq_tot_enforce d).

Definition limits_typed (d : sam_dquot) : Prop :=
  sint_range 64 (dq_folsoft d) /\ sint_range 64 (dq_folhard d) /\
  sint_range 64 (dq_bolsoft d) /\ sint_range 64 (dq_bolhard d) /\
  sint_range 64 (dq_ftotsoft d) /\ sint_range 64 (dq_ftothard d) /\
  sint_range 64 (dq_btotsoft d) /\ sint_range 64 (dq_btothard d) /\
  sint_range 32 (dq_ol_grace d) /\ sint_range 32 (dq_tot_grace d) /\
  sint_range 64 (unused2 d) /\ sint_range 64 (unused3 d).

Lemma dquot_typed_split d :
  dquot_typed d <-> limits_typed d /\ usage_range (usage d) /\ timers_typed d.
Proof.
  unfold dquot_typed, dquot_fields, limits_typed, usage_range, usage, timers_typed.
  rewrite !Forall_cons. cbn [fst snd].
  change (8 * Z.of_nat 8) with 64. change (8 * Z.of_nat 4) with 32.
  split.
  - intros Hd. decompose [and] Hd. tauto.
  - intros Hd. decompose [and] Hd. clear Hd.
    repeat match goal with |- _ /\ _ => split end; (assumption || apply Forall_nil || lia); exact Logic.I.
Qed.

Lemma limits_typed_eq d d' : limits d' = limits d -> limits_typed d -> limits_typed d'.
Proof. unfold limits, limits_typed. intros [= -> -> -> -> -> -> -> -> -> -> -> ->]. auto. Qed.

Lemma usage_range_use k ol tot u : usage_range u -> usage_range (use k ol tot u).
Proof.
  destruct u as [[[fol ftot] bol] btot]. intros (H1 & H2 & H3 & H4).
  destruct k; cbn; repeat match goal with |- _ /\ _ => split end;
    first [assumption | apply swrap_range; lia].
Qed.

Lemma zero_range32 : sint_range 32 0.
Proof. unfold sint_range. lia. Qed.

Lemma change_bit_timers k after bit q :
  timers_typed (qt_dent q) -> timers_typed (qt_dent (fst (change_bit k after bit q))).
Proof.
  intros [H1 H2]. pose proof zero_range32. unfold change_bit.
  destruct (bit =? _); [|destruct (bit =? _); [|destruct (bit =? _); [|destruct (bit =? _)]]];
    repeat (destruct (has_any _ _)); split; cbn; assumption.
Qed.

Lemma settle_timers k now before after q :
  timers_typed (qt_dent q) -> timers_typed (qt_dent (fst (settle k now before after q))).
Proof.
  intros Ht. unfold settle.
  assert (H3 : timers_typed (qt_dent (fst (fst (change_loop change_fuel (change_bit k after)
    (Z.lxor before after) q))))).
  { refine (proj1 (change_loop_ind (fun q => timers_typed (qt_dent q)) (fun _ => True) _ _ _ _ _ _));
      [|exact Ht]. intros bit q1 H1. split; [now apply change_bit_timers|].
    apply Forall_forall. auto. }
  destruct (change_loop _ _ _ _) as [[q3 m3] r]. cbn [fst] in H3. destruct H3 as [T1 T2].
  unfold restart_ol. destruct (_ && _); unfold restart_tot; destruct (_ && _); split; cbn;
    first [assumption | apply swrap_range; lia].
Qed.

Lemma stop_timers_typed before d : timers_typed d -> timers_typed (stop_timers before d).
Proof.
  intros [H1 H2]. pose proof zero_range32. unfold stop_timers.
  repeat destruct (has_any _ _); split; cbn; assumption.
Qed.

Lemma charge_timers k ol tot d : timers_typed d -> timers_typed (charge k ol tot d).
Proof. destruct k; exact id. Qed.

Lemma quota_charge_typed k se now sum q ol tot cred err q' msgs :
  quota_charge k se now sum q ol tot cred = (err, q', msgs) ->
  dquot_typed (qt_dent q) -> dquot_typed (qt_dent q').
Proof.
  intros Eq Hd. pose proof (quota_charge_cases _ _ _ _ _ _ _ _ _ _ _ Eq) as (F & _ & Hcase).
  apply dquot_typed_split in Hd as (HL & HU & HT). apply dquot_typed_split.
  split; [eapply limits_typed_eq; [apply (fr_limits _ _ F)|exact HL]|]. split.
  - destruct Hcase as [(_ & _ & (_ & Hc) & _)|(_ & Hc & _)].
    + assert (Hok : dquot_ok (qt_dent q)) by (unfold dquot_ok; exact HU).
      apply counts_usage_limits in Hc as [-> _]; assumption.
    + apply counts_usage_limits in Hc as [-> _]. rewrite usage_charge. now apply usage_range_use.
  - destruct (Z.eq_dec err 0) as [->|Hne].
    + apply quota_charge_granted_settle in Eq as (q2 & Hq2 & Es).
      replace q' with (fst (settle k now (testquota (qt_dent q) se)
        (testquota (charge k ol tot (qt_dent q)) se) (or_flags SAM_QF_DIRTY q2))) by now rewrite Es.
      apply settle_timers. subst q2. cbn. apply charge_timers. unfold stopped.
      destruct (checked _ _ _); [now apply stop_timers_typed|exact HT].
    + unfold quota_charge in Eq. destruct (_ && refused_before _ _ _ _ _ _).
      { injection Eq as <- <- <-. exact HT. }
      set (q1 := if _ && _ then _ else q) in Eq.
      assert (H1 : timers_typed (qt_dent q1))
        by (unfold q1; destruct (_ && _); [now apply stop_timers_typed|exact HT]).
      destruct (_ && has_any _ _).
      * injection Eq as <- <- <-. cbn. now do 2 apply charge_timers.
      * destruct (change_loop _ _ _ _) as [[q3 m3] r]. destruct (restart_ol _ _ _ _).
        destruct (restart_tot _ _ _ _). injection Eq as <- _ _. congruence.
Qed.

(** Without a caller to limit, a charge is never refused. *)
Lemma quota_charge_no_cred k se now sum q ol tot err q' msgs :
  quota_charge k se now sum q ol tot None = (err, q', msgs) -> err = 0.
Proof.
  intros Eq. apply quota_charge_cases in Eq as (_ & _ & [(_ & Hc & _)|(-> & _)]); [|reflexivity].
  unfold checked, limited_user in Hc. now rewrite !andb_false_r in Hc.
Qed.

(** What a charge does to a record, in the terms of the cache. *)
Record charge_effect (k : counted) (ol tot err : Z) (q q' : sam_quot) : Prop := mk_effect {
  ce_frame : quot_frame q q';
  ce_typed : dquot_typed (qt_dent q) -> dquot_typed (qt_dent q');
  ce_err : err = 0 \/ err = EDQUOT;
  ce_usage : dquot_typed (qt_dent q) ->
    usage (qt_dent q') = if err =? 0 then use k ol tot (usage (qt_dent q)) else usage (qt_dent q);
  ce_dirty : err = 0 -> dirty q' = true;
  ce_clean : err <> 0 -> dirty q' = dirty q
}.

Lemma quota_charge_effect k se now sum q ol tot cred err q' msgs :
  quota_charge k se now sum q ol tot cred = (err, q', msgs) -> charge_effect k ol tot err q q'.
Proof.
  intros Eq. pose proof (quota_charge_cases _ _ _ _ _ _ _ _ _ _ _ Eq) as (F & _ & Hcase).
  constructor; [exact F|now apply (quota_charge_typed _ _ _ _ _ _ _ _ _ _ _ Eq)| | | |].
  - destruct Hcase as [(-> & _)|(-> & _)]; auto.
  - intros Hty. apply dquot_typed_split in Hty as (_ & HU & _).
    destruct Hcase as [(-> & _ & (_ & Hc) & _)|(-> & Hc & _)]; cbn [Z.eqb].
    + change (EDQUOT =? 0) with false. apply counts_usage_limits in Hc as [-> _]; [reflexivity|exact HU].
    + apply counts_usage_limits in Hc as [-> _]. apply usage_charge.
  - intros ->. destruct Hcase as [(? & _)|(_ & _ & Hd & _)]; [discriminate|exact Hd].
  - intros Hne. unfold quota_charge in Eq. destruct (_ && refused_before _ _ _ _ _ _).
    { injection Eq as <- <- <-. reflexivity. }
    set (q1 := if _ && _ then _ else q) in Eq.
    assert (H1 : dirty q1 = dirty q) by (unfold q1; destruct (_ && _); reflexivity).
    destruct (_ && has_any _ _); [injection Eq as <- <- <-; exact H1|].
    destruct (change_loop _ _ _ _) as [[q3 m3] r]. destruct (restart_ol _ _ _ _).
    destruct (restart_tot _ _ _ _). injection Eq as <- _ _. congruence.
Qed.

Section Charge.
Context {E : Type} `{QuotaEnv E} `{!QuotaEnvLaws E}.
Implicit Types (s : kstate E) (a an : addr) (q : sam_quot) (ents : gmap addr sam_quot)
  (L : list addr) (C : chain_table) (held : gset addr).

(** ** What an operation leaves alone *)

Record frames held s s' : Prop := mk_frames {
  fm_config : fi_config (mp s') = fi_config (mp s);
  fm_client : fs_client (mp s') = fs_client (mp s);
  fm_files : m_quota_ip (mp s') = m_quota_ip (mp s);
  fm_now : now s' = now s;
  fm_console : console s' = console s;
  fm_nodes : nodes_like s s';
  fm_held : forall a, a ∈ held -> core <$> heap s' !! a = core <$> heap s !! a
}.

Lemma keeps_frames held s s' : keeps held s s' -> frames held s s'.
Proof. intros []. now constructor. Qed.

#[export] Instance frames_preorder held : PreOrder (frames held).
Proof.
  split.
  - intros s. apply keeps_frames. reflexivity.
  - intros s1 s2 s3 [A1 A2 A3 A4 A5 A6 A7] [B1 B2 B3 B4 B5 B6 B7].
    constructor; try congruence.
    + eapply nodes_like_trans; eauto.
    + intros a Ha. rewrite B7, A7; auto.
Qed.

Lemma frames_weaken held held' s s' : held' ⊆ held -> frames held s s' -> frames held' s s'.
Proof. intros Hs []. constructor; auto. Qed.

(** The usage of every valid key, as a function of the usage before. *)
Definition usage_step s s' (f : Z -> Z -> Z * Z * Z * Z -> Z * Z * Z * Z) : Prop :=
  forall t i, 0 <= t < SAM_QUOTA_DEFD -> 0 <= i -> usage_of s' t i = f t i (usage_of s t i).

Definition at_key (t i : Z) (g : Z * Z * Z * Z -> Z * Z * Z * Z) (t' i' : Z) u :=
  if (t' =? t) && (i' =? i) then g u else u.

Lemma keeps_step held s s' : keeps held s s' -> usage_step s s' (fun _ _ u => u).
Proof. intros K t i Ht Hi. now apply (kp_usage _ _ _ K). Qed.

(** ** Writing a charged record back to its structure *)

(** The same structure, up to its record. *)
Definition placed q q' : Prop := quot_frame q (set_dent (qt_dent q) q').

Lemma frame_placed q q' : quot_frame q q' -> placed q q'.
Proof. intros []. now constructor. Qed.

Lemma struct_flag q q' m :
  placed q q' -> Z.land struct_flags m = m -> has_any (qt_flags q') m = has_any (qt_flags q) m.
Proof.
  intros F Hm. pose proof (fr_flags _ _ F) as Ef. cbn in Ef.
  unfold has_any. rewrite <- Hm, !Z.land_assoc, Ef. reflexivity.
Qed.

Lemma ent_ok_charged s s' held L C a q q' :
  ent_ok s held L C a q -> a ∈ held -> a ∉ L -> placed q q' -> dquot_typed (qt_dent q') ->
  (dirty q' = true \/ usage (qt_dent q') = usage (qt_dent q) /\ dirty q' = dirty q) ->
  m_quota_ip (mp s') = m_quota_ip (mp s) -> nodes s' = nodes s -> env s' = env s ->
  ent_ok s' held L C a q'.
Proof.
  intros O Hah HaL F Hty Hd Hm Hn He.
  assert (Fl : forall m, Z.land struct_flags m = m -> has_any (qt_flags q') m = has_any (qt_flags q) m)
    by (intros; now apply struct_flag).
  pose proof (fr_vp _ _ F) as Gv. pose proof (fr_ref _ _ F) as Gr. pose proof (fr_type _ _ F) as Gt.
  pose proof (fr_index _ _ F) as Gi. pose proof (fr_lock _ _ F) as Gl.
  cbn in Gv, Gr, Gt, Gi, Gl.
  assert (Fh : hashed q' = hashed q) by now apply Fl.
  pose proof (eo_disk _ _ _ _ _ _ O) as Hdisk. destruct O.
  constructor; unfold busy, on_avail in *;
    rewrite ?Gv, ?Gr, ?Gt, ?Gi, ?Gl, ?Hn, ?He, ?(quota_ip_eq _ _ _ Hm), ?Fh, ?Fl by reflexivity;
    try assumption; try contradiction.
  intros Hh Hd'. destruct Hd as [Hd|[-> Ed]]; [congruence|]. apply Hdisk; [exact Hh|congruence].
Qed.

(** A locked record changes in place. *)
Lemma held_update held s s' an ents L C a q q' :
  cache_inv ({[a]} ∪ held) s an ents L C -> unlocked s -> a ∉ held ->
  ents !! a = Some q -> hashed q = true ->
  links s' an (<[a := q']> ents) L C -> rest s' = rest s -> brk s' = brk s ->
  placed q q' -> dquot_typed (qt_dent q') ->
  (dirty q' = true \/ usage (qt_dent q') = usage (qt_dent q) /\ dirty q' = dirty q) ->
  cache_inv ({[a]} ∪ held) s' an (<[a := q']> ents) L C /\ unlocked s' /\ frames held s s' /\
  usage_step s s' (at_key (qt_type q) (qt_index q) (fun _ => usage (qt_dent q'))).
Proof.
  intros I Hul Hna Hq Hh Hl Hr Hb F Hty Hd.
  destruct (held_facts _ _ _ _ _ _ a _ I ltac:(set_solver) Hq) as (Oa & Haan & _ & _ & HaL & _).
  destruct (rest_proj _ _ Hr) as (Hm & He & Hn & Hw & Hf & Hcl & Hhl & Hal & Hco & Hte & _).
  assert (Fh : hashed q' = hashed q) by (apply (struct_flag _ _ _ F); reflexivity).
  pose proof (fr_type _ _ F) as Ft. pose proof (fr_index _ _ F) as Fi. cbn in Ft, Fi.
  assert (I' : cache_inv ({[a]} ∪ held) s' an (<[a := q']> ents) L C).
  { eapply (inv_update ({[a]} ∪ held)); [exact I|exact Hq|exact Haan|exact Hl|exact Hm|exact Hn|exact Hcl|
      exact Hb|exact Fh|exact Ft|exact Fi|intros; now rewrite He|reflexivity|reflexivity|].
    eapply ent_ok_charged; [exact Oa|set_solver|exact HaL|exact F|exact Hty|exact Hd|assumption..]. }
  split; [exact I'|]. split; [split; [rewrite Hhl|rewrite Hal]; apply Hul|]. split.
  { constructor; try assumption; [now apply nodes_like_eq|].
    intros b Hb'. eapply core_heap_other; [apply I|apply I'|set_solver]. }
  intros t i Ht Hi. unfold at_key.
  destruct (Z.eqb_spec t (qt_type q)) as [->|Hnt]; [destruct (Z.eqb_spec i (qt_index q)) as [->|Hni]|];
    cbn [andb].
  - rewrite <- Ft, <- Fi.
    apply (usage_of_cached _ _ _ _ _ _ a q' I'); [apply lookup_insert_eq|].
    rewrite Fh. exact Hh.
  - eapply (usage_update ({[a]} ∪ held)); [exact I|exact I'|exact Hq|exact Fh|exact Ft|exact Fi|
      intros _; now apply disk_usage_rest|].
    intros (_ & _ & Ei)%is_entry_spec. congruence.
  - eapply (usage_update ({[a]} ∪ held)); [exact I|exact I'|exact Hq|exact Fh|exact Ft|exact Fi|
      intros _; now apply disk_usage_rest|].
    intros (_ & Et & _)%is_entry_spec. congruence.
Qed.

Lemma store_spec held s a q0 q' :
  cache_ok ({[a]} ∪ held) s -> a ∉ held -> heap s !! a = Some q0 -> hashed q0 = true ->
  quot_frame q0 q' -> dquot_typed (qt_dent q') ->
  (dirty q' = true \/ usage (qt_dent q') = usage (qt_dent q0) /\ dirty q' = dirty q0) ->
  wp (mod_q a (store_charge q')) (fun _ s' =>
    cache_ok ({[a]} ∪ held) s' /\ frames held s s' /\ rec_at s' a = Some (core q') /\
    usage_step s s' (at_key (qt_type q0) (qt_index q0) (fun _ => usage (qt_dent q')))) s.
Proof.
  intros (Hul & an & ents & L & C & I) Hna Hq0 Hh F Hty Hd.
  pose proof (links_ents _ _ _ _ _ _ _ (ci_links _ _ _ _ _ _ I) Hq0) as Hq.
  assert (Ecore : core (store_charge q' q0) = core q').
  { destruct F, q0, q'. cbn in *. unfold core, store_charge. cbn. congruence. }
  eapply wp_mod_core; [unfold store_charge; auto with qlinks|apply I|exact Hq|].
  intros s' Hl Hr Hb. rewrite (alter_as_insert _ _ _ _ Hq) in Hl.
  change (store_charge q' (core q0)) with (core (store_charge q' q0)) in Hl. rewrite Ecore in Hl.
  assert (Fc : quot_frame (core q0) (core q')) by (destruct F; constructor; auto).
  destruct (held_update held s s' an ents L C a (core q0) (core q') I Hul Hna Hq Hh Hl Hr Hb (frame_placed _ _ Fc) Hty Hd)
    as (I' & Hul' & Hfr & Hst).
  split; [split; [exact Hul'|eauto]|]. split; [exact Hfr|].
  split; [now rewrite (inv_rec_at _ _ _ _ _ _ _ I'), lookup_insert_eq|exact Hst].
Qed.

(** ** One charge *)

Lemma cache_ok_say held s m : cache_ok held s -> cache_ok held (say m s).
Proof.
  intros (Hul & an & ents & L & C & [Hl Ha He Hu Hf Hh Hc Hn Hfi Hcl]). split; [exact Hul|].
  exists an, ents, L, C. constructor; try assumption. intros a q Hq Hne. now destruct (He a q Hq Hne).
Qed.

Lemma frames_say held s m : frames held s (say m s).
Proof. constructor; try reflexivity. now apply nodes_like_eq. Qed.

Lemma got_heap held s t i a s' :
  got held s t i a s' -> exists q0, heap s' !! a = Some q0 /\ hashed q0 = true /\ dirty q0 = false /\
    qt_type q0 = t /\ qt_index q0 = i /\ usage (qt_dent q0) = usage_of s t i /\
    dquot_typed (qt_dent q0) /\ qt_lock q0 = true.
Proof.
  intros [Hna Hok K _ _ (q & Hrec & He & Hd & Hu)]. unfold rec_at in Hrec.
  destruct (heap s' !! a) as [q0|] eqn:Hq0; [|discriminate]. injection Hrec as <-.
  apply is_entry_spec in He as (Hh & Et & Ei). exists q0. repeat (split; [assumption || reflexivity|]).
  destruct Hok as (_ & an & ents & L & C & I).
  pose proof (links_ents _ _ _ _ _ _ _ (ci_links _ _ _ _ _ _ I) Hq0) as Hq.
  destruct (held_facts _ _ _ _ _ _ a _ I ltac:(set_solver) Hq) as (Oa & _ & Hlk & _).
  split; [apply (eo_typed _ _ _ _ _ _ Oa)|exact Hlk].
Qed.

(** The state in which one record has been charged or refused. *)
Record charged_one (k : counted) (ol tot : Z) held s (t i : Z) (err : Z) s' : Prop := mk_charged_one {
  co_ok : cache_ok held s';
  co_frames : frames held s s';
  co_err : err = 0 \/ err = EDQUOT;
  co_usage : usage_step s s' (if err =? 0 then at_key t i (use k ol tot) else fun _ _ u => u)
}.

(** After [sam_quot_get]: the charge is stored and the record released. *)
Lemma store_and_rel k ol tot held s s1 t i a q0 q' err msgs :
  got held s t i a s1 -> heap s1 !! a = Some q0 -> charge_effect k ol tot err q0 q' ->
  wp (mod_q a (store_charge q');; modify (say msgs);; sam_quot_rel a;; mret err)
    (fun r s' => r = err /\ charged_one k ol tot held s t i err s') s1.
Proof.
  intros Hgot Hq0 [F Hty Herr Hu Hd Hcl].
  destruct (got_heap _ _ _ _ _ _ Hgot) as (q1 & Hq1 & Hh & Hdf & Et & Ei & Hus & Hdt & _).
  rewrite Hq0 in Hq1. injection Hq1 as <-. destruct Hgot as [Hna Hok K _ _ _].
  apply wp_bind. eapply wp_mono.
  { eapply (store_spec held s1 a q0 q'); [exact Hok|exact Hna|exact Hq0|exact Hh|exact F|auto|].
    destruct (Z.eq_dec err 0) as [->|Hne]; [left; auto|right].
    rewrite Hu by exact Hdt. apply Z.eqb_neq in Hne as Hne'. rewrite Hne'. auto. }
  intros u s2 (Hok2 & Fr2 & Hrec2 & Hst2). apply wp_bind, wp_modify.
  apply wp_bind. eapply wp_mono.
  { eapply (rel_spec ({[a]} ∪ held) (say msgs s2) a (core q'));
      [now apply cache_ok_say|set_solver|exact Hrec2|].
    change (hashed (core q')) with (hashed q'). rewrite <- Hh. apply struct_flag; [now apply frame_placed|reflexivity]. }
  intros u' s3 (Hok3 & K3 & _). apply wp_ret. split; [reflexivity|].
  replace (({[a]} ∪ held) ∖ {[a]}) with held in * by set_solver.
  constructor; [exact Hok3| |exact Herr|].
  - transitivity s1; [apply keeps_frames; exact K|]. transitivity s2; [exact Fr2|].
    transitivity (say msgs s2); [apply frames_say|]. now apply keeps_frames.
  - intros t' i' Ht' Hi'. rewrite (kp_usage _ _ _ K3 t' i' Ht' Hi').
    change (usage_of (say msgs s2) t' i') with (usage_of s2 t' i').
    rewrite (Hst2 t' i' Ht' Hi'), (kp_usage _ _ _ K t' i' Ht' Hi'), Et, Ei. unfold at_key.
    rewrite Hu, Hus by exact Hdt.
    destruct (err =? 0); unfold at_key;
      destruct (Z.eqb_spec t' t) as [->|_]; destruct (Z.eqb_spec i' i) as [->|_]; reflexivity.
Qed.

(** ** Keys are stable *)

Lemma frames_node held s s' p n :
  frames held s s' -> nodes s !! p = Some n ->
  exists n', nodes s' !! p = Some n' /\ node_like s s' n n'.
Proof.
  intros F Hn. pose proof (fm_nodes _ _ _ F p) as Hl. rewrite Hn in Hl. inversion Hl. eauto.
Qed.

(** Nothing but the quota pointers of an inode changes. *)
Lemma node_like_fields s s' n n' :
  node_like s s' n n' ->
  seg_ino n' = seg_ino n /\ seg_file n' = seg_file n /\ segment_ip n' = segment_ip n /\
  offline n' = offline n /\ di_version n' = di_version n /\ di_ino n' = di_ino n /\
  (forall t, index_di n' t = index_di n t).
Proof.
  intros [Hs _]. destruct n, n'. unfold set_bquota in Hs. cbn in Hs.
  injection Hs as -> -> -> -> -> -> -> -> -> -> -> -> -> -> -> -> ->. repeat split.
Qed.

Lemma frames_base held s s' p : frames held s s' -> base_of s' p = base_of s p.
Proof.
  intros F. unfold base_of. pose proof (fm_nodes _ _ _ F p) as Hl.
  inversion Hl as [n n' Hnl E1 E2|E1 E2]; [|reflexivity].
  destruct (node_like_fields _ _ _ _ Hnl) as (-> & _ & -> & _). reflexivity.
Qed.

Lemma caller_ok_frames held s s' ip t i : frames held s s' -> caller_ok s ip t i -> caller_ok s' ip t i.
Proof.
  intros F. destruct ip as [p|]; [|auto]. cbn. rewrite (frames_base _ _ _ _ F).
  intros ([np Hnp] & n & Hn & Hix). destruct (frames_node _ _ _ _ _ F Hnp) as (np' & ? & _).
  destruct (frames_node _ _ _ _ _ F Hn) as (n' & Hn' & Hnl).
  split; [eauto|]. exists n'. split; [exact Hn'|].
  destruct (node_like_fields _ _ _ _ Hnl) as (_ & _ & _ & _ & _ & _ & Hd). now rewrite Hd.
Qed.

Lemma charged_frames held s s' ip t i :
  frames held s s' -> 0 <= t < SAM_QUOTA_DEFD -> charged s' ip t i = charged s ip t i.
Proof.
  intros F Ht. destruct ip as [p|]; cbn.
  - rewrite (frames_base _ _ _ _ F). pose proof (fm_nodes _ _ _ F (base_of s p)) as Hl.
    inversion Hl as [n n' [_ Hr] E1 E2|E1 E2]; [|reflexivity]. now rewrite (Hr t Ht).
  - now rewrite (quota_ip_eq _ _ _ (fm_files _ _ _ F)).
Qed.

(** The index that each type's record of an in-core inode has. *)
Definition ip_index s (p : addr) (t : Z) : Z :=
  match nodes s !! base_of s p with Some n => default (-1) (index_di n t) | None => -1 end.

Lemma index_di_some n t : 0 <= t < SAM_QUOTA_DEFD -> is_Some (index_di n t).
Proof.
  unfold SAM_QUOTA_DEFD, index_di, SAM_QUOTA_ADMIN, SAM_QUOTA_GROUP, SAM_QUOTA_USER. intros Ht.
  destruct (Z.eqb_spec t 0); [eauto|]. destruct (Z.eqb_spec t 1); [eauto|].
  destruct (Z.eqb_spec t 2); [eauto|lia].
Qed.

Lemma get_index_spec s p t :
  caller_ok s (Some p) t (ip_index s p t) ->
  wp (sam_quota_get_index p t) (fun r s' => r = ip_index s p t /\ s' = s) s.
Proof.
  intros ([np Hnp] & n & Hn & Hix). unfold sam_quota_get_index.
  apply wp_bind; eapply wp_get_node; [exact Hnp|].
  unfold base_of in Hn. rewrite Hnp in Hn. apply wp_bind.
  assert (Hg : forall Q : sam_node -> kstate E -> Prop, Q n s ->
    wp (if seg_ino np then get_node (segment_ip np) else mret np) Q s).
  { intros Q HQ. destruct (seg_ino np); [eapply wp_get_node; eauto|].
    rewrite Hnp in Hn. injection Hn as <-. now apply wp_ret. }
  apply Hg. unfold sam_quota_get_index_di. rewrite Hix. now apply wp_ret.
Qed.

(** An inode and its base are in core. *)
Definition in_core s (p : addr) : Prop :=
  is_Some (nodes s !! p) /\ is_Some (nodes s !! base_of s p).

Lemma in_core_caller s p t :
  in_core s p -> 0 <= t < SAM_QUOTA_DEFD -> caller_ok s (Some p) t (ip_index s p t).
Proof.
  intros [Hp [n Hn]] Ht. split; [exact Hp|]. exists n. split; [exact Hn|]. unfold ip_index.
  rewrite Hn. destruct (index_di_some n t Ht) as [i ->]. reflexivity.
Qed.

Lemma in_core_frames held s s' p : frames held s s' -> in_core s p -> in_core s' p.
Proof.
  intros F [[np Hnp] [n Hn]]. unfold in_core. rewrite (frames_base _ _ _ _ F).
  destruct (frames_node _ _ _ _ _ F Hnp) as (np' & ? & _), (frames_node _ _ _ _ _ F Hn) as (n' & ? & _).
  split; eauto.
Qed.

Lemma ip_index_frames held s s' p t : frames held s s' -> ip_index s' p t = ip_index s p t.
Proof.
  intros F. unfold ip_index. rewrite (frames_base _ _ _ _ F).
  pose proof (fm_nodes _ _ _ F (base_of s p)) as Hl. inversion Hl as [n n' Hnl E1 E2|E1 E2]; [|reflexivity].
  destruct (node_like_fields _ _ _ _ Hnl) as (_ & _ & _ & _ & _ & _ & Hd). now rewrite Hd.
Qed.

(** ** Blocks of one record *)

(** The state after one turn: charged, refused, or no record to charge. *)
Record turn (g : Z -> Z * Z * Z * Z -> Z * Z * Z * Z) s (t : Z) (err : Z) s' : Prop := mk_turn {
  tn_ok : cache_ok ∅ s';
  tn_frames : frames ∅ s s';
  tn_err : err = 0 \/ err = EDQUOT;
  tn_usage : usage_step s s' (fun t' i' u => if (err =? 0) && (t' =? t) then g i' u else u)
}.

(** What a charge of [ol] and [tot] does to the record of index [idx] if [on]. *)
Definition charge_at (k : counted) (on : bool) (idx ol tot i : Z) u :=
  if on && (i =? idx) then use k ol tot u else u.

Lemma turn_of_charged k ol tot s t i err s' :
  charged_one k ol tot ∅ s t i err s' -> turn (charge_at k true i ol tot) s t err s'.
Proof.
  intros [Ho Hf He Hu]. constructor; auto. intros t' i' Ht' Hi'. rewrite (Hu t' i' Ht' Hi').
  unfold charge_at, at_key. destruct (err =? 0); [|reflexivity].
  now destruct (t' =? t), (i' =? i).
Qed.

Lemma turn_none k ol tot s t i s' : got_none ∅ s s' -> turn (charge_at k false i ol tot) s t 0 s'.
Proof.
  intros [Ho K _ _]. constructor; [exact Ho|now apply keeps_frames|now left|].
  intros t' i' Ht' Hi'. rewrite (kp_usage _ _ _ K t' i' Ht' Hi'). now destruct (_ && _).
Qed.

Lemma not_holding_empty s t i : not_holding ∅ s t i.
Proof. intros b q Hb. set_solver. Qed.

Lemma bcheck_spec held s s1 t i a ol tot cr :
  got held s t i a s1 -> mixed_signs ol tot = false ->
  wp (err ← bcheck a ol tot cr; sam_quot_rel a;; mret err) (fun err s' =>
    charged_one BLOCKS ol tot held s t i err s' /\ (cr = None -> err = 0)) s1.
Proof.
  intros Hgot Hmix. destruct (got_heap _ _ _ _ _ _ Hgot) as (q0 & Hq0 & _ & _ & _ & _ & _ & _ & Hlk).
  apply wp_bind. unfold bcheck.
  apply wp_bind; eapply wp_assert_held; [exact Hq0|exact Hlk|].
  apply wp_bind; eapply wp_get_q; [exact Hq0|]. apply wp_bind, wp_gets, wp_bind, wp_gets.
  unfold sam_quota_bcheck. rewrite Hmix.
  destruct (quota_charge BLOCKS (sam_enabled s1) (now s1) (s64 (tot + ol)) q0 ol tot cr)
    as [[err q'] msgs] eqn:Eq.
  apply wp_bind, wp_when; [discriminate|intros _].
  pose proof (store_and_rel BLOCKS ol tot held s s1 t i a q0 q' err msgs Hgot Hq0
    (quota_charge_effect _ _ _ _ _ _ _ _ _ _ _ Eq)) as Hrun.
  apply wp_done in Hrun as (r & s' & Erun & -> & Hco).
  assert (Hn : cr = None -> err = 0) by (intros ->; now apply quota_charge_no_cred in Eq).
  revert Erun. with_strategy transparent [wp] unfold wp, mbind, M_bind.
  destruct (mod_q a (store_charge q') s1) as [? s2|]; [|discriminate].
  destruct (modify (say msgs) s2) as [? s3|]; [|discriminate]. cbn.
  destruct (sam_quot_rel a s3) as [? s4|]; [|discriminate]. cbn. intros [= <-]. auto.
Qed.

Lemma bcharge_spec s ip (index : Z -> M (kstate E) Z) ol tot cr t i :
  cache_ok ∅ s -> 0 <= t < SAM_QUOTA_DEFD -> mixed_signs ol tot = false ->
  wp (index t) (fun r s' => r = i /\ s' = s) s -> caller_ok s ip t i ->
  wp (bcharge ip index ol tot cr t) (fun err s' =>
    turn (charge_at BLOCKS (charged s ip t i) i ol tot) s t err s' /\ (cr = None -> err = 0)) s.
Proof.
  intros Hok Ht Hmix Hidx Hc. unfold bcharge. apply wp_bind. eapply wp_mono; [exact Hidx|].
  intros r s0 [-> ->]. apply wp_bind. eapply wp_mono.
  { apply (get_spec ∅); [exact Hok|exact Ht|exact Hc|apply not_holding_empty]. }
  unfold get_post. intros r s1. destruct (charged s ip t i).
  - intros (a & -> & Hgot). eapply wp_mono; [eapply bcheck_spec; eauto|].
    intros err s' [Hco Hn]. split; [now apply turn_of_charged|exact Hn].
  - intros [-> Hg]. apply wp_ret. split; [now apply turn_none|auto].
Qed.
End Charge.
