(* ===== verification/QuotaThms.v ===== *)
(** * Quota operations: theorems

    The operations of src/src/fs/samfs/quota.c and cquota.c against the contract of
    the cache: they complete, keep the invariant, and change the usage of exactly
    the records they should. *)

From S2P Require Import Prelude DList QuotaRec QuotaBytes Monad QuotaCache QuotaLinks QuotaPrims QuotaInv QuotaGet QuotaRel QuotaOps QuotaCharge.

Section Thms.
Context {E : Type} `{QuotaEnv E} `{!QuotaEnvLaws E}.
Implicit Types (s : kstate E) (a : addr) (held : gset addr).

(** ** Files of one record *)

Lemma fcheck_spec s t i ol tot cr :
  cache_ok ∅ s -> 0 <= t < SAM_QUOTA_DEFD -> 0 <= i -> mixed_signs ol tot = false ->
  wp (sam_quota_fcheck t i ol tot cr) (fun err s' =>
    turn (charge_at FILES (negb (bool_decide (quota_ip s t = None))) i ol tot) s t err s' /\
    (cr = None -> err = 0)) s.
Proof.
  intros Hok Ht Hi Hmix. unfold sam_quota_fcheck. apply wp_bind, wp_gets.
  destruct (bool_decide (quota_ip s t = None)) eqn:Eq; cbn [negb].
  { apply wp_ret. split; [|auto]. apply turn_none, got_none_refl, Hok. }
  rewrite (proj2 (Z.ltb_ge i 0) Hi), Hmix. apply wp_bind. eapply wp_mono.
  { apply (get_spec ∅ s None t i Hok Ht Logic.I). apply not_holding_empty. }
  unfold get_post. intros r s1. cbn [charged]. rewrite Eq, (proj2 (Z.leb_le 0 i) Hi). cbn [andb negb].
  intros (a & -> & Hgot). destruct (got_heap _ _ _ _ _ _ Hgot) as (q0 & Hq0 & _).
  apply wp_bind; eapply wp_get_q; [exact Hq0|]. apply wp_bind, wp_gets, wp_bind, wp_gets.
  unfold fcheck_record.
  destruct (quota_charge FILES (sam_enabled s1) (now s1) (s32 (tot + ol)) q0 ol tot cr)
    as [[err q'] msgs] eqn:Eqc.
  eapply wp_mono.
  { eapply store_and_rel; [exact Hgot|exact Hq0|]. eapply quota_charge_effect. exact Eqc. }
  intros r s' [-> Hco]. split; [now apply turn_of_charged|].
  intros ->. now apply quota_charge_no_cred in Eqc.
Qed.

(** ** Loops over the types *)

(** The effect of the turns for the types of [ts]. *)
Definition bulk (g : Z -> Z -> Z * Z * Z * Z -> Z * Z * Z * Z) (ts : list Z) (t i : Z) u :=
  if bool_decide (t ∈ ts) then g t i u else u.

Definition valid_kinds (ts : list Z) : Prop := NoDup ts /\ Forall (fun t => 0 <= t < SAM_QUOTA_DEFD) ts.

Lemma quota_kinds_valid : valid_kinds quota_kinds.
Proof.
  split; [apply (bool_decide_eq_true_1 (NoDup quota_kinds)); reflexivity|].
  repeat constructor; vm_compute; congruence.
Qed.

Section Loops.
Context (s0 : kstate E) (g : Z -> Z -> Z * Z * Z * Z -> Z * Z * Z * Z).

(** A step does one turn from any state that the loop can reach. *)
Definition steps_ok (step : Z -> M (kstate E) Z) (P : Z -> Prop) : Prop :=
  forall t s, 0 <= t < SAM_QUOTA_DEFD -> cache_ok ∅ s -> frames ∅ s0 s ->
    wp (step t) (fun err s' => turn (g t) s t err s' /\ P err) s.

Lemma bulk_cons ts t t' i u :
  t ∉ ts -> bulk g (t :: ts) t' i u = bulk g ts t' i (if t' =? t then g t i u else u).
Proof.
  intros Hn. unfold bulk. destruct (Z.eqb_spec t' t) as [->|Hne].
  - rewrite bool_decide_eq_true_2 by set_solver. now rewrite bool_decide_eq_false_2.
  - rewrite (bool_decide_ext (t' ∈ t :: ts) (t' ∈ ts)) by set_solver. reflexivity.
Qed.

Lemma until_err_run step ts s :
  steps_ok step (fun _ => True) -> valid_kinds ts -> cache_ok ∅ s -> frames ∅ s0 s ->
  wp (until_err ts step) (fun r s' =>
    cache_ok ∅ s' /\ frames ∅ s s' /\ usage_step s s' (bulk g (fst r)) /\
    (snd r = 0 /\ fst r = ts \/ snd r = EDQUOT /\ exists t rest, ts = fst r ++ t :: rest)) s.
Proof.
  intros Hstep. revert s. induction ts as [|t ts IH]; intros s [Hnd Hv] Hok Hf; cbn [until_err].
  - apply wp_ret. cbn. split; [exact Hok|]. split; [reflexivity|]. split; [|auto].
    intros t i _ _. reflexivity.
  - apply NoDup_cons in Hnd as [Hnt Hnd]. apply Forall_cons in Hv as [Ht Hv].
    apply wp_bind. eapply wp_mono; [apply (Hstep t s Ht Hok Hf)|].
    intros err s1 [[Ho1 F1 He1 U1] _]. destruct (Z.eqb_spec err 0) as [->|Hne]; cbn [negb].
    + apply wp_bind. eapply wp_mono; [apply (IH s1 (conj Hnd Hv) Ho1); etransitivity; eauto|].
      intros [done e] s2 (Ho2 & F2 & U2 & Hr). apply wp_ret. cbn [fst snd] in *.
      split; [exact Ho2|]. split; [etransitivity; eauto|]. split.
      * intros t' i Ht' Hi. rewrite (U2 t' i Ht' Hi), (U1 t' i Ht' Hi). cbn [Z.eqb andb].
        rewrite bulk_cons; [|intros Hin; apply Hnt; destruct Hr as [[_ ->]|(_ & t0 & rest & ->)]; set_solver].
        destruct (Z.eqb_spec t' t) as [->|_]; reflexivity.
      * destruct Hr as [[-> ->]|(-> & t0 & rest & ->)]; [auto|right]. split; [reflexivity|].
        exists t0, rest. reflexivity.
    + apply wp_ret. cbn [fst snd]. split; [exact Ho1|]. split; [exact F1|]. split.
      * intros t' i Ht' Hi. rewrite (U1 t' i Ht' Hi). destruct (Z.eqb_spec err 0); [contradiction|reflexivity].
      * destruct He1 as [-> | ->]; [contradiction|]. right. split; [reflexivity|]. exists t, ts. reflexivity.
Qed.

Lemma give_back_run (step : Z -> M (kstate E) Z) ts s (warn : Z -> cmsg) :
  steps_ok step (fun err => err = 0) -> valid_kinds ts -> cache_ok ∅ s -> frames ∅ s0 s ->
  wp (for_each ts (fun t => err ← step t; when (negb (err =? 0)) (cmn_err (warn t))))
    (fun _ s' => cache_ok ∅ s' /\ frames ∅ s s' /\ usage_step s s' (bulk g ts)) s.
Proof.
  intros Hstep. revert s. induction ts as [|t ts IH]; intros s [Hnd Hv] Hok Hf; cbn [for_each].
  - apply wp_ret. split; [exact Hok|]. split; [reflexivity|]. intros t i _ _. reflexivity.
  - apply NoDup_cons in Hnd as [Hnt Hnd]. apply Forall_cons in Hv as [Ht Hv].
    apply wp_bind, wp_bind. eapply wp_mono; [apply (Hstep t s Ht Hok Hf)|].
    intros err s1 [[Ho1 F1 _ U1] ->]. apply wp_when; [discriminate|intros _].
    eapply wp_mono; [apply (IH s1 (conj Hnd Hv) Ho1); etransitivity; eauto|].
    intros u s2 (Ho2 & F2 & U2). split; [exact Ho2|]. split; [etransitivity; eauto|].
    intros t' i Ht' Hi. rewrite (U2 t' i Ht' Hi), (U1 t' i Ht' Hi). cbn [Z.eqb andb].
    rewrite bulk_cons by exact Hnt. destruct (Z.eqb_spec t' t) as [->|_]; reflexivity.
Qed.
End Loops.

(** ** The range of usage *)

Lemma usage_of_range held s t i : cache_ok held s -> usage_range (usage_of s t i).
Proof.
  intros (_ & an & ents & L & C & I). unfold usage_of.
  rewrite <- (rp_core _ _ _ _ _ _ (proj1 (ci_links _ _ _ _ _ _ I))).
  assert (Hz : usage_range zero_usage) by (vm_compute; intuition congruence).
  destruct (cached ents t i) as [q|] eqn:Ec.
  - apply cached_Some in Ec as (a & Ha & He); [|apply I]. apply is_entry_spec in He as (Hh & _).
    pose proof (hashed_not_anchor _ _ _ _ _ _ _ _ I Ha Hh) as Haan.
    pose proof (eo_typed _ _ _ _ _ _ (ci_ent _ _ _ _ _ _ I a q Ha Haan)) as Hty.
    now apply dquot_typed_split in Hty as (_ & HU & _).
  - unfold disk_usage, disk_use. destruct (quota_ip s t) as [ip|]; [|exact Hz].
    destruct (qf_rec (env s) ip i) as [d|] eqn:Er; [|exact Hz].
    apply qf_rec_typed in Er. now apply dquot_typed_split in Er as (_ & HU & _).
Qed.

(** Counts that can be negated. *)
Definition count_range (x : Z) : Prop := - 2 ^ 63 < x < 2 ^ 63.

Lemma count_neg x : count_range x -> s64 (- x) = - x.
Proof. unfold count_range. intros Hx. apply swrap_id; [lia|]. unfold sint_range. lia. Qed.

Lemma mixed_signs_neg ol tot :
  count_range ol -> count_range tot -> mixed_signs ol tot = false ->
  mixed_signs (s64 (- ol)) (s64 (- tot)) = false.
Proof.
  intros Ho Ht. rewrite !count_neg by assumption. unfold mixed_signs. intros Hm.
  apply orb_false_iff in Hm as [H1 H2]. apply orb_false_iff.
  apply andb_false_iff in H1, H2. rewrite !andb_false_iff, !Z.ltb_ge in *. lia.
Qed.

Lemma charge_at_back k on idx ol tot i u :
  usage_range u -> count_range ol -> count_range tot ->
  charge_at k on idx (s64 (- ol)) (s64 (- tot)) i (charge_at k on idx ol tot i u) = u.
Proof.
  intros Hu Ho Ht. unfold charge_at. destruct (on && (i =? idx)); [|reflexivity].
  unfold count_range in *. apply use_back; [exact Hu|unfold sint_range; lia..].
Qed.

(** ** Charging blocks to all the records of a file *)

Lemma bulk_kinds g t i u : 0 <= t < SAM_QUOTA_DEFD -> bulk g quota_kinds t i u = g t i u.
Proof.
  unfold SAM_QUOTA_DEFD. intros Ht. unfold bulk. rewrite bool_decide_eq_true_2; [reflexivity|].
  unfold quota_kinds, SAM_QUOTA_ADMIN, SAM_QUOTA_GROUP, SAM_QUOTA_USER.
  assert (t = 0 \/ t = 1 \/ t = 2) as [-> |[-> | ->]] by lia; set_solver.
Qed.

Lemma valid_kinds_prefix ts t rest : valid_kinds (ts ++ t :: rest) -> valid_kinds (rev ts).
Proof.
  intros [Hnd Hv]. apply NoDup_app in Hnd as (Hnd & _). apply Forall_app in Hv as [Hv _].
  split; [now apply NoDup_ListNoDup, List.NoDup_rev, NoDup_ListNoDup|].
  apply Forall_forall. intros x Hx. rewrite Forall_forall in Hv. apply Hv.
  rewrite list_elem_of_In in *. now apply in_rev in Hx.
Qed.

Lemma bulk_rev g ts t i u : bulk g (rev ts) t i u = bulk g ts t i u.
Proof.
  unfold bulk. rewrite (bool_decide_ext (t ∈ rev ts) (t ∈ ts)); [reflexivity|].
  rewrite !list_elem_of_In. symmetry. apply in_rev.
Qed.

(** Charging some types and giving the same back changes nothing. *)
Lemma bulk_back k s s1 s2 ts on idx ol tot held :
  cache_ok held s -> count_range ol -> count_range tot ->
  usage_step s s1 (bulk (fun t => charge_at k (on t) (idx t) ol tot) ts) ->
  usage_step s1 s2 (bulk (fun t => charge_at k (on t) (idx t) (s64 (- ol)) (s64 (- tot))) (rev ts)) ->
  usage_step s s2 (fun _ _ u => u).
Proof.
  intros Hok Ho Ht U1 U2 t i Ht' Hi. rewrite (U2 t i Ht' Hi), (U1 t i Ht' Hi), bulk_rev. unfold bulk.
  destruct (bool_decide _); [|reflexivity]. apply charge_at_back; [|assumption..].
  eapply usage_of_range. exact Hok.
Qed.

Section BlocksAll.
Context (s0 : kstate E) (ip : option addr) (index : Z -> M (kstate E) Z) (idx : Z -> Z).
Hypothesis Hsrc : forall s t, frames ∅ s0 s -> 0 <= t < SAM_QUOTA_DEFD ->
  wp (index t) (fun r s' => r = idx t /\ s' = s) s /\ caller_ok s ip t (idx t).

Definition block_effect (ol tot t : Z) :=
  charge_at BLOCKS (charged s0 ip t (idx t)) (idx t) ol tot.

Lemma bcharge_steps ol tot cr :
  mixed_signs ol tot = false ->
  steps_ok s0 (block_effect ol tot) (bcharge ip index ol tot cr) (fun err => cr = None -> err = 0).
Proof.
  intros Hm t s Ht Hok Hf. destruct (Hsrc s t Hf Ht) as [Hi Hc].
  unfold block_effect. rewrite <- (charged_frames ∅ s0 s ip t (idx t) Hf Ht).
  now apply bcharge_spec.
Qed.

Lemma steps_ok_weaken (P P' : Z -> Prop) g step :
  (forall e, P e -> P' e) -> steps_ok s0 g step P -> steps_ok s0 g step P'.
Proof.
  intros HP Hs t s Ht Hok Hf. eapply wp_mono; [exact (Hs t s Ht Hok Hf)|].
  intros e s' [Ht' HPe]. auto.
Qed.

Lemma charge_blocks_all_spec nblks nblks2 cr :
  cache_ok ∅ s0 -> count_range nblks -> count_range nblks2 -> mixed_signs nblks nblks2 = false ->
  wp (charge_blocks_all ip index nblks nblks2 cr) (fun err s' =>
    cache_ok ∅ s' /\ frames ∅ s0 s' /\
    (err = 0 /\ usage_step s0 s' (block_effect nblks nblks2) \/
     err = EDQUOT /\ usage_step s0 s' (fun _ _ u => u))) s0.
Proof.
  intros Hok Hn Hn2 Hmix. unfold charge_blocks_all. apply wp_bind. eapply wp_mono.
  { apply (until_err_run s0 (block_effect nblks nblks2)); [|apply quota_kinds_valid|exact Hok|reflexivity].
    eapply steps_ok_weaken; [|now apply (bcharge_steps nblks nblks2 cr)]. auto. }
  intros [done err] s1 (Ho1 & F1 & U1 & Hr). cbn [fst snd] in *.
  destruct Hr as [[-> ->]|(-> & t & rest & Ek)].
  - apply wp_ret. split; [exact Ho1|]. split; [exact F1|]. left. split; [reflexivity|].
    intros t i Ht Hi. rewrite (U1 t i Ht Hi). now apply bulk_kinds.
  - change (EDQUOT =? 0) with false. cbv iota. apply wp_bind. unfold bgiveback. eapply wp_mono.
    { apply (give_back_run s0 (block_effect (s64 (- nblks)) (s64 (- nblks2)))
        (bcharge ip index (s64 (- nblks)) (s64 (- nblks2)) None) (rev done) s1 ErrorReturning);
        [|eapply valid_kinds_prefix; rewrite <- Ek; apply quota_kinds_valid|exact Ho1|exact F1].
      eapply steps_ok_weaken; [|apply (bcharge_steps (s64 (- nblks)) (s64 (- nblks2)) None)].
      - cbn. auto.
      - now apply mixed_signs_neg. }
    intros u s2 (Ho2 & F2 & U2). apply wp_ret. split; [exact Ho2|]. split; [etransitivity; eauto|].
    right. split; [reflexivity|]. unfold block_effect in U1, U2.
    now apply (bulk_back BLOCKS s0 s1 s2 done (fun t => charged s0 ip t (idx t)) idx nblks nblks2 ∅).
Qed.
End BlocksAll.

(** ** [sam_quota_balloc], [sam_quota_balloc_perm], [sam_quota_bret] *)

(** The record that a file in core is charged to for each type. *)
Definition charged_to s (ip : addr) (t : Z) : option Z :=
  match nodes s !! base_of s ip with Some n => record_for s n t | None => None end.

(** [nblks] online and [nblks2] total blocks charged to each of its records. *)
Definition blocks_charged s (ip : addr) (nblks nblks2 t i : Z) u :=
  if bool_decide (charged_to s ip t = Some i) then use BLOCKS nblks nblks2 u else u.

(** Files that are not charged at all. *)
Definition uncharged_inode s (n : sam_node) : bool :=
  negb (quota_on s) || SAM_PRIVILEGE_INO (di_version n) (di_ino n).

Lemma ip_source s0 ip :
  in_core s0 ip -> forall s t, frames ∅ s0 s -> 0 <= t < SAM_QUOTA_DEFD ->
  wp (sam_quota_get_index ip t) (fun r s' => r = ip_index s0 ip t /\ s' = s) s /\
  caller_ok s (Some ip) t (ip_index s0 ip t).
Proof.
  intros Hin s t Hf Ht. rewrite <- (ip_index_frames _ _ _ _ t Hf).
  pose proof (in_core_caller s ip t (in_core_frames _ _ _ _ Hf Hin) Ht) as Hc.
  split; [now apply get_index_spec|exact Hc].
Qed.

Lemma block_effect_ip s ip nblks nblks2 t i u :
  in_core s ip -> 0 <= t < SAM_QUOTA_DEFD ->
  block_effect s (Some ip) (ip_index s ip) nblks nblks2 t i u = blocks_charged s ip nblks nblks2 t i u.
Proof.
  intros [_ [n Hn]] Ht. unfold block_effect, charge_at, blocks_charged, charged, charged_to, ip_index.
  rewrite Hn. destruct (index_di_some n t Ht) as [j Hj]. unfold record_for. rewrite Hj. cbn [from_option id].
  unfold id. destruct (_ || _ || _); [now rewrite !bool_decide_eq_false_2 by discriminate|].
  rewrite bool_decide_eq_true_2 by reflexivity. cbn [andb].
  destruct (Z.eqb_spec i j) as [->|Hne].
  - now rewrite bool_decide_eq_true_2.
  - rewrite bool_decide_eq_false_2; [reflexivity|congruence].
Qed.

Lemma usage_step_ext s s' f g :
  (forall t i u, 0 <= t < SAM_QUOTA_DEFD -> 0 <= i -> f t i u = g t i u) ->
  usage_step s s' f -> usage_step s s' g.
Proof. intros Hfg U t i Ht Hi. rewrite (U t i Ht Hi). now apply Hfg. Qed.

Lemma balloc_run s ip n nblks nblks2 cr :
  cache_ok ∅ s -> in_core s ip -> nodes s !! ip = Some n ->
  count_range nblks -> count_range nblks2 -> mixed_signs nblks nblks2 = false ->
  wp (sam_quota_balloc ip nblks nblks2 cr) (fun err s' =>
    cache_ok ∅ s' /\ frames ∅ s s' /\
    (err = 0 /\ usage_step s s' (if seg_file n || uncharged_inode s n then fun _ _ u => u
                                 else blocks_charged s ip nblks nblks2) \/
     err = EDQUOT /\ usage_step s s' (fun _ _ u => u))) s.
Proof.
  intros Hok Hin Hn Hn1 Hn2 Hmix. unfold sam_quota_balloc, uncharged_inode.
  assert (Hsame : forall P : Prop, cache_ok ∅ s /\ frames ∅ s s /\
    (0 = 0 /\ usage_step s s (fun _ _ u => u) \/ P)).
  { intros P. split; [exact Hok|]. split; [reflexivity|]. left. split; [reflexivity|]. intros t i _ _. reflexivity. }
  apply wp_bind, wp_assert_not_client; [destruct Hok as (_ & ? & ? & ? & ? & I); apply I|].
  apply wp_bind; eapply wp_get_node; [exact Hn|].
  destruct (seg_file n); cbn [orb]; [apply wp_ret, Hsame|].
  apply wp_bind, wp_gets. destruct (quota_on s); cbn [negb orb]; [|apply wp_ret, Hsame].
  destruct (SAM_PRIVILEGE_INO _ _); cbn [orb]; [apply wp_ret, Hsame|].
  eapply wp_mono.
  { eapply (charge_blocks_all_spec s (Some ip) _ (ip_index s ip)); try assumption.
    intros. now apply ip_source. }
  intros err s' (Ho & F & Hr). split; [exact Ho|]. split; [exact F|].
  destruct Hr as [[-> U]|Hr]; [left|now right]. split; [reflexivity|].
  eapply usage_step_ext; [|exact U]. intros t i u Ht _. now apply block_effect_ip.
Qed.

(** C3. [sam_quota_balloc] completes without a fault and is all or nothing: either
    the blocks are charged to every record of the file (its admin set, its group,
    its user, as far as quotas apply), or EDQUOT is returned and no record has
    changed, the records charged before the refusal having been given back. Reads and writes
    of the quota files succeed. *)
Theorem sam_quota_balloc_all_or_nothing s ip n nblks nblks2 cr :
  cache_ok ∅ s -> in_core s ip -> nodes s !! ip = Some n ->
  count_range nblks -> count_range nblks2 -> mixed_signs nblks nblks2 = false ->
  wp (sam_quota_balloc ip nblks nblks2 cr) (fun err s' =>
    cache_ok ∅ s' /\ frames ∅ s s' /\
    (err = 0 /\ usage_step s s' (if seg_file n || uncharged_inode s n then fun _ _ u => u
                                 else blocks_charged s ip nblks nblks2) \/
     err = EDQUOT /\ usage_step s s' (fun _ _ u => u))) s.
Proof. exact (balloc_run s ip n nblks nblks2 cr). Qed.

(** The flavour for an inode that is not in core does the same to the records
    of the inode's own ids. *)
Theorem sam_quota_balloc_perm_all_or_nothing s n nblks nblks2 cr :
  cache_ok ∅ s -> count_range nblks -> count_range nblks2 -> mixed_signs nblks nblks2 = false ->
  wp (sam_quota_balloc_perm n nblks nblks2 cr) (fun err s' =>
    cache_ok ∅ s' /\ frames ∅ s s' /\
    (err = 0 /\ usage_step s s' (fun t i u =>
        if negb (seg_file n || uncharged_inode s n) && bool_decide (index_di n t = Some i) &&
           negb (bool_decide (quota_ip s t = None))
        then use BLOCKS nblks nblks2 u else u) \/
     err = EDQUOT /\ usage_step s s' (fun _ _ u => u))) s.
Proof.
  intros Hok Hn1 Hn2 Hmix. unfold sam_quota_balloc_perm, uncharged_inode.
  assert (Hsame : forall P : Prop, cache_ok ∅ s /\ frames ∅ s s /\
    (0 = 0 /\ usage_step s s (fun _ _ u => u) \/ P)).
  { intros P. split; [exact Hok|]. split; [reflexivity|]. left. split; [reflexivity|]. intros t i _ _. reflexivity. }
  apply wp_bind, wp_assert_not_client; [destruct Hok as (_ & ? & ? & ? & ? & I); apply I|].
  destruct (seg_file n); cbn [orb negb andb]; [apply wp_ret, Hsame|].
  apply wp_bind, wp_gets. destruct (quota_on s); cbn [negb orb andb]; [|apply wp_ret, Hsame].
  destruct (SAM_PRIVILEGE_INO _ _); cbn [orb negb andb]; [apply wp_ret, Hsame|].
  set (idx := fun t => default (-1) (index_di n t)).
  eapply wp_mono.
  { eapply (charge_blocks_all_spec s None _ idx); try assumption.
    intros s1 t _ Ht. split; [|exact Logic.I]. unfold sam_quota_get_index_di, idx.
    destruct (index_di_some n t Ht) as [i ->]. now apply wp_ret. }
  intros err s' (Ho & F & Hr). split; [exact Ho|]. split; [exact F|].
  destruct Hr as [[-> U]|Hr]; [left|now right]. split; [reflexivity|].
  eapply usage_step_ext; [|exact U]. intros t i u Ht Hi. unfold block_effect, charge_at, charged, idx.
  destruct (index_di_some n t Ht) as [j Hj]. rewrite Hj. cbn [from_option]. unfold id.
  destruct (Z.eqb_spec i j) as [->|Hne].
  - rewrite (bool_decide_eq_true_2 (Some j = Some j)) by reflexivity.
    rewrite (proj2 (Z.leb_le 0 j) Hi), andb_true_r. reflexivity.
  - rewrite andb_false_r, (bool_decide_eq_false_2 (Some j = Some i)) by congruence. reflexivity.
Qed.

Lemma bret_loop_run s0 ip nblks nblks2 b ts s :
  in_core s0 ip -> mixed_signs (s64 (- nblks)) (s64 (- nblks2)) = false -> valid_kinds ts ->
  cache_ok ∅ s -> frames ∅ s0 s ->
  wp (bret_loop ts ip nblks nblks2 b) (fun r s' => r = b /\ cache_ok ∅ s' /\ frames ∅ s s' /\
    usage_step s s' (bulk (block_effect s0 (Some ip) (ip_index s0 ip) (s64 (- nblks)) (s64 (- nblks2))) ts)) s.
Proof.
  intros Hin Hmix. revert s b. induction ts as [|t ts IH]; intros s b [Hnd Hv] Hok Hf; cbn [bret_loop].
  - apply wp_ret. split; [reflexivity|]. split; [exact Hok|]. split; [reflexivity|]. intros t i _ _. reflexivity.
  - apply NoDup_cons in Hnd as [Hnt Hnd]. apply Forall_cons in Hv as [Ht Hv].
    apply wp_bind. eapply wp_mono.
    { apply (bcharge_steps s0 (Some ip) _ (ip_index s0 ip) ltac:(intros; now apply ip_source) _ _ None Hmix t s Ht Hok Hf). }
    intros err s1 [[Ho1 F1 _ U1] He]. rewrite (He eq_refl) in *. cbn [Z.eqb negb andb] in *.
    apply wp_bind, wp_when; [discriminate|intros _]. rewrite orb_false_r.
    eapply wp_mono; [apply (IH s1 b (conj Hnd Hv) Ho1); etransitivity; eauto|].
    intros r s2 (-> & Ho2 & F2 & U2). split; [reflexivity|]. split; [exact Ho2|].
    split; [etransitivity; eauto|]. intros t' i Ht' Hi. rewrite (U2 t' i Ht' Hi), (U1 t' i Ht' Hi).
    rewrite bulk_cons by exact Hnt. destruct (Z.eqb_spec t' t) as [->|_]; reflexivity.
Qed.

Lemma bret_run s ip n nblks nblks2 :
  cache_ok ∅ s -> in_core s ip -> nodes s !! ip = Some n ->
  count_range nblks -> count_range nblks2 -> mixed_signs nblks nblks2 = false ->
  wp (sam_quota_bret ip nblks nblks2) (fun err s' => err = 0 /\ cache_ok ∅ s' /\ frames ∅ s s' /\
    usage_step s s' (if uncharged_inode s n then fun _ _ u => u
                     else blocks_charged s ip (s64 (- nblks)) (s64 (- nblks2)))) s.
Proof.
  intros Hok Hin Hn Hn1 Hn2 Hmix. unfold sam_quota_bret, uncharged_inode.
  assert (Hsame : 0 = 0 /\ cache_ok ∅ s /\ frames ∅ s s /\ usage_step s s (fun _ _ u => u)).
  { split; [reflexivity|]. split; [exact Hok|]. split; [reflexivity|]. intros t i _ _. reflexivity. }
  apply wp_bind, wp_assert_not_client; [destruct Hok as (_ & ? & ? & ? & ? & I); apply I|].
  apply wp_bind, wp_gets. destruct (quota_on s); cbn [negb orb]; [|apply wp_ret, Hsame].
  apply wp_bind; eapply wp_get_node; [exact Hn|].
  destruct (SAM_PRIVILEGE_INO _ _); cbn [orb]; [apply wp_ret, Hsame|].
  apply wp_bind. eapply wp_mono.
  { apply (bret_loop_run s ip nblks nblks2 false quota_kinds s Hin);
      [now apply mixed_signs_neg|apply quota_kinds_valid|exact Hok|reflexivity]. }
  intros r s' (-> & Ho & F & U). apply wp_ret. split; [reflexivity|]. split; [exact Ho|]. split; [exact F|].
  eapply usage_step_ext; [|exact U]. intros t i u Ht _. rewrite bulk_kinds by exact Ht.
  now apply block_effect_ip.
Qed.

Lemma charged_to_frames held s s' ip t :
  frames held s s' -> 0 <= t < SAM_QUOTA_DEFD -> charged_to s' ip t = charged_to s ip t.
Proof.
  intros F Ht. unfold charged_to. rewrite (frames_base _ _ _ _ F).
  pose proof (fm_nodes _ _ _ F (base_of s ip)) as Hl.
  inversion Hl as [n n' [_ Hr] E1 E2|E1 E2]; [|reflexivity]. now apply Hr.
Qed.

Lemma uncharged_frames held s s' n n' :
  frames held s s' -> node_like s s' n n' -> uncharged_inode s' n' = uncharged_inode s n.
Proof.
  intros F Hnl. unfold uncharged_inode, quota_on. rewrite (fm_config _ _ _ F).
  now destruct (node_like_fields _ _ _ _ Hnl) as (_ & _ & _ & _ & -> & -> & _).
Qed.

(** C5. Returning the blocks that a granted [sam_quota_balloc] charged for a file that
    is not the index of a segmented file brings every record back to its usage before,
    whatever the limits were, as long as reads and writes of the quota files succeed.
    (For the index of a segmented file it does not: [seg_index_bret_unbalanced].) *)
Theorem sam_quota_balloc_bret s ip n nblks nblks2 cr :
  cache_ok ∅ s -> in_core s ip -> nodes s !! ip = Some n -> seg_file n = false ->
  count_range nblks -> count_range nblks2 -> mixed_signs nblks nblks2 = false ->
  wp (err ← sam_quota_balloc ip nblks nblks2 cr;
      if err =? 0 then sam_quota_bret ip nblks nblks2 else mret 0)
    (fun err s' => err = 0 /\ cache_ok ∅ s' /\ usage_step s s' (fun _ _ u => u)) s.
Proof.
  intros Hok Hin Hn Hseg Hn1 Hn2 Hmix. apply wp_bind.
  eapply wp_mono; [now apply (balloc_run s ip n nblks nblks2 cr)|].
  intros err s1 (Ho1 & F1 & Hr). destruct Hr as [[-> U1]|[-> U1]].
  2:{ apply wp_ret. auto. }
  rewrite Hseg in U1. cbn [orb Z.eqb] in *.
  destruct (frames_node _ _ _ _ _ F1 Hn) as (n1 & Hn' & Hnl).
  eapply wp_mono; [apply (bret_run s1 ip n1 nblks nblks2); auto; eapply in_core_frames; eauto|].
  intros err s2 (-> & Ho2 & F2 & U2). split; [reflexivity|]. split; [exact Ho2|].
  rewrite (uncharged_frames _ _ _ _ _ F1 Hnl) in U2.
  intros t i Ht Hi. rewrite (U2 t i Ht Hi), (U1 t i Ht Hi).
  destruct (uncharged_inode s n); [reflexivity|]. unfold blocks_charged.
  rewrite (charged_to_frames _ _ _ _ _ F1 Ht). destruct (bool_decide _); [|reflexivity].
  unfold count_range in *. apply use_back; [eapply usage_of_range; exact Hok|unfold sint_range; lia..].
Qed.

(** The exemption of segment indexes is one-sided: for such an inode
    [sam_quota_balloc] charges nothing, but [sam_quota_bret] of the same blocks, as
    the block allocator calls it when the allocation fails, still takes them off
    every record of the file. *)
Theorem seg_index_bret_unbalanced s ip n nblks nblks2 cr t i :
  cache_ok ∅ s -> in_core s ip -> nodes s !! ip = Some n -> seg_file n = true ->
  uncharged_inode s n = false ->
  count_range nblks -> count_range nblks2 -> mixed_signs nblks nblks2 = false ->
  0 <= t < SAM_QUOTA_DEFD -> 0 <= i -> charged_to s ip t = Some i ->
  wp (sam_quota_balloc ip nblks nblks2 cr;; sam_quota_bret ip nblks nblks2)
    (fun err s' => err = 0 /\
       usage_of s' t i = use BLOCKS (s64 (- nblks)) (s64 (- nblks2)) (usage_of s t i)) s.
Proof.
  intros Hok Hin Hn Hseg Hun Hn1 Hn2 Hmix Ht Hi Hch. apply wp_bind.
  eapply wp_mono; [now apply (balloc_run s ip n nblks nblks2 cr)|].
  intros err s1 (Ho1 & F1 & Hr). rewrite Hseg in Hr. cbn [orb] in Hr.
  assert (U1 : usage_step s s1 (fun _ _ u => u)) by (destruct Hr as [[_ ?]|[_ ?]]; assumption).
  destruct (frames_node _ _ _ _ _ F1 Hn) as (n1 & Hn' & Hnl).
  eapply wp_mono; [apply (bret_run s1 ip n1 nblks nblks2); auto; eapply in_core_frames; eauto|].
  intros err' s2 (-> & Ho2 & F2 & U2). split; [reflexivity|].
  rewrite (uncharged_frames _ _ _ _ _ F1 Hnl), Hun in U2.
  rewrite (U2 t i Ht Hi), (U1 t i Ht Hi). unfold blocks_charged.
  rewrite (charged_to_frames _ _ _ _ _ F1 Ht), Hch. now rewrite bool_decide_eq_true_2.
Qed.

(** ** Files *)

Definition file_on s (idx : Z -> Z) (t : Z) : bool :=
  negb (bool_decide (quota_ip s t = None)) && (0 <=? idx t).

Lemma fcharge_steps s0 idx ol tot cr :
  mixed_signs ol tot = false ->
  steps_ok s0 (fun t => charge_at FILES (file_on s0 idx t) (idx t) ol tot) (fcharge idx ol tot cr)
    (fun err => cr = None -> err = 0).
Proof.
  intros Hmix t s Ht Hok Hf. unfold fcharge, file_on. apply wp_bind, wp_gets.
  rewrite <- (quota_ip_eq _ _ t (fm_files _ _ _ Hf)).
  destruct (bool_decide (quota_ip s t = None)) eqn:Eq; cbn [negb andb].
  { apply wp_ret. split; [|auto]. apply turn_none, got_none_refl, Hok. }
  destruct (Z.leb_spec 0 (idx t)) as [Hi|Hi].
  - eapply wp_mono; [now apply fcheck_spec|]. rewrite Eq. cbn. auto.
  - apply wp_ret. split; [|auto]. apply turn_none, got_none_refl, Hok.
Qed.

(** Creating a file is all or nothing in the same way: one file is charged to
    each of the three records, or EDQUOT is returned and no record has changed. *)
Theorem sam_quota_falloc_all_or_nothing s uid gid aid cr :
  cache_ok ∅ s ->
  wp (sam_quota_falloc uid gid aid cr) (fun err s' =>
    cache_ok ∅ s' /\ frames ∅ s s' /\
    (err = 0 /\ usage_step s s' (fun t i u =>
        if quota_on s && file_on s (falloc_idx uid gid aid) t && (i =? falloc_idx uid gid aid t)
        then use FILES 1 1 u else u) \/
     err = EDQUOT /\ usage_step s s' (fun _ _ u => u))) s.
Proof.
  intros Hok. set (idx := falloc_idx uid gid aid). unfold sam_quota_falloc.
  apply wp_bind, wp_assert_not_client; [destruct Hok as (_ & ? & ? & ? & ? & I); apply I|].
  apply wp_bind, wp_gets. destruct (quota_on s); cbn [negb andb].
  2:{ apply wp_ret. split; [exact Hok|]. split; [reflexivity|]. left. split; [reflexivity|].
      intros t i _ _. reflexivity. }
  fold idx. apply wp_bind. eapply wp_mono.
  { apply (until_err_run s (fun t => charge_at FILES (file_on s idx t) (idx t) 1 1));
      [|apply quota_kinds_valid|exact Hok|reflexivity].
    eapply steps_ok_weaken; [|now apply (fcharge_steps s idx 1 1 cr)]. auto. }
  intros [done err] s1 (Ho1 & F1 & U1 & Hr). cbn [fst snd] in *.
  destruct Hr as [[-> ->]|(-> & t & rest & Ek)].
  - apply wp_ret. split; [exact Ho1|]. split; [exact F1|]. left. split; [reflexivity|].
    eapply usage_step_ext; [|exact U1]. intros t i u Ht _. now rewrite bulk_kinds.
  - change (EDQUOT =? 0) with false. cbv iota. apply wp_bind. unfold fgiveback. eapply wp_mono.
    { apply (give_back_run s (fun t => charge_at FILES (file_on s idx t) (idx t) (s64 (- 1)) (s64 (- 1)))
        (fcharge idx (-1) (-1) None) (rev done) s1 ErrorReturning);
        [|eapply valid_kinds_prefix; rewrite <- Ek; apply quota_kinds_valid|exact Ho1|exact F1].
      eapply steps_ok_weaken; [|exact (fcharge_steps s idx (-1) (-1) None eq_refl)]. cbn. auto. }
    intros u s2 (Ho2 & F2 & U2). apply wp_ret. split; [exact Ho2|]. split; [etransitivity; eauto|].
    right. split; [reflexivity|].
    assert (Hc : count_range 1) by (unfold count_range; lia).
    now apply (bulk_back FILES s s1 s2 done (file_on s idx) idx 1 1 ∅).
Qed.

(** A file whose ids are all valid indexes, and which is not a data segment. *)
Definition plain_file s (ip : addr) (n : sam_node) : Prop :=
  nodes s !! ip = Some n /\ seg_ino n = false /\
  forall t, 0 <= t < SAM_QUOTA_DEFD -> 0 <= ip_index s ip t.

Lemma plain_file_base s ip n : plain_file s ip n -> base_of s ip = ip /\ in_core s ip.
Proof.
  intros (Hn & Hs & _). assert (Hb : base_of s ip = ip) by (unfold base_of; now rewrite Hn, Hs).
  split; [exact Hb|]. split; [eauto|]. rewrite Hb. eauto.
Qed.

(** Files charged to every record of a file. *)
Definition files_charged s (ip : addr) (ol tot t i : Z) u :=
  if bool_decide (charged_to s ip t = Some i) then use FILES ol tot u else u.

Definition file_effect s (ip : addr) (ol tot t : Z) :=
  charge_at FILES (negb (bool_decide (charged_to s ip t = None))) (ip_index s ip t) ol tot.

Lemma charged_to_index s ip n t i :
  plain_file s ip n -> charged_to s ip t = Some i -> i = ip_index s ip t.
Proof.
  intros Hp. unfold charged_to, ip_index. destruct (nodes s !! base_of s ip) as [m|]; [|discriminate].
  unfold record_for. destruct (index_di m t) as [j|]; [|discriminate].
  destruct (_ || _); [discriminate|]. intros [= <-]. reflexivity.
Qed.

Lemma file_effect_charged s ip n ol tot t i u :
  plain_file s ip n -> file_effect s ip ol tot t i u = files_charged s ip ol tot t i u.
Proof.
  intros Hp. unfold file_effect, files_charged, charge_at.
  destruct (charged_to s ip t) as [j|] eqn:Ec.
  - pose proof (charged_to_index _ _ _ _ _ Hp Ec) as ->.
    rewrite (bool_decide_eq_false_2 (Some _ = None)) by discriminate. cbn [negb andb].
    destruct (Z.eqb_spec i (ip_index s ip t)) as [->|Hne].
    + now rewrite bool_decide_eq_true_2.
    + rewrite bool_decide_eq_false_2; [reflexivity|congruence].
  - now rewrite bool_decide_eq_true_2, bool_decide_eq_false_2 by (reflexivity || discriminate).
Qed.

Lemma fcharge_ip_steps s0 ip n ol tot cr :
  plain_file s0 ip n -> mixed_signs ol tot = false ->
  steps_ok s0 (file_effect s0 ip ol tot) (fcharge_ip ip ol tot cr) (fun err => cr = None -> err = 0).
Proof.
  intros Hp Hmix t s Ht Hok Hf. destruct (plain_file_base _ _ _ Hp) as [Hb Hin].
  destruct Hp as (Hn & Hseg & Hpos). specialize (Hpos t Ht).
  destruct (frames_node _ _ _ _ _ Hf Hn) as (n' & Hn' & Hnl).
  unfold fcharge_ip. apply wp_bind; eapply wp_get_node; [exact Hn'|]. apply wp_bind, wp_gets.
  assert (Ecd : negb (bool_decide (charged_to s0 ip t = None)) =
    negb (bool_decide (bq n' t = NODQUOT)) && negb (bool_decide (quota_ip s t = None))).
  { rewrite <- (charged_to_frames _ _ _ ip t Hf Ht). unfold charged_to.
    rewrite (frames_base _ _ _ _ Hf), Hb, Hn'. unfold record_for.
    assert (Hix : index_di n' t = Some (ip_index s0 ip t)).
    { destruct (node_like_fields _ _ _ _ Hnl) as (_ & _ & _ & _ & _ & _ & Hd). rewrite Hd.
      unfold ip_index. rewrite Hb, Hn. destruct (index_di_some n t Ht) as [j ->]. reflexivity. }
    rewrite Hix, (proj2 (Z.ltb_ge _ 0) Hpos), orb_false_r.
    destruct (bool_decide (bq n' t = NODQUOT)), (bool_decide (quota_ip s t = None)); reflexivity. }
  unfold file_effect. rewrite Ecd.
  destruct (negb (bool_decide (bq n' t = NODQUOT)) && _) eqn:Eg.
  - apply andb_prop in Eg as [_ Eg]. apply wp_bind. eapply wp_mono.
    { apply get_index_spec. apply in_core_caller; [eapply in_core_frames; eauto|exact Ht]. }
    intros r s1 [-> ->]. rewrite (ip_index_frames _ _ _ _ _ Hf).
    eapply wp_mono; [now apply fcheck_spec|]. rewrite Eg. auto.
  - apply wp_ret. split; [|auto]. apply turn_none, got_none_refl, Hok.
Qed.

Lemma foffline_run s ip n cr :
  cache_ok ∅ s -> plain_file s ip n -> cr = None ->
  wp (sam_quota_foffline ip cr) (fun err s' => err = 0 /\ cache_ok ∅ s' /\ frames ∅ s s' /\
    usage_step s s' (fun _ _ u => u)) s.
Proof.
  intros Hok Hp ->. unfold sam_quota_foffline. apply wp_bind, wp_gets.
  destruct (quota_on s); cbn [negb].
  2:{ apply wp_ret. split; [reflexivity|]. split; [exact Hok|]. split; [reflexivity|]. intros t i _ _. reflexivity. }
  apply wp_bind. eapply wp_mono.
  { apply (give_back_run s (file_effect s ip 0 0) (fcharge_ip ip 0 0 None) quota_kinds s ErrorReturning);
      [|apply quota_kinds_valid|exact Hok|reflexivity].
    eapply steps_ok_weaken; [|exact (fcharge_ip_steps s ip n 0 0 None Hp eq_refl)]. cbn. auto. }
  intros u s' (Ho & F & U). apply wp_ret. split; [reflexivity|]. split; [exact Ho|]. split; [exact F|].
  intros t i Ht Hi. rewrite (U t i Ht Hi), bulk_kinds by exact Ht.
  unfold file_effect, charge_at. destruct (_ && _); [|reflexivity].
  pose proof (usage_of_range _ s t i Hok) as HR. destruct (usage_of s t i) as [[[fol ftot] bol] btot].
  destruct HR as (H1 & H2 & _). cbn. now rewrite !Z.add_0_r, !swrap_id by (lia || assumption).
Qed.

Lemma fret_run s ip n :
  cache_ok ∅ s -> plain_file s ip n ->
  wp (sam_quota_fret ip) (fun err s' => err = 0 /\ cache_ok ∅ s' /\ frames ∅ s s' /\
    usage_step s s' (if quota_on s then files_charged s ip (if offline n then 0 else -1) (-1)
                     else fun _ _ u => u)) s.
Proof.
  intros Hok Hp. unfold sam_quota_fret.
  apply wp_bind, wp_assert_not_client; [destruct Hok as (_ & ? & ? & ? & ? & I); apply I|].
  apply wp_bind, wp_gets. destruct (quota_on s); cbn [negb].
  2:{ apply wp_ret. split; [reflexivity|]. split; [exact Hok|]. split; [reflexivity|]. intros t i _ _. reflexivity. }
  apply wp_bind. eapply wp_mono.
  { apply (give_back_run s (file_effect s ip (if offline n then 0 else -1) (-1))
      (fun t => n ← get_node ip; fcharge_ip ip (if offline n then 0 else -1) (-1) None t)
      quota_kinds s ErrorReturning); [|apply quota_kinds_valid|exact Hok|reflexivity].
    intros t s1 Ht Hok1 Hf1. destruct (frames_node _ _ _ _ _ Hf1 (proj1 Hp)) as (n1 & Hn1 & Hnl).
    apply wp_bind; eapply wp_get_node; [exact Hn1|].
    destruct (node_like_fields _ _ _ _ Hnl) as (_ & _ & _ & -> & _). eapply wp_mono.
    { apply (fcharge_ip_steps s ip n _ (-1) None Hp); [now destruct (offline n)|assumption..]. }
    cbn. intros e s2 [Htn He]. auto. }
  intros u s' (Ho & F & U). apply wp_ret. split; [reflexivity|]. split; [exact Ho|]. split; [exact F|].
  eapply usage_step_ext; [|exact U]. intros t i u0 Ht _. rewrite bulk_kinds by exact Ht.
  now apply (file_effect_charged s ip n).
Qed.

(** Removing a file gives its file count back: an online file is taken off the
    online and total counts of each of its records, and nothing else changes. *)
Theorem sam_quota_fret_online s ip n :
  cache_ok ∅ s -> plain_file s ip n -> offline n = false -> quota_on s = true ->
  wp (sam_quota_fret ip) (fun err s' => err = 0 /\ cache_ok ∅ s' /\ frames ∅ s s' /\
    usage_step s s' (files_charged s ip (-1) (-1))) s.
Proof.
  intros Hok Hp Hoff Hon. eapply wp_mono; [apply (fret_run s ip n Hok Hp)|].
  rewrite Hoff, Hon. auto.
Qed.

(** Going offline changes no count, and removing an offline file leaves the
    online count: a file that was charged online when it was created, then released
    and removed, stays in the online file count of its records for ever. *)
Theorem offline_file_stays_counted s ip n t i fol ftot bol btot :
  cache_ok ∅ s -> plain_file s ip n -> offline n = true -> quota_on s = true ->
  0 <= t < SAM_QUOTA_DEFD -> charged_to s ip t = Some i -> 0 <= i ->
  usage_of s t i = (fol, ftot, bol, btot) ->
  wp (sam_quota_foffline ip None;; sam_quota_fret ip) (fun err s' => err = 0 /\
    usage_of s' t i = (fol, s64 (ftot - 1), bol, btot)) s.
Proof.
  intros Hok Hp Hoff Hon Ht Hch Hi Hu. apply wp_bind.
  eapply wp_mono; [now apply (foffline_run s ip n None)|]. intros e1 s1 (_ & Ho1 & F1 & U1).
  destruct (frames_node _ _ _ _ _ F1 (proj1 Hp)) as (n1 & Hn1 & Hnl).
  destruct (node_like_fields _ _ _ _ Hnl) as (Es & _ & _ & Eo & _).
  assert (Hp1 : plain_file s1 ip n1).
  { destruct Hp as (_ & Hs & Hpos). split; [exact Hn1|]. split; [congruence|].
    intros t' Ht'. rewrite (ip_index_frames _ _ _ _ _ F1). auto. }
  assert (Hon1 : quota_on s1 = true) by (unfold quota_on; rewrite (fm_config _ _ _ F1); exact Hon).
  eapply wp_mono; [apply (fret_run s1 ip n1 Ho1 Hp1)|]. rewrite Eo, Hoff, Hon1.
  intros e2 s2 (-> & _ & _ & U2). split; [reflexivity|].
  rewrite (U2 t i Ht Hi), (U1 t i Ht Hi), Hu. unfold files_charged.
  rewrite (charged_to_frames _ _ _ _ _ F1 Ht), Hch, bool_decide_eq_true_2 by reflexivity.
  pose proof (usage_of_range _ s t i Hok) as HR. rewrite Hu in HR. destruct HR as (H1 & _).
  cbn. rewrite Z.add_0_r, swrap_id by (lia || assumption). reflexivity.
Qed.

(** ** [sam_quota_inode_fini] *)

(** Dropping a pointer of an inode whose record is locked. *)
Lemma detach_spec held s a ip n t q :
  cache_ok ({[a]} ∪ held) s -> a ∉ held -> nodes s !! ip = Some n -> bq n t = QP a ->
  0 <= t < SAM_QUOTA_DEFD -> rec_at s a = Some q -> hashed q = true -> qt_type q = t ->
  wp (sam_quot_unhold a;; set_bq ip t QNULL) (fun _ s' =>
    cache_ok ({[a]} ∪ held) s' /\ keeps held s s' /\
    (exists q', rec_at s' a = Some q' /\ hashed q' = true) /\
    nodes s' = <[ip := set_bquota (<[Z.to_nat t := QNULL]> (bquota n)) n]> (nodes s)) s.
Proof.
  intros (Hul & an & ents & L & C & I) Hna Hn Hb Ht Hrec Hh Et.
  rewrite (inv_rec_at _ _ _ _ _ _ _ I) in Hrec. rename Hrec into Hq.
  destruct (held_facts _ _ _ _ _ _ a _ I ltac:(set_solver) Hq) as (Oa & Haan & Hlk & Hav & HaL & Href).
  specialize (Href Hh). pose proof (eo_ref _ _ _ _ _ _ Oa Hh) as Hr. rewrite Et in Hr.
  pose proof (refs_pos _ t a ip n Hn Hb) as Hpos.
  apply wp_bind. eapply wp_mono.
  { eapply unhold_spec; [apply I|exact Hq|exact Hlk|exact Hav|lia]. }
  intros u s1 (Hl1 & Hr1 & Hb1).
  destruct (rest_proj _ _ Hr1) as (Hm1 & He1 & Hn1 & Hw1 & Hf1 & Hc1 & Hh1 & Ha1 & Hco1 & Hte1 & _).
  apply wp_set_bq; [rewrite Hn1; eauto|]. set (s2 := upd_nodes _ s1).
  assert (Hns : nodes s2 = <[ip := set_bquota (<[Z.to_nat t := QNULL]> (bquota n)) n]> (nodes s)).
  { unfold s2. cbn. rewrite Hn1. apply map_eq. intros b. destruct (decide (ip = b)) as [->|Hne].
    - now rewrite lookup_alter_eq, lookup_insert_eq, Hn.
    - now rewrite lookup_alter_ne, lookup_insert_ne. }
  assert (I2 : cache_inv ({[a]} ∪ held) s2 an (<[a := set_ref (qt_ref q - 1) q]> ents) L C).
  { eapply (inv_repoint ({[a]} ∪ held) s an ents L C a q ip n t QNULL); try eassumption;
      [set_solver|right; auto]. }
  split; [split; [split; [cbn; rewrite Hh1|cbn; rewrite Ha1]; apply Hul|eauto]|]. split; [|split; [|exact Hns]].
  - constructor; try assumption.
    + apply (nodes_like_repoint s s2 ip n t QNULL); [exact Hm1|exact Hn| |exact Ht|congruence|discriminate|exact Hns].
      destruct (ci_nodes _ _ _ _ _ _ I) as [_ Hnodes]. now apply (Hnodes ip n).
    + intros b Hb'. eapply core_heap_other; [apply I|apply I2|set_solver].
    + intros t' i' _ _. eapply (usage_update ({[a]} ∪ held)); [exact I|exact I2|exact Hq|reflexivity..| |reflexivity].
      intros _. now apply disk_usage_rest.
  - exists (set_ref (qt_ref q - 1) q). rewrite (inv_rec_at _ _ _ _ _ _ _ I2), lookup_insert_eq. auto.
Qed.

Lemma fini_one_spec s ip n t :
  cache_ok ∅ s -> nodes s !! ip = Some n -> 0 <= t < SAM_QUOTA_DEFD ->
  wp (fini_one ip t) (fun _ s' => cache_ok ∅ s' /\ keeps ∅ s s' /\
    exists n', nodes s' !! ip = Some n' /\
      forall t', 0 <= t' < SAM_QUOTA_DEFD ->
        (t' = t -> forall a, bq n' t' <> QP a) /\
        ((forall a, bq n t' <> QP a) -> forall a, bq n' t' <> QP a)) s.
Proof.
  intros Hok Hn Ht. unfold fini_one. apply wp_bind; eapply wp_get_node; [exact Hn|].
  assert (Hsame : (forall a, bq n t <> QP a) -> cache_ok ∅ s /\ keeps ∅ s s /\
    exists n', nodes s !! ip = Some n' /\ forall t', 0 <= t' < SAM_QUOTA_DEFD ->
      (t' = t -> forall a, bq n' t' <> QP a) /\
      ((forall a, bq n t' <> QP a) -> forall a, bq n' t' <> QP a)).
  { intros Hb. split; [exact Hok|]. split; [reflexivity|]. exists n. split; [exact Hn|].
    intros t' _. split; [intros ->; exact Hb|auto]. }
  destruct (bq n t) as [| |a] eqn:Eb; [apply wp_ret, Hsame; discriminate..|]. clear Hsame.
  destruct Hok as (Hul & an & ents & L & C & I). destruct (index_di_some n t Ht) as [i Hix].
  destruct (pointed_record _ _ _ _ _ _ _ _ _ _ _ I Hn Ht Hix Eb) as (q & Hq & He & Hr & Hi & _).
  apply wp_bind, wp_assert_not_client; [apply I|].
  apply wp_bind. eapply wp_mono; [eapply lock_spec; eauto; apply not_holding_empty|].
  intros u s1 [[Hna Hok1 K1 _ _ (q1 & Hrec & He1 & _)] Hn1].
  apply is_entry_spec in He1 as (Hh1 & Et1 & _).
  apply wp_bind; eapply wp_get_node; [rewrite Hn1; exact Hn|]. rewrite decide_True by exact Eb.
  destruct (ci_nodes _ _ _ _ _ _ I) as [_ Hnodes]. destruct (Hnodes ip n Hn) as [Hlen _].
  apply wp_assoc. eapply wp_mono.
  { apply (detach_spec ∅ s1 a ip n t q1); [exact Hok1|set_solver|now rewrite Hn1|exact Eb|exact Ht|exact Hrec|
      exact Hh1|exact Et1]. }
  intros u2 s2 (Hok2 & K2 & (q2 & Hrec2 & Hh2) & Hn2).
  eapply wp_mono; [apply (rel_spec ({[a]} ∪ ∅) s2 a q2); [exact Hok2|set_solver|exact Hrec2|exact Hh2]|].
  intros u3 s3 (Hok3 & K3 & _ & Hn3). replace (({[a]} ∪ ∅) ∖ {[a]}) with (∅ : gset addr) in * by set_solver.
  split; [exact Hok3|]. split; [etransitivity; [exact K1|]; etransitivity; [exact K2|exact K3]|].
  eexists. rewrite Hn3, Hn2, lookup_insert_eq. split; [reflexivity|]. intros t' Ht'.
  rewrite bq_set by assumption. destruct (decide (t' = t)) as [->|Hne]; split; try discriminate; congruence || auto.
Qed.

(** Every pointer of the inode is dropped, its records are written back and
    unlocked, and no usage changes. *)
Lemma inode_fini_spec s ip n :
  cache_ok ∅ s -> nodes s !! ip = Some n ->
  wp (sam_quota_inode_fini ip) (fun _ s' => cache_ok ∅ s' /\ keeps ∅ s s' /\
    exists n', nodes s' !! ip = Some n' /\
      forall t a, 0 <= t < SAM_QUOTA_DEFD -> bq n' t <> QP a) s.
Proof.
  intros Hok Hn. unfold sam_quota_inode_fini. apply wp_bind, wp_gets.
  assert (Hhash : m_quota_hash (mp s) <> None).
  { destruct Hok as (_ & an & ents & L & C & I). destruct (links_table _ _ _ _ _ (ci_links _ _ _ _ _ _ I)) as (t & -> & _).
    discriminate. }
  rewrite bool_decide_eq_false_2 by exact Hhash.
  eapply wp_mono.
  { apply (wp_for_each quota_kinds (fini_one ip) (fun done s' => cache_ok ∅ s' /\ keeps ∅ s s' /\
      exists n', nodes s' !! ip = Some n' /\ forall t a, t ∈ done -> 0 <= t < SAM_QUOTA_DEFD -> bq n' t <> QP a)).
    - intros done t rest s1 Ek (Ho1 & K1 & n1 & Hn1 & Hd1).
      assert (Ht : 0 <= t < SAM_QUOTA_DEFD).
      { destruct quota_kinds_valid as [_ Hv]. rewrite Ek in Hv. apply Forall_app in Hv as [_ Hv].
        now apply Forall_cons in Hv as [Hv _]. }
      eapply wp_mono; [now apply (fini_one_spec s1 ip n1 t)|].
      intros u s2 (Ho2 & K2 & n2 & Hn2 & Hd2). split; [exact Ho2|]. split; [etransitivity; eauto|].
      exists n2. split; [exact Hn2|]. intros t' a Hin Ht'. destruct (Hd2 t' Ht') as [H1 H2].
      apply elem_of_app in Hin as [Hin|Hin%list_elem_of_singleton]; [|now apply H1].
      apply H2. intros a'. now apply Hd1.
    - split; [exact Hok|]. split; [reflexivity|]. exists n. split; [exact Hn|]. set_solver. }
  intros u s' (Ho & K & n' & Hn' & Hd). split; [exact Ho|]. split; [exact K|].
  exists n'. split; [exact Hn'|]. intros t a Ht. apply Hd; [|exact Ht].
  unfold quota_kinds, SAM_QUOTA_ADMIN, SAM_QUOTA_GROUP, SAM_QUOTA_USER, SAM_QUOTA_DEFD in *.
  assert (t = 0 \/ t = 1 \/ t = 2) as [-> |[-> | ->]] by lia; set_solver.
Qed.
End Thms.
