(* ===== verification/QuotaInit.v ===== *)
(** * Starting quotas

    [sam_quota_init] establishes the invariant of the cache, with the usage of
    every key read off the quota files (src/src/fs/samfs/quota.c). *)

From S2P Require Import Prelude DList QuotaRec QuotaBytes Monad QuotaCache QuotaLinks QuotaPrims QuotaInv QuotaGet QuotaRel QuotaOps QuotaAdmin QuotaCharge QuotaThms.

Section Init.
Context {E : Type} `{QuotaEnv E} `{!QuotaEnvLaws E}.
Implicit Types (s : kstate E) (a an : addr).

Lemma wp_upd_node ip f (Q : unit -> kstate E -> Prop) s :
  is_Some (nodes s !! ip) -> Q tt (upd_nodes (alter f ip) s) -> wp (upd_node ip f) Q s.
Proof. intros [n Hn] HQ. with_strategy transparent [wp] unfold wp, upd_node. now rewrite Hn. Qed.

(** ** The empty cache *)

Definition anchor_quot (an : addr) : sam_quot :=
  set_avail_prev (Some an) (set_avail_next (Some an) (set_flags SAM_QF_ANCHOR zero_quot)).

Definition no_pointers s : Prop :=
  forall ip n, nodes s !! ip = Some n -> length (bquota n) = 3%nat /\
    forall t a, 0 <= t < SAM_QUOTA_DEFD -> bq n t <> QP a.

(** A mount before [sam_quota_init]: no structure is allocated and no inode points
    to one. *)
Record unstarted s : Prop := mk_unstarted {
  us_heap : heap s = ∅;
  us_hash : m_quota_hash (mp s) = None;
  us_files : length (m_quota_ip (mp s)) = 3%nat;
  us_server : fs_client (mp s) = false;
  us_size : Z.of_nat (size (nodes s)) < 2 ^ 31 - 1;
  us_nodes : no_pointers s
}.

Definition files_distinct s : Prop :=
  forall t t' ip, 0 <= t < SAM_QUOTA_DEFD -> 0 <= t' < SAM_QUOTA_DEFD ->
    quota_ip s t = Some ip -> quota_ip s t' = Some ip -> t = t'.

Lemma empty_repr an t :
  t = replicate 128 None ->
  repr {[an := anchor_quot an]} (Some t) an {[an := core (anchor_quot an)]} [] (fun _ => []).
Proof.
  intros ->. constructor; try (intros; set_solver).
  - now rewrite map_fmap_singleton.
  - rewrite lookup_singleton_eq. eauto.
  - apply NoDup_singleton.
  - unfold dlist, dseg, nx, pv. now rewrite lookup_singleton_eq.
  - exists (replicate 128 None). split; [reflexivity|]. split; [apply length_replicate|].
    intros i Hi. exists None. split; [now apply lookup_replicate_2|reflexivity].
  - intros. constructor.
Qed.

Lemma empty_cache_ok s an :
  heap s = {[an := anchor_quot an]} -> m_quota_hash (mp s) = Some (replicate 128 None) ->
  m_quota_avail (mp s) = Some an -> unlocked s -> (an < brk s)%nat ->
  fs_client (mp s) = false -> Z.of_nat (size (nodes s)) < 2 ^ 31 - 1 -> no_pointers s ->
  files_distinct s -> cache_ok ∅ s.
Proof.
  intros Hh Ht Ha Hul Hb Hc Hsz Hn Hf. split; [exact Hul|].
  exists an, {[an := core (anchor_quot an)]}, [], (fun _ => []).
  assert (Honly : forall b q, ({[an := core (anchor_quot an)]} : gmap addr sam_quot) !! b = Some q ->
    b = an /\ q = core (anchor_quot an)) by (intros b q [-> <-]%lookup_singleton_Some; auto).
  constructor; try assumption.
  - split; [|exact Ha]. rewrite Hh, Ht. now apply empty_repr.
  - eexists. rewrite lookup_singleton_eq. repeat split.
  - intros b q [-> ->]%Honly Hne. congruence.
  - intros b b' q q' [-> _]%Honly [-> _]%Honly. auto.
  - intros b [q [-> _]%Honly]. exact Hb.
  - intros b Hb'. set_solver.
  - intros i _. set_solver.
  - split; [exact Hsz|]. intros ip n Hin. destruct (Hn ip n Hin) as [Hl Hp]. split; [exact Hl|].
    intros t a Ht' Hbq. now destruct (Hp t a Ht').
Qed.

Lemma usage_of_empty s an t i :
  heap s = {[an := anchor_quot an]} -> usage_of s t i = disk_usage s t i.
Proof.
  intros Hh. unfold usage_of. rewrite Hh, map_fmap_singleton.
  rewrite (proj2 (cached_None _ t i)); [reflexivity|].
  intros b q [-> <-]%lookup_singleton_Some. reflexivity.
Qed.

(** ** The quota files of a mount *)

(** A file that the lookup of a name finds and that can hold quotas. *)
Definition usable s (lookup : Z -> Z * addr) (t : Z) : option addr :=
  let '(error, ip) := lookup t in
  if error =? 0 then
    match nodes s !! ip with
    | Some n => if di_reg n && negb (segment n) && negb (offline n) then Some ip else None
    | None => None
    end
  else None.

(** Names are found in core, each with its own inode. *)
Record lookup_ok s (lookup : Z -> Z * addr) : Prop := mk_lookup_ok {
  lk_core : forall t ip, lookup t = (0, ip) -> is_Some (nodes s !! ip);
  lk_distinct : forall t t' ip, lookup t = (0, ip) -> lookup t' = (0, ip) -> t = t'
}.

(** What the loop over the files leaves alone. *)
Definition same_inode (n n' : sam_node) : Prop :=
  length (bquota n') = length (bquota n) /\ di_reg n' = di_reg n /\ segment n' = segment n /\
  offline n' = offline n /\
  ((forall t a, 0 <= t < SAM_QUOTA_DEFD -> bq n t <> QP a) ->
   forall t a, 0 <= t < SAM_QUOTA_DEFD -> bq n' t <> QP a).

Record init_frame s s' : Prop := mk_init_frame {
  if_heap : heap s' = heap s;
  if_brk : brk s' = brk s;
  if_env : env s' = env s;
  if_mount : exists l, mp s' = set_m_quota_ip l (mp s) /\ length l = length (m_quota_ip (mp s));
  if_nodes : forall ip, option_Forall2 same_inode (nodes s !! ip) (nodes s' !! ip);
  if_size : size (nodes s') = size (nodes s)
}.

#[local] Instance same_inode_preorder : PreOrder same_inode.
Proof.
  split.
  - intros n. repeat split; auto.
  - intros n1 n2 n3 (A1 & A2 & A3 & A4 & A5) (B1 & B2 & B3 & B4 & B5).
    repeat split; try congruence. auto.
Qed.

#[local] Instance init_frame_preorder : PreOrder init_frame.
Proof.
  split.
  - intros s. constructor; try reflexivity.
    exists (m_quota_ip (mp s)). split; [destruct (mp s); reflexivity|reflexivity].
  - intros s1 s2 s3 [A1 A2 A3 (l1 & A4 & A5) A6 A7] [B1 B2 B3 (l2 & B4 & B5) B6 B7].
    constructor; try congruence.
    + exists l2. rewrite B4, A4. split; [reflexivity|]. rewrite B5, A4. exact A5.
    + intros ip. etransitivity; [apply A6|apply B6].
Qed.

Lemma size_alter (f : sam_node -> sam_node) ip (m : gmap addr sam_node) : size (alter f ip m) = size m.
Proof.
  rewrite <- !size_dom. f_equal. apply dom_alter_L.
Qed.

Lemma init_frame_node s ip f :
  (forall n, same_inode n (f n)) -> init_frame s (upd_nodes (alter f ip) s).
Proof.
  intros Hf. constructor; try reflexivity.
  - exists (m_quota_ip (mp s)). split; [destruct s as [m]; destruct m; reflexivity|reflexivity].
  - intros b. cbn. destruct (decide (ip = b)) as [->|Hne].
    + rewrite lookup_alter_eq. destruct (nodes s !! b); constructor. apply Hf.
    + rewrite lookup_alter_ne by exact Hne. reflexivity.
  - apply size_alter.
Qed.

Lemma init_frame_file s i v : init_frame s (upd_mp (fun m => set_m_quota_ip (<[Z.to_nat i := v]> (m_quota_ip m)) m) s).
Proof.
  constructor; try reflexivity. exists (<[Z.to_nat i := v]> (m_quota_ip (mp s))).
  split; [reflexivity|apply length_insert].
Qed.

Lemma init_frame_log s m : init_frame s (log m s).
Proof.
  constructor; try reflexivity.
  exists (m_quota_ip (mp s)). split; [destruct s as [m']; destruct m'; reflexivity|reflexivity].
Qed.

Lemma quota_ip_set s i v t :
  0 <= i < SAM_QUOTA_DEFD -> 0 <= t < SAM_QUOTA_DEFD -> length (m_quota_ip (mp s)) = 3%nat ->
  quota_ip (upd_mp (fun m => set_m_quota_ip (<[Z.to_nat i := v]> (m_quota_ip m)) m) s) t =
  if decide (t = i) then v else quota_ip s t.
Proof.
  unfold SAM_QUOTA_DEFD, quota_ip. cbn. intros Hi Ht Hl. destruct (decide (t = i)) as [->|Hne].
  - rewrite list_lookup_insert_eq by lia. now destruct v.
  - now rewrite list_lookup_insert_ne by lia.
Qed.

Lemma nodquot_same (n : sam_node) j :
  0 <= j < SAM_QUOTA_DEFD -> same_inode n (set_bquota (<[Z.to_nat j := NODQUOT]> (bquota n)) n).
Proof.
  intros Hj. repeat split; try reflexivity; [cbn; apply length_insert|]. intros Hn t a Ht.
  specialize (Hn t a Ht). unfold bq, SAM_QUOTA_DEFD in *. cbn.
  destruct (decide (t = j)) as [->|Hne].
  - destruct (decide (Z.to_nat j < length (bquota n))%nat) as [Hlt|Hge].
    + now rewrite list_lookup_insert_eq by lia.
    + now rewrite list_insert_ge by lia.
  - now rewrite list_lookup_insert_ne by lia.
Qed.

(** One file. *)
Lemma init_file_spec s0 s lookup i :
  lookup_ok s0 lookup -> init_frame s0 s -> length (m_quota_ip (mp s0)) = 3%nat ->
  0 <= i < SAM_QUOTA_DEFD ->
  wp (init_file lookup i) (fun used s' =>
    init_frame s0 s' /\ used = negb (bool_decide (usable s0 lookup i = None)) /\
    forall t, 0 <= t < SAM_QUOTA_DEFD ->
      quota_ip s' t = if decide (t = i) then usable s0 lookup i else quota_ip s t) s.
Proof.
  intros Hlk HF Hlen Hi. unfold init_file, usable.
  assert (Hl3 : forall s', init_frame s0 s' -> length (m_quota_ip (mp s')) = 3%nat).
  { intros s' [_ _ _ (l & -> & Hl) _ _]. cbn. congruence. }
  apply wp_bind, wp_modify. set (s1 := upd_mp _ s).
  assert (F1 : init_frame s0 s1) by (etransitivity; [exact HF|apply init_frame_file]).
  assert (Q1 : forall t, 0 <= t < SAM_QUOTA_DEFD ->
    quota_ip s1 t = if decide (t = i) then None else quota_ip s t).
  { intros t Ht. unfold s1. apply quota_ip_set; auto. }
  destruct (lookup i) as [error ip] eqn:El.
  destruct (Z.eqb_spec error 0) as [->|Hne]; cbn [negb].
  2:{ apply wp_bind, wp_when; intros _; [unfold cmn_err; apply wp_modify|]; apply wp_ret;
        rewrite bool_decide_eq_true_2 by reflexivity;
        (split; [first [exact F1 | etransitivity; [exact F1|apply init_frame_log]]|]); auto. }
  destruct (lk_core _ _ Hlk i ip El) as [n0 Hn0]. rewrite Hn0.
  assert (Hnode : forall s', init_frame s0 s' -> exists n', nodes s' !! ip = Some n' /\ same_inode n0 n').
  { intros s' F. pose proof (if_nodes _ _ F ip) as Ho. rewrite Hn0 in Ho. inversion Ho. eauto. }
  destruct (Hnode s1 F1) as (n1 & Hn1 & _ & Er & Es & Eo & _).
  apply wp_bind; eapply wp_get_node; [exact Hn1|]. rewrite Er, Es, Eo.
  set (Q := fun used s' => init_frame s0 s' /\ used = _ /\ _).
  set (same := fun s' => init_frame s0 s' /\ forall t, quota_ip s' t = quota_ip s1 t).
  assert (Hlog : forall (b : bool) (k : M (kstate E) bool) s' m,
    same s' -> (forall s'', same s'' -> wp k Q s'') -> wp (when b (cmn_err m);; k) Q s').
  { intros b k s' m [Fs Qs] Hk. apply wp_bind, wp_when; intros _; [unfold cmn_err; apply wp_modify|];
      apply Hk; split; auto. etransitivity; [exact Fs|apply init_frame_log]. }
  assert (S1 : same s1) by (split; auto). clearbody s1.
  apply Hlog; [exact S1|intros s2 S2]. apply Hlog; [exact S2|intros s3 S3].
  apply Hlog; [exact S3|intros s4 S4]. clear s2 S2 s3 S3 Hlog.
  assert (Hup : forall s' f, same s' -> (forall n, same_inode n (f n)) ->
    is_Some (nodes s' !! ip) /\ same (upd_nodes (alter f ip) s')).
  { intros s' f [F Hq] Hf. destruct (Hnode s' F) as (n' & Hn' & _). split; [eauto|].
    split; [etransitivity; [exact F|now apply init_frame_node]|exact Hq]. }
  apply wp_bind. eapply (wp_mono _ (fun _ s' => same s')).
  { apply wp_when; intros _; [|exact S4]. apply wp_bind. unfold cmn_err. apply wp_modify.
    destruct (Hup (log MarkingNoRelease s4) (set_nodrop true)) as [Hs5 S5]; [..|now apply wp_upd_node].
    - destruct S4 as [F4 Q4]. split; [etransitivity; [exact F4|apply init_frame_log]|exact Q4].
    - intros n. repeat split; auto. }
  intros u s5 S5. unfold Q. destruct (di_reg n0 && _ && _).
  2:{ apply wp_ret. destruct S5 as [F5 Q5]. split; [exact F5|]. rewrite bool_decide_eq_true_2 by reflexivity.
      split; [reflexivity|]. intros t Ht. rewrite Q5. now apply Q1. }
  apply wp_bind. eapply wp_mono.
  { apply (wp_for_each quota_kinds (fun j => set_bq ip j NODQUOT) (fun _ s' => same s')); [|exact S5].
    intros done j rest s' Ek S'.
    destruct quota_kinds_valid as [_ Hv]. rewrite Ek in Hv. apply Forall_app in Hv as [_ Hv].
    apply Forall_cons in Hv as [Hj _].
    destruct (Hup s' (fun n => set_bquota (<[Z.to_nat j := NODQUOT]> (bquota n)) n) S') as [Hs S''];
      [intros n; now apply nodquot_same|now apply wp_set_bq]. }
  intros u' s6 [F6 Q6]. apply wp_bind, wp_modify, wp_ret.
  split; [etransitivity; [exact F6|apply init_frame_file]|].
  rewrite bool_decide_eq_false_2 by discriminate. split; [reflexivity|].
  intros t Ht. rewrite quota_ip_set by auto. destruct (decide (t = i)) as [->|Hne]; [reflexivity|].
  rewrite Q6, Q1 by exact Ht. now rewrite decide_False.
Qed.

(** All of them. *)
Lemma init_files_spec s0 s lookup ts nqf :
  lookup_ok s0 lookup -> init_frame s0 s -> length (m_quota_ip (mp s0)) = 3%nat ->
  valid_kinds ts -> 0 <= nqf ->
  wp (init_files lookup ts nqf) (fun r s' =>
    init_frame s0 s' /\ (r = 0 <-> nqf = 0 /\ forall t, t ∈ ts -> usable s0 lookup t = None) /\ 0 <= r /\
    forall t, 0 <= t < SAM_QUOTA_DEFD ->
      quota_ip s' t = if bool_decide (t ∈ ts) then usable s0 lookup t else quota_ip s t) s.
Proof.
  intros Hlk HF Hlen. revert s nqf HF. induction ts as [|i ts IH]; intros s nqf HF [Hnd Hv] Hn; cbn [init_files].
  - apply wp_ret. split; [exact HF|]. split; [set_solver|]. split; [exact Hn|]. reflexivity.
  - apply NoDup_cons in Hnd as [Hni Hnd]. apply Forall_cons in Hv as [Hi Hv].
    apply wp_bind. eapply wp_mono; [now apply (init_file_spec s0)|].
    intros used s1 (F1 & -> & Q1). eapply wp_mono.
    { apply (IH s1); [exact F1|now split|]. destruct (negb _); lia. }
    intros r s2 (F2 & Hr & Hr0 & Q2). split; [exact F2|]. split; [|split; [exact Hr0|]].
    + rewrite Hr. setoid_rewrite elem_of_cons. destruct (usable s0 lookup i) as [ip|] eqn:Eu.
      * rewrite bool_decide_eq_false_2 by discriminate. cbn [negb]. split; [lia|].
        intros [_ Hu]. specialize (Hu i (or_introl eq_refl)). congruence.
      * rewrite bool_decide_eq_true_2 by reflexivity. cbn [negb].
        split; (intros [Hz Hu]; split; [exact Hz|]); [intros t [->|Ht]|intros t Ht]; auto.
    + intros t Ht. rewrite Q2, Q1 by exact Ht. destruct (decide (t = i)) as [->|Hne].
      * rewrite bool_decide_eq_false_2 by exact Hni. now rewrite bool_decide_eq_true_2 by (apply elem_of_cons; now left).
      * rewrite (bool_decide_ext (t ∈ i :: ts) (t ∈ ts)) by (rewrite elem_of_cons; tauto). reflexivity.
Qed.

Lemma init_tables_spec s an :
  heap s = ∅ -> an = brk s ->
  wp init_tables (fun _ s' =>
    heap s' = {[an := anchor_quot an]} /\ brk s' = S an /\ env s' = env s /\ nodes s' = nodes s /\
    m_quota_hash (mp s') = Some (replicate 128 None) /\ m_quota_avail (mp s') = Some an /\
    unlocked s' /\ m_quota_ip (mp s') = m_quota_ip (mp s) /\ fs_client (mp s') = fs_client (mp s) /\
    fi_config (mp s') = fi_config (mp s)) s.
Proof.
  intros Hh ->. unfold init_tables. do 3 apply wp_bind, wp_modify. apply wp_bind, wp_kma, wp_bind, wp_modify.
  set (an := brk s).
  assert (Hal : forall f q, alter f an ({[an := q]} : gmap addr sam_quot) = {[an := f q]})
    by (intros; apply alter_singleton_eq).
  assert (Hex : forall s' q, heap s' = {[an := q]} -> is_Some (heap s' !! an))
    by (intros s' q ->; rewrite lookup_singleton_eq; eauto).
  match goal with |- wp _ _ ?s5 => set (s1 := s5) end.
  assert (H1 : heap s1 = {[an := zero_quot]}) by (unfold s1; cbn -[replicate]; now rewrite Hh).
  apply wp_bind, wp_mod_q; [now apply (Hex _ zero_quot)|]. set (s2 := upd_heap _ s1).
  assert (H2 : heap s2 = _) by (unfold s2; cbn [heap upd_heap]; rewrite H1; apply Hal).
  apply wp_bind, wp_mod_q; [eapply Hex, H2|]. set (s3 := upd_heap _ s2).
  assert (H3 : heap s3 = _) by (unfold s3; cbn [heap upd_heap]; rewrite H2; apply Hal).
  apply wp_mod_q; [eapply Hex, H3|].
  split; [cbn [heap upd_heap]; rewrite H3; apply Hal|]. repeat split.
Qed.

Lemma kinds_complete t : 0 <= t < SAM_QUOTA_DEFD -> t ∈ quota_kinds.
Proof.
  unfold SAM_QUOTA_DEFD, quota_kinds, SAM_QUOTA_ADMIN, SAM_QUOTA_GROUP, SAM_QUOTA_USER. intros Ht.
  assert (t = 0 \/ t = 1 \/ t = 2) as [-> |[-> | ->]] by lia; set_solver.
Qed.

Lemma init_frame_pointers s s' : init_frame s s' -> no_pointers s -> no_pointers s'.
Proof.
  intros F Hn ip n' Hn'. pose proof (if_nodes _ _ F ip) as Ho. rewrite Hn' in Ho.
  inversion Ho as [n ? (El & _ & _ & _ & Ep) E1 E2|]. subst.
  destruct (Hn ip n (eq_sym E1)) as [Hl Hp]. split; [congruence|]. now apply Ep.
Qed.

Lemma init_run s lookup :
  unstarted s -> quota_on s = true -> lookup_ok s lookup ->
  wp (sam_quota_init lookup) (fun _ s' =>
    (forall t, 0 <= t < SAM_QUOTA_DEFD -> quota_ip s' t = usable s lookup t) /\
    if existsb (fun t => negb (bool_decide (usable s lookup t = None))) quota_kinds
    then cache_ok ∅ s' /\ quota_on s' = true /\ env s' = env s /\
         forall t i, 0 <= t < SAM_QUOTA_DEFD -> usage_of s' t i = disk_usage s' t i
    else quota_on s' = false /\ m_quota_hash (mp s') = None) s.
Proof.
  intros [Uh Ut Uf Us Usz Un] Hon Hlk. unfold sam_quota_init.
  apply wp_bind, wp_gets, wp_bind, wp_gets. rewrite Hon, Ut, bool_decide_eq_true_2 by reflexivity.
  cbn [negb]. apply wp_bind. eapply wp_mono.
  { apply (init_files_spec s s lookup quota_kinds 0 Hlk); [reflexivity|exact Uf|apply quota_kinds_valid|lia]. }
  intros r s1 (F1 & Hr & Hr0 & Q1).
  assert (Q1' : forall t, 0 <= t < SAM_QUOTA_DEFD -> quota_ip s1 t = usable s lookup t).
  { intros t Ht. rewrite Q1 by exact Ht. now rewrite bool_decide_eq_true_2 by now apply kinds_complete. }
  destruct (if_mount _ _ F1) as (l & Em & El).
  destruct (existsb _ quota_kinds) eqn:Ee.
  - assert (Hr' : r <> 0).
    { intros [_ Hall]%Hr. apply existsb_exists in Ee as (t & Ht & Hb). apply list_elem_of_In in Ht.
      rewrite (Hall t Ht), bool_decide_eq_true_2 in Hb by reflexivity. discriminate. }
    apply Z.eqb_neq in Hr'. rewrite Hr'. cbn [negb].
    eapply wp_mono; [apply (init_tables_spec s1 (brk s1)); [rewrite (if_heap _ _ F1); exact Uh|reflexivity]|].
    intros u s2 (Hh & Hb & He & Hn & Ht & Ha & Hul & Hq & Hc & Hf).
    assert (Q2 : forall t, 0 <= t < SAM_QUOTA_DEFD -> quota_ip s2 t = usable s lookup t)
      by (intros t Ht'; rewrite (quota_ip_eq _ _ _ Hq); auto).
    split; [exact Q2|]. split; [|split; [|split]].
    + eapply (empty_cache_ok s2 (brk s1)); try assumption.
      * rewrite Hb. lia.
      * rewrite Hc, Em. exact Us.
      * rewrite Hn, (if_size _ _ F1). exact Usz.
      * unfold no_pointers. rewrite Hn. exact (init_frame_pointers _ _ F1 Un).
      * intros t t' ip Ht1 Ht2. rewrite !Q2 by assumption. unfold usable.
        destruct (lookup t) as [e1 p1] eqn:E1, (lookup t') as [e2 p2] eqn:E2.
        destruct (Z.eqb_spec e1 0) as [->|]; [|discriminate].
        destruct (Z.eqb_spec e2 0) as [->|]; [|discriminate].
        destruct (nodes s !! p1) as [n1|]; [|discriminate]. destruct (_ && _); [|discriminate].
        destruct (nodes s !! p2) as [n2|]; [|discriminate]. destruct (_ && _); [|discriminate].
        intros [= ->] [= ->]. eapply (lk_distinct _ _ Hlk); eauto.
    + unfold quota_on in *. now rewrite Hf, Em.
    + rewrite He. apply (if_env _ _ F1).
    + intros t i _. now apply (usage_of_empty s2 (brk s1)).
  - assert (Hr' : r = 0).
    { apply Hr. split; [reflexivity|]. intros t Ht. destruct (usable s lookup t) eqn:Eu; [|reflexivity].
      exfalso. assert (Hx : existsb (fun t => negb (bool_decide (usable s lookup t = None))) quota_kinds = true).
      { apply existsb_exists. exists t. split; [now apply list_elem_of_In|]. rewrite Eu. reflexivity. }
      congruence. }
    rewrite Hr'. cbn [Z.eqb negb]. apply wp_modify. split; [exact Q1'|]. cbn. split.
    + unfold quota_on. cbn. apply has_any_clear_eq.
    + rewrite Em. exact Ut.
Qed.

(** Mounting: [sam_quota_init] uses exactly the quota files that are ordinary,
    online and not segmented, and leaves a consistent cache whose usage of every key is
    the one in the quota files; with no usable file it turns quotas off and allocates
    nothing. *)
Theorem sam_quota_init_establishes s lookup :
  unstarted s -> quota_on s = true -> lookup_ok s lookup ->
  wp (sam_quota_init lookup) (fun _ s' =>
    (forall t, 0 <= t < SAM_QUOTA_DEFD -> quota_ip s' t = usable s lookup t) /\
    if existsb (fun t => negb (bool_decide (usable s lookup t = None))) quota_kinds
    then cache_ok ∅ s' /\ quota_on s' = true /\ env s' = env s /\
         forall t i, 0 <= t < SAM_QUOTA_DEFD -> usage_of s' t i = disk_usage s' t i
    else quota_on s' = false /\ m_quota_hash (mp s') = None) s.
Proof. apply init_run. Qed.
End Init.
