(* ===== verification/QuotaOwner.v ===== *)
(** * Changing owners and setting records: theorems

    [sam_quota_chown], [sam_set_aid], [sam_quota_set_info] and the two system calls
    (src/src/fs/samfs/quota.c, cquota.c) against the contract of the cache. *)

From S2P Require Import Prelude DList QuotaRec QuotaBytes Monad QuotaCache QuotaLinks QuotaPrims QuotaInv QuotaGet QuotaRel QuotaOps QuotaAdmin QuotaFrame QuotaCharge QuotaThms.

(** ** A file with its blocks, as usage *)

Definition own (ndk ntp : Z) (u : Z * Z * Z * Z) : Z * Z * Z * Z :=
  use BLOCKS ndk ntp (use FILES 1 1 u).
Definition disown (ndk ntp : Z) (u : Z * Z * Z * Z) : Z * Z * Z * Z :=
  use BLOCKS (- ndk) (- ntp) (use FILES (-1) (-1) u).

Lemma usage_owner_add ndk ntp d : usage (owner_add ndk ntp d) = own ndk ntp (usage d).
Proof. reflexivity. Qed.
Lemma usage_owner_sub ndk ntp d : usage (owner_sub ndk ntp d) = disown ndk ntp (usage d).
Proof. reflexivity. Qed.

Lemma disown_own ndk ntp u : usage_range u -> disown ndk ntp (own ndk ntp u) = u.
Proof.
  destruct u as [[[fol ftot] bol] btot]. intros (H1 & H2 & H3 & H4). unfold disown, own, use.
  change (-1) with (- (1)). rewrite !Z.add_opp_r. now rewrite !swrap_add_sub by (assumption || lia).
Qed.

Lemma owner_typed ndk ntp d :
  dquot_typed d -> dquot_typed (owner_add ndk ntp d) /\ dquot_typed (owner_sub ndk ntp d).
Proof.
  intros (HL & HU & HT)%dquot_typed_split. split; apply dquot_typed_split;
    (split; [exact HL|split; [|exact HT]]).
  - rewrite usage_owner_add. now do 2 apply usage_range_use.
  - rewrite usage_owner_sub. now do 2 apply usage_range_use.
Qed.

(** Programs regrouped. *)
Section Regroup.
Context {S : Type}.

Lemma wp_two {A B R : Type} (m1 : M S A) (m2 : M S B) (k : A -> B -> M S R) (P : A * B -> S -> Prop) Q s :
  wp (u ← m1; g ← m2; mret (u, g)) P s -> (forall u g s', P (u, g) s' -> wp (k u g) Q s') ->
  wp (u ← m1; g ← m2; k u g) Q s.
Proof.
  intros H1 H2. apply wp_done in H1 as ([u g] & s' & Er & HP). specialize (H2 u g s' HP).
  revert Er H2. with_strategy transparent [wp] unfold wp, mbind, M_bind.
  destruct (m1 s) as [u0 s1|]; [|discriminate]. destruct (m2 s1) as [g0 s2|]; [|discriminate].
  cbn. now intros [= -> -> ->].
Qed.

Lemma wp_seq3 {R : Type} (m1 m2 m3 : M S unit) (k : M S R) Q s :
  wp (m1;; m2;; m3) (fun _ s' => wp k Q s') s -> wp (m1;; m2;; m3;; k) Q s.
Proof.
  with_strategy transparent [wp] unfold wp, mbind, M_bind.
  destruct (m1 s) as [? s1|]; [|auto]. destruct (m2 s1) as [? s2|]; [|auto]. now destruct (m3 s2).
Qed.

Lemma wp_seq4 {R : Type} (m1 m2 m3 m4 : M S unit) (k : M S R) Q s :
  wp (m1;; m2;; m3;; m4) (fun _ s' => wp k Q s') s -> wp (m1;; m2;; m3;; m4;; k) Q s.
Proof.
  with_strategy transparent [wp] unfold wp, mbind, M_bind.
  destruct (m1 s) as [? s1|]; [|auto]. destruct (m2 s1) as [? s2|]; [|auto].
  destruct (m3 s2) as [? s3|]; [|auto]. now destruct (m4 s3).
Qed.

Lemma wp_get_change_rel {A R : Type} (m1 : M S A) (m2 m3 : A -> M S unit) (k : M S R) Q s :
  wp (o ← m1; m2 o;; m3 o) (fun _ s' => wp k Q s') s -> wp (o ← m1; m2 o;; m3 o;; k) Q s.
Proof.
  with_strategy transparent [wp] unfold wp, mbind, M_bind.
  destruct (m1 s) as [a s1|]; [|auto]. destruct (m2 a s1) as [? s2|]; [|auto]. now destruct (m3 a s2).
Qed.
End Regroup.

Section Owner.
Context {E : Type} `{QuotaEnv E} `{!QuotaEnvLaws E}.
Implicit Types (s : kstate E) (a an : addr) (q : sam_quot) (ents : gmap addr sam_quot)
  (L : list addr) (C : chain_table) (held : gset addr) (o : option addr).

(** ** A record that may be held *)

Definition os o : gset addr := match o with Some a => {[a]} | None => ∅ end.

(** [o] is the locked record of the key, if there is one. *)
Definition holds s o (t i : Z) : Prop :=
  match o with Some a => exists q, rec_at s a = Some q /\ is_entry q t i = true | None => True end.

Lemma holds_frames held s s' o t i : frames held s s' -> os o ⊆ held -> holds s o t i -> holds s' o t i.
Proof.
  destruct o as [a|]; [|auto]. cbn. intros F Hs (q & Hq & He). exists q. split; [|exact He].
  unfold rec_at in *. rewrite (fm_held _ _ _ F) by set_solver. exact Hq.
Qed.

Lemma holds_not_holding s o t t' i i' : holds s o t i -> t <> t' -> not_holding (os o) s t' i'.
Proof.
  destruct o as [a|]; [|intros; intros b q Hb; set_solver].
  intros (q & Hq & (_ & Et & _)%is_entry_spec) Hne b qb Hb Hqb.
  unfold os in Hb. apply elem_of_singleton in Hb as ->.
  rewrite Hq in Hqb. injection Hqb as <-. destruct (is_entry q t' i') eqn:Ee; [|reflexivity].
  apply is_entry_spec in Ee as (_ & ? & _). congruence.
Qed.

(** The effect on a record that may be held. *)
Definition if_held o (f : Z * Z * Z * Z -> Z * Z * Z * Z) := if o is Some _ then f else fun u => u.

Lemma get_if_spec held s cond t i :
  cache_ok held s -> 0 <= t < SAM_QUOTA_DEFD -> not_holding held s t i ->
  wp (get_if cond t i) (fun o s' => cache_ok (os o ∪ held) s' /\ os o ## held /\ keeps held s s' /\
    holds s' o t i /\ (if o is Some _ then true else false) = cond && charged s None t i) s.
Proof.
  intros Hok Ht Hnh. unfold get_if. destruct cond; cbn [andb].
  - eapply wp_mono; [exact (get_spec held s None t i Hok Ht Logic.I Hnh)|].
    intros r s'. unfold get_post. destruct (charged s None t i).
    + intros (a & -> & [Hna Ho K _ _ (q & Hq & He & _)]). cbn.
      split; [exact Ho|]. split; [set_solver|]. split; [exact K|]. split; [eauto|reflexivity].
    + intros [-> [Ho K _ _]]. cbn. rewrite (left_id_L ∅ (∪)).
      split; [exact Ho|]. split; [set_solver|]. split; [exact K|]. split; [exact Logic.I|reflexivity].
  - apply wp_ret. cbn. rewrite (left_id_L ∅ (∪)). split; [exact Hok|]. split; [set_solver|].
    split; [reflexivity|]. split; [exact Logic.I|reflexivity].
Qed.

Lemma rel_opt_spec held s o t i :
  cache_ok (os o ∪ held) s -> os o ## held -> holds s o t i ->
  wp (rel_opt o) (fun _ s' => cache_ok held s' /\ keeps held s s') s.
Proof.
  destruct o as [a|]; cbn.
  - intros Hok Hd (q & Hq & (Hh & _)%is_entry_spec).
    eapply wp_mono; [apply (rel_spec ({[a]} ∪ held) s a q Hok); [set_solver|exact Hq|exact Hh]|].
    intros u s' (Ho & K & _). replace (({[a]} ∪ held) ∖ {[a]}) with held in * by set_solver. auto.
  - rewrite (left_id_L ∅ (∪)). intros Hok _ _. apply wp_ret. split; [exact Hok|reflexivity].
Qed.

(** A run that changes nothing but a locked record. *)
Lemma held_run_rec {A : Type} held s a q t i (m : M (kstate E) A) (P : A -> sam_quot -> Prop) :
  cache_ok ({[a]} ∪ held) s -> a ∉ held -> rec_at s a = Some q -> is_entry q t i = true ->
  (forall an ents L C, links s an ents L C -> ents !! a = Some q -> dquot_typed (qt_dent q) ->
     wp m (fun r s' => exists q', links s' an (<[a := q']> ents) L C /\ rest s' = rest s /\
       brk s' = brk s /\ placed q q' /\ dquot_typed (qt_dent q') /\
       (dirty q' = true \/ usage (qt_dent q') = usage (qt_dent q) /\ dirty q' = dirty q) /\
       P r q') s) ->
  wp m (fun r s' => cache_ok ({[a]} ∪ held) s' /\ frames held s s' /\
    exists q', rec_at s' a = Some q' /\ is_entry q' t i = true /\ P r q' /\ env s' = env s /\
      usage_step s s' (at_key t i (fun _ => usage (qt_dent q')))) s.
Proof.
  intros (Hul & an & ents & L & C & I) Hna Hrec He Hrun.
  pose proof (proj1 (is_entry_spec _ _ _) He) as (Hh & <- & <-).
  rewrite (inv_rec_at _ _ _ _ _ _ _ I) in Hrec.
  destruct (held_facts _ _ _ _ _ _ a _ I ltac:(set_solver) Hrec) as (Oa & _).
  eapply wp_mono; [apply (Hrun an ents L C (ci_links _ _ _ _ _ _ I) Hrec (eo_typed _ _ _ _ _ _ Oa))|].
  intros r s' (q' & Hl & Hr & Hb & Hp & Hty & Hd & HP).
  destruct (held_update held s s' an ents L C a q q' I Hul Hna Hrec Hh Hl Hr Hb Hp Hty Hd)
    as (I' & Hul' & Hfr & Hst).
  split; [split; [exact Hul'|eauto]|]. split; [exact Hfr|]. exists q'.
  rewrite (inv_rec_at _ _ _ _ _ _ _ I'), lookup_insert_eq. split; [reflexivity|].
  split; [|split; [exact HP|split; [apply (rest_proj _ _ Hr)|exact Hst]]].
  apply is_entry_spec. pose proof (fr_type _ _ Hp). pose proof (fr_index _ _ Hp).
  split; [|auto]. rewrite <- Hh. apply struct_flag; [exact Hp|reflexivity].
Qed.

Lemma held_run {A : Type} held s a q t i (m : M (kstate E) A) (P : A -> Z * Z * Z * Z -> Prop) :
  cache_ok ({[a]} ∪ held) s -> a ∉ held -> rec_at s a = Some q -> is_entry q t i = true ->
  (forall an ents L C, links s an ents L C -> ents !! a = Some q -> dquot_typed (qt_dent q) ->
     wp m (fun r s' => exists q', links s' an (<[a := q']> ents) L C /\ rest s' = rest s /\
       brk s' = brk s /\ placed q q' /\ dquot_typed (qt_dent q') /\
       (dirty q' = true \/ usage (qt_dent q') = usage (qt_dent q) /\ dirty q' = dirty q) /\
       P r (usage (qt_dent q'))) s) ->
  wp m (fun r s' => cache_ok ({[a]} ∪ held) s' /\ frames held s s' /\ holds s' (Some a) t i /\
    exists u', P r u' /\ usage_step s s' (at_key t i (fun _ => u'))) s.
Proof.
  intros Hok Hna Hrec He Hrun. eapply wp_mono.
  { now apply (held_run_rec held s a q t i m (fun r q' => P r (usage (qt_dent q')))). }
  intros r s' (Ho & F & q' & Hq' & He' & HP & _ & U). split; [exact Ho|]. split; [exact F|].
  split; [exists q'; auto|eauto].
Qed.

(** Two updates of one structure. *)
Lemma wp_mod_two a f g q s an ents L C (Q : unit -> kstate E -> Prop) :
  keeps_links f -> keeps_links g -> links s an ents L C -> ents !! a = Some q ->
  (forall s', links s' an (<[a := g (f q)]> ents) L C -> rest s' = rest s -> brk s' = brk s -> Q tt s') ->
  wp (mod_q a f;; mod_q a g) Q s.
Proof.
  intros Hf Hg Hl Hq HQ. apply wp_bind. eapply wp_mod_core; [exact Hf|exact Hl|exact Hq|].
  intros s1 Hl1 Hr1 Hb1. rewrite (alter_as_insert _ _ _ _ Hq) in Hl1.
  eapply wp_mod_core; [exact Hg|exact Hl1|apply lookup_insert_eq|]. intros s2 Hl2 Hr2 Hb2.
  rewrite (alter_as_insert _ _ _ (f q)), insert_insert_eq in Hl2 by apply lookup_insert_eq.
  apply HQ; [exact Hl2|congruence|congruence].
Qed.

Lemma placed_dent q f : placed q (upd_dent f q).
Proof. now constructor. Qed.

Lemma placed_dirty q f : placed q (or_flags SAM_QF_DIRTY (upd_dent f q)).
Proof.
  constructor; try reflexivity. cbn. rewrite Z.land_lor_distr_l. apply Z.lor_0_r.
Qed.

Lemma or_dirty q : dirty (or_flags SAM_QF_DIRTY q) = true.
Proof. unfold dirty. cbn. rewrite has_any_lor_l. apply orb_true_r. Qed.

(** The usage step of a record that is held, from its value to a function of it. *)
Lemma step_at_key held s s' a q t i f :
  cache_ok held s -> rec_at s a = Some q -> is_entry q t i = true ->
  usage_step s s' (at_key t i (fun _ => f (usage (qt_dent q)))) -> usage_step s s' (at_key t i f).
Proof.
  intros (_ & an & ents & L & C & I) Hrec (Hh & <- & <-)%is_entry_spec U t' i' Ht' Hi'.
  rewrite (inv_rec_at _ _ _ _ _ _ _ I) in Hrec. rewrite (U t' i' Ht' Hi'). unfold at_key.
  destruct (Z.eqb_spec t' (qt_type q)) as [->|]; [|reflexivity].
  destruct (Z.eqb_spec i' (qt_index q)) as [->|]; [|reflexivity]. cbn.
  now rewrite (usage_of_cached _ _ _ _ _ _ _ _ I Hrec Hh).
Qed.

Lemma step_same s s' t i : usage_step s s' (fun _ _ u => u) -> usage_step s s' (at_key t i (fun u => u)).
Proof. intros U t' i' Ht' Hi'. rewrite (U t' i' Ht' Hi'). unfold at_key. now destruct (_ && _). Qed.

Lemma step_of_value held s s' o t i (f : Z * Z * Z * Z -> Z * Z * Z * Z) a q :
  o = Some a -> cache_ok held s -> rec_at s a = Some q -> is_entry q t i = true ->
  (exists u', u' = f (usage (qt_dent q)) /\ usage_step s s' (at_key t i (fun _ => u'))) ->
  usage_step s s' (at_key t i (if_held o f)).
Proof. intros -> Hok Hq He (u' & -> & U). now apply (step_at_key held s s' a q t i f). Qed.

Lemma owner_in_spec held s o t i ndk ntp cr :
  cache_ok (os o ∪ held) s -> os o ## held -> holds s o t i ->
  wp (owner_in o ndk ntp cr) (fun refused s' => cache_ok (os o ∪ held) s' /\ frames held s s' /\
    holds s' o t i /\ (cr = 0 -> refused = false) /\
    usage_step s s' (at_key t i (if_held o (if (refused : bool) then fun u => u else own ndk ntp)))) s.
Proof.
  destruct o as [a|]; cbn [os owner_in].
  2:{ rewrite (left_id_L ∅ (∪)). intros Hok _ _. apply wp_ret. split; [exact Hok|]. split; [reflexivity|].
      split; [exact Logic.I|]. split; [reflexivity|]. apply step_same. intros t' i' _ _. reflexivity. }
  intros Hok Hd (q & Hq & He). eapply wp_mono.
  { eapply (held_run held s a q t i _ (fun r u' =>
      u' = (if (r : bool) then fun u => u else own ndk ntp) (usage (qt_dent q)) /\ (cr = 0 -> r = false)));
      [exact Hok|set_solver|exact Hq|exact He|].
    intros an ents L C Hl Ha Hty.
    pose proof (proj1 (owner_typed ndk ntp _ Hty)) as Hta.
    apply wp_bind. eapply wp_mod_core; [auto with qlinks|exact Hl|exact Ha|].
    intros s1 Hl1 Hr1 Hb1. rewrite (alter_as_insert _ _ _ _ Ha) in Hl1.
    destruct (links_heap _ _ _ _ _ a _ Hl1 ltac:(apply lookup_insert_eq)) as (q0 & Hq0 & Eq0).
    apply wp_bind; eapply wp_get_q; [exact Hq0|]. apply wp_bind, wp_gets.
    destruct (has_any _ hard_bits) eqn:Eh; apply wp_bind.
    - eapply wp_mod_core; [auto with qlinks|exact Hl1|apply lookup_insert_eq|]. intros s2 Hl2 Hr2 Hb2.
      rewrite (alter_as_insert _ _ _ _ (lookup_insert_eq _ _ _)), insert_insert_eq in Hl2.
      apply wp_ret. eexists. split; [exact Hl2|]. split; [congruence|]. split; [congruence|].
      split; [apply (placed_dent q (fun d => owner_sub ndk ntp (owner_add ndk ntp d)))|].
      assert (Hback : disown ndk ntp (own ndk ntp (usage (qt_dent q))) = usage (qt_dent q)).
      { apply disown_own. now apply dquot_typed_split in Hty as (_ & HU & _). }
      cbn [qt_dent upd_dent]. rewrite usage_owner_sub, usage_owner_add, Hback.
      split; [now apply owner_typed|]. split; [right; auto|]. split; [reflexivity|].
      intros ->. discriminate.
    - eapply wp_mod_core; [auto with qlinks|exact Hl1|apply lookup_insert_eq|]. intros s2 Hl2 Hr2 Hb2.
      rewrite (alter_as_insert _ _ _ _ (lookup_insert_eq _ _ _)), insert_insert_eq in Hl2.
      apply wp_ret. eexists. split; [exact Hl2|]. split; [congruence|]. split; [congruence|].
      split; [apply placed_dirty|]. split; [exact Hta|]. split; [left; apply or_dirty|]. auto. }
  intros r s' (Ho & F & Hh & u' & [Hu Hcr] & U). split; [exact Ho|]. split; [exact F|].
  split; [exact Hh|]. split; [exact Hcr|].
  eapply (step_of_value _ _ _ (Some a)); [reflexivity|exact Hok|exact Hq|exact He|eauto].
Qed.

(** Changing the counts of a held record and marking it dirty. *)
Lemma dirty_change_spec held s a t i (f : sam_dquot -> sam_dquot) g :
  (forall d, dquot_typed d -> dquot_typed (f d)) -> (forall d, usage (f d) = g (usage d)) ->
  cache_ok ({[a]} ∪ held) s -> a ∉ held -> holds s (Some a) t i ->
  wp (mod_q a (upd_dent f);; mod_q a (or_flags SAM_QF_DIRTY)) (fun _ s' =>
    cache_ok ({[a]} ∪ held) s' /\ frames held s s' /\ holds s' (Some a) t i /\
    usage_step s s' (at_key t i g)) s.
Proof.
  intros Hf Hg Hok Hna (q & Hq & He). eapply wp_mono.
  { eapply (held_run held s a q t i _ (fun _ u' => u' = g (usage (qt_dent q))));
      [exact Hok|exact Hna|exact Hq|exact He|]. intros an ents L C Hl Ha Hty.
    eapply wp_mod_two; [auto with qlinks|auto with qlinks|exact Hl|exact Ha|]. intros s' Hl' Hr Hb.
    eexists. split; [exact Hl'|]. split; [exact Hr|]. split; [exact Hb|].
    split; [apply placed_dirty|]. split; [now apply Hf|]. split; [left; apply or_dirty|]. apply Hg. }
  intros r s' (Ho & F & Hh & Hu). split; [exact Ho|]. split; [exact F|]. split; [exact Hh|].
  eapply (step_of_value _ _ _ (Some a)); [reflexivity|exact Hok|exact Hq|exact He|exact Hu].
Qed.

Lemma opt_change_spec held s o t i (f : sam_dquot -> sam_dquot) g :
  (forall d, dquot_typed d -> dquot_typed (f d)) -> (forall d, usage (f d) = g (usage d)) ->
  cache_ok (os o ∪ held) s -> os o ## held -> holds s o t i ->
  wp (match o with
      | None => mret tt
      | Some a => mod_q a (upd_dent f);; mod_q a (or_flags SAM_QF_DIRTY)
      end) (fun _ s' =>
    cache_ok (os o ∪ held) s' /\ frames held s s' /\ holds s' o t i /\
    usage_step s s' (at_key t i (if_held o g))) s.
Proof.
  intros Hf Hg Hok Hd Hh. destruct o as [a|]; cbn [os] in *.
  - apply dirty_change_spec; auto. set_solver.
  - apply wp_ret. split; [exact Hok|]. split; [reflexivity|]. split; [exact Logic.I|]. apply step_same. intros t' i' _ _. reflexivity.
Qed.

Lemma usage_step_trans s1 s2 s3 f g :
  usage_step s1 s2 f -> usage_step s2 s3 g -> usage_step s1 s3 (fun t i u => g t i (f t i u)).
Proof. intros U1 U2 t i Ht Hi. now rewrite (U2 t i Ht Hi), (U1 t i Ht Hi). Qed.

(** The record of a key is got, changed and released. *)
Lemma old_owner_spec s cond t i ndk ntp :
  cache_ok ∅ s -> 0 <= t < SAM_QUOTA_DEFD ->
  wp (old_owner cond t i ndk ntp) (fun _ s' => cache_ok ∅ s' /\ frames ∅ s s' /\
    usage_step s s' (at_key t i (if cond && charged s None t i then disown ndk ntp else fun u => u))) s.
Proof.
  intros Hok Ht. unfold old_owner. apply wp_bind. eapply wp_mono.
  { apply (get_if_spec ∅ s cond t i Hok Ht). apply not_holding_empty. }
  intros o s1 (Ho1 & Hd1 & K1 & Hh1 & <-). apply wp_bind. unfold owner_out. eapply wp_mono.
  { apply (opt_change_spec ∅ s1 o t i (owner_sub ndk ntp) (disown ndk ntp)); auto.
    intros d Hty. now apply owner_typed. }
  intros u s2 (Ho2 & F2 & Hh2 & U2). eapply wp_mono; [now apply (rel_opt_spec ∅ s2 o t i)|].
  intros u' s3 (Ho3 & K3). split; [exact Ho3|].
  split; [transitivity s1; [now apply keeps_frames|]; transitivity s2; [exact F2|now apply keeps_frames]|].
  pose proof (usage_step_trans _ _ _ _ _ (keeps_step _ _ _ K1)
    (usage_step_trans _ _ _ _ _ U2 (keeps_step _ _ _ K3))) as U.
  eapply usage_step_ext; [|exact U]. intros t' i' u0 _ _. destruct o; reflexivity.
Qed.

(** ** [sam_quota_chown] *)

Lemma holds_keeps held s s' o t i : keeps held s s' -> os o ⊆ held -> holds s o t i -> holds s' o t i.
Proof. intros K. apply holds_frames. now apply keeps_frames. Qed.

(** The two new records, got one after the other. *)
Lemma get_two_spec s newu newg uid gid :
  cache_ok ∅ s ->
  wp (u ← get_if newu SAM_QUOTA_USER uid; g ← get_if newg SAM_QUOTA_GROUP gid; mret (u, g))
    (fun r s' => cache_ok (os (fst r) ∪ os (snd r)) s' /\ os (fst r) ## os (snd r) /\ keeps ∅ s s' /\
      holds s' (fst r) SAM_QUOTA_USER uid /\ holds s' (snd r) SAM_QUOTA_GROUP gid /\
      (if fst r is Some _ then true else false) = newu && charged s None SAM_QUOTA_USER uid /\
      (if snd r is Some _ then true else false) = newg && charged s None SAM_QUOTA_GROUP gid) s.
Proof.
  intros Hok. apply wp_bind. eapply wp_mono.
  { apply (get_if_spec ∅ s newu SAM_QUOTA_USER uid Hok); [split; vm_compute; congruence|apply not_holding_empty]. }
  intros u s1 (Ho1 & _ & K1 & Hh1 & E1). rewrite (right_id_L ∅ (∪)) in Ho1. apply wp_bind. eapply wp_mono.
  { apply (get_if_spec (os u) s1 newg SAM_QUOTA_GROUP gid Ho1); [split; vm_compute; congruence|].
    eapply holds_not_holding; [exact Hh1|discriminate]. }
  intros g s2 (Ho2 & Hd2 & K2 & Hh2 & E2). apply wp_ret. cbn [fst snd].
  split; [now rewrite (comm_L (∪))|]. split; [set_solver|].
  split; [etransitivity; [exact K1|eapply keeps_weaken; [|exact K2]; set_solver]|].
  split; [eapply holds_keeps; [exact K2|reflexivity|exact Hh1]|]. split; [exact Hh2|]. split; [exact E1|].
  rewrite E2. f_equal. cbn. now rewrite (quota_ip_eq _ _ _ (kp_files _ _ _ K1)).
Qed.

(** Releasing both, the group's first. *)
Lemma rel_two_spec s u g uid gid :
  cache_ok (os u ∪ os g) s -> os u ## os g -> holds s u SAM_QUOTA_USER uid ->
  holds s g SAM_QUOTA_GROUP gid ->
  wp (rel_opt g;; rel_opt u) (fun _ s' => cache_ok ∅ s' /\ keeps ∅ s s') s.
Proof.
  intros Hok Hd Hu Hg. apply wp_bind. eapply wp_mono.
  { apply (rel_opt_spec (os u) s g SAM_QUOTA_GROUP gid); [now rewrite (comm_L (∪))|set_solver|exact Hg]. }
  intros r s1 (Ho1 & K1). eapply wp_mono.
  { apply (rel_opt_spec ∅ s1 u SAM_QUOTA_USER uid);
      [now rewrite (right_id_L ∅ (∪))|set_solver|eapply holds_keeps; eauto]. }
  intros r' s2 (Ho2 & K2). split; [exact Ho2|]. etransitivity; [|exact K2].
  eapply keeps_weaken; [|exact K1]. set_solver.
Qed.

(** A file moved from one record to another: added to the new one, then taken off
    the old one. *)
Definition owner_moved (from to ndk ntp i : Z) (u : Z * Z * Z * Z) : Z * Z * Z * Z :=
  let u := if i =? to then own ndk ntp u else u in
  if i =? from then disown ndk ntp u else u.

Definition chown_effect s (n : sam_node) (uid gid t i : Z) u :=
  if bool_decide (quota_ip s t = None) then u
  else if (t =? SAM_QUOTA_USER) && negb (di_uid n =? uid) then
    owner_moved (s32 (di_uid n)) (s32 uid) (D2QBLKS (di_blocks n)) (TOTBLKS n) i u
  else if (t =? SAM_QUOTA_GROUP) && negb (di_gid n =? gid) then
    owner_moved (s32 (di_gid n)) (s32 gid) (D2QBLKS (di_blocks n)) (TOTBLKS n) i u
  else u.

Ltac case_keys i x y :=
  let E1 := fresh in let E2 := fresh in
  destruct (Z.eqb_spec i x) as [E1|E1], (Z.eqb_spec i y) as [E2|E2];
  rewrite ?(proj2 (Z.leb_le 0 x)) by lia; rewrite ?(proj2 (Z.leb_le 0 y)) by lia.

(** The four steps of the usage together. *)
Lemma chown_steps s (newu newg : bool) uid gid ouid ogid ndk ntp (u g : option addr) s' s'' t i us :
  (if u is Some _ then true else false) = newu && charged s None SAM_QUOTA_USER uid ->
  (if g is Some _ then true else false) = newg && charged s None SAM_QUOTA_GROUP gid ->
  (forall t, quota_ip s' t = quota_ip s t) -> (forall t, quota_ip s'' t = quota_ip s t) -> 0 <= i ->
  at_key SAM_QUOTA_GROUP ogid
    (if newg && charged s'' None SAM_QUOTA_GROUP ogid then disown ndk ntp else fun u => u) t i
    (at_key SAM_QUOTA_USER ouid
      (if newu && charged s' None SAM_QUOTA_USER ouid then disown ndk ntp else fun u => u) t i
      (at_key SAM_QUOTA_GROUP gid (if_held g (own ndk ntp)) t i
        (at_key SAM_QUOTA_USER uid (if_held u (own ndk ntp)) t i us))) =
  if bool_decide (quota_ip s t = None) then us
  else if (t =? SAM_QUOTA_USER) && newu then owner_moved ouid uid ndk ntp i us
  else if (t =? SAM_QUOTA_GROUP) && newg then owner_moved ogid gid ndk ntp i us
  else us.
Proof.
  intros Eu Eg Q1 Q2 Hi. cbn [charged] in *. rewrite Q1, Q2.
  assert (Hu : if_held u (own ndk ntp) = if newu && ((0 <=? uid) &&
    negb (bool_decide (quota_ip s SAM_QUOTA_USER = None))) then own ndk ntp else fun u => u)
    by (rewrite <- Eu; now destruct u).
  assert (Hg : if_held g (own ndk ntp) = if newg && ((0 <=? gid) &&
    negb (bool_decide (quota_ip s SAM_QUOTA_GROUP = None))) then own ndk ntp else fun u => u)
    by (rewrite <- Eg; now destruct g).
  rewrite Hu, Hg. clear Hu Hg Eu Eg. unfold at_key, owner_moved.
  destruct (Z.eqb_spec t SAM_QUOTA_USER) as [->|Hnu]; cbn [andb].
  - change (SAM_QUOTA_USER =? SAM_QUOTA_GROUP) with false. cbn [andb].
    destruct (bool_decide (quota_ip s SAM_QUOTA_USER = None)), newu; cbn [negb andb];
      rewrite ?andb_false_r, ?andb_true_r; case_keys i uid ouid; reflexivity.
  - destruct (Z.eqb_spec t SAM_QUOTA_GROUP) as [->|Hng]; cbn [andb];
      [|now destruct (bool_decide _)].
    destruct (bool_decide (quota_ip s SAM_QUOTA_GROUP = None)), newg; cbn [negb andb];
      rewrite ?andb_false_r, ?andb_true_r; case_keys i gid ogid; reflexivity.
Qed.

Definition unchanged s s' : Prop := usage_step s s' (fun _ _ u => u).

Lemma unchanged_refl s : unchanged s s.
Proof. intros t i _ _. reflexivity. Qed.

Lemma at_key_same t i o t' i' u : at_key t i (if_held o (fun u => u)) t' i' u = u.
Proof. unfold at_key. now destruct o, (_ && _). Qed.

(** Both records held. *)
Record both_held s u g (uid gid : Z) : Prop := mk_both {
  bh_ok : cache_ok (os u ∪ os g) s;
  bh_disj : os u ## os g;
  bh_user : holds s u SAM_QUOTA_USER uid;
  bh_group : holds s g SAM_QUOTA_GROUP gid
}.

Lemma rel_both_spec s u g uid gid :
  both_held s u g uid gid ->
  wp (rel_opt g;; rel_opt u) (fun _ s' => cache_ok ∅ s' /\ keeps ∅ s s') s.
Proof. intros []. now apply (rel_two_spec s u g uid gid). Qed.

Lemma both_user s u g uid gid ndk ntp cr :
  both_held s u g uid gid ->
  wp (owner_in u ndk ntp cr) (fun r s' => both_held s' u g uid gid /\ frames ∅ s s' /\
    (cr = 0 -> r = false) /\
    usage_step s s' (at_key SAM_QUOTA_USER uid (if_held u (if (r : bool) then fun u => u else own ndk ntp)))) s.
Proof.
  intros [Ho Hd Hu Hg]. eapply wp_mono; [now apply (owner_in_spec (os g) s u SAM_QUOTA_USER uid)|].
  intros r s' (Ho' & F & Hu' & Hcr & U). split; [|split; [eapply frames_weaken; [|exact F]; set_solver|auto]].
  constructor; auto. eapply holds_frames; [exact F|reflexivity|exact Hg].
Qed.

Lemma both_group s u g uid gid ndk ntp cr :
  both_held s u g uid gid ->
  wp (owner_in g ndk ntp cr) (fun r s' => both_held s' u g uid gid /\ frames ∅ s s' /\
    (cr = 0 -> r = false) /\
    usage_step s s' (at_key SAM_QUOTA_GROUP gid (if_held g (if (r : bool) then fun u => u else own ndk ntp)))) s.
Proof.
  intros [Ho Hd Hu Hg]. rewrite (comm_L (∪)) in Ho.
  eapply wp_mono; [now apply (owner_in_spec (os u) s g SAM_QUOTA_GROUP gid)|].
  intros r s' (Ho' & F & Hg' & Hcr & U). split; [|split; [eapply frames_weaken; [|exact F]; set_solver|auto]].
  constructor; auto; [now rewrite (comm_L (∪))|]. eapply holds_frames; [exact F|reflexivity|exact Hu].
Qed.

(** The user's record is given back after a refusal of the group's. *)
Lemma back_out_spec s u g uid gid ndk ntp :
  both_held s u g uid gid ->
  wp (rel_opt g;; owner_out u ndk ntp;; rel_opt u) (fun _ s' => cache_ok ∅ s' /\ frames ∅ s s' /\
    usage_step s s' (at_key SAM_QUOTA_USER uid (if_held u (disown ndk ntp)))) s.
Proof.
  intros [Ho Hd Hu Hg]. apply wp_bind. eapply wp_mono.
  { apply (rel_opt_spec (os u) s g SAM_QUOTA_GROUP gid); [now rewrite (comm_L (∪))|set_solver|exact Hg]. }
  intros r s1 (Ho1 & K1). apply wp_bind. unfold owner_out. eapply wp_mono.
  { apply (opt_change_spec ∅ s1 u SAM_QUOTA_USER uid (owner_sub ndk ntp) (disown ndk ntp));
      [intros d Hd'; now apply owner_typed|reflexivity|now rewrite (right_id_L ∅ (∪))|set_solver|].
    eapply holds_keeps; [exact K1|reflexivity|exact Hu]. }
  intros r' s2 (Ho2 & F2 & Hu2 & U2).
  eapply wp_mono; [apply (rel_opt_spec ∅ s2 u SAM_QUOTA_USER uid Ho2); [set_solver|exact Hu2]|].
  intros r'' s3 (Ho3 & K3). split; [exact Ho3|]. split.
  - transitivity s1; [apply keeps_frames; eapply keeps_weaken; [|exact K1]; set_solver|].
    transitivity s2; [exact F2|now apply keeps_frames].
  - exact (usage_step_trans _ _ _ _ _ (keeps_step _ _ _ K1)
      (usage_step_trans _ _ _ _ _ U2 (keeps_step _ _ _ K3))).
Qed.

(** Both are released and the old records credited. *)
Lemma credit_old_spec s u g uid gid (newu newg : bool) ouid ogid ndk ntp :
  both_held s u g uid gid ->
  wp (rel_opt g;; rel_opt u;; old_owner newu SAM_QUOTA_USER ouid ndk ntp;;
      old_owner newg SAM_QUOTA_GROUP ogid ndk ntp)
    (fun _ s' => cache_ok ∅ s' /\ frames ∅ s s' /\
      exists s1 s2, frames ∅ s s1 /\ frames ∅ s s2 /\ usage_step s s' (fun t i us =>
        at_key SAM_QUOTA_GROUP ogid
          (if newg && charged s2 None SAM_QUOTA_GROUP ogid then disown ndk ntp else fun u => u) t i
          (at_key SAM_QUOTA_USER ouid
            (if newu && charged s1 None SAM_QUOTA_USER ouid then disown ndk ntp else fun u => u) t i us))) s.
Proof.
  intros Hb. apply wp_assoc. eapply wp_mono; [eapply rel_both_spec; exact Hb|].
  intros r s1 (Ho1 & K1). apply wp_bind. eapply wp_mono.
  { apply (old_owner_spec s1 newu SAM_QUOTA_USER ouid ndk ntp Ho1). split; vm_compute; congruence. }
  intros r' s2 (Ho2 & F2 & U2). eapply wp_mono.
  { apply (old_owner_spec s2 newg SAM_QUOTA_GROUP ogid ndk ntp Ho2). split; vm_compute; congruence. }
  intros r'' s3 (Ho3 & F3 & U3). apply keeps_frames in K1 as F1. split; [exact Ho3|].
  split; [transitivity s2; [transitivity s1; assumption|exact F3]|]. exists s1, s2.
  split; [exact F1|]. split; [transitivity s1; assumption|].
  exact (usage_step_trans _ _ _ _ _ (keeps_step _ _ _ K1) (usage_step_trans _ _ _ _ _ U2 U3)).
Qed.

(** From the two new records on: both are charged and the old ones credited, or
    the refusal is undone. *)
Lemma chown_body_spec s newu newg uid gid ouid ogid ndk ntp cr :
  cache_ok ∅ s ->
  wp (uquot ← get_if newu SAM_QUOTA_USER uid;
      gquot ← get_if newg SAM_QUOTA_GROUP gid;
      ur ← owner_in uquot ndk ntp cr;
      if (ur : bool) then rel_opt gquot;; rel_opt uquot;; mret EDQUOT
      else
        gr ← owner_in gquot ndk ntp cr;
        if (gr : bool) then
          rel_opt gquot;; owner_out uquot ndk ntp;; rel_opt uquot;; mret EDQUOT
        else
          rel_opt gquot;; rel_opt uquot;;
          old_owner newu SAM_QUOTA_USER ouid ndk ntp;;
          old_owner newg SAM_QUOTA_GROUP ogid ndk ntp;;
          mret 0)
    (fun err s' => cache_ok ∅ s' /\ frames ∅ s s' /\
      (err = 0 /\ usage_step s s' (fun t i u =>
         if bool_decide (quota_ip s t = None) then u
         else if (t =? SAM_QUOTA_USER) && newu then owner_moved ouid uid ndk ntp i u
         else if (t =? SAM_QUOTA_GROUP) && newg then owner_moved ogid gid ndk ntp i u
         else u) \/
       err = EDQUOT /\ cr <> 0 /\ unchanged s s')) s.
Proof.
  intros Hok. eapply wp_two; [now apply (get_two_spec s newu newg uid gid)|].
  intros u g s2 (Ho2 & Hd & K2 & Hu2 & Hg2 & Eu & Eg). cbn [fst snd] in *.
  pose proof (mk_both _ _ _ _ _ Ho2 Hd Hu2 Hg2) as B2. apply keeps_frames in K2 as F2.
  apply wp_bind. eapply wp_mono; [now apply (both_user s2 u g uid gid ndk ntp cr)|].
  intros ur s3 (B3 & F3 & Hcr3 & U3). pose proof (usage_step_trans _ _ _ _ _ (keeps_step _ _ _ K2) U3) as U03.
  assert (F03 : frames ∅ s s3) by (transitivity s2; assumption). destruct ur.
  { apply wp_assoc. eapply wp_mono; [eapply rel_both_spec; exact B3|].
    intros r s4 (Ho4 & K4). apply wp_ret. split; [exact Ho4|].
    split; [transitivity s3; [exact F03|now apply keeps_frames]|]. right. split; [reflexivity|].
    split; [intros Hc; specialize (Hcr3 Hc); discriminate|].
    eapply usage_step_ext; [|exact (usage_step_trans _ _ _ _ _ U03 (keeps_step _ _ _ K4))].
    intros. apply at_key_same. }
  apply wp_bind. eapply wp_mono; [now apply (both_group s3 u g uid gid ndk ntp cr)|].
  intros gr s4 (B4 & F4 & Hcr4 & U4). pose proof (usage_step_trans _ _ _ _ _ U03 U4) as U04.
  assert (F04 : frames ∅ s s4) by (transitivity s3; assumption). destruct gr.
  - apply (wp_seq3 (rel_opt g) (owner_out u ndk ntp) (rel_opt u)).
    eapply wp_mono; [eapply back_out_spec; exact B4|].
    intros r s5 (Ho5 & F5 & U5). apply wp_ret. split; [exact Ho5|]. split; [transitivity s4; assumption|].
    right. split; [reflexivity|]. split; [intros Hc; specialize (Hcr4 Hc); discriminate|].
    intros t i Ht Hi. rewrite (usage_step_trans _ _ _ _ _ U04 U5 t i Ht Hi), at_key_same.
    unfold at_key. destruct ((t =? _) && _); [|reflexivity].
    destruct u; [|reflexivity]. apply disown_own. eapply usage_of_range. exact Hok.
  - apply (wp_seq4 (rel_opt g) (rel_opt u) (old_owner newu SAM_QUOTA_USER ouid ndk ntp)
      (old_owner newg SAM_QUOTA_GROUP ogid ndk ntp)).
    eapply wp_mono; [now apply (credit_old_spec s4 u g uid gid newu newg ouid ogid ndk ntp)|].
    intros r s5 (Ho5 & F5 & sa & sb & Fa & Fb & U5). apply wp_ret. split; [exact Ho5|].
    split; [transitivity s4; assumption|]. left. split; [reflexivity|].
    eapply usage_step_ext; [|exact (usage_step_trans _ _ _ _ _ U04 U5)]. intros t i us _ Hi. cbn beta.
    apply (chown_steps s newu newg uid gid ouid ogid ndk ntp u g sa sb t i us); auto; intros t';
      apply quota_ip_eq, (fm_files ∅); transitivity s4; assumption.
Qed.

Lemma chown_effect_none s n uid gid t i u :
  (forall t', t' = SAM_QUOTA_USER /\ di_uid n <> uid \/ t' = SAM_QUOTA_GROUP /\ di_gid n <> gid ->
     quota_ip s t' = None) ->
  chown_effect s n uid gid t i u = u.
Proof.
  intros Hn. unfold chown_effect. destruct (bool_decide (quota_ip s t = None)) eqn:Eq; [reflexivity|].
  apply bool_decide_eq_false in Eq.
  destruct (Z.eqb_spec t SAM_QUOTA_USER) as [->|]; cbn [andb].
  - destruct (Z.eqb_spec (di_uid n) uid) as [|Hne]; cbn [negb]; [reflexivity|].
    destruct Eq. apply Hn. left. auto.
  - destruct (Z.eqb_spec t SAM_QUOTA_GROUP) as [->|]; cbn [andb]; [|reflexivity].
    destruct (Z.eqb_spec (di_gid n) gid) as [|Hne]; cbn [negb]; [reflexivity|].
    destruct Eq. apply Hn. right. auto.
Qed.

(** C36. Changing the owner of a file moves it: with quotas on, one file and its
    blocks are added to the record of the new user (and of the new group) and taken
    off the record of the old one, or EDQUOT is returned and no usage has changed,
    a new user that was charged before the new group was refused having been given
    back; the superuser is never refused. EBUSY is returned, and nothing is done,
    for an active quota file of the type that would change. The run completes
    without a fault and keeps the cache consistent. Reads and writes of the quota
    files succeed. *)
Theorem sam_quota_chown_moves s ip n uid gid cr :
  cache_ok ∅ s -> nodes s !! ip = Some n -> quota_on s = true ->
  wp (sam_quota_chown ip uid gid cr) (fun err s' => cache_ok ∅ s' /\ frames ∅ s s' /\
    (err = 0 /\ usage_step s s' (chown_effect s n uid gid) \/
     err = EDQUOT /\ cr <> 0 /\ unchanged s s' \/
     err = EBUSY /\ sam_is_quota_inode s ip = true /\ s' = s)) s.
Proof.
  intros Hok Hn Hon. unfold sam_quota_chown. apply wp_bind, wp_gets. rewrite Hon. cbn [negb].
  apply wp_bind; eapply wp_get_node; [exact Hn|].
  assert (Hnop : (forall t', t' = SAM_QUOTA_USER /\ di_uid n <> uid \/ t' = SAM_QUOTA_GROUP /\ di_gid n <> gid ->
     quota_ip s t' = None) -> forall P : Prop, cache_ok ∅ s /\ frames ∅ s s /\
    (0 = 0 /\ usage_step s s (chown_effect s n uid gid) \/ P)).
  { intros Hno P. split; [exact Hok|]. split; [reflexivity|]. left. split; [reflexivity|].
    intros t i _ _. symmetry. now apply chown_effect_none. }
  assert (Hbusy : forall t, t ∈ quota_kinds -> quota_ip s t = Some ip -> sam_is_quota_inode s ip = true).
  { intros t Ht Hq. apply existsb_exists. exists t. split; [now apply list_elem_of_In|].
    now rewrite bool_decide_eq_true_2. }
  destruct (negb (negb (di_uid n =? uid)) && negb (negb (di_gid n =? gid))) eqn:Esame.
  { apply wp_ret, Hnop. rewrite !negb_involutive, andb_true_iff, !Z.eqb_eq in Esame. intuition congruence. }
  clear Esame. apply wp_bind, wp_gets, wp_bind, wp_gets.
  destruct (bool_decide (quota_ip s SAM_QUOTA_USER = None) && _) eqn:Enone.
  { apply wp_ret, Hnop. rewrite andb_true_iff, !bool_decide_eq_true in Enone.
    intros t' [[-> _]|[-> _]]; apply Enone. }
  clear Enone Hnop. destruct (negb (di_uid n =? uid) && bool_decide _) eqn:Eu.
  { apply wp_ret. split; [exact Hok|]. split; [reflexivity|]. right; right. split; [reflexivity|].
    split; [|reflexivity]. rewrite andb_true_iff, bool_decide_eq_true in Eu. eapply Hbusy; [|apply Eu]. set_solver. }
  destruct (negb (di_gid n =? gid) && bool_decide _) eqn:Eg.
  { apply wp_ret. split; [exact Hok|]. split; [reflexivity|]. right; right. split; [reflexivity|].
    split; [|reflexivity]. rewrite andb_true_iff, bool_decide_eq_true in Eg. eapply Hbusy; [|apply Eg]. set_solver. }
  clear Eu Eg Hbusy. apply wp_bind. eapply wp_mono; [now apply (inode_fini_spec s ip n)|].
  intros u s1 (Ho1 & K1 & _). apply keeps_frames in K1 as F1.
  eapply wp_mono; [apply chown_body_spec; exact Ho1|].
  intros err s2 (Ho2 & F2 & Hr). split; [exact Ho2|]. split; [transitivity s1; assumption|].
  pose proof (keeps_step _ _ _ K1) as U1.
  destruct Hr as [[-> U2]|(-> & Hc & U2)]; [left|right; left].
  - split; [reflexivity|]. eapply usage_step_ext; [|exact (usage_step_trans _ _ _ _ _ U1 U2)].
    intros t i us _ _. unfold chown_effect. now rewrite (quota_ip_eq _ _ _ (fm_files _ _ _ F1)).
  - split; [reflexivity|]. split; [exact Hc|]. exact (usage_step_trans _ _ _ _ _ U1 U2).
Qed.

(** ** [sam_set_aid] *)

(** Fields of an inode other than its pointers. *)
Lemma inv_node_fields held s an ents L C ip n (f : sam_node -> sam_node) :
  cache_inv held s an ents L C -> nodes s !! ip = Some n -> bquota (f n) = bquota n ->
  (forall t a, 0 <= t < SAM_QUOTA_DEFD -> bq n t = QP a -> index_di (f n) t = index_di n t) ->
  cache_inv held (upd_nodes (alter f ip) s) an ents L C.
Proof.
  intros I Hn Hb Hix. set (s' := upd_nodes (alter f ip) s).
  assert (Hbq : forall t, bq (f n) t = bq n t) by (intros; unfold bq; now rewrite Hb).
  assert (Hns : nodes s' = <[ip := f n]> (nodes s)).
  { apply map_eq. intros b. unfold s'. cbn. destruct (decide (ip = b)) as [->|Hne].
    - now rewrite lookup_alter_eq, lookup_insert_eq, Hn.
    - now rewrite lookup_alter_ne, lookup_insert_ne. }
  assert (Hrefs : forall t a, refs (nodes s') t a = refs (nodes s) t a).
  { intros t a. rewrite Hns, (refs_insert _ _ _ _ n (f n) Hn), Hbq. lia. }
  destruct I as [Hl Ha He Hu Hf Hh Hc Hnd Hfi Hcl]. constructor; try assumption.
  - intros a q Hq Hne. destruct (He a q Hq Hne). constructor; try assumption.
    intros Hha. rewrite Hrefs. auto.
  - destruct Hnd as [Hsz Hnd]. unfold nodes_ok. rewrite Hns. split; [now rewrite map_size_insert_Some by eauto|].
    intros ip' n' [[<- <-]|[Hne Hin]]%lookup_insert_Some; [|now apply (Hnd ip')].
    destruct (Hnd ip n Hn) as [Hlen Hp]. rewrite Hb. split; [exact Hlen|].
    intros t a Ht. rewrite Hbq. intros Hq. destruct (Hp t a Ht Hq) as (q & Hq0 & Hh0 & Et & Ei).
    exists q. rewrite (Hix t a Ht Hq). auto.
Qed.

Lemma upd_fields_spec s ip n (f : sam_node -> sam_node) :
  cache_ok ∅ s -> nodes s !! ip = Some n -> bquota (f n) = bquota n ->
  (forall t a, 0 <= t < SAM_QUOTA_DEFD -> bq n t = QP a -> index_di (f n) t = index_di n t) ->
  wp (upd_node ip f) (fun _ s' => cache_ok ∅ s' /\ unchanged s s' /\ nodes s' !! ip = Some (f n)) s.
Proof.
  intros (Hul & an & ents & L & C & I) Hn Hb Hix.
  with_strategy transparent [wp] unfold wp, upd_node. rewrite Hn.
  split; [split; [exact Hul|exists an, ents, L, C; now apply inv_node_fields with n]|].
  split; [intros t i _ _; reflexivity|]. cbn. now rewrite lookup_alter_eq, Hn.
Qed.

Definition aid_effect s (n : sam_node) (aid t i : Z) u :=
  if (t =? SAM_QUOTA_ADMIN) && negb (bool_decide (quota_ip s SAM_QUOTA_ADMIN = None))
  then owner_moved (di_admin_id n) aid (D2QBLKS (di_blocks n)) (TOTBLKS n) i u else u.

Lemma add_owner_spec s t i ndk ntp :
  cache_ok ∅ s -> 0 <= t < SAM_QUOTA_DEFD ->
  wp (o ← sam_quot_get None t i; owner_add_untested o ndk ntp;; rel_opt o) (fun _ s' =>
    cache_ok ∅ s' /\ frames ∅ s s' /\
    usage_step s s' (at_key t i (if charged s None t i then own ndk ntp else fun u => u))) s.
Proof.
  intros Hok Ht. apply wp_bind. change (sam_quot_get None t i) with (get_if true t i). eapply wp_mono.
  { apply (get_if_spec ∅ s true t i Hok Ht). apply not_holding_empty. }
  intros o s1 (Ho1 & Hd1 & K1 & Hh1 & Eo). cbn [andb] in Eo. rewrite <- Eo.
  apply wp_bind. unfold owner_add_untested. eapply wp_mono.
  { apply (opt_change_spec ∅ s1 o t i (owner_add ndk ntp) (own ndk ntp)); auto.
    intros d Hty. exact (proj1 (owner_typed ndk ntp d Hty)). }
  intros u s2 (Ho2 & F2 & Hh2 & U2). eapply wp_mono; [now apply (rel_opt_spec ∅ s2 o t i)|].
  intros u' s3 (Ho3 & K3). split; [exact Ho3|].
  split; [transitivity s1; [now apply keeps_frames|]; transitivity s2; [exact F2|now apply keeps_frames]|].
  pose proof (usage_step_trans _ _ _ _ _ (keeps_step _ _ _ K1)
    (usage_step_trans _ _ _ _ _ U2 (keeps_step _ _ _ K3))) as U.
  eapply usage_step_ext; [|exact U]. intros t' i' u0 _ _. destruct o; reflexivity.
Qed.

(** The quota part of [sam_set_aid]. *)
Lemma set_aid_quota_spec s ip n aid :
  cache_ok ∅ s -> nodes s !! ip = Some n -> quota_ip s SAM_QUOTA_ADMIN <> None ->
  wp (sam_quota_inode_fini ip;;
      n ← get_node ip;
      let ndkblks := D2QBLKS (di_blocks n) in
      let ntpblks := TOTBLKS n in
      aquot ← sam_quot_get None SAM_QUOTA_ADMIN aid;
      owner_add_untested aquot ndkblks ntpblks;;
      rel_opt aquot;;
      old_owner true SAM_QUOTA_ADMIN (di_admin_id n) ndkblks ntpblks)
    (fun _ s' => cache_ok ∅ s' /\ usage_step s s' (aid_effect s n aid) /\
      exists n', nodes s' !! ip = Some n' /\ set_bquota [] n' = set_bquota [] n /\
        forall a, bq n' SAM_QUOTA_ADMIN <> QP a) s.
Proof.
  intros Hok Hn Hq. assert (Ht : 0 <= SAM_QUOTA_ADMIN < SAM_QUOTA_DEFD) by (split; vm_compute; congruence).
  apply wp_bind. eapply wp_mono; [now apply (inode_fini_spec s ip n)|].
  intros u s1 (Ho1 & K1 & n1 & Hn1 & Hp1). apply keeps_frames in K1 as F1.
  destruct (frames_node _ _ _ _ _ F1 Hn) as (n1' & Hn1' & Es1 & _). rewrite Hn1 in Hn1'. injection Hn1' as <-.
  apply wp_bind; eapply wp_get_node; [exact Hn1|]. cbv zeta.
  assert (Ef : di_blocks n1 = di_blocks n /\ TOTBLKS n1 = TOTBLKS n /\ di_admin_id n1 = di_admin_id n).
  { unfold TOTBLKS. pose proof (f_equal di_blocks Es1). pose proof (f_equal offline Es1).
    pose proof (f_equal di_rm_size Es1). pose proof (f_equal di_admin_id Es1). cbn in *.
    split; [assumption|]. split; [|assumption]. destruct (offline n1), (offline n); congruence. }
  destruct Ef as (-> & -> & ->). set (ndk := D2QBLKS _). set (ntp := TOTBLKS n).
  pose proof (add_owner_spec s1 SAM_QUOTA_ADMIN aid ndk ntp Ho1 Ht) as Hadd.
  apply wp_get_change_rel. eapply wp_mono; [apply spares_wp; [spare|exact Hadd]|]. clear Hadd.
  intros r s2 ((Ho2 & F2 & U2) & N2). eapply wp_mono.
  { apply spares_wp; [spare|]. now apply (old_owner_spec s2 true SAM_QUOTA_ADMIN (di_admin_id n) ndk ntp). }
  intros r' s3 ((Ho3 & F3 & U3) & N3). split; [exact Ho3|].
  pose proof (usage_step_trans _ _ _ _ _ (keeps_step _ _ _ K1) (usage_step_trans _ _ _ _ _ U2 U3)) as U.
  assert (Q : forall s', frames ∅ s1 s' -> quota_ip s' SAM_QUOTA_ADMIN = quota_ip s SAM_QUOTA_ADMIN).
  { intros s' F'. rewrite (quota_ip_eq _ _ _ (fm_files _ _ _ F')). apply quota_ip_eq, (fm_files _ _ _ F1). }
  split.
  - eapply usage_step_ext; [|exact U]. intros t i us _ Hi. cbn [charged andb].
    rewrite (Q s1), (Q s2), bool_decide_eq_false_2 by (reflexivity || assumption).
    unfold aid_effect, at_key, owner_moved. rewrite (bool_decide_eq_false_2 (quota_ip s _ = None)) by exact Hq.
    cbn [negb]. rewrite !andb_true_r. destruct (t =? SAM_QUOTA_ADMIN); [|reflexivity]. cbn [andb].
    case_keys i aid (di_admin_id n); reflexivity.
  - exists n1. rewrite N3, N2. split; [exact Hn1|]. split; [exact Es1|]. intros a. now apply Hp1.
Qed.

(** [sam_set_aid] gives a file to another admin set: the file and its blocks
    are moved from the record of the old admin set to that of the new one, without
    a test of limits, and the inode has the new id; the request never fails. *)
Theorem sam_set_aid_moves s ip n aid :
  cache_ok ∅ s -> nodes s !! ip = Some n -> quota_on s = true -> sint_range 32 aid ->
  wp (sam_set_aid ip SAM_INODE_AID aid) (fun err s' => err = 0 /\ cache_ok ∅ s' /\
    usage_step s s' (aid_effect s n aid) /\
    exists n', nodes s' !! ip = Some n' /\ set_bquota [] n' = set_bquota [] (set_admin_id aid n)) s.
Proof.
  intros Hok Hn Hon Ha. unfold sam_set_aid. apply wp_bind, wp_gets, wp_bind, wp_gets. rewrite Hon.
  assert (Eid : s32 (u32 aid) = aid).
  { rewrite <- (swrap_id 32 aid) at 2 by (lia || assumption). apply swrap_congr.
    unfold uwrap. apply Z.mod_mod. lia. }
  rewrite Eid, Z.eqb_refl. cbn [andb]. apply wp_bind. eapply (wp_mono _ (fun _ s' => cache_ok ∅ s' /\
    usage_step s s' (aid_effect s n aid) /\ exists n', nodes s' !! ip = Some n' /\
      set_bquota [] n' = set_bquota [] n /\ forall a, bq n' SAM_QUOTA_ADMIN <> QP a)).
  - apply wp_when.
    + intros Hq%negb_true_iff%bool_decide_eq_false. now apply set_aid_quota_spec.
    + intros Hq%negb_false_iff%bool_decide_eq_true. split; [exact Hok|]. split.
      * intros t i _ _. unfold aid_effect. rewrite Hq, bool_decide_eq_true_2 by reflexivity.
        now rewrite andb_false_r.
      * exists n. split; [exact Hn|]. split; [reflexivity|]. intros a Hb.
        destruct Hok as (_ & an & ents & L & C & I).
        assert (Ht : 0 <= SAM_QUOTA_ADMIN < SAM_QUOTA_DEFD) by (split; vm_compute; congruence).
        destruct (index_di_some n SAM_QUOTA_ADMIN Ht) as [i Hix].
        destruct (pointed_record _ _ _ _ _ _ _ _ _ _ _ I Hn Ht Hix Hb)
          as (q & _ & _ & _ & _ & Hx). contradiction.
  - intros u s1 (Ho1 & U1 & n1 & Hn1 & Es1 & Hp1). apply wp_bind. eapply wp_mono.
    { apply (upd_fields_spec s1 ip n1 (set_admin_id aid) Ho1 Hn1); [reflexivity|].
      intros t a Ht Hb. unfold index_di. destruct (Z.eqb_spec t SAM_QUOTA_ADMIN) as [->|]; [|reflexivity].
      now destruct (Hp1 a). }
    intros u' s2 (Ho2 & U2 & Hn2). apply wp_ret. split; [reflexivity|]. split; [exact Ho2|].
    split; [exact (usage_step_trans _ _ _ _ _ U1 U2)|]. exists (set_admin_id aid n1). split; [exact Hn2|].
    pose proof (f_equal (set_admin_id aid) Es1) as Es. exact Es.
Qed.
End Owner.
