(* ===== verification/QuotaInfo.v ===== *)
(** * Writing records, and the system calls: theorems

    A record that is released is on disk ([sam_quot_rel], [sam_quota_flush]);
    [sam_quota_set_info] puts the administrator's limits there; [sam_quota_stat]
    returns a record only to those who may see it (src/src/fs/samfs/quota.c,
    cquota.c). *)

From S2P Require Import Prelude DList QuotaRec QuotaBytes Monad QuotaCache QuotaLinks QuotaPrims QuotaInv QuotaGet QuotaRel QuotaOps QuotaAdmin QuotaFrame QuotaCharge QuotaThms QuotaOwner.

Section Info.
Context {E : Type} `{QuotaEnv E} `{!QuotaEnvLaws E}.
Implicit Types (s : kstate E) (a an : addr) (q : sam_quot) (ents : gmap addr sam_quot)
  (L : list addr) (C : chain_table) (held : gset addr).

Lemma wp_and {A : Type} (m : M (kstate E) A) (P Q : A -> kstate E -> Prop) s :
  wp m P s -> wp m Q s -> wp m (fun r s' => P r s' /\ Q r s') s.
Proof. with_strategy transparent [wp] unfold wp. destruct (m s); auto. Qed.

(** ** Write-through *)

Lemma flushed_env_rec s q :
  dirty q = true -> 0 <= qt_index q -> dquot_typed (qt_dent q) ->
  qf_rec (flushed_env s q) (qt_vp q) (qt_index q) = Some (qt_dent q).
Proof. intros Hd Hi Hty. unfold flushed_env. rewrite Hd. now apply qf_write_same. Qed.

Lemma rel_env held s a q :
  cache_ok held s -> a ∈ held -> rec_at s a = Some q -> hashed q = true ->
  wp (sam_quot_rel a) (fun _ s' => env s' = flushed_env s q) s.
Proof.
  intros (Hul & an & ents & L & C & I) Hah Hrec Hh.
  rewrite (inv_rec_at _ _ _ _ _ _ _ I) in Hrec.
  eapply wp_mono; [eapply rel_run; eauto|]. intros u s' (_ & Hr & _). apply (rest_proj _ _ Hr).
Qed.

(** A record that its holder changed is in the quota file once it is released. *)
Lemma rel_writes held s a q :
  cache_ok held s -> a ∈ held -> rec_at s a = Some q -> hashed q = true ->
  wp (sam_quot_rel a) (fun _ s' => cache_ok (held ∖ {[a]}) s' /\ keeps (held ∖ {[a]}) s s' /\
    (dirty q = true -> qf_rec (env s') (qt_vp q) (qt_index q) = Some (qt_dent q)) /\
    (dirty q = false -> env s' = env s)) s.
Proof.
  intros Hok Hah Hrec Hh. eapply wp_mono.
  { apply wp_and; [now apply (rel_spec held s a q)|now apply (rel_env held s a q)]. }
  intros u s' ((Ho & K & _) & He). split; [exact Ho|]. split; [exact K|]. rewrite He.
  destruct Hok as (_ & an & ents & L & C & I). rewrite (inv_rec_at _ _ _ _ _ _ _ I) in Hrec.
  destruct (held_facts _ _ _ _ _ _ _ _ I Hah Hrec) as (Oa & _).
  destruct (eo_key _ _ _ _ _ _ Oa Hh) as (_ & Hi & _). split.
  - intros Hd. apply flushed_env_rec; [exact Hd|exact Hi|apply Oa].
  - intros Hd. unfold flushed_env. now rewrite Hd.
Qed.

(** C35. [sam_quot_rel] writes through: releasing a record that was changed leaves
    exactly that record in the quota file, releasing one that was not changed does
    not touch the file; in both cases the record is unlocked, the cache stays
    consistent and no key changes its usage. This holds when the write succeeds
    ([QuotaEnvLaws]); a change whose write fails is forgotten
    ([flush_error_forgotten]). *)
Theorem sam_quot_rel_writes_through held s a q :
  cache_ok held s -> a ∈ held -> rec_at s a = Some q -> hashed q = true ->
  wp (sam_quot_rel a) (fun _ s' => cache_ok (held ∖ {[a]}) s' /\ keeps (held ∖ {[a]}) s s' /\
    (dirty q = true -> qf_rec (env s') (qt_vp q) (qt_index q) = Some (qt_dent q)) /\
    (dirty q = false -> env s' = env s)) s.
Proof. apply rel_writes. Qed.

(** C4. [sam_quot_get] returns, for a key that quotas apply to, the one structure
    of that key, locked, with the usage charged to the key; for any other it returns
    none. It completes in every consistent state, whether the record is already in
    core, is pointed to by the inode, or has to be read into a structure that is
    recycled or allocated, and it changes no usage and no quota file. Reads and
    writes of the quota files succeed. *)
Theorem sam_quot_get_contract held s ip t i :
  cache_ok held s -> 0 <= t < SAM_QUOTA_DEFD -> caller_ok s ip t i -> not_holding held s t i ->
  wp (sam_quot_get ip t i) (get_post held s ip t i) s.
Proof. apply get_spec. Qed.

(** ** Flushing a locked record *)

Lemma ent_ok_flushed s s' held L C a q :
  ent_ok s held L C a q -> hashed q = true -> a ∈ held -> a ∉ L ->
  m_quota_ip (mp s') = m_quota_ip (mp s) -> nodes s' = nodes s -> env s' = flushed_env s q ->
  ent_ok s' held L C a (flushed q).
Proof.
  intros O Hh Hah HaL Hm Hn He.
  destruct (flushed_same q) as (Gv & Gr & Gt & Gi & Gl & Gd).
  assert (Fh : hashed (flushed q) = hashed q) by now apply flushed_flags.
  assert (Fa : on_avail (flushed q) = on_avail q) by now apply flushed_flags.
  destruct (eo_key _ _ _ _ _ _ O Hh) as (_ & K2 & _).
  pose proof (eo_typed _ _ _ _ _ _ O) as Hty. pose proof (eo_disk _ _ _ _ _ _ O Hh) as Hdi.
  destruct O. constructor;
    rewrite ?Gv, ?Gr, ?Gt, ?Gi, ?Gl, ?Gd, ?Hn, ?He, ?(quota_ip_eq _ _ _ Hm), ?Fh, ?Fa, ?flushed_clean;
    try assumption; try reflexivity; try contradiction.
  - rewrite flushed_flags by reflexivity. assumption.
  - now apply flushed_busy.
  - intros _ _. now apply disk_use_flushed_own.
Qed.

Lemma flush_held held s a q :
  cache_ok held s -> a ∈ held -> rec_at s a = Some q -> hashed q = true ->
  wp (sam_quota_flush a) (fun err s' => err = 0 /\ cache_ok held s' /\ keeps (held ∖ {[a]}) s s' /\
    rec_at s' a = Some (flushed q) /\ env s' = flushed_env s q) s.
Proof.
  intros (Hul & an & ents & L & C & I) Hah Hrec Hh.
  rewrite (inv_rec_at _ _ _ _ _ _ _ I) in Hrec. rename Hrec into Hq.
  destruct (held_facts _ _ _ _ _ _ _ _ I Hah Hq) as (Oa & Haan & Hlk & _ & HaL & _).
  destruct (eo_key _ _ _ _ _ _ Oa Hh) as (K1 & K2 & K3).
  pose proof (eo_typed _ _ _ _ _ _ Oa) as Hty.
  eapply wp_mono.
  { eapply flush_spec; [apply I|exact Hq|exact Hlk|apply Oa|exact Hty|exact K2|exact K3|apply I]. }
  intros err s' (-> & Hl & Hr & Hb). split; [reflexivity|].
  destruct (rest_proj _ _ Hr) as (Hm & He & Hn & Hw & Hf & Hcl & Hhl & Hal & Hco & Hte & _).
  cbn in Hm, He, Hn, Hw, Hf, Hcl, Hhl, Hal, Hco, Hte.
  destruct (flushed_same q) as (Gv & Gr & Gt & Gi & Gl & Gd).
  assert (Fh : hashed (flushed q) = hashed q) by now apply flushed_flags.
  assert (Hother : forall b qb, b <> a -> ents !! b = Some qb -> hashed qb = true ->
    disk_use (env s') (qt_vp qb) (qt_index qb) = disk_use (env s) (qt_vp qb) (qt_index qb)).
  { intros b qb Hne Hqb Hhb. rewrite He.
    destruct (eo_key _ _ _ _ _ _ (ci_ent _ _ _ _ _ _ I b qb Hqb (hashed_not_anchor _ _ _ _ _ _ _ _ I Hqb Hhb)) Hhb)
      as (B1 & B2 & B3).
    apply disk_use_flushed; auto. intros [= Ev Ei]. apply Hne.
    eapply (ci_unique _ _ _ _ _ _ I b a); eauto.
    eapply (ci_files _ _ _ _ _ _ I); eauto. congruence. }
  assert (I' : cache_inv held s' an (<[a := flushed q]> ents) L C).
  { eapply (inv_update held); [exact I|exact Hq|exact Haan|exact Hl|exact Hm|exact Hn|exact Hcl|exact Hb|
      exact Fh|exact Gt|exact Gi|exact Hother|reflexivity|reflexivity|]. eapply ent_ok_flushed; eauto. }
  split; [split; [split; [rewrite Hhl|rewrite Hal]; apply Hul|eauto]|]. split.
  - constructor; try assumption.
    + now apply nodes_like_eq.
    + intros b Hb'. eapply core_heap_other; [apply I|apply I'|set_solver].
    + intros t i Ht Hi. eapply (usage_update held); [exact I|exact I'|exact Hq|exact Fh|exact Gt|exact Gi| |
        intros; congruence].
      intros Hne. unfold disk_usage. rewrite (quota_ip_eq _ _ _ Hm).
      destruct (quota_ip s t) as [ip|] eqn:Hip; [|reflexivity].
      rewrite He. apply disk_use_flushed; auto. intros [= -> ->].
      assert (qt_type q = t) by (eapply (ci_files _ _ _ _ _ _ I); eauto).
      rewrite (proj2 (is_entry_spec q t (qt_index q))) in Hne; [discriminate|auto].
  - split; [|exact He]. now rewrite (inv_rec_at _ _ _ _ _ _ _ I'), lookup_insert_eq.
Qed.

(** ** [sam_quota_set_info] *)

(** Limits and grace periods, without the unused words. *)
Definition limit_fields (d : sam_dquot) :=
  (dq_folsoft d, dq_folhard d, dq_bolsoft d, dq_bolhard d,
   dq_ftotsoft d, dq_ftothard d, dq_btotsoft d, dq_btothard d, dq_ol_grace d, dq_tot_grace d).

Lemma timers_keep now before after d :
  let d' := tot_timer now before after (ol_timer now before after d) in
  limit_fields d' = limit_fields d /\ usage d' = usage d /\ (dquot_typed d -> dquot_typed d').
Proof.
  cbv zeta. split; [|split].
  - unfold tot_timer, ol_timer. repeat destruct (has_any _ _); repeat destruct (_ && _); reflexivity.
  - unfold tot_timer, ol_timer. repeat destruct (has_any _ _); repeat destruct (_ && _); reflexivity.
  - intros (HL & HU & [T1 T2])%dquot_typed_split. apply dquot_typed_split.
    assert (H0 : sint_range 32 0) by exact zero_range32.
    assert (Hs : forall x, sint_range 32 (s32 x)) by (intros; apply swrap_range; lia).
    unfold tot_timer, ol_timer. repeat destruct (has_any _ _); repeat destruct (_ && _);
      (split; [exact HL|split; [exact HU|split; cbn; auto]]).
Qed.

(** The record of a key, as [op] sets it from [nqd]. *)
Lemma set_info_quot_effect se now op nqd q :
  dquot_typed (qt_dent q) -> dquot_typed nqd ->
  let q' := set_info_quot se now op nqd q in
  placed q q' /\ dquot_typed (qt_dent q') /\ dirty q' = true /\ limit_fields (qt_dent q') = limit_fields nqd /\
  usage (qt_dent q') = (if op =? SAM_QOP_PUTALL then usage nqd else usage (qt_dent q)).
Proof.
  intros Hq Hn. cbv zeta. unfold set_info_quot. cbv zeta.
  set (d1 := put_record op nqd (qt_dent q)).
  assert (H1 : dquot_typed d1 /\ limit_fields d1 = limit_fields nqd /\
    usage d1 = if op =? SAM_QOP_PUTALL then usage nqd else usage (qt_dent q)).
  { unfold d1, put_record. destruct (op =? SAM_QOP_PUTALL); [auto|].
    rewrite put_merge_run by assumption. split; [now apply take_limits_typed|]. split; reflexivity. }
  destruct H1 as (T1 & L1 & U1).
  destruct (timers_keep now (testquota (qt_dent q) se) (testquota d1 se) d1) as (L2 & U2 & T2).
  split; [|split; [exact (T2 T1)|split; [|split; [exact (eq_trans L2 L1)|exact (eq_trans U2 U1)]]]].
  - constructor; try reflexivity. cbn.
    rewrite <- Z.land_assoc. change (Z.land (Z.lnot over_flags) struct_flags) with struct_flags.
    rewrite Z.land_lor_distr_l. apply Z.lor_0_r.
  - unfold dirty. cbn. rewrite has_any_clear_ne by reflexivity. rewrite has_any_lor_l. apply orb_true_r.
Qed.

Definition put_usage (op : Z) (nqd : sam_dquot) (u : Z * Z * Z * Z) : Z * Z * Z * Z :=
  if op =? SAM_QOP_PUTALL then usage nqd else u.

Lemma set_info_run s ip nqd op t i :
  cache_ok ∅ s -> 0 <= t < SAM_QUOTA_DEFD -> dquot_typed nqd ->
  wp (sam_quota_set_info ip nqd op t i) (fun err s' => cache_ok ∅ s' /\ frames ∅ s s' /\
    if charged s None t i then
      err = 0 /\ usage_step s s' (at_key t i (put_usage op nqd)) /\
      exists vp d', quota_ip s t = Some vp /\ qf_rec (env s') vp i = Some d' /\
        limit_fields d' = limit_fields nqd
    else err = ENOENT /\ unchanged s s') s.
Proof.
  intros Hok Ht Hty. unfold sam_quota_set_info. apply wp_bind, wp_gets.
  assert (Hcl : fs_client (mp s) = false) by (destruct Hok as (_ & ? & ? & ? & ? & I); apply I).
  rewrite Hcl. apply wp_bind. eapply wp_mono.
  { apply (get_spec ∅ s None t i Hok Ht Logic.I). apply not_holding_empty. }
  unfold get_post. intros r s1. destruct (charged s None t i).
  2:{ intros [-> [Ho K _ _]]. apply wp_ret. split; [exact Ho|]. split; [now apply keeps_frames|].
      split; [reflexivity|]. apply (keeps_step _ _ _ K). }
  intros (a & -> & [Hna Ho1 K1 _ _ (q & Hq & He & _ & Hu)]). apply wp_bind, wp_gets, wp_bind, wp_gets.
  apply wp_bind. eapply wp_mono.
  { eapply (held_run_rec ∅ s1 a q t i _ (fun _ q' => dirty q' = true /\ limit_fields (qt_dent q') = limit_fields nqd /\
      usage (qt_dent q') = put_usage op nqd (usage (qt_dent q)) /\ dquot_typed (qt_dent q') /\ qt_vp q' = qt_vp q));
      [exact Ho1|exact Hna|exact Hq|exact He|]. intros an ents L C Hl Ha Hdt.
    destruct (set_info_quot_effect (sam_enabled s1) (now s1) op nqd q Hdt Hty) as (P1 & P2 & P3 & P4 & P5).
    eapply wp_mod_core; [|exact Hl|exact Ha|].
    - constructor; reflexivity.
    - intros s2 Hl2 Hr2 Hb2. rewrite (alter_as_insert _ _ _ _ Ha) in Hl2. eexists.
      split; [exact Hl2|]. repeat (split; [assumption || (left; assumption)|]). reflexivity. }
  intros u s2 (Ho2 & F2 & q2 & Hq2 & He2 & (D2 & L2 & U2 & T2 & V2) & E2 & St2).
  pose proof (proj1 (is_entry_spec _ _ _) He2) as (Hh2 & Et2 & Ei2).
  apply wp_bind. eapply wp_mono; [apply (flush_held ({[a]} ∪ ∅) s2 a q2 Ho2); [set_solver|exact Hq2|exact Hh2]|].
  intros err s3 (-> & Ho3 & K3 & Hq3 & E3). apply wp_bind. eapply wp_mono.
  { apply (rel_writes ({[a]} ∪ ∅) s3 a (flushed q2) Ho3); [set_solver|exact Hq3|].
    unfold hashed. rewrite flushed_flags by reflexivity. exact Hh2. }
  intros u' s4 (Ho4 & K4 & _ & E4). apply wp_ret.
  replace (({[a]} ∪ ∅) ∖ {[a]}) with (∅ : gset addr) in * by set_solver.
  split; [exact Ho4|]. apply keeps_frames in K1 as F1. split.
  { transitivity s1; [exact F1|]. transitivity s2; [exact F2|].
    transitivity s3; apply keeps_frames; assumption. }
  split; [reflexivity|]. split.
  - rewrite U2 in St2. eapply step_at_key in St2; [|exact Ho1|exact Hq|exact He].
    exact (usage_step_trans _ _ _ _ _ (keeps_step _ _ _ K1) (usage_step_trans _ _ _ _ _ St2
      (usage_step_trans _ _ _ _ _ (keeps_step _ _ _ K3) (keeps_step _ _ _ K4)))).
  - rewrite (E4 (flushed_clean q2)), E3.
    destruct Ho2 as (_ & an & ents & L & C & I2). rewrite (inv_rec_at _ _ _ _ _ _ _ I2) in Hq2.
    destruct (held_facts _ _ _ _ _ _ a _ I2 ltac:(set_solver) Hq2) as (Oa & _).
    destruct (eo_key _ _ _ _ _ _ Oa Hh2) as (_ & Hi & Hv). rewrite Et2 in Hv.
    exists (qt_vp q2), (qt_dent q2). split; [|split; [rewrite <- Ei2; now apply flushed_env_rec|exact L2]].
    rewrite <- Hv. symmetry. etransitivity; [apply quota_ip_eq, (fm_files _ _ _ F2)|].
    apply quota_ip_eq, (fm_files _ _ _ F1).
Qed.

(** Setting a record succeeds for every key that quotas apply to, and is on
    disk when it returns: the record in the quota file has exactly the limits and
    grace periods that were given. SAM_QOP_PUTALL also sets the usage of that key,
    SAM_QOP_PUT changes no usage, and no other key is touched. For any other key
    ENOENT is returned and nothing changes. *)
Theorem sam_quota_set_info_effect s ip nqd op t i :
  cache_ok ∅ s -> 0 <= t < SAM_QUOTA_DEFD -> dquot_typed nqd ->
  wp (sam_quota_set_info ip nqd op t i) (fun err s' => cache_ok ∅ s' /\ frames ∅ s s' /\
    if charged s None t i then
      err = 0 /\ usage_step s s' (at_key t i (put_usage op nqd)) /\
      exists vp d', quota_ip s t = Some vp /\ qf_rec (env s') vp i = Some d' /\
        limit_fields d' = limit_fields nqd
    else err = ENOENT /\ unchanged s s') s.
Proof. apply set_info_run. Qed.

(** ** [sam_quota_get_info] *)

Lemma get_info_run s t i dq :
  cache_ok ∅ s -> 0 <= t < SAM_QUOTA_DEFD ->
  wp (sam_quota_get_info t i dq) (fun r s' => cache_ok ∅ s' /\ keeps ∅ s s' /\
    if charged s None t i then fst r = 0 /\ usage (snd r) = usage_of s t i else r = (ENOENT, dq)) s.
Proof.
  intros Hok Ht. unfold sam_quota_get_info. apply wp_bind, wp_gets.
  assert (Hcl : fs_client (mp s) = false) by (destruct Hok as (_ & ? & ? & ? & ? & I); apply I).
  rewrite Hcl. apply wp_bind. eapply wp_mono.
  { apply (get_spec ∅ s None t i Hok Ht Logic.I). apply not_holding_empty. }
  unfold get_post. intros r s1. destruct (charged s None t i).
  2:{ intros [-> [Ho K _ _]]. apply wp_ret. auto. }
  intros (a & -> & Hgot). destruct (got_heap _ _ _ _ _ _ Hgot) as (q0 & Hq0 & Hh & _ & _ & _ & Hu & _).
  destruct Hgot as [_ Ho1 K1 _ _ _]. apply wp_bind; eapply wp_get_q; [exact Hq0|].
  apply wp_bind. eapply wp_mono.
  { apply (rel_spec ({[a]} ∪ ∅) s1 a (core q0) Ho1); [set_solver|unfold rec_at; now rewrite Hq0|exact Hh]. }
  intros u s2 (Ho2 & K2 & _). apply wp_ret.
  replace (({[a]} ∪ ∅) ∖ {[a]}) with (∅ : gset addr) in * by set_solver.
  split; [exact Ho2|]. split; [etransitivity; eauto|]. auto.
Qed.

(** ** The system calls *)

(** What the caller must be for [SAM_QOP_GET] to return the record it names. *)
Definition may_read (w : call_env) (n : sam_node) (args : sam_quota_arg) : Prop :=
  if has_any (qflags args) SAM_QFL_INDEX then
    ce_secpolicy w = false \/ own_record w args = true \/
    (ce_access w = 0 /\ file_record n args = true)
  else ce_access w = 0.

Lemma get_permitted_spec w n args : get_permitted w n args = 0 <-> may_read w n args.
Proof.
  unfold get_permitted, may_read. destruct (has_any _ _); [|tauto].
  destruct (own_record w args), (ce_secpolicy w), (file_record n args); cbn;
    destruct (Z.eqb_spec (ce_access w) 0) as [->|Hne]; cbn; unfold EACCES; intuition congruence.
Qed.

(** The part of [SAM_QOP_GET] after the permission check. *)
Lemma stat_denied w s ip n args :
  ce_args w = Some args -> qsize_ok args = true -> ce_getf w (qfd args) = Some (Some ip) ->
  nodes s !! ip = Some n -> qcmd args = SAM_QOP_GET -> ~ may_read w n args ->
  sam_quota_stat w s = Done (returns (get_permitted w n args)) s.
Proof.
  intros Ha Hs Hf Hn Hc Hno. unfold sam_quota_stat. rewrite Ha, Hs, Hf, Hc. cbn [negb].
  change (SAM_QOP_GET =? SAM_QOP_QSTAT) with false. change (SAM_QOP_GET =? SAM_QOP_GET) with true.
  cbn [negb]. unfold mbind, M_bind, get_node. rewrite Hn.
  destruct (Z.eqb_spec (get_permitted w n args) 0) as [E0|_]; [|reflexivity].
  apply get_permitted_spec in E0. contradiction.
Qed.

(** A user who may not see a record does not get it: without privilege, unless
    the record is the caller's own, or the caller may write the file and the record
    is the file's, [SAM_QOP_GET] returns an error, copies nothing out and changes
    nothing. *)
Theorem sam_quota_stat_denied w s ip n args :
  ce_args w = Some args -> qsize_ok args = true -> ce_getf w (qfd args) = Some (Some ip) ->
  nodes s !! ip = Some n -> qcmd args = SAM_QOP_GET -> ~ may_read w n args ->
  exists err, err <> 0 /\ sam_quota_stat w s = Done (returns err) s.
Proof.
  intros Ha Hs Hf Hn Hc Hno. exists (get_permitted w n args).
  split; [|now apply (stat_denied w s ip n args)]. intros E0. now apply Hno, get_permitted_spec.
Qed.

Lemma stat_permitted w s ip n args :
  cache_ok ∅ s ->
  ce_args w = Some args -> qsize_ok args = true -> ce_getf w (qfd args) = Some (Some ip) ->
  nodes s !! ip = Some n -> qcmd args = SAM_QOP_GET -> may_read w n args ->
  0 <= qtype args < SAM_QUOTA_DEFD -> has_any (qflags args) SAM_QFL_INDEX = true ->
  ce_copyout_rec w = false -> ce_copyout_args w = false ->
  wp (sam_quota_stat w) (fun r s' => cache_ok ∅ s' /\ unchanged s s' /\
    exists d, r = mk_call_result (if charged s None (qtype args) (s32 (qindex args)) then 0 else ENOENT)
                    (Some d) (Some args) /\
      if charged s None (qtype args) (s32 (qindex args))
      then usage d = usage_of s (qtype args) (s32 (qindex args)) else d = ce_stack w) s.
Proof.
  intros Hok Ha Hs Hf Hn Hc Hmay Ht Hix Ho1 Ho2. unfold sam_quota_stat. rewrite Ha, Hs, Hf, Hc. cbn [negb].
  change (SAM_QOP_GET =? SAM_QOP_QSTAT) with false. change (SAM_QOP_GET =? SAM_QOP_GET) with true. cbn [negb].
  apply wp_bind; eapply wp_get_node; [exact Hn|].
  rewrite (proj2 (get_permitted_spec w n args) Hmay). cbn [Z.eqb negb].
  rewrite (proj2 (Z.leb_gt _ _) (proj2 Ht)). apply wp_bind. unfold fill_index. rewrite Hix. apply wp_ret.
  apply wp_bind. eapply wp_mono; [now apply get_info_run|].
  intros [err d] s' (Ho & K & Hr). cbn [fst snd] in Hr.
  assert (Hlt : (err <? 0) = false /\ err = if charged s None (qtype args) (s32 (qindex args)) then 0 else ENOENT).
  { destruct (charged _ _ _ _); [destruct Hr as [-> _]; auto|injection Hr as -> ->; auto]. }
  destruct Hlt as [-> Ee]. rewrite Ho1. apply wp_ret. split; [exact Ho|]. split; [exact (keeps_step _ _ _ K)|].
  exists d. unfold copy_args. rewrite Ho2, <- Ee. split; [reflexivity|].
  destruct (charged _ _ _ _); [apply Hr|congruence].
Qed.

(** A permitted [SAM_QOP_GET] of a key that quotas apply to returns success and
    a record with the usage charged to that key, and changes no usage. *)
Theorem sam_quota_stat_returns_usage w s ip n args :
  cache_ok ∅ s ->
  ce_args w = Some args -> qsize_ok args = true -> ce_getf w (qfd args) = Some (Some ip) ->
  nodes s !! ip = Some n -> qcmd args = SAM_QOP_GET -> may_read w n args ->
  0 <= qtype args < SAM_QUOTA_DEFD -> has_any (qflags args) SAM_QFL_INDEX = true ->
  ce_copyout_rec w = false -> ce_copyout_args w = false ->
  charged s None (qtype args) (s32 (qindex args)) = true ->
  wp (sam_quota_stat w) (fun r s' => cache_ok ∅ s' /\ unchanged s s' /\
    exists d, r = mk_call_result 0 (Some d) (Some args) /\
      usage d = usage_of s (qtype args) (s32 (qindex args))) s.
Proof.
  intros Hok Ha Hs Hf Hn Hc Hmay Ht Hix Ho1 Ho2 Hch.
  eapply wp_mono; [now apply (stat_permitted w s ip n args)|]. cbn beta. now rewrite Hch.
Qed.

(** When no quota applies to the key, [sam_quota_stat] returns ENOENT but
    copies its own uninitialised record out to the caller: the test for the error
    of [sam_quota_get_info] is for a negative value, which it never returns. *)
Theorem sam_quota_stat_leaks_stack w s ip n args :
  cache_ok ∅ s ->
  ce_args w = Some args -> qsize_ok args = true -> ce_getf w (qfd args) = Some (Some ip) ->
  nodes s !! ip = Some n -> qcmd args = SAM_QOP_GET -> may_read w n args ->
  0 <= qtype args < SAM_QUOTA_DEFD -> has_any (qflags args) SAM_QFL_INDEX = true ->
  ce_copyout_rec w = false -> ce_copyout_args w = false ->
  charged s None (qtype args) (s32 (qindex args)) = false ->
  wp (sam_quota_stat w) (fun r _ => r = mk_call_result ENOENT (Some (ce_stack w)) (Some args)) s.
Proof.
  intros Hok Ha Hs Hf Hn Hc Hmay Ht Hix Ho1 Ho2 Hch.
  eapply wp_mono; [now apply (stat_permitted w s ip n args)|]. cbn beta. rewrite Hch.
  intros r s' (_ & _ & d & -> & ->). reflexivity.
Qed.

(** Only a privileged caller changes a record: without privilege [sam_quota_op]
    returns an error and changes nothing, whatever it is asked for. *)
Theorem sam_quota_op_privileged w s :
  ce_secpolicy w = true ->
  exists err, err <> 0 /\ sam_quota_op w s = Done (returns err) s.
Proof.
  intros Hp. unfold sam_quota_op. rewrite Hp.
  destruct (ce_args w) as [args|]; [|exists EFAULT; split; [discriminate|reflexivity]].
  destruct (negb (qsize_ok args)); [exists EFAULT; split; [discriminate|reflexivity]|].
  destruct (_ && _); [exists EINVAL; split; [discriminate|reflexivity]|].
  destruct (ce_getf w (qfd args)) as [[ip|]|].
  - exists EPERM. split; [discriminate|reflexivity].
  - exists ENOTSUP. split; [discriminate|reflexivity].
  - exists EBADF. split; [discriminate|reflexivity].
Qed.

(** ** A failed write *)

(** [sam_quota_flush] clears the dirty flag before it writes and does not set it
    again when the write fails: the error is reported once, the next flush of the
    same record reports success without writing, and the change is lost when the
    structure is recycled. *)
Theorem flush_error_forgotten s a q err e' :
  heap s !! a = Some q -> qt_lock q = true -> dirty q = true -> busy q = false ->
  quota_ip s (qt_type q) <> None -> fs_client (mp s) = false ->
  sam_write_vn (env s) (qt_vp q) (qt_index q) (qt_dent q) = (err, e') -> err <> 0 ->
  wp (err1 ← sam_quota_flush a; err2 ← sam_quota_flush a; mret (err1, err2))
    (fun r s' => r = (err, 0) /\ env s' = e' /\
      exists q', heap s' !! a = Some q' /\ dirty q' = false /\ qt_dent q' = qt_dent q) s.
Proof.
  intros Hq Hl Hd Hb Hip Hc Hw He. apply wp_bind. unfold sam_quota_flush at 1.
  apply wp_bind; eapply wp_assert_held; [exact Hq|exact Hl|]. apply wp_bind; eapply wp_get_q; [exact Hq|].
  unfold dirty in Hd. unfold busy in Hb. rewrite Hd, Hb. cbn [negb]. apply wp_bind, wp_gets.
  rewrite bool_decide_eq_false_2 by exact Hip. apply wp_bind, wp_assert_not_client; [exact Hc|].
  apply wp_bind, wp_mod_q; [eauto|]. apply wp_bind, wp_mod_q; [cbn; rewrite lookup_alter_eq, Hq; eauto|].
  apply wp_bind, wp_gets. cbn [env upd_heap]. rewrite Hw. apply wp_bind, wp_modify.
  apply wp_bind. unfold cmn_err. apply wp_when.
  2:{ intros Hz%negb_false_iff%Z.eqb_eq. contradiction. }
  intros _. apply wp_modify. apply wp_bind, wp_mod_q; [cbn; rewrite !lookup_alter_eq, Hq; eauto|]. apply wp_ret.
  match goal with |- wp _ _ ?st => set (s1 := st) end.
  set (q1 := clear_flags SAM_QF_BUSY (clear_flags SAM_QF_DIRTY (or_flags SAM_QF_BUSY q))).
  assert (Hq1 : heap s1 !! a = Some q1) by (unfold s1; cbn; now rewrite !lookup_alter_eq, Hq).
  assert (Hd1 : has_any (qt_flags q1) SAM_QF_DIRTY = false).
  { cbn. rewrite has_any_clear_ne by reflexivity. apply has_any_clear_eq. }
  apply wp_bind. unfold sam_quota_flush.
  apply wp_bind; eapply wp_assert_held; [exact Hq1|exact Hl|]. apply wp_bind; eapply wp_get_q; [exact Hq1|].
  rewrite Hd1. cbn [negb]. apply wp_ret, wp_ret. split; [reflexivity|]. split; [reflexivity|].
  exists q1. auto.
Qed.
End Info.
