(* ===== verification/QuotaDemo.v ===== *)
(** * Quota files in memory, and concrete runs

    An implementation of the interface of the quota files, with each file a list
    of records, and a small mounted file system on it. The theorems on quotas are
    applied to it. *)

From S2P Require Import Prelude DList QuotaRec QuotaBytes Monad QuotaCache QuotaLinks QuotaPrims QuotaInv QuotaGet QuotaRel QuotaOps QuotaAdmin QuotaFrame QuotaCharge QuotaThms QuotaInit QuotaOwner QuotaInfo.

(** ** Quota files as lists of records *)

Abbreviation qfiles := (gmap addr (list sam_dquot)).

Definition file_of (e : qfiles) (ip : addr) : list sam_dquot := default [] (e !! ip).

(** A record as it comes back from its bytes. *)
Definition reread (d : sam_dquot) : sam_dquot := dquot_of_bytes (dquot_bytes d).

Definition mem_rec (e : qfiles) (ip : addr) (i : Z) : option sam_dquot :=
  if i <? 0 then None else reread <$> (file_of e ip !! Z.to_nat i).

(** A write past the end fills the gap with zero records. *)
Definition put_at (i : nat) (d : sam_dquot) (f : list sam_dquot) : list sam_dquot :=
  if decide (i < length f)%nat then <[i := d]> f
  else f ++ replicate (i - length f) zero_dquot ++ [d].

#[export] Instance mem_env : QuotaEnv qfiles := {
  qf_size e ip := Z.of_nat (length (file_of e ip)) * sizeof_dquot;
  sam_read_vn e ip i buf := (0, default buf (mem_rec e ip i));
  sam_write_vn e ip i d := (0, <[ip := put_at (Z.to_nat i) d (file_of e ip)]> e);
  client_get_quota e t i d := (ENOTSUP, d);
  client_put_quota e ip d op t i := (ENOTSUP, e)
}.

Lemma dquot_of_bytes_typed bs : dquot_typed (dquot_of_bytes bs).
Proof.
  assert (Hr : forall n x, (0 < n)%nat -> (0 < n)%nat /\ sint_range (8 * Z.of_nat n) (swrap (8 * Z.of_nat n) x)).
  { intros n x Hn. split; [exact Hn|]. apply swrap_range. lia. }
  unfold dquot_typed, dquot_of_bytes, dquot_sizes, dquot_of_list, dquot_fields.
  cbn [map fst snd read_fields nth dq_folused dq_online qgp_files qg_in_use]. unfold dq_folused, dq_folsoft,
    dq_folhard, dq_bolused, dq_bolsoft, dq_bolhard, dq_ftotused, dq_ftotsoft, dq_ftothard, dq_btotused,
    dq_btotsoft, dq_btothard.
  cbn [dq_online dq_total qgp_files qgp_blocks qg_in_use qg_soft_limit qg_hard_limit dq_ol_grace dq_ol_enforce
    dq_tot_grace dq_tot_enforce unused2 unused3].
  repeat (apply Forall_cons; split; [apply Hr; lia|]). apply Forall_nil. exact Logic.I.
Qed.

Lemma put_at_lookup_same i d f : put_at i d f !! i = Some d.
Proof.
  unfold put_at. destruct (decide _) as [Hlt|Hge]; [now apply list_lookup_insert_eq|].
  rewrite lookup_app_r by lia. rewrite lookup_app_r by (rewrite length_replicate; lia).
  rewrite length_replicate. replace (i - length f - (i - length f))%nat with 0%nat by lia. reflexivity.
Qed.

Lemma put_at_lookup_other i j d f :
  i <> j -> put_at i d f !! j = f !! j \/ f !! j = None /\ put_at i d f !! j = Some zero_dquot.
Proof.
  intros Hne. unfold put_at. destruct (decide _) as [Hlt|Hge]; [left; now apply list_lookup_insert_ne|].
  destruct (decide (j < length f)%nat) as [Hj|Hj]; [left; now apply lookup_app_l|].
  rewrite lookup_app_r by lia. destruct (decide (j < i)%nat) as [Hji|Hji].
  - right. split; [apply lookup_ge_None; lia|]. rewrite lookup_app_l by (rewrite length_replicate; lia).
    apply lookup_replicate_2. lia.
  - left. rewrite lookup_app_r by (rewrite length_replicate; lia). rewrite length_replicate.
    rewrite (lookup_ge_None_2 f) by lia. apply lookup_ge_None_2. cbn. lia.
Qed.

Lemma file_of_insert e ip f ip' : file_of (<[ip := f]> e) ip' = if decide (ip' = ip) then f else file_of e ip'.
Proof.
  unfold file_of. destruct (decide (ip' = ip)) as [->|Hne].
  - now rewrite lookup_insert_eq.
  - now rewrite lookup_insert_ne by congruence.
Qed.

Lemma reread_zero : reread zero_dquot = zero_dquot.
Proof. apply dquot_bytes_roundtrip, zero_dquot_typed. Qed.

#[export] Instance mem_laws : QuotaEnvLaws qfiles.
Proof.
  refine {| qf_rec := mem_rec |}.
  - intros e ip i Hi. unfold mem_rec. rewrite (proj2 (Z.ltb_ge i 0) Hi), fmap_None, lookup_ge_None.
    cbn. unfold sizeof_dquot. lia.
  - intros e ip i d. unfold mem_rec. destruct (i <? 0); [discriminate|].
    intros (d0 & _ & ->)%fmap_Some. apply dquot_of_bytes_typed.
  - reflexivity.
  - reflexivity.
  - intros e ip i d Hi Hty. cbn. unfold mem_rec. rewrite (proj2 (Z.ltb_ge i 0) Hi), file_of_insert.
    rewrite decide_True by reflexivity. rewrite put_at_lookup_same. cbn. f_equal. now apply dquot_bytes_roundtrip.
  - intros e ip i d ip' j Hi Hj Hne. cbn. unfold mem_rec. rewrite (proj2 (Z.ltb_ge j 0) Hj), file_of_insert.
    destruct (decide (ip' = ip)) as [->|Hip]; [|now left].
    assert (Hij : Z.to_nat i <> Z.to_nat j) by (intros Hx; apply Hne; f_equal; lia).
    destruct (put_at_lookup_other (Z.to_nat i) (Z.to_nat j) d (file_of e ip) Hij) as [-> | [-> ->]]; [now left|].
    right. cbn. now rewrite reread_zero.
Defined.

(** ** A mounted file system

    Quota files for all three types, an ordinary file 10, a segment index 11 and an
    offline file 12, all of user 2, group 1 and admin set 1. The user's record has
    limits: 8 files and 100 blocks, and for an hour 10 files and 120 blocks. *)

Definition demo_node (seg off reg : bool) (ino : Z) : sam_node :=
  mk_node seg false 0%nat off true false reg 2 1 1 1 5 4096 2 ino 0 0 [QNULL; QNULL; QNULL].

Definition user_limits : sam_dquot :=
  mk_dquot (mk_qpair (mk_qgroup 3 8 10) (mk_qgroup 40 100 120))
           (mk_qpair (mk_qgroup 3 8 10) (mk_qgroup 40 1000 1200)) 3600 0 3600 0 0 0.

Definition demo0 : kstate qfiles :=
  mk_kstate (mk_mount MT_QUOTA false [None; None; None] None None false false) ∅ 1%nat
    (list_to_map [(10%nat, demo_node false false true 1030); (11%nat, demo_node true false true 1031);
                  (12%nat, demo_node false true true 1032);
                  (101%nat, demo_node false false true 1101); (102%nat, demo_node false false true 1102);
                  (103%nat, demo_node false false true 1103)])
    (list_to_map [(101%nat, [zero_dquot; zero_dquot]); (102%nat, [zero_dquot; zero_dquot]);
                  (103%nat, [zero_dquot; zero_dquot; user_limits])])
    1000 [] [].

Definition demo_lookup (t : Z) : Z * addr :=
  if (0 <=? t) && (t <? SAM_QUOTA_DEFD) then (0, Z.to_nat (101 + t)) else (ENOENT, 0%nat).

Lemma demo_unstarted : unstarted demo0.
Proof.
  constructor; try reflexivity. apply map_Forall_to_list. repeat constructor;
    intros t a Ht; unfold SAM_QUOTA_DEFD in Ht; assert (t = 0 \/ t = 1 \/ t = 2) as [->|[->| ->]] by lia; discriminate.
Qed.

Lemma demo_lookup_ok : lookup_ok demo0 demo_lookup.
Proof.
  constructor; unfold demo_lookup, SAM_QUOTA_DEFD.
  - intros t ip. destruct ((0 <=? t) && (t <? 3)) eqn:Et; [|discriminate]. intros [= <-].
    assert (t = 0 \/ t = 1 \/ t = 2) as [->|[->| ->]] by lia; eexists; reflexivity.
  - intros t t' ip. destruct ((0 <=? t) && (t <? 3)) eqn:Et; [|discriminate].
    destruct ((0 <=? t') && (t' <? 3)) eqn:Et'; [|discriminate]. intros [= <-] [= E]. lia.
Qed.

Definition demo : kstate qfiles :=
  match sam_quota_init demo_lookup demo0 with Done _ s => s | Fault _ => demo0 end.

Lemma demo_ok : cache_ok ∅ demo.
Proof.
  pose proof (init_run demo0 demo_lookup demo_unstarted eq_refl demo_lookup_ok) as Hrun.
  assert (E : sam_quota_init demo_lookup demo0 = Done tt demo) by (vm_compute; reflexivity).
  pose proof (wp_of_done _ _ _ _ _ E Hrun) as [_ H]. exact (proj1 H).
Qed.

Lemma sam_quota_init_establishes_witness :
  wp (sam_quota_init demo_lookup) (fun _ s' => cache_ok ∅ s' /\ quota_on s' = true) demo0.
Proof.
  eapply wp_mono; [exact (sam_quota_init_establishes demo0 demo_lookup demo_unstarted eq_refl demo_lookup_ok)|].
  intros _ s' [_ H]. split; apply H.
Defined.

(** ** The theorems on it *)

Definition f10 : addr := 10%nat.
Definition f11 : addr := 11%nat.
Definition f12 : addr := 12%nat.

Lemma demo_file : nodes demo !! f10 = Some (demo_node false false true 1030).
Proof. vm_compute. reflexivity. Qed.
Lemma demo_index : nodes demo !! f11 = Some (demo_node true false true 1031).
Proof. vm_compute. reflexivity. Qed.
Lemma demo_off : nodes demo !! f12 = Some (demo_node false true true 1032).
Proof. vm_compute. reflexivity. Qed.
Lemma demo_core : in_core demo f10 /\ in_core demo f11.
Proof. repeat split; eexists; vm_compute; reflexivity. Qed.

Ltac blocks_range := unfold count_range; lia.

Lemma sam_quota_balloc_all_or_nothing_witness :
  wp (sam_quota_balloc f10 100 100 (Some 2)) (fun err s' => err = 0 \/ err = EDQUOT) demo.
Proof.
  eapply wp_mono.
  - apply (sam_quota_balloc_all_or_nothing demo f10 (demo_node false false true 1030) 100 100 (Some 2));
      [exact demo_ok|apply demo_core|exact demo_file|blocks_range|blocks_range|reflexivity].
  - intros err s' (_ & _ & [[-> _]|[-> _]]); auto.
Defined.

(** The hard limit of 120 blocks refuses 100 more; 50 more are granted. *)
Example balloc_refused :
  match sam_quota_balloc f10 100 100 (Some 2) demo with Done err _ => err | Fault _ => -1 end = EDQUOT /\
  match sam_quota_balloc f10 50 50 (Some 2) demo with Done err s => (err, usage_of s SAM_QUOTA_USER 2) | Fault _ => (-1, zero_usage) end
  = (0, (3, 3, 90, 90)).
Proof. vm_compute. split; reflexivity. Qed.

Lemma sam_quota_balloc_perm_all_or_nothing_witness :
  wp (sam_quota_balloc_perm (demo_node false false true 1030) 8 8 (Some 2)) (fun err s' => err = 0 \/ err = EDQUOT) demo.
Proof.
  eapply wp_mono.
  - apply (sam_quota_balloc_perm_all_or_nothing demo (demo_node false false true 1030) 8 8 (Some 2));
      [exact demo_ok|blocks_range|blocks_range|reflexivity].
  - intros err s' (_ & _ & [[-> _]|[-> _]]); auto.
Defined.

Lemma sam_quota_balloc_bret_witness :
  wp (err ← sam_quota_balloc f10 50 50 (Some 2); if err =? 0 then sam_quota_bret f10 50 50 else mret 0)
    (fun err s' => err = 0 /\ cache_ok ∅ s' /\ usage_step demo s' (fun _ _ u => u)) demo.
Proof.
  apply (sam_quota_balloc_bret demo f10 (demo_node false false true 1030) 50 50 (Some 2));
    [exact demo_ok|apply demo_core|exact demo_file|reflexivity|blocks_range|blocks_range|reflexivity].
Defined.

Lemma seg_index_bret_unbalanced_witness :
  wp (sam_quota_balloc f11 8 8 (Some 2);; sam_quota_bret f11 8 8)
    (fun err s' => err = 0 /\ usage_of s' SAM_QUOTA_USER 2 =
       use BLOCKS (s64 (- 8)) (s64 (- 8)) (usage_of demo SAM_QUOTA_USER 2)) demo.
Proof.
  apply (seg_index_bret_unbalanced demo f11 (demo_node true false true 1031) 8 8 (Some 2) SAM_QUOTA_USER 2);
    [exact demo_ok|apply demo_core|exact demo_index|reflexivity|vm_compute; reflexivity|blocks_range|blocks_range
    |reflexivity|unfold SAM_QUOTA_USER, SAM_QUOTA_DEFD; lia|lia|vm_compute; reflexivity].
Defined.

Lemma sam_quota_falloc_all_or_nothing_witness :
  wp (sam_quota_falloc 2 1 1 (Some 2)) (fun err s' => err = 0 \/ err = EDQUOT) demo.
Proof.
  eapply wp_mono; [apply (sam_quota_falloc_all_or_nothing demo 2 1 1 (Some 2)); exact demo_ok|].
  intros err s' (_ & _ & [[-> _]|[-> _]]); auto.
Defined.

Ltac demo_plain := split; [eassumption || vm_compute; reflexivity|split; [reflexivity|]];
  intros t Ht; unfold SAM_QUOTA_DEFD in Ht; assert (t = 0 \/ t = 1 \/ t = 2) as [->|[->| ->]] by lia;
  vm_compute; discriminate.

Lemma demo_plain10 : plain_file demo f10 (demo_node false false true 1030).
Proof. demo_plain. Qed.
Lemma demo_plain12 : plain_file demo f12 (demo_node false true true 1032).
Proof. demo_plain. Qed.

Lemma sam_quota_fret_online_witness :
  wp (sam_quota_fret f10) (fun err s' => err = 0 /\ usage_step demo s' (files_charged demo f10 (-1) (-1))) demo.
Proof.
  eapply wp_mono; [apply (sam_quota_fret_online demo f10 (demo_node false false true 1030));
    [exact demo_ok|exact demo_plain10|reflexivity|vm_compute; reflexivity]|].
  intros err s' (-> & _ & _ & H). auto.
Defined.

Lemma offline_file_stays_counted_witness :
  wp (sam_quota_foffline f12 None;; sam_quota_fret f12) (fun err s' => err = 0 /\
    usage_of s' SAM_QUOTA_USER 2 = (3, s64 (3 - 1), 40, 40)) demo.
Proof.
  apply (offline_file_stays_counted demo f12 (demo_node false true true 1032));
    [exact demo_ok|exact demo_plain12|reflexivity|vm_compute; reflexivity|unfold SAM_QUOTA_USER, SAM_QUOTA_DEFD; lia
    |vm_compute; reflexivity|lia|vm_compute; reflexivity].
Defined.

Lemma sam_quot_get_contract_witness :
  wp (sam_quot_get None SAM_QUOTA_USER 2) (fun r s' => exists a, r = Some a /\ got ∅ demo SAM_QUOTA_USER 2 a s') demo.
Proof.
  apply (sam_quot_get_contract ∅ demo None SAM_QUOTA_USER 2);
    [exact demo_ok|unfold SAM_QUOTA_USER, SAM_QUOTA_DEFD; lia|exact I|intros b q Hb; set_solver].
Defined.

(** The record of user 2, held. *)
Definition taken : addr := match sam_quot_get None SAM_QUOTA_USER 2 demo with Done (Some a) _ => a | _ => 0%nat end.
Definition demo_taken : kstate qfiles :=
  match sam_quot_get None SAM_QUOTA_USER 2 demo with Done _ s => s | Fault _ => demo end.

Lemma demo_taken_got : got ∅ demo SAM_QUOTA_USER 2 taken demo_taken.
Proof.
  assert (Hrun : wp (sam_quot_get None SAM_QUOTA_USER 2) (get_post ∅ demo None SAM_QUOTA_USER 2) demo).
  { apply get_spec; [exact demo_ok|unfold SAM_QUOTA_USER, SAM_QUOTA_DEFD; lia|exact I|intros b q Hb; set_solver]. }
  assert (E : sam_quot_get None SAM_QUOTA_USER 2 demo = Done (Some taken) demo_taken) by (vm_compute; reflexivity).
  pose proof (wp_of_done _ _ _ _ _ E Hrun) as Hp. unfold get_post in Hp.
  assert (Hc : charged demo None SAM_QUOTA_USER 2 = true) by (vm_compute; reflexivity).
  rewrite Hc in Hp. destruct Hp as (a & Ha & G). now apply Some_inj in Ha as <-.
Qed.

(** Five blocks are charged to it. *)
Definition charged_quot : sam_quot :=
  match heap demo_taken !! taken with
  | Some q => (sam_quota_bcheck true 1000 q 5 5 None).1.2
  | None => zero_quot
  end.
Definition demo_changed : kstate qfiles :=
  match mod_q taken (store_charge charged_quot) demo_taken with Done _ s => s | Fault _ => demo_taken end.

Lemma demo_changed_ok :
  cache_ok {[taken]} demo_changed /\ rec_at demo_changed taken = Some (core charged_quot).
Proof.
  pose proof demo_taken_got as G.
  destruct (got_heap _ _ _ _ _ _ G) as (q0 & Hq0 & Hh & _ & _ & _ & _ & Ht & _).
  assert (Eq : sam_quota_bcheck true 1000 q0 5 5 None = (0, charged_quot, [])).
  { unfold charged_quot. rewrite Hq0. vm_compute in Hq0. injection Hq0 as <-. vm_compute. reflexivity. }
  change (quota_charge BLOCKS true 1000 (s64 (5 + 5)) q0 5 5 None = (0, charged_quot, [])) in Eq.
  destruct (quota_charge_effect _ _ _ _ _ _ _ _ _ _ _ Eq) as [F Hty _ _ Hd _].
  pose proof (gt_ok _ _ _ _ _ _ G) as Hok.
  assert (Hrun := store_spec ∅ demo_taken taken q0 charged_quot Hok (not_elem_of_empty _) Hq0 Hh F (Hty Ht)
    (or_introl (Hd eq_refl))).
  assert (E : mod_q taken (store_charge charged_quot) demo_taken = Done tt demo_changed)
    by (vm_compute; reflexivity).
  destruct (wp_of_done _ _ _ _ _ E Hrun) as (H1 & _ & H2 & _).
  rewrite (right_id_L ∅ (∪)) in H1. auto.
Qed.

(** The changed record is in the file after its release. *)
Lemma sam_quot_rel_writes_through_witness :
  wp (sam_quot_rel taken) (fun _ s' => cache_ok ∅ s' /\
    qf_rec (env s') (qt_vp (core charged_quot)) 2 = Some (qt_dent (core charged_quot))) demo_changed.
Proof.
  assert (Hq : hashed (core charged_quot) = true /\ dirty (core charged_quot) = true /\
    qt_index (core charged_quot) = 2) by (vm_compute; auto).
  destruct Hq as (Hh & Hd & Ei). destruct demo_changed_ok as [Hok Hrec].
  eapply wp_mono; [apply (sam_quot_rel_writes_through {[taken]} demo_changed taken (core charged_quot));
    [exact Hok|set_solver|exact Hrec|exact Hh]|].
  intros _ s' (Hok' & _ & Hw & _). rewrite difference_diag_L in Hok'. specialize (Hw Hd).
  rewrite Ei in Hw. split; [exact Hok'|exact Hw].
Defined.

Lemma sam_quota_chown_moves_witness :
  wp (sam_quota_chown f10 1 1 2) (fun err s' => cache_ok ∅ s') demo.
Proof.
  eapply wp_mono; [apply (sam_quota_chown_moves demo f10 (demo_node false false true 1030) 1 1 2);
    [exact demo_ok|exact demo_file|vm_compute; reflexivity]|].
  now intros err s' (H & _).
Defined.

Lemma sam_set_aid_moves_witness :
  wp (sam_set_aid f10 SAM_INODE_AID 0) (fun err s' => err = 0 /\ cache_ok ∅ s') demo.
Proof.
  eapply wp_mono; [apply (sam_set_aid_moves demo f10 (demo_node false false true 1030) 0);
    [exact demo_ok|exact demo_file|vm_compute; reflexivity|unfold sint_range; lia]|].
  intros err s' (-> & H & _). auto.
Defined.

Lemma sam_quota_set_info_effect_witness :
  wp (sam_quota_set_info f10 user_limits SAM_QOP_PUT SAM_QUOTA_USER 1) (fun err s' => err = 0 /\
    exists vp d', quota_ip demo SAM_QUOTA_USER = Some vp /\ qf_rec (env s') vp 1 = Some d' /\
      limit_fields d' = limit_fields user_limits) demo.
Proof.
  eapply wp_mono; [apply (sam_quota_set_info_effect demo f10 user_limits SAM_QOP_PUT SAM_QUOTA_USER 1);
    [exact demo_ok|unfold SAM_QUOTA_USER, SAM_QUOTA_DEFD; lia|]|].
  - unfold dquot_typed, dquot_fields. repeat constructor; vm_compute; congruence.
  - intros err s' (_ & _ & H).
    assert (Hc : charged demo None SAM_QUOTA_USER 1 = true) by (vm_compute; reflexivity). rewrite Hc in H.
    destruct H as (-> & _ & H). auto.
Defined.

(** User 7 asks for the record of user [i]; the file is not writable to it. *)
Definition demo_call (denied : bool) (cmd t i : Z) : call_env :=
  mk_call_env (Some (mk_qarg cmd SAM_QFL_INDEX true t i 3)) (fun _ => Some (Some f10)) denied 7
    (fun _ => false) EACCES None false false user_limits.

Lemma sam_quota_stat_denied_witness :
  exists err, err <> 0 /\ sam_quota_stat (demo_call true SAM_QOP_GET SAM_QUOTA_USER 2) demo = Done (returns err) demo.
Proof.
  apply (sam_quota_stat_denied _ demo f10 (demo_node false false true 1030)
           (mk_qarg SAM_QOP_GET SAM_QFL_INDEX true SAM_QUOTA_USER 2 3));
    [reflexivity|reflexivity|reflexivity|exact demo_file|reflexivity|].
  intros [H|[H|[H _]]]; discriminate.
Defined.

Lemma sam_quota_stat_returns_usage_witness :
  wp (sam_quota_stat (demo_call true SAM_QOP_GET SAM_QUOTA_USER 7)) (fun r s' => cr_err r = 0) demo.
Proof.
  eapply wp_mono; [apply (sam_quota_stat_returns_usage _ demo f10 (demo_node false false true 1030)
           (mk_qarg SAM_QOP_GET SAM_QFL_INDEX true SAM_QUOTA_USER 7 3));
    [exact demo_ok|reflexivity|reflexivity|reflexivity|exact demo_file|reflexivity|right; left; reflexivity
    |unfold SAM_QUOTA_USER, SAM_QUOTA_DEFD; cbn; lia|reflexivity|reflexivity|reflexivity|vm_compute; reflexivity]|].
  now intros r s' (_ & _ & d & -> & _).
Defined.

Lemma sam_quota_stat_leaks_stack_witness :
  wp (sam_quota_stat (demo_call false SAM_QOP_GET SAM_QUOTA_USER (2 ^ 32 - 1)))
    (fun r _ => r = mk_call_result ENOENT (Some user_limits)
       (Some (mk_qarg SAM_QOP_GET SAM_QFL_INDEX true SAM_QUOTA_USER (2 ^ 32 - 1) 3))) demo.
Proof.
  apply (sam_quota_stat_leaks_stack (demo_call false SAM_QOP_GET SAM_QUOTA_USER (2 ^ 32 - 1)) demo f10
           (demo_node false false true 1030)
           (mk_qarg SAM_QOP_GET SAM_QFL_INDEX true SAM_QUOTA_USER (2 ^ 32 - 1) 3));
    [exact demo_ok|reflexivity|reflexivity|reflexivity|exact demo_file|reflexivity|left; reflexivity
    |unfold SAM_QUOTA_USER, SAM_QUOTA_DEFD; cbn; lia|reflexivity|reflexivity|reflexivity|vm_compute; reflexivity].
Defined.

Lemma sam_quota_op_privileged_witness :
  exists err, err <> 0 /\ sam_quota_op (demo_call true SAM_QOP_PUT SAM_QUOTA_USER 2) demo = Done (returns err) demo.
Proof. apply (sam_quota_op_privileged (demo_call true SAM_QOP_PUT SAM_QUOTA_USER 2) demo). reflexivity. Defined.

(** ** Quota files that cannot be written *)

#[local] Instance broken_env : QuotaEnv unit := {
  qf_size _ _ := 0;
  sam_read_vn _ _ _ buf := (0, buf);
  sam_write_vn e _ _ _ := (ENOSPC, e);
  client_get_quota _ _ _ d := (ENOTSUP, d);
  client_put_quota e _ _ _ _ _ := (ENOTSUP, e)
}.

(** A changed record of user 2, locked. *)
Definition broken_quot : sam_quot :=
  mk_quot 103%nat SAM_QF_DIRTY 0 SAM_QUOTA_USER 2 0 true None None None user_limits.
Definition broken : kstate unit :=
  mk_kstate (mk_mount MT_QUOTA false [Some 101%nat; Some 102%nat; Some 103%nat] None None false false)
    {[1%nat := broken_quot]} 2%nat ∅ tt 1000 [] [].

Lemma flush_error_forgotten_witness :
  wp (err1 ← sam_quota_flush 1%nat; err2 ← sam_quota_flush 1%nat; mret (err1, err2))
    (fun r s' => r = (ENOSPC, 0)) broken.
Proof.
  eapply wp_mono; [apply (flush_error_forgotten broken 1%nat broken_quot ENOSPC tt);
    try reflexivity; discriminate|].
  now intros r s' (-> & _).
Defined.

(** ** Single records *)

(** The record of user 2, in core. *)
Definition user_quot (d : sam_dquot) : sam_quot :=
  mk_quot 103%nat 0 0 SAM_QUOTA_USER 2 0 true None None None d.

Lemma bcheck_grant_within_hard_witness :
  exists q' msgs, sam_quota_bcheck true 1000 (user_quot user_limits) 70 70 (Some 2) = (0, q', msgs) /\
    within_hard BLOCKS true (qt_dent q').
Proof.
  do 2 eexists. split; [vm_compute; reflexivity|].
  refine (proj1 (bcheck_grant_within_hard true 1000 (user_quot user_limits) _ 70 70 2 _ _ _ _ _));
    [vm_compute; reflexivity|discriminate|discriminate|reflexivity].
Defined.

Lemma bcheck_refusal_neutral_witness :
  exists q' msgs, sam_quota_bcheck true 1000 (user_quot user_limits) 100 100 (Some 2) = (EDQUOT, q', msgs) /\
    usage (qt_dent q') = usage user_limits.
Proof.
  do 2 eexists. split; [vm_compute; reflexivity|].
  refine (proj1 (bcheck_refusal_neutral true 1000 (user_quot user_limits) _ 100 100 (Some 2) _ _ _));
    [|vm_compute; reflexivity].
  unfold dquot_ok, sint_range. cbn. lia.
Defined.

(** Over the limit for a while; the hour ends at 4600. *)
Definition expired_limits : sam_dquot :=
  mk_dquot (mk_qpair (mk_qgroup 3 8 10) (mk_qgroup 110 100 120))
           (mk_qpair (mk_qgroup 3 8 10) (mk_qgroup 110 1000 1200)) 3600 4600 3600 0 0 0.

(** Going over the limit starts the timer; the next write does not move it. *)
Lemma bcheck_grace_timer_witness :
  (exists q' msgs, sam_quota_bcheck true 1000 (user_quot user_limits) 70 70 (Some 2) = (0, q', msgs) /\
    dq_ol_enforce (qt_dent q') = 4600) /\
  exists q' msgs, sam_quota_bcheck true 2000 (user_quot expired_limits) 1 1 (Some 2) = (0, q', msgs) /\
    dq_ol_enforce (qt_dent q') = 4600.
Proof.
  split; do 2 eexists; (split; [vm_compute; reflexivity|]).
  - destruct (bcheck_grace_timer true 1000 (user_quot user_limits) _ 70 70 (Some 2) _ ltac:(vm_compute; reflexivity))
      as [H _]; [reflexivity|reflexivity|]. rewrite H. reflexivity.
  - destruct (bcheck_grace_timer true 2000 (user_quot expired_limits) _ 1 1 (Some 2) _ ltac:(vm_compute; reflexivity))
      as [_ H]; [reflexivity|reflexivity|]. apply H; [discriminate|reflexivity|reflexivity].
Defined.

Lemma bcheck_grace_expired_witness :
  fst (fst (sam_quota_bcheck true 5000 (user_quot expired_limits) 1 1 (Some 2))) = EDQUOT.
Proof.
  apply (bcheck_grace_expired true 5000 (user_quot expired_limits) 1 1 2); try reflexivity; discriminate.
Defined.
