(* ===== verification/Bitmap.v ===== *)
(** * Free maps of a partition

    A partition's space is a sequence of large disk allocation units (DAUs). Its free
    map, kept in [l_allocmap] device blocks from [allocmap] on, has one bit for each,
    set when the unit is free. A device block holds 256 words of 32 bits; within a word
    the first unit is the most significant bit.

    [sam_count_block] and [sam_reset_eq_space] (src/src/fs/samfs/block.c), the bit
    macros of src/src/fs/include/macros.h. *)

From Stdlib Require Import Sorted.
From S2P Require Import Prelude Dau.

Definition NBBY : Z := 8.
Definition NBPWSHIFT : Z := 2.
Definition NBBYSHIFT : Z := 3.
Definition NBWDSHIFT : Z := 5.
Definition SAM_BIT_SHIFT : Z := 13.
Definition SAM_LOG_WMASK : Z := 0x3fc.
(** Words of a device block. *)
Definition MAP_WORDS : nat := 256.

(** The macros on [unsigned] words. *)
Definition sam_setbit (x p : Z) : Z := Z.lor (Z.shiftl 1 p) x.
Definition sam_getbit (x p : Z) : Z := Z.land (Z.shiftr x p) 1.

(** [*wptr & mask], as a condition. *)
Definition bit_on (w mask : Z) : bool := negb (Z.land w mask =? 0).
(** [*wptr &= ~mask]. *)
Definition bit_clear (w mask : Z) : Z := Z.ldiff w mask.

(** ** The units that a map shows as free

    [bits_free n d w]: the units of the last [n] bits of [w], the first of them being
    unit [d]. *)
Fixpoint bits_free (n : nat) (d w : Z) : list Z :=
  match n with
  | O => []
  | S n' => (if Z.testbit w (Z.of_nat n') then [d] else []) ++ bits_free n' (d + 1) w
  end.

Definition word_free (d w : Z) : list Z := bits_free 32 d w.

Fixpoint words_free (d : Z) (ws : list Z) : list Z :=
  match ws with
  | [] => []
  | w :: ws' => word_free d w ++ words_free (d + 32) ws'
  end.

Fixpoint map_free (d : Z) (bs : list (list Z)) : list Z :=
  match bs with
  | [] => []
  | b :: bs' => words_free d b ++ map_free (d + 8192) bs'
  end.

(** ** Counting *)

(** The loop over the bits of a word. *)
Fixpoint count_bits (n : nat) (mask w free : Z) : Z :=
  match n with
  | O => free
  | S n' => count_bits n' (Z.shiftr mask 1) w (if bit_on w mask then free + 1 else free)
  end.

Fixpoint count_words (ws : list Z) (free : Z) : Z :=
  match ws with
  | [] => free
  | w :: ws' =>
      count_words ws' (if w =? 0 then free else count_bits 32 0x80000000 w free)
  end.

Definition sam_count_block (b : list Z) : Z := count_words b 0.

(** ** Lemmas *)

Lemma bit_on_testbit (w k : Z) : 0 <= k -> bit_on w (2 ^ k) = Z.testbit w k.
Proof.
  intros Hk. unfold bit_on. destruct (Z.testbit w k) eqn:E.
  - apply negb_true_iff, Z.eqb_neq. intros H.
    assert (F : Z.testbit (Z.land w (2 ^ k)) k = true).
    { now rewrite Z.land_spec, E, Z.pow2_bits_true. }
    rewrite H, Z.bits_0 in F. discriminate.
  - apply negb_false_iff, Z.eqb_eq, Z.bits_inj'. intros i Hi.
    rewrite Z.land_spec, Z.bits_0. destruct (Z.eqb_spec i k) as [->|Hne].
    + now rewrite E.
    + rewrite Z.pow2_bits_false; [apply andb_false_r|congruence].
Qed.

Lemma bit_clear_testbit (w k i : Z) :
  0 <= k -> 0 <= i -> Z.testbit (bit_clear w (2 ^ k)) i = Z.testbit w i && negb (i =? k).
Proof.
  intros Hk Hi. unfold bit_clear. rewrite Z.ldiff_spec.
  now rewrite Z.pow2_bits_eqb, Z.eqb_sym by lia.
Qed.

Lemma bit_clear_nonneg (w m : Z) : 0 <= w -> 0 <= bit_clear w m.
Proof. intros. apply Z.ldiff_nonneg. now left. Qed.

Lemma mask_shift (n : nat) : Z.shiftr (2 ^ Z.of_nat (S n)) 1 = 2 ^ Z.of_nat n.
Proof.
  rewrite Z.shiftr_div_pow2, Z.pow_1_r by lia. rewrite Nat2Z.inj_succ, Z.pow_succ_r by lia.
  rewrite Z.mul_comm. apply Z.div_mul. lia.
Qed.

(** Bits at or above the range do not matter. *)
Lemma bits_free_ext (n : nat) (d w w' : Z) :
  (forall i, 0 <= i < Z.of_nat n -> Z.testbit w i = Z.testbit w' i) ->
  bits_free n d w = bits_free n d w'.
Proof.
  revert d. induction n as [|n IH]; intros d H; [reflexivity|]. cbn.
  rewrite (H (Z.of_nat n)) by lia. f_equal. apply IH. intros. apply H. lia.
Qed.

Lemma bits_free_clear (n : nat) (d w k : Z) :
  Z.of_nat n <= k -> bits_free n d (bit_clear w (2 ^ k)) = bits_free n d w.
Proof.
  intros Hk. apply bits_free_ext. intros i Hi. rewrite bit_clear_testbit by lia.
  destruct (Z.eqb_spec i k); [lia|]. apply andb_true_r.
Qed.

Lemma bits_free_0 (n : nat) (d : Z) : bits_free n d 0 = [].
Proof. revert d. induction n; intros; cbn; [reflexivity|]. now rewrite Z.bits_0, IHn. Qed.

Lemma bits_free_range (n : nat) (d w u : Z) :
  u ∈ bits_free n d w -> d <= u < d + Z.of_nat n.
Proof.
  revert d. induction n as [|n IH]; intros d; [set_solver|].
  cbn [bits_free]. rewrite elem_of_app. intros [H|H].
  - destruct (Z.testbit w (Z.of_nat n)); set_unfold; [subst; lia|done].
  - apply IH in H. lia.
Qed.

Lemma bits_free_spec (n : nat) (d w u : Z) :
  d <= u < d + Z.of_nat n ->
  u ∈ bits_free n d w <-> Z.testbit w (Z.of_nat n - 1 - (u - d)) = true.
Proof.
  revert d. induction n as [|n IH]; intros d Hu; [lia|].
  cbn [bits_free]. rewrite elem_of_app. destruct (Z.eq_dec u d) as [->|Hne].
  - replace (Z.of_nat (S n) - 1 - (d - d)) with (Z.of_nat n) by lia.
    split; [intros [H|H]|intros ->; set_solver].
    + destruct (Z.testbit w (Z.of_nat n)); set_solver.
    + apply bits_free_range in H. lia.
  - rewrite IH by lia. replace (Z.of_nat n - 1 - (u - (d + 1))) with
      (Z.of_nat (S n) - 1 - (u - d)) by lia.
    split; [intros [H|H]; [|exact H]|now right].
    destruct (Z.testbit w (Z.of_nat n)); set_solver.
Qed.

Lemma bits_free_nodup (n : nat) (d w : Z) : NoDup (bits_free n d w).
Proof.
  revert d. induction n as [|n IH]; intros d; cbn; [constructor|].
  destruct (Z.testbit w (Z.of_nat n)); cbn; [|apply IH].
  apply NoDup_cons. split; [|apply IH]. intros H. apply bits_free_range in H. lia.
Qed.

Lemma words_free_range (d : Z) (ws : list Z) (u : Z) :
  u ∈ words_free d ws -> d <= u < d + 32 * Z.of_nat (length ws).
Proof.
  revert d. induction ws as [|w ws IH]; intros d; cbn [words_free length]; [set_solver|].
  rewrite elem_of_app. intros [H|H]; [apply bits_free_range in H|apply IH in H]; lia.
Qed.

Lemma words_free_nodup (d : Z) (ws : list Z) : NoDup (words_free d ws).
Proof.
  revert d. induction ws as [|w ws IH]; intros d; cbn [words_free]; [constructor|].
  apply NoDup_app. repeat split; [apply bits_free_nodup| |apply IH].
  intros u H1 H2. apply bits_free_range in H1. apply words_free_range in H2. lia.
Qed.

Lemma words_free_app (d : Z) (a b : list Z) :
  words_free d (a ++ b) = words_free d a ++ words_free (d + 32 * Z.of_nat (length a)) b.
Proof.
  revert d. induction a as [|w a IH]; intros d; cbn [words_free length app].
  - f_equal. lia.
  - rewrite IH, <- app_assoc. do 3 f_equal. lia.
Qed.

Lemma map_free_app (d : Z) (a b : list (list Z)) :
  map_free d (a ++ b) = map_free d a ++ map_free (d + 8192 * Z.of_nat (length a)) b.
Proof.
  revert d. induction a as [|w a IH]; intros d; cbn [map_free length app].
  - f_equal. lia.
  - rewrite IH, <- app_assoc. do 3 f_equal. lia.
Qed.

(** A map of whole device blocks of 32-bit words. *)
Definition block_wf (b : list Z) : Prop :=
  length b = MAP_WORDS /\ Forall (uint_range 32) b.
Definition map_wf (bs : list (list Z)) : Prop := Forall block_wf bs.

Lemma map_free_range (d : Z) (bs : list (list Z)) (u : Z) :
  map_wf bs -> u ∈ map_free d bs -> d <= u < d + 8192 * Z.of_nat (length bs).
Proof.
  intros H. revert d. induction H as [|b bs [Hb _] _ IH]; intros d; cbn [map_free length];
    [set_solver|].
  rewrite elem_of_app. intros [Hu|Hu]; [apply words_free_range in Hu|apply IH in Hu].
  - rewrite Hb in Hu. unfold MAP_WORDS in Hu. lia.
  - lia.
Qed.

Lemma map_free_nodup (d : Z) (bs : list (list Z)) : map_wf bs -> NoDup (map_free d bs).
Proof.
  intros H. revert d. induction H as [|b bs [Hb Hw] Hm IH]; intros d; cbn [map_free];
    [constructor|].
  apply NoDup_app. repeat split; [apply words_free_nodup| |apply IH].
  intros u H1 H2. apply words_free_range in H1. apply map_free_range in H2; [|exact Hm].
  rewrite Hb in H1. unfold MAP_WORDS in H1. lia.
Qed.

(** One block of a map. *)
Lemma map_free_split (d : Z) (bs : list (list Z)) (i : nat) (b : list Z) :
  bs !! i = Some b ->
  map_free d bs = map_free d (take i bs) ++ words_free (d + 8192 * Z.of_nat i) b
                  ++ map_free (d + 8192 * (Z.of_nat i + 1)) (drop (S i) bs).
Proof.
  intros E. pose proof (lookup_lt_Some _ _ _ E).
  rewrite <- (take_drop_middle _ _ _ E) at 1. rewrite map_free_app, length_take.
  rewrite Nat.min_l by lia. cbn [map_free]. do 3 f_equal. lia.
Qed.

Lemma map_free_insert (d : Z) (bs : list (list Z)) (i : nat) (b' : list Z) :
  (i < length bs)%nat ->
  map_free d (<[i := b']> bs) = map_free d (take i bs) ++ words_free (d + 8192 * Z.of_nat i) b'
                  ++ map_free (d + 8192 * (Z.of_nat i + 1)) (drop (S i) bs).
Proof.
  intros Hi. rewrite (map_free_split d _ i b') by now apply list_lookup_insert_eq.
  now rewrite take_insert_ge, drop_insert_lt by lia.
Qed.

(** [sam_count_block] counts the free units. *)
Lemma count_bits_spec (n : nat) (w d free : Z) :
  count_bits n (Z.shiftr (2 ^ Z.of_nat n) 1) w free = free + Z.of_nat (length (bits_free n d w)).
Proof.
  revert d free. induction n as [|n IH]; intros d free; cbn [count_bits bits_free]; [cbn; lia|].
  rewrite mask_shift, bit_on_testbit by lia. rewrite (IH (d + 1)), length_app.
  destruct (Z.testbit w (Z.of_nat n)); cbn [length]; lia.
Qed.

Lemma count_words_spec (ws : list Z) (d free : Z) :
  count_words ws free = free + Z.of_nat (length (words_free d ws)).
Proof.
  revert d free. induction ws as [|w ws IH]; intros d free; cbn [count_words words_free].
  - cbn. lia.
  - rewrite (IH (d + 32)), length_app. destruct (Z.eqb_spec w 0) as [->|_].
    + unfold word_free. rewrite bits_free_0. cbn. lia.
    + change 0x80000000 with (Z.shiftr (2 ^ Z.of_nat 32) 1).
      rewrite (count_bits_spec 32 w d). unfold word_free. lia.
Qed.

Lemma sam_count_block_spec (b : list Z) (d : Z) :
  sam_count_block b = Z.of_nat (length (words_free d b)).
Proof. unfold sam_count_block. now rewrite (count_words_spec b d). Qed.

(** ** Membership: the bit of a unit *)

Definition free_bit (m : list (list Z)) (u : Z) : bool :=
  match m !! Z.to_nat (u / 8192) with
  | Some b => match b !! Z.to_nat (u mod 8192 / 32) with
              | Some w => Z.testbit w (31 - u mod 32)
              | None => false
              end
  | None => false
  end.

Lemma words_free_elem (ws : list Z) (d u : Z) :
  d <= u -> u ∈ words_free d ws <->
  match ws !! Z.to_nat ((u - d) / 32) with
  | Some w => Z.testbit w (31 - (u - d) mod 32) = true
  | None => False
  end.
Proof.
  revert d. induction ws as [|w ws IH]; intros d Hd; cbn [words_free].
  { rewrite lookup_nil. set_solver. }
  rewrite elem_of_app. unfold word_free. destruct (Z.lt_ge_cases (u - d) 32) as [Hs|Hs].
  - rewrite bits_free_spec by lia. rewrite Z.div_small, Z.mod_small by lia. cbn.
    split; [intros [H|H]|now left].
    + exact H.
    + apply words_free_range in H. lia.
  - assert (E : Z.to_nat ((u - d) / 32) = S (Z.to_nat ((u - (d + 32)) / 32))).
    { rewrite <- Z2Nat.inj_succ by dlia. f_equal. dlia. }
    rewrite E. cbn [lookup list_lookup]. rewrite IH by lia.
    replace ((u - d) mod 32) with ((u - (d + 32)) mod 32) by dlia.
    split; [intros [H|H]; [apply bits_free_range in H; lia|exact H]|now right].
Qed.

Lemma map_free_elem_from (m : list (list Z)) (d u : Z) :
  map_wf m -> d <= u -> u ∈ map_free d m <->
  match m !! Z.to_nat ((u - d) / 8192) with
  | Some b => match b !! Z.to_nat ((u - d) mod 8192 / 32) with
              | Some w => Z.testbit w (31 - (u - d) mod 32) = true
              | None => False
              end
  | None => False
  end.
Proof.
  intros W. revert d. induction W as [|b m [Hb _] W IH]; intros d Hd; cbn [map_free].
  { rewrite lookup_nil. set_solver. }
  rewrite elem_of_app. destruct (Z.lt_ge_cases (u - d) 8192) as [Hs|Hs].
  - rewrite Z.div_small, (Z.mod_small (u - d) 8192) by lia.
    change ((b :: m) !! Z.to_nat 0) with (Some b). cbv iota.
    rewrite <- (words_free_elem b d u Hd).
    split; [intros [H|H]; [exact H|apply map_free_range in H; [lia|exact W]]|now left].
  - assert (E : Z.to_nat ((u - d) / 8192) = S (Z.to_nat ((u - (d + 8192)) / 8192))).
    { rewrite <- Z2Nat.inj_succ by dlia. f_equal. dlia. }
    rewrite E. cbn [lookup list_lookup]. rewrite IH by lia.
    replace ((u - d) mod 8192) with ((u - (d + 8192)) mod 8192) by dlia.
    replace ((u - d) mod 32) with ((u - (d + 8192)) mod 32) by dlia.
    split; [intros [H|H]; [|exact H]|now right].
    apply words_free_range in H. rewrite Hb in H. unfold MAP_WORDS in H. lia.
Qed.

Lemma map_free_elem (m : list (list Z)) (u : Z) :
  map_wf m -> 0 <= u -> u ∈ map_free 0 m <-> free_bit m u = true.
Proof.
  intros W Hu. rewrite map_free_elem_from, Z.sub_0_r by assumption. unfold free_bit.
  destruct (m !! Z.to_nat (u / 8192)) as [b|]; [|easy].
  now destruct (b !! Z.to_nat (u mod 8192 / 32)).
Qed.

Lemma sam_setbit_testbit (w p i : Z) :
  0 <= p -> 0 <= i -> Z.testbit (sam_setbit w p) i = (i =? p) || Z.testbit w i.
Proof.
  intros. unfold sam_setbit. rewrite Z.lor_spec, Z.shiftl_1_l, Z.pow2_bits_eqb by lia.
  now rewrite Z.eqb_sym.
Qed.

Lemma sam_setbit_range (w p : Z) : 0 <= p < 32 -> uint_range 32 w -> uint_range 32 (sam_setbit w p).
Proof.
  intros Hp [H1 H2]. assert (Hn : 0 <= sam_setbit w p).
  { unfold sam_setbit. apply Z.lor_nonneg. split; [apply Z.shiftl_nonneg|]; lia. }
  split; [exact Hn|]. destruct (Z.eq_dec (sam_setbit w p) 0) as [->|Hz]; [lia|].
  apply Z.log2_lt_pow2; [lia|]. unfold sam_setbit. rewrite Z.log2_lor by (try apply Z.shiftl_nonneg; lia).
  rewrite Z.shiftl_1_l, Z.log2_pow2 by lia. apply Z.max_lub_lt; [lia|].
  destruct (Z.eq_dec w 0) as [->|]; [cbn; lia|]. apply Z.log2_lt_pow2; lia.
Qed.
