(* ===== verification/BlockPool.v ===== *)
(** * Block pools

    For each partition and block type the file system keeps a circular queue of blocks
    that can be handed out without I/O ([struct sam_block], src/src/fs/include/block.h).
    Three indices divide it: [[out, in)] holds blocks available for allocation,
    [[in, fill)] blocks whose free map update is being written, the rest is unused.

    [BLOCK_COUNT], [sam_fill_block_pool], [sam_init_blocklist], [sam_drain_free_list]
    (src/src/fs/samfs/block.c) and the removal loop of [sam_alloc_block]
    (src/src/fs/samfs/balloc.c). *)

From S2P Require Import Prelude Dau.

Definition L_SAM_BLK : Z := 256.

Definition BLOCK_COUNT (i o lim : Z) : Z :=
  swrap 16 (if i - o <? 0 then (lim - o) + i else i - o).

Record sam_block : Type := mk_sam_block {
  b_in : Z;             (* in *)
  b_out : Z;            (* out *)
  b_fill : Z;           (* fill *)
  b_limit : Z;          (* limit *)
  b_count : Z;          (* block_count *)
  b_bn : list Z         (* bn[limit] *)
}.

Definition set_b_in (i : Z) (b : sam_block) : sam_block :=
  mk_sam_block i (b_out b) (b_fill b) (b_limit b) (b_count b) (b_bn b).
Definition set_b_out (o : Z) (b : sam_block) : sam_block :=
  mk_sam_block (b_in b) o (b_fill b) (b_limit b) (b_count b) (b_bn b).
Definition set_b_fill (f : Z) (b : sam_block) : sam_block :=
  mk_sam_block (b_in b) (b_out b) f (b_limit b) (b_count b) (b_bn b).
Definition set_b_count (n : Z) (b : sam_block) : sam_block :=
  mk_sam_block (b_in b) (b_out b) (b_fill b) (b_limit b) n (b_bn b).
Definition set_b_bn (i v : Z) (b : sam_block) : sam_block :=
  mk_sam_block (b_in b) (b_out b) (b_fill b) (b_limit b) (b_count b)
    (<[Z.to_nat i := v]> (b_bn b)).

(** [bn[i]]; the invariant [pool_wf] keeps every index within the array. *)
Definition bn_at (b : sam_block) (i : Z) : Z := default 0 (b_bn b !! Z.to_nat i).

(** Index moves, as the two places write them. *)
Definition next_fill (b : sam_block) : Z :=
  if b_fill b + 1 <? b_limit b then b_fill b + 1 else 0.
Definition next_out (b : sam_block) : Z :=
  if b_limit b <=? b_out b + 1 then 0 else b_out b + 1.

(** ** Filling *)

(** One turn of the loop; the flag tells whether the queue was full ("BLOCK WRAP", a
    consistency check is requested). *)
Definition fill_one (bn_shift bn : Z) (b : sam_block) : sam_block * bool :=
  let i := next_fill b in
  if negb (i =? b_out b) then
    (set_b_fill i (set_b_bn (b_fill b) (u32 (Z.shiftr bn bn_shift)) b), false)
  else (b, true).

Fixpoint sam_fill_block_pool (bn_shift sm_dev_block : Z) (nblocks : nat) (bn : Z)
    (b : sam_block) : sam_block * bool :=
  match nblocks with
  | O => (b, false)
  | S n =>
      let '(b1, w1) := fill_one bn_shift bn b in
      let '(b2, w2) := sam_fill_block_pool bn_shift sm_dev_block n (bn + sm_dev_block) b1 in
      (b2, w1 || w2)
  end.

(** [block->fill = block->in] and the block count, at the start of a fill. *)
Definition begin_fill (b : sam_block) : sam_block :=
  set_b_count (BLOCK_COUNT (b_in b) (b_out b) (b_limit b)) (set_b_fill (b_in b) b).

(** [block->in = block->fill]: the blocks become available. *)
Definition commit_fill (b : sam_block) : sam_block := set_b_in (b_fill b) b.

(** ** Taking a block

    The loop of [sam_alloc_block] at one unit: blocks below the system area are
    reported and dropped. [None] when the queue is exhausted; the flag tells whether a
    consistency check was requested. *)
Definition take_one (b : sam_block) : Z * sam_block :=
  (bn_at b (b_out b), set_b_out (next_out b) (set_b_bn (b_out b) 0 b)).

Fixpoint pool_take (fuel : nat) (bn_shift system : Z) (b : sam_block)
  : option Z * sam_block * bool :=
  match fuel with
  | O => (None, b, false)
  | S fuel' =>
      if b_out b =? b_in b then (None, b, false)
      else
        let '(bn, b') := take_one b in
        if Z.shiftl bn bn_shift <? system then
          let '(r, _) := pool_take fuel' bn_shift system b' in (r, true)
        else (Some bn, b', false)
  end.

(** The drain loop of [sam_drain_free_list] at one pool: the blocks passed to
    [sam_free_block], in order. *)
Fixpoint pool_drain (fuel : nat) (b : sam_block) : list Z * sam_block :=
  match fuel with
  | O => ([], b)
  | S fuel' =>
      if b_out b =? b_in b then ([], b)
      else
        let '(bn, b') := take_one b in
        let '(l, b'') := pool_drain fuel' b' in
        (bn :: l, b'')
  end.

(** Each turn of these loops moves [out] towards [in]. *)
Definition pool_fuel (b : sam_block) : nat := Z.to_nat (b_limit b).

(** ** Creation *)

Definition pool_limit (fs_count : Z) : Z :=
  let l1 := if 2 <? fs_count then Z.shiftr L_SAM_BLK 1 else L_SAM_BLK in
  if 4 <? fs_count then Z.shiftr l1 1 else l1.

Definition new_block (limit : Z) : sam_block :=
  mk_sam_block 0 0 0 limit 0 (replicate (Z.to_nat limit) 0).

(** Partition types, as far as pools distinguish them. *)
Inductive dtype : Type :=
  | DT_DATA      (* data device with two block sizes *)
  | DT_META      (* metadata device *)
  | DT_RAID.     (* other data devices and striped groups: large blocks only *)

#[export] Instance dtype_eq_dec : EqDecision dtype.
Proof. solve_decision. Defined.

Definition pools : Type := per_bt (option sam_block).

(** [mm_sm_lg_differ]: [SM_BLK(mp, MM) != LG_BLK(mp, MM)]. The flag returned is the
    setting of [MC_SMALL_DAUS]. *)
Definition sam_init_blocklist (fs_count : Z) (pt_type : dtype) (mm_sm_lg_differ : bool)
    (p : pools) : pools * bool :=
  let small := match pt_type with
               | DT_DATA => true
               | DT_META => mm_sm_lg_differ
               | DT_RAID => false
               end in
  let init o := match o with None => Some (new_block (pool_limit fs_count)) | Some b => Some b end in
  (mk_per_bt (if small then init (at_sm p) else at_sm p) (init (at_lg p)), small).

(** ** The queue as a list

    [ring b i n]: the [n] entries from index [i] on. *)
Definition ring (b : sam_block) (i : Z) (n : nat) : list Z :=
  (fun k => bn_at b ((i + Z.of_nat k) mod b_limit b)) <$> seq 0 n.

Definition ring_count (b : sam_block) (i o : Z) : nat := Z.to_nat ((i - o) mod b_limit b).

(** Available, uncommitted, and both. *)
Definition avail (b : sam_block) : list Z := ring b (b_out b) (ring_count b (b_in b) (b_out b)).
Definition pend (b : sam_block) : list Z := ring b (b_in b) (ring_count b (b_fill b) (b_in b)).
Definition queued (b : sam_block) : list Z :=
  ring b (b_out b) (ring_count b (b_fill b) (b_out b)).

Record pool_wf (b : sam_block) : Prop := {
  pw_limit : 2 <= b_limit b < 2 ^ 15;
  pw_in : 0 <= b_in b < b_limit b;
  pw_out : 0 <= b_out b < b_limit b;
  pw_fill : 0 <= b_fill b < b_limit b;
  pw_len : length (b_bn b) = Z.to_nat (b_limit b);
  pw_order : (ring_count b (b_in b) (b_out b) <= ring_count b (b_fill b) (b_out b))%nat
}.

(** ** Lemmas *)

Lemma mod_once (x m : Z) : 0 <= x < 2 * m -> x mod m = if x <? m then x else x - m.
Proof.
  intros. destruct (Z.ltb_spec x m); [apply Z.mod_small; lia|].
  symmetry. apply (Z.mod_unique_pos _ _ 1); lia.
Qed.

Lemma mod_diff (i o m : Z) :
  0 <= i < m -> 0 <= o < m -> (i - o) mod m = if i - o <? 0 then m - o + i else i - o.
Proof.
  intros. destruct (Z.ltb_spec (i - o) 0); [|apply Z.mod_small; lia].
  symmetry. apply (Z.mod_unique_pos _ _ (-1)); lia.
Qed.

Lemma BLOCK_COUNT_mod (i o lim : Z) :
  lim < 2 ^ 15 -> 0 <= i < lim -> 0 <= o < lim -> BLOCK_COUNT i o lim = (i - o) mod lim.
Proof.
  intros Hl Hi Ho. unfold BLOCK_COUNT. rewrite <- mod_diff by lia.
  apply swrap_id; [lia|]. unfold sint_range.
  pose proof (Z.mod_pos_bound (i - o) lim). lia.
Qed.

Lemma next_fill_mod (b : sam_block) :
  0 <= b_fill b < b_limit b -> next_fill b = (b_fill b + 1) mod b_limit b.
Proof.
  intros. unfold next_fill. rewrite mod_once by lia.
  destruct (Z.ltb_spec (b_fill b + 1) (b_limit b)); lia.
Qed.

Lemma next_out_mod (b : sam_block) :
  0 <= b_out b < b_limit b -> next_out b = (b_out b + 1) mod b_limit b.
Proof.
  intros. unfold next_out. rewrite mod_once by lia.
  destruct (Z.leb_spec (b_limit b) (b_out b + 1)), (Z.ltb_spec (b_out b + 1) (b_limit b)); lia.
Qed.

Lemma ring_S (b : sam_block) (i : Z) (n : nat) :
  ring b i (S n) = ring b i n ++ [bn_at b ((i + Z.of_nat n) mod b_limit b)].
Proof. unfold ring. now rewrite seq_S, fmap_app. Qed.

Lemma ring_cons (b : sam_block) (i : Z) (n : nat) :
  0 < b_limit b ->
  ring b i (S n) = bn_at b (i mod b_limit b) :: ring b ((i + 1) mod b_limit b) n.
Proof.
  intros Hl. unfold ring. cbn [seq fmap list_fmap]. f_equal; [f_equal; f_equal; lia|].
  rewrite <- fmap_S_seq, <- list_fmap_compose. apply list_fmap_ext. intros k x _. cbn.
  f_equal. rewrite Zplus_mod_idemp_l. f_equal. lia.
Qed.

Lemma ring_app (b : sam_block) (i : Z) (n m : nat) :
  ring b i (n + m) = ring b i n ++ ring b ((i + Z.of_nat n) mod b_limit b) m.
Proof.
  unfold ring. rewrite seq_app, fmap_app. f_equal.
  replace (0 + n)%nat with (n + 0)%nat by lia.
  rewrite <- fmap_add_seq, <- list_fmap_compose. apply list_fmap_ext.
  intros k x _. cbn. f_equal. rewrite Zplus_mod_idemp_l. f_equal. lia.
Qed.

Lemma ring_length (b : sam_block) (i : Z) (n : nat) : length (ring b i n) = n.
Proof. unfold ring. now rewrite length_fmap, length_seq. Qed.

(** Only the array matters, and only within the range. *)
Lemma ring_ext (b b' : sam_block) (i : Z) (n : nat) :
  b_limit b' = b_limit b ->
  (forall k, (k < n)%nat -> bn_at b' ((i + Z.of_nat k) mod b_limit b)
                          = bn_at b ((i + Z.of_nat k) mod b_limit b)) ->
  ring b' i n = ring b i n.
Proof.
  intros El H. unfold ring. rewrite El. apply list_fmap_ext. intros k x Hk.
  apply lookup_seq in Hk. apply H. lia.
Qed.

Lemma bn_at_set_same (b : sam_block) (i v : Z) :
  0 <= i < Z.of_nat (length (b_bn b)) -> bn_at (set_b_bn i v b) i = v.
Proof. intros. unfold bn_at. cbn. rewrite list_lookup_insert_eq by lia. reflexivity. Qed.

Lemma bn_at_set_other (b : sam_block) (i j v : Z) :
  0 <= i -> 0 <= j -> i <> j -> bn_at (set_b_bn i v b) j = bn_at b j.
Proof. intros. unfold bn_at. cbn. now rewrite list_lookup_insert_ne by lia. Qed.

Lemma ring_set_out (b : sam_block) (i j v : Z) (n : nat) :
  0 < b_limit b -> 0 <= i < b_limit b -> 0 <= j < b_limit b ->
  Z.of_nat n <= (j - i) mod b_limit b ->
  ring (set_b_bn j v b) i n = ring b i n.
Proof.
  intros Hl Hi Hj Hn. apply ring_ext; [reflexivity|]. intros k Hk.
  apply bn_at_set_other; [lia|apply Z.mod_pos_bound; lia|].
  rewrite mod_diff in Hn by lia. destruct (Z.ltb_spec (j - i) 0);
    (rewrite mod_once by lia; destruct (Z.ltb_spec (i + Z.of_nat k) (b_limit b)); lia).
Qed.

(** *** What each operation does to the queue *)

Lemma ring_count_of (b : sam_block) (i o : Z) :
  0 < b_limit b -> Z.of_nat (ring_count b i o) = (i - o) mod b_limit b.
Proof. intros. unfold ring_count. rewrite Z2Nat.id; [reflexivity|]. apply Z.mod_pos_bound. lia. Qed.

(** Positions on the ring add up when they do not pass the origin. *)
Lemma ring_count_split (b : sam_block) (i o f : Z) :
  0 <= i < b_limit b -> 0 <= o < b_limit b -> 0 <= f < b_limit b ->
  (ring_count b i o <= ring_count b f o)%nat ->
  ring_count b f o = (ring_count b i o + ring_count b f i)%nat.
Proof.
  intros Hi Ho Hf. unfold ring_count. rewrite !mod_diff by lia.
  destruct (Z.ltb_spec (i - o) 0), (Z.ltb_spec (f - o) 0), (Z.ltb_spec (f - i) 0); lia.
Qed.

Lemma queued_split (b : sam_block) : pool_wf b -> queued b = avail b ++ pend b.
Proof.
  intros []. unfold queued, avail, pend.
  rewrite (ring_count_split b (b_in b) (b_out b) (b_fill b)), ring_app by auto.
  do 2 f_equal. rewrite ring_count_of by lia. rewrite Zplus_mod_idemp_r.
  rewrite Z.mod_small; lia.
Qed.

Lemma queued_count (b : sam_block) :
  pool_wf b -> BLOCK_COUNT (b_fill b) (b_out b) (b_limit b) = Z.of_nat (length (queued b)).
Proof.
  intros []. unfold queued. rewrite ring_length, ring_count_of by lia.
  apply BLOCK_COUNT_mod; lia.
Qed.

Lemma avail_count (b : sam_block) :
  pool_wf b -> BLOCK_COUNT (b_in b) (b_out b) (b_limit b) = Z.of_nat (length (avail b)).
Proof.
  intros []. unfold avail. rewrite ring_length, ring_count_of by lia.
  apply BLOCK_COUNT_mod; lia.
Qed.

(** The capacity of a pool is one less than its array. *)
Lemma queued_bound (b : sam_block) : pool_wf b -> Z.of_nat (length (queued b)) < b_limit b.
Proof.
  intros []. unfold queued. rewrite ring_length, ring_count_of by lia.
  apply Z.mod_pos_bound. lia.
Qed.

Lemma mod_diff_succ (f o m : Z) :
  0 <= f < m -> 0 <= o < m -> (f - o) mod m + 1 < m ->
  ((f + 1) mod m - o) mod m = (f - o) mod m + 1.
Proof.
  intros Hf Ho H. rewrite Zminus_mod_idemp_l. replace (f + 1 - o) with (f - o + 1) by lia.
  rewrite <- Zplus_mod_idemp_l. apply Z.mod_small.
  pose proof (Z.mod_pos_bound (f - o) m). lia.
Qed.

(** A block is put at the end as long as the queue is not full. *)
Lemma fill_one_room (bn_shift bn : Z) (b : sam_block) :
  pool_wf b -> Z.of_nat (length (queued b)) + 1 < b_limit b ->
  exists b', fill_one bn_shift bn b = (b', false) /\ pool_wf b' /\
    queued b' = queued b ++ [u32 (Z.shiftr bn bn_shift)] /\ avail b' = avail b /\
    b_in b' = b_in b /\ b_out b' = b_out b /\ b_limit b' = b_limit b.
Proof.
  intros W Hr. pose proof W as []. unfold queued in Hr.
  rewrite ring_length, ring_count_of in Hr by lia.
  unfold fill_one. rewrite next_fill_mod by lia.
  pose proof (mod_diff_succ (b_fill b) (b_out b) (b_limit b)) as Hs.
  destruct (Z.eqb_spec ((b_fill b + 1) mod b_limit b) (b_out b)) as [E|_].
  { rewrite E, Z.sub_diag, Zmod_0_l in Hs.
    pose proof (Z.mod_pos_bound (b_fill b - b_out b) (b_limit b)). lia. }
  cbn [negb]. eexists. split; [reflexivity|].
  set (v := u32 (Z.shiftr bn bn_shift)).
  assert (Hc : ring_count b ((b_fill b + 1) mod b_limit b) (b_out b)
               = S (ring_count b (b_fill b) (b_out b))).
  { apply Nat2Z.inj. rewrite Nat2Z.inj_succ, !ring_count_of by lia. lia. }
  assert (Hq : forall n, (n <= ring_count b (b_fill b) (b_out b))%nat ->
    ring (set_b_bn (b_fill b) v b) (b_out b) n = ring b (b_out b) n).
  { intros n Hn. apply ring_set_out; try lia. rewrite <- ring_count_of by lia. lia. }
  set (b1 := set_b_bn (b_fill b) v b) in *.
  set (nf := (b_fill b + 1) mod b_limit b) in *.
  split_and!; try reflexivity.
  - constructor; cbn; rewrite ?length_insert; try assumption; try lia.
    + apply Z.mod_pos_bound. lia.
    + change (ring_count b (b_in b) (b_out b) <= ring_count b nf (b_out b))%nat. lia.
  - change (ring b1 (b_out b) (ring_count b nf (b_out b)) = queued b ++ [v]).
    rewrite Hc, ring_S, Hq by lia. unfold queued. f_equal. f_equal.
    rewrite ring_count_of by lia. cbn [b1 set_b_bn b_limit].
    rewrite Zplus_mod_idemp_r. replace (b_out b + (b_fill b - b_out b)) with (b_fill b) by lia.
    rewrite Z.mod_small by lia. apply bn_at_set_same. lia.
  - change (ring b1 (b_out b) (ring_count b (b_in b) (b_out b)) = avail b). now apply Hq.
Qed.

(** Filling puts a run of blocks at the end of the queue. *)
Definition fill_list (bn_shift sm_dev_block : Z) (nblocks : nat) (bn : Z) : list Z :=
  (fun k => u32 (Z.shiftr (bn + sm_dev_block * Z.of_nat k) bn_shift)) <$> seq 0 nblocks.

Lemma fill_list_S (bn_shift sm n : _) (k : nat) :
  fill_list bn_shift sm (S k) n
  = u32 (Z.shiftr n bn_shift) :: fill_list bn_shift sm k (n + sm).
Proof.
  unfold fill_list. cbn [seq fmap list_fmap]. f_equal; [do 2 f_equal; lia|].
  rewrite <- fmap_S_seq, <- list_fmap_compose. apply list_fmap_ext. intros j x _. cbn.
  do 2 f_equal. lia.
Qed.

(** Same pool, as far as readers of [in] and [out] can tell. *)
Definition same_ends (b' b : sam_block) : Prop :=
  b_in b' = b_in b /\ b_out b' = b_out b /\ b_limit b' = b_limit b.

Lemma sam_fill_block_pool_room (bn_shift sm : Z) (nblocks : nat) (bn : Z) (b : sam_block) :
  pool_wf b -> Z.of_nat (length (queued b)) + Z.of_nat nblocks < b_limit b ->
  exists b', sam_fill_block_pool bn_shift sm nblocks bn b = (b', false) /\ pool_wf b' /\
    queued b' = queued b ++ fill_list bn_shift sm nblocks bn /\ avail b' = avail b /\
    same_ends b' b.
Proof.
  revert bn b. induction nblocks as [|n IH]; intros bn b W Hr; cbn [sam_fill_block_pool].
  - exists b. now rewrite app_nil_r.
  - destruct (fill_one_room bn_shift bn b W) as (b1 & -> & W1 & Q1 & A1 & E1); [lia|].
    destruct (IH (bn + sm) b1 W1) as (b2 & -> & W2 & Q2 & A2 & E2).
    { rewrite Q1, length_app. cbn. destruct E1 as (_ & _ & ->). lia. }
    exists b2. split; [reflexivity|]. split; [exact W2|].
    rewrite Q2, Q1, fill_list_S, <- app_assoc, A2, A1. unfold same_ends in *.
    intuition congruence.
Qed.

Lemma begin_fill_spec (b : sam_block) :
  pool_wf b -> pool_wf (begin_fill b) /\ queued (begin_fill b) = avail b /\
    avail (begin_fill b) = avail b /\ b_fill (begin_fill b) = b_in (begin_fill b).
Proof.
  intros []. split_and!; try reflexivity. constructor; cbn; try assumption. reflexivity.
Qed.

Lemma commit_fill_spec (b : sam_block) :
  pool_wf b -> pool_wf (commit_fill b) /\ queued (commit_fill b) = queued b /\
    avail (commit_fill b) = queued b /\ b_fill (commit_fill b) = b_in (commit_fill b).
Proof.
  intros []. split_and!; try reflexivity. constructor; cbn; try assumption. reflexivity.
Qed.

Lemma pool_clean (b : sam_block) : b_fill b = b_in b -> queued b = avail b.
Proof. intros E. unfold queued, avail. now rewrite E. Qed.

(** The oldest available block is taken. *)
Lemma take_one_spec (b : sam_block) :
  pool_wf b -> b_out b <> b_in b ->
  let '(bn, b') := take_one b in
  pool_wf b' /\ avail b = bn :: avail b' /\ queued b = bn :: queued b' /\
  b_in b' = b_in b /\ b_fill b' = b_fill b /\ b_limit b' = b_limit b.
Proof.
  intros W Hne. pose proof W as []. unfold take_one. rewrite next_out_mod by lia.
  set (no := (b_out b + 1) mod b_limit b).
  assert (Hno : 0 <= no < b_limit b) by (apply Z.mod_pos_bound; lia).
  assert (Hs : forall i, 0 <= i < b_limit b -> i <> b_out b ->
    ring_count b i (b_out b) = S (ring_count b i no)).
  { intros i Hi Hd. unfold ring_count, no. rewrite (mod_once (b_out b + 1)) by lia.
    destruct (Z.ltb_spec (b_out b + 1) (b_limit b)); rewrite !mod_diff by lia;
      destruct (Z.ltb_spec (i - b_out b) 0);
      match goal with |- context [?x <? 0] => destruct (Z.ltb_spec x 0) end; lia. }
  assert (Hf : b_fill b <> b_out b).
  { intros E. rewrite E in pw_order0. rewrite (Hs (b_in b)) in pw_order0 by auto.
    unfold ring_count in pw_order0. rewrite Z.sub_diag, Zmod_0_l in pw_order0. lia. }
  assert (Hr : forall n, Z.of_nat n < b_limit b ->
    ring (set_b_bn (b_out b) 0 b) no n = ring b no n).
  { intros n Hn. apply ring_set_out; try lia. unfold no. rewrite Zminus_mod_idemp_r.
    replace (b_out b - (b_out b + 1)) with (-1) by lia.
    replace ((-1) mod b_limit b) with (b_limit b - 1); [lia|].
    apply (Z.mod_unique_pos _ _ (-1)); lia. }
  set (b1 := set_b_bn (b_out b) 0 b) in *.
  assert (Hq : forall i, 0 <= i < b_limit b -> i <> b_out b ->
    ring b (b_out b) (ring_count b i (b_out b)) = bn_at b (b_out b) :: ring b1 no (ring_count b i no)).
  { intros i Hi Hd. rewrite Hs, ring_cons by (auto; lia). fold no.
    rewrite (Z.mod_small (b_out b)) by lia. f_equal. symmetry. apply Hr.
    rewrite ring_count_of by lia. apply Z.mod_pos_bound. lia. }
  split_and!; try reflexivity; [|now apply Hq|now apply Hq].
  constructor; cbn; rewrite ?length_insert; try assumption.
  change (ring_count b (b_in b) no <= ring_count b (b_fill b) no)%nat.
  rewrite !Hs in pw_order0 by auto. lia.
Qed.

Lemma avail_nil (b : sam_block) : pool_wf b -> avail b = [] <-> b_out b = b_in b.
Proof.
  intros []. split.
  - intros H. apply (f_equal length) in H. unfold avail in H. rewrite ring_length in H.
    unfold ring_count in H. rewrite mod_diff in H by lia.
    destruct (Z.ltb_spec (b_in b - b_out b) 0); cbn in H; lia.
  - intros E. unfold avail, ring_count. now rewrite E, Z.sub_diag, Zmod_0_l.
Qed.

(** A run of the removal loop drops the blocks of the system area at the front and takes
    the first other one. *)
Lemma pool_take_spec (fuel : nat) (bn_shift system : Z) (b : sam_block) :
  pool_wf b -> (length (avail b) < fuel)%nat ->
  let '(r, b', bad_seen) := pool_take fuel bn_shift system b in
  pool_wf b' /\ b_in b' = b_in b /\ b_fill b' = b_fill b /\ b_limit b' = b_limit b /\
  exists bad, Forall (fun e => Z.shiftl e bn_shift < system) bad /\
    bad_seen = negb (bool_decide (bad = [])) /\
    avail b = bad ++ match r with Some e => [e] | None => [] end ++ avail b' /\
    queued b = bad ++ match r with Some e => [e] | None => [] end ++ queued b' /\
    match r with Some e => system <= Z.shiftl e bn_shift | None => avail b' = [] end.
Proof.
  revert b. induction fuel as [|fuel IH]; intros b W Hf; [lia|]. cbn [pool_take].
  destruct (Z.eqb_spec (b_out b) (b_in b)) as [E|Hne].
  { apply avail_nil in E; [|exact W]. split_and!; try tauto. exists []. rewrite E.
    split_and!; try reflexivity. constructor. }
  pose proof (take_one_spec b W Hne) as T. destruct (take_one b) as [bn b1].
  destruct T as (W1 & A1 & Q1 & E1 & E2 & E3).
  destruct (Z.ltb_spec (Z.shiftl bn bn_shift) system) as [Hbad|Hok].
  - specialize (IH b1 W1). rewrite A1 in Hf. cbn in Hf.
    destruct (pool_take fuel bn_shift system b1) as [[r b'] s].
    destruct IH as (W' & E1' & E2' & E3' & bad & HF & Hs & A' & Q' & Hr); [lia|].
    split_and!; try congruence. exists (bn :: bad).
    rewrite A1, Q1, A', Q'. split_and!; try reflexivity; [now constructor|exact Hr].
  - split_and!; try congruence. exists []. split_and!; auto.
Qed.

Lemma pool_drain_spec (fuel : nat) (b : sam_block) :
  pool_wf b -> (length (avail b) < fuel)%nat ->
  let '(l, b') := pool_drain fuel b in
  pool_wf b' /\ l = avail b /\ avail b' = [] /\ queued b = l ++ queued b' /\
  b_in b' = b_in b /\ b_fill b' = b_fill b /\ b_limit b' = b_limit b.
Proof.
  revert b. induction fuel as [|fuel IH]; intros b W Hf; [lia|]. cbn [pool_drain].
  destruct (Z.eqb_spec (b_out b) (b_in b)) as [E|Hne].
  { apply avail_nil in E; [|exact W]. rewrite E. tauto. }
  pose proof (take_one_spec b W Hne) as T. destruct (take_one b) as [bn b1].
  destruct T as (W1 & A1 & Q1 & E1 & E2 & E3). specialize (IH b1 W1).
  rewrite A1 in Hf. cbn in Hf. destruct (pool_drain fuel b1) as [l b'].
  destruct IH as (W' & -> & A' & Q' & ?); [lia|].
  rewrite A1, Q1, Q'. intuition congruence.
Qed.

Lemma pool_fuel_enough (b : sam_block) : pool_wf b -> (length (avail b) < pool_fuel b)%nat.
Proof.
  intros W. pose proof (avail_count b W) as E. destruct W.
  rewrite BLOCK_COUNT_mod in E by lia. unfold pool_fuel.
  pose proof (Z.mod_pos_bound (b_in b - b_out b) (b_limit b) ltac:(lia)) as B.
  rewrite E in B. clear E. lia.
Qed.

Lemma pool_limit_range (fs_count : Z) : 64 <= pool_limit fs_count <= 256.
Proof.
  unfold pool_limit, L_SAM_BLK. destruct (2 <? fs_count), (4 <? fs_count); split; now vm_compute.
Qed.

Lemma new_block_wf (limit : Z) :
  2 <= limit < 2 ^ 15 -> pool_wf (new_block limit) /\ queued (new_block limit) = [].
Proof.
  intros H. split; [|reflexivity]. constructor; cbn; try lia.
  now rewrite length_replicate.
Qed.

(** A state of the pools of a partition. *)
Definition pools_wf (p : pools) : Prop :=
  (forall b, at_sm p = Some b -> pool_wf b) /\ (forall b, at_lg p = Some b -> pool_wf b).

Definition pool_list (f : sam_block -> list Z) (o : option sam_block) : list Z :=
  match o with Some b => f b | None => [] end.
