(* ===== verification/BlockScan.v ===== *)
(** * Taking free units out of a block of the free map

    The scan of [sam_set_block] (src/src/fs/samfs/block.c): the free bits of one device
    block of the map are cleared in order, and the units they stand for are put in the
    pool of small blocks, each as [LG_BLOCK] small blocks, and when that pool has no room
    for another unit in the pool of large blocks. *)

From S2P Require Import Prelude Dau Bitmap BlockPool.

(** What the scan needs of the mount: the sizes of the partition's allocation units and
    [m_bn_shift], the unit of a block number (sam_bn_t) in device blocks, as a shift. *)
Record geom : Type := mk_geom { g_dau : sam_dau_t; g_bn_shift : Z }.

Definition LG_BLOCK (g : geom) : Z := at_lg (blocks (g_dau g)).
Definition SM_DEV_BLOCK (g : geom) : Z := at_sm (kblocks (g_dau g)).
Definition LG_DEV_BLOCK (g : geom) : Z := at_lg (kblocks (g_dau g)).
Definition DIF_LG_SHIFT (g : geom) : Z := at_lg (dif_shift (g_dau g)).
Definition LG_BLK (g : geom) : Z := at_lg (size (g_dau g)).

(** Device block of a unit. *)
Definition dau_bn (g : geom) (dau : Z) : Z :=
  if negb (DIF_LG_SHIFT g =? 0) then Z.shiftl dau (DIF_LG_SHIFT g)
  else Z.shiftr (dau * LG_BLK g) SAM_DEV_BSHIFT.

(** Why the scan of a word stopped: it did not; the pools are full, and the block must be
    written or released; a pool that is used does not exist. *)
Inductive scan_exit : Type :=
  | ScanMore
  | ScanFull (write : bool)
  | ScanNull.

(** The variables of the scan. *)
Record scan : Type := mk_scan {
  sc_pools : pools;
  sc_type : btype;          (* type, the pool being filled *)
  sc_mod : Z;               (* modblocks *)
  sc_next : Z;              (* *next_dau *)
  sc_fsck : bool            (* a consistency check was requested *)
}.

Definition nblocks (g : geom) (t : btype) : Z :=
  match t with SM => LG_BLOCK g | LG => 1 end.

Definition pool_full (b : sam_block) (n : Z) : bool :=
  b_limit b <=? BLOCK_COUNT (b_fill b) (b_out b) (b_limit b) + n.

(** The test before each bit. *)
Definition check_room (g : geom) (s : scan) : scan_exit * scan :=
  match bt_get (sc_pools s) (sc_type s) with
  | None => (ScanNull, s)
  | Some b =>
      if pool_full b (nblocks g (sc_type s)) then
        match sc_type s with
        | LG => (ScanFull (negb (sc_mod s =? 0)), s)
        | SM =>
            let s' := mk_scan (sc_pools s) LG (sc_mod s) (sc_next s) (sc_fsck s) in
            match at_lg (sc_pools s) with
            | None => (ScanNull, s')
            | Some b' => if pool_full b' 1 then (ScanFull true, s') else (ScanMore, s')
            end
        end
      else (ScanMore, s)
  end.

(** A free unit: its bit has been cleared, its blocks go to the current pool. *)
Definition take_dau (g : geom) (capacity dau : Z) (s : scan) : scan :=
  let bn := dau_bn g dau in
  if capacity <? bn then
    mk_scan (sc_pools s) (sc_type s) (sc_mod s + 1) dau true
  else
    match bt_get (sc_pools s) (sc_type s) with
    | None => s                                     (* excluded by check_room *)
    | Some b =>
        let '(b', wrapped) :=
          sam_fill_block_pool (g_bn_shift g) (SM_DEV_BLOCK g)
            (Z.to_nat (nblocks g (sc_type s))) bn b in
        mk_scan (bt_set (sc_pools s) (sc_type s) (Some b')) (sc_type s) (sc_mod s + 1) dau
          (sc_fsck s || wrapped)
    end.

(** [bit] counts down from 32; [count] is the number of words left. *)
Fixpoint set_bits (g : geom) (capacity rblk count : Z) (bit : nat) (mask w : Z) (s : scan)
  : scan_exit * Z * scan :=
  match bit with
  | O => (ScanMore, w, s)
  | S bit' =>
      match check_room g s with
      | (ScanMore, s1) =>
          if bit_on w mask then
            let dau := u32 (Z.shiftl rblk SAM_BIT_SHIFT - Z.shiftl count NBWDSHIFT
                            + (32 - Z.of_nat bit)) in
            set_bits g capacity rblk count bit' (Z.shiftr mask 1) (bit_clear w mask)
              (take_dau g capacity dau s1)
          else set_bits g capacity rblk count bit' (Z.shiftr mask 1) w s1
      | (e, s1) => (e, w, s1)
      end
  end.

Fixpoint set_words (g : geom) (capacity rblk : Z) (ws : list Z) (s : scan)
  : scan_exit * list Z * scan :=
  match ws with
  | [] => (ScanMore, [], s)
  | w :: ws' =>
      if w =? 0 then
        let '(e, r, s') := set_words g capacity rblk ws' s in (e, w :: r, s')
      else
        match set_bits g capacity rblk (Z.of_nat (length ws)) 32 0x80000000 w s with
        | (ScanMore, w', s1) =>
            let '(e, r, s2) := set_words g capacity rblk ws' s1 in (e, w' :: r, s2)
        | (e, w', s1) => (e, w' :: ws', s1)
        end
  end.

(** ** What a scan does

    The block numbers that stand for a unit in each pool. *)
Definition sm_exts (g : geom) (d : Z) : list Z :=
  fill_list (g_bn_shift g) (SM_DEV_BLOCK g) (Z.to_nat (LG_BLOCK g)) (dau_bn g d).
Definition lg_ext (g : geom) (d : Z) : Z := u32 (Z.shiftr (dau_bn g d) (g_bn_shift g)).

(** The queue of a pool has grown by [l], with nothing made available. *)
Definition grown (l : list Z) (o o' : option sam_block) : Prop :=
  match o, o' with
  | Some b, Some b' =>
      pool_wf b' /\ queued b' = queued b ++ l /\ avail b' = avail b /\ same_ends b' b
  | None, None => l = []
  | _, _ => False
  end.

(** Units [t1] went to the small pool and then units [t2] to the large one. *)
Record took (g : geom) (t1 t2 : list Z) (s s' : scan) : Prop := {
  tk_sm : grown (concat (sm_exts g <$> t1)) (at_sm (sc_pools s)) (at_sm (sc_pools s'));
  tk_lg : grown (lg_ext g <$> t2) (at_lg (sc_pools s)) (at_lg (sc_pools s'));
  tk_mod : sc_mod s' = sc_mod s + Z.of_nat (length (t1 ++ t2));
  tk_next : sc_next s' = default (sc_next s) (last (t1 ++ t2));
  tk_fsck : sc_fsck s' = sc_fsck s;
  tk_from : sc_type s = LG -> t1 = [] /\ sc_type s' = LG;
  tk_to : sc_type s' = SM -> t2 = []
}.

(** The pools that a scan may use exist. *)
Definition scan_ok (s : scan) : Prop :=
  pools_wf (sc_pools s) /\ is_Some (at_lg (sc_pools s)) /\
  (sc_type s = SM -> is_Some (at_sm (sc_pools s))).

Lemma same_ends_refl (b : sam_block) : same_ends b b.
Proof. unfold same_ends. tauto. Qed.

Lemma grown_refl (o : option sam_block) :
  (forall b, o = Some b -> pool_wf b) -> grown [] o o.
Proof. destruct o; cbn; [|reflexivity]. rewrite app_nil_r. auto using same_ends_refl. Qed.

Lemma grown_trans (l l' : list Z) (o o1 o2 : option sam_block) :
  grown l o o1 -> grown l' o1 o2 -> grown (l ++ l') o o2.
Proof.
  destruct o, o1, o2; cbn; try tauto; [|now intros -> ->].
  intros (_ & Q & A & E) (W & Q' & A' & E'). unfold same_ends in *.
  rewrite Q', Q, app_assoc, A', A. intuition congruence.
Qed.

Lemma grown_wf (l : list Z) (o o' : option sam_block) (b' : sam_block) :
  grown l o o' -> o' = Some b' -> pool_wf b'.
Proof. intros H ->. destruct o; cbn in H; tauto. Qed.

Lemma grown_some (l : list Z) (o o' : option sam_block) :
  grown l o o' -> is_Some o -> is_Some o'.
Proof. intros H [b ->]. destruct o'; cbn in H; [eauto|tauto]. Qed.

Lemma took_ok (g : geom) (t1 t2 : list Z) (s s' : scan) :
  took g t1 t2 s s' -> scan_ok s -> scan_ok s'.
Proof.
  intros [] (_ & HL & HS). split_and!.
  - split; eauto using grown_wf.
  - eauto using grown_some.
  - intros E. destruct (sc_type s) eqn:T; [eauto using grown_some|].
    destruct tk_from0 as [_ E']; [reflexivity|]. congruence.
Qed.

Lemma took_refl (g : geom) (s : scan) : scan_ok s -> took g [] [] s s.
Proof.
  intros [[W1 W2] _]. split; cbn; try tauto; auto using grown_refl. lia.
Qed.

Lemma last_app_default {A} (a b : list A) (d : A) :
  default d (last (a ++ b)) = default (default d (last a)) (last b).
Proof. rewrite last_app. now destruct (last b). Qed.

(** Units are taken in order, first for the small pool. *)
Lemma took_trans (g : geom) (t1 t2 u1 u2 : list Z) (s s1 s2 : scan) :
  took g t1 t2 s s1 -> took g u1 u2 s1 s2 ->
  took g (t1 ++ u1) (t2 ++ u2) s s2 /\
  (t1 ++ t2) ++ (u1 ++ u2) = (t1 ++ u1) ++ (t2 ++ u2).
Proof.
  intros [] [].
  assert (Ho : t2 = [] \/ u1 = []) by (destruct (sc_type s1) eqn:T; [left|right]; tauto).
  assert (E : (t1 ++ t2) ++ (u1 ++ u2) = (t1 ++ u1) ++ (t2 ++ u2)).
  { destruct Ho as [-> | ->]; rewrite ?app_nil_r; cbn; now rewrite <- ?app_assoc. }
  split; [|exact E]. split.
  - rewrite fmap_app, concat_app. eauto using grown_trans.
  - rewrite fmap_app. eauto using grown_trans.
  - rewrite <- E, length_app. lia.
  - rewrite <- E, last_app_default. congruence.
  - congruence.
  - intros T. destruct tk_from0 as [-> T']; [exact T|]. destruct tk_from1 as [-> ?]; auto.
  - intros T. destruct (sc_type s1) eqn:T1; [|destruct tk_from1; [reflexivity|congruence]].
    rewrite tk_to0, tk_to1; auto.
Qed.

Lemma pool_full_spec (b : sam_block) (n : Z) :
  pool_wf b -> reflect (b_limit b <= Z.of_nat (length (queued b)) + n) (pool_full b n).
Proof. intros W. unfold pool_full. rewrite queued_count by exact W. apply Z.leb_spec0. Qed.

(** Room for the next unit. *)
Definition has_room (g : geom) (s : scan) : Prop :=
  exists b, bt_get (sc_pools s) (sc_type s) = Some b /\
    Z.of_nat (length (queued b)) + nblocks g (sc_type s) < b_limit b.

(** The large pool cannot take another unit. *)
Definition lg_full (s : scan) : Prop :=
  exists b, at_lg (sc_pools s) = Some b /\ b_limit b <= Z.of_nat (length (queued b)) + 1.

Lemma check_room_spec (g : geom) (s : scan) :
  scan_ok s ->
  let '(e, s') := check_room g s in
  took g [] [] s s' /\
  match e with
  | ScanMore => has_room g s'
  | ScanFull wr => sc_type s' = LG /\ lg_full s' /\ (wr = false -> sc_mod s' = 0)
  | ScanNull => False
  end.
Proof.
  intros OK. pose proof OK as ([W1 W2] & [bl EL] & HS). unfold check_room.
  assert (T : forall ty, (sc_type s = LG -> ty = LG) ->
    took g [] [] s (mk_scan (sc_pools s) ty (sc_mod s) (sc_next s) (sc_fsck s))).
  { intros ty Hty. split; cbn; auto using grown_refl. lia. }
  destruct (sc_type s) eqn:TY; cbn [bt_get nblocks].
  - destruct HS as [bs ES]; [reflexivity|]. rewrite ES, EL.
    destruct (pool_full_spec bs (LG_BLOCK g)); [auto|..].
    + destruct (pool_full_spec bl 1); [auto|..]; (split; [apply T; congruence|]).
      * cbn. split; [reflexivity|]. split; [exists bl; auto|discriminate].
      * exists bl. cbn. split; [exact EL|lia].
    + split; [now apply took_refl|]. exists bs. rewrite TY. cbn. split; [exact ES|lia].
  - rewrite EL. destruct (pool_full_spec bl 1); [auto|..]; (split; [now apply took_refl|]).
    + split; [exact TY|]. split; [exists bl; auto|].
      intros H. apply negb_false_iff, Z.eqb_eq in H. exact H.
    + exists bl. rewrite TY. cbn. split; [exact EL|lia].
Qed.

Lemma take_dau_spec (g : geom) (capacity d : Z) (s : scan) :
  0 <= LG_BLOCK g -> scan_ok s -> has_room g s -> dau_bn g d <= capacity ->
  exists t1 t2, t1 ++ t2 = [d] /\ took g t1 t2 s (take_dau g capacity d s).
Proof.
  intros HG ([W1 W2] & HL & HS) (b & Eb & Hr) Hcap. unfold take_dau.
  destruct (Z.ltb_spec capacity (dau_bn g d)); [lia|]. rewrite Eb.
  assert (Wb : pool_wf b) by (destruct (sc_type s); auto).
  destruct (sam_fill_block_pool_room (g_bn_shift g) (SM_DEV_BLOCK g)
    (Z.to_nat (nblocks g (sc_type s))) (dau_bn g d) b Wb) as (b' & -> & W' & Q' & A' & E').
  { destruct (sc_type s); cbn [nblocks] in *; lia. }
  rewrite orb_false_r. destruct (sc_type s) eqn:TY; cbn [bt_get] in Eb.
  - exists [d], []. split; [reflexivity|]. split; cbn; try reflexivity; try congruence.
    + rewrite Eb, app_nil_r. cbn. auto.
    + auto using grown_refl.
  - exists [], [d]. split; [reflexivity|]. split; cbn; try reflexivity; try congruence.
    + auto using grown_refl.
    + rewrite Eb. split_and!; auto. rewrite Q'. f_equal.
      change (Z.to_nat (nblocks g LG)) with 1%nat. now rewrite fill_list_S.
    + tauto.
Qed.

(** The end of a scan. *)
Definition exit_ok (e : scan_exit) (s : scan) (left : list Z) : Prop :=
  match e with
  | ScanMore => left = []
  | ScanFull wr => sc_type s = LG /\ lg_full s /\ (wr = false -> sc_mod s = 0)
  | ScanNull => False
  end.

Section Scan.
Context (g : geom) (capacity rblk : Z) (HG : 0 <= LG_BLOCK g).

(** Unit of the first bit of the word with [count] words left. *)
Definition word_base (count : Z) : Z := rblk * 8192 - count * 32.

Lemma dau_number (count : Z) (bit : nat) (d : Z) :
  d = word_base count + (32 - Z.of_nat bit) -> uint_range 32 d ->
  u32 (Z.shiftl rblk SAM_BIT_SHIFT - Z.shiftl count NBWDSHIFT + (32 - Z.of_nat bit)) = d.
Proof.
  intros -> H. rewrite <- (uwrap_id 32 _ H). f_equal.
  unfold SAM_BIT_SHIFT, NBWDSHIFT, word_base. rewrite !Z.shiftl_mul_pow2 by lia. lia.
Qed.

Lemma set_bits_spec (count : Z) (bit : nat) (d w : Z) (s : scan) :
  d = word_base count + (32 - Z.of_nat bit) ->
  0 <= d -> d + Z.of_nat bit <= 2 ^ 32 ->
  (forall u, u ∈ bits_free bit d w -> dau_bn g u <= capacity) ->
  scan_ok s ->
  let '(e, w', s') := set_bits g capacity rblk count bit (Z.shiftr (2 ^ Z.of_nat bit) 1) w s in
  exists t1 t2, took g t1 t2 s s' /\
    bits_free bit d w = (t1 ++ t2) ++ bits_free bit d w' /\
    (forall i, Z.of_nat bit <= i -> Z.testbit w' i = Z.testbit w i) /\
    (0 <= w -> 0 <= w') /\
    exit_ok e s' (bits_free bit d w').
Proof.
  revert d w s. induction bit as [|bit IH]; intros d w s Ed Hd Hmax Hcap OK.
  { cbn. exists [], []. split_and!; auto using took_refl. }
  cbn [set_bits]. rewrite mask_shift.
  pose proof (check_room_spec g s OK) as R. destruct (check_room g s) as [e s1].
  destruct R as [T1 R]. pose proof (took_ok _ _ _ _ _ T1 OK) as OK1.
  destruct e as [|wr|]; [|exists [], []; split_and!; cbn; auto; tauto|contradiction].
  rewrite bit_on_testbit by lia. cbn [bits_free] in *.
  destruct (Z.testbit w (Z.of_nat bit)) eqn:EB.
  - rewrite (dau_number count (S bit) d) by (auto; unfold uint_range; lia).
    destruct (take_dau_spec g capacity d s1 HG OK1 R) as (a1 & a2 & Ea & T2).
    { apply Hcap. set_solver. }
    pose proof (took_trans _ _ _ _ _ _ _ _ T1 T2) as [T12 _]. cbn in T12.
    specialize (IH (d + 1) (bit_clear w (2 ^ Z.of_nat bit)) (take_dau g capacity d s1)).
    rewrite bits_free_clear in IH by lia.
    destruct (set_bits _ _ _ _ _ _ _ _) as [[e w'] s'].
    destruct IH as (u1 & u2 & T3 & Ef & Hi & Hw & He); try lia.
    { intros u Hu. apply Hcap. set_solver. }
    { eapply took_ok; eauto. }
    pose proof (took_trans _ _ _ _ _ _ _ _ T12 T3) as [T E].
    exists (a1 ++ u1), (a2 ++ u2). rewrite <- E, Ea.
    rewrite (Hi (Z.of_nat bit)), bit_clear_testbit, Z.eqb_refl, andb_false_r by lia. cbn.
    split_and!; auto.
    + cbn. now rewrite Ef, <- ?app_assoc.
    + intros i Hle. rewrite Hi, bit_clear_testbit by lia.
      destruct (Z.eqb_spec i (Z.of_nat bit)); [lia|]. apply andb_true_r.
    + intros. apply Hw. now apply bit_clear_nonneg.
  - specialize (IH (d + 1) w s1). destruct (set_bits _ _ _ _ _ _ _ _) as [[e w'] s'].
    destruct IH as (u1 & u2 & T3 & Ef & Hi & Hw & He); try lia; auto.
    pose proof (took_trans _ _ _ _ _ _ _ _ T1 T3) as [T _].
    exists u1, u2. rewrite (Hi (Z.of_nat bit)), EB by lia. cbn.
    split_and!; auto. intros i Hle. apply Hi. lia.
Qed.

Lemma uint_range_bits (w w' : Z) :
  uint_range 32 w -> 0 <= w' -> (forall i, 32 <= i -> Z.testbit w' i = Z.testbit w i) ->
  uint_range 32 w'.
Proof.
  intros Hw Hn Hi. split; [exact Hn|]. destruct (Z.eq_dec w' 0) as [->|Hz]; [lia|].
  apply Z.log2_lt_pow2; [lia|]. destruct (Z.lt_ge_cases (Z.log2 w') 32) as [|H]; [assumption|].
  pose proof (Z.bit_log2 w' ltac:(lia)) as B. rewrite Hi in B by exact H.
  rewrite Z.bits_above_log2 in B; [discriminate|apply Hw|].
  destruct (Z.eq_dec w 0) as [->|]; [cbn; lia|].
  eapply Z.lt_le_trans; [|exact H]. apply Z.log2_lt_pow2; [|apply Hw].
  destruct Hw. lia.
Qed.

Lemma set_words_spec (ws : list Z) (s : scan) :
  let d := word_base (Z.of_nat (length ws)) in
  0 <= d -> d + 32 * Z.of_nat (length ws) <= 2 ^ 32 ->
  (forall u, u ∈ words_free d ws -> dau_bn g u <= capacity) ->
  Forall (uint_range 32) ws -> scan_ok s ->
  let '(e, ws', s') := set_words g capacity rblk ws s in
  exists t1 t2, took g t1 t2 s s' /\
    words_free d ws = (t1 ++ t2) ++ words_free d ws' /\
    length ws' = length ws /\ Forall (uint_range 32) ws' /\
    exit_ok e s' (words_free d ws').
Proof.
  revert s. induction ws as [|w ws IH]; intros s d Hd Hmax Hcap HF OK; cbn [set_words].
  { exists [], []. split_and!; auto using took_refl. reflexivity. }
  cbv zeta in IH. apply Forall_cons in HF as [Hw HF].
  assert (Ed : d + 32 = word_base (Z.of_nat (length ws)))
    by (unfold d, word_base; cbn [length]; lia).
  cbn [words_free length] in Hcap, Hmax |- *. rewrite <- Ed in IH.
  assert (Hcap' : forall u, u ∈ words_free (d + 32) ws -> dau_bn g u <= capacity)
    by (intros u Hu; apply Hcap, elem_of_app; now right).
  destruct (Z.eqb_spec w 0) as [->|_].
  { specialize (IH s). destruct (set_words g capacity rblk ws s) as [[e r] s'].
    destruct IH as (t1 & t2 & T & E & L & F & X); auto; try lia.
    exists t1, t2. cbn [words_free length]. unfold word_free. rewrite bits_free_0. cbn.
    split_and!; auto. }
  change 0x80000000 with (Z.shiftr (2 ^ Z.of_nat 32) 1).
  pose proof (set_bits_spec (Z.of_nat (S (length ws))) 32 d w s) as B.
  destruct (set_bits _ _ _ _ 32 _ _ _) as [[e w'] s1].
  destruct B as (t1 & t2 & T & E & Hi & Hn & X); auto; try lia.
  { unfold d. cbn [length]. lia. }
  { intros u Hu. apply Hcap, elem_of_app. now left. }
  assert (Hw' : uint_range 32 w').
  { apply (uint_range_bits w); [exact Hw|apply Hn; apply Hw|exact Hi]. }
  destruct e as [|wr|]; [|exists t1, t2; cbn [words_free length]|destruct X].
  - specialize (IH s1). destruct (set_words g capacity rblk ws s1) as [[e r] s'].
    destruct IH as (u1 & u2 & T' & E' & L & F & X'); auto; try lia.
    { eapply took_ok; eauto. }
    pose proof (took_trans _ _ _ _ _ _ _ _ T T') as [TT Eo].
    exists (t1 ++ u1), (t2 ++ u2). rewrite <- Eo. cbn [words_free length]. unfold word_free.
    cbn [exit_ok] in X. rewrite E, E', X, app_nil_r. cbn [app]. rewrite <- !app_assoc.
    split_and!; auto.
  - unfold word_free. rewrite E, <- !app_assoc. split_and!; auto.
Qed.
End Scan.
