(* ===== verification/BlockAlloc.v ===== *)
(** * Refilling the block pools and freeing blocks

    One partition of a mounted file system. The block thread refills the pools from the
    free map ([sam_get_blklist], [sam_get_disk_blks], [sam_set_block], [sam_write_map]),
    an I/O completion ([sam_block_done]) and a later turn of the thread make the new
    blocks available, and the superblock's space counts and the watermark state follow
    ([sam_set_sblk], [sam_check_wmstate]); src/src/fs/samfs/block.c. Freed large blocks
    go back to the map ([sam_free_lg_block], src/src/fs/samfs/update.c).

    A map block is read and written as a whole. [f_map] is what a read returns: the
    contents of the disk, or of a delayed buffer. A block under an asynchronous write is
    locked, and the write reaches [f_map] when it completes without error. *)

From S2P Require Import Prelude Dau Bitmap BlockPool BlockScan Monad.

(** Watermark states ([fs_wmstate_e]). *)
Inductive wmstate : Type := FS_LWM | FS_LHWM | FS_HLWM | FS_HWM.

#[export] Instance wmstate_eq_dec : EqDecision wmstate.
Proof. solve_decision. Defined.

Definition FS_WMSTATE_MIN_SECS : Z := 60.

(** What does not change while the partition is mounted: fields of [sblk->eq[ord].fs],
    [sblk->info.sb] and the mount table, and the time. *)
Record bconf : Type := mk_bconf {
  c_geom : geom;
  c_type : dtype;            (* eq[ord].fs.type *)
  c_dau_size : Z;            (* eq[ord].fs.dau_size *)
  c_capacity : Z;            (* eq[ord].fs.capacity *)
  c_system : Z;              (* eq[ord].fs.system *)
  c_num_group : Z;           (* eq[ord].fs.num_group *)
  c_dau_blks : Z;            (* info.sb.dau_blks[LG] *)
  c_mm_blks : Z;             (* info.sb.mm_blks[LG] *)
  c_sb_capacity : Z;         (* info.sb.capacity *)
  c_mm_capacity : Z;         (* info.sb.mm_capacity *)
  c_high : Z;                (* m_high_blk_count *)
  c_low : Z;                 (* m_low_blk_count *)
  c_standalone : bool;       (* SAM_IS_STANDALONE *)
  c_hwm_archive : bool;      (* fi_config & MT_HWM_ARCHIVE *)
  c_can_release : bool;      (* the other tests of sam_start_releaser *)
  c_scd_ok : bool;           (* sam_send_scd_cmd succeeds *)
  c_inoblk_meta : bool;      (* m_inoblk->di.status.b.meta == dt of this partition *)
  c_now : Z                  (* SAM_SECOND() *)
}.

Record bfs : Type := mk_bfs {
  f_pools : pools;                 (* m_fs[ord].block[] *)
  f_busy : bool;                   (* m_fs[ord].busy: a map write is under way *)
  f_modified : Z;                  (* m_fs[ord].modified: units of that write *)
  f_ndau : Z;                      (* m_fs[ord].next_dau *)
  f_map_empty : bool;              (* m_fs[ord].map_empty *)
  f_dau_next : Z;                  (* eq[ord].fs.dau_next *)
  f_space : Z;                     (* eq[ord].fs.space *)
  f_sb_space : Z;                  (* info.sb.space *)
  f_mm_space : Z;                  (* info.sb.mm_space *)
  f_map : list (list Z);           (* the free map, on disk or in a delayed buffer *)
  f_wr : option (nat * list Z);    (* the map block being written by sam_write_map *)
  f_rio : list bool;               (* outcome of the next reads of the map, then success *)
  f_wio : list bool;               (* the same for synchronous writes *)
  f_blk_bn : Z;                    (* m_blk_bn: block kept for the .blocks file, or 0 *)
  f_fsck : bool;                   (* sam_req_fsck was called *)
  f_xstate : wmstate;              (* m_xmsg_state *)
  f_xtime : Z;                     (* m_xmsg_time *)
  f_sent : list wmstate;           (* watermark messages sent, last first *)
  f_hwm : nat;                     (* calls of sam_arfind_hwm *)
  f_releasing : bool               (* fi_status & FS_RELEASING *)
}.

Definition set_pools (v : pools) (s : bfs) : bfs :=
  mk_bfs v (f_busy s) (f_modified s) (f_ndau s) (f_map_empty s) (f_dau_next s) (f_space s)
    (f_sb_space s) (f_mm_space s) (f_map s) (f_wr s) (f_rio s) (f_wio s) (f_blk_bn s)
    (f_fsck s) (f_xstate s) (f_xtime s) (f_sent s) (f_hwm s) (f_releasing s).
Definition set_busy (v : bool) (s : bfs) : bfs :=
  mk_bfs (f_pools s) v (f_modified s) (f_ndau s) (f_map_empty s) (f_dau_next s) (f_space
    s) (f_sb_space s) (f_mm_space s) (f_map s) (f_wr s) (f_rio s) (f_wio s) (f_blk_bn s)
    (f_fsck s) (f_xstate s) (f_xtime s) (f_sent s) (f_hwm s) (f_releasing s).
Definition set_modified (v : Z) (s : bfs) : bfs :=
  mk_bfs (f_pools s) (f_busy s) v (f_ndau s) (f_map_empty s) (f_dau_next s) (f_space s)
    (f_sb_space s) (f_mm_space s) (f_map s) (f_wr s) (f_rio s) (f_wio s) (f_blk_bn s)
    (f_fsck s) (f_xstate s) (f_xtime s) (f_sent s) (f_hwm s) (f_releasing s).
Definition set_ndau (v : Z) (s : bfs) : bfs :=
  mk_bfs (f_pools s) (f_busy s) (f_modified s) v (f_map_empty s) (f_dau_next s) (f_space
    s) (f_sb_space s) (f_mm_space s) (f_map s) (f_wr s) (f_rio s) (f_wio s) (f_blk_bn s)
    (f_fsck s) (f_xstate s) (f_xtime s) (f_sent s) (f_hwm s) (f_releasing s).
Definition set_map_empty (v : bool) (s : bfs) : bfs :=
  mk_bfs (f_pools s) (f_busy s) (f_modified s) (f_ndau s) v (f_dau_next s) (f_space s)
    (f_sb_space s) (f_mm_space s) (f_map s) (f_wr s) (f_rio s) (f_wio s) (f_blk_bn s)
    (f_fsck s) (f_xstate s) (f_xtime s) (f_sent s) (f_hwm s) (f_releasing s).
Definition set_dau_next (v : Z) (s : bfs) : bfs :=
  mk_bfs (f_pools s) (f_busy s) (f_modified s) (f_ndau s) (f_map_empty s) v (f_space s)
    (f_sb_space s) (f_mm_space s) (f_map s) (f_wr s) (f_rio s) (f_wio s) (f_blk_bn s)
    (f_fsck s) (f_xstate s) (f_xtime s) (f_sent s) (f_hwm s) (f_releasing s).
Definition set_space (v : Z) (s : bfs) : bfs :=
  mk_bfs (f_pools s) (f_busy s) (f_modified s) (f_ndau s) (f_map_empty s) (f_dau_next s) v
    (f_sb_space s) (f_mm_space s) (f_map s) (f_wr s) (f_rio s) (f_wio s) (f_blk_bn s)
    (f_fsck s) (f_xstate s) (f_xtime s) (f_sent s) (f_hwm s) (f_releasing s).
Definition set_sb_space (v : Z) (s : bfs) : bfs :=
  mk_bfs (f_pools s) (f_busy s) (f_modified s) (f_ndau s) (f_map_empty s) (f_dau_next s)
    (f_space s) v (f_mm_space s) (f_map s) (f_wr s) (f_rio s) (f_wio s) (f_blk_bn s)
    (f_fsck s) (f_xstate s) (f_xtime s) (f_sent s) (f_hwm s) (f_releasing s).
Definition set_mm_space (v : Z) (s : bfs) : bfs :=
  mk_bfs (f_pools s) (f_busy s) (f_modified s) (f_ndau s) (f_map_empty s) (f_dau_next s)
    (f_space s) (f_sb_space s) v (f_map s) (f_wr s) (f_rio s) (f_wio s) (f_blk_bn s)
    (f_fsck s) (f_xstate s) (f_xtime s) (f_sent s) (f_hwm s) (f_releasing s).
Definition set_map (v : list (list Z)) (s : bfs) : bfs :=
  mk_bfs (f_pools s) (f_busy s) (f_modified s) (f_ndau s) (f_map_empty s) (f_dau_next s)
    (f_space s) (f_sb_space s) (f_mm_space s) v (f_wr s) (f_rio s) (f_wio s) (f_blk_bn s)
    (f_fsck s) (f_xstate s) (f_xtime s) (f_sent s) (f_hwm s) (f_releasing s).
Definition set_wr (v : option (nat * list Z)) (s : bfs) : bfs :=
  mk_bfs (f_pools s) (f_busy s) (f_modified s) (f_ndau s) (f_map_empty s) (f_dau_next s)
    (f_space s) (f_sb_space s) (f_mm_space s) (f_map s) v (f_rio s) (f_wio s) (f_blk_bn s)
    (f_fsck s) (f_xstate s) (f_xtime s) (f_sent s) (f_hwm s) (f_releasing s).
Definition set_rio (v : list bool) (s : bfs) : bfs :=
  mk_bfs (f_pools s) (f_busy s) (f_modified s) (f_ndau s) (f_map_empty s) (f_dau_next s)
    (f_space s) (f_sb_space s) (f_mm_space s) (f_map s) (f_wr s) v (f_wio s) (f_blk_bn s)
    (f_fsck s) (f_xstate s) (f_xtime s) (f_sent s) (f_hwm s) (f_releasing s).
Definition set_wio (v : list bool) (s : bfs) : bfs :=
  mk_bfs (f_pools s) (f_busy s) (f_modified s) (f_ndau s) (f_map_empty s) (f_dau_next s)
    (f_space s) (f_sb_space s) (f_mm_space s) (f_map s) (f_wr s) (f_rio s) v (f_blk_bn s)
    (f_fsck s) (f_xstate s) (f_xtime s) (f_sent s) (f_hwm s) (f_releasing s).
Definition set_blk_bn (v : Z) (s : bfs) : bfs :=
  mk_bfs (f_pools s) (f_busy s) (f_modified s) (f_ndau s) (f_map_empty s) (f_dau_next s)
    (f_space s) (f_sb_space s) (f_mm_space s) (f_map s) (f_wr s) (f_rio s) (f_wio s) v
    (f_fsck s) (f_xstate s) (f_xtime s) (f_sent s) (f_hwm s) (f_releasing s).
Definition set_fsck (v : bool) (s : bfs) : bfs :=
  mk_bfs (f_pools s) (f_busy s) (f_modified s) (f_ndau s) (f_map_empty s) (f_dau_next s)
    (f_space s) (f_sb_space s) (f_mm_space s) (f_map s) (f_wr s) (f_rio s) (f_wio s)
    (f_blk_bn s) v (f_xstate s) (f_xtime s) (f_sent s) (f_hwm s) (f_releasing s).
Definition set_xstate (v : wmstate) (s : bfs) : bfs :=
  mk_bfs (f_pools s) (f_busy s) (f_modified s) (f_ndau s) (f_map_empty s) (f_dau_next s)
    (f_space s) (f_sb_space s) (f_mm_space s) (f_map s) (f_wr s) (f_rio s) (f_wio s)
    (f_blk_bn s) (f_fsck s) v (f_xtime s) (f_sent s) (f_hwm s) (f_releasing s).
Definition set_xtime (v : Z) (s : bfs) : bfs :=
  mk_bfs (f_pools s) (f_busy s) (f_modified s) (f_ndau s) (f_map_empty s) (f_dau_next s)
    (f_space s) (f_sb_space s) (f_mm_space s) (f_map s) (f_wr s) (f_rio s) (f_wio s)
    (f_blk_bn s) (f_fsck s) (f_xstate s) v (f_sent s) (f_hwm s) (f_releasing s).
Definition set_sent (v : list wmstate) (s : bfs) : bfs :=
  mk_bfs (f_pools s) (f_busy s) (f_modified s) (f_ndau s) (f_map_empty s) (f_dau_next s)
    (f_space s) (f_sb_space s) (f_mm_space s) (f_map s) (f_wr s) (f_rio s) (f_wio s)
    (f_blk_bn s) (f_fsck s) (f_xstate s) (f_xtime s) v (f_hwm s) (f_releasing s).
Definition set_hwm (v : nat) (s : bfs) : bfs :=
  mk_bfs (f_pools s) (f_busy s) (f_modified s) (f_ndau s) (f_map_empty s) (f_dau_next s)
    (f_space s) (f_sb_space s) (f_mm_space s) (f_map s) (f_wr s) (f_rio s) (f_wio s)
    (f_blk_bn s) (f_fsck s) (f_xstate s) (f_xtime s) (f_sent s) v (f_releasing s).
Definition set_releasing (v : bool) (s : bfs) : bfs :=
  mk_bfs (f_pools s) (f_busy s) (f_modified s) (f_ndau s) (f_map_empty s) (f_dau_next s)
    (f_space s) (f_sb_space s) (f_mm_space s) (f_map s) (f_wr s) (f_rio s) (f_wio s)
    (f_blk_bn s) (f_fsck s) (f_xstate s) (f_xtime s) (f_sent s) (f_hwm s) v.

(** ** Transfers *)

Definition transfer (queue : list bool) : bool * list bool :=
  match queue with [] => (true, []) | ok :: rest => (ok, rest) end.

(** [SAM_BREAD] of block [i] of the map: [None] on an I/O error. A block outside the map
    is a fault. *)
Definition map_read (i : nat) : M bfs (option (list Z)) :=
  s ← gets id;
  let '(ok, rest) := transfer (f_rio s) in
  modify (set_rio rest);;
  if ok then b ← deref (f_map s !! i); mret (Some b) else mret None.

(** [SAM_BWRITE]; a write that fails leaves the map as it was. *)
Definition map_write (i : nat) (buf : list Z) : M bfs bool :=
  s ← gets id;
  let '(ok, rest) := transfer (f_wio s) in
  modify (set_wio rest);;
  when ok (modify (fun s => set_map (<[i := buf]> (f_map s)) s));;
  mret ok.

(** ** Space and watermarks *)

(** [sam_report_fs_watermark]. *)
Definition sam_report_fs_watermark (c : bconf) (state : wmstate) (s : bfs) : bfs :=
  let s1 := set_sent (state :: f_sent s) (set_xtime (c_now c) (set_xstate state s)) in
  if bool_decide (state = FS_HWM) && c_hwm_archive c then set_hwm (S (f_hwm s1)) s1 else s1.

(** The state that [sam_check_wmstate] sends, if any. *)
Definition next_wmstate (old state : wmstate) : option wmstate :=
  match state with
  | FS_LWM | FS_HWM => if decide (old = state) then None else Some state
  | FS_LHWM | FS_HLWM =>
      match old with
      | FS_HWM => Some FS_HLWM
      | FS_LWM => Some FS_LHWM
      | _ => None
      end
  end.

Definition sam_check_wmstate (c : bconf) (state : wmstate) (s : bfs) : bfs :=
  if c_standalone c then s
  else if f_xtime s + FS_WMSTATE_MIN_SECS <? c_now c then
    match next_wmstate (f_xstate s) state with
    | Some new => sam_report_fs_watermark c new s
    | None => s
    end
  else s.

Definition sam_start_releaser (c : bconf) (s : bfs) : bfs :=
  if negb (c_can_release c) || f_releasing s then s
  else if c_scd_ok c then set_releasing true s else s.

Definition sam_arfind_hwm (s : bfs) : bfs := set_hwm (S (f_hwm s)) s.

(** The state of the space, as the two callers compute it. *)
Definition wmstate_of (c : bconf) (space : Z) (out_of_blocks : bool) : wmstate :=
  if (space <? c_high c) || out_of_blocks then FS_HWM
  else if c_low c <? space then FS_LWM
  else FS_LHWM.

Definition check_watermark (c : bconf) (out_of_blocks : bool) (s : bfs) : bfs :=
  let w := wmstate_of c (f_sb_space s) out_of_blocks in
  if decide (f_xstate s = w) then s else sam_check_wmstate c w s.

(** [x -= n], not below zero. *)
Definition sub_floor (x n : Z) : Z := if x - n <? 0 then 0 else x - n.

Definition sam_set_sblk (c : bconf) (modified next_dau : Z) (s : bfs) : bfs :=
  let s0 := set_dau_next next_dau s in
  let m := if 1 <? c_num_group c then s32 (modified * c_num_group c) else modified in
  let '(s1, out_of_blocks) :=
    if decide (c_type c = DT_META) then
      (set_mm_space (sub_floor (f_mm_space s0) (c_mm_blks c * m))
         (set_space (sub_floor (f_space s0) (c_mm_blks c * m)) s0), false)
    else
      (set_sb_space (sub_floor (f_sb_space s0) (c_dau_blks c * m))
         (set_space (sub_floor (f_space s0) (c_dau_blks c * m)) s0),
       f_sb_space s0 - c_dau_blks c * m <? 0) in
  let s2 := check_watermark c out_of_blocks s1 in
  if f_sb_space s2 <? c_high c then sam_arfind_hwm (sam_start_releaser c s2) else s2.

(** ** Refilling *)

(** [sam_write_map]: the write is started; [busy] until it completes. *)
Definition sam_write_map (i : nat) (buf : list Z) (modified next_dau : Z) (s : bfs) : bfs :=
  set_wr (Some (i, buf)) (set_ndau next_dau (set_modified modified (set_busy true s))).

(** [block->in = block->fill] for both pools. *)
Definition commit_pools (p : pools) : pools :=
  mk_per_bt (commit_fill <$> at_sm p) (commit_fill <$> at_lg p).

Definition sam_set_block (c : bconf) (i : nat) (buf : list Z) (off : nat) (rblk : Z)
    (bt : btype) (modified next_dau : Z) : M bfs (Z * btype * Z * Z) :=
  p ← gets f_pools;
  _ ← deref (bt_get p bt);
  let '(e, ws, sc) :=
    set_words (c_geom c) (c_capacity c) rblk (drop off buf)
      (mk_scan p bt modified next_dau false) in
  let buf' := take off buf ++ ws in
  modify (set_pools (sc_pools sc));;
  when (sc_fsck sc) (modify (set_fsck true));;
  match e with
  | ScanNull => fail WildPointer
  | ScanFull false => mret (1, sc_type sc, sc_mod sc, sc_next sc)
  | ScanFull true =>
      modify (sam_write_map i buf' (sc_mod sc) (sc_next sc));;
      mret (1, sc_type sc, sc_mod sc, sc_next sc)
  | ScanMore =>
      if negb (sc_mod sc =? 0) then
        ok ← map_write i buf';
        if negb ok then mret (EIO, sc_type sc, sc_mod sc, sc_next sc)
        else
          modify (sam_set_sblk c (sc_mod sc) (sc_next sc));;
          modify (fun s => set_pools (commit_pools (f_pools s)) s);;
          mret (0, sc_type sc, 0, sc_next sc)
      else mret (0, sc_type sc, sc_mod sc, sc_next sc)
  end.

(** The loop over map blocks of [sam_get_disk_blks], from block [blk] of the map at word
    [off], [nblks] blocks before the end; returns the block type and [daus_allocated]. *)
Fixpoint disk_loop (fuel : nat) (c : bconf) (blk off : nat) (nblks : Z) (wrap : bool)
    (bt : btype) (modified next_dau daus_allocated : Z) : M bfs (btype * Z) :=
  match fuel with
  | O => fail OutOfFuel
  | S fuel' =>
      b ← map_read blk;
      match b with
      | None => mret (bt, daus_allocated)
      | Some buf =>
          r ← sam_set_block c blk buf off (Z.of_nat blk + 1) bt modified next_dau;
          let '(done, bt', modified', next_dau') := r in
          if negb (done =? 0) then mret (bt', daus_allocated)
          else
            let daus' := daus_allocated + modified' in
            if 0 <? nblks - 1 then
              disk_loop fuel' c (S blk) 0 (nblks - 1) wrap bt' modified' next_dau' daus'
            else if wrap then
              modify (set_map_empty true);; mret (bt', daus')
            else
              dn ← gets f_dau_next;
              let num := Z.shiftr (dn + (NBBY - 1)) NBBYSHIFT in
              let nblks' := Z.shiftr (num + (SAM_DEV_BSIZE - 1)) SAM_DEV_BSHIFT in
              disk_loop fuel' c 0 0 nblks' true bt' modified' next_dau' daus'
      end
  end.

(** Map blocks that hold [dau_size] bits. *)
Definition map_blocks (c : bconf) : Z :=
  Z.shiftr (Z.shiftr (c_dau_size c + (NBBY - 1)) NBBYSHIFT + (SAM_DEV_BSIZE - 1)) SAM_DEV_BSHIFT.

(** Each map block is visited at most twice. *)
Definition disk_fuel (c : bconf) : nat := Z.to_nat (2 * map_blocks c + 2).

(** One turn of the loop over block types. *)
Definition fill_type (c : bconf) (bt : btype) (daus_allocated : Z) : M bfs (btype * Z) :=
  p ← gets f_pools;
  match bt_get p bt with
  | None => mret (bt, daus_allocated)
  | Some b =>
      let b' := begin_fill b in
      modify (set_pools (bt_set p bt (Some b')));;
      if Z.shiftr (b_limit b') 1 <=? b_count b' then mret (bt, daus_allocated)
      else
        next_dau ← gets f_dau_next;
        let offset := Z.shiftr next_dau NBBYSHIFT in
        let blk := Z.shiftr offset SAM_DEV_BSHIFT in
        let off := Z.land offset SAM_LOG_WMASK in
        let num := Z.shiftr (c_dau_size c + (NBBY - 1)) NBBYSHIFT
                   - Z.shiftl blk SAM_DEV_BSHIFT in
        let nblks := Z.shiftr (num + (SAM_DEV_BSIZE - 1)) SAM_DEV_BSHIFT in
        disk_loop (disk_fuel c) c (Z.to_nat blk) (Z.to_nat (Z.shiftr off NBPWSHIFT)) nblks
          false bt 0 next_dau daus_allocated
  end.

(** [bt] is passed to [sam_set_block] by reference: when the small pool got full there,
    the loop over types is at its end. *)
Definition sam_get_disk_blks (c : bconf) : M bfs Z :=
  r ← fill_type c SM 0;
  match r with
  | (LG, daus_allocated) => mret daus_allocated
  | (SM, daus_allocated) => r ← fill_type c LG daus_allocated; mret (snd r)
  end.

Definition sam_get_blklist (c : bconf) : M bfs Z :=
  s ← gets id;
  if f_busy s || negb (f_modified s =? 0) then mret 0 else sam_get_disk_blks c.

(** ** Completion *)

(** The end of the write that [sam_write_map] started. *)
Definition sam_block_done (error : bool) (s : bfs) : bfs :=
  let s1 := set_busy false s in
  let s2 := if error then set_modified 0 s1
            else match f_wr s1 with
                 | Some (i, buf) => set_map (<[i := buf]> (f_map s1)) s1
                 | None => s1
                 end in
  set_wr None s2.

(** The part of [sam_block_thread]'s loop for one partition: blocks whose map update has
    been written become available. *)
Definition thread_commit (c : bconf) (s : bfs) : bfs :=
  if f_busy s then s
  else if negb (f_modified s =? 0) then
    sam_set_sblk c (f_modified s) (f_ndau s)
      (set_modified 0 (set_pools (commit_pools (f_pools s)) s))
  else s.

(** ** Freeing a large block *)

(** [x += n], not above [cap]. *)
Definition add_cap (x n cap : Z) : Z := if cap <? x + n then cap else x + n.

Definition ext_dau (g : geom) (ext : Z) : Z :=
  let bn := Z.shiftl ext (g_bn_shift g) in
  if negb (DIF_LG_SHIFT g =? 0) then Z.shiftr bn (DIF_LG_SHIFT g) else bn / LG_DEV_BLOCK g.

(** The counts after a block has gone back to the map. *)
Definition free_space (c : bconf) (s : bfs) : bfs :=
  let meta := bool_decide (c_type c = DT_META) in
  let blocks0 := if meta then c_mm_blks c else c_dau_blks c in
  let blocks := if 1 <? c_num_group c then blocks0 * c_num_group c else blocks0 in
  let s1 := set_space (add_cap (f_space s) blocks (c_capacity c)) s in
  if meta then set_mm_space (add_cap (f_mm_space s1) blocks (c_mm_capacity c)) s1
  else set_sb_space (add_cap (f_sb_space s1) blocks (c_sb_capacity c)) s1.

(** The map block [i] of the freed block has been read; its bit is [bit'] of word [w]. *)
Definition free_found (c : bconf) (ext bn : Z) (i w : nat) (bit' : Z) (buf : list Z) : M bfs Z :=
  if (bn <? c_system c) || (c_capacity c <? bn) || (c_system c =? 0) then mret 0
  else
    s ← gets id;
    (if (f_blk_bn s =? 0) && c_inoblk_meta c then modify (set_blk_bn ext)
     else
       word ← deref (buf !! w);
       let buf' := <[w := sam_setbit word (31 - bit')]> buf in
       modify (fun s => set_map (<[i := buf']> (f_map s)) s);;
       modify (free_space c);;
       modify (set_map_empty false));;
    modify (check_watermark c false);;
    mret 0.

Definition sam_free_lg_block (c : bconf) (ext : Z) : M bfs Z :=
  let bn := Z.shiftl ext (g_bn_shift (c_geom c)) in
  let bit := ext_dau (c_geom c) ext in
  let offset := u32 (Z.shiftr bit NBBYSHIFT) in
  let i := Z.to_nat (Z.shiftr offset SAM_DEV_BSHIFT) in
  b ← map_read i;
  match b with
  | None => mret EIO
  | Some buf =>
      free_found c ext bn i (Z.to_nat (Z.shiftr (Z.land offset SAM_LOG_WMASK) NBPWSHIFT))
        (Z.land bit 0x1f) buf
  end.
