(* ===== verification/BlockRefill.v ===== *)
(** * Refilling the pools: correctness

    Every unit that leaves the free map is in exactly one pool, and the other way round.
    [refill c t1 t2 s s'] says that between [s] and [s'] the units [t1] moved from the map
    to the pool of small blocks and [t2] to the pool of large blocks; the lemmas show that
    [sam_set_block], the loops of [sam_get_disk_blks] and the completion of a write have
    this form, that they end, and that [map_empty] is set only when the map is empty. *)

From S2P Require Import Prelude Dau Bitmap BlockPool BlockScan Monad BlockAlloc.

(** The map once the write under way is done. *)
Definition eff (s : bfs) : list (list Z) :=
  match f_wr s with Some (i, buf) => <[i := buf]> (f_map s) | None => f_map s end.

Definition free_units (s : bfs) : list Z := map_free 0 (eff s).

(** The blocks that a pool holds: those whose map update is not yet acknowledged count
    while the update is in progress ([modified]). *)
Definition live (s : bfs) (bt : btype) : list Z :=
  pool_list (fun b => if f_modified s =? 0 then avail b else queued b) (bt_get (f_pools s) bt).

(** Nothing is in progress, and no pool has uncommitted entries. *)
Definition idle (s : bfs) : Prop := f_busy s = false /\ f_modified s = 0 /\ f_wr s = None.
Definition clean (p : pools) : Prop :=
  forall bt b, bt_get p bt = Some b -> b_fill b = b_in b.

(** Space of one unit of the partition, as the superblock counts it. *)
Definition unit_blks (c : bconf) : Z :=
  (if decide (c_type c = DT_META) then c_mm_blks c else c_dau_blks c)
  * (if 1 <? c_num_group c then c_num_group c else 1).

(** The space count is that of the units free on disk. *)
Definition space_ok (c : bconf) (s : bfs) : Prop :=
  f_space s = unit_blks c * (Z.of_nat (length (free_units s)) + f_modified s).

(** Facts about the partition that hold from [mkfs] on. *)
Record conf_ok (c : bconf) : Prop := {
  co_lg : 1 <= LG_BLOCK (c_geom c);
  co_group : 0 <= c_num_group c;
  co_blks : 0 <= c_mm_blks c /\ 0 <= c_dau_blks c;
  co_size : 0 < c_dau_size c < 2 ^ 31;
  co_group_max : c_dau_size c * c_num_group c < 2 ^ 31
}.

(** The map of a partition: whole blocks, enough of them, no bit set behind the last unit
    or for a unit outside the partition. *)
Record map_ok (c : bconf) (m : list (list Z)) : Prop := {
  mo_wf : map_wf m;
  mo_len : Z.of_nat (length m) = map_blocks c;
  mo_units : forall u, u ∈ map_free 0 m -> u < c_dau_size c /\ dau_bn (c_geom c) u <= c_capacity c
}.

(** Where units have gone. *)
Record refill (c : bconf) (t1 t2 : list Z) (s s' : bfs) : Prop := {
  rf_map : free_units s ≡ₚ (t1 ++ t2) ++ free_units s';
  rf_sm : live s' SM = live s SM ++ concat (sm_exts (c_geom c) <$> t1);
  rf_lg : live s' LG = live s LG ++ (lg_ext (c_geom c) <$> t2);
  rf_next : f_dau_next s' = f_dau_next s \/ f_dau_next s' ∈ t1 ++ t2;
  rf_blk : f_blk_bn s' = f_blk_bn s;
  rf_fsck : f_fsck s' = f_fsck s;
  rf_space : space_ok c s -> space_ok c s'
}.

Lemma refill_trans (c : bconf) (t1 t2 u1 u2 : list Z) (s s1 s2 : bfs) :
  refill c t1 t2 s s1 -> refill c u1 u2 s1 s2 ->
  refill c (t1 ++ u1) (t2 ++ u2) s s2.
Proof.
  intros [] []. split; try congruence; auto.
  - rewrite rf_map0, rf_map1, !app_assoc. apply Permutation_app_tail.
    rewrite <- !app_assoc. apply Permutation_app_head. rewrite !app_assoc.
    apply Permutation_app_tail, Permutation_app_comm.
  - rewrite rf_sm1, rf_sm0, fmap_app, concat_app, app_assoc. reflexivity.
  - rewrite rf_lg1, rf_lg0, fmap_app, app_assoc. reflexivity.
  - destruct rf_next1 as [-> | H]; [destruct rf_next0 as [|H]; [auto|]|];
      right; set_solver.
Qed.

Lemma refill_free (c : bconf) (t1 t2 : list Z) (s s' : bfs) (u : Z) :
  refill c t1 t2 s s' -> u ∈ free_units s' -> u ∈ free_units s.
Proof. intros [] H. rewrite rf_map0. set_solver. Qed.

(** ** Steps that do not touch the units *)

(** What [sam_set_sblk] and the watermark code leave alone. *)
Record sblk_frame (s s' : bfs) : Prop := {
  sf_pools : f_pools s' = f_pools s;
  sf_busy : f_busy s' = f_busy s;
  sf_modified : f_modified s' = f_modified s;
  sf_ndau : f_ndau s' = f_ndau s;
  sf_map_empty : f_map_empty s' = f_map_empty s;
  sf_map : f_map s' = f_map s;
  sf_wr : f_wr s' = f_wr s;
  sf_rio : f_rio s' = f_rio s;
  sf_wio : f_wio s' = f_wio s;
  sf_blk : f_blk_bn s' = f_blk_bn s;
  sf_fsck : f_fsck s' = f_fsck s
}.

Lemma sblk_frame_refl (s : bfs) : sblk_frame s s.
Proof. now split. Qed.

Lemma sblk_frame_trans (s s1 s2 : bfs) : sblk_frame s s1 -> sblk_frame s1 s2 -> sblk_frame s s2.
Proof. intros [] []. split; congruence. Qed.

(** The counts and the next unit are not touched by the watermark code. *)
Definition same_counts (s s' : bfs) : Prop :=
  f_space s' = f_space s /\ f_sb_space s' = f_sb_space s /\ f_mm_space s' = f_mm_space s /\
  f_dau_next s' = f_dau_next s.

Lemma check_watermark_frame (c : bconf) (o : bool) (s : bfs) :
  sblk_frame s (check_watermark c o s) /\ same_counts s (check_watermark c o s).
Proof.
  unfold check_watermark, sam_check_wmstate, sam_report_fs_watermark.
  repeat case_match; split; try apply sblk_frame_refl; try (now split);
    unfold same_counts; cbn; auto.
Qed.

Lemma sub_floor_nonneg (x n : Z) : 0 <= n <= x -> sub_floor x n = x - n.
Proof. intros. unfold sub_floor. destruct (Z.ltb_spec (x - n) 0); lia. Qed.

Lemma sam_set_sblk_spec (c : bconf) (m next : Z) (s : bfs) :
  conf_ok c -> 0 <= m <= c_dau_size c ->
  sblk_frame s (sam_set_sblk c m next s) /\ f_dau_next (sam_set_sblk c m next s) = next /\
  f_space (sam_set_sblk c m next s) = sub_floor (f_space s) (unit_blks c * m).
Proof.
  intros [] Hm. unfold sam_set_sblk, unit_blks.
  assert (E : (if 1 <? c_num_group c then s32 (m * c_num_group c) else m)
              = (if 1 <? c_num_group c then c_num_group c else 1) * m).
  { destruct (Z.ltb_spec 1 (c_num_group c)); [|lia].
    rewrite swrap_id; [lia|lia|]. unfold sint_range. nia. }
  rewrite E, !Z.mul_assoc. clear E.
  destruct (decide (c_type c = DT_META));
    match goal with |- context [check_watermark c ?o ?x] =>
      destruct (check_watermark_frame c o x) as [F (S1 & _ & _ & S4)] end;
    unfold sam_arfind_hwm, sam_start_releaser;
    (destruct (_ <? c_high c); [repeat case_match|]);
    (split; [eapply sblk_frame_trans; [|eapply sblk_frame_trans; [exact F|]]; now split
            |split; [exact S4|exact S1]]).
Qed.

(** ** One block of the map *)

(** Units cleared in block [i] from word [off] on. *)
Lemma map_take (m : list (list Z)) (i off : nat) (buf ws' t : list Z) :
  m !! i = Some buf -> (off <= length buf)%nat -> length ws' = length (drop off buf) ->
  words_free (8192 * Z.of_nat i + 32 * Z.of_nat off) (drop off buf)
    = t ++ words_free (8192 * Z.of_nat i + 32 * Z.of_nat off) ws' ->
  map_free 0 m ≡ₚ t ++ map_free 0 (<[i := take off buf ++ ws']> m).
Proof.
  intros Em Ho Hl Hw. rewrite (map_free_split 0 m i buf Em).
  rewrite map_free_insert by (eapply lookup_lt_Some, Em).
  rewrite <- (take_drop off buf) at 1. rewrite !words_free_app, length_take, Nat.min_l by lia.
  rewrite !Z.add_0_l, Hw, !app_assoc. do 2 apply Permutation_app_tail.
  rewrite <- !app_assoc. rewrite (Permutation_app_comm t). rewrite <- !app_assoc.
  do 2 apply Permutation_app_head. reflexivity.
Qed.

Lemma take_words_wf (buf ws' : list Z) (off : nat) :
  block_wf buf -> length ws' = length (drop off buf) -> Forall (uint_range 32) ws' ->
  block_wf (take off buf ++ ws').
Proof.
  intros [L F] El Fw. split.
  - rewrite length_app, El, length_take, length_drop. lia.
  - apply Forall_app. split; [now apply Forall_take|exact Fw].
Qed.

Lemma map_ok_insert (c : bconf) (m : list (list Z)) (i : nat) (buf : list Z) (t : list Z) :
  map_ok c m -> block_wf buf -> map_free 0 m ≡ₚ t ++ map_free 0 (<[i := buf]> m) ->
  map_ok c (<[i := buf]> m).
Proof.
  intros [] Hb Hp. split.
  - now apply Forall_insert.
  - now rewrite length_insert.
  - intros u Hu. apply mo_units0. rewrite Hp. set_solver.
Qed.

(** ** Pools *)

Lemma grown_avail (l : list Z) (o o' : option sam_block) :
  grown l o o' -> pool_list avail o' = pool_list avail o.
Proof. destruct o, o'; cbn; try tauto. Qed.

Lemma grown_commit (l : list Z) (o o' : option sam_block) :
  grown l o o' -> (forall b, o = Some b -> b_fill b = b_in b) ->
  pool_list avail (commit_fill <$> o') = pool_list avail o ++ l.
Proof.
  destruct o as [b|], o' as [b'|]; cbn; try tauto; [|now intros ->].
  intros (W & Q & _) Hc. rewrite <- (pool_clean b) by auto.
  destruct (commit_fill_spec b' W) as (_ & _ & -> & _). exact Q.
Qed.

Lemma grown_queued (l : list Z) (o o' : option sam_block) :
  grown l o o' -> (forall b, o = Some b -> b_fill b = b_in b) ->
  pool_list queued o' = pool_list avail o ++ l.
Proof.
  destruct o as [b|], o' as [b'|]; cbn; try tauto; [|now intros ->].
  intros (W & Q & _) Hc. now rewrite <- (pool_clean b) by auto.
Qed.

(** The uncommitted entries are what was added. *)
Lemma grown_pend (l : list Z) (o o' : option sam_block) :
  grown l o o' -> (forall b, o = Some b -> b_fill b = b_in b) -> pool_list pend o' = l.
Proof.
  destruct o as [b|], o' as [b'|]; cbn; try tauto; [|now intros ->].
  intros (W & Q & A & _) Hc. rewrite queued_split, A, <- (pool_clean b) in Q by auto.
  now apply app_inv_head in Q.
Qed.

Lemma clean_commit (p : pools) : clean (commit_pools p).
Proof.
  intros [] b; unfold commit_pools; cbn; intros E; apply fmap_Some in E as (b0 & _ & ->);
    reflexivity.
Qed.

Lemma pools_wf_commit (p : pools) : pools_wf p -> pools_wf (commit_pools p).
Proof.
  intros [W1 W2]. split; cbn; intros b E; apply fmap_Some in E as (b0 & E0 & ->);
    apply commit_fill_spec; auto.
Qed.

Lemma clean_at (p : pools) (bt : btype) (b : sam_block) :
  clean p -> bt_get p bt = Some b -> b_fill b = b_in b.
Proof. intros H. apply H. Qed.

(** ** The invariant *)

(** The update that is being written took the units of the uncommitted entries. *)
Definition pend_ok (c : bconf) (s : bfs) : Prop :=
  exists t1 t2, map_free 0 (f_map s) ≡ₚ (t1 ++ t2) ++ free_units s /\
    pool_list pend (at_sm (f_pools s)) = concat (sm_exts (c_geom c) <$> t1) /\
    pool_list pend (at_lg (f_pools s)) = lg_ext (c_geom c) <$> t2 /\
    Z.of_nat (length (t1 ++ t2)) = f_modified s.

Record bfs_ok (c : bconf) (s : bfs) : Prop := {
  bo_pools : pools_wf (f_pools s);
  bo_lg : is_Some (at_lg (f_pools s));
  bo_map : map_ok c (f_map s);
  bo_eff : map_ok c (eff s);
  bo_next : 0 <= f_dau_next s < c_dau_size c;
  bo_mod : 0 <= f_modified s <= c_dau_size c;
  bo_ndau : f_modified s <> 0 -> 0 <= f_ndau s < c_dau_size c;
  bo_clean : f_modified s = 0 -> at_sm (f_pools s) = None \/ clean (f_pools s);
  bo_wr : f_busy s = false -> f_wr s = None;
  bo_pend : f_busy s = true -> pend_ok c s
}.

(** No map update fails on a partition with two pools. *)
Definition writes_ok (s : bfs) : Prop := at_sm (f_pools s) = None \/ f_wio s = [].

Lemma free_units_range (c : bconf) (m : list (list Z)) (u : Z) :
  map_ok c m -> u ∈ map_free 0 m -> 0 <= u < c_dau_size c.
Proof.
  intros [] Hu. pose proof (map_free_range 0 m u mo_wf0 Hu). apply mo_units0 in Hu. lia.
Qed.

Lemma nodup_bounded (l : list Z) (n : Z) :
  NoDup l -> (forall u, u ∈ l -> 0 <= u < n) -> Z.of_nat (length l) <= Z.max n 0.
Proof.
  intros Hn Hr. assert (H : l ⊆+ seqZ 0 n).
  { apply NoDup_submseteq; [exact Hn|]. intros u Hu. apply elem_of_seqZ. specialize (Hr u Hu). lia. }
  apply submseteq_length in H. rewrite length_seqZ in H. lia.
Qed.

Lemma free_units_count (c : bconf) (m : list (list Z)) :
  conf_ok c -> map_ok c m -> Z.of_nat (length (map_free 0 m)) <= c_dau_size c.
Proof.
  intros [] Hm. pose proof (nodup_bounded (map_free 0 m) (c_dau_size c)) as H.
  lapply H; [|apply map_free_nodup, Hm]. intros H1. lapply H1; [lia|].
  intros u Hu. eapply free_units_range; eauto.
Qed.

Lemma pool_list_clean (o : option sam_block) :
  (forall b, o = Some b -> b_fill b = b_in b) -> pool_list queued o = pool_list avail o.
Proof. destruct o; cbn; [|reflexivity]. intros H. apply pool_clean. auto. Qed.

Lemma live_avail (s : bfs) (bt : btype) :
  f_modified s = 0 -> live s bt = pool_list avail (bt_get (f_pools s) bt).
Proof. intros E. unfold live. rewrite E. reflexivity. Qed.

Lemma live_queued (s : bfs) (bt : btype) :
  f_modified s <> 0 -> live s bt = pool_list queued (bt_get (f_pools s) bt).
Proof.
  intros E. unfold live. destruct (Z.eqb_spec (f_modified s) 0); [contradiction|reflexivity].
Qed.

(** What [sam_set_block] leaves alone. *)
Definition set_block_frame (s s' : bfs) : Prop :=
  f_map_empty s' = f_map_empty s /\ writes_ok s' /\
  (at_sm (f_pools s') = None <-> at_sm (f_pools s) = None) /\
  (f_rio s = [] -> f_rio s' = []) /\ (f_wio s = [] -> f_wio s' = []).

(** The units taken lie in the part of the map that was scanned. *)
Definition units_in (t : list Z) (lo hi : Z) : Prop := forall u, u ∈ t -> lo <= u < hi.
Definition none_in (t : list Z) (lo hi : Z) : Prop := forall u, u ∈ t -> ~ (lo <= u < hi).

(** The outcome of [sam_set_block] on block [i] from word [off] on. *)
Definition set_block_post (c : bconf) (i off : nat) (bt : btype) (s : bfs)
    (r : Z * btype * Z * Z) (s' : bfs) : Prop :=
  let '(done, bt', modified', next') := r in
  let lo := 8192 * Z.of_nat i + 32 * Z.of_nat off in
  let hi := 8192 * (Z.of_nat i + 1) in
  exists t1 t2, refill c t1 t2 s s' /\ bfs_ok c s' /\ set_block_frame s s' /\
    units_in (t1 ++ t2) lo hi /\ (bt = LG -> bt' = LG) /\
    (done = 0 -> modified' = 0 /\ idle s' /\ clean (f_pools s') /\
       none_in (free_units s') lo hi /\ is_Some (bt_get (f_pools s') bt')) /\
    (done <> 0 -> bt' = LG /\ (f_wio s = [] -> live s' LG <> [])).

Lemma map_range (c : bconf) (m : list (list Z)) :
  conf_ok c -> map_ok c m -> 8192 * Z.of_nat (length m) <= 2 ^ 32.
Proof.
  intros [] []. rewrite mo_len0. unfold map_blocks, NBBY, NBBYSHIFT, SAM_DEV_BSIZE, SAM_DEV_BSHIFT.
  rewrite !Z.shiftr_div_pow2 by lia. change (2 ^ 3) with 8. change (2 ^ 10) with 1024. dlia.
Qed.

Lemma wp_map_write (i : nat) (buf : list Z) (Q : bool -> bfs -> Prop) (s : bfs) :
  (forall rest, (f_wio s = [] -> rest = []) ->
     Q true (set_map (<[i := buf]> (f_map s)) (set_wio rest s))) ->
  (forall rest, f_wio s <> [] -> Q false (set_wio rest s)) ->
  wp (map_write i buf) Q s.
Proof.
  intros Ht Hf. unfold map_write. apply wp_bind, wp_gets. unfold id.
  destruct (f_wio s) as [|[] rest] eqn:E; cbn [transfer];
    apply wp_bind, wp_modify, wp_bind; cbn [when];
    try (apply wp_modify, wp_ret; apply Ht; congruence).
  apply wp_ret, wp_ret. apply Hf. congruence.
Qed.

Lemma wp_map_read (i : nat) (b : list Z) (Q : option (list Z) -> bfs -> Prop) (s : bfs) :
  f_map s !! i = Some b ->
  (forall rest, (f_rio s = [] -> rest = []) -> Q (Some b) (set_rio rest s)) ->
  (forall rest, f_rio s <> [] -> Q None (set_rio rest s)) ->
  wp (map_read i) Q s.
Proof.
  intros Eb Ht Hf. unfold map_read. apply wp_bind, wp_gets. unfold id.
  destruct (f_rio s) as [|[] rest] eqn:E; cbn [transfer]; apply wp_bind, wp_modify.
  1,2: apply wp_bind; eapply wp_deref; [exact Eb|]; apply wp_ret; apply Ht; congruence.
  apply wp_ret, Hf. congruence.
Qed.

(** A block scanned to its end has no free unit from the starting word on. *)
Lemma insert_none (m : list (list Z)) (i off : nat) (buf ws : list Z) :
  m !! i = Some buf -> map_wf m -> (off <= MAP_WORDS)%nat -> length ws = length (drop off buf) ->
  words_free (8192 * Z.of_nat i + 32 * Z.of_nat off) ws = [] ->
  none_in (map_free 0 (<[i := take off buf ++ ws]> m))
    (8192 * Z.of_nat i + 32 * Z.of_nat off) (8192 * (Z.of_nat i + 1)).
Proof.
  intros Em Wm Ho Hl X u Hu Hr. pose proof (lookup_lt_Some _ _ _ Em) as Hi.
  pose proof (proj1 (Forall_lookup_1 _ _ _ _ Wm Em)) as L.
  rewrite map_free_insert, words_free_app, length_take, Nat.min_l in Hu by (rewrite ?L; auto).
  rewrite !Z.add_0_l, X, app_nil_r, !elem_of_app in Hu. destruct Hu as [Hu|[Hu|Hu]].
  - apply map_free_range in Hu; [|now apply Forall_take]. rewrite length_take in Hu. lia.
  - apply words_free_range in Hu. rewrite length_take in Hu. lia.
  - apply map_free_range in Hu; [|now apply Forall_drop]. lia.
Qed.

(** ** The exits of [sam_set_block] *)

Section SetBlock.
Context (c : bconf) (HC : conf_ok c) (s : bfs) (HB : bfs_ok c s) (HI : idle s)
  (HK : clean (f_pools s)).
Context (i off : nat) (buf : list Z) (Em : f_map s !! i = Some buf)
  (Ho : (off <= length buf)%nat).
Context (bt : btype) (next : Z) (sc : scan) (ws t1 t2 : list Z)
  (T : took (c_geom c) t1 t2 (mk_scan (f_pools s) bt 0 next false) sc)
  (Hw : words_free (8192 * Z.of_nat i + 32 * Z.of_nat off) (drop off buf)
        = (t1 ++ t2) ++ words_free (8192 * Z.of_nat i + 32 * Z.of_nat off) ws)
  (Hl : length ws = length (drop off buf)) (HF : Forall (uint_range 32) ws).

Let m' : list (list Z) := <[i := take off buf ++ ws]> (f_map s).

Lemma sb_eff : eff s = f_map s.
Proof. destruct HI as (_ & _ & E). unfold eff. now rewrite E. Qed.

Lemma sb_perm : map_free 0 (f_map s) ≡ₚ (t1 ++ t2) ++ map_free 0 m'.
Proof. now apply map_take. Qed.

Lemma sb_map_ok : map_ok c m'.
Proof.
  eapply map_ok_insert; [apply HB| |exact sb_perm]. apply take_words_wf; auto.
  eapply Forall_lookup_1; [apply HB|exact Em].
Qed.

Lemma sb_mod : sc_mod sc = Z.of_nat (length (t1 ++ t2)) /\ 0 <= sc_mod sc <= c_dau_size c.
Proof.
  pose proof (tk_mod _ _ _ _ _ T) as E. cbn in E. split; [lia|].
  pose proof (free_units_count c (f_map s) HC (bo_map _ _ HB)) as B.
  rewrite sb_perm, length_app in B. lia.
Qed.

Lemma sb_units (u : Z) : u ∈ t1 ++ t2 ->
  8192 * Z.of_nat i + 32 * Z.of_nat off <= u < 8192 * (Z.of_nat i + 1) /\
  0 <= u < c_dau_size c.
Proof.
  intros Hu. split.
  - assert (H : u ∈ words_free (8192 * Z.of_nat i + 32 * Z.of_nat off) (drop off buf))
      by (rewrite Hw; set_solver).
    apply words_free_range in H. rewrite length_drop in H.
    pose proof (proj1 (Forall_lookup_1 _ _ _ _ (mo_wf _ _ (bo_map _ _ HB)) Em)) as L.
    rewrite L in *. unfold MAP_WORDS in *. lia.
  - eapply free_units_range; [apply HB|]. rewrite sb_perm. set_solver.
Qed.

Lemma sb_next : t1 ++ t2 <> [] -> sc_next sc ∈ t1 ++ t2.
Proof.
  intros Hn. rewrite (tk_next _ _ _ _ _ T). cbn.
  destruct (last (t1 ++ t2)) as [x|] eqn:E; [|now apply last_None in E].
  cbn. apply last_Some in E as [l' ->]. set_solver.
Qed.

Lemma sb_pools : pools_wf (sc_pools sc) /\ is_Some (at_lg (sc_pools sc)) /\
  (at_sm (sc_pools sc) = None <-> at_sm (f_pools s) = None).
Proof.
  destruct T as [T1 T2 _ _ _ _ _]. cbn in T1, T2. split_and!.
  - split; eauto using grown_wf.
  - eapply grown_some; [exact T2|apply HB].
  - destruct (at_sm (f_pools s)), (at_sm (sc_pools sc)); cbn in T1; intuition congruence.
Qed.

Lemma sb_clean_at (f : pools -> option sam_block) (b : sam_block) :
  f = at_sm \/ f = at_lg -> f (f_pools s) = Some b -> b_fill b = b_in b.
Proof. intros [-> | ->] E; [apply (HK SM)|apply (HK LG)]; exact E. Qed.

(** The pools after the scan, seen through each reading. *)
Lemma sb_lists :
  pool_list avail (at_sm (sc_pools sc)) = pool_list avail (at_sm (f_pools s)) /\
  pool_list avail (at_lg (sc_pools sc)) = pool_list avail (at_lg (f_pools s)) /\
  pool_list queued (at_sm (sc_pools sc))
    = pool_list avail (at_sm (f_pools s)) ++ concat (sm_exts (c_geom c) <$> t1) /\
  pool_list queued (at_lg (sc_pools sc))
    = pool_list avail (at_lg (f_pools s)) ++ (lg_ext (c_geom c) <$> t2) /\
  pool_list pend (at_sm (sc_pools sc)) = concat (sm_exts (c_geom c) <$> t1) /\
  pool_list pend (at_lg (sc_pools sc)) = lg_ext (c_geom c) <$> t2.
Proof.
  destruct T as [T1 T2 _ _ _ _ _]. cbn in T1, T2.
  split_and!; eauto using grown_avail, grown_queued, grown_pend, sb_clean_at.
Qed.

Lemma sb_commit_lists (bt' : btype) :
  pool_list avail (bt_get (commit_pools (sc_pools sc)) bt')
  = pool_list avail (bt_get (f_pools s) bt')
    ++ match bt' with
       | SM => concat (sm_exts (c_geom c) <$> t1)
       | LG => lg_ext (c_geom c) <$> t2
       end.
Proof.
  destruct T as [T1 T2 _ _ _ _ _]. cbn in T1, T2.
  destruct bt'; unfold commit_pools; cbn; eauto using grown_commit, sb_clean_at.
Qed.

(** Nothing was taken: the pools are clean as before. *)
Lemma sb_nothing : t1 ++ t2 = [] -> clean (sc_pools sc).
Proof.
  intros E. apply app_eq_nil in E as [-> ->]. destruct T as [T1 T2 _ _ _ _ _]. cbn in T1, T2.
  assert (G : forall o o', grown [] o o' -> (forall b, o = Some b -> b_fill b = b_in b) ->
    forall b', o' = Some b' -> b_fill b' = b_in b').
  { intros [b|] [b'|]; cbn; try tauto; try discriminate.
    intros ([] & Q & A & E1 & E2 & E3) Hc ? [= <-]. rewrite app_nil_r in Q.
    apply (f_equal length) in Q, A. unfold queued, avail in Q, A. rewrite !ring_length in Q, A.
    rewrite <- (Hc b eq_refl) in A. rewrite <- A in Q. unfold ring_count in Q.
    rewrite !mod_diff in Q by lia.
    destruct (Z.ltb_spec (b_fill b' - b_out b') 0), (Z.ltb_spec (b_in b' - b_out b') 0); lia. }
  intros [] b Eb; [eapply (G _ _ T1)|eapply (G _ _ T2)]; eauto using sb_clean_at.
Qed.

Lemma sb_space (n : Z) (s' : bfs) :
  n = Z.of_nat (length (t1 ++ t2)) ->
  length (free_units s') = length (map_free 0 m') -> f_modified s' = 0 ->
  f_space s' = sub_floor (f_space s) (unit_blks c * n) ->
  space_ok c s -> space_ok c s'.
Proof.
  intros -> El Em0 Es Hs. unfold space_ok in *. rewrite El, Em0, Es, Hs.
  destruct HI as (_ & -> & _). unfold free_units. rewrite sb_eff, sb_perm, length_app.
  rewrite sub_floor_nonneg; [lia|].
  assert (0 <= unit_blks c).
  { unfold unit_blks. destruct HC. destruct (decide _), (1 <? c_num_group c); nia. }
  nia.
Qed.

(** The asynchronous write has been started. *)
Lemma sb_full :
  let s' := sam_write_map i (take off buf ++ ws) (sc_mod sc) (sc_next sc)
              (set_pools (sc_pools sc) s) in
  refill c t1 t2 s s' /\ bfs_ok c s'.
Proof.
  destruct sb_pools as (W & L & _), sb_mod as [Em' Bm], HI as (_ & Hm & _).
  destruct sb_lists as (A1 & A2 & Q1 & Q2 & P1 & P2).
  assert (N : sc_mod sc = 0 -> t1 = [] /\ t2 = []).
  { intros E. apply app_eq_nil, nil_length_inv. lia. }
  cbv zeta. split; [split|split]; cbn; auto; try apply HB.
  - unfold free_units. rewrite sb_eff. exact sb_perm.
  - rewrite (live_avail s) by exact Hm. unfold live. cbn.
    destruct (Z.eqb_spec (sc_mod sc) 0) as [E|]; [|exact Q1].
    destruct (N E) as [-> _]. now rewrite app_nil_r.
  - rewrite (live_avail s) by exact Hm. unfold live. cbn.
    destruct (Z.eqb_spec (sc_mod sc) 0) as [E|]; [|exact Q2].
    destruct (N E) as [_ ->]. now rewrite app_nil_r.
  - unfold space_ok, free_units, eff. cbn. destruct HI as (_ & -> & ->). intros ->.
    rewrite sb_perm, length_app, Em'. fold m'. lia.
  - exact sb_map_ok.
  - intros Hn. apply sb_units, sb_next. intros E. rewrite E in Em'. auto.
  - intros E. right. apply sb_nothing. destruct (N E) as [-> ->]. reflexivity.
  - discriminate.
  - intros _. exists t1, t2. split_and!; auto. exact sb_perm.
Qed.

(** The synchronous write has succeeded, the entries are available. *)
Lemma sb_written (s' : bfs) :
  t1 ++ t2 <> [] -> f_pools s' = commit_pools (sc_pools sc) -> f_map s' = m' ->
  f_dau_next s' = sc_next sc -> idle s' -> f_blk_bn s' = f_blk_bn s -> f_fsck s' = f_fsck s ->
  f_space s' = sub_floor (f_space s) (unit_blks c * sc_mod sc) ->
  refill c t1 t2 s s' /\ bfs_ok c s' /\ clean (f_pools s').
Proof.
  intros Hn Ep Ef Ed (I1 & I2 & I3) Eb Ek Es. destruct sb_pools as (W & L & _), sb_mod as [Em' _].
  assert (E' : eff s' = m') by (unfold eff; now rewrite I3).
  pose proof (sb_next Hn) as Nx. pose proof HI as (_ & Hm & _).
  split; [|split; [|rewrite Ep; apply clean_commit]].
  - split; auto.
    + unfold free_units. rewrite sb_eff, E'. exact sb_perm.
    + rewrite !live_avail, Ep by auto. apply (sb_commit_lists SM).
    + rewrite !live_avail, Ep by auto. apply (sb_commit_lists LG).
    + right. congruence.
    + eapply (sb_space (sc_mod sc)); auto. unfold free_units. now rewrite E'.
  - split; rewrite ?Ep, ?Ef, ?E', ?I1, ?I2, ?I3; try exact sb_map_ok; try congruence.
    + now apply pools_wf_commit.
    + cbn. destruct L as [b ->]. cbn. eauto.
    + rewrite Ed. now apply sb_units.
    + destruct HC. lia.
    + right. apply clean_commit.
Qed.

(** The map was not changed: nothing was taken, or the write failed. *)
Lemma sb_unchanged (s' : bfs) :
  t1 ++ t2 = [] \/ at_sm (f_pools s) = None -> f_pools s' = sc_pools sc ->
  f_map s' = f_map s -> f_dau_next s' = f_dau_next s -> idle s' ->
  f_blk_bn s' = f_blk_bn s -> f_fsck s' = f_fsck s -> f_space s' = f_space s ->
  refill c [] [] s s' /\ bfs_ok c s' /\ (t1 ++ t2 = [] -> clean (f_pools s')).
Proof.
  intros Hn Ep Ef Ed (I1 & I2 & I3) Eb Ek Es. destruct sb_pools as (W & L & S0).
  destruct sb_lists as (A1 & A2 & _). pose proof HI as (_ & Hm & _).
  assert (E' : eff s' = f_map s) by (unfold eff; now rewrite I3).
  split; [|split; [|intros E; rewrite Ep; now apply sb_nothing]].
  - split; auto.
    + unfold free_units. now rewrite sb_eff, E'.
    + rewrite !live_avail, Ep by auto. cbn. now rewrite app_nil_r.
    + rewrite !live_avail, Ep by auto. cbn. now rewrite app_nil_r.
    + unfold space_ok, free_units. rewrite E', I2, Es, Hm, sb_eff. auto.
  - split; rewrite ?Ep, ?Ef, ?E', ?I1, ?I2, ?I3, ?Ed; auto; try apply HB; try congruence.
    + destruct HC. lia.
    + intros _. destruct Hn as [Hn|Hn]; [right; now apply sb_nothing|left; now apply S0].
Qed.

Context (HW : writes_ok s) (Hpt : is_Some (bt_get (f_pools s) bt)) (HO : (off <= MAP_WORDS)%nat).

Lemma sb_frame (s' : bfs) :
  f_pools s' = sc_pools sc \/ f_pools s' = commit_pools (sc_pools sc) ->
  (f_wio s = [] -> f_wio s' = []) -> f_map_empty s' = f_map_empty s -> f_rio s' = f_rio s ->
  set_block_frame s s'.
Proof.
  intros Ep Ew E1 E2. destruct sb_pools as (_ & _ & S0).
  assert (at_sm (f_pools s') = None <-> at_sm (f_pools s) = None).
  { rewrite <- S0. destruct Ep as [-> | ->]; [tauto|]. cbn.
    destruct (at_sm (sc_pools sc)); cbn; intuition congruence. }
  unfold set_block_frame, writes_ok in *. rewrite E2. intuition.
Qed.

(** The pool that the scan ended with exists. *)
Lemma sb_type : is_Some (bt_get (sc_pools sc) (sc_type sc)) /\ (bt = LG -> sc_type sc = LG).
Proof.
  split; [|intros E; now apply T].
  assert (OK : scan_ok sc).
  { eapply took_ok; [exact T|]. split; [apply HB|]. split; [apply HB|]. cbn. intros ->. exact Hpt. }
  destruct OK as (_ & L & S0). destruct (sc_type sc); auto.
Qed.

Lemma sb_units_in :
  units_in (t1 ++ t2) (8192 * Z.of_nat i + 32 * Z.of_nat off) (8192 * (Z.of_nat i + 1)).
Proof. intros u Hu. now apply sb_units. Qed.

Lemma sb_none_taken : sc_mod sc = 0 -> t1 ++ t2 = [].
Proof. intros E. destruct sb_mod as [E' _]. apply nil_length_inv. lia. Qed.

(** A full large pool has blocks. *)
Lemma sb_lg_live (s' : bfs) :
  lg_full sc -> f_pools s' = sc_pools sc -> clean (f_pools s') \/ f_modified s' <> 0 ->
  live s' LG <> [].
Proof.
  intros (b & Eb & Hb) Ep Hm. assert (W : pool_wf b) by now apply sb_pools.
  destruct W. assert (Hq : queued b <> []) by (intros E; rewrite E in Hb; cbn in Hb; lia).
  unfold live. rewrite Ep. cbn. rewrite Eb. cbn. destruct (Z.eqb_spec (f_modified s') 0); [|exact Hq].
  destruct Hm as [Hk|]; [|contradiction]. rewrite <- pool_clean; [exact Hq|].
  apply (Hk LG). rewrite Ep. exact Eb.
Qed.

(** The scan took nothing. *)
Lemma sb_exit_nothing (done : Z) (m : Z) :
  sc_mod sc = 0 -> m = 0 ->
  (done = 0 -> words_free (8192 * Z.of_nat i + 32 * Z.of_nat off) ws = []) ->
  (done <> 0 -> sc_type sc = LG /\ lg_full sc) ->
  set_block_post c i off bt s (done, sc_type sc, m, sc_next sc) (set_pools (sc_pools sc) s).
Proof.
  intros E0 -> X XL. pose proof (sb_none_taken E0) as Et. pose proof HI as (I1 & I2 & I3).
  destruct (sb_unchanged (set_pools (sc_pools sc) s)) as (R & B & K); auto.
  exists [], []. split; [exact R|]. split; [exact B|]. split; [apply sb_frame; auto|].
  split; [intros u Hu; set_solver|]. split; [apply sb_type|]. split.
  2: { intros Hd. destruct (XL Hd) as [Xt Xf]. split; [exact Xt|intros _].
       apply sb_lg_live; [exact Xf|reflexivity|left; auto]. }
  intros E. split; [reflexivity|]. split; [exact HI|]. split; [auto|].
  split; [|apply sb_type]. intros u Hu. unfold free_units, eff in Hu. cbn in Hu.
  rewrite I3, sb_perm, Et in Hu. revert u Hu. apply insert_none; auto. apply HB.
Qed.

(** The map block has been written. *)
Lemma sb_exit_written (rest : list bool) :
  sc_mod sc <> 0 -> (f_wio s = [] -> rest = []) ->
  words_free (8192 * Z.of_nat i + 32 * Z.of_nat off) ws = [] ->
  let s1 := sam_set_sblk c (sc_mod sc) (sc_next sc)
              (set_map m' (set_wio rest (set_pools (sc_pools sc) s))) in
  set_block_post c i off bt s (0, sc_type sc, 0, sc_next sc)
    (set_pools (commit_pools (f_pools s1)) s1).
Proof.
  intros N0 Er X s1. destruct sb_mod as [EM BM]. pose proof HI as (I1 & I2 & I3).
  destruct (sam_set_sblk_spec c (sc_mod sc) (sc_next sc)
    (set_map m' (set_wio rest (set_pools (sc_pools sc) s))) HC BM) as (SF & Ed & Es).
  fold s1 in SF, Ed, Es. destruct SF; cbn in *.
  assert (ID : idle (set_pools (commit_pools (f_pools s1)) s1))
    by (unfold idle; cbn; intuition congruence).
  destruct (sb_written (set_pools (commit_pools (f_pools s1)) s1)) as (R & B & K);
    cbn; auto; try congruence.
  { intros E. rewrite E in EM. auto. }
  exists t1, t2. split; [exact R|]. split; [exact B|].
  split; [apply sb_frame; cbn; [right|intros; rewrite sf_wio0; auto|..]; congruence|].
  split; [exact sb_units_in|]. split; [apply sb_type|]. split; [|tauto].
  intros _. split; [reflexivity|]. split; [exact ID|]. split; [exact K|]. split.
  - unfold free_units, eff. cbn. rewrite sf_wr0, I3, sf_map0. apply insert_none; auto. apply HB.
  - cbn. rewrite sf_pools0. destruct sb_type as [[b Eb] _].
    destruct (sc_type sc); cbn in *; rewrite Eb; cbn; eauto.
Qed.

(** The map block could not be written. *)
Lemma sb_exit_failed (rest : list bool) :
  f_wio s <> [] ->
  set_block_post c i off bt s (EIO, sc_type sc, sc_mod sc, sc_next sc)
    (set_wio rest (set_pools (sc_pools sc) s)).
Proof.
  intros Hn. destruct HW as [HW0|]; [|contradiction].
  destruct (sb_unchanged (set_wio rest (set_pools (sc_pools sc) s))) as (R & B & _); auto.
  exists [], []. split; [exact R|]. split; [exact B|]. split; [apply sb_frame; cbn; auto; tauto|].
  split; [intros u Hu; set_solver|]. split; [apply sb_type|]. split; [discriminate|].
  intros _. split; [|contradiction]. destruct sb_type as [[b Eb] _].
  destruct sb_pools as (_ & _ & S0).
  destruct (sc_type sc); [|reflexivity]. cbn in Eb. apply S0 in HW0. congruence.
Qed.

(** The pools are full and the write of the map block has been started. *)
Lemma sb_exit_full :
  sc_type sc = LG -> lg_full sc ->
  set_block_post c i off bt s (1, sc_type sc, sc_mod sc, sc_next sc)
    (sam_write_map i (take off buf ++ ws) (sc_mod sc) (sc_next sc) (set_pools (sc_pools sc) s)).
Proof.
  intros Ht Hf. destruct sb_full as [R B]. exists t1, t2. split; [exact R|]. split; [exact B|].
  split; [apply sb_frame; auto|]. split; [exact sb_units_in|]. split; [apply sb_type|].
  split; [discriminate|]. intros _. split; [exact Ht|]. intros _.
  apply sb_lg_live; [exact Hf|reflexivity|]. destruct (Z.eq_dec (sc_mod sc) 0) as [E|E].
  - left. apply sb_nothing. now apply sb_none_taken.
  - now right.
Qed.
End SetBlock.


Lemma sam_set_block_spec (c : bconf) (i off : nat) (buf : list Z) (bt : btype) (next : Z)
    (s : bfs) :
  conf_ok c -> bfs_ok c s -> idle s -> clean (f_pools s) -> writes_ok s ->
  f_map s !! i = Some buf -> (off <= MAP_WORDS)%nat -> is_Some (bt_get (f_pools s) bt) ->
  wp (sam_set_block c i buf off (Z.of_nat i + 1) bt 0 next) (set_block_post c i off bt s) s.
Proof.
  intros HC HB HI HK HW Em Ho Hpt. pose proof Hpt as [pb Epb].
  pose proof (Forall_lookup_1 _ _ _ _ (mo_wf _ _ (bo_map _ _ HB)) Em) as [Lb Fb].
  assert (Ho' : (off <= length buf)%nat) by (rewrite Lb; exact Ho).
  unfold sam_set_block. apply wp_bind, wp_gets, wp_bind.
  eapply wp_deref; [exact Epb|].
  set (lo := 8192 * Z.of_nat i + 32 * Z.of_nat off).
  assert (Elo : word_base (Z.of_nat i + 1) (Z.of_nat (length (drop off buf))) = lo).
  { unfold word_base, lo. rewrite length_drop, Lb. unfold MAP_WORDS in *. lia. }
  pose proof (set_words_spec (c_geom c) (c_capacity c) (Z.of_nat i + 1)) as SP.
  specialize (SP ltac:(destruct HC; lia) (drop off buf) (mk_scan (f_pools s) bt 0 next false)).
  cbv zeta in SP. rewrite Elo in SP.
  destruct (set_words _ _ _ _ _) as [[e ws] sc].
  destruct SP as (t1 & t2 & T & Hw & Hl & HF & X).
  { unfold lo. lia. }
  { pose proof (map_range c _ HC (bo_map _ _ HB)). pose proof (lookup_lt_Some _ _ _ Em).
    unfold lo. rewrite length_drop, Lb. unfold MAP_WORDS in *. lia. }
  { intros u Hu. apply (mo_units _ _ (bo_map _ _ HB)).
    rewrite (map_free_split 0 _ i buf Em), <- (take_drop off buf), words_free_app.
    rewrite length_take, Nat.min_l by lia. rewrite Z.add_0_l. fold lo. rewrite !elem_of_app. auto. }
  { now apply Forall_drop. }
  { split; [apply HB|]. split; [apply HB|]. cbn. intros ->. eauto. }
  pose proof (tk_fsck _ _ _ _ _ T) as Ek. cbn in Ek.
  apply wp_bind, wp_modify, wp_bind. rewrite Ek. apply wp_ret.
  destruct e as [|[]|]; cbn [exit_ok] in X; [| | |contradiction].
  - destruct (Z.eqb_spec (sc_mod sc) 0) as [E0|N0]; cbn [negb].
    + apply wp_ret. eapply sb_exit_nothing; eauto. tauto.
    + apply wp_bind, wp_map_write; intros rest Hr; cbn [negb].
      * apply wp_bind, wp_modify, wp_bind, wp_modify, wp_ret.
        change (f_map (set_pools (sc_pools sc) s)) with (f_map s).
        eapply (sb_exit_written c HC s); eauto.
      * apply wp_ret. eapply (sb_exit_failed c HC s); eauto.
  - apply wp_bind, wp_modify, wp_ret. eapply sb_exit_full; eauto; apply X.
  - apply wp_ret. destruct X as (Xt & Xf & X). eapply sb_exit_nothing; eauto. discriminate.
Qed.

(** ** The loop over map blocks *)

Lemma none_in_app (t : list Z) (a b d : Z) : none_in t a b -> none_in t b d -> none_in t a d.
Proof. intros H1 H2 u Hu Hr. destruct (Z.lt_ge_cases u b); [apply (H1 u)|apply (H2 u)]; lia || auto. Qed.

Lemma none_in_refill (c : bconf) (t1 t2 : list Z) (s s' : bfs) (a b : Z) :
  refill c t1 t2 s s' -> none_in (free_units s) a b -> none_in (free_units s') a b.
Proof. intros R H u Hu. apply H. eapply refill_free; eauto. Qed.

Lemma ceil_bits (n : Z) :
  0 <= n ->
  let b := Z.shiftr (Z.shiftr (n + (NBBY - 1)) NBBYSHIFT + (SAM_DEV_BSIZE - 1)) SAM_DEV_BSHIFT in
  8192 * (b - 1) < n <= 8192 * b \/ n = 0 /\ b = 0.
Proof.
  intros Hn b. subst b. unfold NBBY, NBBYSHIFT, SAM_DEV_BSIZE, SAM_DEV_BSHIFT.
  rewrite !Z.shiftr_div_pow2 by lia. change (2 ^ 3) with 8. change (2 ^ 10) with 1024. dlia.
Qed.

Lemma map_blocks_spec (c : bconf) :
  conf_ok c -> 1 <= map_blocks c /\ 8192 * (map_blocks c - 1) < c_dau_size c <= 8192 * map_blocks c.
Proof.
  intros []. pose proof (ceil_bits (c_dau_size c) ltac:(lia)) as H. cbv zeta in H.
  fold (map_blocks c) in H. lia.
Qed.

Lemma no_units (c : bconf) (s : bfs) :
  conf_ok c -> bfs_ok c s -> none_in (free_units s) 0 (8192 * map_blocks c) -> free_units s = [].
Proof.
  intros HC HB H. destruct (free_units s) as [|u l] eqn:E; [reflexivity|]. exfalso.
  assert (Hu : u ∈ free_units s) by (rewrite E; set_solver). apply (H u); [set_solver|].
  apply (free_units_range c) in Hu; [|apply HB]. pose proof (map_blocks_spec c HC). lia.
Qed.

(** What [sam_get_disk_blks] needs of the partition to start scanning. *)
Record scan_pre (c : bconf) (bt : btype) (s : bfs) : Prop := {
  sp_ok : bfs_ok c s;
  sp_idle : idle s;
  sp_clean : clean (f_pools s);
  sp_writes : writes_ok s;
  sp_pool : is_Some (bt_get (f_pools s) bt)
}.

Lemma bfs_ok_rio (c : bconf) (r : list bool) (s : bfs) : bfs_ok c s -> bfs_ok c (set_rio r s).
Proof. intros []. split; assumption. Qed.

Lemma scan_pre_rio (c : bconf) (bt : btype) (r : list bool) (s : bfs) :
  scan_pre c bt s -> scan_pre c bt (set_rio r s).
Proof. intros []. split; auto using bfs_ok_rio. Qed.

Lemma refill_rio (c : bconf) (t1 t2 : list Z) (r : list bool) (s s' : bfs) :
  refill c t1 t2 (set_rio r s) s' -> refill c t1 t2 s s'.
Proof. intros []. split; assumption. Qed.

Lemma refill_refl (c : bconf) (s : bfs) : refill c [] [] s s.
Proof. split; cbn; rewrite ?app_nil_r; auto. Qed.

(** The position of the loop: [D] is the unit at which it started. Before the wrap all
    of [[D, position)] has been emptied, after it everything from [D] on and from the
    beginning to the position. *)
Definition loop_at (c : bconf) (D : Z) (blk off : nat) (nblks : Z) (wrap : bool) (s : bfs) : Prop :=
  let pos := 8192 * Z.of_nat blk + 32 * Z.of_nat off in
  if wrap then
    off = 0%nat /\ none_in (free_units s) D (8192 * map_blocks c) /\
    none_in (free_units s) 0 pos /\ D <= 8192 * (Z.of_nat blk + nblks) /\
    0 <= nblks /\ Z.of_nat blk + Z.max nblks 1 <= map_blocks c
  else
    1 <= nblks /\ Z.of_nat blk + nblks = map_blocks c /\ none_in (free_units s) D pos /\
    D <= pos /\ D <= f_dau_next s.

(** Turns that are left. *)
Definition loop_turns (c : bconf) (nblks : Z) (wrap : bool) : Z :=
  if wrap then Z.max nblks 1 else nblks + map_blocks c.

(** What a scan of the map achieves. *)
Definition scanned (c : bconf) (bt : btype) (s : bfs) (r : btype * Z) (s' : bfs) : Prop :=
  exists t1 t2, refill c t1 t2 s s' /\ bfs_ok c s' /\ writes_ok s' /\
    (at_sm (f_pools s') = None <-> at_sm (f_pools s) = None) /\
    (bt = LG -> fst r = LG) /\ snd r = 0 /\
    (f_map_empty s' = f_map_empty s \/ f_map_empty s' = true /\ free_units s' = []) /\
    (fst r = SM -> idle s') /\
    (f_rio s = [] -> f_wio s = [] -> f_rio s' = [] /\ f_wio s' = [] /\
       (fst r = LG -> f_map_empty s' = true /\ free_units s' = [] \/ live s' LG <> [])).

Lemma scanned_trans (c : bconf) (bt bt1 : btype) (t1 t2 : list Z) (s s1 s2 : bfs) (r : btype * Z) :
  refill c t1 t2 s s1 -> set_block_frame s s1 -> (bt = LG -> bt1 = LG) ->
  scanned c bt1 s1 r s2 -> scanned c bt s r s2.
Proof.
  intros R (E1 & _ & E4 & E5 & E6) Hbt (u1 & u2 & R' & B & W & Ep & Hl & D & Me & K & G).
  exists (t1 ++ u1), (t2 ++ u2). split; [eapply refill_trans; eauto|].
  rewrite E1 in Me. tauto.
Qed.

(** The position after a block has been scanned to its end. *)
Lemma loop_next (c : bconf) (D : Z) (blk off : nat) (nblks : Z) (wrap : bool) (t1 t2 : list Z)
    (s s1 : bfs) :
  loop_at c D blk off nblks wrap s -> refill c t1 t2 s s1 ->
  units_in (t1 ++ t2) (8192 * Z.of_nat blk + 32 * Z.of_nat off) (8192 * (Z.of_nat blk + 1)) ->
  none_in (free_units s1) (8192 * Z.of_nat blk + 32 * Z.of_nat off) (8192 * (Z.of_nat blk + 1)) ->
  (off <= MAP_WORDS)%nat ->
  if wrap then none_in (free_units s1) D (8192 * map_blocks c) /\
               none_in (free_units s1) 0 (8192 * (Z.of_nat blk + 1))
  else none_in (free_units s1) D (8192 * (Z.of_nat blk + 1)) /\ D <= f_dau_next s1.
Proof.
  intros L R U N Ho. destruct wrap.
  - destruct L as (-> & N1 & N2 & _). split; [eapply none_in_refill; eauto|].
    eapply none_in_app; [|exact N]. eapply none_in_refill; eauto.
  - destruct L as (_ & _ & N1 & Hd & Hn). split.
    + eapply none_in_app; [|exact N]. eapply none_in_refill; eauto.
    + destruct (rf_next _ _ _ _ _ R) as [-> | Hu]; [exact Hn|]. apply U in Hu. lia.
Qed.

(** After the second pass nothing is left. *)
Lemma loop_exhausted (c : bconf) (D : Z) (blk off : nat) (nblks : Z) (s s1 : bfs) :
  conf_ok c -> bfs_ok c s1 -> nblks - 1 <= 0 -> loop_at c D blk off nblks true s ->
  none_in (free_units s1) D (8192 * map_blocks c) /\
  none_in (free_units s1) 0 (8192 * (Z.of_nat blk + 1)) -> free_units s1 = [].
Proof.
  intros HC B Hn (_ & _ & _ & HD & _) [L1 L2]. apply (no_units c); [exact HC|exact B|].
  intros u Hu Hr. destruct (Z.lt_ge_cases u (8192 * (Z.of_nat blk + 1))).
  - apply (L2 u); [exact Hu|lia].
  - apply (L1 u); [exact Hu|lia].
Qed.

Lemma disk_loop_spec (fuel : nat) (c : bconf) (D : Z) (blk off : nat) (nblks : Z) (wrap : bool)
    (bt : btype) (next : Z) (s : bfs) :
  conf_ok c -> scan_pre c bt s -> (off <= MAP_WORDS)%nat ->
  loop_at c D blk off nblks wrap s -> loop_turns c nblks wrap <= Z.of_nat fuel ->
  wp (disk_loop fuel c blk off nblks wrap bt 0 next 0) (scanned c bt s) s.
Proof.
  intros HC. revert blk off nblks wrap bt next s.
  induction fuel as [|fuel IH]; intros blk off nblks wrap bt next s HP Ho HL HT.
  { unfold loop_turns, loop_at in *. pose proof (map_blocks_spec c HC).
    destruct wrap; lia. }
  pose proof (map_blocks_spec c HC) as MB. pose proof (mo_len _ _ (bo_map _ _ (sp_ok _ _ _ HP))) as ML.
  assert (Hblk : (blk < length (f_map s))%nat).
  { unfold loop_at in HL. destruct wrap; lia. }
  apply lookup_lt_is_Some in Hblk as [buf Em]. cbn [disk_loop]. apply wp_bind.
  apply (wp_map_read blk buf); [exact Em|intros rest Hrest..].
  2: { apply wp_ret. exists [], []. apply (scan_pre_rio _ _ rest) in HP.
       split; [apply (refill_rio _ _ _ rest), refill_refl|].
       destruct HP. split; [assumption|]. split; [assumption|]. cbn. tauto. }
  pose proof (scan_pre_rio _ _ rest _ HP) as [B1 I1 K1 W1 P1].
  apply wp_bind. eapply wp_mono; [apply (sam_set_block_spec c blk off buf bt next); auto|].
  intros [[[done bt'] m1] n1] s1 (t1 & t2 & R & B & F & U & Hbt & H0 & H1).
  apply refill_rio in R.
  destruct (Z.eqb_spec done 0) as [->|Hd]; cbn [negb].
  2: { apply wp_ret. exists t1, t2. destruct F as (F1 & F3 & F4 & F5 & F6), (H1 Hd) as [-> HL1].
       split; [exact R|]. split; [exact B|]. split; [exact F3|]. split; [exact F4|].
       cbn in *. split; [tauto|]. split; [reflexivity|]. split; [now left|].
       split; [discriminate|]. intros E1 E2. auto 6. }
  destruct (H0 eq_refl) as (-> & I & K & N & P). clear H0 H1.
  assert (HP1 : scan_pre c bt' s1) by (split; auto; apply F).
  pose proof (loop_next c D blk off nblks wrap t1 t2 s s1 HL R U N Ho) as LN.
  assert (F' : set_block_frame s s1).
  { destruct F as (F1 & F3 & F4 & F5 & F6). split_and!; auto. }
  assert (GO : forall blk' nblks' wrap', loop_at c D blk' 0 nblks' wrap' s1 ->
    loop_turns c nblks' wrap' <= Z.of_nat fuel ->
    wp (disk_loop fuel c blk' 0 nblks' wrap' bt' 0 n1 0) (scanned c bt s) s1).
  { intros. eapply wp_mono; [apply IH; eauto; lia|].
    intros r s2. now apply (scanned_trans c bt bt' t1 t2). }
  rewrite Z.add_0_l. destruct (Z.ltb_spec 0 (nblks - 1)) as [Hn|Hn].
  - apply GO; unfold loop_at, loop_turns in *; destruct wrap; [| |lia|lia].
    + rewrite Z.mul_0_r, Z.add_0_r, Nat2Z.inj_succ. unfold Z.succ. intuition lia.
    + unfold MAP_WORDS in Ho. rewrite Z.mul_0_r, Z.add_0_r, Nat2Z.inj_succ. unfold Z.succ. intuition lia.
  - destruct wrap.
    + apply wp_bind, wp_modify, wp_ret. exists t1, t2. destruct F' as (F1 & F3 & F4 & F5 & F6).
      assert (Ex : free_units s1 = []) by (eapply loop_exhausted; eauto).
      split; [destruct R; split; assumption|].
      split; [destruct B; split; assumption|]. split; [exact F3|]. split; [exact F4|].
      split; [exact Hbt|]. split; [reflexivity|]. cbn.
      split; [right; split; [reflexivity|exact Ex]|]. split; [intros _; assumption|].
      intros E1 E2. auto.
    + apply wp_bind, wp_gets. cbv zeta. destruct LN as [L1 L2].
      pose proof (bo_next _ _ B) as BN. pose proof (ceil_bits (f_dau_next s1) ltac:(lia)) as CB.
      cbv zeta in CB. destruct HL as (L3 & L4 & _).
      apply GO; unfold loop_at, loop_turns in *; [|lia].
      split; [reflexivity|]. replace (8192 * map_blocks c) with (8192 * (Z.of_nat blk + 1)) by lia.
      split; [exact L1|]. split; [intros u _; lia|]. lia.
Qed.

(** ** The loop over block types *)

Lemma begin_fill_ok (c : bconf) (bt : btype) (b : sam_block) (s : bfs) :
  bfs_ok c s -> idle s -> writes_ok s -> bt_get (f_pools s) bt = Some b ->
  let s1 := set_pools (bt_set (f_pools s) bt (Some (begin_fill b))) s in
  scan_pre c bt s1 /\ refill c [] [] s s1 /\
  (at_sm (f_pools s1) = None <-> at_sm (f_pools s) = None).
Proof.
  intros HB HI HW Eb s1. pose proof HI as (_ & Hm & _).
  assert (Wb : pool_wf b) by (destruct HB as [[W1 W2] _ _ _ _ _ _ _ _ _]; destruct bt; auto).
  destruct (begin_fill_spec b Wb) as (W' & Q' & A' & C').
  assert (Iff : at_sm (f_pools s1) = None <-> at_sm (f_pools s) = None)
    by (unfold s1; destruct bt; cbn in *; rewrite ?Eb; intuition congruence).
  assert (Hk : clean (f_pools s1)).
  { destruct (bo_clean _ _ HB Hm) as [Hn|Hk]; intros bt' b' E; unfold s1 in E; cbn in E;
      destruct bt, bt'; cbn in *; try congruence; try (injection E as <-; exact C').
    - apply (Hk LG). exact E.
    - apply (Hk SM). exact E. }
  split; [|split; [|exact Iff]].
  - split; auto.
    + destruct HB as [[W1 W2]]. split; auto.
      * unfold s1. split; intros b'; destruct bt; cbn in *; intros E; auto;
          injection E as <-; exact W'.
      * unfold s1. destruct bt; cbn; eauto.
      * intros Hb. destruct HI as (Hi & _). change (f_busy s = true) in Hb. congruence.
    + destruct HW as [HW|HW]; [left; tauto|now right].
    + unfold s1. destruct bt; cbn; eauto.
  - split; auto; rewrite !live_avail by exact Hm; unfold s1; destruct bt; cbn in *;
      rewrite ?Eb; cbn; rewrite ?app_nil_r; auto.
Qed.

Lemma word_offset (x : Z) : Z.shiftr (Z.land x SAM_LOG_WMASK) NBPWSHIFT = (x / 4) mod 256.
Proof.
  unfold SAM_LOG_WMASK, NBPWSHIFT. rewrite Z.shiftr_land. change (Z.shiftr 0x3fc 2) with (Z.ones 8).
  rewrite Z.land_ones, Z.shiftr_div_pow2 by lia. reflexivity.
Qed.

(** The position at which a scan starts. *)
Lemma scan_start (c : bconf) (s : bfs) :
  conf_ok c -> bfs_ok c s ->
  let offset := Z.shiftr (f_dau_next s) NBBYSHIFT in
  let blk := Z.shiftr offset SAM_DEV_BSHIFT in
  let off := Z.to_nat (Z.shiftr (Z.land offset SAM_LOG_WMASK) NBPWSHIFT) in
  let num := Z.shiftr (c_dau_size c + (NBBY - 1)) NBBYSHIFT - Z.shiftl blk SAM_DEV_BSHIFT in
  let nblks := Z.shiftr (num + (SAM_DEV_BSIZE - 1)) SAM_DEV_BSHIFT in
  (off <= MAP_WORDS)%nat /\
  loop_at c (8192 * blk + 32 * Z.of_nat off) (Z.to_nat blk) off nblks false s /\
  loop_turns c nblks false <= Z.of_nat (disk_fuel c).
Proof.
  intros HC HB offset blk off num nblks. pose proof (bo_next _ _ HB) as HN.
  pose proof (map_blocks_spec c HC) as MB.
  assert (Eblk : blk = f_dau_next s / 8192).
  { unfold blk, offset, NBBYSHIFT, SAM_DEV_BSHIFT. rewrite !Z.shiftr_div_pow2 by lia.
    change (2 ^ 3) with 8. change (2 ^ 10) with 1024. dlia. }
  assert (Eoff : Z.of_nat off = (f_dau_next s / 32) mod 256).
  { unfold off, offset, NBBYSHIFT. rewrite word_offset, Z.shiftr_div_pow2 by lia.
    change (2 ^ 3) with 8. dlia. }
  assert (En : nblks = map_blocks c - blk).
  { unfold nblks, num, map_blocks, NBBYSHIFT, NBBY, SAM_DEV_BSIZE, SAM_DEV_BSHIFT.
    rewrite !Z.shiftr_div_pow2, Z.shiftl_mul_pow2 by lia.
    change (2 ^ 3) with 8. change (2 ^ 10) with 1024. dlia. }
  assert (Hb : 0 <= blk < map_blocks c) by dlia.
  split; [unfold MAP_WORDS; dlia|]. split; [|unfold loop_turns, disk_fuel; lia].
  unfold loop_at. rewrite Z2Nat.id by lia.
  split; [lia|]. split; [lia|]. split; [intros u _; lia|]. split; [lia|]. dlia.
Qed.

(** A pool that is half full has blocks. *)
Lemma half_full (b : sam_block) :
  pool_wf b -> Z.shiftr (b_limit b) 1 <= b_count (begin_fill b) -> avail b <> [].
Proof.
  intros W H E. pose proof W as []. cbn in H. rewrite (avail_count b W), E in H. cbn in H.
  rewrite Z.shiftr_div_pow2 in H by lia. change (2 ^ 1) with 2 in H. dlia.
Qed.

Lemma fill_type_spec (c : bconf) (bt : btype) (s : bfs) :
  conf_ok c -> bfs_ok c s -> idle s -> writes_ok s ->
  wp (fill_type c bt 0) (scanned c bt s) s.
Proof.
  intros HC HB HI HW. unfold fill_type. apply wp_bind, wp_gets.
  destruct (bt_get (f_pools s) bt) as [b|] eqn:Eb.
  2: { apply wp_ret. exists [], []. cbn. split; [apply refill_refl|].
       destruct bt; [intuition discriminate|]. destruct (bo_lg _ _ HB). cbn in Eb. congruence. }
  destruct (begin_fill_ok c bt b s HB HI HW Eb) as (HP & R & Iff).
  set (s1 := set_pools _ s) in *. apply wp_bind, wp_modify. fold s1.
  destruct (Z.leb_spec (Z.shiftr (b_limit (begin_fill b)) 1) (b_count (begin_fill b))) as [Hh|_].
  { apply wp_ret. exists [], []. pose proof HP as []. cbn [fst snd]. split; [exact R|].
    assert (Hl : bt = LG -> live s1 LG <> []).
    { intros ->. rewrite live_avail by apply sp_idle0. unfold s1. cbn.
      change (avail b <> []). apply half_full; [|exact Hh].
      exact (proj2 (bo_pools _ _ HB) b Eb). }
    tauto. }
  apply wp_bind, wp_gets. cbv zeta.
  destruct (scan_start c s1 HC (sp_ok _ _ _ HP)) as (Ho & HL & HT).
  eapply wp_mono; [eapply disk_loop_spec; eauto|].
  intros r s2. apply (scanned_trans c bt bt [] []); auto.
  split; [reflexivity|]. split; [apply HP|]. split; [exact Iff|]. auto.
Qed.

Lemma scanned_then (c : bconf) (s s1 s2 : bfs) (r r' : btype * Z) :
  scanned c SM s r s1 -> scanned c LG s1 r' s2 -> fst r = SM -> scanned c SM s r' s2.
Proof.
  intros (t1 & t2 & R & _ & _ & P & _ & _ & M1 & _ & G1)
    (u1 & u2 & R' & B & W & P' & H & D & M2 & K & G2) E.
  exists (t1 ++ u1), (t2 ++ u2). split; [eapply refill_trans; eauto|].
  split; [exact B|]. split; [exact W|]. split; [tauto|]. split; [discriminate|].
  split; [exact D|]. split; [|split; [exact K|]].
  2: { intros E1 E2. destruct (G1 E1 E2) as (E3 & E4 & _). auto. }
  destruct M2 as [M2|M2]; [|now right]. destruct M1 as [M1|[M1 F]]; [left; congruence|].
  right. split; [congruence|].
  destruct (free_units s2) as [|u l] eqn:Ef; [reflexivity|].
  assert (Hu : u ∈ free_units s1) by (eapply refill_free; [exact R'|rewrite Ef; set_solver]).
  rewrite F in Hu. set_solver.
Qed.
