(* ===== verification/BlockFree.v ===== *)
(** * Returning large blocks to the map

    [sam_free_lg_block] (src/src/fs/samfs/update.c) undoes what a refill did: the block
    number of a unit leads back to its bit. *)

From S2P Require Import Prelude Dau Bitmap BlockPool BlockScan Monad BlockAlloc BlockRefill.

(** The sizes that [sam_set_dau] computes for 4-kilobyte small blocks, block numbers that
    fit 32 bits, and a unit of block numbers of 1, 2 or 4 kilobytes. *)
Record geom_ok (c : bconf) : Prop := {
  go_sm : SM_DEV_BLOCK (c_geom c) = 4;
  go_lg : LG_DEV_BLOCK (c_geom c) = 4 * LG_BLOCK (c_geom c);
  go_size : LG_BLK (c_geom c) = LG_DEV_BLOCK (c_geom c) * 1024;
  go_dif : DIF_LG_SHIFT (c_geom c) = 0 \/
           0 < DIF_LG_SHIFT (c_geom c) /\ LG_DEV_BLOCK (c_geom c) = 2 ^ DIF_LG_SHIFT (c_geom c);
  go_shift : 0 <= g_bn_shift (c_geom c) <= 2;
  go_max : c_dau_size c * LG_DEV_BLOCK (c_geom c) <= 2 ^ 32 * 2 ^ g_bn_shift (c_geom c)
}.

(** A unit of the partition. *)
Definition unit_ok (c : bconf) (d : Z) : Prop := 0 <= d < c_dau_size c.

Section Geometry.
Context (c : bconf) (HC : conf_ok c) (HG : geom_ok c).
Let g : geom := c_geom c.
Let sh : Z := 2 ^ g_bn_shift g.

Lemma dau_bn_mul (d : Z) : 0 <= d -> dau_bn g d = d * LG_DEV_BLOCK g.
Proof.
  intros Hd. destruct HG. unfold dau_bn. fold g in go_dif0, go_size0.
  destruct (Z.eqb_spec (DIF_LG_SHIFT g) 0) as [E|N]; cbn [negb].
  - rewrite go_size0. unfold SAM_DEV_BSHIFT. rewrite Z.shiftr_div_pow2 by lia.
    replace (d * (LG_DEV_BLOCK g * 1024)) with (d * LG_DEV_BLOCK g * 2 ^ 10) by lia.
    apply Z.div_mul. lia.
  - destruct go_dif0 as [|[H1 ->]]; [contradiction|]. now rewrite Z.shiftl_mul_pow2 by lia.
Qed.

(** 4 is a whole number of block number units. *)
Lemma four_sh : exists q, 4 = q * sh /\ 1 <= q /\ 1 <= sh.
Proof.
  destruct HG. unfold sh. fold g in go_shift0.
  assert (C : g_bn_shift g = 0 \/ g_bn_shift g = 1 \/ g_bn_shift g = 2) by lia.
  destruct C as [-> | [-> | ->]]; [exists 4|exists 2|exists 1]; cbn; lia.
Qed.

(** The [k]th small block of a unit. *)
Definition piece (d k : Z) : Z := (d * LG_BLOCK g + k) * (4 / sh).

Lemma piece_spec (d k : Z) :
  unit_ok c d -> 0 <= k < LG_BLOCK g ->
  u32 (Z.shiftr (dau_bn g d + 4 * k) (g_bn_shift g)) = piece d k /\
  Z.shiftr (piece d k * sh) (g_bn_shift g) = piece d k.
Proof.
  intros [Hd Hd'] Hk. destruct four_sh as (q & Eq & Hq & Hs). destruct HG.
  pose proof (co_lg c HC) as co_lg0. fold g sh in go_lg0, go_max0, go_shift0, co_lg0. unfold piece.
  assert (E4 : 4 / sh = q) by (rewrite Eq; apply Z.div_mul; lia). rewrite E4.
  rewrite !Z.shiftr_div_pow2 by lia. fold sh.
  rewrite Z.div_mul by lia. split; [|reflexivity].
  rewrite dau_bn_mul, go_lg0 by lia.
  replace (d * (4 * LG_BLOCK g) + 4 * k) with ((d * LG_BLOCK g + k) * q * sh) by nia.
  rewrite Z.div_mul by lia. apply uwrap_id. unfold uint_range.
  assert (A : d * LG_BLOCK g + k < c_dau_size c * LG_BLOCK g) by nia.
  assert (B : (d * LG_BLOCK g + k) * q * sh = (d * LG_BLOCK g + k) * 4)
    by (rewrite <- Z.mul_assoc, <- Eq; reflexivity).
  split; [nia|]. apply (Z.mul_lt_mono_pos_r sh); [lia|]. rewrite B. rewrite go_lg0 in go_max0. lia.
Qed.

Lemma piece_inj (d k d' k' : Z) :
  0 <= k < LG_BLOCK g -> 0 <= k' < LG_BLOCK g -> piece d k = piece d' k' -> d = d' /\ k = k'.
Proof.
  intros Hk Hk'. destruct four_sh as (q & Eq & Hq & Hs). unfold piece.
  assert (E4 : 4 / sh = q) by (rewrite Eq; apply Z.div_mul; lia). rewrite E4.
  intros E. apply Z.mul_reg_r in E; [|lia].
  assert (d = d') by nia. nia.
Qed.

(** The small blocks of a large block. *)
Definition pieces (e : Z) : list Z :=
  fill_list (g_bn_shift g) (SM_DEV_BLOCK g) (Z.to_nat (LG_BLOCK g)) (Z.shiftl e (g_bn_shift g)).

Lemma sm_exts_pieces (d : Z) :
  unit_ok c d -> sm_exts g d = (fun k => piece d (Z.of_nat k)) <$> seq 0 (Z.to_nat (LG_BLOCK g)).
Proof.
  intros Hd. unfold sm_exts, fill_list. apply list_fmap_ext. intros k x Hx.
  apply lookup_seq in Hx. rewrite (go_sm c HG : SM_DEV_BLOCK g = 4). apply piece_spec; [exact Hd|lia].
Qed.

Lemma lg_ext_piece (d : Z) : unit_ok c d -> lg_ext g d = piece d 0.
Proof.
  intros Hd. unfold lg_ext. rewrite <- (proj1 (piece_spec d 0 Hd ltac:(pose proof (co_lg c HC) as Hl; fold g in Hl; lia))).
  now rewrite Z.mul_0_r, Z.add_0_r.
Qed.

Lemma lg_ext_bn (d : Z) : unit_ok c d -> Z.shiftl (lg_ext g d) (g_bn_shift g) = dau_bn g d.
Proof.
  intros Hd. rewrite lg_ext_piece by exact Hd. destruct four_sh as (q & Eq & Hq & Hs).
  destruct HG. fold g in go_shift0, go_lg0. rewrite Z.shiftl_mul_pow2 by lia. fold sh.
  unfold piece. assert (E4 : 4 / sh = q) by (rewrite Eq; apply Z.div_mul; lia).
  rewrite E4, dau_bn_mul, go_lg0, <- Z.mul_assoc, <- Eq by apply Hd. ring.
Qed.

(** The block number of a unit names its blocks and leads back to the unit. *)
Lemma pieces_lg_ext (d : Z) : unit_ok c d -> pieces (lg_ext g d) = sm_exts g d.
Proof. intros Hd. unfold pieces. now rewrite lg_ext_bn. Qed.

Lemma ext_dau_lg_ext (d : Z) : unit_ok c d -> ext_dau g (lg_ext g d) = d.
Proof.
  intros Hd. unfold ext_dau. rewrite lg_ext_bn, dau_bn_mul by apply Hd.
  destruct HG.
  pose proof (co_lg c HC) as co_lg0. fold g in go_dif0, go_lg0, co_lg0.
  destruct (Z.eqb_spec (DIF_LG_SHIFT g) 0) as [E|N]; cbn [negb].
  - apply Z.div_mul. lia.
  - destruct go_dif0 as [|[H1 ->]]; [contradiction|].
    rewrite Z.shiftr_div_pow2 by lia. apply Z.div_mul. apply Z.pow_nonzero; lia.
Qed.

Lemma lg_ext_inj (d d' : Z) : unit_ok c d -> unit_ok c d' -> lg_ext g d = lg_ext g d' -> d = d'.
Proof. intros H H' E. rewrite <- (ext_dau_lg_ext d), E by exact H. now apply ext_dau_lg_ext. Qed.

(** Units have no block in common. *)
Lemma sm_exts_disjoint (d d' x : Z) :
  unit_ok c d -> unit_ok c d' -> x ∈ sm_exts g d -> x ∈ sm_exts g d' -> d = d'.
Proof.
  intros H H'. rewrite !sm_exts_pieces by assumption. rewrite !list_elem_of_fmap.
  intros (k & -> & Hk) (k' & E & Hk'). apply elem_of_seq in Hk, Hk'.
  apply piece_inj in E; [tauto|lia..].
Qed.

Lemma sm_exts_nodup (d : Z) : unit_ok c d -> NoDup (sm_exts g d).
Proof.
  intros H. rewrite sm_exts_pieces by exact H. apply NoDup_fmap_2_strong; [|apply NoDup_seq].
  intros k k' Hk Hk' E. apply elem_of_seq in Hk, Hk'. apply piece_inj in E; [lia|lia..].
Qed.

Lemma units_nodup (l : list Z) :
  NoDup l -> Forall (unit_ok c) l -> NoDup (concat (sm_exts g <$> l)).
Proof.
  intros Hn HF. induction Hn as [|d l Hd Hn IH]; cbn; [constructor|].
  apply Forall_cons in HF as [H HF]. apply NoDup_app. split_and!; auto using sm_exts_nodup.
  intros x Hx Hc. apply list_elem_of_In, in_concat in Hc as (l' & Hl' & Hl).
  apply list_elem_of_In in Hl', Hl. apply list_elem_of_fmap in Hl' as (d' & -> & Hd').
  assert (d = d'); [|congruence]. eapply sm_exts_disjoint; eauto.
  eapply Forall_forall; eauto.
Qed.

Lemma sm_exts_nonempty (d : Z) : sm_exts g d <> [].
Proof.
  intros E. apply (f_equal length) in E. unfold sm_exts, fill_list in E.
  rewrite length_fmap, length_seq in E. pose proof (co_lg c HC) as Hl. fold g in Hl. cbn in E. lia.
Qed.
End Geometry.

(** ** Setting the bit of a unit *)

Definition word_of (d : Z) : nat := Z.to_nat (d mod 8192 / 32).

Definition set_unit (m : list (list Z)) (d : Z) (b : list Z) (word : Z) : list (list Z) :=
  <[Z.to_nat (d / 8192) := <[word_of d := sam_setbit word (31 - d mod 32)]> b]> m.

Lemma set_unit_wf (m : list (list Z)) (d : Z) (b : list Z) (word : Z) :
  map_wf m -> 0 <= d -> m !! Z.to_nat (d / 8192) = Some b -> b !! word_of d = Some word ->
  map_wf (set_unit m d b word).
Proof.
  intros W Hd Eb Ew. pose proof (Forall_lookup_1 _ _ _ _ W Eb) as [L F].
  apply Forall_insert; [exact W|]. split; [now rewrite length_insert|].
  apply Forall_insert; [exact F|]. apply sam_setbit_range; [dlia|].
  eapply Forall_lookup_1; eauto.
Qed.

Lemma set_unit_bit (m : list (list Z)) (d u : Z) (b : list Z) (word : Z) :
  0 <= d -> 0 <= u -> m !! Z.to_nat (d / 8192) = Some b -> b !! word_of d = Some word ->
  free_bit (set_unit m d b word) u = (u =? d) || free_bit m u.
Proof.
  intros Hd Hu Eb Ew. unfold free_bit, set_unit.
  pose proof (lookup_lt_Some _ _ _ Eb) as L1. pose proof (lookup_lt_Some _ _ _ Ew) as L2.
  destruct (decide (u / 8192 = d / 8192)) as [E1|N1].
  2: { rewrite list_lookup_insert_ne by dlia. destruct (Z.eqb_spec u d); [congruence|reflexivity]. }
  rewrite E1, list_lookup_insert_eq, Eb by exact L1.
  destruct (decide (u mod 8192 / 32 = d mod 8192 / 32)) as [E2|N2].
  2: { rewrite list_lookup_insert_ne by (unfold word_of; dlia).
       destruct (Z.eqb_spec u d); [congruence|reflexivity]. }
  unfold word_of in *. rewrite E2, list_lookup_insert_eq, Ew by exact L2.
  rewrite sam_setbit_testbit by dlia. f_equal.
  destruct (Z.eqb_spec (31 - u mod 32) (31 - d mod 32)), (Z.eqb_spec u d); dlia.
Qed.

Lemma set_unit_free (m : list (list Z)) (d : Z) (b : list Z) (word : Z) :
  map_wf m -> 0 <= d -> m !! Z.to_nat (d / 8192) = Some b -> b !! word_of d = Some word ->
  d ∉ map_free 0 m -> map_free 0 (set_unit m d b word) ≡ₚ d :: map_free 0 m.
Proof.
  intros W Hd Eb Ew Hn. pose proof (set_unit_wf m d b word W Hd Eb Ew) as W'.
  apply NoDup_Permutation; [now apply map_free_nodup|..].
  { apply NoDup_cons. split; [exact Hn|now apply map_free_nodup]. }
  intros u. rewrite elem_of_cons. destruct (Z.lt_ge_cases u 0) as [Hu|Hu].
  - split; [intros H; apply map_free_range in H; [lia|exact W']|].
    intros [->|H]; [lia|]. apply map_free_range in H; [lia|exact W].
  - rewrite !map_free_elem by assumption. rewrite set_unit_bit by assumption.
    rewrite orb_true_iff, Z.eqb_eq. reflexivity.
Qed.

(** The map block of a unit is not being written. *)
Definition unlocked (s : bfs) (d : Z) : Prop :=
  forall i buf, f_wr s = Some (i, buf) -> i <> Z.to_nat (d / 8192).

Definition free_map (s : bfs) (d : Z) (b : list Z) (word : Z) : bfs :=
  set_map (set_unit (f_map s) d b word) s.

Section FreeUnit.
Context (c : bconf) (HC : conf_ok c) (s : bfs) (HB : bfs_ok c s) (d : Z) (HU : unit_ok c d)
  (Hcap : dau_bn (c_geom c) d <= c_capacity c) (HL : unlocked s d) (Hn : d ∉ free_units s).
Context (b : list Z) (word : Z) (Eb : f_map s !! Z.to_nat (d / 8192) = Some b)
  (Ew : b !! word_of d = Some word).

Lemma fu_eff_lookup : eff s !! Z.to_nat (d / 8192) = Some b.
Proof.
  unfold eff. destruct (f_wr s) as [[i buf]|] eqn:E; [|exact Eb].
  rewrite list_lookup_insert_ne; [exact Eb|]. eapply HL; eauto.
Qed.

Lemma fu_eff : eff (free_map s d b word) = set_unit (eff s) d b word.
Proof.
  unfold eff. cbn. destruct (f_wr s) as [[i buf]|] eqn:E; [|reflexivity].
  unfold set_unit. apply list_insert_insert_ne. eapply HL; eauto.
Qed.

Lemma fu_free : free_units (free_map s d b word) ≡ₚ d :: free_units s.
Proof.
  unfold free_units. rewrite fu_eff. apply set_unit_free; auto using fu_eff_lookup.
  - apply HB.
  - apply HU.
Qed.

Lemma fu_disk_free : map_free 0 (set_unit (f_map s) d b word) ≡ₚ d :: map_free 0 (f_map s).
Proof.
  apply set_unit_free; auto; [apply HB|apply HU|].
  intros H. apply Hn. apply map_free_elem in H; [|apply HB|apply HU].
  apply map_free_elem; [apply HB|apply HU|]. unfold free_bit in *.
  now rewrite fu_eff_lookup, Eb in *.
Qed.

Lemma fu_map_ok (m m' : list (list Z)) :
  map_ok c m -> map_wf m' -> length m' = length m -> map_free 0 m' ≡ₚ d :: map_free 0 m ->
  map_ok c m'.
Proof.
  intros [] W E P. split; [exact W|congruence|]. intros u Hu. rewrite P, elem_of_cons in Hu.
  destruct Hu as [->|Hu]; [|auto]. split; [apply HU|exact Hcap].
Qed.

Lemma fu_ok : bfs_ok c (free_map s d b word).
Proof.
  pose proof fu_free as P. pose proof fu_disk_free as PD. unfold free_units in P.
  pose proof HB as HB'. destruct HB' as [B1 B2 B3 B4 B5 B6 B7 B8 B9 B10]. split; cbn; auto.
  - eapply fu_map_ok; [exact B3|apply set_unit_wf; auto; [apply B3|apply HU]|..|exact PD].
    unfold set_unit. now rewrite length_insert.
  - eapply fu_map_ok; [exact B4| | |exact P].
    + rewrite fu_eff. apply set_unit_wf; auto using fu_eff_lookup; [apply B4|apply HU].
    + rewrite fu_eff. unfold set_unit. now rewrite length_insert.
  - intros Hb. destruct (B10 Hb) as (t1 & t2 & Q & R). exists t1, t2. split; [|exact R].
    cbn. rewrite PD, fu_free, Q. apply Permutation_middle.
Qed.
End FreeUnit.

(** ** [sam_free_lg_block] *)

(** The unit can be freed: it lies between the system area and the end. *)
Definition freeable (c : bconf) (d : Z) : Prop :=
  c_system c <> 0 /\ c_system c <= dau_bn (c_geom c) d <= c_capacity c.

(** What freeing leaves alone. *)
Definition free_frame (s s' : bfs) : Prop :=
  f_pools s' = f_pools s /\ f_busy s' = f_busy s /\ f_modified s' = f_modified s /\
  f_wio s' = f_wio s /\ f_wr s' = f_wr s.

Definition free_post (c : bconf) (d : Z) (s : bfs) (r : Z) (s' : bfs) : Prop :=
  bfs_ok c s' /\ free_frame s s' /\
  ( (* the map could not be read, or the block is not the partition's: it is dropped *)
    (f_rio s <> [] \/ ~ freeable c d) /\
      f_blk_bn s' = f_blk_bn s /\ free_units s' = free_units s
  \/ (* kept for the .blocks file *)
    r = 0 /\ freeable c d /\ c_inoblk_meta c = true /\ f_blk_bn s = 0 /\
      f_blk_bn s' = lg_ext (c_geom c) d /\ free_units s' = free_units s
  \/ (* back in the map *)
    r = 0 /\ freeable c d /\ (f_blk_bn s <> 0 \/ c_inoblk_meta c = false) /\
      f_blk_bn s' = f_blk_bn s /\ free_units s' ≡ₚ d :: free_units s /\
      f_map_empty s' = false /\ f_space s' = add_cap (f_space s) (unit_blks c) (c_capacity c) ).

(** Steps that only touch counts, messages and flags. *)
Record free_same (s s' : bfs) : Prop := {
  fs_pools : f_pools s' = f_pools s;
  fs_busy : f_busy s' = f_busy s;
  fs_modified : f_modified s' = f_modified s;
  fs_ndau : f_ndau s' = f_ndau s;
  fs_next : f_dau_next s' = f_dau_next s;
  fs_map : f_map s' = f_map s;
  fs_wr : f_wr s' = f_wr s;
  fs_wio : f_wio s' = f_wio s
}.

Lemma free_same_ok (c : bconf) (s s' : bfs) : free_same s s' -> bfs_ok c s -> bfs_ok c s'.
Proof.
  intros [] HB. assert (E : eff s' = eff s) by (unfold eff; now rewrite fs_wr0, fs_map0).
  destruct HB. split; rewrite ?fs_pools0, ?fs_busy0, ?fs_modified0, ?fs_ndau0, ?fs_next0, ?fs_wr0,
    ?E, ?fs_map0; auto.
  unfold pend_ok, free_units in *. rewrite fs_pools0, fs_modified0, E, fs_map0. assumption.
Qed.

Lemma free_same_units (s s' : bfs) : free_same s s' -> free_units s' = free_units s.
Proof. intros []. unfold free_units, eff. now rewrite fs_wr0, fs_map0. Qed.

Lemma free_same_frame (s s' : bfs) : free_same s s' -> free_frame s s'.
Proof. intros []. unfold free_frame. tauto. Qed.

Lemma free_space_spec (c : bconf) (s : bfs) :
  free_same s (free_space c s) /\ f_blk_bn (free_space c s) = f_blk_bn s /\
  f_space (free_space c s) = add_cap (f_space s) (unit_blks c) (c_capacity c).
Proof.
  unfold free_space, unit_blks.
  destruct (decide (c_type c = DT_META)) as [E|E];
    [rewrite bool_decide_eq_true_2 by exact E|rewrite bool_decide_eq_false_2 by exact E];
    destruct (1 <? c_num_group c); cbn; rewrite ?Z.mul_1_r; (split; [now split|]); split; reflexivity.
Qed.

Lemma watermark_same (c : bconf) (o : bool) (s : bfs) :
  free_same s (check_watermark c o s) /\ f_blk_bn (check_watermark c o s) = f_blk_bn s /\
  f_map_empty (check_watermark c o s) = f_map_empty s /\
  f_space (check_watermark c o s) = f_space s.
Proof.
  destruct (check_watermark_frame c o s) as [[] (S1 & _ & _ & S4)].
  split; [split; congruence|]. auto.
Qed.

Lemma bit_place (d : Z) :
  0 <= d < 2 ^ 31 ->
  Z.to_nat (Z.shiftr (u32 (Z.shiftr d NBBYSHIFT)) SAM_DEV_BSHIFT) = Z.to_nat (d / 8192) /\
  Z.to_nat (Z.shiftr (Z.land (u32 (Z.shiftr d NBBYSHIFT)) SAM_LOG_WMASK) NBPWSHIFT) = word_of d /\
  Z.land d 0x1f = d mod 32.
Proof.
  intros Hd. unfold NBBYSHIFT. rewrite (Z.shiftr_div_pow2 d 3) by lia. change (2 ^ 3) with 8.
  rewrite uwrap_id by (unfold uint_range; dlia). rewrite word_offset. unfold word_of.
  split; [|split].
  - unfold SAM_DEV_BSHIFT. rewrite Z.shiftr_div_pow2 by lia. change (2 ^ 10) with 1024. f_equal. dlia.
  - f_equal. dlia.
  - change 0x1f with (Z.ones 5). now rewrite Z.land_ones by lia.
Qed.

Lemma freeable_test (c : bconf) (d : Z) :
  (dau_bn (c_geom c) d <? c_system c) || (c_capacity c <? dau_bn (c_geom c) d) || (c_system c =? 0)
  = false <-> freeable c d.
Proof. unfold freeable. rewrite !orb_false_iff, !Z.ltb_ge, Z.eqb_neq. tauto. Qed.

Lemma free_found_spec (c : bconf) (d : Z) (b : list Z) (word : Z) (s : bfs) :
  conf_ok c -> bfs_ok c s -> unit_ok c d -> unlocked s d -> d ∉ free_units s ->
  f_map s !! Z.to_nat (d / 8192) = Some b -> b !! word_of d = Some word ->
  wp (free_found c (lg_ext (c_geom c) d) (dau_bn (c_geom c) d) (Z.to_nat (d / 8192)) (word_of d)
        (d mod 32) b) (free_post c d s) s.
Proof.
  intros HC HB HU HL Hn Eb Ew. unfold free_found.
  destruct (_ || _) eqn:Et.
  { apply wp_ret. split; [exact HB|]. split; [unfold free_frame; tauto|]. left.
    split; [right; rewrite <- freeable_test, Et; discriminate|tauto]. }
  apply freeable_test in Et. pose proof Et as (_ & _ & Hcap).
  apply wp_bind, wp_gets, wp_bind. unfold id.
  destruct ((f_blk_bn s =? 0) && c_inoblk_meta c) eqn:Er.
  - apply andb_true_iff in Er as [E1%Z.eqb_eq E2]. apply wp_modify, wp_bind, wp_modify, wp_ret.
    set (s1 := set_blk_bn _ s). destruct (watermark_same c false s1) as (F & Ek & _).
    assert (F1 : free_same s (check_watermark c false s1)) by (destruct F; split; assumption).
    split; [eapply free_same_ok; eauto|]. split; [now apply free_same_frame|]. right; left.
    rewrite (free_same_units s) by exact F1. rewrite Ek. auto 6.
  - apply wp_bind. eapply wp_deref; [exact Ew|].
    apply wp_bind, wp_modify, wp_bind, wp_modify, wp_modify, wp_bind, wp_modify, wp_ret.
    change (set_map _ s) with (free_map s d b word). set (s1 := free_map s d b word).
    destruct (free_space_spec c s1) as (F1 & K1 & P1). set (s2 := free_space c s1) in *.
    destruct (watermark_same c false (set_map_empty false s2)) as (F2 & K2 & M2 & P2).
    set (s3 := check_watermark c false (set_map_empty false s2)) in *. cbn in K2, M2, P2.
    assert (F : free_same s1 s3) by (destruct F1, F2; split; cbn in *; congruence).
    assert (B1 : bfs_ok c s1) by now apply fu_ok.
    split; [eapply free_same_ok; eauto|]. split.
    { apply free_same_frame in F. exact F. }
    right; right. rewrite (free_same_units s1) by exact F. split; [reflexivity|].
    split; [exact Et|]. split.
    { apply andb_false_iff in Er as [E%Z.eqb_neq|E]; auto. }
    split; [now rewrite K2, K1|]. split; [eapply fu_free; eauto|]. split; [exact M2|].
    now rewrite P2, P1.
Qed.

(** Reads do not change the partition. *)
Lemma free_post_rio (c : bconf) (d : Z) (rest : list bool) (s : bfs) (r : Z) (s' : bfs) :
  (f_rio s = [] -> rest = []) ->
  free_post c d (set_rio rest s) r s' -> free_post c d s r s'.
Proof.
  intros Hr (B & F & H). split; [exact B|]. split; [exact F|].
  destruct H as [[H1 H2]|[H|H]]; [left|right; left; exact H|right; right; exact H].
  split; [|exact H2]. destruct H1 as [H1|H1]; [left|right; exact H1]. intros E. auto.
Qed.

Lemma sam_free_lg_block_spec (c : bconf) (d : Z) (s : bfs) :
  conf_ok c -> geom_ok c -> bfs_ok c s -> unit_ok c d -> unlocked s d -> d ∉ free_units s ->
  wp (sam_free_lg_block c (lg_ext (c_geom c) d)) (free_post c d s) s.
Proof.
  intros HC HG HB HU HL Hn. pose proof HU as [Hd Hd']. pose proof (co_size c HC) as CS.
  assert (Hi : (Z.to_nat (d / 8192) < length (f_map s))%nat).
  { pose proof (mo_len _ _ (bo_map _ _ HB)). pose proof (map_blocks_spec c HC). dlia. }
  apply lookup_lt_is_Some in Hi as [b Eb].
  pose proof (Forall_lookup_1 _ _ _ _ (mo_wf _ _ (bo_map _ _ HB)) Eb) as [Lb _].
  assert (Hw : is_Some (b !! word_of d))
    by (apply lookup_lt_is_Some; rewrite Lb; unfold MAP_WORDS, word_of; dlia).
  destruct Hw as [word Ew].
  unfold sam_free_lg_block. rewrite ext_dau_lg_ext, lg_ext_bn by auto. cbv zeta.
  destruct (bit_place d ltac:(lia)) as (-> & -> & ->).
  assert (GO : forall rest, (f_rio s = [] -> rest = []) ->
    wp (free_found c (lg_ext (c_geom c) d) (dau_bn (c_geom c) d) (Z.to_nat (d / 8192)) (word_of d)
      (d mod 32) b) (free_post c d s) (set_rio rest s)).
  { intros rest Hr. eapply wp_mono; [eapply free_found_spec; eauto using bfs_ok_rio|].
    intros r s'. now apply free_post_rio. }
  apply wp_bind. unfold map_read. apply wp_bind, wp_gets. unfold id.
  destruct (f_rio s) as [|[] rest] eqn:Er; cbn [transfer]; apply wp_bind, wp_modify.
  1,2: apply wp_bind; eapply wp_deref; [exact Eb|]; apply wp_ret; apply GO; congruence.
  apply wp_ret, wp_ret. assert (F : free_same s (set_rio rest s)) by now split.
  split; [eapply free_same_ok; eauto|]. split; [now apply free_same_frame|]. left.
  rewrite (free_same_units s) by exact F. split; [left; congruence|]. auto.
Qed.
