(* ===== verification/BlockSys.v ===== *)
(** * The block allocator as a system

    The block thread, the completion of its writes, allocations and frees take turns on
    one partition. [bstep] is one turn; the invariant [sys_ok] says that every block is
    in one place only: free in the map, in a pool, in a file, or kept in reserve. *)

From stdpp Require Import list_tactics.
From S2P Require Import Prelude Dau Bitmap BlockPool BlockScan Monad BlockAlloc BlockRefill BlockFree.

(** The partition, and the blocks that have been handed out. *)
Record bsys : Type := mk_bsys {
  y_fs : bfs;
  y_sm : list Z;       (* small blocks in files *)
  y_lg : list Z        (* large blocks in files *)
}.

(** The part of [sam_alloc_block] at one partition: a block of type [bt] is taken. *)
Definition alloc_block (c : bconf) (bt : btype) (y : bsys) : option Z * bsys :=
  let s := y_fs y in
  match bt_get (f_pools s) bt with
  | None => (None, y)
  | Some b =>
      let '(r, b', bad) := pool_take (pool_fuel b) (g_bn_shift (c_geom c)) (c_system c) b in
      let s1 := set_pools (bt_set (f_pools s) bt (Some b')) s in
      let s2 := if bad : bool then set_fsck true s1 else s1 in
      (r, match r, bt with
          | None, _ => mk_bsys s2 (y_sm y) (y_lg y)
          | Some e, SM => mk_bsys s2 (e :: y_sm y) (y_lg y)
          | Some e, LG => mk_bsys s2 (y_sm y) (e :: y_lg y)
          end)
  end.

Inductive bstep (c : bconf) : bsys -> bsys -> Prop :=
  (* the block thread refills the pools *)
  | bs_fill y r s' :
      sam_get_blklist c (y_fs y) = Done r s' -> bstep c y (mk_bsys s' (y_sm y) (y_lg y))
  (* a map write completes; it may fail where there is only one pool *)
  | bs_done y error :
      f_busy (y_fs y) = true -> (error = true -> at_sm (f_pools (y_fs y)) = None) ->
      bstep c y (mk_bsys (sam_block_done error (y_fs y)) (y_sm y) (y_lg y))
  (* the block thread makes the new blocks available *)
  | bs_commit y : bstep c y (mk_bsys (thread_commit c (y_fs y)) (y_sm y) (y_lg y))
  (* a file gets a block *)
  | bs_alloc y bt : bstep c y (snd (alloc_block c bt y))
  (* a file gives a large block back, when its map block is not locked by a write *)
  | bs_free y e lg r s' :
      y_lg y ≡ₚ e :: lg -> unlocked (y_fs y) (ext_dau (c_geom c) e) ->
      sam_free_lg_block c e (y_fs y) = Done r s' -> bstep c y (mk_bsys s' (y_sm y) lg).

(** Every block of the partition that is accounted for, as small blocks. *)
Definition reserve (c : bconf) (s : bfs) : list Z :=
  if f_blk_bn s =? 0 then [] else pieces c (f_blk_bn s).

Definition map_blks (c : bconf) (s : bfs) : list Z := concat (sm_exts (c_geom c) <$> free_units s).
Definition lg_blks (c : bconf) (l : list Z) : list Z := concat (pieces c <$> l).

Definition holdings (c : bconf) (y : bsys) : list Z :=
  map_blks c (y_fs y) ++ live (y_fs y) SM ++ lg_blks c (live (y_fs y) LG)
  ++ y_sm y ++ lg_blks c (y_lg y) ++ reserve c (y_fs y).

(** A large block is that of a unit. *)
Definition is_unit (c : bconf) (e : Z) : Prop :=
  exists d, unit_ok c d /\ e = lg_ext (c_geom c) d.

Record sys_ok (c : bconf) (y : bsys) : Prop := {
  so_bfs : bfs_ok c (y_fs y);
  so_writes : writes_ok (y_fs y);
  so_units : Forall (is_unit c) (live (y_fs y) LG ++ y_lg y);
  so_nodup : NoDup (holdings c y)
}.

(** ** Shared lemmas *)

Lemma concat_perm (f : Z -> list Z) (l l' : list Z) :
  l ≡ₚ l' -> concat (f <$> l) ≡ₚ concat (f <$> l').
Proof.
  induction 1; cbn; [reflexivity|now apply Permutation_app_head| |etransitivity; eauto].
  rewrite !app_assoc. apply Permutation_app_tail, Permutation_app_comm.
Qed.

Lemma concat_fmap_app (f : Z -> list Z) (l l' : list Z) :
  concat (f <$> l ++ l') = concat (f <$> l) ++ concat (f <$> l').
Proof. now rewrite fmap_app, concat_app. Qed.

Lemma submseteq_nodup (l k : list Z) : l ⊆+ k -> NoDup k -> NoDup l.
Proof. intros (j & P)%submseteq_Permutation. rewrite P, NoDup_app. tauto. Qed.

Section Sys.
Context (c : bconf) (HC : conf_ok c) (HG : geom_ok c).

Lemma lg_blks_units (t : list Z) :
  Forall (unit_ok c) t -> lg_blks c (lg_ext (c_geom c) <$> t) = concat (sm_exts (c_geom c) <$> t).
Proof.
  induction 1 as [|d t Hd _ IH]; [reflexivity|]. cbn. unfold lg_blks in IH.
  now rewrite (pieces_lg_ext c HC HG d Hd), IH.
Qed.

Lemma units_are (t : list Z) : Forall (unit_ok c) t -> Forall (is_unit c) (lg_ext (c_geom c) <$> t).
Proof. intros H. apply Forall_fmap. eapply Forall_impl; [exact H|]. intros d Hd. exists d. auto. Qed.

(** Moving units between the map and the pools keeps the blocks. *)
Lemma move_holdings (t1 t2 : list Z) (y : bsys) (s' : bfs) :
  Forall (unit_ok c) (t1 ++ t2) ->
  free_units (y_fs y) ≡ₚ (t1 ++ t2) ++ free_units s' ->
  live s' SM = live (y_fs y) SM ++ concat (sm_exts (c_geom c) <$> t1) ->
  live s' LG = live (y_fs y) LG ++ (lg_ext (c_geom c) <$> t2) ->
  f_blk_bn s' = f_blk_bn (y_fs y) ->
  holdings c y ≡ₚ holdings c (mk_bsys s' (y_sm y) (y_lg y)).
Proof.
  intros HU Hf Hs Hl Hb. apply Forall_app in HU as [_ U2]. unfold holdings, map_blks, reserve. cbn.
  rewrite (concat_perm _ _ _ Hf), Hs, Hl, Hb, !concat_fmap_app. unfold lg_blks at 3.
  rewrite concat_fmap_app. change (concat (pieces c <$> (lg_ext (c_geom c) <$> t2)))
    with (lg_blks c (lg_ext (c_geom c) <$> t2)). rewrite lg_blks_units by exact U2.
  change (concat (pieces c <$> live (y_fs y) LG)) with (lg_blks c (live (y_fs y) LG)).
  solve_Permutation.
Qed.

Lemma refill_units (t1 t2 : list Z) (s s' : bfs) :
  bfs_ok c s -> refill c t1 t2 s s' -> Forall (unit_ok c) (t1 ++ t2).
Proof.
  intros HB R. apply Forall_forall. intros u Hu. apply (free_units_range c (eff s)); [apply HB|].
  change (u ∈ free_units s). rewrite (rf_map _ _ _ _ _ R). set_solver.
Qed.

(** A turn that moves units [t1] and [t2] keeps the invariant. *)
Lemma move_sys (t1 t2 : list Z) (y : bsys) (s' : bfs) :
  sys_ok c y -> Forall (unit_ok c) (t1 ++ t2) ->
  free_units (y_fs y) ≡ₚ (t1 ++ t2) ++ free_units s' ->
  live s' SM = live (y_fs y) SM ++ concat (sm_exts (c_geom c) <$> t1) ->
  live s' LG = live (y_fs y) LG ++ (lg_ext (c_geom c) <$> t2) ->
  f_blk_bn s' = f_blk_bn (y_fs y) -> bfs_ok c s' -> writes_ok s' ->
  sys_ok c (mk_bsys s' (y_sm y) (y_lg y)).
Proof.
  intros [B W U N] HU Hf Hs Hl Hb B' W'. split; cbn; auto.
  - rewrite Hl. apply Forall_app in U as [U1 U2]. apply Forall_app in HU as [_ HU].
    apply Forall_app; split; [apply Forall_app; split|]; auto using units_are.
  - rewrite <- (move_holdings t1 t2 y s'); auto.
Qed.

Lemma get_disk_blks_spec (s : bfs) :
  bfs_ok c s -> idle s -> writes_ok s ->
  wp (sam_get_disk_blks c) (fun r s' => r = 0 /\ scanned c SM s (LG, 0) s') s.
Proof.
  intros HB HI HW. unfold sam_get_disk_blks. apply wp_bind.
  eapply wp_mono; [apply fill_type_spec; auto|]. intros [bt r] s1 S1.
  pose proof S1 as (t1 & t2 & R & B1 & W1 & _ & _ & D & _ & I & _). cbn in D, I. subst r.
  destruct bt; [|apply wp_ret; eauto].
  apply wp_bind. eapply wp_mono; [apply fill_type_spec; auto|].
  intros [bt' r'] s2 S2. apply wp_ret. cbn.
  pose proof S2 as (_ & _ & _ & _ & _ & _ & Et & D2 & _). cbn in D2, Et. rewrite Et in S2 by auto.
  subst r'. split; [reflexivity|]. eapply scanned_then; eauto.
Qed.

Lemma get_blklist_spec (s : bfs) :
  bfs_ok c s -> writes_ok s ->
  wp (sam_get_blklist c) (fun r s' => r = 0 /\
    (s' = s /\ (f_busy s = true \/ f_modified s <> 0) \/ idle s /\ scanned c SM s (LG, 0) s')) s.
Proof.
  intros HB HW. unfold sam_get_blklist. apply wp_bind, wp_gets. unfold id.
  destruct (f_busy s) eqn:Eb; cbn [orb]; [apply wp_ret; auto|].
  destruct (Z.eqb_spec (f_modified s) 0) as [Em|Em]; cbn [negb]; [|apply wp_ret; auto].
  assert (HI : idle s) by (split_and!; auto; now apply HB).
  eapply wp_mono; [apply get_disk_blks_spec; auto|].
  cbn. intros r s' [-> H]. auto.
Qed.

(** ** The turns *)

Lemma fill_step (y : bsys) (r : Z) (s' : bfs) :
  sys_ok c y -> sam_get_blklist c (y_fs y) = Done r s' -> sys_ok c (mk_bsys s' (y_sm y) (y_lg y)).
Proof.
  intros S E. pose proof S as [B W _ _].
  destruct (wp_of_done _ _ _ _ _ E (get_blklist_spec _ B W)) as [_ [[-> _]|[_ H]]].
  - now destruct y.
  - destruct H as (t1 & t2 & R & B' & W' & _).
    pose proof (refill_units _ _ _ _ B R). apply (move_sys t1 t2); auto; apply R.
Qed.

Lemma commit_pool_lists (s : bfs) (bt : btype) :
  pools_wf (f_pools s) -> f_modified s <> 0 ->
  pool_list avail (bt_get (commit_pools (f_pools s)) bt) = live s bt.
Proof.
  intros [W1 W2] Hm. rewrite live_queued by exact Hm. unfold commit_pools.
  destruct bt; cbn; [destruct (at_sm (f_pools s)) as [b|]|destruct (at_lg (f_pools s)) as [b|]];
    cbn; auto; apply commit_fill_spec; auto.
Qed.

(** The commit makes the entries available and moves no unit. *)
Lemma thread_commit_spec (s : bfs) :
  bfs_ok c s -> f_busy s = false -> f_modified s <> 0 ->
  let s' := thread_commit c s in
  f_pools s' = commit_pools (f_pools s) /\ f_modified s' = 0 /\ eff s' = eff s /\
  f_map s' = f_map s /\ f_busy s' = false /\ f_wr s' = None /\ f_blk_bn s' = f_blk_bn s /\
  f_wio s' = f_wio s /\ f_dau_next s' = f_ndau s /\
  f_space s' = sub_floor (f_space s) (unit_blks c * f_modified s).
Proof.
  intros HB Eb Em s'. unfold s', thread_commit. rewrite Eb.
  destruct (Z.eqb_spec (f_modified s) 0) as [|_]; [contradiction|]. cbn [negb].
  set (s1 := set_modified 0 (set_pools (commit_pools (f_pools s)) s)).
  destruct (sam_set_sblk_spec c (f_modified s) (f_ndau s) s1 HC (bo_mod _ _ HB)) as (F & Ed & Es).
  pose proof (bo_wr _ _ HB Eb) as Ew. destruct F. cbn in *. unfold eff. rewrite sf_wr, sf_map, Ew.
  split_and!; congruence.
Qed.

Lemma commit_ok (s : bfs) : bfs_ok c s -> bfs_ok c (thread_commit c s).
Proof.
  intros HB. destruct (f_busy s) eqn:Eb; [now unfold thread_commit; rewrite Eb|].
  destruct (Z.eq_dec (f_modified s) 0) as [Em|Em].
  { unfold thread_commit. rewrite Eb, Em. exact HB. }
  destruct (thread_commit_spec s HB Eb Em) as (P & M & E & F & B & W & _ & _ & D & _).
  destruct HB. split; rewrite ?P, ?M, ?E, ?F, ?B, ?W, ?D; auto; try congruence; try lia.
  - now apply pools_wf_commit.
  - destruct bo_lg as [b Hb]. cbn. rewrite Hb. cbn. eauto.
  - intros _. right. apply clean_commit.
Qed.

Lemma commit_step (y : bsys) :
  sys_ok c y -> sys_ok c (mk_bsys (thread_commit c (y_fs y)) (y_sm y) (y_lg y)).
Proof.
  intros S. pose proof S as [B W _ _]. set (s := y_fs y) in *.
  destruct (f_busy s) eqn:Eb.
  { replace (thread_commit c s) with s by (unfold thread_commit; now rewrite Eb). now destruct y. }
  destruct (Z.eq_dec (f_modified s) 0) as [Em|Em].
  { replace (thread_commit c s) with s by (unfold thread_commit; now rewrite Eb, Em). now destruct y. }
  destruct (thread_commit_spec s B Eb Em) as (P & M & E & F & _ & _ & K & X & _).
  apply (move_sys [] []); cbn; auto; fold s.
  - unfold free_units. now rewrite E.
  - rewrite live_avail, P, app_nil_r by exact M. apply commit_pool_lists; auto. apply B.
  - rewrite live_avail, P, app_nil_r by exact M. apply commit_pool_lists; auto. apply B.
  - now apply commit_ok.
  - destruct W as [W|W]; [left|right; congruence]. rewrite P. cbn. now rewrite W.
Qed.

(** Completion without error: the map on disk is the one that was written. *)
Lemma done_ok_step (y : bsys) :
  sys_ok c y -> f_busy (y_fs y) = true ->
  sys_ok c (mk_bsys (sam_block_done false (y_fs y)) (y_sm y) (y_lg y)).
Proof.
  intros S Eb. pose proof S as [B W _ _]. set (s := y_fs y) in *.
  set (s' := sam_block_done false s).
  assert (F : f_pools s' = f_pools s /\ f_modified s' = f_modified s /\ f_busy s' = false /\
    f_wr s' = None /\ f_map s' = eff s /\ f_dau_next s' = f_dau_next s /\ f_ndau s' = f_ndau s /\
    f_blk_bn s' = f_blk_bn s /\ f_wio s' = f_wio s).
  { unfold s', sam_block_done, eff. cbn. destruct (f_wr s) as [[i buf]|]; cbn; tauto. }
  destruct F as (P & M & Bz & Wr & F & D & N & K & X).
  assert (E : eff s' = eff s) by (unfold eff at 1; now rewrite Wr).
  clearbody s'. apply (move_sys [] []); cbn; auto; fold s.
  - unfold free_units. now rewrite E.
  - unfold live. now rewrite P, M, app_nil_r.
  - unfold live. now rewrite P, M, app_nil_r.
  - destruct B. split; rewrite ?P, ?M, ?Bz, ?Wr, ?E, ?F, ?D, ?N; auto; discriminate.
  - unfold writes_ok in *. now rewrite P, X.
Qed.

(** Completion with an error on a partition with one pool: the entries whose update was
    lost are no longer counted, and their units are free in the map. *)
Lemma done_error_step (y : bsys) :
  sys_ok c y -> f_busy (y_fs y) = true -> at_sm (f_pools (y_fs y)) = None ->
  sys_ok c (mk_bsys (sam_block_done true (y_fs y)) (y_sm y) (y_lg y)).
Proof.
  intros [B W U N] Eb En. set (s := y_fs y) in *. set (s' := sam_block_done true s).
  destruct (bo_pend _ _ B Eb) as (t1 & t2 & Pm & P1 & P2 & Pn).
  assert (Et1 : t1 = []).
  { rewrite En in P1. cbn in P1. destruct t1 as [|d t1]; [reflexivity|]. cbn in P1. symmetry in P1.
    apply app_eq_nil in P1 as [P1 _]. now apply sm_exts_nonempty in P1. }
  subst t1. cbn [app] in *.
  assert (LS : live s' SM = live s SM).
  { unfold live. change (bt_get (f_pools s') SM) with (at_sm (f_pools s)).
    change (bt_get (f_pools s) SM) with (at_sm (f_pools s)). now rewrite En. }
  assert (LL : live s LG = live s' LG ++ (lg_ext (c_geom c) <$> t2)).
  { rewrite (live_avail s') by reflexivity. change (bt_get (f_pools s') LG) with (at_lg (f_pools s)).
    destruct (Z.eq_dec (f_modified s) 0) as [E0|N0].
    - rewrite live_avail by exact E0. rewrite E0 in Pn.
      destruct t2; [now rewrite app_nil_r|cbn in Pn; lia].
    - rewrite live_queued by exact N0. destruct (bo_lg _ _ B) as [b Ebl]. cbn. rewrite Ebl in *.
      cbn in *. rewrite <- P2. apply queued_split. now apply B. }
  assert (U2 : Forall (unit_ok c) t2).
  { apply Forall_forall. intros u Hu. apply (free_units_range c (f_map s)); [apply B|].
    rewrite Pm. set_solver. }
  assert (B' : bfs_ok c s').
  { destruct B. split; cbn; auto; try discriminate; try contradiction.
    pose proof (co_size c HC). lia. }
  split; [exact B'|exact W|..].
  - rewrite LL in U. rewrite <- app_assoc in U. apply Forall_app in U as [U1 U3].
    apply Forall_app in U3 as [_ U3]. now apply Forall_app.
  - rewrite (move_holdings [] t2 (mk_bsys s' (y_sm y) (y_lg y)) s); auto.
    cbn [y_fs]. rewrite LS. cbn. now rewrite app_nil_r.
Qed.

(** An allocation moves a block from a pool to a file; blocks of the system area that the
    pool should not have held are dropped. *)
Lemma take_pool_ok (s s' : bfs) (bt : btype) (b b' : sam_block) (l : list Z) :
  bfs_ok c s -> bt_get (f_pools s) bt = Some b ->
  pool_wf b' -> b_in b' = b_in b -> b_fill b' = b_fill b ->
  avail b = l ++ avail b' -> queued b = l ++ queued b' ->
  s' = set_pools (bt_set (f_pools s) bt (Some b')) s -> bfs_ok c s'.
Proof.
  intros HB Eb W' E1 E2 A Q ->. pose proof (bo_pools _ _ HB) as [W1 W2].
  assert (Wb : pool_wf b) by (destruct bt; auto).
  assert (Ep : pend b' = pend b).
  { rewrite (queued_split b Wb), (queued_split b' W'), A, <- app_assoc in Q.
    symmetry. eapply app_inv_head, app_inv_head. exact Q. }
  destruct HB. split; cbn; auto.
  - split; intros x; destruct bt; cbn; auto; intros [= <-]; exact W'.
  - destruct bt; cbn; eauto.
  - intros Hm. destruct (bo_clean Hm) as [H|H]; [destruct bt; cbn in *; [congruence|auto]|].
    right. intros bt' x Ex. destruct bt, bt'; cbn in Ex; try (injection Ex as <-); try (now eapply H).
    + rewrite E1, E2. exact (H SM b Eb).
    + exact (H LG x Ex).
    + exact (H SM x Ex).
    + rewrite E1, E2. exact (H LG b Eb).
  - intros Hb. destruct (bo_pend Hb) as (t1 & t2 & P & P1 & P2 & P3). exists t1, t2.
    destruct bt; cbn in *; rewrite Eb in *; cbn in *; rewrite Ep; auto.
Qed.

(** The partition after a block of type [bt] has been taken. *)
Definition taken (bt : btype) (x : list Z) (s s2 : bfs) : Prop :=
  bfs_ok c s2 /\ writes_ok s2 /\ (forall bt', bt' <> bt -> live s2 bt' = live s bt') /\
  (exists l, live s bt = l ++ x ++ live s2 bt) /\
  map_blks c s2 = map_blks c s /\ reserve c s2 = reserve c s.

Lemma take_sm (x : list Z) (y : bsys) (s2 : bfs) :
  sys_ok c y -> taken SM x (y_fs y) s2 -> sys_ok c (mk_bsys s2 (x ++ y_sm y) (y_lg y)).
Proof.
  intros [B W U N] (B2 & W2 & L & (l & Ll) & Em & Er).
  split; cbn; auto; [now rewrite L by discriminate|].
  eapply submseteq_nodup; [|exact N]. unfold holdings. cbn.
  rewrite Em, Er, Ll, (L LG) by discriminate. solve_submseteq.
Qed.

Lemma take_lg (x : list Z) (y : bsys) (s2 : bfs) :
  sys_ok c y -> taken LG x (y_fs y) s2 -> sys_ok c (mk_bsys s2 (y_sm y) (x ++ y_lg y)).
Proof.
  intros [B W U N] (B2 & W2 & L & (l & Ll) & Em & Er).
  split; cbn; auto.
  - rewrite Ll in U. rewrite !Forall_app in *. tauto.
  - eapply submseteq_nodup; [|exact N]. unfold holdings. cbn.
    rewrite Em, Er, Ll, (L SM) by discriminate. unfold lg_blks. rewrite !concat_fmap_app.
    solve_submseteq.
Qed.

Lemma alloc_step (y : bsys) (bt : btype) : sys_ok c y -> sys_ok c (snd (alloc_block c bt y)).
Proof.
  intros S. pose proof S as [B W U N]. unfold alloc_block. set (s := y_fs y) in *.
  destruct (bt_get (f_pools s) bt) as [b|] eqn:Eb; [|exact S].
  assert (Wb : pool_wf b) by (destruct (bo_pools _ _ B); destruct bt; auto).
  pose proof (pool_take_spec (pool_fuel b) (g_bn_shift (c_geom c)) (c_system c) b Wb
    (pool_fuel_enough b Wb)) as T.
  destruct (pool_take _ _ _ b) as [[r b'] bad].
  destruct T as (W' & E1 & E2 & _ & l & _ & _ & A & Q & _). cbn [snd].
  set (x := match r with Some e => [e] | None => [] end) in *.
  set (s1 := set_pools _ s).
  assert (B1 : bfs_ok c s1).
  { eapply (take_pool_ok s s1 bt b b' (l ++ x)); eauto; now rewrite <- app_assoc. }
  assert (T : taken bt x s (if bad : bool then set_fsck true s1 else s1)).
  { assert (T1 : taken bt x s s1).
    { split; [exact B1|]. split.
      - destruct W as [W|W]; [left|now right]. unfold s1. destruct bt; cbn in *; congruence.
      - split; [intros []; destruct bt; intros; try congruence; reflexivity|].
        split; [|split; reflexivity]. exists l. unfold live. rewrite Eb. unfold s1. cbn.
        destruct bt; cbn; destruct (f_modified s =? 0); cbn; auto. }
    destruct bad; [|exact T1]. destruct T1 as (T1 & T2). split; [|exact T2].
    destruct T1; split; assumption. }
  destruct r as [e|], bt.
  - apply (take_sm [e]); auto.
  - apply (take_lg [e]); auto.
  - apply (take_sm []); auto.
  - apply (take_lg []); auto.
Qed.

(** A freed block goes back to the map or into the reserve, or is dropped. *)
Lemma free_step (y : bsys) (e : Z) (lg : list Z) (r : Z) (s' : bfs) :
  sys_ok c y -> y_lg y ≡ₚ e :: lg -> unlocked (y_fs y) (ext_dau (c_geom c) e) ->
  sam_free_lg_block c e (y_fs y) = Done r s' -> sys_ok c (mk_bsys s' (y_sm y) lg).
Proof.
  intros [B W U N] Pl Hu E. set (s := y_fs y) in *.
  apply Forall_app in U as [U1 U2]. rewrite Pl in U2. apply Forall_cons in U2 as [(d & Hd & ->) U2].
  rewrite ext_dau_lg_ext in Hu by auto.
  assert (Ly : lg_blks c (y_lg y) ≡ₚ sm_exts (c_geom c) d ++ lg_blks c lg).
  { unfold lg_blks. rewrite (concat_perm _ _ _ Pl). cbn. now rewrite pieces_lg_ext. }
  assert (Hn : d ∉ free_units s).
  { intros Hf. unfold holdings in N. rewrite Ly in N. fold s in N.
    apply NoDup_app in N as (_ & N & _). destruct (sm_exts (c_geom c) d) as [|z l] eqn:Ez;
      [now apply (sm_exts_nonempty c HC) in Ez|].
    apply (N z).
    - unfold map_blks. apply list_elem_of_In, in_concat. exists (sm_exts (c_geom c) d).
      rewrite <- !list_elem_of_In. split; [now apply list_elem_of_fmap_2|]. rewrite Ez. set_solver.
    - set_solver. }
  destruct (wp_of_done _ _ _ _ _ E (sam_free_lg_block_spec c d s HC HG B Hd Hu Hn))
    as (B' & (F1 & F2 & F3 & F4 & F5) & H).
  assert (L : forall bt, live s' bt = live s bt) by (intros; unfold live; now rewrite F1, F3).
  split; cbn; auto.
  - unfold writes_ok in *. now rewrite F1, F4.
  - rewrite L. now apply Forall_app.
  - eapply submseteq_nodup; [|exact N]. unfold holdings. cbn. fold s. rewrite !L, Ly.
    destruct H as [(_ & Eb & Ef)|[(_ & Fr & _ & Eb0 & Eb & Ef)|(_ & _ & _ & Eb & Ef & _)]].
    + unfold reserve, map_blks. rewrite Eb, Ef. solve_submseteq.
    + unfold reserve, map_blks. rewrite Eb0, Eb, Ef. cbn.
      destruct (lg_ext (c_geom c) d =? 0); [solve_submseteq|].
      rewrite pieces_lg_ext by auto. solve_submseteq.
    + unfold reserve, map_blks. rewrite Eb, (concat_perm _ _ _ Ef). cbn. solve_submseteq.
Qed.

Lemma bstep_ok (y y' : bsys) : sys_ok c y -> bstep c y y' -> sys_ok c y'.
Proof.
  intros S H. destruct H as [y r s' E|y [] Hb He|y|y bt|y e lg r s' P Hu E].
  - eapply fill_step; eauto.
  - apply done_error_step; auto.
  - now apply done_ok_step.
  - now apply commit_step.
  - now apply alloc_step.
  - eapply free_step; eauto.
Qed.

Lemma bsteps_ok (y y' : bsys) : sys_ok c y -> rtc (bstep c) y y' -> sys_ok c y'.
Proof. intros S H. induction H; eauto using bstep_ok. Qed.
End Sys.
