(* ===== verification/BlockThms.v ===== *)
(** * The block allocator: theorems

    The claims about refilling, allocation and freeing, and their instances on small
    partitions. *)

From S2P Require Import Prelude Dau Bitmap BlockPool BlockScan Monad BlockAlloc BlockRefill BlockFree BlockSys.

(** A partition that has just been mounted: empty pools of the kinds its type asks for,
    nothing in progress. *)
Record mounted (c : bconf) (fs_count : Z) (mm_sm_lg_differ : bool) (s : bfs) : Prop := {
  mt_pools : f_pools s
    = fst (sam_init_blocklist fs_count (c_type c) mm_sm_lg_differ (mk_per_bt None None));
  mt_idle : idle s;
  mt_map : map_ok c (f_map s);
  mt_next : 0 <= f_dau_next s < c_dau_size c;
  mt_writes : writes_ok s;
  mt_reserve : f_blk_bn s = 0
}.

Lemma new_pool (fs_count : Z) (b : sam_block) :
  Some (new_block (pool_limit fs_count)) = Some b ->
  pool_wf b /\ avail b = [] /\ queued b = [] /\ b_fill b = b_in b.
Proof.
  intros [= <-]. pose proof (pool_limit_range fs_count).
  destruct (new_block_wf (pool_limit fs_count)) as [W Q]; [lia|].
  split_and!; auto.
Qed.

Lemma mounted_ok (c : bconf) (fs_count : Z) (d : bool) (s : bfs) :
  conf_ok c -> geom_ok c -> mounted c fs_count d s -> sys_ok c (mk_bsys s [] []).
Proof.
  intros HC HG [P (I1 & I2 & I3) Mo Nx Wr Rs].
  assert (PL : forall bt b, bt_get (f_pools s) bt = Some b ->
    pool_wf b /\ avail b = [] /\ queued b = [] /\ b_fill b = b_in b).
  { intros bt b E. rewrite P in E. unfold sam_init_blocklist in E.
    destruct bt; cbn in E; [destruct (c_type c); [|destruct d|]|]; cbn in E; try discriminate;
      now apply (new_pool fs_count). }
  assert (LV : forall bt, live s bt = []).
  { intros bt. rewrite live_avail by exact I2.
    destruct (bt_get (f_pools s) bt) eqn:E; [|reflexivity]. now apply (PL bt). }
  assert (EF : eff s = f_map s) by (unfold eff; now rewrite I3).
  assert (B : bfs_ok c s).
  { split; rewrite ?I1, ?I2, ?I3, ?EF; auto; try discriminate; try contradiction.
    - split; intros b E; [now apply (PL SM)|now apply (PL LG)].
    - rewrite P. cbn. eauto.
    - pose proof (co_size c HC). lia.
    - intros _. right. intros bt b E. now apply (PL bt). }
  split; cbn; auto.
  - rewrite LV. constructor.
  - unfold holdings. cbn. rewrite !LV. unfold reserve. rewrite Rs. cbn. rewrite app_nil_r.
    apply (units_nodup c HC HG).
    + apply map_free_nodup. rewrite EF. apply Mo.
    + apply Forall_forall. intros u Hu.
      apply (free_units_range c (eff s)); [apply B|exact Hu].
Qed.

(** ** Claims *)

(** C10. After any sequence of refills, completions of map writes, commits, allocations of
    small and large blocks and frees of large blocks on a freshly mounted partition, no
    block is in two places: each is free in the map, or in one pool, or in one file, or in
    reserve, and only once. Map writes may fail on a partition without a pool of small
    blocks only ([failed_map_write_commits_free_blocks]), and neither frees of small blocks,
    which go to the file .blocks, nor preallocation are among the steps. *)
Theorem no_block_in_two_places (c : bconf) (fs_count : Z) (d : bool) (s : bfs) (y : bsys) :
  conf_ok c -> geom_ok c -> mounted c fs_count d s ->
  rtc (bstep c) (mk_bsys s [] []) y -> NoDup (holdings c y).
Proof.
  intros HC HG HM HR. apply (bsteps_ok c HC HG) in HR; [apply HR|]. now apply (mounted_ok c fs_count d).
Qed.

(** C18. A refill ends, touches no pool entry out of range, requests no consistency check
    for a full pool, and moves units: what leaves the free map is appended, in order, to
    the queues of the pools, a unit being one large block or all its small blocks, and
    nothing else changes in map or pools. *)
Theorem sam_get_blklist_moves_units (c : bconf) (s : bfs) :
  conf_ok c -> bfs_ok c s -> writes_ok s ->
  wp (sam_get_blklist c)
     (fun _ s' => bfs_ok c s' /\ exists t1 t2, refill c t1 t2 s s') s.
Proof.
  intros HC HB HW. eapply wp_mono; [apply get_blklist_spec; auto|].
  intros r s' [_ [[-> _]|[_ (t1 & t2 & R & B & _)]]].
  - split; [exact HB|]. exists [], []. apply refill_refl.
  - eauto.
Qed.

(** C19. The flag that stops further refills is set only when the map has no free unit
    left: both passes over the map together see every bit. *)
Theorem map_empty_means_no_free_unit (c : bconf) (s : bfs) :
  conf_ok c -> bfs_ok c s -> writes_ok s ->
  wp (sam_get_blklist c)
     (fun _ s' => f_map_empty s' = true -> f_map_empty s = true \/ free_units s' = []) s.
Proof.
  intros HC HB HW. eapply wp_mono; [apply get_blklist_spec; auto|].
  intros r s' [_ [[-> _]|[_ (t1 & t2 & _ & _ & _ & _ & _ & _ & [E|[_ E]] & _)]]]; cbn; auto.
  rewrite E. auto.
Qed.

(** The partition when the write started by a refill has completed and the thread has
    run again. *)
Definition settle (c : bconf) (s : bfs) : bfs :=
  thread_commit c (if f_busy s then sam_block_done false s else s).

Lemma settle_lists (c : bconf) (s : bfs) :
  conf_ok c -> bfs_ok c s ->
  (forall bt, pool_list avail (bt_get (f_pools (settle c s)) bt) = live s bt) /\
  map_free 0 (f_map (settle c s)) = free_units s /\
  f_map_empty (settle c s) = f_map_empty s.
Proof.
  intros HC HB. unfold settle.
  set (s1 := if f_busy s then sam_block_done false s else s).
  assert (F : f_pools s1 = f_pools s /\ f_modified s1 = f_modified s /\ f_busy s1 = false /\
    f_map s1 = eff s /\ f_map_empty s1 = f_map_empty s).
  { unfold s1, eff. destruct (f_busy s) eqn:Eb.
    - unfold sam_block_done. cbn. destruct (f_wr s) as [[i buf]|]; cbn; tauto.
    - now rewrite (bo_wr _ _ HB Eb). }
  clearbody s1. destruct F as (P & M & B & E & N). unfold thread_commit. rewrite B, M.
  destruct (Z.eqb_spec (f_modified s) 0) as [Em|Em]; cbn [negb].
  - rewrite P, E, N. split; [|now split]. intros bt. now rewrite live_avail by exact Em.
  - match goal with |- context [sam_set_sblk c ?n ?x ?z] =>
      destruct (sam_set_sblk_spec c n x z HC (bo_mod _ _ HB)) as ([] & _ & _) end.
    cbn in *. rewrite sf_pools, sf_map, sf_map_empty, P, E, N. split; [|now split].
    intros bt. apply (commit_pool_lists s bt); [apply HB|exact Em].
Qed.

(** All units that were free in [s] are small blocks of [s']. *)
Definition all_small (c : bconf) (s s' : bfs) : Prop :=
  exists units, map_free 0 (f_map s) ≡ₚ units /\
    pool_list avail (at_sm (f_pools s')) =
    pool_list avail (at_sm (f_pools s)) ++ concat (sm_exts (c_geom c) <$> units).

(** No small blocks of units: no units. *)
Lemma no_small_units (c : bconf) (l : list Z) :
  conf_ok c -> concat (sm_exts (c_geom c) <$> l) = [] -> l = [].
Proof.
  intros HC. destruct l as [|u l]; [reflexivity|]. cbn. intros [H _]%app_eq_nil.
  apply (f_equal length) in H. unfold sm_exts, fill_list in H. rewrite length_fmap, length_seq in H.
  pose proof (co_lg c HC). cbn in H. lia.
Qed.

Lemma refill_supplies (c : bconf) (s : bfs) :
  conf_ok c -> bfs_ok c s -> idle s -> f_rio s = [] -> f_wio s = [] ->
  exists r s1, sam_get_blklist c s = Done r s1 /\ bfs_ok c s1 /\ f_rio s1 = [] /\ f_wio s1 = [] /\
    (pool_list avail (at_lg (f_pools (settle c s1))) <> [] \/
     f_map_empty (settle c s1) = true /\ map_free 0 (f_map (settle c s1)) = [] /\
     all_small c s (settle c s1) /\ (at_sm (f_pools s) = None -> map_free 0 (f_map s) = [])).
Proof.
  intros HC HB HI E1 E2.
  assert (HW : writes_ok s) by now right.
  destruct (wp_done _ _ _ (get_blklist_spec c HC s HB HW)) as (r & s1 & E & _ & H).
  exists r, s1. split; [exact E|]. destruct H as [[_ H]|[_ H]].
  - destruct HI as (I1 & I2 & _). destruct H; congruence.
  - destruct H as (t1 & t2 & R & B & _ & Hsm & _ & _ & _ & _ & G).
    destruct (G E1 E2) as (R1 & R2 & G'). destruct (settle_lists c s1 HC B) as (L & -> & ->).
    split; [exact B|]. split; [exact R1|]. split; [exact R2|].
    pose proof (L LG) as L1. pose proof (L SM) as L2. cbn [bt_get] in L1, L2. unfold all_small. rewrite L1, L2.
    destruct (decide (live s1 LG = [])) as [El|]; [right|now left].
    destruct (G' eq_refl) as [[Me Mf]|]; [|contradiction]. split; [exact Me|]. split; [exact Mf|].
    assert (t2 = []) as ->.
    { pose proof (rf_lg _ _ _ _ _ R) as Q. rewrite El in Q. symmetry in Q.
      apply app_eq_nil in Q as [_ Q]. now apply fmap_nil_inv in Q. }
    assert (map_free 0 (f_map s) ≡ₚ t1) as P.
    { pose proof (rf_map _ _ _ _ _ R) as Q. rewrite Mf, !app_nil_r in Q.
      unfold free_units, eff in Q. now rewrite (proj2 (proj2 HI)) in Q. }
    pose proof (rf_sm _ _ _ _ _ R) as Q. rewrite (live_avail s SM) in Q by apply HI. cbn [bt_get] in Q.
    split; [now exists t1|]. intros En. apply Hsm in En as En1.
    assert (concat (sm_exts (c_geom c) <$> t1) = []) as Ht.
    { symmetry in Q. unfold live in Q. cbn [bt_get] in Q. rewrite En1, En in Q. exact Q. }
    apply (no_small_units c t1 HC) in Ht. subst t1. now apply Permutation_nil_r.
Qed.

(** C20. A refill of an idle partition without I/O errors: once its write has completed and
    been committed, a thread waiting for a large block finds one in the pool, or the map is
    empty and marked so because every unit that was free before the refill has gone to the
    pool of small blocks, which is filled first. On a partition without small blocks a
    free unit therefore always becomes a large block. *)
Theorem refill_supplies_large_blocks (c : bconf) (s : bfs) :
  conf_ok c -> bfs_ok c s -> idle s -> f_rio s = [] -> f_wio s = [] ->
  exists r s1, sam_get_blklist c s = Done r s1 /\
    (pool_list avail (at_lg (f_pools (settle c s1))) <> [] \/
     f_map_empty (settle c s1) = true /\ map_free 0 (f_map (settle c s1)) = [] /\
     all_small c s (settle c s1) /\ (at_sm (f_pools s) = None -> map_free 0 (f_map s) = [])).
Proof.
  intros HC HB HI E1 E2. destruct (refill_supplies c s HC HB HI E1 E2) as (r & s1 & E & _ & _ & _ & H).
  eauto.
Qed.

(** The number of units that [sam_get_blklist] reports is always zero: the count of a
    map block is cleared before it is added, and the last block's is not added. *)
Theorem sam_get_blklist_returns_zero (c : bconf) (s : bfs) :
  conf_ok c -> bfs_ok c s -> writes_ok s ->
  wp (sam_get_blklist c) (fun r _ => r = 0) s.
Proof.
  intros HC HB HW. eapply wp_mono; [apply get_blklist_spec; auto|]. now intros r s' [-> _].
Qed.

(** C21. The partition's space count is exact: it stays the number of units free on disk,
    in the superblock's unit, through refills, the completion of writes (failed ones
    included) and commits. *)
Theorem space_follows_the_map (c : bconf) (s : bfs) :
  conf_ok c -> bfs_ok c s -> writes_ok s -> space_ok c s ->
  wp (sam_get_blklist c) (fun _ s' => space_ok c s') s /\
  (f_busy s = true -> forall error, space_ok c (sam_block_done error s)) /\
  space_ok c (thread_commit c s).
Proof.
  intros HC HB HW HS. split; [|split].
  - eapply wp_mono; [apply get_blklist_spec; auto|].
    intros r s' [_ [[-> _]|[_ (t1 & t2 & R & _)]]]; [exact HS|]. now apply R.
  - intros Eb error. destruct (bo_pend _ _ HB Eb) as (t1 & t2 & P & _ & _ & Pn).
    unfold space_ok, free_units, eff in *. unfold sam_block_done. destruct error; cbn.
    + rewrite P, length_app, HS. unfold free_units, eff. lia.
    + destruct (f_wr s) as [[i buf]|]; cbn; exact HS.
  - destruct (f_busy s) eqn:Eb; [now unfold thread_commit; rewrite Eb|].
    destruct (Z.eq_dec (f_modified s) 0) as [Em|Em];
      [now unfold thread_commit; rewrite Eb, Em|].
    destruct (thread_commit_spec c HC s HB Eb Em) as (_ & M & E & _ & _ & _ & _ & _ & _ & Sp).
    unfold space_ok, free_units in *. rewrite E, M, Sp, HS.
    pose proof (bo_mod _ _ HB). rewrite sub_floor_nonneg; [lia|].
    assert (0 <= unit_blks c).
    { unfold unit_blks. destruct HC. destruct (decide _), (1 <? c_num_group c); nia. }
    nia.
Qed.

(** C22. Freeing the large block of a unit of the partition, in a map block that is not being
    written and without a read error: the block is kept in reserve for .blocks when none is
    and the partition has the type of .blocks, and the map does not change; otherwise the
    unit's own bit is set in the map, and no other, and refills are allowed again. The
    pools do not change. *)
Theorem sam_free_lg_block_restores_unit (c : bconf) (d : Z) (s : bfs) :
  conf_ok c -> geom_ok c -> bfs_ok c s -> unit_ok c d -> freeable c d -> unlocked s d ->
  d ∉ free_units s -> f_rio s = [] ->
  wp (sam_free_lg_block c (lg_ext (c_geom c) d))
     (fun r s' => r = 0 /\ f_pools s' = f_pools s /\
        if (f_blk_bn s =? 0) && c_inoblk_meta c
        then f_blk_bn s' = lg_ext (c_geom c) d /\ free_units s' = free_units s
        else f_blk_bn s' = f_blk_bn s /\ free_units s' ≡ₚ d :: free_units s /\ f_map_empty s' = false) s.
Proof.
  intros HC HG HB HU HF HL Hn Er. eapply wp_mono; [apply sam_free_lg_block_spec; auto|].
  intros r s' (_ & (P & _) & [(H & _)|[(-> & _ & E1 & E2 & Eb & Eu)|(-> & _ & H & Eb & Eu & Em & _)]]).
  - tauto.
  - rewrite E1, E2. cbn [Z.eqb andb]. now split.
  - split; [reflexivity|]. split; [exact P|].
    destruct (Z.eqb_spec (f_blk_bn s) 0), (c_inoblk_meta c); cbn [andb]; auto. destruct H; congruence.
Qed.

(** ** A small partition

    8192 units of 16 kilobytes with small blocks of 4, block numbers in units of 4
    kilobytes; the first four units are the system area and the fifth is in use. *)

Definition no_dau : sam_dau_t :=
  let z := mk_per_bt 0 0 in mk_sam_dau z z 0 z z z z z z 0 0 0.
Definition demo_geom : geom := mk_geom (default no_dau (sam_set_dau no_dau 4 16)) 2.

Definition demo_conf (t : dtype) : bconf :=
  mk_bconf demo_geom t 8192 131072 64 1 16 16 131072 0 1000 2000 false false true true false 100.

Definition demo_map : list (list Z) := [0x07ffffff :: replicate 255 0xffffffff].

Definition demo_fs (t : dtype) : bfs :=
  mk_bfs (fst (sam_init_blocklist 1 t false (mk_per_bt None None))) false 0 0 false 0
    (16 * 8187) (16 * 8187) 0 demo_map None [] [] 0 false FS_LWM 0 [] 0 false.

Lemma demo_conf_ok (t : dtype) : conf_ok (demo_conf t).
Proof. split; vm_compute; repeat split; try reflexivity; discriminate. Qed.

Lemma demo_geom_ok (t : dtype) : geom_ok (demo_conf t).
Proof.
  split; try reflexivity; [right; split; reflexivity|vm_compute; repeat split; discriminate..].
Qed.

Lemma demo_mounted (t : dtype) : mounted (demo_conf t) 1 false (demo_fs t).
Proof.
  assert (W : map_wf demo_map).
  { constructor; [|constructor]. split; [reflexivity|]. constructor; [now vm_compute|].
    apply Forall_replicate. now vm_compute. }
  split; try reflexivity; [now split| |vm_compute; split; easy|now right].
  split; [exact W|reflexivity|]. intros u Hu. pose proof (map_free_range 0 _ u W Hu) as R. cbn in R.
  split; [cbn; lia|]. rewrite (dau_bn_mul _ (demo_geom_ok t)) by lia.
  change (LG_DEV_BLOCK (c_geom (demo_conf t))) with 16. cbn. lia.
Qed.

(** No unit of the system area is free. *)
Lemma demo_free_system (t : dtype) (u : Z) :
  u ∈ map_free 0 demo_map -> c_system (demo_conf t) <= dau_bn demo_geom u.
Proof.
  intros Hu. pose proof (mo_wf _ _ (mt_map _ _ _ _ (demo_mounted t))) as W.
  pose proof (map_free_range 0 _ u W Hu) as [R _]. apply map_free_elem in Hu; [|exact W|exact R].
  assert (Hr : 4 <= u).
  { destruct (Z.lt_ge_cases u 4) as [Hlt|]; [|assumption]. exfalso.
    assert (u = 0 \/ u = 1 \/ u = 2 \/ u = 3) as [-> | [-> | [-> | ->]]] by lia; vm_compute in Hu; discriminate. }
  change demo_geom with (c_geom (demo_conf t)). rewrite (dau_bn_mul _ (demo_geom_ok t)) by lia.
  change (LG_DEV_BLOCK (c_geom (demo_conf t))) with 16. cbn. lia.
Qed.

Lemma demo_bfs_ok (t : dtype) : bfs_ok (demo_conf t) (demo_fs t).
Proof.
  exact (so_bfs _ _ (mounted_ok _ _ _ _ (demo_conf_ok t) (demo_geom_ok t) (demo_mounted t))).
Qed.

Definition after {A : Type} (m : M bfs A) (s : bfs) : bfs :=
  match m s with Done _ s' => s' | Fault _ => s end.

(** A refill whose map write fails, and the next one, which succeeds. *)
Definition failed_then_retried (c : bconf) : M bfs unit :=
  _ ← sam_get_blklist c; modify (sam_block_done true);; modify (thread_commit c);;
  _ ← sam_get_blklist c; modify (sam_block_done false);; modify (thread_commit c).

(** On a partition with small and large blocks a failed map write makes the file
    system hand out free blocks: when the refill is retried, entries of the large pool
    left over from the failed attempt are committed although their units are still free
    in the map, from where they will be handed out again. *)
Theorem failed_map_write_commits_free_blocks :
  exists s', failed_then_retried (demo_conf DT_DATA) (demo_fs DT_DATA) = Done tt s' /\
    f_fsck s' = false /\
    exists u, u ∈ free_units s' /\ lg_ext demo_geom u ∈ pool_list avail (at_lg (f_pools s')).
Proof.
  set (m := failed_then_retried (demo_conf DT_DATA)).
  exists (after m (demo_fs DT_DATA)). split; [vm_compute; reflexivity|].
  split; [vm_compute; reflexivity|]. exists 100.
  split; apply (bool_decide_unpack _); vm_compute; reflexivity.
Qed.

(** ** Instances *)

(** A refill, its completion and commit, and an allocation. *)
Definition short_run (c : bconf) (s1 : bfs) : bsys :=
  snd (alloc_block c LG (mk_bsys (thread_commit c (sam_block_done false s1)) [] [])).

Lemma short_run_steps (c : bconf) (s s1 : bfs) (r : Z) :
  sam_get_blklist c s = Done r s1 -> f_busy s1 = true ->
  rtc (bstep c) (mk_bsys s [] []) (short_run c s1).
Proof.
  intros E Eb. eapply rtc_l; [apply (bs_fill c (mk_bsys s [] []) r s1 E)|].
  eapply rtc_l; [apply (bs_done c _ false); [exact Eb|discriminate]|].
  eapply rtc_l; [apply bs_commit|]. apply rtc_once. apply (bs_alloc c).
Qed.

Lemma no_block_in_two_places_witness :
  let y := short_run (demo_conf DT_DATA)
             (after (sam_get_blklist (demo_conf DT_DATA)) (demo_fs DT_DATA)) in
  NoDup (holdings (demo_conf DT_DATA) y) /\ y_lg y = [272].
Proof.
  split; [|vm_compute; reflexivity].
  apply (no_block_in_two_places (demo_conf DT_DATA) 1 false (demo_fs DT_DATA) _
    (demo_conf_ok _) (demo_geom_ok _) (demo_mounted _)).
  apply (short_run_steps _ _ _ 0); vm_compute; reflexivity.
Defined.

Lemma sam_get_blklist_moves_units_witness :
  wp (sam_get_blklist (demo_conf DT_DATA))
    (fun _ s' => bfs_ok (demo_conf DT_DATA) s' /\
       exists t1 t2, refill (demo_conf DT_DATA) t1 t2 (demo_fs DT_DATA) s') (demo_fs DT_DATA).
Proof.
  apply sam_get_blklist_moves_units; [apply demo_conf_ok|apply demo_bfs_ok|now right].
Defined.

Lemma map_empty_means_no_free_unit_witness :
  wp (sam_get_blklist (demo_conf DT_RAID))
    (fun _ s' => f_map_empty s' = true ->
       f_map_empty (demo_fs DT_RAID) = true \/ free_units s' = []) (demo_fs DT_RAID).
Proof.
  apply map_empty_means_no_free_unit; [apply demo_conf_ok|apply demo_bfs_ok|now right].
Defined.

Lemma refill_supplies_large_blocks_witness :
  exists r s1, sam_get_blklist (demo_conf DT_RAID) (demo_fs DT_RAID) = Done r s1 /\
    pool_list avail (at_lg (f_pools (settle (demo_conf DT_RAID) s1))) <> [].
Proof.
  destruct (refill_supplies_large_blocks (demo_conf DT_RAID) (demo_fs DT_RAID))
    as (r & s1 & E & [H|(_ & _ & _ & H)]);
    [apply demo_conf_ok|apply demo_bfs_ok|now split|reflexivity|reflexivity|exact (ex_intro _ r (ex_intro _ s1 (conj E H)))|].
  exfalso. specialize (H eq_refl). apply (f_equal length) in H. vm_compute in H. discriminate.
Defined.

Lemma sam_get_blklist_returns_zero_witness :
  wp (sam_get_blklist (demo_conf DT_DATA)) (fun r _ => r = 0) (demo_fs DT_DATA) /\
  f_modified (after (sam_get_blklist (demo_conf DT_DATA)) (demo_fs DT_DATA)) = 318.
Proof.
  split; [|vm_compute; reflexivity].
  apply sam_get_blklist_returns_zero; [apply demo_conf_ok|apply demo_bfs_ok|now right].
Defined.

Lemma space_follows_the_map_witness :
  wp (sam_get_blklist (demo_conf DT_DATA)) (fun _ s' => space_ok (demo_conf DT_DATA) s')
    (demo_fs DT_DATA) /\
  (f_busy (demo_fs DT_DATA) = true ->
   forall error, space_ok (demo_conf DT_DATA) (sam_block_done error (demo_fs DT_DATA))) /\
  space_ok (demo_conf DT_DATA) (thread_commit (demo_conf DT_DATA) (demo_fs DT_DATA)).
Proof.
  apply space_follows_the_map;
    [apply demo_conf_ok|apply demo_bfs_ok|now right|vm_compute; reflexivity].
Defined.

Lemma sam_free_lg_block_restores_unit_witness :
  wp (sam_free_lg_block (demo_conf DT_DATA) (lg_ext demo_geom 4))
    (fun r s' => r = 0 /\ f_pools s' = f_pools (demo_fs DT_DATA) /\ f_blk_bn s' = 0 /\
       free_units s' ≡ₚ 4 :: free_units (demo_fs DT_DATA) /\ f_map_empty s' = false) (demo_fs DT_DATA).
Proof.
  apply (sam_free_lg_block_restores_unit (demo_conf DT_DATA) 4);
    [apply demo_conf_ok|apply demo_geom_ok|apply demo_bfs_ok|vm_compute; easy|
     vm_compute; easy|discriminate| |reflexivity].
  intros H. apply map_free_elem in H; [vm_compute in H; discriminate| |lia].
  apply (bo_eff _ _ (demo_bfs_ok DT_DATA)).
Defined.
