(* ===== verification/Prealloc.v ===== *)
(** * Preallocation of consecutive units

    A file can ask for a run of consecutive large units. [sam_process_prealloc_req]
    (src/src/fs/samfs/block.c) calls [sam_get_prealloc_daus] twice, first to find the run,
    then, from the word in which it begins, to clear its bits; map blocks are kept in a
    list of buffers and written when the run is complete. *)

From S2P Require Import Prelude Dau Bitmap BlockPool BlockScan Monad BlockAlloc.

(** The fields of [sam_prealloc_t] and the variables of the search. *)
Record prealloc : Type := mk_prealloc {
  pa_count : Z;             (* count, units still to be found *)
  pa_first_set : bool;      (* first_bn_set *)
  pa_first_bn : Z;          (* first_bn *)
  pa_first_dau : Z;         (* first_dau *)
  pa_next : Z;              (* *next_dau *)
  pa_fsck : bool            (* a consistency check was requested *)
}.

(** "A fresh start" at unit [dau]: [None] when the unit lies outside the partition. *)
Definition fresh_start (c : bconf) (check_system : bool) (dau : Z) (p : prealloc)
  : prealloc * bool :=
  if pa_first_set p then (p, true)
  else
    let ndau := dau_bn (c_geom c) dau in
    if (check_system && (ndau <? c_system c)) || (c_capacity c <? ndau) then
      (mk_prealloc (pa_count p) false (pa_first_bn p) (pa_first_dau p) dau true, false)
    else
      (mk_prealloc (pa_count p) true (u32 ndau) dau dau (pa_fsck p), true).

(** [n] units have been found. *)
Definition found_units (am_setting : bool) (n : Z) (p : prealloc) : prealloc :=
  mk_prealloc (pa_count p - n) (pa_first_set p) (pa_first_bn p) (pa_first_dau p)
    (if am_setting then u32 (pa_next p + n) else pa_next p) (pa_fsck p).

(** "Restart search". *)
Definition restart (count0 : Z) (p : prealloc) : prealloc :=
  mk_prealloc count0 false 0 (pa_first_dau p) (pa_next p) (pa_fsck p).

(** The loop over the bits of a word; returns whether the run is complete, the word,
    and whether the search was restarted. *)
Fixpoint prealloc_bits (c : bconf) (check_system am_setting : bool) (count0 rblk count : Z)
    (bit : nat) (mask w : Z) (p : prealloc) (restarted : bool) : bool * Z * prealloc * bool :=
  match bit with
  | O => (false, w, p, restarted)
  | S bit' =>
      let go w p r :=
        prealloc_bits c check_system am_setting count0 rblk count bit' (Z.shiftr mask 1) w p r in
      if bit_on w mask then
        let dau := u32 (Z.shiftl rblk SAM_BIT_SHIFT - Z.shiftl count NBWDSHIFT
                        + (32 - Z.of_nat bit)) in
        let '(p1, started) := fresh_start c check_system dau p in
        if negb started then go w p1 restarted
        else if (Nat.eqb bit 32) && (32 <=? pa_count p1) && (w =? 0xffffffff) then
          let p2 := found_units am_setting 32 p1 in
          let w' := if am_setting then 0 else w in
          (pa_count p2 <=? 0, w', p2, restarted)
        else
          let p2 := found_units am_setting 1 p1 in
          let w' := if am_setting then bit_clear w mask else w in
          if pa_count p2 <=? 0 then (true, w', p2, restarted) else go w' p2 restarted
      else go w (restart count0 p) true
  end.

(** The loop over the words of a buffer. *)
Fixpoint prealloc_words (c : bconf) (check_system am_setting : bool) (count0 rblk : Z)
    (ws : list Z) (p : prealloc) (restarted : bool) : bool * list Z * prealloc * bool :=
  match ws with
  | [] => (false, [], p, restarted)
  | w :: ws' =>
      if w =? 0 then
        let '(d, r, p', t) := prealloc_words c check_system am_setting count0 rblk ws' p restarted in
        (d, w :: r, p', t)
      else
        match prealloc_bits c check_system am_setting count0 rblk (Z.of_nat (length ws)) 32
                0x80000000 w p restarted with
        | (true, w', p', t) => (true, w' :: ws', p', t)
        | (false, w', p', t) =>
            let '(d, r, p'', t') :=
              prealloc_words c check_system am_setting count0 rblk ws' p' t in
            (d, w' :: r, p'', t')
        end
  end.

(** Buffers that are held: map block and contents, oldest first. *)
Abbreviation buflist := (list (nat * list Z)).

(** Writing the buffers; an error ends it with the rest released. *)
Fixpoint write_bufs (l : buflist) : M bfs Z :=
  match l with
  | [] => mret 0
  | (i, buf) :: l' =>
      ok ← map_write i buf;
      if negb ok then mret EIO else write_bufs l'
  end.

(** The loop over map blocks, [n] blocks being left from block [blk] on. *)
Fixpoint prealloc_loop (n : nat) (c : bconf) (check_system am_setting : bool) (count0 : Z)
    (blk off : nat) (bufs : buflist) (p : prealloc) : M bfs (Z * prealloc) :=
  match n with
  | O => mret (ENOSPC, p)
  | S n' =>
      b ← map_read blk;
      match b with
      | None => mret (EIO, p)
      | Some buf =>
          let '(done, ws, p', restarted) :=
            prealloc_words c check_system am_setting count0 (Z.of_nat blk + 1) (drop off buf) p
              false in
          let held := (if restarted : bool then [] else bufs) ++ [(blk, take off buf ++ ws)] in
          if done : bool then
            error ← (if am_setting then write_bufs held else mret 0);
            mret (error, p')
          else
            prealloc_loop n' c check_system am_setting count0 (S blk) 0
              (if pa_first_set p' then held else []) p'
      end
  end.

(** [sam_get_prealloc_daus] from map block [blk], word [off]. *)
Definition sam_get_prealloc_daus (c : bconf) (check_system am_setting : bool) (count0 : Z)
    (blk off : nat) (p : prealloc) : M bfs (Z * prealloc) :=
  m ← gets f_map;
  let p0 := mk_prealloc (pa_count p) false (pa_first_bn p) (pa_first_dau p) (pa_next p) (pa_fsck p) in
  prealloc_loop (length m - blk) c check_system am_setting count0 blk off [] p0.

(** [sam_process_prealloc_req] for [count] units: the error and the first unit and block
    of the run. *)
Definition sam_process_prealloc_req (c : bconf) (check_system : bool) (count : Z)
  : M bfs (Z * prealloc) :=
  let p0 := mk_prealloc count false 0 0 0 false in
  r ← sam_get_prealloc_daus c check_system false count 0 0 p0;
  let '(error, p1) := r in
  if negb (error =? 0) then mret (error, p1)
  else
    let off := Z.shiftr (pa_first_dau p1) NBBYSHIFT in
    let blk := Z.to_nat (Z.shiftr off SAM_DEV_BSHIFT) in
    let word := Z.to_nat (Z.shiftr (Z.land off SAM_LOG_WMASK) NBPWSHIFT) in
    let p2 := mk_prealloc count false 0 (pa_first_dau p1) (pa_next p1) (pa_fsck p1) in
    r ← sam_get_prealloc_daus c check_system true count blk word p2;
    let '(error, p3) := r in
    (if error =? 0 then
       s ← gets id;
       modify (sam_set_sblk c count (f_dau_next s))
     else mret tt);;
    mret (error, p3).
