(* ===== verification/PreallocThms.v ===== *)
(** * Preallocation: theorems

    [run_scan] is the search for the first run of consecutive free units, one unit at a
    time. [sam_get_prealloc_daus] agrees with it, as long as a word of the map without
    free units does not directly follow a free unit; without that condition the words
    between two parts of a "run" may belong to other files. *)

From S2P Require Import Prelude Dau Bitmap BlockPool BlockScan Monad BlockAlloc BlockRefill BlockFree BlockSys BlockThms Prealloc.

(** ** The reference search *)

(** Scans [n] units from [pos] on; [st] is the start of the current run and [left] the
    units it still needs. *)
Fixpoint run_scan (need : Z) (fr : Z -> bool) (n : nat) (pos : Z) (st : option Z) (left : Z)
  : option Z * (option Z * Z) :=
  match n with
  | O => (None, (st, left))
  | S n' =>
      if fr pos then
        let a := default pos st in
        if left - 1 <=? 0 then (Some a, (Some a, left - 1))
        else run_scan need fr n' (pos + 1) (Some a) (left - 1)
      else run_scan need fr n' (pos + 1) None need
  end.

(** [need] free units from [g] on. *)
Definition is_run (need : Z) (fr : Z -> bool) (g : Z) : Prop :=
  forall u, g <= u < g + need -> fr u = true.

Section Reference.
Context (need : Z) (fr : Z -> bool) (Hneed : 0 < need).

Lemma run_scan_app (n m : nat) (pos : Z) (st : option Z) (left : Z) :
  run_scan need fr (n + m) pos st left
  = match run_scan need fr n pos st left with
    | (None, (st', left')) => run_scan need fr m (pos + Z.of_nat n) st' left'
    | r => r
    end.
Proof.
  revert pos st left. induction n as [|n IH]; intros pos st left.
  { cbn. now rewrite Z.add_0_r. }
  cbn [Nat.add run_scan]. replace (pos + Z.of_nat (S n)) with (pos + 1 + Z.of_nat n) by lia.
  destruct (fr pos); [destruct (left - 1 <=? 0); [reflexivity|]|]; apply IH.
Qed.

Lemma run_scan_true (n : nat) (pos : Z) (st : option Z) (left : Z) :
  fr pos = true ->
  run_scan need fr (S n) pos st left
  = let a := default pos st in
    if left - 1 <=? 0 then (Some a, (Some a, left - 1))
    else run_scan need fr n (pos + 1) (Some a) (left - 1).
Proof. intros E. cbn [run_scan]. now rewrite E. Qed.

(** The state of a scan that began at [base]. *)
Definition scan_state (base pos : Z) (st : option Z) (left : Z) : Prop :=
  base <= pos /\ 0 < left /\
  (forall g, base <= g < default pos st -> ~ is_run need fr g) /\
  match st with
  | None => left = need /\ (pos = base \/ fr (pos - 1) = false)
  | Some a => base <= a < pos /\ left = need - (pos - a) /\ forall u, a <= u < pos -> fr u = true
  end.

Lemma scan_state_init (base : Z) : scan_state base base None need.
Proof. unfold scan_state. cbn. split_and!; auto; lia. Qed.

(** First fit: the run found is complete and no run begins before it; if none is found
    none begins in time to end in the range. *)
Lemma run_scan_spec (n : nat) (base pos : Z) (st : option Z) (left : Z) :
  scan_state base pos st left ->
  let '(r, (st', left')) := run_scan need fr n pos st left in
  match r with
  | Some f => is_run need fr f /\ base <= f /\ pos < f + need <= pos + Z.of_nat n /\
      st' = Some f /\ (forall g, base <= g < f -> ~ is_run need fr g)
  | None => scan_state base (pos + Z.of_nat n) st' left'
  end.
Proof.
  revert pos st left. induction n as [|n IH]; intros pos st left HS; cbn [run_scan].
  { now rewrite Z.add_0_r. }
  pose proof HS as (H1 & H2 & H3 & H4).
  replace (pos + Z.of_nat (S n)) with (pos + 1 + Z.of_nat n) by lia.
  destruct (fr pos) eqn:Ef.
  - set (a := default pos st) in *.
    assert (Ha : base <= a <= pos /\ left = need - (pos - a) /\ forall u, a <= u < pos -> fr u = true).
    { subst a. destruct st; cbn in *; [intuition lia|]. destruct H4 as [-> _].
      split; [lia|]. split; [lia|]. intros; lia. }
    destruct Ha as (Ha & El & Hu).
    destruct (Z.leb_spec (left - 1) 0) as [Hl|Hl].
    + split; [|split_and!; auto; lia]. intros u Hr.
      destruct (Z.eq_dec u pos) as [->|]; [exact Ef|]. apply Hu. lia.
    + assert (HS' : scan_state base (pos + 1) (Some a) (left - 1)).
      { split_and!; cbn; auto; try lia. intros u Hr.
        destruct (Z.eq_dec u pos) as [->|]; [exact Ef|]. apply Hu. lia. }
      specialize (IH _ _ _ HS'). destruct (run_scan _ _ _ _ _ _) as [[f|] [st' left']]; [|exact IH].
      destruct IH as (? & ? & ? & ? & ?). split; [assumption|]. repeat split; auto; lia.
  - assert (HS' : scan_state base (pos + 1) None need).
    { split; [lia|]. split; [lia|]. split; [|split; [reflexivity|right; now rewrite Z.add_simpl_r]].
      intros g Hg Hr. cbn in Hg. destruct (Z.lt_ge_cases g (default pos st)) as [Hlt|Hge].
      { apply (H3 g); [lia|exact Hr]. }
      destruct (Z.lt_ge_cases pos (g + need)) as [Hin|Hout].
      { rewrite (Hr pos) in Ef by lia. discriminate. }
      destruct st as [a|]; cbn in *; lia. }
    specialize (IH _ _ _ HS'). destruct (run_scan _ _ _ _ _ _) as [[f|] [st' left']]; [|exact IH].
    destruct IH as (? & ? & ? & ? & ?). split; [assumption|]. repeat split; auto; lia.
Qed.

Lemma is_run_dec_first (f g base : Z) :
  is_run need fr f -> base <= f -> (forall x, base <= x < f -> ~ is_run need fr x) ->
  is_run need fr g -> base <= g -> (forall x, base <= x < g -> ~ is_run need fr x) -> f = g.
Proof.
  intros F1 F2 F3 G1 G2 G3. destruct (Z.lt_trichotomy f g) as [H|[H|H]]; [|exact H|].
  - exfalso. apply (G3 f); [lia|exact F1].
  - exfalso. apply (F3 g); [lia|exact G1].
Qed.

(** A block of free units. *)
Lemma run_scan_all (n : nat) (pos : Z) (st : option Z) (left : Z) :
  (forall u, pos <= u < pos + Z.of_nat n -> fr u = true) ->
  (0 < n)%nat -> Z.of_nat n <= left ->
  run_scan need fr n pos st left
  = let a := default pos st in
    if left - Z.of_nat n <=? 0 then (Some a, (Some a, left - Z.of_nat n))
    else (None, (Some a, left - Z.of_nat n)).
Proof.
  revert pos st left. induction n as [|n IH]; intros pos st left Hf Hn Hl; [lia|].
  cbn [run_scan]. rewrite Hf by lia. destruct n as [|n].
  { change (Z.of_nat 1) with 1. cbn. destruct (left - 1 <=? 0); reflexivity. }
  destruct (Z.leb_spec (left - 1) 0); [lia|]. rewrite IH; [|intros; apply Hf; lia|lia|lia].
  cbn. replace (left - 1 - Z.of_nat (S n)) with (left - Z.of_nat (S (S n))) by lia. reflexivity.
Qed.

(** A block of units in use, at a point where no run is open. *)
Lemma run_scan_none (n : nat) (pos : Z) :
  (forall u, pos <= u < pos + Z.of_nat n -> fr u = false) ->
  run_scan need fr n pos None need = (None, (None, need)).
Proof.
  revert pos. induction n as [|n IH]; intros pos Hf; cbn [run_scan]; [reflexivity|].
  rewrite Hf by lia. apply IH. intros. apply Hf. lia.
Qed.
End Reference.

(** ** The search of the code *)

(** A unit that the scan takes as free. *)
Definition unit_free (m : list (list Z)) (u : Z) : bool := (0 <=? u) && free_bit m u.

(** The search state of the code. *)
Definition tracks (g : geom) (p : prealloc) (st : option Z) (left : Z) : Prop :=
  pa_count p = left /\
  match st with
  | None => pa_first_set p = false
  | Some a => pa_first_set p = true /\ pa_first_dau p = a /\ pa_first_bn p = u32 (dau_bn g a)
  end.

Section Code.
Context (c : bconf) (check_system am : bool) (need : Z) (fr : Z -> bool) (Hneed : 0 < need).
(** Free units lie in the partition. *)
Context (Hfr : forall u, fr u = true -> uint_range 32 u /\
  (check_system = true -> c_system c <= dau_bn (c_geom c) u) /\ dau_bn (c_geom c) u <= c_capacity c).

Lemma fresh_start_ok (u : Z) (p : prealloc) (st : option Z) (left : Z) :
  fr u = true -> tracks (c_geom c) p st left ->
  exists p1, fresh_start c check_system u p = (p1, true) /\
    tracks (c_geom c) p1 (Some (default u st)) left /\ pa_fsck p1 = pa_fsck p.
Proof.
  intros Hu (Ec & Et). destruct (Hfr u Hu) as (_ & Hs & Hc). unfold fresh_start.
  destruct st as [a|]; cbn in Et.
  - destruct Et as (E1 & ?). rewrite E1. exists p. cbn. unfold tracks. tauto.
  - rewrite Et. destruct (Z.ltb_spec (c_capacity c) (dau_bn (c_geom c) u)); [lia|].
    assert (Ht : check_system && (dau_bn (c_geom c) u <? c_system c) = false).
    { destruct check_system; [|reflexivity]. apply Z.ltb_ge. auto. }
    rewrite Ht. cbn. eexists. split; [reflexivity|]. unfold tracks. cbn. auto.
Qed.

Lemma found_tracks (n : Z) (p : prealloc) (a : Z) (left : Z) :
  tracks (c_geom c) p (Some a) left -> tracks (c_geom c) (found_units am n p) (Some a) (left - n).
Proof. unfold tracks, found_units. cbn. intros (-> & ?). auto. Qed.

(** Bits from position [bit] down that the scan has seen, with the units of the word
    starting at [d]. *)
Definition seen_to (d : Z) (stop : option Z) (i : Z) : bool :=
  match stop with Some f => d + (31 - i) <? f + need | None => true end.

(** What one word looks like afterwards. *)
Definition word_after (d : Z) (bit : nat) (stop : option Z) (w w' : Z) : Prop :=
  (0 <= w -> 0 <= w') /\
  forall i, 0 <= i -> Z.testbit w' i
    = if am && (i <? Z.of_nat bit) && seen_to d stop i then false else Z.testbit w i.

(** The end of the part that was scanned. *)
Definition scan_end (stop : option Z) (pos : Z) : Z :=
  match stop with Some f => f + need | None => pos end.

(** A word without free units does not follow a free unit. *)
Lemma word_after_clear (d : Z) (bit : nat) (stop : option Z) (w w' : Z) :
  word_after d bit stop (if am then bit_clear w (2 ^ Z.of_nat bit) else w) w' ->
  (forall f, stop = Some f -> d + (31 - Z.of_nat bit) < f + need) ->
  word_after d (S bit) stop w w'.
Proof.
  intros [Hn Hw] Hs. split.
  { intros H. apply Hn. destruct am; [now apply bit_clear_nonneg|exact H]. }
  intros i Hi. rewrite Hw by exact Hi. destruct am; cbn [andb]; [|reflexivity].
  rewrite bit_clear_testbit by lia.
  destruct (Z.ltb_spec i (Z.of_nat bit)), (Z.ltb_spec i (Z.of_nat (S bit))); try lia; cbn [andb].
  - destruct (seen_to d stop i); [reflexivity|]. destruct (Z.eqb_spec i (Z.of_nat bit)); [lia|].
    apply andb_true_r.
  - assert (i = Z.of_nat bit) as -> by lia. rewrite Z.eqb_refl, andb_false_r.
    assert (E : seen_to d stop (Z.of_nat bit) = true); [|now rewrite E].
    unfold seen_to. destruct stop; [|reflexivity]. apply Z.ltb_lt. auto.
  - destruct (Z.eqb_spec i (Z.of_nat bit)); [lia|]. apply andb_true_r.
Qed.

Lemma word_after_skip (d : Z) (bit : nat) (stop : option Z) (w w' : Z) :
  word_after d bit stop w w' -> Z.testbit w (Z.of_nat bit) = false -> word_after d (S bit) stop w w'.
Proof.
  intros [Hn Hw] Hb. split; [exact Hn|]. intros i Hi. rewrite Hw by exact Hi.
  destruct am; cbn [andb]; [|reflexivity].
  destruct (Z.ltb_spec i (Z.of_nat bit)), (Z.ltb_spec i (Z.of_nat (S bit))); try lia; cbn [andb];
    try reflexivity.
  assert (i = Z.of_nat bit) as -> by lia. rewrite Hb. now destruct (seen_to d stop _).
Qed.

(** The run ends at this bit. *)
Lemma word_after_stop (d : Z) (bit : nat) (f w : Z) :
  f + need = d + (32 - Z.of_nat bit) ->
  word_after d (S bit) (Some f) w (if am then bit_clear w (2 ^ Z.of_nat bit) else w).
Proof.
  intros Ef. split.
  { intros H. destruct am; [now apply bit_clear_nonneg|exact H]. }
  intros i Hi. destruct am; cbn [andb]; [|reflexivity]. rewrite bit_clear_testbit by lia.
  unfold seen_to. destruct (Z.ltb_spec i (Z.of_nat (S bit))); cbn [andb].
  - destruct (Z.ltb_spec (d + (31 - i)) (f + need)), (Z.eqb_spec i (Z.of_nat bit)); cbn; try lia;
      auto using andb_false_r, andb_true_r.
  - destruct (Z.eqb_spec i (Z.of_nat bit)); [lia|]. apply andb_true_r.
Qed.

(** The shortcut for a word that is all free. *)
Lemma word_after_all (d : Z) (stop : option Z) :
  (forall f, stop = Some f -> f + need = d + 32) ->
  word_after d 32 stop 0xffffffff (if am then 0 else 0xffffffff).
Proof.
  intros Hf. split; [destruct am; lia|]. intros i Hi. destruct am; cbn [andb]; [|reflexivity].
  rewrite Z.bits_0. change 0xffffffff with (Z.ones 32).
  destruct (Z.ltb_spec i (Z.of_nat 32)); cbn [andb].
  - assert (E : seen_to d stop i = true); [|now rewrite E].
    unfold seen_to. destruct stop; [|reflexivity]. apply Z.ltb_lt. rewrite Hf by reflexivity. lia.
  - symmetry. apply Z.ones_spec_high. lia.
Qed.

Lemma all_ones_free (d w : Z) :
  w = 0xffffffff -> (forall i, 0 <= i < 32 -> Z.testbit w i = fr (d + (31 - i))) ->
  forall u, d <= u < d + 32 -> fr u = true.
Proof.
  intros -> H u Hu. replace u with (d + (31 - (31 - (u - d)))) by lia. rewrite <- H by lia.
  change 0xffffffff with (Z.ones 32). apply Z.ones_spec_low. lia.
Qed.

(** The code and the reference, on the last [bit] units of the word starting at [d]. *)
Definition agrees (d : Z) (bit : nat) (w : Z) (p : prealloc) (r : bool)
    (code : bool * Z * prealloc * bool) (ref : option Z * (option Z * Z)) : Prop :=
  let '(done, w', p', t) := code in
  let '(stop, (st', left')) := ref in
  done = bool_decide (is_Some stop) /\ tracks (c_geom c) p' st' left' /\
  pa_fsck p' = pa_fsck p /\ word_after d bit stop w w' /\
  ((forall u, d + (32 - Z.of_nat bit) <= u < scan_end stop (d + 32) -> fr u = true) -> t = r).

Lemma full_word_agrees (base d : Z) (p p1 : prealloc) (st : option Z) (left : Z) (r : bool) :
  (forall u, d <= u < d + 32 -> fr u = true) ->
  tracks (c_geom c) p1 (Some (default d st)) left -> pa_fsck p1 = pa_fsck p -> 32 <= left ->
  scan_state need fr base d st left ->
  agrees d 32 0xffffffff p r
    (pa_count (found_units am 32 p1) <=? 0, if am then 0 else 0xffffffff, found_units am 32 p1, r)
    (run_scan need fr 32 d st left).
Proof.
  intros FR Ht1 K1 Hl HS. rewrite run_scan_all; [|exact FR|lia|exact Hl].
  pose proof (found_tracks 32 p1 _ _ Ht1) as Ht2. rewrite (proj1 Ht2).
  change (Z.of_nat 32) with 32. cbv zeta.
  destruct (Z.leb_spec (left - 32) 0).
  - split; [reflexivity|]. split; [exact Ht2|]. split; [exact K1|]. split; [|reflexivity].
    apply word_after_all. intros f [= <-]. destruct HS as (_ & _ & _ & HS).
    destruct st as [a|]; cbn in *; lia.
  - split; [reflexivity|]. split; [exact Ht2|]. split; [exact K1|]. split; [|reflexivity].
    apply word_after_all. intros f [=].
Qed.

(** One more unit of a run. *)
Lemma next_unit_agrees (d : Z) (bit : nat) (w : Z) (p p1 : prealloc) (r : bool)
    (code : bool * Z * prealloc * bool) (ref : option Z * (option Z * Z)) :
  agrees d bit (if am then bit_clear w (2 ^ Z.of_nat bit) else w) (found_units am 1 p1) r code ref ->
  pa_fsck p1 = pa_fsck p ->
  (forall f, fst ref = Some f -> d + (31 - Z.of_nat bit) < f + need) ->
  agrees d (S bit) w p r code ref.
Proof.
  destruct code as [[[done w'] p'] t], ref as [stop [st' left']]. cbn [fst].
  intros (I1 & I2 & I3 & I4 & I5) K1 Hs. split; [exact I1|]. split; [exact I2|].
  split; [rewrite I3; exact K1|]. split; [now apply word_after_clear|].
  intros H. apply I5. intros x Hx. apply H. lia.
Qed.

(** A unit in use. *)
Lemma used_unit_agrees (d : Z) (bit : nat) (w : Z) (p : prealloc) (r : bool)
    (code : bool * Z * prealloc * bool) (ref : option Z * (option Z * Z)) :
  agrees d bit w (restart need p) true code ref ->
  (bit < 32)%nat -> Z.testbit w (Z.of_nat bit) = false -> fr (d + (31 - Z.of_nat bit)) = false ->
  (forall f, fst ref = Some f -> d + (31 - Z.of_nat bit) < f + need) ->
  agrees d (S bit) w p r code ref.
Proof.
  destruct code as [[[done w'] p'] t], ref as [stop [st' left']]. cbn [fst].
  intros (I1 & I2 & I3 & I4 & I5) Hb Hw Ef Hs. split; [exact I1|]. split; [exact I2|].
  split; [exact I3|]. split; [now apply word_after_skip|].
  intros H. exfalso. rewrite H in Ef; [discriminate|]. split; [lia|].
  unfold scan_end. destruct stop as [f|]; [now apply Hs|lia].
Qed.

Lemma stop_after (n : nat) (base pos : Z) (st : option Z) (left f : Z) :
  scan_state need fr base pos st left ->
  fst (run_scan need fr n pos st left) = Some f -> pos < f + need.
Proof.
  intros HS E. pose proof (run_scan_spec need fr Hneed n base pos st left HS) as R.
  destruct (run_scan need fr n pos st left) as [[x|] [st' left']]; cbn in E; [|discriminate].
  injection E as <-. apply R.
Qed.

Lemma prealloc_bits_spec (rblk count base : Z) (bit : nat) (d w : Z) (p : prealloc)
    (st : option Z) (left : Z) (r : bool) :
  (bit <= 32)%nat -> d = word_base rblk count ->
  (forall i, 0 <= i < Z.of_nat bit -> Z.testbit w i = fr (d + (31 - i))) ->
  tracks (c_geom c) p st left ->
  scan_state need fr base (d + (32 - Z.of_nat bit)) st left ->
  agrees d bit w p r
    (prealloc_bits c check_system am need rblk count bit (Z.shiftr (2 ^ Z.of_nat bit) 1) w p r)
    (run_scan need fr bit (d + (32 - Z.of_nat bit)) st left).
Proof.
  intros Hb Ed. revert w p st left r. induction bit as [|bit IH]; intros w p st left r Hw Ht HS.
  { cbn. split; [reflexivity|]. split; [exact Ht|]. split; [reflexivity|]. split; [|reflexivity].
    split; [auto|]. intros i Hi. destruct (Z.ltb_spec i (Z.of_nat 0)); [lia|]. now destruct am. }
  set (u := d + (32 - Z.of_nat (S bit))) in *.
  assert (Eu : d + (31 - Z.of_nat bit) = u) by (unfold u; lia).
  assert (Eu1 : d + (32 - Z.of_nat bit) = u + 1) by (unfold u; lia). rewrite Eu1 in IH.
  pose proof (run_scan_spec need fr Hneed 1 base u st left HS) as R1.
  cbn [prealloc_bits]. rewrite mask_shift, bit_on_testbit by lia.
  rewrite (Hw (Z.of_nat bit)), Eu by lia. cbn [run_scan] in R1. change (Z.of_nat 1) with 1 in R1.
  destruct (fr u) eqn:Ef.
  - destruct (Hfr u Ef) as (Hu & _). rewrite (dau_number rblk count (S bit) u) by (unfold u; auto; lia).
    destruct (fresh_start_ok u p st left Ef Ht) as (p1 & -> & Ht1 & K1). cbn [negb].
    destruct (Nat.eqb (S bit) 32 && (32 <=? pa_count p1) && (w =? 0xffffffff)) eqn:EF.
    { apply andb_true_iff in EF as [[E32%Nat.eqb_eq Ec%Z.leb_le]%andb_true_iff Ew%Z.eqb_eq].
      pose proof (all_ones_free d w Ew) as FR. subst w. assert (bit = 31%nat) as -> by lia.
      assert (Eud : u = d) by (unfold u; lia). clearbody u. rewrite (proj1 Ht1) in Ec.
      rewrite Eud in Ht1, HS |- *.
      apply (full_word_agrees base d p p1 st left r); auto. }
    rewrite run_scan_true by exact Ef. cbv zeta.
    pose proof (found_tracks 1 p1 _ _ Ht1) as Ht2. rewrite (proj1 Ht2).
    destruct (Z.leb_spec (left - 1) 0) as [Hl|Hl].
    + split; [reflexivity|]. split; [exact Ht2|]. split; [exact K1|]. split; [|reflexivity].
      apply word_after_stop. destruct HS as (_ & Hp & _ & HS). destruct st as [a|]; cbn in *; lia.
    + apply (next_unit_agrees d bit w p p1); [|exact K1|].
      * apply IH; [lia| |exact Ht2|exact R1].
        intros i Hi. rewrite <- Hw by lia. destruct am; [|reflexivity].
        rewrite bit_clear_testbit by lia. destruct (Z.eqb_spec i (Z.of_nat bit)); [lia|].
        apply andb_true_r.
      * intros f E. apply (stop_after _ base) in E; [lia|exact R1].
  - cbn [run_scan]. rewrite Ef. apply used_unit_agrees; [|lia|rewrite Hw, Eu by lia; exact Ef|
      rewrite Eu; exact Ef|].
    + apply IH; [lia| |now split|exact R1]. intros i Hi. apply Hw. lia.
    + intros f E. apply (stop_after _ base) in E; [lia|exact R1].
Qed.

(** ** Words *)

Definition reads (d : Z) (ws : list Z) : Prop :=
  forall k w, ws !! k = Some w -> uint_range 32 w /\
    forall i, 0 <= i < 32 -> Z.testbit w i = fr (d + 32 * Z.of_nat k + (31 - i)).

(** A word without free units does not follow a free unit. *)
Definition no_gap (d : Z) (st : option Z) (ws : list Z) : Prop :=
  forall k, ws !! k = Some 0 -> fr (d + 32 * Z.of_nat k - 1) = false \/ k = 0%nat /\ st = None.

Definition words_after (d : Z) (stop : option Z) (ws ws' : list Z) : Prop :=
  length ws' = length ws /\
  forall k w, ws !! k = Some w -> exists w', ws' !! k = Some w' /\ uint_range 32 w' /\
    forall i, 0 <= i < 32 -> Z.testbit w' i
      = if am && seen_to (d + 32 * Z.of_nat k) stop i then false else Z.testbit w i.

Definition words_agree (d : Z) (ws : list Z) (p : prealloc) (r : bool)
    (code : bool * list Z * prealloc * bool) (ref : option Z * (option Z * Z)) : Prop :=
  let '(done, ws', p', t) := code in
  let '(stop, (st', left')) := ref in
  done = bool_decide (is_Some stop) /\ tracks (c_geom c) p' st' left' /\
  pa_fsck p' = pa_fsck p /\ words_after d stop ws ws' /\
  ((forall u, d <= u < scan_end stop (d + 32 * Z.of_nat (length ws)) -> fr u = true) -> t = r).

Lemma word_after_range (d : Z) (stop : option Z) (w w' : Z) :
  uint_range 32 w -> word_after d 32 stop w w' -> uint_range 32 w'.
Proof.
  intros Hw [Hn Hb]. apply (uint_range_bits w); [exact Hw|apply Hn, Hw|].
  intros i Hi. rewrite Hb by lia. change (Z.of_nat 32) with 32.
  destruct (Z.ltb_spec i 32); [lia|]. now rewrite andb_false_r.
Qed.

(** The first word and the rest. *)
Lemma words_after_cons (d : Z) (stop : option Z) (w w' : Z) (ws ws' : list Z) :
  uint_range 32 w' ->
  (forall i, 0 <= i < 32 -> Z.testbit w' i
     = if am && seen_to d stop i then false else Z.testbit w i) ->
  words_after (d + 32) stop ws ws' -> words_after d stop (w :: ws) (w' :: ws').
Proof.
  intros Hr Hw [L H]. split; [cbn; congruence|]. intros [|k] x E; cbn in E.
  - injection E as <-. exists w'. split; [reflexivity|]. split; [exact Hr|].
    intros i Hi. change (Z.of_nat 0) with 0. rewrite Z.mul_0_r, Z.add_0_r. auto.
  - destruct (H k x E) as (x' & Ex & Rx & Bx). exists x'. split; [exact Ex|]. split; [exact Rx|].
    intros i Hi. rewrite Bx by exact Hi.
    now replace (d + 32 + 32 * Z.of_nat k) with (d + 32 * Z.of_nat (S k)) by lia.
Qed.

(** Words behind the end of the run are not touched. *)
Lemma words_after_rest (d f : Z) (ws : list Z) :
  Forall (uint_range 32) ws -> f + need <= d -> words_after d (Some f) ws ws.
Proof.
  intros HF Hf. split; [reflexivity|]. intros k w E. exists w. split; [exact E|].
  split; [eapply Forall_lookup_1; eauto|]. intros i Hi. unfold seen_to.
  destruct (Z.ltb_spec (d + 32 * Z.of_nat k + (31 - i)) (f + need)); [lia|].
  now rewrite andb_false_r.
Qed.

Lemma seen_all (d : Z) (stop : option Z) (i : Z) :
  0 <= i -> (forall f, stop = Some f -> d + 31 < f + need) -> seen_to d stop i = true.
Proof.
  intros Hi Hs. unfold seen_to. destruct stop as [f|]; [|reflexivity]. apply Z.ltb_lt.
  specialize (Hs f eq_refl). lia.
Qed.

Lemma reads_tail (d w : Z) (ws : list Z) : reads d (w :: ws) -> reads (d + 32) ws.
Proof.
  intros H k x E. destruct (H (S k) x E) as [Hr Hb]. split; [exact Hr|]. intros i Hi.
  rewrite Hb by exact Hi. f_equal. lia.
Qed.

Lemma reads_range (d : Z) (ws : list Z) : reads d ws -> Forall (uint_range 32) ws.
Proof. intros H. apply Forall_lookup_2. intros k w E. now apply (H k). Qed.

Lemma no_gap_tail (d w : Z) (st st' : option Z) (ws : list Z) :
  no_gap d st (w :: ws) -> no_gap (d + 32) st' ws.
Proof.
  intros H k E. left. destruct (H (S k) E) as [Hf|[? _]]; [|discriminate].
  now replace (d + 32 + 32 * Z.of_nat k) with (d + 32 * Z.of_nat (S k)) by lia.
Qed.

(** Putting a word and the rest together. *)
Lemma words_agree_more (d w w' : Z) (ws : list Z) (p p1 : prealloc) (r t : bool)
    (code : bool * list Z * prealloc * bool) (ref : option Z * (option Z * Z)) :
  words_agree (d + 32) ws p1 t code ref -> pa_fsck p1 = pa_fsck p ->
  uint_range 32 w -> word_after d 32 None w w' ->
  (forall f, fst ref = Some f -> d + 32 < f + need) ->
  ((forall u, d <= u < d + 32 -> fr u = true) -> t = r) ->
  words_agree d (w :: ws) p r
    (let '(done, ws', p', t') := code in (done, w' :: ws', p', t')) ref.
Proof.
  destruct code as [[[done ws'] p'] t'], ref as [stop [st' left']]. cbn [fst].
  intros (I1 & I2 & I3 & I4 & I5) K Hw Ha Hs Ht. split; [exact I1|]. split; [exact I2|].
  split; [congruence|]. split.
  - apply words_after_cons; [eapply word_after_range; eauto| |exact I4].
    intros i Hi. rewrite (proj2 Ha) by lia. change (Z.of_nat 32) with 32.
    destruct (Z.ltb_spec i 32); [|lia]. cbn [seen_to]. rewrite !andb_true_r.
    rewrite seen_all, andb_true_r; [reflexivity|lia|]. intros f E. specialize (Hs f E). lia.
  - intros H. rewrite <- Ht.
    + apply I5. intros u Hu. apply H. cbn [length]. unfold scan_end in *.
      destruct stop; [lia|]. lia.
    + intros u Hu. apply H. unfold scan_end. destruct stop as [f|]; [specialize (Hs f eq_refl); lia|].
      cbn [length]. lia.
Qed.

Lemma word_after_zero (d : Z) : word_after d 32 None 0 0.
Proof. split; [lia|]. intros i Hi. rewrite Z.bits_0. now destruct (am && _ && _). Qed.

(** A zero word: no run is open before it, and it has no free unit. *)
Lemma zero_word (base d : Z) (st : option Z) (left : Z) (ws : list Z) :
  reads d (0 :: ws) -> no_gap d st (0 :: ws) -> scan_state need fr base d st left ->
  st = None /\ left = need /\ forall u, d <= u < d + 32 -> fr u = false.
Proof.
  intros Hr Hg (_ & _ & _ & HS). split; [|split].
  - destruct st as [a|]; [|reflexivity]. destruct HS as (Ha & _ & Hf).
    destruct (Hg 0%nat eq_refl) as [E|[_ E]]; [|discriminate].
    change (Z.of_nat 0) with 0 in E. rewrite Z.mul_0_r, Z.add_0_r, Hf in E by lia. discriminate.
  - destruct st as [a|]; [|tauto]. destruct HS as (Ha & _ & Hf).
    destruct (Hg 0%nat eq_refl) as [E|[_ E]]; [|discriminate].
    change (Z.of_nat 0) with 0 in E. rewrite Z.mul_0_r, Z.add_0_r, Hf in E by lia. discriminate.
  - intros u Hu. destruct (Hr 0%nat 0 eq_refl) as [_ Hb]. specialize (Hb (31 - (u - d)) ltac:(lia)).
    rewrite Z.bits_0 in Hb. rewrite Hb. f_equal. lia.
Qed.

Lemma prealloc_words_spec (rblk base : Z) (ws : list Z) (d : Z) (p : prealloc) (st : option Z)
    (left : Z) (r : bool) :
  d = word_base rblk (Z.of_nat (length ws)) -> reads d ws -> no_gap d st ws ->
  tracks (c_geom c) p st left -> scan_state need fr base d st left ->
  words_agree d ws p r (prealloc_words c check_system am need rblk ws p r)
    (run_scan need fr (32 * length ws) d st left).
Proof.
  revert d p st left r. induction ws as [|w ws IH]; intros d p st left r Ed Hr Hg Ht HS.
  { cbn. split; [reflexivity|]. split; [exact Ht|]. split; [reflexivity|]. split; [|reflexivity].
    split; [reflexivity|]. intros k w E. discriminate. }
  assert (Ed1 : d + 32 = word_base rblk (Z.of_nat (length ws))).
  { rewrite Ed. unfold word_base. cbn [length]. lia. }
  replace (32 * length (w :: ws))%nat with (32 + 32 * length ws)%nat by (cbn [length]; lia).
  rewrite run_scan_app. change (Z.of_nat 32) with 32. cbn [prealloc_words].
  destruct (Hr 0%nat w eq_refl) as [Rw Bw]. change (Z.of_nat 0) with 0 in Bw.
  rewrite Z.mul_0_r, Z.add_0_r in Bw.
  pose proof (run_scan_spec need fr Hneed 32 base d st left HS) as R32.
  destruct (Z.eqb_spec w 0) as [->|Hw0].
  - destruct (zero_word base d st left ws Hr Hg HS) as (-> & -> & Hf).
    rewrite run_scan_none in R32 |- * by exact Hf. change (Z.of_nat 32) with 32 in R32.
    apply (words_agree_more d 0 0 ws p p r r); auto using word_after_zero.
    + apply IH; eauto using reads_tail, no_gap_tail.
    + intros f E. apply (stop_after _ base) in E; [lia|exact R32].
  - pose proof (prealloc_bits_spec rblk (Z.of_nat (length (w :: ws))) base 32 d w p st left r
      ltac:(lia) Ed Bw Ht) as A.
    change (Z.shiftr (2 ^ Z.of_nat 32) 1) with 0x80000000 in A. change (Z.of_nat 32) with 32 in A.
    rewrite Z.sub_diag, Z.add_0_r in A. specialize (A HS).
    destruct (prealloc_bits _ _ _ _ _ _ _ _ _ _ _) as [[[done w'] p'] t],
      (run_scan need fr 32 d st left) as [stop [st' left']].
    destruct A as (-> & A2 & A3 & A4 & A5). change (Z.of_nat 32) with 32 in *.
    destruct stop as [f|].
    + rewrite bool_decide_eq_true_2 by eauto. cbn [words_agree].
      destruct R32 as (_ & _ & R & _). rewrite bool_decide_eq_true_2 by eauto.
      split; [reflexivity|]. split; [exact A2|]. split; [exact A3|]. split.
      * apply words_after_cons; [eapply word_after_range; eauto| |].
        { intros i Hi. rewrite (proj2 A4) by lia. destruct (Z.ltb_spec i (Z.of_nat 32)); [|lia].
          now rewrite andb_true_r. }
        { apply words_after_rest; [eapply reads_range, reads_tail; exact Hr|lia]. }
      * intros H. apply A5. intros u Hu. apply H. cbn [scan_end] in *. lia.
    + rewrite bool_decide_eq_false_2 by (intros [? [=]]).
      apply (words_agree_more d w w' ws p p' r t); auto.
      * apply IH; eauto using reads_tail, no_gap_tail.
      * intros f E. apply (stop_after _ base) in E; [lia|exact R32].
      * intros H. apply A5. intros u Hu. apply H. cbn [scan_end] in Hu. lia.
Qed.
End Code.
