(* ===== verification/PreallocRun.v ===== *)
(** * Preallocation: both passes

    The search over the whole map, the pass that clears the bits, and the request that
    puts them together. *)

From S2P Require Import Prelude Dau Bitmap BlockPool BlockScan Monad BlockAlloc BlockRefill BlockFree BlockSys BlockThms Prealloc PreallocThms.

(** ** More on the reference search *)

Section Reference.
Context (need : Z) (fr : Z -> bool) (Hneed : 0 < need).

(** A run that is open, or begins here, and whose units are all free. *)
Lemma run_scan_open (n : nat) (pos : Z) (st : option Z) (left : Z) :
  (0 < n)%nat -> 0 < left ->
  (forall u, pos <= u < pos + Z.min left (Z.of_nat n) -> fr u = true) ->
  run_scan need fr n pos st left
  = let a := default pos st in
    if left <=? Z.of_nat n then (Some a, (Some a, 0))
    else (None, (Some a, left - Z.of_nat n)).
Proof.
  intros Hn Hl Hf. cbv zeta. destruct (Z.leb_spec left (Z.of_nat n)) as [Hle|Hgt].
  - replace n with (Z.to_nat left + (n - Z.to_nat left))%nat by lia.
    rewrite run_scan_app, run_scan_all; [|intros; apply Hf; lia|lia|lia].
    rewrite Z2Nat.id, Z.sub_diag by lia. reflexivity.
  - rewrite run_scan_all; [|intros; apply Hf; lia|lia|lia]. cbv zeta.
    destruct (Z.leb_spec (left - Z.of_nat n) 0); [lia|reflexivity].
Qed.

(** A scan that starts shortly before the first run. *)
Lemma run_scan_before (f d : Z) (n : nat) :
  is_run need fr f -> (forall g, d <= g < f -> ~ is_run need fr g) -> d <= f < d + Z.of_nat n ->
  run_scan need fr n d None need
  = if f + need <=? d + Z.of_nat n then (Some f, (Some f, 0))
    else (None, (Some f, need - (d + Z.of_nat n - f))).
Proof.
  intros Hf Hm Hd. replace n with (Z.to_nat (f - d) + (n - Z.to_nat (f - d)))%nat at 1 by lia.
  rewrite run_scan_app.
  pose proof (run_scan_spec need fr Hneed (Z.to_nat (f - d)) d d None need) as R.
  specialize (R (scan_state_init need fr Hneed d)). rewrite Z2Nat.id in * by lia.
  replace (d + (f - d)) with f in * by lia.
  destruct (run_scan need fr (Z.to_nat (f - d)) d None need) as [[x|] [st left]].
  { destruct R as (Rx & ? & ? & _). exfalso. apply (Hm x); [lia|exact Rx]. }
  destruct R as (_ & _ & _ & R). destruct st as [a|].
  { destruct R as (Ha & _ & Hu). exfalso. apply (Hm a); [lia|]. intros u Hr.
    destruct (Z.lt_ge_cases u f); [apply Hu; lia|apply Hf; lia]. }
  destruct R as [-> _]. rewrite run_scan_open; [|lia|lia|intros; apply Hf; lia]. cbv zeta. cbn [default].
  rewrite Nat2Z.inj_sub, Z2Nat.id by lia.
  destruct (Z.leb_spec need (Z.of_nat n - (f - d))), (Z.leb_spec (f + need) (d + Z.of_nat n));
    try lia; [reflexivity|]. do 2 f_equal. lia.
Qed.
End Reference.

(** ** Blocks of the map *)

(** No word without free units directly follows a free unit. *)
Definition no_zero_gap (m : list (list Z)) : Prop :=
  forall i b k, m !! i = Some b -> b !! k = Some 0 ->
    unit_free m (8192 * Z.of_nat i + 32 * Z.of_nat k - 1) = false.

Lemma block_reads (m : list (list Z)) (i off : nat) (b : list Z) :
  map_wf m -> m !! i = Some b ->
  reads (unit_free m) (8192 * Z.of_nat i + 32 * Z.of_nat off) (drop off b).
Proof.
  intros W Em k w E. rewrite lookup_drop in E.
  destruct (Forall_lookup_1 _ _ _ _ W Em) as [Hl HF].
  split; [eapply Forall_lookup_1; eauto|]. intros j Hj.
  apply lookup_lt_Some in E as Hk. rewrite Hl in Hk. unfold MAP_WORDS in Hk.
  unfold unit_free. destruct (Z.leb_spec 0 (8192 * Z.of_nat i + 32 * Z.of_nat off
    + 32 * Z.of_nat k + (31 - j))); [|lia]. cbn [andb]. unfold free_bit.
  replace (Z.to_nat _) with i by dlia. rewrite Em.
  replace (Z.to_nat _) with (off + k)%nat by dlia. rewrite E. f_equal. dlia.
Qed.

Lemma block_no_gap (m : list (list Z)) (i off : nat) (b : list Z) (st : option Z) :
  no_zero_gap m -> m !! i = Some b ->
  no_gap (unit_free m) (8192 * Z.of_nat i + 32 * Z.of_nat off) st (drop off b).
Proof.
  intros G Em k E. rewrite lookup_drop in E. left. rewrite <- (G i b (off + k)%nat Em E).
  f_equal. lia.
Qed.

(** Units from [lo] up to [hi] have been taken from [m]. *)
Definition cleared (lo hi : Z) (m m' : list (list Z)) : Prop :=
  map_wf m' /\ length m' = length m /\
  forall u, 0 <= u -> free_bit m' u = negb ((lo <=? u) && (u <? hi)) && free_bit m u.

Lemma cleared_none (d : Z) (m : list (list Z)) : map_wf m -> cleared d d m m.
Proof.
  intros W. split; [exact W|]. split; [reflexivity|]. intros u Hu.
  destruct (Z.leb_spec d u), (Z.ltb_spec u d); try lia; reflexivity.
Qed.

Lemma free_bit_insert (m : list (list Z)) (i : nat) (b : list Z) (u : Z) :
  0 <= u -> (i < length m)%nat ->
  free_bit (<[i := b]> m) u
  = if u / 8192 =? Z.of_nat i
    then match b !! Z.to_nat (u mod 8192 / 32) with
         | Some w => Z.testbit w (31 - u mod 32) | None => false end
    else free_bit m u.
Proof.
  intros Hu Hi. unfold free_bit. destruct (Z.eqb_spec (u / 8192) (Z.of_nat i)) as [E|E].
  - rewrite E, Nat2Z.id, list_lookup_insert_eq by exact Hi. reflexivity.
  - rewrite list_lookup_insert_ne; [reflexivity|]. intros ->. apply E. rewrite Z2Nat.id; dlia.
Qed.

(** One block: the words from [off] on are replaced by [ws'], cleared up to [hi]. *)
Lemma cleared_block (m mm : list (list Z)) (i off : nat) (buf ws' : list Z) (need lo : Z)
    (stop : option Z) :
  map_wf m -> m !! i = Some buf -> (off < MAP_WORDS)%nat ->
  (let d := 8192 * Z.of_nat i + 32 * Z.of_nat off in
   lo <= d -> off = 0%nat \/ lo = d -> cleared lo d m mm ->
   words_after true need d stop (drop off buf) ws' ->
   (forall f, stop = Some f -> d < f + need <= 8192 * (Z.of_nat i + 1)) ->
   cleared lo (scan_end need stop (8192 * (Z.of_nat i + 1))) m (<[i := take off buf ++ ws']> mm)).
Proof.
  intros W Em Ho d Hlo Hd (Wm & Lm & Cm) [Lw Hw] Hs.
  destruct (Forall_lookup_1 _ _ _ _ W Em) as [Lb Fb]. unfold MAP_WORDS in Ho.
  assert (Li : (i < length mm)%nat) by (rewrite Lm; eapply lookup_lt_Some, Em).
  assert (He : d < scan_end need stop (8192 * (Z.of_nat i + 1)) <= 8192 * (Z.of_nat i + 1)).
  { unfold scan_end. destruct stop as [f|]; [now apply Hs|]. unfold d. lia. }
  split; [|split; [now rewrite length_insert|]].
  - apply Forall_insert; [exact Wm|]. apply take_words_wf; [now split|exact Lw|].
    apply Forall_lookup_2. intros k w' E.
    assert (Hk : (k < length (drop off buf))%nat) by (rewrite <- Lw; eapply lookup_lt_Some, E).
    apply lookup_lt_is_Some_2 in Hk as [w Ew]. destruct (Hw k w Ew) as (x & Ex & Rx & _).
    congruence.
  - intros u Hu. rewrite free_bit_insert by assumption.
    destruct (Z.eqb_spec (u / 8192) (Z.of_nat i)) as [Eu|Eu].
    + unfold free_bit. rewrite Eu, Nat2Z.id, Em.
      destruct (Nat.lt_ge_cases (Z.to_nat (u mod 8192 / 32)) off) as [Hlt|Hge].
      * rewrite lookup_app_l, lookup_take_lt by (rewrite ?length_take, ?Lb; unfold MAP_WORDS; lia).
        destruct Hd as [-> | ->]; [lia|]. destruct (Z.leb_spec d u); [unfold d in *; dlia|reflexivity].
      * rewrite lookup_app_r by (rewrite length_take; lia).
        rewrite length_take, Lb, Nat.min_l by (unfold MAP_WORDS; lia).
        set (k := (Z.to_nat (u mod 8192 / 32) - off)%nat).
        assert (Hk : is_Some (drop off buf !! k)).
        { apply lookup_lt_is_Some_2. rewrite length_drop, Lb. unfold MAP_WORDS, k. dlia. }
        destruct Hk as [w Ew]. destruct (Hw k w Ew) as (w' & -> & _ & Bw).
        rewrite lookup_drop in Ew. replace (off + k)%nat with (Z.to_nat (u mod 8192 / 32)) in Ew
          by (unfold k; lia). rewrite Ew, Bw by dlia. cbn [andb].
        assert (Eq : d + 32 * Z.of_nat k + (31 - (31 - u mod 32)) = u)
          by (unfold d, k in *; dlia).
        destruct (Z.leb_spec lo u); [|unfold d, k in *; dlia]. cbn [andb].
        unfold seen_to, scan_end in *. rewrite Eq. destruct stop as [f|].
        { now destruct (u <? f + need). }
        { destruct (Z.ltb_spec u (8192 * (Z.of_nat i + 1))); [reflexivity|dlia]. }
    + rewrite Cm by exact Hu. f_equal. f_equal.
      destruct (Z.leb_spec lo u), (Z.ltb_spec u d),
        (Z.ltb_spec u (scan_end need stop (8192 * (Z.of_nat i + 1)))); try reflexivity; exfalso;
        try lia; unfold d in *; dlia.
Qed.

(** ** The loops *)

(** The map after the buffers have been written. *)
Definition put (l : buflist) (m : list (list Z)) : list (list Z) :=
  foldl (fun m ib => <[ib.1 := ib.2]> m) m l.

Lemma put_snoc (l : buflist) (i : nat) (b : list Z) (m : list (list Z)) :
  put (l ++ [(i, b)]) m = <[i := b]> (put l m).
Proof. unfold put. now rewrite foldl_app. Qed.

Lemma write_bufs_ok (l : buflist) (s : bfs) :
  f_wio s = [] -> write_bufs l s = Done 0 (set_map (put l (f_map s)) s).
Proof.
  revert s. induction l as [|[i b] l IH]; intros s Hw; cbn [write_bufs].
  { cbn. now destruct s. }
  unfold mbind, M_bind at 1. unfold map_write at 1, mbind, M_bind, gets, id. rewrite Hw. cbn [transfer].
  cbn. rewrite IH by (destruct s; reflexivity). destruct s. cbn in Hw. subst. reflexivity.
Qed.

Lemma map_read_ok (s : bfs) (i : nat) (b : list Z) :
  f_rio s = [] -> f_map s !! i = Some b -> map_read i s = Done (Some b) s.
Proof.
  intros Hr Em. unfold map_read, mbind, M_bind, gets, id. rewrite Hr. cbn [transfer].
  cbn. rewrite Em. cbn. destruct s. cbn in Hr. now subst.
Qed.

Section Loops.
Context (c : bconf) (check_system : bool) (need : Z) (Hneed : 0 < need) (m : list (list Z)).
Context (Hwf : map_wf m) (Hgap : no_zero_gap m).
Context (Hfr : forall u, unit_free m u = true -> uint_range 32 u /\
  (check_system = true -> c_system c <= dau_bn (c_geom c) u) /\ dau_bn (c_geom c) u <= c_capacity c).

(** The words of block [i] from word [off] on. *)
Lemma block_words (am : bool) (i off : nat) (buf : list Z) (base : Z) (p : prealloc)
    (st : option Z) (left : Z) :
  m !! i = Some buf -> (off < MAP_WORDS)%nat ->
  (let d := 8192 * Z.of_nat i + 32 * Z.of_nat off in
   tracks (c_geom c) p st left -> scan_state need (unit_free m) base d st left ->
   words_agree c am need (unit_free m) d (drop off buf) p false
     (prealloc_words c check_system am need (Z.of_nat i + 1) (drop off buf) p false)
     (run_scan need (unit_free m) (32 * length (drop off buf)) d st left)).
Proof.
  intros Em Ho d Ht HS.
  apply (prealloc_words_spec c check_system am need (unit_free m) Hneed Hfr
    (Z.of_nat i + 1) base (drop off buf) d p st left false); auto.
  - destruct (Forall_lookup_1 _ _ _ _ Hwf Em) as [Lb _]. unfold d, word_base.
    rewrite length_drop, Lb. unfold MAP_WORDS in *. lia.
  - now apply block_reads.
  - now apply block_no_gap.
Qed.

Lemma block_length (i : nat) (buf : list Z) :
  m !! i = Some buf -> (32 * length buf)%nat = Z.to_nat 8192.
Proof.
  intros Em. destruct (Forall_lookup_1 _ _ _ _ Hwf Em) as [-> _]. unfold MAP_WORDS. lia.
Qed.

(** The search: nothing changes, and the result is that of the reference. *)
Lemma search_loop (n blk : nat) (bufs : buflist) (p : prealloc) (st : option Z) (left : Z) (s : bfs) :
  f_map s = m -> f_rio s = [] -> (blk + n = length m)%nat -> tracks (c_geom c) p st left ->
  scan_state need (unit_free m) 0 (8192 * Z.of_nat blk) st left ->
  exists e p', prealloc_loop n c check_system false need blk 0 bufs p s = Done (e, p') s /\
    pa_fsck p' = pa_fsck p /\
    match run_scan need (unit_free m) (Z.to_nat (8192 * Z.of_nat n)) (8192 * Z.of_nat blk) st left with
    | (Some f, _) => e = 0 /\ pa_first_dau p' = f
    | (None, _) => e = ENOSPC
    end.
Proof.
  revert blk bufs p st left. induction n as [|n IH]; intros blk bufs p st left Em Er Hl Ht HS.
  { exists ENOSPC, p. split; [reflexivity|]. split; reflexivity. }
  destruct (lookup_lt_is_Some_2 m blk) as [buf Eb]; [lia|].
  cbn [prealloc_loop]. unfold mbind at 1, M_bind at 1.
  rewrite (map_read_ok s blk buf Er) by now rewrite Em.
  pose proof (block_words false blk 0 buf 0 p st left Eb ltac:(unfold MAP_WORDS; lia)) as A.
  cbv zeta in A. change (Z.of_nat 0) with 0 in A. rewrite Z.mul_0_r, Z.add_0_r in A.
  specialize (A Ht HS). rewrite drop_0, (block_length blk buf Eb) in A.
  rewrite drop_0.
  pose proof (run_scan_spec need (unit_free m) Hneed (Z.to_nat 8192) 0 _ st left HS) as R.
  replace (Z.to_nat (8192 * Z.of_nat (S n))) with (Z.to_nat 8192 + Z.to_nat (8192 * Z.of_nat n))%nat by lia.
  rewrite run_scan_app. destruct (prealloc_words _ _ _ _ _ _ _ _) as [[[done ws] p'] t].
  destruct (run_scan _ _ (Z.to_nat 8192) _ _ _) as [stop [st' left']].
  destruct A as (-> & A2 & A3 & _). destruct stop as [f|].
  - destruct R as (_ & _ & _ & -> & _). rewrite bool_decide_eq_true_2 by eauto.
    exists 0, p'. split; [reflexivity|]. split; [exact A3|]. split; [reflexivity|]. apply A2.
  - rewrite bool_decide_eq_false_2 by (intros [? [=]]). rewrite Z2Nat.id in * by lia.
    replace (8192 * Z.of_nat blk + 8192) with (8192 * Z.of_nat (S blk)) in * by lia.
    edestruct (IH (S blk)) as (e & q & E & F & X); [exact Em|exact Er|lia|exact A2|exact R|].
    exists e, q. split; [exact E|]. split; [congruence|exact X].
Qed.

(** ** The pass that clears the bits *)

Lemma finish_block (s : bfs) (bufs : buflist) (blk off : nat) (buf ws : list Z) :
  f_wio s = [] ->
  write_bufs (bufs ++ [(blk, take off buf ++ ws)]) s
  = Done 0 (set_map (<[blk := take off buf ++ ws]> (put bufs (f_map s))) s).
Proof. intros Hw. now rewrite write_bufs_ok, put_snoc. Qed.

(** After the block in which the run begins: its units are free up to the end. *)
Lemma set_loop (f lo : Z) (n blk : nat) (bufs : buflist) (p : prealloc) (left : Z) (s : bfs) :
  f_map s = m -> f_rio s = [] -> f_wio s = [] -> (blk + n = length m)%nat ->
  is_run need (unit_free m) f -> f + need <= 8192 * Z.of_nat (length m) ->
  lo <= f < 8192 * Z.of_nat blk -> 8192 * Z.of_nat blk < f + need ->
  left = need - (8192 * Z.of_nat blk - f) -> tracks (c_geom c) p (Some f) left ->
  cleared lo (8192 * Z.of_nat blk) m (put bufs m) ->
  exists p' m', prealloc_loop n c check_system true need blk 0 bufs p s = Done (0, p') (set_map m' s) /\
    cleared lo (f + need) m m' /\ pa_fsck p' = pa_fsck p /\
    exists left', tracks (c_geom c) p' (Some f) left'.
Proof.
  intros Em Er Ew. revert blk bufs p left.
  induction n as [|n IH]; intros blk bufs p left Hl Hf He Hlo Hb El Ht Hc; [lia|].
  destruct (lookup_lt_is_Some_2 m blk) as [buf Eb]; [lia|].
  assert (HS : scan_state need (unit_free m) f (8192 * Z.of_nat blk) (Some f) left).
  { split; [lia|]. split; [lia|]. cbn. split; [lia|]. split; [lia|]. split; [lia|].
    intros u Hu. apply Hf. lia. }
  cbn [prealloc_loop]. unfold mbind at 1, M_bind at 1.
  rewrite (map_read_ok s blk buf Er) by now rewrite Em. rewrite drop_0.
  pose proof (block_words true blk 0 buf f p (Some f) left Eb ltac:(unfold MAP_WORDS; lia)) as A.
  cbv zeta in A. change (Z.of_nat 0) with 0 in A. rewrite Z.mul_0_r, Z.add_0_r in A.
  specialize (A Ht HS). rewrite drop_0, (block_length blk buf Eb) in A.
  rewrite run_scan_open in A; [|lia|lia|intros u Hu; apply Hf; lia].
  cbv zeta in A. cbn [default] in A. rewrite Z2Nat.id in A by lia.
  destruct (prealloc_words _ _ _ _ _ _ _ _) as [[[done ws] p'] t].
  pose proof (cleared_block m (put bufs m) blk 0 buf ws need lo) as CB.
  change (Z.of_nat 0) with 0 in CB. rewrite Z.mul_0_r, Z.add_0_r, drop_0 in CB.
  destruct (Z.leb_spec left 8192) as [Hle|Hgt]; destruct A as (-> & A2 & A3 & A4 & A5).
  - rewrite bool_decide_eq_true_2 by eauto. rewrite A5 by (cbn; intros u Hu; apply Hf; lia).
    exists p', (<[blk := take 0 buf ++ ws]> (put bufs m)).
    unfold mbind, M_bind. rewrite finish_block, Em by exact Ew. split; [reflexivity|].
    split; [|split; [exact A3|eauto]].
    apply (CB (Some f)); auto; try lia; [unfold MAP_WORDS; lia|]. intros x [= <-]. lia.
  - rewrite bool_decide_eq_false_2 by (intros [? [=]]).
    rewrite A5 by (intros u Hu; apply Hf; cbn [scan_end] in Hu; pose proof (block_length blk buf Eb); lia).
    destruct A2 as [A2 A2']. cbn in A2'. rewrite (proj1 A2').
    edestruct (IH (S blk)) as (q & m' & E & C & F & X); [lia|exact Hf|exact He|lia|lia|reflexivity| | |].
    3: { exists q, m'. split; [exact E|]. split; [exact C|]. split; [congruence|exact X]. }
    + split; [lia|exact A2'].
    + rewrite put_snoc. replace (8192 * Z.of_nat (S blk)) with (8192 * (Z.of_nat blk + 1)) by lia.
      apply (CB None); auto; try lia; [unfold MAP_WORDS; lia|]. intros x [=].
Qed.

(** From the word in which the first run begins. *)
Lemma set_pass (f : Z) (blk off : nat) (p : prealloc) (s : bfs) :
  f_map s = m -> f_rio s = [] -> f_wio s = [] -> (off < MAP_WORDS)%nat ->
  is_run need (unit_free m) f -> f + need <= 8192 * Z.of_nat (length m) ->
  (let d := 8192 * Z.of_nat blk + 32 * Z.of_nat off in
   (forall g, d <= g < f -> ~ is_run need (unit_free m) g) -> d <= f < d + 32 ->
   tracks (c_geom c) p None need ->
   exists p' m',
     prealloc_loop (length m - blk) c check_system true need blk off [] p s = Done (0, p') (set_map m' s) /\
     cleared d (f + need) m m' /\ pa_fsck p' = pa_fsck p /\
     exists left', tracks (c_geom c) p' (Some f) left').
Proof.
  intros Em Er Ew Ho Hf He d Hm Hd Ht. unfold MAP_WORDS in Ho.
  assert (Hbm : (blk < length m)%nat) by (unfold d in *; lia).
  destruct (lookup_lt_is_Some_2 m blk Hbm) as [buf Eb].
  destruct (length m - blk)%nat as [|n] eqn:En; [lia|].
  cbn [prealloc_loop]. unfold mbind at 1, M_bind at 1.
  rewrite (map_read_ok s blk buf Er) by now rewrite Em.
  assert (HL : 32 * Z.of_nat (length (drop off buf)) = 8192 * (Z.of_nat blk + 1) - d).
  { pose proof (block_length blk buf Eb). rewrite length_drop. unfold d. lia. }
  pose proof (block_words true blk off buf d p None need Eb Ho Ht (scan_state_init need _ Hneed d)) as A.
  fold d in A. rewrite (run_scan_before need _ Hneed f) in A by (auto; unfold d in *; lia).
  rewrite Nat2Z.inj_mul in A. change (Z.of_nat 32) with 32 in A. rewrite HL in A.
  replace (d + (8192 * (Z.of_nat blk + 1) - d)) with (8192 * (Z.of_nat blk + 1)) in A by lia.
  destruct (prealloc_words _ _ _ _ _ _ _ _) as [[[done ws] p'] t].
  assert (EH : (if t then [] else []) ++ [(blk, take off buf ++ ws)] = [(blk, take off buf ++ ws)])
    by now destruct t.
  pose proof (cleared_block m m blk off buf ws need d) as CB.
  destruct (Z.leb_spec (f + need) (8192 * (Z.of_nat blk + 1))) as [Hle|Hgt];
    destruct A as (-> & A2 & A3 & A4 & _).
  - rewrite bool_decide_eq_true_2 by eauto. rewrite EH.
    exists p', (<[blk := take off buf ++ ws]> m). unfold mbind, M_bind.
    pose proof (finish_block s [] blk off buf ws Ew) as W. cbn [app put foldl] in W.
    rewrite W, Em. split; [reflexivity|].
    split; [|split; [exact A3|eauto]].
    apply (CB (Some f)); auto using cleared_none; [reflexivity|]. intros x [= <-]. fold d. lia.
  - rewrite bool_decide_eq_false_2 by (intros [? [=]]). rewrite EH.
    destruct A2 as [A2 A2']. cbn in A2'. rewrite (proj1 A2').
    edestruct (set_loop f d n (S blk) [(blk, take off buf ++ ws)] p') as (q & m' & E & C & F & X);
      [exact Em|exact Er|exact Ew|lia|exact Hf|exact He|unfold d in *; lia|lia|reflexivity| | |].
    3: { exists q, m'. split; [exact E|]. split; [exact C|]. split; [congruence|exact X]. }
    + split; [|exact A2']. rewrite A2. unfold d in *. lia.
    + change [(blk, take off buf ++ ws)] with ([] ++ [(blk, take off buf ++ ws)]). rewrite put_snoc.
      replace (8192 * Z.of_nat (S blk)) with (8192 * (Z.of_nat blk + 1)) by lia.
      apply (CB None); auto using cleared_none; [reflexivity|]. intros x [=].
Qed.
End Loops.

(** ** The request *)

Definition first_run (need : Z) (fr : Z -> bool) (f : Z) : Prop :=
  is_run need fr f /\ forall g, g < f -> ~ is_run need fr g.

(** The partition when a request is processed: no I/O error is coming, no unit of the
    system area is free, and no word without free units directly follows a free unit. *)
Record prealloc_ready (c : bconf) (check_system : bool) (s : bfs) : Prop := {
  pr_map : map_ok c (f_map s);
  pr_system : check_system = true ->
    forall u, u ∈ map_free 0 (f_map s) -> c_system c <= dau_bn (c_geom c) u;
  pr_reads : f_rio s = [];
  pr_writes : f_wio s = [];
  pr_gap : no_zero_gap (f_map s)
}.

Section Request.
Context (c : bconf) (check_system : bool) (need : Z) (s : bfs).
Context (HC : conf_ok c) (HR : prealloc_ready c check_system s) (Hneed : 0 < need).
Abbreviation m := (f_map s).
Abbreviation fr := (unit_free (f_map s)).

Lemma ready_free (u : Z) : fr u = true <-> u ∈ map_free 0 m.
Proof.
  pose proof (mo_wf c m (pr_map _ _ _ HR)) as W. unfold unit_free. rewrite andb_true_iff, Z.leb_le.
  split; [intros [H1 H2]; now apply map_free_elem|]. intros H.
  pose proof (map_free_range 0 m u W H). split; [lia|]. apply map_free_elem; auto; lia.
Qed.

Lemma ready_unit (u : Z) :
  fr u = true -> 0 <= u < c_dau_size c /\ u < 8192 * Z.of_nat (length m).
Proof.
  intros H%ready_free. pose proof (map_free_range 0 m u (mo_wf c m (pr_map _ _ _ HR)) H).
  pose proof (free_units_range c m u (pr_map _ _ _ HR) H). lia.
Qed.

Lemma ready_range (u : Z) :
  fr u = true -> uint_range 32 u /\
  (check_system = true -> c_system c <= dau_bn (c_geom c) u) /\ dau_bn (c_geom c) u <= c_capacity c.
Proof.
  intros H. pose proof (ready_unit u H). pose proof (co_size c HC). apply ready_free in H.
  split; [unfold uint_range; lia|]. split; [intros E; now apply (pr_system _ _ _ HR)|].
  now apply (mo_units c m (pr_map _ _ _ HR)).
Qed.

(** The whole map has been searched. *)
Lemma search_all :
  match run_scan need fr (Z.to_nat (8192 * Z.of_nat (length m))) 0 None need with
  | (Some f, _) => first_run need fr f
  | (None, _) => forall g, ~ is_run need fr g
  end.
Proof.
  pose proof (run_scan_spec need fr Hneed (Z.to_nat (8192 * Z.of_nat (length m))) 0 0 None need
    (scan_state_init need fr Hneed 0)) as R.
  assert (Hneg : forall g, g < 0 -> ~ is_run need fr g).
  { intros g Hg Hr. specialize (Hr g ltac:(lia)). apply ready_unit in Hr. lia. }
  destruct (run_scan _ _ _ _ _ _) as [[f|] [st left]].
  - destruct R as (R1 & R2 & _ & _ & R5). split; [exact R1|]. intros g Hg.
    destruct (Z.lt_ge_cases g 0); [now apply Hneg|apply R5; lia].
  - rewrite Z.add_0_l, Z2Nat.id in R by lia. destruct R as (_ & R2 & R3 & R4). intros g Hr.
    destruct (Z.lt_ge_cases g 0) as [Hg|Hg]; [now apply (Hneg g)|].
    destruct (Z.lt_ge_cases g (default (8192 * Z.of_nat (length m)) st)) as [Hlt|Hge];
      [now apply (R3 g)|].
    pose proof (Hr (Z.max g (8192 * Z.of_nat (length m)))) as Hu. destruct st as [a|]; cbn in Hge, R4;
      specialize (Hu ltac:(lia)); apply ready_unit in Hu; lia.
Qed.

Lemma run_fits (f : Z) : is_run need fr f -> 0 <= f /\ f + need <= c_dau_size c /\
  f + need <= 8192 * Z.of_nat (length m).
Proof.
  intros H. pose proof (ready_unit f (H f ltac:(lia))).
  pose proof (ready_unit _ (H (f + need - 1) ltac:(lia))). lia.
Qed.

(** The second pass starts at the word in which the run begins. *)
Lemma second_pass (f : Z) (p : prealloc) :
  first_run need fr f -> tracks (c_geom c) p None need ->
  (let off := Z.shiftr f NBBYSHIFT in
   exists p' m',
     prealloc_loop (length m - Z.to_nat (Z.shiftr off SAM_DEV_BSHIFT)) c check_system true need
       (Z.to_nat (Z.shiftr off SAM_DEV_BSHIFT))
       (Z.to_nat (Z.shiftr (Z.land off SAM_LOG_WMASK) NBPWSHIFT)) [] p s = Done (0, p') (set_map m' s) /\
     cleared (32 * (f / 32)) (f + need) m m' /\ pa_fsck p' = pa_fsck p /\
     exists left', tracks (c_geom c) p' (Some f) left').
Proof.
  intros [Hf Hm] Ht off. destruct (run_fits f Hf) as (F1 & F2 & F3). pose proof (co_size c HC).
  destruct (bit_place f) as (E1 & E2 & _); [lia|].
  rewrite uwrap_id in E1, E2 by
    (unfold uint_range, NBBYSHIFT; rewrite Z.shiftr_div_pow2 by lia; change (2 ^ 3) with 8; dlia).
  fold off in E1, E2. rewrite E1, E2.
  pose proof (set_pass c check_system need Hneed m (mo_wf c m (pr_map _ _ _ HR)) (pr_gap _ _ _ HR)
    ready_range f (Z.to_nat (f / 8192)) (word_of f) p s eq_refl (pr_reads _ _ _ HR)
    (pr_writes _ _ _ HR)) as S. cbv zeta in S.
  replace (8192 * Z.of_nat (Z.to_nat (f / 8192)) + 32 * Z.of_nat (word_of f)) with (32 * (f / 32)) in S
    by (unfold word_of; dlia).
  apply S; auto; try dlia; [unfold word_of, MAP_WORDS; dlia|]. intros g Hg. apply Hm. lia.
Qed.
End Request.

(** C26. On a map in which no word without free units directly follows a free unit (such a
    word is skipped, and the run goes on behind it: [prealloc_run_includes_used_units]),
    and without I/O errors: a request for [count] consecutive units is answered by the first run of [count]
    free units of the map: the unit and block number of its start are returned, its bits
    are cleared together with the free units before it in the word where it begins, and
    nothing else in the map changes; the request is refused with ENOSPC, and changes
    nothing, exactly when there is no such run. *)
Theorem sam_process_prealloc_req_first_fit (c : bconf) (check_system : bool) (count : Z) (s : bfs) :
  conf_ok c -> prealloc_ready c check_system s -> 0 < count ->
  wp (sam_process_prealloc_req c check_system count) (fun r s' =>
    pa_fsck r.2 = false /\
    ((r.1 = ENOSPC /\ s' = s /\ forall g, ~ is_run count (unit_free (f_map s)) g) \/
     (r.1 = 0 /\ exists f, first_run count (unit_free (f_map s)) f /\
        pa_first_dau r.2 = f /\ pa_first_bn r.2 = u32 (dau_bn (c_geom c) f) /\
        cleared (32 * (f / 32)) (f + count) (f_map s) (f_map s') /\
        f_space s' = sub_floor (f_space s) (unit_blks c * count) /\
        f_dau_next s' = f_dau_next s /\ f_pools s' = f_pools s))) s.
Proof.
  intros HC HR Hn. unfold sam_process_prealloc_req, sam_get_prealloc_daus.
  pose proof (search_all c check_system count s HR Hn) as SA.
  destruct (search_loop c check_system count Hn (f_map s) (mo_wf c _ (pr_map _ _ _ HR)) (pr_gap _ _ _ HR)
    (ready_range c check_system s HC HR) (length (f_map s)) 0 []
    (mk_prealloc count false 0 0 0 false) None count s) as (e & p1 & E1 & K1 & R1);
    [reflexivity|apply HR|lia|now split|apply scan_state_init; lia|].
  apply wp_bind, wp_bind, wp_gets. cbn [pa_count pa_first_bn pa_first_dau pa_next pa_fsck].
  rewrite Nat.sub_0_r. unfold wp at 1. rewrite E1. change (8192 * Z.of_nat 0) with 0 in R1.
  destruct (run_scan _ _ _ _ _ _) as [[f|] x].
  2: { rewrite R1. cbn. split; [exact K1|]. left. auto. }
  destruct R1 as [-> Ef]. cbn [Z.eqb negb]. rewrite Ef.
  destruct (run_fits c check_system count s HR Hn f (proj1 SA)) as (F1 & F2 & F3).
  destruct (second_pass c check_system count s HC HR Hn f
    (mk_prealloc count false 0 f (pa_next p1) (pa_fsck p1)) SA) as (p3 & m' & E3 & C3 & K3 & l & _ & T);
    [now split|].
  apply wp_bind, wp_bind, wp_gets. unfold wp at 1.
  cbn [pa_count pa_first_bn pa_first_dau pa_next pa_fsck]. rewrite E3. cbn [Z.eqb].
  destruct (sam_set_sblk_spec c count (f_dau_next (id (set_map m' s))) (set_map m' s) HC) as (FR & N & SP); [lia|].
  apply wp_bind, wp_bind, wp_gets, wp_modify, wp_ret. cbn [fst snd].
  split; [rewrite K3; exact K1|]. right. split; [reflexivity|]. exists f.
  split; [exact SA|]. split; [apply T|]. split; [apply T|].
  destruct FR as [Fp _ _ _ _ Fm _ _ _ _ _].
  split; [rewrite Fm; exact C3|split; [exact SP|split; [exact N|exact Fp]]].
Qed.

(** ** Maps that break the search *)

(** Units 24 to 31 are free, 32 to 63 are in use, 64 to 95 are free. *)
Definition gap_map : list (list Z) := [0x000000ff :: 0 :: 0xffffffff :: replicate 253 0].
(** Units 0, 1, 3 and 24 to 63 are free. *)
Definition scattered_map : list (list Z) := [0xd00000ff :: 0xffffffff :: replicate 254 0].

(** A word without free units inside a "run" is skipped without starting over: a
    request for 16 units is granted at unit 24 although 32 is in use by another file. *)
Theorem prealloc_run_includes_used_units :
  exists s' p, sam_process_prealloc_req (demo_conf DT_DATA) false 16
      (set_map gap_map (demo_fs DT_DATA)) = Done (0, p) s' /\
    pa_first_dau p = 24 /\ pa_fsck p = false /\
    exists u, 24 <= u < 24 + 16 /\ free_bit gap_map u = false.
Proof.
  eexists _, _. split; [vm_compute; reflexivity|]. split; [reflexivity|]. split; [reflexivity|].
  exists 32. split; [lia|vm_compute; reflexivity].
Qed.

(** Free units before the run in the word where it begins are lost: they are cleared
    with it, belong to no file and are not counted as used. *)
Theorem prealloc_loses_units_before_run :
  exists s' p, sam_process_prealloc_req (demo_conf DT_DATA) false 12
      (set_map scattered_map (demo_fs DT_DATA)) = Done (0, p) s' /\
    pa_first_dau p = 24 /\
    f_space s' = f_space (demo_fs DT_DATA) - unit_blks (demo_conf DT_DATA) * 12 /\
    forall u, u ∈ [0; 1; 3] -> free_bit scattered_map u = true /\ free_bit (f_map s') u = false.
Proof.
  eexists _, _. split; [vm_compute; reflexivity|]. split; [reflexivity|].
  split; [vm_compute; reflexivity|]. intros u Hu. rewrite !elem_of_cons, elem_of_nil in Hu.
  destruct Hu as [->|[->|[->|[]]]]; split; vm_compute; reflexivity.
Qed.

(** ** Instance *)

Lemma demo_ready : prealloc_ready (demo_conf DT_DATA) true (demo_fs DT_DATA).
Proof.
  pose proof (mt_map _ _ _ _ (demo_mounted DT_DATA)) as Mo.
  split; [exact Mo| |reflexivity|reflexivity|].
  - intros _ u Hu. now apply (demo_free_system DT_DATA).
  - intros [|[|i]] b k Eb Ek; try discriminate. injection Eb as <-. exfalso.
    destruct k as [|k]; [discriminate|]. cbn in Ek. apply (lookup_replicate_1 255) in Ek as [E _].
    discriminate.
Qed.

Lemma sam_process_prealloc_req_first_fit_witness :
  wp (sam_process_prealloc_req (demo_conf DT_DATA) true 40) (fun r s' =>
    pa_fsck r.2 = false /\
    ((r.1 = ENOSPC /\ s' = demo_fs DT_DATA /\
        forall g, ~ is_run 40 (unit_free (f_map (demo_fs DT_DATA))) g) \/
     (r.1 = 0 /\ exists f, first_run 40 (unit_free (f_map (demo_fs DT_DATA))) f /\
        pa_first_dau r.2 = f /\ pa_first_bn r.2 = u32 (dau_bn demo_geom f) /\
        cleared (32 * (f / 32)) (f + 40) (f_map (demo_fs DT_DATA)) (f_map s') /\
        f_space s' = sub_floor (f_space (demo_fs DT_DATA)) (unit_blks (demo_conf DT_DATA) * 40) /\
        f_dau_next s' = f_dau_next (demo_fs DT_DATA) /\
        f_pools s' = f_pools (demo_fs DT_DATA)))) (demo_fs DT_DATA).
Proof.
  apply (sam_process_prealloc_req_first_fit (demo_conf DT_DATA) true 40);
    [apply demo_conf_ok|exact demo_ready|lia].
Defined.
