(* ===== verification/AllocLinks.v ===== *)
(** * Allocation over several partitions

    The partitions of a file system on which blocks are allocated form two linked lists,
    one of data and one of metadata devices. This file models the lists
    ([sam_build_allocation_links] of src/src/fs/samfs/mount.c and
    [sam_remove_from_allocation_links] of block.c), the choice of the partition for a new
    file ([sam_set_unit] of create.c) and the allocation of a block ([sam_alloc_block] of
    balloc.c), which goes round the list when a partition has no space. The pools, map
    and space of a partition are the state [bfs] of [BlockAlloc]. *)

From S2P Require Import Prelude Dau Bitmap BlockPool BlockScan Monad BlockAlloc.

(** Device states ([dstate_t]). *)
Inductive dstate : Type :=
  | DEV_ON | DEV_NOALLOC | DEV_RO | DEV_IDLE | DEV_UNAVAIL | DEV_OFF | DEV_DOWN.

#[export] Instance dstate_eq_dec : EqDecision dstate.
Proof. solve_decision. Defined.

(** Device type index: data or meta. *)
Inductive disk_type : Type := DD | MM.

#[export] Instance disk_type_eq_dec : EqDecision disk_type.
Proof. solve_decision. Defined.

Record per_dt (A : Type) : Type := mk_per_dt { at_dd : A; at_mm : A }.
Arguments mk_per_dt {A} _ _.
Arguments at_dd {A} _.
Arguments at_mm {A} _.

Definition dt_get {A : Type} (p : per_dt A) (t : disk_type) : A :=
  match t with DD => at_dd p | MM => at_mm p end.
Definition dt_set {A : Type} (p : per_dt A) (t : disk_type) (v : A) : per_dt A :=
  match t with DD => mk_per_dt v (at_mm p) | MM => mk_per_dt (at_dd p) v end.

(** Equipment types ([dtype_t]). *)
Module Equ.
Definition DT_CLASS_MASK : Z := 0xff00.
Definition DT_STRIPE_GROUP : Z := 0x180.
Definition DT_DATA : Z := 0x101.
Definition DT_META : Z := 0x102.
Definition DT_OBJECT_DISK : Z := 0x300.
Definition is_osd_group (a : Z) : bool := Z.land a DT_CLASS_MASK =? DT_OBJECT_DISK.
End Equ.

(** [struct samdent]. The pools, [busy], [modified], [next_dau] and [map_empty] are in
    [d_fs], with the superblock's counts of the partition. *)
Record samdent : Type := mk_samdent {
  d_type : Z;              (* part.pt_type *)
  d_state : dstate;        (* part.pt_state *)
  d_dt : disk_type;        (* dt *)
  d_num_group : Z;         (* num_group *)
  d_system : Z;            (* system *)
  d_next_ord : Z;          (* next_ord *)
  d_dk_unit : Z;           (* dk_unit *)
  d_alloc_link : bool;     (* alloc_link *)
  d_skip_ord : bool;       (* skip_ord *)
  d_conf : bconf;
  d_fs : bfs
}.

(** The fields of [sblk->eq[ord].fs] that the lists are built from. *)
Record sbord : Type := mk_sbord {
  e_type : Z; e_state : dstate; e_num_group : Z; e_system : Z
}.

(** The mount table. [m_fs] has [mt.fs_count] entries, [m_eq] [info.sb.fs_count]. *)
Record amount : Type := mk_amount {
  m_fs : list samdent;
  m_eq : list sbord;
  m_dk_start : per_dt Z;
  m_dk_max : per_dt Z;
  m_stripe : per_dt Z;        (* fi_stripe *)
  m_mismatched : bool;        (* fi_config1 & MC_MISMATCHED_GROUPS *)
  m_mm_count : Z;             (* mt.mm_count *)
  m_object_fs : bool;         (* SAM_IS_OBJECT_FS *)
  m_obj_pool : Z;             (* fi_obj_pool *)
  m_meta_small : bool;        (* SM_BLK(mp, MM) != LG_BLK(mp, LG) *)
  m_bn_shift : Z;
  m_thread : bool;            (* m_block.state == SAM_THR_EXIST *)
  m_no_blocks : Z
}.

(** The fields of the disk inode that allocation uses. *)
Record dinode : Type := mk_dinode {
  i_dir : bool;               (* S_ISDIR(mode) *)
  i_meta : bool;              (* status.b.meta *)
  i_sg : bool;                (* status.b.stripe_group *)
  i_stripe_group : Z;
  i_stripe_width : bool;      (* status.b.stripe_width *)
  i_stripe : Z;
  i_stride : Z;
  i_unit : Z;
  i_blocks : Z;
  i_on_large : bool           (* status.b.on_large *)
}.

(** ** Field updates *)

Definition set_links (num_group system : Z) (dt : disk_type) (st : dstate) (d : samdent) : samdent :=
  mk_samdent (d_type d) st dt num_group system (d_next_ord d) (d_dk_unit d) (d_alloc_link d)
    true (d_conf d) (d_fs d).
Definition set_next_ord (v : Z) (d : samdent) : samdent :=
  mk_samdent (d_type d) (d_state d) (d_dt d) (d_num_group d) (d_system d) v (d_dk_unit d)
    (d_alloc_link d) (d_skip_ord d) (d_conf d) (d_fs d).
Definition set_dk_unit (v : Z) (d : samdent) : samdent :=
  mk_samdent (d_type d) (d_state d) (d_dt d) (d_num_group d) (d_system d) (d_next_ord d) v
    (d_alloc_link d) (d_skip_ord d) (d_conf d) (d_fs d).
Definition set_linked (link skip : bool) (d : samdent) : samdent :=
  mk_samdent (d_type d) (d_state d) (d_dt d) (d_num_group d) (d_system d) (d_next_ord d)
    (d_dk_unit d) link skip (d_conf d) (d_fs d).
Definition set_dfs (v : bfs) (d : samdent) : samdent :=
  mk_samdent (d_type d) (d_state d) (d_dt d) (d_num_group d) (d_system d) (d_next_ord d)
    (d_dk_unit d) (d_alloc_link d) (d_skip_ord d) (d_conf d) v.

Definition set_mfs (v : list samdent) (m : amount) : amount :=
  mk_amount v (m_eq m) (m_dk_start m) (m_dk_max m) (m_stripe m) (m_mismatched m) (m_mm_count m)
    (m_object_fs m) (m_obj_pool m) (m_meta_small m) (m_bn_shift m) (m_thread m) (m_no_blocks m).
Definition set_dk_start (v : per_dt Z) (m : amount) : amount :=
  mk_amount (m_fs m) (m_eq m) v (m_dk_max m) (m_stripe m) (m_mismatched m) (m_mm_count m)
    (m_object_fs m) (m_obj_pool m) (m_meta_small m) (m_bn_shift m) (m_thread m) (m_no_blocks m).
Definition set_dk_max (v : per_dt Z) (m : amount) : amount :=
  mk_amount (m_fs m) (m_eq m) (m_dk_start m) v (m_stripe m) (m_mismatched m) (m_mm_count m)
    (m_object_fs m) (m_obj_pool m) (m_meta_small m) (m_bn_shift m) (m_thread m) (m_no_blocks m).
Definition set_mismatched (m : amount) : amount :=
  let s := m_stripe m in
  mk_amount (m_fs m) (m_eq m) (m_dk_start m) (m_dk_max m)
    (if 0 <? at_dd s then mk_per_dt 0 (at_mm s) else s) true (m_mm_count m)
    (m_object_fs m) (m_obj_pool m) (m_meta_small m) (m_bn_shift m) (m_thread m) (m_no_blocks m).
Definition inc_no_blocks (m : amount) : amount :=
  mk_amount (m_fs m) (m_eq m) (m_dk_start m) (m_dk_max m) (m_stripe m) (m_mismatched m)
    (m_mm_count m) (m_object_fs m) (m_obj_pool m) (m_meta_small m) (m_bn_shift m) (m_thread m)
    (m_no_blocks m + 1).

Definition set_unit_stride (unit stride : Z) (i : dinode) : dinode :=
  mk_dinode (i_dir i) (i_meta i) (i_sg i) (i_stripe_group i) (i_stripe_width i) (i_stripe i)
    stride unit (i_blocks i) (i_on_large i).

(** The device table. *)
Definition dev_at (m : amount) (ord : Z) : option samdent :=
  if ord <? 0 then None else m_fs m !! Z.to_nat ord.
Definition get_dev (ord : Z) : M amount samdent := m ← gets id; deref (dev_at m ord).
Definition upd_dev (ord : Z) (f : samdent -> samdent) : M amount unit :=
  modify (fun m => set_mfs (alter f (Z.to_nat ord) (m_fs m)) m).

(** ** Building the lists *)

Definition off_or_down (s : dstate) : bool :=
  match s with DEV_OFF | DEV_DOWN => true | _ => false end.

(** Striped groups of different sizes: round robin. *)
Definition check_groups (num_group : Z) (eqs : list sbord) : M amount unit :=
  for_each eqs (fun e =>
    when (negb ((e_type e =? Equ.DT_META) || off_or_down (e_state e) || (e_num_group e =? 0))
          && negb (num_group =? e_num_group e)) (modify set_mismatched)).

(** The elements of a striped group have adjacent ordinals. *)
Fixpoint contiguous (n : nat) (ord i ty : Z) (m : amount) : bool :=
  match n with
  | O => true
  | S n' =>
      match dev_at m (i + ord) with
      | Some d => (d_type d =? ty) && contiguous n' (ord + 1) i ty m
      | None => false
      end
  end.

(** The search for the end of the list, from ordinal [ord] on. *)
Fixpoint link_scan (eqs : list sbord) (t : disk_type) (i ord : Z) : M amount unit :=
  match eqs with
  | [] => mret tt
  | e :: eqs' =>
      d ← get_dev ord;
      if negb (bool_decide (d_dt d = t)) || (ord =? i) || (d_num_group d =? 0)
         || off_or_down (e_state e) || negb (d_next_ord d =? 0)
      then link_scan eqs' t i (ord + 1)
      else
        upd_dev ord (set_next_ord i);;
        modify (fun m => set_dk_max (dt_set (m_dk_max m) t (swrap 16 (dt_get (m_dk_max m) t + 1))) m);;
        upd_dev i (set_linked true false)
  end.

Definition link_dev (t : disk_type) (i : Z) : M amount unit :=
  m ← gets id;
  if dt_get (m_dk_max m) t =? 0 then
    modify (fun m => set_dk_start (dt_set (m_dk_start m) t (swrap 16 i)) m);;
    upd_dev i (set_dk_unit (uwrap 16 (swrap 16 i)));;
    modify (fun m => set_dk_max (dt_set (m_dk_max m) t (swrap 16 (dt_get (m_dk_max m) t + 1))) m);;
    upd_dev i (set_linked true false)
  else link_scan (m_eq m) t i 0.

Definition sam_build_allocation_links (i : Z) : M amount Z :=
  d ← get_dev i;
  m ← gets id;
  e ← deref (m_eq m !! Z.to_nat i);
  let ty := d_type d in
  upd_dev i (set_links (e_num_group e) (e_system e) (if ty =? Equ.DT_META then MM else DD) (e_state e));;
  if off_or_down (e_state e) || (e_num_group e =? 0) then mret 0
  else if ty =? Equ.DT_META then link_dev MM i;; mret 0
  else if Equ.is_osd_group ty then link_dev DD i;; mret 0
  else
    check_groups (e_num_group e) (m_eq m);;
    if contiguous (Z.to_nat (e_num_group e - 1)) 1 i ty m then link_dev DD i;; mret 0
    else mret EINVAL.

(** The loop of [sam_mount_init] over the ordinals. *)
Fixpoint build_all (n : nat) (i : Z) : M amount Z :=
  match n with
  | O => mret 0
  | S n' =>
      error ← sam_build_allocation_links i;
      if negb (error =? 0) then mret error else build_all n' (i + 1)
  end.

(** ** Removal *)

Fixpoint remove_loop (n : nat) (t : disk_type) (ord : Z) (prev : option Z) (cur : Z)
  : M amount unit :=
  match n with
  | O => mret tt
  | S n' =>
      if cur =? ord then
        d ← get_dev ord;
        match prev with
        | None => modify (fun m => set_dk_start (dt_set (m_dk_start m) t (swrap 16 (d_next_ord d))) m)
        | Some p => upd_dev p (set_next_ord (d_next_ord d))
        end;;
        upd_dev ord (set_next_ord 0);;
        modify (fun m => set_dk_max (dt_set (m_dk_max m) t (swrap 16 (dt_get (m_dk_max m) t - 1))) m);;
        upd_dev ord (set_linked false true)
      else
        d ← get_dev cur;
        if d_next_ord d =? 0 then mret tt else remove_loop n' t ord (Some cur) (d_next_ord d)
  end.

Definition sam_remove_from_allocation_links (ord : Z) : M amount Z :=
  d ← get_dev ord;
  m ← gets id;
  let t := if d_type d =? Equ.DT_META then MM else DD in
  remove_loop (Z.to_nat (dt_get (m_dk_max m) t)) t ord None (dt_get (m_dk_start m) t);;
  mret 0.

(** ** Choosing the partition of a new file *)

Definition type_of (i : dinode) : disk_type := if i_meta i then MM else DD.

(** The first partition of the pool that is on, and its turn. *)
Fixpoint pool_unit (devs : list samdent) (ord pool : Z) : option (Z * Z) :=
  match devs with
  | [] => None
  | d :: devs' =>
      if (pool =? d_type d) && bool_decide (d_state d = DEV_ON) then
        Some (ord, if d_dk_unit d =? 0 then uwrap 16 ord else d_dk_unit d)
      else pool_unit devs' (ord + 1) pool
  end.

(** A partition that cannot take the file. *)
Definition unfit (pool : Z) (d : samdent) : bool :=
  (f_space (d_fs d) =? 0) || negb (bool_decide (d_state d = DEV_ON))
  || (negb (pool =? 0) && negb (d_type d =? pool)).

Fixpoint unit_loop (fuel : nat) (t : disk_type) (pool oldord ord : Z) : M amount Z :=
  match fuel with
  | O => fail OutOfFuel
  | S fuel' =>
      d ← get_dev ord;
      if unfit pool d then
        m ← gets id;
        let ord' := if negb (d_next_ord d =? 0) then d_next_ord d else dt_get (m_dk_start m) t in
        if ord' =? oldord then mret ord' else unit_loop fuel' t pool oldord ord'
      else mret ord
  end.

Definition refuse_unit (i : dinode) : dinode :=
  mk_dinode (i_dir i) (i_meta i) false 0 (i_stripe_width i) (i_stripe i) 0 (i_unit i) (i_blocks i)
    (i_on_large i).

Definition sam_set_unit (fuel : nat) (di : dinode) : M amount (Z * dinode) :=
  m ← gets id;
  let meta := if i_dir di && negb (m_mm_count m =? 0) then true else i_meta di in
  let di0 := mk_dinode (i_dir di) meta (i_sg di) (i_stripe_group di) (i_stripe_width di)
               (i_stripe di) 0 (i_unit di) (i_blocks di) (i_on_large di) in
  let t := type_of di0 in
  let pool :=
    match t with
    | MM => 0
    | DD =>
        if m_object_fs m then
          Z.lor Equ.DT_OBJECT_DISK (if i_sg di0 then i_stripe_group di0 else m_obj_pool m)
        else if i_sg di0 then Z.lor Equ.DT_STRIPE_GROUP (i_stripe_group di0) else 0
    end in
  (* the entry that keeps the turn, and the unit whose turn it is *)
  start ←
    (if negb (pool =? 0) then
       match pool_unit (m_fs m) 0 pool with
       | Some (ord, unit) => upd_dev ord (set_dk_unit unit);; mret (Some (ord, unit))
       | None => mret None
       end
     else if 0 <? dt_get (m_dk_max m) t then
       let first := dt_get (m_dk_start m) t in
       d ← get_dev first; mret (Some (first, d_dk_unit d))
     else mret None);
  match start with
  | None => mret (ENOSPC, refuse_unit di0)
  | Some (first_unit, unit) =>
      ord ← unit_loop fuel t pool unit unit;
      d ← get_dev ord;
      upd_dev first_unit
        (set_dk_unit (uwrap 16 (if negb (d_next_ord d =? 0) then d_next_ord d else first_unit)));;
      let large := if negb (d_type d =? Equ.DT_DATA) then true else i_on_large di0 in
      let large' := if i_dir di0 && negb (m_mm_count m =? 0) && m_meta_small m then false else large in
      mret (0, mk_dinode (i_dir di0) meta (i_sg di0) (i_stripe_group di0) (i_stripe_width di0)
                 (i_stripe di0) 0 (uwrap 8 ord) (i_blocks di0) large')
  end.

(** ** Allocating a block *)

Definition SAM_META_ENOSPC_BIAS : Z := 0x10000.
Definition sam_enospc (m : amount) (di : dinode) : Z :=
  if i_meta di && (0 <? m_mm_count m) then ENOSPC + SAM_META_ENOSPC_BIAS else ENOSPC.

(** The partition after [unit]: the next of the list, or its first. *)
Definition next_unit (m : amount) (t : disk_type) (unit : Z) (d : samdent) : Z :=
  if negb (d_next_ord d =? 0) then d_next_ord d
  else if 0 <? dt_get (m_dk_max m) t then dt_get (m_dk_start m) t
  else unit.

(** A block has been taken at [unit]: "increment to the next unit if stride is GE
    stripe". [stride] is a signed char. *)
Definition advance_stride (m : amount) (di : dinode) (d : samdent) : dinode :=
  let bdt := if d_type d =? Equ.DT_META then MM else DD in
  let stripe := if i_stripe_width di && negb (i_dir di) then i_stripe di
                else dt_get (m_stripe m) bdt in
  if stripe =? 0 then di
  else
    let stride := swrap 8 (i_stride di + 1) in
    if stripe <=? stride then
      set_unit_stride (uwrap 8 (if negb (d_next_ord d =? 0) then d_next_ord d
                                else if 0 <? dt_get (m_dk_max m) (type_of di)
                                     then dt_get (m_dk_start m) (type_of di)
                                     else i_unit di)) 0 di
    else set_unit_stride (i_unit di) stride di.

(** The pool of [unit] that allocation may use. *)
Definition usable_pool (d : samdent) (bt : btype) : option sam_block :=
  match d_state d with
  | DEV_NOALLOC | DEV_UNAVAIL => None
  | _ => bt_get (f_pools (d_fs d)) bt
  end.

(** [sam_alloc_block]'s loops. [inner] is [None] at the top of the loop over units, else
    the flag [skipping_ord] of the loop that waits; [wait] is what the other threads do
    while this one sleeps at a unit. *)
Fixpoint alloc_loop (fuel : nat) (wait : Z -> amount -> amount) (bt : btype)
    (first_unit unit pass : Z) (inner : option bool) (di : dinode)
  : M amount (Z * Z * Z * dinode) :=
  match fuel with
  | O => fail OutOfFuel
  | S fuel' =>
      d ← get_dev unit;
      m ← gets id;
      match inner with
      | None =>
          match usable_pool d bt with
          | None => alloc_loop fuel' wait bt first_unit unit pass (Some true) di
          | Some b =>
              let '(r, b', bad) := pool_take (pool_fuel b) (m_bn_shift m) (d_system d) b in
              let s1 := set_pools (bt_set (f_pools (d_fs d)) bt (Some b')) (d_fs d) in
              upd_dev unit (set_dfs (if bad : bool then set_fsck true s1 else s1));;
              match r with
              | Some bn => mret (0, bn, unit, advance_stride m di d)
              | None =>
                  modify inc_no_blocks;;
                  alloc_loop fuel' wait bt first_unit unit pass (Some false) di
              end
          end
      | Some skipping =>
          let empty := match bt_get (f_pools (d_fs d)) bt with
                       | Some b => BLOCK_COUNT (b_in b) (b_out b) (b_limit b) =? 0
                       | None => true
                       end in
          if (skipping || d_skip_ord d || empty) && m_thread m then
            if skipping || d_skip_ord d || f_map_empty (d_fs d) then
              if negb (i_blocks di =? 0) && m_mismatched m then mret (sam_enospc m di, 0, 0, di)
              else
                let unit' := next_unit m (type_of di) unit d in
                let di' := set_unit_stride (uwrap 8 unit') (i_stride di) di in
                if unit' =? first_unit then
                  if 1 <? pass then mret (sam_enospc m di', 0, 0, di')
                  else alloc_loop fuel' wait bt first_unit unit' (pass + 1) None di'
                else alloc_loop fuel' wait bt first_unit unit' pass None di'
            else
              modify (wait unit);;
              alloc_loop fuel' wait bt first_unit unit pass (Some skipping) di
          else alloc_loop fuel' wait bt first_unit unit pass None di
      end
  end.

(** [sam_alloc_block]: the error, the block and its partition, and the inode. *)
Definition sam_alloc_block (fuel : nat) (wait : Z -> amount -> amount) (bt : btype) (di : dinode)
  : M amount (Z * Z * Z * dinode) :=
  m ← gets id;
  r ← (if Z.of_nat (length (m_fs m)) <=? i_unit di then sam_set_unit fuel di else mret (0, di));
  let '(error, di') := r in
  if negb (error =? 0) then mret (error, 0, 0, di')
  else alloc_loop fuel wait bt (i_unit di') (i_unit di') 0 None di'.
