(* ===== verification/AllocThms.v ===== *)
(** * The lists of partitions: invariant and operations

    [links_ok t l m]: the list of type [t] consists of the ordinals [l]. Building adds an
    ordinal at the end, removal takes one out, mounting makes the lists of all
    partitions that are in use. *)

From S2P Require Import Prelude Dau Bitmap BlockPool BlockScan Monad BlockAlloc BlockRefill AllocLinks.

(** ** Running code step by step *)

Lemma bind_run {S A B : Type} (m : M S A) (f : A -> M S B) (s s' : S) (a : A) :
  m s = Done a s' -> (m ≫= f) s = f a s'.
Proof. unfold mbind, M_bind. now intros ->. Qed.

Lemma gets_run {S A : Type} (f : S -> A) (s : S) : gets f s = Done (f s) s.
Proof. reflexivity. Qed.

Lemma get_dev_run (m : amount) (o : Z) (d : samdent) :
  dev_at m o = Some d -> get_dev o m = Done d m.
Proof. intros E. unfold get_dev, mbind, M_bind, gets, id. now rewrite E. Qed.

(** ** Segments of a linked list: from [p] over the nodes [l] to [q] *)

Fixpoint seg (nx : Z -> Z) (p : Z) (l : list Z) (q : Z) : Prop :=
  match l with
  | [] => p = q
  | x :: l' => p = x /\ seg nx (nx x) l' q
  end.

Lemma seg_ext (nx nx' : Z -> Z) (l : list Z) (p q : Z) :
  (forall x, x ∈ l -> nx' x = nx x) -> seg nx p l q -> seg nx' p l q.
Proof.
  revert p. induction l as [|x l IH]; intros p H; cbn; [auto|].
  intros [-> S]. split; [reflexivity|]. rewrite H by set_solver. apply IH; [|exact S].
  intros z Hz. apply H. set_solver.
Qed.

Lemma seg_app (nx : Z -> Z) (l1 l2 : list Z) (p q : Z) :
  seg nx p (l1 ++ l2) q <-> exists r, seg nx p l1 r /\ seg nx r l2 q.
Proof.
  revert p. induction l1 as [|x l1 IH]; intros p; cbn [app seg].
  - split; [eauto|]. now intros (r & -> & ?).
  - rewrite IH. split.
    + intros (-> & r & S1 & S2). eauto.
    + intros (r & (-> & S1) & S2). eauto.
Qed.

(** ** The invariant *)

Definition nx (m : amount) (o : Z) : Z :=
  match dev_at m o with Some d => d_next_ord d | None => 0 end.

(** Partitions that belong to the list of type [t]. *)
Definition in_use (t : disk_type) (m : amount) (o : Z) : Prop :=
  exists d e, dev_at m o = Some d /\ m_eq m !! Z.to_nat o = Some e /\ d_dt d = t /\
    d_num_group d <> 0 /\ off_or_down (e_state e) = false.

Record links_ok (t : disk_type) (l : list Z) (m : amount) : Prop := {
  lk_max : dt_get (m_dk_max m) t = Z.of_nat (length l);
  lk_seg : l <> [] -> seg (nx m) (dt_get (m_dk_start m) t) l 0;
  lk_nz : 0 ∉ tail l;
  lk_nodup : NoDup l;
  lk_use : forall o, o ∈ l -> in_use t m o
}.

(** The tables have entries for the same ordinals, at most [L_FSET]. *)
Definition tables_ok (m : amount) : Prop :=
  length (m_eq m) = length (m_fs m) /\ Z.of_nat (length (m_fs m)) <= 252.

Lemma dev_at_range (m : amount) (o : Z) (d : samdent) :
  dev_at m o = Some d -> 0 <= o < Z.of_nat (length (m_fs m)).
Proof.
  unfold dev_at. destruct (Z.ltb_spec o 0); [discriminate|]. intros E%lookup_lt_Some. lia.
Qed.

Lemma dev_at_some (m : amount) (o : Z) :
  0 <= o < Z.of_nat (length (m_fs m)) -> exists d, dev_at m o = Some d.
Proof.
  intros H. unfold dev_at. destruct (Z.ltb_spec o 0); [lia|]. apply lookup_lt_is_Some. lia.
Qed.

Lemma dev_at_alter (m : amount) (i o : Z) (f : samdent -> samdent) :
  0 <= i -> dev_at (set_mfs (alter f (Z.to_nat i) (m_fs m)) m) o
  = if o =? i then f <$> dev_at m o else dev_at m o.
Proof.
  intros Hi. unfold dev_at. destruct (Z.ltb_spec o 0) as [Ho|Ho].
  { now destruct (o =? i). }
  cbn. destruct (Z.eqb_spec o i) as [->|Hne].
  - apply list_lookup_alter_eq.
  - apply list_lookup_alter_ne. lia.
Qed.

Lemma in_use_range (t : disk_type) (m : amount) (o : Z) :
  in_use t m o -> 0 <= o < Z.of_nat (length (m_fs m)).
Proof. intros (d & e & E & _). now apply dev_at_range in E. Qed.

(** ** States that agree on a list *)

(** [m'] has the devices of [l] as [m] has them, as far as the list is concerned. *)
Definition same_dev (d d' : samdent) : Prop :=
  d_dt d' = d_dt d /\ d_num_group d' = d_num_group d /\ d_next_ord d' = d_next_ord d.

Lemma links_frame (t : disk_type) (l : list Z) (m m' : amount) :
  links_ok t l m -> m_eq m' = m_eq m ->
  dt_get (m_dk_max m') t = dt_get (m_dk_max m) t ->
  dt_get (m_dk_start m') t = dt_get (m_dk_start m) t ->
  (forall o d, o ∈ l -> dev_at m o = Some d -> exists d', dev_at m' o = Some d' /\ same_dev d d') ->
  links_ok t l m'.
Proof.
  intros [L1 L2 L3 L4 L5] E1 E2 E3 H. split; auto.
  - congruence.
  - intros Hl. rewrite E3. apply (seg_ext (nx m)); [|auto]. intros x Hx.
    destruct (L5 x Hx) as (d & e & Ed & _). destruct (H x d Hx Ed) as (d' & Ed' & _ & _ & En).
    unfold nx. now rewrite Ed, Ed'.
  - intros o Ho. destruct (L5 o Ho) as (d & e & Ed & Ee & Et & Eg & Es).
    destruct (H o d Ho Ed) as (d' & Ed' & F1 & F2 & _). exists d', e. rewrite E1.
    split_and!; congruence.
Qed.

(** A list that does not contain [i] does not see changes of [i]. *)
Lemma list_links_alter (t : disk_type) (l : list Z) (m : amount) (i : Z) (f : samdent -> samdent) :
  0 <= i -> (i ∈ l -> forall d, same_dev d (f d)) -> links_ok t l m ->
  links_ok t l (set_mfs (alter f (Z.to_nat i) (m_fs m)) m).
Proof.
  intros Hi Hf HL. apply (links_frame t l m); auto. intros o d Ho Ed.
  rewrite dev_at_alter by exact Hi. destruct (Z.eqb_spec o i) as [->|_].
  - rewrite Ed. cbn. eauto.
  - exists d. rewrite Ed. repeat split.
Qed.

(** ** Adding an ordinal *)

Section Link.
Context (t : disk_type) (i : Z).

(** [m'] is [m] with [i] at the end of the list. *)
Lemma links_snoc (l : list Z) (m m' : amount) (d : samdent) (e : sbord) :
  links_ok t l m -> i ∉ l -> (l <> [] -> i <> 0) -> m_eq m' = m_eq m ->
  m_eq m !! Z.to_nat i = Some e -> off_or_down (e_state e) = false ->
  dev_at m' i = Some d -> d_dt d = t -> d_num_group d <> 0 -> d_next_ord d = 0 ->
  dt_get (m_dk_max m') t = dt_get (m_dk_max m) t + 1 ->
  (dt_get (m_dk_start m') t = if decide (l = []) then i else dt_get (m_dk_start m) t) ->
  (forall o d, o ∈ l -> dev_at m o = Some d -> exists d', dev_at m' o = Some d' /\
     d_dt d' = d_dt d /\ d_num_group d' = d_num_group d /\
     d_next_ord d' = if decide (last l = Some o) then i else d_next_ord d) ->
  links_ok t (l ++ [i]) m'.
Proof.
  intros [L1 L2 L3 L4 L5] Hi Hz Em Ee Es Ed Edt Eg En E1 E2 H. split.
  - rewrite length_app, E1, L1. cbn. lia.
  - intros _. destruct (decide (l = [])) as [->|Hl]; rewrite E2.
    { cbn. split; [reflexivity|]. unfold nx. now rewrite Ed. }
    specialize (L2 Hl). destruct (last l) as [x|] eqn:El; [|now apply last_None in El].
    apply last_Some in El as [l0 ->]. rewrite <- app_assoc. cbn [app].
    apply seg_app in L2 as (r & S1 & S2). cbn in S2. destruct S2 as [-> _].
    apply NoDup_app in L4 as (_ & L4 & _). apply seg_app. exists x. split.
    + apply (seg_ext (nx m)); [|exact S1]. intros z Hz'.
      destruct (L5 z ltac:(set_solver)) as (dz & _ & Ez & _).
      destruct (H z dz ltac:(set_solver) Ez) as (dz' & Ez' & _ & _ & En').
      unfold nx. rewrite Ez, Ez', En'. rewrite decide_False; [reflexivity|].
      intros [= ->]. apply (L4 z Hz'). set_solver.
    + cbn. split; [reflexivity|]. destruct (L5 x ltac:(set_solver)) as (dx & _ & Ex & _).
      destruct (H x dx ltac:(set_solver) Ex) as (dx' & Ex' & _ & _ & En').
      rewrite decide_True in En' by reflexivity. unfold nx. rewrite Ex', Ed. now split.
  - destruct l as [|x l]; cbn in *; [set_solver|]. rewrite elem_of_app, list_elem_of_singleton.
    intros [?|<-]; [auto|]. now apply Hz.
  - apply NoDup_app. split; [exact L4|]. split; [set_solver|apply NoDup_singleton].
  - intros o [Ho| ->%list_elem_of_singleton]%elem_of_app.
    + destruct (L5 o Ho) as (do & eo & Eo & Ee' & F1 & F2 & F3).
      destruct (H o do Ho Eo) as (d' & Ed' & G1 & G2 & _). exists d', eo. rewrite Em.
      split_and!; congruence.
    + exists d, e. rewrite Em. split_and!; auto.
Qed.
(** ** What linking leaves alone *)

Record link_frame (l : list Z) (m m' : amount) : Prop := {
  fr_eq : m_eq m' = m_eq m;
  fr_len : length (m_fs m') = length (m_fs m);
  fr_dev : forall o, o ∉ l -> o <> i -> dev_at m' o = dev_at m o;
  fr_same : forall o d, dev_at m o = Some d -> exists d', dev_at m' o = Some d' /\
    d_type d' = d_type d /\ d_dt d' = d_dt d /\ d_num_group d' = d_num_group d /\
    d_state d' = d_state d /\ d_fs d' = d_fs d;
  fr_start : forall t', t' <> t -> dt_get (m_dk_start m') t' = dt_get (m_dk_start m) t';
  fr_max : forall t', t' <> t -> dt_get (m_dk_max m') t' = dt_get (m_dk_max m) t'
}.

Lemma dt_get_set {A : Type} (p : per_dt A) (t1 t2 : disk_type) (v : A) :
  dt_get (dt_set p t1 v) t2 = if decide (t2 = t1) then v else dt_get p t2.
Proof. now destruct t1, t2. Qed.

(** The state after [i] has been linked behind [x]. *)
Definition linked_after (x : Z) (m : amount) : amount :=
  let m1 := set_mfs (alter (set_next_ord i) (Z.to_nat x) (m_fs m)) m in
  let m2 := set_dk_max (dt_set (m_dk_max m1) t (swrap 16 (dt_get (m_dk_max m1) t + 1))) m1 in
  set_mfs (alter (set_linked true false) (Z.to_nat i) (m_fs m2)) m2.

Lemma link_scan_spec (x : Z) (m : amount) (eqs : list sbord) (ord : Z) :
  (length (m_eq m) <= length (m_fs m))%nat -> drop (Z.to_nat ord) (m_eq m) = eqs ->
  0 <= ord <= x -> x <> i -> in_use t m x -> nx m x = 0 ->
  (forall o, ord <= o < x -> o <> i -> in_use t m o -> nx m o <> 0) ->
  link_scan eqs t i ord m = Done tt (linked_after x m).
Proof.
  intros HL. revert ord. induction eqs as [|e eqs IH]; intros ord Ed Ho Hxi Hx Hn Hb.
  { destruct Hx as (d & e & _ & Ee & _). apply lookup_lt_Some in Ee.
    apply (f_equal length) in Ed. rewrite length_drop in Ed. cbn in Ed. lia. }
  assert (Ee : m_eq m !! Z.to_nat ord = Some e).
  { rewrite <- (Nat.add_0_r (Z.to_nat ord)), <- lookup_drop, Ed. reflexivity. }
  assert (Et : drop (Z.to_nat (ord + 1)) (m_eq m) = eqs).
  { replace (Z.to_nat (ord + 1)) with (Z.to_nat ord + 1)%nat by lia.
    rewrite <- drop_drop, Ed. reflexivity. }
  destruct (dev_at_some m ord) as [d Edv].
  { apply lookup_lt_Some in Ee. lia. }
  cbn [link_scan]. unfold mbind at 1, M_bind at 1. unfold get_dev at 1, mbind at 1, M_bind at 1, gets, id.
  rewrite Edv. cbn [deref]. unfold mret at 1, M_ret at 1.
  destruct (Z.eq_dec ord x) as [->|Hne].
  - destruct Hx as (d' & e' & Ed' & Ee' & Xt & Xg & Xs).
    rewrite Edv in Ed'. injection Ed' as <-. rewrite Ee in Ee'. injection Ee' as <-.
    unfold nx in Hn. rewrite Edv in Hn.
    rewrite bool_decide_eq_true_2 by exact Xt. rewrite Hn, Xs.
    destruct (Z.eqb_spec x i); [contradiction|]. destruct (Z.eqb_spec (d_num_group d) 0); [contradiction|].
    reflexivity.
  - match goal with |- (if ?b then _ else _) _ = _ => destruct b eqn:Eb end.
    { apply IH; auto; [lia|]. intros o Hr. apply Hb. lia. }
    exfalso. rewrite !orb_false_iff, !negb_false_iff in Eb. destruct Eb as ((((B1 & B2) & B3) & B4) & B5).
    apply bool_decide_eq_true in B1. apply Z.eqb_neq in B2, B3. apply Z.eqb_eq in B5.
    apply (Hb ord); [lia|exact B2|exists d, e; auto|]. unfold nx. now rewrite Edv.
Qed.

Lemma linked_after_dev (x : Z) (m : amount) (o : Z) :
  0 <= x -> 0 <= i -> dev_at (linked_after x m) o
  = (if o =? i then set_linked true false else id) ∘ (if o =? x then set_next_ord i else id) <$> dev_at m o.
Proof.
  intros Hx Hi. unfold linked_after. cbv zeta. rewrite dev_at_alter by exact Hi.
  change (dev_at (set_dk_max ?v ?w) o) with (dev_at w o). rewrite dev_at_alter by exact Hx.
  destruct (dev_at m o) as [d|]; cbn; destruct (o =? i), (o =? x); reflexivity.
Qed.
Lemma links_length (l : list Z) (m : amount) :
  links_ok t l m -> tables_ok m -> Z.of_nat (length l) <= 252.
Proof.
  intros [_ _ _ N U] [_ H]. pose proof (nodup_bounded l (Z.of_nat (length (m_fs m))) N) as B.
  lapply B; [lia|]. intros u Hu. exact (in_use_range t m u (U u Hu)).
Qed.

(** The end of the list. *)
Lemma links_last (l : list Z) (m : amount) (x : Z) :
  links_ok t l m -> last l = Some x ->
  nx m x = 0 /\ forall o, o ∈ l -> o <> x -> nx m o <> 0.
Proof.
  intros [_ S Hz N _] El. apply last_Some in El as [l0 ->].
  specialize (S ltac:(now destruct l0)). split.
  { apply seg_app in S as (r & _ & S). cbn in S. now destruct S as [_ ->]. }
  intros o Ho Hne. assert (Ho' : o ∈ l0) by set_solver. clear Ho.
  apply list_elem_of_split in Ho' as (l1 & l2 & ->). rewrite <- !app_assoc in S, Hz. cbn [app] in S, Hz.
  apply seg_app in S as (r & _ & S). cbn in S. destruct S as [_ S].
  assert (Hin : exists y l3, l2 ++ [x] = y :: l3) by (destruct l2; cbn; eauto).
  destruct Hin as (y & l3 & E). rewrite E in S, Hz. cbn in S. destruct S as [-> _].
  intros ->. apply Hz. destruct l1; cbn; set_solver.
Qed.

(** The first entry. *)
Definition linked_first (m : amount) : amount :=
  let m1 := set_dk_start (dt_set (m_dk_start m) t (swrap 16 i)) m in
  let m2 := set_mfs (alter (set_dk_unit (uwrap 16 (swrap 16 i))) (Z.to_nat i) (m_fs m1)) m1 in
  let m3 := set_dk_max (dt_set (m_dk_max m2) t (swrap 16 (dt_get (m_dk_max m2) t + 1))) m2 in
  set_mfs (alter (set_linked true false) (Z.to_nat i) (m_fs m3)) m3.

Lemma linked_first_dev (m : amount) (o : Z) :
  0 <= i -> dev_at (linked_first m) o
  = (if o =? i then set_linked true false ∘ set_dk_unit (uwrap 16 (swrap 16 i)) else id) <$> dev_at m o.
Proof.
  intros Hi. unfold linked_first. cbv zeta. rewrite dev_at_alter by exact Hi.
  change (dev_at (set_dk_max ?v ?w) o) with (dev_at w o). rewrite dev_at_alter by exact Hi.
  change (dev_at (set_dk_start ?v ?w) o) with (dev_at w o).
  destruct (o =? i), (dev_at m o); reflexivity.
Qed.

Section Dev.
Context (m : amount) (d : samdent) (e : sbord).
Context (HT : tables_ok m) (Ed : dev_at m i = Some d) (Ee : m_eq m !! Z.to_nat i = Some e).
Context (Es : off_or_down (e_state e) = false) (Edt : d_dt d = t) (Eg : d_num_group d <> 0).
Context (En : d_next_ord d = 0).

Lemma linked_first_ok :
  links_ok t [] m -> links_ok t [i] (linked_first m) /\ link_frame [] m (linked_first m).
Proof.
  intros HL. pose proof (dev_at_range m i d Ed) as Ri. destruct HT as [T1 T2].
  split.
  - eapply (links_snoc [] m _ (set_linked true false (set_dk_unit (uwrap 16 (swrap 16 i)) d)) e HL); auto.
    + set_solver.
    + rewrite linked_first_dev, Z.eqb_refl, Ed by lia. reflexivity.
    + cbn. rewrite dt_get_set, decide_True by reflexivity. now rewrite (lk_max _ _ _ HL).
    + cbn. rewrite dt_get_set, !decide_True by reflexivity. apply swrap_id; [lia|].
      unfold sint_range. lia.
    + intros o do Ho. set_solver.
  - split; auto.
    + cbn. now rewrite !length_alter.
    + intros o _ Hoi. rewrite linked_first_dev by lia. destruct (Z.eqb_spec o i); [contradiction|].
      now destruct (dev_at m o).
    + intros o do Eo. rewrite linked_first_dev, Eo by lia. destruct (o =? i); cbn; eauto 10.
    + intros t' Ht'. cbn. now rewrite dt_get_set, decide_False.
    + intros t' Ht'. cbn. now rewrite dt_get_set, decide_False.
Qed.

Lemma linked_after_ok (l : list Z) (x : Z) :
  links_ok t l m -> i ∉ l -> i <> 0 -> last l = Some x ->
  links_ok t (l ++ [i]) (linked_after x m) /\ link_frame l m (linked_after x m).
Proof.
  intros HL Hi Hz El. pose proof (dev_at_range m i d Ed) as Ri.
  pose proof (links_length l m HL HT) as Ll. destruct HT as [T1 T2].
  assert (Hx : x ∈ l) by (apply last_Some in El as [l0 ->]; set_solver).
  assert (Hxi : x <> i) by (intros ->; contradiction).
  pose proof (in_use_range t m x (lk_use _ _ _ HL x Hx)) as Rx. split.
  - apply (links_snoc l m (linked_after x m) (set_linked true false d) e HL Hi); auto.
    + rewrite linked_after_dev, Ed, Z.eqb_refl by lia. destruct (Z.eqb_spec i x); [congruence|reflexivity].
    + unfold linked_after. cbn. rewrite dt_get_set, decide_True by reflexivity. rewrite (lk_max _ _ _ HL).
      apply swrap_id; [lia|]. unfold sint_range. lia.
    + rewrite decide_False; [reflexivity|]. intros ->. discriminate.
    + intros o do Ho Eo. rewrite linked_after_dev, Eo by lia. eexists. split; [reflexivity|].
      destruct (Z.eqb_spec o i) as [->|_]; [contradiction|]. cbn. rewrite El.
      destruct (Z.eqb_spec o x) as [->|Hox]; cbn.
      * rewrite decide_True by reflexivity. auto.
      * rewrite decide_False by congruence. auto.
  - split; auto.
    + unfold linked_after. cbn. now rewrite !length_alter.
    + intros o Ho Hoi. rewrite linked_after_dev by lia. destruct (Z.eqb_spec o i); [contradiction|].
      destruct (Z.eqb_spec o x) as [->|_]; [contradiction|]. now destruct (dev_at m o).
    + intros o do Eo. rewrite linked_after_dev, Eo by lia. eexists. split; [reflexivity|].
      destruct (o =? i), (o =? x); cbn; auto 6.
    + intros t' Ht'. unfold linked_after. cbn. now rewrite dt_get_set, decide_False.
Qed.

Lemma link_dev_spec (l : list Z) :
  links_ok t l m -> i ∉ l -> (l <> [] -> i <> 0) ->
  (forall x o, last l = Some x -> o < x -> o <> i -> in_use t m o -> o ∈ l) ->
  exists m', link_dev t i m = Done tt m' /\ links_ok t (l ++ [i]) m' /\ link_frame l m m'.
Proof.
  intros HL Hi Hz Hb. unfold link_dev, mbind at 1, M_bind at 1, gets at 1, id at 1.
  rewrite (lk_max _ _ _ HL). destruct (last l) as [x|] eqn:El.
  - assert (Hl : l <> []) by (intros ->; discriminate).
    destruct (Z.eqb_spec (Z.of_nat (length l)) 0) as [E0|_]; [destruct l; [easy|cbn in E0; lia]|].
    assert (Hx : x ∈ l) by (apply last_Some in El as [l0 ->]; set_solver).
    pose proof (lk_use _ _ _ HL x Hx) as Ux. pose proof (in_use_range t m x Ux) as Rx.
    destruct (links_last l m x HL El) as [Nx No].
    exists (linked_after x m). split; [|now apply linked_after_ok; auto].
    destruct HT as [T1 T2]. apply link_scan_spec; auto; try lia; [intros ->; contradiction|].
    intros o Ho Hoi Uo. apply No; [|lia]. eapply Hb; eauto. lia.
  - apply last_None in El as ->. exists (linked_first m). split; [reflexivity|].
    now apply linked_first_ok.
Qed.
End Dev.
End Link.

(** ** Building *)

(** The list a device belongs to. *)
Definition list_of (ty : Z) : disk_type := if ty =? Equ.DT_META then MM else DD.

(** Same tables, lists and counts. *)
Record same_tables (m m' : amount) : Prop := {
  st_fs : m_fs m' = m_fs m;
  st_eq : m_eq m' = m_eq m;
  st_start : m_dk_start m' = m_dk_start m;
  st_max : m_dk_max m' = m_dk_max m
}.

Lemma same_tables_dev (m m' : amount) (o : Z) : same_tables m m' -> dev_at m' o = dev_at m o.
Proof. intros []. unfold dev_at. now rewrite st_fs0. Qed.

Lemma same_tables_links (t : disk_type) (l : list Z) (m m' : amount) :
  same_tables m m' -> links_ok t l m -> links_ok t l m'.
Proof.
  intros S HL. apply (links_frame t l m); auto; try (destruct S; congruence).
  intros o d _ Ed. exists d. rewrite (same_tables_dev _ _ _ S). repeat split; auto.
Qed.

Lemma check_groups_spec (n : Z) (eqs : list sbord) (m : amount) :
  exists m', check_groups n eqs m = Done tt m' /\ same_tables m m'.
Proof.
  revert m. induction eqs as [|e eqs IH]; intros m; [exists m; repeat split|].
  unfold check_groups in *. cbn [for_each]. unfold mbind, M_bind.
  destruct (negb _ && negb _).
  - destruct (IH (set_mismatched m)) as (m' & E & []). exists m'. split; [exact E|].
    split; auto.
  - exact (IH m).
Qed.

(** The state in which [i] has its new fields. *)
Definition refreshed (i : Z) (d : samdent) (e : sbord) (m : amount) : amount :=
  set_mfs (alter (set_links (e_num_group e) (e_system e) (list_of (d_type d)) (e_state e))
    (Z.to_nat i) (m_fs m)) m.

Lemma refreshed_dev (i o : Z) (d : samdent) (e : sbord) (m : amount) :
  dev_at m i = Some d ->
  dev_at (refreshed i d e m) o
  = if o =? i then Some (set_links (e_num_group e) (e_system e) (list_of (d_type d)) (e_state e) d)
    else dev_at m o.
Proof.
  intros Ed. pose proof (dev_at_range m i d Ed). unfold refreshed. rewrite dev_at_alter by lia.
  destruct (Z.eqb_spec o i) as [->|_]; [now rewrite Ed|reflexivity].
Qed.

(** A device that is to be linked. *)
Definition linkable (i : Z) (m : amount) (d : samdent) (e : sbord) : Prop :=
  dev_at m i = Some d /\ m_eq m !! Z.to_nat i = Some e /\ off_or_down (e_state e) = false /\
  e_num_group e <> 0 /\ d_next_ord d = 0 /\
  (d_type d = Equ.DT_META \/ Equ.is_osd_group (d_type d) = true \/
   contiguous (Z.to_nat (e_num_group e - 1)) 1 i (d_type d) m = true).

Lemma build_skips (i : Z) (m : amount) (d : samdent) (e : sbord) :
  dev_at m i = Some d -> m_eq m !! Z.to_nat i = Some e ->
  off_or_down (e_state e) = true \/ e_num_group e = 0 ->
  sam_build_allocation_links i m = Done 0 (refreshed i d e m).
Proof.
  intros Ed Ee H.
  assert (E : off_or_down (e_state e) || (e_num_group e =? 0) = true).
  { destruct H as [->| ->]; [reflexivity|apply orb_true_r]. }
  unfold sam_build_allocation_links. rewrite (bind_run _ _ _ _ _ (get_dev_run m i d Ed)).
  rewrite (bind_run _ _ _ _ _ (gets_run id m)). unfold id. rewrite Ee.
  erewrite bind_run by reflexivity. rewrite E. reflexivity.
Qed.

Lemma build_links (i : Z) (m : amount) (d : samdent) (e : sbord) :
  linkable i m d e ->
  exists m1, same_tables (refreshed i d e m) m1 /\
    sam_build_allocation_links i m
    = match link_dev (list_of (d_type d)) i m1 with Done _ m' => Done 0 m' | Fault f => Fault f end.
Proof.
  intros (Ed & Ee & Es & Eg & _ & H).
  assert (E : off_or_down (e_state e) || (e_num_group e =? 0) = false).
  { rewrite Es. now apply Z.eqb_neq. }
  unfold sam_build_allocation_links. rewrite (bind_run _ _ _ _ _ (get_dev_run m i d Ed)).
  rewrite (bind_run _ _ _ _ _ (gets_run id m)). unfold id. rewrite Ee.
  erewrite bind_run by reflexivity.
  rewrite (bind_run _ _ m (refreshed i d e m) tt) by reflexivity. rewrite E. unfold list_of.
  destruct (Z.eqb_spec (d_type d) Equ.DT_META) as [Em|Em].
  { exists (refreshed i d e m). split; [repeat split|]. reflexivity. }
  destruct (Equ.is_osd_group (d_type d)) eqn:Eo.
  { exists (refreshed i d e m). split; [repeat split|]. reflexivity. }
  destruct (check_groups_spec (e_num_group e) (m_eq m) (refreshed i d e m)) as (m1 & E1 & S).
  exists m1. split; [exact S|]. rewrite (bind_run _ _ _ _ _ E1). destruct H as [?|[?| ->]]; [contradiction|congruence|]. reflexivity.
Qed.

Lemma refreshed_tables (i : Z) (d : samdent) (e : sbord) (m : amount) :
  tables_ok m -> tables_ok (refreshed i d e m).
Proof. unfold tables_ok, refreshed. cbn. now rewrite length_alter. Qed.

Lemma refreshed_links (t : disk_type) (l : list Z) (i : Z) (d : samdent) (e : sbord) (m : amount) :
  dev_at m i = Some d -> i ∉ l -> links_ok t l m -> links_ok t l (refreshed i d e m).
Proof.
  intros Ed Hi HL. apply list_links_alter; auto; [now apply dev_at_range in Ed|]. intros. contradiction.
Qed.

(** Building adds the device at the end of its list. *)
Lemma build_spec (i : Z) (m : amount) (d : samdent) (e : sbord) (l : list Z) :
  linkable i m d e -> tables_ok m -> links_ok (list_of (d_type d)) l m -> i ∉ l ->
  (l <> [] -> i <> 0) ->
  (forall x o, last l = Some x -> o < x -> o <> i -> in_use (list_of (d_type d)) m o -> o ∈ l) ->
  exists m1 m', same_tables (refreshed i d e m) m1 /\
    sam_build_allocation_links i m = Done 0 m' /\
    links_ok (list_of (d_type d)) (l ++ [i]) m' /\ link_frame (list_of (d_type d)) i l m1 m'.
Proof.
  intros H HT HL Hi Hz Hb. destruct (build_links i m d e H) as (m1 & S & E).
  pose proof H as (Ed & Ee & Es & Eg & En & _). set (t := list_of (d_type d)) in *.
  set (d1 := set_links (e_num_group e) (e_system e) t (e_state e) d).
  assert (E1 : dev_at m1 i = Some d1).
  { rewrite (same_tables_dev _ _ _ S), refreshed_dev with (d := d) by exact Ed. now rewrite Z.eqb_refl. }
  assert (T1 : tables_ok m1).
  { pose proof (refreshed_tables i d e m HT) as T. destruct S. unfold tables_ok. now rewrite st_fs0, st_eq0. }
  assert (Eq1 : m_eq m1 = m_eq m) by now destruct S.
  destruct (link_dev_spec t i m1 d1 e T1 E1) with (l := l) as (m' & EL & L' & F); auto.
  - now rewrite Eq1.
  - eapply same_tables_links; [exact S|]. now apply refreshed_links.
  - intros x o Hx Hox Hoi (do & eo & Eo & Eeo & U). apply (Hb x o Hx Hox Hoi).
    exists do, eo. rewrite (same_tables_dev _ _ _ S), refreshed_dev with (d := d) in Eo by exact Ed.
    destruct (Z.eqb_spec o i); [contradiction|]. rewrite Eq1 in Eeo. auto.
  - exists m1, m'. split; [exact S|]. rewrite E, EL. auto.
Qed.

(** ** Mounting *)

(** Partition [o] belongs on the list of type [t]. *)
Definition wanted (t : disk_type) (m : amount) (o : Z) : bool :=
  match dev_at m o, m_eq m !! Z.to_nat o with
  | Some d, Some e =>
      bool_decide (list_of (d_type d) = t) && negb (off_or_down (e_state e) || (e_num_group e =? 0))
  | _, _ => false
  end.

(** Its ordinals, in order. *)
Definition members (t : disk_type) (m : amount) (i : Z) : list Z :=
  base.filter (fun o => wanted t m o = true) (seqZ 0 i).

(** The mount table before the lists are built: no links, striped groups in order. *)
Record unlinked (m : amount) : Prop := {
  ul_tables : tables_ok m;
  ul_next : forall o d, dev_at m o = Some d -> d_next_ord d = 0;
  ul_max : m_dk_max m = mk_per_dt 0 0;
  ul_groups : forall i d e, dev_at m i = Some d -> m_eq m !! Z.to_nat i = Some e ->
    off_or_down (e_state e) = false -> e_num_group e <> 0 ->
    d_type d = Equ.DT_META \/ Equ.is_osd_group (d_type d) = true \/
    contiguous (Z.to_nat (e_num_group e - 1)) 1 i (d_type d) m = true
}.

Record mount_inv (m0 : amount) (i : Z) (m : amount) : Prop := {
  mi_eq : m_eq m = m_eq m0;
  mi_len : length (m_fs m) = length (m_fs m0);
  mi_rest : forall o, i <= o -> dev_at m o = dev_at m0 o;
  mi_type : forall o, d_type <$> dev_at m o = d_type <$> dev_at m0 o;
  mi_done : forall o d e, o < i -> dev_at m o = Some d -> m_eq m0 !! Z.to_nat o = Some e ->
    d_dt d = list_of (d_type d) /\ d_num_group d = e_num_group e;
  mi_links : forall t, links_ok t (members t m0 i) m
}.

Lemma contiguous_types (n : nat) (ord i ty : Z) (m m' : amount) :
  (forall o, d_type <$> dev_at m' o = d_type <$> dev_at m o) ->
  contiguous n ord i ty m' = contiguous n ord i ty m.
Proof.
  intros H. revert ord. induction n as [|n IH]; intros ord; cbn [contiguous]; [reflexivity|].
  specialize (H (i + ord)). destruct (dev_at m' (i + ord)), (dev_at m (i + ord)); cbn in H; try discriminate;
    [|reflexivity]. injection H as ->. now rewrite IH.
Qed.

Lemma members_snoc (t : disk_type) (m : amount) (i : Z) :
  0 <= i -> members t m (i + 1) = members t m i ++ (if wanted t m i then [i] else []).
Proof.
  intros Hi. unfold members. rewrite seqZ_app by lia.
  rewrite filter_app. f_equal. rewrite Z.add_0_l, seqZ_cons by lia. change (seqZ _ _) with (@nil Z). destruct (wanted t m i) eqn:E.
  - now rewrite filter_cons_True.
  - rewrite filter_cons_False by congruence. reflexivity.
Qed.

Lemma members_elem (t : disk_type) (m : amount) (i o : Z) :
  o ∈ members t m i <-> wanted t m o = true /\ 0 <= o < i.
Proof. unfold members. rewrite list_elem_of_filter, elem_of_seqZ. intuition lia. Qed.

Lemma last_elem {A : Type} (l : list A) (x : A) : last l = Some x -> x ∈ l.
Proof. intros E. apply last_Some in E as [l0 ->]. set_solver. Qed.

(** The frame of one step, for the invariant. *)
Lemma mount_step (m0 m m' : amount) (i : Z) (d : samdent) (e : sbord) :
  0 <= i -> mount_inv m0 i m -> dev_at m i = Some d -> m_eq m0 !! Z.to_nat i = Some e ->
  m_eq m' = m_eq m -> length (m_fs m') = length (m_fs m) ->
  (forall o, i < o -> dev_at m' o = dev_at m o) ->
  (forall o d, dev_at m o = Some d -> exists d', dev_at m' o = Some d' /\ d_type d' = d_type d /\
     (if o =? i then d_dt d' = list_of (d_type d) /\ d_num_group d' = e_num_group e
      else d_dt d' = d_dt d /\ d_num_group d' = d_num_group d)) ->
  (forall t, links_ok t (members t m0 (i + 1)) m') ->
  mount_inv m0 (i + 1) m'.
Proof.
  intros Hi [M1 M2 M3 M4 M5 M6] Ed Ee E1 E2 E3 E4 E5. split; auto; try congruence.
  - intros o Ho. rewrite E3, M3 by lia. reflexivity.
  - intros o. rewrite <- M4. destruct (dev_at m o) as [do|] eqn:Eo.
    + destruct (E4 o do Eo) as (d' & -> & T & _). cbn. now rewrite T.
    + destruct (dev_at m' o) as [d'|] eqn:Eo'; [|reflexivity]. exfalso.
      apply dev_at_range in Eo'. rewrite E2 in Eo'. apply dev_at_some in Eo' as [? ?]. congruence.
  - intros o d' e' Ho Ed' Ee'.
    destruct (dev_at_some m o) as [do Eo]; [rewrite <- E2; now apply dev_at_range in Ed'|].
    destruct (E4 o do Eo) as (d'' & Ed'' & Et & H). rewrite Ed' in Ed''. injection Ed'' as <-.
    rewrite Et. destruct (Z.eqb_spec o i) as [->|Hne].
    + rewrite Ed in Eo. injection Eo as <-. rewrite Ee in Ee'. injection Ee' as <-. exact H.
    + destruct H as [-> ->]. destruct (M5 o do e' ltac:(lia) Eo Ee') as [-> ->]. auto.
Qed.

Lemma wanted_use (m0 m : amount) (i o : Z) (t : disk_type) :
  mount_inv m0 i m -> o < i -> in_use t m o -> wanted t m0 o = true.
Proof.
  intros MI Ho (d & e & Ed & Ee & Et & Eg & Es). rewrite (mi_eq _ _ _ MI) in Ee.
  destruct (mi_done _ _ _ MI o d e Ho Ed Ee) as [D1 D2].
  pose proof (mi_type _ _ _ MI o) as T. rewrite Ed in T. unfold wanted.
  destruct (dev_at m0 o) as [d0|]; cbn in T; [|discriminate]. injection T as T. rewrite Ee, <- T, Es.
  rewrite bool_decide_eq_true_2 by congruence. cbn. rewrite <- D2. apply negb_true_iff. now apply Z.eqb_neq.
Qed.

Lemma wanted_type (t : disk_type) (m : amount) (o : Z) (d : samdent) :
  wanted t m o = true -> dev_at m o = Some d -> list_of (d_type d) = t.
Proof.
  unfold wanted. intros H E. rewrite E in H. destruct (m_eq m !! Z.to_nat o); [|discriminate].
  apply andb_true_iff in H as [H%bool_decide_eq_true _]. exact H.
Qed.

Lemma wanted_other (t t' : disk_type) (m : amount) (o : Z) :
  wanted t m o = true -> wanted t' m o = true -> t = t'.
Proof.
  intros H H'. destruct (dev_at m o) as [d|] eqn:E; [|unfold wanted in H; now rewrite E in H].
  rewrite <- (wanted_type t m o d H E). now apply (wanted_type t' m o d).
Qed.

Section Mount.
Context (m0 m : amount) (i : Z) (d : samdent) (e : sbord).
Context (HU : unlinked m0) (MI : mount_inv m0 i m) (Hi : 0 <= i).
Context (Ed : dev_at m0 i = Some d) (Ee : m_eq m0 !! Z.to_nat i = Some e).

Lemma mount_dev : dev_at m i = Some d.
Proof. rewrite (mi_rest _ _ _ MI) by lia. exact Ed. Qed.

Lemma mount_tables : tables_ok m.
Proof.
  destruct (ul_tables _ HU) as [T1 T2]. destruct MI as [M1 M2 _ _ _ _]. unfold tables_ok.
  rewrite M1, M2. auto.
Qed.

Lemma mount_new (t : disk_type) : i ∉ members t m0 i.
Proof. rewrite members_elem. lia. Qed.

(** A partition that is not in use. *)
Lemma mount_skip :
  off_or_down (e_state e) || (e_num_group e =? 0) = true ->
  exists m', sam_build_allocation_links i m = Done 0 m' /\ mount_inv m0 (i + 1) m'.
Proof.
  intros H. exists (refreshed i d e m). pose proof mount_dev as Ed'.
  assert (Ee' : m_eq m !! Z.to_nat i = Some e) by now rewrite (mi_eq _ _ _ MI).
  split.
  { apply build_skips; auto. apply orb_true_iff in H as [?|?%Z.eqb_eq]; auto. }
  apply (mount_step m0 m _ i d e); auto.
  - unfold refreshed. cbn. now rewrite length_alter.
  - intros o Ho. rewrite (refreshed_dev i o d e m Ed'). destruct (Z.eqb_spec o i); [lia|reflexivity].
  - intros o do Eo. rewrite (refreshed_dev i o d e m Ed').
    destruct (Z.eqb_spec o i) as [->|_]; [|eauto 6]. eexists. split; [reflexivity|].
    rewrite Ed' in Eo. injection Eo as <-. auto.
  - intros t. rewrite members_snoc by exact Hi.
    assert (W : wanted t m0 i = false) by (unfold wanted; rewrite Ed, Ee, H; apply andb_false_r).
    rewrite W, app_nil_r. apply refreshed_links; auto using mount_new. apply MI.
Qed.

(** A partition that is linked: the list of the other type does not change. *)
Lemma mount_other (t t' : disk_type) (m1 m' : amount) :
  wanted t m0 i = true -> t' <> t -> same_tables (refreshed i d e m) m1 ->
  link_frame t i (members t m0 i) m1 m' -> links_ok t' (members t' m0 (i + 1)) m'.
Proof.
  intros W Ht S F. rewrite members_snoc by exact Hi.
  assert (W' : wanted t' m0 i = false).
  { destruct (wanted t' m0 i) eqn:W'; [|reflexivity]. now destruct Ht; apply (wanted_other _ _ m0 i). }
  rewrite W', app_nil_r. apply (links_frame t' _ m1).
  - eapply same_tables_links; [exact S|].
    apply refreshed_links; auto using mount_dev, mount_new. apply MI.
  - apply F.
  - now apply F.
  - now apply F.
  - intros o do Ho Eo. exists do. split; [|repeat split].
    rewrite <- Eo. apply F.
    + intros Ho'. apply members_elem in Ho as [Wo _], Ho' as [Wo' _].
      apply Ht. now apply (wanted_other _ _ m0 o).
    + intros ->. now apply mount_new in Ho.
Qed.

Lemma mount_link :
  off_or_down (e_state e) || (e_num_group e =? 0) = false ->
  exists m', sam_build_allocation_links i m = Done 0 m' /\ mount_inv m0 (i + 1) m'.
Proof.
  intros H. pose proof mount_dev as Ed'. set (t := list_of (d_type d)).
  assert (W : wanted t m0 i = true).
  { unfold wanted. rewrite Ed, Ee, H, bool_decide_eq_true_2 by reflexivity. reflexivity. }
  apply orb_false_iff in H as [Hs Hg%Z.eqb_neq].
  assert (HK : linkable i m d e).
  { split; [exact Ed'|]. rewrite (mi_eq _ _ _ MI). split; [exact Ee|]. split; [exact Hs|].
    split; [exact Hg|]. split; [now apply (ul_next _ HU i)|].
    rewrite (contiguous_types _ _ _ _ m0) by (intros; apply MI). now apply (ul_groups _ HU). }
  destruct (build_spec i m d e (members t m0 i) HK mount_tables) as (m1 & m' & S & E & L & F).
  - apply MI.
  - apply mount_new.
  - intros Hl ->. apply Hl. reflexivity.
  - intros x o Hx%last_elem Ho _ U. apply members_elem in Hx as [_ Hx]. apply members_elem.
    split; [|apply in_use_range in U; lia]. eapply wanted_use; [exact MI|lia|exact U].
  - exists m'. split; [exact E|]. fold t in L, F.
    assert (D1 : forall o, dev_at m1 o = dev_at (refreshed i d e m) o)
      by (intros; now apply same_tables_dev).
    apply (mount_step m0 m m' i d e); auto.
    + rewrite (fr_eq _ _ _ _ _ F). now destruct S.
    + rewrite (fr_len _ _ _ _ _ F). destruct S as [-> _ _ _]. unfold refreshed. cbn. apply length_alter.
    + intros o Ho. rewrite (fr_dev _ _ _ _ _ F), D1, (refreshed_dev i o d e m Ed').
      * destruct (Z.eqb_spec o i); [lia|reflexivity].
      * rewrite members_elem. lia.
      * lia.
    + intros o do Eo. assert (Eo1 : exists d1, dev_at m1 o = Some d1 /\ d_type d1 = d_type do /\
        (if o =? i then d_dt d1 = list_of (d_type do) /\ d_num_group d1 = e_num_group e
         else d_dt d1 = d_dt do /\ d_num_group d1 = d_num_group do)).
      { rewrite D1, (refreshed_dev i o d e m Ed'). destruct (Z.eqb_spec o i) as [->|_]; [|eauto 6].
        rewrite Ed' in Eo. injection Eo as <-. eexists. split; [reflexivity|]. auto. }
      destruct Eo1 as (d1 & Eo1 & T1 & H1).
      destruct (fr_same _ _ _ _ _ F o d1 Eo1) as (d2 & -> & T2 & T3 & T4 & _).
      exists d2. rewrite T2, T3, T4. auto.
    + intros t'. destruct (decide (t' = t)) as [->|Ht]; [|now apply (mount_other t t' m1 m')].
      rewrite members_snoc, W by exact Hi. exact L.
Qed.
End Mount.

Lemma build_all_spec (m0 : amount) (n : nat) (i : Z) (m : amount) :
  unlinked m0 -> mount_inv m0 i m -> 0 <= i -> i + Z.of_nat n = Z.of_nat (length (m_fs m0)) ->
  exists m', build_all n i m = Done 0 m' /\ mount_inv m0 (i + Z.of_nat n) m'.
Proof.
  intros HU. revert i m. induction n as [|n IH]; intros i m MI Hi Hn.
  { exists m. rewrite Z.add_0_r. now split. }
  destruct (ul_tables _ HU) as [T1 T2]. destruct (dev_at_some m0 i) as [d Ed]; [lia|].
  destruct (lookup_lt_is_Some_2 (m_eq m0) (Z.to_nat i)) as [e Ee]; [lia|].
  assert (S : exists m1, sam_build_allocation_links i m = Done 0 m1 /\ mount_inv m0 (i + 1) m1).
  { destruct (off_or_down (e_state e) || (e_num_group e =? 0)) eqn:H;
      [eapply mount_skip|eapply mount_link]; eauto. }
  destruct S as (m1 & E1 & M1). cbn [build_all]. rewrite (bind_run _ _ _ _ _ E1). cbn [Z.eqb negb].
  destruct (IH (i + 1) m1 M1) as (m' & E & M'); [lia|lia|]. exists m'. split; [exact E|].
  now replace (i + Z.of_nat (S n)) with (i + 1 + Z.of_nat n) by lia.
Qed.

Lemma mount_inv_start (m : amount) : unlinked m -> mount_inv m 0 m.
Proof.
  intros HU. split; auto; [intros o d e Ho Ed; apply dev_at_range in Ed; lia|].
  intros t. unfold members. cbn.
  split; cbn; try set_solver; [rewrite (ul_max _ HU); now destruct t|constructor].
Qed.

(** C24. Mounting links all partitions that are in use, and only those, into the lists of
    their types, in the order of their ordinals. *)
Theorem mount_links_partitions_in_use (m : amount) :
  unlinked m ->
  exists m', build_all (length (m_fs m)) 0 m = Done 0 m' /\
    forall t, links_ok t (members t m (Z.of_nat (length (m_fs m)))) m'.
Proof.
  intros HU. destruct (build_all_spec m (length (m_fs m)) 0 m HU (mount_inv_start m HU)) as (m' & E & MI);
    [lia|lia|]. rewrite Z.add_0_l in MI. exists m'. split; [exact E|]. apply MI.
Qed.

(** ** Removal *)

Lemma filter_without (o : Z) (l : list Z) : o ∉ l -> base.filter (fun x => x <> o) l = l.
Proof.
  induction l as [|x l IH]; intros H; [reflexivity|].
  rewrite filter_cons_True by set_solver. f_equal. apply IH. set_solver.
Qed.

Section Remove.
Context (t : disk_type) (o : Z) (m : amount) (d : samdent).
Context (HT : tables_ok m) (Ed : dev_at m o = Some d).

(** [o] is taken out behind [prev]. *)
Definition removed (prev : option Z) : amount :=
  let m1 := match prev with
            | None => set_dk_start (dt_set (m_dk_start m) t (swrap 16 (d_next_ord d))) m
            | Some p => set_mfs (alter (set_next_ord (d_next_ord d)) (Z.to_nat p) (m_fs m)) m
            end in
  let m2 := set_mfs (alter (set_next_ord 0) (Z.to_nat o) (m_fs m1)) m1 in
  let m3 := set_dk_max (dt_set (m_dk_max m2) t (swrap 16 (dt_get (m_dk_max m2) t - 1))) m2 in
  set_mfs (alter (set_linked false true) (Z.to_nat o) (m_fs m3)) m3.

Lemma removed_dev (prev : option Z) (x : Z) :
  (forall p, prev = Some p -> 0 <= p) ->
  dev_at (removed prev) x
  = (if x =? o then set_linked false true ∘ set_next_ord 0 else id)
    ∘ (if bool_decide (prev = Some x) then set_next_ord (d_next_ord d) else id) <$> dev_at m x.
Proof.
  intros Hp. pose proof (dev_at_range m o d Ed) as Ro. unfold removed. cbv zeta.
  rewrite dev_at_alter by lia.
  change (dev_at (set_dk_max ?v ?w) x) with (dev_at w x). rewrite dev_at_alter by lia.
  destruct prev as [p|].
  - rewrite dev_at_alter by now apply Hp. destruct (Z.eqb_spec x p) as [->|Hne].
    + rewrite bool_decide_eq_true_2 by reflexivity. destruct (p =? o), (dev_at m p); reflexivity.
    + rewrite bool_decide_eq_false_2 by congruence. destruct (x =? o), (dev_at m x); reflexivity.
  - change (dev_at (set_dk_start ?v ?w) x) with (dev_at w x).
    rewrite bool_decide_eq_false_2 by discriminate. destruct (x =? o), (dev_at m x); reflexivity.
Qed.

(** The loop, with the part [l1] of the list still before [o]. *)
Lemma remove_loop_spec (l1 l2 : list Z) (n : nat) (prev : option Z) (cur : Z) :
  seg (nx m) cur (l1 ++ o :: l2) 0 -> o ∉ l1 -> (length l1 < n)%nat -> 0 ∉ tail (l1 ++ [o]) ->
  (forall x, x ∈ l1 -> is_Some (dev_at m x)) ->
  remove_loop n t o prev cur m = Done tt (removed (match last l1 with Some p => Some p | None => prev end)).
Proof.
  revert n prev cur. induction l1 as [|x l1 IH]; intros n prev cur S Ho Hn Hz Hd;
    (destruct n as [|n]; [cbn in Hn; lia|]); cbn [app seg] in S; destruct S as [-> S];
    cbn [remove_loop].
  - rewrite Z.eqb_refl. rewrite (bind_run _ _ _ _ _ (get_dev_run m o d Ed)).
    destruct prev as [p|]; reflexivity.
  - destruct (Z.eqb_spec x o) as [->|_]; [set_solver|].
    destruct (Hd x ltac:(set_solver)) as [dx Ex].
    rewrite (bind_run _ _ _ _ _ (get_dev_run m x dx Ex)).
    assert (En : d_next_ord dx = nx m x) by (unfold nx; now rewrite Ex). rewrite En.
    assert (Hh : exists y l', l1 ++ o :: l2 = y :: l' /\ y <> 0 /\ nx m x = y).
    { destruct l1 as [|y l1]; cbn [app] in *; cbn [seg] in S; eexists _, _; (split; [reflexivity|]);
        destruct S as [-> _]; (split; [|reflexivity]); intros E; apply Hz; cbn; rewrite E; set_solver. }
    destruct Hh as (y & l' & _ & Hy & Ey). rewrite Ey.
    destruct (Z.eqb_spec y 0); [contradiction|]. rewrite <- Ey.
    rewrite (IH n (Some x) (nx m x)); [|exact S|set_solver|cbn in Hn; lia| |].
    + destruct l1 as [|z l1]; [reflexivity|].
      change (last (x :: z :: l1)) with (last (z :: l1)).
      destruct (last (z :: l1)) eqn:El; [reflexivity|now apply last_None in El].
    + destruct l1; cbn in *; set_solver.
    + intros z Hz'. apply Hd. set_solver.
Qed.

Lemma removed_links (l1 l2 : list Z) :
  links_ok t (l1 ++ o :: l2) m ->
  links_ok t (l1 ++ l2) (removed (last l1)).
Proof.
  intros HL. pose proof (links_length t _ m HL HT) as Ll. pose proof HL as [L1 L2 L3 L4 L5].
  specialize (L2 ltac:(now destruct l1)). destruct HT as [T1 T2].
  apply NoDup_app in L4 as (N1 & N2 & N3). apply NoDup_cons in N3 as [N3 N4].
  assert (Hp : forall p, last l1 = Some p -> 0 <= p).
  { intros p Hp%last_elem. assert (U : in_use t m p) by (apply L5; set_solver).
    apply in_use_range in U. lia. }
  assert (DV : forall x, x ∈ l1 ++ l2 -> nx (removed (last l1)) x
    = if bool_decide (last l1 = Some x) then nx m o else nx m x).
  { intros x Hx. unfold nx at 1. rewrite removed_dev by exact Hp.
    assert (x <> o) by (intros ->; set_solver). destruct (Z.eqb_spec x o); [contradiction|].
    assert (U : in_use t m x) by (apply L5; set_solver). destruct U as (dx & _ & Ex & _). rewrite Ex.
    unfold nx. rewrite Ex, Ed. cbn. now destruct (bool_decide _). }
  apply seg_app in L2 as (r & S1 & S2). cbn in S2. destruct S2 as [-> S2].
  assert (S2' : seg (nx (removed (last l1))) (nx m o) l2 0).
  { apply (seg_ext (nx m)); [|exact S2]. intros x Hx. rewrite DV by set_solver.
    rewrite bool_decide_eq_false_2; [reflexivity|]. intros E%last_elem. apply (N2 x E). set_solver. }
  split.
  - unfold removed. destruct (last l1); cbn; rewrite dt_get_set, decide_True by reflexivity;
      rewrite L1, !length_app in *; cbn in *; rewrite swrap_id; unfold sint_range; lia.
  - intros Hl. destruct (last l1) as [p|] eqn:El.
    + apply last_Some in El as [l0 ->]. rewrite <- app_assoc. apply seg_app in S1 as (r & S1 & S1').
      cbn in S1'. destruct S1' as [-> _]. apply seg_app. exists p. split.
      * apply (seg_ext (nx m)); [|exact S1]. intros x Hx. rewrite DV by set_solver.
        rewrite bool_decide_eq_false_2; [reflexivity|]. intros [= ->].
        apply NoDup_app in N1 as (_ & N1 & _). apply (N1 x Hx). set_solver.
      * cbn [app seg]. split; [reflexivity|]. rewrite DV, bool_decide_eq_true_2 by set_solver. exact S2'.
    + apply last_None in El as ->. cbn [app] in *.
      unfold removed at 2. cbn. rewrite dt_get_set, decide_True by reflexivity.
      assert (En : d_next_ord d = nx m o) by (unfold nx; now rewrite Ed). rewrite En, swrap_id; auto; [lia|].
      destruct l2 as [|y l2]; [contradiction|]. cbn in S2. destruct S2 as [-> _].
      assert (U : in_use t m y) by (apply L5; set_solver). apply in_use_range in U. unfold sint_range. lia.
  - destruct l1 as [|z l1]; cbn in *; [destruct l2; set_solver|set_solver].
  - apply NoDup_app. split; [exact N1|]. split; [|exact N4]. intros x Hx Hx'. apply (N2 x Hx). set_solver.
  - intros x Hx. assert (x <> o) by (intros ->; set_solver).
    assert (U : in_use t m x) by (apply L5; set_solver). destruct U as (dx & e & Ex & Ee & Xt & Xg & Xs).
    eexists _, e. rewrite removed_dev, Ex by exact Hp. destruct (Z.eqb_spec x o); [contradiction|].
    split; [reflexivity|]. split; [unfold removed; now destruct (last l1)|].
    destruct (bool_decide _); cbn; auto.
Qed.
End Remove.

(** Taking a partition out of service takes it out of its list, and leaves the rest
    of the list and the other list as they are; the partition is skipped from then on. *)
Theorem sam_remove_from_allocation_links_unlinks (t t' : disk_type) (l l' : list Z) (o : Z)
    (m : amount) (d : samdent) :
  tables_ok m -> links_ok t l m -> t' <> t -> links_ok t' l' m -> o ∈ l ->
  dev_at m o = Some d -> list_of (d_type d) = t ->
  exists m', sam_remove_from_allocation_links o m = Done 0 m' /\
    links_ok t (base.filter (fun x => x <> o) l) m' /\ links_ok t' l' m' /\
    exists d', dev_at m' o = Some d' /\ d_alloc_link d' = false /\ d_skip_ord d' = true.
Proof.
  intros HT HL Ht HL' Ho Ed Et. apply list_elem_of_split in Ho as (l1 & l2 & ->).
  pose proof HL as [L1 L2 L3 L4 L5].
  assert (Ho1 : o ∉ l1) by (apply NoDup_app in L4 as (_ & N & _); intros H; apply (N o H); set_solver).
  assert (Ho2 : o ∉ l2) by (apply NoDup_app in L4 as (_ & _ & N); now apply NoDup_cons in N).
  assert (Hp : forall p, last l1 = Some p -> 0 <= p).
  { intros p Hp%last_elem. assert (U : in_use t m p) by (apply L5; set_solver).
    apply in_use_range in U. lia. }
  exists (removed t o m d (last l1)). split.
  - unfold sam_remove_from_allocation_links. rewrite (bind_run _ _ _ _ _ (get_dev_run m o d Ed)).
    rewrite (bind_run _ _ _ _ _ (gets_run id m)). unfold id. fold (list_of (d_type d)). rewrite Et, L1, Nat2Z.id.
    erewrite bind_run; [|apply (remove_loop_spec t o m d HT Ed l1 l2)].
    + now destruct (last l1).
    + apply L2. now destruct l1.
    + exact Ho1.
    + rewrite length_app. cbn. lia.
    + destruct l1; cbn in *; set_solver.
    + intros x Hx. assert (U : in_use t m x) by (apply L5; set_solver). destruct U as (dx & _ & Ex & _). eauto.
  - split; [|split].
    + rewrite filter_app, filter_cons_False by (intros H; now apply H).
      rewrite !filter_without by assumption.
      now apply removed_links.
    + assert (N : forall x, x ∈ l' -> x ∉ l1 ++ o :: l2).
      { intros x Hx Hx'. destruct (lk_use _ _ _ HL' x Hx) as (d1 & _ & E1 & _ & T1 & _).
        destruct (L5 x Hx') as (d2 & _ & E2 & _ & T2 & _). congruence. }
      apply (links_frame t' l' m); auto; try (unfold removed; destruct (last l1); cbn;
        rewrite ?dt_get_set, ?decide_False by auto; reflexivity).
      intros x dx Hx Ex. rewrite removed_dev, Ex by auto. eexists. split; [reflexivity|].
      specialize (N x Hx). destruct (Z.eqb_spec x o) as [->|_]; [set_solver|].
      rewrite bool_decide_eq_false_2; [repeat split|]. intros E%last_elem. set_solver.
    + rewrite removed_dev, Ed, Z.eqb_refl by auto. eexists. split; [reflexivity|]. auto.
Qed.
