(* ===== verification/AllocUnits.v ===== *)
(** * Choosing partitions

    Going round a list of partitions, the choice of the partition of a new file, and
    allocation of a block over all partitions of a list. *)

From S2P Require Import Prelude Dau Bitmap BlockPool BlockScan Monad BlockAlloc BlockRefill BlockFree BlockSys BlockThms AllocLinks AllocThms.

(** ** Going round *)

(** The partition after [u]. *)
Definition nu (m : amount) (t : disk_type) (u : Z) : Z :=
  match dev_at m u with Some d => next_unit m t u d | None => u end.

Section Round.
Context (t : disk_type) (l : list Z) (m : amount) (HL : links_ok t l m).

Lemma nu_member (u : Z) :
  u ∈ l -> nu m t u = if nx m u =? 0 then dt_get (m_dk_start m) t else nx m u.
Proof.
  intros Hu. destruct (lk_use _ _ _ HL u Hu) as (d & _ & Ed & _). unfold nu, nx, next_unit. rewrite Ed.
  rewrite (lk_max _ _ _ HL). destruct (d_next_ord d =? 0); [|reflexivity]. cbn [negb].
  destruct (Z.ltb_spec 0 (Z.of_nat (length l))); [reflexivity|]. destruct l; [set_solver|cbn in *; lia].
Qed.

Lemma round_all : l <> [] -> seg (nu m t) (dt_get (m_dk_start m) t) l (dt_get (m_dk_start m) t).
Proof.
  intros Hl. pose proof (lk_seg _ _ _ HL Hl) as S.
  destruct (last l) as [x|] eqn:El; [|now apply last_None in El].
  destruct (links_last t l m x HL El) as [Nx No]. pose proof (lk_nodup _ _ _ HL) as ND.
  pose proof nu_member as NM. apply last_Some in El as [l0 E]. rewrite E in *.
  apply seg_app in S as (r & S1 & S2). cbn in S2. destruct S2 as [-> _].
  apply NoDup_app in ND as (_ & ND & _). apply seg_app. exists x. split.
  - apply (seg_ext (nx m)); [|exact S1]. intros z Hz. rewrite NM by set_solver.
    destruct (Z.eqb_spec (nx m z) 0) as [E0|_]; [|reflexivity].
    exfalso. apply (No z); [set_solver|intros ->; apply (ND x Hz); set_solver|exact E0].
  - cbn. split; [reflexivity|]. rewrite NM by set_solver. now rewrite Nx.
Qed.

(** From any member, round the list and back. *)
Lemma round_from (l1 l2 : list Z) (u : Z) :
  l = l1 ++ u :: l2 -> seg (nu m t) u (u :: l2 ++ l1) u.
Proof.
  intros E. assert (Hl : l <> []) by (rewrite E; now destruct l1).
  pose proof (round_all Hl) as S. rewrite E in S. apply seg_app in S as (r & S1 & S2).
  cbn [seg] in S2. destruct S2 as [-> S2]. cbn [seg]. split; [reflexivity|].
  apply seg_app. eauto.
Qed.

Lemma nu_in (u : Z) : u ∈ l -> nu m t u ∈ l.
Proof.
  intros Hu. apply list_elem_of_split in Hu as (l1 & l2 & E). pose proof (round_from l1 l2 u E) as S.
  cbn [seg] in S. destruct S as [_ S]. rewrite E. destruct (l2 ++ l1) as [|y l3] eqn:El; cbn in S.
  - rewrite S. set_solver.
  - destruct S as [-> _]. assert (y ∈ l2 ++ l1) by (rewrite El; set_solver). set_solver.
Qed.
End Round.

(** ** The partition of a new file *)

(** A partition that can take a file. *)
Definition fits (pool : Z) (d : samdent) : bool :=
  bool_decide (d_state d = DEV_ON /\ f_space (d_fs d) <> 0 /\ (pool = 0 \/ d_type d = pool)).

Lemma unfit_fits (pool : Z) (d : samdent) : unfit pool d = negb (fits pool d).
Proof.
  unfold unfit, fits. destruct (Z.eqb_spec (f_space (d_fs d)) 0), (Z.eqb_spec pool 0),
    (Z.eqb_spec (d_type d) pool), (decide (d_state d = DEV_ON)); cbn [orb andb negb];
    repeat case_bool_decide; naive_solver.
Qed.

(** The first partition of [l] that can take a file. *)
Fixpoint first_fit (pool : Z) (m : amount) (l : list Z) : option Z :=
  match l with
  | [] => None
  | x :: l' =>
      match dev_at m x with
      | Some d => if fits pool d then Some x else first_fit pool m l'
      | None => None
      end
  end.

Lemma first_fit_in (pool : Z) (m : amount) (l : list Z) (x : Z) : first_fit pool m l = Some x -> x ∈ l.
Proof.
  induction l as [|y l IH]; cbn; [easy|]. destruct (dev_at m y) as [d|]; [|easy].
  destruct (fits pool d); [intros [= ->]; set_solver|]. intros E. apply IH in E. set_solver.
Qed.

Lemma unit_loop_spec (t : disk_type) (l : list Z) (m : amount) (pool z : Z) (r : list Z) (fuel : nat) (ord : Z) :
  links_ok t l m -> (forall x, x ∈ ord :: r -> x ∈ l) -> z ∉ r ->
  seg (nu m t) ord (ord :: r) z -> (length r < fuel)%nat ->
  unit_loop fuel t pool z ord m = Done (default z (first_fit pool m (ord :: r))) m.
Proof.
  intros HL. revert fuel ord. induction r as [|y r IH]; intros fuel ord Hin Hz S Hf;
    (destruct fuel as [|fuel]; [cbn in Hf; lia|]).
  all: assert (Ho : ord ∈ l) by (apply Hin; set_solver).
  all: destruct (lk_use _ _ _ HL ord Ho) as (d & e & Ed & _).
  all: cbn [unit_loop first_fit]; rewrite (bind_run _ _ _ _ _ (get_dev_run m ord d Ed)), Ed.
  all: rewrite unfit_fits; destruct (fits pool d); [reflexivity|]; cbn [negb].
  all: rewrite (bind_run _ _ _ _ _ (gets_run id m)); cbv zeta; unfold id.
  all: pose proof (nu_member t l m HL ord Ho) as NM; unfold nx in NM; rewrite Ed in NM.
  all: assert (En : (if negb (d_next_ord d =? 0) then d_next_ord d else dt_get (m_dk_start m) t) = nu m t ord)
        by (rewrite NM; now destruct (d_next_ord d =? 0)).
  all: rewrite En; cbn [seg] in S; destruct S as [_ S].
  - rewrite S, Z.eqb_refl. reflexivity.
  - destruct S as [Ey S]. rewrite Ey. destruct (Z.eqb_spec y z) as [->|_]; [set_solver|].
    apply IH; [|set_solver|now split|cbn in Hf; lia]. intros x Hx. apply Hin. set_solver.
Qed.

(** Only turns have changed. *)
Definition turn_frame (m m' : amount) : Prop :=
  m_eq m' = m_eq m /\ m_dk_start m' = m_dk_start m /\ m_dk_max m' = m_dk_max m /\
  forall o d, dev_at m o = Some d -> exists v, dev_at m' o = Some (set_dk_unit v d).

Lemma turn_links (t : disk_type) (l : list Z) (m m' : amount) :
  turn_frame m m' -> links_ok t l m -> links_ok t l m'.
Proof.
  intros (E1 & E2 & E3 & H) HL. apply (links_frame t l m); auto; try congruence.
  intros o d _ Ed. destruct (H o d Ed) as (v & Ev). eexists. split; [exact Ev|]. repeat split.
Qed.

Lemma set_turn_frame (m : amount) (o v : Z) (d : samdent) :
  dev_at m o = Some d ->
  turn_frame m (set_mfs (alter (set_dk_unit v) (Z.to_nat o) (m_fs m)) m).
Proof.
  intros Ed. pose proof (dev_at_range m o d Ed). split; [reflexivity|]. split; [reflexivity|].
  split; [reflexivity|]. intros x dx Ex. rewrite dev_at_alter by lia. rewrite Ex.
  destruct (x =? o); [eauto|]. exists (d_dk_unit dx). now destruct dx.
Qed.

(** A new file of type [t] that belongs to no striped group or object pool. *)
Definition plain_new (m : amount) (t : disk_type) (di : dinode) : Prop :=
  t = (if i_dir di && negb (m_mm_count m =? 0) || i_meta di then MM else DD) /\
  (t = MM \/ m_object_fs m = false /\ i_sg di = false).

(** The turn after [ord]. *)
Lemma next_turn (t : disk_type) (l : list Z) (m : amount) (ord : Z) (d : samdent) :
  links_ok t l m -> ord ∈ l -> dev_at m ord = Some d ->
  (if negb (d_next_ord d =? 0) then d_next_ord d else dt_get (m_dk_start m) t) ∈ l.
Proof.
  intros HL Ho Ed. pose proof (nu_in t l m HL ord Ho) as H. rewrite (nu_member t l m HL ord Ho) in H.
  unfold nx in H. rewrite Ed in H. now destruct (d_next_ord d =? 0).
Qed.

(** [sam_set_unit] looks for a unit from the one whose turn it is. *)
Lemma set_unit_start (fuel : nat) (m : amount) (t : disk_type) (di : dinode) (d : samdent) :
  plain_new m t di -> 0 < dt_get (m_dk_max m) t -> dev_at m (dt_get (m_dk_start m) t) = Some d ->
  exists k : Z -> M amount (Z * dinode),
    sam_set_unit fuel di m = (unit_loop fuel t 0 (d_dk_unit d) (d_dk_unit d) ≫= k) m /\
    forall ord dord, dev_at m ord = Some dord ->
    exists di', i_unit di' = uwrap 8 ord /\ type_of di' = t /\
      k ord m = Done (0, di') (set_mfs (alter (set_dk_unit (uwrap 16 (if negb (d_next_ord dord =? 0)
        then d_next_ord dord else dt_get (m_dk_start m) t)))
        (Z.to_nat (dt_get (m_dk_start m) t)) (m_fs m)) m).
Proof.
  intros [Et Hp] Hm Ed. unfold sam_set_unit. rewrite (bind_run _ _ _ _ _ (gets_run id m)).
  unfold id. cbv zeta. cbn [i_dir i_meta i_sg i_stripe_group i_stripe_width i_stripe i_unit i_blocks i_on_large].
  set (meta := if i_dir di && negb (m_mm_count m =? 0) then true else i_meta di).
  assert (Et' : type_of (mk_dinode (i_dir di) meta (i_sg di) (i_stripe_group di) (i_stripe_width di)
    (i_stripe di) 0 (i_unit di) (i_blocks di) (i_on_large di)) = t).
  { rewrite Et. unfold type_of, meta. cbn. now destruct (i_dir di && _), (i_meta di). }
  rewrite Et'. match goal with |- context [negb (?p =? 0)] =>
    lazymatch p with context [m_object_fs] => assert (E0 : p = 0) end end.
  { destruct Hp as [-> |[-> ->]]; [reflexivity|]. now destruct t. }
  rewrite E0. cbn [Z.eqb negb]. destruct (Z.ltb_spec 0 (dt_get (m_dk_max m) t)); [|lia].
  erewrite bind_run; [|rewrite (bind_run _ _ _ _ _ (get_dev_run m _ d Ed)); reflexivity].
  cbv iota. eexists. split; [reflexivity|]. intros ord dord Eord. cbv beta.
  rewrite (bind_run _ _ _ _ _ (get_dev_run m ord dord Eord)).
  erewrite bind_run by reflexivity. eexists. split; [|split; [|reflexivity]]; [reflexivity|exact Et'].
Qed.

Lemma set_unit_run (fuel : nat) (m : amount) (t : disk_type) (di : dinode) (d dord : samdent) (u ord : Z) :
  plain_new m t di -> 0 < dt_get (m_dk_max m) t -> dev_at m (dt_get (m_dk_start m) t) = Some d ->
  d_dk_unit d = u -> unit_loop fuel t 0 u u m = Done ord m -> dev_at m ord = Some dord ->
  exists di', i_unit di' = uwrap 8 ord /\ type_of di' = t /\
    sam_set_unit fuel di m
    = Done (0, di') (set_mfs (alter (set_dk_unit (uwrap 16 (if negb (d_next_ord dord =? 0)
        then d_next_ord dord else dt_get (m_dk_start m) t)))
        (Z.to_nat (dt_get (m_dk_start m) t)) (m_fs m)) m).
Proof.
  intros Hp Hm Ed <- UL Eord. destruct (set_unit_start fuel m t di d Hp Hm Ed) as (k & E & H).
  destruct (H ord dord Eord) as (di' & E1 & E2 & E3). exists di'. split; [exact E1|]. split; [exact E2|].
  now rewrite E, (bind_run _ _ _ _ _ UL).
Qed.

Lemma set_unit_fault (fuel : nat) (m : amount) (t : disk_type) (di : dinode) (d : samdent) :
  plain_new m t di -> 0 < dt_get (m_dk_max m) t -> dev_at m (dt_get (m_dk_start m) t) = Some d ->
  unit_loop fuel t 0 (d_dk_unit d) (d_dk_unit d) m = Fault OutOfFuel ->
  sam_set_unit fuel di m = Fault OutOfFuel.
Proof.
  intros Hp Hm Ed UL. destruct (set_unit_start fuel m t di d Hp Hm Ed) as (k & E & _). rewrite E.
  unfold mbind, M_bind. now rewrite UL.
Qed.

(** C25. A new file that belongs to no striped group or object pool goes to the first
    partition of its list, from the one whose turn it is, that is on and has space, and to
    the one whose turn it is when there is none; the search ends, and the next turn is that
    of a member of the list again. The partition whose turn it is has to be a member of the
    list: when the head of the list has been taken out it need not be, and the search may
    not end ([lost_turn_loops_forever]). *)
Theorem sam_set_unit_first_fit (fuel : nat) (m : amount) (t : disk_type) (di : dinode)
    (l1 l2 : list Z) (u : Z) (d : samdent) :
  tables_ok m -> plain_new m t di -> links_ok t (l1 ++ u :: l2) m ->
  dev_at m (dt_get (m_dk_start m) t) = Some d -> d_dk_unit d = u ->
  (length (l1 ++ u :: l2) <= fuel)%nat ->
  exists m' di', sam_set_unit fuel di m = Done (0, di') m' /\
    i_unit di' = default u (first_fit 0 m (u :: l2 ++ l1)) /\
    links_ok t (l1 ++ u :: l2) m' /\
    exists d', dev_at m' (dt_get (m_dk_start m') t) = Some d' /\ d_dk_unit d' ∈ l1 ++ u :: l2.
Proof.
  intros HT Hp HL Ed Eu Hf. set (l := l1 ++ u :: l2) in *.
  pose proof (unit_loop_spec t l m 0 u (l2 ++ l1) fuel u HL) as UL.
  assert (ND : u ∉ l2 ++ l1).
  { pose proof (lk_nodup _ _ _ HL) as N. unfold l in N. apply NoDup_app in N as (_ & N1 & N2).
    apply NoDup_cons in N2 as [N2 _]. intros [?|H]%elem_of_app; [auto|]. apply (N1 u H). set_solver. }
  assert (Hin : forall x, x ∈ u :: l2 ++ l1 -> x ∈ l) by (unfold l; set_solver).
  specialize (UL Hin ND (round_from t l m HL l1 l2 u eq_refl)).
  assert (Hlen : length l = (length l1 + S (length l2))%nat) by (unfold l; now rewrite length_app).
  rewrite length_app in UL. specialize (UL ltac:(lia)).
  set (ord := default u (first_fit 0 m (u :: l2 ++ l1))) in *.
  assert (Ho : ord ∈ l).
  { unfold ord. destruct (first_fit 0 m (u :: l2 ++ l1)) as [x|] eqn:E; cbn; [|unfold l; set_solver].
    apply Hin. now apply (first_fit_in 0 m). }
  destruct (lk_use _ _ _ HL ord Ho) as (dord & _ & Eord & _).
  destruct (set_unit_run fuel m t di d dord u ord Hp) as (di' & Ei & _ & E); auto.
  { rewrite (lk_max _ _ _ HL). lia. }
  eexists _, di'. split; [exact E|]. pose proof (dev_at_range m ord dord Eord) as Ro.
  pose proof (dev_at_range m _ d Ed) as Rh. destruct HT as [T1 T2].
  split; [rewrite Ei; apply uwrap_id; unfold uint_range; lia|].
  split; [eapply turn_links; [eapply set_turn_frame; exact Ed|exact HL]|].
  cbn. rewrite dev_at_alter, Z.eqb_refl, Ed by lia. cbn. eexists. split; [reflexivity|]. cbn.
  pose proof (next_turn t l m ord dord HL Ho Eord) as NT.
  rewrite uwrap_id; [exact NT|]. apply (lk_use _ _ _ HL), in_use_range in NT. unfold uint_range. lia.
Qed.

(** When the partition [u] whose turn it is is not in the list, [sam_set_unit] does not come
    back to it; if it is full as well as the partitions of the list, the search for the unit
    of a new file goes round for ever. *)
Lemma unit_loop_lost (t : disk_type) (l : list Z) (m : amount) (u : Z) (fuel : nat) (x : Z) :
  links_ok t l m -> u ∉ l ->
  (forall y, y ∈ l -> exists d, dev_at m y = Some d /\ unfit 0 d = true) ->
  x ∈ l -> unit_loop fuel t 0 u x m = Fault OutOfFuel.
Proof.
  intros HL Hu Hfull. revert x. induction fuel as [|fuel IH]; intros x Hx; [reflexivity|].
  cbn [unit_loop]. destruct (Hfull x Hx) as (d & Ed & Ef).
  rewrite (bind_run _ _ _ _ _ (get_dev_run m x d Ed)), Ef, (bind_run _ _ _ _ _ (gets_run id m)).
  cbv zeta. unfold id. pose proof (next_turn t l m x d HL Hx Ed) as Hn.
  destruct (Z.eqb_spec (if negb (d_next_ord d =? 0) then d_next_ord d else dt_get (m_dk_start m) t) u)
    as [E|_]; [congruence|]. now apply IH.
Qed.

Theorem lost_turn_loops_forever (fuel : nat) (m : amount) (t : disk_type) (di : dinode) (l : list Z)
    (d du : samdent) :
  plain_new m t di -> links_ok t l m -> l <> [] ->
  dev_at m (dt_get (m_dk_start m) t) = Some d -> d_dk_unit d ∉ l ->
  dev_at m (d_dk_unit d) = Some du -> unfit 0 du = true -> d_next_ord du = 0 ->
  (forall y, y ∈ l -> exists d, dev_at m y = Some d /\ unfit 0 d = true) ->
  sam_set_unit fuel di m = Fault OutOfFuel.
Proof.
  intros Hp HL Hl Ed Hu Eu Fu Nu Hfull.
  assert (UL : unit_loop fuel t 0 (d_dk_unit d) (d_dk_unit d) m = Fault OutOfFuel).
  { destruct fuel as [|fuel]; [reflexivity|]. cbn [unit_loop].
    rewrite (bind_run _ _ _ _ _ (get_dev_run m _ du Eu)), Fu, (bind_run _ _ _ _ _ (gets_run id m)).
    cbv zeta. unfold id. rewrite Nu. cbn [Z.eqb negb].
    assert (Hs : dt_get (m_dk_start m) t ∈ l).
    { pose proof (lk_seg _ _ _ HL Hl) as S. destruct l as [|y l]; [contradiction|]. destruct S as [-> _]. left. }
    destruct (Z.eqb_spec (dt_get (m_dk_start m) t) (d_dk_unit d)) as [E|_]; [congruence|].
    now apply (unit_loop_lost t l). }
  apply set_unit_fault with t d; auto. rewrite (lk_max _ _ _ HL). destruct l; [contradiction|cbn; lia].
Qed.

(** ** Allocation: the interface to the block thread

    [ready d]: the partition is in order; its pool of large blocks holds no block of the
    system area, and a thread that waits for it finds a block in the pool or the map
    marked as empty. *)
Class BlockThread (shift : Z) (ready : samdent -> Prop) (wait : Z -> amount -> amount) : Prop := {
  ready_pool : forall d b, ready d -> at_lg (f_pools (d_fs d)) = Some b ->
    pool_wf b /\ Forall (fun e => d_system d <= Z.shiftl e shift) (avail b);
  ready_wait : forall m u d b, dev_at m u = Some d -> ready d -> at_lg (f_pools (d_fs d)) = Some b ->
    exists s' b', wait u m = set_mfs (alter (set_dfs s') (Z.to_nat u) (m_fs m)) m /\
      ready (set_dfs s' d) /\ at_lg (f_pools s') = Some b' /\
      (avail b' <> [] \/ f_map_empty s' = true)
}.

(** The partition cannot supply a large block. *)
Definition exhausted (m : amount) (u : Z) : Prop :=
  exists d, dev_at m u = Some d /\
    match usable_pool d LG with
    | None => True
    | Some b => avail b = [] /\ (d_skip_ord d = true \/ f_map_empty (d_fs d) = true)
    end.

(** States that differ in the contents of partitions and in counters only. *)
Record alike (m m' : amount) : Prop := {
  al_eq : m_eq m' = m_eq m;
  al_start : m_dk_start m' = m_dk_start m;
  al_max : m_dk_max m' = m_dk_max m;
  al_mismatched : m_mismatched m' = m_mismatched m;
  al_mm_count : m_mm_count m' = m_mm_count m;
  al_shift : m_bn_shift m' = m_bn_shift m;
  al_thread : m_thread m' = m_thread m;
  al_dev : forall o d, dev_at m o = Some d -> exists s, dev_at m' o = Some (set_dfs s d)
}.

Lemma alike_refl (m : amount) : alike m m.
Proof. split; auto. intros o d E. exists (d_fs d). rewrite E. now destruct d. Qed.

Lemma alike_trans (m1 m2 m3 : amount) : alike m1 m2 -> alike m2 m3 -> alike m1 m3.
Proof.
  intros [] []. split; try congruence. intros o d E. destruct (al_dev0 o d E) as [s E'].
  destruct (al_dev1 o _ E') as [s' E'']. exists s'. now destruct d.
Qed.

Lemma alike_links (t : disk_type) (l : list Z) (m m' : amount) :
  alike m m' -> links_ok t l m -> links_ok t l m'.
Proof.
  intros [] HL. apply (links_frame t l m); auto; try congruence.
  intros o d _ Ed. destruct (al_dev0 o d Ed) as [s E]. eexists. split; [exact E|]. repeat split.
Qed.

Lemma alike_nu (t : disk_type) (l : list Z) (m m' : amount) (u : Z) :
  alike m m' -> links_ok t l m -> u ∈ l -> nu m' t u = nu m t u.
Proof.
  intros A HL Hu. rewrite (nu_member t l m' (alike_links t l m m' A HL) u Hu), (nu_member t l m HL u Hu).
  destruct (lk_use _ _ _ HL u Hu) as (d & _ & Ed & _). destruct A. destruct (al_dev0 u d Ed) as [s E].
  unfold nx. rewrite Ed, E, al_start0. reflexivity.
Qed.

(** One partition has changed. *)
Definition put_fs (u : Z) (s : bfs) (m : amount) : amount :=
  set_mfs (alter (set_dfs s) (Z.to_nat u) (m_fs m)) m.

Lemma put_fs_dev (u o : Z) (s : bfs) (m : amount) :
  0 <= u -> dev_at (put_fs u s m) o = if o =? u then set_dfs s <$> dev_at m o else dev_at m o.
Proof. intros. unfold put_fs. now apply dev_at_alter. Qed.

Lemma put_fs_alike (u : Z) (s : bfs) (m : amount) : 0 <= u -> alike m (put_fs u s m).
Proof.
  intros Hu. split; auto. intros o d E. rewrite put_fs_dev, E by exact Hu.
  destruct (o =? u); [eauto|]. exists (d_fs d). now destruct d.
Qed.

Lemma put_fs_same (u : Z) (m : amount) (d : samdent) : dev_at m u = Some d -> put_fs u (d_fs d) m = m.
Proof.
  intros E. unfold put_fs. assert (Ea : alter (set_dfs (d_fs d)) (Z.to_nat u) (m_fs m) = m_fs m).
  { apply list_eq. intros j. destruct (decide (j = Z.to_nat u)) as [->|Hne].
    - rewrite list_lookup_alter_eq. unfold dev_at in E. destruct (u <? 0); [discriminate|].
      rewrite E. now destruct d.
    - now apply list_lookup_alter_ne. }
  rewrite Ea. now destruct m.
Qed.

Lemma inc_alike (m : amount) : alike m (inc_no_blocks m).
Proof.
  split; auto. intros o d E. exists (d_fs d). change (dev_at (inc_no_blocks m) o) with (dev_at m o).
  rewrite E. now destruct d.
Qed.

(** ** One visit *)

Section Alloc.
Context (shift : Z) (ready : samdent -> Prop) (wait : Z -> amount -> amount).
Context `{HB : BlockThread shift ready wait}.
Context (t : disk_type) (l : list Z) (first_unit : Z).

(** What holds while the list is searched for the file [di]. *)
Record searching (m : amount) (di : dinode) : Prop := {
  sg_links : links_ok t l m;
  sg_ready : forall u d, u ∈ l -> dev_at m u = Some d -> ready d;
  sg_thread : m_thread m = true;
  sg_shift : m_bn_shift m = shift;
  sg_groups : negb (i_blocks di =? 0) && m_mismatched m = false;
  sg_type : type_of di = t
}.

(** A block has been taken at [u]. *)
Definition found_at (u bn : Z) (m' : amount) : Prop :=
  exists d b b', usable_pool d LG = Some b /\ avail b = bn :: avail b' /\
    d_system d <= Z.shiftl bn shift /\
    dev_at m' u = Some (set_dfs (set_pools (bt_set (f_pools (d_fs d)) LG (Some b')) (d_fs d)) d).

Lemma usable_lg (d : samdent) (b : sam_block) :
  usable_pool d LG = Some b -> at_lg (f_pools (d_fs d)) = Some b.
Proof. unfold usable_pool. now destruct (d_state d). Qed.

(** The top of the loop at a pool with blocks. *)
Lemma take_visit (fuel : nat) (u pass : Z) (di : dinode) (m : amount) (d : samdent) (b : sam_block) :
  searching m di -> u ∈ l -> dev_at m u = Some d -> usable_pool d LG = Some b -> avail b <> [] ->
  exists bn m' di', alloc_loop (S fuel) wait LG first_unit u pass None di m = Done (0, bn, u, di') m' /\
    found_at u bn m' /\ alike m m' /\ (forall o, o <> u -> dev_at m' o = dev_at m o).
Proof.
  intros [HL HR HT HS HG Hty] Hu Ed Eb Ha.
  destruct (ready_pool d b (HR u d Hu Ed) (usable_lg d b Eb)) as [Wb Fb].
  pose proof (pool_take_spec (pool_fuel b) shift (d_system d) b Wb (pool_fuel_enough b Wb)) as T.
  cbn [alloc_loop]. rewrite (bind_run _ _ _ _ _ (get_dev_run m u d Ed)).
  rewrite (bind_run _ _ _ _ _ (gets_run id m)). unfold id. rewrite Eb, HS.
  destruct (pool_take _ _ _ b) as [[r b'] bad_seen].
  destruct T as (_ & _ & _ & _ & bad & FB & -> & A & _ & Hr).
  assert (Nb : bad = []).
  { destruct bad as [|x bad]; [reflexivity|]. rewrite A in Fb. apply Forall_cons in Fb as [F1 _].
    apply Forall_cons in FB as [F2 _]. lia. }
  subst bad. rewrite bool_decide_eq_true_2 by reflexivity. cbn [negb app] in *.
  destruct r as [bn|]; [|cbn in A; congruence]. pose proof (dev_at_range m u d Ed) as Ru.
  set (s1 := set_pools (bt_set (f_pools (d_fs d)) LG (Some b')) (d_fs d)).
  rewrite (bind_run _ _ m (put_fs u s1 m) tt) by reflexivity.
  exists bn, (put_fs u s1 m), (advance_stride m di d). split; [reflexivity|].
  split; [|split; [apply put_fs_alike; lia|]].
  - exists d, b, b'. split; [exact Eb|]. split; [exact A|]. split; [exact Hr|].
    rewrite put_fs_dev, Z.eqb_refl, Ed by lia. reflexivity.
  - intros o Ho. rewrite put_fs_dev by lia. destruct (Z.eqb_spec o u); [contradiction|reflexivity].
Qed.

(** On to the next partition. *)
Definition move_on (fuel : nat) (u pass : Z) (di : dinode) (m : amount)
  : outcome amount (Z * Z * Z * dinode) :=
  let unit' := nu m t u in
  let di' := set_unit_stride (uwrap 8 unit') (i_stride di) di in
  if unit' =? first_unit then
    if 1 <? pass then Done (sam_enospc m di', 0, 0, di') m
    else alloc_loop fuel wait LG first_unit unit' (pass + 1) None di' m
  else alloc_loop fuel wait LG first_unit unit' pass None di' m.

(** The waiting loop, when there is nothing to wait for. *)
Lemma leave_step (fuel : nat) (u pass : Z) (skipping : bool) (di : dinode) (m : amount) (d : samdent) :
  m_thread m = true -> negb (i_blocks di =? 0) && m_mismatched m = false -> type_of di = t ->
  dev_at m u = Some d ->
  (skipping = true \/ exists b, usable_pool d LG = Some b /\ pool_wf b /\ avail b = [] /\
     (d_skip_ord d = true \/ f_map_empty (d_fs d) = true)) ->
  alloc_loop (S fuel) wait LG first_unit u pass (Some skipping) di m = move_on fuel u pass di m.
Proof.
  intros HT HG Hty Ed H. cbn [alloc_loop].
  rewrite (bind_run _ _ _ _ _ (get_dev_run m u d Ed)). rewrite (bind_run _ _ _ _ _ (gets_run id m)).
  unfold id. rewrite HT, HG, Hty. cbn [bt_get].
  assert (E1 : skipping || d_skip_ord d || f_map_empty (d_fs d) = true).
  { destruct H as [->|(b & _ & _ & _ & [->| ->])]; cbn; auto using orb_true_r.
    now rewrite orb_true_r. }
  assert (E2 : skipping || d_skip_ord d || match at_lg (f_pools (d_fs d)) with
     | Some b => BLOCK_COUNT (b_in b) (b_out b) (b_limit b) =? 0 | None => true end = true).
  { destruct H as [->|(b & Eb & Wb & A & _)]; [reflexivity|]. rewrite (usable_lg d b Eb).
    rewrite avail_count, A by exact Wb. apply orb_true_r. }
  rewrite E1, E2. cbn [andb]. unfold move_on, nu. rewrite Ed.
  destruct (_ =? first_unit); [destruct (1 <? pass)|]; reflexivity.
Qed.

Lemma leave_visit (fuel : nat) (u pass : Z) (skipping : bool) (di : dinode) (m : amount) (d : samdent) :
  searching m di -> u ∈ l -> dev_at m u = Some d ->
  (skipping = true \/ exists b, usable_pool d LG = Some b /\ avail b = [] /\
     (d_skip_ord d = true \/ f_map_empty (d_fs d) = true)) ->
  alloc_loop (S fuel) wait LG first_unit u pass (Some skipping) di m = move_on fuel u pass di m.
Proof.
  intros [HL HR HT HS HG Hty] Hu Ed H. apply (leave_step fuel u pass skipping di m d); auto.
  destruct H as [?|(b & Eb & A & H)]; [now left|]. right. exists b. split; [exact Eb|].
  destruct (ready_pool d b (HR u d Hu Ed) (usable_lg d b Eb)) as [Wb _]. auto.
Qed.

(** Changing one partition keeps the search going. *)
Lemma searching_put (m : amount) (di : dinode) (u : Z) (d : samdent) (s : bfs) :
  searching m di -> dev_at m u = Some d -> ready (set_dfs s d) -> searching (put_fs u s m) di.
Proof.
  intros [HL HR HT HS HG Hty] Ed Rd. pose proof (dev_at_range m u d Ed) as Ru.
  split; auto; [eapply alike_links; [apply put_fs_alike; lia|exact HL]|].
  intros o do Ho Eo. rewrite put_fs_dev in Eo by lia. destruct (Z.eqb_spec o u) as [->|_]; [|now apply (HR o)].
  rewrite Ed in Eo. injection Eo as <-. exact Rd.
Qed.

Lemma searching_inc (m : amount) (di : dinode) : searching m di -> searching (inc_no_blocks m) di.
Proof. intros []. split; auto. apply (alike_links t l m); [apply inc_alike|assumption]. Qed.

(** The outcomes of a visit to [u]. *)
Definition visit_found (u : Z) (m : amount) (r : outcome amount (Z * Z * Z * dinode)) : Prop :=
  exists bn m' di', r = Done (0, bn, u, di') m' /\ found_at u bn m' /\ alike m m' /\
    forall o, o <> u -> dev_at m' o = dev_at m o.

Definition visit_left (fuel : nat) (u pass : Z) (di : dinode) (m : amount)
    (r : outcome amount (Z * Z * Z * dinode)) : Prop :=
  exists fuel' m1, (fuel <= fuel' + 3)%nat /\ r = move_on fuel' u pass di m1 /\ searching m1 di /\
    exhausted m1 u /\ alike m m1 /\ forall o, o <> u -> dev_at m1 o = dev_at m o.

(** The top of the loop at an empty pool. *)
Lemma empty_step (fuel : nat) (u pass : Z) (di : dinode) (m : amount) (d : samdent) (b : sam_block) :
  dev_at m u = Some d -> usable_pool d LG = Some b -> pool_wf b -> avail b = [] ->
  alloc_loop (S fuel) wait LG first_unit u pass None di m
  = alloc_loop fuel wait LG first_unit u pass (Some false) di (inc_no_blocks m).
Proof.
  intros Ed Eb Wb Ha. pose proof (usable_lg d b Eb) as Ep. apply avail_nil in Ha; [|exact Wb].
  cbn [alloc_loop]. rewrite (bind_run _ _ _ _ _ (get_dev_run m u d Ed)).
  rewrite (bind_run _ _ _ _ _ (gets_run id m)). unfold id. rewrite Eb.
  assert (E : pool_take (pool_fuel b) (m_bn_shift m) (d_system d) b = (None, b, false)).
  { destruct (pool_fuel b); cbn; [reflexivity|]. now rewrite Ha, Z.eqb_refl. }
  rewrite E. cbv iota.
  assert (Es : set_pools (bt_set (f_pools (d_fs d)) LG (Some b)) (d_fs d) = d_fs d).
  { clear - Ep. destruct d as [? ? ? ? ? ? ? ? ? ? s], s as [[p1 p2]]. cbn in *. now rewrite Ep. }
  rewrite Es. rewrite (bind_run _ _ m (put_fs u (d_fs d) m) tt) by reflexivity.
  rewrite (put_fs_same u m d Ed). reflexivity.
Qed.

Lemma empty_visit (fuel : nat) (u pass : Z) (di : dinode) (m : amount) (d : samdent) (b : sam_block) :
  searching m di -> u ∈ l -> dev_at m u = Some d -> usable_pool d LG = Some b -> avail b = [] ->
  alloc_loop (S fuel) wait LG first_unit u pass None di m
  = alloc_loop fuel wait LG first_unit u pass (Some false) di (inc_no_blocks m).
Proof.
  intros HS Hu Ed Eb Ha. apply (empty_step fuel u pass di m d b); auto.
  now destruct (ready_pool d b (sg_ready _ _ HS u d Hu Ed) (usable_lg d b Eb)).
Qed.

(** Sleeping at an empty pool. *)
Lemma wait_visit (fuel : nat) (u pass : Z) (di : dinode) (m m' : amount) (d : samdent) (b : sam_block) :
  searching m di -> u ∈ l -> dev_at m u = Some d -> usable_pool d LG = Some b -> avail b = [] ->
  d_skip_ord d = false -> f_map_empty (d_fs d) = false -> wait u m = m' ->
  alloc_loop (S fuel) wait LG first_unit u pass (Some false) di m
  = alloc_loop fuel wait LG first_unit u pass (Some false) di m'.
Proof.
  intros HS Hu Ed Eb Ha Esk Eme Ew. pose proof (usable_lg d b Eb) as Ep.
  destruct (ready_pool d b (sg_ready _ _ HS u d Hu Ed) Ep) as [Wb _].
  cbn [alloc_loop]. rewrite (bind_run _ _ _ _ _ (get_dev_run m u d Ed)).
  rewrite (bind_run _ _ _ _ _ (gets_run id m)). unfold id.
  rewrite (sg_thread _ _ HS), Esk, Eme. cbn [bt_get]. rewrite Ep, avail_count, Ha by exact Wb.
  change (Z.of_nat (length []) =? 0) with true. cbn [orb andb].
  rewrite (bind_run _ _ m m' tt) by (unfold modify; now rewrite Ew). reflexivity.
Qed.

(** Waking up to a pool with blocks. *)
Lemma again_visit (fuel : nat) (u pass : Z) (di : dinode) (m : amount) (d : samdent) (b : sam_block) :
  searching m di -> u ∈ l -> dev_at m u = Some d -> usable_pool d LG = Some b -> avail b <> [] ->
  d_skip_ord d = false ->
  alloc_loop (S fuel) wait LG first_unit u pass (Some false) di m
  = alloc_loop fuel wait LG first_unit u pass None di m.
Proof.
  intros HS Hu Ed Eb Ha Esk. pose proof (usable_lg d b Eb) as Ep.
  destruct (ready_pool d b (sg_ready _ _ HS u d Hu Ed) Ep) as [Wb _].
  cbn [alloc_loop]. rewrite (bind_run _ _ _ _ _ (get_dev_run m u d Ed)).
  rewrite (bind_run _ _ _ _ _ (gets_run id m)). unfold id. cbn [bt_get].
  rewrite Esk, Ep, avail_count by exact Wb. destruct (avail b); [contradiction|]. reflexivity.
Qed.

(** A partition without a usable pool. *)
Lemma skip_visit (fuel : nat) (u pass : Z) (di : dinode) (m : amount) (d : samdent) :
  dev_at m u = Some d -> usable_pool d LG = None ->
  alloc_loop (S fuel) wait LG first_unit u pass None di m
  = alloc_loop fuel wait LG first_unit u pass (Some true) di m.
Proof.
  intros Ed Eb. cbn [alloc_loop]. rewrite (bind_run _ _ _ _ _ (get_dev_run m u d Ed)).
  rewrite (bind_run _ _ _ _ _ (gets_run id m)). rewrite Eb. reflexivity.
Qed.

Lemma visit (fuel : nat) (u pass : Z) (di : dinode) (m : amount) :
  searching m di -> u ∈ l -> (4 <= fuel)%nat ->
  visit_found u m (alloc_loop fuel wait LG first_unit u pass None di m) \/
  visit_left fuel u pass di m (alloc_loop fuel wait LG first_unit u pass None di m).
Proof.
  intros HS Hu Hf. do 4 (destruct fuel as [|fuel]; [lia|]). clear Hf.
  destruct (lk_use _ _ _ (sg_links _ _ HS) u Hu) as (d & _ & Ed & _).
  pose proof (dev_at_range m u d Ed) as Ru.
  destruct (usable_pool d LG) as [b|] eqn:Eb.
  2: { right. exists (S (S fuel)), m. split; [lia|]. split.
       - rewrite <- (leave_visit (S (S fuel)) u pass true di m d HS Hu Ed (or_introl eq_refl)).
         now apply (skip_visit _ u pass di m d).
       - split; [exact HS|]. split; [exists d; now rewrite Eb|]. split; [apply alike_refl|auto]. }
  destruct (decide (avail b = [])) as [Ha|Ha]; [|left; now apply (take_visit _ u pass di m d b)].
  rewrite (empty_visit _ u pass di m d b HS Hu Ed Eb Ha). set (m1 := inc_no_blocks m).
  assert (HS1 : searching m1 di) by now apply searching_inc.
  assert (Ed1 : dev_at m1 u = Some d) by exact Ed.
  destruct (d_skip_ord d || f_map_empty (d_fs d)) eqn:Ee.
  { apply orb_true_iff in Ee. right. exists (S (S fuel)), m1. split; [lia|].
    split; [apply (leave_visit _ u pass false di m1 d HS1 Hu Ed1); eauto|].
    split; [exact HS1|]. split; [exists d; rewrite Eb; auto|]. split; [apply inc_alike|auto]. }
  apply orb_false_iff in Ee as [Esk Eme].
  pose proof (sg_ready _ _ HS1 u d Hu Ed1) as Rd. pose proof (usable_lg d b Eb) as Ep.
  destruct (ready_wait m1 u d b Ed1 Rd Ep) as (s' & b' & Ew & Rd' & Ep' & Hb').
  rewrite (wait_visit _ u pass di m1 (put_fs u s' m1) d b HS1 Hu Ed1 Eb Ha Esk Eme Ew).
  set (m2 := put_fs u s' m1).
  assert (HS2 : searching m2 di) by now apply (searching_put m1 di u d).
  assert (Ed2 : dev_at m2 u = Some (set_dfs s' d)) by (unfold m2; now rewrite put_fs_dev, Z.eqb_refl, Ed1 by lia).
  assert (Eb2 : usable_pool (set_dfs s' d) LG = Some b').
  { unfold usable_pool in *. cbn. now destruct (d_state d). }
  assert (A2 : alike m m2) by (eapply alike_trans; [apply inc_alike|apply put_fs_alike; lia]).
  assert (O2 : forall o, o <> u -> dev_at m2 o = dev_at m o).
  { intros o Ho. unfold m2. rewrite put_fs_dev by lia. destruct (Z.eqb_spec o u); [contradiction|reflexivity]. }
  destruct (decide (avail b' = [])) as [Ha'|Ha'].
  - destruct Hb' as [?|Hb']; [contradiction|]. right. exists (S fuel), m2. split; [lia|].
    split; [apply (leave_visit _ u pass false di m2 (set_dfs s' d) HS2 Hu Ed2); eauto 6|].
    split; [exact HS2|]. split; [exists (set_dfs s' d); rewrite Eb2; auto|]. auto.
  - left. rewrite (again_visit _ u pass di m2 _ b' HS2 Hu Ed2 Eb2 Ha' Esk).
    destruct (take_visit fuel u pass di m2 _ b' HS2 Hu Ed2 Eb2 Ha') as (bn & m' & di' & R & F & A & O).
    exists bn, m', di'. split; [exact R|]. split; [exact F|]. split; [now apply (alike_trans m m2)|].
    intros o Ho. now rewrite O, O2.
Qed.
(** ** Once round the list *)

Lemma exhausted_same (m m' : amount) (o : Z) :
  dev_at m' o = dev_at m o -> exhausted m o -> exhausted m' o.
Proof. intros E (d & Ed & H). exists d. now rewrite E. Qed.

Lemma searching_unit (m : amount) (di : dinode) (v : Z) :
  searching m di -> searching m (set_unit_stride v (i_stride di) di).
Proof. intros []. now split. Qed.

(** A block has been found on the way along [path]; the partitions before are exhausted. *)
Definition lap_found (path : list Z) (m : amount) (r : outcome amount (Z * Z * Z * dinode)) : Prop :=
  exists pre y post bn m' di', path = pre ++ y :: post /\ r = Done (0, bn, y, di') m' /\
    found_at y bn m' /\ alike m m' /\ Forall (exhausted m') pre /\
    forall o, o ∉ path -> dev_at m' o = dev_at m o.

(** Back at the first partition. *)
Definition lap_end (fuel : nat) (pass : Z) (di : dinode) (m : amount)
  : outcome amount (Z * Z * Z * dinode) :=
  if 1 <? pass then Done (sam_enospc m di, 0, 0, di) m
  else alloc_loop fuel wait LG first_unit first_unit (pass + 1) None di m.

Definition lap_done (fuel : nat) (path : list Z) (pass : Z) (di : dinode) (m : amount)
    (r : outcome amount (Z * Z * Z * dinode)) : Prop :=
  exists fuel' m1 di1, (fuel <= fuel' + 3 * length path)%nat /\ r = lap_end fuel' pass di1 m1 /\
    searching m1 di1 /\ i_meta di1 = i_meta di /\ Forall (exhausted m1) path /\ alike m m1 /\
    forall o, o ∉ path -> dev_at m1 o = dev_at m o.

Lemma lap (rest : list Z) (fuel : nat) (x pass : Z) (di : dinode) (m : amount) :
  searching m di -> (forall y, y ∈ x :: rest -> y ∈ l) -> NoDup (x :: rest) -> first_unit ∉ rest ->
  seg (nu m t) x (x :: rest) first_unit -> (3 * length (x :: rest) + 1 <= fuel)%nat ->
  lap_found (x :: rest) m (alloc_loop fuel wait LG first_unit x pass None di m) \/
  lap_done fuel (x :: rest) pass di m (alloc_loop fuel wait LG first_unit x pass None di m).
Proof.
  revert fuel x di m. induction rest as [|y rest IH]; intros fuel x di m HS Hin ND Hfu S Hf.
  all: cbn [length] in Hf; assert (Hx : x ∈ l) by (apply Hin; set_solver).
  all: destruct (visit fuel x pass di m HS Hx) as
        [(bn & m' & di' & -> & F & A & O)|(fuel' & m1 & Hf' & -> & HS1 & X1 & A1 & O1)]; [lia| |].
  all: try (left; eexists [], x, _, bn, m', di'; split; [reflexivity|]; split; [reflexivity|];
            split; [exact F|]; split; [exact A|]; split; [constructor|]; intros o Ho; apply O; set_solver).
  all: unfold move_on; rewrite (alike_nu t l m m1 x A1 (sg_links _ _ HS) Hx); cbn [seg] in S; destruct S as [_ S].
  - right. rewrite S, Z.eqb_refl. eexists fuel', m1, _. split; [cbn; lia|]. split; [reflexivity|].
    split; [now apply searching_unit|]. split; [reflexivity|]. split; [now constructor|].
    split; [exact A1|]. intros o Ho. apply O1. set_solver.
  - destruct S as [-> S]. destruct (Z.eqb_spec y first_unit) as [->|_]; [set_solver|].
    apply NoDup_cons in ND as [Nx ND].
    set (di1 := set_unit_stride (uwrap 8 y) (i_stride di) di).
    assert (Hseg : seg (nu m1 t) y (y :: rest) first_unit).
    { apply (seg_ext (nu m t)); [|cbn; now split]. intros z Hz.
      apply (alike_nu t l m m1); [exact A1|apply HS|]. apply Hin. set_solver. }
    destruct (IH fuel' y di1 m1 (searching_unit _ _ _ HS1)) as [L|L]; auto; [set_solver|set_solver|cbn; lia| |].
    + left. destruct L as (pre & z & post & bn & m' & di' & E & R & F & A & P & O).
      exists (x :: pre), z, post, bn, m', di'. split; [cbn; congruence|]. split; [exact R|].
      split; [exact F|]. split; [now apply (alike_trans m m1)|]. split.
      * constructor; [|exact P]. apply (exhausted_same m1); [apply O; exact Nx|exact X1].
      * intros o Ho. rewrite O, O1 by set_solver. reflexivity.
    + right. destruct L as (fuel'' & m2 & di2 & Hf2 & R & HS2 & Em & P & A & O).
      exists fuel'', m2, di2. cbn [length] in *. split; [lia|]. split; [exact R|]. split; [exact HS2|].
      split; [exact Em|]. split.
      * constructor; [|exact P]. apply (exhausted_same m1); [apply O; exact Nx|exact X1].
      * split; [now apply (alike_trans m m1)|]. intros o Ho. rewrite O, O1 by set_solver. reflexivity.
Qed.

(** Rounds, until the first partition has been reached three times. *)
Lemma rounds (rest : list Z) (n fuel : nat) (pass : Z) (di : dinode) (m : amount) :
  (forall y, y ∈ first_unit :: rest -> y ∈ l) -> NoDup (first_unit :: rest) ->
  pass = 3 - Z.of_nat n -> (1 <= n)%nat -> (n * (3 * length (first_unit :: rest)) + 1 <= fuel)%nat ->
  searching m di -> seg (nu m t) first_unit (first_unit :: rest) first_unit ->
  lap_found (first_unit :: rest) m (alloc_loop fuel wait LG first_unit first_unit pass None di m) \/
  exists m' di', alloc_loop fuel wait LG first_unit first_unit pass None di m
      = Done (sam_enospc m di, 0, 0, di') m' /\ Forall (exhausted m') (first_unit :: rest) /\
      alike m m' /\ searching m' di'.
Proof.
  intros Hin ND. revert fuel pass di m. induction n as [|n IH]; intros fuel pass di m Ep Hn Hf HS S; [lia|].
  pose proof ND as [Nf _]%NoDup_cons.
  destruct (lap rest fuel first_unit pass di m HS Hin ND Nf S) as [L|L]; [lia|now left|].
  destruct L as (fuel' & m1 & di1 & Hf' & -> & HS1 & Em & P & A & O). unfold lap_end.
  assert (Ee : sam_enospc m1 di1 = sam_enospc m di).
  { unfold sam_enospc. rewrite Em. now destruct A as [_ _ _ _ -> _ _ _]. }
  destruct (Z.ltb_spec 1 pass) as [Hp|Hp].
  - right. exists m1, di1. rewrite Ee. auto.
  - assert (S1 : seg (nu m1 t) first_unit (first_unit :: rest) first_unit).
    { apply (seg_ext (nu m t)); [|exact S]. intros z Hz. apply (alike_nu t l m m1); [exact A|apply HS|auto]. }
    destruct (IH fuel' (pass + 1) di1 m1) as [L|(m' & di' & R & P' & A' & HS')]; auto; try lia.
    + left. destruct L as (pre & z & post & bn & m' & di' & E & R & F & A' & P' & O').
      exists pre, z, post, bn, m', di'. split; [exact E|]. split; [exact R|]. split; [exact F|].
      split; [now apply (alike_trans m m1)|]. split; [exact P'|]. intros o Ho. now rewrite O', O.
    + right. exists m', di'. rewrite R, Ee. split; [reflexivity|]. split; [exact P'|].
      split; [now apply (alike_trans m m1)|exact HS'].
Qed.
End Alloc.

(** Allocation of a large block, for any source of blocks. *)
Lemma alloc_block_spec (shift : Z) (ready : samdent -> Prop)
    (wait : Z -> amount -> amount) (HB : BlockThread shift ready wait) (fuel : nat)
    (t : disk_type) (l1 l2 : list Z) (di : dinode) (m : amount) :
  searching shift ready t (l1 ++ i_unit di :: l2) m di ->
  (9 * length (l1 ++ i_unit di :: l2) + 1 <= fuel)%nat ->
  exists error bn ord di' m', sam_alloc_block fuel wait LG di m = Done (error, bn, ord, di') m' /\
    alike m m' /\
    ((error = 0 /\ exists pre post, i_unit di :: l2 ++ l1 = pre ++ ord :: post /\
        Forall (exhausted m') pre /\ found_at shift ord bn m') \/
     (error = sam_enospc m di /\ Forall (exhausted m') (l1 ++ i_unit di :: l2) /\
      searching shift ready t (l1 ++ i_unit di :: l2) m' di')).
Proof.
  intros HS Hf. set (u := i_unit di) in *. set (l := l1 ++ u :: l2) in *.
  assert (Hin : forall y, y ∈ u :: l2 ++ l1 -> y ∈ l) by (unfold l; set_solver).
  assert (ND : NoDup (u :: l2 ++ l1)).
  { apply (NoDup_Permutation_proper _ l); [|apply (sg_links _ _ _ _ _ _ HS)].
    unfold l. rewrite app_comm_cons. apply Permutation_app_comm. }
  destruct (lk_use _ _ _ (sg_links _ _ _ _ _ _ HS) u (Hin u ltac:(set_solver))) as (d & _ & Ed & _).
  pose proof (dev_at_range m u d Ed) as Ru. unfold sam_alloc_block.
  rewrite (bind_run _ _ _ _ _ (gets_run id m)). unfold id. fold u.
  destruct (Z.leb_spec (Z.of_nat (length (m_fs m))) u); [lia|].
  rewrite (bind_run _ _ m m (0, di)) by reflexivity. cbn [Z.eqb negb]. fold u.
  assert (Hlen : length (u :: l2 ++ l1) = length l) by (unfold l; cbn; rewrite !length_app; cbn; lia).
  destruct (rounds shift ready wait t l u (l2 ++ l1) 3 fuel 0 di m Hin ND) as [L|(m' & di' & R & P & A & HS')];
    [reflexivity|lia|rewrite Hlen; lia|exact HS|now apply (round_from t l m (sg_links _ _ _ _ _ _ HS))| |].
  - destruct L as (pre & y & post & bn & m' & di' & E & R & F & A & P & _).
    exists 0, bn, y, di', m'. split; [exact R|]. split; [exact A|]. left. eauto 6.
  - exists (sam_enospc m di), 0, 0, di', m'. split; [exact R|]. split; [exact A|]. right.
    split; [reflexivity|]. split; [|exact HS'].
    rewrite Forall_forall in P |- *. intros x Hx. apply P. unfold l in Hx. set_solver.
Qed.

(** ** A file whose partition is no longer in the list *)

Section Lost.
Context (wait : Z -> amount -> amount) (t : disk_type) (l : list Z) (fu : Z).
Context (Hfu : fu ∉ l).

(** As [exhausted], with a pool in order. *)
Definition drained (m : amount) (u : Z) : Prop :=
  exists d, dev_at m u = Some d /\
    match usable_pool d LG with
    | None => True
    | Some b => pool_wf b /\ avail b = [] /\ (d_skip_ord d = true \/ f_map_empty (d_fs d) = true)
    end.

Record lost (m : amount) (di : dinode) : Prop := {
  lo_links : links_ok t l m;
  lo_thread : m_thread m = true;
  lo_groups : negb (i_blocks di =? 0) && m_mismatched m = false;
  lo_type : type_of di = t;
  lo_all : forall u, u ∈ l \/ u = fu -> drained m u;
  lo_next : nu m t fu ∈ l
}.

Lemma lost_inc (m : amount) (di : dinode) : lost m di -> lost (inc_no_blocks m) di.
Proof. intros []. split; auto. apply (alike_links t l m); [apply inc_alike|assumption]. Qed.

Lemma lost_unit (m : amount) (di : dinode) (v : Z) :
  lost m di -> lost m (set_unit_stride v (i_stride di) di).
Proof. intros []. now split. Qed.

(** Where the loops are. *)
Definition at_loop (m : amount) (u : Z) (inner : option bool) : Prop :=
  (u ∈ l \/ u = fu) /\
  match inner with
  | None => True
  | Some skipping => exists d, dev_at m u = Some d /\
      skipping = match usable_pool d LG with None => true | Some _ => false end
  end.

Lemma lost_forever (fuel : nat) (u pass : Z) (inner : option bool) (di : dinode) (m : amount) :
  lost m di -> at_loop m u inner ->
  alloc_loop fuel wait LG fu u pass inner di m = Fault OutOfFuel.
Proof.
  revert u pass inner di m. induction fuel as [|fuel IH]; intros u pass inner di m HL [Hu Hi]; [reflexivity|].
  destruct (lo_all _ _ HL u Hu) as (d & Ed & Hd). destruct inner as [skipping|].
  - destruct Hi as (d' & Ed' & ->). rewrite Ed in Ed'. injection Ed' as <-.
    rewrite (leave_step wait t fu fuel u pass _ di m d); try (apply HL); auto.
    2: { destruct (usable_pool d LG) as [b|]; [right; exists b; tauto|now left]. }
    unfold move_on. assert (Hn : nu m t u ∈ l).
    { destruct Hu as [Hu| ->]; [apply nu_in; auto; apply HL|apply HL]. }
    destruct (Z.eqb_spec (nu m t u) fu) as [E|_]; [rewrite E in Hn; contradiction|].
    apply IH; [now apply lost_unit|]. now split; [left|].
  - destruct (usable_pool d LG) as [b|] eqn:Eb.
    + destruct Hd as (Wb & Ha & _). rewrite (empty_step wait fu fuel u pass di m d b Ed Eb Wb Ha).
      apply IH; [now apply lost_inc|]. split; [exact Hu|]. exists d. now rewrite Eb.
    + rewrite (skip_visit wait fu fuel u pass di m d Ed Eb).
      apply IH; [exact HL|]. split; [exact Hu|]. exists d. now rewrite Eb.
Qed.
End Lost.

(** ** Striping *)

(** [n] blocks of a striped file from partition [d]. *)
Definition stripe_of (m : amount) (di : dinode) (d : samdent) : Z :=
  if i_stripe_width di && negb (i_dir di) then i_stripe di
  else dt_get (m_stripe m) (if d_type d =? Equ.DT_META then MM else DD).

Definition after_blocks (m : amount) (d : samdent) (n : nat) (di : dinode) : dinode :=
  Nat.iter n (fun di => advance_stride m di d) di.

Lemma after_blocks_stay (m : amount) (d : samdent) (di : dinode) (n : nat) :
  0 < stripe_of m di d -> i_stride di = 0 -> Z.of_nat n < Z.min (stripe_of m di d) 128 ->
  after_blocks m d n di = set_unit_stride (i_unit di) (Z.of_nat n) di.
Proof.
  intros Hs H0. induction n as [|n IH]; intros Hn.
  { destruct di. cbn in H0. subst. reflexivity. }
  change (after_blocks m d (S n) di) with (advance_stride m (after_blocks m d n di) d).
  rewrite IH by lia. unfold advance_stride.
  fold (stripe_of m (set_unit_stride (i_unit di) (Z.of_nat n) di) d).
  change (stripe_of m (set_unit_stride (i_unit di) (Z.of_nat n) di) d) with (stripe_of m di d).
  destruct (Z.eqb_spec (stripe_of m di d) 0); [lia|]. cbn [i_stride set_unit_stride].
  rewrite swrap_id by (unfold sint_range; lia). destruct (Z.leb_spec (stripe_of m di d) (Z.of_nat n + 1)); [lia|].
  cbn. unfold set_unit_stride. cbn. f_equal. lia.
Qed.

Lemma wide_unit (m : amount) (d : samdent) (di : dinode) :
  128 <= stripe_of m di d ->
  i_unit (advance_stride m di d) = i_unit di /\ stripe_of m (advance_stride m di d) d = stripe_of m di d.
Proof.
  intros Hs. unfold advance_stride. fold (stripe_of m di d).
  destruct (Z.eqb_spec (stripe_of m di d) 0); [lia|].
  pose proof (swrap_range 8 (i_stride di + 1) ltac:(lia)) as R. unfold sint_range in R.
  destruct (Z.leb_spec (stripe_of m di d) (swrap 8 (i_stride di + 1))); [lia|]. now split.
Qed.

(** A file striped over [n] blocks takes exactly [n] blocks from a partition and goes
    on to the next one, if [n] is at most 127; with a wider stripe, up to the documented
    maximum of 255, the counter wraps and the file never leaves its partition. *)
Theorem stripe_width_limit (m : amount) (d : samdent) (di : dinode) (n : nat) :
  i_stride di = 0 -> Z.of_nat n = stripe_of m di d -> 0 < Z.of_nat n ->
  (Z.of_nat n <= 127 ->
     (forall k, (k < n)%nat -> i_unit (after_blocks m d k di) = i_unit di) /\
     i_unit (after_blocks m d n di) = uwrap 8 (next_unit m (type_of di) (i_unit di) d)) /\
  (128 <= Z.of_nat n -> forall k, i_unit (after_blocks m d k di) = i_unit di).
Proof.
  intros H0 Hn Hp. split.
  - intros Hle. split; [intros k Hk; rewrite after_blocks_stay; cbn; auto; lia|].
    destruct n as [|n]; [lia|].
    change (after_blocks m d (S n) di) with (advance_stride m (after_blocks m d n di) d).
    rewrite after_blocks_stay by lia. unfold advance_stride.
    fold (stripe_of m (set_unit_stride (i_unit di) (Z.of_nat n) di) d).
    change (stripe_of m (set_unit_stride (i_unit di) (Z.of_nat n) di) d) with (stripe_of m di d).
    rewrite <- Hn. destruct (Z.eqb_spec (Z.of_nat (S n)) 0); [lia|]. cbn [i_stride set_unit_stride].
    rewrite swrap_id by (unfold sint_range; lia).
    destruct (Z.leb_spec (Z.of_nat (S n)) (Z.of_nat n + 1)); [reflexivity|lia].
  - intros Hw k. assert (H : i_unit (after_blocks m d k di) = i_unit di /\
      stripe_of m (after_blocks m d k di) d = stripe_of m di d); [|apply H].
    induction k as [|k [IH1 IH2]]; [now split|].
    change (after_blocks m d (S k) di) with (advance_stride m (after_blocks m d k di) d).
    destruct (wide_unit m d (after_blocks m d k di)) as [E1 E2]; [lia|].
    rewrite E1, E2. auto.
Qed.
