(* ===== verification/AllocSource.v ===== *)
(** * The block thread as a source of blocks, and the file system as a whole

    The interface [BlockThread] of [AllocUnits] is implemented by the refill of a
    partition ([BlockAlloc]): a thread that waits at a partition wakes up after the block
    thread has refilled its pools and the map has been written. Then what allocation does
    on lists that have lost a partition, and instances on a small file system. *)

From S2P Require Import Prelude Dau Bitmap BlockPool BlockScan Monad BlockAlloc BlockRefill BlockFree BlockSys BlockThms AllocLinks AllocThms AllocUnits.

(** ** A partition in order *)

Record part_ready (shift : Z) (d : samdent) : Prop := {
  py_conf : conf_ok (d_conf d);
  py_geom : geom_ok (d_conf d);
  py_sys : exists sm lg, sys_ok (d_conf d) (mk_bsys (d_fs d) sm lg);
  py_idle : idle (d_fs d);
  py_io : f_rio (d_fs d) = [] /\ f_wio (d_fs d) = [];
  py_shift : g_bn_shift (c_geom (d_conf d)) = shift;
  py_system : d_system d = c_system (d_conf d);
  py_pool : Forall (fun e => d_system d <= Z.shiftl e shift) (live (d_fs d) LG);
  py_free : forall u, u ∈ free_units (d_fs d) -> d_system d <= dau_bn (c_geom (d_conf d)) u;
  py_empty : f_map_empty (d_fs d) = true -> free_units (d_fs d) = []
}.

(** What the block thread does while a thread waits at [u]. *)
Definition refill_wait (u : Z) (m : amount) : amount :=
  match dev_at m u with
  | Some d =>
      match sam_get_blklist (d_conf d) (d_fs d) with
      | Done _ s1 => put_fs u (settle (d_conf d) s1) m
      | Fault _ => m
      end
  | None => m
  end.

Section Settle.
Context (c : bconf) (HC : conf_ok c) (HG : geom_ok c).

Lemma settle_sys (s : bfs) (sm lg : list Z) :
  sys_ok c (mk_bsys s sm lg) -> sys_ok c (mk_bsys (settle c s) sm lg).
Proof.
  intros S. unfold settle. set (s1 := if f_busy s then sam_block_done false s else s).
  assert (S1 : sys_ok c (mk_bsys s1 sm lg)).
  { unfold s1. destruct (f_busy s) eqn:Eb; [|exact S]. now apply (done_ok_step c HC HG (mk_bsys s sm lg)). }
  now apply (commit_step c HC HG (mk_bsys s1 sm lg)).
Qed.

Lemma settle_idle (s : bfs) :
  bfs_ok c s -> idle (settle c s) /\ f_rio (settle c s) = f_rio s /\ f_wio (settle c s) = f_wio s.
Proof.
  intros HB. unfold settle. set (s1 := if f_busy s then sam_block_done false s else s).
  assert (F : f_busy s1 = false /\ f_wr s1 = None /\ f_modified s1 = f_modified s /\
    f_rio s1 = f_rio s /\ f_wio s1 = f_wio s).
  { unfold s1. destruct (f_busy s) eqn:Eb.
    - unfold sam_block_done. cbn. destruct (f_wr s) as [[i buf]|]; cbn; tauto.
    - pose proof (bo_wr _ _ HB Eb). tauto. }
  clearbody s1. destruct F as (F1 & F2 & F3 & F4 & F5). unfold thread_commit. rewrite F1, F3.
  destruct (Z.eqb_spec (f_modified s) 0) as [Em|Em]; cbn [negb].
  - split; [|tauto]. split; [exact F1|]. split; [congruence|exact F2].
  - match goal with |- context [sam_set_sblk c ?n ?x ?z] =>
      destruct (sam_set_sblk_spec c n x z HC (bo_mod _ _ HB)) as ([] & _ & _) end.
    cbn in *. split; [|split; congruence]. split; [congruence|]. split; congruence.
Qed.
End Settle.

Lemma refill_ready (shift : Z) (d : samdent) :
  part_ready shift d ->
  exists r s1, sam_get_blklist (d_conf d) (d_fs d) = Done r s1 /\
    part_ready shift (set_dfs (settle (d_conf d) s1) d) /\
    (pool_list avail (at_lg (f_pools (settle (d_conf d) s1))) <> [] \/
     f_map_empty (settle (d_conf d) s1) = true).
Proof.
  intros [HC HG (sm & lg & HS) HI [E1 E2] Esh Esy HP HF HE]. set (c := d_conf d) in *.
  pose proof (so_bfs _ _ HS) as HB. cbn in HB.
  destruct (refill_supplies c (d_fs d) HC HB HI E1 E2) as (r & s1 & E & B1 & R1 & R2 & H).
  exists r, s1. split; [exact E|]. split; [|destruct H as [?|[? _]]; auto].
  destruct (wp_of_done _ _ _ _ _ E (get_blklist_spec c HC (d_fs d) HB (or_intror E2))) as [_ [[_ [?|?]]|[_ (t1 & t2 & R & _ & _ & _ & _ & _ & Me & _)]]];
    try (destruct HI as (? & ? & _); congruence).
  destruct (settle_lists c s1 HC B1) as (L & F & N).
  destruct (settle_idle c HC s1 B1) as (I' & R1' & R2').
  assert (S1 : sys_ok c (mk_bsys s1 sm lg)).
  { now apply (fill_step c HC HG (mk_bsys (d_fs d) sm lg) r s1 HS E). }
  assert (FU : free_units (settle c s1) = free_units s1).
  { unfold free_units at 1, eff. destruct I' as (_ & _ & ->). exact F. }
  pose proof (refill_units c HC HG t1 t2 (d_fs d) s1 HB R) as U.
  split; cbn; auto.
  - exists sm, lg. now apply settle_sys.
  - fold c. rewrite R1', R2'. auto.
  - fold c. rewrite live_avail by apply I'. rewrite (L LG), (rf_lg _ _ _ _ _ R).
    apply Forall_app. split; [exact HP|]. apply Forall_fmap. apply Forall_app in U as [_ U].
    rewrite Forall_forall in U |- *. intros u Hu. cbn. rewrite <- Esh.
    rewrite (lg_ext_bn c HC HG u (U u Hu)). apply HF. rewrite (rf_map _ _ _ _ _ R). set_solver.
  - fold c. intros u Hu. rewrite FU in Hu. apply HF. now apply (refill_free c t1 t2 (d_fs d) s1).
  - fold c. rewrite N, FU. intros Ee. destruct Me as [Me|[_ Me]]; [|exact Me].
    destruct (free_units s1) as [|u f] eqn:Ef; [reflexivity|]. exfalso.
    assert (Hu : u ∈ free_units (d_fs d)) by (apply (refill_free c t1 t2 (d_fs d) s1); [exact R|rewrite Ef; set_solver]).
    rewrite HE in Hu by congruence. set_solver.
Qed.

#[export] Instance refill_source (shift : Z) : BlockThread shift (part_ready shift) refill_wait.
Proof.
  split.
  - intros d b [HC HG (sm & lg & HS) HI _ _ _ HP _ _] Eb. split.
    + destruct (bo_pools _ _ (so_bfs _ _ HS)) as [_ W]. now apply W.
    + rewrite live_avail in HP by apply HI. cbn [bt_get] in HP. now rewrite Eb in HP.
  - intros m u d b Ed HR Eb. destruct (refill_ready shift d HR) as (r & s1 & E & HR' & H).
    pose proof HR' as [_ _ (sm & lg & HS) _ _ _ _ _ _ _].
    destruct (bo_lg _ _ (so_bfs _ _ HS)) as [b' Eb']. cbn in Eb'.
    exists (settle (d_conf d) s1), b'. split; [unfold refill_wait; now rewrite Ed, E|].
    split; [exact HR'|]. split; [exact Eb'|]. rewrite Eb' in H. exact H.
Qed.

(** ** Claims *)

(** The partition has nothing left: it takes no blocks now, or its pool of large blocks is
    empty and so is its map. *)
Definition nothing_left (m : amount) (u : Z) : Prop :=
  exists d, dev_at m u = Some d /\
    (usable_pool d LG = None \/ d_skip_ord d = true \/
     pool_list avail (at_lg (f_pools (d_fs d))) = [] /\ free_units (d_fs d) = []).

(** C23. Allocation of a large block for a file whose unit is in the list of its type, while
    the block thread runs, reads and writes of the maps succeed and the groups are not
    mismatched, ends. (For a file whose unit has left the list it need not:
    [lost_file_loops_forever].) The block comes from the first
    partition, from the file's own round its list, that has or gets one, and does not
    lie in the system area; the file system is reported as full only when no partition
    of the list that may be used has a free unit left, in its pool or in its map. *)
Theorem sam_alloc_block_finds_space (shift : Z) (fuel : nat) (t : disk_type) (l1 l2 : list Z)
    (di : dinode) (m : amount) :
  searching shift (part_ready shift) t (l1 ++ i_unit di :: l2) m di ->
  (9 * length (l1 ++ i_unit di :: l2) + 1 <= fuel)%nat ->
  exists error bn ord di' m',
    sam_alloc_block fuel refill_wait LG di m = Done (error, bn, ord, di') m' /\ alike m m' /\
    ((error = 0 /\ found_at shift ord bn m' /\ exists pre post,
        i_unit di :: l2 ++ l1 = pre ++ ord :: post /\ Forall (exhausted m') pre) \/
     (error = sam_enospc m di /\ Forall (nothing_left m') (l1 ++ i_unit di :: l2))).
Proof.
  intros HS Hf. destruct (alloc_block_spec shift _ refill_wait (refill_source shift) fuel t l1 l2 di m HS Hf)
    as (error & bn & ord & di' & m' & E & A & H).
  exists error, bn, ord, di', m'. split; [exact E|]. split; [exact A|].
  destruct H as [(-> & pre & post & Ep & P & F)|(-> & P & HS')]; [left; eauto 6|right].
  split; [reflexivity|]. rewrite Forall_forall in P |- *. intros u Hu.
  destruct (P u Hu) as (d & Ed & H). exists d. split; [exact Ed|].
  destruct (usable_pool d LG) as [b|] eqn:Eb; [|now left]. right. destruct H as [Ha [H|H]]; [now left|].
  right. rewrite (usable_lg d b Eb). split; [exact Ha|].
  exact (py_empty _ _ (sg_ready _ _ _ _ _ _ HS' u d Hu Ed) H).
Qed.

(** ** A small file system

    One metadata and two data partitions of the kind of [BlockThms]. *)

Definition demo_part (ty : Z) (s : bfs) : samdent :=
  mk_samdent ty DEV_ON DD 0 0 0 0 false false (demo_conf DT_RAID) s.

Definition demo_eq (ty : Z) : sbord := mk_sbord ty DEV_ON 1 64.

Definition demo_mount (data : bfs) : amount :=
  mk_amount [demo_part Equ.DT_META (demo_fs DT_RAID); demo_part Equ.DT_DATA data; demo_part Equ.DT_DATA data]
    [demo_eq Equ.DT_META; demo_eq Equ.DT_DATA; demo_eq Equ.DT_DATA]
    (mk_per_dt 0 0) (mk_per_dt 0 0) (mk_per_dt 2 1) false 1 false 0 false 2 true 0.

(** A data file. *)
Definition demo_file (unit : Z) : dinode := mk_dinode false false false 0 false 0 0 unit 0 false.

(** The file system with its lists, and with the first data partition taken out. *)
Definition run {A : Type} (f : M amount A) (m : amount) : amount :=
  match f m with Done _ m' => m' | Fault _ => m end.
Definition linked_demo (data : bfs) : amount := run (build_all 3 0) (demo_mount data).
Definition shrunk_demo (data : bfs) : amount :=
  run (sam_remove_from_allocation_links 1) (linked_demo data).

(** A partition without free units. *)
Definition full_fs : bfs :=
  set_space 0 (set_map_empty true (set_map [replicate 256 0] (demo_fs DT_RAID))).

(** When the first data partition is taken out of service the next new data file goes
    to the metadata partition: the entry that now keeps the turn never got one. *)
Theorem removal_sends_data_to_metadata :
  exists m m', build_all 3 0 (demo_mount (demo_fs DT_RAID)) = Done 0 m /\
    sam_remove_from_allocation_links 1 m = Done 0 m' /\
    exists di' m'' d, sam_set_unit 3 (demo_file 0) m' = Done (0, di') m'' /\
      i_meta di' = false /\ dev_at m'' (i_unit di') = Some d /\ d_type d = Equ.DT_META.
Proof.
  exists (linked_demo (demo_fs DT_RAID)), (shrunk_demo (demo_fs DT_RAID)).
  split; [vm_compute; reflexivity|]. split; [vm_compute; reflexivity|].
  eexists _, _, _. split; [vm_compute; reflexivity|]. split; [reflexivity|].
  split; [vm_compute; reflexivity|vm_compute; reflexivity].
Qed.

(** A file whose partition has been taken out of the list is never told that the file
    system is full: once no partition can supply a block, its allocation goes round for
    ever, because it waits for the search to come back to its own partition. *)
Theorem lost_file_loops_forever (wait : Z -> amount -> amount) (t : disk_type) (l : list Z)
    (di : dinode) (m : amount) (fuel : nat) :
  i_unit di ∉ l -> lost t l (i_unit di) m di ->
  sam_alloc_block fuel wait LG di m = Fault OutOfFuel.
Proof.
  intros Hu HL. destruct (lo_all _ _ _ _ _ HL (i_unit di) (or_intror eq_refl)) as (d & Ed & _).
  pose proof (dev_at_range m _ d Ed) as R. unfold sam_alloc_block.
  rewrite (bind_run _ _ _ _ _ (gets_run id m)). unfold id.
  destruct (Z.leb_spec (Z.of_nat (length (m_fs m))) (i_unit di)); [lia|].
  rewrite (bind_run _ _ m m (0, di)) by reflexivity. cbn [Z.eqb negb].
  apply (lost_forever wait t l (i_unit di) Hu); [exact HL|]. split; [now right|exact I].
Qed.

(** ** Instances *)

Lemma demo_unlinked (s : bfs) : unlinked (demo_mount s).
Proof.
  split; [split; [reflexivity|cbn; lia]| |reflexivity|].
  - intros o d E. unfold dev_at in E. destruct (o <? 0); [discriminate|].
    apply list_elem_of_lookup_2 in E. cbn in E. rewrite !elem_of_cons, elem_of_nil in E.
    now destruct E as [-> |[-> |[-> |[]]]].
  - intros i d e E Ee Es Eg. right. right. unfold demo_mount in Ee. cbn in Ee.
    apply list_elem_of_lookup_2 in Ee. rewrite !elem_of_cons, elem_of_nil in Ee.
    now destruct Ee as [-> |[-> |[-> |[]]]].
Qed.

Lemma demo_links (s : bfs) (t : disk_type) :
  links_ok t (match t with DD => [1; 2] | MM => [0] end) (linked_demo s) /\
  tables_ok (linked_demo s).
Proof.
  pose proof (demo_unlinked s) as HU.
  destruct (build_all_spec (demo_mount s) 3 0 (demo_mount s) HU (mount_inv_start _ HU)) as (m' & E & MI);
    [lia|reflexivity|].
  assert (El : linked_demo s = m') by (unfold linked_demo, run; now rewrite E). rewrite El. split.
  - replace (match t with DD => _ | MM => _ end) with (members t (demo_mount s) (0 + Z.of_nat 3))
      by (destruct t; reflexivity). apply MI.
  - destruct (ul_tables _ HU) as [T1 T2]. destruct MI. unfold tables_ok. rewrite mi_eq, mi_len. auto.
Qed.

Lemma mount_links_partitions_in_use_witness :
  exists m', build_all 3 0 (demo_mount (demo_fs DT_RAID)) = Done 0 m' /\
    forall t, links_ok t (members t (demo_mount (demo_fs DT_RAID)) 3) m'.
Proof. exact (mount_links_partitions_in_use (demo_mount (demo_fs DT_RAID)) (demo_unlinked _)). Defined.

Lemma sam_remove_from_allocation_links_unlinks_witness :
  exists m', sam_remove_from_allocation_links 1 (linked_demo (demo_fs DT_RAID)) = Done 0 m' /\
    links_ok DD [2] m' /\ links_ok MM [0] m' /\
    exists d', dev_at m' 1 = Some d' /\ d_alloc_link d' = false /\ d_skip_ord d' = true.
Proof.
  destruct (demo_links (demo_fs DT_RAID) DD) as [L T]. destruct (demo_links (demo_fs DT_RAID) MM) as [L' _].
  eapply (sam_remove_from_allocation_links_unlinks DD MM [1; 2] [0] 1 (linked_demo (demo_fs DT_RAID)));
    [exact T|exact L|discriminate|exact L'|set_solver|vm_compute; reflexivity|reflexivity].
Defined.

Lemma sam_set_unit_first_fit_witness :
  exists m' di', sam_set_unit 2 (demo_file 0) (linked_demo (demo_fs DT_RAID)) = Done (0, di') m' /\
    i_unit di' = 1 /\ links_ok DD [1; 2] m' /\
    exists d', dev_at m' (dt_get (m_dk_start m') DD) = Some d' /\ d_dk_unit d' ∈ [1; 2].
Proof.
  destruct (demo_links (demo_fs DT_RAID) DD) as [L T].
  eapply (sam_set_unit_first_fit 2 (linked_demo (demo_fs DT_RAID)) DD (demo_file 0) [] [2] 1);
    [exact T|split; [reflexivity|right; split; reflexivity]|exact L|vm_compute; reflexivity|reflexivity|cbn; lia].
Defined.

(** A linked partition of the small file system. *)
Definition demo_dev (data : bfs) (u : Z) : samdent :=
  default (demo_part Equ.DT_DATA data) (dev_at (linked_demo data) u).

Lemma stripe_width_limit_witness :
  i_unit (after_blocks (linked_demo (demo_fs DT_RAID)) (demo_dev (demo_fs DT_RAID) 1) 2 (demo_file 1)) = 2.
Proof.
  refine (eq_trans (proj2 (proj1 (stripe_width_limit (linked_demo (demo_fs DT_RAID))
    (demo_dev (demo_fs DT_RAID) 1) (demo_file 1) 2 eq_refl _ _) _)) _); vm_compute; easy.
Defined.

Lemma demo_part_ready (d : samdent) :
  d_conf d = demo_conf DT_RAID -> d_fs d = demo_fs DT_RAID -> d_system d = 64 -> part_ready 2 d.
Proof.
  intros E1 E2 E3. split; rewrite ?E1, ?E2, ?E3.
  - apply demo_conf_ok.
  - apply demo_geom_ok.
  - exists [], []. exact (mounted_ok _ _ _ _ (demo_conf_ok _) (demo_geom_ok _) (demo_mounted DT_RAID)).
  - now repeat split.
  - now split.
  - reflexivity.
  - reflexivity.
  - rewrite live_avail by reflexivity. constructor.
  - intros u Hu. exact (demo_free_system DT_RAID u Hu).
  - discriminate.
Qed.

Lemma demo_searching (di : dinode) :
  type_of di = DD -> i_blocks di = 0 ->
  searching 2 (part_ready 2) DD [1; 2] (linked_demo (demo_fs DT_RAID)) di.
Proof.
  intros Et Eb. destruct (demo_links (demo_fs DT_RAID) DD) as [L _].
  split; auto; [|now rewrite Eb].
  intros u d Hu E. rewrite !elem_of_cons, elem_of_nil in Hu. destruct Hu as [-> |[-> |[]]];
    vm_compute in E; injection E as <-; now apply demo_part_ready.
Qed.

Lemma sam_alloc_block_finds_space_witness :
  exists error bn ord di' m',
    sam_alloc_block 19 refill_wait LG (demo_file 2) (linked_demo (demo_fs DT_RAID))
      = Done (error, bn, ord, di') m' /\ alike (linked_demo (demo_fs DT_RAID)) m' /\
    ((error = 0 /\ found_at 2 ord bn m' /\ exists pre post,
        [2; 1] = pre ++ ord :: post /\ Forall (exhausted m') pre) \/
     (error = sam_enospc (linked_demo (demo_fs DT_RAID)) (demo_file 2) /\
      Forall (nothing_left m') [1; 2])).
Proof.
  apply (sam_alloc_block_finds_space 2 19 DD [1] [] (demo_file 2) (linked_demo (demo_fs DT_RAID)));
    [now apply demo_searching|cbn; lia].
Defined.

(** What remains of the full file system when partition 1 is taken out. *)
Lemma demo_lost : lost DD [2] 1 (shrunk_demo full_fs) (demo_file 1).
Proof.
  destruct (demo_links full_fs DD) as [L T].
  assert (LK : links_ok DD [2] (shrunk_demo full_fs)).
  { split; [vm_compute; reflexivity|intros _; vm_compute; auto|set_solver|apply NoDup_singleton|].
    intros o ->%list_elem_of_singleton. eexists _, _. split; [vm_compute; reflexivity|].
    split; [vm_compute; reflexivity|]. split; [reflexivity|]. split; [discriminate|reflexivity]. }
  split; try reflexivity; [exact LK| |vm_compute; set_solver].
  assert (W : pool_wf (new_block 256)) by (apply new_block_wf; lia).
  intros u [->%list_elem_of_singleton| ->]; (eexists; split; [vm_compute; reflexivity|]);
    (split; [exact W|split; [reflexivity|auto]]).
Qed.

Lemma lost_file_loops_forever_witness :
  sam_remove_from_allocation_links 1 (linked_demo full_fs) = Done 0 (shrunk_demo full_fs) /\
  sam_alloc_block 1000 refill_wait LG (demo_file 1) (shrunk_demo full_fs) = Fault OutOfFuel.
Proof.
  split; [vm_compute; reflexivity|].
  apply (lost_file_loops_forever refill_wait DD [2]); [set_solver|exact demo_lost].
Defined.

(** Every partition is full when partition 1, the head of the list, is taken out: the turn
    is that of the metadata partition 0. *)
Definition turned_demo : amount :=
  let m := shrunk_demo full_fs in set_mfs (alter (set_dfs full_fs) 0%nat (m_fs m)) m.

Lemma lost_turn_loops_forever_witness :
  sam_set_unit 1000 (demo_file 0) turned_demo = Fault OutOfFuel.
Proof.
  eapply (lost_turn_loops_forever 1000 turned_demo DD (demo_file 0) [2]).
  - split; [reflexivity|]. right. split; reflexivity.
  - split; [vm_compute; reflexivity|intros _; vm_compute; auto|set_solver|apply NoDup_singleton|].
    intros o ->%list_elem_of_singleton. eexists _, _. split; [vm_compute; reflexivity|].
    split; [vm_compute; reflexivity|]. split; [reflexivity|]. split; [discriminate|reflexivity].
  - discriminate.
  - vm_compute. reflexivity.
  - vm_compute. set_solver.
  - vm_compute. reflexivity.
  - reflexivity.
  - reflexivity.
  - intros y ->%list_elem_of_singleton. eexists. split; [vm_compute; reflexivity|reflexivity].
Defined.
