(* ===== verification/FileTree.v ===== *)
(** * The blocks of a file

    The extents of an inode and the indirect blocks below them as data
    (src/src/fs/include/ino.h), and the contents of such a tree: the data blocks with
    their positions in the file, and the indirect blocks that lead to them. *)

From S2P Require Import Prelude Dau Extent.

Definition ECANCELED : Z := 47.
Definition ENOCSI : Z := 43.
Definition NIEXT : Z := 3.
Definition NOEXT : Z := NDEXT + NIEXT.

(** An extent: block number and ordinal of the partition. Block number 0 is a hole. *)
Definition ext : Type := Z * Z.
Definition hole : ext := (0, 0).
Definition is_hole (e : ext) : bool := fst e =? 0.

(** [sam_id_t]. *)
Record sam_id : Type := mk_id { ino : Z; gen : Z }.

#[export] Instance sam_id_eq_dec : EqDecision sam_id.
Proof. solve_decision. Defined.

(** [sam_indirect_extent_t]: extents with their ordinals, level and owner. *)
Record ind_block : Type := mk_ind {
  ie_extent : list ext; ie_ieno : Z; ie_id : sam_id
}.
Definition zero_ind : ind_block := mk_ind [] 0 (mk_id 0 0).

(** Indirect blocks on disk. A block that has never been written reads as zeroes. *)
Abbreviation disk := (gmap ext ind_block).
Definition blk_at (D : disk) (e : ext) : ind_block := default zero_ind (D !! e).

Definition ent (b : ind_block) (i : nat) : ext := default hole (ie_extent b !! i).
Definition set_ent (i : nat) (e : ext) (b : ind_block) : ind_block :=
  mk_ind (<[i:=e]> (ie_extent b)) (ie_ieno b) (ie_id b).

(** Entries of an indirect block, and data blocks below one of [level]. *)
Definition dext : nat := Z.to_nat DEXT.
Fixpoint span (level : nat) : Z :=
  match level with O => 1 | S l => DEXT * span l end.

(** ** Contents of a tree *)

(** [f 0 ++ ... ++ f (n - 1)] *)
Fixpoint upto {A : Type} (f : nat -> list A) (n : nat) : list A :=
  match n with O => [] | S i => upto f i ++ f i end.

Definition shift_by (d : Z) (l : list (Z * ext)) : list (Z * ext) :=
  (fun '(k, e) => (d + k, e)) <$> l.

(** Data blocks below the block [e] of [level], with their positions, in order. *)
Fixpoint walk (D : disk) (level : nat) (e : ext) : list (Z * ext) :=
  upto (fun i =>
    let x := ent (blk_at D e) i in
    if is_hole x then []
    else match level with
         | O => [(Z.of_nat i, x)]
         | S l => shift_by (Z.of_nat i * span level) (walk D l x)
         end) dext.

(** Indirect blocks of the tree, its root included. *)
Fixpoint nodes (D : disk) (level : nat) (e : ext) : list ext :=
  e :: upto (fun i =>
    let x := ent (blk_at D e) i in
    if is_hole x then []
    else match level with O => [] | S l => nodes D l x end) dext.

(** The parts that entry [i] contributes. *)
Definition walk_ent (D : disk) (level : nat) (b : ind_block) (i : nat) : list (Z * ext) :=
  let x := ent b i in
  if is_hole x then []
  else match level with
       | O => [(Z.of_nat i, x)]
       | S l => shift_by (Z.of_nat i * span level) (walk D l x)
       end.
Definition nodes_ent (D : disk) (level : nat) (b : ind_block) (i : nat) : list ext :=
  let x := ent b i in
  if is_hole x then [] else match level with O => [] | S l => nodes D l x end.

Lemma walk_eq (D : disk) (level : nat) (e : ext) :
  walk D level e = upto (walk_ent D level (blk_at D e)) dext.
Proof. now destruct level. Qed.

Lemma nodes_eq (D : disk) (level : nat) (e : ext) :
  nodes D level e = e :: upto (nodes_ent D level (blk_at D e)) dext.
Proof. now destruct level. Qed.

(** ** Well-formed trees *)

Section Tree.
Context (rd : ext -> Z) (valid : nat -> ind_block -> bool).

(** Every indirect block can be read, is valid for its level, and has all its entries. *)
Fixpoint tree_ok (D : disk) (level : nat) (e : ext) : Prop :=
  rd e = 0 /\ valid level (blk_at D e) = true /\ length (ie_extent (blk_at D e)) = dext /\
  match level with
  | O => True
  | S l => forall i, (i < dext)%nat -> is_hole (ent (blk_at D e) i) = false ->
             tree_ok D l (ent (blk_at D e) i)
  end.
End Tree.

(** ** Lemmas on [upto] *)

Section Upto.
Context {A : Type}.
Implicit Types f g : nat -> list A.

Lemma upto_ext f g (n : nat) :
  (forall i, (i < n)%nat -> f i = g i) -> upto f n = upto g n.
Proof.
  induction n as [|n IH]; intros H; [reflexivity|]. cbn. rewrite IH, H; [reflexivity|lia|].
  intros i Hi. apply H. lia.
Qed.

Lemma elem_of_upto f (n : nat) (x : A) :
  x ∈ upto f n <-> exists i, (i < n)%nat /\ x ∈ f i.
Proof.
  induction n as [|n IH]; cbn.
  - split; [intros H; inversion H|intros (i & Hi & _); lia].
  - rewrite elem_of_app, IH. split.
    + intros [(i & Hi & Hx)|Hx]; [exists i; split; [lia|exact Hx]|exists n; split; [lia|exact Hx]].
    + intros (i & Hi & Hx). destruct (decide (i = n)) as [->|]; [now right|left].
      exists i. split; [lia|exact Hx].
Qed.

(** The entry [k] between those before and those after it. *)
Lemma upto_split f (n k : nat) :
  (k < n)%nat -> exists post, upto f n = upto f k ++ f k ++ post /\
    (forall x, x ∈ post <-> exists i, (k < i < n)%nat /\ x ∈ f i).
Proof.
  induction n as [|n IH]; intros Hk; [lia|]. cbn. destruct (decide (k = n)) as [->|Hne].
  - exists []. rewrite app_nil_r. split; [reflexivity|]. intros x. split; [intros H; inversion H|].
    intros (i & Hi & _). lia.
  - destruct IH as (post & E & Hp); [lia|]. exists (post ++ f n). rewrite E, <- !app_assoc.
    split; [reflexivity|]. intros x. rewrite elem_of_app, Hp. split.
    + intros [(i & Hi & Hx)|Hx]; [exists i; split; [lia|exact Hx]|exists n; split; [lia|exact Hx]].
    + intros (i & Hi & Hx). destruct (decide (i = n)) as [->|]; [now right|left].
      exists i. split; [lia|exact Hx].
Qed.

Lemma upto_nil f (n k : nat) :
  (k <= n)%nat -> (forall i, (k <= i < n)%nat -> f i = []) -> upto f n = upto f k.
Proof.
  induction n as [|n IH]; intros Hk H; [now replace k with O by lia|].
  destruct (decide (k = S n)) as [->|]; [reflexivity|]. cbn.
  rewrite (H n) by lia. rewrite app_nil_r. apply IH; [lia|]. intros i Hi. apply H. lia.
Qed.
End Upto.

Lemma fmap_upto {A B : Type} (h : A -> B) (f : nat -> list A) (n : nat) :
  h <$> upto f n = upto (fun i => h <$> f i) n.
Proof. induction n as [|n IH]; cbn; [reflexivity|]. now rewrite fmap_app, IH. Qed.

Lemma filter_upto {A : Type} (P : A -> Prop) `{!forall x, Decision (P x)} (f : nat -> list A) (n : nat) :
  base.filter P (upto f n) = upto (fun i => base.filter P (f i)) n.
Proof. induction n as [|n IH]; cbn; [reflexivity|]. now rewrite filter_app, IH. Qed.

(** ** Positions *)

Lemma span_pos (level : nat) : 0 < span level.
Proof. induction level; cbn [span]; unfold DEXT in *; lia. Qed.

Lemma dext_Z : Z.of_nat dext = DEXT.
Proof. reflexivity. Qed.

Lemma elem_of_shift (d k : Z) (e : ext) (l : list (Z * ext)) :
  (k, e) ∈ shift_by d l <-> (k - d, e) ∈ l.
Proof.
  unfold shift_by. rewrite list_elem_of_fmap. split.
  - intros ([k' e'] & [= -> ->] & H). now replace (d + k' - d) with k' by lia.
  - intros H. exists (k - d, e). split; [f_equal; lia|exact H].
Qed.

Lemma snd_shift (d : Z) (l : list (Z * ext)) : (shift_by d l).*2 = l.*2.
Proof. unfold shift_by. rewrite <- list_fmap_compose. apply list_fmap_ext. now intros ? [? ?]. Qed.

(** Position [k] of the data lies below entry [k / span]. *)
Lemma walk_range (D : disk) (level : nat) (e : ext) (k : Z) (x : ext) :
  (k, x) ∈ walk D level e -> 0 <= k < DEXT * span level.
Proof.
  revert e k. induction level as [|l IH]; intros e k H; rewrite walk_eq in H;
    apply elem_of_upto in H as (i & Hi & H); unfold walk_ent in H;
    destruct (is_hole _); [inversion H| |inversion H|].
  - apply list_elem_of_singleton in H as [= -> _]. cbn [span]. pose proof dext_Z. lia.
  - apply elem_of_shift in H. apply IH in H. change (span (S l)) with (DEXT * span l) in *.
    pose proof dext_Z. pose proof (span_pos l). nia.
Qed.

Lemma walk_ent_range (D : disk) (level : nat) (b : ind_block) (i : nat) (k : Z) (x : ext) :
  (k, x) ∈ walk_ent D level b i -> Z.of_nat i * span level <= k < (Z.of_nat i + 1) * span level.
Proof.
  unfold walk_ent. destruct (is_hole _); [intros H; inversion H|]. destruct level as [|l].
  - intros [= -> _]%list_elem_of_singleton. cbn. lia.
  - intros H%elem_of_shift. apply walk_range in H. change (span (S l)) with (DEXT * span l) in *. nia.
Qed.

(** ** Frames *)

(** A tree does not depend on blocks outside it. *)
Lemma tree_frame (D D' : disk) (level : nat) (e : ext) :
  (forall x, x ∈ nodes D level e -> D' !! x = D !! x) ->
  walk D' level e = walk D level e /\ nodes D' level e = nodes D level e.
Proof.
  revert e. induction level as [|l IH]; intros e H;
    (assert (Eb : blk_at D' e = blk_at D e)
      by (unfold blk_at; rewrite H; [reflexivity|rewrite nodes_eq; left]));
    rewrite !walk_eq, !nodes_eq, Eb.
  - split; reflexivity.
  - assert (Hi : forall i, (i < dext)%nat -> is_hole (ent (blk_at D e) i) = false ->
      walk D' l (ent (blk_at D e) i) = walk D l (ent (blk_at D e) i) /\
      nodes D' l (ent (blk_at D e) i) = nodes D l (ent (blk_at D e) i)).
    { intros i Hi Hh. apply IH. intros x Hx. apply H. rewrite nodes_eq. right.
      apply elem_of_upto. exists i. split; [exact Hi|]. unfold nodes_ent. now rewrite Hh. }
    split; [|f_equal]; apply upto_ext; intros i Hlt; unfold walk_ent, nodes_ent;
      destruct (is_hole _) eqn:Hh; try reflexivity; destruct (Hi i Hlt Hh) as [Ew En];
      [now rewrite Ew | exact En].
Qed.

Lemma tree_ok_frame (rd : ext -> Z) (valid : nat -> ind_block -> bool) (D D' : disk) (level : nat) (e : ext) :
  (forall x, x ∈ nodes D level e -> D' !! x = D !! x) ->
  tree_ok rd valid D level e -> tree_ok rd valid D' level e.
Proof.
  revert e. induction level as [|l IH]; intros e H (Hr & Hv & Hl & Hc);
    (assert (Eb : blk_at D' e = blk_at D e)
      by (unfold blk_at; rewrite H; [reflexivity|rewrite nodes_eq; left]));
    cbn [tree_ok]; rewrite Eb; repeat split; auto.
  intros i Hi Hh. apply IH; [|auto]. intros x Hx. apply H. rewrite nodes_eq. right.
  apply elem_of_upto. exists i. split; [exact Hi|]. unfold nodes_ent. now rewrite Hh.
Qed.

Lemma ent_set (b : ind_block) (i j : nat) (x : ext) :
  length (ie_extent b) = dext -> (i < dext)%nat ->
  ent (set_ent i x b) j = if decide (j = i) then x else ent b j.
Proof.
  intros Hl Hi. unfold ent, set_ent. cbn. destruct (decide (j = i)) as [->|Hne].
  - now rewrite list_lookup_insert_eq by lia.
  - now rewrite list_lookup_insert_ne by congruence.
Qed.

#[global] Opaque dext.
