(* ===== verification/Truncate.v ===== *)
(** * Truncation

    Model of [sam_reduce_ino], [sam_proc_indirect_block] and [sam_sync_inode]
    (src/src/fs/samfs/truncate.c), [sam_validate_indirect_block] (map.c) and of the part
    of the reclaim thread that frees the extents of an inode ([sam_free_extents] to
    [sam_free_indirect_block] of reclaim.c).

    The disk of the model is what has been written or is marked to be: a buffer that is
    changed and released without being written does not count. *)

From S2P Require Import Prelude Dau Extent Monad FileTree.

Inductive sam_truncate_t : Type := SAM_TRUNCATE | SAM_REDUCE | SAM_RELEASE | SAM_PURGE.

Definition is_purge (f : sam_truncate_t) : bool :=
  match f with SAM_PURGE => true | _ => false end.


(** ** State *)

(** The fields of [sam_node_t] that truncation uses. *)
Record finode : Type := mk_finode {
  n_id : sam_id;            (* di.id *)
  n_parent : sam_id;        (* di.parent_id *)
  n_dir : bool;             (* S_ISDIR(di.mode) *)
  n_seg_ino : bool;         (* di.status.b.seg_ino *)
  n_segi : bool;            (* S_ISSEGI(&di) *)
  n_seg_ord : Z;            (* di.rm.info.dk.seg.ord *)
  n_seg_blocks : Z;         (* segment_ip->di.blocks *)
  n_direct_map : bool;      (* di.status.b.direct_map *)
  n_meta : bool;            (* di.status.b.meta *)
  n_on_large : bool;        (* di.status.b.on_large *)
  n_offline : bool;         (* di.status.b.offline *)
  n_unit : Z;               (* di.unit *)
  n_stride : Z;             (* di.stride *)
  n_blocks : Z;             (* di.blocks *)
  n_lextent : Z;            (* di.lextent *)
  n_size : Z;               (* di.rm.size *)
  n_ext : list ext;         (* di.extent, di.extent_ord *)
  n_maxalloc : Z;           (* maxalloc *)
  n_hold : bool;            (* flags.b.hold_blocks *)
  n_changed : bool          (* flags.b.changed *)
}.

(** [S_ISSEGS], as the kernel defines it. *)
Definition n_segs (n : finode) : bool := n_seg_ino n.

(** Mount table: DAU tables, size of the striped group of an ordinal, superblock version. *)
Record tconf : Type := mk_tconf {
  c_dau : dtype -> sam_dau_t;
  c_num_group : Z -> Z;
  c_vers : Z
}.

(** [sam_rel_blks_t]. *)
Record rel_blks : Type := mk_rel {
  r_length : Z; r_id : sam_id; r_parent : sam_id; r_dir : bool; r_seg_ino : bool;
  r_direct_map : bool; r_meta : bool; r_on_large : bool; r_ext : list ext
}.

(** What truncation calls: [sam_free_block], [sam_quota_foffline] and, when blocks are moved,
    the routines that allocate a block for the file with [unit] and copy a data block, or
    allocate one for an indirect block, with the partition [new_ord] when it is not
    negative: the error and the new extent. *)
Class FileEnv (St : Type) : Type := {
  sam_free_block : btype -> ext -> M St unit;
  sam_quota_foffline : M St unit;
  sam_allocate_and_copy_extent : Z -> btype -> dtype -> ext -> M St (Z * ext);
  sam_allocate_and_copy_bp : Z -> ext -> M St (Z * ext)
}.

(** The inode, the disk, the list [m_next] of extents to be released, the outcomes of the
    coming writes of the inode ([true] for an error), the request for fsck, the rest. *)
Record ts (St : Type) : Type := mk_ts {
  t_di : finode;
  t_disk : disk;
  t_next : list rel_blks;
  t_upd : list bool;
  t_fsck : bool;
  t_env : St
}.
Arguments mk_ts {St} _ _ _ _ _ _.
Arguments t_di {St} _.
Arguments t_disk {St} _.
Arguments t_next {St} _.
Arguments t_upd {St} _.
Arguments t_fsck {St} _.
Arguments t_env {St} _.

(** ** Field updates *)

Definition upd_blocks (f : Z -> Z) (n : finode) : finode :=
  mk_finode (n_id n) (n_parent n) (n_dir n) (n_seg_ino n) (n_segi n) (n_seg_ord n) (n_seg_blocks n)
    (n_direct_map n) (n_meta n) (n_on_large n) (n_offline n) (n_unit n) (n_stride n) (f (n_blocks n))
    (n_lextent n) (n_size n) (n_ext n) (n_maxalloc n) (n_hold n) (n_changed n).
Definition upd_seg_blocks (f : Z -> Z) (n : finode) : finode :=
  mk_finode (n_id n) (n_parent n) (n_dir n) (n_seg_ino n) (n_segi n) (n_seg_ord n) (f (n_seg_blocks n))
    (n_direct_map n) (n_meta n) (n_on_large n) (n_offline n) (n_unit n) (n_stride n) (n_blocks n)
    (n_lextent n) (n_size n) (n_ext n) (n_maxalloc n) (n_hold n) (n_changed n).
Definition upd_ext (f : list ext -> list ext) (n : finode) : finode :=
  mk_finode (n_id n) (n_parent n) (n_dir n) (n_seg_ino n) (n_segi n) (n_seg_ord n) (n_seg_blocks n)
    (n_direct_map n) (n_meta n) (n_on_large n) (n_offline n) (n_unit n) (n_stride n) (n_blocks n)
    (n_lextent n) (n_size n) (f (n_ext n)) (n_maxalloc n) (n_hold n) (n_changed n).
Definition set_size (v : Z) (n : finode) : finode :=
  mk_finode (n_id n) (n_parent n) (n_dir n) (n_seg_ino n) (n_segi n) (n_seg_ord n) (n_seg_blocks n)
    (n_direct_map n) (n_meta n) (n_on_large n) (n_offline n) (n_unit n) (n_stride n) (n_blocks n)
    (n_lextent n) v (n_ext n) (n_maxalloc n) (n_hold n) (n_changed n).
Definition set_maxalloc (v : Z) (n : finode) : finode :=
  mk_finode (n_id n) (n_parent n) (n_dir n) (n_seg_ino n) (n_segi n) (n_seg_ord n) (n_seg_blocks n)
    (n_direct_map n) (n_meta n) (n_on_large n) (n_offline n) (n_unit n) (n_stride n) (n_blocks n)
    (n_lextent n) (n_size n) (n_ext n) v (n_hold n) (n_changed n).
Definition set_changed (n : finode) : finode :=
  mk_finode (n_id n) (n_parent n) (n_dir n) (n_seg_ino n) (n_segi n) (n_seg_ord n) (n_seg_blocks n)
    (n_direct_map n) (n_meta n) (n_on_large n) (n_offline n) (n_unit n) (n_stride n) (n_blocks n)
    (n_lextent n) (n_size n) (n_ext n) (n_maxalloc n) (n_hold n) true.
Definition set_stride (v : Z) (n : finode) : finode :=
  mk_finode (n_id n) (n_parent n) (n_dir n) (n_seg_ino n) (n_segi n) (n_seg_ord n) (n_seg_blocks n)
    (n_direct_map n) (n_meta n) (n_on_large n) (n_offline n) (n_unit n) v (n_blocks n)
    (n_lextent n) (n_size n) (n_ext n) (n_maxalloc n) (n_hold n) (n_changed n).
Definition set_offline (v : bool) (n : finode) : finode :=
  mk_finode (n_id n) (n_parent n) (n_dir n) (n_seg_ino n) (n_segi n) (n_seg_ord n) (n_seg_blocks n)
    (n_direct_map n) (n_meta n) (n_on_large n) v (n_unit n) (n_stride n) (n_blocks n)
    (n_lextent n) (n_size n) (n_ext n) (n_maxalloc n) (n_hold n) (n_changed n).
Definition set_lextent (v : Z) (n : finode) : finode :=
  mk_finode (n_id n) (n_parent n) (n_dir n) (n_seg_ino n) (n_segi n) (n_seg_ord n) (n_seg_blocks n)
    (n_direct_map n) (n_meta n) (n_on_large n) (n_offline n) (n_unit n) (n_stride n) (n_blocks n)
    v (n_size n) (n_ext n) (n_maxalloc n) (n_hold n) (n_changed n).
Definition set_direct_map (v : bool) (n : finode) : finode :=
  mk_finode (n_id n) (n_parent n) (n_dir n) (n_seg_ino n) (n_segi n) (n_seg_ord n) (n_seg_blocks n)
    v (n_meta n) (n_on_large n) (n_offline n) (n_unit n) (n_stride n) (n_blocks n)
    (n_lextent n) (n_size n) (n_ext n) (n_maxalloc n) (n_hold n) (n_changed n).
Definition set_unit (v : Z) (n : finode) : finode :=
  mk_finode (n_id n) (n_parent n) (n_dir n) (n_seg_ino n) (n_segi n) (n_seg_ord n) (n_seg_blocks n)
    (n_direct_map n) (n_meta n) (n_on_large n) (n_offline n) v (n_stride n) (n_blocks n)
    (n_lextent n) (n_size n) (n_ext n) (n_maxalloc n) (n_hold n) (n_changed n).
(** [bzero] of the disk inode, with the identification of the next generation. *)
Definition purged (n : finode) : finode :=
  mk_finode (mk_id (ino (n_id n)) (s32 (gen (n_id n) + 1))) (mk_id 0 0) false false false 0 (n_seg_blocks n)
    false false false false 0 0 0 0 0 (replicate (Z.to_nat NOEXT) hole) (n_maxalloc n) (n_hold n)
    (n_changed n).

Section State.
Context {St : Type} `{!FileEnv St}.

Definition upd_di (f : finode -> finode) : M (ts St) unit :=
  modify (fun s => mk_ts (f (t_di s)) (t_disk s) (t_next s) (t_upd s) (t_fsck s) (t_env s)).
Definition upd_disk (f : disk -> disk) : M (ts St) unit :=
  modify (fun s => mk_ts (t_di s) (f (t_disk s)) (t_next s) (t_upd s) (t_fsck s) (t_env s)).
Definition set_next (v : list rel_blks) : M (ts St) unit :=
  modify (fun s => mk_ts (t_di s) (t_disk s) v (t_upd s) (t_fsck s) (t_env s)).
Definition req_ifsck : M (ts St) unit :=
  modify (fun s => mk_ts (t_di s) (t_disk s) (t_next s) (t_upd s) true (t_env s)).
(** A call that acts on the rest of the system. *)
Definition env {A : Type} (m : M St A) : M (ts St) A := fun s =>
  match m (t_env s) with
  | Done a x => Done a (mk_ts (t_di s) (t_disk s) (t_next s) (t_upd s) (t_fsck s) x)
  | Fault f => Fault f
  end.

(** ** Indirect blocks *)

Definition sam_validate_indirect_block (n : finode) (level : nat) (b : ind_block) : Z :=
  if negb (ie_ieno b =? Z.of_nat level) then ENOCSI
  else if bool_decide (ie_id b = n_id n) then 0
  else if n_segs n && (n_seg_ord n =? 0) && bool_decide (ie_id b = n_parent n) then 0
  else ENOCSI.

(** [sam_ib_arg_t]. *)
Inductive ib_cmd : Type := SAM_FREE_BLOCK | SAM_FIND_ORD (ord : Z) | SAM_MOVE_ORD (ord new_ord : Z).

Definition kptr_at (kp : list Z) (ik : nat) : Z := default (-1) (kp !! ik).

(** Blocks of 4 kilobytes in a large extent of the file. *)
Definition dt_of (n : finode) : dtype := if n_meta n then MM else DD.
Definition lg_blocks (c : tconf) (n : finode) : Z :=
  let b := at_lg (blocks (c_dau c (dt_of n))) in
  if c_num_group c (n_unit n) =? 1 then b else s32 (b * c_num_group c (n_unit n)).

(** A data block is given back. *)
Definition give_back (c : tconf) (e : ext) : M (ts St) unit :=
  n ← gets t_di;
  upd_di set_changed;;
  env (sam_free_block LG e);;
  upd_di (upd_blocks (fun b => u32 (b - lg_blocks c n)));;
  when (n_segs n) (upd_di (upd_seg_blocks (fun b => u32 (b - lg_blocks c n)))).

(** A data block is moved to another partition: the error and the new extent. *)
Definition move_data (new_ord : Z) (e : ext) : M (ts St) (Z * ext) :=
  when (0 <=? new_ord) (upd_di (set_unit new_ord));;
  n ← gets t_di;
  r ← env (sam_allocate_and_copy_extent (n_unit n) LG (dt_of n) e);
  let '(error, e1) := r in
  if error =? 0 then env (sam_free_block LG e);; mret (0, e1) else mret (error, e).

(** The loop over the entries of a level 0 block, from entry [i - 1] down: [error], the
    block and [bwrite_indirect] change. *)
Fixpoint data_loop (i : nat) (c : tconf) (cmd : ib_cmd) (keep : bool) (k : Z) (b : ind_block) (error : Z)
    (bwrite : bool) : M (ts St) (Z * ind_block * bool) :=
  match i with
  | O => mret (error, b, bwrite)
  | S j =>
      let e := ent b j in
      if is_hole e then data_loop j c cmd keep k b error bwrite
      else if keep && (Z.of_nat j <=? k) then mret (ECANCELED, b, bwrite)
      else match cmd with
           | SAM_FREE_BLOCK =>
               give_back c e;;
               data_loop j c cmd keep k (set_ent j hole b) error bwrite
           | SAM_FIND_ORD ord =>
               if snd e =? ord then mret (ECANCELED, b, bwrite) else data_loop j c cmd keep k b error bwrite
           | SAM_MOVE_ORD ord new_ord =>
               if snd e =? ord then
                 r ← move_data new_ord e;
                 let '(error1, e1) := r in
                 data_loop j c cmd keep k (set_ent j e1 b) error1 (if error1 =? 0 then true else bwrite)
               else data_loop j c cmd keep k b error bwrite
           end
  end.

(** The loop over the entries of a higher block: [top] is [ik == 0], [child] the call for
    an entry. The block, [*set], [reset] and [error] change. *)
Fixpoint node_loop (i : nat) (child : ext -> bool -> M (ts St) (Z * ext * bool)) (top : bool) (k : Z)
    (b : ind_block) (set reset : bool) (error : Z) : M (ts St) (Z * ind_block * bool) :=
  match i with
  | O => mret (error, b, set)
  | S j =>
      let e := ent b j in
      if is_hole e then node_loop j child top k b set reset error
      else
        let here := Z.of_nat j <=? k in
        let '(set1, reset1) :=
          if top && here then (true, reset)
          else if reset && here then (true, false)
          else (set, reset) in
        r ← child e set1;
        let '(error1, e1, set2) := r in
        let b1 := set_ent j e1 b in
        if error1 =? ECANCELED then mret (error1, b1, set2)
        else node_loop j child top k b1 set2 reset1 error1
  end.

(** After the loop; [bwrite] is [bwrite_indirect]. *)
Definition ib_finish (cmd : ib_cmd) (e : ext) (r : Z * ind_block * bool) (bwrite : bool)
  : M (ts St) (Z * ext * bool) :=
  let '(error, b, set) := r in
  match cmd with
  | SAM_FREE_BLOCK =>
      if negb (error =? ECANCELED) then
        upd_di set_changed;;
        env (sam_free_block LG e);;
        mret (error, hole, set)
      else
        upd_disk (insert e b);;
        mret (error, e, set)
  | SAM_FIND_ORD ord => mret (if snd e =? ord then ECANCELED else error, e, set)
  | SAM_MOVE_ORD ord new_ord =>
      if snd e =? ord then
        x ← env (sam_allocate_and_copy_bp new_ord e);
        let '(error1, e1) := x in
        if error1 =? 0 then
          upd_disk (insert e1 b);;
          env (sam_free_block LG e);;
          mret (error1, e1, set)
        else mret (error1, e, set)
      else
        when bwrite (upd_disk (insert e b));;
        mret (error, e, set)
  end.

(** [rd e] is the error of reading the block [e]. *)
Fixpoint sam_proc_indirect_block (rd : ext -> Z) (c : tconf) (level : nat) (cmd : ib_cmd)
    (kp : list Z) (ik : nat) (e : ext) (set : bool) : M (ts St) (Z * ext * bool) :=
  if negb (rd e =? 0) then mret (rd e, e, set)
  else
    s ← gets id;
    let b := blk_at (t_disk s) e in
    if negb (sam_validate_indirect_block (t_di s) level b =? 0) then
      req_ifsck;; mret (ENOCSI, e, set)
    else
      match level with
      | O =>
          r ← data_loop dext c cmd set (kptr_at kp ik) b 0 false;
          let '(error, b1, bwrite) := r in ib_finish cmd e (error, b1, set) bwrite
      | S l =>
          let reset := (Nat.eqb level 1) && set in
          let set1 := if reset then false else set in
          r ← node_loop dext (sam_proc_indirect_block rd c l cmd kp (S ik)) (Nat.eqb ik 0)
                (kptr_at kp ik) b set1 reset 0;
          ib_finish cmd e r false
      end.

(** ** Synchronising the inode *)

(** One attempt to write the inode. *)
Definition sam_update_inode : M (ts St) bool := fun s =>
  match t_upd s with
  | [] => Done false s
  | x :: q => Done x (mk_ts (t_di s) (t_disk s) (t_next s) q (t_fsck s) (t_env s))
  end.

Definition sam_sync_inode (length : Z) (tflag : sam_truncate_t) : M (ts St) Z :=
  when (length =? 0) (upd_di (set_stride 0));;
  (match tflag with
   | SAM_TRUNCATE =>
       n ← gets t_di;
       upd_di (set_size length);;
       when (n_segi n) (upd_di (upd_blocks (fun _ => 0)))
   | SAM_REDUCE => mret tt
   | SAM_RELEASE =>
       n ← gets t_di;
       when (negb (n_offline n)) (env sam_quota_foffline);;
       upd_di (set_offline true)
   | SAM_PURGE => upd_di purged
   end);;
  upd_di set_changed;;
  failed ← sam_update_inode;
  if failed : bool then
    failed2 ← sam_update_inode;
    mret (if failed2 : bool then EIO else 0)
  else mret 0.

(** ** Reducing an inode *)

Definition n_args (c : tconf) (n : finode) (offset : Z) : sam_get_extent_args :=
  mk_get_extent_args (c_dau c) (c_num_group c (n_unit n)) (c_vers c)
    (mk_ino_status (n_meta n) (n_on_large n)) offset.

(** Blocks of the direct extent [i]. *)
Definition ext_blocks (c : tconf) (n : finode) (i : nat) : Z :=
  let bt := if (Z.of_nat i <? NSDEXT) && negb (n_on_large n) then SM else LG in
  let b := bt_get (blocks (c_dau c (dt_of n))) bt in
  if c_num_group c (n_unit n) =? 1 then b else s32 (b * c_num_group c (n_unit n)).

(** The loop that counts the blocks of the extents up to [de], which stay. *)
Definition count_kept (c : tconf) (n : finode) (de : Z) : M (ts St) unit :=
  for_each (seq 0 (Z.to_nat (de + 1))) (fun i =>
    when (negb (is_hole (default hole (n_ext n !! i))))
      (upd_di (upd_blocks (fun b => u32 (b + ext_blocks c n i)));;
       when (n_segs n) (upd_di (upd_seg_blocks (fun b => u32 (b + ext_blocks c n i)))))).

Definition rel_of (n : finode) (length : Z) : rel_blks :=
  mk_rel length (n_id n) (n_parent n) (n_dir n) (n_seg_ino n) (n_direct_map n) (n_meta n) (n_on_large n)
    (n_ext n).
Definition rel_clear (r : rel_blks) : rel_blks :=
  mk_rel (r_length r) (r_id r) (r_parent r) (r_dir r) (r_seg_ino r) (r_direct_map r) (r_meta r)
    (r_on_large r) (alter (fun e => (0, snd e)) 1%nat (alter (fun e => (0, snd e)) 0%nat (r_ext r))).
Definition ext_bn (l : list ext) (i : nat) : Z := fst (default hole (l !! i)).

(** The inode is written and its old extents are queued, or restored. *)
Definition reduce_sync (n : finode) (length : Z) (tflag : sam_truncate_t) (rlp : rel_blks) : M (ts St) Z :=
  error ← sam_sync_inode length tflag;
  if negb (error =? 0) then
    if is_purge tflag then mret EIO
    else
      upd_di (upd_ext (fun _ => r_ext rlp));;
      upd_di (set_lextent (n_lextent n));;
      upd_di (upd_blocks (fun _ => n_blocks n));;
      when (n_segs n) (upd_di (upd_seg_blocks (fun _ => n_seg_blocks n)));;
      upd_di (set_offline (n_offline n));;
      upd_di (set_size (n_size n));;
      mret EIO
  else
    s ← gets id;
    set_next (rlp :: t_next s);;
    mret 0.

(** The last extent that stays is a direct one, or none is. *)
Definition reduce_direct (c : tconf) (de length : Z) (tflag : sam_truncate_t) : M (ts St) Z :=
  n ← gets t_di;
  let rlp := rel_of n length in
  upd_di (upd_blocks (fun _ => 0));;
  when (n_segs n) (upd_di (upd_seg_blocks (fun b => u32 (b - n_blocks n))));;
  if n_direct_map n then
    if ext_bn (n_ext n) 1 =? 0 then mret 0
    else if negb (length =? 0) then reduce_sync n length tflag (rel_clear rlp)
    else
      upd_di (set_lextent 0);;
      upd_di (upd_ext (fun l => alter (fun e => (0, snd e)) 1%nat (alter (fun _ => hole) 0%nat l)));;
      upd_di (upd_blocks (fun _ => 0));;
      upd_di (set_direct_map false);;
      reduce_sync n length tflag rlp
  else
    let kept := take (Z.to_nat (de + 1)) (n_ext n) in
    upd_di (upd_ext (fun l => kept ++ replicate (List.length l - List.length kept) hole));;
    count_kept c n de;;
    reduce_sync n length tflag rlp.

(** The loop over the indirect extents, from extent [i - 1] down to [de]. *)
Fixpoint indirect_loop (i : nat) (rd : ext -> Z) (c : tconf) (kp : list Z) (de error : Z) : M (ts St) Z :=
  match i with
  | O => mret error
  | S j =>
      if Z.of_nat j <? de then mret error
      else
        n ← gets t_di;
        let e := default hole (n_ext n !! j) in
        if is_hole e then indirect_loop j rd c kp de error
        else
          let set := Z.of_nat j =? NDEXT in
          let ik := if Z.of_nat j =? de then O else Z.to_nat (NIEXT - 1) in
          r ← sam_proc_indirect_block rd c (Z.to_nat (Z.of_nat j - NDEXT)) SAM_FREE_BLOCK kp ik e set;
          let '(error1, e1, _) := r in
          upd_di (upd_ext (insert j e1));;
          if error1 =? ECANCELED then
            if Nat.eqb ik 0 then mret 0 else indirect_loop j rd c kp de 0
          else indirect_loop j rd c kp de error1
  end.

Definition sam_reduce_ino (rd : ext -> Z) (c : tconf) (length : Z) (tflag : sam_truncate_t) : M (ts St) Z :=
  n ← gets t_di;
  if n_hold n then
    match tflag with
    | SAM_RELEASE | SAM_REDUCE => mret 0
    | _ =>
        upd_di (set_size length);;
        when (n_maxalloc n <? length) (upd_di (set_maxalloc length));;
        mret 0
    end
  else
    let kp0 := mk_kptr (-1) (-1) (-1) in
    if negb (n_direct_map n) && negb (length =? 0) then
      match sam_get_extent (n_args c n (length - 1)) kp0 with
      | (0, kp, Some r) =>
          if rv_de r <? NDEXT then reduce_direct c (rv_de r) length tflag
          else
            assert (rv_de r <? NOEXT);;
            indirect_loop (Z.to_nat NOEXT) rd c [kptr0 kp; kptr1 kp; kptr2 kp; -1; -1] (rv_de r) 0
      | (error, _, _) => mret error
      end
    else reduce_direct c (-1) length tflag.

(** ** The reclaim thread *)

(** [sam_free_indirect_block]'s check of a block. *)
Definition rel_validate (r : rel_blks) (level : nat) (b : ind_block) : Z :=
  if negb (ie_ieno b =? Z.of_nat level) then ENOCSI
  else if bool_decide (ie_id b = r_id r) then 0
  else if r_seg_ino r && bool_decide (ie_id b = r_parent r) then 0
  else ENOCSI.

(** Its loop over the entries; [child] frees what is below an entry. *)
Fixpoint rel_loop (i : nat) (child : ext -> M (ts St) (Z * ext)) (k : Z) (b : ind_block) (error : Z)
  : M (ts St) (Z * ind_block) :=
  match i with
  | O => mret (error, b)
  | S j =>
      if k =? Z.of_nat j then mret (ECANCELED, b)
      else
        let e := ent b j in
        if is_hole e then rel_loop j child k b error
        else
          r ← child e;
          let '(error1, e1) := r in rel_loop j child k (set_ent j e1 b) error1
  end.

Fixpoint sam_free_indirect_block (rd : ext -> Z) (r : rel_blks) (level : nat) (kp : list Z) (e : ext)
  : M (ts St) (Z * ext) :=
  if negb (rd e =? 0) then mret (rd e, e)
  else
    s ← gets id;
    let b := blk_at (t_disk s) e in
    if negb (rel_validate r level b =? 0) then req_ifsck;; mret (ENOCSI, e)
    else
      x ← rel_loop dext
            (match level with
             | O => fun e' => env (sam_free_block LG e');; mret (0, hole)
             | S l => sam_free_indirect_block rd r l kp
             end) (kptr_at kp level) b 0;
      let '(error, b1) := x in
      if negb (error =? ECANCELED) then env (sam_free_block LG e);; mret (error, hole)
      else upd_disk (insert e b1);; mret (error, e).

(** The loop of [sam_free_indirect_map] over the extents, from extent [i - 1] down. *)
Fixpoint rel_map_loop (i : nat) (rd : ext -> Z) (r : rel_blks) (kp : list Z) (de : Z) (exts : list ext)
    (error : Z) : M (ts St) Z :=
  match i with
  | O => mret error
  | S j =>
      let e := default hole (exts !! j) in
      if Z.of_nat j <? NDEXT then
        if negb (r_length r =? 0) && (de =? Z.of_nat j) then mret error
        else if is_hole e then rel_map_loop j rd r kp de exts error
        else
          env (sam_free_block (if (Z.of_nat j <? NSDEXT) && negb (r_on_large r) then SM else LG) e);;
          rel_map_loop j rd r kp de (<[j:=hole]> exts) error
      else if is_hole e then
        if (r_length r =? 0) || (kptr_at kp (Z.to_nat (Z.of_nat j - NDEXT)) =? -1)
        then rel_map_loop j rd r kp de exts error
        else mret error
      else
        x ← sam_free_indirect_block rd r (Z.to_nat (Z.of_nat j - NDEXT)) kp e;
        let '(error1, e1) := x in
        if error1 =? ECANCELED then mret 0
        else rel_map_loop j rd r kp de (<[j:=e1]> exts) error1
  end.

Definition r_args (c : tconf) (r : rel_blks) (offset : Z) : sam_get_extent_args :=
  mk_get_extent_args (c_dau c) (c_num_group c (snd (default hole (r_ext r !! 0%nat)))) (c_vers c)
    (mk_ino_status (r_meta r) (r_on_large r)) offset.

Definition sam_free_indirect_map (rd : ext -> Z) (c : tconf) (r : rel_blks) : M (ts St) Z :=
  if negb (r_length r =? 0) then
    match sam_get_extent (r_args c r (r_length r - 1)) (mk_kptr (-1) (-1) (-1)) with
    | (0, kp, Some v) =>
        rel_map_loop (Z.to_nat NOEXT) rd r [kptr0 kp; kptr1 kp; kptr2 kp] (rv_de v) (r_ext r) 0
    | (error, _, _) => mret error
    end
  else rel_map_loop (Z.to_nat NOEXT) rd r [-1; -1; -1] 0 (r_ext r) 0.

(** [bn] and [ord] walk over the blocks of a contiguous extent; [ext_size] is the distance
    of two large blocks in block numbers. *)
Fixpoint direct_loop (fuel : nat) (dau_size ext_size bn ord blocks : Z) : M (ts St) unit :=
  if blocks <=? 0 then mret tt
  else match fuel with
       | O => fail OutOfFuel
       | S fuel' =>
           env (sam_free_block LG (u32 bn, ord));;
           direct_loop fuel' dau_size ext_size (s32 (bn + ext_size)) ord (blocks - dau_size)
       end.

Definition sam_free_direct_map (bn_shift : Z) (c : tconf) (r : rel_blks) : M (ts St) Z :=
  let e0 := default hole (r_ext r !! 0%nat) in
  let blocks := ext_bn (r_ext r) 1 in
  let dau_size := Z.shiftr (at_lg (size (c_dau c (if r_meta r then MM else DD)))) SAM_DEV_BSHIFT in
  direct_loop (Z.to_nat blocks) dau_size (Z.shiftr dau_size bn_shift) (s32 (fst e0)) (snd e0) blocks;;
  mret 0.

(** The list of extents to be released is emptied. *)
Fixpoint sam_free_extents (fuel : nat) (bn_shift : Z) (rd : ext -> Z) (c : tconf) : M (ts St) unit :=
  s ← gets id;
  match t_next s with
  | [] => mret tt
  | r :: rest =>
      match fuel with
      | O => fail OutOfFuel
      | S fuel' =>
          set_next rest;;
          (if r_direct_map r then sam_free_direct_map bn_shift c r else sam_free_indirect_map rd c r);;
          sam_free_extents fuel' bn_shift rd c
      end
  end.
End State.
