(* ===== verification/TruncTree.v ===== *)
(** * Freeing trees of indirect blocks

    What [sam_proc_indirect_block] does to a well-formed tree: it gives back the whole
    tree, or everything after a position that is in the file. *)

From S2P Require Import Prelude Dau Extent Monad FileTree Truncate.

(** ** The contract of [sam_free_block] *)

(** A block is made of cells, the small blocks. [pool s] are the cells that have been given
    back, [in_use s x] says that the block [x] may be. Giving back a block that is in use
    puts its cells into the pool and leaves the blocks without these cells in use; an
    invariant [sink_ok] is kept. *)
Class BlockSink (St : Type) `{!FileEnv St} : Type := {
  cells : btype * ext -> list ext;
  pool : St -> list ext;
  in_use : St -> btype * ext -> Prop;
  sink_ok : St -> Prop;
  free_spec (s : St) (bt : btype) (e : ext) :
    in_use s (bt, e) ->
    exists s', sam_free_block bt e s = Done tt s' /\ pool s' ≡ₚ cells (bt, e) ++ pool s /\
      (forall y, cells y ## cells (bt, e) -> in_use s y -> in_use s' y) /\ (sink_ok s -> sink_ok s');
  foffline_spec (s : St) :
    exists s', sam_quota_foffline s = Done tt s' /\ pool s' = pool s /\
      (forall y, in_use s y -> in_use s' y) /\ (sink_ok s -> sink_ok s')
}.

(** The inode without its block counts and the flag for a change. *)
Definition mask (n : finode) : finode :=
  upd_blocks (fun _ => 0) (upd_seg_blocks (fun _ => 0) (set_changed n)).

(** What is left of a block count after [k] data blocks of [lg] have been given back. *)
Definition count_less (lg : Z) (k : nat) (x y : Z) : Prop :=
  y mod 2 ^ 32 = (x - Z.of_nat k * lg) mod 2 ^ 32.

Lemma count_less_refl (lg x : Z) : count_less lg 0 x x.
Proof. unfold count_less. f_equal. lia. Qed.

Lemma count_less_trans (lg : Z) (k1 k2 : nat) (x y z : Z) :
  count_less lg k1 x y -> count_less lg k2 y z -> count_less lg (k1 + k2) x z.
Proof.
  unfold count_less. intros H1 H2. rewrite H2, Zminus_mod, H1, <- Zminus_mod. f_equal. lia.
Qed.

Lemma count_less_one (lg x : Z) : count_less lg 1 x (u32 (x - lg)).
Proof. unfold count_less, uwrap. rewrite Z.mod_mod by lia. f_equal. lia. Qed.

Section Sink.
Context {St : Type} `{!FileEnv St} `{!BlockSink St}.

(** The blocks [l] have been given back. *)
Definition frees (l : list (btype * ext)) (s s' : St) : Prop :=
  pool s' ≡ₚ (l ≫= cells) ++ pool s /\
  (forall y, cells y ## (l ≫= cells) -> in_use s y -> in_use s' y) /\ (sink_ok s -> sink_ok s').

Lemma frees_nil (s : St) : frees [] s s.
Proof. split; [reflexivity|auto]. Qed.

Lemma frees_one (x : btype * ext) (s s' : St) :
  pool s' ≡ₚ cells x ++ pool s ->
  (forall y, cells y ## cells x -> in_use s y -> in_use s' y) /\ (sink_ok s -> sink_ok s') -> frees [x] s s'.
Proof. intros P U. split; rewrite bind_cons, app_nil_r; [exact P|exact U]. Qed.

Lemma frees_trans (l1 l2 : list (btype * ext)) (s s1 s2 : St) :
  frees l1 s s1 -> frees l2 s1 s2 -> frees (l1 ++ l2) s s2.
Proof.
  intros (P1 & U1 & O1) (P2 & U2 & O2). split; [|split; [|auto]]; rewrite bind_app.
  - rewrite P2, P1, !app_assoc. apply Permutation_app_tail, Permutation_app_comm.
  - intros y Hy Hu. apply U2; [|apply U1; [|exact Hu]]; intros z H1 H2; apply (Hy z H1);
      rewrite elem_of_app; tauto.
Qed.

Lemma frees_perm (l1 l2 : list (btype * ext)) (s s' : St) :
  l1 ≡ₚ l2 -> frees l1 s s' -> frees l2 s s'.
Proof.
  intros E (P & U & O). split; [now rewrite <- E|]. split; [|exact O]. intros y Hy. apply U. intros z. rewrite E. apply Hy.
Qed.

(** Blocks that may be given back one after the other. *)
Definition owned (s : ts St) (l : list (btype * ext)) : Prop :=
  NoDup (l ≫= cells) /\ Forall (in_use (t_env s)) l.

Lemma owned_perm (s : ts St) (l1 l2 : list (btype * ext)) : l1 ≡ₚ l2 -> owned s l1 -> owned s l2.
Proof. intros E [N F]. split; [now rewrite <- E|now rewrite <- E]. Qed.

Lemma owned_sub (s : ts St) (l1 l2 : list (btype * ext)) : owned s (l1 ++ l2) -> owned s l1 /\ owned s l2.
Proof.
  intros [N F]. rewrite bind_app in N. apply NoDup_app in N as (N1 & _ & N2). apply Forall_app in F as [F1 F2].
  split; split; auto.
Qed.

Lemma owned_sublist (s : ts St) (l1 l2 : list (btype * ext)) :
  l1 `sublist_of` l2 -> owned s l2 -> owned s l1.
Proof.
  intros H Ho. apply sublist_submseteq, submseteq_Permutation in H as [k Hk].
  apply (owned_perm _ _ _ Hk) in Ho. now apply owned_sub in Ho as [? _].
Qed.

Lemma owned_head (s : ts St) (x : btype * ext) (l : list (btype * ext)) : owned s (x :: l) -> in_use (t_env s) x.
Proof. intros [_ F]. now apply Forall_cons in F as [? _]. Qed.

(** What is still there after other blocks have been given back. *)
Lemma owned_frees (s s' : ts St) (l1 l2 : list (btype * ext)) :
  owned s (l1 ++ l2) -> frees l1 (t_env s) (t_env s') -> owned s' l2.
Proof.
  intros [N F] (_ & U & _). rewrite bind_app in N. apply NoDup_app in N as (_ & N & N2). apply Forall_app in F as [_ F].
  split; [exact N2|]. rewrite Forall_forall in *. intros y Hy. apply U; [|auto].
  intros z H1 H2. apply (N z H2). apply list_elem_of_bind. eauto.
Qed.

(** Everything but inode, disk and free blocks stays, [k] data blocks are given back. *)
Record freed_by (lg : Z) (k : nat) (l : list (btype * ext)) (s s' : ts St) : Prop := mk_freed_by {
  fb_env : frees l (t_env s) (t_env s');
  fb_mask : mask (t_di s') = mask (t_di s);
  fb_blocks : count_less lg k (n_blocks (t_di s)) (n_blocks (t_di s'));
  fb_seg : count_less lg (if n_segs (t_di s) then k else 0) (n_seg_blocks (t_di s)) (n_seg_blocks (t_di s'));
  fb_next : t_next s' = t_next s;
  fb_upd : t_upd s' = t_upd s;
  fb_fsck : t_fsck s' = t_fsck s
}.

Lemma freed_by_refl (lg : Z) (s : ts St) : freed_by lg 0 [] s s.
Proof. constructor; auto using frees_nil, count_less_refl. destruct (n_segs _); apply count_less_refl. Qed.

Lemma freed_by_trans (lg : Z) (k1 k2 : nat) (l1 l2 : list (btype * ext)) (s s1 s2 : ts St) :
  freed_by lg k1 l1 s s1 -> freed_by lg k2 l2 s1 s2 -> freed_by lg (k1 + k2) (l1 ++ l2) s s2.
Proof.
  intros [] []. assert (Es : n_segs (t_di s1) = n_segs (t_di s)).
  { pose proof (f_equal n_segs fb_mask0) as H. exact H. }
  constructor; try congruence; eauto using frees_trans, count_less_trans.
  rewrite Es in fb_seg1. destruct (n_segs (t_di s)); [eauto using count_less_trans|].
  exact (count_less_trans _ 0 0 _ _ _ fb_seg0 fb_seg1).
Qed.

Lemma freed_by_perm (lg : Z) (k : nat) (l1 l2 : list (btype * ext)) (s s' : ts St) :
  l1 ≡ₚ l2 -> freed_by lg k l1 s s' -> freed_by lg k l2 s s'.
Proof. intros E []. constructor; auto. eapply frees_perm; eauto. Qed.

Lemma owned_after (lg : Z) (k : nat) (l1 l2 : list (btype * ext)) (s s' : ts St) :
  owned s (l1 ++ l2) -> freed_by lg k l1 s s' -> owned s' l2.
Proof.
  intros Ho H. eapply owned_frees; [exact Ho|apply H].
Qed.

(** ** One data block *)

Lemma mask_changed (n : finode) : mask (set_changed n) = mask n.
Proof. reflexivity. Qed.

Lemma give_back_spec (c : tconf) (e : ext) (s : ts St) :
  in_use (t_env s) (LG, e) ->
  exists s', give_back c e s = Done tt s' /\ freed_by (lg_blocks c (t_di s)) 1 [(LG, e)] s s' /\
    t_disk s' = t_disk s.
Proof.
  intros Hu. destruct (free_spec _ _ _ Hu) as (x & Ex & P & U). unfold give_back.
  rewrite (bind_done _ _ _ s (t_di s)) by reflexivity. set (lg := lg_blocks c (t_di s)).
  erewrite bind_done; [|reflexivity]. erewrite bind_done; [|unfold env; cbn [t_env]; rewrite Ex; reflexivity].
  erewrite bind_done; [|reflexivity]. cbn [t_di t_disk t_next t_upd t_fsck t_env].
  assert (Fr : frees [(LG, e)] (t_env s) x) by (now apply frees_one).
  destruct (n_segs (t_di s)) eqn:Es; cbn [when].
  - eexists. split; [reflexivity|]. split; [|reflexivity].
    constructor; cbn; rewrite ?Es; auto using count_less_one.
  - eexists. split; [reflexivity|]. split; [|reflexivity].
    constructor; cbn; rewrite ?Es; auto using count_less_one, count_less_refl.
Qed.

(** The block that leads to the data is given back. *)
Lemma free_node_spec (lg : Z) (e : ext) (s : ts St) :
  in_use (t_env s) (LG, e) ->
  exists s', (upd_di set_changed;; env (sam_free_block LG e)) s = Done tt s' /\
    freed_by lg 0 [(LG, e)] s s' /\ t_disk s' = t_disk s.
Proof.
  intros Hu. destruct (free_spec _ _ _ Hu) as (x & Ex & P & U).
  erewrite bind_done; [|reflexivity]. unfold env. cbn [t_env]. rewrite Ex.
  eexists. split; [reflexivity|]. split; [|reflexivity]. cbn.
  constructor; cbn; auto using count_less_refl; [|destruct (n_segs _); apply count_less_refl].
  now apply frees_one.
Qed.
End Sink.

(** ** Blocks of a tree *)

Definition lg_of (l : list ext) : list (btype * ext) := pair LG <$> l.

#[export] Instance lg_of_proper : Proper ((≡ₚ) ==> (≡ₚ)) lg_of.
Proof. intros l1 l2 E. apply fmap_Permutation, E. Qed.

Lemma lg_of_app (l1 l2 : list ext) : lg_of (l1 ++ l2) = lg_of l1 ++ lg_of l2.
Proof. apply fmap_app. Qed.

(** All blocks of the tree below [e], and those below entry [i] of a block. *)
Definition blks (D : disk) (level : nat) (e : ext) : list (btype * ext) :=
  lg_of ((walk D level e).*2 ++ nodes D level e).
Definition blks_ent (D : disk) (level : nat) (b : ind_block) (i : nat) : list (btype * ext) :=
  lg_of ((walk_ent D level b i).*2 ++ nodes_ent D level b i).

Lemma upto_app_perm {A : Type} (f g : nat -> list A) (n : nat) :
  upto f n ++ upto g n ≡ₚ upto (fun i => f i ++ g i) n.
Proof.
  induction n as [|n IH]; cbn; [reflexivity|]. rewrite <- IH, <- !app_assoc.
  apply Permutation_app_head. rewrite !app_assoc. apply Permutation_app_tail, Permutation_app_comm.
Qed.

Lemma blks_eq (D : disk) (level : nat) (e : ext) :
  blks D level e ≡ₚ (LG, e) :: upto (blks_ent D level (blk_at D e)) dext.
Proof.
  unfold blks, blks_ent, lg_of. rewrite walk_eq, nodes_eq, fmap_upto.
  rewrite fmap_app, fmap_cons. rewrite <- Permutation_middle. constructor.
  rewrite <- fmap_app. rewrite upto_app_perm, fmap_upto. reflexivity.
Qed.

(** The order of giving back: the root comes last. *)
Lemma blks_last (D : disk) (level : nat) (e : ext) :
  blks D level e ≡ₚ upto (blks_ent D level (blk_at D e)) dext ++ [(LG, e)].
Proof. rewrite blks_eq. apply Permutation_cons_append. Qed.

Lemma walk_ent_blk (D : disk) (level : nat) (b b' : ind_block) (i : nat) :
  ent b i = ent b' i -> walk_ent D level b i = walk_ent D level b' i /\
    nodes_ent D level b i = nodes_ent D level b' i /\ blks_ent D level b i = blks_ent D level b' i.
Proof. intros E. unfold blks_ent, walk_ent, nodes_ent. now rewrite E. Qed.
