(* ===== verification/TruncFree.v ===== *)
(** * Freeing a tree, or the end of one

    The loops of [sam_proc_indirect_block] with the command to free blocks. *)

From S2P Require Import Prelude Dau Extent Monad FileTree Truncate TruncTree.

Lemma upto_add {A : Type} (f : nat -> list A) (lo n : nat) :
  upto f (lo + n) = upto f lo ++ upto (fun j => f (lo + j)%nat) n.
Proof.
  induction n as [|n IH]; cbn; [now rewrite Nat.add_0_r, app_nil_r|].
  rewrite Nat.add_succ_r. cbn. now rewrite IH, app_assoc.
Qed.

Lemma is_hole_hole : is_hole hole = true.
Proof. reflexivity. Qed.

Lemma walk_ent_hole (D : disk) (level : nat) (b : ind_block) (i : nat) :
  is_hole (ent b i) = true -> walk_ent D level b i = [] /\ nodes_ent D level b i = [] /\
    blks_ent D level b i = [].
Proof. intros E. unfold blks_ent, walk_ent, nodes_ent. now rewrite E. Qed.

Section Free.
Context {St : Type} `{!FileEnv St} `{!BlockSink St}.
Context (rd : ext -> Z) (c : tconf) (n0 : finode) (D : disk).

Definition lg0 : Z := lg_blocks c n0.
Definition valid0 (level : nat) (b : ind_block) : bool := sam_validate_indirect_block n0 level b =? 0.
Definition ok (level : nat) (e : ext) : Prop := tree_ok rd valid0 D level e.

(** States in which the disk and the file are those that the tree was read from. *)
Definition at_D (s : ts St) : Prop := t_disk s = D /\ mask (t_di s) = mask n0.

Lemma validate_mask (n : finode) (level : nat) (b : ind_block) :
  mask n = mask n0 -> sam_validate_indirect_block n level b = sam_validate_indirect_block n0 level b.
Proof.
  intros E. assert (E1 : n_id n = n_id n0) by exact (f_equal n_id E).
  assert (E2 : n_parent n = n_parent n0) by exact (f_equal n_parent E).
  assert (E3 : n_segs n = n_segs n0) by exact (f_equal n_segs E).
  assert (E4 : n_seg_ord n = n_seg_ord n0) by exact (f_equal n_seg_ord E).
  unfold sam_validate_indirect_block. now rewrite E1, E2, E3, E4.
Qed.

Lemma lg_mask (n : finode) : mask n = mask n0 -> lg_blocks c n = lg0.
Proof.
  intros E. pose proof (f_equal n_meta E) as E1. pose proof (f_equal n_unit E) as E2. cbn in *.
  unfold lg0, lg_blocks, dt_of. now rewrite E1, E2.
Qed.

Lemma freed_at (k : nat) (l : list (btype * ext)) (s s' : ts St) :
  at_D s -> freed_by lg0 k l s s' -> t_disk s' = t_disk s -> at_D s'.
Proof. intros [E M] F E'. split; [congruence|]. now rewrite (fb_mask _ _ _ _ _ F). Qed.

(** The entries of [b'] below [lo] are those of [b], the others from [lo] to [hi] holes. *)
Definition emptied (lo hi : nat) (b b' : ind_block) : Prop :=
  length (ie_extent b') = dext /\ ie_ieno b' = ie_ieno b /\ ie_id b' = ie_id b /\
  (forall j, (j < lo)%nat -> ent b' j = ent b j) /\
  (forall j, (lo <= j < hi)%nat -> is_hole (ent b' j) = true) /\
  (forall j, (hi <= j)%nat -> ent b' j = ent b j).

Lemma emptied_refl (lo : nat) (b : ind_block) : length (ie_extent b) = dext -> emptied lo lo b b.
Proof. intros H. repeat split; auto. intros; lia. Qed.

(** The entry [hi] becomes [x], a hole, and then those below it. *)
Lemma emptied_step (lo hi : nat) (b b' : ind_block) (x : ext) :
  length (ie_extent b) = dext -> (lo <= hi < dext)%nat -> is_hole x = true ->
  emptied lo hi (set_ent hi x b) b' -> emptied lo (S hi) b b'.
Proof.
  intros Hl Hh Hx (L & E1 & E2 & H1 & H2 & H3). repeat split; auto.
  - intros j Hj. rewrite H1 by lia. rewrite ent_set by (auto; lia). now rewrite decide_False by lia.
  - intros j Hj. destruct (decide (j = hi)) as [->|]; [|apply H2; lia].
    rewrite H3 by lia. rewrite ent_set by (auto; lia). now rewrite decide_True.
  - intros j Hj. rewrite H3 by lia. rewrite ent_set by (auto; lia). now rewrite decide_False by lia.
Qed.

Lemma emptied_skip (lo hi : nat) (b b' : ind_block) :
  is_hole (ent b hi) = true -> emptied lo hi b b' -> emptied lo (S hi) b b'.
Proof.
  intros Hx (L & E1 & E2 & H1 & H2 & H3). repeat split; auto.
  - intros j Hj. destruct (decide (j = hi)) as [->|]; [now rewrite H3|apply H2; lia].
  - intros j Hj. apply H3. lia.
Qed.

(** ** Level 0 *)

Definition data_part (lo n : nat) (b : ind_block) : list (Z * ext) :=
  upto (fun j => walk_ent D 0 b (lo + j)%nat) n.

(** Going down from entry [lo + n] to [lo], where no entry is kept. *)
Lemma data_run (keep : bool) (k : Z) (lo n : nat) (b : ind_block) (s : ts St) :
  keep = false \/ k < Z.of_nat lo -> (lo + n <= dext)%nat -> length (ie_extent b) = dext -> at_D s ->
  owned s (lg_of (data_part lo n b).*2) ->
  exists s' b', data_loop (lo + n) c SAM_FREE_BLOCK keep k b 0 false s =
      data_loop lo c SAM_FREE_BLOCK keep k b' 0 false s' /\
    freed_by lg0 (length (data_part lo n b)) (lg_of (data_part lo n b).*2) s s' /\
    t_disk s' = t_disk s /\ emptied lo (lo + n) b b'.
Proof.
  intros Hk. revert b s. induction n as [|n IH]; intros b s Hn Hl HD Ho.
  - rewrite Nat.add_0_r. exists s, b. split; [reflexivity|]. split; [apply freed_by_refl|].
    split; [reflexivity|apply emptied_refl; exact Hl].
  - rewrite Nat.add_succ_r. cbn [data_loop]. unfold data_part in *. cbn [upto] in *.
    destruct (is_hole (ent b (lo + n))) eqn:Eh.
    + destruct (walk_ent_hole D 0 b _ Eh) as (E & _). rewrite E, app_nil_r in *.
      destruct (IH b s ltac:(lia) Hl HD Ho) as (s' & b' & E' & F & Ed & Em).
      exists s', b'. split; [exact E'|]. split; [exact F|]. split; [exact Ed|]. now apply emptied_skip.
    + assert (Hw : walk_ent D 0 b (lo + n) = [(Z.of_nat (lo + n), ent b (lo + n))])
        by (unfold walk_ent; now rewrite Eh).
      rewrite Hw in *. rewrite fmap_app, lg_of_app in *. rewrite length_app. cbn [length fmap list_fmap] in *.
      assert (Ek : keep && (Z.of_nat (lo + n) <=? k) = false).
      { destruct Hk as [->|]; [reflexivity|]. destruct keep; [|reflexivity]. apply Z.leb_gt. lia. }
      rewrite Ek. pose proof (owned_perm _ _ _ (Permutation_app_comm _ _) Ho) as Ho'.
      pose proof (owned_head _ _ _ Ho') as U.
      destruct (give_back_spec c _ s U) as (s1 & E1 & F1 & Ed1). rewrite (lg_mask _ (proj2 HD)) in F1.
      rewrite (bind_done _ _ _ s1 tt E1).
      pose proof (freed_at _ _ _ _ HD F1 Ed1) as HD1.
      assert (Ep : forall j, (j < n)%nat ->
        walk_ent D 0 (set_ent (lo + n) hole b) (lo + j) = walk_ent D 0 b (lo + j)).
      { intros j Hj. apply walk_ent_blk. rewrite ent_set by (auto; lia). now rewrite decide_False by lia. }
      destruct (IH (set_ent (lo + n) hole b) s1) as (s' & b' & E' & F & Ed & Em); [lia| |exact HD1| |].
      * cbn. now rewrite length_insert.
      * rewrite (upto_ext _ _ n Ep). eapply owned_after; eauto.
      * rewrite (upto_ext _ _ n Ep) in F. exists s', b'. split; [exact E'|]. split.
        { rewrite Nat.add_comm. eapply freed_by_perm; [apply Permutation_app_comm|].
          eapply freed_by_trans; eauto. }
        split; [congruence|]. apply (emptied_step lo (lo + n) b b' hole); auto; lia.
Qed.

(** ** Higher levels *)

(** A call frees all that is below an entry. *)
Definition child_frees (l : nat) (child : ext -> bool -> M (ts St) (Z * ext * bool)) : Prop :=
  forall (s : ts St) (e : ext), at_D s -> ok l e -> owned s (blks D l e) ->
  exists s', child e false s = Done (0, hole, false) s' /\
    freed_by lg0 (length (walk D l e)) (blks D l e) s s' /\ t_disk s' = t_disk s.

Definition node_part (l lo n : nat) (b : ind_block) : list (btype * ext) :=
  upto (fun j => blks_ent D (S l) b (lo + j)%nat) n.
Definition node_count (l lo n : nat) (b : ind_block) : nat :=
  length (upto (fun j => walk_ent D (S l) b (lo + j)%nat) n).

Lemma node_run (l : nat) (child : ext -> bool -> M (ts St) (Z * ext * bool)) (top : bool) (k : Z)
    (reset : bool) (lo n : nat) (b : ind_block) (s : ts St) :
  child_frees l child -> (k < Z.of_nat lo \/ top = false /\ reset = false) -> (lo + n <= dext)%nat ->
  length (ie_extent b) = dext -> at_D s ->
  (forall j, (lo <= j < lo + n)%nat -> is_hole (ent b j) = false -> ok l (ent b j)) ->
  owned s (node_part l lo n b) ->
  exists s' b', node_loop (lo + n) child top k b false reset 0 s = node_loop lo child top k b' false reset 0 s' /\
    freed_by lg0 (node_count l lo n b) (node_part l lo n b) s s' /\ t_disk s' = t_disk s /\
    emptied lo (lo + n) b b'.
Proof.
  intros HC Hk. revert b s. induction n as [|n IH]; intros b s Hn Hl HD Hok Ho.
  - rewrite Nat.add_0_r. exists s, b. split; [reflexivity|]. split; [apply freed_by_refl|].
    split; [reflexivity|apply emptied_refl; exact Hl].
  - rewrite Nat.add_succ_r. cbn [node_loop]. unfold node_part, node_count in *. cbn [upto] in *.
    destruct (is_hole (ent b (lo + n))) eqn:Eh.
    + destruct (walk_ent_hole D (S l) b _ Eh) as (E & _ & Eb). rewrite E, Eb, !app_nil_r in *.
      destruct (IH b s ltac:(lia) Hl HD) as (s' & b' & E' & F & Ed & Em); [|exact Ho|].
      { intros j Hj. apply Hok. lia. }
      exists s', b'. split; [exact E'|]. split; [exact F|]. split; [exact Ed|]. now apply emptied_skip.
    + set (x := ent b (lo + n)) in *.
      assert (Ek : (if top && (Z.of_nat (lo + n) <=? k) then (true, reset)
        else if reset && (Z.of_nat (lo + n) <=? k) then (true, false) else (false, reset)) = (false, reset)).
      { destruct Hk as [|[-> ->]]; [|reflexivity].
        destruct (Z.leb_spec (Z.of_nat (lo + n)) k); [lia|]. now rewrite !andb_false_r. }
      rewrite Ek.
      assert (Eb : blks_ent D (S l) b (lo + n) = blks D l x).
      { unfold blks_ent, walk_ent, nodes_ent, blks. fold x. rewrite Eh. now rewrite snd_shift. }
      assert (Ew : length (walk_ent D (S l) b (lo + n)) = length (walk D l x)).
      { unfold walk_ent. fold x. rewrite Eh. unfold shift_by. now rewrite length_fmap. }
      rewrite Eb in *. pose proof (owned_perm _ _ _ (Permutation_app_comm _ _) Ho) as Ho'.
      destruct (owned_sub _ _ _ Ho') as [Ox _].
      destruct (HC s x HD) as (s1 & E1 & F1 & Ed1); [apply Hok; [lia|exact Eh]|exact Ox|].
      rewrite (bind_done _ _ _ s1 _ E1). cbn [Z.eqb ECANCELED].
      pose proof (freed_at _ _ _ _ HD F1 Ed1) as HD1.
      assert (Ent : forall j, (j < n)%nat -> ent (set_ent (lo + n) hole b) (lo + j) = ent b (lo + j)).
      { intros j Hj. rewrite ent_set by (auto; lia). now rewrite decide_False by lia. }
      assert (Ep : forall j, (j < n)%nat ->
        walk_ent D (S l) (set_ent (lo + n) hole b) (lo + j) = walk_ent D (S l) b (lo + j) /\
        blks_ent D (S l) (set_ent (lo + n) hole b) (lo + j) = blks_ent D (S l) b (lo + j)).
      { intros j Hj. destruct (walk_ent_blk D (S l) _ _ _ (Ent j Hj)) as (? & _ & ?). now split. }
      destruct (IH (set_ent (lo + n) hole b) s1) as (s' & b' & E' & F & Ed & Em); [lia| |exact HD1| | |].
      * cbn. now rewrite length_insert.
      * intros j Hj. replace j with (lo + (j - lo))%nat by lia. rewrite Ent by lia.
        apply Hok. lia.
      * rewrite (upto_ext _ _ n (fun j Hj => proj2 (Ep j Hj))). eapply owned_after; eauto.
      * rewrite (upto_ext _ _ n (fun j Hj => proj2 (Ep j Hj))), (upto_ext _ _ n (fun j Hj => proj1 (Ep j Hj))) in F.
        exists s', b'. split; [exact E'|]. split.
        { rewrite length_app, Ew, Nat.add_comm. eapply freed_by_perm; [apply Permutation_app_comm|].
          eapply freed_by_trans; eauto. }
        split; [congruence|]. apply (emptied_step lo (lo + n) b b' hole); auto; lia.
Qed.

(** ** A whole tree *)

Lemma proc_start (level : nat) (cmd : ib_cmd) (kp : list Z) (ik : nat) (e : ext) (set : bool) (s : ts St) :
  at_D s -> ok level e ->
  sam_proc_indirect_block rd c level cmd kp ik e set s =
  match level with
  | O => (r ← data_loop dext c cmd set (kptr_at kp ik) (blk_at D e) 0 false;
          let '(error, b1, bwrite) := r in ib_finish cmd e (error, b1, set) bwrite) s
  | S l => (let reset := (Nat.eqb level 1) && set in
            r ← node_loop dext (sam_proc_indirect_block rd c l cmd kp (S ik)) (Nat.eqb ik 0)
                  (kptr_at kp ik) (blk_at D e) (if reset then false else set) reset 0;
            ib_finish cmd e r false) s
  end.
Proof.
  intros [E M] Hok. assert (H : rd e = 0 /\ valid0 level (blk_at D e) = true) by (destruct level; destruct Hok as (? & ? & _); auto).
  destruct H as [Hr Hv]. unfold valid0 in Hv. apply Z.eqb_eq in Hv.
  destruct level; cbn [sam_proc_indirect_block]; rewrite Hr; cbn [Z.eqb negb];
    rewrite (bind_done _ _ _ s s) by reflexivity; rewrite E, (validate_mask _ _ _ M), Hv; reflexivity.
Qed.

Lemma ok_length (level : nat) (e : ext) : ok level e -> length (ie_extent (blk_at D e)) = dext.
Proof. destruct level; now intros (_ & _ & ? & _). Qed.

Lemma ok_child (l : nat) (e : ext) (i : nat) :
  ok (S l) e -> (i < dext)%nat -> is_hole (ent (blk_at D e) i) = false -> ok l (ent (blk_at D e) i).
Proof. intros (_ & _ & _ & H). exact (H i). Qed.

(** The root is given back after everything below it. *)
Lemma finish_free (k : nat) (l : list (btype * ext)) (b : ind_block) (e : ext) (set : bool) (s s1 : ts St) :
  freed_by lg0 k l s s1 -> t_disk s1 = t_disk s -> owned s (l ++ [(LG, e)]) ->
  exists s', ib_finish SAM_FREE_BLOCK e (0, b, set) false s1 = Done (0, hole, set) s' /\
    freed_by lg0 k (l ++ [(LG, e)]) s s' /\ t_disk s' = t_disk s.
Proof.
  intros F Ed Ho. pose proof (owned_head _ _ _ (owned_after _ _ _ _ _ _ Ho F)) as U.
  destruct (free_node_spec lg0 e s1 U) as (s' & E & F' & Ed'). exists s'. split; [|split].
  - cbn [ib_finish]. change (negb (0 =? ECANCELED)) with true. cbv iota.
    unfold mbind, M_bind in *. destruct (upd_di set_changed s1); [|discriminate]. now rewrite E.
  - replace k with (k + 0)%nat by lia. eapply freed_by_trans; eauto.
  - congruence.
Qed.

(** Without a path to keep, or below an entry after the path, all blocks go. *)
Lemma free_all (level : nat) (kp : list Z) (ik : nat) (s : ts St) (e : ext) :
  ik <> O -> at_D s -> ok level e -> owned s (blks D level e) ->
  exists s', sam_proc_indirect_block rd c level SAM_FREE_BLOCK kp ik e false s = Done (0, hole, false) s' /\
    freed_by lg0 (length (walk D level e)) (blks D level e) s s' /\ t_disk s' = t_disk s.
Proof.
  revert ik s e. induction level as [|l IH]; intros ik s e Hik HD Hok Ho; rewrite proc_start by assumption.
  all: pose proof (ok_length _ _ Hok) as Hl.
  all: pose proof (owned_perm _ _ _ (blks_last D _ e) Ho) as Ho2; destruct (owned_sub _ _ _ Ho2) as [Oc _].
  - assert (Ep : upto (blks_ent D 0 (blk_at D e)) dext = lg_of (data_part 0 dext (blk_at D e)).*2).
    { unfold data_part, lg_of. rewrite fmap_upto, fmap_upto. apply upto_ext. intros i _.
      unfold blks_ent, nodes_ent, lg_of. rewrite Nat.add_0_l. destruct (is_hole _); now rewrite app_nil_r. }
    rewrite Ep in *.
    destruct (data_run false (kptr_at kp ik) 0 dext (blk_at D e) s) as (s1 & b1 & E1 & F1 & Ed1 & _);
      [now left|lia|exact Hl|exact HD|exact Oc|]. rewrite Nat.add_0_l in E1.
    rewrite (bind_done _ _ _ s1 (0, b1, false) E1).
    destruct (finish_free _ _ b1 e false s s1 F1 Ed1 Ho2) as (s' & E' & F' & Ed'). exists s'.
    split; [exact E'|]. split; [|exact Ed'].
    assert (En : length (walk D 0 e) = length (data_part 0 dext (blk_at D e))).
    { rewrite walk_eq. unfold data_part. reflexivity. }
    rewrite En. eapply freed_by_perm; [|exact F']. rewrite (blks_last D 0 e), Ep. reflexivity.
  - assert (Eik : Nat.eqb ik 0 = false) by now apply Nat.eqb_neq.
    cbv zeta. rewrite andb_false_r, Eik.
    assert (HC : child_frees l (sam_proc_indirect_block rd c l SAM_FREE_BLOCK kp (S ik))).
    { intros s1 x HD1 Hx Ox. apply IH; auto. }
    destruct (node_run l _ false (kptr_at kp ik) false 0 dext (blk_at D e) s HC) as (s1 & b1 & E1 & F1 & Ed1 & _);
      [now right|lia|exact Hl|exact HD|intros j Hj Hh; apply ok_child; auto; lia|exact Oc|].
    rewrite Nat.add_0_l in E1. erewrite bind_done; [|exact E1].
    destruct (finish_free _ _ b1 e false s s1 F1 Ed1 Ho2) as (s' & E' & F' & Ed'). exists s'.
    split; [exact E'|]. split; [|exact Ed']. rewrite walk_eq. eapply freed_by_perm; [|exact F'].
    rewrite (blks_last D (S l) e). reflexivity.
Qed.
End Free.
