(* ===== verification/TruncPath.v ===== *)
(** * Truncating a tree at a position

    [sam_proc_indirect_block] on the tree that contains the new end of the file gives back
    exactly the blocks after it. *)

From S2P Require Import Prelude Dau Extent Monad FileTree Truncate TruncTree TruncFree.

(** The parts of a walk after position [K], and up to it. *)
Definition after (K : Z) (w : list (Z * ext)) : list (Z * ext) := base.filter (fun p => K < fst p) w.
Definition until (K : Z) (w : list (Z * ext)) : list (Z * ext) := base.filter (fun p => fst p <= K) w.

Lemma until_all (K : Z) (w : list (Z * ext)) :
  (forall k x, (k, x) ∈ w -> k <= K) -> until K w = w /\ after K w = [].
Proof.
  intros H. unfold until, after. induction w as [|[k x] w IH]; [now split|].
  rewrite filter_cons_True by (cbn; apply (H k x); left).
  rewrite filter_cons_False by (cbn; pose proof (H k x ltac:(left)); lia).
  destruct IH as [-> ->]; [|now split]. intros k' x' Hk. apply (H k' x'). now right.
Qed.

Lemma after_all (K : Z) (w : list (Z * ext)) :
  (forall k x, (k, x) ∈ w -> K < k) -> until K w = [] /\ after K w = w.
Proof.
  intros H. unfold until, after. induction w as [|[k x] w IH]; [now split|].
  rewrite filter_cons_False by (cbn; pose proof (H k x ltac:(left)); lia).
  rewrite (filter_cons_True (fun p => K < fst p)) by (cbn; apply (H k x); left).
  destruct IH as [-> ->]; [|now split]. intros k' x' Hk. apply (H k' x'). now right.
Qed.

Lemma until_shift (d K : Z) (w : list (Z * ext)) :
  until (d + K) (shift_by d w) = shift_by d (until K w) /\
  after (d + K) (shift_by d w) = shift_by d (after K w).
Proof.
  unfold until, after, shift_by. induction w as [|[k x] w [IH1 IH2]]; [now split|].
  rewrite !fmap_cons, !filter_cons. cbn [fst] in *. rewrite IH1, IH2. split.
  - destruct (decide (k <= K)), (decide (d + k <= d + K)); try lia; reflexivity.
  - destruct (decide (K < k)), (decide (d + K < d + k)); try lia; reflexivity.
Qed.

Lemma until_app (K : Z) (w1 w2 : list (Z * ext)) :
  until K (w1 ++ w2) = until K w1 ++ until K w2 /\ after K (w1 ++ w2) = after K w1 ++ after K w2.
Proof. split; apply filter_app. Qed.

Lemma split_at {A : Type} (f : nat -> list A) (k : nat) :
  (k < dext)%nat -> upto f dext = upto f k ++ f k ++ upto (fun j => f (S k + j)%nat) (dext - S k).
Proof.
  intros Hk. replace dext with (S k + (dext - S k))%nat at 1 by lia. rewrite upto_add. cbn [upto].
  now rewrite <- app_assoc.
Qed.

(** ** The path to a position *)

Fixpoint path_pos (level : nat) (kp : list Z) (ik : nat) : Z :=
  match level with
  | O => kptr_at kp ik
  | S l => kptr_at kp ik * span level + path_pos l kp (S ik)
  end.
Fixpoint path_ok (level : nat) (kp : list Z) (ik : nat) : Prop :=
  0 <= kptr_at kp ik < DEXT /\ match level with O => True | S l => path_ok l kp (S ik) end.

Lemma path_pos_range (level : nat) (kp : list Z) (ik : nat) :
  path_ok level kp ik -> 0 <= path_pos level kp ik < DEXT * span level.
Proof.
  revert ik. induction level as [|l IH]; intros ik [Hk H]; cbn [path_pos].
  - cbn [span]. lia.
  - specialize (IH _ H). change (span (S l)) with (DEXT * span l) in *. nia.
Qed.

(** The entry of a block on the path, and what is before and after it. *)
Section Split.
Context (D : disk) (level : nat) (b : ind_block) (k : nat) (K : Z).
Context (HK : Z.of_nat k * span level <= K < (Z.of_nat k + 1) * span level).

Lemma before_path (j : nat) : (j < k)%nat ->
  until K (walk_ent D level b j) = walk_ent D level b j /\ after K (walk_ent D level b j) = [].
Proof.
  intros Hj. apply until_all. intros p x Hp%walk_ent_range. pose proof (span_pos level). nia.
Qed.

Lemma beyond_path (j : nat) : (k < j)%nat ->
  until K (walk_ent D level b j) = [] /\ after K (walk_ent D level b j) = walk_ent D level b j.
Proof.
  intros Hj. apply after_all. intros p x Hp%walk_ent_range. pose proof (span_pos level). nia.
Qed.

Lemma path_entry (x : ext) : (k < dext)%nat ->
  (K, x) ∈ upto (walk_ent D level b) dext -> (K, x) ∈ walk_ent D level b k.
Proof.
  intros Hk H. apply elem_of_upto in H as (i & Hi & H). pose proof (walk_ent_range _ _ _ _ _ _ H) as R.
  pose proof (span_pos level). replace k with i by nia. exact H.
Qed.

Lemma after_split : (k < dext)%nat ->
  after K (upto (walk_ent D level b) dext) =
  after K (walk_ent D level b k) ++ upto (fun j => walk_ent D level b (S k + j)%nat) (dext - S k).
Proof.
  intros Hk. rewrite (split_at _ k Hk). rewrite !(proj2 (until_app _ _ _)).
  assert (E1 : after K (upto (walk_ent D level b) k) = []).
  { apply until_all. intros p x (j & Hj & Hp)%elem_of_upto. apply walk_ent_range in Hp.
    pose proof (span_pos level). nia. }
  assert (E2 : after K (upto (fun j => walk_ent D level b (S k + j)%nat) (dext - S k)) =
    upto (fun j => walk_ent D level b (S k + j)%nat) (dext - S k)).
  { apply after_all. intros p x (j & Hj & Hp)%elem_of_upto. apply walk_ent_range in Hp.
    pose proof (span_pos level). nia. }
  now rewrite E1, E2.
Qed.

Lemma until_upto :
  until K (upto (walk_ent D level b) dext) = upto (fun j => until K (walk_ent D level b j)) dext.
Proof. apply filter_upto. Qed.
End Split.

Lemma nodes_0 (D : disk) (e : ext) : nodes D 0 e = [e].
Proof.
  rewrite nodes_eq. f_equal. rewrite (upto_nil _ dext 0); [reflexivity|lia|]. intros i _.
  unfold nodes_ent. now destruct (is_hole _).
Qed.

(** ** The result of truncating a tree at [K] *)

Section Path.
Context {St : Type} `{!FileEnv St} `{!BlockSink St}.
Context (rd : ext -> Z) (c : tconf) (n0 : finode).

Record cut (D : disk) (level : nat) (e : ext) (K : Z) (s s' : ts St) (N : list ext) : Prop := mk_cut {
  cut_freed : freed_by (lg0 c n0) (length (after K (walk D level e)))
                (lg_of ((after K (walk D level e)).*2 ++ N)) s s';
  cut_walk : walk (t_disk s') level e = until K (walk D level e);
  cut_nodes : nodes D level e ≡ₚ N ++ nodes (t_disk s') level e;
  cut_ok : ok rd n0 (t_disk s') level e;
  cut_frame : forall y, y ∉ nodes (t_disk s') level e -> t_disk s' !! y = D !! y
}.

(** Which calls have the end of the file below them. *)
Definition active (level ik : nat) (set : bool) : Prop :=
  match level with
  | O => set = true
  | 1%nat => ik = O /\ set = false \/ ik <> O /\ set = true
  | 2%nat => ik = O /\ set = false
  | _ => False
  end.

Lemma blk_at_insert (D : disk) (e : ext) (b : ind_block) : blk_at (<[e:=b]> D) e = b.
Proof. unfold blk_at. now rewrite lookup_insert_eq. Qed.

Lemma upto_nodes_0 (D : disk) (b : ind_block) : upto (nodes_ent D 0 b) dext = [].
Proof.
  rewrite (upto_nil _ dext 0); [reflexivity|lia|]. intros i _. unfold nodes_ent. now destruct (is_hole _).
Qed.

(** The block is written with its end cut off. *)
Lemma finish_cut (error : Z) (b : ind_block) (e : ext) (set : bool) (s : ts St) :
  error = ECANCELED ->
  ib_finish SAM_FREE_BLOCK e (error, b, set) false s =
  Done (ECANCELED, e, set) (mk_ts (t_di s) (<[e:=b]> (t_disk s)) (t_next s) (t_upd s) (t_fsck s) (t_env s)).
Proof. now intros ->. Qed.

Lemma freed_by_disk (lg : Z) (k : nat) (l : list (btype * ext)) (s s' : ts St) (D' : disk) :
  freed_by lg k l s s' ->
  freed_by lg k l s (mk_ts (t_di s') D' (t_next s') (t_upd s') (t_fsck s') (t_env s')).
Proof. intros []. now constructor. Qed.

Lemma cut_0 (D : disk) (kp : list Z) (ik : nat) (s : ts St) (e x : ext) :
  path_ok 0 kp ik -> at_D n0 D s -> ok rd n0 D 0 e -> owned s (blks D 0 e) ->
  (path_pos 0 kp ik, x) ∈ walk D 0 e ->
  exists s', sam_proc_indirect_block rd c 0 SAM_FREE_BLOCK kp ik e true s = Done (ECANCELED, e, true) s' /\
    cut D 0 e (path_pos 0 kp ik) s s' [].
Proof.
  intros [Hk _] HD Hok Ho Hx. rewrite (proc_start rd c n0 D) by assumption. cbn [path_pos] in *.
  set (K := kptr_at kp ik) in *. pose proof (ok_length _ _ _ _ _ Hok) as Hl. pose proof dext_Z as Hd.
  set (k := Z.to_nat K). assert (Ek : Z.of_nat k = K) by (unfold k; lia).
  assert (HK : Z.of_nat k * span 0 <= K < (Z.of_nat k + 1) * span 0) by (cbn [span]; lia).
  assert (Hkd : (k < dext)%nat) by lia. set (b := blk_at D e) in *.
  assert (Hent : is_hole (ent b k) = false).
  { rewrite walk_eq in Hx. apply (path_entry D 0 b k K HK) in Hx; [|exact Hkd].
    unfold walk_ent in Hx. destruct (is_hole _); [inversion Hx|reflexivity]. }
  assert (Ea : after K (walk D 0 e) = data_part D (S k) (dext - S k) b).
  { rewrite walk_eq. fold b. rewrite (after_split D 0 _ k K HK Hkd).
    assert (E0 : after K (walk_ent D 0 b k) = []); [|now rewrite E0].
    apply until_all. intros p y Hp%walk_ent_range. cbn [span] in *. lia. }
  destruct (data_run c n0 D true K (S k) (dext - S k) b s) as (s1 & b1 & E1 & F1 & Ed1 & Em);
    [right; lia|lia|exact Hl|exact HD| |].
  { rewrite <- Ea. unfold blks in Ho. rewrite lg_of_app in Ho. apply owned_sub in Ho as [Ho _].
    revert Ho. apply owned_sublist. unfold lg_of. do 2 apply fmap_sublist. apply sublist_filter. }
  rewrite <- Ea in F1. replace (S k + (dext - S k))%nat with dext in E1 by lia.
  destruct Em as (L1 & I1 & I2 & H1 & H2 & H3).
  assert (E2 : data_loop (S k) c SAM_FREE_BLOCK true K b1 0 false s1 = Done (ECANCELED, b1, false) s1).
  { cbn [data_loop]. rewrite (H1 k), Hent by lia. now rewrite (proj2 (Z.leb_le _ _)) by lia. }
  rewrite (bind_done _ _ s s1 (ECANCELED, b1, false)) by congruence.
  rewrite finish_cut by reflexivity. eexists. split; [reflexivity|].
  destruct HD as [HD HM]. rewrite Ed1, HD in *.
  assert (Eb : blk_at (<[e:=b1]> D) e = b1) by apply blk_at_insert. constructor; cbn [t_disk].
  - rewrite app_nil_r. now apply freed_by_disk.
  - rewrite !walk_eq, Eb. rewrite until_upto. apply upto_ext. intros j Hj. fold b.
    destruct (lt_eq_lt_dec j k) as [[Hjk| ->]|Hjk].
    + rewrite (proj1 (before_path D 0 b k K HK j Hjk)). unfold walk_ent. now rewrite H1 by lia.
    + unfold walk_ent. rewrite H1, Hent by lia. unfold until. rewrite filter_cons_True by (cbn; lia). reflexivity.
    + rewrite (proj1 (beyond_path D 0 b k K HK j Hjk)). unfold walk_ent. now rewrite H2 by lia.
  - now rewrite !nodes_0.
  - destruct Hok as (Hr & Hv & _). unfold ok. cbn [tree_ok]. rewrite Eb. repeat split; [exact Hr| |exact L1].
    unfold valid0, sam_validate_indirect_block in *. now rewrite I1, I2.
  - intros y Hy. rewrite nodes_0 in Hy. rewrite lookup_insert_ne; [reflexivity|intros ->; apply Hy; left].
Qed.

(** ** A block whose child on the path has been truncated *)

Section Graft.
Context (D D1 : disk) (l : nat) (e y : ext) (b1 : ind_block) (k : nat) (N1 : list ext).
Let b := blk_at D e.
Let D' := <[e:=b1]> D1.
Context (Hkd : (k < dext)%nat) (Ey : y = ent b k) (Hy : is_hole y = false).
Context (HN : NoDup (nodes D (S l) e)) (EN : nodes D l y ≡ₚ (N1 ++ nodes D1 l y)).
Context (Hlen : length (ie_extent b1) = dext) (Hieno : ie_ieno b1 = ie_ieno b) (Hid : ie_id b1 = ie_id b).
Context (Hle : forall j, (j <= k)%nat -> ent b1 j = ent b j).
Context (Hgt : forall j, (k < j < dext)%nat -> is_hole (ent b1 j) = true).
Context (HF : forall z, z ∉ nodes D1 l y -> D1 !! z = D !! z).

Lemma graft_nodup : (e ∉ upto (nodes_ent D (S l) b) dext) /\ NoDup (upto (nodes_ent D (S l) b) dext).
Proof. rewrite nodes_eq in HN. now apply NoDup_cons in HN. Qed.

Lemma nodes_ent_child (j : nat) : is_hole (ent b j) = false -> nodes_ent D (S l) b j = nodes D l (ent b j).
Proof. unfold nodes_ent. now intros ->. Qed.

Lemma graft_sub (z : ext) : z ∈ nodes D1 l y -> z ∈ nodes D l y.
Proof. intros H. rewrite EN. apply elem_of_app. now right. Qed.

Lemma graft_in (z : ext) (j : nat) :
  (j < dext)%nat -> z ∈ nodes_ent D (S l) b j -> z ∈ upto (nodes_ent D (S l) b) dext.
Proof. intros Hj Hz. apply elem_of_upto. eauto. Qed.

Lemma graft_root (z : ext) : z ∈ nodes D1 l y -> z <> e.
Proof.
  intros Hz ->. destruct graft_nodup as [He _]. apply He. apply (graft_in e k Hkd).
  rewrite nodes_ent_child by (rewrite <- Ey; exact Hy). rewrite <- Ey. now apply graft_sub.
Qed.

(** Blocks of the children before the path are not touched. *)
Lemma graft_before (j : nat) (z : ext) :
  (j < k)%nat -> z ∈ nodes_ent D (S l) b j -> D' !! z = D !! z.
Proof.
  intros Hj Hz. destruct graft_nodup as [He ND]. unfold D'.
  rewrite lookup_insert_ne; [|intros <-; apply He; apply (graft_in e j); [lia|exact Hz]].
  apply HF. intros Hz1%graft_sub. rewrite (split_at _ k Hkd) in ND.
  apply NoDup_app in ND as (_ & ND & _). apply (ND z).
  - apply elem_of_upto. eauto.
  - apply elem_of_app. left. rewrite nodes_ent_child by (rewrite <- Ey; exact Hy). now rewrite <- Ey.
Qed.

Lemma graft_child :
  walk D' l y = walk D1 l y /\ nodes D' l y = nodes D1 l y.
Proof.
  apply tree_frame. intros z Hz. unfold D'. rewrite lookup_insert_ne; [reflexivity|].
  intros <-. now apply graft_root in Hz.
Qed.

Lemma graft_old (j : nat) :
  (j < k)%nat -> walk_ent D' (S l) b1 j = walk_ent D (S l) b j /\
    nodes_ent D' (S l) b1 j = nodes_ent D (S l) b j.
Proof.
  intros Hj. unfold walk_ent, nodes_ent. rewrite Hle by lia.
  destruct (is_hole (ent b j)) eqn:Eh; [now split|].
  destruct (tree_frame D D' l (ent b j)) as [-> ->]; [|now split].
  intros z Hz. apply (graft_before j); [exact Hj|]. now rewrite nodes_ent_child.
Qed.

Lemma graft_blk : blk_at D' e = b1.
Proof. apply blk_at_insert. Qed.

Lemma graft_walk (K K' : Z) :
  K = Z.of_nat k * span (S l) + K' -> 0 <= K' < span (S l) ->
  walk D1 l y = until K' (walk D l y) -> walk D' (S l) e = until K (walk D (S l) e).
Proof.
  intros EK HK' EW. rewrite !walk_eq, graft_blk. fold b. rewrite until_upto. apply upto_ext. intros j Hj.
  assert (HK : Z.of_nat k * span (S l) <= K < (Z.of_nat k + 1) * span (S l)) by lia.
  destruct (lt_eq_lt_dec j k) as [[Hjk| ->]|Hjk].
  - rewrite (proj1 (before_path D (S l) b k K HK j Hjk)). now apply graft_old.
  - unfold walk_ent. rewrite Hle, <- Ey, Hy by lia. rewrite (proj1 graft_child), EW, EK.
    symmetry. apply until_shift.
  - rewrite (proj1 (beyond_path D (S l) b k K HK j Hjk)). unfold walk_ent. now rewrite Hgt by lia.
Qed.

Lemma graft_nodes :
  nodes D (S l) e ≡ₚ (N1 ++ upto (fun j => nodes_ent D (S l) b (S k + j)%nat) (dext - S k)) ++ nodes D' (S l) e.
Proof.
  rewrite !nodes_eq, graft_blk. fold b. rewrite (split_at (nodes_ent D (S l) b) k Hkd).
  rewrite (split_at (nodes_ent D' (S l) b1) k Hkd).
  rewrite (upto_ext (nodes_ent D' (S l) b1) (nodes_ent D (S l) b) k) by (intros j Hj; now apply graft_old).
  assert (E0 : upto (fun j => nodes_ent D' (S l) b1 (S k + j)%nat) (dext - S k) = []).
  { rewrite (upto_nil _ _ 0); [reflexivity|lia|]. intros j Hj. unfold nodes_ent. now rewrite Hgt by lia. }
  assert (E1 : nodes_ent D' (S l) b1 k = nodes D1 l y).
  { unfold nodes_ent. rewrite Hle, <- Ey, Hy by lia. apply graft_child. }
  rewrite E0, E1, app_nil_r, nodes_ent_child by (rewrite <- Ey; exact Hy). rewrite <- Ey, EN.
  set (P := upto (nodes_ent D (S l) b) k). set (Q := upto _ (dext - S k)). set (R := nodes D1 l y).
  solve_Permutation.
Qed.

Lemma graft_ok : ok rd n0 D (S l) e -> ok rd n0 D1 l y -> ok rd n0 D' (S l) e.
Proof.
  intros (Hr & Hv & _ & Hc) Hok1. unfold ok. cbn [tree_ok]. rewrite graft_blk.
  split; [exact Hr|]. split; [|split; [exact Hlen|]].
  { unfold valid0, sam_validate_indirect_block in *. now rewrite Hieno, Hid. }
  intros j Hj Hh. destruct (lt_eq_lt_dec j k) as [[Hjk| ->]|Hjk].
  - rewrite Hle in Hh |- * by lia. apply (tree_ok_frame _ _ D); [|now apply Hc].
    intros z Hz. apply (graft_before j); [exact Hjk|]. now rewrite nodes_ent_child.
  - rewrite Hle, <- Ey by lia. apply (tree_ok_frame _ _ D1); [|exact Hok1].
    intros z Hz. unfold D'. rewrite lookup_insert_ne; [reflexivity|]. intros <-. now apply graft_root in Hz.
  - rewrite Hgt in Hh by lia. discriminate.
Qed.

Lemma graft_frame (z : ext) : z ∉ nodes D' (S l) e -> D' !! z = D !! z.
Proof.
  intros Hz. rewrite nodes_eq, graft_blk in Hz. unfold D'.
  rewrite lookup_insert_ne by (intros ->; apply Hz; left). apply HF. intros H. apply Hz. right.
  apply elem_of_upto. exists k. split; [exact Hkd|]. unfold nodes_ent. rewrite Hle, <- Ey, Hy by lia.
  now rewrite (proj2 graft_child).
Qed.
End Graft.

Lemma owned_child (D : disk) (l : nat) (e : ext) (k : nat) (s : ts St) :
  (k < dext)%nat -> is_hole (ent (blk_at D e) k) = false -> owned s (blks D (S l) e) ->
  owned s (node_part D l (S k) (dext - S k) (blk_at D e) ++ blks D l (ent (blk_at D e) k)).
Proof.
  intros Hk Hh Ho. apply (owned_perm _ _ _ (blks_last D (S l) e)) in Ho.
  apply owned_sub in Ho as [Ho _]. rewrite (split_at _ k Hk) in Ho.
  apply (owned_perm _ _ _ (Permutation_app_comm _ _)) in Ho. apply owned_sub in Ho as [Ho _].
  apply (owned_perm _ _ _ (Permutation_app_comm _ _)) in Ho.
  assert (E : blks_ent D (S l) (blk_at D e) k = blks D l (ent (blk_at D e) k)).
  { unfold blks_ent, walk_ent, nodes_ent, blks. rewrite Hh. now rewrite snd_shift. }
  rewrite E in Ho. exact Ho.
Qed.

(** What has been given back at a level: the children after the path, then the end of the
    child on it. *)
Lemma cut_list (D : disk) (l : nat) (b : ind_block) (k : nat) (K K' : Z) (w : list (Z * ext)) (N1 : list ext) :
  (k < dext)%nat -> K = Z.of_nat k * span (S l) + K' -> 0 <= K' < span (S l) ->
  is_hole (ent b k) = false -> w = walk D l (ent b k) ->
  let W := after K (upto (walk_ent D (S l) b) dext) in
  length W = (node_count D l (S k) (dext - S k) b + length (after K' w))%nat /\
  node_part D l (S k) (dext - S k) b ++ lg_of ((after K' w).*2 ++ N1) ≡ₚ
  lg_of (W.*2 ++ (N1 ++ upto (fun j => nodes_ent D (S l) b (S k + j)%nat) (dext - S k))).
Proof.
  intros Hk EK HK' Hh -> W.
  assert (HK : Z.of_nat k * span (S l) <= K < (Z.of_nat k + 1) * span (S l)) by lia.
  assert (EW : W = shift_by (Z.of_nat k * span (S l)) (after K' (walk D l (ent b k)))
    ++ upto (fun j => walk_ent D (S l) b (S k + j)%nat) (dext - S k)).
  { unfold W. rewrite (after_split D (S l) b k K HK Hk). f_equal. unfold walk_ent. rewrite Hh, EK. apply until_shift. }
  rewrite EW. split.
  - rewrite length_app. unfold node_count, shift_by. rewrite length_fmap. lia.
  - rewrite fmap_app, snd_shift. unfold node_part, blks_ent, lg_of.
    rewrite <- fmap_upto, <- upto_app_perm, <- fmap_upto, <- fmap_app. apply fmap_Permutation.
    set (A := upto _ _). set (B := upto _ _). solve_Permutation.
Qed.

Lemma cut_S (D : disk) (l : nat) (kp : list Z) (ik : nat) (set : bool) (s : ts St) (e x : ext) :
  (forall (s1 : ts St) (y : ext), at_D n0 D s1 -> ok rd n0 D l y -> owned s1 (blks D l y) ->
     NoDup (nodes D l y) -> (path_pos l kp (S ik), x) ∈ walk D l y ->
     exists s' set' N, sam_proc_indirect_block rd c l SAM_FREE_BLOCK kp (S ik) y true s1
       = Done (ECANCELED, y, set') s' /\ cut D l y (path_pos l kp (S ik)) s1 s' N) ->
  (ik = O /\ set = false \/ l = O /\ ik <> O /\ set = true) ->
  path_ok (S l) kp ik -> at_D n0 D s -> ok rd n0 D (S l) e -> NoDup (nodes D (S l) e) ->
  owned s (blks D (S l) e) -> (path_pos (S l) kp ik, x) ∈ walk D (S l) e ->
  exists s' set' N, sam_proc_indirect_block rd c (S l) SAM_FREE_BLOCK kp ik e set s
    = Done (ECANCELED, e, set') s' /\ cut D (S l) e (path_pos (S l) kp ik) s s' N.
Proof.
  intros IH Hact [Hk Hp] HD Hok HN Ho Hx. rewrite (proc_start rd c n0 D) by assumption.
  pose proof (ok_length _ _ _ _ _ Hok) as Hl. pose proof dext_Z as Hd. pose proof (path_pos_range _ _ _ Hp) as HK'.
  cbn [path_pos] in *. set (K' := path_pos l kp (S ik)) in *. set (k0 := kptr_at kp ik) in *.
  change (DEXT * span l) with (span (S l)) in HK'.
  set (k := Z.to_nat k0). assert (Ek : Z.of_nat k = k0) by (unfold k; lia). rewrite <- Ek in Hx.
  set (K := Z.of_nat k * span (S l) + K') in *.
  assert (HK : Z.of_nat k * span (S l) <= K < (Z.of_nat k + 1) * span (S l)) by (unfold K; lia).
  assert (Hkd : (k < dext)%nat) by lia. set (b := blk_at D e) in *. set (y := ent b k).
  rewrite walk_eq in Hx. apply (path_entry D (S l) b k K HK x Hkd) in Hx.
  assert (Hy : is_hole y = false) by (unfold walk_ent in Hx; fold y in Hx; destruct (is_hole y); [inversion Hx|reflexivity]).
  assert (Hx' : (K', x) ∈ walk D l y).
  { unfold walk_ent in Hx. fold y in Hx. rewrite Hy in Hx. apply elem_of_shift in Hx.
    replace K' with (K - Z.of_nat k * span (S l)) by (unfold K; lia). exact Hx. }
  set (reset := Nat.eqb (S l) 1 && set).
  assert (Hset : (if reset then false else set) = false)
    by (unfold reset; destruct Hact as [(_ & ->)|(-> & _ & ->)]; [now rewrite andb_false_r|reflexivity]).
  cbv zeta. rewrite Hset. clear Hset.
  pose proof (owned_child D l e k s Hkd Hy Ho) as Ho'. fold b y in Ho'.
  assert (HC : child_frees rd c n0 D l (sam_proc_indirect_block rd c l SAM_FREE_BLOCK kp (S ik))).
  { intros s1 z HD1 Hz Oz. apply free_all; auto. }
  destruct (node_run rd c n0 D l _ (Nat.eqb ik 0) k0 reset (S k) (dext - S k) b s HC)
    as (s1 & b' & E1 & F1 & Ed1 & Em); [left; lia|lia|exact Hl|exact HD| |apply (owned_sub _ _ _ Ho')|].
  { intros j Hj Hh. apply ok_child; [exact Hok|lia|exact Hh]. }
  replace (S k + (dext - S k))%nat with dext in E1, Em by lia.
  destruct Em as (L1 & I1 & I2 & H1 & H2 & _).
  pose proof (freed_at _ _ _ _ _ _ _ HD F1 Ed1) as HD1.
  pose proof (owned_after _ _ _ _ _ _ Ho' F1) as Oy.
  assert (HNy : NoDup (nodes D l y)).
  { rewrite nodes_eq in HN. apply NoDup_cons in HN as [_ HN]. rewrite (split_at _ k Hkd) in HN.
    apply NoDup_app in HN as (_ & _ & HN). apply NoDup_app in HN as (HN & _ & _).
    unfold nodes_ent in HN. fold b in HN. fold y in HN. now rewrite Hy in HN. }
  destruct (IH s1 y HD1) as (s2 & set' & N1 & E2 & C2); [apply ok_child; auto|exact Oy|exact HNy|exact Hx'|].
  assert (E3 : node_loop (S k) (sam_proc_indirect_block rd c l SAM_FREE_BLOCK kp (S ik)) (Nat.eqb ik 0) k0 b'
    false reset 0 s1 = Done (ECANCELED, set_ent k y b', set') s2).
  { cbn [node_loop]. rewrite (H1 k) by lia. fold y. rewrite Hy.
    assert (Eset : (if Nat.eqb ik 0 && (Z.of_nat k <=? k0) then (true, reset)
      else if reset && (Z.of_nat k <=? k0) then (true, false) else (false, reset)) =
      (true, if Nat.eqb ik 0 then reset else false)).
    { rewrite (proj2 (Z.leb_le (Z.of_nat k) k0)) by lia. rewrite !andb_true_r. unfold reset.
      destruct Hact as [(-> & ->)|(-> & Hik & ->)]; [reflexivity|].
      apply Nat.eqb_neq in Hik. now rewrite Hik. }
    rewrite Eset. now rewrite (bind_done _ _ _ s2 _ E2). }
  rewrite (bind_done _ _ s s2 (ECANCELED, set_ent k y b', set')) by congruence.
  rewrite finish_cut by reflexivity. destruct C2 as [CF CW CN CO CR].
  destruct (cut_list D l b k K K' (walk D l y) N1 Hkd eq_refl HK' Hy eq_refl) as [EL EP].
  set (b1 := set_ent k y b').
  assert (Ls : length (ie_extent b1) = dext) by (cbn; now rewrite length_insert).
  assert (Hle : forall j, (j <= k)%nat -> ent b1 j = ent b j).
  { intros j Hj. unfold b1. rewrite ent_set by auto. destruct (decide (j = k)) as [->|]; [reflexivity|].
    apply H1. lia. }
  assert (Hgt : forall j, (k < j < dext)%nat -> is_hole (ent b1 j) = true).
  { intros j Hj. unfold b1. rewrite ent_set, decide_False by (auto; lia). apply H2. lia. }
  eexists _, set', _. split; [reflexivity|]. constructor; cbn [t_disk].
  - apply freed_by_disk. rewrite walk_eq. fold b. rewrite <- Ek. fold K. rewrite EL.
    eapply freed_by_perm; [exact EP|]. eapply freed_by_trans; [exact F1|exact CF].
  - rewrite <- Ek. fold K. apply (graft_walk D (t_disk s2) l e y b1 k N1) with (K' := K'); auto.
  - apply (graft_nodes D (t_disk s2) l e y b1 k N1); auto.
  - apply (graft_ok D (t_disk s2) l e y b1 k N1); auto.
  - apply (graft_frame D (t_disk s2) l e y b1 k N1); auto.
Qed.

(** The tree that contains the new end of the file, of any of the three levels. *)
Lemma cut_tree (D : disk) (level : nat) (kp : list Z) (ik : nat) (set : bool) (s : ts St) (e x : ext) :
  active level ik set -> path_ok level kp ik -> at_D n0 D s -> ok rd n0 D level e ->
  NoDup (nodes D level e) -> owned s (blks D level e) -> (path_pos level kp ik, x) ∈ walk D level e ->
  exists s' set' N, sam_proc_indirect_block rd c level SAM_FREE_BLOCK kp ik e set s
    = Done (ECANCELED, e, set') s' /\ cut D level e (path_pos level kp ik) s s' N.
Proof.
  revert ik set s e. induction level as [|l IH]; intros ik set s e Ha Hp HD Hok HN Ho Hx.
  - cbn in Ha. subst set. destruct (cut_0 D kp ik s e x Hp HD Hok Ho Hx) as (s' & E & C). eauto.
  - assert (Hp' : path_ok l kp (S ik)) by apply Hp.
    apply (cut_S D l kp ik set s e x); auto.
    + intros s1 y HD1 Hy Oy Ny Hxy. apply IH; auto. destruct l as [|[|l]]; cbn in *; auto. contradiction.
    + destruct l as [|[|l]]; cbn in Ha; [tauto|tauto|contradiction].
Qed.
End Path.
