(* ===== verification/TruncFile.v ===== *)
(** * The blocks of a whole file, and freeing its last trees *)

From S2P Require Import Prelude Dau Extent Monad FileTree Truncate TruncTree TruncFree TruncPath.

(** Position of the first block below the indirect extent of [level]. *)
Fixpoint base (level : nat) : Z :=
  match level with O => NDEXT | S l => base l + DEXT * span l end.

Definition ext_at (l : list ext) (j : nat) : ext := default hole (l !! j).

(** Data blocks and indirect blocks below extent [j] of an inode. *)
Definition ext_walk (D : disk) (l : list ext) (j : nat) : list (Z * ext) :=
  let e := ext_at l j in
  if is_hole e then []
  else if Nat.ltb j 16 then [(Z.of_nat j, e)]
  else shift_by (base (j - 16)) (walk D (j - 16) e).
Definition ext_nodes (D : disk) (l : list ext) (j : nat) : list ext :=
  let e := ext_at l j in
  if is_hole e || Nat.ltb j 16 then [] else nodes D (j - 16) e.

(** Small extents come first, unless the file is on large extents. *)
Definition bt_of (on_large : bool) (j : nat) : btype :=
  if (Z.of_nat j <? NSDEXT) && negb on_large then SM else LG.
Definition ext_blks (D : disk) (on_large : bool) (l : list ext) (j : nat) : list (btype * ext) :=
  (pair (bt_of on_large j) <$> (ext_walk D l j).*2) ++ lg_of (ext_nodes D l j).

Definition file_walk (D : disk) (l : list ext) : list (Z * ext) := upto (ext_walk D l) 19.
Definition file_nodes (D : disk) (l : list ext) : list ext := upto (ext_nodes D l) 19.

(** Blocks with their types. *)
Definition tag (on_large : bool) (w : list (Z * ext)) : list (btype * ext) :=
  (fun '(p, e) => (bt_of on_large (Z.to_nat p), e)) <$> w.
Definition file_blks (D : disk) (on_large : bool) (l : list ext) : list (btype * ext) :=
  tag on_large (file_walk D l) ++ lg_of (file_nodes D l).

(** First position of an extent. *)
Definition ext_start (j : nat) : Z := if Nat.leb j 16 then Z.of_nat j else base (j - 16).

Lemma base_S (j : nat) : (16 <= j)%nat -> ext_start (S j) = base (j - 16) + DEXT * span (j - 16).
Proof.
  intros Hj. unfold ext_start. destruct (Nat.leb_spec (S j) 16); [lia|].
  now replace (S j - 16)%nat with (S (j - 16)) by lia.
Qed.

Lemma ext_start_16 (j : nat) : (16 <= j)%nat -> ext_start j = base (j - 16).
Proof.
  intros Hj. unfold ext_start. destruct (Nat.leb_spec j 16); [|reflexivity].
  now replace j with 16%nat by lia.
Qed.

Lemma ext_start_step (j : nat) : ext_start j < ext_start (S j).
Proof.
  destruct (Nat.leb_spec 16 j) as [H|H].
  - rewrite base_S, ext_start_16 by lia. pose proof (span_pos (j - 16)). unfold DEXT. lia.
  - unfold ext_start. destruct (Nat.leb_spec j 16), (Nat.leb_spec (S j) 16); lia.
Qed.

Lemma ext_start_mono (i j : nat) : (i <= j)%nat -> ext_start i <= ext_start j.
Proof. induction 1 as [|j _ IH]; [lia|]. pose proof (ext_start_step j). lia. Qed.

Lemma ext_walk_range (D : disk) (l : list ext) (j : nat) (p : Z) (x : ext) :
  (p, x) ∈ ext_walk D l j -> ext_start j <= p < ext_start (S j).
Proof.
  unfold ext_walk. destruct (is_hole _); [intros H; inversion H|]. destruct (Nat.ltb_spec j 16) as [H|H].
  - intros [= -> _]%list_elem_of_singleton. unfold ext_start.
    destruct (Nat.leb_spec j 16), (Nat.leb_spec (S j) 16); lia.
  - intros Hp%elem_of_shift. apply walk_range in Hp. rewrite base_S, ext_start_16 by lia. lia.
Qed.

Lemma ext_at_insert (l : list ext) (j i : nat) (e : ext) :
  (j < length l)%nat -> ext_at (<[j:=e]> l) i = if decide (i = j) then e else ext_at l i.
Proof.
  intros Hj. unfold ext_at. destruct (decide (i = j)) as [->|].
  - now rewrite list_lookup_insert_eq.
  - now rewrite list_lookup_insert_ne by congruence.
Qed.

Lemma ext_parts (D : disk) (ol : bool) (l l' : list ext) (j : nat) :
  ext_at l j = ext_at l' j -> ext_walk D l j = ext_walk D l' j /\ ext_nodes D l j = ext_nodes D l' j /\
    ext_blks D ol l j = ext_blks D ol l' j.
Proof. intros E. unfold ext_blks, ext_walk, ext_nodes. now rewrite E. Qed.

Lemma ext_hole (D : disk) (ol : bool) (l : list ext) (j : nat) :
  is_hole (ext_at l j) = true -> ext_walk D l j = [] /\ ext_nodes D l j = [] /\ ext_blks D ol l j = [].
Proof. intros E. unfold ext_blks, ext_walk, ext_nodes. now rewrite E. Qed.

Lemma ext_tree (D : disk) (ol : bool) (l : list ext) (j : nat) :
  (16 <= j)%nat -> is_hole (ext_at l j) = false ->
  ext_walk D l j = shift_by (base (j - 16)) (walk D (j - 16) (ext_at l j)) /\
  ext_nodes D l j = nodes D (j - 16) (ext_at l j) /\ ext_blks D ol l j = blks D (j - 16) (ext_at l j).
Proof.
  intros Hj E. unfold ext_blks, ext_walk, ext_nodes. rewrite E. cbn [orb].
  destruct (Nat.ltb_spec j 16); [lia|]. split; [reflexivity|]. split; [reflexivity|].
  unfold bt_of. destruct (Z.ltb_spec (Z.of_nat j) NSDEXT) as [H1|_]; [unfold NSDEXT in H1; lia|]. cbn [andb].
  rewrite snd_shift. unfold blks. now rewrite lg_of_app.
Qed.

Lemma bt_of_large (ol : bool) (j : nat) : (8 <= j)%nat -> bt_of ol j = LG.
Proof.
  intros H. unfold bt_of. destruct (Z.ltb_spec (Z.of_nat j) NSDEXT) as [H1|_]; [unfold NSDEXT in H1; lia|].
  reflexivity.
Qed.

Lemma tag_lg (ol : bool) (w : list (Z * ext)) :
  (forall p x, (p, x) ∈ w -> 8 <= p) -> tag ol w = lg_of w.*2.
Proof.
  unfold tag, lg_of. induction w as [|[p x] w IH]; intros H; [reflexivity|]. rewrite !fmap_cons. cbn [snd].
  rewrite IH by (intros p' x' Hp; apply (H p' x'); now right). f_equal. f_equal.
  apply bt_of_large. pose proof (H p x ltac:(left)). lia.
Qed.

#[export] Instance tag_proper (ol : bool) : Proper ((≡ₚ) ==> (≡ₚ)) (tag ol).
Proof. intros l1 l2 E. apply fmap_Permutation, E. Qed.

Lemma tag_app (ol : bool) (w1 w2 : list (Z * ext)) : tag ol (w1 ++ w2) = tag ol w1 ++ tag ol w2.
Proof. apply fmap_app. Qed.

Lemma ext_blks_tag (D : disk) (ol : bool) (l : list ext) (j : nat) :
  ext_blks D ol l j = tag ol (ext_walk D l j) ++ lg_of (ext_nodes D l j).
Proof.
  unfold ext_blks. f_equal. unfold ext_walk. destruct (is_hole _); [reflexivity|].
  destruct (Nat.ltb_spec j 16) as [H|H].
  - unfold tag. cbn. now rewrite Nat2Z.id.
  - rewrite tag_lg; [now rewrite bt_of_large by lia|]. intros p x Hp%elem_of_shift. apply walk_range in Hp.
    pose proof (ext_start_mono 16 j H) as E. rewrite (ext_start_16 j H) in E. change (ext_start 16) with 16 in E. lia.
Qed.

Lemma upto_tag (D : disk) (ol : bool) (l : list ext) (lo n : nat) :
  upto (fun j => ext_blks D ol l (lo + j)%nat) n ≡ₚ
  tag ol (upto (fun j => ext_walk D l (lo + j)%nat) n) ++ lg_of (upto (fun j => ext_nodes D l (lo + j)%nat) n).
Proof.
  unfold tag, lg_of. rewrite !fmap_upto, upto_app_perm. rewrite (upto_ext _ _ n (fun j _ => ext_blks_tag D ol l (lo + j))).
  reflexivity.
Qed.

(** A file and what is cut off from it. *)
Lemma walk_parts (P : Z) (w : list (Z * ext)) : w ≡ₚ after P w ++ until P w.
Proof.
  unfold after, until. induction w as [|[p x] w IH]; [reflexivity|]. rewrite !filter_cons.
  destruct (decide (P < fst (p, x))), (decide (fst (p, x) <= P)); cbn in *; try lia.
  - now rewrite <- IH.
  - rewrite <- Permutation_middle. now rewrite <- IH.
Qed.

Lemma file_parts (P : Z) (D D' : disk) (ol : bool) (l l' : list ext) (N : list ext) :
  file_walk D' l' = until P (file_walk D l) -> file_nodes D l ≡ₚ N ++ file_nodes D' l' ->
  file_blks D ol l ≡ₚ (tag ol (after P (file_walk D l)) ++ lg_of N) ++ file_blks D' ol l'.
Proof.
  intros EW EN. unfold file_blks. rewrite EW, EN, lg_of_app.
  assert (E : tag ol (file_walk D l) ≡ₚ tag ol (after P (file_walk D l)) ++ tag ol (until P (file_walk D l))).
  { rewrite <- tag_app. apply tag_proper, walk_parts. }
  rewrite E. solve_Permutation.
Qed.

(** The extents of a file in three parts. *)
Lemma split_file {A : Type} (f : nat -> list A) (k : nat) :
  (k < 19)%nat -> upto f 19 = upto f k ++ f k ++ upto (fun j => f (S k + j)%nat) (18 - k).
Proof.
  intros Hk. replace 19%nat with (S k + (18 - k))%nat at 1 by lia. rewrite upto_add. cbn [upto].
  now rewrite <- app_assoc.
Qed.

(** ** Truncation of a file at [P], a position below extent [k] *)

Section CutFile.
Context (D : disk) (l : list ext) (k : nat) (P : Z).
Context (HP : ext_start k <= P < ext_start (S k)) (Hk : (k < 19)%nat).

Lemma file_after :
  after P (file_walk D l) = after P (ext_walk D l k) ++ upto (fun j => ext_walk D l (S k + j)%nat) (18 - k).
Proof.
  unfold file_walk. rewrite (split_file _ k Hk). rewrite !(proj2 (until_app _ _ _)).
  assert (E1 : after P (upto (ext_walk D l) k) = []).
  { apply until_all. intros p x (j & Hj & Hp)%elem_of_upto. apply ext_walk_range in Hp.
    pose proof (ext_start_mono (S j) k Hj). lia. }
  assert (E2 : after P (upto (fun j => ext_walk D l (S k + j)%nat) (18 - k)) =
    upto (fun j => ext_walk D l (S k + j)%nat) (18 - k)).
  { apply after_all. intros p x (j & Hj & Hp)%elem_of_upto. apply ext_walk_range in Hp.
    pose proof (ext_start_mono (S k) (S k + j) ltac:(lia)). lia. }
  now rewrite E1, E2.
Qed.

Lemma file_until :
  until P (file_walk D l) = upto (ext_walk D l) k ++ until P (ext_walk D l k).
Proof.
  unfold file_walk. rewrite (split_file _ k Hk). rewrite !(proj1 (until_app _ _ _)).
  assert (E1 : until P (upto (ext_walk D l) k) = upto (ext_walk D l) k).
  { apply until_all. intros p x (j & Hj & Hp)%elem_of_upto. apply ext_walk_range in Hp.
    pose proof (ext_start_mono (S j) k Hj). lia. }
  assert (E2 : until P (upto (fun j => ext_walk D l (S k + j)%nat) (18 - k)) = []).
  { apply after_all. intros p x (j & Hj & Hp)%elem_of_upto. apply ext_walk_range in Hp.
    pose proof (ext_start_mono (S k) (S k + j) ltac:(lia)). lia. }
  now rewrite E1, E2, app_nil_r.
Qed.

Lemma file_entry (x : ext) : (P, x) ∈ file_walk D l -> (P, x) ∈ ext_walk D l k.
Proof.
  intros H. apply elem_of_upto in H as (j & Hj & H). pose proof (ext_walk_range _ _ _ _ _ H) as R.
  destruct (lt_eq_lt_dec j k) as [[Hl|<-]|Hl]; [|exact H|].
  - pose proof (ext_start_mono (S j) k Hl). lia.
  - pose proof (ext_start_mono (S k) j Hl). lia.
Qed.
End CutFile.

(** ** The loop over the indirect extents *)

(** The inode without its extents and block counts. *)
Definition mask_e (n : finode) : finode := upd_ext (fun _ => []) (mask n).

Section Trim.
Context {St : Type} `{!FileEnv St} `{!BlockSink St}.

(** As [freed_by], but the extents of the inode change. *)
Record trimmed (lg : Z) (k : nat) (l : list (btype * ext)) (s s' : ts St) : Prop := mk_trimmed {
  tr_env : frees l (t_env s) (t_env s');
  tr_mask : mask_e (t_di s') = mask_e (t_di s);
  tr_blocks : count_less lg k (n_blocks (t_di s)) (n_blocks (t_di s'));
  tr_seg : count_less lg (if n_segs (t_di s) then k else 0) (n_seg_blocks (t_di s)) (n_seg_blocks (t_di s'));
  tr_next : t_next s' = t_next s;
  tr_upd : t_upd s' = t_upd s;
  tr_fsck : t_fsck s' = t_fsck s
}.

Lemma trimmed_of (lg : Z) (k : nat) (l : list (btype * ext)) (s s' : ts St) (f : list ext -> list ext) :
  freed_by lg k l s s' ->
  trimmed lg k l s (mk_ts (upd_ext f (t_di s')) (t_disk s') (t_next s') (t_upd s') (t_fsck s') (t_env s')).
Proof.
  intros []. constructor; auto. pose proof (f_equal (upd_ext (fun _ => [])) fb_mask) as E. exact E.
Qed.

Lemma trimmed_same (lg : Z) (k : nat) (l : list (btype * ext)) (s s' : ts St) :
  freed_by lg k l s s' -> trimmed lg k l s s'.
Proof. intros []. constructor; auto. exact (f_equal (upd_ext (fun _ => [])) fb_mask). Qed.

Lemma trimmed_refl (lg : Z) (s : ts St) : trimmed lg 0 [] s s.
Proof. constructor; auto using frees_nil, count_less_refl. destruct (n_segs _); apply count_less_refl. Qed.

Lemma trimmed_trans (lg : Z) (k1 k2 : nat) (l1 l2 : list (btype * ext)) (s s1 s2 : ts St) :
  trimmed lg k1 l1 s s1 -> trimmed lg k2 l2 s1 s2 -> trimmed lg (k1 + k2) (l1 ++ l2) s s2.
Proof.
  intros [] []. assert (Es : n_segs (t_di s1) = n_segs (t_di s)) by exact (f_equal n_segs tr_mask0).
  constructor; try congruence; eauto using frees_trans, count_less_trans.
  rewrite Es in tr_seg1. destruct (n_segs (t_di s)); [eauto using count_less_trans|].
  exact (count_less_trans _ 0 0 _ _ _ tr_seg0 tr_seg1).
Qed.

Lemma trimmed_perm (lg : Z) (k : nat) (l1 l2 : list (btype * ext)) (s s' : ts St) :
  l1 ≡ₚ l2 -> trimmed lg k l1 s s' -> trimmed lg k l2 s s'.
Proof. intros E []. constructor; auto. eapply frees_perm; eauto. Qed.

Lemma owned_trimmed (lg : Z) (k : nat) (l1 l2 : list (btype * ext)) (s s' : ts St) :
  owned s (l1 ++ l2) -> trimmed lg k l1 s s' -> owned s' l2.
Proof.
  intros Ho H. eapply owned_frees; [exact Ho|apply H].
Qed.

Lemma valid_mask_e (n n' : finode) (level : nat) (b : ind_block) :
  mask_e n = mask_e n' -> valid0 n level b = valid0 n' level b.
Proof.
  intros E. assert (E1 : n_id n = n_id n') by exact (f_equal n_id E).
  assert (E2 : n_parent n = n_parent n') by exact (f_equal n_parent E).
  assert (E3 : n_segs n = n_segs n') by exact (f_equal n_segs E).
  assert (E4 : n_seg_ord n = n_seg_ord n') by exact (f_equal n_seg_ord E).
  unfold valid0, sam_validate_indirect_block. now rewrite E1, E2, E3, E4.
Qed.

Lemma lg_mask_e (c : tconf) (n n' : finode) : mask_e n = mask_e n' -> lg0 c n = lg0 c n'.
Proof.
  intros E. pose proof (f_equal n_meta E) as E1. pose proof (f_equal n_unit E) as E2. cbn in *.
  unfold lg0, lg_blocks, dt_of. now rewrite E1, E2.
Qed.

Lemma ok_mask_e (rd : ext -> Z) (n n' : finode) (D : disk) (level : nat) (e : ext) :
  mask_e n = mask_e n' -> ok rd n D level e -> ok rd n' D level e.
Proof.
  intros E. unfold ok. revert e. induction level as [|l IH]; intros e (Hr & Hv & Hl & Hc); cbn [tree_ok];
    rewrite <- (valid_mask_e n n' _ _ E); repeat split; auto.
Qed.
End Trim.
