(* ===== verification/TruncThms.v ===== *)
(** * Truncation of a file

    [sam_reduce_ino] leaves the blocks up to the new end of the file and gives back all
    others, at once or through the reclaim thread. *)

From S2P Require Import Prelude Dau Extent Monad FileTree Truncate TruncTree TruncFree TruncPath TruncFile.

Section Loop.
Context {St : Type} `{!FileEnv St} `{!BlockSink St}.
Context (rd : ext -> Z) (c : tconf).

Definition part_blks (s : ts St) (lo n : nat) : list (btype * ext) :=
  upto (fun j => ext_blks (t_disk s) (n_on_large (t_di s)) (n_ext (t_di s)) (lo + j)%nat) n.
Definition part_count (s : ts St) (lo n : nat) : nat :=
  length (upto (fun j => ext_walk (t_disk s) (n_ext (t_di s)) (lo + j)%nat) n).

(** The extents from [lo] to [hi] have become holes. *)
Definition cleared (lo hi : nat) (l l' : list ext) : Prop :=
  length l' = length l /\ (forall j, (j < lo)%nat -> ext_at l' j = ext_at l j) /\
  (forall j, (lo <= j < hi)%nat -> is_hole (ext_at l' j) = true) /\
  (forall j, (hi <= j)%nat -> ext_at l' j = ext_at l j).

(** The trees after the one that contains the end of the file are given back. *)
Lemma indirect_run (kp : list Z) (de : Z) (lo n : nat) (s : ts St) :
  de < Z.of_nat lo -> (16 < lo)%nat -> (lo + n <= 19)%nat -> length (n_ext (t_di s)) = 19%nat ->
  (forall j, (lo <= j < lo + n)%nat -> is_hole (ext_at (n_ext (t_di s)) j) = false ->
     ok rd (t_di s) (t_disk s) (j - 16) (ext_at (n_ext (t_di s)) j)) ->
  owned s (part_blks s lo n) ->
  exists s', indirect_loop (lo + n) rd c kp de 0 s = indirect_loop lo rd c kp de 0 s' /\
    trimmed (lg0 c (t_di s)) (part_count s lo n) (part_blks s lo n) s s' /\ t_disk s' = t_disk s /\
    cleared lo (lo + n) (n_ext (t_di s)) (n_ext (t_di s')).
Proof.
  intros Hde Hlo. revert s. induction n as [|n IH]; intros s Hn Hlen Hok Ho.
  - rewrite Nat.add_0_r. exists s. split; [reflexivity|]. split; [apply trimmed_refl|].
    split; [reflexivity|]. repeat split; auto. intros; lia.
  - rewrite Nat.add_succ_r. cbn [indirect_loop]. unfold part_blks, part_count in *. cbn [upto] in *.
    set (j := (lo + n)%nat) in *. set (l := n_ext (t_di s)) in *. set (D := t_disk s) in *.
    set (ol := n_on_large (t_di s)) in *.
    destruct (Z.ltb_spec (Z.of_nat j) de); [lia|]. rewrite (bind_done _ _ _ s (t_di s)) by reflexivity.
    fold l. fold (ext_at l j). destruct (is_hole (ext_at l j)) eqn:Eh.
    + destruct (ext_hole D ol l j Eh) as (E1 & _ & E2). rewrite E1, E2, !app_nil_r in *.
      destruct (IH s ltac:(lia) Hlen) as (s' & E & T & Ed & C1 & C2 & C3 & C4); [|exact Ho|].
      { intros i Hi. apply Hok. lia. }
      exists s'. split; [exact E|]. split; [exact T|]. split; [exact Ed|]. split; [exact C1|].
      split; [exact C2|]. split; [|intros i Hi; apply C4; lia].
      intros i Hi. destruct (decide (i = j)) as [->|]; [|apply C3; lia]. now rewrite C4.
    + destruct (ext_tree D ol l j ltac:(lia) Eh) as (Ew & _ & Eb). rewrite Eb in *.
      destruct (Z.eqb_spec (Z.of_nat j) NDEXT) as [H1|_]; [unfold NDEXT, NSDEXT, NLDEXT in H1; lia|].
      destruct (Z.eqb_spec (Z.of_nat j) de); [lia|].
      replace (Z.to_nat (Z.of_nat j - NDEXT)) with (j - 16)%nat by (unfold NDEXT, NSDEXT, NLDEXT; lia).
      pose proof (owned_perm _ _ _ (Permutation_app_comm _ _) Ho) as Ho'. destruct (owned_sub _ _ _ Ho') as [Ox _].
      destruct (free_all rd c (t_di s) D (j - 16) kp (Z.to_nat (NIEXT - 1)) s (ext_at l j)) as (s1 & E1 & F1 & Ed1);
        [unfold NIEXT; lia|now split|apply Hok; [lia|exact Eh]|exact Ox|].
      rewrite (bind_done _ _ _ s1 _ E1). erewrite bind_done; [|reflexivity]. cbn [Z.eqb ECANCELED].
      pose proof (trimmed_of _ _ _ _ _ (insert j hole) F1) as T1.
      set (s2 := mk_ts (upd_ext (insert j hole) (t_di s1)) (t_disk s1) (t_next s1) (t_upd s1) (t_fsck s1) (t_env s1)) in *.
      assert (El : n_ext (t_di s2) = <[j:=hole]> l)
        by (cbn; f_equal; exact (f_equal n_ext (fb_mask _ _ _ _ _ F1))).
      assert (Eol : n_on_large (t_di s2) = ol) by exact (f_equal n_on_large (tr_mask _ _ _ _ _ T1)).
      assert (Eat : forall i, i <> j -> ext_at (n_ext (t_di s2)) i = ext_at l i).
      { intros i Hi. rewrite El, ext_at_insert by (rewrite Hlen; lia). now rewrite decide_False. }
      assert (Ep : forall i, (i < n)%nat -> ext_blks (t_disk s2) (n_on_large (t_di s2)) (n_ext (t_di s2)) (lo + i) =
        ext_blks D ol l (lo + i) /\ ext_walk (t_disk s2) (n_ext (t_di s2)) (lo + i) = ext_walk D l (lo + i)).
      { intros i Hi. cbn [t_disk s2]. rewrite Ed1, Eol. fold D.
        destruct (ext_parts D ol _ _ _ (Eat (lo + i)%nat ltac:(lia))) as (? & _ & ?). now split. }
      destruct (IH s2) as (s' & E & T & Ed & C1 & C2 & C3 & C4); [lia| | | |].
      * rewrite El, length_insert. exact Hlen.
      * intros i Hi Hh. rewrite Eat in Hh |- * by lia. cbn [t_disk s2]. rewrite Ed1. fold D.
        apply (ok_mask_e _ (t_di s)); [symmetry; exact (tr_mask _ _ _ _ _ T1)|]. apply Hok; [lia|exact Hh].
      * rewrite (upto_ext _ _ n (fun i Hi => proj1 (Ep i Hi))). eapply owned_trimmed; eauto.
      * rewrite (upto_ext _ _ n (fun i Hi => proj1 (Ep i Hi))), (upto_ext _ _ n (fun i Hi => proj2 (Ep i Hi))) in T.
        rewrite (lg_mask_e c _ (t_di s) (tr_mask _ _ _ _ _ T1)) in T.
        exists s'. split; [exact E|]. split; [|split; [exact (eq_trans Ed Ed1)|]].
        { rewrite length_app, Ew. unfold shift_by at 1. rewrite length_fmap, Nat.add_comm.
          eapply trimmed_perm; [apply Permutation_app_comm|]. eapply trimmed_trans; eauto. }
        rewrite El in C1. rewrite length_insert in C1. split; [exact C1|]. split.
        { intros i Hi. rewrite C2 by lia. apply Eat. lia. }
        split; [|intros i Hi; rewrite C4 by lia; apply Eat; lia].
        intros i Hi. destruct (decide (i = j)) as [->|]; [|apply C3; lia]. rewrite C4 by lia.
        rewrite El, ext_at_insert by (rewrite Hlen; lia). now rewrite decide_True.
Qed.

(** ** Files *)

(** The extents and trees of a file: the indirect blocks are readable and valid and occur
    once, and all blocks are in use, each by one position. *)
Record file_ok (s : ts St) : Prop := mk_file_ok {
  fo_len : length (n_ext (t_di s)) = 19%nat;
  fo_trees : forall j, (16 <= j < 19)%nat -> is_hole (ext_at (n_ext (t_di s)) j) = false ->
    ok rd (t_di s) (t_disk s) (j - 16) (ext_at (n_ext (t_di s)) j);
  fo_nodup : NoDup (file_nodes (t_disk s) (n_ext (t_di s)));
  fo_owned : owned s (file_blks (t_disk s) (n_on_large (t_di s)) (n_ext (t_di s)))
}.

Definition walk_of (s : ts St) : list (Z * ext) := file_walk (t_disk s) (n_ext (t_di s)).
Definition nodes_of (s : ts St) : list ext := file_nodes (t_disk s) (n_ext (t_di s)).

(** The file of [s] cut after position [P] in [s']; [N] are the indirect blocks given back. *)
Record cut_file (P : Z) (N : list ext) (s s' : ts St) : Prop := mk_cut_file {
  cf_walk : walk_of s' = until P (walk_of s);
  cf_nodes : nodes_of s ≡ₚ N ++ nodes_of s';
  cf_ok : file_ok s'
}.

Section Cut.
Context (s s1 s2 : ts St) (k : nat) (P : Z) (e : ext) (N1 : list ext) (K : Z).
Let D := t_disk s.
Let l := n_ext (t_di s).
Let D2 := t_disk s2.
Let l2 := n_ext (t_di s2).
Context (Hk : (16 <= k < 19)%nat) (HP : P = base (k - 16) + K) (HK : 0 <= K < DEXT * span (k - 16)).
Context (HF : file_ok s) (Ee : e = ext_at l k) (He : is_hole e = false).
Context (HC : cut rd c (t_di s1) D (k - 16) e K s1 s2 N1).
Context (Hlen : length l2 = 19%nat) (Hlt : forall j, (j <= k)%nat -> ext_at l2 j = ext_at l j).
Context (Hgt : forall j, (k < j < 19)%nat -> is_hole (ext_at l2 j) = true).

Lemma cut_pos : ext_start k <= P < ext_start (S k).
Proof. rewrite base_S, ext_start_16 by lia. lia. Qed.

Lemma cut_other (j : nat) (z : ext) : (j < k)%nat -> z ∈ ext_nodes D l j -> D2 !! z = D !! z.
Proof.
  intros Hj Hz. apply (cut_frame _ _ _ _ _ _ _ _ _ _ HC). intros H2.
  assert (Hz2 : z ∈ nodes D (k - 16) e).
  { rewrite (cut_nodes _ _ _ _ _ _ _ _ _ _ HC). apply elem_of_app. now right. }
  pose proof (fo_nodup _ HF) as ND. unfold file_nodes in ND. rewrite (split_file _ k ltac:(lia)) in ND.
  apply NoDup_app in ND as (_ & ND & _). apply (ND z); [apply elem_of_upto; eauto|].
  apply elem_of_app. left. fold D l. destruct (ext_tree D true l k ltac:(lia)) as (_ & -> & _).
  - rewrite <- Ee. exact He.
  - rewrite <- Ee. exact Hz2.
Qed.

Lemma cut_ext_old (j : nat) : (j < k)%nat ->
  ext_walk D2 l2 j = ext_walk D l j /\ ext_nodes D2 l2 j = ext_nodes D l j.
Proof.
  intros Hj. pose proof (fun z => cut_other j z Hj) as H. revert H. unfold ext_walk, ext_nodes.
  rewrite Hlt by lia. destruct (is_hole (ext_at l j)); cbn [orb]; [now split|]. destruct (Nat.ltb j 16); [now split|].
  intros H. destruct (tree_frame D D2 _ _ H) as [-> ->]. now split.
Qed.

Lemma cut_ext_here :
  ext_walk D2 l2 k = until P (ext_walk D l k) /\ ext_nodes D l k ≡ₚ N1 ++ ext_nodes D2 l2 k.
Proof.
  destruct (ext_tree D true l k ltac:(lia)) as (-> & -> & _); [rewrite <- Ee; exact He|].
  destruct (ext_tree D2 true l2 k ltac:(lia)) as (-> & -> & _); [rewrite Hlt, <- Ee by lia; exact He|].
  rewrite Hlt, <- Ee by lia. destruct HC. split; [|exact cut_nodes].
  rewrite HP, (proj1 (until_shift _ _ _)). f_equal. exact cut_walk.
Qed.

Lemma cut_file_walk : walk_of s2 = until P (walk_of s).
Proof.
  unfold walk_of. fold D l D2 l2. rewrite (file_until D l k P cut_pos) by lia.
  unfold file_walk. rewrite (split_file _ k ltac:(lia)).
  rewrite (upto_ext (ext_walk D2 l2) (ext_walk D l) k) by (intros j Hj; now apply cut_ext_old).
  rewrite (proj1 cut_ext_here). rewrite (upto_nil (fun j => ext_walk D2 l2 (S k + j)%nat) _ 0);
    [now rewrite app_nil_r|lia|]. intros j Hj. apply (ext_hole D2 true). apply Hgt. lia.
Qed.

Lemma cut_file_nodes :
  nodes_of s ≡ₚ (N1 ++ upto (fun j => ext_nodes D l (S k + j)%nat) (18 - k)) ++ nodes_of s2.
Proof.
  unfold nodes_of. fold D l D2 l2. unfold file_nodes. rewrite !(split_file _ k ltac:(lia)).
  rewrite (upto_ext (ext_nodes D2 l2) (ext_nodes D l) k) by (intros j Hj; now apply cut_ext_old).
  rewrite (proj2 cut_ext_here). rewrite (upto_nil (fun j => ext_nodes D2 l2 (S k + j)%nat) _ 0).
  - cbn [upto]. rewrite app_nil_r. set (A := upto _ k). set (B := upto _ (18 - k)). solve_Permutation.
  - lia.
  - intros j Hj. apply (ext_hole D2 true). apply Hgt. lia.
Qed.

(** The trees that are left are well formed. *)
Lemma cut_file_trees (j : nat) :
  mask_e (t_di s2) = mask_e (t_di s) -> mask_e (t_di s1) = mask_e (t_di s) ->
  (16 <= j < 19)%nat -> is_hole (ext_at l2 j) = false -> ok rd (t_di s2) D2 (j - 16) (ext_at l2 j).
Proof.
  intros M2 M1 Hj Hh. destruct (lt_eq_lt_dec j k) as [[Hl| ->]|Hl].
  - apply (ok_mask_e _ (t_di s)); [now symmetry|]. rewrite Hlt in Hh |- * by lia.
    apply (tree_ok_frame _ _ D); [|apply (fo_trees _ HF); [lia|exact Hh]].
    intros z Hz. apply (cut_other j); [exact Hl|]. now destruct (ext_tree D true l j ltac:(lia) Hh) as (_ & -> & _).
  - rewrite Hlt, <- Ee by lia. apply (ok_mask_e _ (t_di s1)); [congruence|]. exact (cut_ok _ _ _ _ _ _ _ _ _ _ HC).
  - rewrite Hgt in Hh by lia. discriminate.
Qed.
End Cut.

Lemma upd_ext_id (f : list ext -> list ext) (s : ts St) :
  f (n_ext (t_di s)) = n_ext (t_di s) -> upd_di (upd_ext f) s = Done tt s.
Proof.
  intros E. destruct s as [n ? ? ? ? ?]. unfold upd_di, modify. cbn in *. unfold upd_ext. rewrite E. now destruct n.
Qed.

Lemma active_top (k : nat) : (16 <= k < 19)%nat -> active (k - 16) 0 (Z.of_nat k =? NDEXT).
Proof.
  intros Hk. assert (k = 16 \/ k = 17 \/ k = 18)%nat as [->|[->| ->]] by lia; cbn; auto.
Qed.

(** What the loop gives back in all. *)
Lemma freed_list (s : ts St) (k : nat) (P K : Z) (N1 : list ext) :
  (16 <= k < 19)%nat -> P = base (k - 16) + K -> 0 <= K < DEXT * span (k - 16) ->
  let l := n_ext (t_di s) in let D := t_disk s in let e := ext_at l k in
  is_hole e = false ->
  length (after P (walk_of s)) = (part_count s (S k) (18 - k) + length (after K (walk D (k - 16) e)))%nat /\
  part_blks s (S k) (18 - k) ++ lg_of ((after K (walk D (k - 16) e)).*2 ++ N1) ≡ₚ
  tag (n_on_large (t_di s)) (after P (walk_of s)) ++
  lg_of (N1 ++ upto (fun j => ext_nodes D l (S k + j)%nat) (18 - k)).
Proof.
  intros Hk HP HK l D e He.
  assert (HP' : ext_start k <= P < ext_start (S k)) by (rewrite base_S, ext_start_16 by lia; lia).
  unfold walk_of. fold D l. rewrite (file_after D l k P HP') by lia.
  assert (E : after P (ext_walk D l k) = shift_by (base (k - 16)) (after K (walk D (k - 16) e))).
  { destruct (ext_tree D true l k ltac:(lia) He) as (-> & _). rewrite HP. apply until_shift. }
  rewrite E. split.
  - rewrite length_app. unfold shift_by at 1. rewrite length_fmap. unfold part_count. fold D l. lia.
  - rewrite tag_app. unfold part_blks. fold D l. rewrite upto_tag.
    rewrite (tag_lg _ (shift_by _ _)).
    + rewrite snd_shift, !lg_of_app. solve_Permutation.
    + intros p x Hp%elem_of_shift. apply list_elem_of_filter in Hp as [_ Hp]. apply walk_range in Hp.
      pose proof (ext_start_mono 16 k ltac:(lia)) as Hs. rewrite (ext_start_16 k) in Hs by lia.
      change (ext_start 16) with 16 in Hs. lia.
Qed.

(** Owned blocks in the order of giving back. *)
Lemma owned_tail (s : ts St) (k : nat) :
  (16 <= k < 19)%nat -> file_ok s -> is_hole (ext_at (n_ext (t_di s)) k) = false ->
  owned s (part_blks s (S k) (18 - k) ++ blks (t_disk s) (k - 16) (ext_at (n_ext (t_di s)) k)).
Proof.
  intros Hk HF He. pose proof (fo_owned _ HF) as Ho. set (l := n_ext (t_di s)) in *. set (D := t_disk s) in *.
  set (ol := n_on_large (t_di s)) in *.
  assert (E : file_blks D ol l ≡ₚ upto (ext_blks D ol l) 19) by (symmetry; apply (upto_tag D ol l 0)).
  apply (owned_perm _ _ _ E) in Ho. rewrite (split_file _ k ltac:(lia)) in Ho.
  apply (owned_perm _ _ _ (Permutation_app_comm _ _)) in Ho. apply owned_sub in Ho as [Ho _].
  apply (owned_perm _ _ _ (Permutation_app_comm _ _)) in Ho.
  destruct (ext_tree D ol l k ltac:(lia) He) as (_ & _ & Eb). rewrite Eb in Ho. exact Ho.
Qed.

Lemma file_entry_tree (s : ts St) (k : nat) (P K : Z) (x : ext) :
  (16 <= k < 19)%nat -> P = base (k - 16) + K -> 0 <= K < DEXT * span (k - 16) -> (P, x) ∈ walk_of s ->
  is_hole (ext_at (n_ext (t_di s)) k) = false /\
  (K, x) ∈ walk (t_disk s) (k - 16) (ext_at (n_ext (t_di s)) k).
Proof.
  intros Hk HP HK Hx.
  assert (HP' : ext_start k <= P < ext_start (S k)) by (rewrite base_S, ext_start_16 by lia; lia).
  apply (file_entry _ _ k P HP') in Hx; [|lia].
  destruct (is_hole (ext_at (n_ext (t_di s)) k)) eqn:Eh.
  - destruct (ext_hole (t_disk s) true _ _ Eh) as (E & _). rewrite E in Hx. inversion Hx.
  - split; [reflexivity|]. destruct (ext_tree (t_disk s) true _ k ltac:(lia) Eh) as (E & _). rewrite E in Hx.
    apply elem_of_shift in Hx. now replace K with (P - base (k - 16)) by lia.
Qed.

Lemma reduce_tree (kp : list Z) (k : nat) (P : Z) (s : ts St) (x : ext) :
  (16 <= k < 19)%nat -> path_ok (k - 16) kp 0 -> P = base (k - 16) + path_pos (k - 16) kp 0 ->
  file_ok s -> (P, x) ∈ walk_of s ->
  exists s' N, indirect_loop 19 rd c kp (Z.of_nat k) 0 s = Done 0 s' /\
    trimmed (lg0 c (t_di s)) (length (after P (walk_of s)))
      (tag (n_on_large (t_di s)) (after P (walk_of s)) ++ lg_of N) s s' /\ cut_file P N s s'.
Proof.
  intros Hk Hp HP HF Hx. pose proof (path_pos_range _ _ _ Hp) as HK. set (K := path_pos (k - 16) kp 0) in *.
  destruct (file_entry_tree s k P K x Hk HP HK Hx) as [He Hx'].
  pose proof (owned_tail s k Hk HF He) as Ho. pose proof (fo_len _ HF) as Hlen.
  set (l := n_ext (t_di s)) in *. set (e := ext_at l k) in *. set (D := t_disk s) in *.
  destruct (indirect_run kp (Z.of_nat k) (S k) (18 - k) s) as (s1 & E1 & T1 & Ed1 & C1 & C2 & C3 & _);
    [lia|lia|lia|exact Hlen|intros j Hj Hh; apply (fo_trees _ HF); [lia|exact Hh]|apply (owned_sub _ _ _ Ho)|].
  replace (S k + (18 - k))%nat with 19%nat in E1, C3 by lia. rewrite E1. fold l in C1, C2.
  cbn [indirect_loop]. rewrite Z.ltb_irrefl. rewrite (bind_done _ _ _ s1 (t_di s1)) by reflexivity.
  fold (ext_at (n_ext (t_di s1)) k). rewrite C2 by lia. fold e. rewrite He. rewrite Z.eqb_refl.
  replace (Z.to_nat (Z.of_nat k - NDEXT)) with (k - 16)%nat by (unfold NDEXT, NSDEXT, NLDEXT; lia).
  assert (HN : NoDup (nodes D (k - 16) e)).
  { pose proof (fo_nodup _ HF) as ND. unfold file_nodes in ND. rewrite (split_file _ k ltac:(lia)) in ND.
    apply NoDup_app in ND as (_ & _ & ND). apply NoDup_app in ND as (ND & _ & _). fold D l in ND.
    destruct (ext_tree D true l k ltac:(lia) He) as (_ & En & _). rewrite En in ND. exact ND. }
  destruct (cut_tree rd c (t_di s1) D (k - 16) kp 0 (Z.of_nat k =? NDEXT) s1 e x) as (s2 & set' & N1 & E2 & HC);
    [now apply active_top|exact Hp|now split| |exact HN|exact (owned_trimmed _ _ _ _ _ _ Ho T1)|exact Hx'|].
  { apply (ok_mask_e _ (t_di s)); [symmetry; exact (tr_mask _ _ _ _ _ T1)|]. apply (fo_trees _ HF); [lia|exact He]. }
  rewrite (bind_done _ _ _ s2 _ E2). fold K in HC.
  pose proof (cut_freed _ _ _ _ _ _ _ _ _ _ HC) as F2.
  assert (El : n_ext (t_di s2) = n_ext (t_di s1)) by exact (f_equal n_ext (fb_mask _ _ _ _ _ F2)).
  rewrite (bind_done _ _ s2 s2 tt).
  2:{ apply upd_ext_id. rewrite El. apply list_insert_id. rewrite Hlen in C1.
      destruct (lookup_lt_is_Some_2 (n_ext (t_di s1)) k) as [z Hz]; [lia|]. rewrite Hz. f_equal.
      pose proof (C2 k ltac:(lia)) as Ez. unfold ext_at in Ez at 1. rewrite Hz in Ez. exact Ez. }
  rewrite Z.eqb_refl. cbn [Nat.eqb].
  destruct (freed_list s k P K N1 Hk HP HK He) as [EL EP]. fold l D e in EL, EP.
  exists s2, (N1 ++ upto (fun j => ext_nodes D l (S k + j)%nat) (18 - k)). split; [reflexivity|].
  assert (T2 : trimmed (lg0 c (t_di s)) (length (after P (walk_of s)))
    (tag (n_on_large (t_di s)) (after P (walk_of s)) ++
     lg_of (N1 ++ upto (fun j => ext_nodes D l (S k + j)%nat) (18 - k))) s s2).
  { rewrite EL. eapply trimmed_perm; [exact EP|]. eapply trimmed_trans; [exact T1|].
    rewrite <- (lg_mask_e c _ _ (tr_mask _ _ _ _ _ T1)).
    now apply trimmed_same. }
  split; [exact T2|].
  assert (L2 : length (n_ext (t_di s2)) = 19%nat) by (rewrite El, C1; exact Hlen).
  assert (Lle : forall j, (j <= k)%nat -> ext_at (n_ext (t_di s2)) j = ext_at (n_ext (t_di s)) j)
    by (intros j Hj; rewrite El; apply C2; lia).
  assert (Lgt : forall j, (k < j < 19)%nat -> is_hole (ext_at (n_ext (t_di s2)) j) = true)
    by (intros j Hj; rewrite El; apply C3; lia).
  assert (CW : walk_of s2 = until P (walk_of s)) by (apply (cut_file_walk s s1 s2 k P e N1 K); auto).
  assert (CN : nodes_of s ≡ₚ (N1 ++ upto (fun j => ext_nodes D l (S k + j)%nat) (18 - k)) ++ nodes_of s2)
    by (apply (cut_file_nodes s s1 s2 k P e N1 K); auto).
  constructor; [exact CW|exact CN|]. constructor; [exact L2| | |].
  - intros j Hj Hh. apply (cut_file_trees s s1 s2 k e N1 K); auto;
      [exact (tr_mask _ _ _ _ _ T2)|exact (tr_mask _ _ _ _ _ T1)].
  - pose proof (fo_nodup _ HF) as ND. fold (nodes_of s) in ND. rewrite CN in ND. now apply NoDup_app in ND as (_ & _ & ?).
  - assert (Eol : n_on_large (t_di s2) = n_on_large (t_di s)) by exact (f_equal n_on_large (tr_mask _ _ _ _ _ T2)).
    rewrite Eol. eapply owned_trimmed; [|exact T2]. eapply owned_perm; [|exact (fo_owned _ HF)].
    apply file_parts; assumption.
Qed.
End Loop.
