(* ===== verification/ReclaimThms.v ===== *)
(** * The reclaim thread

    [sam_free_indirect_map] on a queued entry whose end lies in the direct extents, or of
    length 0: it frees the extents after the end and all trees below them. *)

From S2P Require Import Prelude Dau Extent Monad FileTree Truncate TruncTree TruncFree TruncPath TruncFile TruncThms.

Section Reclaim.
Context {St : Type} `{!FileEnv St} `{!BlockSink St}.
Context (rd : ext -> Z).

Definition with_env (s : ts St) (x : St) : ts St :=
  mk_ts (t_di s) (t_disk s) (t_next s) (t_upd s) (t_fsck s) x.

Lemma with_env_twice (s : ts St) (x y : St) : with_env (with_env s x) y = with_env s y.
Proof. reflexivity. Qed.

Lemma with_env_id (s : ts St) : with_env s (t_env s) = s.
Proof. now destruct s. Qed.

(** A call that frees [l] and does nothing else. *)
Definition only_frees {A : Type} (l : list (btype * ext)) (a : A) (m : M (ts St) A) (s : ts St) : Prop :=
  exists x, m s = Done a (with_env s x) /\ frees l (t_env s) x.

Lemma owned_env (s : ts St) (x : St) (l1 l2 : list (btype * ext)) :
  owned s (l1 ++ l2) -> frees l1 (t_env s) x -> owned (with_env s x) l2.
Proof. apply (owned_frees s (with_env s x)). Qed.

Lemma only_frees_bind {A B : Type} (l1 l2 : list (btype * ext)) (a : A) (b : B) (m : M (ts St) A)
    (f : A -> M (ts St) B) (s : ts St) :
  owned s (l1 ++ l2) -> only_frees l1 a m s ->
  (forall x, owned (with_env s x) l2 -> only_frees l2 b (f a) (with_env s x)) ->
  only_frees (l1 ++ l2) b (m ≫= f) s.
Proof.
  intros Ho (x & E & F) H. destruct (H x (owned_env s x l1 l2 Ho F)) as (y & E2 & F2).
  exists y. split; [rewrite (bind_done _ _ _ _ _ E); exact E2|]. eapply frees_trans; eauto.
Qed.

Lemma only_frees_perm {A : Type} (l1 l2 : list (btype * ext)) (a : A) (m : M (ts St) A) (s : ts St) :
  l1 ≡ₚ l2 -> only_frees l1 a m s -> only_frees l2 a m s.
Proof. intros E (x & H & F). exists x. split; [exact H|]. eapply frees_perm; eauto. Qed.

Lemma only_frees_ret {A : Type} (a : A) (s : ts St) : only_frees [] a (mret a) s.
Proof. exists (t_env s). split; [now rewrite with_env_id|apply frees_nil]. Qed.

(** One block. *)
Lemma only_frees_one {A : Type} (bt : btype) (e : ext) (a : A) (s : ts St) :
  owned s [(bt, e)] -> only_frees [(bt, e)] a (env (sam_free_block bt e);; mret a) s.
Proof.
  intros U%owned_head. destruct (free_spec _ _ _ U) as (x & Ex & P & Hx).
  exists x. split.
  - erewrite bind_done; [reflexivity|]. unfold env. now rewrite Ex.
  - now apply frees_one.
Qed.

(** ** Trees *)

Lemma rel_loop_frees (child : ext -> M (ts St) (Z * ext)) (B : ext -> list (btype * ext)) (D : disk)
    (Pre : ext -> Prop) (n : nat) (b : ind_block) (s : ts St) :
  (forall s1 e, t_disk s1 = D -> Pre e -> owned s1 (B e) -> only_frees (B e) (0, hole) (child e) s1) ->
  t_disk s = D -> (n <= dext)%nat -> length (ie_extent b) = dext ->
  (forall j, (j < n)%nat -> is_hole (ent b j) = false -> Pre (ent b j)) ->
  owned s (upto (fun j => if is_hole (ent b j) then [] else B (ent b j)) n) ->
  exists b', only_frees (upto (fun j => if is_hole (ent b j) then [] else B (ent b j)) n) (0, b')
    (rel_loop n child (-1) b 0) s.
Proof.
  intros HC. revert b s. induction n as [|n IH]; intros b s HD Hn Hl Hpre Ho.
  - exists b. apply only_frees_ret.
  - cbn [rel_loop upto] in *. destruct (Z.eqb_spec (-1) (Z.of_nat n)); [lia|].
    destruct (is_hole (ent b n)) eqn:Eh.
    + rewrite app_nil_r in *. apply IH; auto. lia.
    + set (b1 := set_ent n hole b).
      assert (Ee : forall j, (j < n)%nat -> ent b1 j = ent b j).
      { intros j Hj. unfold b1. rewrite ent_set by (auto; lia). now rewrite decide_False by lia. }
      assert (Eu : upto (fun j => if is_hole (ent b1 j) then [] else B (ent b1 j)) n =
        upto (fun j => if is_hole (ent b j) then [] else B (ent b j)) n)
        by (apply upto_ext; intros j Hj; now rewrite Ee).
      pose proof (owned_perm _ _ _ (Permutation_app_comm _ _) Ho) as Ho'.
      destruct (HC s (ent b n) HD) as (x & Ex & Fx); [apply Hpre; [lia|exact Eh]|apply (owned_sub _ _ _ Ho')|].
      pose proof (owned_env s x _ _ Ho' Fx) as Ho2. rewrite <- Eu in Ho2.
      destruct (IH b1 (with_env s x) HD ltac:(lia)) as (b' & y & Ey & Fy); [| |exact Ho2|].
      * unfold b1. cbn. now rewrite length_insert.
      * intros j Hj. rewrite Ee by exact Hj. apply Hpre. lia.
      * exists b'. rewrite Eu in Fy. exists y. split.
        { rewrite (bind_done _ _ _ _ _ Ex). exact Ey. }
        eapply frees_perm; [apply Permutation_app_comm|]. eapply frees_trans; eauto.
Qed.

Definition rvalid (r : rel_blks) (level : nat) (b : ind_block) : bool := rel_validate r level b =? 0.

Lemma rel_tree_frees (r : rel_blks) (kp : list Z) (D : disk) (level : nat) (s : ts St) (e : ext) :
  (forall j, kptr_at kp j = -1) -> t_disk s = D -> tree_ok rd (rvalid r) D level e -> owned s (blks D level e) ->
  only_frees (blks D level e) (0, hole) (sam_free_indirect_block rd r level kp e) s.
Proof.
  intros Hkp. revert s e. induction level as [|l IH]; intros s e HD Hok Ho.
  all: pose proof (owned_perm _ _ _ (blks_last D _ e) Ho) as Ho2; destruct (owned_sub _ _ _ Ho2) as [Oc _].
  all: destruct Hok as (Hr & Hv & Hlen & Hc); apply Z.eqb_eq in Hv.
  all: cbn [sam_free_indirect_block]; rewrite Hr; cbn [Z.eqb negb].
  all: eapply only_frees_perm; [symmetry; apply blks_last|].
  - destruct (rel_loop_frees (fun e' => env (sam_free_block LG e');; mret (0, hole)) (fun x => [(LG, x)]) D
      (fun _ => True) dext (blk_at D e) s) as (b' & x & Ex & Fx);
      [intros s1 x _ _ Ox; now apply only_frees_one|exact HD|lia|exact Hlen|auto| |].
    { rewrite (upto_ext _ (blks_ent D 0 (blk_at D e))); [exact Oc|]. intros i _. unfold blks_ent, walk_ent, nodes_ent.
      now destruct (is_hole _). }
    rewrite (upto_ext _ (blks_ent D 0 (blk_at D e))) in Fx
      by (intros i _; unfold blks_ent, walk_ent, nodes_ent; now destruct (is_hole _)).
    pose proof (owned_env s x _ _ Ho2 Fx) as Ox. destruct (only_frees_one LG e (0, hole) _ Ox) as (y & Ey & Fy).
    exists y. split; [|eapply frees_trans; eauto].
    rewrite (bind_done _ _ s s s) by reflexivity. rewrite HD, Hv, Hkp. cbn [Z.eqb negb].
    rewrite (bind_done _ _ _ _ _ Ex). exact Ey.
  - destruct (rel_loop_frees (sam_free_indirect_block rd r l kp) (blks D l) D
      (tree_ok rd (rvalid r) D l) dext (blk_at D e) s) as (b' & x & Ex & Fx);
      [intros s1 x HD1 Hx Ox; now apply IH|exact HD|lia|exact Hlen|exact Hc| |].
    { rewrite (upto_ext _ (blks_ent D (S l) (blk_at D e))); [exact Oc|]. intros i _. unfold blks_ent, walk_ent, nodes_ent, blks.
      destruct (is_hole _); [reflexivity|]. now rewrite snd_shift. }
    rewrite (upto_ext _ (blks_ent D (S l) (blk_at D e))) in Fx
      by (intros i _; unfold blks_ent, walk_ent, nodes_ent, blks; destruct (is_hole _); [reflexivity|]; now rewrite snd_shift).
    pose proof (owned_env s x _ _ Ho2 Fx) as Ox. destruct (only_frees_one LG e (0, hole) _ Ox) as (y & Ey & Fy).
    exists y. split; [|eapply frees_trans; eauto].
    rewrite (bind_done _ _ s s s) by reflexivity. rewrite HD, Hv, Hkp. cbn [Z.eqb negb].
    rewrite (bind_done _ _ _ _ _ Ex). exact Ey.
Qed.

(** ** The extents of an entry *)

Definition rel_part (D : disk) (r : rel_blks) (exts : list ext) (lo n : nat) : list (btype * ext) :=
  upto (fun j => ext_blks D (r_on_large r) exts (lo + j)%nat) n.

Definition rel_trees (D : disk) (r : rel_blks) (exts : list ext) : Prop :=
  forall j, (16 <= j < 19)%nat -> is_hole (ext_at exts j) = false ->
    tree_ok rd (rvalid r) D (j - 16) (ext_at exts j).

(** One extent. *)
Lemma rel_ext_frees (r : rel_blks) (kp : list Z) (de : Z) (j : nat) (exts : list ext) (s : ts St) :
  (forall i, kptr_at kp i = -1) -> (j < 19)%nat -> r_length r = 0 \/ de <> Z.of_nat j ->
  rel_trees (t_disk s) r exts -> owned s (ext_blks (t_disk s) (r_on_large r) exts j) ->
  exists x, frees (ext_blks (t_disk s) (r_on_large r) exts j) (t_env s) x /\
    rel_map_loop (S j) rd r kp de exts 0 s =
    rel_map_loop j rd r kp de (if is_hole (ext_at exts j) then exts else <[j:=hole]> exts) 0 (with_env s x).
Proof.
  intros Hkp Hj Hde Htr Ho. cbn [rel_map_loop]. fold (ext_at exts j).
  destruct (is_hole (ext_at exts j)) eqn:Eh.
  - destruct (ext_hole (t_disk s) (r_on_large r) exts j Eh) as (_ & _ & ->).
    exists (t_env s). split; [apply frees_nil|]. rewrite with_env_id, Hkp. change (-1 =? -1) with true.
    rewrite orb_true_r. destruct (Z.ltb_spec (Z.of_nat j) NDEXT); [|reflexivity].
    destruct Hde as [->|Hde]; [reflexivity|]. destruct (Z.eqb_spec de (Z.of_nat j)); [lia|]. now rewrite andb_false_r.
  - destruct (Z.ltb_spec (Z.of_nat j) NDEXT) as [Hlt|Hge]; unfold NDEXT, NSDEXT, NLDEXT in *.
    + assert (E : negb (r_length r =? 0) && (de =? Z.of_nat j) = false).
      { destruct Hde as [->|Hde]; [reflexivity|]. destruct (Z.eqb_spec de (Z.of_nat j)); [lia|]. now rewrite andb_false_r. }
      rewrite E. fold NSDEXT. fold (bt_of (r_on_large r) j).
      assert (Eb : ext_blks (t_disk s) (r_on_large r) exts j = [(bt_of (r_on_large r) j, ext_at exts j)]).
      { unfold ext_blks, ext_walk, ext_nodes. rewrite Eh. destruct (Nat.ltb_spec j 16); [reflexivity|lia]. }
      rewrite Eb in *. destruct (only_frees_one _ _ tt s Ho) as (x & Ex & Fx). exists x. split; [exact Fx|].
      unfold mbind, M_bind in Ex |- *. destruct (env _ s); [|discriminate]. now injection Ex as <-.
    + destruct (ext_tree (t_disk s) (r_on_large r) exts j ltac:(lia) Eh) as (_ & _ & Eb). rewrite Eb in *.
      replace (Z.to_nat (Z.of_nat j - (8 + 8))) with (j - 16)%nat by lia.
      destruct (rel_tree_frees r kp (t_disk s) (j - 16) s (ext_at exts j) Hkp eq_refl) as (x & Ex & Fx);
        [apply Htr; [lia|exact Eh]|exact Ho|].
      exists x. split; [exact Fx|]. now rewrite (bind_done _ _ _ _ _ Ex).
Qed.

Lemma rel_map_run (r : rel_blks) (kp : list Z) (de : Z) (lo n : nat) (exts : list ext) (s : ts St) :
  (forall i, kptr_at kp i = -1) -> (lo + n <= 19)%nat -> r_length r = 0 \/ de < Z.of_nat lo ->
  length exts = 19%nat -> rel_trees (t_disk s) r exts -> owned s (rel_part (t_disk s) r exts lo n) ->
  exists x exts', frees (rel_part (t_disk s) r exts lo n) (t_env s) x /\
    rel_map_loop (lo + n) rd r kp de exts 0 s = rel_map_loop lo rd r kp de exts' 0 (with_env s x).
Proof.
  intros Hkp. revert exts s. induction n as [|n IH]; intros exts s Hn Hde Hlen Htr Ho.
  - rewrite Nat.add_0_r. exists (t_env s), exts. split; [apply frees_nil|]. now rewrite with_env_id.
  - rewrite Nat.add_succ_r. unfold rel_part in *. cbn [upto] in *.
    pose proof (owned_perm _ _ _ (Permutation_app_comm _ _) Ho) as Ho'.
    destruct (rel_ext_frees r kp de (lo + n) exts s Hkp) as (x & Fx & Ex);
      [lia|destruct Hde as [Hde|Hde]; [now left|right; lia]|exact Htr|apply (owned_sub _ _ _ Ho')|].
    set (exts1 := if is_hole (ext_at exts (lo + n)) then exts else <[(lo + n)%nat:=hole]> exts) in *.
    assert (Ee : forall j, j <> (lo + n)%nat -> ext_at exts1 j = ext_at exts j).
    { intros j Hj. unfold exts1. destruct (is_hole _); [reflexivity|].
      rewrite ext_at_insert by lia. now rewrite decide_False. }
    assert (Ep : forall j, (j < n)%nat ->
      ext_blks (t_disk s) (r_on_large r) exts1 (lo + j) = ext_blks (t_disk s) (r_on_large r) exts (lo + j)).
    { intros j Hj. apply ext_parts, Ee. lia. }
    destruct (IH exts1 (with_env s x)) as (y & exts' & Fy & Ey); [lia|exact Hde| | | |].
    + unfold exts1. destruct (is_hole _); [exact Hlen|now rewrite length_insert].
    + intros j Hj Hh. destruct (decide (j = lo + n)%nat) as [->|Hne].
      * unfold exts1 in Hh. destruct (is_hole (ext_at exts (lo + n))) eqn:E; [congruence|].
        rewrite ext_at_insert, decide_True in Hh by (auto; lia). discriminate.
      * rewrite Ee in Hh |- * by exact Hne. now apply Htr.
    + cbn [t_disk with_env]. rewrite (upto_ext _ _ n Ep). eapply owned_env; eauto.
    + cbn [t_disk with_env] in Fy. rewrite (upto_ext _ _ n Ep) in Fy. exists y, exts'. split.
      * eapply frees_perm; [apply Permutation_app_comm|]. eapply frees_trans; eauto.
      * rewrite Ex, Ey. now rewrite with_env_twice.
Qed.

(** All extents after [de], which is a direct one, or all for length 0. *)
Lemma rel_map_frees (r : rel_blks) (kp : list Z) (de : Z) (lo : nat) (s : ts St) :
  (forall i, kptr_at kp i = -1) ->
  (r_length r = 0 /\ lo = O \/ r_length r <> 0 /\ 0 <= de < NDEXT /\ Z.of_nat lo = de + 1) ->
  length (r_ext r) = 19%nat -> rel_trees (t_disk s) r (r_ext r) ->
  owned s (rel_part (t_disk s) r (r_ext r) lo (19 - lo)) ->
  only_frees (rel_part (t_disk s) r (r_ext r) lo (19 - lo)) 0
    (rel_map_loop (Z.to_nat NOEXT) rd r kp de (r_ext r) 0) s.
Proof.
  intros Hkp Hlo Hlen Htr Ho. unfold NDEXT, NSDEXT, NLDEXT in *.
  destruct (rel_map_run r kp de lo (19 - lo) (r_ext r) s Hkp) as (x & exts' & Fx & Ex);
    [lia|destruct Hlo as [[-> _]|(_ & _ & ?)]; [now left|right; lia]|exact Hlen|exact Htr|exact Ho|].
  change (Z.to_nat NOEXT) with 19%nat. replace (lo + (19 - lo))%nat with 19%nat in Ex by lia.
  exists x. split; [|exact Fx]. rewrite Ex. destruct Hlo as [[_ ->]|(Hl & Hde & Elo)]; [reflexivity|].
  destruct lo as [|j]; [lia|]. cbn [rel_map_loop]. unfold NDEXT, NSDEXT, NLDEXT.
  destruct (Z.ltb_spec (Z.of_nat j) (8 + 8)); [|lia].
  destruct (Z.eqb_spec (r_length r) 0); [contradiction|]. destruct (Z.eqb_spec de (Z.of_nat j)); [reflexivity|lia].
Qed.
End Reclaim.
