(* ===== verification/TruncDirect.v ===== *)
(** * Truncation in the direct extents

    [sam_reduce_ino] clears the extents after the end and queues the old ones for the
    reclaim thread; together they do what the indirect case does at once. *)

From S2P Require Import Prelude Dau Extent Monad FileTree Truncate TruncTree TruncFree TruncPath TruncFile TruncThms ReclaimThms.

(** Blocks of the data blocks at the positions of a walk. *)
Fixpoint wsum (c : tconf) (n : finode) (w : list (Z * ext)) : Z :=
  match w with [] => 0 | (p, _) :: w' => ext_blocks c n (Z.to_nat p) + wsum c n w' end.

Lemma wsum_app (c : tconf) (n : finode) (w1 w2 : list (Z * ext)) :
  wsum c n (w1 ++ w2) = wsum c n w1 + wsum c n w2.
Proof. induction w1 as [|[p x] w1 IH]; cbn; [reflexivity|]. rewrite IH. lia. Qed.

Lemma wsum_perm (c : tconf) (n : finode) (w1 w2 : list (Z * ext)) :
  w1 ≡ₚ w2 -> wsum c n w1 = wsum c n w2.
Proof.
  induction 1 as [|[p x] w1 w2 _ IH|[p x] [q y] w|w1 w2 w3 _ IH1 _ IH2]; cbn; lia.
Qed.

Lemma wsum_large (c : tconf) (n : finode) (w : list (Z * ext)) :
  (forall p x, (p, x) ∈ w -> 8 <= p) -> wsum c n w = Z.of_nat (length w) * lg_blocks c n.
Proof.
  induction w as [|[p x] w IH]; intros H; cbn [wsum length]; [lia|].
  rewrite IH by (intros q y Hq; apply (H q y); now right).
  assert (E : ext_blocks c n (Z.to_nat p) = lg_blocks c n); [|lia].
  pose proof (H p x ltac:(left)). unfold ext_blocks. fold (bt_of (n_on_large n) (Z.to_nat p)).
  rewrite bt_of_large by lia. reflexivity.
Qed.

(** The block count depends on the type, layout and partition of the file. *)
Lemma wsum_mask (c : tconf) (n n' : finode) (w : list (Z * ext)) :
  n_meta n = n_meta n' -> n_on_large n = n_on_large n' -> n_unit n = n_unit n' -> wsum c n w = wsum c n' w.
Proof.
  intros E1 E2 E3. induction w as [|[p x] w IH]; cbn; [reflexivity|]. rewrite IH. f_equal.
  unfold ext_blocks, dt_of. now rewrite E1, E2, E3.
Qed.

Lemma for_each_app {S A : Type} (l1 l2 : list A) (f : A -> M S unit) (s : S) :
  for_each (l1 ++ l2) f s = (for_each l1 f;; for_each l2 f) s.
Proof.
  revert s. induction l1 as [|x l1 IH]; intros s; [reflexivity|]. cbn [for_each app].
  unfold mbind, M_bind in *. destruct (f x s); [|reflexivity]. apply IH.
Qed.

Section Direct.
Context {St : Type} `{!FileEnv St} `{!BlockSink St}.
Context (rd : ext -> Z) (c : tconf).

(** The count of the file's blocks is right. *)
Definition blocks_ok (s : ts St) : Prop :=
  n_blocks (t_di s) mod 2 ^ 32 = wsum c (t_di s) (walk_of s) mod 2 ^ 32.

(** Only the inode differs. *)
Definition with_di (s : ts St) (n : finode) : ts St :=
  mk_ts n (t_disk s) (t_next s) (t_upd s) (t_fsck s) (t_env s).

Lemma count_kept_spec (n : finode) (m : nat) (D : disk) (s : ts St) :
  (m <= 16)%nat -> exists n', count_kept c n (Z.of_nat m - 1) s = Done tt (with_di s n') /\
    mask n' = mask (t_di s) /\
    n_blocks n' mod 2 ^ 32 = (n_blocks (t_di s) + wsum c n (upto (ext_walk D (n_ext n)) m)) mod 2 ^ 32.
Proof.
  unfold count_kept. replace (Z.to_nat (Z.of_nat m - 1 + 1)) with m by lia.
  induction m as [|m IH]; intros Hm.
  - exists (t_di s). split; [now destruct s|]. split; [reflexivity|]. cbn. f_equal. lia.
  - destruct IH as (n1 & E1 & M1 & B1); [lia|]. rewrite seq_S, for_each_app. rewrite (bind_done _ _ _ _ _ E1).
    cbn [for_each upto]. rewrite Nat.add_0_l. fold (ext_at (n_ext n) m).
    assert (Ew : ext_walk D (n_ext n) m = if is_hole (ext_at (n_ext n) m) then [] else [(Z.of_nat m, ext_at (n_ext n) m)]).
    { unfold ext_walk. destruct (is_hole _); [reflexivity|]. destruct (Nat.ltb_spec m 16); [reflexivity|lia]. }
    rewrite Ew, wsum_app. destruct (is_hole (ext_at (n_ext n) m)); cbn [negb when].
    + exists n1. split; [reflexivity|]. split; [exact M1|]. rewrite B1. f_equal. cbn. lia.
    + assert (Eb : (u32 (n_blocks n1 + ext_blocks c n m)) mod 2 ^ 32 =
        (n_blocks (t_di s) + (wsum c n (upto (ext_walk D (n_ext n)) m) + wsum c n [(Z.of_nat m, ext_at (n_ext n) m)])) mod 2 ^ 32).
      { unfold uwrap. rewrite Z.mod_mod by lia. rewrite Z.add_mod, B1, <- Z.add_mod by lia. f_equal.
        cbn [wsum]. rewrite Nat2Z.id. lia. }
      destruct (n_segs n).
      * eexists. split; [reflexivity|]. split; [exact M1|exact Eb].
      * eexists. split; [reflexivity|]. split; [exact M1|exact Eb].
Qed.

(** ** Writing the inode *)

(** The inode without the fields that [sam_sync_inode] sets. *)
Definition mask_s (n : finode) : finode := set_stride 0 (set_size 0 (set_offline false (set_changed n))).

(** The inode is written at the first or second attempt. *)
Definition upd_fine (s : ts St) : Prop :=
  match t_upd s with true :: true :: _ => False | _ => True end.

Lemma update_fine (s : ts St) : upd_fine s ->
  exists q, (failed ← sam_update_inode;
    if failed : bool then failed2 ← sam_update_inode; mret (if failed2 : bool then EIO else 0) else mret 0) s =
    Done 0 (mk_ts (t_di s) (t_disk s) (t_next s) q (t_fsck s) (t_env s)).
Proof.
  unfold upd_fine. destruct s as [n D nx [|[|] [|[|] q]] fs e]; cbn; intros H; try contradiction; eauto.
Qed.

Lemma sync_spec (len : Z) (tflag : sam_truncate_t) (s : ts St) :
  tflag <> SAM_PURGE -> n_segi (t_di s) = false -> upd_fine s ->
  exists s', sam_sync_inode len tflag s = Done 0 s' /\ mask_s (t_di s') = mask_s (t_di s) /\
    t_disk s' = t_disk s /\ t_next s' = t_next s /\ t_fsck s' = t_fsck s /\ frees [] (t_env s) (t_env s').
Proof.
  intros Hp Hs Hu. unfold sam_sync_inode.
  set (s0 := if len =? 0 then with_di s (set_stride 0 (t_di s)) else s).
  rewrite (bind_done _ _ s s0 tt) by (unfold s0; destruct (len =? 0); reflexivity).
  assert (H0 : mask_s (t_di s0) = mask_s (t_di s) /\ n_segi (t_di s0) = false /\ t_disk s0 = t_disk s /\
    t_next s0 = t_next s /\ t_fsck s0 = t_fsck s /\ t_env s0 = t_env s /\ t_upd s0 = t_upd s)
    by (unfold s0; destruct (len =? 0); repeat split; auto).
  clearbody s0. destruct H0 as (H1 & H2 & H3 & H4 & H5 & H6 & H7).
  assert (HA : exists s1, (match tflag with
      | SAM_TRUNCATE => n ← gets t_di; upd_di (set_size len);; when (n_segi n) (upd_di (upd_blocks (fun _ => 0)))
      | SAM_REDUCE => mret tt
      | SAM_RELEASE => n ← gets t_di; when (negb (n_offline n)) (env sam_quota_foffline);; upd_di (set_offline true)
      | SAM_PURGE => upd_di purged end) s0 = Done tt s1 /\
    mask_s (t_di s1) = mask_s (t_di s) /\ t_disk s1 = t_disk s /\ t_next s1 = t_next s /\ t_fsck s1 = t_fsck s /\
    t_upd s1 = t_upd s /\ frees [] (t_env s) (t_env s1)).
  { destruct tflag; [| | |contradiction].
    - rewrite (bind_done _ _ s0 s0 (t_di s0)) by reflexivity. rewrite H2. eexists. split; [reflexivity|].
      cbn. rewrite H6. repeat split; auto.
    - exists s0. rewrite H6. repeat split; auto.
    - rewrite (bind_done _ _ s0 s0 (t_di s0)) by reflexivity. destruct (n_offline (t_di s0)); cbn [negb when].
      + eexists. split; [reflexivity|]. cbn. rewrite H6. repeat split; auto.
      + destruct (foffline_spec (t_env s0)) as (x & Ex & P & U & O).
        erewrite bind_done; [|unfold env; rewrite Ex; reflexivity]. eexists. split; [reflexivity|]. cbn.
        rewrite H6 in *. do 5 (split; [auto|]). split; [cbn; now rewrite P|]. split; [intros y _; apply U|exact O]. }
  destruct HA as (s1 & E1 & A1 & A2 & A3 & A4 & A5 & A6). rewrite (bind_done _ _ _ _ _ E1).
  erewrite bind_done; [|reflexivity].
  destruct (update_fine (with_di s1 (set_changed (t_di s1)))) as (q & Eq);
    [unfold upd_fine in *; cbn; now rewrite A5|]. unfold with_di in Eq. rewrite Eq.
  eexists. split; [reflexivity|]. cbn. auto.
Qed.

(** ** Clearing the extents *)

Definition keep_ext (m : nat) (l : list ext) : list ext := take m l ++ replicate (19 - m) hole.

Lemma keep_ext_at (m j : nat) (l : list ext) :
  (m <= 19)%nat -> length l = 19%nat -> ext_at (keep_ext m l) j = if decide (j < m)%nat then ext_at l j else hole.
Proof.
  intros Hm Hl. unfold ext_at, keep_ext. destruct (decide (j < m)%nat) as [Hj|Hj].
  - rewrite lookup_app_l by (rewrite length_take; lia). now rewrite lookup_take_lt.
  - rewrite lookup_app_r by (rewrite length_take; lia).
    destruct (replicate (19 - m) hole !! (j - length (take m l))%nat) as [x|] eqn:E; [|reflexivity].
    apply lookup_replicate in E as [-> _]. reflexivity.
Qed.

Lemma reduce_direct_spec (m : nat) (len : Z) (tflag : sam_truncate_t) (s : ts St) :
  (m <= 16)%nat -> tflag <> SAM_PURGE -> n_direct_map (t_di s) = false -> n_segi (t_di s) = false ->
  length (n_ext (t_di s)) = 19%nat -> upd_fine s ->
  exists s', reduce_direct c (Z.of_nat m - 1) len tflag s = Done 0 s' /\
    t_next s' = rel_of (t_di s) len :: t_next s /\ t_disk s' = t_disk s /\ t_fsck s' = t_fsck s /\
    frees [] (t_env s) (t_env s') /\ n_ext (t_di s') = keep_ext m (n_ext (t_di s)) /\
    mask_s (mask_e (t_di s')) = mask_s (mask_e (t_di s)) /\
    n_blocks (t_di s') mod 2 ^ 32 =
      wsum c (t_di s) (upto (ext_walk (t_disk s) (n_ext (t_di s))) m) mod 2 ^ 32.
Proof.
  intros Hm Hp Hd Hs Hlen Hu. unfold reduce_direct. set (n := t_di s) in *. set (l := n_ext n) in *.
  rewrite (bind_done _ _ s s n) by reflexivity. erewrite bind_done; [|reflexivity].
  set (n1 := upd_blocks (fun _ => 0) n). change (mk_ts (upd_blocks (fun _ => 0) (t_di s)) (t_disk s) (t_next s)
    (t_upd s) (t_fsck s) (t_env s)) with (with_di s n1).
  set (n2 := if n_segs n then upd_seg_blocks (fun b => u32 (b - n_blocks n)) n1 else n1).
  rewrite (bind_done _ _ _ (with_di s n2) tt) by (unfold n2; destruct (n_segs n); reflexivity).
  rewrite Hd. replace (Z.to_nat (Z.of_nat m - 1 + 1)) with m by lia.
  set (n3 := upd_ext (fun _ => keep_ext m l) n2).
  rewrite (bind_done _ _ _ (with_di s n3) tt).
  2:{ unfold upd_di, modify, n3. cbn [t_di with_di]. f_equal. unfold with_di. cbn. f_equal. unfold upd_ext.
      assert (El : n_ext n2 = l) by (unfold n2; destruct (n_segs n); reflexivity). rewrite El. f_equal.
      unfold keep_ext. fold l. rewrite length_take, Hlen. do 2 f_equal. lia. }
  destruct (count_kept_spec n m (t_disk s) (with_di s n3) Hm) as (n4 & E4 & M4 & B4).
  rewrite (bind_done _ _ _ _ _ E4). unfold reduce_sync.
  assert (E3 : mask_e n3 = mask_e n) by (unfold n3, n2, n1; destruct (n_segs n); reflexivity).
  assert (E4' : mask_e n4 = mask_e n) by (rewrite <- E3; exact (f_equal (upd_ext (fun _ => [])) M4)).
  destruct (sync_spec len tflag (with_di (with_di s n3) n4)) as (s5 & E5 & M5 & D5 & X5 & F5 & R5);
    [exact Hp|cbn; rewrite <- Hs; exact (f_equal n_segi E4')|exact Hu|].
  rewrite (bind_done _ _ _ _ _ E5). cbn [Z.eqb negb]. rewrite (bind_done _ _ s5 s5 s5) by reflexivity.
  rewrite X5. erewrite bind_done; [|reflexivity]. eexists. split; [reflexivity|]. cbn [t_next t_disk t_fsck t_env t_di].
  split; [reflexivity|]. split; [exact D5|]. split; [exact F5|]. split; [exact R5|].
  assert (X : n_ext (t_di s5) = n_ext n4) by exact (f_equal n_ext M5).
  assert (Y : n_blocks (t_di s5) = n_blocks n4) by exact (f_equal n_blocks M5).
  assert (Z4 : n_ext n4 = n_ext n3) by exact (f_equal n_ext M4).
  split; [now rewrite X, Z4|]. split; [|rewrite Y, B4; unfold n3, n2, n1; destruct (n_segs n); reflexivity].
  transitivity (mask_s (mask_e n4)); [exact (f_equal mask_e M5)|now rewrite E4'].
Qed.

Lemma tree_ok_impl (v v' : nat -> ind_block -> bool) (D : disk) (level : nat) (e : ext) :
  (forall l b, v l b = true -> v' l b = true) -> tree_ok rd v D level e -> tree_ok rd v' D level e.
Proof.
  intros H. revert e. induction level as [|l IH]; intros e (Hr & Hv & Hl & Hc); cbn [tree_ok]; repeat split; auto.
Qed.

(** What is valid for the inode is valid for the queued entry. *)
Lemma rel_valid (n : finode) (len : Z) (level : nat) (b : ind_block) :
  valid0 n level b = true -> rvalid (rel_of n len) level b = true.
Proof.
  unfold valid0, rvalid, sam_validate_indirect_block, rel_validate. cbn.
  destruct (ie_ieno b =? Z.of_nat level); cbn; [|auto]. case_bool_decide; [auto|].
  unfold n_segs. destruct (n_seg_ino n); cbn; [|auto]. destruct (n_seg_ord n =? 0); cbn; [auto|discriminate].
Qed.

(** ** What is left of the file *)

Section Left.
Context (s s' : ts St) (m : nat) (P : Z).
Context (Hm : (m <= 16)%nat) (HP : P = Z.of_nat m - 1) (Hlen : length (n_ext (t_di s)) = 19%nat).
Context (ED : t_disk s' = t_disk s) (EX : n_ext (t_di s') = keep_ext m (n_ext (t_di s))).

Lemma left_ext (j : nat) :
  (j < m)%nat -> ext_walk (t_disk s') (n_ext (t_di s')) j = ext_walk (t_disk s) (n_ext (t_di s)) j.
Proof.
  intros Hj. rewrite ED, EX. apply (ext_parts _ true). rewrite keep_ext_at by (auto; lia). now rewrite decide_True.
Qed.

Lemma left_gone (j : nat) : (m <= j)%nat -> is_hole (ext_at (n_ext (t_di s')) j) = true.
Proof. intros Hj. rewrite EX, keep_ext_at by (auto; lia). now rewrite decide_False by lia. Qed.

Lemma left_walk_upto : walk_of s' = upto (ext_walk (t_disk s) (n_ext (t_di s))) m.
Proof.
  unfold walk_of, file_walk. rewrite (upto_nil _ 19 m); [apply upto_ext, left_ext|lia|].
  intros j Hj. apply (ext_hole _ true). apply left_gone. lia.
Qed.

Lemma left_parts :
  until P (walk_of s) = upto (ext_walk (t_disk s) (n_ext (t_di s))) m /\
  after P (walk_of s) = upto (fun j => ext_walk (t_disk s) (n_ext (t_di s)) (m + j)%nat) (19 - m).
Proof.
  unfold walk_of, file_walk. replace 19%nat with (m + (19 - m))%nat at 1 2 by lia. rewrite upto_add.
  rewrite (proj1 (until_app _ _ _)), (proj2 (until_app _ _ _)).
  assert (Es : ext_start m = Z.of_nat m) by (unfold ext_start; destruct (Nat.leb_spec m 16); [reflexivity|lia]).
  edestruct (until_all P (upto (ext_walk (t_disk s) (n_ext (t_di s))) m)) as [-> ->].
  { intros p x (j & Hj & Hp)%elem_of_upto. apply ext_walk_range in Hp. pose proof (ext_start_mono (S j) m Hj). lia. }
  edestruct (after_all P (upto (fun j => ext_walk (t_disk s) (n_ext (t_di s)) (m + j)%nat) (19 - m))) as [-> ->].
  { intros p x (j & Hj & Hp)%elem_of_upto. apply ext_walk_range in Hp.
    pose proof (ext_start_mono m (m + j) ltac:(lia)). lia. }
  now rewrite app_nil_r.
Qed.

Lemma left_nodes : nodes_of s' = [] /\
  nodes_of s = upto (fun j => ext_nodes (t_disk s) (n_ext (t_di s)) (m + j)%nat) (19 - m).
Proof.
  assert (H0 : forall (D : disk) (l : list ext) k, (k <= 16)%nat -> upto (ext_nodes D l) k = []).
  { intros D l k Hk. rewrite (upto_nil _ k 0); [reflexivity|lia|]. intros j Hj. unfold ext_nodes.
    destruct (Nat.ltb_spec j 16); [|lia]. now rewrite orb_true_r. }
  unfold nodes_of, file_nodes. split.
  - rewrite (upto_nil _ 19 m); [now apply H0|lia|]. intros j Hj. apply (ext_hole _ true). apply left_gone. lia.
  - replace 19%nat with (m + (19 - m))%nat at 1 by lia. rewrite upto_add. now rewrite H0.
Qed.
End Left.
End Direct.
