(* ===== verification/TruncMain.v ===== *)
(** * Truncation and reclaim together *)

From S2P Require Import Prelude Dau Extent Monad FileTree Truncate TruncTree TruncFree TruncPath TruncFile TruncThms ReclaimThms TruncDirect.

(** Position of a location in the file. *)
Definition loc_pos (l : loc) : Z := NDEXT + loc_index l.

(** The indices that [sam_get_extent] returns are the path to the location. *)
Lemma loc_path (de : Z) (kp : kptr_t) (l : loc) :
  result_loc de kp = l -> de = loc_ext l -> loc_ok l -> (forall i, l <> Direct i) ->
  exists k, de = Z.of_nat k /\ (16 <= k < 19)%nat /\
    path_ok (k - 16) [kptr0 kp; kptr1 kp; kptr2 kp; -1; -1] 0 /\
    loc_pos l = base (k - 16) + path_pos (k - 16) [kptr0 kp; kptr1 kp; kptr2 kp; -1; -1] 0.
Proof.
  intros <- Hde Hok Hnd. exists (Z.to_nat de). unfold result_loc, loc_pos in *.
  set (ks := [kptr0 kp; kptr1 kp; kptr2 kp; -1; -1]).
  assert (K0 : kptr_at ks 0 = kptr0 kp) by reflexivity. assert (K1 : kptr_at ks 1 = kptr1 kp) by reflexivity.
  assert (K2 : kptr_at ks 2 = kptr2 kp) by reflexivity.
  destruct (Z.ltb_spec de NDEXT) as [H|H]; [exfalso; eapply Hnd; reflexivity|].
  destruct (Z.eqb_spec de NDEXT) as [->|H1]; [|destruct (Z.eqb_spec de (NDEXT + 1)) as [->|H2]; [|subst de]];
    cbn [loc_ok loc_ext loc_index] in *; unfold idx_ok in *;
    [change (Z.to_nat NDEXT) with 16%nat|change (Z.to_nat (NDEXT + 1)) with 17%nat|
     change (Z.to_nat (NDEXT + 2)) with 18%nat];
    cbn [Nat.sub path_ok path_pos base span]; rewrite ?K0, ?K1, ?K2;
    unfold NDEXT, NSDEXT, NLDEXT; repeat split; lia.
Qed.

Lemma direct_loc (l : loc) : loc_ok l -> loc_pos l < NDEXT -> exists i, l = Direct i /\ 0 <= i < NDEXT.
Proof.
  intros Hok Hp. destruct l; cbn in Hok; unfold idx_ok, loc_pos in *; cbn in Hp; [eauto| | |]; unfold DEXT in *; lia.
Qed.

Section Main.
Context {St : Type} `{!FileEnv St} `{!BlockSink St}.
Context (rd : ext -> Z) (c : tconf).

(** The last position that stays when the file is cut to [len] bytes: a direct extent, or
    a block that is in the file. *)
Definition end_pos (s : ts St) (len P : Z) : Prop :=
  len = 0 /\ P = -1 \/
  0 < len /\ exists l, covers (args_layout (n_args c (t_di s) (len - 1))) l ((len - 1) / 1024) /\
    P = loc_pos l /\ (P < NDEXT \/ exists x, (P, x) ∈ walk_of s).

(** A file that may be truncated: not held, not preallocated, no segment index; its
    extents are well formed and counted, and the sizes of the striped groups of the file
    and of its first extent agree. *)
Record truncatable (s : ts St) (len : Z) (tflag : sam_truncate_t) : Prop := mk_truncatable {
  tc_file : file_ok rd s;
  tc_blocks : blocks_ok c s;
  tc_hold : n_hold (t_di s) = false;
  tc_direct : n_direct_map (t_di s) = false;
  tc_segi : n_segi (t_di s) = false;
  tc_purge : tflag <> SAM_PURGE;
  tc_upd : upd_fine s;
  tc_next : t_next s = [];
  tc_geo : geometry_ok (n_args c (t_di s) (len - 1));
  tc_vers : SAMFS_SBLKV2 <= c_vers c;
  tc_group : c_num_group c (snd (ext_at (n_ext (t_di s)) 0)) = c_num_group c (n_unit (t_di s))
}.

(** What truncation and reclaim have done. *)
Definition truncated (P : Z) (s s'' : ts St) : Prop :=
  exists N, cut_file rd P N s s'' /\
    pool (t_env s'') ≡ₚ ((tag (n_on_large (t_di s)) (after P (walk_of s)) ++ lg_of N) ≫= cells) ++ pool (t_env s) /\
    blocks_ok c s'' /\ (sink_ok (t_env s) -> sink_ok (t_env s'')).

(** ** The indirect case *)

Lemma after_large (P : Z) (w : list (Z * ext)) : NDEXT <= P -> forall p x, (p, x) ∈ after P w -> 8 <= p.
Proof.
  intros HP p x [H _]%list_elem_of_filter. cbn in H. unfold NDEXT, NSDEXT, NLDEXT in HP. lia.
Qed.

Lemma wsum_cut (n : finode) (P : Z) (w : list (Z * ext)) :
  NDEXT <= P -> wsum c n w = Z.of_nat (length (after P w)) * lg_blocks c n + wsum c n (until P w).
Proof.
  intros HP. rewrite (wsum_perm _ _ _ _ (walk_parts P w)), wsum_app, wsum_large; [reflexivity|].
  now apply after_large.
Qed.

Lemma free_extents_none (fuel : nat) (bn_shift : Z) (s : ts St) :
  t_next s = [] -> sam_free_extents fuel bn_shift rd c s = Done tt s.
Proof.
  intros E. destruct fuel; cbn [sam_free_extents]; rewrite (bind_done _ _ s s s) by reflexivity; now rewrite E.
Qed.

Lemma truncate_indirect (fuel : nat) (bn_shift len : Z) (tflag : sam_truncate_t) (l : loc) (x : ext) (s : ts St) :
  truncatable s len tflag -> 0 < len -> covers (args_layout (n_args c (t_di s) (len - 1))) l ((len - 1) / 1024) ->
  NDEXT <= loc_pos l -> (loc_pos l, x) ∈ walk_of s ->
  exists s' s'', sam_reduce_ino rd c len tflag s = Done 0 s' /\
    sam_free_extents fuel bn_shift rd c s' = Done tt s'' /\ truncated (loc_pos l) s s''.
Proof.
  intros T Hlen Hc HP Hx. destruct T as [HF HB Hh Hd Hs Hp Hu Hn G Hv Hg].
  destruct (get_extent_loc (n_args c (t_di s) (len - 1)) (mk_kptr (-1) (-1) (-1)) l G Hv) as (kp & r & E & El & Ede);
    [cbn; lia|exact Hc|].
  assert (Hnd : forall i, l <> Direct i).
  { intros i ->. destruct Hc as [[Hi1 Hi2] _]. unfold loc_pos in HP. cbn in HP. lia. }
  destruct (loc_path _ _ _ El Ede (proj1 Hc) Hnd) as (k & Ek & Hk & Hpath & Hpos).
  destruct (reduce_tree rd c _ k (loc_pos l) s x Hk Hpath Hpos HF Hx) as (s' & N & E' & T & C).
  assert (E0 : t_next s' = []) by (rewrite (tr_next _ _ _ _ _ T); exact Hn).
  exists s', s'. split; [|split; [now apply free_extents_none|]].
  - unfold sam_reduce_ino. rewrite (bind_done _ _ s s (t_di s)) by reflexivity.
    rewrite Hh, Hd. destruct (Z.eqb_spec len 0); [lia|]. cbn [negb andb]. rewrite E, Ek.
    destruct (Z.ltb_spec (Z.of_nat k) NDEXT) as [H1|_]; [unfold NDEXT, NSDEXT, NLDEXT in H1; lia|].
    erewrite bind_done; [exact E'|]. unfold assert.
    destruct (Z.ltb_spec (Z.of_nat k) NOEXT) as [_|H1]; [reflexivity|]. unfold NOEXT, NIEXT, NDEXT, NSDEXT, NLDEXT in H1. lia.
  - exists N. split; [exact C|]. split; [exact (proj1 (tr_env _ _ _ _ _ T))|].
    split; [|exact (proj2 (proj2 (tr_env _ _ _ _ _ T)))]. unfold blocks_ok in *.
    rewrite (cf_walk _ _ _ _ _ C), (tr_blocks _ _ _ _ _ T), Zminus_mod, HB, <- Zminus_mod.
    pose proof (tr_mask _ _ _ _ _ T) as M.
    rewrite (wsum_mask c (t_di s') (t_di s)) by (first [exact (f_equal n_meta M)|exact (f_equal n_on_large M)|exact (f_equal n_unit M)]).
    rewrite (wsum_cut (t_di s) (loc_pos l) (walk_of s) HP). f_equal. unfold lg0. lia.
Qed.

(** ** The direct case *)

Lemma direct_bn (s : ts St) (len : Z) (i : Z) (kp : kptr_t) :
  geometry_ok (n_args c (t_di s) (len - 1)) -> SAMFS_SBLKV2 <= c_vers c -> 0 < len ->
  covers (args_layout (n_args c (t_di s) (len - 1))) (Direct i) ((len - 1) / 1024) ->
  exists r, sam_get_extent (n_args c (t_di s) (len - 1)) kp = (0, kp, Some r) /\ rv_de r = i.
Proof.
  intros G Hv Hlen Hc. set (a := n_args c (t_di s) (len - 1)) in *.
  pose proof (args_layout_ok a G) as Hlo.
  assert (Hbn : Z.shiftr (ga_offset a) SAM_DEV_BSHIFT = (len - 1) / 1024)
    by (unfold SAM_DEV_BSHIFT; now rewrite Z.shiftr_div_pow2 by lia).
  destruct (get_extent_direct a kp G) as (r & E & Hd).
  { cbn. lia. }
  { rewrite Hbn, dir_blks_val by exact G. apply covers_direct_bound in Hc; [exact Hc|exact Hlo]. }
  exists r. split; [exact E|]. rewrite Hbn in Hd.
  destruct (get_extent_loc a kp (Direct i) G Hv) as (kp' & r' & E' & _ & Ede); [cbn; lia|exact Hc|].
  rewrite E in E'. injection E' as _ <-. exact Ede.
Qed.

(** The reclaim thread on the entry of the file. *)
Lemma reclaim_entry (fuel m : nat) (bn_shift len : Z) (s s' : ts St) :
  (m <= 16)%nat -> file_ok rd s -> n_direct_map (t_di s) = false ->
  (len = 0 /\ m = O \/ 0 < len /\ exists i, Z.of_nat m = i + 1 /\ 0 <= i < NDEXT /\
     geometry_ok (n_args c (t_di s) (len - 1)) /\ SAMFS_SBLKV2 <= c_vers c /\
     c_num_group c (snd (ext_at (n_ext (t_di s)) 0)) = c_num_group c (n_unit (t_di s)) /\
     covers (args_layout (n_args c (t_di s) (len - 1))) (Direct i) ((len - 1) / 1024)) ->
  t_next s' = [rel_of (t_di s) len] -> t_disk s' = t_disk s -> frees [] (t_env s) (t_env s') ->
  exists x, sam_free_extents (S fuel) bn_shift rd c s' =
      Done tt (mk_ts (t_di s') (t_disk s') [] (t_upd s') (t_fsck s') x) /\
    frees (part_blks s m (19 - m)) (t_env s) x.
Proof.
  intros Hm HF Hd Hlen En Ed Fr. set (r := rel_of (t_di s) len) in *.
  set (s1 := mk_ts (t_di s') (t_disk s') [] (t_upd s') (t_fsck s') (t_env s')).
  cbn [sam_free_extents]. rewrite (bind_done _ _ s' s' s') by reflexivity. rewrite En.
  rewrite (bind_done _ _ s' s1 tt) by reflexivity. change (r_direct_map r) with (n_direct_map (t_di s)). rewrite Hd.
  assert (Ho : owned s1 (part_blks s m (19 - m))).
  { pose proof (fo_owned _ _ HF) as Ho.
    apply (owned_perm _ _ _ (symmetry (upto_tag (t_disk s) (n_on_large (t_di s)) (n_ext (t_di s)) 0 19))) in Ho.
    change (upto (fun j => ext_blks (t_disk s) (n_on_large (t_di s)) (n_ext (t_di s)) (0 + j)) 19)
      with (upto (ext_blks (t_disk s) (n_on_large (t_di s)) (n_ext (t_di s))) 19) in Ho.
    replace 19%nat with (m + (19 - m))%nat in Ho by lia. rewrite upto_add in Ho. apply owned_sub in Ho as [_ Ho].
    exact (owned_frees s s1 [] _ Ho Fr). }
  assert (HR : only_frees (part_blks s m (19 - m)) 0 (sam_free_indirect_map rd c r) s1).
  { assert (Htr : rel_trees rd (t_disk s1) r (r_ext r)).
    { intros j Hj Hh. cbn [t_disk s1]. rewrite Ed. apply (tree_ok_impl rd (valid0 (t_di s))); [intros; now apply rel_valid|].
      now apply (fo_trees _ _ HF). }
    assert (Ep : part_blks s m (19 - m) = rel_part (t_disk s1) r (r_ext r) m (19 - m))
      by (unfold part_blks, rel_part; cbn [t_disk s1]; now rewrite Ed).
    rewrite Ep in *. unfold sam_free_indirect_map. change (r_length r) with len. destruct Hlen as [[-> ->]|(Hl & i & Ei & Hi & G & Hv & Hg & Hc)].
    - cbn [Z.eqb negb]. apply rel_map_frees; [|now left|exact (fo_len _ _ HF)|exact Htr|exact Ho].
      intros j. unfold kptr_at. now destruct j as [|[|[|j]]].
    - destruct (Z.eqb_spec len 0); [lia|]. cbn [negb].
      assert (Ea : r_args c r (len - 1) = n_args c (t_di s) (len - 1)) by (unfold r_args, n_args; cbn; f_equal; exact Hg).
      rewrite Ea. destruct (direct_bn s len i (mk_kptr (-1) (-1) (-1)) G Hv Hl Hc) as (v & Ev & Edv). rewrite Ev, Edv.
      apply rel_map_frees; [|right; cbn; repeat split; lia|exact (fo_len _ _ HF)|exact Htr|exact Ho].
      intros j. unfold kptr_at. now destruct j as [|[|[|j]]]. }
  destruct HR as (x & Ex & Fx). exists x. rewrite (bind_done _ _ s1 (with_env s1 x) 0 Ex).
  split; [destruct fuel; reflexivity|]. apply (frees_trans [] _ _ _ _ Fr Fx).
Qed.

Lemma truncate_direct (fuel m : nat) (bn_shift len : Z) (tflag : sam_truncate_t) (s : ts St) :
  truncatable s len tflag -> (m <= 16)%nat ->
  (len = 0 /\ m = O \/ 0 < len /\ exists i, Z.of_nat m = i + 1 /\ 0 <= i < NDEXT /\
     geometry_ok (n_args c (t_di s) (len - 1)) /\ SAMFS_SBLKV2 <= c_vers c /\
     c_num_group c (snd (ext_at (n_ext (t_di s)) 0)) = c_num_group c (n_unit (t_di s)) /\
     covers (args_layout (n_args c (t_di s) (len - 1))) (Direct i) ((len - 1) / 1024)) ->
  exists s' s'', reduce_direct c (Z.of_nat m - 1) len tflag s = Done 0 s' /\
    sam_free_extents (S fuel) bn_shift rd c s' = Done tt s'' /\ truncated (Z.of_nat m - 1) s s''.
Proof.
  intros [HF HB Hh Hd Hs Hp Hu Hn G Hv Hg] Hm Hlen. pose proof (fo_len _ _ HF) as Hl.
  destruct (reduce_direct_spec c m len tflag s Hm Hp Hd Hs Hl Hu) as (s1 & E1 & X1 & D1 & F1 & R1 & N1 & M1 & B1).
  rewrite Hn in X1. destruct (reclaim_entry fuel m bn_shift len s s1 Hm HF Hd Hlen X1 D1 R1) as (x & Ex & Fx).
  exists s1. eexists. split; [exact E1|]. split; [exact Ex|]. set (s2 := mk_ts _ _ _ _ _ x).
  assert (D2 : t_disk s2 = t_disk s) by exact D1. assert (N2 : n_ext (t_di s2) = keep_ext m (n_ext (t_di s))) by exact N1.
  destruct (left_parts s m (Z.of_nat m - 1) Hm eq_refl Hl) as [EU EA].
  destruct (left_nodes s s2 m Hm Hl N2) as [EN0 EN].
  pose proof (left_walk_upto s s2 m Hm Hl D2 N2) as EW.
  assert (Ep : part_blks s m (19 - m) ≡ₚ tag (n_on_large (t_di s)) (after (Z.of_nat m - 1) (walk_of s)) ++ lg_of (nodes_of s)).
  { rewrite EA, EN. apply upto_tag. }
  assert (CW : walk_of s2 = until (Z.of_nat m - 1) (walk_of s)) by (rewrite EW, EU; reflexivity).
  exists (nodes_of s). split; [|split; [|split; [|exact (proj2 (proj2 Fx))]]].
  - constructor; [exact CW|rewrite EN0, app_nil_r; reflexivity|]. constructor.
    + rewrite N2. unfold keep_ext. rewrite length_app, length_take, length_replicate. lia.
    + intros j Hj Hh'. rewrite (left_gone s s2 m Hm Hl N2) in Hh' by lia. discriminate.
    + fold (nodes_of s2). rewrite EN0. constructor.
    + assert (Eol : n_on_large (t_di s2) = n_on_large (t_di s)) by exact (f_equal n_on_large M1).
      rewrite Eol. pose proof (fo_owned _ _ HF) as Ho.
      apply (owned_perm _ _ (part_blks s m (19 - m) ++ file_blks (t_disk s2) (n_on_large (t_di s)) (n_ext (t_di s2)))) in Ho.
      2:{ rewrite Ep. apply file_parts; [exact CW|]. fold (nodes_of s) (nodes_of s2). rewrite EN0, app_nil_r. reflexivity. }
      exact (owned_frees s s2 _ _ Ho Fx).
  - rewrite <- Ep. exact (proj1 Fx).
  - unfold blocks_ok. rewrite EW.
    rewrite (wsum_mask c (t_di s2) (t_di s)) by (first [exact (f_equal n_meta M1)|exact (f_equal n_on_large M1)|exact (f_equal n_unit M1)]).
    exact B1.
Qed.

(** Both cases. *)
Lemma truncation (fuel : nat) (bn_shift len P : Z) (tflag : sam_truncate_t) (s : ts St) :
  truncatable s len tflag -> 0 <= len -> end_pos s len P ->
  exists s' s'', sam_reduce_ino rd c len tflag s = Done 0 s' /\
    sam_free_extents (S fuel) bn_shift rd c s' = Done tt s'' /\ truncated P s s''.
Proof.
  intros T Hl [[-> ->]|(Hlen & l & Hc & -> & H)].
  - destruct (truncate_direct fuel 0 bn_shift 0 tflag s T ltac:(lia) (or_introl (conj eq_refl eq_refl)))
      as (s' & s'' & E & R). exists s', s''. split; [|exact R].
    unfold sam_reduce_ino. rewrite (bind_done _ _ s s (t_di s)) by reflexivity. now rewrite (tc_hold _ _ _ T), andb_false_r.
  - destruct (Z.ltb_spec (loc_pos l) NDEXT) as [Hd|Hi].
    + destruct (direct_loc l (proj1 Hc) Hd) as (i & -> & Hi).
      destruct (truncate_direct fuel (Z.to_nat (i + 1)) bn_shift len tflag s T) as (s' & s'' & E & R).
      { unfold NDEXT, NSDEXT, NLDEXT in Hi. lia. }
      { right. split; [exact Hlen|]. exists i. split; [lia|]. split; [exact Hi|]. split; [apply T|]. split; [apply T|]. split; [apply T|exact Hc]. }
      replace (Z.of_nat (Z.to_nat (i + 1)) - 1) with i in * by lia.
      replace (loc_pos (Direct i)) with i by (unfold loc_pos; cbn; lia). exists s', s''. split; [|exact R].
      unfold sam_reduce_ino. rewrite (bind_done _ _ s s (t_di s)) by reflexivity.
      rewrite (tc_hold _ _ _ T), (tc_direct _ _ _ T). destruct (Z.eqb_spec len 0); [lia|]. cbn [negb andb].
      destruct (direct_bn s len i (mk_kptr (-1) (-1) (-1)) (tc_geo _ _ _ T) (tc_vers _ _ _ T) Hlen Hc)
        as (r & Er & Ed). rewrite Er, Ed. destruct (Z.ltb_spec i NDEXT) as [_|?]; [exact E|lia].
    + destruct H as [H|[x Hx]]; [lia|]. exact (truncate_indirect _ _ _ _ _ _ _ T Hlen Hc Hi Hx).
Qed.
End Main.
