(* ===== verification/MoveOrd.v ===== *)
(** * Files on a partition that is removed

    [sam_fseq_ord] (src/src/fs/samfs/psyscall.c) finds out whether a file has blocks below
    its indirect extents on a partition, or moves them to another one;
    [sam_move_ip_extents] moves the blocks of the direct extents. *)

From S2P Require Import Prelude Dau Extent Monad FileTree Truncate TruncTree TruncFree TruncFile TruncThms.

Section Code.
Context {St : Type} `{!FileEnv St}.

(** The loop of [sam_fseq_ord] over the indirect extents, from extent [i - 1] down:
    [error], [args.on_ord] and [doipupdate]. *)
Fixpoint fseq_loop (i : nat) (rd : ext -> Z) (c : tconf) (cmd : ib_cmd) (error : Z) (on_ord update : bool)
  : M (ts St) (Z * bool * bool) :=
  match i with
  | O => mret (error, on_ord, update)
  | S j =>
      if Z.of_nat j <? NDEXT then mret (error, on_ord, update)
      else
        n ← gets t_di;
        let e := default hole (n_ext n !! j) in
        if is_hole e then fseq_loop j rd c cmd error on_ord update
        else
          let update1 := match cmd with SAM_MOVE_ORD ord _ => if ord =? snd e then true else update
                                      | _ => update end in
          let set := Z.of_nat j =? NDEXT in
          let ik := if set then O else Z.to_nat (NIEXT - 1) in
          r ← sam_proc_indirect_block rd c (Z.to_nat (Z.of_nat j - NDEXT)) cmd (replicate 5 (-1)) ik e set;
          let '(error1, e1, _) := r in
          upd_di (upd_ext (insert j e1));;
          if error1 =? ECANCELED then mret (0, true, update1)
          else fseq_loop j rd c cmd error1 (match cmd with SAM_FIND_ORD _ => false | _ => on_ord end) update1
  end.

(** The direct extents, from [i] on, of a file that is not preallocated. *)
Fixpoint move_ip_loop (left : nat) (i : nat) (ord : Z) (error : Z) (update : bool) : M (ts St) (Z * bool) :=
  match left with
  | O => mret (error, update)
  | S left' =>
      n ← gets t_di;
      let e := default hole (n_ext n !! i) in
      if negb (is_hole e) && (snd e =? ord) then
        let bt := if n_on_large n || (NSDEXT <=? Z.of_nat i) then LG else SM in
        r ← env (sam_allocate_and_copy_extent (n_unit n) bt (dt_of n) e);
        let '(error1, e1) := r in
        if error1 =? 0 then
          upd_di (upd_ext (insert i e1));;
          env (sam_free_block bt e);;
          move_ip_loop left' (S i) ord error1 true
        else move_ip_loop left' (S i) ord error1 update
      else move_ip_loop left' (S i) ord error update
  end.

Definition sam_move_ip_extents (ord : Z) : M (ts St) (Z * bool) :=
  move_ip_loop (Z.to_nat NDEXT) 0 ord 0 false.
End Code.

(** ** Finding an ordinal *)

(** The partitions of the blocks of a tree. *)
Definition ords (D : disk) (level : nat) (e : ext) : list Z :=
  ((walk D level e).*2 ++ nodes D level e).*2.

(** Those of an entry in a block of [level]. *)
Definition ords_ent (D : disk) (level : nat) (x : ext) : list Z :=
  match level with O => [snd x] | S l => ords D l x end.

Lemma ords_elem (D : disk) (level : nat) (e : ext) (ord : Z) :
  ord ∈ ords D level e <->
  ord = snd e \/ exists i, (i < dext)%nat /\ is_hole (ent (blk_at D e) i) = false /\
    ord ∈ ords_ent D level (ent (blk_at D e) i).
Proof.
  unfold ords. rewrite fmap_app, elem_of_app, walk_eq, nodes_eq, !fmap_cons, elem_of_cons, !fmap_upto, !elem_of_upto.
  assert (H : forall i, ord ∈ snd <$> (walk_ent D level (blk_at D e) i).*2 \/
      ord ∈ snd <$> nodes_ent D level (blk_at D e) i <->
    is_hole (ent (blk_at D e) i) = false /\ ord ∈ ords_ent D level (ent (blk_at D e) i)).
  { intros i. unfold walk_ent, nodes_ent, ords_ent, ords. destruct (is_hole (ent (blk_at D e) i)); cbn [fmap list_fmap].
    - split; [intros [H|H]; inversion H|intros [H _]; discriminate].
    - destruct level; cbn [fmap list_fmap]; rewrite ?snd_shift, ?fmap_app, ?elem_of_app, ?elem_of_nil; tauto. }
  split.
  - intros [(i & Hi & Hx)|[->|(i & Hi & Hx)]]; [right|now left|right]; exists i; split; auto; apply H; auto.
  - intros [->|(i & Hi & Hx)]; [auto|]. apply H in Hx as [Hx|Hx]; [left; eauto|right; right; eauto].
Qed.

Section Find.
Context {St : Type} `{!FileEnv St}.
Context (rd : ext -> Z) (c : tconf) (ord : Z).

Definition found (b : bool) : Z := if b then ECANCELED else 0.

(** The entries below [n] that are not holes and satisfy [f]. *)
Fixpoint any_below (f : ext -> bool) (b : ind_block) (n : nat) : bool :=
  match n with
  | O => false
  | S j => (negb (is_hole (ent b j)) && f (ent b j)) || any_below f b j
  end.

Lemma any_below_true (f : ext -> bool) (b : ind_block) (n : nat) :
  any_below f b n = true <-> exists i, (i < n)%nat /\ is_hole (ent b i) = false /\ f (ent b i) = true.
Proof.
  induction n as [|j IH]; cbn [any_below].
  - split; [discriminate|intros (i & Hi & _); lia].
  - rewrite orb_true_iff, andb_true_iff, negb_true_iff, IH. split.
    + intros [[H1 H2]|(i & Hi & H)]; [exists j; auto with lia|exists i; split; [lia|exact H]].
    + intros (i & Hi & H1 & H2). destruct (decide (i = j)) as [->|]; [auto|right; exists i; split; [lia|auto]].
Qed.

Lemma find_data (n : nat) (keep : bool) (b : ind_block) (bw : bool) (s : ts St) :
  data_loop n c (SAM_FIND_ORD ord) keep (-1) b 0 bw s =
  Done (found (any_below (fun x => snd x =? ord) b n), b, bw) s.
Proof.
  induction n as [|j IH]; cbn [data_loop any_below]; [reflexivity|].
  destruct (is_hole (ent b j)); cbn [negb andb orb]; [exact IH|].
  assert (E : keep && (Z.of_nat j <=? -1) = false) by (destruct (Z.leb_spec (Z.of_nat j) (-1)); [lia|apply andb_false_r]).
  rewrite E. destruct (snd (ent b j) =? ord); [reflexivity|exact IH].
Qed.

Lemma find_nodes (n : nat) (child : ext -> bool -> M (ts St) (Z * ext * bool)) (f : ext -> bool) (top : bool)
    (b : ind_block) (set reset : bool) (s : ts St) :
  (n <= length (ie_extent b))%nat ->
  (forall j set1, (j < n)%nat -> is_hole (ent b j) = false ->
     exists set2, child (ent b j) set1 s = Done (found (f (ent b j)), ent b j, set2) s) ->
  exists set', node_loop n child top (-1) b set reset 0 s = Done (found (any_below f b n), b, set') s.
Proof.
  revert set reset. induction n as [|j IH]; intros set reset Hn Hc; cbn [node_loop any_below]; [now exists set|].
  destruct (is_hole (ent b j)) eqn:Eh; cbn [negb andb orb]; [apply IH; [lia|auto]|].
  assert (E : (Z.of_nat j <=? -1) = false) by (apply Z.leb_gt; lia). rewrite E, !andb_false_r.
  destruct (Hc j set ltac:(lia) Eh) as [set2 Ec]. rewrite (bind_done _ _ _ _ _ Ec).
  assert (Es : set_ent j (ent b j) b = b).
  { destruct (lookup_lt_is_Some_2 (ie_extent b) j ltac:(lia)) as [x Ex]. unfold set_ent, ent. rewrite Ex. cbn.
    rewrite list_insert_id by exact Ex. now destruct b. }
  rewrite Es. destruct (f (ent b j)); cbn [found Z.eqb ECANCELED orb]; [now exists set2|]. apply IH; [lia|auto].
Qed.

(** A well-formed tree is searched without a change. *)
Lemma find_tree (level : nat) (kp : list Z) (ik : nat) (e : ext) (set : bool) (s : ts St) :
  (forall i, kptr_at kp i = -1) -> ok rd (t_di s) (t_disk s) level e ->
  exists set', sam_proc_indirect_block rd c level (SAM_FIND_ORD ord) kp ik e set s =
    Done (found (bool_decide (ord ∈ ords (t_disk s) level e)), e, set') s.
Proof.
  intros Hk. revert ik e set. induction level as [|l IH]; intros ik e set Hok;
    rewrite (proc_start rd c (t_di s) (t_disk s)) by (exact Hok || (split; reflexivity));
    pose proof (ok_length _ _ _ _ _ Hok) as Hl; set (b := blk_at (t_disk s) e) in *; rewrite Hk.
  - rewrite (bind_done _ _ _ _ _ (find_data _ _ _ _ _)). exists set. cbn [ib_finish]. unfold mret, M_ret. do 3 f_equal.
    destruct (Z.eqb_spec (snd e) ord) as [He|He].
    + rewrite bool_decide_true; [reflexivity|]. apply ords_elem. auto.
    + f_equal. apply eq_bool_prop_intro. rewrite bool_decide_spec, Is_true_true, any_below_true, ords_elem.
      split; [intros (i & Hi & Hh & Hx); right; exists i; split; [exact Hi|split; [exact Hh|]];
        apply Z.eqb_eq in Hx; apply list_elem_of_singleton; now symmetry|].
      intros [Hx|(i & Hi & Hh & Hx)]; [congruence|]. exists i. split; [exact Hi|]. split; [exact Hh|].
      apply Z.eqb_eq. apply list_elem_of_singleton in Hx. now symmetry.
  - cbv zeta. destruct (find_nodes dext (sam_proc_indirect_block rd c l (SAM_FIND_ORD ord) kp (S ik))
      (fun x => bool_decide (ord ∈ ords (t_disk s) l x)) (Nat.eqb ik 0) b
      (if (Nat.eqb (S l) 1) && set then false else set) ((Nat.eqb (S l) 1) && set) s) as [set' E]; [lia| |].
    { intros j set1 Hj Hh. apply IH. apply (ok_child rd (t_di s) (t_disk s)); auto. }
    rewrite (bind_done _ _ _ _ _ E). exists set'. cbn [ib_finish]. unfold mret, M_ret. do 3 f_equal.
    destruct (Z.eqb_spec (snd e) ord) as [He|He].
    + rewrite bool_decide_true; [reflexivity|]. apply ords_elem. auto.
    + f_equal. apply eq_bool_prop_intro. rewrite bool_decide_spec, Is_true_true, any_below_true, ords_elem. fold b.
      split; [intros (i & Hi & Hh & Hx); right; exists i; repeat split; auto; now apply bool_decide_eq_true in Hx|].
      intros [Hx|(i & Hi & Hh & Hx)]; [congruence|]. exists i. repeat split; auto. now apply bool_decide_eq_true.
Qed.

(** The partitions of the blocks below the indirect extents from [16] to [16 + n]. *)
Definition ind_ords (s : ts St) (n : nat) : list Z :=
  upto (fun j => let e := ext_at (n_ext (t_di s)) (16 + j) in
    if is_hole e then [] else ords (t_disk s) j e) n.

Lemma upd_ext_same (s : ts St) (j : nat) :
  (j < length (n_ext (t_di s)))%nat -> upd_di (upd_ext (insert j (ext_at (n_ext (t_di s)) j))) s = Done tt s.
Proof.
  intros Hj. destruct (lookup_lt_is_Some_2 _ _ Hj) as [x Ex]. unfold upd_di, modify, ext_at. rewrite Ex. cbn.
  do 2 f_equal. destruct s as [[] ? ? ? ? ?]. cbn in *. unfold upd_ext. cbn. now rewrite list_insert_id.
Qed.

Lemma find_loop (n : nat) (s : ts St) :
  (n <= 3)%nat -> length (n_ext (t_di s)) = 19%nat ->
  (forall j, (16 <= j < 19)%nat -> is_hole (ext_at (n_ext (t_di s)) j) = false ->
     ok rd (t_di s) (t_disk s) (j - 16) (ext_at (n_ext (t_di s)) j)) ->
  fseq_loop (16 + n) rd c (SAM_FIND_ORD ord) 0 false false s =
  Done (0, bool_decide (ord ∈ ind_ords s n), false) s.
Proof.
  intros Hn Hl Hok. induction n as [|n IH].
  - change (16 + 0)%nat with 16%nat. reflexivity.
  - rewrite Nat.add_succ_r. cbn [fseq_loop]. unfold ind_ords. cbn [upto]. fold (ind_ords s n).
    assert (E : (Z.of_nat (16 + n) <? NDEXT) = false) by (apply Z.ltb_ge; unfold NDEXT, NSDEXT, NLDEXT; lia). rewrite E.
    rewrite (bind_done _ _ _ s (t_di s)) by reflexivity. fold (ext_at (n_ext (t_di s)) (16 + n)).
    set (e := ext_at (n_ext (t_di s)) (16 + n)) in *. destruct (is_hole e) eqn:Eh.
    + rewrite app_nil_r. apply IH. lia.
    + pose proof (Hok (16 + n)%nat ltac:(lia) Eh) as Ho. replace (16 + n - 16)%nat with n in Ho by lia.
      replace (Z.to_nat (Z.of_nat (16 + n) - NDEXT)) with n by (unfold NDEXT, NSDEXT, NLDEXT; lia).
      assert (Hk : forall i, kptr_at (replicate 5 (-1)) i = -1) by (intros i; now do 6 (destruct i as [|i]; [reflexivity|])).
      destruct (find_tree n _ (if Z.of_nat (16 + n) =? NDEXT then 0%nat else Z.to_nat (NIEXT - 1)) e
        (Z.of_nat (16 + n) =? NDEXT) s Hk Ho) as [set' Ef].
      cbv zeta. rewrite (bind_done _ _ _ _ _ Ef). unfold e at 2. rewrite (bind_done _ _ s s tt) by (apply upd_ext_same; lia).
      destruct (bool_decide (ord ∈ ords (t_disk s) n e)) eqn:Eo; cbn [found Z.eqb ECANCELED].
      * apply bool_decide_eq_true in Eo. rewrite bool_decide_true by (rewrite elem_of_app; auto). reflexivity.
      * apply bool_decide_eq_false in Eo. rewrite IH by lia. do 3 f_equal.
        apply bool_decide_ext. rewrite elem_of_app. tauto.
Qed.
End Find.
