(* ===== verification/TruncError.v ===== *)
(** * Truncation when the inode cannot be written

    [sam_reduce_ino] clears extents in memory, writes the inode and, when both attempts
    fail, puts back what it has changed. *)

From S2P Require Import Prelude Dau Extent Monad FileTree Truncate TruncTree TruncDirect.

(** The inode without what [sam_reduce_ino] changes. *)
Definition mask_r (n : finode) : finode :=
  set_stride 0 (set_size 0 (set_offline false (set_lextent 0 (upd_ext (fun _ => []) (mask n))))).

Section Error.
Context {St : Type} `{!FileEnv St}.

(** Only fields of the inode that are put back have changed. *)
Record kin (s0 s : ts St) : Prop := mk_kin {
  k_mask : mask_r (t_di s) = mask_r (t_di s0);
  k_seg : n_segs (t_di s0) = false -> n_seg_blocks (t_di s) = n_seg_blocks (t_di s0);
  k_off : n_offline (t_di s) = n_offline (t_di s0);
  k_disk : t_disk s = t_disk s0;
  k_next : t_next s = t_next s0;
  k_upd : t_upd s = t_upd s0;
  k_fsck : t_fsck s = t_fsck s0;
  k_env : t_env s = t_env s0
}.

Lemma kin_refl (s : ts St) : kin s s.
Proof. now constructor. Qed.

Definition quiet (s0 : ts St) (m : M (ts St) unit) : Prop :=
  forall s, kin s0 s -> exists s', m s = Done tt s' /\ kin s0 s'.

Lemma quiet_bind (s0 : ts St) (m1 m2 : M (ts St) unit) :
  quiet s0 m1 -> quiet s0 m2 -> quiet s0 (m1;; m2).
Proof.
  intros H1 H2 s K. destruct (H1 s K) as (s1 & E1 & K1). destruct (H2 s1 K1) as (s2 & E2 & K2).
  exists s2. split; [|exact K2]. now rewrite (bind_done _ _ _ _ _ E1).
Qed.

Lemma quiet_ret (s0 : ts St) : quiet s0 (mret tt).
Proof. intros s K. now exists s. Qed.

Lemma quiet_upd (s0 : ts St) (f : finode -> finode) :
  (forall n, mask_r (f n) = mask_r n) ->
  (n_segs (t_di s0) = false -> forall n, n_seg_blocks (f n) = n_seg_blocks n) ->
  (forall n, n_offline (f n) = n_offline n) -> quiet s0 (upd_di f).
Proof.
  intros H1 H2 H3 s K. eexists. split; [reflexivity|]. destruct K. constructor; cbn; auto.
  - now rewrite H1.
  - intros E. rewrite H2 by exact E. auto.
  - now rewrite H3.
Qed.

Lemma quiet_when (s0 : ts St) (b : bool) (m : M (ts St) unit) : (b = true -> quiet s0 m) -> quiet s0 (when b m).
Proof. destruct b; cbn; auto using quiet_ret. Qed.

Lemma quiet_each {A : Type} (s0 : ts St) (l : list A) (body : A -> M (ts St) unit) :
  (forall x, quiet s0 (body x)) -> quiet s0 (for_each l body).
Proof. intros H. induction l; cbn [for_each]; auto using quiet_ret, quiet_bind. Qed.

Create HintDb quiet.
#[local] Hint Resolve quiet_ret quiet_bind quiet_when quiet_each : quiet.
#[local] Hint Extern 1 (quiet _ (upd_di _)) => apply quiet_upd; [reflexivity|first [reflexivity|congruence]|reflexivity] : quiet.

Lemma quiet_count (s0 : ts St) (c : tconf) (n : finode) (de : Z) :
  n_segs n = n_segs (t_di s0) -> quiet s0 (count_kept c n de).
Proof.
  intros E. apply quiet_each. intros i. apply quiet_when. intros _. apply quiet_bind; [auto with quiet|].
  apply quiet_when. intros Es. apply quiet_upd; [reflexivity|congruence|reflexivity].
Qed.

(** The quotas after a failed truncation: [sam_quota_foffline] is not undone. *)
Definition quota_after (tflag : sam_truncate_t) (n : finode) (x x' : St) : Prop :=
  match tflag with
  | SAM_RELEASE => if n_offline n then x' = x else sam_quota_foffline x = Done tt x'
  | _ => x' = x
  end.

Lemma quiet_fails (m : M (ts St) unit) (f : M (ts St) Z) (s0 : ts St) (P : Z -> ts St -> Prop) :
  quiet s0 m -> (forall s, kin s0 s -> exists a s', f s = Done a s' /\ P a s') ->
  exists a s', (m;; f) s0 = Done a s' /\ P a s'.
Proof.
  intros Q H. destruct (Q s0 (kin_refl s0)) as (s & E & K). rewrite (bind_done _ _ _ _ _ E). auto.
Qed.

(** What [sam_sync_inode] sets before it writes. *)
Definition sync_set (len : Z) (tflag : sam_truncate_t) : M (ts St) unit :=
  match tflag with
  | SAM_TRUNCATE => n ← gets t_di; upd_di (set_size len);; when (n_segi n) (upd_di (upd_blocks (fun _ => 0)))
  | SAM_REDUCE => mret tt
  | SAM_RELEASE => n ← gets t_di; when (negb (n_offline n)) (env sam_quota_foffline);; upd_di (set_offline true)
  | SAM_PURGE => upd_di purged
  end.

Lemma sync_set_spec (len : Z) (tflag : sam_truncate_t) (n : finode) D nx u fs (e x : St) :
  tflag <> SAM_PURGE -> quota_after tflag n e x ->
  exists n', sync_set len tflag (mk_ts n D nx u fs e) = Done tt (mk_ts n' D nx u fs x) /\
    mask_r n' = mask_r n /\ n_seg_blocks n' = n_seg_blocks n.
Proof.
  intros Hp Hq. destruct tflag; cbn in Hq; [| | |contradiction].
  - subst x. exists (if n_segi n then upd_blocks (fun _ => 0) (set_size len n) else set_size len n).
    split; [|now destruct (n_segi n)]. unfold sync_set. rewrite (bind_done _ _ _ (mk_ts n D nx u fs e) n) by reflexivity.
    erewrite bind_done; [|reflexivity]. now destruct (n_segi n).
  - subst x. now exists n.
  - exists (set_offline true n). split; [|now split]. unfold sync_set.
    rewrite (bind_done _ _ _ (mk_ts n D nx u fs e) n) by reflexivity. destruct (n_offline n); cbn [negb when].
    + now subst x.
    + erewrite (bind_done _ _ _ (mk_ts n D nx u fs x) tt); [reflexivity|]. unfold env. cbn. now rewrite Hq.
Qed.

(** Both writes fail. *)
Lemma sync_fails (len : Z) (tflag : sam_truncate_t) (q : list bool) (x : St) (s0 s : ts St) :
  tflag <> SAM_PURGE -> kin s0 s -> t_upd s0 = true :: true :: q -> quota_after tflag (t_di s0) (t_env s0) x ->
  exists n', sam_sync_inode len tflag s = Done EIO (mk_ts n' (t_disk s0) (t_next s0) q (t_fsck s0) x) /\
    mask_r n' = mask_r (t_di s0) /\ (n_segs (t_di s0) = false -> n_seg_blocks n' = n_seg_blocks (t_di s0)).
Proof.
  intros Hp [K1 K2 Ko K3 K4 K5 K6 K7] Hu Hq. destruct s as [n D nx u fs e]. cbn [t_di t_disk t_next t_upd t_fsck t_env] in *. subst.
  unfold sam_sync_inode. fold (sync_set len tflag).
  set (n1 := if len =? 0 then set_stride 0 n else n).
  rewrite (bind_done _ _ _ (mk_ts n1 (t_disk s0) (t_next s0) (t_upd s0) (t_fsck s0) (t_env s0)) tt)
    by (unfold n1; destruct (len =? 0); reflexivity).
  assert (H1 : mask_r n1 = mask_r (t_di s0) /\ n_seg_blocks n1 = n_seg_blocks n /\ n_offline n1 = n_offline n)
    by (unfold n1; destruct (len =? 0); auto).
  clearbody n1. destruct H1 as (M1 & S1 & O1).
  destruct (sync_set_spec len tflag n1 (t_disk s0) (t_next s0) (t_upd s0) (t_fsck s0) (t_env s0) x Hp) as (n2 & E2 & M2 & S2).
  { unfold quota_after in *. now rewrite O1, Ko. }
  rewrite (bind_done _ _ _ _ _ E2). erewrite bind_done; [|reflexivity]. cbn [t_di t_disk t_next t_upd t_fsck t_env].
  rewrite Hu. exists (set_changed n2). split; [reflexivity|]. split; [exact (eq_trans M2 M1)|].
  intros E. exact (eq_trans S2 (eq_trans S1 (K2 E))).
Qed.

(** The inode with the fields that are put back. *)
Definition put_back (n : finode) (l : list ext) (n' : finode) : finode :=
  set_size (n_size n) (set_offline (n_offline n)
    ((if n_segs n then upd_seg_blocks (fun _ => n_seg_blocks n) else id)
      (upd_blocks (fun _ => n_blocks n) (set_lextent (n_lextent n) (upd_ext (fun _ => l) n'))))).

Lemma put_back_same (n n' : finode) (l : list ext) :
  mask_r n' = mask_r n -> (n_segs n = false -> n_seg_blocks n' = n_seg_blocks n) ->
  set_stride 0 (set_changed (put_back n l n')) = set_stride 0 (set_changed (upd_ext (fun _ => l) n)).
Proof.
  intros M H. unfold put_back. destruct (n_segs n) eqn:E; [clear H|specialize (H eq_refl)];
    destruct n, n'; cbn in *; unfold id; cbn; injection M; intros; subst; reflexivity.
Qed.

Lemma reduce_sync_fails (n : finode) (len : Z) (tflag : sam_truncate_t) (rlp : rel_blks) (q : list bool) (x : St)
    (s0 s : ts St) :
  n = t_di s0 -> tflag <> SAM_PURGE -> kin s0 s -> t_upd s0 = true :: true :: q ->
  quota_after tflag (t_di s0) (t_env s0) x ->
  exists n', reduce_sync n len tflag rlp s = Done EIO (mk_ts n' (t_disk s0) (t_next s0) q (t_fsck s0) x) /\
    set_stride 0 (set_changed n') = set_stride 0 (set_changed (upd_ext (fun _ => r_ext rlp) n)).
Proof.
  intros -> Hp K Hu Hq. destruct (sync_fails len tflag q x s0 s Hp K Hu Hq) as (n' & E & M & S).
  unfold reduce_sync. rewrite (bind_done _ _ _ _ _ E). cbn [Z.eqb negb EIO].
  assert (Ep : is_purge tflag = false) by (destruct tflag; congruence || reflexivity). rewrite Ep.
  exists (put_back (t_di s0) (r_ext rlp) n'). split; [|now apply put_back_same].
  unfold put_back. destruct (n_segs (t_di s0)); reflexivity.
Qed.

(** ** The routine *)

(** The count is cleared, and taken from that of the segmented file. *)
Lemma quiet_start (s : ts St) :
  quiet s (upd_di (upd_blocks (fun _ => 0));;
    when (n_segs (t_di s)) (upd_di (upd_seg_blocks (fun b => u32 (b - n_blocks (t_di s)))))).
Proof.
  apply quiet_bind; [auto with quiet|]. apply quiet_when. intros E. apply quiet_upd; [reflexivity|congruence|reflexivity].
Qed.

Lemma bind_assoc {A B C : Type} (m : M (ts St) A) (f : A -> M (ts St) B) (g : B -> M (ts St) C) (s : ts St) :
  (m ≫= fun a => f a ≫= g) s = ((m ≫= f) ≫= g) s.
Proof. unfold mbind, M_bind. now destruct (m s). Qed.

Lemma reduce_direct_fails (c : tconf) (de len : Z) (tflag : sam_truncate_t) (q : list bool) (x : St) (s : ts St) :
  tflag <> SAM_PURGE -> n_direct_map (t_di s) = false -> t_upd s = true :: true :: q ->
  quota_after tflag (t_di s) (t_env s) x ->
  exists n', reduce_direct c de len tflag s = Done EIO (mk_ts n' (t_disk s) (t_next s) q (t_fsck s) x) /\
    set_stride 0 (set_changed n') = set_stride 0 (set_changed (t_di s)).
Proof.
  intros Hp Hd Hu Hq. unfold reduce_direct. rewrite (bind_done _ _ s s (t_di s)) by reflexivity. rewrite Hd, bind_assoc.
  destruct (quiet_start s s (kin_refl s)) as (s1 & E1 & K1). rewrite (bind_done _ _ _ _ _ E1), bind_assoc.
  assert (Q : quiet s (upd_di (upd_ext (fun l => take (Z.to_nat (de + 1)) (n_ext (t_di s)) ++
      replicate (length l - length (take (Z.to_nat (de + 1)) (n_ext (t_di s)))) hole));; count_kept c (t_di s) de))
    by (apply quiet_bind; [auto with quiet|now apply quiet_count]).
  destruct (Q s1 K1) as (s2 & E2 & K2). rewrite (bind_done _ _ _ _ _ E2).
  destruct (reduce_sync_fails (t_di s) len tflag (rel_of (t_di s) len) q x s s2 eq_refl Hp K2 Hu Hq) as (n' & E & H).
  exists n'. split; [exact E|]. rewrite H. now destruct (t_di s).
Qed.

(** A preallocated file that keeps its extent. *)
Lemma reduce_prealloc_fails (c : tconf) (de len : Z) (tflag : sam_truncate_t) (q : list bool) (x : St) (s : ts St) :
  tflag <> SAM_PURGE -> n_direct_map (t_di s) = true -> ext_bn (n_ext (t_di s)) 1 <> 0 -> len <> 0 ->
  t_upd s = true :: true :: q -> quota_after tflag (t_di s) (t_env s) x ->
  exists n', reduce_direct c de len tflag s = Done EIO (mk_ts n' (t_disk s) (t_next s) q (t_fsck s) x) /\
    n_ext n' = r_ext (rel_clear (rel_of (t_di s) len)).
Proof.
  intros Hp Hd H1 Hl Hu Hq. unfold reduce_direct. rewrite (bind_done _ _ s s (t_di s)) by reflexivity.
  rewrite Hd, bind_assoc. apply Z.eqb_neq in H1. rewrite H1. destruct (Z.eqb_spec len 0); [lia|]. cbn [negb].
  destruct (quiet_start s s (kin_refl s)) as (s1 & E1 & K1). rewrite (bind_done _ _ _ _ _ E1).
  destruct (reduce_sync_fails (t_di s) len tflag (rel_clear (rel_of (t_di s) len)) q x s s1 eq_refl Hp K1 Hu Hq)
    as (n' & E & H). exists n'. split; [exact E|]. exact (f_equal n_ext H).
Qed.

(** The inode could be written: the extent stays, the count is gone. *)
Lemma reduce_prealloc_count `{!BlockSink St} (c : tconf) (de len : Z) (tflag : sam_truncate_t) (s : ts St) :
  tflag <> SAM_PURGE -> n_segi (t_di s) = false -> n_direct_map (t_di s) = true -> ext_bn (n_ext (t_di s)) 1 <> 0 ->
  len <> 0 -> upd_fine s ->
  exists s', reduce_direct c de len tflag s = Done 0 s' /\
    n_ext (t_di s') = n_ext (t_di s) /\ n_direct_map (t_di s') = true /\ n_blocks (t_di s') = 0.
Proof.
  intros Hp Hi Hd H1 Hl Hu. unfold reduce_direct. rewrite (bind_done _ _ s s (t_di s)) by reflexivity.
  rewrite Hd. apply Z.eqb_neq in H1. rewrite H1. destruct (Z.eqb_spec len 0); [lia|]. cbn [negb].
  erewrite bind_done; [|reflexivity]. set (n1 := upd_blocks (fun _ => 0) (t_di s)).
  change (mk_ts _ _ _ _ _ _) with (with_di s n1).
  set (n2 := if n_segs (t_di s) then upd_seg_blocks (fun b => u32 (b - n_blocks (t_di s))) n1 else n1).
  rewrite (bind_done _ _ _ (with_di s n2) tt) by (unfold n2; destruct (n_segs (t_di s)); reflexivity).
  assert (H2 : n_segi n2 = false /\ n_ext n2 = n_ext (t_di s) /\ n_direct_map n2 = true /\ n_blocks n2 = 0)
    by (unfold n2, n1; destruct (n_segs (t_di s)); auto).
  destruct H2 as (A1 & A2 & A3 & A4). unfold reduce_sync.
  destruct (sync_spec len tflag (with_di s n2) Hp A1 Hu) as (s5 & E5 & M5 & _). rewrite (bind_done _ _ _ _ _ E5).
  cbn [Z.eqb negb]. rewrite (bind_done _ _ s5 s5 s5) by reflexivity. erewrite bind_done; [|reflexivity].
  eexists. split; [reflexivity|]. cbn [t_di].
  rewrite (f_equal n_ext M5 : n_ext (t_di s5) = n_ext n2), (f_equal n_blocks M5 : n_blocks (t_di s5) = n_blocks n2),
    (f_equal n_direct_map M5 : n_direct_map (t_di s5) = n_direct_map n2). auto.
Qed.
End Error.
