(* ===== verification/TruncPrealloc.v ===== *)
(** * Releasing a preallocated file

    The reclaim thread gives back the contiguous extent of a preallocated file one large
    block after the other ([sam_free_direct_map]). *)

From S2P Require Import Prelude Dau Extent Monad FileTree Truncate TruncTree TruncFree TruncFile TruncThms ReclaimThms TruncDirect.

(** The [k] large blocks from [bn] on, [step] block numbers apart. *)
Definition dau_run (step bn ord : Z) (k : nat) : list (btype * ext) :=
  (fun i => (LG, (u32 (bn + Z.of_nat i * step), ord))) <$> seq 0 k.

Lemma dau_run_S (step bn ord : Z) (k : nat) :
  dau_run step bn ord (S k) = (LG, (u32 bn, ord)) :: dau_run step (s32 (bn + step)) ord k.
Proof.
  unfold dau_run. cbn [seq fmap list_fmap]. f_equal; [do 3 f_equal; lia|].
  rewrite <- (fmap_S_seq 0 k), <- list_fmap_compose. apply list_fmap_ext. intros i x _. unfold compose. do 2 f_equal.
  unfold uwrap. rewrite (Z.add_mod (s32 _)), swrap_mod, <- Z.add_mod by lia. f_equal. lia.
Qed.

(** Number of blocks of [dau_size] that hold [blocks]. *)
Definition daus (dau_size blocks : Z) : nat := Z.to_nat ((blocks + dau_size - 1) / dau_size).

Lemma daus_step (d b : Z) : 0 < d -> 0 < b -> daus d b = S (daus d (b - d)).
Proof.
  intros Hd Hb. unfold daus. replace (b + d - 1) with (b - 1 + 1 * d) by lia. rewrite Z.div_add by lia.
  replace (b - d + d - 1) with (b - 1) by lia. pose proof (Z.div_pos (b - 1) d ltac:(lia) Hd). lia.
Qed.

Lemma daus_done (d b : Z) : 0 < d -> b <= 0 -> daus d b = O.
Proof.
  intros Hd Hb. unfold daus. assert ((b + d - 1) / d < 1) by (apply Z.div_lt_upper_bound; lia). lia.
Qed.

Section Prealloc.
Context {St : Type} `{!FileEnv St} `{!BlockSink St}.

Lemma direct_loop_frees (fuel : nat) (d step bn ord blocks : Z) (s : ts St) :
  0 < d -> blocks <= Z.of_nat fuel -> owned s (dau_run step bn ord (daus d blocks)) ->
  only_frees (dau_run step bn ord (daus d blocks)) tt (direct_loop fuel d step bn ord blocks) s.
Proof.
  intros Hd. revert bn blocks s. induction fuel as [|fuel IH]; intros bn blocks s Hf Ho; cbn [direct_loop];
    destruct (Z.leb_spec blocks 0) as [Hb|Hb].
  1,3: rewrite (daus_done d blocks Hd Hb); apply only_frees_ret.
  - lia.
  - rewrite (daus_step d blocks Hd Hb), dau_run_S in *.
    apply (only_frees_bind [(LG, (u32 bn, ord))] _ tt); [exact Ho| |].
    + destruct (only_frees_one LG (u32 bn, ord) tt s) as (x & E & F).
      { change (?a :: ?l) with ([a] ++ l) in Ho. now apply owned_sub in Ho as [? _]. }
      exists x. split; [|exact F]. unfold mbind, M_bind in E. unfold env in *. destruct (sam_free_block _ _ _) as [[]|]; [exact E|discriminate].
    + intros x Hx. apply IH; [lia|exact Hx].
Qed.

(** The blocks of a preallocated extent. *)
Definition prealloc_blks (bn_shift : Z) (c : tconf) (n : finode) : list (btype * ext) :=
  let d := Z.shiftr (at_lg (size (c_dau c (dt_of n)))) SAM_DEV_BSHIFT in
  dau_run (Z.shiftr d bn_shift) (s32 (fst (ext_at (n_ext n) 0))) (snd (ext_at (n_ext n) 0)) (daus d (ext_bn (n_ext n) 1)).

Lemma free_direct_map_frees (bn_shift len : Z) (c : tconf) (n : finode) (s : ts St) :
  0 < Z.shiftr (at_lg (size (c_dau c (dt_of n)))) SAM_DEV_BSHIFT -> owned s (prealloc_blks bn_shift c n) ->
  only_frees (prealloc_blks bn_shift c n) 0 (sam_free_direct_map bn_shift c (rel_of n len)) s.
Proof.
  intros Hd Ho. unfold sam_free_direct_map. cbn [r_ext rel_of r_meta]. fold (dt_of n) (ext_at (n_ext n) 0).
  destruct (direct_loop_frees (Z.to_nat (ext_bn (n_ext n) 1))
    (Z.shiftr (at_lg (size (c_dau c (dt_of n)))) SAM_DEV_BSHIFT) _ _ _ (ext_bn (n_ext n) 1) s Hd ltac:(lia) Ho)
    as (x & E & F).
  exists x. split; [|exact F]. now rewrite (bind_done _ _ _ _ _ E).
Qed.

(** The extent is taken from the inode and queued. *)
Lemma reduce_prealloc_all (c : tconf) (de : Z) (tflag : sam_truncate_t) (s : ts St) :
  tflag <> SAM_PURGE -> n_segi (t_di s) = false -> n_direct_map (t_di s) = true -> ext_bn (n_ext (t_di s)) 1 <> 0 ->
  upd_fine s ->
  exists s', reduce_direct c de 0 tflag s = Done 0 s' /\ t_next s' = rel_of (t_di s) 0 :: t_next s /\
    frees [] (t_env s) (t_env s') /\ n_direct_map (t_di s') = false /\ n_blocks (t_di s') = 0 /\
    ext_bn (n_ext (t_di s')) 0 = 0 /\ ext_bn (n_ext (t_di s')) 1 = 0.
Proof.
  intros Hp Hi Hd H1 Hu. unfold reduce_direct. rewrite (bind_done _ _ s s (t_di s)) by reflexivity.
  rewrite Hd. apply Z.eqb_neq in H1. rewrite H1. cbn [Z.eqb negb].
  erewrite bind_done; [|reflexivity]. set (n1 := upd_blocks (fun _ => 0) (t_di s)).
  change (mk_ts _ _ _ _ _ _) with (with_di s n1).
  set (n2 := if n_segs (t_di s) then upd_seg_blocks (fun b => u32 (b - n_blocks (t_di s))) n1 else n1).
  rewrite (bind_done _ _ _ (with_di s n2) tt) by (unfold n2; destruct (n_segs (t_di s)); reflexivity).
  do 4 (erewrite bind_done; [|reflexivity]). unfold reduce_sync.
  set (s1 := mk_ts _ _ _ _ _ _).
  assert (H2 : n_segi n2 = false /\ n_ext n2 = n_ext (t_di s)) by (unfold n2, n1; destruct (n_segs (t_di s)); auto).
  destruct H2 as (A1 & A2).
  destruct (sync_spec 0 tflag s1 Hp A1 Hu) as (s5 & E5 & M5 & _ & X5 & _ & F5). rewrite (bind_done _ _ _ _ _ E5).
  cbn [Z.eqb negb]. rewrite (bind_done _ _ s5 s5 s5) by reflexivity. rewrite X5. erewrite bind_done; [|reflexivity].
  eexists. split; [reflexivity|]. cbn [t_di t_next t_env]. split; [reflexivity|]. split; [exact F5|].
  rewrite (f_equal n_ext M5 : n_ext (t_di s5) = n_ext (t_di s1)).
  split; [exact (f_equal n_direct_map M5)|]. split; [exact (f_equal n_blocks M5)|].
  cbn [s1 t_di n_ext with_di set_direct_map upd_blocks upd_ext set_lextent]. rewrite A2. unfold ext_bn.
  destruct (n_ext (t_di s)) as [|[? ?] [|[? ?] ?]]; auto.
Qed.
End Prealloc.
