(* ===== verification/TruncDemo.v ===== *)
(** * A file system that records the blocks given back

    A concrete environment for truncation, and files on it. *)

From S2P Require Import Prelude Dau Extent Monad FileTree Truncate TruncTree TruncFree TruncPath TruncFile TruncThms ReclaimThms TruncDirect TruncMain.

(** Blocks given back, and the next new block. *)
Record recorder : Type := mk_recorder { rec_free : list (btype * ext); rec_next : Z }.

Definition rec_alloc (ord : Z) : M recorder (Z * ext) := fun s =>
  Done (0, (rec_next s, ord)) (mk_recorder (rec_free s) (rec_next s + 1)).

#[export] Instance recorder_env : FileEnv recorder := {
  sam_free_block bt e := modify (fun s => mk_recorder ((bt, e) :: rec_free s) (rec_next s));
  sam_quota_foffline := mret tt;
  sam_allocate_and_copy_extent unit _ _ _ := rec_alloc unit;
  sam_allocate_and_copy_bp new_ord _ := rec_alloc new_ord
}.

#[export] Instance recorder_sink : BlockSink recorder.
Proof.
  refine {| cells x := [snd x]; pool s := snd <$> rec_free s; in_use _ _ := True; sink_ok _ := True |}.
  - intros s bt e _. eexists. split; [reflexivity|]. split; [reflexivity|auto].
  - intros s. now exists s.
Defined.

(** ** Files *)

Definition demo_conf : tconf := mk_tconf (fun _ => dau_4_16) (fun _ => 1) SAMFS_SBLKV2.
Definition demo_id : sam_id := mk_id 7 1.
Definition demo_ind (level : Z) (l : list ext) : ind_block :=
  mk_ind (l ++ replicate (dext - length l) hole) level demo_id.

(** A regular file with the given extents. *)
Definition demo_di (blks : Z) (l : list ext) : finode :=
  mk_finode demo_id (mk_id 2 2) false false false 0 0 false false false false 0 0 blks 0 0 l 0 false false.
Definition demo_state (n : finode) (D : disk) (u : list bool) : ts recorder :=
  mk_ts n D [] u false (mk_recorder [] 1000).

(** Eight small and eight large direct extents, an indirect block with three entries and a
    block of level one with one block below it. *)
Definition demo_exts : list ext :=
  ((fun i => (Z.of_nat (i + 1), 0)) <$> seq 0 16) ++ [(100, 0); (101, 1); hole].
Definition demo_disk : disk :=
  <[(100, 0) := demo_ind 0 [(200, 0); (201, 0); (202, 0)]]>
  (<[(101, 1) := demo_ind 1 [(102, 1)]]> (<[(102, 1) := demo_ind 0 [(300, 0); (301, 1)]]> ∅)).
Definition demo_file : ts recorder := demo_state (demo_di 60 demo_exts) demo_disk [].
Definition no_error : ext -> Z := fun _ => 0.

Lemma demo_ent (level : Z) (l : list ext) (i : nat) :
  is_hole (ent (demo_ind level l) i) = false -> (i < length l)%nat.
Proof.
  unfold ent, demo_ind. cbn [ie_extent]. intros H. destruct (decide (i < length l)%nat) as [|Hi]; [assumption|].
  rewrite lookup_app_r in H by lia. destruct (replicate _ hole !! _) as [x|] eqn:E; cbn in H; [|discriminate].
  apply lookup_replicate in E as [-> _]. discriminate.
Qed.

Lemma demo_ind_length (level : Z) (l : list ext) : (length l <= dext)%nat -> length (ie_extent (demo_ind level l)) = dext.
Proof. intros H. cbn. rewrite length_app, length_replicate. lia. Qed.

Lemma dext_big : (100 <= dext)%nat.
Proof. pose proof dext_Z. unfold DEXT in *. lia. Qed.

Lemma demo_tree0 (n : finode) (D : disk) (e : ext) (l : list ext) :
  n_id n = demo_id -> blk_at D e = demo_ind 0 l -> (length l <= 100)%nat -> ok no_error n D 0 e.
Proof.
  intros Hn E Hl. pose proof dext_big. unfold ok. cbn [tree_ok]. rewrite E. repeat split.
  - unfold valid0, sam_validate_indirect_block. cbn. now rewrite Hn.
  - apply demo_ind_length. lia.
Qed.

Lemma demo_tree1 (n : finode) (D : disk) (e x : ext) :
  n_id n = demo_id -> blk_at D e = demo_ind 1 [x] -> ok no_error n D 0 x -> ok no_error n D 1 e.
Proof.
  intros Hn E Hx. pose proof dext_big. unfold ok. cbn [tree_ok]. rewrite E. split; [reflexivity|]. split; [|split].
  - unfold valid0, sam_validate_indirect_block. cbn. now rewrite Hn.
  - apply demo_ind_length. cbn. lia.
  - intros i _ Hh. apply demo_ent in Hh as Hi. cbn in Hi. destruct i; [|lia]. exact Hx.
Qed.

Lemma demo_file_ok : file_ok no_error demo_file.
Proof.
  split.
  - reflexivity.
  - intros j Hj Hh. assert (Hc : j = 16%nat \/ j = 17%nat \/ j = 18%nat) by lia. destruct Hc as [->|[->| ->]].
    + apply (demo_tree0 _ _ _ [(200, 0); (201, 0); (202, 0)]); [reflexivity|reflexivity|cbn; lia].
    + apply (demo_tree1 _ _ _ (102, 1)); [reflexivity|reflexivity|].
      apply (demo_tree0 _ _ _ [(300, 0); (301, 1)]); [reflexivity|reflexivity|cbn; lia].
    + discriminate.
  - apply (bool_decide_unpack _). vm_compute. reflexivity.
  - split; [apply (bool_decide_unpack _); vm_compute; reflexivity|]. apply Forall_forall. cbn. auto.
Qed.

Lemma demo_blocks : blocks_ok demo_conf demo_file.
Proof. vm_compute. reflexivity. Qed.

(** It may be cut to any length. *)
Lemma demo_truncatable (len : Z) : truncatable no_error demo_conf demo_file len SAM_TRUNCATE.
Proof.
  exact (mk_truncatable no_error demo_conf demo_file len SAM_TRUNCATE demo_file_ok demo_blocks eq_refl eq_refl eq_refl
    ltac:(discriminate) I eq_refl (args_4_16_geometry (len - 1)) ltac:(cbn; lia) eq_refl).
Qed.
