(* ===== verification/TruncProps.v ===== *)
(** * Properties of truncation

    The theorems on [sam_reduce_ino] and the reclaim thread, with a file for which their
    hypotheses hold. *)

From S2P Require Import Prelude Dau Extent Monad FileTree Truncate TruncTree TruncFree TruncPath TruncFile TruncThms ReclaimThms TruncDirect TruncMain MoveOrd TruncError TruncPrealloc TruncDemo.

Section Properties.
Context {St : Type} `{!FileEnv St} `{!BlockSink St}.
Context (rd : ext -> Z) (c : tconf).


(** C29. A truncation that fails. When the file is neither preallocated
    ([preallocated_truncation_forgets]) nor purged, ends in the direct extents, and neither
    attempt to write the inode succeeds, [sam_reduce_ino] returns [EIO] with the inode as
    it was, but for [stride] and the flag for a change; no block is given back, nothing is
    queued for the reclaim thread, and the disk is untouched. The quotas are as before
    unless the file was being released: the space has then been moved to the offline quota
    and stays there, although the file is online. *)
Theorem failed_truncation_restores_inode (len : Z) (tflag : sam_truncate_t) (q : list bool) (x : St) (s : ts St) :
  n_hold (t_di s) = false -> n_direct_map (t_di s) = false -> tflag <> SAM_PURGE ->
  (len = 0 \/ exists kp r, sam_get_extent (n_args c (t_di s) (len - 1)) (mk_kptr (-1) (-1) (-1)) = (0, kp, Some r) /\
     rv_de r < NDEXT) ->
  t_upd s = true :: true :: q -> quota_after tflag (t_di s) (t_env s) x ->
  exists n', sam_reduce_ino rd c len tflag s = Done EIO (mk_ts n' (t_disk s) (t_next s) q (t_fsck s) x) /\
    set_stride 0 (set_changed n') = set_stride 0 (set_changed (t_di s)).
Proof.
  intros Hh Hd Hp Hde Hu Hq. unfold sam_reduce_ino. rewrite (bind_done _ _ s s (t_di s)) by reflexivity. rewrite Hh, Hd.
  destruct (Z.eqb_spec len 0) as [->|Hl]; cbn [negb andb].
  - now apply reduce_direct_fails.
  - destruct Hde as [?|(kp & r & -> & Hr)]; [contradiction|]. apply Z.ltb_lt in Hr. rewrite Hr. now apply reduce_direct_fails.
Qed.

(** A preallocated file that is cut to a length other than zero keeps its extent, but
    not what describes it: when the inode is written, the count of its blocks is zero;
    when it cannot be, what [sam_reduce_ino] restores is an inode without the extent and
    its length. *)
Theorem preallocated_truncation_forgets (len : Z) (tflag : sam_truncate_t) (s : ts St) :
  n_hold (t_di s) = false -> n_direct_map (t_di s) = true -> ext_bn (n_ext (t_di s)) 1 <> 0 -> len <> 0 ->
  n_segi (t_di s) = false -> tflag = SAM_TRUNCATE ->
  (upd_fine s -> exists s', sam_reduce_ino rd c len tflag s = Done 0 s' /\
     n_ext (t_di s') = n_ext (t_di s) /\ n_direct_map (t_di s') = true /\ n_blocks (t_di s') = 0) /\
  (forall q, t_upd s = true :: true :: q -> exists s', sam_reduce_ino rd c len tflag s = Done EIO s' /\
     ext_bn (n_ext (t_di s')) 0 = 0 /\ ext_bn (n_ext (t_di s')) 1 = 0).
Proof.
  intros Hh Hd H1 Hl Hi ->.
  assert (E : sam_reduce_ino rd c len SAM_TRUNCATE s = reduce_direct c (-1) len SAM_TRUNCATE s).
  { unfold sam_reduce_ino. rewrite (bind_done _ _ s s (t_di s)) by reflexivity. now rewrite Hh, Hd. }
  rewrite E. split.
  - intros Hu. now apply reduce_prealloc_count.
  - intros q Hu. destruct (reduce_prealloc_fails c (-1) len SAM_TRUNCATE q (t_env s) s) as (n' & E' & Hn);
      [discriminate|exact Hd|exact H1|exact Hl|exact Hu|reflexivity|].
    eexists. split; [exact E'|]. cbn [t_di]. rewrite Hn. unfold ext_bn. cbn [r_ext rel_clear rel_of].
    destruct (n_ext (t_di s)) as [|[? ?] [|[? ?] ?]]; auto.
Qed.

(** A preallocated file that is cut to nothing loses its extent, its count and the mark
    that it is preallocated, and the reclaim thread gives back every large block of the
    extent, once, and no other block. *)
Theorem preallocated_file_released (fuel : nat) (bn_shift : Z) (tflag : sam_truncate_t) (s : ts St) :
  n_hold (t_di s) = false -> n_direct_map (t_di s) = true -> ext_bn (n_ext (t_di s)) 1 <> 0 ->
  n_segi (t_di s) = false -> tflag <> SAM_PURGE -> upd_fine s -> t_next s = [] ->
  0 < Z.shiftr (at_lg (size (c_dau c (dt_of (t_di s))))) SAM_DEV_BSHIFT ->
  owned s (prealloc_blks bn_shift c (t_di s)) ->
  exists s' s'', sam_reduce_ino rd c 0 tflag s = Done 0 s' /\
    sam_free_extents (S fuel) bn_shift rd c s' = Done tt s'' /\
    pool (t_env s'') ≡ₚ (prealloc_blks bn_shift c (t_di s) ≫= cells) ++ pool (t_env s) /\
    n_direct_map (t_di s'') = false /\ n_blocks (t_di s'') = 0 /\
    ext_bn (n_ext (t_di s'')) 0 = 0 /\ ext_bn (n_ext (t_di s'')) 1 = 0.
Proof.
  intros Hh Hd H1 Hi Hp Hu Hn Hz Ho.
  destruct (reduce_prealloc_all c (-1) tflag s Hp Hi Hd H1 Hu) as (s' & E' & X & F & R). rewrite Hn in X.
  set (s1 := mk_ts (t_di s') (t_disk s') [] (t_upd s') (t_fsck s') (t_env s')).
  destruct (free_direct_map_frees bn_shift 0 c (t_di s) s1 Hz (owned_frees s s1 [] _ Ho F)) as (x & Ex & Fx).
  exists s', (with_env s1 x). split; [|split].
  - unfold sam_reduce_ino. rewrite (bind_done _ _ s s (t_di s)) by reflexivity. now rewrite Hh, Hd.
  - cbn [sam_free_extents]. rewrite (bind_done _ _ s' s' s') by reflexivity. rewrite X.
    rewrite (bind_done _ _ s' s1 tt) by reflexivity. change (r_direct_map (rel_of (t_di s) 0)) with (n_direct_map (t_di s)).
    rewrite Hd, (bind_done _ _ _ _ _ Ex). destruct fuel; reflexivity.
  - split; [exact (proj1 (frees_trans [] _ _ _ _ F Fx))|exact R].
Qed.

(** C30. The search for a partition. On a file with well-formed indirect blocks
    [sam_fseq_ord] answers that the file is on the partition exactly when an indirect
    block or a data block below one is on it, and changes nothing. *)
Theorem find_ord_correct (ord : Z) (s : ts St) :
  file_ok rd s ->
  fseq_loop 19 rd c (SAM_FIND_ORD ord) 0 false false s = Done (0, bool_decide (ord ∈ ind_ords s 3), false) s.
Proof. intros HF. apply (find_loop rd c ord 3 s); [lia|apply HF|apply HF]. Qed.
End Properties.

(** ** Runs on concrete files *)

(** What a run leaves, as a check. *)
Lemma run_check {S A : Type} (m : M S A) (s : S) (f : A -> S -> bool) :
  match m s with Done a s' => f a s' | Fault _ => false end = true ->
  exists a s', m s = Done a s' /\ f a s' = true.
Proof. destruct (m s) as [a s'|]; [eauto|discriminate]. Qed.

(** Blocks that the file has, or that have been given back. *)
Definition file_has (s : ts recorder) (e : ext) : bool :=
  bool_decide (e ∈ (walk_of s).*2 ++ nodes_of s ++ concat (r_ext <$> t_next s)).
Definition given_back (s : ts recorder) (e : ext) : bool := bool_decide (e ∈ pool (t_env s)).
Definition lost (s : ts recorder) (e : ext) : bool := negb (file_has s e) && negb (given_back s e).

(** A block that cannot be read. When the file is cut and the indirect block (102, 1)
    below (101, 1) cannot be read, [sam_reduce_ino] gives back (101, 1) all the same and
    returns 0: the unreadable block and the two data blocks below it belong to no file and
    are not free. *)
Theorem unreadable_block_leaks :
  exists s', sam_reduce_ino (fun e => if bool_decide (e = (102, 1)) then EIO else 0) demo_conf
      (176 * 1024 + 1) SAM_TRUNCATE demo_file = Done 0 s' /\
    forallb (file_has demo_file) [(102, 1); (300, 0); (301, 1)] = true /\
    given_back s' (101, 1) = true /\ forallb (lost s') [(102, 1); (300, 0); (301, 1)] = true.
Proof.
  destruct (run_check (sam_reduce_ino (fun e => if bool_decide (e = (102, 1)) then EIO else 0) demo_conf
      (176 * 1024 + 1) SAM_TRUNCATE) demo_file (fun a s' => (a =? 0) && given_back s' (101, 1) &&
      forallb (lost s') [(102, 1); (300, 0); (301, 1)])) as (a & s' & E & H); [vm_compute; reflexivity|].
  apply andb_prop in H as [H H3]. apply andb_prop in H as [H1 H2]. apply Z.eqb_eq in H1 as ->.
  exists s'. split; [exact E|]. split; [vm_compute; reflexivity|auto].
Qed.

(** A file on a striped group of four, partition 1, whose first extent is a hole. *)
Definition striped_conf : tconf := mk_tconf (fun _ => dau_4_16) (fun o => if o =? 1 then 4 else 1) SAMFS_SBLKV2.
Definition striped_file : ts recorder :=
  demo_state (mk_finode demo_id (mk_id 2 2) false false false 0 0 false false true false 1 0 240 0 0
    (hole :: ((fun i => (Z.of_nat (i + 1), 1)) <$> seq 0 15) ++ [hole; hole; hole]) 0 false false) ∅ [].

(** The reclaim thread takes the size of the striped group from the partition of the
    first extent, [sam_reduce_ino] from the partition of the file. When the first extent
    is a hole they differ: the inode loses the extents after the first 128 kilobytes, the
    reclaim thread frees those after the first 80, and three extents are lost. *)
Theorem striped_hole_leaks :
  exists s', (sam_reduce_ino no_error striped_conf (64 * 1024 + 1) SAM_TRUNCATE;;
      sam_free_extents 1 0 no_error striped_conf) striped_file = Done tt s' /\
    forallb (file_has striped_file) [(2, 1); (3, 1); (4, 1)] = true /\
    given_back s' (5, 1) = true /\ forallb (lost s') [(2, 1); (3, 1); (4, 1)] = true.
Proof.
  destruct (run_check (sam_reduce_ino no_error striped_conf (64 * 1024 + 1) SAM_TRUNCATE;;
      sam_free_extents 1 0 no_error striped_conf) striped_file (fun _ s' => given_back s' (5, 1) &&
      forallb (lost s') [(2, 1); (3, 1); (4, 1)])) as ([] & s' & E & H); [vm_compute; reflexivity|].
  apply andb_prop in H as [H1 H2]. exists s'. split; [exact E|]. split; [vm_compute; reflexivity|auto].
Qed.

(** A file with an indirect block on partition 1 below one on partition 0. *)
Definition spread_file : ts recorder :=
  demo_state (demo_di 4 (replicate 17 hole ++ [(101, 0); hole]))
    (<[(101, 0) := demo_ind 1 [(102, 1)]]> (<[(102, 1) := demo_ind 0 [(300, 0)]]> ∅)) [].

(** Moving a file off partition 1. The indirect block (102, 1) is copied and given
    back, but the block above it, which is on another partition, is released without being
    written: on disk the file still leads through the block that is now free. *)
Theorem moved_block_stays_linked :
  exists s', fseq_loop 19 no_error demo_conf (SAM_MOVE_ORD 1 2) 0 false false spread_file = Done (0, false, false) s' /\
    given_back s' (102, 1) = true /\ file_has s' (102, 1) = true.
Proof.
  destruct (run_check (fseq_loop 19 no_error demo_conf (SAM_MOVE_ORD 1 2) 0 false false) spread_file
    (fun r s' => bool_decide (r = (0, false, false)) && (given_back s' (102, 1) && file_has s' (102, 1))))
    as (r & s' & E & H); [vm_compute; reflexivity|].
  apply andb_prop in H as [H1 H]. apply andb_prop in H as [H2 H3]. apply bool_decide_eq_true in H1 as ->.
  exists s'. auto.
Qed.

(** ** Witnesses *)



Definition failing_file : ts recorder := demo_state (demo_di 60 demo_exts) demo_disk [true; true].

Lemma failed_truncation_restores_inode_witness :
  exists n', sam_reduce_ino no_error demo_conf 5000 SAM_RELEASE failing_file =
      Done EIO (mk_ts n' demo_disk [] [] false (mk_recorder [] 1000)) /\
    set_stride 0 (set_changed n') = set_stride 0 (set_changed (t_di failing_file)).
Proof.
  apply (failed_truncation_restores_inode no_error demo_conf 5000 SAM_RELEASE [] (mk_recorder [] 1000) failing_file);
    [reflexivity|reflexivity|discriminate| |reflexivity|reflexivity].
  right. do 2 eexists. split; [vm_compute; reflexivity|vm_compute; reflexivity].
Defined.

Definition prealloc_file (u : list bool) : ts recorder :=
  demo_state (set_direct_map true (demo_di 16 ((40, 0) :: (64, 0) :: replicate 17 hole))) ∅ u.

Lemma preallocated_truncation_forgets_witness :
  (exists s', sam_reduce_ino no_error demo_conf 1024 SAM_TRUNCATE (prealloc_file []) = Done 0 s' /\
     n_ext (t_di s') = n_ext (t_di (prealloc_file [])) /\ n_direct_map (t_di s') = true /\ n_blocks (t_di s') = 0) /\
  (exists s', sam_reduce_ino no_error demo_conf 1024 SAM_TRUNCATE (prealloc_file [true; true]) = Done EIO s' /\
     ext_bn (n_ext (t_di s')) 0 = 0 /\ ext_bn (n_ext (t_di s')) 1 = 0).
Proof.
  split.
  - apply (preallocated_truncation_forgets no_error demo_conf 1024 SAM_TRUNCATE (prealloc_file []));
      (reflexivity || discriminate || exact I).
  - apply (proj2 (preallocated_truncation_forgets no_error demo_conf 1024 SAM_TRUNCATE (prealloc_file [true; true])
      eq_refl eq_refl ltac:(discriminate) ltac:(discriminate) eq_refl eq_refl) []). reflexivity.
Defined.

Lemma find_ord_correct_witness :
  fseq_loop 19 no_error demo_conf (SAM_FIND_ORD 1) 0 false false demo_file = Done (0, true, false) demo_file /\
  fseq_loop 19 no_error demo_conf (SAM_FIND_ORD 2) 0 false false demo_file = Done (0, false, false) demo_file.
Proof.
  split.
  - rewrite (find_ord_correct no_error demo_conf 1 demo_file demo_file_ok). vm_compute. reflexivity.
  - rewrite (find_ord_correct no_error demo_conf 2 demo_file demo_file_ok). vm_compute. reflexivity.
Defined.

Lemma preallocated_file_released_witness :
  exists s' s'', sam_reduce_ino no_error demo_conf 0 SAM_TRUNCATE (prealloc_file []) = Done 0 s' /\
    sam_free_extents 1 2 no_error demo_conf s' = Done tt s'' /\
    pool (t_env s'') ≡ₚ [(40, 0); (44, 0); (48, 0); (52, 0)] /\ n_blocks (t_di s'') = 0.
Proof.
  destruct (preallocated_file_released no_error demo_conf 0 2 SAM_TRUNCATE (prealloc_file []) eq_refl eq_refl
    ltac:(discriminate) eq_refl ltac:(discriminate) I eq_refl eq_refl) as (s' & s'' & E1 & E2 & P & _ & B & _).
  { split; [apply (bool_decide_unpack _); vm_compute; reflexivity|]. apply Forall_forall. cbn. auto. }
  exists s', s''. split; [exact E1|]. split; [exact E2|]. split; [exact P|exact B].
Defined.
