(* ===== verification/FreeBlocks.v ===== *)
(** * Blocks that wait to be freed

    [sam_free_block], [sam_release_blocks] and [sam_drain_blocks]
    (src/src/fs/samfs/reclaim.c) and [sam_merge_blocks] (update.c):
    freed blocks are collected in two arrays for each block type, and go to the maps when
    an array is full or the file system is synchronised. The routines that put a block
    into the maps, [sam_free_lg_block] and [sam_merge_sm_blks], are an interface. *)

From S2P Require Import Prelude Dau Monad FileTree Truncate TruncTree.

Definition SAM_NO_FB_ARRAY : Z := 2.
Definition SAM_FB_ARRAY_LEN : Z := 3274.

(** [sam_fb_pool_t]: the array that is being filled, and the blocks in the arrays. *)
Record fb_pool : Type := mk_fb_pool { fb_active : Z; fb_array : list (list ext) }.

(** Operations on the maps and on the block reserved for the .blocks file. *)
Class BlockMaps (Mp : Type) : Type := {
  sam_free_lg_block : ext -> M Mp Z;
  sam_merge_sm_blks : ext -> M Mp Z;
  reserve : Mp -> ext;                  (* m_blk_bn, m_blk_ord *)
  set_reserve : ext -> Mp -> Mp;
  inoblk_dev : Mp -> Z -> bool;         (* the type of the ordinal is that of .blocks *)
  sum_space : Mp -> Mp                  (* the totals of the superblock are computed *)
}.
Definition blk_reserved {Mp : Type} `{!BlockMaps Mp} (m : Mp) : bool := negb (is_hole (reserve m)).

Record frs (Mp : Type) : Type := mk_frs { fr_fb : per_bt fb_pool; fr_maps : Mp }.
Arguments mk_frs {Mp} _ _.
Arguments fr_fb {Mp} _.
Arguments fr_maps {Mp} _.

Section Code.
Context {Mp : Type} `{!BlockMaps Mp}.

Definition maps {A : Type} (m : M Mp A) : M (frs Mp) A := fun s =>
  match m (fr_maps s) with
  | Done a x => Done a (mk_frs (fr_fb s) x)
  | Fault f => Fault f
  end.
Definition set_fb (bt : btype) (f : fb_pool -> fb_pool) : M (frs Mp) unit :=
  modify (fun s => mk_frs (bt_set (fr_fb s) bt (f (bt_get (fr_fb s) bt))) (fr_maps s)).
Definition set_active (v : Z) (p : fb_pool) : fb_pool := mk_fb_pool v (fb_array p).
Definition set_array (i : nat) (v : list ext) (p : fb_pool) : fb_pool :=
  mk_fb_pool (fb_active p) (<[i:=v]> (fb_array p)).

Definition is_sm (bt : btype) : bool := match bt with SM => true | LG => false end.

(** One block goes to the maps. *)
Definition merge_one (bt : btype) (e : ext) : M (frs Mp) unit :=
  match bt with SM => maps (sam_merge_sm_blks e) | LG => maps (sam_free_lg_block e) end;; mret tt.

Definition get_array (bt : btype) (active : Z) : M (frs Mp) (list ext) :=
  s ← gets id; deref (fb_array (bt_get (fr_fb s) bt) !! Z.to_nat active).

Definition sam_release_blocks (bt : btype) (active : Z) : M (frs Mp) unit :=
  set_fb bt (set_active (Z.land (active + 1) 1));;
  a ← get_array bt active;
  for_each a (merge_one bt);;
  set_fb bt (set_array (Z.to_nat active) []).

Definition sam_free_block (bt : btype) (e : ext) : M (frs Mp) unit :=
  s ← gets id;
  let active := fb_active (bt_get (fr_fb s) bt) in
  assert (active <? SAM_NO_FB_ARRAY);;
  a ← get_array bt active;
  assert (Z.of_nat (length a) <? SAM_FB_ARRAY_LEN);;
  if negb (blk_reserved (fr_maps s)) && negb (is_sm bt) && inoblk_dev (fr_maps s) (snd e) then
    modify (fun s => mk_frs (fr_fb s) (set_reserve e (fr_maps s)))
  else
    set_fb bt (set_array (Z.to_nat active) (a ++ [e]));;
    when (SAM_FB_ARRAY_LEN <=? Z.of_nat (length a) + 1) (sam_release_blocks bt active).

(** The arrays of both types are emptied. *)
Definition sam_drain_blocks : M (frs Mp) unit :=
  for_each [(SM, 0); (SM, 1); (LG, 0); (LG, 1)] (fun '(bt, active) => sam_release_blocks bt active).

(** [sam_merge_blocks]: the array that is not being filled first, then the other; the count
    of the blocks merged. An empty array is passed over. *)
Definition merge_array (bt : btype) (active : Z) : M (frs Mp) Z :=
  set_fb bt (set_active (Z.land (active + 1) 1));;
  a ← get_array bt active;
  for_each a (merge_one bt);;
  set_fb bt (set_array (Z.to_nat active) []);;
  mret (Z.of_nat (length a)).

Definition merge_type (bt : btype) : M (frs Mp) Z :=
  s ← gets id;
  let first := Z.land (fb_active (bt_get (fr_fb s) bt) + 1) 1 in
  n1 ← merge_array bt first;
  n2 ← merge_array bt (Z.land (first + 1) 1);
  mret (n1 + n2).

(** [closing]: the file system is being unmounted. *)
Definition sam_merge_blocks (closing : bool) : M (frs Mp) Z :=
  n1 ← merge_type SM;
  n2 ← merge_type LG;
  when (negb (n1 + n2 =? 0)) (modify (fun s => mk_frs (fr_fb s) (sum_space (fr_maps s))));;
  s ← gets id;
  when (closing && blk_reserved (fr_maps s))
    (maps (sam_free_lg_block (reserve (fr_maps s)));;
     modify (fun s => mk_frs (fr_fb s) (set_reserve (0, snd (reserve (fr_maps s))) (fr_maps s))));;
  mret (n1 + n2).
End Code.
Arguments sam_free_lg_block {Mp _} _.

(** ** Contracts *)

(** Putting a block that may be put into the maps adds its cells to the free ones. *)
Class BlockMapsLaws (Mp : Type) `{!BlockMaps Mp} : Type := {
  map_cells : btype * ext -> list ext;
  maps_pool : Mp -> list ext;
  maps_ok : Mp -> Prop;
  can : Mp -> btype * ext -> Prop;
  cells_once (m : Mp) (x : btype * ext) : can m x -> NoDup (map_cells x);
  free_lg_spec (m : Mp) (e : ext) :
    maps_ok m -> can m (LG, e) -> exists r m', sam_free_lg_block e m = Done r m' /\ maps_ok m' /\
      maps_pool m' ≡ₚ map_cells (LG, e) ++ maps_pool m /\
      forall y, map_cells y ## map_cells (LG, e) -> can m y -> can m' y;
  merge_sm_spec (m : Mp) (e : ext) :
    maps_ok m -> can m (SM, e) -> exists r m', sam_merge_sm_blks e m = Done r m' /\ maps_ok m' /\
      maps_pool m' ≡ₚ map_cells (SM, e) ++ maps_pool m /\
      forall y, map_cells y ## map_cells (SM, e) -> can m y -> can m' y;
  reserve_spec (m : Mp) (e : ext) :
    maps_ok m -> can m (LG, e) -> blk_reserved m = false -> inoblk_dev m (snd e) = true ->
    maps_ok (set_reserve e m) /\ maps_pool (set_reserve e m) ≡ₚ map_cells (LG, e) ++ maps_pool m /\
      forall y, map_cells y ## map_cells (LG, e) -> can m y -> can (set_reserve e m) y;
  sum_spec (m : Mp) :
    maps_ok m -> maps_ok (sum_space m) /\ maps_pool (sum_space m) = maps_pool m /\
      forall y, can m y -> can (sum_space m) y;
  unreserve_spec (m : Mp) :
    maps_ok m -> blk_reserved m = true ->
    exists r m', sam_free_lg_block (reserve m) m = Done r m' /\
      let m'' := set_reserve (0, snd (reserve m')) m' in
      maps_ok m'' /\ blk_reserved m'' = false /\ maps_pool m'' ≡ₚ maps_pool m /\ forall y, can m y -> can m'' y
}.

Section Laws.
Context {Mp : Type} `{!BlockMaps Mp} `{!BlockMapsLaws Mp}.

(** The blocks in the arrays of a type. *)
Definition waiting_of (bt : btype) (p : fb_pool) : list (btype * ext) := pair bt <$> concat (fb_array p).
Definition waiting (s : frs Mp) : list (btype * ext) :=
  waiting_of SM (at_sm (fr_fb s)) ++ waiting_of LG (at_lg (fr_fb s)).
Definition all_free (s : frs Mp) : list ext := (waiting s ≫= map_cells) ++ maps_pool (fr_maps s).

Definition fb_ok (p : fb_pool) : Prop :=
  (fb_active p = 0 \/ fb_active p = 1) /\ length (fb_array p) = 2%nat /\
  Forall (fun a => Z.of_nat (length a) < SAM_FB_ARRAY_LEN) (fb_array p).

(** Blocks wait once, and may go to the maps. *)
Definition can_all (m : Mp) (l : list (btype * ext)) : Prop :=
  maps_ok m /\ NoDup (l ≫= map_cells) /\ Forall (can m) l.

Record frs_ok (s : frs Mp) : Prop := mk_frs_ok {
  fk_sm : fb_ok (at_sm (fr_fb s));
  fk_lg : fb_ok (at_lg (fr_fb s));
  fk_can : can_all (fr_maps s) (waiting s)
}.

Definition fr_in_use (s : frs Mp) (x : btype * ext) : Prop :=
  frs_ok s /\ can (fr_maps s) x /\ map_cells x ## (waiting s ≫= map_cells).

(** The maps after the blocks [l] have been put into them. *)
Definition took (l : list (btype * ext)) (m m' : Mp) : Prop :=
  maps_ok m' /\ maps_pool m' ≡ₚ (l ≫= map_cells) ++ maps_pool m /\
  forall y, map_cells y ## (l ≫= map_cells) -> can m y -> can m' y.

Lemma took_one (x : btype * ext) (m m' : Mp) :
  maps_ok m' -> maps_pool m' ≡ₚ map_cells x ++ maps_pool m ->
  (forall y, map_cells y ## map_cells x -> can m y -> can m' y) -> took [x] m m'.
Proof. intros O P U. split; [exact O|]. split; rewrite bind_cons, app_nil_r; [exact P|exact U]. Qed.

Lemma merged_trans (l1 l2 : list (btype * ext)) (m m1 m2 : Mp) :
  took l1 m m1 -> took l2 m1 m2 -> took (l1 ++ l2) m m2.
Proof.
  intros (_ & P1 & U1) (O2 & P2 & U2). split; [exact O2|]. split; rewrite bind_app.
  - rewrite P2, P1. solve_Permutation.
  - intros y Hy Hc. apply U2; [|apply U1; [|exact Hc]]; intros z H1 H2; apply (Hy z H1);
      rewrite elem_of_app; tauto.
Qed.

Lemma can_all_perm (m : Mp) (l1 l2 : list (btype * ext)) : l1 ≡ₚ l2 -> can_all m l1 -> can_all m l2.
Proof. intros E (O & N & F). split; [exact O|]. split; now rewrite <- E. Qed.

Lemma can_all_app (m m' : Mp) (l1 l2 : list (btype * ext)) :
  can_all m (l1 ++ l2) -> can_all m l1 /\ (took l1 m m' -> can_all m' l2).
Proof.
  intros (O & N & F). rewrite bind_app in N. apply NoDup_app in N as (N1 & N & N2). apply Forall_app in F as [F1 F].
  split; [now split|]. intros (O' & _ & U). split; [exact O'|]. split; [exact N2|]. rewrite Forall_forall in *. intros y Hy. apply U; [|auto].
  intros z H1 H2. apply (N z H2). apply list_elem_of_bind. eauto.
Qed.

(** Blocks of one type go to the maps. *)
Lemma merge_one_spec (bt : btype) (e : ext) (s : frs Mp) :
  maps_ok (fr_maps s) -> can (fr_maps s) (bt, e) ->
  exists m', merge_one bt e s = Done tt (mk_frs (fr_fb s) m') /\ took [(bt, e)] (fr_maps s) m'.
Proof.
  intros Ho Hc. destruct bt.
  - destruct (merge_sm_spec _ _ Ho Hc) as (r & m' & E & O & P & U). exists m'. split; [|now apply took_one].
    unfold merge_one. erewrite bind_done; [reflexivity|]. unfold maps. now rewrite E.
  - destruct (free_lg_spec _ _ Ho Hc) as (r & m' & E & O & P & U). exists m'. split; [|now apply took_one].
    unfold merge_one. erewrite bind_done; [reflexivity|]. unfold maps. now rewrite E.
Qed.

Lemma merge_all_spec (bt : btype) (a : list ext) (s : frs Mp) :
  can_all (fr_maps s) (pair bt <$> a) ->
  exists m', for_each a (merge_one bt) s = Done tt (mk_frs (fr_fb s) m') /\ took (pair bt <$> a) (fr_maps s) m'.
Proof.
  revert s. induction a as [|e a IH]; intros s H.
  - exists (fr_maps s). split; [now destruct s|]. split; [apply H|]. split; [reflexivity|auto].
  - assert (Hc : can (fr_maps s) (bt, e)) by (destruct H as (_ & _ & F); now apply Forall_cons in F as [? _]).
    destruct (merge_one_spec bt e s (proj1 H) Hc) as (m1 & E1 & T1).
    destruct (IH (mk_frs (fr_fb s) m1)) as (m2 & E2 & T2).
    { exact (proj2 (can_all_app _ _ [(bt, e)] _ H) T1). }
    exists m2. cbn [for_each]. rewrite (bind_done _ _ _ _ _ E1), E2. split; [reflexivity|].
    exact (merged_trans [(bt, e)] _ _ _ _ T1 T2).
Qed.

(** ** Releasing an array *)

Definition two_arrays (p : fb_pool) : Prop :=
  (fb_active p = 0 \/ fb_active p = 1) /\ length (fb_array p) = 2%nat.

(** The state after the array [i] of a type has become [v] and [act] is filled next. *)
Definition put_array (bt : btype) (i : nat) (act : Z) (v : list ext) (m : Mp) (s : frs Mp) : frs Mp :=
  mk_frs (bt_set (fr_fb s) bt (set_array i v (set_active act (bt_get (fr_fb s) bt)))) m.

Lemma concat_insert (i : nat) (a v : list ext) (l : list (list ext)) :
  length l = 2%nat -> l !! i = Some a -> exists rest, concat l ≡ₚ a ++ rest /\ concat (<[i:=v]> l) ≡ₚ v ++ rest.
Proof.
  intros Hl E. destruct l as [|x [|y [|? ?]]]; try discriminate. destruct i as [|[|i]]; cbn in E; try discriminate.
  - injection E as ->. exists y. cbn. rewrite !app_nil_r. now split.
  - injection E as ->. exists x. cbn. rewrite !app_nil_r. split; apply Permutation_app_comm.
Qed.

(** What waits before and after. *)
Lemma waiting_put (bt : btype) (i : nat) (act : Z) (a v : list ext) (m : Mp) (s : frs Mp) :
  length (fb_array (bt_get (fr_fb s) bt)) = 2%nat -> fb_array (bt_get (fr_fb s) bt) !! i = Some a ->
  exists rest, waiting s ≡ₚ (pair bt <$> a) ++ rest /\ waiting (put_array bt i act v m s) ≡ₚ (pair bt <$> v) ++ rest.
Proof.
  intros Hl E. destruct (concat_insert i a v _ Hl E) as (rest & E1 & E2). unfold waiting, waiting_of.
  destruct bt; cbn in *.
  - exists ((pair SM <$> rest) ++ (pair LG <$> concat (fb_array (at_lg (fr_fb s))))).
    rewrite E1, E2, !fmap_app, <- !app_assoc. now split.
  - exists ((pair LG <$> rest) ++ (pair SM <$> concat (fb_array (at_sm (fr_fb s))))).
    rewrite E1, E2, !fmap_app. split; solve_Permutation.
Qed.

Lemma release_spec (bt : btype) (active : Z) (a : list ext) (s : frs Mp) :
  active = 0 \/ active = 1 -> two_arrays (bt_get (fr_fb s) bt) ->
  fb_array (bt_get (fr_fb s) bt) !! Z.to_nat active = Some a -> can_all (fr_maps s) (waiting s) ->
  exists m', sam_release_blocks bt active s =
      Done tt (put_array bt (Z.to_nat active) (Z.land (active + 1) 1) [] m' s) /\
    took (pair bt <$> a) (fr_maps s) m'.
Proof.
  intros Ha [_ H2] Ea H.
  destruct (waiting_put bt (Z.to_nat active) (Z.land (active + 1) 1) a [] (fr_maps s) s H2 Ea) as (rest & W & _).
  apply (can_all_perm _ _ _ W) in H. apply (can_all_app _ (fr_maps s)) in H as [H _].
  unfold sam_release_blocks. erewrite bind_done; [|reflexivity].
  set (s1 := mk_frs (bt_set (fr_fb s) bt (set_active (Z.land (active + 1) 1) (bt_get (fr_fb s) bt))) (fr_maps s)).
  rewrite (bind_done _ _ _ s1 a).
  2:{ unfold get_array. rewrite (bind_done _ _ _ s1 s1) by reflexivity. unfold s1, id. destruct bt; cbn in *; now rewrite Ea. }
  destruct (merge_all_spec bt a s1 H) as (m' & E & T).
  exists m'. rewrite (bind_done _ _ _ _ _ E). split; [|exact T].
  unfold set_fb, modify, put_array, s1. cbn. destruct bt; reflexivity.
Qed.

(** What a release moves from the arrays to the maps. *)
Lemma release_moves (bt : btype) (active : Z) (a : list ext) (s s' : frs Mp) (m' : Mp) :
  two_arrays (bt_get (fr_fb s) bt) -> fb_array (bt_get (fr_fb s) bt) !! Z.to_nat active = Some a ->
  s' = put_array bt (Z.to_nat active) (Z.land (active + 1) 1) [] m' s ->
  took (pair bt <$> a) (fr_maps s) m' -> can_all (fr_maps s) (waiting s) ->
  all_free s' ≡ₚ all_free s /\ waiting s ≡ₚ (pair bt <$> a) ++ waiting s' /\ can_all (fr_maps s') (waiting s').
Proof.
  intros [_ H2] Ea -> T H.
  destruct (waiting_put bt (Z.to_nat active) (Z.land (active + 1) 1) a [] m' s H2 Ea) as (rest & W & W').
  cbn [fmap list_fmap app] in W'. split; [|split].
  - unfold all_free. rewrite W, W'. cbn [fr_maps put_array]. rewrite (proj1 (proj2 T)), bind_app. solve_Permutation.
  - rewrite W, W'. reflexivity.
  - apply (can_all_perm _ _ _ (symmetry W')). apply (can_all_perm _ _ _ W) in H.
    exact (proj2 (can_all_app _ m' _ _ H) T).
Qed.

(** ** Freeing a block *)

Lemma fb_ok_get (bt : btype) (s : frs Mp) : frs_ok s -> fb_ok (bt_get (fr_fb s) bt).
Proof. intros []. now destruct bt. Qed.

Lemma active_array (p : fb_pool) : fb_ok p -> exists a, fb_array p !! Z.to_nat (fb_active p) = Some a /\
  Z.of_nat (length a) < SAM_FB_ARRAY_LEN.
Proof.
  intros (Ha & H2 & F). destruct (lookup_lt_is_Some_2 (fb_array p) (Z.to_nat (fb_active p))) as [a Ea]; [lia|].
  exists a. split; [exact Ea|]. rewrite Forall_forall in F. apply F. eapply list_elem_of_lookup_2, Ea.
Qed.

Lemma fb_ok_put (p : fb_pool) (i : nat) (act : Z) (v : list ext) :
  fb_ok p -> act = 0 \/ act = 1 -> Z.of_nat (length v) < SAM_FB_ARRAY_LEN ->
  fb_ok (set_array i v (set_active act p)).
Proof.
  intros (_ & H2 & F) Ha Hv. split; [exact Ha|]. cbn. rewrite length_insert. split; [exact H2|].
  now apply Forall_insert.
Qed.

Lemma frs_ok_put (bt : btype) (i : nat) (act : Z) (v : list ext) (m : Mp) (s : frs Mp) :
  frs_ok s -> act = 0 \/ act = 1 -> Z.of_nat (length v) < SAM_FB_ARRAY_LEN ->
  can_all m (waiting (put_array bt i act v m s)) -> frs_ok (put_array bt i act v m s).
Proof.
  intros Hok Ha Hv F. pose proof (fk_sm _ Hok). pose proof (fk_lg _ Hok).
  constructor; [| |exact F]; unfold put_array; destruct bt; cbn; auto using fb_ok_put.
Qed.

Lemma flip_active (a : Z) : a = 0 \/ a = 1 -> Z.land (a + 1) 1 = 0 \/ Z.land (a + 1) 1 = 1.
Proof. intros [-> | ->]; cbn; auto. Qed.

Lemma can_all_cons (m : Mp) (x : btype * ext) (l : list (btype * ext)) :
  can m x -> map_cells x ## (l ≫= map_cells) -> can_all m l -> can_all m (x :: l).
Proof.
  intros Hc Hd (O & N & F). split; [exact O|]. split; [|now constructor]. rewrite bind_cons. apply NoDup_app. eauto using cells_once.
Qed.

Lemma fr_in_use_all (s : frs Mp) (x : btype * ext) : fr_in_use s x -> can_all (fr_maps s) (x :: waiting s).
Proof. intros (Hok & Hc & Hn). apply can_all_cons; [exact Hc|exact Hn|apply Hok]. Qed.

(** A block that is kept for the .blocks file. *)
Lemma kept (x : btype * ext) (s : frs Mp) (m' : Mp) :
  fr_in_use s x -> took [x] (fr_maps s) m' ->
  all_free (mk_frs (fr_fb s) m') ≡ₚ map_cells x ++ all_free s /\
  (forall y, map_cells y ## map_cells x -> fr_in_use s y -> fr_in_use (mk_frs (fr_fb s) m') y) /\
  frs_ok (mk_frs (fr_fb s) m').
Proof.
  intros Hx T. pose proof (proj2 (can_all_app _ m' [x] _ (fr_in_use_all s x Hx)) T) as HW. destruct T as (_ & P & U).
  rewrite bind_cons, app_nil_r in P, U.
  assert (Hok' : frs_ok (mk_frs (fr_fb s) m')) by (destruct Hx as [[] _]; now constructor).
  split; [unfold all_free, waiting; cbn; rewrite P; solve_Permutation|]. split; [|exact Hok'].
  intros y Hy (_ & Cy & Ny). split; [exact Hok'|]. split; [now apply U|exact Ny].
Qed.

(** A block that is put into the array that is being filled, which may become full. *)
Lemma queued (bt : btype) (e : ext) (a : list ext) (s : frs Mp) :
  fr_in_use s (bt, e) -> let act := fb_active (bt_get (fr_fb s) bt) in
  fb_array (bt_get (fr_fb s) bt) !! Z.to_nat act = Some a -> Z.of_nat (length a) < SAM_FB_ARRAY_LEN ->
  exists s', (set_fb bt (set_array (Z.to_nat act) (a ++ [e]));;
      when (SAM_FB_ARRAY_LEN <=? Z.of_nat (length a) + 1) (sam_release_blocks bt act)) s = Done tt s' /\
    all_free s' ≡ₚ map_cells (bt, e) ++ all_free s /\
    (forall y, map_cells y ## map_cells (bt, e) -> fr_in_use s y -> fr_in_use s' y) /\ frs_ok s'.
Proof.
  intros Hx act Ea La. pose proof Hx as (Hok & Hc & Hn). pose proof (fb_ok_get bt s Hok) as (Ha & H2 & _).
  fold act in Ha. set (x := (bt, e)) in *.
  destruct (waiting_put bt (Z.to_nat act) act a (a ++ [e]) (fr_maps s) s H2 Ea) as (rest & W & W').
  set (s1 := put_array bt (Z.to_nat act) act (a ++ [e]) (fr_maps s) s) in *.
  rewrite (bind_done _ _ s s1 tt) by (unfold s1, put_array, set_fb, modify, set_array, set_active, act; destruct bt; reflexivity).
  assert (W1 : waiting s1 ≡ₚ x :: waiting s) by (rewrite W, W', fmap_app; cbn; solve_Permutation).
  assert (F1 : can_all (fr_maps s1) (waiting s1))
    by (apply (can_all_perm _ _ _ (symmetry W1)); exact (fr_in_use_all s x Hx)).
  assert (A1 : all_free s1 ≡ₚ map_cells x ++ all_free s)
    by (unfold all_free; rewrite W1, bind_cons, app_assoc; reflexivity).
  assert (N1 : forall y, map_cells y ## map_cells x -> map_cells y ## (waiting s ≫= map_cells) ->
    map_cells y ## (waiting s1 ≫= map_cells)).
  { intros y Y1 Y2 z Z1. rewrite W1, bind_cons, elem_of_app. intros [Z2|Z2]; [now apply (Y1 z)|now apply (Y2 z)]. }
  destruct (Z.leb_spec SAM_FB_ARRAY_LEN (Z.of_nat (length a) + 1)) as [Hf|Hf]; cbn [when].
  - assert (T1 : two_arrays (bt_get (fr_fb s1) bt)).
    { unfold s1, put_array. destruct bt; cbn; (split; [exact Ha|cbn; rewrite length_insert; exact H2]). }
    assert (E1 : fb_array (bt_get (fr_fb s1) bt) !! Z.to_nat act = Some (a ++ [e])).
    { assert (Hlt : (Z.to_nat act < length (fb_array (bt_get (fr_fb s) bt)))%nat) by (eapply lookup_lt_Some, Ea).
      unfold s1, put_array. destruct bt; cbn in *; now rewrite list_lookup_insert_eq. }
    destruct (release_spec bt act (a ++ [e]) s1 Ha T1 E1 F1) as (m' & E' & T').
    destruct (release_moves bt act (a ++ [e]) s1 _ m' T1 E1 eq_refl T' F1) as (A2 & W2 & F2).
    eexists. split; [exact E'|]. split; [now rewrite A2|]. assert (Ep : put_array bt (Z.to_nat act) (Z.land (act + 1) 1) [] m' s1 =
      put_array bt (Z.to_nat act) (Z.land (act + 1) 1) [] m' s).
    { unfold s1, put_array, set_array, set_active. destruct bt; cbn; now rewrite list_insert_insert_eq. }
    rewrite Ep in *.
    assert (Hok' : frs_ok (put_array bt (Z.to_nat act) (Z.land (act + 1) 1) [] m' s))
      by (apply frs_ok_put; auto using flip_active; unfold SAM_FB_ARRAY_LEN; cbn; lia).
    split; [|exact Hok']. intros y Hy (_ & Cy & Ny). specialize (N1 y Hy Ny). split; [exact Hok'|]. split.
    + apply (proj2 (proj2 T')); [|exact Cy]. intros z Z1 Z2. apply (N1 z Z1). rewrite W2, bind_app, elem_of_app. now left.
    + intros z Z1 Z2. apply (N1 z Z1). rewrite W2, bind_app, elem_of_app. now right.
  - exists s1. split; [reflexivity|]. split; [exact A1|].
    assert (Hok' : frs_ok s1) by (apply frs_ok_put; auto; rewrite length_app; cbn; lia).
    split; [|exact Hok']. intros y Hy (_ & Cy & Ny). split; [exact Hok'|]. split; [exact Cy|now apply N1].
Qed.

(** The contract of [sam_free_block], as the truncation code relies on it. *)
Lemma free_block_spec (s : frs Mp) (bt : btype) (e : ext) :
  fr_in_use s (bt, e) ->
  exists s', sam_free_block bt e s = Done tt s' /\ all_free s' ≡ₚ map_cells (bt, e) ++ all_free s /\
    (forall y, map_cells y ## map_cells (bt, e) -> fr_in_use s y -> fr_in_use s' y) /\ frs_ok s'.
Proof.
  intros (Hok & Hc & Hn). pose proof (fb_ok_get bt s Hok) as Hp. pose proof Hp as (Ha & H2 & HF).
  destruct (active_array _ Hp) as (a & Ea & La). set (p := bt_get (fr_fb s) bt) in *. set (act := fb_active p) in *.
  unfold sam_free_block. rewrite (bind_done _ _ s s s) by reflexivity. fold p act.
  rewrite (bind_done _ _ s s tt).
  2:{ unfold assert, SAM_NO_FB_ARRAY. destruct (Z.ltb_spec act 2); [reflexivity|lia]. }
  rewrite (bind_done _ _ s s a).
  2:{ unfold get_array. rewrite (bind_done _ _ s s s) by reflexivity. unfold id. fold p. now rewrite Ea. }
  rewrite (bind_done _ _ s s tt).
  2:{ unfold assert. destruct (Z.ltb_spec (Z.of_nat (length a)) SAM_FB_ARRAY_LEN); [reflexivity|lia]. }
  destruct (negb (blk_reserved (fr_maps s)) && negb (is_sm bt) && inoblk_dev (fr_maps s) (snd e)) eqn:Er.
  - apply andb_prop in Er as [Er Ed]. apply andb_prop in Er as [Er Eb]. apply negb_true_iff in Er.
    destruct bt; [discriminate|]. destruct (reserve_spec _ _ (proj1 (fk_can _ Hok)) Hc Er Ed) as (O & P & U). eexists. split; [reflexivity|].
    apply (kept (LG, e) s _ (conj Hok (conj Hc Hn))). now apply took_one.
  - now apply queued.
Qed.

(** ** Emptying the arrays *)

Definition array_of (s : frs Mp) (bt : btype) (i : Z) : option (list ext) := fb_array (bt_get (fr_fb s) bt) !! Z.to_nat i.

Lemma fr_in_use_moved (s s' : frs Mp) (l : list (btype * ext)) (y : btype * ext) :
  frs_ok s' -> waiting s ≡ₚ l ++ waiting s' -> took l (fr_maps s) (fr_maps s') -> fr_in_use s y -> fr_in_use s' y.
Proof.
  intros Hok W T (_ & Cy & Ny). split; [exact Hok|]. split.
  - apply (proj2 (proj2 T)); [|exact Cy]. intros z Z1 Z2. apply (Ny z Z1). rewrite W, bind_app, elem_of_app. now left.
  - intros z Z1 Z2. apply (Ny z Z1). rewrite W, bind_app, elem_of_app. now right.
Qed.

(** One array is emptied into the maps, the others stay. *)
Lemma release_step (bt : btype) (active : Z) (s : frs Mp) :
  active = 0 \/ active = 1 -> frs_ok s ->
  exists a s', array_of s bt active = Some a /\ sam_release_blocks bt active s = Done tt s' /\ frs_ok s' /\
    all_free s' ≡ₚ all_free s /\ waiting s ≡ₚ (pair bt <$> a) ++ waiting s' /\ (forall y, fr_in_use s y -> fr_in_use s' y) /\
    fb_active (bt_get (fr_fb s') bt) = Z.land (active + 1) 1 /\ array_of s' bt active = Some [] /\
    (forall bt' i, (bt', Z.to_nat i) <> (bt, Z.to_nat active) -> array_of s' bt' i = array_of s bt' i).
Proof.
  intros Ha Hok. pose proof (fb_ok_get bt s Hok) as (Hact & H2 & _).
  destruct (lookup_lt_is_Some_2 (fb_array (bt_get (fr_fb s) bt)) (Z.to_nat active)) as [a Ea]; [lia|].
  assert (T2 : two_arrays (bt_get (fr_fb s) bt)) by now split.
  destruct (release_spec bt active a s Ha T2 Ea (fk_can _ Hok)) as (m' & E & T).
  destruct (release_moves bt active a s _ m' T2 Ea eq_refl T (fk_can _ Hok)) as (A & W & F).
  assert (Hok' : frs_ok (put_array bt (Z.to_nat active) (Z.land (active + 1) 1) [] m' s))
    by (apply frs_ok_put; auto using flip_active; reflexivity).
  exists a. eexists. split; [exact Ea|]. split; [exact E|]. split; [exact Hok'|]. split; [exact A|]. split; [exact W|].
  split; [intros y; now apply fr_in_use_moved with (pair bt <$> a)|]. unfold array_of, put_array.
  split; [destruct bt; reflexivity|]. split; [destruct bt; cbn; rewrite list_lookup_insert_eq by (cbn in *; lia); reflexivity|].
  intros bt' i Hne. destruct bt, bt'; cbn; try reflexivity; rewrite list_lookup_insert_ne; auto; congruence.
Qed.

Lemma no_waiting (s : frs Mp) :
  frs_ok s -> (forall bt i, i = 0 \/ i = 1 -> array_of s bt i = Some []) -> waiting s = [].
Proof.
  intros Hok H. unfold waiting, waiting_of.
  assert (E : forall bt, concat (fb_array (bt_get (fr_fb s) bt)) = []).
  { intros bt. pose proof (fb_ok_get bt s Hok) as (_ & H2 & _).
    pose proof (H bt 0 (or_introl eq_refl)) as H0. pose proof (H bt 1 (or_intror eq_refl)) as H1. unfold array_of in *.
    destruct (fb_array _) as [|x [|y [|? ?]]]; try discriminate. change (Z.to_nat 0) with 0%nat in H0.
    change (Z.to_nat 1) with 1%nat in H1. injection H0 as ->. injection H1 as ->. reflexivity. }
  rewrite (E SM : concat (fb_array (at_sm (fr_fb s))) = []), (E LG : concat (fb_array (at_lg (fr_fb s))) = []). reflexivity.
Qed.

(** The state after arrays have been emptied. *)
Definition settled (s s' : frs Mp) : Prop :=
  frs_ok s' /\ all_free s' ≡ₚ all_free s /\ (forall y, fr_in_use s y -> fr_in_use s' y) /\
  (forall bt i, array_of s bt i = Some [] -> array_of s' bt i = Some []).

Lemma settled_trans (s s1 s2 : frs Mp) : settled s s1 -> settled s1 s2 -> settled s s2.
Proof.
  intros (_ & A1 & U1 & K1) (O2 & A2 & U2 & K2). split; [exact O2|]. split; [now rewrite A2|]. split; auto.
Qed.

Lemma release_settles (bt : btype) (active : Z) (s : frs Mp) :
  active = 0 \/ active = 1 -> frs_ok s ->
  exists s', sam_release_blocks bt active s = Done tt s' /\ settled s s' /\ array_of s' bt active = Some [].
Proof.
  intros Ha Hok. destruct (release_step bt active s Ha Hok) as (a & s' & _ & E & O & A & _ & U & _ & R & K).
  exists s'. split; [exact E|]. split; [|exact R]. split; [exact O|]. split; [exact A|]. split; [exact U|].
  intros bt' i Hi. destruct (decide ((bt', Z.to_nat i) = (bt, Z.to_nat active))) as [[= -> Ei]|Hne].
  - unfold array_of in *. now rewrite Ei.
  - now rewrite K.
Qed.

Lemma drain_all (l : list (btype * Z)) (s : frs Mp) :
  Forall (fun x => snd x = 0 \/ snd x = 1) l -> frs_ok s ->
  exists s', for_each l (fun '(bt, active) => sam_release_blocks bt active) s = Done tt s' /\ settled s s' /\
    forall bt i, (bt, i) ∈ l -> array_of s' bt i = Some [].
Proof.
  revert s. induction l as [|[bt i] l IH]; intros s Hl Hok.
  - exists s. split; [reflexivity|]. split; [|intros bt i H; inversion H]. split; [exact Hok|]. split; [reflexivity|auto].
  - apply Forall_cons in Hl as [Hi Hl]. destruct (release_settles bt i s Hi Hok) as (s1 & E1 & S1 & R1).
    destruct (IH s1 Hl (proj1 S1)) as (s2 & E2 & S2 & R2). exists s2. cbn [for_each]. rewrite (bind_done _ _ _ _ _ E1).
    split; [exact E2|]. split; [eapply settled_trans; eauto|]. intros bt' i' [[= -> ->]|Hin]%elem_of_cons; [|auto].
    now apply S2.
Qed.

(** ** [sam_merge_blocks] *)

Lemma merge_array_release (bt : btype) (active : Z) (a : list ext) (s s' : frs Mp) :
  array_of s bt active = Some a -> sam_release_blocks bt active s = Done tt s' ->
  merge_array bt active s = Done (Z.of_nat (length a)) s'.
Proof.
  intros Ea. unfold array_of in Ea. unfold sam_release_blocks, merge_array, get_array, set_fb, modify, mbind, M_bind, gets, id.
  assert (E : fb_array (bt_get (bt_set (fr_fb s) bt (set_active (Z.land (active + 1) 1) (bt_get (fr_fb s) bt))) bt) !!
    Z.to_nat active = Some a) by (destruct bt; exact Ea).
  cbn [fr_fb]. rewrite E. cbn [deref]. unfold mret, M_ret.
  destruct (for_each a (merge_one bt) _) as [u x|f]; [|discriminate]. now intros [= ->].
Qed.

(** Blocks that wait in an array. *)
Definition pending (s : frs Mp) (bt : btype) (i : Z) : nat := length (default [] (array_of s bt i)).

Lemma waiting_length (s : frs Mp) :
  frs_ok s -> length (waiting s) = (pending s SM 0 + pending s SM 1 + (pending s LG 0 + pending s LG 1))%nat.
Proof.
  intros Hok. unfold waiting, waiting_of. rewrite length_app, !length_fmap.
  assert (E : forall bt, length (concat (fb_array (bt_get (fr_fb s) bt))) = (pending s bt 0 + pending s bt 1)%nat).
  { intros bt. pose proof (fb_ok_get bt s Hok) as (_ & H2 & _). unfold pending, array_of.
    change (Z.to_nat 0) with 0%nat. change (Z.to_nat 1) with 1%nat.
    destruct (fb_array _) as [|x [|y [|? ?]]]; try discriminate. cbn. rewrite app_nil_r. apply length_app. }
  now rewrite (E SM : length (concat (fb_array (at_sm (fr_fb s)))) = _), (E LG : length (concat (fb_array (at_lg (fr_fb s)))) = _).
Qed.

Lemma merge_array_spec (bt : btype) (active : Z) (s : frs Mp) :
  active = 0 \/ active = 1 -> frs_ok s ->
  exists s', merge_array bt active s = Done (Z.of_nat (pending s bt active)) s' /\ settled s s' /\
    array_of s' bt active = Some [] /\ fb_active (bt_get (fr_fb s') bt) = Z.land (active + 1) 1 /\
    (forall bt' i, (bt', Z.to_nat i) <> (bt, Z.to_nat active) -> array_of s' bt' i = array_of s bt' i).
Proof.
  intros Ha Hok. destruct (release_step bt active s Ha Hok) as (a & s' & Ea & E & O & A & _ & U & F & R & K).
  exists s'. unfold pending. rewrite Ea. split; [now apply merge_array_release|].
  destruct (release_settles bt active s Ha Hok) as (s'' & E' & S' & _). rewrite E in E'. injection E' as <-. auto.
Qed.

Lemma merge_type_spec (bt : btype) (s : frs Mp) :
  frs_ok s -> exists s', merge_type bt s = Done (Z.of_nat (pending s bt 0 + pending s bt 1)) s' /\ settled s s' /\
    (forall i, i = 0 \/ i = 1 -> array_of s' bt i = Some []) /\
    (forall bt' i, bt' <> bt -> array_of s' bt' i = array_of s bt' i).
Proof.
  intros Hok. pose proof (fb_ok_get bt s Hok) as (Ha & H2 & _). unfold merge_type.
  rewrite (bind_done _ _ s s s) by reflexivity. unfold id. set (a := fb_active (bt_get (fr_fb s) bt)) in *.
  set (f := Z.land (a + 1) 1). assert (Hf : (a = 0 /\ f = 1 /\ Z.land (f + 1) 1 = 0) \/ (a = 1 /\ f = 0 /\ Z.land (f + 1) 1 = 1))
    by (unfold f; destruct Ha as [-> | ->]; cbn; auto).
  destruct (merge_array_spec bt f s) as (s1 & E1 & S1 & R1 & _ & K1); [lia|exact Hok|].
  destruct (merge_array_spec bt (Z.land (f + 1) 1) s1) as (s2 & E2 & S2 & R2 & _ & K2); [lia|apply S1|].
  exists s2. rewrite (bind_done _ _ _ _ _ E1), (bind_done _ _ _ _ _ E2).
  assert (Ep : pending s1 bt (Z.land (f + 1) 1) = pending s bt (Z.land (f + 1) 1)).
  { unfold pending. rewrite K1; [reflexivity|]. intros [= H]. lia. }
  split; [rewrite Ep; unfold mret, M_ret; f_equal; destruct Hf as [(_ & -> & ->)|(_ & -> & ->)]; lia|].
  split; [eapply settled_trans; eauto|]. split.
  - intros i Hi. destruct (decide (i = Z.land (f + 1) 1)) as [->|Hne]; [exact R2|]. rewrite K2; [|intros [= H]; lia].
    replace i with f by lia. exact R1.
  - intros bt' i Hb. rewrite K2, K1; [reflexivity| |]; intros [= H _]; contradiction.
Qed.

Lemma settled_maps (s : frs Mp) (m' : Mp) :
  frs_ok s -> maps_ok m' -> maps_pool m' ≡ₚ maps_pool (fr_maps s) -> (forall y, can (fr_maps s) y -> can m' y) ->
  settled s (mk_frs (fr_fb s) m').
Proof.
  intros [H1 H2 (_ & N & F)] O P U.
  assert (Hok : frs_ok (mk_frs (fr_fb s) m'))
    by (constructor; auto; split; [exact O|]; split; [exact N|]; eapply Forall_impl; [exact F|exact U]).
  split; [exact Hok|]. split; [unfold all_free, waiting; cbn; now rewrite P|].
  split; [|auto]. intros y (_ & Cy & Ny). split; [exact Hok|]. split; [now apply U|exact Ny].
Qed.

(** Unmounting gives back the block that is kept for the .blocks file. *)
Lemma unreserve_settles (s : frs Mp) :
  frs_ok s -> blk_reserved (fr_maps s) = true ->
  exists s', (maps (sam_free_lg_block (reserve (fr_maps s)));;
     modify (fun s => mk_frs (fr_fb s) (set_reserve (0, snd (reserve (fr_maps s))) (fr_maps s)))) s = Done tt s' /\
    settled s s' /\ blk_reserved (fr_maps s') = false /\ fr_fb s' = fr_fb s.
Proof.
  intros Hok Hr. destruct (unreserve_spec (fr_maps s) (proj1 (fk_can _ Hok)) Hr) as (r & m' & E & O & B & P & U).
  rewrite (bind_done _ _ s (mk_frs (fr_fb s) m') r) by (unfold maps; now rewrite E).
  exists (mk_frs (fr_fb s) (set_reserve (0, snd (reserve m')) m')). split; [reflexivity|].
  split; [now apply settled_maps|]. auto.
Qed.

(** What [sam_merge_blocks] does. *)
Lemma merge_blocks_spec (closing : bool) (s : frs Mp) :
  frs_ok s ->
  exists s', sam_merge_blocks closing s = Done (Z.of_nat (length (waiting s))) s' /\ settled s s' /\ waiting s' = [] /\
    (closing = true -> blk_reserved (fr_maps s') = false).
Proof.
  intros Hok. unfold sam_merge_blocks.
  destruct (merge_type_spec SM s Hok) as (s1 & E1 & S1 & R1 & K1). rewrite (bind_done _ _ _ _ _ E1).
  destruct (merge_type_spec LG s1 (proj1 S1)) as (s2 & E2 & S2 & R2 & K2). rewrite (bind_done _ _ _ _ _ E2).
  assert (Ep : forall i, pending s1 LG i = pending s LG i) by (intros i; unfold pending; now rewrite K1).
  set (n := Z.of_nat (pending s SM 0 + pending s SM 1) + Z.of_nat (pending s1 LG 0 + pending s1 LG 1)).
  assert (En : n = Z.of_nat (length (waiting s))) by (unfold n; rewrite waiting_length, !Ep by exact Hok; lia).
  assert (H3 : exists s3, when (negb (n =? 0)) (modify (fun s => mk_frs (fr_fb s) (sum_space (fr_maps s)))) s2 = Done tt s3 /\
    settled s2 s3 /\ fr_fb s3 = fr_fb s2).
  { destruct (negb (n =? 0)); cbn [when]; eexists; (split; [reflexivity|]); (split; [|reflexivity]).
    - destruct (sum_spec (fr_maps s2) (proj1 (fk_can _ (proj1 S2)))) as (O & P & U). apply settled_maps; auto; [apply S2|now rewrite P].
    - split; [apply S2|]. split; [reflexivity|auto]. }
  destruct H3 as (s3 & E3 & S3 & F3). rewrite (bind_done _ _ _ _ _ E3), (bind_done _ _ s3 s3 s3) by reflexivity.
  unfold id. assert (H4 : exists s4, when (closing && blk_reserved (fr_maps s3))
     (maps (sam_free_lg_block (reserve (fr_maps s3)));;
      modify (fun s => mk_frs (fr_fb s) (set_reserve (0, snd (reserve (fr_maps s))) (fr_maps s)))) s3 = Done tt s4 /\
    settled s3 s4 /\ fr_fb s4 = fr_fb s3 /\ (closing = true -> blk_reserved (fr_maps s4) = false)).
  { destruct closing, (blk_reserved (fr_maps s3)) eqn:Er; cbn [andb when].
    - destruct (unreserve_settles s3 (proj1 S3) Er) as (s4 & E4 & S4 & B4 & F4). exists s4. auto.
    - exists s3. split; [reflexivity|]. split; [split; [apply S3|split; [reflexivity|auto]]|auto].
    - exists s3. split; [reflexivity|]. split; [split; [apply S3|split; [reflexivity|auto]]|split; [auto|discriminate]].
    - exists s3. split; [reflexivity|]. split; [split; [apply S3|split; [reflexivity|auto]]|split; [auto|discriminate]]. }
  destruct H4 as (s4 & E4 & S4 & F4 & B4). rewrite (bind_done _ _ _ _ _ E4). exists s4. rewrite En.
  split; [reflexivity|]. split; [do 3 (eapply settled_trans; [eassumption|]); exact S4|]. split; [|exact B4].
  apply no_waiting; [apply S4|]. intros bt i Hi. unfold array_of. rewrite F4, F3. destruct bt; [apply S2, R1|apply R2]; exact Hi.
Qed.
End Laws.
