(* ===== verification/SmallBlocks.v ===== *)
(** * The file of free small blocks

    Free small blocks are recorded in the hidden file .blocks, an array of entries that name
    a large block and its free parts, up to an entry that marks the end.
    [sam_merge_sm_blks] (src/src/fs/samfs/update.c) enters a freed small block, and gives
    the large block back when all its parts are free; [sam_get_sm_blklist] (block.c) takes
    small blocks from the file into the pools.

    The file is the list of its entries. Reading and writing it goes through
    [sam_map_block] and the buffer cache, whose outcomes are a list of error numbers. *)

From S2P Require Import Prelude Dau Extent Monad FileTree BlockPool.


(** [sam_inoblk_t], eight bytes. *)
Record inoblk : Type := mk_inoblk { ib_bn : Z; ib_ord : Z; ib_free : Z }.
Definition ib_zero : inoblk := mk_inoblk 0 0 0.
Definition ib_end : inoblk := mk_inoblk 0xffffffff 0 0.
Definition is_end (x : inoblk) : bool := ib_bn x =? 0xffffffff.

(** Fields of the mount table and the superblock. *)
Record sconf : Type := mk_sconf {
  sc_count : Z;                     (* fs_count *)
  sc_shift : Z;                     (* m_bn_shift *)
  sc_system : Z -> Z;               (* eq[ord].fs.system *)
  sc_capacity : Z -> Z;             (* eq[ord].fs.capacity *)
  sc_type : Z -> Extent.dtype;      (* MM for a partition of type DT_META *)
  sc_noalloc : Z -> bool;           (* m_fs[ord].part.pt_state == DEV_NOALLOC *)
  sc_dau : Extent.dtype -> sam_dau_t
}.

(** The free map, the block that is kept for .blocks and the pools of small blocks. *)
Class LargeMaps (Mp : Type) : Type := {
  lm_free_lg_block : ext -> M Mp Z;                    (* sam_free_lg_block *)
  lm_reserve : Mp -> ext;                              (* m_blk_bn, m_blk_ord *)
  lm_set_reserve : ext -> Mp -> Mp;
  lm_inoblk : Mp -> Z -> bool;                         (* the ordinal has the type of .blocks *)
  lm_sum : Mp -> Mp;                                   (* totals of the superblock *)
  lm_pool : Mp -> Z -> option sam_block;               (* m_fs[ord].block[SM] *)
  lm_set_pool : Z -> sam_block -> Mp -> Mp
}.

(** .blocks, [m_inoblk_blocks], the outcomes of the coming accesses to .blocks, the request
    for fsck, and the maps. *)
Record sbs (Mp : Type) : Type := mk_sbs {
  sb_file : list inoblk; sb_blocks : Z; sb_io : list Z; sb_fsck : bool; sb_maps : Mp
}.
Arguments mk_sbs {Mp} _ _ _ _ _.
Arguments sb_file {Mp} _.
Arguments sb_blocks {Mp} _.
Arguments sb_io {Mp} _.
Arguments sb_fsck {Mp} _.
Arguments sb_maps {Mp} _.

Section Code.
Context {Mp : Type} `{!LargeMaps Mp} (c : sconf).

Definition upd_file (f : list inoblk -> list inoblk) : M (sbs Mp) unit :=
  modify (fun s => mk_sbs (f (sb_file s)) (sb_blocks s) (sb_io s) (sb_fsck s) (sb_maps s)).
Definition upd_count (f : Z -> Z) : M (sbs Mp) unit :=
  modify (fun s => mk_sbs (sb_file s) (f (sb_blocks s)) (sb_io s) (sb_fsck s) (sb_maps s)).
Definition req_fsck : M (sbs Mp) unit :=
  modify (fun s => mk_sbs (sb_file s) (sb_blocks s) (sb_io s) true (sb_maps s)).
Definition upd_maps (f : Mp -> Mp) : M (sbs Mp) unit :=
  modify (fun s => mk_sbs (sb_file s) (sb_blocks s) (sb_io s) (sb_fsck s) (f (sb_maps s))).
Definition lift {A : Type} (m : M Mp A) : M (sbs Mp) A := fun s =>
  match m (sb_maps s) with
  | Done a x => Done a (mk_sbs (sb_file s) (sb_blocks s) (sb_io s) (sb_fsck s) x)
  | Fault f => Fault f
  end.

(** The error of the next access. *)
Definition io : M (sbs Mp) Z := fun s =>
  match sb_io s with
  | [] => Done 0 s
  | e :: q => Done e (mk_sbs (sb_file s) (sb_blocks s) q (sb_fsck s) (sb_maps s))
  end.
(** [sam_map_block] and [SAM_BREAD]. *)
Definition read_blk : M (sbs Mp) Z :=
  error ← io; if negb (error =? 0) then mret error else io.

(** Entries in a block of the file. *)
Definition per_blk : nat := Z.to_nat (at_sm (size (sc_dau c MM)) / 8).

Definition dau_at (ord : Z) : sam_dau_t := sc_dau c (sc_type c ord).
(** The large block and the part of a small block number in kilobytes. *)
Definition lg_bn (ord bn : Z) : Z := Z.land bn (Z.lnot (sm_bmask (dau_at ord))).
Definition part_of (ord bn : Z) : Z := Z.shiftr (Z.land bn (sm_bmask (dau_at ord))) (at_sm (dif_shift (dau_at ord))).

(** ** [sam_merge_sm_blks] *)

Inductive scanned : Type :=
  | ScanErr (error : Z)                                  (* a block cannot be read *)
  | ScanHit (i : nat)                                    (* the entry of the large block *)
  | ScanEnd (i full : nat) (empty : option nat)          (* the end of the list *)
  | ScanOut.                                             (* the end of the file *)

(** The entries [l] from index [i] on; [full] is the last full entry, [empty] the first
    empty one. *)
Fixpoint sm_scan (bn ord : Z) (l : list inoblk) (i full : nat) (empty : option nat) : M (sbs Mp) scanned :=
  match l with
  | [] => mret ScanOut
  | x :: rest =>
      error ← (if Nat.eqb (i mod per_blk) 0 then read_blk else mret 0);
      if negb (error =? 0) then mret (ScanErr error)
      else if is_end x then mret (ScanEnd i full empty)
      else if negb (ib_bn x =? 0) then
        if (Z.shiftl (ib_bn x) (sc_shift c) =? lg_bn ord bn) && (ib_ord x =? ord) then mret (ScanHit i)
        else sm_scan bn ord rest (S i) i empty
      else sm_scan bn ord rest (S i) full (match empty with None => Some i | _ => empty end)
  end.

(** [m_inoblk_blocks] is reduced. *)
Definition less_blocks (n : Z) : M (sbs Mp) unit :=
  upd_count (fun b => if b - n <? 0 then 0 else b - n).

(** The entry [i] of the large block has a new free part. *)
Definition sm_hit (bn ord : Z) (i : nat) : M (sbs Mp) Z :=
  s ← gets id;
  x ← deref (sb_file s !! i);
  let free := uwrap 16 (Z.lor (ib_free x) (Z.shiftl 1 (part_of ord bn))) in
  upd_file (insert i (mk_inoblk (ib_bn x) (ib_ord x) free));;
  when (free =? sm_bits (dau_at ord))
    (r ← lift (lm_free_lg_block (ib_bn x, ord));
     when (r =? 0)
       (upd_file (insert i ib_zero);;
        less_blocks (at_lg (kblocks (dau_at ord)))));;
  mret 0.

(** The block of the file that starts at entry [i] is created: cleared, with an end mark. *)
Definition new_blk (i : nat) : M (sbs Mp) unit :=
  upd_file (fun l => take i l ++ ib_end :: replicate (per_blk - 1) ib_zero ++ drop (i + per_blk) l).

(** There is no end mark in the file. *)
Definition sm_no_end : M (sbs Mp) Z :=
  s ← gets id;
  error ← io;
  if negb (error =? 0) then mret error
  else
    failed ← io;
    when (failed =? 0) (new_blk (length (sb_file s)));;
    mret EIO.

Definition sm_entry (bn ord : Z) : inoblk :=
  mk_inoblk (u32 (Z.shiftr (lg_bn ord bn) (sc_shift c))) (uwrap 16 ord) (uwrap 16 (Z.shiftl 1 (part_of ord bn))).

(** The end mark goes to the entry after [full]. *)
Definition sm_mark (ord : Z) (full : nat) : M (sbs Mp) Z :=
  let next := S full in
  if Z.land (8 * Z.of_nat next) (at_sm (mask (dau_at ord))) =? 0 then
    error ← io;
    if negb (error =? 0) then mret error
    else new_blk next;; mret 0
  else upd_file (insert next ib_end);; mret 0.

(** The block is entered at the first empty entry, or at the end. *)
Definition sm_insert (bn ord : Z) (e full : nat) (empty : option nat) : M (sbs Mp) Z :=
  match empty with
  | Some i =>
      error ← (if negb (Nat.eqb (i / per_blk) (e / per_blk)) then read_blk else mret 0);
      if negb (error =? 0) then mret error
      else
        upd_file (insert i (sm_entry bn ord));;
        upd_count (fun b => b + at_sm (kblocks (dau_at ord)));;
        if Nat.ltb i full then mret 0 else sm_mark ord i
  | None =>
      upd_file (insert e (sm_entry bn ord));;
      upd_count (fun b => b + at_sm (kblocks (dau_at ord)));;
      sm_mark ord e
  end.

Definition sam_merge_sm_blks (x : ext) : M (sbs Mp) Z :=
  let '(b, ord) := x in
  let bn := Z.shiftl b (sc_shift c) in
  if (sc_count c <=? ord) || (bn <? sc_system c ord) || (sc_system c ord =? 0) || (sc_capacity c ord <? bn)
  then mret ERANGE
  else
    s ← gets id;
    r ← sm_scan bn ord (sb_file s) 0 0 None;
    match r with
    | ScanErr error => mret error
    | ScanHit i => sm_hit bn ord i
    | ScanEnd i full empty => sm_insert bn ord i full empty
    | ScanOut => sm_no_end
    end.

(** ** [sam_get_sm_blklist] *)

Definition set_pool (ord : Z) (b : sam_block) : M (sbs Mp) unit := upd_maps (lm_set_pool ord b).

(** The parts of the entry from part [j] on, at the block number [bnx]; the entry and
    [modified] change. *)
Fixpoint take_parts (left : nat) (j bnx : Z) (x : inoblk) (modified : bool) : M (sbs Mp) (inoblk * bool) :=
  match left with
  | O => mret (x, modified)
  | S left' =>
      let next := bnx + at_sm (kblocks (dau_at (ib_ord x))) in
      if negb (Z.land (ib_free x) (Z.shiftl 1 j) =? 0) then
        if (bnx <? sc_system c (ib_ord x)) || (sc_capacity c (ib_ord x) <? bnx) then
          req_fsck;; mret (ib_zero, true)
        else
          s ← gets id;
          b ← deref (lm_pool (sb_maps s) (ib_ord x));
          let i := next_fill b in
          if negb (i =? b_out b) then
            set_pool (ib_ord x) (set_b_fill i (set_b_bn (b_fill b) (u32 (Z.shiftr bnx (sc_shift c))) b));;
            less_blocks (at_sm (kblocks (dau_at (ib_ord x))));;
            take_parts left' (j + 1) next
              (mk_inoblk (ib_bn x) (ib_ord x) (Z.land (ib_free x) (Z.lnot (Z.shiftl 1 j)))) true
          else take_parts left' (j + 1) next x modified
      else take_parts left' (j + 1) next x modified
  end.

(** One entry. [m_fs] is an array of [fs_count] elements: when the ordinal of the entry is not
    below it, the state that decides about the entry is read behind the array. *)
Definition take_entry (x : inoblk) (modified : bool) : M (sbs Mp) (inoblk * bool) :=
  if negb (ib_bn x =? 0) && negb (ib_free x =? 0) then
    s ← gets id;
    match (if sc_count c <=? ib_ord x then None else lm_pool (sb_maps s) (ib_ord x)) with
    | None =>
        if sc_count c <=? ib_ord x then fail WildPointer
        else if negb (sc_noalloc c (ib_ord x)) then req_fsck;; mret (ib_zero, true)
        else mret (x, modified)
    | Some _ =>
        r ← take_parts (Z.to_nat (sm_blkcount (dau_at (ib_ord x)))) 0 (Z.shiftl (ib_bn x) (sc_shift c)) x modified;
        let '(x1, modified1) := r in
        mret (if ib_free x1 =? 0 then mk_inoblk 0 0 (ib_free x1) else x1, modified1)
    end
  else mret (x, modified).

(** The entries of a block up to an end mark; whether there was one. *)
Fixpoint take_entries (l : list inoblk) (modified : bool) : M (sbs Mp) (list inoblk * bool * bool) :=
  match l with
  | [] => mret ([], modified, false)
  | x :: rest =>
      if is_end x then mret (l, modified, true)
      else
        r ← take_entry x modified;
        let '(x1, modified1) := r in
        r2 ← take_entries rest modified1;
        let '(rest1, modified2, found) := r2 in
        mret (x1 :: rest1, modified2, found)
  end.

Definition ords_list : list Z := seqZ 0 (sc_count c).

(** The blocks that have been filled in become available. *)
Definition publish : M (sbs Mp) unit :=
  for_each ords_list (fun ord =>
    s ← gets id;
    match lm_pool (sb_maps s) ord with
    | None => mret tt
    | Some b =>
        let b1 := commit_fill b in
        set_pool ord (set_b_count (BLOCK_COUNT (b_in b1) (b_out b1) (b_limit b1)) b1)
    end).

(** The block at entry [i] is written with the entries [l], and the pools follow. *)
Definition write_blk (i : nat) (l : list inoblk) : M (sbs Mp) unit :=
  failed ← io;
  when (failed =? 0)
    (upd_file (fun f => take i f ++ l ++ drop (i + length l) f);; publish).

(** Block after block, from entry [i] on. *)
Fixpoint take_blks (fuel : nat) (i : nat) (modified : bool) : M (sbs Mp) bool :=
  match fuel with
  | O => fail OutOfFuel
  | S fuel' =>
      s ← gets id;
      if Nat.leb (length (sb_file s)) i then mret modified
      else
        error ← read_blk;
        if negb (error =? 0) then mret modified
        else
          r ← take_entries (take per_blk (drop i (sb_file s))) modified;
          let '(l, modified1, found) := r in
          when modified1 (write_blk i l);;
          if found : bool then mret modified1 else take_blks fuel' (i + per_blk) modified1
  end.

(** The pools at the start, and the number of partitions that need no small blocks. *)
Definition begin_pools : M (sbs Mp) unit :=
  for_each ords_list (fun ord =>
    s ← gets id;
    match lm_pool (sb_maps s) ord with None => mret tt | Some b => set_pool ord (begin_fill b) end).
Definition half_full (s : sbs Mp) (ord : Z) : bool :=
  match lm_pool (sb_maps s) ord with None => true | Some b => Z.shiftr (b_limit b) 1 <=? b_count b end.

Definition sam_get_sm_blklist : M (sbs Mp) bool :=
  begin_pools;;
  s ← gets id;
  if Z.of_nat (length (List.filter (half_full s) ords_list)) =? sc_count c then mret false
  else take_blks (S (length (sb_file s))) 0 false.
End Code.
