(* ===== verification/SmallGeo.v ===== *)
(** * Small blocks and their large block

    A large block is cut into small ones; an entry of the file of free small blocks names
    those of its parts that are free by the bits of a mask. *)

From S2P Require Import Prelude Dau Extent Monad FileTree BlockPool SmallBlocks.

(** ** Geometry *)

(** Small blocks of [2 ^ sg_a] kilobytes in large ones of [2 ^ sg_b ord]. *)
Record small_geo (c : sconf) : Type := mk_small_geo {
  sg_a : Z;
  sg_b : Z -> Z;
  sg_range : forall ord, 0 <= sc_shift c <= sg_a /\ sg_a <= sg_b ord <= sg_a + 4;
  sg_kb : forall ord, kblocks (dau_at c ord) = mk_per_bt (2 ^ sg_a) (2 ^ sg_b ord);
  sg_dif : forall ord, at_sm (dif_shift (dau_at c ord)) = sg_a;
  sg_bmask : forall ord, sm_bmask (dau_at c ord) = Z.ones (sg_b ord);
  sg_cnt : forall ord, sm_blkcount (dau_at c ord) = 2 ^ (sg_b ord - sg_a);
  sg_bits : forall ord, sm_bits (dau_at c ord) = Z.ones (2 ^ (sg_b ord - sg_a));
  sg_mask : forall ord, at_sm (mask (dau_at c ord)) = Z.ones (sg_a + 10);
  sg_size : at_sm (size (sc_dau c MM)) = 2 ^ (sg_a + 10)
}.
Arguments sg_a {c} _.
Arguments sg_b {c} _ _.

Section Geo.
Context (c : sconf) (G : small_geo c).

(** Parts of a large block on [ord], and the distance of two of them in block numbers. *)
Definition cnt (ord : Z) : Z := 2 ^ (sg_b G ord - sg_a G).
Definition step : Z := 2 ^ (sg_a G - sc_shift c).
Definition part (e : ext) (j : Z) : ext := (fst e + j * step, snd e).
Definition parts (e : ext) : list ext := part e <$> seqZ 0 (cnt (snd e)).

Lemma cnt_range (ord : Z) : 1 <= cnt ord <= 16.
Proof.
  pose proof (sg_range _ G ord). unfold cnt. split.
  - change 1 with (2 ^ 0). apply Z.pow_le_mono_r; lia.
  - change 16 with (2 ^ 4). apply Z.pow_le_mono_r; lia.
Qed.

Lemma step_pos : 0 < step.
Proof. unfold step. pose proof (sg_range _ G 0). apply Z.pow_pos_nonneg; lia. Qed.

Lemma part_inj (e : ext) (i j : Z) : part e i = part e j -> i = j.
Proof. unfold part. intros [= H]. pose proof step_pos. nia. Qed.

Lemma parts_nodup (e : ext) : NoDup (parts e).
Proof. unfold parts. apply NoDup_fmap_2_strong; [|apply NoDup_seqZ]. intros i j _ _. apply part_inj. Qed.

Lemma parts_elem (e x : ext) : x ∈ parts e <-> exists j, 0 <= j < cnt (snd e) /\ x = part e j.
Proof.
  unfold parts. rewrite list_elem_of_fmap. split.
  - intros (j & -> & Hj%elem_of_seqZ). exists j. split; [lia|reflexivity].
  - intros (j & Hj & ->). exists j. split; [reflexivity|]. apply elem_of_seqZ. lia.
Qed.

(** A large block: aligned and within its partition. *)
Record large_ok (e : ext) : Prop := mk_large_ok {
  la_align : exists q, Z.shiftl (fst e) (sc_shift c) = q * 2 ^ sg_b G (snd e);
  la_bn : 0 < fst e < 0xffffffff;
  la_ord : 0 <= snd e < 65536 /\ snd e < sc_count c;
  la_system : 0 < sc_system c (snd e) <= Z.shiftl (fst e) (sc_shift c);
  la_capacity : Z.shiftl (fst e) (sc_shift c) + 2 ^ sg_b G (snd e) <= sc_capacity c (snd e)
}.

(** The block number of a part in kilobytes. *)
Lemma part_bn (e : ext) (j : Z) :
  0 <= j -> Z.shiftl (fst (part e j)) (sc_shift c) = Z.shiftl (fst e) (sc_shift c) + j * 2 ^ sg_a G.
Proof.
  intros Hj. pose proof (sg_range _ G 0). unfold part, step. cbn. rewrite !Z.shiftl_mul_pow2 by lia.
  rewrite Z.mul_add_distr_r, <- Z.mul_assoc, <- Z.pow_add_r by lia. do 3 f_equal. lia.
Qed.

Lemma part_small (e : ext) (j : Z) : 0 <= j < cnt (snd e) -> 0 <= j * 2 ^ sg_a G < 2 ^ sg_b G (snd e).
Proof.
  intros Hj. pose proof (sg_range _ G (snd e)). unfold cnt in Hj.
  assert (E : 2 ^ sg_b G (snd e) = 2 ^ (sg_b G (snd e) - sg_a G) * 2 ^ sg_a G)
    by (rewrite <- Z.pow_add_r by lia; f_equal; lia).
  rewrite E. assert (0 < 2 ^ sg_a G) by (apply Z.pow_pos_nonneg; lia). nia.
Qed.

(** A small block number leads back to its large block and its place in it. *)
Lemma part_place (e : ext) (j : Z) :
  large_ok e -> 0 <= j < cnt (snd e) ->
  let bn := Z.shiftl (fst (part e j)) (sc_shift c) in
  lg_bn c (snd e) bn = Z.shiftl (fst e) (sc_shift c) /\ part_of c (snd e) bn = j.
Proof.
  intros H Hj. cbv zeta. rewrite part_bn by lia. destruct (la_align _ H) as [q Eq]. rewrite Eq.
  pose proof (part_small e j Hj) as Hs. pose proof (sg_range _ G (snd e)). set (b := sg_b G (snd e)) in *.
  unfold lg_bn, part_of. rewrite (sg_bmask _ G), (sg_dif _ G). fold b. split.
  - rewrite <- Z.ldiff_land, Z.ldiff_ones_r by lia. rewrite Z.shiftr_div_pow2, Z.shiftl_mul_pow2 by lia.
    rewrite Z.div_add_l by lia. rewrite Z.div_small by lia. lia.
  - rewrite Z.land_ones by lia. rewrite Z.add_comm, Z.mod_add by lia. rewrite Z.mod_small by lia.
    rewrite Z.shiftr_div_pow2 by lia. apply Z.div_mul. lia.
Qed.

Lemma part_range (e : ext) (j : Z) :
  large_ok e -> 0 <= j < cnt (snd e) ->
  let bn := Z.shiftl (fst (part e j)) (sc_shift c) in
  (sc_count c <=? snd e) || (bn <? sc_system c (snd e)) || (sc_system c (snd e) =? 0) || (sc_capacity c (snd e) <? bn) = false.
Proof.
  intros H Hj. cbv zeta. rewrite part_bn by lia. pose proof (part_small e j Hj). destruct H as [_ _ [_ H1] H2 H3].
  rewrite !orb_false_iff, Z.leb_gt, !Z.ltb_ge, Z.eqb_neq. lia.
Qed.

(** Large blocks with a part in common are the same. *)
Lemma parts_disjoint (e e' x : ext) : large_ok e -> large_ok e' -> x ∈ parts e -> x ∈ parts e' -> e = e'.
Proof.
  intros H H' (j & Hj & ->)%parts_elem (j' & Hj' & E)%parts_elem.
  assert (Eo : snd e = snd e') by (unfold part in E; now injection E).
  destruct (part_place e j H Hj) as [P _]. destruct (part_place e' j' H' Hj') as [P' _].
  rewrite E, Eo, P' in P. pose proof (sg_range _ G 0). rewrite !Z.shiftl_mul_pow2 in P by lia.
  assert (fst e = fst e') by (apply (Z.mul_reg_r _ _ (2 ^ sc_shift c)); [apply Z.pow_nonzero; lia|congruence]).
  destruct e, e'. cbn in *. congruence.
Qed.

Lemma sm_entry_part (e : ext) (j : Z) :
  large_ok e -> 0 <= j < cnt (snd e) ->
  sm_entry c (Z.shiftl (fst (part e j)) (sc_shift c)) (snd e) = mk_inoblk (fst e) (snd e) (2 ^ j).
Proof.
  intros H Hj. unfold sm_entry. destruct (part_place e j H Hj) as [-> ->]. destruct H as [_ H1 H2 _ _].
  pose proof (sg_range _ G 0). pose proof (cnt_range (snd e)).
  rewrite Z.shiftr_shiftl_l, Z.sub_diag, Z.shiftl_0_r by lia. rewrite Z.shiftl_1_l. unfold uwrap.
  rewrite !Z.mod_small; [reflexivity| |lia|lia]. split; [apply Z.pow_nonneg; lia|apply Z.pow_lt_mono_r; lia].
Qed.

(** Entries in a block of the file. *)
Lemma per_blk_val : Z.of_nat (per_blk c) = 2 ^ (sg_a G + 7).
Proof.
  pose proof (sg_range _ G 0). unfold per_blk. rewrite (sg_size _ G).
  replace (sg_a G + 10) with (sg_a G + 7 + 3) by lia. rewrite Z.pow_add_r by lia. change (2 ^ 3) with 8.
  rewrite Z.div_mul by lia. rewrite Z2Nat.id; [reflexivity|apply Z.pow_nonneg; lia].
Qed.

Lemma per_blk_pos : (0 < per_blk c)%nat.
Proof.
  pose proof per_blk_val. pose proof (sg_range _ G 0).
  assert (0 < 2 ^ (sg_a G + 7)) by (apply Z.pow_pos_nonneg; lia). lia.
Qed.

(** An entry starts a block. *)
Lemma at_start (ord : Z) (i : nat) :
  (Z.land (8 * Z.of_nat i) (at_sm (mask (dau_at c ord))) =? 0) = true <-> (i mod per_blk c = 0)%nat.
Proof.
  pose proof (sg_range _ G 0). pose proof per_blk_val as Hp. pose proof per_blk_pos.
  rewrite (sg_mask _ G), Z.land_ones, Z.eqb_eq by lia.
  replace (sg_a G + 10) with (3 + (sg_a G + 7)) by lia. rewrite Z.pow_add_r, <- Hp by lia. change (2 ^ 3) with 8.
  rewrite Zmult_mod_distr_l. rewrite <- Nat2Z.inj_mod. lia.
Qed.

(** ** Entries *)

Definition key (x : inoblk) : ext := (ib_bn x, ib_ord x).
Definition empty (x : inoblk) : bool := ib_bn x =? 0.

(** The parts of a large block whose bits are set. *)
Definition bit_cells (e : ext) (free : Z) : list ext :=
  part e <$> base.filter (fun j => Z.testbit free j = true) (seqZ 0 (cnt (snd e))).
Definition entry_cells (x : inoblk) : list ext := if empty x then [] else bit_cells (key x) (ib_free x).

Lemma bit_cells_elem (e x : ext) (free : Z) :
  x ∈ bit_cells e free <-> exists j, 0 <= j < cnt (snd e) /\ Z.testbit free j = true /\ x = part e j.
Proof.
  unfold bit_cells. rewrite list_elem_of_fmap. split.
  - intros (j & -> & [Hb Hj%elem_of_seqZ]%list_elem_of_filter). exists j. split; [lia|auto].
  - intros (j & Hj & Hb & ->). exists j. split; [reflexivity|]. apply list_elem_of_filter. split; [exact Hb|].
    apply elem_of_seqZ. lia.
Qed.

Lemma bit_cells_parts (e x : ext) (free : Z) : x ∈ bit_cells e free -> x ∈ parts e.
Proof. intros (j & Hj & _ & ->)%bit_cells_elem. apply parts_elem. eauto. Qed.

Lemma bit_cells_nodup (e : ext) (free : Z) : NoDup (bit_cells e free).
Proof. unfold bit_cells. apply NoDup_fmap_2_strong; [|apply NoDup_filter, NoDup_seqZ]. intros i j _ _. apply part_inj. Qed.

(** One more part. *)
Lemma bit_cells_lor (e : ext) (free j : Z) :
  0 <= j < cnt (snd e) -> Z.testbit free j = false ->
  bit_cells e (Z.lor free (2 ^ j)) ≡ₚ part e j :: bit_cells e free.
Proof.
  intros Hj Hb. apply NoDup_Permutation.
  - apply bit_cells_nodup.
  - apply NoDup_cons. split; [|apply bit_cells_nodup]. intros (i & Hi & Hf & E)%bit_cells_elem.
    apply part_inj in E. subst. congruence.
  - intros x. rewrite elem_of_cons, !bit_cells_elem. split.
    + intros (i & Hi & Hf & ->). rewrite Z.lor_spec, Z.pow2_bits_eqb in Hf by lia.
      destruct (Z.eqb_spec j i) as [->|]; [now left|]. rewrite orb_false_r in Hf. right. eauto.
    + intros [->|(i & Hi & Hf & ->)]; [exists j|exists i]; (split; [assumption|]); (split; [|reflexivity]);
        rewrite Z.lor_spec, Z.pow2_bits_eqb by lia; [now rewrite Z.eqb_refl, orb_true_r|now rewrite Hf].
Qed.

Lemma bit_cells_zero (e : ext) : bit_cells e 0 = [].
Proof.
  unfold bit_cells. induction (seqZ 0 (cnt (snd e))) as [|i l IH]; [reflexivity|]. rewrite filter_cons_False; [exact IH|].
  rewrite Z.testbit_0_l. discriminate.
Qed.

Lemma bit_cells_one (e : ext) (j : Z) : 0 <= j < cnt (snd e) -> bit_cells e (2 ^ j) ≡ₚ [part e j].
Proof.
  intros Hj. rewrite <- (Z.lor_0_l (2 ^ j)), bit_cells_lor by (auto using Z.testbit_0_l; lia).
  now rewrite bit_cells_zero.
Qed.

(** All parts. *)
Lemma bit_cells_all (e : ext) : bit_cells e (Z.ones (cnt (snd e))) = parts e.
Proof.
  unfold bit_cells, parts. f_equal. pose proof (cnt_range (snd e)).
  assert (F : Forall (fun j => Z.testbit (Z.ones (cnt (snd e))) j = true) (seqZ 0 (cnt (snd e)))).
  { apply Forall_forall. intros j Hj%elem_of_seqZ. apply Z.ones_spec_low. lia. }
  induction F as [|j l Hj F IH]; [reflexivity|]. rewrite filter_cons_True by exact Hj. now rewrite IH.
Qed.

(** Bits that fit. *)
Definition bits_ok (e : ext) (free : Z) : Prop := 0 <= free < 2 ^ cnt (snd e).

Lemma bits_lor (e : ext) (free j : Z) :
  bits_ok e free -> 0 <= j < cnt (snd e) -> bits_ok e (Z.lor free (2 ^ j)) /\ uwrap 16 (Z.lor free (2 ^ j)) = Z.lor free (2 ^ j).
Proof.
  intros [H0 H1] Hj. pose proof (cnt_range (snd e)). set (n := cnt (snd e)) in *.
  assert (P : 0 < 2 ^ j) by (apply Z.pow_pos_nonneg; lia).
  assert (L : 0 <= Z.lor free (2 ^ j)) by (apply Z.lor_nonneg; lia).
  assert (B : Z.lor free (2 ^ j) < 2 ^ n).
  { apply Z.log2_lt_cancel. rewrite Z.log2_lor, (Z.log2_pow2 n), Z.log2_pow2 by lia.
    apply Z.max_lub_lt; [|lia]. destruct (Z.eq_dec free 0) as [->|]; [cbn; lia|].
    apply (proj1 (Z.log2_lt_pow2 free n ltac:(lia))). lia. }
  assert (2 ^ n <= 2 ^ 16) by (apply Z.pow_le_mono_r; lia). split; [split; assumption|].
  unfold uwrap. apply Z.mod_small. lia.
Qed.
End Geo.
