(* ===== verification/SmallThms.v ===== *)
(** * The file of free small blocks: proofs

    [sam_merge_sm_blks] adds the freed small block to the free ones, wherever its large
    block stands in the file. *)

From S2P Require Import Prelude Dau Extent Monad FileTree BlockPool SmallBlocks SmallGeo.

(** ** The list in the file *)

(** The entries before the end mark. *)
Fixpoint listed (l : list inoblk) : list inoblk :=
  match l with [] => [] | x :: r => if is_end x then [] else x :: listed r end.

(** The file holds [pre] and then an end mark. *)
Definition holds (l pre : list inoblk) : Prop :=
  exists e rest, l = pre ++ e :: rest /\ is_end e = true /\ Forall (fun x => is_end x = false) pre.

Lemma holds_listed (l pre : list inoblk) : holds l pre -> listed l = pre.
Proof.
  intros (e & rest & -> & He & F). induction F as [|x pre Hx F IH]; cbn; [now rewrite He|]. now rewrite Hx, IH.
Qed.

Lemma holds_length (l pre : list inoblk) : holds l pre -> (length pre < length l)%nat.
Proof. intros (e & rest & -> & _). rewrite length_app. cbn. lia. Qed.

Lemma holds_insert (l pre : list inoblk) (i : nat) (x : inoblk) :
  holds l pre -> (i < length pre)%nat -> is_end x = false -> holds (<[i:=x]> l) (<[i:=x]> pre).
Proof.
  intros (e & rest & -> & He & F) Hi Hx. exists e, rest. split; [now rewrite insert_app_l|]. split; [exact He|].
  now apply Forall_insert.
Qed.

(** Where a scan has found a full and an empty entry last and first. *)
Definition seen (l : list inoblk) (full : nat) (emp : option nat) : Prop :=
  match emp with
  | Some i => exists x, l !! i = Some x /\ empty x = true
  | None => Forall (fun x => empty x = false) l
  end /\ forall k x, l !! k = Some x -> empty x = false -> (k <= full)%nat.

Lemma seen_snoc_full (l : list inoblk) (full : nat) (emp : option nat) (x : inoblk) :
  seen l full emp -> empty x = false -> seen (l ++ [x]) (length l) emp.
Proof.
  intros [H1 H2] Hx. split.
  - destruct emp as [i|].
    + destruct H1 as (y & Hy & Ey). exists y. split; [|exact Ey]. apply lookup_app_l_Some. exact Hy.
    + apply Forall_app. split; [exact H1|]. now constructor.
  - intros k y Hy _. apply lookup_lt_Some in Hy. rewrite length_app in Hy. cbn in Hy. lia.
Qed.

Lemma seen_snoc_empty (l : list inoblk) (full : nat) (emp : option nat) (x : inoblk) :
  seen l full emp -> empty x = true ->
  seen (l ++ [x]) full (match emp with None => Some (length l) | _ => emp end).
Proof.
  intros [H1 H2] Hx. split.
  - destruct emp as [i|].
    + destruct H1 as (y & Hy & Ey). exists y. split; [|exact Ey]. apply lookup_app_l_Some. exact Hy.
    + exists x. split; [|exact Hx]. now rewrite lookup_app_r, Nat.sub_diag by lia.
  - intros k y Hy Ey. apply lookup_snoc_Some in Hy as [[_ Hy]|[_ ->]]; [eauto|congruence].
Qed.

Section Merge.
Context {Mp : Type} `{!LargeMaps Mp} (c : sconf) (G : small_geo c).

Lemma read_ok (s : sbs Mp) : sb_io s = [] -> read_blk s = Done 0 s.
Proof.
  intros E. assert (Ei : io s = Done 0 s) by (unfold io; now rewrite E).
  unfold read_blk. rewrite (bind_done _ _ _ _ _ Ei). exact Ei.
Qed.

(** The entry of a large block. *)
Definition entry_of (e : ext) (x : inoblk) : Prop := empty x = false /\ key x = e.

Lemma scan_test (e : ext) (bn : Z) (x : inoblk) :
  0 <= sc_shift c -> empty x = false -> lg_bn c (snd e) bn = Z.shiftl (fst e) (sc_shift c) ->
  (Z.shiftl (ib_bn x) (sc_shift c) =? lg_bn c (snd e) bn) && (ib_ord x =? snd e) = true <-> entry_of e x.
Proof.
  intros Hs Hx E. rewrite E, andb_true_iff, !Z.eqb_eq, !Z.shiftl_mul_pow2 by lia.
  unfold entry_of, key. split.
  - intros [H1 H2]. split; [exact Hx|]. apply Z.mul_reg_r in H1; [|apply Z.pow_nonzero; lia]. destruct e. cbn in *. congruence.
  - intros [_ <-]. auto.
Qed.

Lemma scan_spec (e : ext) (bn : Z) (l2 rest : list inoblk) (en : inoblk) (s : sbs Mp) :
  sb_io s = [] -> 0 <= sc_shift c -> lg_bn c (snd e) bn = Z.shiftl (fst e) (sc_shift c) -> is_end en = true ->
  forall l1 full emp, Forall (fun x => is_end x = false) l2 -> Forall (fun x => ~ entry_of e x) l1 -> seen l1 full emp ->
  (exists i x, sm_scan c bn (snd e) (l2 ++ en :: rest) (length l1) full emp s = Done (ScanHit i) s /\
     (l1 ++ l2) !! i = Some x /\ entry_of e x) \/
  (exists full' emp', sm_scan c bn (snd e) (l2 ++ en :: rest) (length l1) full emp s =
       Done (ScanEnd (length (l1 ++ l2)) full' emp') s /\
     Forall (fun x => ~ entry_of e x) (l1 ++ l2) /\ seen (l1 ++ l2) full' emp').
Proof.
  intros Hio Hs Hlg Hen. induction l2 as [|x l2 IH]; intros l1 full emp F2 F1 Sn; cbn [app sm_scan].
  - right. exists full, emp. rewrite app_nil_r. split; [|auto].
    rewrite (bind_done _ _ s s 0) by (destruct (Nat.eqb _ _); [now apply read_ok|reflexivity]). cbn. now rewrite Hen.
  - apply Forall_cons in F2 as [Hx F2].
    rewrite (bind_done _ _ s s 0) by (destruct (Nat.eqb _ _); [now apply read_ok|reflexivity]). cbn [Z.eqb negb]. rewrite Hx.
    assert (El : S (length l1) = length (l1 ++ [x])) by (rewrite length_app; cbn; lia).
    assert (Ea : l1 ++ x :: l2 = (l1 ++ [x]) ++ l2) by now rewrite <- app_assoc.
    destruct (empty x) eqn:Ee; unfold empty in Ee; rewrite Ee; cbn [negb].
    + rewrite El, Ea. apply IH; [exact F2| |now apply seen_snoc_empty].
      apply Forall_app. split; [exact F1|]. constructor; [|constructor]. intros [H _]. unfold empty in H. congruence.
    + destruct (_ && _) eqn:Et.
      * left. exists (length l1), x. split; [reflexivity|]. split; [now rewrite lookup_app_r, Nat.sub_diag by lia|].
        now apply (scan_test e bn x Hs Ee Hlg).
      * rewrite El, Ea. apply IH; [exact F2| |eapply seen_snoc_full; eauto].
        apply Forall_app. split; [exact F1|]. constructor; [|constructor]. intros H.
        apply (scan_test e bn x Hs Ee Hlg) in H. congruence.
Qed.
End Merge.

(** ** Contracts *)

(** A large block that may be given back: it goes to the free map. *)
Class LargeMapsLaws (Mp : Type) `{!LargeMaps Mp} (c : sconf) (G : small_geo c) : Type := {
  lm_ok : Mp -> Prop;
  lm_cells : Mp -> list ext;
  lm_can : Mp -> ext -> Prop;
  lm_can_large (m : Mp) (e : ext) : lm_can m e -> large_ok c G e;
  lm_free_spec (m : Mp) (e : ext) :
    lm_ok m -> lm_can m e ->
    exists m', lm_free_lg_block e m = Done 0 m' /\ lm_ok m' /\ lm_cells m' ≡ₚ parts c G e ++ lm_cells m /\
      forall y, y <> e -> lm_can m y -> lm_can m' y;
  lm_reserve_spec (m : Mp) (e : ext) :
    lm_ok m -> lm_can m e -> is_hole (lm_reserve m) = true -> lm_inoblk m (snd e) = true ->
    lm_ok (lm_set_reserve e m) /\ lm_cells (lm_set_reserve e m) ≡ₚ parts c G e ++ lm_cells m /\
      forall y, y <> e -> lm_can m y -> lm_can (lm_set_reserve e m) y;
  lm_sum_spec (m : Mp) :
    lm_ok m -> lm_ok (lm_sum m) /\ lm_cells (lm_sum m) = lm_cells m /\ forall y, lm_can m y -> lm_can (lm_sum m) y;
  lm_unreserve_spec (m : Mp) :
    lm_ok m -> is_hole (lm_reserve m) = false ->
    exists m', lm_free_lg_block (lm_reserve m) m = Done 0 m' /\
      let m'' := lm_set_reserve (0, snd (lm_reserve m')) m' in
      lm_ok m'' /\ is_hole (lm_reserve m'') = true /\ lm_cells m'' ≡ₚ lm_cells m /\
      forall y, lm_can m y -> lm_can m'' y
}.

Section State.
Context {Mp : Type} `{!LargeMaps Mp} (c : sconf) (G : small_geo c) `{!LargeMapsLaws Mp c G}.

Definition keys (pre : list inoblk) : list ext := key <$> base.filter (fun x => empty x = false) pre.
Definition cells_of (pre : list inoblk) : list ext := pre ≫= entry_cells c G.

(** An entry is empty, or that of a large block. *)
Definition entry_good (m : Mp) (x : inoblk) : Prop :=
  x = ib_zero \/ empty x = false /\ lm_can m (key x) /\ bits_ok c G (key x) (ib_free x).

Record file_state (s : sbs Mp) (pre : list inoblk) : Prop := mk_file_state {
  fs_io : sb_io s = [];
  fs_maps : lm_ok (sb_maps s);
  fs_len : (length (sb_file s) mod per_blk c = 0)%nat;
  fs_holds : holds (sb_file s) pre;
  fs_good : Forall (entry_good (sb_maps s)) pre;
  fs_keys : NoDup (keys pre)
}.

Definition sm_ok (s : sbs Mp) : Prop := file_state s (listed (sb_file s)).
Definition sm_cells (s : sbs Mp) : list ext := cells_of (listed (sb_file s)) ++ lm_cells (sb_maps s).

(** A small block that may be entered, a large block that may be given back. *)
Definition can_sm (s : sbs Mp) (x : ext) : Prop :=
  exists e j, x = part c G e j /\ 0 <= j < cnt c G (snd e) /\ lm_can (sb_maps s) e /\ x ∉ cells_of (listed (sb_file s)).
Definition can_lg (s : sbs Mp) (e : ext) : Prop :=
  lm_can (sb_maps s) e /\ e ∉ keys (listed (sb_file s)).

(** The small block [x] of [e] has been entered. *)
Definition merged (x : ext) (s s' : sbs Mp) : Prop :=
  sm_ok s' /\ sm_cells s' ≡ₚ x :: sm_cells s /\ (forall y, y <> x -> can_sm s y -> can_sm s' y) /\
  (forall e, x ∉ parts c G e -> can_lg s e -> can_lg s' e).

Lemma file_state_ok (s : sbs Mp) (pre : list inoblk) : file_state s pre -> sm_ok s.
Proof. intros H. unfold sm_ok. now rewrite (holds_listed _ _ (fs_holds _ _ H)). Qed.

Lemma keys_app (l1 l2 : list inoblk) : keys (l1 ++ l2) = keys l1 ++ keys l2.
Proof. unfold keys. now rewrite filter_app, fmap_app. Qed.
Lemma keys_cons (x : inoblk) (l : list inoblk) : keys (x :: l) = (if empty x then [] else [key x]) ++ keys l.
Proof.
  unfold keys. destruct (empty x) eqn:E; [rewrite filter_cons_False by congruence; reflexivity|].
  now rewrite filter_cons_True.
Qed.
Lemma cells_app (l1 l2 : list inoblk) : cells_of (l1 ++ l2) = cells_of l1 ++ cells_of l2.
Proof. apply bind_app. Qed.
Lemma cells_cons (x : inoblk) (l : list inoblk) : cells_of (x :: l) = entry_cells c G x ++ cells_of l.
Proof. apply bind_cons. Qed.

(** The entry at an index, and what putting another one there does. *)
Lemma prefix_at (pre : list inoblk) (i : nat) (y : inoblk) :
  pre !! i = Some y -> exists l1 l2, pre = l1 ++ y :: l2 /\ length l1 = i /\ forall x, <[i:=x]> pre = l1 ++ x :: l2.
Proof.
  intros H. exists (take i pre), (drop (S i) pre). pose proof (lookup_lt_Some _ _ _ H).
  split; [symmetry; now apply take_drop_middle|]. split; [rewrite length_take; lia|].
  intros x. apply insert_take_drop. lia.
Qed.

(** The maps have not changed, and the cells of the file have grown by [x]. *)
Lemma merged_file (x e : ext) (j : Z) (s s' : sbs Mp) (pre pre' : list inoblk) :
  x = part c G e j -> 0 <= j < cnt c G (snd e) ->
  file_state s pre -> file_state s' pre' -> sb_maps s' = sb_maps s ->
  cells_of pre' ≡ₚ x :: cells_of pre -> (forall k, k ∈ keys pre' -> k = e \/ k ∈ keys pre) -> merged x s s'.
Proof.
  intros -> Hj F F' Em Ec Ek. pose proof (holds_listed _ _ (fs_holds _ _ F)) as El.
  pose proof (holds_listed _ _ (fs_holds _ _ F')) as El'. split; [eapply file_state_ok; eauto|]. split; [|split].
  - unfold sm_cells. rewrite El, El', Em, Ec. reflexivity.
  - intros y Hy (e2 & j2 & -> & Hj2 & Hc & Hn). exists e2, j2. rewrite Em, El', Ec. rewrite El in Hn.
    repeat split; auto; try lia. rewrite not_elem_of_cons. auto.
  - intros k Hx [Hc Hn]. split; [now rewrite Em|]. rewrite El'. rewrite El in Hn. intros [->|Hk]%Ek; [|contradiction].
    apply Hx. apply parts_elem. eauto.
Qed.

(** ** The entry is there *)

Lemma good_entry (m : Mp) (pre : list inoblk) (i : nat) (y : inoblk) :
  Forall (entry_good m) pre -> pre !! i = Some y -> empty y = false -> lm_can m (key y) /\ bits_ok c G (key y) (ib_free y).
Proof.
  intros F Hi He. pose proof (Forall_lookup_1 _ _ _ _ F Hi) as [->|(_ & H1 & H2)]; [discriminate|auto].
Qed.

Lemma file_lookup (l pre : list inoblk) (i : nat) (y : inoblk) : holds l pre -> pre !! i = Some y -> l !! i = Some y.
Proof. intros (e & rest & -> & _) H. now apply lookup_app_l_Some. Qed.

(** One more part of the entry is free. *)
Lemma hit_more (s : sbs Mp) (pre : list inoblk) (i : nat) (y : inoblk) (f : Z) (s1 : sbs Mp) :
  file_state s pre -> pre !! i = Some y -> empty y = false -> bits_ok c G (key y) f ->
  s1 = mk_sbs (<[i:=mk_inoblk (ib_bn y) (ib_ord y) f]> (sb_file s)) (sb_blocks s) (sb_io s) (sb_fsck s) (sb_maps s) ->
  file_state s1 (<[i:=mk_inoblk (ib_bn y) (ib_ord y) f]> pre) /\ keys (<[i:=mk_inoblk (ib_bn y) (ib_ord y) f]> pre) = keys pre.
Proof.
  intros F Hi He Hf ->. destruct F as [F1 F2 F3 F4 F5 F6]. set (y1 := mk_inoblk (ib_bn y) (ib_ord y) f).
  assert (Ek : keys (<[i:=y1]> pre) = keys pre).
  { destruct (prefix_at pre i y Hi) as (a & b & Ep & _ & Ei). rewrite Ei, Ep, !keys_app, !keys_cons. reflexivity. }
  split; [|exact Ek]. assert (Hn : is_end y1 = false).
  { destruct F4 as (? & ? & _ & _ & F). apply (Forall_lookup_1 _ _ _ _ F Hi). }
  constructor; cbn; auto.
  - now rewrite length_insert.
  - apply holds_insert; [exact F4|eapply lookup_lt_Some, Hi|exact Hn].
  - apply Forall_insert; [exact F5|]. right. split; [exact He|]. split; [|exact Hf]. now apply (good_entry _ pre i y).
  - now rewrite Ek.
Qed.

(** The entry of a large block that is given back becomes empty. *)
Lemma hit_all (s : sbs Mp) (pre : list inoblk) (i : nat) (y : inoblk) (m' : Mp) (b : Z) (s2 : sbs Mp) :
  file_state s pre -> pre !! i = Some y -> empty y = false -> lm_ok m' ->
  (forall k, k <> key y -> lm_can (sb_maps s) k -> lm_can m' k) ->
  s2 = mk_sbs (<[i:=ib_zero]> (sb_file s)) b (sb_io s) (sb_fsck s) m' ->
  file_state s2 (<[i:=ib_zero]> pre) /\ keys pre ≡ₚ key y :: keys (<[i:=ib_zero]> pre) /\
  cells_of pre ≡ₚ bit_cells c G (key y) (ib_free y) ++ cells_of (<[i:=ib_zero]> pre).
Proof.
  intros F Hi He Hm Hc ->. destruct F as [F1 F2 F3 F4 F5 F6].
  destruct (prefix_at pre i y Hi) as (l1 & l2 & Ep & _ & Ei).
  assert (Ek : keys pre ≡ₚ key y :: keys (<[i:=ib_zero]> pre)).
  { rewrite Ei, Ep, !keys_app, !keys_cons, He. cbn. symmetry. apply Permutation_middle. }
  split; [|split; [exact Ek|]].
  - constructor; cbn; auto.
    + now rewrite length_insert.
    + apply holds_insert; [exact F4|eapply lookup_lt_Some, Hi|reflexivity].
    + rewrite Ek in F6. apply NoDup_cons in F6 as [Hy _]. rewrite Ei in *.
      rewrite Ep in F5. apply Forall_app in F5 as [G1 G2]. apply Forall_cons in G2 as [_ G2].
      assert (HG : forall z, z ∈ l1 ++ l2 -> entry_good (sb_maps s) z -> entry_good m' z).
      { intros z Hz [->|(E1 & E2 & E3)]; [now left|right]. split; [exact E1|]. split; [|exact E3]. apply Hc; [|exact E2].
        intros Ez. apply Hy. rewrite keys_app, keys_cons. cbn. rewrite <- keys_app, <- Ez. unfold keys.
        apply list_elem_of_fmap. exists z. split; [reflexivity|]. now apply list_elem_of_filter. }
      rewrite Forall_forall in G1, G2. apply Forall_app. split; [|constructor; [now left|]];
        apply Forall_forall; intros z Hz; apply HG; auto; apply elem_of_app; auto.
    + rewrite Ek in F6. now apply NoDup_cons in F6 as [_ ?].
  - rewrite Ei, Ep, !cells_app, !cells_cons. unfold entry_cells at 1. rewrite He. cbn. solve_Permutation.
Qed.

Lemma hit_spec (e : ext) (j : Z) (i : nat) (y : inoblk) (s : sbs Mp) (pre : list inoblk) :
  file_state s pre -> 0 <= j < cnt c G (snd e) -> part c G e j ∉ cells_of pre -> pre !! i = Some y -> entry_of e y ->
  exists s', sm_hit c (Z.shiftl (fst (part c G e j)) (sc_shift c)) (snd e) i s = Done 0 s' /\ merged (part c G e j) s s'.
Proof.
  intros F Hj Hn Hi [He Hk]. pose proof F as [F1 F2 F3 F4 F5 F6].
  destruct (good_entry _ _ _ _ F5 Hi He) as [Hc Hb]. rewrite Hk in Hc, Hb. pose proof (lm_can_large _ _ Hc) as Hl.
  assert (Ht : Z.testbit (ib_free y) j = false).
  { destruct (Z.testbit (ib_free y) j) eqn:E; [|reflexivity]. exfalso. apply Hn. apply list_elem_of_bind. exists y.
    split; [|eapply list_elem_of_lookup_2, Hi]. unfold entry_cells. rewrite He, Hk. apply bit_cells_elem. eauto. }
  destruct (bits_lor c G e (ib_free y) j Hb Hj) as [Hb1 Hu]. set (f := Z.lor (ib_free y) (2 ^ j)) in *.
  unfold sm_hit. rewrite (bind_done _ _ s s s) by reflexivity. unfold id.
  rewrite (bind_done _ _ s s y) by (now rewrite (file_lookup _ _ _ _ F4 Hi)).
  rewrite (proj2 (part_place c G e j Hl Hj)), Z.shiftl_1_l. fold f. rewrite Hu.
  set (y1 := mk_inoblk (ib_bn y) (ib_ord y) f).
  set (s1 := mk_sbs (<[i:=y1]> (sb_file s)) (sb_blocks s) (sb_io s) (sb_fsck s) (sb_maps s)).
  rewrite (bind_done _ _ s s1 tt) by reflexivity.
  destruct (hit_more s pre i y f s1 F Hi He) as [Fs1 Ek]; [now rewrite Hk|reflexivity|].
  assert (Ec : cells_of (<[i:=y1]> pre) ≡ₚ part c G e j :: cells_of pre).
  { destruct (prefix_at pre i y Hi) as (l1 & l2 & Ep & _ & Ei). rewrite Ei, Ep, !cells_app, !cells_cons.
    unfold entry_cells at 1 2. rewrite He. replace (empty y1) with (empty y) by reflexivity. rewrite He.
    change (key y1) with (key y). cbn [ib_free y1]. rewrite Hk. unfold f. rewrite bit_cells_lor by auto. solve_Permutation. }
  rewrite (sg_bits _ G). fold (cnt c G (snd e)). destruct (Z.eqb_spec f (Z.ones (cnt c G (snd e)))) as [Ef|Ef]; cbn [when].
  - assert (Eke : (ib_bn y, snd e) = e) by (rewrite <- Hk; reflexivity). rewrite Eke.
    destruct (lm_free_spec (sb_maps s) e F2 Hc) as (m' & Em & Om & Cm & Um).
    set (s2 := mk_sbs (sb_file s1) (sb_blocks s) (sb_io s) (sb_fsck s) m').
    set (b := if sb_blocks s - at_lg (kblocks (dau_at c (snd e))) <? 0 then 0 else sb_blocks s - at_lg (kblocks (dau_at c (snd e)))).
    set (s3 := mk_sbs (<[i:=ib_zero]> (sb_file s)) b (sb_io s) (sb_fsck s) m').
    rewrite (bind_done _ _ s1 s3 tt).
    2:{ rewrite (bind_done _ _ s1 s2 0) by (unfold lift; cbn [sb_maps s1]; now rewrite Em). cbn [Z.eqb when].
        erewrite bind_done; [|reflexivity]. cbn. rewrite list_insert_insert_eq. reflexivity. }
    exists s3. split; [reflexivity|].
    destruct (hit_all s pre i y m' b s3 F Hi He Om) as (Fs3 & Ek3 & Ec3); [now rewrite Hk|reflexivity|].
    rewrite Hk in Ek3, Ec3. pose proof (holds_listed _ _ (fs_holds _ _ F)) as El.
    pose proof (holds_listed _ _ (fs_holds _ _ Fs3)) as El3.
    assert (Ea : parts c G e ≡ₚ part c G e j :: bit_cells c G e (ib_free y)).
    { rewrite <- bit_cells_all, <- Ef. unfold f. now apply bit_cells_lor. }
    split; [eapply file_state_ok; eauto|]. split; [|split].
    + unfold sm_cells. rewrite El, El3. cbn [sb_maps s3]. rewrite Cm, Ea, Ec3. solve_Permutation.
    + intros x Hx (e2 & j2 & -> & Hj2 & Hc2 & Hn2). rewrite El in Hn2.
      assert (Hne : e2 <> e).
      { intros ->. apply Hn2. rewrite Ec3, elem_of_app. left. apply bit_cells_elem. exists j2. split; [exact Hj2|].
        split; [|reflexivity]. pose proof (Z.ones_spec_low (cnt c G (snd e)) j2 ltac:(lia)) as Hz. rewrite <- Ef in Hz.
        unfold f in Hz. rewrite Z.lor_spec, Z.pow2_bits_eqb in Hz by lia.
        destruct (Z.eqb_spec j j2) as [->|]; [contradiction|]. now rewrite orb_false_r in Hz. }
      exists e2, j2. split; [reflexivity|]. split; [exact Hj2|]. split; [now apply Um|]. rewrite El3. intros Hin. apply Hn2.
      rewrite Ec3, elem_of_app. now right.
    + intros k Hx [Hck Hnk]. rewrite El in Hnk. rewrite Ek3, not_elem_of_cons in Hnk. split; [|rewrite El3; tauto].
      apply Um; [tauto|exact Hck].
  - exists s1. split; [reflexivity|]. apply (merged_file _ e j s s1 pre (<[i:=y1]> pre)); auto.
    intros k Hk1. right. now rewrite <- Ek.
Qed.

(** ** A new entry *)

(** The end mark after entry [i]. *)
Lemma mark_spec (ord : Z) (i : nat) (s : sbs Mp) (pre : list inoblk) :
  sb_io s = [] -> (length (sb_file s) mod per_blk c = 0)%nat -> (i < length (sb_file s))%nat ->
  take (S i) (sb_file s) = pre -> Forall (fun x => is_end x = false) pre ->
  exists l', sm_mark c ord i s = Done 0 (mk_sbs l' (sb_blocks s) (sb_io s) (sb_fsck s) (sb_maps s)) /\
    holds l' pre /\ (length l' mod per_blk c = 0)%nat.
Proof.
  intros Hio Hm Hi <- HF. pose proof (per_blk_pos c G) as Hp. unfold sm_mark. set (l := sb_file s) in *.
  destruct (Z.land _ _ =? 0) eqn:E.
  - apply (at_start c G) in E. rewrite (bind_done _ _ s s 0) by (unfold io; now rewrite Hio). cbn [Z.eqb negb].
    eexists. split; [reflexivity|]. fold l. split.
    + exists ib_end. eexists. split; [reflexivity|]. split; [reflexivity|exact HF].
    + rewrite length_app, length_take_le by lia. cbn [length]. rewrite length_app, length_replicate, length_drop.
      apply Nat.Lcm0.mod_divide in E as [a Ea]. apply Nat.Lcm0.mod_divide in Hm as [b Eb]. apply Nat.Lcm0.mod_divide.
      destruct (Nat.le_gt_cases (S i + per_blk c) (length l)) as [Hle|Hgt].
      * exists b. lia.
      * exists (S a). cbn [Nat.mul]. lia.
  - assert (Hne : (S i < length l)%nat).
    { destruct (Nat.eq_dec (S i) (length l)) as [Ei|]; [|lia]. rewrite <- Ei in Hm. apply (at_start c G ord) in Hm. congruence. }
    eexists. split; [reflexivity|]. fold l. split; [|now rewrite length_insert].
    exists ib_end, (drop (S (S i)) l). split; [|split; [reflexivity|exact HF]]. apply insert_take_drop. lia.
Qed.

(** The entry for a large block that has none yet. *)
Definition fresh_entry (e : ext) (j : Z) : inoblk := mk_inoblk (fst e) (snd e) (2 ^ j).

Lemma fresh_good (m : Mp) (e : ext) (j : Z) :
  lm_can m e -> 0 <= j < cnt c G (snd e) ->
  entry_good m (fresh_entry e j) /\ empty (fresh_entry e j) = false /\ is_end (fresh_entry e j) = false /\
  key (fresh_entry e j) = e /\ entry_cells c G (fresh_entry e j) ≡ₚ [part c G e j].
Proof.
  intros Hc Hj. pose proof (lm_can_large _ _ Hc) as [_ Hb _ _ _].
  assert (He : empty (fresh_entry e j) = false) by (apply Z.eqb_neq; cbn; lia).
  assert (Hk : key (fresh_entry e j) = e) by (now destruct e). split; [|split; [exact He|split; [|split; [exact Hk|]]]].
  - right. split; [exact He|]. rewrite Hk. split; [exact Hc|]. split; [apply Z.pow_nonneg; lia|]. apply Z.pow_lt_mono_r; lia.
  - apply Z.eqb_neq. cbn. lia.
  - unfold entry_cells. rewrite He, Hk. now apply bit_cells_one.
Qed.

Lemma not_key (e : ext) (pre : list inoblk) : Forall (fun x => ~ entry_of e x) pre -> e ∉ keys pre.
Proof.
  intros F. unfold keys. intros (x & -> & [Hx Hin]%list_elem_of_filter)%list_elem_of_fmap.
  rewrite Forall_forall in F. apply (F x Hin). now split.
Qed.

Lemma empties (l : list inoblk) : Forall (fun x => empty x = true) l -> keys l = [] /\ cells_of l = [].
Proof.
  induction 1 as [|x l Hx _ [IH1 IH2]]; [now split|]. rewrite keys_cons, cells_cons, IH1, IH2. unfold entry_cells.
  now rewrite Hx.
Qed.

(** The list after the new entry has been put at the end, or at an empty entry after which
    there are only empty ones: what the state must satisfy to be that after the merge. *)
Lemma insert_done (e : ext) (j : Z) (s s' : sbs Mp) (pre pre1 pre' : list inoblk) :
  file_state s pre -> 0 <= j < cnt c G (snd e) -> lm_can (sb_maps s) e -> e ∉ keys pre ->
  cells_of pre1 ≡ₚ part c G e j :: cells_of pre -> keys pre1 ≡ₚ e :: keys pre -> Forall (entry_good (sb_maps s)) pre1 ->
  (exists tl, pre1 = pre' ++ tl /\ Forall (fun x => empty x = true) tl) ->
  holds (sb_file s') pre' -> (length (sb_file s') mod per_blk c = 0)%nat -> sb_io s' = [] -> sb_maps s' = sb_maps s ->
  merged (part c G e j) s s'.
Proof.
  intros F Hj Hc Hn Ec Ek Fg (tl & Et & Ftl) Hh Hm Hio Em. destruct (empties tl Ftl) as [K0 C0].
  rewrite Et, cells_app, C0, app_nil_r in Ec. rewrite Et, keys_app, K0, app_nil_r in Ek.
  rewrite Et in Fg. apply Forall_app in Fg as [Fg _].
  apply (merged_file _ e j s s' pre pre'); auto.
  - constructor; auto; [rewrite Em; apply F|now rewrite Em|]. rewrite Ek. apply NoDup_cons. split; [exact Hn|apply F].
  - intros k. rewrite Ek, elem_of_cons. tauto.
Qed.

Lemma insert_spec (e : ext) (j : Z) (full : nat) (emp : option nat) (s : sbs Mp) (pre : list inoblk) :
  file_state s pre -> 0 <= j < cnt c G (snd e) -> lm_can (sb_maps s) e -> Forall (fun x => ~ entry_of e x) pre ->
  seen pre full emp ->
  exists s', sm_insert c (Z.shiftl (fst (part c G e j)) (sc_shift c)) (snd e) (length pre) full emp s = Done 0 s' /\
    merged (part c G e j) s s'.
Proof.
  intros F Hj Hc Hne [S1 S2]. pose proof F as [F1 F2 F3 F4 F5 F6]. pose proof (not_key e pre Hne) as Hk.
  destruct (fresh_good (sb_maps s) e j Hc Hj) as (Xg & Xe & Xn & Xk & Xc). pose proof (holds_length _ _ F4) as HL.
  unfold sm_insert. rewrite (sm_entry_part c G e j (lm_can_large _ _ Hc) Hj). fold (fresh_entry e j).
  set (x := fresh_entry e j) in *. destruct emp as [i|].
  - destruct S1 as (y & Hi & Hy). destruct (prefix_at pre i y Hi) as (l1 & l2 & Ep & El & Ei). pose proof (lookup_lt_Some _ _ _ Hi) as Hlt.
    rewrite (bind_done _ _ s s 0) by (destruct (negb _); [now apply read_ok|reflexivity]). cbn [Z.eqb negb].
    do 2 (erewrite bind_done; [|reflexivity]). cbn [sb_file sb_blocks sb_io sb_fsck sb_maps].
    set (b := sb_blocks s + _). set (s1 := mk_sbs (<[i:=x]> (sb_file s)) b (sb_io s) (sb_fsck s) (sb_maps s)).
    assert (Hcells : cells_of (<[i:=x]> pre) ≡ₚ part c G e j :: cells_of pre).
    { rewrite Ei, Ep, !cells_app, !cells_cons, Xc. unfold entry_cells. rewrite Hy. cbn. symmetry. apply Permutation_middle. }
    assert (Hkeys : keys (<[i:=x]> pre) ≡ₚ e :: keys pre).
    { rewrite Ei, Ep, !keys_app, !keys_cons, Xe, Hy, Xk. cbn. symmetry. apply Permutation_middle. }
    assert (Hgood : Forall (entry_good (sb_maps s)) (<[i:=x]> pre)) by now apply Forall_insert.
    destruct (Nat.ltb_spec i full) as [Hf|Hf].
    + exists s1. split; [reflexivity|].
      apply (insert_done e j s s1 pre (<[i:=x]> pre) (<[i:=x]> pre)); auto; cbn.
      * exists []. now rewrite app_nil_r.
      * now apply holds_insert.
      * now rewrite length_insert.
    + assert (Et : take (S i) (sb_file s1) = take (S i) (<[i:=x]> pre)).
      { destruct F4 as (en & rest & Efl & _). cbn [sb_file s1]. rewrite Efl, insert_app_l by exact Hlt.
        rewrite take_app_le; [reflexivity|]. rewrite length_insert. lia. }
      destruct (mark_spec (snd e) i s1 (take (S i) (<[i:=x]> pre))) as (l' & E' & Hh & Hm); auto; cbn.
      * now rewrite length_insert.
      * rewrite length_insert. lia.
      * apply Forall_take, Forall_insert; [|exact Xn]. now destruct F4 as (? & ? & _ & _ & ?).
      * eexists. split; [exact E'|].
        apply (insert_done e j s _ pre (<[i:=x]> pre) (take (S i) (<[i:=x]> pre))); auto.
        exists (drop (S i) (<[i:=x]> pre)). split; [symmetry; apply take_drop|].
        apply Forall_lookup. intros k z Hz. rewrite lookup_drop, list_lookup_insert_ne in Hz by lia.
        destruct (empty z) eqn:Ez; [reflexivity|]. apply (S2 _ _ Hz) in Ez. lia.
  - do 2 (erewrite bind_done; [|reflexivity]). cbn [sb_file sb_blocks sb_io sb_fsck sb_maps].
    set (b := sb_blocks s + _). set (s1 := mk_sbs (<[length pre:=x]> (sb_file s)) b (sb_io s) (sb_fsck s) (sb_maps s)).
    assert (Et : take (S (length pre)) (sb_file s1) = pre ++ [x]).
    { destruct F4 as (en & rest & Efl & _). cbn [sb_file s1]. rewrite Efl, insert_app_r_alt by lia.
      rewrite Nat.sub_diag. cbn. rewrite take_app_ge by lia. replace (S (length pre) - length pre)%nat with 1%nat by lia. reflexivity. }
    destruct (mark_spec (snd e) (length pre) s1 (pre ++ [x])) as (l' & E' & Hh & Hm); auto; cbn.
    + now rewrite length_insert.
    + rewrite length_insert. lia.
    + apply Forall_app. split; [now destruct F4 as (? & ? & _ & _ & ?)|now constructor].
    + eexists. split; [exact E'|]. apply (insert_done e j s _ pre (pre ++ [x]) (pre ++ [x])); auto.
      * rewrite cells_app, cells_cons, Xc. cbn. symmetry. apply Permutation_cons_append.
      * rewrite keys_app, keys_cons, Xe, Xk. cbn. symmetry. apply Permutation_cons_append.
      * apply Forall_app. split; [exact F5|now constructor].
      * exists []. now rewrite app_nil_r.
Qed.

(** ** The routine *)

Lemma merge_small (x : ext) (s : sbs Mp) :
  sm_ok s -> can_sm s x -> exists s', sam_merge_sm_blks c x s = Done 0 s' /\ merged x s s'.
Proof.
  intros F (e & j & -> & Hj & Hc & Hn). unfold sm_ok in F. pose proof F as [F1 F2 F3 F4 F5 F6].
  pose proof (lm_can_large _ _ Hc) as Hl. set (pre := listed (sb_file s)) in *.
  unfold sam_merge_sm_blks. destruct (part c G e j) as [b ord] eqn:Ex.
  assert (Eb : b = fst (part c G e j)) by now rewrite Ex. assert (Eo : ord = snd e) by (unfold part in Ex; now injection Ex).
  rewrite Eb, Eo in *. clear Eb Eo. rewrite (part_range c G e j Hl Hj).
  rewrite (bind_done _ _ s s s) by reflexivity. unfold id. rewrite <- Ex in *. clear Ex.
  destruct F4 as (en & rest & Efl & Hen & HF).
  destruct (scan_spec c e (Z.shiftl (fst (part c G e j)) (sc_shift c)) pre rest en s F1 (proj1 (proj1 (sg_range _ G 0)))
    (proj1 (part_place c G e j Hl Hj)) Hen [] 0 None HF ltac:(constructor)) as [(i & y & E & Hi & Hy)|(full & emp & E & Hno & Sn)].
  { split; [constructor|]. intros k z Hz. discriminate. }
  - rewrite Efl. cbn [length] in E. rewrite (bind_done _ _ _ _ _ E). apply (hit_spec e j i y s pre); auto.
  - rewrite Efl. cbn [length app] in E. rewrite (bind_done _ _ _ _ _ E). cbn [app] in *. apply insert_spec; auto.
Qed.
End State.
