(* ===== verification/SmallType.v ===== *)
(** * Damaged files of free small blocks

    When the entries of .blocks name existing partitions, both routines complete without
    an access outside the array of partitions, whatever blocks are freed, whatever the
    accesses to .blocks return and whatever else the file holds; and the entries they leave
    name existing partitions. *)

From S2P Require Import Prelude Dau Extent Monad FileTree BlockPool SmallBlocks SmallGeo SmallThms.

(** An entry with a block number names a partition; the fields fit [sam_inoblk_t]. *)
Definition inoblk_fits (c : sconf) (x : inoblk) : Prop :=
  0 <= ib_bn x < 2 ^ 32 /\ (0 <= ib_ord x < 2 ^ 16 /\ (ib_bn x = 0 \/ is_end x = true \/ ib_ord x < sc_count c)) /\
  0 <= ib_free x < 2 ^ 16.

Lemma fits_zero (c : sconf) : inoblk_fits c ib_zero.
Proof. repeat split; cbn; auto; lia. Qed.
Lemma fits_end (c : sconf) : inoblk_fits c ib_end.
Proof. repeat split; cbn; auto; lia. Qed.

(** Maps on which the routines complete: a block of an existing partition can be freed,
    with an error or not, and pools do not vanish. *)
Record total_maps {Mp : Type} `{!LargeMaps Mp} (c : sconf) (I : Mp -> Prop) : Prop := mk_total_maps {
  tm_free (m : Mp) (e : ext) : I m -> 0 <= snd e < sc_count c -> exists r m', lm_free_lg_block e m = Done r m' /\ I m';
  tm_set (m : Mp) (ord : Z) (b : sam_block) : I m -> I (lm_set_pool ord b m);
  tm_pool (m : Mp) (ord ord' : Z) (b : sam_block) :
    is_Some (lm_pool m ord) -> is_Some (lm_pool (lm_set_pool ord' b m) ord)
}.

Section Typed.
Context {Mp : Type} `{!LargeMaps Mp} (c : sconf) (G : small_geo c) (I : Mp -> Prop) (T : total_maps c I).
Implicit Types s : sbs Mp.

Record typed s : Prop := mk_typed {
  ty_fits : Forall (inoblk_fits c) (sb_file s);
  ty_len : (length (sb_file s) mod per_blk c = 0)%nat;
  ty_blocks : 0 <= sb_blocks s;
  ty_maps : I (sb_maps s)
}.

(** Outcomes of accesses do not matter. *)
Lemma wp_io (Q : Z -> sbs Mp -> Prop) s :
  (forall e q, Q e (mk_sbs (sb_file s) (sb_blocks s) q (sb_fsck s) (sb_maps s))) -> wp io Q s.
Proof.
  intros H. with_strategy transparent [wp] unfold wp, io. destruct (sb_io s) as [|e q] eqn:E; [|apply H].
  specialize (H 0 []). rewrite <- E in H. now destruct s.
Qed.

Lemma wp_read (Q : Z -> sbs Mp -> Prop) s :
  (forall e q, Q e (mk_sbs (sb_file s) (sb_blocks s) q (sb_fsck s) (sb_maps s))) -> wp read_blk Q s.
Proof.
  intros H. apply wp_bind, wp_io. intros e q. destruct (negb (e =? 0)); [apply wp_ret, H|]. apply wp_io. intros e' q'. apply H.
Qed.

Lemma wp_lift_free (e : ext) (Q : Z -> sbs Mp -> Prop) s :
  I (sb_maps s) -> 0 <= snd e < sc_count c ->
  (forall r m, I m -> Q r (mk_sbs (sb_file s) (sb_blocks s) (sb_io s) (sb_fsck s) m)) -> wp (lift (lm_free_lg_block e)) Q s.
Proof.
  intros Hi Ho H. destruct (tm_free _ _ T _ e Hi Ho) as (r & m & E & Hm). with_strategy transparent [wp] unfold wp, lift.
  rewrite E. now apply H.
Qed.

(** A state that differs from a typed one in its file. *)
Lemma typed_file s (f : list inoblk) (b : Z) (q : list Z) (x : bool) (m : Mp) :
  Forall (inoblk_fits c) f -> (length f mod per_blk c = 0)%nat -> 0 <= b -> I m -> typed (mk_sbs f b q x m).
Proof. now constructor. Qed.

Lemma typed_insert s (i : nat) (y : inoblk) (b : Z) (q : list Z) (x : bool) (m : Mp) :
  typed s -> inoblk_fits c y -> 0 <= b -> I m -> typed (mk_sbs (<[i:=y]> (sb_file s)) b q x m).
Proof.
  intros [] Hy Hb Hm. constructor; cbn; auto; [now apply Forall_insert|now rewrite length_insert].
Qed.

Lemma kb_nonneg (ord : Z) : 0 <= at_sm (kblocks (dau_at c ord)) /\ 0 <= at_lg (kblocks (dau_at c ord)).
Proof. rewrite (sg_kb _ G). cbn. split; apply Z.pow_nonneg; lia. Qed.

(** ** [sam_merge_sm_blks] *)

(** Where a scan ends. *)
Definition in_range (n : nat) (r : scanned) : Prop :=
  match r with
  | ScanHit i => (i < n)%nat
  | ScanEnd i _ emp => (i < n)%nat /\ forall j, emp = Some j -> (j < n)%nat
  | _ => True
  end.

Lemma scan_range (bn ord : Z) (l : list inoblk) (i full : nat) (emp : option nat) s n :
  typed s -> n = (i + length l)%nat -> (forall j, emp = Some j -> (j < n)%nat) ->
  wp (sm_scan c bn ord l i full emp) (fun r s' => typed s' /\ sb_file s' = sb_file s /\ in_range n r) s.
Proof.
  intros Ht. revert i full emp s Ht. induction l as [|x l IH]; intros i full emp s Ht En He; cbn [sm_scan]; [now apply wp_ret|].
  cbn [length] in En. apply wp_bind.
  apply (wp_mono _ (fun _ s' => typed s' /\ sb_file s' = sb_file s)).
  { destruct (Nat.eqb _ _); [|now apply wp_ret]. apply wp_read. intros e q. cbn. destruct Ht. split; [now constructor|reflexivity]. }
  intros e s' [Ht' Ef]. rewrite <- Ef. destruct (negb (e =? 0)); [now apply wp_ret|].
  destruct (is_end x); [apply wp_ret; split; [exact Ht'|]; split; [reflexivity|]; split; [lia|exact He]|].
  destruct (negb (ib_bn x =? 0)).
  - destruct (_ && _); [apply wp_ret; split; [exact Ht'|]; split; [reflexivity|cbn; lia]|]. apply IH; auto. lia.
  - apply IH; auto; [lia|]. intros j. destruct emp; [apply He|]. intros [= <-]. lia.
Qed.

Lemma hit_typed (bn ord : Z) (i : nat) s :
  typed s -> (i < length (sb_file s))%nat -> 0 <= ord < sc_count c -> wp (sm_hit c bn ord i) (fun _ => typed) s.
Proof.
  intros Ht Hi Ho. destruct (lookup_lt_is_Some_2 _ _ Hi) as [x Ex]. pose proof (ty_fits _ Ht) as Hf.
  assert (Hx : inoblk_fits c x) by (eapply Forall_lookup; eauto). unfold sm_hit.
  apply wp_bind, wp_gets, wp_bind. eapply wp_deref; [exact Ex|]. apply wp_bind, wp_modify, wp_bind.
  match goal with |- context [when (?f =? _) _] => set (fr := f) end.
  assert (Hfr : inoblk_fits c (mk_inoblk (ib_bn x) (ib_ord x) fr)).
  { destruct Hx as (H1 & H2 & _). split; [exact H1|]. split; [exact H2|]. apply uwrap_range. lia. }
  assert (H1 : typed (mk_sbs (<[i:=mk_inoblk (ib_bn x) (ib_ord x) fr]> (sb_file s)) (sb_blocks s) (sb_io s) (sb_fsck s) (sb_maps s)))
    by (apply typed_insert; auto; apply Ht).
  apply wp_when; [intros _|intros _; now apply wp_ret]. apply wp_bind. apply wp_lift_free; [apply Ht|exact Ho|].
  intros r m Hm. cbn [sb_file sb_blocks sb_io sb_fsck sb_maps]. apply wp_when; [intros _|intros _].
  - apply wp_bind, wp_modify, wp_modify, wp_ret. cbn [sb_file sb_blocks sb_io sb_fsck sb_maps]. apply (typed_insert _ i ib_zero _ _ _ _ H1);
      [exact (fits_zero c)| |exact Hm]. destruct (Z.ltb_spec (sb_blocks s - at_lg (kblocks (dau_at c ord))) 0); [reflexivity|assumption].
  - apply wp_ret. destruct H1. now constructor.
Qed.

Lemma new_typed (i : nat) (b : Z) (q : list Z) (x : bool) (m : Mp) s :
  typed s -> (i <= length (sb_file s))%nat -> (i mod per_blk c = 0)%nat -> 0 <= b -> I m ->
  typed (mk_sbs (take i (sb_file s) ++ ib_end :: replicate (per_blk c - 1) ib_zero ++ drop (i + per_blk c) (sb_file s)) b q x m).
Proof.
  intros [Hf Hl _ _] Hi Hm Hb HI. pose proof (per_blk_pos c G) as Hp. constructor; cbn [sb_file sb_blocks sb_maps]; auto.
  - apply Forall_app. split; [now apply Forall_take|]. constructor; [exact (fits_end c)|]. apply Forall_app.
    split; [apply Forall_replicate, fits_zero|now apply Forall_drop].
  - rewrite length_app, length_take_le by lia. cbn [length]. rewrite length_app, length_replicate, length_drop.
    apply Nat.Lcm0.mod_divide in Hm as [a Ea]. apply Nat.Lcm0.mod_divide in Hl as [n En]. apply Nat.Lcm0.mod_divide.
    destruct (Nat.le_gt_cases (i + per_blk c) (length (sb_file s))) as [Hle|Hgt]; [exists n; lia|exists (S a); cbn [Nat.mul]].
    lia.
Qed.

Lemma mark_typed (ord : Z) (i : nat) s :
  typed s -> (i < length (sb_file s))%nat -> wp (sm_mark c ord i) (fun _ => typed) s.
Proof.
  intros Ht Hi. unfold sm_mark. destruct (Z.land _ _ =? 0) eqn:E.
  - apply (at_start c G) in E. apply wp_bind, wp_io. intros e q. destruct (negb (e =? 0)).
    + apply wp_ret. destruct Ht. now constructor.
    + apply wp_bind, wp_modify, wp_ret. cbn. apply new_typed; auto; apply Ht.
  - apply wp_bind, wp_modify, wp_ret. apply typed_insert; auto; [exact (fits_end c)|apply Ht|apply Ht].
Qed.

Lemma entry_fits (bn ord : Z) : 0 <= ord < sc_count c -> inoblk_fits c (sm_entry c bn ord).
Proof.
  intros Ho. repeat split; try (apply uwrap_range; lia). right. right. cbn.
  apply Z.le_lt_trans with ord; [apply Z.mod_le; lia | apply Ho].
Qed.

Lemma insert_typed (bn ord : Z) (e full : nat) (emp : option nat) s :
  0 <= ord < sc_count c -> typed s -> (e < length (sb_file s))%nat -> (forall j, emp = Some j -> (j < length (sb_file s))%nat) ->
  wp (sm_insert c bn ord e full emp) (fun _ => typed) s.
Proof.
  intros Hord Ht He Hj. assert (Hput : forall i s1, typed s1 -> (i < length (sb_file s1))%nat ->
    let s2 := mk_sbs (<[i:=sm_entry c bn ord]> (sb_file s1)) (sb_blocks s1 + at_sm (kblocks (dau_at c ord))) (sb_io s1) (sb_fsck s1) (sb_maps s1) in
    typed s2 /\ (i < length (sb_file s2))%nat).
  { intros i s1 H1 Hi. pose proof (kb_nonneg ord). pose proof (ty_blocks _ H1). split.
    - apply typed_insert; auto; [now apply entry_fits|lia|apply H1].
    - cbn. now rewrite length_insert. }
  unfold sm_insert. destruct emp as [i|].
  - apply wp_bind. apply (wp_mono _ (fun _ s' => typed s' /\ sb_file s' = sb_file s)).
    { destruct (negb _); [|now apply wp_ret]. apply wp_read. intros x q. cbn. destruct Ht. split; [now constructor|reflexivity]. }
    intros x s1 [H1 Ef]. destruct (negb (x =? 0)); [now apply wp_ret|].
    destruct (Hput i s1 H1) as [H2 L2]; [rewrite Ef; now apply Hj|]. apply wp_bind, wp_modify, wp_bind, wp_modify.
    destruct (Nat.ltb i full); [apply wp_ret; exact H2|now apply mark_typed].
  - destruct (Hput e s Ht He) as [H2 L2]. apply wp_bind, wp_modify, wp_bind, wp_modify. now apply mark_typed.
Qed.

Lemma merge_typed (x : ext) s : typed s -> 0 <= snd x -> wp (sam_merge_sm_blks c x) (fun _ => typed) s.
Proof.
  intros Ht Ho. unfold sam_merge_sm_blks. destruct x as [b ord]. cbn in Ho. destruct (sc_count c <=? ord) eqn:Eo; cbn [orb].
  { now apply wp_ret. }
  apply Z.leb_gt in Eo. destruct (_ || _); [now apply wp_ret|]. apply wp_bind, wp_gets, wp_bind. unfold id.
  eapply wp_mono; [apply (scan_range _ _ _ _ _ _ _ (length (sb_file s)) Ht); [reflexivity|discriminate]|].
  intros r s' (H1 & Ef & Hr). rewrite <- Ef in Hr. destruct r as [e|i|i full emp|].
  - now apply wp_ret.
  - apply hit_typed; auto.
  - destruct Hr. apply insert_typed; auto.
  - unfold sm_no_end. apply wp_bind, wp_gets, wp_bind, wp_io. intros e q. unfold id. destruct (negb (e =? 0)).
    + apply wp_ret. destruct H1. now constructor.
    + apply wp_bind, wp_io. intros e' q'. apply wp_bind, wp_when; intros _.
      * apply wp_modify, wp_ret. cbn [sb_file sb_blocks sb_io sb_fsck sb_maps]. apply new_typed; auto; apply H1.
      * apply wp_ret. destruct H1. now constructor.
Qed.

(** ** [sam_get_sm_blklist] *)

Definition same_pools s s' : Prop := forall ord, is_Some (lm_pool (sb_maps s) ord) -> is_Some (lm_pool (sb_maps s') ord).

(** The state after entries have been treated: the file is as before. *)
Definition kept s s' : Prop := typed s' /\ sb_file s' = sb_file s.

Lemma kept_trans s s1 s2 : kept s s1 -> kept s1 s2 -> kept s s2.
Proof. intros [_ E1] [T2 E2]. split; [exact T2|congruence]. Qed.

Lemma parts_typed (left : nat) (j bnx : Z) (x : inoblk) (modified : bool) s :
  typed s -> inoblk_fits c x -> is_Some (lm_pool (sb_maps s) (ib_ord x)) ->
  wp (take_parts c left j bnx x modified) (fun r s' => inoblk_fits c (fst r) /\ kept s s') s.
Proof.
  revert j bnx x modified s. induction left as [|left IH]; intros j bnx x modified s Ht Hx [b Hb]; cbn [take_parts].
  { apply wp_ret. now repeat split; try apply Ht; try apply Hx. }
  destruct (negb (Z.land _ _ =? 0)); [|apply IH; eauto].
  destruct (_ || _).
  { apply wp_bind, wp_modify, wp_ret. split; [exact (fits_zero c)|]. destruct Ht. split; [now constructor|reflexivity]. }
  apply wp_bind, wp_gets, wp_bind. eapply wp_deref; [exact Hb|]. unfold id.
  destruct (negb (next_fill b =? b_out b)); [|apply IH; eauto].
  apply wp_bind, wp_modify, wp_bind, wp_modify. cbn [sb_file sb_blocks sb_io sb_fsck sb_maps].
  eapply wp_mono; [apply IH|].
  - destruct Ht as [H1 H2 H3 H4]. constructor; cbn [sb_file sb_blocks sb_maps]; auto; [|now apply (tm_set _ _ T)].
    pose proof (kb_nonneg (ib_ord x)).
    destruct (Z.ltb_spec (sb_blocks s - at_sm (kblocks (dau_at c (ib_ord x)))) 0); [reflexivity|assumption].
  - destruct Hx as (H1 & H2 & H3). split; [exact H1|]. split; [exact H2|]. cbn [ib_free].
    assert (H0 : 0 <= Z.land (ib_free x) (Z.lnot (Z.shiftl 1 j))) by (apply Z.land_nonneg; lia). split; [exact H0|].
    apply Z.le_lt_trans with (ib_free x); [|apply H3]. apply Z.ldiff_le; [lia|]. apply Z.bits_inj'. intros k _.
    rewrite Z.ldiff_spec, Z.land_spec, Z.bits_0. now destruct (Z.testbit (ib_free x) k), (Z.testbit (Z.lnot _) k).
  - apply (tm_pool _ _ T). eauto.
  - cbn. intros r s' [Hr Hk]. split; [exact Hr|]. exact Hk.
Qed.

Lemma entry_typed (x : inoblk) (modified : bool) s :
  typed s -> inoblk_fits c x -> is_end x = false -> wp (take_entry c x modified) (fun r s' => inoblk_fits c (fst r) /\ kept s s') s.
Proof.
  intros Ht Hx He. unfold take_entry. destruct (_ && _) eqn:En; [|apply wp_ret; now split; [|split]].
  apply andb_prop in En as [En _]. apply negb_true_iff, Z.eqb_neq in En.
  destruct (Z.leb_spec (sc_count c) (ib_ord x)) as [Ho|_].
  { destruct Hx as (_ & [_ [H|[H|H]]] & _); [contradiction|congruence|lia]. }
  apply wp_bind, wp_gets. unfold id. destruct (lm_pool (sb_maps s) (ib_ord x)) as [b|] eqn:E.
  2: destruct (negb _); [apply wp_bind, wp_modify|]; apply wp_ret; [|now split; [|split]];
    (split; [exact (fits_zero c)|]; destruct Ht; split; [now constructor|reflexivity]).
  apply wp_bind. eapply wp_mono; [apply parts_typed; eauto|]. intros [x1 w] s' [H1 H2]. apply wp_ret. split; [|exact H2].
  cbn [fst] in *. destruct H1 as (A & B & C). destruct (ib_free x1 =? 0); [|now split; [|split]].
  split; [cbn; lia|]. split; [|exact C]. split; [cbn; lia|now left].
Qed.

Lemma entries_typed (l : list inoblk) (modified : bool) s :
  typed s -> Forall (inoblk_fits c) l ->
  wp (take_entries c l modified) (fun r s' => let '(l1, _, _) := r in Forall (inoblk_fits c) l1 /\ length l1 = length l /\ kept s s') s.
Proof.
  intros Ht Hl. revert modified s Ht. induction Hl as [|x l Hx Hl IH]; intros modified s Ht; cbn [take_entries].
  { apply wp_ret. split; [constructor|]. now split; [|split]. }
  destruct (is_end x) eqn:Ex; [apply wp_ret; split; [now constructor|]; now split; [|split]|].
  apply wp_bind. eapply wp_mono; [now apply entry_typed|]. intros [x1 w] s1 [H1 H2]. apply wp_bind.
  eapply wp_mono; [apply IH, H2|]. intros [[l1 w1] found] s2 (A & B & C). apply wp_ret. split; [now constructor|].
  split; [cbn; now rewrite B|]. eapply kept_trans; eauto.
Qed.

(** A loop over the partitions that changes pools only. *)
Lemma ords_typed (f : sam_block -> sam_block) (l : list Z) s :
  typed s ->
  wp (for_each l (fun ord => s ← gets id;
      match lm_pool (sb_maps s) ord with None => mret tt | Some b => set_pool ord (f b) end)) (fun _ => kept s) s.
Proof.
  intros Ht. apply (wp_for_each _ _ (fun _ => kept s)); [|now split]. intros done x rest s' _ [Ht' Ef].
  apply wp_bind, wp_gets. unfold id. destruct (lm_pool (sb_maps s') x) as [b|]; [|now apply wp_ret].
  apply wp_modify. split; [|exact Ef]. destruct Ht'. constructor; auto. cbn. now apply (tm_set _ _ T).
Qed.

Lemma write_typed (i : nat) (l : list inoblk) s :
  typed s -> Forall (inoblk_fits c) l -> (i + length l <= length (sb_file s))%nat ->
  wp (write_blk c i l) (fun _ s' => typed s' /\ length (sb_file s') = length (sb_file s)) s.
Proof.
  intros Ht Hl Hi. unfold write_blk. apply wp_bind, wp_io. intros e q.
  assert (Hlen : length (take i (sb_file s) ++ l ++ drop (i + length l) (sb_file s)) = length (sb_file s)).
  { rewrite !length_app, length_take_le, length_drop by lia. lia. }
  apply wp_when; intros _; [|split; [destruct Ht; now constructor|reflexivity]].
  apply wp_bind, wp_modify. cbn [sb_file sb_blocks sb_io sb_fsck sb_maps]. set (s1 := mk_sbs _ _ _ _ _).
  assert (H1 : typed s1).
  { destruct Ht. constructor; cbn; auto; [|now rewrite Hlen]. apply Forall_app. split; [now apply Forall_take|].
    apply Forall_app. split; [exact Hl|now apply Forall_drop]. }
  eapply wp_mono; [exact (ords_typed (fun b => set_b_count (BLOCK_COUNT (b_in (commit_fill b)) (b_out (commit_fill b))
    (b_limit (commit_fill b))) (commit_fill b)) _ s1 H1)|].
  intros _ s2 [H2 E2]. split; [exact H2|]. rewrite E2. exact Hlen.
Qed.

Lemma blks_typed (fuel i : nat) (modified : bool) s :
  typed s -> (length (sb_file s) - i < fuel)%nat -> wp (take_blks c fuel i modified) (fun _ => typed) s.
Proof.
  revert i modified s. induction fuel as [|fuel IH]; intros i modified s Ht Hf; [lia|]. cbn [take_blks].
  pose proof (per_blk_pos c G) as Hp. apply wp_bind, wp_gets. unfold id. destruct (Nat.leb (length (sb_file s)) i) eqn:El; [now apply wp_ret|]. apply Nat.leb_gt in El.
    apply wp_bind, wp_read. intros e q. set (s0 := mk_sbs _ _ q _ _). assert (H0 : typed s0) by (destruct Ht; now constructor).
    destruct (negb (e =? 0)); [now apply wp_ret|]. apply wp_bind.
    eapply wp_mono; [apply entries_typed; [exact H0|apply Forall_take, Forall_drop, Ht]|].
    intros [[l w] found] s1 (A & B & C & D). apply wp_bind.
    apply (wp_mono _ (fun _ s' => typed s' /\ length (sb_file s') = length (sb_file s))).
    { apply wp_when; intros _; [|split; [exact C|now rewrite D]]. change (length (sb_file s)) with (length (sb_file s0)). rewrite <- D.
      apply write_typed; auto. rewrite D. cbn [sb_file s0]. rewrite B, length_take, length_drop. lia. }
    intros _ s2 [H2 L2]. destruct found; [now apply wp_ret|]. apply IH; [exact H2|]. rewrite L2. lia.
Qed.

Lemma get_typed s : typed s -> wp (sam_get_sm_blklist c) (fun _ => typed) s.
Proof.
  intros Ht. unfold sam_get_sm_blklist. apply wp_bind. eapply wp_mono; [exact (ords_typed begin_fill _ s Ht)|].
  intros _ s1 [H1 _]. apply wp_bind, wp_gets. unfold id. destruct (_ =? _); [now apply wp_ret|]. apply blks_typed; [exact H1|lia].
Qed.
End Typed.
