(* ===== verification/SmallTake.v ===== *)
(** * Small blocks for the pools

    [sam_get_sm_blklist] moves free small blocks from the file .blocks to the pools of the
    partitions: none is lost and none is in both places afterwards. *)

From S2P Require Import Prelude Dau Extent Monad FileTree BlockPool SmallBlocks SmallGeo SmallThms.

(** ** Contract *)

(** What the pools of small blocks promise. [lm_like m m'] says that [m'] is [m] up to the
    contents of these pools, [lm_idle m] that no update of the free map is in progress. *)
Class PoolLaws (Mp : Type) `{!LargeMaps Mp} (c : sconf) (G : small_geo c) `{!LargeMapsLaws Mp c G} : Type := {
  lm_idle : Mp -> Prop;
  lm_like : Mp -> Mp -> Prop;
  lm_like_pre : PreOrder lm_like;
  lm_like_set (m : Mp) (ord : Z) (b b' : sam_block) : lm_pool m ord = Some b -> lm_like m (lm_set_pool ord b' m);
  lm_pool_set (m : Mp) (ord ord' : Z) (b b' : sam_block) :
    lm_pool m ord = Some b -> lm_pool (lm_set_pool ord b' m) ord' = if decide (ord' = ord) then Some b' else lm_pool m ord';
  lm_pool_range (m : Mp) (ord : Z) (b : sam_block) : lm_pool m ord = Some b -> 0 <= ord < sc_count c;
  lm_pool_wf (m : Mp) (ord : Z) (b : sam_block) :
    lm_ok m -> lm_idle m -> lm_pool m ord = Some b -> pool_wf b /\ b_fill b = b_in b;
  lm_like_cells (m m' : Mp) : lm_like m m' -> lm_cells m' = lm_cells m;
  lm_like_can (m m' : Mp) (e : ext) : lm_like m m' -> lm_can m e -> lm_can m' e;
  lm_like_ok (m m' : Mp) :
    lm_like m m' -> lm_ok m -> lm_idle m ->
    (forall ord b, lm_pool m' ord = Some b -> pool_wf b /\ b_fill b = b_in b) -> lm_ok m' /\ lm_idle m'
}.
#[export] Existing Instance lm_like_pre.

(** ** Pools that grow *)

Definition grow (b b' : sam_block) : Prop :=
  pool_wf b' /\ b_limit b' = b_limit b /\ exists l, queued b' = queued b ++ l.

Lemma grow_refl (b : sam_block) : pool_wf b -> grow b b.
Proof. intros W. split; [exact W|]. split; [reflexivity|]. exists []. now rewrite app_nil_r. Qed.

Lemma grow_trans (b b1 b2 : sam_block) : grow b b1 -> grow b1 b2 -> grow b b2.
Proof.
  intros (_ & L1 & l1 & Q1) (W2 & L2 & l2 & Q2). split; [exact W2|]. split; [congruence|].
  exists (l1 ++ l2). rewrite Q2, Q1. now rewrite app_assoc.
Qed.

Definition block_full (b : sam_block) : Prop := Z.of_nat (length (queued b)) + 1 = b_limit b.

Lemma grow_full (b b' : sam_block) : grow b b' -> block_full b -> block_full b'.
Proof.
  unfold block_full. intros (W & L & l & Q) H. pose proof (queued_bound b' W) as B. rewrite L in *. rewrite Q, length_app in *. lia.
Qed.

Lemma fill_stops (b : sam_block) : pool_wf b -> (next_fill b =? b_out b) = true <-> block_full b.
Proof.
  intros W. unfold block_full, queued. rewrite ring_length. destruct W as [W1 W2 W3 W4 _ _].
  rewrite ring_count_of, next_fill_mod, Z.eqb_eq by lia. rewrite mod_diff, mod_once by lia.
  destruct (Z.ltb_spec (b_fill b - b_out b) 0), (Z.ltb_spec (b_fill b + 1) (b_limit b)); lia.
Qed.

(** Making entries available or starting a fill does not change what a clean pool holds. *)
Lemma count_queued (n : Z) (b : sam_block) : queued (set_b_count n b) = queued b /\ avail (set_b_count n b) = avail b.
Proof. now split. Qed.

Lemma count_wf (n : Z) (b : sam_block) : pool_wf b -> pool_wf (set_b_count n b).
Proof. intros []. constructor; assumption. Qed.

Section Take.
Context {Mp : Type} `{!LargeMaps Mp} (c : sconf) (G : small_geo c) `{!LargeMapsLaws Mp c G} `{!PoolLaws Mp c G}.
Implicit Types s : sbs Mp.
Implicit Types m : Mp.

(** Small blocks in the pools. *)
Definition pool_cells (f : sam_block -> list Z) (m : Mp) : list ext :=
  ords_list c ≫= fun ord => (fun x => (x, ord)) <$> pool_list f (lm_pool m ord).

Definition wf_pools (m : Mp) : Prop := forall ord b, lm_pool m ord = Some b -> pool_wf b.
Definition clean_pools (m : Mp) : Prop := forall ord b, lm_pool m ord = Some b -> pool_wf b /\ b_fill b = b_in b.
Definition full (m : Mp) (ord : Z) : Prop := forall b, lm_pool m ord = Some b -> block_full b.

Lemma clean_wf m : clean_pools m -> wf_pools m.
Proof. intros H ord b E. exact (proj1 (H ord b E)). Qed.

Lemma cells_set m (ord : Z) (b b' : sam_block) (l : list Z) :
  lm_pool m ord = Some b -> queued b' = queued b ++ l ->
  pool_cells queued (lm_set_pool ord b' m) ≡ₚ ((fun x => (x, ord)) <$> l) ++ pool_cells queued m.
Proof.
  intros E Q. pose proof (lm_pool_range m ord b E) as R. unfold pool_cells, ords_list.
  assert (Es : seqZ 0 (sc_count c) = seqZ 0 ord ++ ord :: seqZ (ord + 1) (sc_count c - ord - 1)).
  { replace (sc_count c) with (ord + (1 + (sc_count c - ord - 1))) at 1 by lia.
    rewrite seqZ_app, (seqZ_app _ 1) by lia. now rewrite Z.add_0_l. }
  assert (Eo : forall l', ord ∉ l' ->
    (l' ≫= fun o => (fun x : Z => (x, o)) <$> pool_list queued (lm_pool (lm_set_pool ord b' m) o)) =
    (l' ≫= fun o => (fun x : Z => (x, o)) <$> pool_list queued (lm_pool m o))).
  { intros l' Hl. apply Forall_bind_ext, Forall_forall. intros o Ho. rewrite (lm_pool_set m ord o b b' E).
    rewrite decide_False; [reflexivity|]. congruence. }
  rewrite Es, !bind_app, !bind_cons, !Eo by (rewrite elem_of_seqZ; lia).
  rewrite (lm_pool_set m ord ord b b' E), decide_True, E by reflexivity. cbn [pool_list]. rewrite Q, fmap_app.
  solve_Permutation.
Qed.

(** ** Steps *)

(** The blocks [t] have been put into the pools; the file is as before. *)
Record filled (t : list ext) (s s' : sbs Mp) : Prop := mk_filled {
  fi_file : sb_file s' = sb_file s;
  fi_io : sb_io s' = sb_io s;
  fi_fsck : sb_fsck s' = sb_fsck s;
  fi_like : lm_like (sb_maps s) (sb_maps s');
  fi_grow : forall ord, option_Forall2 grow (lm_pool (sb_maps s) ord) (lm_pool (sb_maps s') ord);
  fi_cells : pool_cells queued (sb_maps s') ≡ₚ t ++ pool_cells queued (sb_maps s)
}.

Lemma filled_refl s s' :
  wf_pools (sb_maps s) -> sb_file s' = sb_file s -> sb_io s' = sb_io s -> sb_fsck s' = sb_fsck s ->
  sb_maps s' = sb_maps s -> filled [] s s'.
Proof.
  intros W E1 E2 E3 E4. constructor; auto; rewrite E4; try reflexivity. intros ord.
  destruct (lm_pool (sb_maps s) ord) as [b|] eqn:E; constructor. eapply grow_refl, W, E.
Qed.

Lemma filled_trans (t1 t2 : list ext) s s1 s2 : filled t1 s s1 -> filled t2 s1 s2 -> filled (t2 ++ t1) s s2.
Proof.
  intros [] []. constructor; try congruence; [etransitivity; eauto| |].
  - intros ord. specialize (fi_grow0 ord). specialize (fi_grow1 ord).
    destruct fi_grow0; inversion fi_grow1; subst; constructor. eauto using grow_trans.
  - rewrite fi_cells1, fi_cells0. now rewrite app_assoc.
Qed.

Lemma filled_wf (t : list ext) s s' : filled t s s' -> wf_pools (sb_maps s').
Proof.
  intros F ord b E. pose proof (fi_grow _ _ _ F ord) as H. rewrite E in H. inversion H as [b0 b1 Hg|]; subst. apply Hg.
Qed.

Lemma filled_some (t : list ext) s s' (ord : Z) :
  filled t s s' -> is_Some (lm_pool (sb_maps s) ord) <-> is_Some (lm_pool (sb_maps s') ord).
Proof. intros F. destruct (fi_grow _ _ _ F ord); split; intros [? [=]]; eauto. Qed.

Lemma filled_full (t : list ext) s s' (ord : Z) : filled t s s' -> full (sb_maps s) ord -> full (sb_maps s') ord.
Proof.
  intros F H b E. pose proof (fi_grow _ _ _ F ord) as Hg. rewrite E in Hg. inversion Hg as [b0 b1 Hb Eb|]; subst.
  eapply grow_full; [exact Hb|]. apply H. auto.
Qed.

(** One pool changes. *)
Lemma filled_set s s' (ord : Z) (b b' : sam_block) (l : list Z) :
  wf_pools (sb_maps s) -> lm_pool (sb_maps s) ord = Some b -> pool_wf b' -> b_limit b' = b_limit b ->
  queued b' = queued b ++ l -> sb_file s' = sb_file s -> sb_io s' = sb_io s -> sb_fsck s' = sb_fsck s ->
  sb_maps s' = lm_set_pool ord b' (sb_maps s) -> filled ((fun x => (x, ord)) <$> l) s s'.
Proof.
  intros W E W' L Q E1 E2 E3 E4. constructor; auto; rewrite E4; [eapply lm_like_set; eauto| |exact (cells_set _ ord b b' l E Q)].
  intros o. rewrite (lm_pool_set _ ord o b b' E). destruct (decide (o = ord)) as [->|].
  - rewrite E. constructor. split; [exact W'|]. split; [exact L|]. eauto.
  - destruct (lm_pool (sb_maps s) o) eqn:Eo; constructor. eapply grow_refl, W, Eo.
Qed.

(** ** One entry *)

(** The number of a part fits. *)
Lemma part_fits (e : ext) (j : Z) : large_ok c G e -> 0 <= j < cnt c G (snd e) -> 0 <= fst (part c G e j) < 2 ^ 32.
Proof.
  intros [[q Eq] Hb _ _ _] Hj. pose proof (sg_range _ G (snd e)) as R. unfold part, step, cnt in *. cbn [fst].
  set (a := sg_a G) in *. set (b := sg_b G (snd e)) in *. set (sh := sc_shift c) in *.
  rewrite Z.shiftl_mul_pow2 in Eq by lia.
  assert (E1 : 2 ^ b = 2 ^ (b - sh) * 2 ^ sh) by (rewrite <- Z.pow_add_r by lia; f_equal; lia).
  assert (E2 : fst e = q * 2 ^ (b - sh)).
  { rewrite E1, Z.mul_assoc in Eq. apply Z.mul_reg_r in Eq; [exact Eq|]. apply Z.pow_nonzero; lia. }
  assert (E3 : 2 ^ (b - sh) = 2 ^ (b - a) * 2 ^ (a - sh)) by (rewrite <- Z.pow_add_r by lia; f_equal; lia).
  assert (P1 : 0 < 2 ^ (a - sh)) by (apply Z.pow_pos_nonneg; lia).
  assert (P2 : 0 < 2 ^ (b - sh)) by (apply Z.pow_pos_nonneg; lia).
  assert (Hq : 0 < q) by nia. split; [nia|].
  assert (Hlt : b - sh < 32). { apply (Z.pow_lt_mono_r_iff 2); [lia..|]. nia. }
  assert (E4 : 2 ^ 32 = 2 ^ (32 - (b - sh)) * 2 ^ (b - sh)) by (rewrite <- Z.pow_add_r by lia; f_equal; lia).
  assert (Hq2 : q < 2 ^ (32 - (b - sh))) by nia. nia.
Qed.

(** The bit of a part is cleared. *)
Lemma bit_cells_clear (e : ext) (free j : Z) :
  bits_ok c G e free -> 0 <= j < cnt c G (snd e) -> Z.testbit free j = true ->
  let f := Z.land free (Z.lnot (Z.shiftl 1 j)) in
  bits_ok c G e f /\ bit_cells c G e free ≡ₚ part c G e j :: bit_cells c G e f /\ Z.testbit f j = false.
Proof.
  intros Hb Hj Ht f. assert (Ef : f = Z.ldiff free (2 ^ j)) by (unfold f; now rewrite Z.shiftl_1_l, Z.ldiff_land).
  assert (H0 : Z.testbit f j = false) by (rewrite Ef, Z.ldiff_spec, Z.pow2_bits_true by lia; now rewrite andb_false_r).
  assert (El : Z.lor f (2 ^ j) = free).
  { apply Z.bits_inj'. intros k Hk. rewrite Ef, Z.lor_spec, Z.ldiff_spec, Z.pow2_bits_eqb by lia.
    destruct (Z.eqb_spec j k) as [<-|]; [now rewrite Ht|]. now rewrite andb_true_r, orb_false_r. }
  split; [|split; [|exact H0]].
  - destruct Hb as [B0 B1]. assert (Hf : 0 <= f) by (rewrite Ef; apply Z.ldiff_nonneg; lia).
    split; [exact Hf|]. apply Z.le_lt_trans with free; [|exact B1]. apply Z.ldiff_le; [exact B0|].
    apply Z.bits_inj'. intros k _. rewrite Ef, !Z.ldiff_spec, Z.bits_0. now destruct (Z.testbit free k), (Z.testbit (2 ^ j) k).
  - rewrite <- El at 1. now apply bit_cells_lor.
Qed.

(** The parts from [j] on of the entry [x] have been put into the pool, as far as there is
    room; [x1] is the entry and [w] the flag afterwards. *)
Record parts_done (j : Z) (x : inoblk) (modified : bool) s (t : list ext) (x1 : inoblk) (w : bool) (s1 : sbs Mp) : Prop :=
  mk_parts_done {
    pd_fill : filled t s s1;
    pd_key : key x1 = key x;
    pd_bits : bits_ok c G (key x) (ib_free x1);
    pd_cells : bit_cells c G (key x) (ib_free x) ≡ₚ t ++ bit_cells c G (key x) (ib_free x1);
    pd_same : w = false -> modified = false /\ x1 = x /\ t = [] /\ s1 = s;
    pd_full : forall i, j <= i < cnt c G (ib_ord x) -> Z.testbit (ib_free x1) i = true -> full (sb_maps s1) (ib_ord x);
    pd_low : forall i, i < j -> Z.testbit (ib_free x1) i = Z.testbit (ib_free x) i
  }.

Lemma parts_skip (j : Z) (x x1 : inoblk) (modified w : bool) (t : list ext) s s1 :
  (Z.testbit (ib_free x) j = true -> full (sb_maps s) (ib_ord x)) ->
  parts_done (j + 1) x modified s t x1 w s1 -> parts_done j x modified s t x1 w s1.
Proof.
  intros Hf [F K B P M Hfull Hlow]. constructor; auto.
  - intros i Hi Ht. destruct (Z.eq_dec i j) as [->|]; [|apply (Hfull i); auto; lia].
    eapply filled_full; [exact F|]. apply Hf. rewrite <- Hlow by lia. exact Ht.
  - intros i Hi. apply Hlow. lia.
Qed.

(** The entry without the part [j]. *)
Definition less_part (x : inoblk) (j : Z) : inoblk :=
  mk_inoblk (ib_bn x) (ib_ord x) (Z.land (ib_free x) (Z.lnot (Z.shiftl 1 j))).

Lemma parts_push (j : Z) (x x1 : inoblk) (modified w : bool) (t : list ext) s s0 s1 :
  bits_ok c G (key x) (ib_free x) -> 0 <= j < cnt c G (ib_ord x) -> Z.testbit (ib_free x) j = true ->
  filled [part c G (key x) j] s s0 -> parts_done (j + 1) (less_part x j) true s0 t x1 w s1 ->
  parts_done j x modified s (t ++ [part c G (key x) j]) x1 w s1.
Proof.
  intros B Hj Hb F0 [F K B1 P M Hfull Hlow].
  destruct (bit_cells_clear (key x) (ib_free x) j B Hj Hb) as (_ & P0 & T0). cbv zeta in *.
  constructor; auto.
  - eapply filled_trans; eauto.
  - rewrite P0. change (key (less_part x j)) with (key x) in P. cbn [ib_free less_part] in P. rewrite P. solve_Permutation.
  - intros H. destruct (M H). discriminate.
  - intros i Hi Ht. destruct (Z.eq_dec i j) as [->|]; [|apply (Hfull i); auto; cbn; lia].
    rewrite Hlow in Ht by lia. cbn in Ht. congruence.
  - intros i Hi. rewrite Hlow by lia. cbn. rewrite Z.land_spec, Z.shiftl_1_l.
    destruct (Z.ltb_spec i 0) as [H|H]; [now rewrite !Z.testbit_neg_r by lia|].
    rewrite Z.lnot_spec, Z.pow2_bits_eqb by lia. destruct (Z.eqb_spec j i); [lia|]. apply andb_true_r.
Qed.

(** The test of a bit. *)
Lemma bit_test (f j : Z) : 0 <= j -> negb (Z.land f (Z.shiftl 1 j) =? 0) = Z.testbit f j.
Proof.
  intros Hj. rewrite Z.shiftl_1_l. destruct (Z.testbit f j) eqn:E.
  - apply negb_true_iff, Z.eqb_neq. intros H. apply (f_equal (fun z => Z.testbit z j)) in H.
    rewrite Z.land_spec, E, Z.pow2_bits_true, Z.bits_0 in H by lia. discriminate.
  - apply negb_false_iff, Z.eqb_eq, Z.bits_inj'. intros k _. rewrite Z.land_spec, Z.pow2_bits_eqb, Z.bits_0 by lia.
    destruct (Z.eqb_spec j k) as [<-|]; [now rewrite E|apply andb_false_r].
Qed.

(** A part that is put into a pool with room. *)
Lemma push_part (e : ext) (j : Z) (b : sam_block) s (n : Z) :
  wf_pools (sb_maps s) -> lm_pool (sb_maps s) (snd e) = Some b -> (next_fill b =? b_out b) = false ->
  large_ok c G e -> 0 <= j < cnt c G (snd e) ->
  let bnx := Z.shiftl (fst (part c G e j)) (sc_shift c) in
  let b' := set_b_fill (next_fill b) (set_b_bn (b_fill b) (u32 (Z.shiftr bnx (sc_shift c))) b) in
  filled [part c G e j] s (mk_sbs (sb_file s) n (sb_io s) (sb_fsck s) (lm_set_pool (snd e) b' (sb_maps s))).
Proof.
  intros W Eb En L Hj bnx b'. pose proof (W _ _ Eb) as Wb. pose proof (fill_stops b Wb) as Hstop.
  destruct (fill_one_room (sc_shift c) bnx b Wb) as (b1 & Ef & W' & Q & _ & _ & _ & Lm).
  { pose proof (queued_bound b Wb). assert (~ block_full b) by (intros H0; apply Hstop in H0; congruence). unfold block_full in *. lia. }
  unfold fill_one in Ef. rewrite En in Ef. cbn [negb] in Ef. injection Ef as Ef. fold b' in Ef. subst b1.
  pose proof (sg_range _ G 0) as Rg. pose proof (part_fits e j L Hj) as Hfit. unfold bnx in Q.
  rewrite Z.shiftr_shiftl_l, Z.sub_diag, Z.shiftl_0_r in Q by lia.
  unfold uwrap in Q. rewrite Z.mod_small in Q by exact Hfit.
  change [part c G e j] with ((fun x => (x, snd e)) <$> [fst (part c G e j)]).
  apply (filled_set s _ (snd e) b b' [fst (part c G e j)] W Eb W' Lm Q); reflexivity.
Qed.

Lemma parts_take (left : nat) (j : Z) (x : inoblk) (modified : bool) s :
  wf_pools (sb_maps s) -> is_Some (lm_pool (sb_maps s) (ib_ord x)) -> large_ok c G (key x) ->
  bits_ok c G (key x) (ib_free x) -> 0 <= j -> j + Z.of_nat left = cnt c G (ib_ord x) ->
  exists x1 w t s1,
    take_parts c left j (Z.shiftl (fst (part c G (key x) j)) (sc_shift c)) x modified s = Done (x1, w) s1 /\
    parts_done j x modified s t x1 w s1.
Proof.
  revert j x modified s. induction left as [|left IH]; intros j x modified s W [b Eb] L B Hj Hl; cbn [take_parts].
  { exists x, modified, [], s. split; [reflexivity|]. constructor; auto; [now apply filled_refl|lia]. }
  assert (Hjc : 0 <= j < cnt c G (snd (key x))) by (cbn; lia).
  assert (En : Z.shiftl (fst (part c G (key x) j)) (sc_shift c) + at_sm (kblocks (dau_at c (ib_ord x))) =
    Z.shiftl (fst (part c G (key x) (j + 1))) (sc_shift c)).
  { rewrite !part_bn, (sg_kb _ G) by lia. cbn [at_sm]. lia. }
  rewrite En, bit_test by exact Hj.
  destruct (IH (j + 1) x modified s W (ex_intro _ b Eb) L B ltac:(lia) ltac:(lia)) as (x1 & w & t & s1 & E & D).
  destruct (Z.testbit (ib_free x) j) eqn:Ebit.
  2:{ exists x1, w, t, s1. split; [exact E|]. apply parts_skip; [congruence|exact D]. }
  pose proof (part_range c G (key x) j L Hjc) as R. cbv zeta in R. cbn [snd key] in R.
  apply orb_false_iff in R as [R R4]. apply orb_false_iff in R as [R _]. apply orb_false_iff in R as [_ R2].
  unfold key at 1. cbn [fst snd]. fold (key x). rewrite R2, R4. cbn [orb].
  rewrite (bind_done _ _ s s s) by reflexivity. unfold id. rewrite Eb. rewrite (bind_done _ _ s s b) by reflexivity.
  destruct (next_fill b =? b_out b) eqn:En2; cbn [negb].
  { exists x1, w, t, s1. split; [exact E|]. apply parts_skip; [|exact D]. intros _ b0 E0. rewrite Eb in E0. injection E0 as <-.
    apply fill_stops; eauto. }
  clear x1 w t s1 E D. erewrite bind_done; [|reflexivity]. erewrite bind_done; [|reflexivity].
  cbn [sb_file sb_blocks sb_io sb_fsck sb_maps].
  match goal with |- context [take_parts _ _ _ _ _ true (mk_sbs _ ?z _ _ _)] =>
    pose proof (push_part (key x) j b s z W Eb En2 L Hjc) as F0 end.
  cbv zeta in F0. cbn [snd key] in F0. fold (key x) in F0. set (s0 := mk_sbs _ _ _ _ _) in *.
  destruct (bit_cells_clear (key x) (ib_free x) j B Hjc Ebit) as (B0 & _). cbv zeta in B0.
  destruct (IH (j + 1) (less_part x j) true s0 (filled_wf _ _ _ F0) (proj1 (filled_some _ _ _ _ F0) (ex_intro _ b Eb)) L B0
    ltac:(lia) ltac:(cbn; lia)) as (x1 & w & t & s1 & E & D).
  exists x1, w, (t ++ [part c G (key x) j]), s1. split; [exact E|]. eapply parts_push; eauto.
Qed.

(** ** Lists of entries *)

(** The ordinal of an entry has a pool, or no allocation is allowed on it. *)
Definition entry_known (m : Mp) (x : inoblk) : Prop :=
  empty x = false -> is_Some (lm_pool m (ib_ord x)) \/ sc_noalloc c (ib_ord x) = true.

(** Entries that keep some blocks belong to a pool without room. *)
Definition left_full (m : Mp) (l : list inoblk) : Prop :=
  Forall (fun x => entry_cells c G x <> [] -> full m (ib_ord x)) l.

(** The entries [p] have become [p1], the blocks [t] are gone. *)
Record shrunk (m : Mp) (t : list ext) (p p1 : list inoblk) : Prop := mk_shrunk {
  sh_len : length p1 = length p;
  sh_good : Forall (entry_good c G m) p1;
  sh_end : Forall (fun x => is_end x = false) p1;
  sh_known : Forall (entry_known m) p1;
  sh_keys : keys p1 `sublist_of` keys p;
  sh_cells : cells_of c G p ≡ₚ t ++ cells_of c G p1
}.

Lemma shrunk_refl m (p : list inoblk) :
  Forall (entry_good c G m) p -> Forall (fun x => is_end x = false) p -> Forall (entry_known m) p -> shrunk m [] p p.
Proof. now constructor. Qed.

Lemma shrunk_app m (t1 t2 : list ext) (p p1 q q1 : list inoblk) :
  shrunk m t1 p p1 -> shrunk m t2 q q1 -> shrunk m (t2 ++ t1) (p ++ q) (p1 ++ q1).
Proof.
  intros [] []. constructor; rewrite ?length_app, ?keys_app, ?cells_app; try (apply Forall_app; auto); [lia|now apply sublist_app|].
  rewrite sh_cells0, sh_cells1. solve_Permutation.
Qed.

(** What is good with the maps of a state stays good. *)
Lemma good_like m m' (x : inoblk) : lm_like m m' -> entry_good c G m x -> entry_good c G m' x.
Proof. intros L [H|(H1 & H2 & H3)]; [now left|right]. split; [exact H1|]. split; [eapply lm_like_can; eauto|exact H3]. Qed.

Lemma known_filled (t : list ext) s s' (x : inoblk) :
  filled t s s' -> entry_known (sb_maps s) x -> entry_known (sb_maps s') x.
Proof. intros F H E. destruct (H E) as [H1|H1]; [left|now right]. now apply (filled_some _ _ _ _ F). Qed.

Lemma shrunk_filled (t u : list ext) s s' (p p1 : list inoblk) :
  filled t s s' -> shrunk (sb_maps s) u p p1 -> shrunk (sb_maps s') u p p1.
Proof.
  intros F []. constructor; auto.
  - eapply Forall_impl; [exact sh_good0|]. intros x. eapply good_like, F.
  - eapply Forall_impl; [exact sh_known0|]. intros x. eapply known_filled, F.
Qed.

Lemma left_filled (t : list ext) s s' (l : list inoblk) :
  filled t s s' -> left_full (sb_maps s) l -> left_full (sb_maps s') l.
Proof.
  intros F H. eapply Forall_impl; [exact H|]. cbn. intros x Hx Hc. eapply filled_full; eauto.
Qed.

(** ** The loop over the entries of a block *)

(** An entry whose parts have been treated; one without parts is cleared. *)
Definition cleared (x : inoblk) : inoblk := if ib_free x =? 0 then mk_inoblk 0 0 (ib_free x) else x.

Lemma entry_after (x x1 : inoblk) (modified w : bool) (t : list ext) s s1 :
  empty x = false -> is_end x = false -> lm_can (sb_maps s) (key x) -> is_Some (lm_pool (sb_maps s) (ib_ord x)) -> ib_free x <> 0 ->
  parts_done 0 x modified s t x1 w s1 ->
  shrunk (sb_maps s1) t [x] [cleared x1] /\ left_full (sb_maps s1) [cleared x1] /\
  (w = false -> modified = false /\ cleared x1 = x /\ t = [] /\ s1 = s).
Proof.
  intros E0 He Hc Hp Hf [F K B1 P M Hfull _].
  assert (Hcx : cells_of c G [x] = bit_cells c G (key x) (ib_free x)).
  { rewrite cells_cons, app_nil_r. unfold entry_cells. now rewrite E0. }
  unfold cleared. destruct (Z.eqb_spec (ib_free x1) 0) as [Ez|Ez].
  - rewrite Ez in *. fold ib_zero. split; [|split].
    + constructor; [reflexivity|now apply Forall_singleton; left|now apply Forall_singleton|now apply Forall_singleton|apply sublist_nil_l|].
      now rewrite Hcx, P, bit_cells_zero.
    + apply Forall_singleton. now intros [].
    + intros Hw. destruct (M Hw) as (_ & -> & _). contradiction.
  - assert (Kb : ib_bn x1 = ib_bn x) by exact (f_equal fst K). assert (Ko : ib_ord x1 = ib_ord x) by exact (f_equal snd K).
    assert (E1 : empty x1 = false) by (unfold empty; now rewrite Kb). split; [|split; [|exact M]].
    + constructor; [reflexivity|apply Forall_singleton|apply Forall_singleton|apply Forall_singleton| |].
      * right. split; [exact E1|]. rewrite K. split; [|exact B1]. eapply lm_like_can; [apply F|exact Hc].
      * unfold is_end in *. now rewrite Kb.
      * intros _. left. rewrite Ko. now apply (filled_some _ _ _ _ F).
      * rewrite !keys_cons, E0, E1, K. reflexivity.
      * rewrite Hcx, P, cells_cons, app_nil_r. unfold entry_cells. rewrite E1, K. reflexivity.
    + apply Forall_singleton. intros Hne. rewrite Ko. unfold entry_cells in Hne.
      rewrite E1 in Hne. destruct (bit_cells c G (key x1) (ib_free x1)) as [|y l] eqn:Ey; [now destruct Hne|].
      assert (Hy : y ∈ bit_cells c G (key x1) (ib_free x1)) by (rewrite Ey; left).
      apply bit_cells_elem in Hy as (i & Hi & Ht & _). rewrite K in Hi. apply (Hfull i); auto.
Qed.

Lemma entry_take (x : inoblk) (modified : bool) s :
  wf_pools (sb_maps s) -> entry_good c G (sb_maps s) x -> entry_known (sb_maps s) x -> is_end x = false ->
  exists x1 w t s1, take_entry c x modified s = Done (x1, w) s1 /\ filled t s s1 /\ shrunk (sb_maps s1) t [x] [x1] /\
    left_full (sb_maps s1) [x1] /\ (w = false -> modified = false /\ x1 = x /\ t = [] /\ s1 = s).
Proof.
  intros W Hg Hk He. unfold take_entry. destruct (negb (ib_bn x =? 0) && negb (ib_free x =? 0)) eqn:E0.
  2:{ exists x, modified, [], s. split; [reflexivity|]. split; [now apply filled_refl|].
      split; [apply shrunk_refl; now apply Forall_singleton|]. split; [|auto]. apply Forall_singleton. intros []. unfold entry_cells, empty.
      apply andb_false_iff in E0 as [E0|E0]; apply negb_false_iff in E0; [now rewrite E0|].
      apply Z.eqb_eq in E0. rewrite E0, bit_cells_zero. now destruct (ib_bn x =? 0). }
  apply andb_prop in E0 as [E0 Ef]. apply negb_true_iff in E0, Ef. apply Z.eqb_neq in Ef.
  destruct Hg as [->|(_ & Hc & B)]; [discriminate|]. pose proof (lm_can_large _ _ Hc) as L.
  rewrite (bind_done _ _ s s s) by reflexivity. unfold id.
  destruct (Z.leb_spec (sc_count c) (ib_ord x)) as [Ho|_]; [pose proof (proj2 (la_ord _ _ _ L)); cbn in *; lia|].
  cbn [negb]. destruct (lm_pool (sb_maps s) (ib_ord x)) as [b|] eqn:Eb.
  2:{ destruct (Hk E0) as [[b Hb]|Hn]; [congruence|]. rewrite Hn. cbn [negb].
      exists x, modified, [], s. split; [reflexivity|]. split; [now apply filled_refl|].
      split; [apply shrunk_refl; apply Forall_singleton; auto; right; auto|]. split; [|auto].
      apply Forall_singleton. intros _ b Hb. congruence. }
  destruct (parts_take (Z.to_nat (sm_blkcount (dau_at c (ib_ord x)))) 0 x modified s W (ex_intro _ b Eb) L B ltac:(lia))
    as (x1 & w & t & s1 & E & D).
  { rewrite (sg_cnt _ G). pose proof (cnt_range c G (ib_ord x)). unfold cnt in *. rewrite Z2Nat.id; lia. }
  assert (Ep : fst (part c G (key x) 0) = ib_bn x) by (unfold part; cbn; lia). rewrite Ep in E.
  rewrite (bind_done _ _ _ _ _ E). exists (cleared x1), w, t, s1. split; [reflexivity|]. split; [apply D|].
  eapply entry_after; eauto.
Qed.

Lemma listed_app (p l : list inoblk) : Forall (fun x => is_end x = false) p -> listed (p ++ l) = p ++ listed l.
Proof. induction 1 as [|x p Hx _ IH]; cbn; [reflexivity|]. now rewrite Hx, IH. Qed.

(** The entries [p] of a block, up to its end or to an end mark. *)
Lemma entries_take (p tl : list inoblk) (modified : bool) s :
  wf_pools (sb_maps s) -> Forall (entry_good c G (sb_maps s)) p -> Forall (entry_known (sb_maps s)) p ->
  Forall (fun x => is_end x = false) p -> (tl = [] \/ exists en r, tl = en :: r /\ is_end en = true) ->
  exists p1 w t s1, take_entries c (p ++ tl) modified s = Done (p1 ++ tl, w, negb (Nat.eqb (length tl) 0)) s1 /\
    filled t s s1 /\ shrunk (sb_maps s1) t p p1 /\ left_full (sb_maps s1) p1 /\
    (w = false -> modified = false /\ p1 = p /\ t = [] /\ s1 = s).
Proof.
  intros W Hg Hk He Htl. revert modified s W Hg Hk. induction He as [|x p Hx He IH]; intros modified s W Hg Hk; cbn [app].
  - exists [], modified, [], s. split; [|split; [now apply filled_refl|]; split; [now apply shrunk_refl|]; split; [constructor|auto]].
    destruct Htl as [->|(en & r & -> & Hen)]; cbn; [reflexivity|]. now rewrite Hen.
  - apply Forall_cons in Hg as [Gx Hg]. apply Forall_cons in Hk as [Kx Hk]. cbn [take_entries]. rewrite Hx.
    destruct (entry_take x modified s W Gx Kx Hx) as (x1 & w1 & t1 & s1 & E1 & F1 & S1 & L1 & M1).
    rewrite (bind_done _ _ _ _ _ E1).
    destruct (IH w1 s1) as (p1 & w & t & s2 & E2 & F2 & S2 & L2 & M2).
    + eapply filled_wf, F1.
    + eapply Forall_impl; [exact Hg|]. intros y. eapply good_like, F1.
    + eapply Forall_impl; [exact Hk|]. intros y. eapply known_filled, F1.
    + rewrite (bind_done _ _ _ _ _ E2). exists (x1 :: p1), w, (t ++ t1), s2. split; [reflexivity|].
      split; [eapply filled_trans; eauto|]. split; [|split].
      * apply (shrunk_app _ t1 t [x] [x1] p p1); [|exact S2]. eapply shrunk_filled; eauto.
      * apply (Forall_app _ [x1] p1). split; [|exact L2]. eapply left_filled; eauto.
      * intros Hw. destruct (M2 Hw) as (Hw1 & -> & -> & ->). destruct (M1 Hw1) as (-> & -> & -> & ->). auto.
Qed.

(** ** Making the blocks available *)

(** A loop over the partitions that treats each pool with [f]. *)
Lemma pools_loop (f : sam_block -> sam_block) (l : list Z) s :
  (forall b, pool_wf b -> pool_wf (f b) /\ b_limit (f b) = b_limit b) ->
  wf_pools (sb_maps s) -> NoDup l ->
  (forall ord b, ord ∈ l -> lm_pool (sb_maps s) ord = Some b -> queued (f b) = queued b) ->
  exists s', for_each l (fun ord => s ← gets id;
      match lm_pool (sb_maps s) ord with None => mret tt | Some b => set_pool ord (f b) end) s = Done tt s' /\
    filled [] s s' /\ forall ord, lm_pool (sb_maps s') ord = if decide (ord ∈ l) then f <$> lm_pool (sb_maps s) ord else lm_pool (sb_maps s) ord.
Proof.
  intros Hf. revert s. induction l as [|o l IH]; intros s W N Hq; cbn [for_each].
  { exists s. split; [reflexivity|]. split; [now apply filled_refl|]. intros ord. now rewrite decide_False by apply not_elem_of_nil. }
  apply NoDup_cons in N as [No N].
  assert (H1 : exists s1, (s ← gets id; match lm_pool (sb_maps s) o with None => mret tt | Some b => set_pool o (f b) end) s = Done tt s1 /\
    filled [] s s1 /\ forall ord, lm_pool (sb_maps s1) ord = if decide (ord = o) then f <$> lm_pool (sb_maps s) ord else lm_pool (sb_maps s) ord).
  { rewrite (bind_done _ _ s s s) by reflexivity. unfold id. destruct (lm_pool (sb_maps s) o) as [b|] eqn:Eb.
    - destruct (Hf b (W _ _ Eb)) as [Wf Lf]. eexists. split; [reflexivity|]. split.
      + apply (filled_set s _ o b (f b) []); auto. rewrite app_nil_r. eapply Hq; [left|exact Eb].
      + intros ord. cbn. rewrite (lm_pool_set _ o ord b (f b) Eb). destruct (decide (ord = o)) as [->|]; [now rewrite Eb|reflexivity].
    - exists s. split; [reflexivity|]. split; [now apply filled_refl|]. intros ord.
      destruct (decide (ord = o)) as [->|]; [now rewrite Eb|reflexivity]. }
  destruct H1 as (s1 & E1 & F1 & P1). rewrite (bind_done _ _ _ _ _ E1).
  destruct (IH s1 (filled_wf _ _ _ F1) N) as (s2 & E2 & F2 & P2).
  { intros ord b Ho Hb. rewrite P1 in Hb. rewrite decide_False in Hb by congruence. apply (Hq ord b); [now right|exact Hb]. }
  exists s2. split; [exact E2|]. split; [eapply (filled_trans [] []); eauto|]. intros ord. rewrite P2, P1.
  destruct (decide (ord ∈ l)) as [Hi|Hi], (decide (ord = o)) as [->|Hn]; try contradiction.
  - now rewrite decide_True by (now right).
  - now rewrite decide_True by left.
  - rewrite decide_False; [reflexivity|]. rewrite not_elem_of_cons. auto.
Qed.

Lemma ords_all m (ord : Z) (b : sam_block) : lm_pool m ord = Some b -> ord ∈ ords_list c.
Proof. intros E. apply elem_of_seqZ. pose proof (lm_pool_range m ord b E). lia. Qed.

Lemma publish_spec s : wf_pools (sb_maps s) -> exists s', publish c s = Done tt s' /\ filled [] s s' /\ clean_pools (sb_maps s').
Proof.
  intros W. destruct (pools_loop (fun b => set_b_count (BLOCK_COUNT (b_in (commit_fill b)) (b_out (commit_fill b)) (b_limit (commit_fill b)))
    (commit_fill b)) (ords_list c) s) as (s' & E & F & P).
  - intros b Wb. split; [|reflexivity]. apply count_wf, commit_fill_spec, Wb.
  - exact W.
  - apply NoDup_seqZ.
  - reflexivity.
  - exists s'. split; [exact E|]. split; [exact F|]. intros ord b Eb. pose proof Eb as Eb'. rewrite P in Eb.
    rewrite decide_True in Eb by (eapply ords_all; eauto). apply fmap_Some in Eb as (b0 & E0 & ->).
    split; [|reflexivity]. eapply (filled_wf _ _ _ F). exact Eb'.
Qed.

Lemma begin_spec s : clean_pools (sb_maps s) ->
  exists s', begin_pools c s = Done tt s' /\ filled [] s s' /\ clean_pools (sb_maps s') /\
    forall ord, lm_pool (sb_maps s') ord = begin_fill <$> lm_pool (sb_maps s) ord.
Proof.
  intros W. destruct (pools_loop begin_fill (ords_list c) s) as (s' & E & F & P).
  - intros b Wb. split; [|reflexivity]. apply begin_fill_spec, Wb.
  - now apply clean_wf.
  - apply NoDup_seqZ.
  - intros ord b _ Eb. destruct (W _ _ Eb) as [Wb Cb]. rewrite (pool_clean b Cb). apply begin_fill_spec, Wb.
  - assert (P' : forall ord, lm_pool (sb_maps s') ord = begin_fill <$> lm_pool (sb_maps s) ord).
    { intros ord. rewrite P. destruct (decide _) as [|Hn]; [reflexivity|]. destruct (lm_pool (sb_maps s) ord) as [b|] eqn:Eb; [|reflexivity].
      destruct Hn. eapply ords_all; eauto. }
    exists s'. split; [exact E|]. split; [exact F|]. split; [|exact P']. intros ord b Eb. rewrite P' in Eb.
    apply fmap_Some in Eb as (b0 & E0 & ->). destruct (W _ _ E0). split; [now apply begin_fill_spec|reflexivity].
Qed.

(** ** Block after block *)

Definition at_file (f : list inoblk) s : sbs Mp := mk_sbs f (sb_blocks s) (sb_io s) (sb_fsck s) (sb_maps s).

Lemma filled_at (f : list inoblk) (t : list ext) s s' : filled t s s' -> filled t (at_file f s) (at_file f s').
Proof. intros []. now constructor. Qed.

Lemma filled_from (f : list inoblk) (t : list ext) s s' : filled t (at_file f s) s' -> filled t s (at_file (sb_file s) s').
Proof. intros []. now constructor. Qed.

(** A block of the file, [l0], is written with [l] when [w] is set. *)
Lemma blk_write (w : bool) (P l0 l R : list inoblk) s :
  sb_io s = [] -> wf_pools (sb_maps s) -> sb_file s = P ++ l0 ++ R -> length l = length l0 -> (w = false -> l = l0 /\ clean_pools (sb_maps s)) ->
  exists s', when w (write_blk c (length P) l) s = Done tt s' /\ sb_file s' = P ++ l ++ R /\
    filled [] s (at_file (sb_file s) s') /\ clean_pools (sb_maps s').
Proof.
  intros Hio W Ef El Hw. destruct w; cbn [when].
  2:{ destruct (Hw eq_refl) as [-> Hc]. exists s. split; [reflexivity|]. split; [exact Ef|]. split; [|exact Hc]. now apply filled_refl. }
  unfold write_blk. rewrite (bind_done _ _ s s 0) by (unfold io; now rewrite Hio). cbn [Z.eqb when].
  erewrite bind_done by reflexivity. cbn [sb_file sb_blocks sb_io sb_fsck sb_maps].
  assert (E : take (length P) (sb_file s) ++ l ++ drop (length P + length l) (sb_file s) = P ++ l ++ R).
  { rewrite Ef, take_app_length. do 2 f_equal. rewrite El, app_assoc, <- length_app. apply drop_app_length. }
  rewrite E. set (f := P ++ l ++ R). change (mk_sbs f _ _ _ _) with (at_file f s).
  destruct (publish_spec (at_file f s) W) as (s' & E' & F & Hc). exists s'. split; [exact E'|]. split; [exact (fi_file _ _ _ F)|].
  split; [|exact Hc]. exact (filled_from f _ _ _ F).
Qed.

(** What has been done from some entry on, where the list is [Q] and the rest [R]. *)
Record blks_done (P Q R : list inoblk) (modified : bool) s (Q1 : list inoblk) (w : bool) (t : list ext) (s' : sbs Mp) : Prop :=
  mk_blks_done {
    bd_file : sb_file s' = P ++ Q1 ++ R;
    bd_fill : filled t s (at_file (sb_file s) s');
    bd_clean : clean_pools (sb_maps s');
    bd_list : shrunk (sb_maps s') t Q Q1;
    bd_left : left_full (sb_maps s') Q1;
    bd_same : w = false -> modified = false /\ t = []
  }.

Lemma blks_join (P p p1 Q R : list inoblk) (modified w1 w : bool) (t1 t : list ext) s s1 (Q1 : list inoblk) s' :
  filled t1 s (at_file (sb_file s) s1) -> shrunk (sb_maps s1) t1 p p1 -> left_full (sb_maps s1) p1 ->
  (w1 = false -> modified = false /\ t1 = []) ->
  blks_done (P ++ p1) Q R w1 s1 Q1 w t s' -> blks_done P (p ++ Q) R modified s (p1 ++ Q1) w (t ++ t1) s'.
Proof.
  intros F S L M [B1 B2 B3 B4 B5 B6]. pose proof (filled_at (sb_file s) _ _ _ B2) as F2.
  constructor; auto.
  - now rewrite B1, <- !app_assoc.
  - eapply filled_trans; [exact F|exact F2].
  - apply shrunk_app; [|exact B4]. exact (shrunk_filled _ _ _ _ _ _ B2 S).
  - apply Forall_app. split; [exact (left_filled _ _ _ _ B2 L)|exact B5].
  - intros Hw. destruct (B6 Hw) as [Hw1 ->]. destruct (M Hw1) as [-> ->]. auto.
Qed.

(** One block: its entries [p] and the rest [tl] of it from an end mark on. *)
Lemma blk_take (P p tl R : list inoblk) (modified : bool) s :
  sb_io s = [] -> clean_pools (sb_maps s) -> sb_file s = P ++ (p ++ tl) ++ R ->
  Forall (entry_good c G (sb_maps s)) p -> Forall (entry_known (sb_maps s)) p ->
  Forall (fun x => is_end x = false) p -> (tl = [] \/ exists en r, tl = en :: r /\ is_end en = true) ->
  exists p1 w t s', (forall (K : bool -> bool -> M (sbs Mp) bool), (r ← take_entries c (p ++ tl) modified;
      let '(l, modified1, found) := r in
      when modified1 (write_blk c (length P) l);; K modified1 found) s = K w (negb (Nat.eqb (length tl) 0)) s') /\
    sb_file s' = P ++ (p1 ++ tl) ++ R /\ filled t s (at_file (sb_file s) s') /\ clean_pools (sb_maps s') /\
    shrunk (sb_maps s') t p p1 /\ left_full (sb_maps s') p1 /\ (w = false -> modified = false /\ t = []).
Proof.
  intros Hio Hc Ef Hg Hk He Htl.
  destruct (entries_take p tl modified s (clean_wf _ Hc) Hg Hk He Htl) as (p1 & w & t & s1 & E & F & S & L & M).
  destruct (blk_write w P (p ++ tl) (p1 ++ tl) R s1) as (s' & E' & Ef' & F' & Hc').
  - now rewrite (fi_io _ _ _ F).
  - eapply filled_wf, F.
  - now rewrite (fi_file _ _ _ F).
  - rewrite !length_app, (sh_len _ _ _ _ S). reflexivity.
  - intros Hw. destruct (M Hw) as (_ & -> & _ & ->). auto.
  - exists p1, w, t, s'. split; [intros K; now rewrite (bind_done _ _ _ _ _ E), (bind_done _ _ _ _ _ E')|]. split; [exact Ef'|].
    split; [|split; [exact Hc'|split; [|split]]].
    + rewrite (fi_file _ _ _ F) in F'. eapply (filled_trans t []); [exact F|exact F'].
    + exact (shrunk_filled _ _ _ _ _ _ F' S).
    + exact (left_filled _ _ _ _ F' L).
    + intros Hw. destruct (M Hw) as (-> & _ & -> & _). auto.
Qed.

Lemma blks_take (fuel : nat) (P Q : list inoblk) (en : inoblk) (R : list inoblk) (modified : bool) s :
  sb_io s = [] -> clean_pools (sb_maps s) -> sb_file s = P ++ Q ++ en :: R -> is_end en = true ->
  Forall (entry_good c G (sb_maps s)) Q -> Forall (entry_known (sb_maps s)) Q -> Forall (fun x => is_end x = false) Q ->
  (length Q < fuel)%nat ->
  exists Q1 w t s', take_blks c fuel (length P) modified s = Done w s' /\ blks_done P Q (en :: R) modified s Q1 w t s'.
Proof.
  revert P Q modified s. induction fuel as [|fuel IH]; intros P Q modified s Hio Hc Ef Hen Hg Hk He Hf; [lia|].
  pose proof (per_blk_pos c G) as Hp. cbn [take_blks]. rewrite (bind_done _ _ s s s) by reflexivity. unfold id.
  assert (Hlen : Nat.leb (length (sb_file s)) (length P) = false) by (apply Nat.leb_gt; rewrite Ef, !length_app; cbn; lia).
  rewrite Hlen, (bind_done _ _ s s 0) by now apply read_ok. cbn [Z.eqb negb].
  rewrite Ef, drop_app_length. destruct (Nat.le_gt_cases (per_blk c) (length Q)) as [Hq|Hq].
  - assert (Et : take (per_blk c) (Q ++ en :: R) = take (per_blk c) Q ++ []) by (rewrite app_nil_r; now apply take_app_le).
    rewrite Et. rewrite <- (take_drop (per_blk c) Q) in Hg, Hk, He.
    apply Forall_app in Hg as [Hg1 Hg2]. apply Forall_app in Hk as [Hk1 Hk2]. apply Forall_app in He as [He1 He2].
    destruct (blk_take P (take (per_blk c) Q) [] (drop (per_blk c) Q ++ en :: R) modified s)
      as (p1 & w & t & s1 & E & Ef1 & F & Hc1 & S & L & M); auto.
    { rewrite Ef, app_nil_r, (app_assoc (take _ _)), take_drop. reflexivity. }
    rewrite (E (fun w f => if f then mret w else take_blks c fuel (length P + per_blk c) w)). cbn [length Nat.eqb negb].
    assert (Ep : (length P + per_blk c)%nat = length (P ++ p1)).
    { rewrite length_app, (sh_len _ _ _ _ S), length_take_le by exact Hq. reflexivity. }
    rewrite Ep. destruct (IH (P ++ p1) (drop (per_blk c) Q) w s1) as (Q1 & w2 & t2 & s2 & E2 & D2); auto.
    + exact (eq_trans (fi_io _ _ _ F) Hio).
    + rewrite Ef1, app_nil_r, <- app_assoc. reflexivity.
    + eapply Forall_impl; [exact Hg2|]. intros x. eapply good_like. exact (fi_like _ _ _ F).
    + eapply Forall_impl; [exact Hk2|]. intros x. exact (known_filled _ _ _ x F).
    + rewrite length_drop. lia.
    + exists (p1 ++ Q1), w2, (t2 ++ t), s2. split; [exact E2|]. rewrite <- (take_drop (per_blk c) Q) at 1.
      eapply blks_join; eauto.
  - assert (Et : take (per_blk c) (Q ++ en :: R) = Q ++ en :: take (per_blk c - length Q - 1) R).
    { rewrite take_app_ge by lia. f_equal. destruct (per_blk c - length Q)%nat eqn:Ek; [lia|]. cbn. do 2 f_equal. lia. }
    rewrite Et. set (n := (per_blk c - length Q - 1)%nat).
    destruct (blk_take P Q (en :: take n R) (drop n R) modified s) as (p1 & w & t & s1 & E & Ef1 & F & Hc1 & S & L & M); eauto.
    { rewrite Ef, <- app_assoc. cbn. now rewrite take_drop. }
    rewrite (E (fun w f => if f then mret w else take_blks c fuel (length P + per_blk c) w)). cbn [length Nat.eqb negb].
    exists p1, w, t, s1. split; [reflexivity|]. constructor; auto. rewrite Ef1, <- app_assoc. cbn. now rewrite take_drop.
Qed.

(** ** The routine *)

Lemma cells_avail m : clean_pools m -> pool_cells avail m = pool_cells queued m.
Proof.
  intros H. unfold pool_cells. apply Forall_bind_ext, Forall_forall. intros ord _.
  destruct (lm_pool m ord) as [b|] eqn:E; [|reflexivity]. cbn. now rewrite (pool_clean b (proj2 (H _ _ E))).
Qed.

(** All partitions have pools that are half full, or none. *)
Definition all_half (m : Mp) : Prop :=
  forall ord b, lm_pool m ord = Some b -> Z.shiftr (b_limit b) 1 <= Z.of_nat (length (avail b)).

Lemma count_all {A : Type} (f : A -> bool) (l : list A) : length (List.filter f l) = length l -> Forall (fun x => f x = true) l.
Proof.
  induction l as [|x l IH]; [constructor|]. cbn. pose proof (List.filter_length_le f l). destruct (f x) eqn:E; cbn; intros H1; [|lia].
  constructor; auto.
Qed.

Lemma half_all s s' :
  clean_pools (sb_maps s) -> (forall ord, lm_pool (sb_maps s') ord = begin_fill <$> lm_pool (sb_maps s) ord) ->
  Z.of_nat (length (List.filter (half_full s') (ords_list c))) = sc_count c -> all_half (sb_maps s).
Proof.
  intros Hc P E ord b Eb. assert (El : length (List.filter (half_full s') (ords_list c)) = length (ords_list c)).
  { unfold ords_list in *. rewrite length_seqZ. lia. }
  apply count_all in El. rewrite Forall_forall in El. specialize (El ord (ords_all _ _ _ Eb)).
  unfold half_full in El. rewrite P, Eb in El. cbn in El. apply Z.leb_le in El.
  now rewrite (avail_count b (proj1 (Hc _ _ Eb))) in El.
Qed.

(** A state that has been reached with the entries [Q1] in place of the list [pre]. *)
Lemma taken_ok s s' (t : list ext) (Q1 pre : list inoblk) (en : inoblk) (R : list inoblk) :
  file_state c G s pre -> lm_idle (sb_maps s) -> sb_file s = pre ++ en :: R -> is_end en = true ->
  filled t s (at_file (sb_file s) s') -> clean_pools (sb_maps s') -> shrunk (sb_maps s') t pre Q1 -> sb_file s' = Q1 ++ en :: R ->
  sm_ok c G s' /\ lm_idle (sb_maps s') /\ listed (sb_file s') = Q1.
Proof.
  intros F Hi Ef Hen Ft Hc S Ef'.
  assert (Hh : holds (sb_file s') Q1) by (exists en, R; split; [exact Ef'|]; split; [exact Hen|apply S]).
  destruct (lm_like_ok _ _ (fi_like _ _ _ Ft) (fs_maps _ _ _ _ F) Hi Hc) as [Hok Hi'].
  split; [|split; [exact Hi'|exact (holds_listed _ _ Hh)]]. eapply file_state_ok. constructor; eauto.
  - exact (eq_trans (fi_io _ _ _ Ft) (fs_io _ _ _ _ F)).
  - pose proof (fs_len _ _ _ _ F) as Hl. rewrite Ef in Hl. rewrite Ef'.
    rewrite length_app in *. now rewrite (sh_len _ _ _ _ S).
  - apply S.
  - eapply sublist_NoDup; [apply F|apply S].
Qed.

Lemma small_take s :
  sm_ok c G s -> lm_idle (sb_maps s) -> Forall (entry_known (sb_maps s)) (listed (sb_file s)) ->
  exists r s' t, sam_get_sm_blklist c s = Done r s' /\ sm_ok c G s' /\ lm_idle (sb_maps s') /\
    cells_of c G (listed (sb_file s)) ≡ₚ t ++ cells_of c G (listed (sb_file s')) /\
    pool_cells avail (sb_maps s') ≡ₚ t ++ pool_cells avail (sb_maps s) /\
    lm_cells (sb_maps s') = lm_cells (sb_maps s) /\ sb_fsck s' = sb_fsck s /\ (r = false -> t = []) /\
    (all_half (sb_maps s) \/ left_full (sb_maps s') (listed (sb_file s'))).
Proof.
  intros F Hi Hk. unfold sm_ok in F. set (pre := listed (sb_file s)) in *. pose proof F as [F1 F2 F3 (en & R & Ef & Hen & He) F5 F6].
  assert (Hc : clean_pools (sb_maps s)) by (intros ord b; now apply lm_pool_wf).
  destruct (begin_spec s Hc) as (s1 & E1 & T1 & C1 & P1). unfold sam_get_sm_blklist.
  rewrite (bind_done _ _ _ _ _ E1), (bind_done _ _ s1 s1 s1) by reflexivity. unfold id.
  assert (G1 : Forall (entry_good c G (sb_maps s1)) pre) by (eapply Forall_impl; [exact F5|]; intros x; eapply good_like, T1).
  assert (K1 : Forall (entry_known (sb_maps s1)) pre) by (eapply Forall_impl; [exact Hk|]; intros x; eapply known_filled, T1).
  destruct (Z.eqb_spec (Z.of_nat (length (List.filter (half_full s1) (ords_list c)))) (sc_count c)) as [Eh|_].
  - exists false, s1, []. split; [reflexivity|].
    assert (T1' : filled [] s (at_file (sb_file s) s1)) by (destruct T1; now constructor).
    destruct (taken_ok s s1 [] pre pre en R F Hi Ef Hen T1' C1 (shrunk_refl _ _ G1 He K1)) as (O & I & L); [now rewrite (fi_file _ _ _ T1)|].
    rewrite L. split; [exact O|]. split; [exact I|]. split; [reflexivity|]. split.
    { rewrite !cells_avail by auto. exact (fi_cells _ _ _ T1). }
    split; [apply lm_like_cells, T1|]. split; [apply T1|]. split; [auto|]. left. eapply half_all; eauto.
  - destruct (blks_take (S (length (sb_file s1))) [] pre en R false s1) as (Q1 & w & t & s2 & E2 & [B1 B2 B3 B4 B5 B6]); auto.
    + now rewrite (fi_io _ _ _ T1).
    + now rewrite (fi_file _ _ _ T1).
    + rewrite (fi_file _ _ _ T1), Ef, length_app. lia.
    + exists w, s2, t. split; [exact E2|].
      assert (T2 : filled t s (at_file (sb_file s) s2)).
      { rewrite <- (app_nil_r t). eapply filled_trans; [exact T1|]. now rewrite <- (fi_file _ _ _ T1). }
      destruct (taken_ok s s2 t Q1 pre en R F Hi Ef Hen T2 B3 B4 B1) as (O & I & L).
      rewrite L. split; [exact O|]. split; [exact I|]. split; [apply B4|]. split.
      { rewrite !cells_avail by auto. exact (fi_cells _ _ _ T2). }
      split; [exact (lm_like_cells _ _ (fi_like _ _ _ T2))|]. split; [exact (fi_fsck _ _ _ T2)|]. split; [|now right].
      intros Hw. now destruct (B6 Hw).
Qed.
End Take.
