(* ===== verification/SmallMaps.v ===== *)
(** * The maps behind the arrays

    The free map and .blocks together are what the arrays of freed blocks go to: instances
    of the interfaces of [FreeBlocks] and, with the arrays in front of them, of the
    interface that truncation relies on. *)

From S2P Require Import Prelude Dau Extent Monad FileTree Truncate TruncTree FreeBlocks BlockPool SmallBlocks SmallGeo SmallThms.

Section Maps.
Context {Mp : Type} `{!LargeMaps Mp} (c : sconf).

#[export] Instance small_maps : BlockMaps (sbs Mp) := {
  sam_free_lg_block e := lift (lm_free_lg_block e);
  sam_merge_sm_blks := SmallBlocks.sam_merge_sm_blks c;
  reserve s := lm_reserve (sb_maps s);
  set_reserve e s := mk_sbs (sb_file s) (sb_blocks s) (sb_io s) (sb_fsck s) (lm_set_reserve e (sb_maps s));
  inoblk_dev s := lm_inoblk (sb_maps s);
  sum_space s := mk_sbs (sb_file s) (sb_blocks s) (sb_io s) (sb_fsck s) (lm_sum (sb_maps s))
}.

Context (G : small_geo c) `{!LargeMapsLaws Mp c G}.

Definition small_cells (x : btype * ext) : list ext :=
  match x with (SM, e) => [e] | (LG, e) => parts c G e end.
Definition small_can (s : sbs Mp) (x : btype * ext) : Prop :=
  match x with (SM, e) => can_sm c G s e | (LG, e) => can_lg c G s e end.

Lemma parts_self (e : ext) : exists x, x ∈ parts c G e.
Proof. exists (part c G e 0). apply parts_elem. exists 0. pose proof (cnt_range c G (snd e)). split; [lia|reflexivity]. Qed.

(** The maps have changed, the file has not. *)
Lemma maps_step (s : sbs Mp) (m' : Mp) :
  sm_ok c G s -> lm_ok m' -> (forall y, y ∈ keys (listed (sb_file s)) -> lm_can (sb_maps s) y -> lm_can m' y) ->
  sm_ok c G (mk_sbs (sb_file s) (sb_blocks s) (sb_io s) (sb_fsck s) m').
Proof.
  intros [F1 F2 F3 F4 F5 F6] Hm U. constructor; auto. cbn. rewrite Forall_forall in *. intros x Hx.
  destruct (F5 x Hx) as [->|(H1 & H2 & H3)]; [now left|right]. split; [exact H1|]. split; [|exact H3].
  apply U; [|exact H2]. unfold keys. apply list_elem_of_fmap. exists x. split; [reflexivity|]. now apply list_elem_of_filter.
Qed.

(** The same for what may be freed. *)
Lemma can_step (s : sbs Mp) (m' : Mp) (y : btype * ext) :
  (forall k, lm_can (sb_maps s) k -> (exists z, z ∈ small_cells y /\ z ∈ parts c G k) -> lm_can m' k) ->
  small_can s y -> small_can (mk_sbs (sb_file s) (sb_blocks s) (sb_io s) (sb_fsck s) m') y.
Proof.
  intros U. destruct y as [[|] e]; cbn.
  - intros (e2 & j & -> & Hj & Hc & Hn). exists e2, j. split; [reflexivity|]. split; [exact Hj|]. split; [|exact Hn].
    apply U; [exact Hc|]. exists (part c G e2 j). split; [apply list_elem_of_singleton; reflexivity|]. apply parts_elem. eauto.
  - intros [Hc Hn]. split; [|exact Hn]. apply U; [exact Hc|]. destruct (parts_self e) as [x Hx]. eauto.
Qed.

Lemma apart (y : btype * ext) (e k : ext) :
  small_cells y ## parts c G e -> (exists z, z ∈ small_cells y /\ z ∈ parts c G k) -> k <> e.
Proof. intros Hd (z & Z1 & Z2) ->. exact (Hd z Z1 Z2). Qed.

Lemma free_lg_law (s : sbs Mp) (e : ext) :
  sm_ok c G s -> can_lg c G s e ->
  exists r s', lift (lm_free_lg_block e) s = Done r s' /\ sm_ok c G s' /\
    sm_cells c G s' ≡ₚ parts c G e ++ sm_cells c G s /\
    forall y, small_cells y ## parts c G e -> small_can s y -> small_can s' y.
Proof.
  intros Hs [Hc Hn]. destruct (lm_free_spec (sb_maps s) e (fs_maps _ _ _ _ Hs) Hc) as (m' & E & O & P & U).
  exists 0. eexists. split; [unfold lift; rewrite E; reflexivity|]. split; [|split].
  - apply maps_step; auto. intros y Hy. apply U. intros ->. contradiction.
  - unfold sm_cells. cbn. rewrite P. solve_Permutation.
  - intros y Hd. apply can_step. intros k Hk Hz. apply U; [|exact Hk]. now apply (apart y).
Qed.

Lemma reserve_law (s : sbs Mp) (e : ext) :
  sm_ok c G s -> can_lg c G s e -> is_hole (lm_reserve (sb_maps s)) = true -> lm_inoblk (sb_maps s) (snd e) = true ->
  sm_ok c G (set_reserve e s) /\ sm_cells c G (set_reserve e s) ≡ₚ parts c G e ++ sm_cells c G s /\
    forall y, small_cells y ## parts c G e -> small_can s y -> small_can (set_reserve e s) y.
Proof.
  intros Hs [Hc Hn] Hr Hi. destruct (lm_reserve_spec (sb_maps s) e (fs_maps _ _ _ _ Hs) Hc Hr Hi) as (O & P & U).
  split; [|split].
  - apply maps_step; auto. intros y Hy. apply U. intros ->. contradiction.
  - unfold sm_cells. cbn. rewrite P. solve_Permutation.
  - intros y Hd. apply can_step. intros k Hk Hz. apply U; [|exact Hk]. now apply (apart y).
Qed.

#[export] Instance small_maps_laws : BlockMapsLaws (sbs Mp).
Proof.
  refine {| map_cells := small_cells; maps_pool := sm_cells c G; maps_ok := sm_ok c G; can := small_can |}.
  - intros s [[|] e]; cbn; [intros _; apply NoDup_singleton|intros _; apply parts_nodup].
  - intros s e. apply free_lg_law.
  - intros s e Hs Hc. destruct (merge_small c G e s Hs Hc) as (s' & E & O & P & U1 & U2). exists 0, s'.
    split; [exact E|]. split; [exact O|]. split; [exact P|]. intros [[|] y] Hd; cbn in *.
    + apply U1. intros ->. apply (Hd e); now apply list_elem_of_singleton.
    + apply U2. intros Hy. apply (Hd e Hy). now apply list_elem_of_singleton.
  - intros s e Hs Hc Hr Hi. apply reserve_law; auto. unfold blk_reserved in Hr. now apply negb_false_iff in Hr.
  - intros s Hs. destruct (lm_sum_spec (sb_maps s) (fs_maps _ _ _ _ Hs)) as (O & P & U). split; [|split].
    + apply maps_step; auto.
    + unfold sm_cells. cbn. now rewrite P.
    + intros y. apply can_step. auto.
  - intros s Hs Hr. unfold blk_reserved in *. apply negb_true_iff in Hr.
    destruct (lm_unreserve_spec (sb_maps s) (fs_maps _ _ _ _ Hs) Hr) as (m' & E & O & B & P & U).
    exists 0. eexists. split; [cbn; unfold lift; rewrite E; reflexivity|]. cbv zeta. split; [|split; [|split]].
    + apply (maps_step s _ Hs O). auto.
    + cbn. now rewrite B.
    + unfold sm_cells. cbn. now rewrite P.
    + intros y. apply (can_step s). auto.
Defined.
End Maps.

(** ** Truncation on such a file system *)

Section Env.
Context {Mp : Type} `{!BlockMaps Mp} `{!BlockMapsLaws Mp}.
Context (copy_extent : Z -> btype -> Extent.dtype -> ext -> M (frs Mp) (Z * ext)) (copy_bp : Z -> ext -> M (frs Mp) (Z * ext)).

(** A file system without quotas: [sam_quota_foffline] returns at once. *)
Definition frs_env : FileEnv (frs Mp) := {|
  Truncate.sam_free_block := FreeBlocks.sam_free_block;
  sam_quota_foffline := mret tt;
  sam_allocate_and_copy_extent := copy_extent;
  sam_allocate_and_copy_bp := copy_bp
|}.

Definition frs_sink : @BlockSink (frs Mp) frs_env.
Proof.
  refine (@Build_BlockSink (frs Mp) frs_env map_cells all_free fr_in_use frs_ok _ _).
  - intros s bt e Hu. destruct (free_block_spec s bt e Hu) as (s' & E & P & U & O). exists s'.
    split; [exact E|]. split; [exact P|]. split; [exact U|]. now intros _.
  - intros s. exists s. split; [reflexivity|]. split; [reflexivity|]. auto.
Defined.
End Env.
