(* ===== verification/PartMaps.v ===== *)
(** * The free map of a partition

    A file system with one partition: its free map, as modelled in [BlockAlloc], is an
    instance of the interface that the file of free small blocks relies on. *)

From S2P Require Import Prelude Dau Extent Bitmap BlockPool BlockScan Monad BlockAlloc BlockRefill BlockFree BlockSys.
From S2P Require Import FileTree Truncate TruncTree FreeBlocks SmallBlocks SmallGeo SmallThms SmallTake.

(** The partition with the fixed fields [c]. *)
Definition part_state (c : bconf) : Type := bfs.

(** The mount table of this file system; [mm] is the DAU table for metadata, which is that
    of the partition when it holds metadata. *)
Definition part_type (c : bconf) : Extent.dtype := if decide (c_type c = DT_META) then MM else DD.
Definition part_conf (c : bconf) (mm : sam_dau_t) : sconf :=
  mk_sconf 1 (g_bn_shift (c_geom c)) (fun _ => c_system c) (fun _ => c_capacity c) (fun _ => part_type c) (fun _ => false)
    (fun dt => match dt, part_type c with MM, DD => mm | _, _ => g_dau (c_geom c) end).

Section Part.
Context (c : bconf) (mm : sam_dau_t).

(** The totals of the superblock, from the space of the one partition. *)
Definition sum_one (s : bfs) : bfs :=
  if decide (c_type c = DT_META) then set_sb_space 0 (set_mm_space (f_space s) s)
  else set_sb_space (f_space s) (set_mm_space 0 s).

#[export] Instance part_maps : LargeMaps (part_state c) := {
  lm_free_lg_block e := if snd e =? 0 then BlockAlloc.sam_free_lg_block c (fst e) else fail WildPointer;
  lm_reserve s := (f_blk_bn s, 0);
  lm_set_reserve e s := set_blk_bn (fst e) s;
  lm_inoblk _ _ := c_inoblk_meta c;
  lm_sum := sum_one;
  lm_pool s ord := if ord =? 0 then at_sm (f_pools s) else None;
  lm_set_pool ord b s := if ord =? 0 then set_pools (mk_per_bt (Some b) (at_lg (f_pools s))) s else s
}.

Context (HC : conf_ok c) (HG : geom_ok c) (G : small_geo (part_conf c mm)).
#[local] Abbreviation sc := (part_conf c mm).

Definition on0 (x : Z) : ext := (x, 0).

(** Free small blocks: in the map, and in the block that is kept. *)
Definition part_cells (s : bfs) : list ext := on0 <$> (map_blks c s ++ BlockSys.reserve c s).

(** A unit that may be given back. *)
Definition unit_can (s : bfs) (d : Z) : Prop :=
  unit_ok c d /\ freeable c d /\ d ∉ free_units s.

Definition part_can (s : bfs) (e : ext) : Prop :=
  large_ok sc G e /\ snd e = 0 /\ f_blk_bn s <> fst e /\ exists d, fst e = lg_ext (c_geom c) d /\ unit_can s d.

Definition part_ok (s : bfs) : Prop :=
  bfs_ok c s /\ f_rio s = [] /\ f_wr s = None /\
  (f_blk_bn s <> 0 -> exists d, f_blk_bn s = lg_ext (c_geom c) d /\ unit_can s d).

(** ** The parts of a unit *)

Lemma part_geo : sg_a G = 2 /\ LG_BLOCK (c_geom c) = cnt sc G 0.
Proof.
  pose proof (sg_range _ G 0) as R. pose proof (sg_kb _ G 0) as K. destruct HG as [H1 H2 _ _ _ _].
  assert (Ed : dau_at sc 0 = g_dau (c_geom c)) by (unfold dau_at; cbn; destruct (part_type c); reflexivity).
  unfold SM_DEV_BLOCK, LG_DEV_BLOCK in *. rewrite Ed in K. rewrite K in H1, H2. cbn in H1, H2.
  assert (Ea : sg_a G = 2).
  { assert (E : 2 ^ sg_a G = 2 ^ 2) by exact H1. apply Z.pow_inj_r in E; lia. }
  split; [exact Ea|]. unfold cnt. assert (E : 2 ^ sg_b G 0 = 2 ^ (sg_b G 0 - sg_a G) * 4).
  { change 4 with (2 ^ 2). rewrite <- Ea, <- Z.pow_add_r by lia. f_equal. lia. }
  rewrite E in H2. symmetry. apply (Z.mul_reg_r _ _ 4); [discriminate|]. exact (eq_trans H2 (Z.mul_comm _ _)).
Qed.

Lemma parts_unit (d : Z) : unit_ok c d -> parts sc G (lg_ext (c_geom c) d, 0) = on0 <$> sm_exts (c_geom c) d.
Proof.
  intros Hd. destruct part_geo as [Ea El]. destruct HG as [_ _ _ _ Hs _].
  rewrite (sm_exts_pieces c HC HG d Hd), <- list_fmap_compose. unfold parts. cbn [snd]. rewrite <- El. unfold seqZ.
  rewrite <- list_fmap_compose. apply list_fmap_ext. intros i k Hk. unfold compose, part, on0. cbn [fst snd].
  rewrite (lg_ext_piece c HC HG d Hd). f_equal. unfold piece, step.
  change (sc_shift sc) with (g_bn_shift (c_geom c)). rewrite Ea.
  assert (E : 2 ^ (2 - g_bn_shift (c_geom c)) = 4 / 2 ^ g_bn_shift (c_geom c)).
  { change 4 with (2 ^ 2). rewrite <- Z.pow_sub_r by lia. reflexivity. }
  rewrite E. lia.
Qed.

(** ** Laws *)

(** Different units are different blocks. *)
Lemma can_other (s : bfs) (e y : ext) (d d' : Z) :
  fst e = lg_ext (c_geom c) d -> fst y = lg_ext (c_geom c) d' -> unit_ok c d -> unit_ok c d' ->
  snd e = 0 -> snd y = 0 -> y <> e -> d' <> d.
Proof. intros E1 E2 _ _ O1 O2 Hne ->. apply Hne. destruct e, y. cbn in *. congruence. Qed.

(** A step of freeing that keeps the read outcomes. *)
Lemma watermark_rio (b : bool) (s : bfs) : f_rio (check_watermark c b s) = f_rio s.
Proof.
  unfold check_watermark. destruct (decide _); [reflexivity|]. unfold sam_check_wmstate, sam_report_fs_watermark. repeat case_match; reflexivity.
Qed.

Lemma free_rio (e r : Z) (s s' : bfs) : f_rio s = [] -> BlockAlloc.sam_free_lg_block c e s = Done r s' -> f_rio s' = [].
Proof.
  intros Hr. unfold BlockAlloc.sam_free_lg_block, map_read. cbv zeta. unfold mbind, M_bind, gets, id. rewrite Hr. cbn [transfer].
  unfold modify. destruct (f_map s !! _) as [buf|]; [|discriminate]. cbn [deref]. unfold mret, M_ret, free_found.
  destruct (_ || _); [now intros [= _ <-]|]. unfold mbind, M_bind, gets, id, modify. destruct (_ && _).
  - intros [= _ <-]. now rewrite watermark_rio.
  - destruct (buf !! _) as [w|]; [|discriminate]. cbn [deref]. unfold mret, M_ret. intros [= _ <-].
    rewrite watermark_rio. unfold free_space. now destruct (bool_decide _).
Qed.

(** Freeing the block of a unit: it is kept for .blocks, or goes to the map. *)
Lemma free_unit (s : bfs) (d : Z) :
  part_ok s -> unit_can s d ->
  exists s', BlockAlloc.sam_free_lg_block c (lg_ext (c_geom c) d) s = Done 0 s' /\
    bfs_ok c s' /\ f_rio s' = [] /\ f_wr s' = None /\
    ((f_blk_bn s = 0 /\ c_inoblk_meta c = true /\ f_blk_bn s' = lg_ext (c_geom c) d /\ free_units s' = free_units s) \/
     ((f_blk_bn s <> 0 \/ c_inoblk_meta c = false) /\ f_blk_bn s' = f_blk_bn s /\ free_units s' ≡ₚ d :: free_units s)).
Proof.
  intros (HB & Hr & Hw & _) (HU & HF & Hn). assert (HL : unlocked s d) by (intros i buf E; congruence).
  destruct (wp_done _ _ _ (sam_free_lg_block_spec c d s HC HG HB HU HL Hn)) as (r & s' & E & B & (_ & _ & _ & _ & W) & H).
  assert (E0 : r = 0 /\ ((f_blk_bn s = 0 /\ c_inoblk_meta c = true /\ f_blk_bn s' = lg_ext (c_geom c) d /\ free_units s' = free_units s) \/
     ((f_blk_bn s <> 0 \/ c_inoblk_meta c = false) /\ f_blk_bn s' = f_blk_bn s /\ free_units s' ≡ₚ d :: free_units s))).
  { destruct H as [[[H|H] _]|[H|H]]; [congruence|contradiction| |]; destruct H as (-> & _ & H); split; auto;
      [left|right]; intuition congruence. }
  destruct E0 as [-> E0]. exists s'. split; [exact E|]. split; [exact B|]. split; [eapply free_rio; eauto|].
  split; [congruence|exact E0].
Qed.

Lemma cells_map (s s' : bfs) (t : list Z) :
  free_units s' ≡ₚ t ++ free_units s -> map_blks c s' ≡ₚ concat (sm_exts (c_geom c) <$> t) ++ map_blks c s.
Proof. intros E. unfold map_blks. rewrite (concat_perm _ _ _ E), concat_fmap_app. reflexivity. Qed.

Lemma reserve_unit (s : bfs) (d : Z) :
  f_blk_bn s = lg_ext (c_geom c) d -> unit_ok c d -> f_blk_bn s <> 0 -> BlockSys.reserve c s = sm_exts (c_geom c) d.
Proof.
  intros E Hd Hne. unfold BlockSys.reserve. destruct (Z.eqb_spec (f_blk_bn s) 0); [contradiction|].
  rewrite E. now apply pieces_lg_ext.
Qed.

Lemma reserve_none (s : bfs) : f_blk_bn s = 0 -> BlockSys.reserve c s = [].
Proof. intros E. unfold BlockSys.reserve. now rewrite E. Qed.

(** The block of the unit [d] is kept. *)
Lemma kept_step (s s' : bfs) (e : ext) (d : Z) :
  part_ok s -> large_ok sc G e -> snd e = 0 -> fst e = lg_ext (c_geom c) d -> unit_can s d -> f_blk_bn s = 0 ->
  bfs_ok c s' -> f_rio s' = [] -> f_wr s' = None -> f_blk_bn s' = fst e -> free_units s' = free_units s ->
  part_ok s' /\ part_cells s' ≡ₚ parts sc G e ++ part_cells s /\ forall y, y <> e -> part_can s y -> part_can s' y.
Proof.
  intros Hs Hl Ho Ed Hd Hb B' R' W' Eb Ef. pose proof (la_bn _ _ _ Hl) as Hne.
  assert (Hd' : unit_can s' d) by (unfold unit_can; rewrite Ef; exact Hd). split; [|split].
  - split; [exact B'|]. split; [exact R'|]. split; [exact W'|]. intros _. exists d. split; [congruence|exact Hd'].
  - unfold part_cells. rewrite (reserve_none s Hb), (reserve_unit s' d) by (try apply Hd; try lia; congruence).
    unfold map_blks. rewrite Ef. assert (Ep : parts sc G e = on0 <$> sm_exts (c_geom c) d).
    { rewrite <- parts_unit by apply Hd. destruct e. cbn in *. congruence. }
    rewrite Ep, !fmap_app. cbn. rewrite app_nil_r. apply Permutation_app_comm.
  - intros y Hy (L & O & _ & d' & E' & H'). split; [exact L|]. split; [exact O|]. split.
    + rewrite Eb. intros H. apply Hy. destruct e, y. cbn in *. congruence.
    + exists d'. split; [exact E'|]. unfold unit_can. now rewrite Ef.
Qed.

(** The bit of the unit [d] is set. *)
Lemma mapped_step (s s' : bfs) (e : ext) (d : Z) :
  part_ok s -> snd e = 0 -> fst e = lg_ext (c_geom c) d -> unit_can s d ->
  bfs_ok c s' -> f_rio s' = [] -> f_wr s' = None -> free_units s' ≡ₚ d :: free_units s ->
  (f_blk_bn s' = f_blk_bn s /\ f_blk_bn s <> fst e) ->
  part_ok s' /\ part_cells s' ≡ₚ parts sc G e ++ part_cells s /\ forall y, y <> e -> part_can s y -> part_can s' y.
Proof.
  intros Hs Ho Ed Hd B' R' W' Ef [Eb Hne]. split; [|split].
  - split; [exact B'|]. split; [exact R'|]. split; [exact W'|]. rewrite Eb. intros H0.
    destruct Hs as (_ & _ & _ & H). destruct (H H0) as (d0 & E0 & U1 & U2 & U3). exists d0. split; [exact E0|].
    split; [exact U1|]. split; [exact U2|]. rewrite Ef, not_elem_of_cons. split; [|exact U3]. congruence.
  - unfold part_cells. rewrite (cells_map s s' [d] Ef). cbn. rewrite app_nil_r.
    assert (Er : BlockSys.reserve c s' = BlockSys.reserve c s) by (unfold BlockSys.reserve; now rewrite Eb). rewrite Er.
    assert (Ep : parts sc G e = on0 <$> sm_exts (c_geom c) d).
    { rewrite <- parts_unit by apply Hd. destruct e. cbn in *. congruence. }
    rewrite Ep, <- app_assoc, fmap_app. reflexivity.
  - intros y Hy (L & O & N & d' & E' & U1 & U2 & U3). split; [exact L|]. split; [exact O|]. split; [now rewrite Eb|].
    exists d'. split; [exact E'|]. split; [exact U1|]. split; [exact U2|]. rewrite Ef, not_elem_of_cons. split; [|exact U3].
    apply (can_other s e y d d'); auto. apply Hd.
Qed.

(** Only the block that is kept changes, or the totals. *)
Lemma same_blk (v : Z) (s : bfs) : free_same s (set_blk_bn v s).
Proof. now split. Qed.

Lemma same_sum (s : bfs) : free_same s (sum_one s).
Proof. unfold sum_one. destruct (decide _); now split. Qed.

Lemma sum_blk (s : bfs) : f_blk_bn (sum_one s) = f_blk_bn s /\ f_rio (sum_one s) = f_rio s.
Proof. unfold sum_one. now destruct (decide _). Qed.

Lemma sum_law (s : bfs) :
  part_ok s -> part_ok (sum_one s) /\ part_cells (sum_one s) = part_cells s /\ forall y, part_can s y -> part_can (sum_one s) y.
Proof.
  intros (B & R & W & H). destruct (sum_blk s) as [Eb Er]. pose proof (same_sum s) as S.
  assert (Ef : free_units (sum_one s) = free_units s) by now apply free_same_units. split; [|split].
  - split; [eapply free_same_ok; eauto|]. split; [congruence|]. split; [now rewrite (fs_wr _ _ S)|].
    rewrite Eb. unfold unit_can. rewrite Ef. exact H.
  - unfold part_cells, map_blks, BlockSys.reserve. now rewrite Ef, Eb.
  - intros y. unfold part_can, unit_can. now rewrite Eb, Ef.
Qed.

Lemma unreserve_law (s : bfs) :
  part_ok s -> f_blk_bn s <> 0 ->
  exists s', BlockAlloc.sam_free_lg_block c (f_blk_bn s) s = Done 0 s' /\
    let s'' := set_blk_bn 0 s' in
    part_ok s'' /\ part_cells s'' ≡ₚ part_cells s /\ forall y, part_can s y -> part_can s'' y.
Proof.
  intros Hs Hb. pose proof Hs as (_ & _ & _ & H). destruct (H Hb) as (d & Ed & Hd). rewrite Ed.
  destruct (free_unit s d Hs Hd) as (s' & E & B & R & W & [(H0 & _)|(_ & Eb & Ef)]); [congruence|].
  exists s'. split; [exact E|]. cbv zeta.
  assert (Eu : free_units (set_blk_bn 0 s') = free_units s') by reflexivity. split; [|split].
  - split; [eapply free_same_ok; [apply same_blk|exact B]|]. split; [exact R|]. split; [exact W|]. now intros [].
  - unfold part_cells. rewrite (reserve_none (set_blk_bn 0 s') eq_refl), app_nil_r, (reserve_unit s d Ed (proj1 Hd) Hb).
    assert (E1 : map_blks c (set_blk_bn 0 s') ≡ₚ sm_exts (c_geom c) d ++ map_blks c s).
    { rewrite (cells_map s (set_blk_bn 0 s') [d]) by exact Ef. cbn. now rewrite app_nil_r. }
    rewrite E1. f_equiv. apply Permutation_app_comm.
  - intros y (L & O & N & d' & E' & U1 & U2 & U3). split; [exact L|]. split; [exact O|].
    pose proof (la_bn _ _ _ L) as Hpos. split; [cbn; lia|]. exists d'. split; [exact E'|].
    split; [exact U1|]. split; [exact U2|]. rewrite Eu, Ef, not_elem_of_cons. split; [congruence|exact U3].
Qed.

#[export] Instance part_laws : LargeMapsLaws (part_state c) sc G.
Proof.
  refine {| lm_ok := part_ok : part_state c -> Prop; lm_cells := part_cells; lm_can := part_can |}.
  - now intros m e [H _].
  - intros m e Hm (L & O & N & d & Ed & Hd). cbn. rewrite O. cbn [Z.eqb]. rewrite Ed.
    destruct (free_unit m d Hm Hd) as (s' & E & B & R & W & [(H0 & _ & Eb & Ef)|(_ & Eb & Ef)]); exists s'; (split; [exact E|]).
    + apply (kept_step m s' e d); auto; congruence.
    + apply (mapped_step m s' e d); auto.
  - intros m e Hm (L & O & N & d & Ed & Hd) Hr _. cbn in *. apply Z.eqb_eq in Hr. pose proof Hm as (B & R & W & _).
    apply (kept_step m (set_blk_bn (fst e) m) e d); auto; try reflexivity. eapply free_same_ok; [apply same_blk|exact B].
  - intros m. apply sum_law.
  - intros m Hm Hr. cbn in *. apply Z.eqb_neq in Hr. destruct (unreserve_law m Hm Hr) as (s' & E & H1 & H2 & H3).
    exists s'. split; [exact E|]. split; [exact H1|]. split; [reflexivity|]. split; [exact H2|exact H3].
Defined.

(** ** The pool of small blocks *)

Definition part_idle (s : bfs) : Prop := f_busy s = false /\ f_modified s = 0.

(** Another pool of small blocks, where there was one. *)
Definition part_like (s s' : bfs) : Prop :=
  exists p, (is_Some (at_sm (f_pools s)) <-> is_Some p) /\ s' = set_pools (mk_per_bt p (at_lg (f_pools s))) s.

Lemma part_like_pre : PreOrder part_like.
Proof.
  split.
  - intros s. exists (at_sm (f_pools s)). split; [reflexivity|]. destruct s as [[] ]. reflexivity.
  - intros s s1 s2 (p & H & ->) (q & H' & ->). exists q. split; [cbn in H'; tauto|reflexivity].
Qed.

Lemma part_like_ok (s s' : bfs) :
  part_like s s' -> part_ok s -> part_idle s ->
  (forall b, at_sm (f_pools s') = Some b -> pool_wf b /\ b_fill b = b_in b) -> part_ok s' /\ part_idle s'.
Proof.
  intros (p & Hp & ->) ([] & R & W & K) [I1 I2] Hb. cbn in Hb. split; [|split; assumption].
  split; [|split; [exact R|split; [exact W|exact K]]]. constructor; auto; cbn.
  - split; cbn; [intros b E; apply (Hb b E)|apply bo_pools].
  - intros _. destruct (bo_clean I2) as [E|E]; [left|right].
    + destruct p as [b|]; [|reflexivity]. destruct (proj2 Hp (ex_intro _ b eq_refl)). congruence.
    + intros [] b Eb; [exact (proj2 (Hb b Eb))|exact (E LG b Eb)].
  - intros Hx. congruence.
Qed.

#[export] Instance part_pool_laws : PoolLaws (part_state c) sc G.
Proof.
  refine {| lm_idle := part_idle : part_state c -> Prop; lm_like := part_like : part_state c -> part_state c -> Prop;
    lm_like_pre := part_like_pre |}.
  - intros m ord b b' E. cbn in *. destruct (ord =? 0); [|discriminate]. exists (Some b'). split; [split; eauto|reflexivity].
  - intros m ord ord' b b' E. cbn in *. destruct (Z.eqb_spec ord 0) as [->|]; [|discriminate].
    destruct (Z.eqb_spec ord' 0), (decide (ord' = 0)); try contradiction; reflexivity.
  - intros m ord b E. cbn in *. destruct (Z.eqb_spec ord 0); [lia|discriminate].
  - intros m ord b ([] & _) [_ I2] E. cbn in *. destruct (ord =? 0); [|discriminate].
    split; [exact (proj1 bo_pools b E)|]. destruct (bo_clean I2) as [H|H]; [congruence|]. exact (H SM b E).
  - now intros m m' (p & _ & ->).
  - now intros m m' e (p & _ & ->).
  - intros m m' L O I H. apply (part_like_ok m m' L O I). intros b E. apply (H 0). exact E.
Defined.
End Part.
