(* ===== verification/SpaceProps.v ===== *)
(** * The way of freed blocks

    The theorems on the arrays of freed blocks and the file of free small blocks, and the
    whole way of the blocks of a truncated file to the free map. *)

From S2P Require Import TruncDemo.
From S2P Require Import Prelude Dau Extent Bitmap BlockPool BlockScan Monad BlockAlloc BlockRefill BlockFree BlockSys BlockThms.
From S2P Require Import FileTree Truncate TruncTree TruncFree TruncPath TruncFile TruncThms TruncDirect TruncMain TruncProps FreeBlocks SmallBlocks SmallGeo SmallThms SmallType SmallTake SmallMaps PartMaps.

Section Arrays.
Context {Mp : Type} `{!BlockMaps Mp} `{!BlockMapsLaws Mp}.

(** [sam_drain_blocks] empties all four arrays into the maps: afterwards nothing waits,
    the maps hold exactly the cells that were free before, in an array or in the maps, and
    blocks in use stay so. *)
Theorem sam_drain_blocks_empties (s : frs Mp) :
  frs_ok s ->
  exists s', sam_drain_blocks s = Done tt s' /\ frs_ok s' /\ waiting s' = [] /\
    maps_pool (fr_maps s') ≡ₚ all_free s /\ forall y, fr_in_use s y -> fr_in_use s' y.
Proof.
  intros Hok. destruct (drain_all [(SM, 0); (SM, 1); (LG, 0); (LG, 1)] s) as (s' & E & (O & A & U & _) & R); [|exact Hok|].
  { repeat (apply Forall_cons; split; [cbn; auto|]). constructor. }
  assert (W : waiting s' = []).
  { apply no_waiting; [exact O|]. intros bt i [-> | ->]; apply R; destruct bt; cbn;
      rewrite !elem_of_cons; tauto. }
  exists s'. split; [exact E|]. split; [exact O|]. split; [exact W|]. split; [|exact U].
  unfold all_free in A at 1. now rewrite W in A.
Qed.

(** [sam_merge_blocks] merges every freed block and returns their number; the free
    cells stay the same, nothing waits, and when the file system is closed the block kept
    for .blocks has been given back too. *)
Theorem sam_merge_blocks_counts (closing : bool) (s : frs Mp) :
  frs_ok s ->
  exists s', sam_merge_blocks closing s = Done (Z.of_nat (length (waiting s))) s' /\ frs_ok s' /\ waiting s' = [] /\
    maps_pool (fr_maps s') ≡ₚ all_free s /\ (closing = true -> blk_reserved (fr_maps s') = false).
Proof.
  intros Hok. destruct (merge_blocks_spec closing s Hok) as (s' & E & (O & A & _) & W & B).
  exists s'. split; [exact E|]. split; [exact O|]. split; [exact W|]. split; [|exact B].
  unfold all_free in A at 1. now rewrite W in A.
Qed.

Context (copy_extent : Z -> btype -> Extent.dtype -> ext -> M (frs Mp) (Z * ext)) (copy_bp : Z -> ext -> M (frs Mp) (Z * ext)).
#[local] Abbreviation E := (frs_env copy_extent copy_bp).
#[local] Abbreviation K := (frs_sink copy_extent copy_bp).

End Arrays.

Section Small.
Context {Mp : Type} `{!LargeMaps Mp} (c : sconf) (G : small_geo c) `{!LargeMapsLaws Mp c G}.

(** C27. A freed small block that is not yet free is recorded: [sam_merge_sm_blks] returns 0
    and the free cells of .blocks and of the free map have grown by exactly this block,
    whether its large block had an entry, an empty entry was reused, the list was shortened
    or extended, or the large block was complete and went to the free map. The file stays
    well formed, and other blocks may still be freed. *)
Theorem sam_merge_sm_blks_records (x : ext) (s : sbs Mp) :
  sm_ok c G s -> can_sm c G s x ->
  exists s', SmallBlocks.sam_merge_sm_blks c x s = Done 0 s' /\ sm_ok c G s' /\ sm_cells c G s' ≡ₚ x :: sm_cells c G s /\
    (forall y, y <> x -> can_sm c G s y -> can_sm c G s' y) /\
    (forall e, x ∉ parts c G e -> can_lg c G s e -> can_lg c G s' e).
Proof. intros H1 H2. destruct (merge_small c G x s H1 H2) as (s' & E & M). exists s'. split; [exact E|exact M]. Qed.

(** C28. .blocks may be damaged: as long as the entries with a block number name existing
    partitions, both routines complete, whatever block number is freed, whatever the
    accesses to the file return and whatever else the entries hold, with or without an end
    mark. They neither look outside the array of partitions nor at an entry outside the
    file, and afterwards the entries name existing partitions, the file consists of whole
    blocks and [m_inoblk_blocks] is not negative. An entry that names no partition makes
    [sam_get_sm_blklist] read behind the array ([bad_ordinal_reads_past_array]). *)
Theorem damaged_blocks_file_safe (I : Mp -> Prop) (x : ext) (s : sbs Mp) :
  total_maps c I -> typed c I s -> 0 <= snd x ->
  (exists r s', SmallBlocks.sam_merge_sm_blks c x s = Done r s' /\ typed c I s') /\
  (exists r s', sam_get_sm_blklist c s = Done r s' /\ typed c I s').
Proof.
  intros T Ht Hx. split; apply wp_done; [now apply (merge_typed c G I T)|now apply (get_typed c G I T)].
Qed.

(** C9. [sam_get_sm_blklist] moves free small blocks from .blocks to the pools: the blocks
    [t] that have left the file are exactly those that have become available, the free map
    does not change and the file stays well formed. Unless all pools were half full, what
    is left in the file belongs to partitions whose pools are full, and a result of false
    means that nothing was moved. *)
Theorem sam_get_sm_blklist_conserves `{!PoolLaws Mp c G} (s : sbs Mp) :
  sm_ok c G s -> lm_idle (sb_maps s) -> Forall (entry_known c (sb_maps s)) (listed (sb_file s)) ->
  exists r s' t, sam_get_sm_blklist c s = Done r s' /\ sm_ok c G s' /\
    cells_of c G (listed (sb_file s)) ≡ₚ t ++ cells_of c G (listed (sb_file s')) /\
    pool_cells c avail (sb_maps s') ≡ₚ t ++ pool_cells c avail (sb_maps s) /\
    lm_cells (sb_maps s') = lm_cells (sb_maps s) /\ (r = false -> t = []) /\
    (all_half (sb_maps s) \/ left_full c G (sb_maps s') (listed (sb_file s'))).
Proof.
  intros H1 H2 H3. destruct (small_take c G s H1 H2 H3) as (r & s' & t & E & O & _ & C & P & L & _ & M & X).
  exists r, s', t. auto 10.
Qed.
End Small.

(** ** A file system on one partition *)

(** 8192 units of 16 kilobytes; four of the system area and the units 4, 5 and 6 are in
    use. *)
Definition space_map : list (list Z) := [0x01ffffff :: replicate 255 0xffffffff].
Definition space_part : part_state (demo_conf DT_DATA) :=
  mk_bfs (fst (sam_init_blocklist 1 DT_DATA false (mk_per_bt None None))) false 0 0 false 0
    (16 * 8185) (16 * 8185) 0 space_map None [] [] 0 false FS_LWM 0 [] 0 false.

Lemma space_mounted : mounted (demo_conf DT_DATA) 1 false space_part.
Proof.
  assert (W : map_wf space_map).
  { constructor; [|constructor]. split; [reflexivity|]. constructor; [now vm_compute|].
    apply Forall_replicate. now vm_compute. }
  split; try reflexivity; [now split| |vm_compute; split; easy|now right].
  split; [exact W|reflexivity|]. intros u Hu. pose proof (map_free_range 0 _ u W Hu) as R. cbn in R.
  split; [cbn; lia|]. rewrite (dau_bn_mul _ (demo_geom_ok DT_DATA)) by lia.
  change (LG_DEV_BLOCK (c_geom (demo_conf DT_DATA))) with 16. cbn. lia.
Qed.

Lemma space_part_ok : part_ok (demo_conf DT_DATA) space_part.
Proof.
  split; [exact (so_bfs _ _ (mounted_ok _ _ _ _ (demo_conf_ok _) (demo_geom_ok _) space_mounted))|].
  split; [reflexivity|]. split; [reflexivity|]. intros []; reflexivity.
Qed.

Definition space_conf : sconf := part_conf (demo_conf DT_DATA) (g_dau demo_geom).
Definition space_geo : small_geo space_conf.
Proof.
  refine (mk_small_geo space_conf 2 (fun _ => 4) _ _ _ _ _ _ _ _); try reflexivity. intros _. cbn. lia.
Defined.

#[local] Existing Instance part_maps.
#[local] Instance space_laws : LargeMapsLaws (part_state (demo_conf DT_DATA)) space_conf space_geo :=
  part_laws (demo_conf DT_DATA) (g_dau demo_geom) (demo_conf_ok _) (demo_geom_ok _) space_geo.

(** .blocks, one block long, with no entry. *)
Definition empty_blocks : list inoblk := ib_end :: replicate 511 ib_zero.
Definition space_blocks : sbs (part_state (demo_conf DT_DATA)) := mk_sbs empty_blocks 0 [] false space_part.

Lemma space_blocks_ok : sm_ok space_conf space_geo space_blocks.
Proof.
  constructor; try reflexivity; [exact space_part_ok| |constructor|constructor].
  exists ib_end, (replicate 511 ib_zero). split; [reflexivity|]. split; [reflexivity|constructor].
Qed.

(** The large blocks of the units 4 to 6 may be freed. *)
Lemma space_can (d : Z) : d = 4 \/ d = 5 \/ d = 6 ->
  part_can (demo_conf DT_DATA) (g_dau demo_geom) space_geo space_part (4 * d, 0).
Proof.
  intros Hd. assert (Hf : d ∉ free_units space_part).
  { destruct Hd as [-> | [-> | ->]]; apply (bool_decide_unpack _); vm_compute; reflexivity. }
  split; [|split; [reflexivity|split; [cbn; lia|]]].
  - constructor; try (cbn; lia); destruct Hd as [-> | [-> | ->]]; try (vm_compute; intuition congruence);
      [exists 4|exists 5|exists 6]; reflexivity.
  - exists d. split; [destruct Hd as [-> | [-> | ->]]; reflexivity|]. split; [split; cbn; lia|]. split; [|exact Hf].
    destruct Hd as [-> | [-> | ->]]; vm_compute; intuition congruence.
Qed.

Lemma space_can_sm (j : Z) : 0 <= j < 4 -> can_sm space_conf space_geo space_blocks (16 + j, 0).
Proof.
  intros Hj. exists (16, 0), j. split; [unfold part, step; cbn; f_equal; lia|].
  split; [change (cnt space_conf space_geo (snd (16, 0))) with 4; lia|].
  split; [apply (space_can 4); auto|]. cbn. intros H. inversion H.
Qed.

Lemma space_can_lg (d : Z) : d = 5 \/ d = 6 -> can_lg space_conf space_geo space_blocks (4 * d, 0).
Proof. intros Hd. split; [apply space_can; auto|]. cbn. intros H. inversion H. Qed.

Lemma sam_merge_sm_blks_records_witness :
  exists s', SmallBlocks.sam_merge_sm_blks space_conf (17, 0) space_blocks = Done 0 s' /\
    sm_ok space_conf space_geo s' /\ sm_cells space_conf space_geo s' ≡ₚ (17, 0) :: sm_cells space_conf space_geo space_blocks.
Proof.
  destruct (sam_merge_sm_blks_records space_conf space_geo (17, 0) space_blocks space_blocks_ok (space_can_sm 1 ltac:(lia)))
    as (s' & E & O & P & _). exists s'. split; [exact E|]. split; [exact O|exact P].
Defined.

(** A partition whose free map cannot be read, with a pool of small blocks; a file without
    an end mark and with an entry of a block outside its partition, and failing accesses. *)
#[local] Instance broken_maps : LargeMaps sam_block := {
  lm_free_lg_block _ := mret EIO;
  lm_reserve _ := hole;
  lm_set_reserve _ m := m;
  lm_inoblk _ _ := false;
  lm_sum m := m;
  lm_pool m ord := if ord =? 0 then Some m else None;
  lm_set_pool ord b m := if ord =? 0 then b else m
}.
Definition broken_blocks : sbs sam_block :=
  mk_sbs (mk_inoblk 16 0 7 :: mk_inoblk 0x0fffffff 0 1 :: replicate 510 ib_zero) 4 [0; 0; 0; EIO; 0; 0; EIO] false (new_block 64).

Lemma damaged_blocks_file_safe_witness :
  (exists r s', SmallBlocks.sam_merge_sm_blks space_conf (19, 0) broken_blocks = Done r s' /\
    typed space_conf (fun _ : sam_block => True) s') /\
  (exists r s', sam_get_sm_blklist space_conf broken_blocks = Done r s' /\ typed space_conf (fun _ : sam_block => True) s').
Proof.
  apply (damaged_blocks_file_safe space_conf space_geo (fun _ => True) (19, 0) broken_blocks).
  - constructor; auto; [intros m e _ _; exists EIO, m; auto|]. intros m ord ord' b. cbn.
    destruct (ord =? 0); intros [y Hy]; [eauto|discriminate].
  - constructor; [|reflexivity|vm_compute; discriminate|exact Logic.I].
    constructor; [repeat split; cbn; auto; lia|]. constructor; [repeat split; cbn; auto; lia|].
    apply Forall_replicate, fits_zero.
  - cbn. lia.
Defined.

(** The entry of a partition 9 that does not exist. *)
Example bad_ordinal_reads_past_array :
  sam_get_sm_blklist space_conf
    (mk_sbs (mk_inoblk 3 9 1 :: replicate 511 ib_zero) 4 [] false (new_block 64)) = Fault WildPointer.
Proof. vm_compute. reflexivity. Qed.

#[local] Instance space_pool_laws : PoolLaws (part_state (demo_conf DT_DATA)) space_conf space_geo :=
  part_pool_laws (demo_conf DT_DATA) (g_dau demo_geom) (demo_conf_ok _) (demo_geom_ok _) space_geo.

(** .blocks with two parts of the large block 16. *)
Definition listed_blocks : sbs (part_state (demo_conf DT_DATA)) :=
  mk_sbs (mk_inoblk 16 0 6 :: ib_end :: replicate 510 ib_zero) 8 [] false space_part.

Lemma listed_blocks_ok : sm_ok space_conf space_geo listed_blocks.
Proof.
  constructor; try reflexivity; [exact space_part_ok| | |].
  - exists ib_end, (replicate 510 ib_zero). split; [reflexivity|]. split; [reflexivity|]. repeat constructor.
  - apply Forall_singleton. right. split; [reflexivity|]. split; [apply (space_can 4); auto|vm_compute; split; easy].
  - apply (bool_decide_unpack _). vm_compute. reflexivity.
Qed.

Lemma sam_get_sm_blklist_conserves_witness :
  exists r s' t, sam_get_sm_blklist space_conf listed_blocks = Done r s' /\
    [(17, 0); (18, 0)] ≡ₚ t ++ cells_of space_conf space_geo (listed (sb_file s')) /\
    pool_cells space_conf avail (sb_maps s') ≡ₚ t.
Proof.
  destruct (sam_get_sm_blklist_conserves space_conf space_geo listed_blocks listed_blocks_ok) as (r & s' & t & E & _ & C & P & _).
  - split; reflexivity.
  - apply Forall_singleton. intros _. left. eexists. reflexivity.
  - exists r, s', t. split; [exact E|]. split; [exact C|]. rewrite P. apply reflexive_eq. apply app_nil_r.
Defined.

(** ** Two defects of the bookkeeping *)

(** [m_inoblk_blocks], which is added to the free space that is reported, counts only
    the first free part of a large block: after two small blocks of four kilobytes have
    been recorded, it is four. *)
Theorem inoblk_count_misses_parts :
  exists s', (SmallBlocks.sam_merge_sm_blks space_conf (16, 0);; SmallBlocks.sam_merge_sm_blks space_conf (17, 0)) space_blocks
      = Done 0 s' /\
    cells_of space_conf space_geo (listed (sb_file s')) = [(16, 0); (17, 0)] /\ sb_blocks s' = 4.
Proof.
  destruct (run_check (SmallBlocks.sam_merge_sm_blks space_conf (16, 0);; SmallBlocks.sam_merge_sm_blks space_conf (17, 0))
    space_blocks (fun r s' => (r =? 0) && bool_decide (cells_of space_conf space_geo (listed (sb_file s')) = [(16, 0); (17, 0)]) &&
      (sb_blocks s' =? 4))) as (r & s' & E & H); [vm_compute; reflexivity|].
  apply andb_prop in H as [H H3]. apply andb_prop in H as [H1 H2]. apply Z.eqb_eq in H1 as ->. apply Z.eqb_eq in H3.
  apply bool_decide_eq_true in H2. exists s'. auto.
Qed.

(** .blocks with an entry in each of two blocks; the write of the first block fails. *)
Definition failing_blocks : sbs (part_state (demo_conf DT_DATA)) :=
  mk_sbs (mk_inoblk 16 0 1 :: replicate 511 ib_zero ++ mk_inoblk 20 0 1 :: ib_end :: replicate 510 ib_zero) 8
    [0; 0; EIO; 0; 0; 0] false space_part.

(** Small blocks that may be handed out. *)
Definition handed_out (s : sbs (part_state (demo_conf DT_DATA))) : list Z :=
  match lm_pool (sb_maps s) 0 with Some b => avail b | None => [] end.

(** When the write of a block of .blocks fails, [sam_get_sm_blklist] does not make the
    blocks taken from it available, but the next block that is written does: the small
    block 16 is handed out while the file still lists it as free. *)
Theorem failed_write_hands_out_listed_block :
  exists s', sam_get_sm_blklist space_conf failing_blocks = Done true s' /\
    handed_out s' = [16; 20] /\ (16, 0) ∈ cells_of space_conf space_geo (listed (sb_file s')).
Proof.
  destruct (run_check (sam_get_sm_blklist space_conf) failing_blocks (fun r s' => r && bool_decide (handed_out s' = [16; 20]) &&
    bool_decide ((16, 0) ∈ cells_of space_conf space_geo (listed (sb_file s'))))) as (r & s' & E & H); [vm_compute; reflexivity|].
  apply andb_prop in H as [H H3]. apply andb_prop in H as [H1 H2]. apply bool_decide_eq_true in H2, H3.
  destruct r; [|discriminate]. exists s'. auto.
Qed.

(** ** Witnesses *)

#[local] Instance space_maps : BlockMaps (sbs (part_state (demo_conf DT_DATA))) := small_maps space_conf.
#[local] Instance space_maps_laws : BlockMapsLaws (sbs (part_state (demo_conf DT_DATA))) :=
  small_maps_laws space_conf space_geo.

(** Freed blocks of both types wait. *)
Definition space_frs (sm lg : list ext) : frs (sbs (part_state (demo_conf DT_DATA))) :=
  mk_frs (mk_per_bt (mk_fb_pool 0 [sm; []]) (mk_fb_pool 1 [lg; []])) space_blocks.

Lemma space_frs_ok (sm lg : list ext) :
  sm = [] \/ sm = [(17, 0)] -> lg = [] \/ lg = [(20, 0); (24, 0)] -> frs_ok (space_frs sm lg).
Proof.
  intros Hs Hl. assert (H17 : can_sm space_conf space_geo space_blocks (17, 0)) by (apply (space_can_sm 1); lia).
  assert (H20 : can_lg space_conf space_geo space_blocks (20, 0)) by (apply (space_can_lg 5); auto).
  assert (H24 : can_lg space_conf space_geo space_blocks (24, 0)) by (apply (space_can_lg 6); auto).
  constructor.
  - split; [now left|]. split; [reflexivity|]. destruct Hs as [-> | ->]; repeat constructor.
  - split; [now right|]. split; [reflexivity|]. destruct Hl as [-> | ->]; repeat constructor.
  - split; [exact space_blocks_ok|]. split; destruct Hs as [-> | ->], Hl as [-> | ->];
      first [apply (bool_decide_unpack _); vm_compute; reflexivity|repeat (constructor; try assumption)].
Qed.

Lemma sam_drain_blocks_empties_witness :
  exists s', sam_drain_blocks (space_frs [(17, 0)] [(20, 0); (24, 0)]) = Done tt s' /\ waiting s' = [] /\
    maps_pool (fr_maps s') ≡ₚ all_free (space_frs [(17, 0)] [(20, 0); (24, 0)]).
Proof.
  destruct (sam_drain_blocks_empties (space_frs [(17, 0)] [(20, 0); (24, 0)])) as (s' & E & _ & W & P & _);
    [apply space_frs_ok; auto|]. exists s'. auto.
Defined.

Lemma sam_merge_blocks_counts_witness :
  exists s', sam_merge_blocks true (space_frs [(17, 0)] [(20, 0); (24, 0)]) = Done 3 s' /\ waiting s' = [].
Proof.
  destruct (sam_merge_blocks_counts true (space_frs [(17, 0)] [(20, 0); (24, 0)])) as (s' & E & _ & W & _);
    [apply space_frs_ok; auto|]. exists s'. auto.
Defined.




