(* ===== verification/Lease.v ===== *)
(** * Leases of the shared file system

    A client of a shared file system reads, writes, appends to or maps a file under a
    lease that the metadata server grants. This file models the lease table that the
    server keeps for an inode (src/src/fs/include/client.h) and the operations of
    src/src/fs/samfs/server.c that grant, extend and remove leases. The table is the
    list of its first [no_clients] entries; a pointer to an entry is its index.

    [ilease_mutex] protects the table. Where the code drops it to take the mutex of the
    mount point first, and where it sends messages between two critical sections, other
    threads may act: the argument [other] is what they do to the state in that window.
    Messages to clients are logged in order ([lm_out]). *)
From S2P Require Import Prelude.

(** ** Lease types (src/src/fs/include/share.h) *)

Inductive LEASE_type : Type :=
| LTYPE_read | LTYPE_write | LTYPE_append | LTYPE_truncate | LTYPE_frlock
| LTYPE_stage | LTYPE_open | LTYPE_mmap | LTYPE_unused | LTYPE_exclusive.

#[export] Instance LEASE_type_eq_dec : EqDecision LEASE_type.
Proof. solve_decision. Defined.

Definition ltype_ix (t : LEASE_type) : nat :=
  match t with
  | LTYPE_read => 0 | LTYPE_write => 1 | LTYPE_append => 2 | LTYPE_truncate => 3
  | LTYPE_frlock => 4 | LTYPE_stage => 5 | LTYPE_open => 6 | LTYPE_mmap => 7
  | LTYPE_unused => 8 | LTYPE_exclusive => 9
  end.

Definition SAM_MAX_LTYPE : nat := 10.

(** The values of a loop over lease types, in order. *)
Definition all_ltypes : list LEASE_type :=
  [LTYPE_read; LTYPE_write; LTYPE_append; LTYPE_truncate; LTYPE_frlock;
   LTYPE_stage; LTYPE_open; LTYPE_mmap; LTYPE_unused; LTYPE_exclusive].

Definition lbit (t : LEASE_type) : Z := Z.shiftl 1 (Z.of_nat (ltype_ix t)).

Definition CL_READ : Z := lbit LTYPE_read.
Definition CL_WRITE : Z := lbit LTYPE_write.
Definition CL_APPEND : Z := lbit LTYPE_append.
Definition CL_TRUNCATE : Z := lbit LTYPE_truncate.
Definition CL_FRLOCK : Z := lbit LTYPE_frlock.
Definition CL_STAGE : Z := lbit LTYPE_stage.
Definition CL_OPEN : Z := lbit LTYPE_open.
Definition CL_MMAP : Z := lbit LTYPE_mmap.
Definition CL_EXCLUSIVE : Z := lbit LTYPE_exclusive.

Declare Scope lease_scope.
Delimit Scope lease_scope with lease.
Notation "a ∣∣ b" := (Z.lor a b) (at level 50, left associativity) : lease_scope.
Notation "~~ a" := (Z.lnot a) (at level 35, right associativity) : lease_scope.
#[global] Open Scope lease_scope.

Definition SAM_NON_EXPIRING_LEASES : Z :=
  CL_TRUNCATE ∣∣ CL_FRLOCK ∣∣ CL_OPEN ∣∣ CL_MMAP ∣∣ CL_EXCLUSIVE.

(** ** Directed actions, file modes, truncation flags *)

Definition SR_STALE_INDIRECT : Z := 0x1.
Definition SR_DIRECTIO_ON : Z := 0x2.
Definition SR_INVAL_PAGES : Z := 0x8.
Definition SR_WAIT_LEASE : Z := 0x10.
Definition SR_NOTIFY_FRLOCK : Z := 0x80.
Definition SR_FORCE_SIZE : Z := 0x100.
Definition SR_ABR_ON : Z := 0x200.

Definition FREAD : Z := 0x1.
Definition FWRITE : Z := 0x2.
Definition FAPPEND : Z := 0x8.
Definition FCREAT : Z := 0x100.
Definition FTRUNC : Z := 0x200.

(** The value of [SAM_RELEASE] in [sam_truncate_t]. *)
Definition SAM_RELEASE : Z := 2.

Definition ECANCELED : Z := 47.

(** ** Tunables *)

Definition MAX_EXPIRING_LEASES : nat := 3.
Definition MAX_LEASE_TIME : Z := 600.
Definition sam_lease_server_mul : Z := 2.
Definition sam_lease_server_add : Z := 0.
Definition sam_lease_server_min : Z := 600.
Definition sam_lease_server_max : Z := 65535.
Definition sam_client_lease_increment : Z := 1.
Definition SAM_EXPIRE_DELAY_SECS : Z := 30.

(** ** Data *)

(** What an operation reads of the mount point and the system: the multi-host write
    option, the [lease_timeo] option, the number of client hosts, the clock and its
    rate, whether the file system is failing over, and whether the task queue refuses
    a task. *)
Record lenv : Type := mkEnv {
  e_mh_write : bool;
  e_lease_timeo : Z;
  e_max_clients : Z;
  e_lbolt : Z;
  e_hz : Z;
  e_failover : bool;
  e_taskq_err : bool
}.

(** [sam_client_lease_t]. *)
Record client_lease : Type := mkCl {
  cl_leases : Z;
  cl_wt : Z;
  cl_actions : Z;
  cl_directio : bool;
  cl_abr : bool;
  cl_ord : Z;
  cl_wr_seq : Z;
  cl_attr_seqno : Z;
  cl_time : list Z;
  cl_gen : list Z;
  cl_defer : list Z
}.

(** [sam_lease_ino_t]: the entries in use, where the next notification starts, and the
    number of entries that the array has room for. *)
Record lease_ino : Type := mkLi {
  li_max : Z;
  li_notify : Z;
  li_lease : list client_lease
}.

(** The fields of the inode that the lease code reads or writes. *)
Record lnode : Type := mkLn {
  ln_ino : Z;
  ln_leases : option lease_ino;
  ln_write_seqno : Z;
  ln_abr : bool;
  ln_staging : bool;
  ln_changed : bool;
  ln_updated : bool;
  ln_sr_sync : bool;
  ln_noreclaim : bool;
  ln_hold_blocks : bool;
  ln_size : Z;
  ln_size_owner : Z;
  ln_write_owner : Z;
  ln_nlink : Z
}.

(** Messages to clients and to the console. *)
Inductive lmsg : Type :=
| NOTIFY_lease (ino ord : Z)
| NOTIFY_lease_expire (ino ord mask : Z)
| CALLOUT_relinquish_lease (ino ord mask timeo : Z)
| CALLOUT_action (ino ord actions : Z)
| CALLOUT_flags (ino ord actions : Z)
| CLEANLOCKS (ino ord : Z)
| WARN_multiple_append (ino ord entry : Z).

(** The mount point: the chain of inodes with a lease table, the messages sent, whether
    the expiry task is scheduled and for when, and the tasks queued. *)
Record lmnt : Type := mkLm {
  lm_chain : list Z;
  lm_out : list lmsg;
  lm_sch : bool;
  lm_next : Z;
  lm_tasks : list Z
}.

Record lst : Type := mkLs { s_ip : lnode; s_mp : lmnt }.

(** The lease message [sam_san_lease2_t]: directed actions and offset of the reply, the
    arguments of the request, the generation numbers and the mask of granted leases. *)
Record lreq : Type := mkReq {
  q_actions : Z;
  q_sr_offset : Z;
  q_lflag : Z;
  q_sparse : Z;
  q_filemode : Z;
  q_offset : Z;
  q_resid : Z;
  q_no_daus : Z;
  q_directio : bool;
  q_abr : bool;
  q_interval : list Z;
  q_gen : list Z;
  q_granted : Z
}.

(** ** Assignments to one field *)

Definition set_leases (v : Z) (c : client_lease) : client_lease :=
  mkCl v (cl_wt c) (cl_actions c) (cl_directio c) (cl_abr c) (cl_ord c) (cl_wr_seq c)
    (cl_attr_seqno c) (cl_time c) (cl_gen c) (cl_defer c).
Definition set_wt (v : Z) (c : client_lease) : client_lease :=
  mkCl (cl_leases c) v (cl_actions c) (cl_directio c) (cl_abr c) (cl_ord c) (cl_wr_seq c)
    (cl_attr_seqno c) (cl_time c) (cl_gen c) (cl_defer c).
Definition set_actions (v : Z) (c : client_lease) : client_lease :=
  mkCl (cl_leases c) (cl_wt c) v (cl_directio c) (cl_abr c) (cl_ord c) (cl_wr_seq c)
    (cl_attr_seqno c) (cl_time c) (cl_gen c) (cl_defer c).
Definition set_directio (v : bool) (c : client_lease) : client_lease :=
  mkCl (cl_leases c) (cl_wt c) (cl_actions c) v (cl_abr c) (cl_ord c) (cl_wr_seq c)
    (cl_attr_seqno c) (cl_time c) (cl_gen c) (cl_defer c).
Definition set_abr (v : bool) (c : client_lease) : client_lease :=
  mkCl (cl_leases c) (cl_wt c) (cl_actions c) (cl_directio c) v (cl_ord c) (cl_wr_seq c)
    (cl_attr_seqno c) (cl_time c) (cl_gen c) (cl_defer c).
Definition set_wr_seq (v : Z) (c : client_lease) : client_lease :=
  mkCl (cl_leases c) (cl_wt c) (cl_actions c) (cl_directio c) (cl_abr c) (cl_ord c) v
    (cl_attr_seqno c) (cl_time c) (cl_gen c) (cl_defer c).
Definition set_attr_seqno (v : Z) (c : client_lease) : client_lease :=
  mkCl (cl_leases c) (cl_wt c) (cl_actions c) (cl_directio c) (cl_abr c) (cl_ord c)
    (cl_wr_seq c) v (cl_time c) (cl_gen c) (cl_defer c).
Definition set_time (t : LEASE_type) (v : Z) (c : client_lease) : client_lease :=
  mkCl (cl_leases c) (cl_wt c) (cl_actions c) (cl_directio c) (cl_abr c) (cl_ord c)
    (cl_wr_seq c) (cl_attr_seqno c) (<[ltype_ix t := v]> (cl_time c)) (cl_gen c) (cl_defer c).
Definition set_gen (t : LEASE_type) (v : Z) (c : client_lease) : client_lease :=
  mkCl (cl_leases c) (cl_wt c) (cl_actions c) (cl_directio c) (cl_abr c) (cl_ord c)
    (cl_wr_seq c) (cl_attr_seqno c) (cl_time c) (<[ltype_ix t := v]> (cl_gen c)) (cl_defer c).
Definition set_defer (t : LEASE_type) (v : Z) (c : client_lease) : client_lease :=
  mkCl (cl_leases c) (cl_wt c) (cl_actions c) (cl_directio c) (cl_abr c) (cl_ord c)
    (cl_wr_seq c) (cl_attr_seqno c) (cl_time c) (cl_gen c) (<[ltype_ix t := v]> (cl_defer c)).

Definition get_time (t : LEASE_type) (c : client_lease) : Z :=
  default 0 (cl_time c !! ltype_ix t).
Definition get_gen (t : LEASE_type) (c : client_lease) : Z :=
  default 0 (cl_gen c !! ltype_ix t).
Definition get_defer (t : LEASE_type) (c : client_lease) : Z :=
  default 0 (cl_defer c !! ltype_ix t).

(** [bzero] of an entry, and its client ordinal. *)
Definition zero_entry (ord : Z) : client_lease :=
  let z := replicate SAM_MAX_LTYPE 0 in mkCl 0 0 0 false false ord 0 0 z z z.

(** [if (actions & SR_WAIT_LEASE) actions &= ~SR_WAIT_LEASE]. *)
Definition waiting (c : client_lease) : bool := has_any (cl_actions c) SR_WAIT_LEASE.
Definition clear_wait (c : client_lease) : client_lease :=
  if waiting c then set_actions (Z.land (cl_actions c) (~~ SR_WAIT_LEASE)) c else c.

Definition set_entries (l : list client_lease) (t : lease_ino) : lease_ino :=
  mkLi (li_max t) (li_notify t) l.

Definition set_table (t : option lease_ino) (n : lnode) : lnode :=
  mkLn (ln_ino n) t (ln_write_seqno n) (ln_abr n) (ln_staging n) (ln_changed n)
    (ln_updated n) (ln_sr_sync n) (ln_noreclaim n) (ln_hold_blocks n) (ln_size n)
    (ln_size_owner n) (ln_write_owner n) (ln_nlink n).
Definition set_write_seqno (v : Z) (n : lnode) : lnode :=
  mkLn (ln_ino n) (ln_leases n) v (ln_abr n) (ln_staging n) (ln_changed n)
    (ln_updated n) (ln_sr_sync n) (ln_noreclaim n) (ln_hold_blocks n) (ln_size n)
    (ln_size_owner n) (ln_write_owner n) (ln_nlink n).
Definition set_ip_abr (v : bool) (n : lnode) : lnode :=
  mkLn (ln_ino n) (ln_leases n) (ln_write_seqno n) v (ln_staging n) (ln_changed n)
    (ln_updated n) (ln_sr_sync n) (ln_noreclaim n) (ln_hold_blocks n) (ln_size n)
    (ln_size_owner n) (ln_write_owner n) (ln_nlink n).
Definition set_owners (size_owner write_owner : Z) (n : lnode) : lnode :=
  mkLn (ln_ino n) (ln_leases n) (ln_write_seqno n) (ln_abr n) (ln_staging n) (ln_changed n)
    (ln_updated n) (ln_sr_sync n) (ln_noreclaim n) (ln_hold_blocks n) (ln_size n)
    size_owner write_owner (ln_nlink n).
(** [ip->flags.b.changed = 1; ip->sr_sync = 1]. *)
Definition mark_changed (n : lnode) : lnode :=
  mkLn (ln_ino n) (ln_leases n) (ln_write_seqno n) (ln_abr n) (ln_staging n) true
    (ln_updated n) true (ln_noreclaim n) (ln_hold_blocks n) (ln_size n)
    (ln_size_owner n) (ln_write_owner n) (ln_nlink n).
Definition set_noreclaim (n : lnode) : lnode :=
  mkLn (ln_ino n) (ln_leases n) (ln_write_seqno n) (ln_abr n) (ln_staging n) (ln_changed n)
    (ln_updated n) (ln_sr_sync n) true (ln_hold_blocks n) (ln_size n)
    (ln_size_owner n) (ln_write_owner n) (ln_nlink n).
Definition set_hold_blocks (v : bool) (n : lnode) : lnode :=
  mkLn (ln_ino n) (ln_leases n) (ln_write_seqno n) (ln_abr n) (ln_staging n) (ln_changed n)
    (ln_updated n) (ln_sr_sync n) (ln_noreclaim n) v (ln_size n)
    (ln_size_owner n) (ln_write_owner n) (ln_nlink n).
Definition set_updated (n : lnode) : lnode :=
  mkLn (ln_ino n) (ln_leases n) (ln_write_seqno n) (ln_abr n) (ln_staging n) (ln_changed n)
    true (ln_sr_sync n) (ln_noreclaim n) (ln_hold_blocks n) (ln_size n)
    (ln_size_owner n) (ln_write_owner n) (ln_nlink n).
Definition set_ip_size (v : Z) (n : lnode) : lnode :=
  mkLn (ln_ino n) (ln_leases n) (ln_write_seqno n) (ln_abr n) (ln_staging n) (ln_changed n)
    (ln_updated n) (ln_sr_sync n) (ln_noreclaim n) (ln_hold_blocks n) v
    (ln_size_owner n) (ln_write_owner n) (ln_nlink n).

Definition on_ip (f : lnode -> lnode) (s : lst) : lst := mkLs (f (s_ip s)) (s_mp s).
Definition on_mp (f : lmnt -> lmnt) (s : lst) : lst := mkLs (s_ip s) (f (s_mp s)).

Definition log_msgs (ms : list lmsg) (m : lmnt) : lmnt :=
  mkLm (lm_chain m) (lm_out m ++ ms) (lm_sch m) (lm_next m) (lm_tasks m).
Definition set_chain (l : list Z) (m : lmnt) : lmnt :=
  mkLm l (lm_out m) (lm_sch m) (lm_next m) (lm_tasks m).
Definition send (ms : list lmsg) : lst -> lst := on_mp (log_msgs ms).

(** The entries of the table, and their replacement. *)
Definition entries (s : lst) : list client_lease :=
  match ln_leases (s_ip s) with Some t => li_lease t | None => [] end.
Definition put_entries (l : list client_lease) : lst -> lst :=
  on_ip (fun n => set_table (set_entries l <$> ln_leases n) n).

Definition set_q_actions (v : Z) (q : lreq) : lreq :=
  mkReq v (q_sr_offset q) (q_lflag q) (q_sparse q) (q_filemode q) (q_offset q) (q_resid q)
    (q_no_daus q) (q_directio q) (q_abr q) (q_interval q) (q_gen q) (q_granted q).
Definition set_q_sr_offset (v : Z) (q : lreq) : lreq :=
  mkReq (q_actions q) v (q_lflag q) (q_sparse q) (q_filemode q) (q_offset q) (q_resid q)
    (q_no_daus q) (q_directio q) (q_abr q) (q_interval q) (q_gen q) (q_granted q).
Definition set_q_offset (v : Z) (q : lreq) : lreq :=
  mkReq (q_actions q) (q_sr_offset q) (q_lflag q) (q_sparse q) (q_filemode q) v (q_resid q)
    (q_no_daus q) (q_directio q) (q_abr q) (q_interval q) (q_gen q) (q_granted q).
Definition set_q_no_daus (v : Z) (q : lreq) : lreq :=
  mkReq (q_actions q) (q_sr_offset q) (q_lflag q) (q_sparse q) (q_filemode q) (q_offset q)
    (q_resid q) v (q_directio q) (q_abr q) (q_interval q) (q_gen q) (q_granted q).
Definition set_q_abr (v : bool) (q : lreq) : lreq :=
  mkReq (q_actions q) (q_sr_offset q) (q_lflag q) (q_sparse q) (q_filemode q) (q_offset q)
    (q_resid q) (q_no_daus q) (q_directio q) v (q_interval q) (q_gen q) (q_granted q).
Definition set_q_gen (t : LEASE_type) (v : Z) (q : lreq) : lreq :=
  mkReq (q_actions q) (q_sr_offset q) (q_lflag q) (q_sparse q) (q_filemode q) (q_offset q)
    (q_resid q) (q_no_daus q) (q_directio q) (q_abr q) (q_interval q)
    (<[ltype_ix t := v]> (q_gen q)) (q_granted q).
Definition set_q_granted (v : Z) (q : lreq) : lreq :=
  mkReq (q_actions q) (q_sr_offset q) (q_lflag q) (q_sparse q) (q_filemode q) (q_offset q)
    (q_resid q) (q_no_daus q) (q_directio q) (q_abr q) (q_interval q) (q_gen q) v.
