(* ===== verification/LeaseOps.v ===== *)
(** * Granting, extending and removing leases

    The operations of src/src/fs/samfs/server.c on the lease table of an inode, and the
    scheduling of the expiry task (src/src/fs/samfs/reclaim.c). *)
From S2P Require Import Prelude Lease.

(** ** Time *)

(** [sam_calculate_lease_timeout], in [int] arithmetic. *)
Definition sam_calculate_lease_timeout (client_interval : Z) : Z :=
  let server_interval :=
    s32 (s32 (client_interval * sam_lease_server_mul) + sam_lease_server_add) in
  let extra := s32 (server_interval - client_interval) in
  let extra := if extra >? sam_lease_server_max then sam_lease_server_max else extra in
  let extra := if extra <? sam_lease_server_min then sam_lease_server_min else extra in
  s32 (client_interval + extra).

(** [sam_calculate_lease_timeout(interval) * hz]: the interval of the message is
    unsigned, the parameter and the product are [int]. *)
Definition lease_ticks (env : lenv) (interval : Z) : Z :=
  s32 (sam_calculate_lease_timeout (s32 interval) * e_hz env).

Definition lease_interval (q : lreq) (t : LEASE_type) : Z :=
  if (ltype_ix t <? MAX_EXPIRING_LEASES)%nat then default 0 (q_interval q !! ltype_ix t)
  else MAX_LEASE_TIME.

(** [sam_sched_expire_server_leases]. [SAM_EXPIRE_MIN_TICKS] is half a second and
    [SAM_EXPIRE_MAX_TICKS] 45 seconds. *)
Definition SAM_EXPIRE_MIN_TICKS (env : lenv) : Z := e_hz env / 2.
Definition SAM_EXPIRE_MAX_TICKS (env : lenv) : Z := e_hz env * 45.

Definition sam_sched_expire_server_leases (env : lenv) (ticks : Z) (force : bool)
    (m : lmnt) : lmnt :=
  let ticks := if (ticks >? SAM_EXPIRE_MAX_TICKS env) && negb force
               then SAM_EXPIRE_MAX_TICKS env else ticks in
  let next := ticks + e_lbolt env in
  if force || negb (lm_sch m) || (next <? lm_next m - SAM_EXPIRE_MIN_TICKS env) then
    if e_taskq_err env then mkLm (lm_chain m) (lm_out m) false next (lm_tasks m)
    else mkLm (lm_chain m) (lm_out m) true next (lm_tasks m ++ [ticks])
  else m.

(** ** The first lease of an inode *)

(** [sam_new_ino_lease] once both mutexes are held. *)
Definition new_ino_lease_held (env : lenv) (ord : Z) (t : LEASE_type) (interval : Z)
    (q : lreq) (s : lst) : lst :=
  let e := zero_entry ord in
  let e := set_actions (q_actions q) (set_leases (lbit t) e) in
  let e := if has_any (lbit t) (CL_READ ∣∣ CL_WRITE ∣∣ CL_APPEND)
           then set_directio (q_directio q) e else e in
  let e := set_abr (ln_abr (s_ip s)) e in
  let e := set_time t (e_lbolt env + lease_ticks env interval) e in
  on_mp (fun m => set_chain (lm_chain m ++ [ln_ino (s_ip s)]) m)
    (on_ip (set_table (Some (mkLi 1 0 [e]))) s).

(** ** Finding the entry of a client *)

(** What the loops over the table collect: the index of the client's entry, and the
    leases, mapped leases and awaited leases of the other clients. *)
Record lscan : Type := mkScan {
  sc_index : option nat; sc_other : Z; sc_mmap : Z; sc_wt : Z
}.

Definition scan_entry (ord : Z) (a : lscan) (i : nat) (c : client_lease) : lscan :=
  if cl_ord c =? ord then mkScan (Some i) (sc_other a) (sc_mmap a) (sc_wt a)
  else mkScan (sc_index a) (Z.lor (sc_other a) (cl_leases c))
         (if has_any (cl_leases c) (CL_READ ∣∣ CL_WRITE) && has_any (cl_leases c) CL_MMAP
          then Z.lor (sc_mmap a) (cl_leases c) else sc_mmap a)
         (Z.lor (sc_wt a) (cl_wt c)).

Fixpoint scan_from (ord : Z) (a : lscan) (i : nat) (l : list client_lease) : lscan :=
  match l with
  | [] => a
  | c :: l => scan_from ord (scan_entry ord a i c) (S i) l
  end.

Definition lease_scan (ord : Z) (l : list client_lease) : lscan :=
  scan_from ord (mkScan None 0 0 0) 0 l.

(** The first loop of [sam_add_ino_lease] also clears an entry of this client that holds
    and awaits nothing. *)
Definition reuse_entry (ord : Z) (c : client_lease) : client_lease :=
  if (cl_ord c =? ord) && (cl_leases c =? 0) && (cl_wt c =? 0) then zero_entry ord else c.

(** The size of the table when it is enlarged. *)
Definition grow_clients (env : lenv) (cur_clients : Z) : Z :=
  let new_clients := cur_clients + sam_client_lease_increment in
  if new_clients >? e_max_clients env then e_max_clients env else new_clients.

Inductive located : Type :=
| Found (s : lst) (index : nat) (other mmap : Z)
| NoTable (s : lst).

(** Lines 2125-2231, with both mutexes held: another thread may have added the client;
    otherwise the table is enlarged. *)
Definition add_relocate (env : lenv) (ord : Z) (s : lst) : located :=
  match ln_leases (s_ip s) with
  | None => NoTable s
  | Some llp =>
    let sc := lease_scan ord (li_lease llp) in
    match sc_index sc with
    | Some i => Found s i (sc_other sc) (sc_mmap sc)
    | None =>
      let l := li_lease llp ++ [zero_entry ord] in
      let sc := lease_scan ord l in
      Found (on_ip (set_table (Some (mkLi (grow_clients env (li_max llp)) (li_notify llp) l))) s)
        (length (li_lease llp)) (sc_other sc) (sc_mmap sc)
    end
  end.

(** [sam_add_ino_lease] up to line 2233: the entry to use, an enlarged table if there is
    no room, and the leases of the other clients. *)
Definition add_locate (env : lenv) (held : bool) (other : lst -> lst) (ord : Z) (s : lst) :
    located :=
  match ln_leases (s_ip s) with
  | None => NoTable s
  | Some llp =>
    let l := reuse_entry ord <$> li_lease llp in
    let sc := lease_scan ord l in
    match sc_index sc with
    | Some i => Found (put_entries l s) i (sc_other sc) (sc_mmap sc)
    | None =>
      if Z.of_nat (length l) <? li_max llp then
        Found (put_entries (l ++ [zero_entry ord]) s) (length l) (sc_other sc) (sc_mmap sc)
      else
        add_relocate env ord (if held then s else other s)
    end
  end.

(** ** The decision *)

(** The outcome of the [switch] of [sam_add_ino_lease]: the lease is granted, waits
    while holders are asked to relinquish the leases of a mask, or depends on
    [sam_callout_directio]. *)
Inductive verdict : Type :=
| VGrant
| VWait (relinquish : Z)
| VDirectio.

Definition data_leases : Z := CL_APPEND ∣∣ CL_WRITE ∣∣ CL_READ.

Definition lease_verdict (env : lenv) (q : lreq) (size : Z) (t : LEASE_type)
    (own other mmap : Z) : verdict :=
  match t with
  | LTYPE_read =>
    if has_any other (CL_TRUNCATE ∣∣ CL_EXCLUSIVE) || has_any mmap CL_WRITE then VWait 0
    else if has_any other (CL_WRITE ∣∣ CL_APPEND) then
      if negb (e_mh_write env) then VWait (Z.land other (CL_APPEND ∣∣ CL_WRITE))
      else VDirectio
    else VGrant
  | LTYPE_write =>
    if has_any other (CL_TRUNCATE ∣∣ CL_STAGE ∣∣ CL_EXCLUSIVE) then VWait 0
    else if has_any other (~~ (CL_OPEN ∣∣ CL_FRLOCK ∣∣ CL_MMAP)) then
      if negb (e_mh_write env) then VWait (Z.land other data_leases)
      else if has_any mmap (CL_READ ∣∣ CL_WRITE) ||
              (has_any own CL_MMAP && has_any other (CL_APPEND ∣∣ CL_WRITE)) then VWait 0
      else VDirectio
    else VGrant
  | LTYPE_append =>
    if has_any other (CL_APPEND ∣∣ CL_TRUNCATE ∣∣ CL_STAGE ∣∣ CL_EXCLUSIVE) ||
       has_any mmap (CL_READ ∣∣ CL_WRITE) then VWait (Z.land other CL_APPEND)
    else if has_any other (~~ (CL_OPEN ∣∣ CL_FRLOCK)) then
      if negb (e_mh_write env) then VWait (Z.land other data_leases)
      else VDirectio
    else VGrant
  | LTYPE_truncate =>
    if negb (q_lflag q =? SAM_RELEASE) &&
       has_any other (~~ (CL_STAGE ∣∣ CL_OPEN ∣∣ CL_FRLOCK)) then
      if q_resid q >=? size then
        if e_mh_write env && negb (has_any other CL_APPEND) then VGrant else VWait 0
      else VWait (Z.land other data_leases)
    else VGrant
  | LTYPE_frlock => if has_any (q_actions q) SR_WAIT_LEASE then VWait 0 else VGrant
  | LTYPE_stage => VGrant
  | LTYPE_open => VGrant
  | LTYPE_mmap =>
    if has_any (q_filemode q) FWRITE then
      if has_any other (CL_TRUNCATE ∣∣ CL_STAGE ∣∣ CL_EXCLUSIVE) then VWait 0
      else if has_any other (~~ (CL_OPEN ∣∣ CL_FRLOCK ∣∣ CL_MMAP)) then
        if negb (e_mh_write env) then VWait (Z.land other data_leases)
        else if has_any mmap (CL_READ ∣∣ CL_WRITE) then VWait 0
        else if has_any other CL_READ then VWait (Z.land other data_leases)
        else if has_any other CL_WRITE then VWait 0
        else VGrant
      else VGrant
    else
      if has_any other (CL_TRUNCATE ∣∣ CL_EXCLUSIVE) then VWait 0
      else if has_any other (CL_WRITE ∣∣ CL_APPEND) then
        VWait (if negb (e_mh_write env) then Z.land other (CL_APPEND ∣∣ CL_WRITE) else 0)
      else VGrant
  | LTYPE_exclusive =>
    if has_any other (CL_WRITE ∣∣ CL_APPEND ∣∣ CL_TRUNCATE ∣∣ CL_READ ∣∣ CL_STAGE
                      ∣∣ CL_EXCLUSIVE) then VWait (Z.land other data_leases)
    else VGrant
  | LTYPE_unused => VGrant
  end.

(** The flags [may_read] and [may_write] of the [switch]. *)
Definition may_read (t : LEASE_type) : bool :=
  match t with
  | LTYPE_read | LTYPE_write | LTYPE_append | LTYPE_mmap | LTYPE_exclusive => true
  | _ => false
  end.
Definition may_write (q : lreq) (t : LEASE_type) : bool :=
  match t with
  | LTYPE_write | LTYPE_append | LTYPE_truncate | LTYPE_exclusive => true
  | LTYPE_mmap => has_any (q_filemode q) FWRITE
  | _ => false
  end.

(** ** Callouts *)

(** [sam_callout_directio]: the table, the messages and whether to wait. *)
Fixpoint sam_callout_directio (ino ord : Z) (l : list client_lease) :
    list client_lease * list lmsg * bool :=
  match l with
  | [] => ([], [], false)
  | c :: l =>
    let '(l', ms, w) := sam_callout_directio ino ord l in
    if cl_directio c then
      (set_actions (Z.land (cl_actions c) (~~ SR_DIRECTIO_ON)) c :: l', ms, w)
    else if negb (cl_ord c =? ord) &&
            has_any (cl_leases c) (CL_READ ∣∣ CL_WRITE ∣∣ CL_APPEND) then
      let a := Z.lor (cl_actions c) SR_DIRECTIO_ON in
      (set_actions (Z.land a (~~ SR_DIRECTIO_ON)) c :: l',
       CALLOUT_flags ino (cl_ord c) SR_DIRECTIO_ON :: ms, true)
    else (c :: l', ms, w)
  end.

(** [sam_callout_actions]: a message to every other client of the table. *)
Definition sam_callout_actions (ino ord actions : Z) (l : list client_lease) : list lmsg :=
  (fun c => CALLOUT_action ino (cl_ord c) actions) <$>
    filter (fun c => cl_ord c <> ord) l.

(** [sam_callout_abr]. *)
Definition sam_callout_abr (ord : Z) (s : lst) : lst :=
  send ((fun c => CALLOUT_flags (ln_ino (s_ip s)) (cl_ord c) SR_ABR_ON) <$>
          filter (fun c => cl_ord c <> ord /\ cl_abr c = false) (entries s)) s.

(** [sam_check_lease_timeo]. *)
Definition sam_check_lease_timeo (env : lenv) (relinquish_lease_mask ord : Z) (s : lst) : lst :=
  if relinquish_lease_mask =? 0 then s
  else if e_lease_timeo env <? 0 then s
  else
    send ((fun c => CALLOUT_relinquish_lease (ln_ino (s_ip s)) (cl_ord c)
                      (Z.land relinquish_lease_mask (cl_leases c)) (e_lease_timeo env)) <$>
            filter (fun c => cl_ord c <> ord /\
                             has_any (cl_leases c) relinquish_lease_mask = true) (entries s)) s.

(** ** [sam_add_ino_lease] *)

(** Lines 2234-2252: actions, directio and abr of the entry and of the message. *)
Definition add_flags (ip : lnode) (t : LEASE_type) (q : lreq) (c : client_lease) :
    client_lease * lreq :=
  let c := set_actions (Z.lor (cl_actions c) (Z.land (q_actions q) (~~ SR_WAIT_LEASE))) c in
  let c := if has_any (lbit t) (CL_READ ∣∣ CL_WRITE ∣∣ CL_APPEND)
           then set_directio (q_directio q) c else c in
  if ln_abr ip && (negb (cl_abr c) || negb (q_abr q)) then
    (set_abr true (set_actions (Z.lor (cl_actions c) SR_ABR_ON) c), set_q_abr true q)
  else (c, q).

(** Lines 2497-2507, without the relinquish callout. *)
Definition wait_entry (t : LEASE_type) (c : client_lease) : client_lease :=
  set_actions SR_WAIT_LEASE (set_wt (Z.lor (cl_wt c) (lbit t)) c).

(** Lines 2509-2554: the entry, the actions of the message and the write sequence
    number of the inode. The sequence number of the entry is an [int32_t], that of the
    inode a [uint32_t]. *)
Definition grant_entry (env : lenv) (t : LEASE_type) (interval : Z) (q : lreq) (seqno : Z)
    (c : client_lease) : client_lease * Z * Z :=
  let c := set_leases (Z.lor (cl_leases c) (lbit t)) c in
  let c := set_time t (e_lbolt env + lease_ticks env interval) c in
  let c := if decide (t = LTYPE_frlock) then c
           else set_wt (Z.land (cl_wt c) (~~ (lbit t))) c in
  let c := if may_read t && negb (u32 (cl_wr_seq c) =? seqno) then
             set_actions (Z.lor (cl_actions c) (SR_STALE_INDIRECT ∣∣ SR_INVAL_PAGES))
               (set_wr_seq (s32 seqno) c)
           else c in
  let seqno' := if may_write q t then u32 (seqno + 1) else seqno in
  let c := if may_write q t then set_wr_seq (s32 seqno') c else c in
  let reply := Z.land (cl_actions c) (~~ SR_WAIT_LEASE) in
  (set_actions (if cl_wt c =? 0 then 0 else SR_WAIT_LEASE) c, reply, seqno').

(** From line 2234 on: the lease waits or is granted to entry [i]. *)
Definition add_decide (env : lenv) (ord : Z) (t : LEASE_type) (interval : Z) (q : lreq)
    (i : nat) (other mmap : Z) (s : lst) : lst * lreq :=
  match entries s !! i with
  | None => (s, q)
  | Some c =>
    let '(c, q) := add_flags (s_ip s) t q c in
    let s := put_entries (<[i := c]> (entries s)) s in
    let v := lease_verdict env q (ln_size (s_ip s)) t (cl_leases c) other mmap in
    let '(s, wait_lease, relinquish) :=
      match v with
      | VGrant => (s, false, 0)
      | VWait r => (s, true, r)
      | VDirectio =>
        let l := <[i := set_actions (Z.lor (cl_actions c) SR_DIRECTIO_ON) c]> (entries s) in
        let '(l, ms, w) := sam_callout_directio (ln_ino (s_ip s)) ord l in
        (send ms (put_entries l s), w, 0)
      end in
    if wait_lease : bool then
      (sam_check_lease_timeo env relinquish ord
         (put_entries (alter (wait_entry t) i (entries s)) s),
       set_q_actions SR_WAIT_LEASE q)
    else
      match entries s !! i with
      | None => (s, q)
      | Some c =>
        let '(c, reply, seqno) := grant_entry env t interval q (ln_write_seqno (s_ip s)) c in
        (on_ip (set_write_seqno seqno) (put_entries (<[i := c]> (entries s)) s),
         set_q_actions reply q)
      end
  end.

(** The lease at the entry that was found; a table that is gone is made again. *)
Definition add_finish (env : lenv) (ord : Z) (t : LEASE_type) (interval : Z) (q : lreq)
    (loc : located) : lst * lreq * nat :=
  match loc with
  | Found s i others mmap =>
    let '(s, q) := add_decide env ord t interval q i others mmap s in (s, q, i)
  | NoTable s => (new_ino_lease_held env ord t interval q s, q, 0%nat)
  end.

(** [sam_add_ino_lease]: the state, the message and the index of the entry. *)
Definition sam_add_ino_lease (env : lenv) (held : bool) (other : lst -> lst) (ord : Z)
    (t : LEASE_type) (interval : Z) (q : lreq) (s : lst) : lst * lreq * nat :=
  add_finish env ord t interval q (add_locate env held other ord s).

(** [sam_new_ino_lease] without the mutex of the mount point: another thread may have
    made a table while the mutex of the inode was dropped. *)
Definition sam_new_ino_lease (env : lenv) (other : lst -> lst) (ord : Z)
    (t : LEASE_type) (interval : Z) (q : lreq) (s : lst) : lst * lreq * nat :=
  let s := other s in
  match ln_leases (s_ip s) with
  | Some _ => sam_add_ino_lease env true id ord t interval q s
  | None => (new_ino_lease_held env ord t interval q s, q, 0%nat)
  end.

(** ** [sam_record_lease] *)

(** [clp->leases |= bit; clp->time[u] = clp->time[t]]. *)
Definition implicit_lease (u t : LEASE_type) (c : client_lease) : client_lease :=
  set_time u (get_time t c) (set_leases (Z.lor (cl_leases c) (lbit u)) c).

(** The lease that comes with a granted one: read with a read-only open of a file that
    no other client uses, read or write with a mapping, write with append. *)
Definition implicit_type (t : LEASE_type) (is_get : bool) (q : lreq) (no_clients : nat) :
    option LEASE_type :=
  if negb is_get then None else
  match t with
  | LTYPE_open =>
    if (Z.land (q_filemode q) (FCREAT ∣∣ FTRUNC ∣∣ FWRITE) =? 0) && (no_clients =? 1)%nat
    then Some LTYPE_read else None
  | LTYPE_mmap => Some (if has_any (q_filemode q) FREAD then LTYPE_read else LTYPE_write)
  | LTYPE_append => Some LTYPE_write
  | _ => None
  end.

(** [l2p->inp.gen[t] = ++(clp->gen[t])]. *)
Definition next_gen (t : LEASE_type) (cq : client_lease * lreq) : client_lease * lreq :=
  let g := u32 (get_gen t cq.1 + 1) in (set_gen t g cq.1, set_q_gen t g cq.2).

(** Lines 1806-1879: implicit leases, generations, the granted mask and the expiry task. *)
Definition record_finish (env : lenv) (t : LEASE_type) (interval : Z)
    (new_generation is_get : bool) (r : lst * lreq * nat) : lst * lreq :=
  let '(s, q, i) := r in
  let lease_granted := negb (has_any (q_actions q) SR_WAIT_LEASE) in
  let '(s, q) :=
    match entries s !! i with
    | Some c =>
      if lease_granted then
        let imp := implicit_type t is_get q (length (entries s)) in
        let c := match imp with Some u => implicit_lease u t c | None => c end in
        let mask := match imp with Some u => Z.lor (lbit t) (lbit u) | None => lbit t end in
        let '(c, q) :=
          if new_generation then
            let cq := next_gen t (c, q) in
            match imp with Some u => next_gen u cq | None => cq end
          else (c, q) in
        (put_entries (<[i := c]> (entries s)) s, set_q_granted mask q)
      else (s, set_q_granted 0 q)
    | None => (s, q)
    end in
  if lease_granted then
    (on_mp (sam_sched_expire_server_leases env (lease_ticks env interval) false) s, q)
  else (s, q).

Definition sam_record_lease (env : lenv) (other : lst -> lst) (ord : Z) (t : LEASE_type)
    (q : lreq) (new_generation is_get : bool) (s : lst) : lst * lreq :=
  let interval := lease_interval q t in
  record_finish env t interval new_generation is_get
    (match ln_leases (s_ip s) with
     | None => sam_new_ino_lease env other ord t interval q s
     | Some _ => sam_add_ino_lease env false other ord t interval q s
     end).

(** ** Calls out of the lease code

    What the lease code calls in the block layer of the same server: [lc_trunc_excess] is
    [sam_trunc_excess_blocks] (src/src/fs/samfs/inode.c), which may change the inode and
    returns an errno. *)
Class LeaseCalls : Type := { lc_trunc_excess : lnode -> lnode * Z }.

(** It leaves the lease table alone, and the number of the inode. *)
Class LeaseCallsLaws `{LeaseCalls} : Prop := {
  lc_trunc_table (n : lnode) : ln_leases (lc_trunc_excess n).1 = ln_leases n;
  lc_trunc_ino (n : lnode) : ln_ino (lc_trunc_excess n).1 = ln_ino n
}.

(** ** [sam_remove_lease] *)

(** The local variables of the loop over the table, and the messages it sends. *)
Record rm_acc : Type := mkRm {
  ra_l : list client_lease;
  ra_mask : Z;
  ra_act : Z;
  ra_append : bool;
  ra_truncate : bool;
  ra_exclusive : bool;
  ra_last : bool;
  ra_append_client : option nat;
  ra_write_remains : bool;
  ra_out : list lmsg
}.

(** Leases whose generation is not the one of the request are not removed. *)
Definition check_gen (gens : option (list Z)) (c : client_lease) (mask : Z) : Z :=
  match gens with
  | None => mask
  | Some g =>
    fold_left (fun mask t =>
      if has_any mask (lbit t) && negb (default 0 (g !! ltype_ix t) =? get_gen t c)
      then Z.land mask (~~ (lbit t)) else mask) all_ltypes mask
  end.

(** The part of a turn for the entry of the client itself. *)
Definition rm_own (gens : option (list Z)) (c : client_lease) (a : rm_acc) :
    client_lease * rm_acc :=
  let mask := check_gen gens c (ra_mask a) in
  let act := Z.lor (ra_act a) (Z.land (cl_actions c) (~~ SR_WAIT_LEASE)) in
  let act := if has_any mask CL_FRLOCK then Z.lor act SR_NOTIFY_FRLOCK else act in
  let gone := Z.land mask (cl_leases c) in
  let act := if has_any gone CL_WRITE then Z.lor act SR_INVAL_PAGES else act in
  (set_leases (Z.land (cl_leases c) (~~ mask)) (set_wt (Z.land (cl_wt c) (~~ mask)) c),
   mkRm (ra_l a) mask act (has_any gone CL_APPEND) (has_any gone CL_TRUNCATE)
     (has_any gone CL_EXCLUSIVE) (ra_last a) (ra_append_client a) (ra_write_remains a)
     (ra_out a)).

(** One turn, at index [nl]. *)
Definition rm_turn (ino ord : Z) (gens : option (list Z)) (nl : nat) (a : rm_acc) : rm_acc :=
  match ra_l a !! nl with
  | None => a
  | Some c =>
    let '(c, a) := if cl_ord c =? ord then rm_own gens c a else (c, a) in
    let out := if waiting c then [NOTIFY_lease ino (cl_ord c)] else [] in
    let c := clear_wait c in
    mkRm (<[nl := c]> (ra_l a)) (ra_mask a) (ra_act a) (ra_append a) (ra_truncate a)
      (ra_exclusive a) (ra_last a && (cl_leases c =? 0))
      (if has_any (cl_leases c) CL_APPEND then Some nl else ra_append_client a)
      (ra_write_remains a || has_any (cl_leases c) CL_WRITE)
      (ra_out a ++ out)
  end.

(** [while (no_clients)], from index [nl], round the table. *)
Fixpoint rm_loop (ino ord : Z) (gens : option (list Z)) (no_clients nl : nat) (a : rm_acc) :
    rm_acc :=
  match no_clients with
  | O => a
  | S n =>
    let a := rm_turn ino ord gens nl a in
    rm_loop ino ord gens n (if (length (ra_l a) <=? S nl)%nat then O else S nl) a
  end.

(** The first critical section of [sam_remove_lease]. *)
Definition rm_section (ord actions mask : Z) (gens : option (list Z)) (s : lst) :
    lst * rm_acc :=
  let a0 l := mkRm l mask actions false false false true None false [] in
  match ln_leases (s_ip s) with
  | None => (s, a0 [])
  | Some llp =>
    let n := length (li_lease llp) in
    let nl := if Z.of_nat n <=? li_notify llp then 0%nat else Z.to_nat (li_notify llp) in
    let notify := if Z.of_nat n <=? li_notify llp + 1 then 0 else li_notify llp + 1 in
    let a := rm_loop (ln_ino (s_ip s)) ord gens n nl (a0 (li_lease llp)) in
    (send (ra_out a) (on_ip (set_table (Some (mkLi (li_max llp) notify (ra_l a)))) s), a)
  end.

(** Up to line 2820: the loop, the owners, and the blocks behind the end of the file. The
    result has the actions of the reply and the errno. *)
Definition rm_first `{LeaseCalls} (ord actions mask : Z) (gens : option (list Z)) (s : lst) :
    lst * rm_acc * Z * Z :=
  let '(s, a) := rm_section ord actions mask gens s in
  let s := if ra_write_remains a then s
           else on_ip (fun n => set_owners (ln_size_owner n) 0 n) s in
  if ra_append a then
    match ra_append_client a with
    | None =>
      let s := on_ip (fun n => set_owners 0 (ln_write_owner n) n) s in
      let act := Z.lor (ra_act a) (SR_STALE_INDIRECT ∣∣ SR_INVAL_PAGES) in
      if ln_staging (s_ip s) then (s, a, act, 0)
      else let '(n, error) := lc_trunc_excess (s_ip s) in (on_ip (fun _ => n) s, a, act, error)
    | Some i =>
      (send [WARN_multiple_append (ln_ino (s_ip s)) ord (Z.of_nat i)] s, a, ra_act a, 0)
    end
  else (s, a, ra_act a, 0).

(** From line 2822 on: callouts to the other clients, and the expiry task when no lease is
    left. *)
Definition rm_second (env : lenv) (ord : Z) (a : rm_acc) (s : lst) : lst :=
  let s :=
    if ra_truncate a || ra_append a || ra_exclusive a then
      on_ip mark_changed
        (send (sam_callout_actions (ln_ino (s_ip s)) ord (SR_STALE_INDIRECT ∣∣ SR_INVAL_PAGES)
                 (entries s)) s)
    else s in
  if ra_last a then
    let s := on_ip (set_ip_abr false) s in
    let s := if ln_updated (s_ip s) || ln_changed (s_ip s) then on_ip mark_changed s else s in
    let '(delay, force) := if 0 <? ln_nlink (s_ip s)
                           then (SAM_EXPIRE_DELAY_SECS * e_hz env, false) else (0, true) in
    on_mp (sam_sched_expire_server_leases env delay force) s
  else s.

(** [sam_remove_lease]: the state, the actions of the reply and the errno. *)
Definition sam_remove_lease `{LeaseCalls} (env : lenv) (other : lst -> lst) (ord actions : Z)
    (mask : Z) (gens : option (list Z)) (s : lst) : lst * Z * Z :=
  let '(s, a, act, error) := rm_first ord actions mask gens s in
  (rm_second env ord a (other s), act, error).

(** ** [sam_extend_lease] *)

(** The lowest lease type of the mask; the code supports one lease in a mask. *)
Definition mask_type (mask : Z) : option LEASE_type :=
  list_find (fun t => has_any mask (lbit t) = true) all_ltypes ≫= (fun p => Some p.2).

Definition sam_extend_lease (env : lenv) (ord mask : Z) (q : lreq) (s : lst) : lst * Z :=
  match mask_type mask with
  | None => (s, ECANCELED)
  | Some t =>
    let interval := lease_interval q t in
    let sc := lease_scan ord (entries s) in
    match sc_index sc with
    | None => (s, ECANCELED)
    | Some i =>
      match entries s !! i with
      | Some c =>
        if (sc_wt sc =? 0) && has_any (cl_leases c) mask then
          let c := set_time t (e_lbolt env + lease_ticks env interval) c in
          (on_mp (sam_sched_expire_server_leases env (lease_ticks env interval) false)
             (put_entries (<[i := c]> (entries s)) s), 0)
        else (s, ECANCELED)
      | None => (s, ECANCELED)
      end
    end
  end.

(** ** [BLOCK_wakeup] of [sam_process_block_request]

    The client [ord] now does direct I/O; every other client that waits is told to try
    again. *)
Definition wakeup_entry (ord : Z) (c : client_lease) : client_lease :=
  if cl_ord c =? ord then set_directio true c else clear_wait c.

Definition BLOCK_wakeup (ord : Z) (s : lst) : lst :=
  send ((fun c => NOTIFY_lease (ln_ino (s_ip s)) (cl_ord c)) <$>
          filter (fun c => cl_ord c <> ord /\ waiting c = true)
            (entries s))
    (put_entries (wakeup_entry ord <$> entries s) s).

(** ** [sam_update_cl_attr]: the size of a file that a client reports

    [SAM_SEQUENCE_LATER(a, b)] on the unsigned number of the message and the [int] copy
    of the number of the entry. *)
Definition SAM_SEQUENCE_LATER (a b : Z) : bool := u32 (a - b) <? u32 (b - a).

Definition SR_SET_SIZE : Z := 0x40.

(** The first entry of a client. *)
Definition first_entry (ord : Z) (l : list client_lease) : option (nat * client_lease) :=
  list_find (fun c => cl_ord c = ord) l.

(** The size part of [sam_update_cl_attr]: the actions left in the message. *)
Definition cl_attr_size (ord seqno real_size actions : Z) (s : lst) : lst * Z :=
  if has_any actions SR_SET_SIZE then
    let '(s, set_size) :=
      match ln_leases (s_ip s) with
      | None => (s, true)
      | Some llp =>
        let e := first_entry ord (li_lease llp) in
        let srvr := match e with Some (_, c) => s32 (cl_attr_seqno c) | None => 0 end in
        if (srvr =? 0) || (seqno =? 0) || SAM_SEQUENCE_LATER seqno srvr then
          match e with
          | Some (i, _) => (put_entries (alter (set_attr_seqno seqno) i (li_lease llp)) s, true)
          | None => (s, true)
          end
        else (s, false)
      end in
    if set_size : bool then
      (on_ip (fun n => mark_changed (set_ip_size real_size n)) s,
       Z.land actions (~~ SR_SET_SIZE))
    else (s, actions)
  else (s, actions).
