(* ===== verification/LeaseExpire.v ===== *)
(** * Expiry of leases on the server

    The reclaim thread's part of the lease table (src/src/fs/samfs/reclaim.c): leases of
    clients that are gone or silent expire, the clients concerned are told, and a table
    without clients is freed. The state is that of a mount point: the inodes, the chain
    of those with a lease table, and the inodes released.

    [m_lease_mutex] protects the chain. It is dropped while clients are called and while
    an inode is released; [other] is what other threads do then. *)
From S2P Require Import Prelude Lease LeaseOps.

Definition LONG_MAX : Z := 2 ^ 63 - 1.
Definition SAM_CLNT_DEFER_EXPIRE_CNT : Z := 5.

(** ** [sam_compact_lease_clients] *)

Definition active (c : client_lease) : bool := negb (cl_leases c =? 0) || negb (cl_wt c =? 0).

(** The inner loop: from [j] down to [i], entries that are not active are dropped. The
    result is where it stops and the new [no_clients]. *)
Fixpoint compact_back (l : list client_lease) (i j n : nat) : nat * nat :=
  match j with
  | O => (j, n)
  | S j' =>
    if (j <=? i)%nat then (j, n)
    else match l !! j with
         | Some c => if active c then (j, n) else compact_back l i j' (n - 1)
         | None => (j, n)
         end
  end.

(** The outer loop, on the array and [no_clients]. *)
Fixpoint compact_loop (fuel : nat) (l : list client_lease) (i n : nat) :
    list client_lease * nat :=
  match fuel with
  | O => (l, n)
  | S fuel =>
    if (n <=? i)%nat then (l, n)
    else match l !! i with
         | None => (l, n)
         | Some c =>
           if active c then compact_loop fuel l (S i) n
           else
             let '(j, n) := compact_back l i (n - 1) n in
             let n := (n - 1)%nat in
             if (j =? i)%nat then (l, n)
             else match l !! j with
                  | Some d => compact_loop fuel (<[i := d]> l) (S i) n
                  | None => (l, n)
                  end
         end
  end.

Definition sam_compact_lease_clients (l : list client_lease) : list client_lease :=
  let '(l, n) := compact_loop (length l) l 0 (length l) in take n l.

(** ** [sam_process_lease_times] *)

Record pt_acc : Type := mkPt {
  pa_c : client_lease; pa_remaining : Z; pa_expired : bool; pa_valid : bool; pa_min : Z
}.

(** The body of the loop over lease types. *)
Definition lease_time_turn (env : lenv) (now : Z) (staging : bool) (no_clients : nat)
    (initial : Z) (a : pt_acc) (t : LEASE_type) : pt_acc :=
  let c := pa_c a in
  if has_any initial (lbit t) then
    let keep c := mkPt c (pa_remaining a) (pa_expired a) true (Z.min (pa_min a) (get_time t c)) in
    if has_any (lbit t) SAM_NON_EXPIRING_LEASES || staging then
      keep (set_time t (now + 30 * e_hz env) c)
    else if get_time t c <=? now then
      if (no_clients =? 1)%nat && (get_defer t c <? SAM_CLNT_DEFER_EXPIRE_CNT) then
        keep (set_defer t (get_defer t c + 1) (set_time t (now + lease_ticks env 30) c))
      else mkPt (set_defer t 0 c) (Z.land (pa_remaining a) (~~ (lbit t))) true (pa_valid a)
             (pa_min a)
    else keep c
  else a.

(** [sc_down ord]: the client's entry has [SAM_CLIENT_SC_DOWN]. The result has the locks
    cleaned. *)
Definition sam_process_lease_times (env : lenv) (sc_down : Z -> bool) (ino now : Z)
    (staging : bool) (no_clients : nat) (c : client_lease) : pt_acc * list lmsg :=
  let a := fold_left (lease_time_turn env now staging no_clients (cl_leases c)) all_ltypes
             (mkPt c (cl_leases c) false false LONG_MAX) in
  let mask := Z.land SAM_NON_EXPIRING_LEASES (~~ CL_TRUNCATE) in
  if has_any (pa_remaining a) mask && sc_down (cl_ord c) then
    (mkPt (pa_c a) (Z.land (pa_remaining a) (~~ mask)) (pa_expired a) (pa_valid a) (pa_min a),
     if has_any (pa_remaining a) CL_FRLOCK then [CLEANLOCKS ino (cl_ord c)] else [])
  else (a, []).

(** ** The clients of one inode *)

(** [sam_callout_entry_t]. *)
Record callout : Type := mkCo { co_ord : Z; co_expired : Z; co_waiting : bool }.

(** [sam_prepare_callout_table]: the callouts and the table. *)
Definition sam_prepare_callout_table (l : list client_lease) :
    list callout * list client_lease :=
  ((fun c => mkCo (cl_ord c) 0 (waiting c)) <$> l, clear_wait <$> l).

Record ex_acc : Type := mkEx {
  xa_l : list client_lease; xa_callouts : option (list callout); xa_wait : Z;
  xa_out : list lmsg
}.

(** A turn of the loop over the clients of an inode (lines 591-627). *)
Definition expire_turn (env : lenv) (sc_down : Z -> bool) (ino now : Z) (staging : bool)
    (a : ex_acc) (i : nat) : ex_acc :=
  match xa_l a !! i with
  | None => a
  | Some c =>
    let '(p, ms) := sam_process_lease_times env sc_down ino now staging (length (xa_l a)) c in
    let l := <[i := pa_c p]> (xa_l a) in
    let '(l, co) :=
      if pa_expired p then
        let '(co, l) := match xa_callouts a with
                        | Some co => (co, l)
                        | None => sam_prepare_callout_table l
                        end in
        (alter (set_leases (pa_remaining p)) i l,
         Some (alter (fun o => mkCo (co_ord o)
                        (Z.land (cl_leases c) (~~ (pa_remaining p))) (co_waiting o)) i co))
      else (l, xa_callouts a) in
    mkEx l co (if pa_valid p && (pa_min p <? xa_wait a) then pa_min p else xa_wait a)
      (xa_out a ++ ms)
  end.

Definition expire_clients (env : lenv) (sc_down : Z -> bool) (ino now : Z) (staging : bool)
    (wait : Z) (l : list client_lease) : ex_acc :=
  fold_left (expire_turn env sc_down ino now staging) (seq 0 (length l)) (mkEx l None wait []).

(** The messages of lines 657-679. *)
Definition callout_msgs (ino : Z) (co : list callout) : list lmsg :=
  co ≫= (fun o =>
    (if co_expired o =? 0 then [] else [NOTIFY_lease_expire ino (co_ord o) (co_expired o)]) ++
    (if co_waiting o then [NOTIFY_lease ino (co_ord o)] else [])).

(** ** The mount point *)

(** Inodes, mount point, inodes with [SAM_LEASE_FLAG_SERVER], inodes released. *)
Record lsrv : Type := mkSv {
  v_nodes : gmap Z lnode; v_mp : lmnt; v_busy : gset Z; v_released : list Z
}.

Definition set_node (i : Z) (n : lnode) (v : lsrv) : lsrv :=
  mkSv (<[i := n]> (v_nodes v)) (v_mp v) (v_busy v) (v_released v).
Definition set_mp (m : lmnt) (v : lsrv) : lsrv :=
  mkSv (v_nodes v) m (v_busy v) (v_released v).
Definition set_busy (b : gset Z) (v : lsrv) : lsrv :=
  mkSv (v_nodes v) (v_mp v) b (v_released v).
Definition srv_send (ms : list lmsg) (v : lsrv) : lsrv := set_mp (log_msgs ms (v_mp v)) v.

(** An operation on one inode. *)
Definition on_inode (i : Z) (f : lst -> lst) (v : lsrv) : lsrv :=
  match v_nodes v !! i with
  | None => v
  | Some n => let s := f (mkLs n (v_mp v)) in set_mp (s_mp s) (set_node i (s_ip s) v)
  end.

(** What a run of the expiry task is given: whether it expires everything (unmounting or
    failing over), whether it is failing over, and the state of the clients. *)
Record run_env : Type := mkRun { r_forced : bool; r_sc_down : Z -> bool }.

(** Lines 563-641: the clients of the inode, forced or by their times. The result has the
    callouts, the new waiting time, and whether the mutex was dropped. *)
Definition expire_table (env : lenv) (r : run_env) (other : lsrv -> lsrv) (i : Z) (wait : Z)
    (v : lsrv) : lsrv * option (list callout) * Z * bool :=
  match v_nodes v !! i with
  | None => (v, None, wait, false)
  | Some n =>
    match ln_leases n with
    | None => (v, None, wait, false)
    | Some llp =>
      if r_forced r then
        let held := existsb (fun c => negb (cl_leases c =? 0)) (li_lease llp) in
        let v := if held then
                   match v_nodes (other v) !! i with
                   | Some n => set_node i (set_noreclaim n) (other v)
                   | None => other v
                   end else v in
        (on_inode i (put_entries []) v, None, wait, held)
      else
        let a := expire_clients env (r_sc_down r) i (e_lbolt env) (ln_staging n) wait
                   (li_lease llp) in
        (on_inode i (put_entries (sam_compact_lease_clients (xa_l a)))
           (srv_send (xa_out a) v), xa_callouts a, xa_wait a, false)
    end
  end.

(** Lines 692-703: the table is unlinked and freed. *)
Definition free_table (i : Z) (v : lsrv) : lsrv :=
  match v_nodes v !! i with
  | None => v
  | Some n =>
    let n := set_hold_blocks false (set_owners 0 0 (set_table None n)) in
    let m := v_mp v in
    mkSv (<[i := n]> (v_nodes v)) (set_chain (filter (fun j => j <> i) (lm_chain m)) m)
      (v_busy v ∖ {[i]}) (v_released v ++ [i])
  end.

Definition no_clients (i : Z) (v : lsrv) : nat :=
  match v_nodes v !! i with
  | Some n => match ln_leases n with Some t => length (li_lease t) | None => 0%nat end
  | None => 0%nat
  end.

(** The body of the loop over the chain (lines 527-774) for inode [i]. *)
Definition expire_inode (env : lenv) (r : run_env) (other : lsrv -> lsrv) (i : Z) (wait : Z)
    (v : lsrv) : lsrv * Z * bool :=
  if decide (i ∈ v_busy v) then (v, wait, false)
  else
    let v := set_busy ({[i]} ∪ v_busy v) v in
    let '(v, co, wait, dropped) := expire_table env r other i wait v in
    let '(v, dropped) :=
      match co with
      | Some co => if e_failover env then (v, dropped)
                   else (other (srv_send (callout_msgs i co) v), true)
      | None => (v, dropped)
      end in
    if (no_clients i v =? 0)%nat then (other (free_table i v), wait, true)
    else (set_busy (v_busy v ∖ {[i]}) v, wait, dropped).

(** The loop over the chain; it starts again when the mutex was dropped. [None]: out of
    fuel. *)
Fixpoint expire_loop (env : lenv) (r : run_env) (other : lsrv -> lsrv) (fuel : nat)
    (todo : list Z) (wait : Z) (v : lsrv) : option (lsrv * Z) :=
  match fuel with
  | O => None
  | S fuel =>
    match todo with
    | [] => Some (v, wait)
    | i :: todo =>
      let '(v, wait, dropped) := expire_inode env r other i wait v in
      expire_loop env r other fuel (if dropped then lm_chain (v_mp v) else todo) wait v
    end
  end.

(** Lines 837-861: the next run. *)
Definition expire_reschedule (env : lenv) (wait : Z) (m : lmnt) : lmnt :=
  if wait =? LONG_MAX then mkLm (lm_chain m) (lm_out m) false (lm_next m) (lm_tasks m)
  else
    let ticks := wait - e_lbolt env in
    let ticks := if ticks <? SAM_EXPIRE_MIN_TICKS env then SAM_EXPIRE_MIN_TICKS env else ticks in
    let ticks := if ticks >? SAM_EXPIRE_MAX_TICKS env then SAM_EXPIRE_MAX_TICKS env else ticks in
    let next := ticks + e_lbolt env in
    if e_taskq_err env then mkLm (lm_chain m) (lm_out m) false next (lm_tasks m)
    else mkLm (lm_chain m) (lm_out m) true next (lm_tasks m ++ [ticks]).

Definition sam_expire_server_leases (env : lenv) (r : run_env) (other : lsrv -> lsrv)
    (fuel : nat) (v : lsrv) : option lsrv :=
  '(v, wait) ← expire_loop env r other fuel (lm_chain (v_mp v)) LONG_MAX v;
  Some (set_mp (expire_reschedule env wait (v_mp v)) v).

(** ** [sam_clear_server_leases] *)

(** The entries of one inode: the first of the client is cleared. *)
Definition clear_entries (has_locks : bool) (ino cl_ord : Z) (l : list client_lease) :
    list client_lease * list lmsg :=
  match first_entry cl_ord l with
  | None => (l, [])
  | Some (k, c) =>
    (if negb (cl_leases c =? 0) || negb (cl_wt c =? 0)
     then sam_compact_lease_clients (<[k := set_leases 0 (set_wt 0 c)]> l) else l,
     if has_locks then [CLEANLOCKS ino cl_ord] else [])
  end.

Definition sam_clear_server_leases (has_locks : bool) (cl_ord : Z) (v : lsrv) : lsrv :=
  fold_left (fun v i =>
    on_inode i (fun s =>
      let '(l, ms) := clear_entries has_locks i cl_ord (entries s) in
      send ms (put_entries l s)) v) (lm_chain (v_mp v)) v.
