(* ===== verification/LeaseTable.v ===== *)
(** * The lease table: invariant and generic lemmas

    Which leases of two clients exclude each other, the invariant [entries_ok] of a
    table, and the two ways in which operations change entries: every entry keeps a part
    of its leases, or one entry gains a lease that does not conflict with the others. *)
From S2P Require Import Prelude Lease LeaseOps.

(** ** Bits *)

Lemma has_any_false_bit (x m k : Z) :
  has_any x m = false -> Z.testbit m k = true -> Z.testbit x k = false.
Proof.
  unfold has_any. rewrite negb_false_iff, Z.eqb_eq. intros E Hm.
  pose proof (f_equal (fun z => Z.testbit z k) E) as H. cbn in H.
  rewrite Z.land_spec, Hm, Z.bits_0, andb_true_r in H. exact H.
Qed.

Definition holds (x : Z) (t : LEASE_type) : bool := Z.testbit x (Z.of_nat (ltype_ix t)).

Lemma holds_lor (x y : Z) (t : LEASE_type) : holds (Z.lor x y) t = holds x t || holds y t.
Proof. apply Z.lor_spec. Qed.

Lemma holds_land (x y : Z) (t : LEASE_type) : holds (Z.land x y) t = holds x t && holds y t.
Proof. apply Z.land_spec. Qed.

Lemma holds_lnot (x : Z) (t : LEASE_type) : holds (~~ x) t = negb (holds x t).
Proof. apply Z.lnot_spec. lia. Qed.

Lemma holds_lbit (t u : LEASE_type) : holds (lbit t) u = bool_decide (t = u).
Proof. destruct t, u; reflexivity. Qed.

Lemma holds_0 (t : LEASE_type) : holds 0 t = false.
Proof. apply Z.bits_0. Qed.

Lemma has_any_false (x m : Z) (t : LEASE_type) :
  has_any x m = false -> holds m t = true -> holds x t = false.
Proof. apply has_any_false_bit. Qed.

Lemma has_any_lbit (x : Z) (t : LEASE_type) : has_any x (lbit t) = holds x t.
Proof.
  unfold has_any, holds, lbit. rewrite Z.shiftl_1_l.
  set (k := Z.of_nat (ltype_ix t)). assert (0 <= k) by lia.
  destruct (Z.testbit x k) eqn:E.
  - apply negb_true_iff, Z.eqb_neq. intros H0.
    pose proof (f_equal (fun z => Z.testbit z k) H0) as H1. cbn in H1.
    rewrite Z.land_spec, Z.pow2_bits_true, E, Z.bits_0 in H1 by lia. discriminate.
  - apply negb_false_iff, Z.eqb_eq, Z.bits_inj'. intros n Hn.
    rewrite Z.land_spec, Z.pow2_bits_eqb, Z.bits_0 by lia.
    destruct (Z.eqb_spec k n) as [<-|]; [now rewrite E | apply andb_false_r].
Qed.

Lemma all_ltypes_in (t : LEASE_type) : t ∈ all_ltypes.
Proof. destruct t; unfold all_ltypes; repeat (left; reflexivity || right); repeat constructor. Qed.

Create HintDb lease.
Create Rewrite HintDb lease.
#[export] Hint Rewrite holds_lor holds_land holds_lnot holds_lbit holds_0 : lease.

(** Sixteen-bit words that use the ten lease bits. *)
Definition lease_word (x : Z) : Prop := 0 <= x < 1024.

Lemma lease_word_ones (x : Z) : lease_word x <-> Z.land x (Z.ones 10) = x.
Proof.
  rewrite Z.land_ones by lia. unfold lease_word. split.
  - intros. now apply Z.mod_small.
  - intros <-. now apply Z.mod_pos_bound.
Qed.

Lemma lease_word_lor (x y : Z) : lease_word x -> lease_word y -> lease_word (Z.lor x y).
Proof. rewrite !lease_word_ones, Z.land_lor_distr_l. now intros -> ->. Qed.

Lemma lease_word_land (x m : Z) : lease_word x -> lease_word (Z.land x m).
Proof.
  rewrite !lease_word_ones. intros H.
  now rewrite <- Z.land_assoc, (Z.land_comm m), Z.land_assoc, H.
Qed.

Lemma lease_word_lbit (t : LEASE_type) : lease_word (lbit t).
Proof. destruct t; vm_compute; split; congruence. Qed.

Lemma lease_word_0 : lease_word 0.
Proof. split; lia. Qed.

#[export] Hint Resolve lease_word_lor lease_word_land lease_word_lbit lease_word_0 : lease.

(** Every bit below ten is a lease. *)
Lemma ltype_of (k : nat) : (k < 10)%nat -> exists t, ltype_ix t = k.
Proof.
  intros Hk. assert (ltype_ix <$> all_ltypes = seq 0 10) as E by reflexivity.
  assert (k ∈ ltype_ix <$> all_ltypes) as (t & -> & _)%list_elem_of_fmap
    by (rewrite E; apply elem_of_seq; lia).
  now exists t.
Qed.

(** A word without any lease bit is zero. *)
Lemma lease_word_zero (x : Z) : lease_word x -> (forall t, holds x t = false) -> x = 0.
Proof.
  intros Hx H. apply Z.bits_inj'. intros n Hn. rewrite Z.bits_0.
  destruct (Z.ltb_spec n 10) as [Hlt|Hge].
  - destruct (ltype_of (Z.to_nat n) ltac:(lia)) as [t Et].
    specialize (H t). unfold holds in H. now rewrite Et, Z2Nat.id in H by exact Hn.
  - unfold lease_word in Hx. destruct (Z.eq_dec x 0) as [->|]; [apply Z.bits_0|].
    apply Z.bits_above_log2; [lia|]. enough (Z.log2 x < 10) by lia.
    apply Z.log2_lt_pow2; lia.
Qed.

Lemma alter_insert_at {A} (f : A -> A) (l : list A) (i : nat) (x : A) :
  l !! i = Some x -> alter f i l = <[i := f x]> l.
Proof.
  revert i. induction l as [|y l IH]; intros [|i] E; try discriminate; cbn in *.
  - congruence.
  - f_equal. now apply IH.
Qed.

(** ** Conflicting leases

    [mh]: the file system has multi-host writes. [rel]: truncations that release a file
    after a failed stage occur; they do not look at other leases. *)
Definition conflict_one (mh rel : bool) (t u : LEASE_type) : bool :=
  match t, u with
  | LTYPE_exclusive, (LTYPE_read | LTYPE_write | LTYPE_append | LTYPE_exclusive) => true
  | LTYPE_append, LTYPE_append => true
  | LTYPE_write, (LTYPE_read | LTYPE_write | LTYPE_append) => negb mh
  | LTYPE_append, (LTYPE_read | LTYPE_write) => negb mh
  | LTYPE_truncate, LTYPE_append => negb rel
  | LTYPE_truncate,
    (LTYPE_read | LTYPE_write | LTYPE_truncate | LTYPE_mmap | LTYPE_exclusive) =>
    negb mh && negb rel
  | _, _ => false
  end.

Definition conflicts (mh rel : bool) (t u : LEASE_type) : bool :=
  conflict_one mh rel t u || conflict_one mh rel u t.

Lemma conflicts_sym (mh rel : bool) (t u : LEASE_type) :
  conflicts mh rel t u = conflicts mh rel u t.
Proof. apply orb_comm. Qed.

Definition compatible (mh rel : bool) (a b : Z) : Prop :=
  forall t u, holds a t = true -> holds b u = true -> conflicts mh rel t u = false.

Lemma compatible_sym (mh rel : bool) (a b : Z) :
  compatible mh rel a b -> compatible mh rel b a.
Proof. intros H t u Ht Hu. rewrite conflicts_sym. now apply H. Qed.

Lemma compatible_land (mh rel : bool) (a b m n : Z) :
  compatible mh rel a b -> compatible mh rel (Z.land a m) (Z.land b n).
Proof.
  intros H t u. rewrite !holds_land. intros [Ht _]%andb_true_iff [Hu _]%andb_true_iff. now apply H.
Qed.

(** ** The invariant of the entries *)

Definition entry_shape (maxc : Z) (c : client_lease) : Prop :=
  1 <= cl_ord c <= maxc /\ lease_word (cl_leases c) /\ lease_word (cl_wt c) /\
  length (cl_time c) = SAM_MAX_LTYPE /\ length (cl_gen c) = SAM_MAX_LTYPE /\
  length (cl_defer c) = SAM_MAX_LTYPE.

Record entries_ok (mh rel : bool) (maxc : Z) (l : list client_lease) : Prop := {
  eo_nodup : NoDup (cl_ord <$> l);
  eo_shape : Forall (entry_shape maxc) l;
  eo_compat a b : a ∈ l -> b ∈ l -> cl_ord a <> cl_ord b ->
    compatible mh rel (cl_leases a) (cl_leases b)
}.

Section Entries.
Context (mh rel : bool) (maxc : Z).
#[local] Abbreviation ok := (entries_ok mh rel maxc).
#[local] Abbreviation shape := (entry_shape maxc).

Lemma entries_ok_nil : ok [].
Proof. split; [constructor | constructor |]. intros a b Ha. inversion Ha. Qed.

Lemma entries_ok_perm (l l' : list client_lease) : l ≡ₚ l' -> ok l -> ok l'.
Proof.
  intros E [H1 H2 H3]. split.
  - now rewrite <- E.
  - now rewrite <- E.
  - intros a b. rewrite <- !E. apply H3.
Qed.

Lemma entries_ok_filter (P : client_lease -> Prop) `{!forall c, Decision (P c)}
    (l : list client_lease) : ok l -> ok (filter P l).
Proof.
  intros [H1 H2 H3]. split.
  - eapply sublist_NoDup; [exact H1 | apply fmap_sublist, sublist_filter].
  - apply Forall_forall. intros c [_ Hc]%list_elem_of_filter.
    rewrite Forall_forall in H2. now apply H2.
  - intros a b [_ Ha]%list_elem_of_filter [_ Hb]%list_elem_of_filter. now apply H3.
Qed.

(** Entry [c'] is [c] with a part of its leases. *)
Definition shrinks (c c' : client_lease) : Prop :=
  cl_ord c' = cl_ord c /\ (exists m, cl_leases c' = Z.land (cl_leases c) m) /\
  (shape c -> shape c').

Lemma shrinks_refl (c : client_lease) : shrinks c c.
Proof. split; [reflexivity|]. split; [exists (-1); now rewrite Z.land_m1_r | trivial]. Qed.

Lemma shrinks_trans (a b c : client_lease) : shrinks a b -> shrinks b c -> shrinks a c.
Proof.
  intros (O1 & (m & E1) & S1) (O2 & (n & E2) & S2). split; [congruence|].
  split; [exists (Z.land m n); now rewrite E2, E1, Z.land_assoc | auto].
Qed.

Lemma entries_ok_shrink (l l' : list client_lease) : Forall2 shrinks l l' -> ok l -> ok l'.
Proof.
  intros HF [H1 H2 H3].
  assert (cl_ord <$> l' = cl_ord <$> l) as Eo.
  { clear -HF. induction HF as [|c c' l l' (E & _) _ IH]; [reflexivity|]. cbn. now rewrite E, IH. }
  split.
  - now rewrite Eo.
  - clear -HF H2. induction HF as [|c c' l l' (_ & _ & S) _ IH]; [constructor|].
    inversion_clear H2. constructor; auto.
  - intros a b Ha Hb Hne.
    destruct (list_elem_of_lookup_1 _ _ Ha) as [i Hi].
    destruct (list_elem_of_lookup_1 _ _ Hb) as [j Hj].
    destruct (Forall2_lookup_r _ _ _ _ _ HF Hi) as (a0 & Hi0 & Oa & (m & Ea) & _).
    destruct (Forall2_lookup_r _ _ _ _ _ HF Hj) as (b0 & Hj0 & Ob & (n & Eb) & _).
    rewrite Ea, Eb. apply compatible_land, H3; [| | congruence]; eapply list_elem_of_lookup_2; eauto.
Qed.

Lemma Forall2_shrinks_refl (l : list client_lease) : Forall2 shrinks l l.
Proof. apply Forall2_same_length_lookup_2; [reflexivity|]. intros i x y Hx Hy. simplify_eq. apply shrinks_refl. Qed.

Lemma shrinks_insert (l : list client_lease) (i : nat) (c c' : client_lease) :
  l !! i = Some c -> shrinks c c' -> Forall2 shrinks l (<[i := c']> l).
Proof.
  intros Hi Hs. rewrite <- (list_insert_id l i c Hi) at 1.
  apply Forall2_insert; [apply Forall2_shrinks_refl | exact Hs].
Qed.

Lemma shrinks_alter (l : list client_lease) (i : nat) (f : client_lease -> client_lease) :
  (forall c, shrinks c (f c)) -> Forall2 shrinks l (alter f i l).
Proof.
  intros Hf. revert i. induction l as [|c l IH]; intros [|i]; constructor; auto using shrinks_refl.
  apply Forall2_shrinks_refl.
Qed.

Lemma shrinks_fmap (l : list client_lease) (f : client_lease -> client_lease) :
  (forall c, shrinks c (f c)) -> Forall2 shrinks l (f <$> l).
Proof. intros Hf. induction l; constructor; auto. Qed.

(** One entry gains leases that conflict with none of the other clients. *)
Lemma entries_ok_grant (l : list client_lease) (i : nat) (c c' : client_lease) :
  ok l -> l !! i = Some c -> cl_ord c' = cl_ord c -> shape c' ->
  (forall t, holds (cl_leases c') t = true -> holds (cl_leases c) t = true \/
     forall b u, b ∈ l -> cl_ord b <> cl_ord c -> holds (cl_leases b) u = true ->
       conflicts mh rel t u = false) ->
  ok (<[i := c']> l).
Proof.
  intros [H1 H2 H3] Hi Eo Hsh Hg.
  assert (i < length l)%nat as Hlt by (eapply lookup_lt_Some; eauto).
  assert (c ∈ l) as Hcl by (eapply list_elem_of_lookup_2; eauto).
  assert (forall b, b ∈ l -> cl_ord b <> cl_ord c ->
    compatible mh rel (cl_leases c') (cl_leases b)) as Hcb.
  { intros b Hb Hne t u Ht Hu. destruct (Hg t Ht) as [Hc|Hc]; [|eauto].
    exact (H3 c b Hcl Hb (not_eq_sym Hne) t u Hc Hu). }
  assert (forall b, b ∈ <[i := c']> l -> b = c' \/ (b ∈ l /\ True)) as Hin.
  { intros b Hb. apply list_elem_of_lookup_1 in Hb as [j Hj].
    destruct (decide (i = j)) as [<-|Hij].
    - rewrite list_lookup_insert_eq in Hj by lia. left. congruence.
    - rewrite list_lookup_insert_ne in Hj by congruence. right. split; [|trivial].
      eapply list_elem_of_lookup_2; eauto. }
  split.
  - rewrite list_fmap_insert, Eo. rewrite list_insert_id; [exact H1|].
    rewrite list_lookup_fmap, Hi. reflexivity.
  - now apply Forall_insert.
  - intros a b Ha Hb Hne.
    destruct (Hin a Ha) as [->|[Ha' _]], (Hin b Hb) as [->|[Hb' _]];
      [congruence | | | now apply H3].
    + apply Hcb; [assumption | congruence].
    + apply compatible_sym, Hcb; [assumption | congruence].
Qed.

(** A new client. *)
Lemma entries_ok_new (l : list client_lease) (ord : Z) :
  ok l -> 1 <= ord <= maxc -> ord ∉ (cl_ord <$> l) -> ok (l ++ [zero_entry ord]).
Proof.
  intros [H1 H2 H3] Hord Hnew.
  assert (forall c, compatible mh rel 0 c) as H0.
  { intros c t u Ht. rewrite holds_0 in Ht. discriminate. }
  split.
  - rewrite fmap_app. apply NoDup_app. split; [exact H1|]. split; [|apply NoDup_singleton].
    intros x Hx ->%list_elem_of_singleton. auto.
  - apply Forall_app. split; [exact H2|]. constructor; [|constructor].
    repeat split; cbn; try lia.
  - intros a b. rewrite !elem_of_app, !list_elem_of_singleton.
    intros [Ha| ->] [Hb| ->] Hne; [now apply H3 | | apply H0 | congruence].
    apply compatible_sym, H0.
Qed.

(** Client ordinals are distinct and between 1 and [maxc]: there are at most [maxc]. *)
Lemma entries_bound (l : list client_lease) : 0 <= maxc -> ok l -> Z.of_nat (length l) <= maxc.
Proof.
  intros Hm [H1 H2 _].
  assert ((Z.to_nat <$> (cl_ord <$> l)) ⊆ seq 1 (Z.to_nat maxc)) as Hsub.
  { intros x (z & -> & (c & -> & Hc)%list_elem_of_fmap)%list_elem_of_fmap.
    rewrite Forall_forall in H2. destruct (H2 c Hc) as ((? & ?) & _). apply elem_of_seq. lia. }
  assert (NoDup (Z.to_nat <$> (cl_ord <$> l))) as Hnd.
  { clear Hsub. induction l as [|c l IH]; [constructor|]. cbn in *.
    inversion_clear H1. inversion H2 as [|? ? ((? & ?) & _) H2']; subst. constructor; [|now apply IH].
    intros (z & E & Hz)%list_elem_of_fmap. apply H. replace (cl_ord c) with z; [exact Hz|].
    apply list_elem_of_fmap in Hz as (d & -> & Hd). rewrite Forall_forall in H2'.
    destruct (H2' d Hd) as ((? & ?) & _). lia. }
  pose proof (NoDup_submseteq _ _ Hnd Hsub) as Hle%submseteq_length.
  rewrite !length_fmap, length_seq in Hle. lia.
Qed.
End Entries.
