(* ===== verification/LeaseGrant.v ===== *)
(** * Granting leases keeps the table consistent

    The loops over the table, the decision of [sam_add_ino_lease] and the invariant
    [lease_ok] of an inode and its mount point under the operations that grant. *)
From S2P Require Import Prelude Lease LeaseOps LeaseTable.

(** ** The scan of the table *)

Lemma scan_from_spec (ord : Z) (l : list client_lease) (a : lscan) (i : nat) :
  let r := scan_from ord a i l in
  (forall t, holds (sc_other r) t = true <->
     holds (sc_other a) t = true \/
     exists b, b ∈ l /\ cl_ord b <> ord /\ holds (cl_leases b) t = true) /\
  (sc_wt r = 0 <-> sc_wt a = 0 /\ forall b, b ∈ l -> cl_ord b <> ord -> cl_wt b = 0) /\
  match sc_index r with
  | Some k => (sc_index a = Some k /\ ord ∉ (cl_ord <$> l)) \/
              exists c, (i <= k)%nat /\ l !! (k - i)%nat = Some c /\ cl_ord c = ord
  | None => sc_index a = None /\ ord ∉ (cl_ord <$> l)
  end.
Proof.
  revert a i. induction l as [|c l IH]; intros a i; cbn [scan_from].
  - split; [|split]; [| |destruct (sc_index a); [left|]; (split; [reflexivity | apply not_elem_of_nil])].
    + intros t. split; [auto | intros [H|(b & Hb & _)]; [exact H | inversion Hb]].
    + split; [|tauto]. intros ->. split; [reflexivity|]. intros b Hb. inversion Hb.
  - destruct (IH (scan_entry ord a i c) (S i)) as (H1 & H2 & H3). clear IH.
    unfold scan_entry in H1, H2, H3 |- *. destruct (Z.eqb_spec (cl_ord c) ord) as [E|E];
      cbn [sc_other sc_wt sc_index] in *.
    + split; [|split].
      * intros t. rewrite H1. setoid_rewrite elem_of_cons. naive_solver congruence.
      * rewrite H2. setoid_rewrite elem_of_cons. naive_solver congruence.
      * destruct (sc_index _) as [k|] eqn:Ek; [|destruct H3; discriminate].
        right. destruct H3 as [[[= <-] Hn]|(d & Hle & Hd & Eo)].
        -- exists c. rewrite Nat.sub_diag. auto.
        -- exists d. split; [lia|]. replace (k - i)%nat with (S (k - S i)) by lia. auto.
    + split; [|split].
      * intros t. rewrite H1, holds_lor, orb_true_iff. setoid_rewrite elem_of_cons.
        naive_solver.
      * rewrite H2, Z.lor_eq_0_iff. setoid_rewrite elem_of_cons. naive_solver.
      * assert (ord ∉ (cl_ord <$> l) -> ord ∉ (cl_ord <$> c :: l)) as Hcons.
        { intros Hn [?|?]%elem_of_cons; [congruence | contradiction]. }
        destruct (sc_index (scan_from _ _ _ _)) as [k|] eqn:Ek; [|destruct H3; auto].
        destruct H3 as [[Ha Hn]|(d & Hle & Hd & Eo)]; [left; auto|].
        right. exists d. split; [lia|]. replace (k - i)%nat with (S (k - S i)) by lia. auto.
Qed.

(** The leases of the other clients. *)
Definition covers (ord other : Z) (l : list client_lease) : Prop :=
  forall t, holds other t = true <->
    exists b, b ∈ l /\ cl_ord b <> ord /\ holds (cl_leases b) t = true.

Lemma scan_covers (ord : Z) (l : list client_lease) : covers ord (sc_other (lease_scan ord l)) l.
Proof.
  intros t. destruct (scan_from_spec ord l (mkScan None 0 0 0) 0) as (H & _). unfold lease_scan.
  rewrite H. cbn. rewrite holds_0. naive_solver.
Qed.

Lemma scan_wt (ord : Z) (l : list client_lease) :
  sc_wt (lease_scan ord l) = 0 <-> forall b, b ∈ l -> cl_ord b <> ord -> cl_wt b = 0.
Proof.
  destruct (scan_from_spec ord l (mkScan None 0 0 0) 0) as (_ & H & _). unfold lease_scan.
  rewrite H. cbn. naive_solver.
Qed.

Lemma scan_found (ord : Z) (l : list client_lease) (i : nat) :
  sc_index (lease_scan ord l) = Some i -> exists c, l !! i = Some c /\ cl_ord c = ord.
Proof.
  destruct (scan_from_spec ord l (mkScan None 0 0 0) 0) as (_ & _ & H). fold (lease_scan ord l) in H.
  intros E. rewrite E in H. destruct H as [[? _]|(c & _ & Hc & Eo)]; [discriminate|].
  rewrite Nat.sub_0_r in Hc. eauto.
Qed.

Lemma scan_none (ord : Z) (l : list client_lease) :
  sc_index (lease_scan ord l) = None <-> ord ∉ (cl_ord <$> l).
Proof.
  destruct (scan_from_spec ord l (mkScan None 0 0 0) 0) as (_ & _ & H). fold (lease_scan ord l) in H.
  split; intros E.
  - rewrite E in H. apply H.
  - destruct (sc_index _) as [k|]; [|reflexivity]. exfalso.
    destruct H as [[? _]|(c & _ & Hc & Eo)]; [discriminate|]. apply E.
    apply list_elem_of_fmap. exists c. split; [auto|]. eapply list_elem_of_lookup_2; eauto.
Qed.

(** What an entry is for its owner's rivals: its client and its leases. *)
Definition rival (c : client_lease) : Z * Z := (cl_ord c, cl_leases c).

Lemma covers_ext (ord other : Z) (l l' : list client_lease) :
  rival <$> l' = rival <$> l -> covers ord other l -> covers ord other l'.
Proof.
  intros E H t. etransitivity; [exact (H t)|]. clear H.
  assert (forall l l' : list client_lease, rival <$> l' = rival <$> l ->
    forall b, b ∈ l -> exists b', b' ∈ l' /\ rival b' = rival b) as Hin.
  { clear. intros l l' E b Hb. apply (list_elem_of_fmap_2 rival) in Hb as Hb'. rewrite <- E in Hb'.
    apply list_elem_of_fmap in Hb' as (b' & Eb & Hb'). eauto. }
  split; intros (b & Hb & Hne & Hh).
  - destruct (Hin l l' E b Hb) as (b' & Hb' & [= Eo El]). exists b'. now rewrite Eo, El.
  - destruct (Hin l' l (eq_sym E) b Hb) as (b' & Hb' & [= Eo El]). exists b'. now rewrite Eo, El.
Qed.

(** ** The decision is sound *)

(** The leases that a grant of type [t] may bring with it, when it is not reset. *)
Definition brings (is_get : bool) (q : lreq) (t : LEASE_type) : list LEASE_type :=
  if negb is_get then [] else
  match t with
  | LTYPE_append => [LTYPE_write]
  | LTYPE_mmap => [if has_any (q_filemode q) FREAD then LTYPE_read else LTYPE_write]
  | _ => []
  end.

(** A mapping that is asked for is readable or writable; without [rel], truncations do not
    release. Nothing is required of other requests. *)
Definition req_ok (rel is_get : bool) (q : lreq) (t : LEASE_type) : Prop :=
  (is_get = true -> t = LTYPE_mmap -> has_any (q_filemode q) (FREAD ∣∣ FWRITE) = true) /\
  (rel = false -> t = LTYPE_truncate -> q_lflag q <> SAM_RELEASE).

Ltac rival_absurd :=
  exfalso;
  match goal with
  | H : has_any ?x _ = false, Hv : holds ?x ?v = true |- _ =>
    pose proof (has_any_false _ _ v H eq_refl); congruence
  end.

Lemma verdict_sound (rel is_get : bool) (env : lenv) (q : lreq) (size : Z) (t u v : LEASE_type)
    (own other mmap : Z) :
  req_ok rel is_get q t ->
  match lease_verdict env q size t own other mmap with VWait _ => False | _ => True end ->
  u ∈ t :: brings is_get q t -> holds other v = true ->
  conflicts (e_mh_write env) rel u v = false.
Proof.
  intros [Hm Hr] Hv Hu Ho. unfold lease_verdict in Hv. rewrite !has_any_lor in Hm.
  destruct (e_mh_write env) eqn:Emh, rel, is_get, t; cbn [negb andb brings] in *;
    repeat match goal with
    | H : context [if ?b then _ else _] |- _ => destruct b eqn:?
    | H : _ ∈ _ :: _ |- _ => apply elem_of_cons in H as [->|H]
    | H : _ ∈ [] |- _ => now apply not_elem_of_nil in H
    | H : (_ || _) = false |- _ => apply orb_false_iff in H as [? ?]
    | H : (_ && _) = false |- _ => apply andb_false_iff in H as [?|?]
    | H : negb _ = true |- _ => apply negb_true_iff in H
    | H : negb (_ =? _) = false |- _ => apply negb_false_iff, Z.eqb_eq in H
    end; try contradiction;
    try (specialize (Hm eq_refl eq_refl); cbn in Hm; congruence);
    try (specialize (Hr eq_refl eq_refl); congruence);
    destruct v; try reflexivity; try rival_absurd.
Qed.
