(* ===== verification/LeaseInv.v ===== *)
(** * The invariant of an inode's leases under every operation that grants

    [lease_ok] is the invariant of an inode and its mount point; [good s s'] says that a
    step from [s] to [s'] keeps it and concerns this inode only. *)
From S2P Require Import Prelude Lease LeaseOps LeaseTable LeaseGrant.

Record table_ok (mh rel : bool) (maxc : Z) (t : lease_ino) : Prop := {
  to_entries : entries_ok mh rel maxc (li_lease t);
  to_size : Z.of_nat (length (li_lease t)) <= li_max t <= maxc;
  to_max : 1 <= li_max t;
  to_notify : 0 <= li_notify t
}.

(** The table is consistent, and the inode is on the chain exactly when it has one. *)
Record lease_ok (mh rel : bool) (maxc : Z) (s : lst) : Prop := {
  lo_table t : ln_leases (s_ip s) = Some t -> table_ok mh rel maxc t;
  lo_nodup : NoDup (lm_chain (s_mp s));
  lo_linked : is_Some (ln_leases (s_ip s)) <-> ln_ino (s_ip s) ∈ lm_chain (s_mp s)
}.

(** Same inode, and the other inodes of the chain are untouched. *)
Definition lframe (s s' : lst) : Prop :=
  ln_ino (s_ip s') = ln_ino (s_ip s) /\
  forall j, j <> ln_ino (s_ip s) -> j ∈ lm_chain (s_mp s') <-> j ∈ lm_chain (s_mp s).

Section Good.
Context (mh rel : bool) (maxc : Z).
#[local] Abbreviation ok := (lease_ok mh rel maxc).
#[local] Abbreviation eok := (entries_ok mh rel maxc).

Definition good (s s' : lst) : Prop := ok s -> ok s' /\ lframe s s'.

#[export] Instance good_refl : Reflexive good.
Proof. intros s H. split; [exact H|]. split; [reflexivity | auto]. Qed.

#[export] Instance good_trans : Transitive good.
Proof.
  intros a b c Hab Hbc Ha. destruct (Hab Ha) as [Hb [I1 F1]].
  destruct (Hbc Hb) as [Hc [I2 F2]]. split; [exact Hc|]. split; [congruence|].
  intros j Hj. rewrite F2 by congruence. now apply F1.
Qed.

Lemma good_mp (f : lmnt -> lmnt) (s : lst) :
  (forall m, lm_chain (f m) = lm_chain m) -> good s (on_mp f s).
Proof.
  intros Hf [H1 H2 H3]. split; [|split; [reflexivity|]]; cbn.
  - split; cbn; [exact H1 | now rewrite Hf | now rewrite Hf].
  - intros j _. now rewrite Hf.
Qed.

Lemma good_ip (f : lnode -> lnode) (s : lst) :
  ln_leases (f (s_ip s)) = ln_leases (s_ip s) -> ln_ino (f (s_ip s)) = ln_ino (s_ip s) ->
  good s (on_ip f s).
Proof.
  intros Hl Hi [H1 H2 H3]. split; [|split; [exact Hi | reflexivity]].
  split; cbn; rewrite ?Hl, ?Hi; assumption.
Qed.

Lemma good_send (ms : list lmsg) (s : lst) : good s (send ms s).
Proof. now apply good_mp. Qed.

Lemma good_sched (env : lenv) (ticks : Z) (force : bool) (s : lst) :
  good s (on_mp (sam_sched_expire_server_leases env ticks force) s).
Proof.
  apply good_mp. intros m. unfold sam_sched_expire_server_leases.
  repeat case_match; reflexivity.
Qed.

(** A new table for an inode that has one. *)
Lemma good_table (t t' : lease_ino) (s : lst) :
  ln_leases (s_ip s) = Some t -> (table_ok mh rel maxc t -> table_ok mh rel maxc t') ->
  good s (on_ip (set_table (Some t')) s).
Proof.
  intros Et Ht [H1 H2 H3]. split; [|split; reflexivity]. split; cbn.
  - intros ? [= <-]. auto.
  - exact H2.
  - rewrite <- H3, Et. split; intros; eexists; eauto.
Qed.

Lemma put_entries_Some (t : lease_ino) (l : list client_lease) (s : lst) :
  ln_leases (s_ip s) = Some t ->
  put_entries l s = on_ip (set_table (Some (set_entries l t))) s.
Proof. intros E. unfold put_entries, on_ip. now rewrite E. Qed.

Lemma put_entries_None (l : list client_lease) (s : lst) :
  ln_leases (s_ip s) = None -> put_entries l s = s.
Proof.
  intros E. unfold put_entries, on_ip. destruct s as [n m]. cbn in *. rewrite E. cbn.
  destruct n; cbn in *; now subst.
Qed.

Lemma entries_Some (t : lease_ino) (s : lst) :
  ln_leases (s_ip s) = Some t -> entries s = li_lease t.
Proof. intros E. unfold entries. now rewrite E. Qed.

(** The table of an inode with leases, at its place. *)
Lemma entries_lookup_Some (s : lst) (i : nat) (c : client_lease) :
  entries s !! i = Some c -> exists t, ln_leases (s_ip s) = Some t /\ li_lease t = entries s.
Proof.
  unfold entries. destruct (ln_leases (s_ip s)) as [t|]; [eauto|]. discriminate.
Qed.

Lemma entries_put (l : list client_lease) (s : lst) :
  is_Some (ln_leases (s_ip s)) -> entries (put_entries l s) = l.
Proof. intros [t E]. rewrite (put_entries_Some t) by exact E. reflexivity. Qed.

Lemma lease_ok_entries (s : lst) : ok s -> eok (entries s).
Proof.
  intros [H1 _ _]. unfold entries. destruct (ln_leases (s_ip s)) as [t|] eqn:E.
  - now apply H1.
  - apply entries_ok_nil.
Qed.

Lemma good_put (l : list client_lease) (s : lst) :
  (eok (entries s) -> eok l) -> (length l <= length (entries s))%nat ->
  good s (put_entries l s).
Proof.
  intros Hl Hlen. destruct (ln_leases (s_ip s)) as [t|] eqn:E.
  - rewrite (entries_Some t s E) in Hl, Hlen. rewrite (put_entries_Some t) by exact E.
    apply (good_table t); [exact E|]. intros [T1 T2 T3 T4].
    split; cbn; [auto | lia | lia | lia].
  - rewrite put_entries_None by exact E. reflexivity.
Qed.

Lemma good_shrink (l : list client_lease) (s : lst) :
  Forall2 (shrinks maxc) (entries s) l -> good s (put_entries l s).
Proof.
  intros HF. apply good_put; [now apply entries_ok_shrink|].
  apply Forall2_length in HF. lia.
Qed.
End Good.

#[export] Hint Resolve good_refl good_send good_sched : lease.

(** ** Entries whose owner and leases do not change *)

Section Same.
Context (maxc : Z).
#[local] Abbreviation shr := (shrinks maxc).

Lemma shrinks_same (c c' : client_lease) :
  rival c' = rival c -> cl_wt c' = cl_wt c -> cl_time c' = cl_time c ->
  cl_gen c' = cl_gen c -> cl_defer c' = cl_defer c -> shr c c'.
Proof.
  intros [= E1 E2] E3 E4 E5 E6. split; [exact E1|]. split.
  - exists (-1). now rewrite Z.land_m1_r.
  - unfold entry_shape. now rewrite E1, E2, E3, E4, E5, E6.
Qed.

Lemma reuse_shrinks (ord : Z) (c : client_lease) : shr c (reuse_entry ord c).
Proof.
  unfold reuse_entry. destruct (Z.eqb_spec (cl_ord c) ord) as [E|]; [|apply shrinks_refl].
  destruct (Z.eqb_spec (cl_leases c) 0) as [E0|]; [|apply shrinks_refl].
  destruct (_ =? _); [|apply shrinks_refl]. cbn. split; [now rewrite E|]. split.
  - exists 0. now rewrite E0.
  - intros (H & _). repeat split; cbn; rewrite ?E in H; lia.
Qed.

Lemma reuse_rival (ord : Z) (c : client_lease) : rival (reuse_entry ord c) = rival c.
Proof.
  unfold reuse_entry. destruct (Z.eqb_spec (cl_ord c) ord) as [E|]; [|reflexivity].
  destruct (Z.eqb_spec (cl_leases c) 0) as [E0|]; [|reflexivity].
  destruct (_ =? _); [|reflexivity]. unfold rival. cbn. now rewrite E, E0.
Qed.

Lemma callout_directio_rival (ino ord : Z) (l : list client_lease) :
  rival <$> (sam_callout_directio ino ord l).1.1 = rival <$> l /\
  Forall2 shr l (sam_callout_directio ino ord l).1.1.
Proof.
  induction l as [|c l [IH1 IH2]]; [split; constructor|]. cbn.
  destruct (sam_callout_directio ino ord l) as [[l' ms] w]. cbn in *.
  destruct (cl_directio c); [|destruct (_ && _)]; cbn; rewrite IH1;
    (split; [reflexivity | constructor; [|exact IH2]]);
    [now apply shrinks_same | now apply shrinks_same | apply shrinks_refl].
Qed.

Lemma add_flags_spec (ip : lnode) (t : LEASE_type) (q : lreq) (c : client_lease) :
  let '(c', q') := add_flags ip t q c in
  rival c' = rival c /\ shr c c' /\ q_filemode q' = q_filemode q /\
  q_lflag q' = q_lflag q.
Proof.
  unfold add_flags. destruct (has_any (lbit t) _), (_ && _); cbn;
    (repeat split; try reflexivity); try (exists (-1); now rewrite Z.land_m1_r); auto;
    try (intros (H1 & H2 & H3 & H4 & H5 & H6); assumption || lia); apply H.
Qed.
End Same.

(** ** [sam_add_ino_lease] and [sam_new_ino_lease] *)

Section Add.
Context (mh rel : bool) (maxc : Z) (is_get : bool).
#[local] Abbreviation ok := (lease_ok mh rel maxc).
#[local] Abbreviation eok := (entries_ok mh rel maxc).
#[local] Abbreviation tok := (table_ok mh rel maxc).
#[local] Abbreviation gd := (good mh rel maxc).

(** Entry [i] belongs to client [ord], and [others] are the leases of the rest. *)
Definition at_entry (ord : Z) (i : nat) (others : Z) (s : lst) : Prop :=
  (exists c, entries s !! i = Some c /\ cl_ord c = ord) /\ covers ord others (entries s).

Lemma put_table_ok (l : list client_lease) (t : lease_ino) :
  eok l -> Z.of_nat (length l) <= li_max t <= maxc -> tok t -> tok (set_entries l t).
Proof. intros Hl Hn [_ _ H3 H4]. now split. Qed.

(** Room for a new entry: the table has it, or is enlarged. *)
Lemma grow_ok (env : lenv) (t : lease_ino) (ord : Z) :
  e_max_clients env = maxc -> 1 <= ord <= maxc -> ord ∉ (cl_ord <$> li_lease t) ->
  tok t -> tok (mkLi (grow_clients env (li_max t)) (li_notify t)
                 (li_lease t ++ [zero_entry ord])).
Proof.
  intros Em Ho Hn [H1 H2 H3 H4]. pose proof (entries_ok_new _ _ _ _ ord H1 Ho Hn) as Hok.
  pose proof (entries_bound mh rel maxc _ ltac:(lia) Hok) as Hb.
  unfold grow_clients, sam_client_lease_increment. rewrite Em.
  split; cbn; [exact Hok | | | exact H4]; revert Hb; rewrite length_app; cbn; intros Hb;
    destruct (Z.gtb_spec (li_max t + 1) maxc); lia.
Qed.

Lemma covers_new (ord others : Z) (l : list client_lease) :
  covers ord others l -> covers ord others (l ++ [zero_entry ord]).
Proof.
  intros H t. rewrite (H t). setoid_rewrite elem_of_app. setoid_rewrite list_elem_of_singleton.
  split; [intros (b & Hb & Hr); eauto | intros (b & [Hb| ->] & Hne & Hr); [eauto|]].
  cbn in Hne. congruence.
Qed.

Lemma add_relocate_spec (env : lenv) (ord : Z) (s : lst) :
  e_max_clients env = maxc -> 1 <= ord <= maxc ->
  match add_relocate env ord s with
  | Found s' i others _ => gd s s' /\ at_entry ord i others s'
  | NoTable s' => gd s s' /\ ln_leases (s_ip s') = None
  end.
Proof.
  intros Em Ho. unfold add_relocate.
  destruct (ln_leases (s_ip s)) as [t|] eqn:Et; [|split; [reflexivity | exact Et]].
  destruct (sc_index (lease_scan ord (li_lease t))) as [i|] eqn:Ei.
  { split; [reflexivity|]. unfold at_entry. rewrite (entries_Some t s Et).
    split; [now apply scan_found | apply scan_covers]. }
  apply scan_none in Ei. split; [|split].
  - apply (good_table _ _ _ t); [exact Et|]. now apply grow_ok.
  - exists (zero_entry ord). cbn. rewrite list_lookup_middle by reflexivity. auto.
  - cbn. apply scan_covers.
Qed.

Lemma add_locate_spec (env : lenv) (held : bool) (other : lst -> lst) (ord : Z) (s : lst) :
  e_max_clients env = maxc -> 1 <= ord <= maxc -> gd s (other s) ->
  match add_locate env held other ord s with
  | Found s' i others _ => gd s s' /\ at_entry ord i others s'
  | NoTable s' => gd s s' /\ ln_leases (s_ip s') = None
  end.
Proof.
  intros Em Ho Hother. unfold add_locate.
  destruct (ln_leases (s_ip s)) as [t|] eqn:Et; [|split; [reflexivity | exact Et]].
  assert (is_Some (ln_leases (s_ip s))) as HS by (exists t; exact Et).
  set (l := reuse_entry ord <$> li_lease t).
  assert (Forall2 (shrinks maxc) (entries s) l) as HF.
  { rewrite (entries_Some t s Et). apply shrinks_fmap, reuse_shrinks. }
  destruct (sc_index (lease_scan ord l)) as [i|] eqn:Ei.
  { split; [now apply good_shrink|]. unfold at_entry. rewrite (entries_put l s HS).
    split; [now apply scan_found | apply scan_covers]. }
  apply scan_none in Ei. destruct (Z.ltb_spec (Z.of_nat (length l)) (li_max t)) as [Hlt|Hge].
  { split; [|split].
    - rewrite (put_entries_Some t) by exact Et. apply (good_table _ _ _ t); [exact Et|].
      intros Ht. apply put_table_ok; [| |exact Ht].
      + apply entries_ok_new; [|exact Ho|exact Ei]. rewrite (entries_Some t s Et) in HF.
        eapply entries_ok_shrink; [exact HF | apply Ht].
      + rewrite length_app. cbn. destruct Ht. lia.
    - rewrite entries_put by exact HS. exists (zero_entry ord).
      rewrite list_lookup_middle by reflexivity. auto.
    - rewrite entries_put by exact HS. apply covers_new, scan_covers. }
  set (s1 := if held then s else other s).
  assert (gd s s1) as G1 by (unfold s1; destruct held; [reflexivity | exact Hother]).
  pose proof (add_relocate_spec env ord s1 Em Ho) as Hr.
  destruct (add_relocate env ord s1) as [s2 i others mmap|s2]; destruct Hr as [G2 H2];
    (split; [now transitivity s1 | exact H2]).
Qed.

Lemma new_held_spec (env : lenv) (ord : Z) (t : LEASE_type) (interval : Z) (q : lreq)
    (s : lst) :
  1 <= ord <= maxc -> ln_leases (s_ip s) = None ->
  let s' := new_ino_lease_held env ord t interval q s in
  gd s s' /\ exists c, entries s' = [c] /\ cl_ord c = ord /\ holds (cl_leases c) t = true.
Proof.
  intros Ho Et s'. unfold s', new_ino_lease_held. set (e := set_time _ _ _).
  assert (rival e = (ord, lbit t) /\ entry_shape maxc e) as [[= Eo El] Hsh].
  { unfold e. destruct (has_any _ _); cbn; (split; [reflexivity|]);
      unfold entry_shape; cbn; rewrite ?length_insert; auto 10 using lease_word_lbit, lease_word_0. }
  split; [|exists e; cbn; rewrite El, holds_lbit, bool_decide_true by reflexivity; auto].
  intros [H1 H2 H3].
  assert (ln_ino (s_ip s) ∉ lm_chain (s_mp s)) as Hnot.
  { intros Hin. apply H3 in Hin as [? ?]. congruence. }
  split; [|split; [reflexivity|]]; cbn.
  - split; cbn.
    + intros ? [= <-]. split; cbn; [|lia|lia|lia]. split; cbn.
      * apply NoDup_singleton.
      * now constructor.
      * intros a b ->%list_elem_of_singleton ->%list_elem_of_singleton. congruence.
    + apply NoDup_app. split; [exact H2|]. split; [|apply NoDup_singleton].
      intros x Hx ->%list_elem_of_singleton. auto.
    + split; [|eauto]. intros _. apply elem_of_app. right. now apply list_elem_of_singleton.
  - intros j Hj. rewrite elem_of_app, list_elem_of_singleton. tauto.
Qed.

Lemma at_entry_put (ord : Z) (i : nat) (others : Z) (l : list client_lease) (s : lst) :
  rival <$> l = rival <$> entries s -> at_entry ord i others s ->
  at_entry ord i others (put_entries l s).
Proof.
  intros E [(c & Hc & Eo) Hcov].
  destruct (entries_lookup_Some s i c Hc) as (t & Et & _).
  unfold at_entry. rewrite entries_put by (exists t; exact Et).
  split; [|eapply covers_ext; eauto].
  assert ((rival <$> l) !! i = Some (rival c)) as Hi by now rewrite E, list_lookup_fmap, Hc.
  rewrite list_lookup_fmap in Hi. destruct (l !! i) as [c'|]; [|discriminate].
  injection Hi as Er _. exists c'. split; [reflexivity | congruence].
Qed.

Lemma rival_insert (l : list client_lease) (i : nat) (c c' : client_lease) :
  l !! i = Some c -> rival c' = rival c -> rival <$> <[i := c']> l = rival <$> l.
Proof.
  intros Hi E. rewrite list_fmap_insert, E, list_insert_id; [reflexivity|].
  now rewrite list_lookup_fmap, Hi.
Qed.

Lemma wait_entry_shrinks (t : LEASE_type) (c : client_lease) :
  shrinks maxc c (wait_entry t c).
Proof.
  split; [reflexivity|]. split; [exists (-1); now rewrite Z.land_m1_r|].
  unfold entry_shape. cbn. intuition (auto with lease).
Qed.

Lemma wait_entry_rival (t : LEASE_type) (i : nat) (l : list client_lease) :
  rival <$> alter (wait_entry t) i l = rival <$> l.
Proof. revert i. induction l as [|c l IH]; intros [|i]; cbn; [| |reflexivity|now rewrite IH]; reflexivity. Qed.

Lemma grant_entry_spec (env : lenv) (t : LEASE_type) (interval : Z) (q : lreq) (seqno : Z)
    (c : client_lease) :
  let '(c', reply, _) := grant_entry env t interval q seqno c in
  cl_ord c' = cl_ord c /\ cl_leases c' = Z.lor (cl_leases c) (lbit t) /\
  (entry_shape maxc c -> entry_shape maxc c') /\ has_any reply SR_WAIT_LEASE = false.
Proof.
  unfold grant_entry. cbv zeta.
  match goal with |- context [Z.land ?x (~~ SR_WAIT_LEASE)] =>
    assert (has_any (Z.land x (~~ SR_WAIT_LEASE)) SR_WAIT_LEASE = false) as Hw end.
  { unfold has_any. now rewrite <- Z.land_assoc, Z.land_0_r. }
  split; [|split; [|split; [|exact Hw]]]; clear Hw;
    [| |intros (H1 & H2 & H3 & H4 & H5 & H6)]; destruct (decide _), (_ && _), (may_write _ _);
    cbn; try reflexivity;
    unfold entry_shape; cbn; rewrite ?length_insert; auto 10 with lease.
Qed.

(** What a decision for client [ord] at entry [i] leaves behind: the client still has
    the entry, and a lease that was granted conflicts with nobody. *)
Definition decided (ord : Z) (t : LEASE_type) (q q' : lreq) (i : nat) (s' : lst) : Prop :=
  q_filemode q' = q_filemode q /\
  (exists c, entries s' !! i = Some c /\ cl_ord c = ord) /\
  (has_any (q_actions q') SR_WAIT_LEASE = false ->
   forall u v b, u ∈ t :: brings is_get q t -> b ∈ entries s' -> cl_ord b <> ord ->
     holds (cl_leases b) v = true -> conflicts mh rel u v = false).

(** The grant at the end of [sam_add_ino_lease]. *)
Lemma grant_spec (env : lenv) (ord : Z) (t : LEASE_type) (interval : Z) (q : lreq)
    (i : nat) (others : Z) (c : client_lease) (s : lst) :
  at_entry ord i others s -> entries s !! i = Some c ->
  (forall u v, u ∈ t :: brings is_get q t -> holds others v = true -> conflicts mh rel u v = false) ->
  let '(c', reply, seqno) := grant_entry env t interval q (ln_write_seqno (s_ip s)) c in
  let s' := on_ip (set_write_seqno seqno) (put_entries (<[i := c']> (entries s)) s) in
  gd s s' /\ decided ord t q (set_q_actions reply q) i s'.
Proof.
  intros [(c0 & Hc0 & Eo) Hcov] Hc Hsafe. assert (c0 = c) as -> by congruence.
  pose proof (grant_entry_spec env t interval q (ln_write_seqno (s_ip s)) c) as Hg.
  destruct (grant_entry _ _ _ _ _ _) as [[c' reply] seqno].
  destruct Hg as (Go & Gl & Gs & Gw). intros s'.
  destruct (entries_lookup_Some s i c Hc) as (tb & Et & _).
  assert (is_Some (ln_leases (s_ip s))) as HS by (exists tb; exact Et).
  assert (forall u b v, u ∈ t :: brings is_get q t -> b ∈ entries s -> cl_ord b <> cl_ord c ->
    holds (cl_leases b) v = true -> conflicts mh rel u v = false) as Hcf.
  { intros u b v Hu Hb Hne Hh. apply Hsafe; [exact Hu|]. apply Hcov. exists b.
    split; [exact Hb|]. split; [congruence | exact Hh]. }
  split.
  - transitivity (put_entries (<[i := c']> (entries s)) s); [|now apply good_ip].
    apply good_put; [|rewrite length_insert; lia]. intros Hok.
    apply (entries_ok_grant _ _ _ _ _ c); [exact Hok | exact Hc | exact Go | |].
    + apply Gs. eapply Forall_lookup_1; [apply Hok | exact Hc].
    + intros u. rewrite Gl, holds_lor, holds_lbit. intros [Hu|Hu%bool_decide_eq_true]%orb_true_iff;
        [now left|]. right. subst u. intros b v Hb Hne Hh.
      apply (Hcf t b v); [constructor | assumption..].
  - split; [reflexivity|].
    assert (entries s' = <[i := c']> (entries s)) as ->.
    { exact (entries_put (<[i := c']> (entries s)) s HS). }
    split.
    + exists c'. rewrite list_lookup_insert_eq by (eapply lookup_lt_Some; eauto).
      split; [reflexivity | congruence].
    + intros _ u v b Hu Hb Hne Hh.
      apply list_elem_of_lookup_1 in Hb as [j Hj]. destruct (decide (i = j)) as [<-|Hij].
      * rewrite list_lookup_insert_eq in Hj by (eapply lookup_lt_Some; eauto). congruence.
      * rewrite list_lookup_insert_ne in Hj by congruence.
        apply (Hcf u b v); [exact Hu | eapply list_elem_of_lookup_2; eauto | congruence | exact Hh].
Qed.

(** The wait at the end of [sam_add_ino_lease]. *)
Lemma wait_spec (env : lenv) (ord : Z) (t : LEASE_type) (q : lreq) (relinquish : Z)
    (i : nat) (others : Z) (s : lst) :
  at_entry ord i others s ->
  let s' := sam_check_lease_timeo env relinquish ord
              (put_entries (alter (wait_entry t) i (entries s)) s) in
  gd s s' /\ decided ord t q (set_q_actions SR_WAIT_LEASE q) i s'.
Proof.
  intros Hat s'. set (s1 := put_entries (alter (wait_entry t) i (entries s)) s) in *.
  assert (at_entry ord i others s1) as Hat1 by (apply at_entry_put; [apply wait_entry_rival | exact Hat]).
  assert (entries s' = entries s1 /\ gd s1 s') as [Ee Gs].
  { unfold s', sam_check_lease_timeo. destruct (_ =? _); [split; reflexivity|].
    destruct (_ <? _); [split; reflexivity|]. split; [reflexivity | apply good_send]. }
  split.
  - transitivity s1; [|exact Gs]. apply good_shrink, shrinks_alter, wait_entry_shrinks.
  - split; [reflexivity|]. rewrite Ee. split; [apply Hat1 | discriminate].
Qed.

Lemma brings_filemode (q q' : lreq) (t : LEASE_type) :
  q_filemode q' = q_filemode q -> brings is_get q' t = brings is_get q t.
Proof. intros E. unfold brings. now rewrite E. Qed.

Lemma decided_filemode (ord : Z) (t : LEASE_type) (q q1 q' : lreq) (i : nat) (s : lst) :
  q_filemode q1 = q_filemode q -> decided ord t q1 q' i s -> decided ord t q q' i s.
Proof.
  intros E (H1 & H2 & H3). split; [congruence|]. split; [exact H2|].
  rewrite (brings_filemode q q1 t E) in H3. exact H3.
Qed.

(** The callouts of [sam_callout_directio] concern actions only. *)
Lemma directio_spec (ord : Z) (i : nat) (others : Z) (c : client_lease) (s : lst) :
  at_entry ord i others s -> entries s !! i = Some c ->
  let '(l, ms, _) := sam_callout_directio (ln_ino (s_ip s)) ord
    (<[i := set_actions (Z.lor (cl_actions c) SR_DIRECTIO_ON) c]> (entries s)) in
  gd s (send ms (put_entries l s)) /\ at_entry ord i others (send ms (put_entries l s)).
Proof.
  intros Hat Hi. set (l := <[i := _]> (entries s)).
  destruct (callout_directio_rival maxc (ln_ino (s_ip s)) ord l) as [Er Es].
  destruct (sam_callout_directio _ _ _) as [[l' ms] w]. cbn in Er, Es.
  assert (rival <$> l = rival <$> entries s) as El by now apply (rival_insert _ _ c).
  split; [|apply (at_entry_put ord i others l' s); [congruence | exact Hat]].
  transitivity (put_entries l' s); [|apply good_send]. apply good_put.
  - intros Hok. apply (entries_ok_shrink _ _ _ l); [exact Es|].
    apply (entries_ok_shrink _ _ _ (entries s)); [|exact Hok].
    apply (shrinks_insert maxc _ _ c); [exact Hi | now apply shrinks_same].
  - apply (f_equal length) in Er, El. rewrite !length_fmap in Er, El. lia.
Qed.

Lemma add_decide_spec (env : lenv) (ord : Z) (t : LEASE_type) (interval : Z) (q : lreq)
    (i : nat) (others mmap : Z) (s : lst) :
  e_mh_write env = mh -> req_ok rel is_get q t -> at_entry ord i others s ->
  let '(s', q') := add_decide env ord t interval q i others mmap s in
  gd s s' /\ decided ord t q q' i s'.
Proof.
  intros Emh Hq Hat. unfold add_decide. destruct Hat as [(c & Hc & Eo) Hcov] eqn:Eat. clear Eat.
  rewrite Hc. pose proof (add_flags_spec maxc (s_ip s) t q c) as Hf.
  destruct (add_flags (s_ip s) t q c) as [c1 q1]. destruct Hf as (Fr & Fs & Ff & Fl).
  set (s1 := put_entries (<[i := c1]> (entries s)) s).
  assert (gd s s1) as G1 by (apply good_shrink; now apply (shrinks_insert maxc (entries s) i c)).
  assert (at_entry ord i others s1) as Hat1.
  { apply at_entry_put; [now apply (rival_insert _ _ c) | split; eauto]. }
  assert (req_ok rel is_get q1 t) as Hq1 by (destruct Hq; split; rewrite ?Ff, ?Fl; assumption).
  pose proof (fun u v => verdict_sound rel is_get env q1 (ln_size (s_ip s1)) t u v (cl_leases c1)
    others mmap Hq1) as Hsafe.
  rewrite Emh in Hsafe.
  destruct (lease_verdict _ _ _ _ _ _ _) as [|r|].
  - destruct Hat1 as [(c2 & Hc2 & Eo2) Hcov2] eqn:E. clear E. rewrite Hc2.
    pose proof (grant_spec env ord t interval q1 i others c2 s1
      (conj (ex_intro _ c2 (conj Hc2 Eo2)) Hcov2) Hc2 (fun u v => Hsafe u v I)) as Hg.
    destruct (grant_entry _ _ _ _ _ _) as [[c3 reply] seqno]. destruct Hg as [G2 D2].
    split; [now transitivity s1 | now apply (decided_filemode _ _ _ q1)].
  - destruct (wait_spec env ord t q1 r i others s1 Hat1) as [G2 D2].
    split; [now transitivity s1 | now apply (decided_filemode _ _ _ q1)].
  - set (l := <[i := set_actions (Z.lor (cl_actions c1) SR_DIRECTIO_ON) c1]> (entries s1)).
    assert (entries s1 !! i = Some c1) as Hi1.
    { destruct (entries_lookup_Some s i c Hc) as (tb & Et & _). unfold s1.
      rewrite entries_put by (exists tb; exact Et). rewrite list_lookup_insert_eq; [reflexivity|].
      eapply lookup_lt_Some; eauto. }
    pose proof (directio_spec ord i others c1 s1 Hat1 Hi1) as Hd. fold l in Hd.
    destruct (sam_callout_directio _ _ _) as [[l' ms] w]. destruct Hd as [G2 Hat2].
    set (s2 := send ms (put_entries l' s1)) in *. destruct w.
    + destruct (wait_spec env ord t q1 0 i others s2 Hat2) as [G3 D3].
      split; [transitivity s1; [exact G1|]; now transitivity s2
             | now apply (decided_filemode _ _ _ q1)].
    + destruct Hat2 as [(c2 & Hc2 & Eo2) Hcov2] eqn:E. clear E. rewrite Hc2.
      pose proof (grant_spec env ord t interval q1 i others c2 s2
        (conj (ex_intro _ c2 (conj Hc2 Eo2)) Hcov2) Hc2 (fun u v => Hsafe u v I)) as Hg.
      destruct (grant_entry _ _ _ _ _ _) as [[c3 reply] seqno]. destruct Hg as [G3 D3].
      split; [transitivity s1; [exact G1|]; now transitivity s2
             | now apply (decided_filemode _ _ _ q1)].
Qed.

(** A table with one client conflicts with nobody. *)
Lemma decided_single (ord : Z) (t : LEASE_type) (q : lreq) (c : client_lease) (s : lst) :
  entries s = [c] -> cl_ord c = ord -> decided ord t q q 0 s.
Proof.
  intros E Eo. unfold decided. rewrite E. split; [reflexivity|]. split; [now exists c|].
  intros _ u v b _ ->%list_elem_of_singleton. congruence.
Qed.

Section Record.
Context (env : lenv) (ord : Z) (t : LEASE_type) (interval : Z) (q : lreq).
Hypotheses (Emh : e_mh_write env = mh) (Emax : e_max_clients env = maxc)
  (Hord : 1 <= ord <= maxc) (Hq : req_ok rel is_get q t).

(** The lease at a located entry. *)
Lemma add_finish_spec (s : lst) (loc : located) :
  match loc with
  | Found s' i others _ => gd s s' /\ at_entry ord i others s'
  | NoTable s' => gd s s' /\ ln_leases (s_ip s') = None
  end ->
  let '(s', q', i) := add_finish env ord t interval q loc in
  gd s s' /\ decided ord t q q' i s'.
Proof.
  destruct loc as [s1 i others mmap|s1]; intros [G1 H1]; cbn [add_finish].
  - pose proof (add_decide_spec env ord t interval q i others mmap s1 Emh Hq H1) as Hd.
    destruct (add_decide _ _ _ _ _ _ _ _ _) as [s2 q2]. destruct Hd as [G2 D2].
    split; [now transitivity s1 | exact D2].
  - destruct (new_held_spec env ord t interval q s1 Hord H1) as (G2 & c & Ec & Eo & _).
    split; [now transitivity s1 | now apply (decided_single _ _ _ c)].
Qed.

Lemma add_ino_lease_spec (held : bool) (other : lst -> lst) (s : lst) :
  gd s (other s) ->
  let '(s', q', i) := sam_add_ino_lease env held other ord t interval q s in
  gd s s' /\ decided ord t q q' i s'.
Proof. intros Ho. now apply add_finish_spec, add_locate_spec. Qed.

Lemma new_ino_lease_spec (other : lst -> lst) (s : lst) :
  gd s (other s) ->
  let '(s', q', i) := sam_new_ino_lease env other ord t interval q s in
  gd s s' /\ decided ord t q q' i s'.
Proof.
  intros Ho. unfold sam_new_ino_lease. destruct (ln_leases (s_ip (other s))) as [tb|] eqn:Et.
  - pose proof (add_ino_lease_spec true id (other s) (good_refl _ _ _ _)) as Ha.
    destruct (sam_add_ino_lease _ _ _ _ _ _ _ _) as [[s2 q2] i]. destruct Ha as [G2 D2].
    split; [now transitivity (other s) | exact D2].
  - destruct (new_held_spec env ord t interval q (other s) Hord Et) as (G2 & c & Ec & Eo & _).
    split; [now transitivity (other s) | now apply (decided_single _ _ _ c)].
Qed.
End Record.
End Add.

(** ** [sam_record_lease] *)

Section RecordLease.
Context (mh rel : bool) (maxc : Z).
#[local] Abbreviation gd := (good mh rel maxc).

(** The entry [c'] is [c] with the leases of [ts] added. *)
Definition gains (ts : list LEASE_type) (c c' : client_lease) : Prop :=
  cl_ord c' = cl_ord c /\ (entry_shape maxc c -> entry_shape maxc c') /\
  forall u, holds (cl_leases c') u = true -> holds (cl_leases c) u = true \/ u ∈ ts.

Lemma gains_implicit (t : LEASE_type) (imp : option LEASE_type) (c : client_lease) :
  gains (option_list imp) c (match imp with Some u => implicit_lease u t c | None => c end).
Proof.
  destruct imp as [u|]; [|split; [|split]; auto]. split; [reflexivity|]. split.
  - unfold entry_shape. cbn. rewrite length_insert. intuition (auto with lease).
  - intros v. cbn. rewrite holds_lor, holds_lbit.
    intros [Hv|Hv%bool_decide_eq_true]%orb_true_iff; [now left|]. right. subst. constructor.
Qed.

Lemma gains_next_gen (ts : list LEASE_type) (t : LEASE_type) (c : client_lease)
    (cq : client_lease * lreq) :
  gains ts c cq.1 -> gains ts c (next_gen t cq).1.
Proof.
  intros (H1 & H2 & H3). split; [exact H1|]. split; [|exact H3]. intros Hc.
  destruct (H2 Hc) as (S1 & S2 & S3 & S4 & S5 & S6). unfold entry_shape. cbn.
  rewrite length_insert. auto 10.
Qed.

(** An entry that gains leases which conflict with nobody. *)
Lemma good_gain (ts : list LEASE_type) (i : nat) (c c' : client_lease) (s : lst) :
  entries s !! i = Some c -> gains ts c c' ->
  (forall u b v, u ∈ ts -> b ∈ entries s -> cl_ord b <> cl_ord c ->
     holds (cl_leases b) v = true -> conflicts mh rel u v = false) ->
  gd s (put_entries (<[i := c']> (entries s)) s).
Proof.
  intros Hi (G1 & G2 & G3) Hcf. apply good_put; [|rewrite length_insert; lia].
  intros Hok. apply (entries_ok_grant _ _ _ _ _ c); [exact Hok | exact Hi | exact G1 | |].
  - apply G2. eapply Forall_lookup_1; [apply Hok | exact Hi].
  - intros u Hu. destruct (G3 u Hu) as [?|Hin]; [now left|]. right. intros b v. now apply Hcf.
Qed.

(** An implicit lease comes with the granted one, or its client is alone. *)
Lemma implicit_type_spec (t u : LEASE_type) (is_get : bool) (q : lreq) (n : nat) :
  implicit_type t is_get q n = Some u -> u ∈ brings is_get q t \/ n = 1%nat.
Proof.
  unfold implicit_type. destruct is_get; [|discriminate]. cbn.
  destruct t; try discriminate; cbn.
  - intros [= <-]. left. constructor.
  - destruct (_ && _) eqn:E; [|discriminate]. intros _. right.
    apply andb_true_iff in E as [_ E]. now apply Nat.eqb_eq.
  - intros [= <-]. left. constructor.
Qed.

Lemma record_finish_spec (env : lenv) (ord : Z) (t : LEASE_type) (interval : Z) (q : lreq)
    (new_generation is_get : bool) (s : lst) (r : lst * lreq * nat) :
  (let '(s1, q1, i) := r in gd s s1 /\ decided mh rel is_get ord t q q1 i s1) ->
  gd s (record_finish env t interval new_generation is_get r).1.
Proof.
  destruct r as [[s1 q1] i]. intros [G1 (Ef & (c & Hc & Eo) & Hcf)].
  unfold record_finish. rewrite Hc.
  destruct (has_any (q_actions q1) SR_WAIT_LEASE) eqn:Ew; cbn [negb]; [exact G1|].
  specialize (Hcf eq_refl).
  set (imp := implicit_type t is_get q1 (length (entries s1))).
  set (c1 := match imp with Some u => implicit_lease u t c | None => c end).
  match goal with |- context [if new_generation then ?x else ?y] =>
    set (cq := if new_generation then x else y) end.
  assert (gains (option_list imp) c cq.1) as Hg.
  { unfold cq. pose proof (gains_implicit t imp c : gains _ c c1).
    destruct new_generation; [|exact H]. destruct imp; repeat apply gains_next_gen; exact H. }
  destruct cq as [c2 q2]. cbn [fst] in Hg |- *.
  transitivity s1; [exact G1|]. etransitivity; [|apply good_sched].
  apply (good_gain (option_list imp) i c c2 s1 Hc Hg).
  intros u b v Hu Hb Hne Hh. unfold imp in Hu.
  destruct (implicit_type t is_get q1 _) as [u'|] eqn:Ei; [|now apply not_elem_of_nil in Hu].
  apply list_elem_of_singleton in Hu as ->.
  destruct (implicit_type_spec t u' is_get q1 _ Ei) as [Hbr|Hone].
  - apply (Hcf u' v b); [|exact Hb | congruence | exact Hh].
    rewrite (brings_filemode is_get q q1 t Ef) in Hbr. now constructor.
  - exfalso. apply Hne. apply list_elem_of_lookup_1 in Hb as [j Hj].
    apply lookup_lt_Some in Hj as Hj'. apply lookup_lt_Some in Hc as Hc'.
    assert (j = i) as -> by lia. congruence.
Qed.

Lemma record_lease_spec (env : lenv) (other : lst -> lst) (ord : Z) (t : LEASE_type)
    (q : lreq) (new_generation is_get : bool) (s : lst) :
  e_mh_write env = mh -> e_max_clients env = maxc -> 1 <= ord <= maxc -> req_ok rel is_get q t ->
  gd s (other s) ->
  gd s (sam_record_lease env other ord t q new_generation is_get s).1.
Proof.
  intros Emh Emax Hord Hq Ho. unfold sam_record_lease. apply (record_finish_spec env ord t _ q).
  destruct (ln_leases (s_ip s)); [now apply add_ino_lease_spec | now apply new_ino_lease_spec].
Qed.
End RecordLease.
