(* ===== verification/LeaseRemove.v ===== *)
(** * Removing, extending and waking up

    [sam_remove_lease] visits every client once, from the one whose turn it is, removes
    the leases of the mask from one client and tells every client that waits; it and the
    other operations that grant nothing keep the invariant. *)
From S2P Require Import Prelude Lease LeaseOps LeaseTable LeaseGrant LeaseInv.

(** ** The order of the visits *)

Fixpoint visits (len n nl : nat) : list nat :=
  match n with
  | O => []
  | S n => nl :: visits len n (if (len <=? S nl)%nat then O else S nl)
  end.

Lemma visits_seq (len n nl : nat) : (n + nl <= len)%nat -> visits len n nl = seq nl n.
Proof.
  revert nl. induction n as [|n IH]; intros nl H; [reflexivity|]. cbn. f_equal.
  destruct (Nat.leb_spec len (S nl)) as [Hle|Hlt]; [|now apply IH; lia].
  replace n with O by lia. reflexivity.
Qed.

Lemma visits_round (len n nl : nat) :
  (nl < len)%nat -> visits len (len - nl + n) nl = seq nl (len - nl) ++ visits len n 0.
Proof.
  remember (len - nl)%nat as d eqn:Ed. revert nl Ed. induction d as [|d IH]; intros nl Ed H; [lia|].
  cbn. f_equal. destruct (Nat.leb_spec len (S nl)) as [Hle|Hlt].
  - now replace d with O by lia.
  - apply IH; lia.
Qed.

Lemma visits_all (len nl : nat) :
  (nl < len)%nat -> visits len len nl = seq nl (len - nl) ++ seq 0 nl.
Proof.
  intros H. replace len with (len - nl + nl)%nat at 2 by lia.
  rewrite visits_round by lia. now rewrite visits_seq by lia.
Qed.

Lemma visits_perm (len nl : nat) : (nl < len)%nat -> visits len len nl ≡ₚ seq 0 len.
Proof.
  intros H. rewrite visits_all, Permutation_app_comm by exact H.
  rewrite <- seq_app. now replace (nl + (len - nl))%nat with len by lia.
Qed.

Lemma omap_lookup_seq {A} (l : list A) (i n : nat) :
  (i + n <= length l)%nat -> omap (fun k => l !! k) (seq i n) = take n (drop i l).
Proof.
  revert i. induction n as [|n IH]; intros i H; [reflexivity|]. cbn [seq omap list_omap].
  destruct (lookup_lt_is_Some_2 l i) as [x Hx]; [lia|]. cbn. rewrite Hx.
  rewrite (drop_S l x i Hx). cbn. f_equal. apply IH. lia.
Qed.

(** The entries in the order of the visits. *)
Lemma visits_entries {A} (l : list A) (nl : nat) :
  (nl < length l)%nat ->
  omap (fun k => l !! k) (visits (length l) (length l) nl) = drop nl l ++ take nl l.
Proof.
  intros H. rewrite visits_all, omap_app, !omap_lookup_seq by lia.
  rewrite drop_0, (take_ge (drop nl l)); [reflexivity|]. rewrite length_drop. lia.
Qed.

(** ** One turn *)

(** The entry of a client after the removal. *)
Definition removed (ord mask : Z) (gens : option (list Z)) (c : client_lease) : client_lease :=
  clear_wait
    (if cl_ord c =? ord then
       let m := check_gen gens c mask in
       set_leases (Z.land (cl_leases c) (~~ m)) (set_wt (Z.land (cl_wt c) (~~ m)) c)
     else c).

Lemma clear_wait_rival (c : client_lease) : rival (clear_wait c) = rival c.
Proof. unfold clear_wait. now destruct (waiting c). Qed.

Lemma clear_wait_shrinks (maxc : Z) (c : client_lease) : shrinks maxc c (clear_wait c).
Proof. unfold clear_wait. destruct (waiting c); now apply shrinks_same. Qed.

Lemma clear_wait_clears (c : client_lease) : waiting (clear_wait c) = false.
Proof.
  unfold clear_wait. destruct (waiting c) eqn:E; [|exact E]. unfold waiting, has_any. cbn.
  now rewrite <- Z.land_assoc, Z.land_0_r.
Qed.

Lemma removed_shrinks (maxc ord mask : Z) (gens : option (list Z)) (c : client_lease) :
  shrinks maxc c (removed ord mask gens c).
Proof.
  unfold removed. eapply shrinks_trans; [|apply clear_wait_shrinks].
  destruct (_ =? _); [|apply shrinks_refl]. split; [reflexivity|]. split; [eexists; reflexivity|].
  unfold entry_shape. cbn. intuition (auto with lease).
Qed.

(** What the loop knows after visiting the indices [vis] of table [l]. *)
Record rm_inv (ino ord mask : Z) (gens : option (list Z)) (l : list client_lease)
    (vis : list nat) (a : rm_acc) : Prop := {
  ri_l k : ra_l a !! k =
    (if decide (k ∈ vis) then removed ord mask gens else id) <$> l !! k;
  ri_mask : (forall k c, k ∈ vis -> l !! k = Some c -> cl_ord c <> ord) -> ra_mask a = mask;
  ri_out : ra_out a = (fun c => NOTIFY_lease ino (cl_ord c)) <$>
    filter (fun c => waiting c = true) (omap (fun k => l !! k) vis);
  ri_last : ra_last a = true <->
    forall k c, k ∈ vis -> l !! k = Some c -> cl_leases (removed ord mask gens c) = 0;
  ri_write : ra_write_remains a = true <->
    exists k c, k ∈ vis /\ l !! k = Some c /\
      holds (cl_leases (removed ord mask gens c)) LTYPE_write = true;
  ri_append_client : is_Some (ra_append_client a) <->
    exists k c, k ∈ vis /\ l !! k = Some c /\
      holds (cl_leases (removed ord mask gens c)) LTYPE_append = true;
  ri_gone : ((forall k c, k ∈ vis -> l !! k = Some c -> cl_ord c <> ord) ->
             ra_append a = false /\ ra_truncate a = false /\ ra_exclusive a = false);
  ri_own k c : k ∈ vis -> l !! k = Some c -> cl_ord c = ord ->
    let gone := Z.land (check_gen gens c mask) (cl_leases c) in
    ra_append a = holds gone LTYPE_append /\ ra_truncate a = holds gone LTYPE_truncate /\
    ra_exclusive a = holds gone LTYPE_exclusive
}.

Lemma rm_inv_init (ino ord mask act : Z) (gens : option (list Z)) (l : list client_lease) :
  rm_inv ino ord mask gens l [] (mkRm l mask act false false false true None false []).
Proof.
  split; cbn; try easy.
  - intros k. rewrite decide_False by apply not_elem_of_nil. now rewrite option_fmap_id.
  - split; [easy|]. intros (k & c & H & _). now apply not_elem_of_nil in H.
  - split; [intros [? [=]]|]. intros (k & c & H & _). now apply not_elem_of_nil in H.
Qed.

Section Turn.
Context (ino ord mask : Z) (gens : option (list Z)) (l : list client_lease).
Hypothesis Hnd : NoDup (cl_ord <$> l).
#[local] Abbreviation inv := (rm_inv ino ord mask gens l).

(** Client ordinals are distinct. *)
Lemma ord_index (j k : nat) (c d : client_lease) :
  l !! j = Some c -> l !! k = Some d -> cl_ord c = cl_ord d -> j = k.
Proof.
  intros Hj Hk E. eapply NoDup_lookup; [exact Hnd | |];
    rewrite list_lookup_fmap; [rewrite Hj | rewrite Hk]; cbn; [reflexivity | now rewrite E].
Qed.

Lemma waiting_own (c : client_lease) (x y : Z) :
  waiting (set_leases x (set_wt y c)) = waiting c.
Proof. reflexivity. Qed.

(** The turn at [k] in terms of the entry of the original table. *)
Lemma rm_turn_at (k : nat) (vis : list nat) (a : rm_acc) (c : client_lease) :
  inv vis a -> k ∉ vis -> l !! k = Some c ->
  let a' := rm_turn ino ord gens k a in
  let c' := removed ord mask gens c in
  let gone := Z.land (check_gen gens c mask) (cl_leases c) in
  let own := cl_ord c =? ord in
  ra_l a' = <[k := c']> (ra_l a) /\
  ra_mask a' = (if own then check_gen gens c mask else ra_mask a) /\
  ra_append a' = (if own then holds gone LTYPE_append else ra_append a) /\
  ra_truncate a' = (if own then holds gone LTYPE_truncate else ra_truncate a) /\
  ra_exclusive a' = (if own then holds gone LTYPE_exclusive else ra_exclusive a) /\
  ra_last a' = ra_last a && (cl_leases c' =? 0) /\
  ra_append_client a' =
    (if holds (cl_leases c') LTYPE_append then Some k else ra_append_client a) /\
  ra_write_remains a' = ra_write_remains a || holds (cl_leases c') LTYPE_write /\
  ra_out a' = ra_out a ++ (if waiting c then [NOTIFY_lease ino (cl_ord c)] else []).
Proof.
  intros Hi Hk Hc. cbv zeta. unfold rm_turn.
  rewrite (ri_l _ _ _ _ _ _ _ Hi k), decide_False, Hc by exact Hk. cbn [id fmap option_fmap option_map].
  assert (cl_ord c = ord -> ra_mask a = mask) as Hm.
  { intros Eo. apply (ri_mask _ _ _ _ _ _ _ Hi). intros j d Hj Hd Ed.
    apply Hk. now rewrite (ord_index k j c d Hc Hd ltac:(congruence)). }
  unfold removed. destruct (Z.eqb_spec (cl_ord c) ord) as [E|E].
  - unfold rm_own. rewrite (Hm E). rewrite <- !has_any_lbit. repeat split;
      unfold clear_wait; destruct (waiting _) eqn:Ew; rewrite waiting_own in Ew; now rewrite ?Ew.
  - rewrite <- !has_any_lbit. repeat split; unfold clear_wait; now destruct (waiting c).
Qed.

Lemma snoc_iff (vis : list nat) (j k : nat) : j ∈ vis ++ [k] <-> j ∈ vis \/ j = k.
Proof. now rewrite elem_of_app, list_elem_of_singleton. Qed.

Lemma rm_turn_inv (k : nat) (vis : list nat) (a : rm_acc) :
  inv vis a -> k ∉ vis -> (k < length l)%nat -> inv (vis ++ [k]) (rm_turn ino ord gens k a).
Proof.
  intros Hi Hk Hlt. destruct (lookup_lt_is_Some_2 l k Hlt) as [c Hc].
  destruct (rm_turn_at k vis a c Hi Hk Hc) as (El & Em & Ea & Et & Ex & Elast & Eac & Ew & Eo).
  split.
  - intros j. rewrite El. destruct (decide (j = k)) as [->|Hne].
    + rewrite list_lookup_insert_eq, Hc, decide_True; [reflexivity | now apply snoc_iff; right |].
      apply lookup_lt_is_Some_1. rewrite (ri_l _ _ _ _ _ _ _ Hi), Hc. eexists; reflexivity.
    + rewrite list_lookup_insert_ne, (ri_l _ _ _ _ _ _ _ Hi) by congruence.
      destruct (decide (j ∈ vis)) as [Hv|Hv], (decide (j ∈ vis ++ [k])) as [Hv'|Hv']; try reflexivity;
        rewrite snoc_iff in Hv'; tauto.
  - intros H. rewrite Em. destruct (Z.eqb_spec (cl_ord c) ord) as [E|E].
    + exfalso. apply (H k c); [now apply snoc_iff; right | exact Hc | exact E].
    + apply (ri_mask _ _ _ _ _ _ _ Hi). intros j d Hj. apply H. now apply snoc_iff; left.
  - rewrite Eo, (ri_out _ _ _ _ _ _ _ Hi), omap_app, filter_app, fmap_app. f_equal. cbn.
    rewrite Hc. cbn. unfold filter. cbn.
    destruct (waiting c) eqn:E; [rewrite decide_True | rewrite decide_False]; auto; congruence.
  - rewrite Elast, andb_true_iff, (ri_last _ _ _ _ _ _ _ Hi), Z.eqb_eq. setoid_rewrite snoc_iff.
    split; [intros [H1 H2] j d [Hj| ->] Hd; [eauto | congruence]|].
    intros H. split; [intros j d Hj; apply H; now left | apply (H k); [now right | exact Hc]].
  - rewrite Ew, orb_true_iff, (ri_write _ _ _ _ _ _ _ Hi). setoid_rewrite snoc_iff. split.
    + intros [(j & d & Hj & Hd)|H]; [exists j, d; tauto | exists k, c; auto].
    + intros (j & d & [Hj| ->] & Hd & H); [left; eauto 6 | right; congruence].
  - rewrite Eac. setoid_rewrite snoc_iff. destruct (holds (cl_leases (removed _ _ _ _)) LTYPE_append) eqn:E.
    + split; [intros _; exists k, c; auto | intros _; eexists; reflexivity].
    + rewrite (ri_append_client _ _ _ _ _ _ _ Hi). split.
      * intros (j & d & Hj & Hd). exists j, d. tauto.
      * intros (j & d & [Hj| ->] & Hd & H); [eauto 6 | congruence].
  - intros H. rewrite Ea, Et, Ex. destruct (Z.eqb_spec (cl_ord c) ord) as [E|E].
    + exfalso. apply (H k c); [now apply snoc_iff; right | exact Hc | exact E].
    + apply (ri_gone _ _ _ _ _ _ _ Hi). intros j d Hj. apply H. now apply snoc_iff; left.
  - intros j d [Hj| ->]%snoc_iff Hd Ed; cbv zeta; rewrite Ea, Et, Ex.
    + destruct (Z.eqb_spec (cl_ord c) ord) as [E|E].
      * exfalso. apply Hk. rewrite (ord_index k j c d Hc Hd ltac:(congruence)). exact Hj.
      * now apply (ri_own _ _ _ _ _ _ _ Hi j d).
    + assert (d = c) as -> by congruence. rewrite Ed, Z.eqb_refl. auto.
Qed.

Lemma rm_loop_inv (n k : nat) (vis : list nat) (a : rm_acc) :
  inv vis a -> NoDup (vis ++ visits (length l) n k) ->
  (n = O \/ (k < length l)%nat) ->
  inv (vis ++ visits (length l) n k) (rm_loop ino ord gens n k a).
Proof.
  revert k vis a. induction n as [|n IH]; intros k vis a Hi Hn Hk; cbn [visits rm_loop].
  - now rewrite app_nil_r.
  - destruct Hk as [?|Hk]; [discriminate|]. cbn [visits] in Hn.
    assert (k ∉ vis) as Hkv.
    { apply NoDup_app in Hn as (_ & Hn & _). intros H. apply (Hn k H). constructor. }
    pose proof (rm_turn_inv k vis a Hi Hkv Hk) as Hi'.
    assert (length (ra_l (rm_turn ino ord gens k a)) = length l) as Hlen.
    { apply (Nat.le_antisymm); apply Nat.le_ngt; intros H; apply lookup_lt_is_Some_2 in H as [x Hx].
      - rewrite (ri_l _ _ _ _ _ _ _ Hi') in Hx. rewrite lookup_ge_None_2 in Hx by lia. discriminate.
      - pose proof (ri_l _ _ _ _ _ _ _ Hi' (length (ra_l (rm_turn ino ord gens k a)))) as E.
        rewrite Hx, lookup_ge_None_2 in E by lia. discriminate. }
    rewrite Hlen. rewrite (cons_middle k vis), app_assoc in Hn |- *. apply IH; [exact Hi' | exact Hn |].
    destruct n; [now left|]. right. destruct (Nat.leb_spec (length l) (S k)); lia.
Qed.
End Turn.

(** ** The first critical section *)

(** Where the visits of [sam_remove_lease] start. *)
Definition rm_start (t : lease_ino) : nat :=
  if Z.of_nat (length (li_lease t)) <=? li_notify t then 0%nat else Z.to_nat (li_notify t).

Lemma rm_start_lt (t : lease_ino) :
  0 <= li_notify t -> li_lease t <> [] -> (rm_start t < length (li_lease t))%nat.
Proof.
  intros Hn Hl. unfold rm_start. assert (length (li_lease t) <> 0%nat).
  { intros E. apply Hl. now destruct (li_lease t). }
  destruct (Z.leb_spec (Z.of_nat (length (li_lease t))) (li_notify t)); lia.
Qed.

(** The loop of [sam_remove_lease] has visited everyone. *)
Lemma rm_section_inv (ord act mask : Z) (gens : option (list Z)) (s : lst) (t : lease_ino) :
  ln_leases (s_ip s) = Some t -> NoDup (cl_ord <$> li_lease t) -> 0 <= li_notify t ->
  let '(s', a) := rm_section ord act mask gens s in
  exists vis, vis ≡ₚ seq 0 (length (li_lease t)) /\
    omap (fun k => li_lease t !! k) vis =
      drop (rm_start t) (li_lease t) ++ take (rm_start t) (li_lease t) /\
    rm_inv (ln_ino (s_ip s)) ord mask gens (li_lease t) vis a /\
    ra_l a = removed ord mask gens <$> li_lease t.
Proof.
  intros Et Hnd Hn. unfold rm_section. rewrite Et. fold (rm_start t).
  set (l := li_lease t). set (a := rm_loop _ _ _ _ _ _).
  assert (exists vis, vis ≡ₚ seq 0 (length l) /\
    omap (fun k => l !! k) vis = drop (rm_start t) l ++ take (rm_start t) l /\
    rm_inv (ln_ino (s_ip s)) ord mask gens l vis a) as (vis & V1 & V2 & V3).
  { destruct (decide (l = [])) as [E|E].
    - exists []. unfold a. rewrite E. cbn. split; [reflexivity|]. split; [|apply rm_inv_init].
      destruct (rm_start t); reflexivity.
    - pose proof (rm_start_lt t Hn E) as Hs. fold l in Hs.
      exists (visits (length l) (length l) (rm_start t)). split; [now apply visits_perm|].
      split; [now apply visits_entries|].
      apply (rm_loop_inv (ln_ino (s_ip s)) ord mask gens l Hnd (length l) (rm_start t) []);
        [apply rm_inv_init | | right; exact Hs].
      rewrite app_nil_l, visits_perm by exact Hs. apply NoDup_seq. }
  exists vis. split; [exact V1|]. split; [exact V2|]. split; [exact V3|].
  apply list_eq. intros k. rewrite (ri_l _ _ _ _ _ _ _ V3), list_lookup_fmap.
  destruct (l !! k) as [c|] eqn:Ek; [|reflexivity]. rewrite decide_True; [reflexivity|].
  rewrite V1. apply elem_of_seq. apply lookup_lt_Some in Ek. lia.
Qed.

(** ** The invariant *)

Section GoodOps.
Context `{LeaseCallsLaws} (mh rel : bool) (maxc : Z).
#[local] Abbreviation gd := (good mh rel maxc).
#[local] Abbreviation ok := (lease_ok mh rel maxc).

Lemma rm_section_good (ord act mask : Z) (gens : option (list Z)) (s : lst) :
  gd s (rm_section ord act mask gens s).1.
Proof.
  unfold rm_section. destruct (ln_leases (s_ip s)) as [t|] eqn:Et; [|reflexivity].
  intros Hok. pose proof (lo_table _ _ _ _ Hok t Et) as [T1 T2 T3 T4].
  pose proof (rm_section_inv ord act mask gens s t Et (eo_nodup _ _ _ _ T1) T4) as Hi.
  unfold rm_section in Hi. rewrite Et in Hi. destruct Hi as (vis & _ & _ & _ & El).
  refine ((_ : gd s _) Hok). etransitivity; [|apply good_send]. apply (good_table _ _ _ t _ _ Et).
  intros _. rewrite El. split; cbn; [|now rewrite length_fmap | exact T3 |].
  - eapply entries_ok_shrink; [|exact T1]. apply shrinks_fmap, removed_shrinks.
  - clear El; case_match; lia.
Qed.

Lemma rm_first_good (ord act mask : Z) (gens : option (list Z)) (s : lst) :
  gd s (rm_first ord act mask gens s).1.1.1.
Proof.
  unfold rm_first. pose proof (rm_section_good ord act mask gens s) as G1.
  destruct (rm_section ord act mask gens s) as [s1 a]. cbn in G1.
  set (s2 := if ra_write_remains a then _ else _).
  assert (gd s s2) as G2.
  { transitivity s1; [exact G1|]. unfold s2. destruct (ra_write_remains a); [reflexivity|].
    now apply good_ip. }
  destruct (ra_append a); [|exact G2]. destruct (ra_append_client a).
  { transitivity s2; [exact G2 | apply good_send]. }
  set (s3 := on_ip _ s2). assert (gd s s3) as G3.
  { transitivity s2; [exact G2 | now apply good_ip]. }
  destruct (ln_staging (s_ip s3)); [exact G3|].
  destruct (lc_trunc_excess (s_ip s3)) as [n error] eqn:E.
  transitivity s3; [exact G3|]. apply good_ip.
  - rewrite <- (lc_trunc_table (s_ip s3)). now rewrite E.
  - rewrite <- (lc_trunc_ino (s_ip s3)). now rewrite E.
Qed.

Lemma rm_second_good (env : lenv) (ord : Z) (a : rm_acc) (s : lst) :
  gd s (rm_second env ord a s).
Proof.
  unfold rm_second. set (s1 := if _ || _ || _ then _ else _).
  assert (gd s s1) as G1.
  { unfold s1. destruct (_ || _ || _); [|reflexivity].
    etransitivity; [apply good_send | now apply good_ip]. }
  destruct (ra_last a); [|exact G1].
  set (s2 := if _ || _ then _ else _). assert (gd s1 s2) as G2.
  { unfold s2. etransitivity; [now apply (good_ip _ _ _ (set_ip_abr false))|].
    match goal with |- good _ _ _ _ (if ?b then _ else _) => destruct b end;
      [now apply good_ip | reflexivity]. }
  transitivity s1; [exact G1|]. transitivity s2; [exact G2|].
  destruct (0 <? _); apply good_sched.
Qed.

Lemma remove_lease_good (env : lenv) (other : lst -> lst) (ord act mask : Z)
    (gens : option (list Z)) (s : lst) :
  (let s1 := (rm_first ord act mask gens s).1.1.1 in gd s1 (other s1)) ->
  gd s (sam_remove_lease env other ord act mask gens s).1.1.
Proof.
  intros Ho. unfold sam_remove_lease. pose proof (rm_first_good ord act mask gens s) as G1.
  destruct (rm_first ord act mask gens s) as [[[s1 a] act'] error]. cbn in *.
  transitivity s1; [exact G1|]. transitivity (other s1); [exact Ho|]. apply rm_second_good.
Qed.

(** A new time, flag or number in an entry. *)
Lemma set_time_shrinks (t : LEASE_type) (v : Z) (c : client_lease) :
  shrinks maxc c (set_time t v c).
Proof.
  split; [reflexivity|]. split; [exists (-1); now rewrite Z.land_m1_r|].
  unfold entry_shape. cbn. now rewrite length_insert.
Qed.

Lemma extend_lease_good (env : lenv) (ord mask : Z) (q : lreq) (s : lst) :
  gd s (sam_extend_lease env ord mask q s).1.
Proof.
  unfold sam_extend_lease. destruct (mask_type mask) as [t|]; [|reflexivity].
  destruct (sc_index _) as [i|]; [|reflexivity].
  destruct (entries s !! i) as [c|] eqn:Hc; [|reflexivity].
  destruct (_ && _); [|reflexivity]. etransitivity; [|apply good_sched].
  apply good_shrink. apply (shrinks_insert maxc _ _ c); [exact Hc | apply set_time_shrinks].
Qed.

Lemma wakeup_good (ord : Z) (s : lst) : gd s (BLOCK_wakeup ord s).
Proof.
  unfold BLOCK_wakeup. etransitivity; [|apply good_send]. apply good_shrink, shrinks_fmap.
  intros c. unfold wakeup_entry. destruct (_ =? _); [|apply clear_wait_shrinks].
  now apply shrinks_same.
Qed.

Lemma cl_attr_size_good (ord seqno size actions : Z) (s : lst) :
  gd s (cl_attr_size ord seqno size actions s).1.
Proof.
  unfold cl_attr_size. destruct (has_any _ _); [|reflexivity].
  match goal with |- context [match ?x with (s, b) => _ end] => set (r := x) end.
  assert (gd s r.1) as G1.
  { unfold r. destruct (ln_leases (s_ip s)) as [t|] eqn:Et; [|reflexivity].
    destruct (_ || _); [|reflexivity].
    destruct (first_entry ord (li_lease t)) as [[i c]|]; [|reflexivity].
    apply good_shrink. rewrite (entries_Some t s Et). apply shrinks_alter. intros d.
    now apply shrinks_same. }
  destruct r as [s1 b]. cbn in G1. destruct b; [|exact G1].
  transitivity s1; [exact G1 | now apply good_ip].
Qed.

Lemma callout_abr_good (ord : Z) (s : lst) : gd s (sam_callout_abr ord s).
Proof. apply good_send. Qed.
End GoodOps.
