(* ===== verification/LeaseTimes.v ===== *)
(** * Which leases expire, and the compaction of a table

    The loops of [sam_process_lease_times] and of a run over the clients of an inode
    (src/src/fs/samfs/reclaim.c), against a description lease by lease; and
    [sam_compact_lease_clients], which moves entries from the end of the array into the
    places of those that are no longer active: the result has exactly the active
    entries. *)
From S2P Require Import Prelude Lease LeaseOps LeaseTable LeaseGrant LeaseInv LeaseRemove LeaseExpire.

(** ** Compaction *)

#[local] Abbreviation live := (filter (fun c => active c = true)).

Lemma live_inactive (l : list client_lease) :
  Forall (fun c => active c = false) l -> live l = [].
Proof.
  induction 1 as [|c l Hc _ IH]; [reflexivity|].
  rewrite filter_cons_False; [exact IH | congruence].
Qed.

Lemma live_all (l : list client_lease) : Forall (fun c => active c = true) l -> live l = l.
Proof. induction 1 as [|c l Hc _ IH]; [reflexivity|]. now rewrite filter_cons_True, IH. Qed.

Lemma live_insert (l : list client_lease) (i : nat) (c d : client_lease) :
  l !! i = Some c -> active c = false -> active d = true ->
  live (<[i := d]> l) ≡ₚ d :: live l.
Proof.
  intros Hi Hc Hd. assert (i < length l)%nat as Hlt by (eapply lookup_lt_Some; eauto).
  rewrite <- (take_drop_middle l i c Hi) at 2. rewrite insert_take_drop by exact Hlt.
  rewrite !filter_app, filter_cons_True, filter_cons_False by (assumption || congruence).
  symmetry. apply Permutation_middle.
Qed.

(** The inner loop stops at [i] or at the last active entry behind it. *)
Lemma compact_back_spec (l : list client_lease) (i j n : nat) :
  (i <= j < length l)%nat -> n = S j ->
  let '(j', n') := compact_back l i j n in
  (i <= j' <= j)%nat /\ n' = S j' /\
  (forall k c, (j' < k <= j)%nat -> l !! k = Some c -> active c = false) /\
  (j' = i \/ exists d, l !! j' = Some d /\ active d = true).
Proof.
  revert n. induction j as [|j IH]; intros n Hj ->; cbn [compact_back].
  { split; [lia|]. split; [reflexivity|]. split; [intros k c Hk; lia | left; lia]. }
  destruct (Nat.leb_spec (S j) i) as [Hle|Hgt].
  { split; [lia|]. split; [reflexivity|]. split; [intros k c Hk; lia | left; lia]. }
  destruct (lookup_lt_is_Some_2 l (S j)) as [d E]; [lia|]. rewrite E.
  destruct (active d) eqn:Ea.
  { split; [lia|]. split; [reflexivity|]. split; [intros k e Hk; lia | right; eauto]. }
  specialize (IH (S (S j) - 1)%nat ltac:(lia) ltac:(lia)).
  destruct (compact_back l i j (S (S j) - 1)) as [j' n'].
  destruct IH as (H1 & H2 & H3 & H4). split; [lia|]. split; [exact H2|]. split; [|exact H4].
  intros k e Hk He. destruct (decide (k = S j)) as [->|]; [congruence | eapply H3; eauto; lia].
Qed.

Lemma take_inactive (l : list client_lease) (j n : nat) :
  (j <= n <= length l)%nat ->
  (forall k c, (j <= k < n)%nat -> l !! k = Some c -> active c = false) ->
  live (take n l) = live (take j l).
Proof.
  intros Hj H. replace n with (j + (n - j))%nat by lia.
  rewrite <- take_take_drop, filter_app, (live_inactive (take (n - j) (drop j l))); [apply app_nil_r|].
  apply Forall_lookup. intros k c Hk. apply lookup_take_Some in Hk as [Hk Hlt].
  rewrite lookup_drop in Hk. apply (H (j + k)%nat); [lia | exact Hk].
Qed.

Lemma compact_loop_spec (fuel : nat) (l : list client_lease) (i n : nat) :
  (i <= n <= length l)%nat -> (n - i <= fuel)%nat ->
  Forall (fun c => active c = true) (take i l) ->
  let '(l', n') := compact_loop fuel l i n in
  take n' l' ≡ₚ live (take n l) /\ (n' <= n)%nat /\ length l' = length l.
Proof.
  revert l i n. induction fuel as [|fuel IH]; intros l i n Hin Hf Hact; cbn [compact_loop].
  { replace n with i by lia. rewrite live_all; [auto | exact Hact]. }
  destruct (Nat.leb_spec n i) as [Hle|Hlt].
  { replace n with i by lia. rewrite live_all; [auto | exact Hact]. }
  destruct (lookup_lt_is_Some_2 l i) as [c Hc]; [lia|]. rewrite Hc.
  destruct (active c) eqn:Ea.
  { apply IH; [lia | lia |]. rewrite (take_S_r l i c Hc). apply Forall_app. auto. }
  pose proof (compact_back_spec l i (n - 1) n ltac:(lia) ltac:(lia)) as Hb.
  destruct (compact_back l i (n - 1) n) as [j n'].
  destruct Hb as (Hj & -> & Hinact & Hend). rewrite Nat.sub_succ, Nat.sub_0_r.
  destruct (Nat.eqb_spec j i) as [->|Hne].
  { split; [|split; [lia | reflexivity]].
    rewrite (take_inactive l i n), live_all; [reflexivity | exact Hact | lia |].
    intros k d Hk Hd. destruct (decide (k = i)) as [->|]; [congruence | eapply Hinact; eauto; lia]. }
  destruct Hend as [?|(d & Hd & Had)]; [contradiction|]. rewrite Hd.
  specialize (IH (<[i := d]> l) (S i) j). rewrite length_insert in IH.
  assert (take (S i) (<[i := d]> l) = take i l ++ [d]) as Et.
  { rewrite (take_S_r _ i d), take_insert_ge; [reflexivity | lia |].
    rewrite list_lookup_insert_eq; [reflexivity | lia]. }
  destruct (compact_loop fuel (<[i := d]> l) (S i) j) as [l' n''] eqn:El.
  destruct IH as (H1 & H2 & H3); [lia | lia | rewrite Et; apply Forall_app; auto |].
  split; [|split; [lia | exact H3]]. rewrite H1.
  rewrite (take_inactive l (S j) n) by (try lia; intros; eapply Hinact; eauto; lia).
  rewrite (take_S_r l j d Hd), filter_app, filter_cons_True, filter_nil by assumption.
  rewrite take_insert_lt by lia. rewrite (live_insert _ i c d); [| |exact Ea|exact Had].
  - now rewrite Permutation_app_comm.
  - rewrite lookup_take_lt; [exact Hc | lia].
Qed.

Lemma compact_perm (l : list client_lease) : sam_compact_lease_clients l ≡ₚ live l.
Proof.
  unfold sam_compact_lease_clients.
  pose proof (compact_loop_spec (length l) l 0 (length l) ltac:(lia) ltac:(lia) ltac:(constructor)) as H.
  destruct (compact_loop _ _ _ _) as [l' n']. rewrite (take_ge l) in H by lia. apply H.
Qed.

(** ** One client *)

Definition non_expiring (t : LEASE_type) : bool := has_any (lbit t) SAM_NON_EXPIRING_LEASES.

(** The lease of type [t] of entry [c] expires in a run at [now]: its time has come, the
    file is not being staged, and it is not one of the five extensions that a client
    without rivals gets. *)
Definition expires (now : Z) (staging : bool) (no_clients : nat) (c : client_lease)
    (t : LEASE_type) : bool :=
  negb (non_expiring t) && negb staging && (get_time t c <=? now) &&
  negb ((no_clients =? 1)%nat && (get_defer t c <? SAM_CLNT_DEFER_EXPIRE_CNT)).

(** The leases of a client that the cluster reports as down: all of the others that do
    not expire, but for a truncation. *)
Definition down_type (t : LEASE_type) : bool :=
  non_expiring t && negb (bool_decide (t = LTYPE_truncate)).

Lemma ltype_ix_inj (t u : LEASE_type) : ltype_ix t = ltype_ix u -> t = u.
Proof. destruct t, u; intros [=]; reflexivity. Qed.

Lemma ltype_ix_lt (t : LEASE_type) : (ltype_ix t < SAM_MAX_LTYPE)%nat.
Proof. destruct t; vm_compute; lia. Qed.

Lemma all_ltypes_nodup : NoDup all_ltypes.
Proof. apply (bool_decide_unpack _). vm_compute. exact I. Qed.

Lemma get_time_set (t u : LEASE_type) (v : Z) (c : client_lease) :
  length (cl_time c) = SAM_MAX_LTYPE ->
  get_time u (set_time t v c) = if decide (t = u) then v else get_time u c.
Proof.
  intros Hl. unfold get_time, set_time. cbn. destruct (decide (t = u)) as [->|Hne].
  - rewrite list_lookup_insert_eq; [reflexivity|]. rewrite Hl. apply ltype_ix_lt.
  - rewrite list_lookup_insert_ne; [reflexivity|]. intros E. now apply Hne, ltype_ix_inj.
Qed.

Lemma get_defer_set (t u : LEASE_type) (v : Z) (c : client_lease) :
  t <> u -> get_defer u (set_defer t v c) = get_defer u c.
Proof.
  intros Hne. unfold get_defer, set_defer. cbn.
  rewrite list_lookup_insert_ne; [reflexivity|]. intros E. now apply Hne, ltype_ix_inj.
Qed.

(** What an entry shares with its successor when only times and counts change. *)
Definition same_but_times (c c' : client_lease) : Prop :=
  rival c' = rival c /\ cl_wt c' = cl_wt c /\ cl_actions c' = cl_actions c /\
  cl_gen c' = cl_gen c /\ length (cl_time c') = length (cl_time c) /\
  length (cl_defer c') = length (cl_defer c).

Section Times.
Context (env : lenv) (now : Z) (staging : bool) (n : nat) (c : client_lease).
Hypothesis Hlen : length (cl_time c) = SAM_MAX_LTYPE.
#[local] Abbreviation L := (cl_leases c).
#[local] Abbreviation exp := (expires now staging n c).

Record pt_inv (done : list LEASE_type) (a : pt_acc) : Prop := {
  pi_same : same_but_times c (pa_c a);
  pi_time t : t ∉ done -> get_time t (pa_c a) = get_time t c;
  pi_defer t : t ∉ done -> get_defer t (pa_c a) = get_defer t c;
  pi_rem t : holds (pa_remaining a) t = holds L t && negb (bool_decide (t ∈ done) && exp t);
  pi_word : lease_word L -> lease_word (pa_remaining a);
  pi_exp : pa_expired a = existsb (fun t => holds L t && exp t) done;
  pi_valid : pa_valid a = existsb (fun t => holds L t && negb (exp t)) done;
  pi_min t : t ∈ done -> holds L t = true -> exp t = false ->
    pa_min a <= get_time t (pa_c a) /\
    (0 < e_hz env -> 0 < lease_ticks env 30 -> now < get_time t (pa_c a))
}.

Lemma pt_inv_init : pt_inv [] (mkPt c L false false LONG_MAX).
Proof.
  split; cbn; auto.
  - repeat split.
  - intros t. rewrite bool_decide_false by apply not_elem_of_nil. now rewrite andb_true_r.
  - intros t H. now apply not_elem_of_nil in H.
Qed.

(** A turn for a lease that is kept with entry [d]. *)
Lemma pt_inv_keep (done : list LEASE_type) (a : pt_acc) (t : LEASE_type) (d : client_lease) :
  pt_inv done a -> t ∉ done -> holds L t = true -> exp t = false ->
  same_but_times (pa_c a) d ->
  (forall u, u <> t -> get_time u d = get_time u (pa_c a)) ->
  (forall u, u <> t -> get_defer u d = get_defer u (pa_c a)) ->
  (0 < e_hz env -> 0 < lease_ticks env 30 -> now < get_time t d) ->
  pt_inv (done ++ [t])
    (mkPt d (pa_remaining a) (pa_expired a) true (Z.min (pa_min a) (get_time t d))).
Proof.
  intros [I1 I2 I3 I4 I5 I6 I7 I8] Ht Hh He (S1 & S2 & S3 & S4 & S5 & S6) Hti Hde Hfr.
  destruct I1 as (R1 & R2 & R3 & R4 & R5 & R6).
  split; cbn.
  - repeat split; congruence.
  - intros u Hu. rewrite elem_of_app, list_elem_of_singleton in Hu. rewrite Hti, I2; tauto.
  - intros u Hu. rewrite elem_of_app, list_elem_of_singleton in Hu. rewrite Hde, I3; tauto.
  - intros u. rewrite I4. f_equal. f_equal. destruct (decide (u = t)) as [->|Hne].
    + now rewrite He, !andb_false_r.
    + f_equal. apply bool_decide_ext. rewrite elem_of_app, list_elem_of_singleton. tauto.
  - exact I5.
  - rewrite I6, existsb_app. cbn. now rewrite Hh, He, orb_false_r.
  - rewrite existsb_app. cbn. rewrite Hh, He. cbn. now rewrite orb_true_r.
  - intros u Hu Hhu Heu. apply elem_of_app in Hu as [Hu|Hu%list_elem_of_singleton].
    + specialize (I8 u Hu Hhu Heu). rewrite (Hti u) by (intros Eu; apply Ht; now rewrite <- Eu).
      split; [lia | apply I8].
    + subst. split; [lia | exact Hfr].
Qed.

(** A turn for a lease that the client does not hold. *)
Lemma pt_inv_skip (done : list LEASE_type) (a : pt_acc) (t : LEASE_type) :
  pt_inv done a -> holds L t = false -> pt_inv (done ++ [t]) a.
Proof.
  intros [I1 I2 I3 I4 I5 I6 I7 I8] Hh. split; auto.
  - intros u Hu. apply I2. intros H. apply Hu, elem_of_app. now left.
  - intros u Hu. apply I3. intros H. apply Hu, elem_of_app. now left.
  - intros u. rewrite I4. destruct (decide (u = t)) as [->|Hne]; [now rewrite Hh|].
    do 3 f_equal. apply bool_decide_ext. rewrite elem_of_app, list_elem_of_singleton. tauto.
  - rewrite I6, existsb_app. cbn. now rewrite Hh, orb_false_r.
  - rewrite I7, existsb_app. cbn. now rewrite Hh, orb_false_r.
  - intros u Hu Hhu. apply elem_of_app in Hu as [Hu|Hu%list_elem_of_singleton]; [now apply I8|].
    congruence.
Qed.

(** A turn for a lease that expires. *)
Lemma pt_inv_expire (done : list LEASE_type) (a : pt_acc) (t : LEASE_type) :
  pt_inv done a -> holds L t = true -> exp t = true ->
  pt_inv (done ++ [t]) (mkPt (set_defer t 0 (pa_c a)) (Z.land (pa_remaining a) (~~ (lbit t)))
    true (pa_valid a) (pa_min a)).
Proof.
  intros [I1 I2 I3 I4 I5 I6 I7 I8] Hh He. destruct I1 as (R1 & R2 & R3 & R4 & R5 & R6).
  split; cbn.
  - repeat split; try assumption. cbn. rewrite length_insert. exact R6.
  - intros u Hu. rewrite elem_of_app, list_elem_of_singleton in Hu. apply I2. tauto.
  - intros u Hu. rewrite elem_of_app, list_elem_of_singleton in Hu.
    rewrite get_defer_set by (intros ->; tauto). apply I3. tauto.
  - intros u. autorewrite with lease. rewrite I4. destruct (decide (u = t)) as [->|Hne].
    + rewrite (bool_decide_true (t = t)), andb_false_r by reflexivity. rewrite He.
      rewrite (bool_decide_true (t ∈ done ++ [t])); [now rewrite andb_false_r|].
      apply elem_of_app. right. now apply list_elem_of_singleton.
    + rewrite (bool_decide_false (t = u)), andb_true_r by congruence. do 3 f_equal.
      apply bool_decide_ext. rewrite elem_of_app, list_elem_of_singleton. tauto.
  - intros Hw. apply lease_word_land. auto.
  - rewrite existsb_app. cbn. now rewrite Hh, He, !orb_true_r.
  - rewrite I7, existsb_app. cbn. now rewrite Hh, He, orb_false_r.
  - intros u Hu Hhu Heu. apply elem_of_app in Hu as [Hu|Hu%list_elem_of_singleton]; [|congruence].
    exact (I8 u Hu Hhu Heu).
Qed.

Lemma lease_time_turn_inv (done : list LEASE_type) (a : pt_acc) (t : LEASE_type) :
  pt_inv done a -> t ∉ done ->
  pt_inv (done ++ [t]) (lease_time_turn env now staging n L a t).
Proof.
  intros Hi Ht. unfold lease_time_turn. rewrite has_any_lbit. fold (non_expiring t).
  destruct (holds L t) eqn:Hh; [|now apply pt_inv_skip].
  pose proof (pi_time _ _ Hi t Ht) as I2. pose proof (pi_defer _ _ Hi t Ht) as I3.
  destruct (pi_same _ _ Hi) as (_ & _ & _ & _ & R5 & _).
  assert (forall v u, u <> t -> get_time u (set_time t v (pa_c a)) = get_time u (pa_c a)) as Hti.
  { intros v u Hne. rewrite get_time_set, decide_False by congruence. reflexivity. }
  destruct (non_expiring t || staging) eqn:E1.
  { apply pt_inv_keep; auto.
    - unfold expires. now rewrite <- negb_orb, E1.
    - repeat split. cbn. apply length_insert.
    - intros. rewrite get_time_set, decide_True by congruence. lia. }
  destruct (get_time t (pa_c a) <=? now) eqn:E2; rewrite I2 in E2.
  2:{ apply pt_inv_keep; auto; [unfold expires; now rewrite E2, andb_false_r | repeat split |].
    intros _ _. rewrite I2. apply Z.leb_gt in E2. exact E2. }
  destruct ((n =? 1)%nat && (get_defer t (pa_c a) <? _)) eqn:E3; rewrite I3 in E3.
  { apply pt_inv_keep; auto.
    - unfold expires. now rewrite E3, andb_false_r.
    - repeat split; cbn; apply length_insert.
    - intros u Hne. exact (Hti _ u Hne).
    - intros u Hne. rewrite get_defer_set by congruence. reflexivity.
    - intros. change (get_time t (set_defer ?x ?y ?z)) with (get_time t z).
      rewrite get_time_set, decide_True by congruence. lia. }
  apply pt_inv_expire; [exact Hi | exact Hh|].
  unfold expires. now rewrite <- negb_orb, E1, E2, E3.
Qed.

Lemma lease_times_inv :
  pt_inv all_ltypes
    (fold_left (lease_time_turn env now staging n L) all_ltypes (mkPt c L false false LONG_MAX)).
Proof.
  assert (forall todo done a, pt_inv done a -> NoDup (done ++ todo) ->
    pt_inv (done ++ todo) (fold_left (lease_time_turn env now staging n L) todo a)) as Hgen.
  { induction todo as [|t todo IH]; intros done a Hi Hn; cbn; [now rewrite app_nil_r|].
    rewrite (cons_middle t done), app_assoc in Hn |- *. apply IH; [|exact Hn].
    apply lease_time_turn_inv; [exact Hi|]. rewrite <- app_assoc in Hn.
    apply NoDup_app in Hn as (_ & Hn & _). intros H. apply (Hn t H). constructor. }
  apply (Hgen all_ltypes [] _ pt_inv_init all_ltypes_nodup).
Qed.
End Times.

Lemma holds_down_mask (t : LEASE_type) :
  holds (Z.land SAM_NON_EXPIRING_LEASES (~~ CL_TRUNCATE)) t = down_type t.
Proof. destruct t; reflexivity. Qed.

(** Words are compared lease by lease. *)
Lemma lease_word_sub (x y : Z) :
  lease_word x -> (forall t, holds x t = true -> holds y t = true) -> x = Z.land y x.
Proof.
  intros Hx H. assert (Z.land x (~~ y) = 0) as E.
  { apply lease_word_zero; [auto with lease|]. intros t. autorewrite with lease.
    specialize (H t). destruct (holds x t), (holds y t); naive_solver. }
  rewrite Z.land_comm. apply Z.bits_inj'. intros k Hk.
  pose proof (f_equal (fun z => Z.testbit z k) E) as Ek. cbn in Ek.
  rewrite Z.land_spec, Z.lnot_spec, Z.bits_0 in Ek by exact Hk. rewrite Z.land_spec.
  destruct (Z.testbit x k), (Z.testbit y k); easy.
Qed.

Lemma existsb_ltypes (f g : LEASE_type -> bool) :
  existsb (fun t => f t && g t) all_ltypes = true <-> exists t, f t = true /\ g t = true.
Proof.
  rewrite existsb_exists. split.
  - intros (t & _ & [H1 H2]%andb_true_iff). eauto.
  - intros (t & H1 & H2). exists t. split; [apply list_elem_of_In, all_ltypes_in|].
    now rewrite H1, H2.
Qed.

Lemma process_lease_times_spec (env : lenv) (sc_down : Z -> bool) (ino now : Z)
    (staging : bool) (n : nat) (c : client_lease) :
  length (cl_time c) = SAM_MAX_LTYPE -> lease_word (cl_leases c) ->
  let '(p, _) := sam_process_lease_times env sc_down ino now staging n c in
  let exp := expires now staging n c in
  same_but_times c (pa_c p) /\ lease_word (pa_remaining p) /\
  (forall t, holds (pa_remaining p) t =
     holds (cl_leases c) t && negb (exp t) && negb (sc_down (cl_ord c) && down_type t)) /\
  (pa_expired p = true <-> exists t, holds (cl_leases c) t = true /\ exp t = true) /\
  (pa_valid p = true <-> exists t, holds (cl_leases c) t = true /\ exp t = false) /\
  (forall t, holds (cl_leases c) t = true -> exp t = false ->
     pa_min p <= get_time t (pa_c p) /\
     (0 < e_hz env -> 0 < lease_ticks env 30 -> now < get_time t (pa_c p))).
Proof.
  intros Hlen Hw. unfold sam_process_lease_times.
  pose proof (lease_times_inv env now staging n c Hlen) as [I1 _ _ I4 I5 I6 I7 I8].
  set (a := fold_left _ _ _) in *. set (mask := Z.land SAM_NON_EXPIRING_LEASES (~~ CL_TRUNCATE)).
  assert (forall t, holds (pa_remaining a) t = holds (cl_leases c) t && negb (expires now staging n c t)) as Hrem.
  { intros t. rewrite I4, bool_decide_true by apply all_ltypes_in. reflexivity. }
  assert (pa_expired a = true <->
    exists t, holds (cl_leases c) t = true /\ expires now staging n c t = true) as Hexp.
  { rewrite I6. apply existsb_ltypes. }
  assert (pa_valid a = true <->
    exists t, holds (cl_leases c) t = true /\ expires now staging n c t = false) as Hval.
  { rewrite I7, existsb_ltypes. split; intros (t & H1 & H2); exists t;
      (split; [exact H1 | now destruct (expires now staging n c t)]). }
  assert (forall t, holds (cl_leases c) t = true -> expires now staging n c t = false ->
    pa_min a <= get_time t (pa_c a) /\
    (0 < e_hz env -> 0 < lease_ticks env 30 -> now < get_time t (pa_c a))) as Hmin
    by (intros t; apply I8, all_ltypes_in).
  clearbody a. clear I4 I6 I7 I8.
  destruct (has_any (pa_remaining a) mask && sc_down (cl_ord c)) eqn:Ed;
    cbn [pa_c pa_remaining pa_expired pa_valid pa_min].
  - apply andb_true_iff in Ed as [_ Ed]. split; [exact I1|]. split; [auto with lease|].
    split; [|auto]. intros t. autorewrite with lease. unfold mask.
    now rewrite holds_down_mask, Hrem, Ed.
  - split; [exact I1|]. split; [auto|]. split; [|auto]. intros t. rewrite Hrem.
    apply andb_false_iff in Ed as [Ed|Ed]; [|rewrite Ed; now rewrite andb_true_r].
    destruct (down_type t) eqn:Edt; [|now rewrite andb_false_r, andb_true_r].
    rewrite <- holds_down_mask in Edt. pose proof (has_any_false _ _ t Ed Edt) as H0.
    rewrite Hrem in H0. now rewrite H0.
Qed.

(** Actions play no part. *)
Lemma lease_time_turn_actions (env : lenv) (now : Z) (staging : bool) (n : nat) (L v : Z)
    (a : pt_acc) (t : LEASE_type) :
  lease_time_turn env now staging n L
    (mkPt (set_actions v (pa_c a)) (pa_remaining a) (pa_expired a) (pa_valid a) (pa_min a)) t =
  let b := lease_time_turn env now staging n L a t in
  mkPt (set_actions v (pa_c b)) (pa_remaining b) (pa_expired b) (pa_valid b) (pa_min b).
Proof.
  unfold lease_time_turn. cbn [pa_c pa_remaining pa_expired pa_valid pa_min].
  change (get_time t (set_actions v (pa_c a))) with (get_time t (pa_c a)).
  change (get_defer t (set_actions v (pa_c a))) with (get_defer t (pa_c a)).
  repeat case_match; reflexivity.
Qed.

Lemma process_lease_times_actions (env : lenv) (sc_down : Z -> bool) (ino now : Z)
    (staging : bool) (n : nat) (v : Z) (c : client_lease) :
  sam_process_lease_times env sc_down ino now staging n (set_actions v c) =
  let '(p, ms) := sam_process_lease_times env sc_down ino now staging n c in
  (mkPt (set_actions v (pa_c p)) (pa_remaining p) (pa_expired p) (pa_valid p) (pa_min p), ms).
Proof.
  unfold sam_process_lease_times. generalize all_ltypes as ts. intros ts.
  cbn [cl_leases cl_ord set_actions].
  assert (forall a, fold_left (lease_time_turn env now staging n (cl_leases c)) ts
    (mkPt (set_actions v (pa_c a)) (pa_remaining a) (pa_expired a) (pa_valid a) (pa_min a)) =
    let b := fold_left (lease_time_turn env now staging n (cl_leases c)) ts a in
    mkPt (set_actions v (pa_c b)) (pa_remaining b) (pa_expired b) (pa_valid b) (pa_min b)) as Hf.
  { induction ts as [|t ts IH]; intros a; [reflexivity|]. cbn [fold_left].
    rewrite lease_time_turn_actions. apply IH. }
  specialize (Hf (mkPt c (cl_leases c) false false LONG_MAX)).
  cbn [pa_remaining pa_c pa_expired pa_valid pa_min] in Hf. rewrite Hf. cbv zeta.
  cbn [pa_remaining pa_c pa_expired pa_valid pa_min].
  destruct (has_any _ _ && sc_down _); reflexivity.
Qed.
