(* ===== verification/LeaseClients.v ===== *)
(** * A run over the clients of one inode

    The loop of [sam_expire_server_leases] over the table of an inode: which leases it
    removes, whom it calls, and when the next run is due. *)
From S2P Require Import Prelude Lease LeaseOps LeaseTable LeaseGrant LeaseInv LeaseRemove LeaseExpire LeaseTimes.

#[local] Opaque sam_process_lease_times.

(** The entry that a client gets from the result [p] of [sam_process_lease_times]: the
    remaining leases are stored when a lease has expired. *)
Definition run_of (p : pt_acc) : client_lease :=
  if pa_expired p then set_leases (pa_remaining p) (pa_c p) else pa_c p.

Lemma run_of_shrinks (maxc : Z) (p : pt_acc) (c : client_lease) :
  same_but_times c (pa_c p) -> lease_word (pa_remaining p) ->
  (forall t, holds (pa_remaining p) t = true -> holds (cl_leases c) t = true) ->
  entry_shape maxc c -> shrinks maxc c (run_of p).
Proof.
  intros ([= E1 E2] & E3 & E4 & E5 & E6 & E7) Hw Hr (S1 & S2 & S3 & S4 & S5 & S6).
  unfold run_of. destruct (pa_expired p); (split; [exact E1|]; split).
  - exists (pa_remaining p). now apply lease_word_sub.
  - intros _. unfold entry_shape. cbn. rewrite E1, E3, E5, E6, E7. auto 10.
  - exists (-1). rewrite Z.land_m1_r. exact E2.
  - intros _. unfold entry_shape. rewrite E1, E2, E3, E5, E6, E7. auto 10.
Qed.

Lemma run_of_actions (p : pt_acc) : cl_actions (run_of p) = cl_actions (pa_c p).
Proof. unfold run_of. now destruct (pa_expired p). Qed.

Section Clients.
Context (env : lenv) (sc_down : Z -> bool) (ino now : Z) (staging : bool) (maxc : Z).

(** The result of [sam_process_lease_times] for a table of [n] clients. *)
Definition outcome (n : nat) (c : client_lease) : pt_acc :=
  (sam_process_lease_times env sc_down ino now staging n c).1.

(** The entry after the run, but for its actions. *)
Definition run_entry (n : nat) (c : client_lease) : client_lease := run_of (outcome n c).

Definition run_callout (n : nat) (done : bool) (c : client_lease) : callout :=
  mkCo (cl_ord c)
    (if done && pa_expired (outcome n c)
     then Z.land (cl_leases c) (~~ (pa_remaining (outcome n c))) else 0) (waiting c).

(** When someone's lease expires, nobody is left waiting. *)
Definition calm (b : bool) (c : client_lease) : client_lease := if b then clear_wait c else c.

Lemma outcome_spec (n : nat) (c : client_lease) :
  entry_shape maxc c ->
  let exp := expires now staging n c in
  same_but_times c (pa_c (outcome n c)) /\ lease_word (pa_remaining (outcome n c)) /\
  (forall t, holds (pa_remaining (outcome n c)) t =
     holds (cl_leases c) t && negb (exp t) && negb (sc_down (cl_ord c) && down_type t)) /\
  (pa_expired (outcome n c) = true <->
     exists t, holds (cl_leases c) t = true /\ exp t = true) /\
  (pa_valid (outcome n c) = true <->
     exists t, holds (cl_leases c) t = true /\ exp t = false) /\
  (forall t, holds (cl_leases c) t = true -> exp t = false ->
     pa_min (outcome n c) <= get_time t (pa_c (outcome n c)) /\
     (0 < e_hz env -> 0 < lease_ticks env 30 -> now < get_time t (pa_c (outcome n c)))).
Proof.
  intros (_ & Hw & _ & Hl & _).
  pose proof (process_lease_times_spec env sc_down ino now staging n c Hl Hw) as H.
  unfold outcome. destruct (sam_process_lease_times _ _ _ _ _ _ _) as [p ms]. exact H.
Qed.

Lemma outcome_calm (n : nat) (b : bool) (c : client_lease) :
  entry_shape maxc c ->
  let p := outcome n (calm b c) in
  pa_c p = calm b (pa_c (outcome n c)) /\ pa_remaining p = pa_remaining (outcome n c) /\
  pa_expired p = pa_expired (outcome n c) /\ pa_valid p = pa_valid (outcome n c) /\
  pa_min p = pa_min (outcome n c).
Proof.
  intros Hs. destruct (outcome_spec n c Hs) as ((_ & _ & Ea & _) & _).
  destruct b; [|auto 10]. unfold calm, clear_wait.
  assert (waiting (pa_c (outcome n c)) = waiting c) as Hw by (unfold waiting; now rewrite Ea).
  rewrite Hw. destruct (waiting c); [|auto 10]. rewrite Ea. unfold outcome.
  rewrite process_lease_times_actions.
  destruct (sam_process_lease_times _ _ _ _ _ _ _) as [p ms]. cbn. auto 10.
Qed.

Lemma run_entry_shrinks (n : nat) (c : client_lease) :
  entry_shape maxc c -> shrinks maxc c (run_entry n c).
Proof.
  intros Hs. destruct (outcome_spec n c Hs) as (H1 & H2 & H3 & _).
  apply (run_of_shrinks maxc (outcome n c) c H1 H2); [|exact Hs]. intros t. rewrite H3.
  intros [[H _]%andb_true_iff _]%andb_true_iff. exact H.
Qed.

Section Run.
Context (l : list client_lease) (wait : Z).
Hypothesis Hshape : Forall (entry_shape maxc) l.
#[local] Abbreviation n := (length l).
#[local] Abbreviation E := (fun c => pa_expired (outcome n c)).

(** After [k] clients. *)
Record ex_inv (k : nat) (a : ex_acc) : Prop := {
  xi_l j : xa_l a !! j =
    (fun c => calm (existsb E (take k l)) (if (j <? k)%nat then run_entry n c else c)) <$> l !! j;
  xi_none : existsb E (take k l) = false -> xa_callouts a = None;
  xi_some : existsb E (take k l) = true ->
    xa_callouts a = Some (imap (fun j c => run_callout n (j <? k)%nat c) l);
  xi_wait0 : xa_wait a <= wait;
  xi_wait j c : (j < k)%nat -> l !! j = Some c -> pa_valid (outcome n c) = true ->
    xa_wait a <= pa_min (outcome n c)
}.

Lemma ex_inv_init : ex_inv 0 (mkEx l None wait []).
Proof.
  split; cbn; try easy; try lia. intros j. now rewrite option_fmap_id.
Qed.

Lemma xi_length (k : nat) (a : ex_acc) : ex_inv k a -> length (xa_l a) = n.
Proof.
  intros Hi. apply (Nat.le_antisymm); apply Nat.le_ngt; intros H;
    apply lookup_lt_is_Some_2 in H as [x Hx].
  - rewrite (xi_l _ _ Hi), lookup_ge_None_2 in Hx by lia. discriminate.
  - pose proof (xi_l _ _ Hi (length (xa_l a))) as Ex.
    rewrite Hx, lookup_ge_None_2 in Ex by lia. discriminate.
Qed.

Lemma take_S_existsb (f : client_lease -> bool) (k : nat) (c : client_lease) :
  l !! k = Some c -> existsb f (take (S k) l) = existsb f (take k l) || f c.
Proof. intros H. rewrite (take_S_r l k c H), existsb_app. cbn. now rewrite orb_false_r. Qed.

Lemma waiting_run_entry (c : client_lease) :
  entry_shape maxc c -> waiting (run_entry n c) = waiting c.
Proof.
  intros Hs. destruct (outcome_spec n c Hs) as ((_ & _ & Ea & _) & _).
  unfold run_entry, waiting. now rewrite run_of_actions, Ea.
Qed.

Lemma calm_set_leases (b : bool) (v : Z) (c : client_lease) :
  calm b (set_leases v c) = set_leases v (calm b c).
Proof. unfold calm, clear_wait. destruct b; [|reflexivity]. change (waiting (set_leases v c)) with (waiting c). now destruct (waiting c). Qed.

Lemma ltb_S_eq (k : nat) : (k <? S k)%nat = true.
Proof. apply Nat.ltb_lt. lia. Qed.

Lemma ltb_S_ne (j k : nat) : j <> k -> (j <? S k)%nat = (j <? k)%nat.
Proof. intros H. destruct (Nat.ltb_spec j (S k)), (Nat.ltb_spec j k); lia. Qed.

Lemma calm_rival (b : bool) (c : client_lease) : rival (calm b c) = rival c.
Proof. destruct b; [apply clear_wait_rival | reflexivity]. Qed.

Lemma run_entry_ord (c : client_lease) :
  entry_shape maxc c -> cl_ord (run_entry n c) = cl_ord c.
Proof. intros Hs. apply (run_entry_shrinks n c Hs). Qed.

(** The entries when client [k] gets [d] in a table that is calm from now on. *)
Lemma entries_step (k : nat) (a : ex_acc) (b' : bool) (d c : client_lease) :
  ex_inv k a -> l !! k = Some c ->
  (b' = false -> existsb E (take k l) = false) -> d = calm b' (run_entry n c) ->
  forall j, (<[k := d]> (calm b' <$> xa_l a)) !! j =
    (fun c => calm b' (if (j <? S k)%nat then run_entry n c else c)) <$> l !! j.
Proof.
  intros Hi Hc Hb -> j. destruct (decide (j = k)) as [->|Hne].
  - rewrite list_lookup_insert_eq, Hc; [now cbn [fmap option_fmap option_map]; rewrite ltb_S_eq|].
    rewrite length_fmap, (xi_length k a Hi). eapply lookup_lt_Some; eauto.
  - rewrite list_lookup_insert_ne, list_lookup_fmap, (xi_l _ _ Hi) by congruence.
    destruct (l !! j) as [e|]; [|reflexivity]. cbn [fmap option_fmap option_map].
    rewrite ltb_S_ne by exact Hne. f_equal.
    set (x := if (j <? k)%nat then _ else _). clearbody x.
    destruct b'; [|now rewrite (Hb eq_refl)]. unfold calm. destruct (existsb _ _); [|reflexivity].
    unfold clear_wait at 1. now rewrite clear_wait_clears.
Qed.

Lemma callouts_step (k : nat) (c : client_lease) (co : list callout) (d : callout) :
  co = imap (fun j c => run_callout n (j <? k)%nat c) l -> l !! k = Some c ->
  d = run_callout n true c ->
  <[k := d]> co = imap (fun j c => run_callout n (j <? S k)%nat c) l.
Proof.
  intros -> Hc ->. apply list_eq. intros j. rewrite list_lookup_imap.
  destruct (decide (j = k)) as [->|Hne].
  - rewrite list_lookup_insert_eq, Hc; [now cbn [fmap option_fmap option_map]; rewrite ltb_S_eq|].
    rewrite length_imap. eapply lookup_lt_Some; eauto.
  - rewrite list_lookup_insert_ne, list_lookup_imap by congruence.
    destruct (l !! j); [|reflexivity]. cbn [fmap option_fmap option_map].
    now rewrite ltb_S_ne by exact Hne.
Qed.

(** The callouts when the first lease expires, at client [k]. *)
Lemma prepare_step (k : nat) (a : ex_acc) (c d : client_lease) :
  ex_inv k a -> existsb E (take k l) = false -> l !! k = Some c -> rival d = rival c ->
  waiting d = waiting c ->
  (fun c => mkCo (cl_ord c) 0 (waiting c)) <$> <[k := d]> (xa_l a) =
    imap (fun j c => run_callout n (j <? k)%nat c) l.
Proof.
  intros Hi Hb Hc [= Eo _] Ew. apply list_eq. intros j.
  rewrite list_lookup_fmap, list_lookup_imap. destruct (decide (j = k)) as [->|Hne].
  - rewrite list_lookup_insert_eq, Hc; [|rewrite (xi_length k a Hi); eapply lookup_lt_Some; eauto].
    cbn [fmap option_fmap option_map]. unfold run_callout. now rewrite Nat.ltb_irrefl, Eo, Ew.
  - rewrite list_lookup_insert_ne, (xi_l _ _ Hi), Hb by congruence.
    destruct (l !! j) as [e|] eqn:Ee; [|reflexivity]. cbn [fmap option_fmap option_map].
    assert (entry_shape maxc e) as Hs by (eapply Forall_lookup_1; eauto).
    unfold run_callout, calm. destruct (Nat.ltb_spec j k) as [Hlt|Hge]; [|reflexivity].
    rewrite (run_entry_ord e Hs), (waiting_run_entry e Hs). f_equal.
    destruct (pa_expired (outcome n e)) eqn:He; [|reflexivity]. exfalso.
    apply not_true_iff_false in Hb. apply Hb, existsb_exists. exists e.
    split; [|exact He]. apply list_elem_of_In. apply (list_elem_of_lookup_2 _ j).
    rewrite lookup_take_lt; assumption.
Qed.

Lemma calm_actions_keep (b : bool) (c : client_lease) : cl_leases (calm b c) = cl_leases c.
Proof. pose proof (calm_rival b c) as [= _ H]. exact H. Qed.

Lemma alter_insert_same {A} (f : A -> A) (k : nat) (x : A) (xs : list A) :
  (k < length xs)%nat -> alter f k (<[k := x]> xs) = <[k := f x]> xs.
Proof.
  intros H. rewrite (alter_insert_at f _ k x), list_insert_insert_eq; [reflexivity|].
  now apply list_lookup_insert_eq.
Qed.

(** The table is calm once a lease has expired. *)
Lemma calm_entries (k : nat) (a : ex_acc) :
  ex_inv k a -> calm (existsb E (take k l)) <$> xa_l a = xa_l a.
Proof.
  intros Hi. apply list_eq. intros j. rewrite list_lookup_fmap, (xi_l _ _ Hi).
  destruct (l !! j) as [e|]; [|reflexivity]. cbn [fmap option_fmap option_map]. f_equal.
  set (x := if (j <? k)%nat then _ else _). clearbody x. unfold calm.
  destruct (existsb _ _); [|reflexivity]. unfold clear_wait at 1. now rewrite clear_wait_clears.
Qed.

Lemma ex_inv_true (k : nat) (l' : list client_lease) (co : option (list callout)) (w : Z)
    (out : list lmsg) :
  existsb E (take k l) = true ->
  (forall j, l' !! j =
     (fun c => calm true (if (j <? k)%nat then run_entry n c else c)) <$> l !! j) ->
  co = Some (imap (fun j c => run_callout n (j <? k)%nat c) l) ->
  w <= wait ->
  (forall j c, (j < k)%nat -> l !! j = Some c -> pa_valid (outcome n c) = true ->
     w <= pa_min (outcome n c)) ->
  ex_inv k (mkEx l' co w out).
Proof. intros Hb Hl Hco Hw Hj. split; cbn [xa_l xa_callouts xa_wait]; rewrite ?Hb; auto. discriminate. Qed.

Lemma wait_step (v : bool) (m x : Z) :
  let w := if v && (m <? x) then m else x in w <= x /\ (v = true -> w <= m).
Proof. destruct v; cbn; [destruct (Z.ltb_spec m x)|]; split; intros; try discriminate; lia. Qed.

(** The time of the next run, after client [k]. *)
Lemma wait_turn (k : nat) (a : ex_acc) (c : client_lease) (w : Z) :
  ex_inv k a -> l !! k = Some c -> w <= xa_wait a ->
  (pa_valid (outcome n c) = true -> w <= pa_min (outcome n c)) ->
  w <= wait /\
  forall j e, (j < S k)%nat -> l !! j = Some e -> pa_valid (outcome n e) = true ->
    w <= pa_min (outcome n e).
Proof.
  intros Hi Hc W0 W1. pose proof (xi_wait0 _ _ Hi). split; [lia|].
  intros j e Hj He Hv. destruct (decide (j = k)) as [->|Hne].
  - assert (e = c) as -> by congruence. auto.
  - pose proof (xi_wait _ _ Hi j e ltac:(lia) He Hv). lia.
Qed.

(** The table and the callouts when a lease of client [k] expires. *)
Lemma expired_lists (k : nat) (a : ex_acc) (c : client_lease) (p : pt_acc) (L : Z) :
  ex_inv k a -> l !! k = Some c -> entry_shape maxc c ->
  pa_c p = calm (existsb E (take k l)) (pa_c (outcome n c)) ->
  pa_remaining p = pa_remaining (outcome n c) -> pa_expired (outcome n c) = true ->
  L = cl_leases c ->
  let '(co, l') := match xa_callouts a with
                   | Some co => (co, <[k := pa_c p]> (xa_l a))
                   | None => sam_prepare_callout_table (<[k := pa_c p]> (xa_l a))
                   end in
  (forall j, alter (set_leases (pa_remaining p)) k l' !! j =
     (fun c => calm true (if (j <? S k)%nat then run_entry n c else c)) <$> l !! j) /\
  alter (fun o => mkCo (co_ord o) (Z.land L (~~ (pa_remaining p))) (co_waiting o)) k co =
    imap (fun j c => run_callout n (j <? S k)%nat c) l.
Proof.
  intros Hi Hc Hs Pc Pr Pe ->. pose proof (xi_length k a Hi) as Hlen.
  pose proof (lookup_lt_Some _ _ _ Hc) as Hk.
  assert (alter (fun o => mkCo (co_ord o) (Z.land (cl_leases c) (~~ (pa_remaining p))) (co_waiting o)) k
    (imap (fun j c => run_callout n (j <? k)%nat c) l) =
    imap (fun j c => run_callout n (j <? S k)%nat c) l) as Hco.
  { erewrite alter_insert_at by (rewrite list_lookup_imap, Hc; reflexivity).
    apply (callouts_step k c); [reflexivity | exact Hc |]. cbn [run_callout co_ord co_waiting].
    unfold run_callout. now rewrite Pe, Pr. }
  destruct (outcome_spec n c Hs) as ((Or & _ & Oa & _) & _).
  destruct (existsb E (take k l)) eqn:Hb.
  - pose proof (calm_entries k a Hi) as Hcalm. rewrite Hb in Hcalm.
    rewrite (xi_some _ _ Hi Hb), alter_insert_same by lia. split; [|exact Hco].
    rewrite <- Hcalm. apply (entries_step k a true _ c Hi Hc); [discriminate|].
    unfold run_entry, run_of. now rewrite Pe, calm_set_leases, <- Pc, <- Pr.
  - rewrite (xi_none _ _ Hi Hb). unfold sam_prepare_callout_table. unfold calm in Pc.
    rewrite list_fmap_insert, alter_insert_same by (rewrite length_fmap; lia). split.
    + apply (entries_step k a true _ c Hi Hc); [discriminate|].
      unfold run_entry, run_of. now rewrite Pe, calm_set_leases, <- Pr, Pc.
    + rewrite (prepare_step k a c (pa_c p) Hi Hb Hc); [exact Hco | now rewrite Pc |].
      unfold waiting. now rewrite Pc, Oa.
Qed.

Lemma expire_turn_inv (k : nat) (a : ex_acc) :
  ex_inv k a -> (k < n)%nat -> ex_inv (S k) (expire_turn env sc_down ino now staging a k).
Proof.
  intros Hi Hk. destruct (lookup_lt_is_Some_2 l k Hk) as [c Hc].
  assert (entry_shape maxc c) as Hs by (eapply Forall_lookup_1; eauto).
  pose proof (xi_length k a Hi) as Hlen. pose proof (xi_l _ _ Hi k) as Hak.
  rewrite Hc, Nat.ltb_irrefl in Hak. cbn [fmap option_fmap option_map] in Hak.
  pose proof (take_S_existsb E k c Hc) as Eb. cbv beta in Eb.
  destruct (outcome_calm n (existsb E (take k l)) c Hs) as (Pc & Pr & Pe & Pv & Pm).
  unfold expire_turn. rewrite Hak, Hlen.
  set (cc := calm (existsb E (take k l)) c) in *.
  assert (exists p ms, sam_process_lease_times env sc_down ino now staging n cc = (p, ms) /\
    outcome n cc = p) as (p & ms & Ep & Eo).
  { unfold outcome. destruct (sam_process_lease_times _ _ _ _ _ _ _) as [p ms]. eauto. }
  rewrite Ep. rewrite Eo in Pc, Pr, Pe, Pv, Pm. clear Ep Eo.
  destruct (wait_step (pa_valid p) (pa_min p) (xa_wait a)) as [W0 W1].
  set (w := if pa_valid p && _ then _ else _) in *. clearbody w. rewrite Pv, Pm in W1.
  destruct (wait_turn k a c w Hi Hc W0 W1) as [W4 W2].
  assert (cl_leases cc = cl_leases c) as El by apply calm_actions_keep.
  destruct (pa_expired p) eqn:Hexp; rewrite <- Pe in Eb.
  - pose proof (expired_lists k a c p (cl_leases cc) Hi Hc Hs Pc Pr (eq_sym Pe) El) as HL.
    destruct (match xa_callouts a with Some _ => _ | None => _ end) as [co l'].
    destruct HL as [HL Hco]. rewrite orb_true_r in Eb.
    apply ex_inv_true; [exact Eb | exact HL | now rewrite Hco | exact W4 | exact W2].
  - rewrite orb_false_r in Eb. split; cbn [xa_l xa_callouts xa_wait]; rewrite ?Eb;
      [| apply (xi_none _ _ Hi) | | exact W4 | exact W2].
    + rewrite <- (calm_entries k a Hi). apply (entries_step k a _ _ c Hi Hc); [auto|].
      unfold run_entry, run_of. now rewrite <- Pe, <- Pc.
    + intros Hb. rewrite (xi_some _ _ Hi Hb). f_equal.
      rewrite <- (callouts_step k c _ _ eq_refl Hc eq_refl).
      rewrite list_insert_id; [reflexivity|]. rewrite list_lookup_imap, Hc.
      unfold run_callout. cbn. rewrite <- Pe. now rewrite andb_false_r.
Qed.

Lemma expire_clients_inv :
  ex_inv n (expire_clients env sc_down ino now staging wait l).
Proof.
  unfold expire_clients.
  assert (forall m k a, ex_inv k a -> (k + m = n)%nat ->
    ex_inv n (fold_left (expire_turn env sc_down ino now staging) (seq k m) a)) as Hgen.
  { induction m as [|m IH]; intros k a Hi Hm; cbn.
    - now replace n with k by lia.
    - apply IH; [|lia]. apply expire_turn_inv; [exact Hi | lia]. }
  apply (Hgen n 0%nat); [apply ex_inv_init | lia].
Qed.

(** The whole loop: the entries, the callouts, and the time of the next run. *)
Lemma expire_clients_result :
  let a := expire_clients env sc_down ino now staging wait l in
  xa_l a = (fun c => calm (existsb E l) (run_entry n c)) <$> l /\
  xa_callouts a = (if existsb E l then Some (run_callout n true <$> l) else None) /\
  xa_wait a <= wait /\
  forall c, c ∈ l -> pa_valid (outcome n c) = true -> xa_wait a <= pa_min (outcome n c).
Proof.
  intros a. pose proof expire_clients_inv as Hi. fold a in Hi. clearbody a.
  assert (take n l = l) as Et by (apply take_ge; lia).
  assert (forall j, (j < n)%nat -> (j <? n)%nat = true) as Hlt by (intros; now apply Nat.ltb_lt).
  split; [|split; [|split]].
  - apply list_eq. intros j. rewrite (xi_l _ _ Hi), list_lookup_fmap, Et.
    destruct (l !! j) as [c|] eqn:Ej; [|reflexivity]. apply lookup_lt_Some in Ej.
    now rewrite Hlt.
  - pose proof (xi_some _ _ Hi) as Hs. pose proof (xi_none _ _ Hi) as Hn. rewrite Et in Hs, Hn.
    destruct (existsb E l); [|auto]. rewrite (Hs eq_refl). f_equal. apply list_eq. intros j.
    rewrite list_lookup_imap, list_lookup_fmap.
    destruct (l !! j) as [c|] eqn:Ej; [|reflexivity]. apply lookup_lt_Some in Ej.
    now rewrite Hlt.
  - apply (xi_wait0 _ _ Hi).
  - intros c Hc Hv. apply list_elem_of_lookup_1 in Hc as [j Hj].
    apply (xi_wait _ _ Hi j c); [eapply lookup_lt_Some; eauto | exact Hj | exact Hv].
Qed.

(** The table afterwards: the surviving leases. *)
Lemma expire_clients_shrinks :
  Forall2 (shrinks maxc) l (xa_l (expire_clients env sc_down ino now staging wait l)).
Proof.
  destruct expire_clients_result as (-> & _). clear wait. generalize (existsb E l). intros b.
  generalize n. intros m. induction Hshape as [|c l' Hc Hl IH]; [constructor|].
  constructor; [|exact (IH Hl)].
  eapply shrinks_trans; [apply run_entry_shrinks, Hc|]. unfold calm.
  destruct b; [apply clear_wait_shrinks | apply shrinks_refl].
Qed.
End Run.
End Clients.
