(* ===== verification/LeaseServer.v ===== *)
(** * The leases of a mount point, and the server as a transition system

    The invariant [srv_ok] of all inodes and the chain, under the operations on one inode
    and the sections of the expiry task.

    Threads of the server act on inodes in critical sections. A step [lstep] is one
    critical section: an operation that keeps the mutex throughout, or the part of one
    before or after the point where it drops the mutex. Sections of any number of threads
    interleave in any order, so every execution of the server is a sequence of steps. *)
From S2P Require Import Prelude Lease LeaseOps LeaseTable LeaseGrant LeaseInv LeaseRemove LeaseExpire LeaseTimes LeaseClients.

(** The node of inode [i] is its own, its table is consistent, and the chain has exactly
    the inodes with a table. *)
Record srv_ok (mh rel : bool) (maxc : Z) (v : lsrv) : Prop := {
  so_node i n : v_nodes v !! i = Some n ->
    ln_ino n = i /\ lease_ok mh rel maxc (mkLs n (v_mp v));
  so_chain i : i ∈ lm_chain (v_mp v) -> is_Some (v_nodes v !! i);
  so_nodup : NoDup (lm_chain (v_mp v))
}.

Section Server.
Context (mh rel : bool) (maxc : Z).
#[local] Abbreviation sok := (srv_ok mh rel maxc).
#[local] Abbreviation gd := (good mh rel maxc).
#[local] Abbreviation eok := (entries_ok mh rel maxc).

(** A step of one inode. *)
Lemma on_inode_ok (i : Z) (f : lst -> lst) (v : lsrv) :
  (forall n, v_nodes v !! i = Some n -> gd (mkLs n (v_mp v)) (f (mkLs n (v_mp v)))) ->
  sok v -> sok (on_inode i f v).
Proof.
  intros Hf Hok. unfold on_inode. destruct (v_nodes v !! i) as [n|] eqn:En; [|exact Hok].
  destruct Hok as [H1 H2 H3]. destruct (H1 i n En) as [Ei Hn].
  destruct (Hf n eq_refl Hn) as [Hn' [Fi Fc]]. set (s' := f _) in *. cbn in Fi, Fc.
  rewrite Ei in Fi, Fc. split; cbn.
  - intros j m. rewrite lookup_insert_Some. intros [[<- <-]|[Hne Hj]].
    + split; [exact Fi|]. destruct Hn' as [A B C]. now split.
    + destruct (H1 j m Hj) as [Ej [A B C]]. split; [exact Ej|]. split; cbn in *.
      * exact A.
      * apply (lo_nodup _ _ _ _ Hn').
      * rewrite C, Ej. symmetry. apply Fc. congruence.
  - intros j Hj. destruct (decide (j = i)) as [->|Hne].
    + rewrite lookup_insert_eq. eexists; reflexivity.
    + rewrite lookup_insert_ne by congruence. apply H2. now apply Fc.
  - apply (lo_nodup _ _ _ _ Hn').
Qed.

(** Messages, flags, and the schedule. *)
Lemma srv_ok_same (v v' : lsrv) :
  v_nodes v' = v_nodes v -> lm_chain (v_mp v') = lm_chain (v_mp v) -> sok v -> sok v'.
Proof.
  intros E1 E2 [H1 H2 H3]. split.
  - intros i n. rewrite E1. intros Hi. destruct (H1 i n Hi) as [Ei [A B C]].
    split; [exact Ei|]. split; cbn in *; [exact A | now rewrite E2 | now rewrite E2].
  - intros i. rewrite E1, E2. apply H2.
  - now rewrite E2.
Qed.

Lemma srv_send_ok (ms : list lmsg) (v : lsrv) : sok v -> sok (srv_send ms v).
Proof. now apply srv_ok_same. Qed.

Lemma set_busy_ok (b : gset Z) (v : lsrv) : sok v -> sok (set_busy b v).
Proof. now apply srv_ok_same. Qed.

(** The table of an inode without clients is freed. *)
Lemma free_table_ok (i : Z) (v : lsrv) : sok v -> sok (free_table i v).
Proof.
  intros [H1 H2 H3]. unfold free_table.
  destruct (v_nodes v !! i) as [n|] eqn:En; [|now split]. destruct (H1 i n En) as [Ei Hn].
  assert (forall j, j ∈ filter (fun j => j <> i) (lm_chain (v_mp v)) <->
    j <> i /\ j ∈ lm_chain (v_mp v)) as Hf by (intros j; now rewrite list_elem_of_filter).
  split; cbn.
  - intros j m. rewrite lookup_insert_Some. intros [[<- <-]|[Hne Hj]]; cbn.
    + split; [exact Ei|]. split; cbn; [discriminate | now apply NoDup_filter|].
      rewrite Ei, Hf. split; [intros [? [=]] | tauto].
    + destruct (H1 j m Hj) as [Ej [A B C]]. split; [exact Ej|].
      split; cbn in *; [exact A | now apply NoDup_filter|]. rewrite C, Ej, Hf.
      split; [intros ?; split; [congruence | assumption] | tauto].
  - intros j [Hne Hj]%Hf. rewrite lookup_insert_ne by congruence. now apply H2.
  - now apply NoDup_filter.
Qed.

(** Removal of all entries, and compaction. *)
Lemma compact_ok (l : list client_lease) :
  eok l -> eok (sam_compact_lease_clients l) /\
  (length (sam_compact_lease_clients l) <= length l)%nat.
Proof.
  intros H. split.
  - eapply entries_ok_perm; [symmetry; apply compact_perm | now apply entries_ok_filter].
  - rewrite compact_perm. apply length_filter.
Qed.

Lemma expire_table_ok (env : lenv) (r : run_env) (other : lsrv -> lsrv) (i wait : Z)
    (v : lsrv) :
  sok v -> (forall w, sok w -> sok (other w)) ->
  sok (expire_table env r other i wait v).1.1.1.
Proof.
  intros Hok Ho. unfold expire_table. destruct (v_nodes v !! i) as [n|] eqn:En; [|exact Hok].
  destruct (ln_leases n) as [t|] eqn:Et; [|exact Hok].
  destruct (so_node _ _ _ _ Hok i n En) as [Ei Hn].
  destruct (r_forced r); cbn [fst].
  - assert (forall w, sok w -> sok (on_inode i (put_entries []) w)) as Hput.
    { intros w. apply on_inode_ok. intros m _. apply good_put; [|cbn; lia].
      intros _. apply entries_ok_nil. }
    apply Hput. destruct (existsb _ _); [|exact Hok]. pose proof (Ho v Hok) as Hov.
    destruct (v_nodes (other v) !! i) as [m|] eqn:Em; [|exact Hov].
    pose proof (on_inode_ok i (on_ip set_noreclaim) (other v)) as Hon.
    unfold on_inode in Hon. rewrite Em in Hon.
    apply (srv_ok_same (on_inode i (on_ip set_noreclaim) (other v)));
      [unfold on_inode; now rewrite Em | unfold on_inode; now rewrite Em|].
    apply on_inode_ok; [|exact Hov]. intros k _. now apply good_ip.
  - set (l := xa_l _).
    assert (Forall (entry_shape maxc) (li_lease t)) as Hsh.
    { apply (lo_table _ _ _ _ Hn t Et). }
    assert (Forall2 (shrinks maxc) (li_lease t) l) as HF by now apply expire_clients_shrinks.
    apply on_inode_ok; [|now apply srv_send_ok]. cbn. intros m Hm.
    assert (m = n) as -> by congruence.
    destruct (lo_table _ _ _ _ Hn t Et) as [T1 _ _ _].
    destruct (compact_ok l) as [C1 C2]; [eapply entries_ok_shrink; eauto|].
    apply good_put; [auto|]. unfold entries. cbn. rewrite Et.
    apply Forall2_length in HF. lia.
Qed.

Lemma expire_inode_ok (env : lenv) (r : run_env) (other : lsrv -> lsrv) (i wait : Z)
    (v : lsrv) :
  sok v -> (forall w, sok w -> sok (other w)) ->
  sok (expire_inode env r other i wait v).1.1.
Proof.
  intros Hok Ho. unfold expire_inode. destruct (decide _); [exact Hok|].
  pose proof (expire_table_ok env r other i wait (set_busy ({[i]} ∪ v_busy v) v)
    (set_busy_ok _ _ Hok) Ho) as H1.
  destruct (expire_table _ _ _ _ _ _) as [[[v1 co] w1] d1]. cbn in H1.
  set (p := match co with Some _ => _ | None => _ end).
  assert (sok p.1) as H2.
  { unfold p. destruct co; [destruct (e_failover env)|]; cbn; auto using srv_send_ok. }
  destruct p as [v2 d2]. cbn in H2. destruct (_ =? _)%nat; cbn; auto using free_table_ok, set_busy_ok.
Qed.

Lemma expire_loop_ok (env : lenv) (r : run_env) (other : lsrv -> lsrv) (fuel : nat)
    (todo : list Z) (wait : Z) (v v' : lsrv) (wait' : Z) :
  sok v -> (forall w, sok w -> sok (other w)) ->
  expire_loop env r other fuel todo wait v = Some (v', wait') -> sok v'.
Proof.
  intros Hok Ho. revert todo wait v Hok. induction fuel as [|fuel IH]; [discriminate|].
  intros [|i todo] wait v Hok; cbn; [congruence|].
  pose proof (expire_inode_ok env r other i wait v Hok Ho) as H1.
  destruct (expire_inode env r other i wait v) as [[v1 w1] d1]. now apply IH.
Qed.

Lemma clear_entries_ok (has_locks : bool) (ino ord : Z) (l : list client_lease) :
  eok l -> eok (clear_entries has_locks ino ord l).1 /\
  (length (clear_entries has_locks ino ord l).1 <= length l)%nat.
Proof.
  intros Hl. unfold clear_entries. destruct (first_entry ord l) as [[k c]|] eqn:Ef; [|auto].
  destruct (_ || _); [|auto]. cbn [fst]. apply list_find_Some in Ef as (Hk & _).
  rewrite <- (length_insert l k (set_leases 0 (set_wt 0 c))). apply compact_ok.
  eapply entries_ok_shrink; [|exact Hl]. apply (shrinks_insert maxc l k c); [exact Hk|].
  split; [reflexivity|]. split; [exists 0; now rewrite Z.land_0_r|].
  intros (S1 & S2 & S3 & S4 & S5 & S6). repeat split; cbn; assumption || lia.
Qed.

Lemma clear_leases_ok (has_locks : bool) (ord : Z) (v : lsrv) :
  sok v -> sok (sam_clear_server_leases has_locks ord v).
Proof.
  unfold sam_clear_server_leases. generalize (lm_chain (v_mp v)). intros chain.
  revert v. induction chain as [|i chain IH]; intros v Hok; [exact Hok|]. cbn [fold_left].
  apply IH. apply on_inode_ok; [|exact Hok]. intros n _. set (s := mkLs n (v_mp v)).
  destruct (clear_entries has_locks i ord (entries s)) as [l ms] eqn:Ec.
  transitivity (put_entries l s); [|apply good_send].
  intros Hs. pose proof (clear_entries_ok has_locks i ord (entries s) (lease_ok_entries _ _ _ _ Hs)) as [C1 C2].
  rewrite Ec in C1, C2. now apply (good_put mh rel maxc l s (fun _ => C1) C2).
Qed.
End Server.

(** ** Critical sections *)

(** [sam_record_lease] drops the mutex: the inode has no table, or a full one without the
    client. *)
Definition takes_window (ord : Z) (s : lst) : bool :=
  match ln_leases (s_ip s) with
  | None => true
  | Some t => bool_decide (ord ∉ (cl_ord <$> li_lease t)) &&
              (li_max t <=? Z.of_nat (length (li_lease t)))
  end.

(** The section of [sam_record_lease] after the window, when there was no table before
    it and when there was a full one. *)
Definition record_new (env : lenv) (ord : Z) (t : LEASE_type) (q : lreq)
    (new_generation is_get : bool) (s : lst) : lst * lreq :=
  let interval := lease_interval q t in
  record_finish env t interval new_generation is_get
    (sam_new_ino_lease env id ord t interval q s).
Definition record_full (env : lenv) (ord : Z) (t : LEASE_type) (q : lreq)
    (new_generation is_get : bool) (s : lst) : lst * lreq :=
  let interval := lease_interval q t in
  record_finish env t interval new_generation is_get
    (add_finish env ord t interval q (add_relocate env ord s)).

(** The whole of [sam_record_lease] is one of its sections. *)
Lemma reuse_ords (ord : Z) (l : list client_lease) :
  cl_ord <$> (reuse_entry ord <$> l) = cl_ord <$> l.
Proof.
  rewrite <- list_fmap_compose. apply list_fmap_ext. intros _ c _. cbn.
  pose proof (reuse_rival ord c) as [= E _]. exact E.
Qed.

Lemma record_sections (env : lenv) (other : lst -> lst) (ord : Z) (t : LEASE_type) (q : lreq)
    (ng is_get : bool) (s : lst) :
  sam_record_lease env other ord t q ng is_get s =
  if takes_window ord s then
    match ln_leases (s_ip s) with
    | None => record_new env ord t q ng is_get (other s)
    | Some _ => record_full env ord t q ng is_get (other s)
    end
  else sam_record_lease env id ord t q ng is_get s.
Proof.
  unfold takes_window, sam_record_lease, record_new, record_full.
  destruct (ln_leases (s_ip s)) as [tb|] eqn:Et; [|reflexivity].
  unfold sam_add_ino_lease, add_locate. rewrite Et.
  destruct (sc_index (lease_scan ord (reuse_entry ord <$> li_lease tb))) as [i|] eqn:Ei.
  - rewrite bool_decide_false; [reflexivity|]. intros Hn. rewrite <- (reuse_ords ord) in Hn.
    apply scan_none in Hn. congruence.
  - apply scan_none in Ei. rewrite reuse_ords in Ei. rewrite bool_decide_true by exact Ei.
    rewrite length_fmap. cbn [andb].
    destruct (Z.ltb_spec (Z.of_nat (length (li_lease tb))) (li_max tb)),
             (Z.leb_spec (li_max tb) (Z.of_nat (length (li_lease tb)))); try lia; reflexivity.
Qed.

Section System.
Context `{LeaseCallsLaws} (mh rel : bool) (maxc : Z).

(** An environment of this mount point, at some time. *)
Definition env_ok (env : lenv) : Prop := e_mh_write env = mh /\ e_max_clients env = maxc.

(** Critical sections on one inode. *)
Inductive isection : (lst -> lst) -> Prop :=
| sec_record env ord t q ng is_get :
    env_ok env -> 1 <= ord <= maxc -> req_ok rel is_get q t ->
    isection (fun s => if takes_window ord s then s
                       else (sam_record_lease env id ord t q ng is_get s).1)
| sec_record_new env ord t q ng is_get :
    env_ok env -> 1 <= ord <= maxc -> req_ok rel is_get q t ->
    isection (fun s => (record_new env ord t q ng is_get s).1)
| sec_record_full env ord t q ng is_get :
    env_ok env -> 1 <= ord <= maxc -> req_ok rel is_get q t ->
    isection (fun s => (record_full env ord t q ng is_get s).1)
| sec_remove ord act mask gens : isection (fun s => (rm_first ord act mask gens s).1.1.1)
| sec_removed env ord a : isection (rm_second env ord a)
| sec_extend env ord mask q : isection (fun s => (sam_extend_lease env ord mask q s).1)
| sec_wakeup ord : isection (BLOCK_wakeup ord)
| sec_attr ord seqno size act : isection (fun s => (cl_attr_size ord seqno size act s).1)
| sec_abr ord : isection (sam_callout_abr ord)
| sec_owner f : (forall n, ln_leases (f n) = ln_leases n /\ ln_ino (f n) = ln_ino n) ->
    isection (on_ip f).

(** Steps of the server. The last ones are the sections of the expiry task: leases by
    their times, all leases, the freeing of a table without clients. *)
Inductive lstep : lsrv -> lsrv -> Prop :=
| step_inode i f v : isection f -> lstep v (on_inode i f v)
| step_clear has_locks ord v : lstep v (sam_clear_server_leases has_locks ord v)
| step_expire env r i wait v : r_forced r = false ->
    lstep v (expire_table env r id i wait v).1.1.1
| step_force i v : lstep v (on_inode i (put_entries []) v)
| step_free i v : no_clients i v = 0%nat -> lstep v (free_table i v)
| step_send ms v : lstep v (srv_send ms v)
| step_busy b v : lstep v (set_busy b v).

Lemma isection_good (f : lst -> lst) (s : lst) : isection f -> good mh rel maxc s (f s).
Proof.
  destruct 1 as [env ord t q ng is_get [E1 E2] Ho Hq | env ord t q ng is_get [E1 E2] Ho Hq
    | env ord t q ng is_get [E1 E2] Ho Hq | | | | | | | f Hf].
  - destruct (takes_window ord s); [reflexivity|]. apply record_lease_spec; auto; reflexivity.
  - apply (record_finish_spec mh rel maxc env ord t _ q).
    apply new_ino_lease_spec; auto; reflexivity.
  - apply (record_finish_spec mh rel maxc env ord t _ q).
    apply add_finish_spec; auto. now apply add_relocate_spec.
  - apply rm_first_good.
  - apply rm_second_good.
  - apply extend_lease_good.
  - apply wakeup_good.
  - apply cl_attr_size_good.
  - apply callout_abr_good.
  - apply good_ip; apply Hf.
Qed.

Lemma lstep_ok (v v' : lsrv) : lstep v v' -> srv_ok mh rel maxc v -> srv_ok mh rel maxc v'.
Proof.
  destruct 1; intros Hok.
  - apply on_inode_ok; [|exact Hok]. intros n _. now apply isection_good.
  - now apply clear_leases_ok.
  - now apply expire_table_ok.
  - apply on_inode_ok; [|exact Hok]. intros n _.
    apply good_put; [intros _; apply entries_ok_nil | cbn; lia].
  - now apply free_table_ok.
  - now apply srv_send_ok.
  - now apply set_busy_ok.
Qed.

Lemma lsteps_ok (v v' : lsrv) :
  rtc lstep v v' -> srv_ok mh rel maxc v -> srv_ok mh rel maxc v'.
Proof. induction 1; eauto using lstep_ok. Qed.
End System.
