(* ===== verification/LeaseRun.v ===== *)
(** * A run of the expiry task ends, and leaves no lease that is due

    The loop over the chain starts again from its head whenever the mutex was dropped. It
    ends because each restart follows the loss of a lease or of a table ([load]). *)
From S2P Require Import Prelude Lease LeaseOps LeaseTable LeaseGrant LeaseInv LeaseRemove LeaseExpire LeaseTimes LeaseClients LeaseServer.

(** ** Counting leases *)

Definition nheld (x : Z) : nat := length (filter (fun t => holds x t = true) all_ltypes).

Lemma filter_length_le {A} (P Q : A -> Prop) `{!forall x, Decision (P x)}
    `{!forall x, Decision (Q x)} (l : list A) :
  (forall x, P x -> Q x) -> (length (filter P l) <= length (filter Q l))%nat.
Proof.
  intros HPQ. induction l as [|x l IH]; [reflexivity|].
  destruct (decide (P x)) as [Hp|Hp].
  - rewrite !filter_cons_True by auto. cbn. lia.
  - rewrite filter_cons_False by exact Hp. destruct (decide (Q x)).
    + rewrite filter_cons_True by assumption. cbn. lia.
    + now rewrite filter_cons_False.
Qed.

Lemma filter_length_lt {A} (P Q : A -> Prop) `{!forall x, Decision (P x)}
    `{!forall x, Decision (Q x)} (l : list A) (y : A) :
  (forall x, P x -> Q x) -> y ∈ l -> Q y -> ~ P y ->
  (length (filter P l) < length (filter Q l))%nat.
Proof.
  intros HPQ Hy HQ HP. induction l as [|x l IH]; [now apply not_elem_of_nil in Hy|].
  apply elem_of_cons in Hy as [<-|Hy].
  - rewrite filter_cons_False, filter_cons_True by assumption. cbn.
    pose proof (filter_length_le P Q l HPQ). lia.
  - specialize (IH Hy). destruct (decide (P x)) as [Hp|Hp].
    + rewrite !filter_cons_True by auto. cbn. lia.
    + rewrite filter_cons_False by exact Hp. destruct (decide (Q x)).
      * rewrite filter_cons_True by assumption. cbn. lia.
      * now rewrite filter_cons_False.
Qed.

Fixpoint list_load (l : list client_lease) : nat :=
  match l with [] => 0%nat | c :: l => (nheld (cl_leases c) + list_load l)%nat end.

Lemma list_load_perm (l l' : list client_lease) : l ≡ₚ l' -> list_load l = list_load l'.
Proof. induction 1; cbn [list_load]; lia. Qed.

Lemma list_load_filter (P : client_lease -> Prop) `{!forall c, Decision (P c)}
    (l : list client_lease) : (list_load (filter P l) <= list_load l)%nat.
Proof.
  induction l as [|c l IH]; [reflexivity|]. destruct (decide (P c)).
  - rewrite filter_cons_True by assumption. cbn [list_load]. lia.
  - rewrite filter_cons_False by assumption. cbn [list_load]. lia.
Qed.

Lemma compact_load (l : list client_lease) :
  (list_load (sam_compact_lease_clients l) <= list_load l)%nat.
Proof. rewrite (list_load_perm _ _ (compact_perm l)). apply list_load_filter. Qed.

(** ** One table *)

#[local] Opaque sam_process_lease_times.

Lemma run_of_load (p : pt_acc) (c : client_lease) :
  same_but_times c (pa_c p) ->
  (forall t, holds (pa_remaining p) t = true -> holds (cl_leases c) t = true) ->
  (pa_expired p = true ->
     exists t, holds (cl_leases c) t = true /\ holds (pa_remaining p) t = false) ->
  (nheld (cl_leases (run_of p)) <= nheld (cl_leases c))%nat /\
  (pa_expired p = true -> (nheld (cl_leases (run_of p)) < nheld (cl_leases c))%nat).
Proof.
  intros ([= _ El] & _) Hr He. unfold run_of.
  destruct (pa_expired p); [|rewrite El; split; [lia | discriminate]].
  cbn [cl_leases set_leases]. destruct (He eq_refl) as (t & H1 & H2).
  enough (nheld (pa_remaining p) < nheld (cl_leases c))%nat by lia.
  apply (filter_length_lt _ _ _ t); [exact Hr | apply all_ltypes_in | exact H1 | congruence].
Qed.

(** The leases that a client keeps are those whose times are good. *)
Lemma run_of_times (p : pt_acc) (c : client_lease) (exp : LEASE_type -> bool) (t : LEASE_type) :
  same_but_times c (pa_c p) ->
  (forall t, holds (pa_remaining p) t = true -> holds (cl_leases c) t = true /\ exp t = false) ->
  (pa_expired p = true <-> exists t, holds (cl_leases c) t = true /\ exp t = true) ->
  holds (cl_leases (run_of p)) t = true ->
  holds (cl_leases c) t = true /\ exp t = false /\ get_time t (run_of p) = get_time t (pa_c p).
Proof.
  intros ([= _ El] & _) Hr He. unfold run_of. destruct (pa_expired p) eqn:E; intros Ht.
  - destruct (Hr t Ht). auto.
  - rewrite El in Ht. split; [exact Ht|]. split; [|reflexivity].
    destruct (exp t) eqn:Ex; [|reflexivity]. exfalso.
    assert (false = true) by (apply He; eauto). discriminate.
Qed.

Section Table.
Context (env : lenv) (sc_down : Z -> bool) (ino now : Z) (staging : bool) (maxc wait : Z)
  (l : list client_lease).
Hypothesis Hshape : Forall (entry_shape maxc) l.
#[local] Abbreviation res := (outcome env sc_down ino now staging (length l)).
#[local] Abbreviation a := (expire_clients env sc_down ino now staging wait l).

Lemma run_entry_load (c : client_lease) :
  entry_shape maxc c ->
  let c' := run_entry env sc_down ino now staging (length l) c in
  (nheld (cl_leases c') <= nheld (cl_leases c))%nat /\
  (pa_expired (res c) = true -> (nheld (cl_leases c') < nheld (cl_leases c))%nat).
Proof.
  intros Hs. destruct (outcome_spec env sc_down ino now staging maxc (length l) c Hs)
    as (Hsame & _ & Hr & He & _).
  apply (run_of_load (res c) c Hsame).
  - intros t. rewrite Hr. intros [[Hu _]%andb_true_iff _]%andb_true_iff. exact Hu.
  - intros E. destruct (proj1 He E) as (t & H1 & H2). exists t. split; [exact H1|].
    now rewrite Hr, H1, H2.
Qed.

Lemma expire_load :
  (list_load (xa_l a) <= list_load l)%nat /\
  (xa_callouts a <> None -> (list_load (xa_l a) < list_load l)%nat).
Proof.
  destruct (expire_clients_result env sc_down ino now staging maxc l wait Hshape)
    as (-> & -> & _). set (b := existsb _ l).
  assert (forall b, (list_load ((fun c => calm b (run_entry env sc_down ino now staging (length l) c)) <$> l)
    <= list_load l)%nat /\ (existsb (fun c => pa_expired (res c)) l = true ->
    (list_load ((fun c => calm b (run_entry env sc_down ino now staging (length l) c)) <$> l)
    < list_load l)%nat)) as Hgen.
  { clear b. intros b. pose proof run_entry_load as Hrun. revert Hrun.
    generalize (length l). intros n Hrun.
    induction Hshape as [|c l' Hc Hl IH]; [split; [reflexivity | discriminate]|].
    specialize (IH Hl). specialize (Hrun c Hc).
    rewrite fmap_cons. cbn [list_load existsb]. rewrite calm_actions_keep, orb_true_iff. destruct IH as [I1 I2], Hrun as [R1 R2].
    split; [lia|]. intros [Hx|Hx]; [specialize (R2 Hx) | specialize (I2 Hx)]; lia. }
  destruct (Hgen b) as [G1 G2]. split; [exact G1|]. unfold b in *.
  destruct (existsb _ l); [auto | congruence].
Qed.

(** Every lease that is left is not due, and the next run is not later. *)
Lemma expire_fresh (c' : client_lease) (t : LEASE_type) :
  0 < e_hz env -> 0 < lease_ticks env 30 -> c' ∈ xa_l a -> holds (cl_leases c') t = true ->
  now < get_time t c' /\ xa_wait a <= get_time t c'.
Proof.
  intros Hhz Htk Hin Ht.
  destruct (expire_clients_result env sc_down ino now staging maxc l wait Hshape)
    as (El & _ & _ & Hw). rewrite El in Hin. apply list_elem_of_fmap in Hin as (c & -> & Hc).
  rewrite calm_actions_keep in Ht.
  assert (entry_shape maxc c) as Hs by (rewrite Forall_forall in Hshape; auto).
  destruct (outcome_spec env sc_down ino now staging maxc (length l) c Hs)
    as (H1 & _ & H3 & H4 & H5 & H6).
  destruct (run_of_times (res c) c (expires now staging (length l) c) t H1) as (T1 & T2 & T3);
    [| exact H4 | exact Ht |].
  { intros u. rewrite H3. intros [[Hu Hx]%andb_true_iff _]%andb_true_iff.
    apply negb_true_iff in Hx. auto. }
  assert (get_time t (calm (existsb (fun c => pa_expired (res c)) l)
    (run_entry env sc_down ino now staging (length l) c)) = get_time t (pa_c (res c))) as ->.
  { rewrite <- T3. unfold run_entry. generalize (run_of (res c)). intros d.
    unfold calm, clear_wait. destruct (existsb _ _); [|reflexivity]. now destruct (waiting d). }
  destruct (H6 t T1 T2) as [M1 M2]. split; [auto|].
  etransitivity; [|exact M1]. apply Hw; [exact Hc|]. apply H5. eauto.
Qed.
End Table.

(** ** The chain *)

Definition node_entries (i : Z) (v : lsrv) : list client_lease :=
  match v_nodes v !! i with
  | Some n => match ln_leases n with Some t => li_lease t | None => [] end
  | None => []
  end.

Fixpoint chain_load (f : Z -> nat) (chain : list Z) : nat :=
  match chain with [] => 0%nat | i :: chain => (S (f i) + chain_load f chain)%nat end.

(** The leases and tables of the mount point. *)
Definition load (v : lsrv) : nat :=
  chain_load (fun i => list_load (node_entries i v)) (lm_chain (v_mp v)).

Lemma chain_load_le (f g : Z -> nat) (chain : list Z) :
  (forall j, j ∈ chain -> (f j <= g j)%nat) -> (chain_load f chain <= chain_load g chain)%nat.
Proof.
  induction chain as [|i chain IH]; intros H; cbn; [lia|].
  pose proof (H i ltac:(constructor)). specialize (IH (fun j Hj => H j ltac:(now constructor))). lia.
Qed.

Lemma chain_load_lt (f g : Z -> nat) (chain : list Z) (i : Z) :
  (forall j, j ∈ chain -> (f j <= g j)%nat) -> i ∈ chain -> (f i < g i)%nat ->
  (chain_load f chain < chain_load g chain)%nat.
Proof.
  induction chain as [|k chain IH]; intros H Hi Hlt; [now apply not_elem_of_nil in Hi|].
  cbn. pose proof (H k ltac:(constructor)).
  assert (forall j, j ∈ chain -> (f j <= g j)%nat) as H' by (intros j Hj; apply H; now constructor).
  apply elem_of_cons in Hi as [->|Hi].
  - pose proof (chain_load_le f g chain H'). lia.
  - specialize (IH H' Hi Hlt). lia.
Qed.

Lemma chain_load_filter (f : Z -> nat) (chain : list Z) (i : Z) :
  i ∈ chain -> (chain_load f (filter (fun j => j <> i) chain) < chain_load f chain)%nat.
Proof.
  assert (forall ch, chain_load f (filter (fun j => j <> i) ch) <= chain_load f ch)%nat as Hle.
  { induction ch as [|k ch IH]; [reflexivity|]. destruct (decide (k <> i)).
    - rewrite filter_cons_True by assumption. cbn. lia.
    - rewrite filter_cons_False by assumption. cbn. lia. }
  induction chain as [|k chain IH]; intros Hi; [now apply not_elem_of_nil in Hi|].
  destruct (decide (k = i)) as [->|Hne].
  - rewrite filter_cons_False by auto. cbn. specialize (Hle chain). lia.
  - rewrite filter_cons_True by auto. apply elem_of_cons in Hi as [?|Hi]; [congruence|].
    specialize (IH Hi). cbn. lia.
Qed.

Lemma chain_load_length (f : Z -> nat) (chain : list Z) : (length chain <= chain_load f chain)%nat.
Proof. induction chain; cbn; lia. Qed.

Lemma node_entries_same (v v' : lsrv) (j : Z) :
  v_nodes v' !! j = v_nodes v !! j -> node_entries j v' = node_entries j v.
Proof. intros E. unfold node_entries. now rewrite E. Qed.

(** The loads of two servers that differ in inode [i] only. *)
Lemma load_le (v v' : lsrv) (i : Z) :
  lm_chain (v_mp v') = lm_chain (v_mp v) ->
  (forall j, j <> i -> v_nodes v' !! j = v_nodes v !! j) ->
  (list_load (node_entries i v') <= list_load (node_entries i v))%nat ->
  (load v' <= load v)%nat.
Proof.
  intros Ec En Hi. unfold load. rewrite Ec. apply chain_load_le. intros j _.
  destruct (decide (j = i)) as [->|Hne]; [exact Hi|]. now rewrite (node_entries_same v v') by auto.
Qed.

Lemma load_lt (v v' : lsrv) (i : Z) :
  lm_chain (v_mp v') = lm_chain (v_mp v) -> i ∈ lm_chain (v_mp v) ->
  (forall j, j <> i -> v_nodes v' !! j = v_nodes v !! j) ->
  (list_load (node_entries i v') < list_load (node_entries i v))%nat ->
  (load v' < load v)%nat.
Proof.
  intros Ec Hi En Hlt. unfold load. rewrite Ec. apply (chain_load_lt _ _ _ i); [|exact Hi | exact Hlt].
  intros j _. destruct (decide (j = i)) as [->|Hne]; [lia|].
  now rewrite (node_entries_same v v') by auto.
Qed.

Lemma load_free (v v' : lsrv) (i : Z) :
  lm_chain (v_mp v') = filter (fun j => j <> i) (lm_chain (v_mp v)) -> i ∈ lm_chain (v_mp v) ->
  (forall j, j <> i -> v_nodes v' !! j = v_nodes v !! j) -> (load v' < load v)%nat.
Proof.
  intros Ec Hi En. unfold load. rewrite Ec.
  eapply Nat.le_lt_trans; [|apply (chain_load_filter _ _ i Hi)]. apply chain_load_le.
  intros j [Hne _]%list_elem_of_filter. now rewrite (node_entries_same v v') by auto.
Qed.

(** ** The body of the loop *)

(** Inode [i] has been dealt with: its clients are active and no lease is due before the
    next run. *)
Definition settled (now wait : Z) (i : Z) (v : lsrv) : Prop :=
  exists n t, v_nodes v !! i = Some n /\ ln_leases n = Some t /\ li_lease t <> [] /\
    forall c, c ∈ li_lease t -> active c = true /\
      forall u, holds (cl_leases c) u = true -> now < get_time u c /\ wait <= get_time u c.

Lemma settled_same (now wait wait' : Z) (i : Z) (v v' : lsrv) :
  v_nodes v' !! i = v_nodes v !! i -> wait' <= wait -> settled now wait i v ->
  settled now wait' i v'.
Proof.
  intros E Hw (n & t & H1 & H2 & H3 & H4). exists n, t. rewrite E. repeat (split; [assumption|]).
  intros c Hc. destruct (H4 c Hc) as [A B]. split; [exact A|]. intros u Hu.
  destruct (B u Hu). lia.
Qed.

Section Body.
Context (mh rel : bool) (maxc : Z) (env : lenv) (r : run_env).
#[local] Abbreviation sok := (srv_ok mh rel maxc).
#[local] Abbreviation now := (e_lbolt env).
Hypotheses (Hhz : 0 < e_hz env) (Htk : 0 < lease_ticks env 30).
Hypothesis Hfo : r_forced r = false -> e_failover env = false.

(** One turn: the mutex was dropped and something is gone, or the inode is settled. *)
Definition turn_done (i wait : Z) (v : lsrv) (res : lsrv * Z * bool) : Prop :=
  let '(v', wait', dropped) := res in
  v_busy v' = ∅ /\ (forall j, j <> i -> v_nodes v' !! j = v_nodes v !! j) /\ wait' <= wait /\
  if dropped : bool then (load v' < load v)%nat
  else lm_chain (v_mp v') = lm_chain (v_mp v) /\ (load v' <= load v)%nat /\
       r_forced r = false /\ settled now wait' i v'.

Lemma free_turn (i wait wait' : Z) (v w : lsrv) :
  lm_chain (v_mp w) = lm_chain (v_mp v) -> i ∈ lm_chain (v_mp v) ->
  v_busy w = {[i]} -> is_Some (v_nodes w !! i) ->
  (forall j, j <> i -> v_nodes w !! j = v_nodes v !! j) -> wait' <= wait ->
  turn_done i wait v (free_table i w, wait', true).
Proof.
  intros Ec Hi Hb [n Hn] En Hw. unfold turn_done, free_table. rewrite Hn. cbn -[load].
  assert (forall j, j <> i -> <[i := set_hold_blocks false (set_owners 0 0 (set_table None n))]>
    (v_nodes w) !! j = v_nodes v !! j) as En'.
  { intros j Hj. rewrite lookup_insert_ne by congruence. auto. }
  split; [rewrite Hb; set_solver|]. split; [exact En'|]. split; [exact Hw|].
  apply (load_free v _ i); cbn; [now rewrite Ec | exact Hi | exact En'].
Qed.

(** The inode of a chain member. *)
Lemma chain_node (i : Z) (v : lsrv) :
  sok v -> i ∈ lm_chain (v_mp v) ->
  exists n t, v_nodes v !! i = Some n /\ ln_leases n = Some t /\ table_ok mh rel maxc t.
Proof.
  intros Hok Hi. destruct (so_chain _ _ _ _ Hok i Hi) as [n Hn].
  destruct (so_node _ _ _ _ Hok i n Hn) as [Ei [A B C]]. cbn in *. rewrite Ei in C.
  destruct (proj2 C Hi) as [t Ht]. exists n, t. auto.
Qed.

(** The table of inode [i] gets the entries [l]. *)
Lemma put_inode (i : Z) (l : list client_lease) (v : lsrv) (n : lnode) (t : lease_ino) :
  v_nodes v !! i = Some n -> ln_leases n = Some t ->
  on_inode i (put_entries l) v = set_node i (set_table (Some (set_entries l t)) n) v.
Proof.
  intros Hn Ht. unfold on_inode. rewrite Hn. unfold put_entries. cbn. rewrite Ht. cbn.
  destruct v; reflexivity.
Qed.

Lemma forced_turn (i wait : Z) (v : lsrv) :
  r_forced r = true -> sok v -> i ∈ lm_chain (v_mp v) -> v_busy v = ∅ ->
  turn_done i wait v (expire_inode env r id i wait v).
Proof.
  intros Hf Hok Hi Hb. destruct (chain_node i v Hok Hi) as (n & t & Hn & Ht & _).
  unfold expire_inode. rewrite decide_False by (rewrite Hb; apply not_elem_of_empty).
  unfold expire_table. cbn [v_nodes set_busy]. rewrite Hn, Ht, Hf. cbv zeta.
  set (held := existsb _ _). unfold id. cbn [v_nodes set_busy]. rewrite !Hn.
  set (w := if held then _ else _).
  assert (exists m, v_nodes w !! i = Some m /\ ln_leases m = Some t /\
    lm_chain (v_mp w) = lm_chain (v_mp v) /\ v_busy w = {[i]} /\
    forall j, j <> i -> v_nodes w !! j = v_nodes v !! j) as (m & W1 & W2 & W3 & W4 & W5).
  { assert ({[i]} ∪ v_busy v = {[i]}) as Eb by (rewrite Hb; set_solver).
    unfold w. destruct held; cbn; [exists (set_noreclaim n) | exists n]; cbn;
      rewrite ?lookup_insert_eq; repeat (split; [assumption || reflexivity|]); [|auto].
    intros j Hj. now rewrite lookup_insert_ne by congruence. }
  clearbody w. rewrite (put_inode i [] w m t W1 W2).
  assert ((no_clients i (set_node i (set_table (Some (set_entries [] t)) m) w) =? 0)%nat = true) as ->.
  { unfold no_clients. cbn. now rewrite lookup_insert_eq. }
  apply (free_turn i wait wait v); cbn; [exact W3 | exact Hi | exact W4 | | | lia].
  - rewrite lookup_insert_eq. eexists; reflexivity.
  - intros j Hj. rewrite lookup_insert_ne by congruence. auto.
Qed.

(** The inode keeps the entries [l]: something was lost and the mutex dropped for the
    callouts, or the inode is settled. *)
Lemma kept_turn (i wait wait' : Z) (v w : lsrv) (n : lnode) (t : lease_ino)
    (l : list client_lease) (co : option (list callout)) :
  r_forced r = false -> i ∈ lm_chain (v_mp v) -> v_nodes v !! i = Some n ->
  ln_leases n = Some t -> lm_chain (v_mp w) = lm_chain (v_mp v) -> v_busy w = {[i]} ->
  v_nodes w !! i = Some (set_table (Some (set_entries l t)) n) ->
  (forall j, j <> i -> v_nodes w !! j = v_nodes v !! j) -> wait' <= wait -> l <> [] ->
  (list_load l <= list_load (li_lease t))%nat ->
  (co <> None -> (list_load l < list_load (li_lease t))%nat) ->
  (forall c, c ∈ l -> active c = true /\
     forall u, holds (cl_leases c) u = true -> now < get_time u c /\ wait' <= get_time u c) ->
  turn_done i wait v (set_busy (v_busy w ∖ {[i]}) w, wait',
    match co with Some _ => true | None => false end).
Proof.
  intros Hf Hi Hn Ht C1 C2 C3 C4 Hw Hl L1 L2 Hs.
  unfold turn_done. cbn -[load]. split; [rewrite C2; set_solver|]. split; [exact C4|].
  split; [exact Hw|].
  assert (node_entries i (set_busy (v_busy w ∖ {[i]}) w) = l) as En2.
  { unfold node_entries. cbn. now rewrite C3. }
  assert (node_entries i v = li_lease t) as En1 by (unfold node_entries; now rewrite Hn, Ht).
  destruct co.
  - apply (load_lt v _ i); cbn; [exact C1 | exact Hi | exact C4 |].
    rewrite En1, En2. now apply L2.
  - split; [exact C1|]. split; [|split; [exact Hf|]].
    + apply (load_le v _ i); cbn; [exact C1 | exact C4 |]. now rewrite En1, En2.
    + exists (set_table (Some (set_entries l t)) n), (set_entries l t). auto.
Qed.

Lemma timed_turn (i wait : Z) (v : lsrv) :
  r_forced r = false -> sok v -> i ∈ lm_chain (v_mp v) -> v_busy v = ∅ ->
  turn_done i wait v (expire_inode env r id i wait v).
Proof.
  intros Hf Hok Hi Hb. destruct (chain_node i v Hok Hi) as (n & t & Hn & Ht & Htok).
  assert (Forall (entry_shape maxc) (li_lease t)) as Hsh by apply Htok.
  unfold expire_inode. rewrite decide_False by (rewrite Hb; apply not_elem_of_empty).
  unfold expire_table. cbn [v_nodes set_busy]. rewrite Hn, Ht, Hf. cbv zeta.
  pose proof (expire_load env (r_sc_down r) i now (ln_staging n) maxc wait _ Hsh) as [L1 L2].
  pose proof (fun c' u => expire_fresh env (r_sc_down r) i now (ln_staging n) maxc wait _ Hsh
    c' u Hhz Htk) as Hfresh.
  destruct (expire_clients_result env (r_sc_down r) i now (ln_staging n) maxc (li_lease t) wait Hsh)
    as (_ & _ & Hw & _).
  set (a := expire_clients _ _ _ _ _ _ _) in *. clearbody a.
  assert ({[i]} ∪ v_busy v = {[i]}) as Eb by (rewrite Hb; set_solver).
  set (w0 := srv_send (xa_out a) (set_busy ({[i]} ∪ v_busy v) v)).
  assert (v_nodes w0 !! i = Some n) as Hn0 by exact Hn.
  rewrite (put_inode i _ w0 n t Hn0 Ht).
  set (l := sam_compact_lease_clients (xa_l a)).
  set (w1 := set_node i (set_table (Some (set_entries l t)) n) w0).
  assert (forall ms, let w := match xa_callouts a with Some _ => srv_send ms w1 | None => w1 end in
    lm_chain (v_mp w) = lm_chain (v_mp v) /\ v_busy w = {[i]} /\
    v_nodes w !! i = Some (set_table (Some (set_entries l t)) n) /\
    forall j, j <> i -> v_nodes w !! j = v_nodes v !! j) as Hw1.
  { intros ms w. unfold w. destruct (xa_callouts a); cbn; rewrite lookup_insert_eq;
      repeat (split; [assumption || reflexivity|]); intros j Hj;
      now rewrite lookup_insert_ne by congruence. }
  specialize (Hw1 (callout_msgs i (default [] (xa_callouts a)))). cbv zeta in Hw1.
  rewrite (Hfo Hf). unfold id.
  set (w2 := match xa_callouts a with Some _ => _ | None => w1 end) in Hw1.
  assert (match xa_callouts a with Some co => (srv_send (callout_msgs i co) w1, true) | None => (w1, false) end
    = (w2, match xa_callouts a with Some _ => true | None => false end)) as Ew.
  { unfold w2. now destruct (xa_callouts a). }
  rewrite Ew. clear Ew. clearbody w2. clear w1 w0 Hn0.
  destruct Hw1 as (C1 & C2 & C3 & C4).
  assert (no_clients i w2 = length l) as -> by (unfold no_clients; now rewrite C3).
  destruct (Nat.eqb_spec (length l) 0) as [E0|E0].
  { apply (free_turn i wait _ v); auto. }
  apply (kept_turn i wait _ v w2 n t l (xa_callouts a));
    [exact Hf | exact Hi | now rewrite Hn | exact Ht | exact C1 | exact C2 | exact C3 | exact C4
    | exact Hw | intros El; now rewrite El in E0 | | |].
  - transitivity (list_load (xa_l a)); [apply compact_load | exact L1].
  - intros Hco. eapply Nat.le_lt_trans; [apply compact_load | exact (L2 Hco)].
  - intros c Hc. unfold l in Hc. rewrite compact_perm in Hc.
    apply list_elem_of_filter in Hc as [Ha Hc]. split; [exact Ha|]. intros u Hu. now apply Hfresh.
Qed.

Lemma expire_turn_done (i wait : Z) (v : lsrv) :
  sok v -> i ∈ lm_chain (v_mp v) -> v_busy v = ∅ ->
  turn_done i wait v (expire_inode env r id i wait v).
Proof.
  pose proof (forced_turn i wait v) as F. pose proof (timed_turn i wait v) as T.
  case_eq (r_forced r); auto.
Qed.

(** ** The loop *)

Lemma expire_loop_ends (fuel : nat) (todo : list Z) (wait : Z) (v : lsrv) :
  sok v -> v_busy v = ∅ -> (forall i, i ∈ todo -> i ∈ lm_chain (v_mp v)) ->
  (forall i, i ∈ lm_chain (v_mp v) -> i ∈ todo \/ (r_forced r = false /\ settled now wait i v)) ->
  (load v * (load v + 1) + length todo < fuel)%nat ->
  exists v' wait', expire_loop env r id fuel todo wait v = Some (v', wait') /\ sok v' /\
    v_busy v' = ∅ /\
    forall i, i ∈ lm_chain (v_mp v') -> r_forced r = false /\ settled now wait' i v'.
Proof.
  revert todo wait v. induction fuel as [|fuel IH]; intros todo wait v Hok Hb Hin Hset Hf; [lia|].
  destruct todo as [|i todo]; cbn [expire_loop].
  { exists v, wait. split; [reflexivity|]. split; [exact Hok|]. split; [exact Hb|].
    intros i Hi. destruct (Hset i Hi) as [H|H]; [now apply not_elem_of_nil in H | exact H]. }
  pose proof (expire_turn_done i wait v Hok (Hin i ltac:(constructor)) Hb) as Ht.
  pose proof (expire_inode_ok mh rel maxc env r id i wait v Hok (fun w H => H)) as Hok'.
  destruct (expire_inode env r id i wait v) as [[v' wait'] dropped]. cbn in Hok'.
  destruct Ht as (Hb' & Hn & Hw & Hd). destruct dropped.
  - apply IH; auto. pose proof (chain_load_length (fun i => list_load (node_entries i v')) (lm_chain (v_mp v'))) as Hl.
    fold (load v') in Hl. cbn [length] in Hf. nia.
  - destruct Hd as (Ec & Hl & Hfr & Hs). apply IH; auto.
    + intros j Hj. rewrite Ec. apply Hin. now constructor.
    + intros j Hj. rewrite Ec in Hj. destruct (decide (j = i)) as [->|Hne]; [now right|].
      destruct (Hset j Hj) as [[?|?]%elem_of_cons|[_ Hsj]]; [congruence | now left|].
      right. split; [exact Hfr|]. eapply settled_same; [now apply Hn | exact Hw | exact Hsj].
    + cbn [length] in Hf. nia.
Qed.
End Body.

(** Enough turns for a run. *)
Definition run_fuel (v : lsrv) : nat :=
  S (load v * (load v + 1) + length (lm_chain (v_mp v))).
