(* ===== verification/LeaseDecide.v ===== *)
(** * What a lease request gets

    An abstract view of a table: the leases of each client. Without multi-host writes a
    request is granted exactly when no other client holds a lease that blocks it
    ([blocks]), and [sam_record_lease] changes the view accordingly. *)
From S2P Require Import Prelude Lease LeaseOps LeaseTable LeaseGrant LeaseInv.

(** ** The rule *)

(** A request of type [t] waits for a lease [u] of another client. *)
Definition blocks (q : lreq) (t u : LEASE_type) : bool :=
  match t with
  | LTYPE_read =>
    match u with LTYPE_truncate | LTYPE_exclusive | LTYPE_write | LTYPE_append => true | _ => false end
  | LTYPE_write =>
    match u with LTYPE_open | LTYPE_frlock | LTYPE_mmap => false | _ => true end
  | LTYPE_append => match u with LTYPE_open | LTYPE_frlock => false | _ => true end
  | LTYPE_truncate =>
    if q_lflag q =? SAM_RELEASE then false
    else match u with LTYPE_stage | LTYPE_open | LTYPE_frlock => false | _ => true end
  | LTYPE_mmap =>
    if has_any (q_filemode q) FWRITE then
      match u with LTYPE_open | LTYPE_frlock | LTYPE_mmap => false | _ => true end
    else
      match u with
      | LTYPE_truncate | LTYPE_exclusive | LTYPE_write | LTYPE_append => true
      | _ => false
      end
  | LTYPE_exclusive =>
    match u with
    | LTYPE_write | LTYPE_append | LTYPE_truncate | LTYPE_read | LTYPE_stage | LTYPE_exclusive => true
    | _ => false
    end
  | LTYPE_frlock | LTYPE_stage | LTYPE_open | LTYPE_unused => false
  end.

Lemma has_any_true (x m : Z) :
  lease_word x -> has_any x m = true -> exists t, holds x t = true /\ holds m t = true.
Proof.
  intros Hx Hm. destruct (decide (Exists (fun t => holds x t = true /\ holds m t = true) all_ltypes))
    as [(t & _ & H)%Exists_exists|H]; [eauto|].
  exfalso. apply not_Exists_Forall in H; [|intros t; apply _]. rewrite Forall_forall in H.
  assert (Z.land x m = 0) as E.
  { apply lease_word_zero; [auto with lease|]. intros t. rewrite holds_land.
    specialize (H t (all_ltypes_in t)).
    destruct (holds x t) eqn:?, (holds m t) eqn:?; try reflexivity. exfalso. auto. }
  unfold has_any in Hm. rewrite E in Hm. discriminate.
Qed.

(** A lease that answers a test. *)
Ltac lease_witness :=
  match goal with
  | H : has_any ?x ?m = true |- exists u, holds _ u = true /\ _ =>
    let u := fresh "u" in let H1 := fresh in let H2 := fresh in
    destruct (has_any_true x m ltac:(assumption) H) as (u & H1 & H2);
    exists u; split; [auto | destruct u; solve [reflexivity | discriminate H2]]
  end.

(** The decision follows the rule. *)
Lemma verdict_rule (env : lenv) (q : lreq) (size : Z) (t : LEASE_type) (own other mmap : Z) :
  e_mh_write env = false -> t <> LTYPE_frlock -> lease_word other ->
  (forall u, holds mmap u = true -> holds other u = true) -> lease_word mmap ->
  match lease_verdict env q size t own other mmap with
  | VGrant => forall u, holds other u = true -> blocks q t u = false
  | VWait _ => exists u, holds other u = true /\ blocks q t u = true
  | VDirectio => False
  end.
Proof.
  intros Emh Ht Ho Hsub Hm. unfold lease_verdict, blocks. rewrite Emh. cbn [negb andb].
  destruct t; try congruence;
    repeat match goal with
    | |- context [if ?b then _ else _] => destruct b eqn:?
    | H : (_ || _) = false |- _ => apply orb_false_iff in H as [? ?]
    | H : (_ || _) = true |- _ => apply orb_true_iff in H as [?|?]
    | H : negb _ && _ = true |- _ => apply andb_true_iff in H as [? ?]
    | H : negb _ && _ = false |- _ => apply andb_false_iff in H as [?|?]
    | H : negb _ = false |- _ => apply negb_false_iff in H
    | H : negb _ = true |- _ => apply negb_true_iff in H
    end; try congruence; try lease_witness;
    intros u Hu; destruct u; try reflexivity; rival_absurd.
Qed.

(** The leases of mapped clients are leases of other clients. *)
Lemma scan_mmap_sub (ord : Z) (l : list client_lease) (t : LEASE_type) :
  holds (sc_mmap (lease_scan ord l)) t = true -> holds (sc_other (lease_scan ord l)) t = true.
Proof.
  unfold lease_scan. assert (forall l a i,
    (forall u, holds (sc_mmap a) u = true -> holds (sc_other a) u = true) ->
    forall u, holds (sc_mmap (scan_from ord a i l)) u = true ->
              holds (sc_other (scan_from ord a i l)) u = true) as Hgen.
  { clear. induction l as [|c l IH]; intros a i Ha; cbn; [exact Ha|]. apply IH. intros u.
    unfold scan_entry. destruct (_ =? _); cbn; [apply Ha|].
    destruct (_ && _); rewrite ?holds_lor, ?orb_true_iff; intuition auto. }
  apply Hgen. cbn. intros u. now rewrite holds_0.
Qed.

Lemma scan_words (ord maxc : Z) (l : list client_lease) :
  Forall (entry_shape maxc) l ->
  lease_word (sc_other (lease_scan ord l)) /\ lease_word (sc_mmap (lease_scan ord l)).
Proof.
  intros Hl. unfold lease_scan. assert (forall a i,
    lease_word (sc_other a) -> lease_word (sc_mmap a) ->
    lease_word (sc_other (scan_from ord a i l)) /\ lease_word (sc_mmap (scan_from ord a i l))) as Hgen.
  { induction Hl as [|c l (_ & Hw & _) _ IH]; intros a i H1 H2; cbn; [auto|].
    apply IH; unfold scan_entry; destruct (_ =? _); cbn; auto with lease.
    destruct (_ && _); auto with lease. }
  apply Hgen; cbn; apply lease_word_0.
Qed.

(** ** The view *)

(** The leases of each client, in the order of the table. *)
Definition view (s : lst) : list (Z * Z) := rival <$> entries s.
Definition word_of (ord : Z) (w : list (Z * Z)) : Z :=
  match list_find (fun p => p.1 = ord) w with Some (_, p) => p.2 | None => 0 end.
Definition others_of (ord : Z) (w : list (Z * Z)) : list (Z * Z) :=
  filter (fun p => p.1 <> ord) w.

(** Another client holds a lease that blocks the request. *)
Definition blocked (q : lreq) (t : LEASE_type) (ord : Z) (w : list (Z * Z)) : bool :=
  existsb (fun p => existsb (fun u => holds p.2 u && blocks q t u) all_ltypes) (others_of ord w).

Lemma word_of_insert (ord : Z) (i : nat) (x y : Z) (w : list (Z * Z)) :
  NoDup w.*1 -> w !! i = Some (ord, x) -> word_of ord (<[i := (ord, y)]> w) = y.
Proof.
  intros Hn Hi. unfold word_of.
  destruct (list_find (fun p => p.1 = ord) (<[i := (ord, y)]> w)) as [[k p]|] eqn:E.
  - apply list_find_Some in E as (Hk & Hp & _). destruct (decide (i = k)) as [<-|Hne].
    + rewrite list_lookup_insert_eq in Hk by (eapply lookup_lt_Some; eauto). injection Hk as <-. reflexivity.
    + exfalso. rewrite list_lookup_insert_ne in Hk by exact Hne. apply Hne.
      apply (NoDup_lookup w.*1 i k ord Hn); rewrite list_lookup_fmap; [now rewrite Hi | rewrite Hk].
      cbn. now rewrite Hp.
  - apply list_find_None in E. rewrite Forall_forall in E. exfalso.
    apply (E (ord, y)); [|reflexivity]. apply (list_elem_of_lookup_2 _ i).
    apply list_lookup_insert_eq. eapply lookup_lt_Some; eauto.
Qed.

Lemma word_of_at (ord : Z) (i : nat) (x : Z) (w : list (Z * Z)) :
  NoDup w.*1 -> w !! i = Some (ord, x) -> word_of ord w = x.
Proof. intros Hn Hi. rewrite <- (list_insert_id w i (ord, x) Hi). now apply (word_of_insert ord i x x). Qed.

Lemma word_of_new (ord : Z) (w : list (Z * Z)) :
  ord ∉ w.*1 -> word_of ord w = 0.
Proof.
  intros Hn. unfold word_of. destruct (list_find _ w) as [[k p]|] eqn:E; [|reflexivity].
  apply list_find_Some in E as (Hk & Hp & _). exfalso. apply Hn. apply list_elem_of_fmap.
  exists p. split; [auto|]. eapply list_elem_of_lookup_2; eauto.
Qed.

Lemma others_insert (ord : Z) (i : nat) (x y : Z) (w : list (Z * Z)) :
  w !! i = Some (ord, x) -> others_of ord (<[i := (ord, y)]> w) = others_of ord w.
Proof.
  intros Hi. unfold others_of. rewrite insert_take_drop by (eapply lookup_lt_Some; eauto).
  rewrite <- (take_drop_middle w i _ Hi) at 3.
  rewrite !filter_app, !filter_cons_False by (cbn; auto). reflexivity.
Qed.

Lemma others_new (ord x : Z) (w : list (Z * Z)) : others_of ord (w ++ [(ord, x)]) = others_of ord w.
Proof.
  unfold others_of. rewrite filter_app, filter_cons_False, filter_nil by (cbn; auto).
  apply app_nil_r.
Qed.

(** The rule, in terms of the leases of the other clients. *)
Lemma blocked_iff (q : lreq) (t : LEASE_type) (ord other : Z) (l : list client_lease) :
  covers ord other l ->
  blocked q t ord (rival <$> l) = true <-> exists u, holds other u = true /\ blocks q t u = true.
Proof.
  intros Hc. unfold blocked. rewrite existsb_exists. split.
  - intros (p & Hp%list_elem_of_In & (u & _ & [H1 H2]%andb_true_iff)%existsb_exists).
    apply list_elem_of_filter in Hp as [Hne (c & -> & Hcl)%list_elem_of_fmap].
    exists u. split; [|exact H2]. apply Hc. exists c. auto.
  - intros (u & (b & Hb & Hne & Hh)%Hc & Hu). exists (rival b). split.
    + apply list_elem_of_In, list_elem_of_filter. split; [exact Hne|].
      apply list_elem_of_fmap. eauto.
    + apply existsb_exists. exists u. split; [apply list_elem_of_In, all_ltypes_in|].
      cbn. now rewrite Hh, Hu.
Qed.

(** ** The operations on the view *)

Lemma view_ords (s : lst) : (view s).*1 = cl_ord <$> entries s.
Proof. unfold view. rewrite <- list_fmap_compose. reflexivity. Qed.

Lemma view_at (s : lst) (i : nat) (c : client_lease) :
  entries s !! i = Some c -> view s !! i = Some (cl_ord c, cl_leases c).
Proof. intros H. unfold view. now rewrite list_lookup_fmap, H. Qed.

Lemma view_put (l : list client_lease) (s : lst) :
  is_Some (ln_leases (s_ip s)) -> view (put_entries l s) = rival <$> l.
Proof. intros H. unfold view. now rewrite entries_put. Qed.

Lemma lookup_table (s : lst) (i : nat) (c : client_lease) :
  entries s !! i = Some c -> is_Some (ln_leases (s_ip s)).
Proof. intros H. destruct (entries_lookup_Some s i c H) as (t & Et & _). exists t. exact Et. Qed.

Section View.
Context (env : lenv) (ord maxc : Z) (t : LEASE_type) (q : lreq).
Hypotheses (Emh : e_mh_write env = false) (Ht : t <> LTYPE_frlock).

(** The entry that [sam_add_ino_lease] uses. *)
Lemma add_locate_view (s : lst) (tb : lease_ino) :
  ln_leases (s_ip s) = Some tb -> Forall (entry_shape maxc) (li_lease tb) -> 1 <= ord <= maxc ->
  exists s1 i others mmap, add_locate env false id ord s = Found s1 i others mmap /\
    (view s1 = view s \/ (view s1 = view s ++ [(ord, 0)] /\ ord ∉ (view s).*1)) /\
    lease_word others /\ lease_word mmap /\
    (forall u, holds mmap u = true -> holds others u = true).
Proof.
  intros Et Hs Ho. unfold add_locate. rewrite Et. set (l := reuse_entry ord <$> li_lease tb).
  assert (is_Some (ln_leases (s_ip s))) as HS by (exists tb; exact Et).
  assert (entries s = li_lease tb) as Ee by (apply entries_Some; exact Et).
  assert (rival <$> l = view s) as Ev.
  { unfold view, l. rewrite Ee, <- list_fmap_compose. apply list_fmap_ext. intros _ c _.
    apply reuse_rival. }
  assert (Forall (entry_shape maxc) l) as Hl.
  { unfold l. apply Forall_fmap. eapply Forall_impl; [exact Hs|]. intros c Hc.
    now apply (reuse_shrinks maxc ord c). }
  destruct (scan_words ord maxc l Hl) as [W1 W2].
  destruct (sc_index (lease_scan ord l)) as [i|] eqn:Ei.
  { eexists _, _, _, _. split; [reflexivity|]. rewrite view_put by exact HS.
    split; [now left|]. split; [exact W1|]. split; [exact W2|]. apply scan_mmap_sub. }
  apply scan_none in Ei. assert (ord ∉ (view s).*1) as Hnew.
  { rewrite <- Ev, <- list_fmap_compose. exact Ei. }
  destruct (_ <? _).
  { eexists _, _, _, _. split; [reflexivity|]. rewrite view_put, fmap_app, Ev by exact HS.
    split; [now right|]. split; [exact W1|]. split; [exact W2|]. apply scan_mmap_sub. }
  unfold id, add_relocate. rewrite Et.
  destruct (sc_index (lease_scan ord (li_lease tb))) as [k|] eqn:Ek.
  { exfalso. apply scan_found in Ek as (c & Hc & Eo). apply Hnew. rewrite view_ords, Ee.
    apply list_elem_of_fmap. exists c. split; [auto|]. eapply list_elem_of_lookup_2; eauto. }
  assert (Forall (entry_shape maxc) (li_lease tb ++ [zero_entry ord])) as Hz.
  { apply Forall_app. split; [exact Hs|]. constructor; [|constructor].
    repeat split; cbn; lia. }
  destruct (scan_words ord maxc _ Hz) as [W3 W4].
  eexists _, _, _, _. split; [reflexivity|]. split.
  { right. split; [|exact Hnew]. unfold view. rewrite Ee. exact (fmap_app rival (li_lease tb) [zero_entry ord]). }
  split; [exact W3|]. split; [exact W4|]. apply scan_mmap_sub.
Qed.

(** The decision for the entry [i]. *)
Lemma add_decide_view (interval : Z) (i : nat) (others mmap : Z) (s : lst) (c : client_lease) :
  entries s !! i = Some c -> cl_ord c = ord -> covers ord others (entries s) ->
  lease_word others -> lease_word mmap ->
  (forall u, holds mmap u = true -> holds others u = true) ->
  let '(s', q') := add_decide env ord t interval q i others mmap s in
  if blocked q t ord (view s) then
    view s' = view s /\ q_actions q' = SR_WAIT_LEASE /\
    exists c', entries s' !! i = Some c' /\ cl_ord c' = ord /\ holds (cl_wt c') t = true
  else
    view s' = <[i := (ord, Z.lor (cl_leases c) (lbit t))]> (view s) /\
    has_any (q_actions q') SR_WAIT_LEASE = false /\ q_filemode q' = q_filemode q.
Proof.
  intros Hc Eo Hcov Wo Wm Hsub. unfold add_decide. rewrite Hc.
  pose proof (add_flags_spec maxc (s_ip s) t q c) as Hf.
  destruct (add_flags (s_ip s) t q c) as [c1 q1]. destruct Hf as ([= Fo Fl] & _ & Ff & Fg).
  pose proof (lookup_table s i c Hc) as HS.
  set (s1 := put_entries (<[i := c1]> (entries s)) s).
  assert (entries s1 = <[i := c1]> (entries s)) as E1 by (apply entries_put; exact HS).
  assert (view s1 = view s) as V1.
  { unfold view. rewrite E1. apply (rival_insert _ _ c); [exact Hc|]. unfold rival. congruence. }
  assert (entries s1 !! i = Some c1) as Hc1.
  { rewrite E1. apply list_lookup_insert_eq. eapply lookup_lt_Some; eauto. }
  assert (forall u, blocks q1 t u = blocks q t u) as Hbl by (intros u; unfold blocks; now rewrite Ff, Fg).
  pose proof (verdict_rule env q1 (ln_size (s_ip s1)) t (cl_leases c1) others mmap Emh Ht Wo Hsub Wm) as Hv.
  pose proof (blocked_iff q t ord others (entries s) Hcov) as Hb. fold (view s) in Hb.
  pose proof (lookup_table s1 i c1 Hc1) as HS1.
  destruct (lease_verdict _ _ _ _ _ _ _) as [|r|]; [| |contradiction].
  - destruct (blocked q t ord (view s)) eqn:Eb.
    { destruct (proj1 Hb eq_refl) as (u & H1 & H2). specialize (Hv u H1). rewrite Hbl in Hv. congruence. }
    rewrite Hc1.
    pose proof (grant_entry_spec maxc env t interval q1 (ln_write_seqno (s_ip s1)) c1) as Hg.
    destruct (grant_entry _ _ _ _ _ _) as [[c2 reply] seqno]. destruct Hg as (Go & Gl & _ & Gw).
    split; [|split; [exact Gw | exact Ff]].
    change (view (on_ip (set_write_seqno seqno) ?x)) with (view x).
    rewrite view_put by exact HS1. rewrite list_fmap_insert. fold (view s1). rewrite V1.
    unfold rival. now rewrite Go, Fo, Eo, Gl, Fl.
  - destruct (blocked q t ord (view s)) eqn:Eb.
    2:{ exfalso. destruct Hv as (u & H1 & H2). rewrite Hbl in H2.
        assert (false = true) by (apply Hb; eauto). discriminate. }
    set (s2 := put_entries (alter (wait_entry t) i (entries s1)) s1).
    assert (entries s2 = alter (wait_entry t) i (entries s1)) as E2 by (apply entries_put; exact HS1).
    assert (forall x, entries (sam_check_lease_timeo env r ord x) = entries x) as Et.
    { intros x. unfold sam_check_lease_timeo. destruct (_ =? _); [reflexivity|].
      destruct (_ <? _); reflexivity. }
    split; [|split; [reflexivity|]].
    + unfold view at 1. rewrite Et, E2, wait_entry_rival. exact V1.
    + exists (wait_entry t c1). rewrite Et, E2, list_lookup_alter, decide_True, Hc1 by reflexivity.
      split; [reflexivity|]. split; [cbn; congruence|]. cbn.
      now rewrite holds_lor, holds_lbit, bool_decide_true, orb_true_r.
Qed.
End View.

(** ** [sam_record_lease] on the view *)

Definition imp_bits (imp : option LEASE_type) : Z :=
  match imp with Some u => lbit u | None => 0 end.

Lemma next_gen_keeps (t : LEASE_type) (cq : client_lease * lreq) :
  rival (next_gen t cq).1 = rival cq.1 /\ q_actions (next_gen t cq).2 = q_actions cq.2.
Proof. split; reflexivity. Qed.

(** The end of [sam_record_lease] for a request that waits, and for one that does not. *)
Lemma record_finish_view (env : lenv) (t : LEASE_type) (interval : Z) (ng is_get : bool)
    (s : lst) (q : lreq) (i : nat) (c : client_lease) :
  entries s !! i = Some c ->
  let '(s', q') := record_finish env t interval ng is_get (s, q, i) in
  if has_any (q_actions q) SR_WAIT_LEASE then
    entries s' = entries s /\ q_actions q' = q_actions q /\ q_granted q' = 0
  else
    let imp := imp_bits (implicit_type t is_get q (length (entries s))) in
    view s' = <[i := (cl_ord c, Z.lor (cl_leases c) imp)]> (view s) /\
    q_actions q' = q_actions q /\ q_granted q' = Z.lor (lbit t) imp.
Proof.
  intros Hc. unfold record_finish. rewrite Hc.
  destruct (has_any (q_actions q) SR_WAIT_LEASE); cbn [negb]; [auto|].
  set (imp := implicit_type t is_get q (length (entries s))).
  set (c1 := match imp with Some u => implicit_lease u t c | None => c end).
  match goal with |- context [if ng then ?x else ?y] => set (cq := if ng then x else y) end.
  assert (rival cq.1 = (cl_ord c, Z.lor (cl_leases c) (imp_bits imp)) /\ q_actions cq.2 = q_actions q) as [R A].
  { assert (rival c1 = (cl_ord c, Z.lor (cl_leases c) (imp_bits imp))) as Rc.
    { unfold c1, rival, imp_bits. destruct imp; cbn; now rewrite ?Z.lor_0_r. }
    unfold cq. destruct ng; [|auto]. now destruct imp. }
  destruct cq as [c2 q2]. cbn [fst snd] in R, A.
  split; [|split; [exact A|]].
  - change (view (on_mp ?f ?x)) with (view x).
    rewrite view_put by (eapply lookup_table; eauto). now rewrite list_fmap_insert, R.
  - cbn. unfold imp_bits. destruct imp; [reflexivity | now rewrite Z.lor_0_r].
Qed.

(** The implicit lease depends on the file mode of the request alone. *)
Lemma implicit_filemode (t : LEASE_type) (is_get : bool) (q q' : lreq) (n : nat) :
  q_filemode q' = q_filemode q -> implicit_type t is_get q' n = implicit_type t is_get q n.
Proof. intros E. unfold implicit_type. now rewrite E. Qed.

(** The abstract operation: the view and the reply of a request. *)
Definition lease_spec (is_get : bool) (q : lreq) (t : LEASE_type) (ord : Z) (s s' : lst) (q' : lreq) :
    Prop :=
  others_of ord (view s') = others_of ord (view s) /\
  if blocked q t ord (view s) then
    word_of ord (view s') = word_of ord (view s) /\
    q_actions q' = SR_WAIT_LEASE /\ q_granted q' = 0 /\
    exists c, c ∈ entries s' /\ cl_ord c = ord /\ holds (cl_wt c) t = true
  else
    word_of ord (view s') = Z.lor (word_of ord (view s)) (q_granted q') /\
    q_granted q' = Z.lor (lbit t) (imp_bits (implicit_type t is_get q (length (view s')))) /\
    has_any (q_actions q') SR_WAIT_LEASE = false.

Section Refine.
Context (env : lenv) (ord maxc : Z) (t : LEASE_type) (q : lreq) (ng is_get : bool).
Hypotheses (Emh : e_mh_write env = false) (Ht : t <> LTYPE_frlock) (Ho : 1 <= ord <= maxc)
  (Hq : has_any (q_actions q) SR_WAIT_LEASE = false).

Lemma record_new_view (s : lst) :
  ln_leases (s_ip s) = None ->
  let '(s', q') := sam_record_lease env id ord t q ng is_get s in lease_spec is_get q t ord s s' q'.
Proof.
  intros Et. unfold sam_record_lease, sam_new_ino_lease, id. rewrite Et.
  assert (view s = []) as Ev by (unfold view, entries; now rewrite Et).
  destruct (new_held_spec false false maxc env ord t (lease_interval q t) q s Ho Et)
    as (_ & c & Ec & Eo & _).
  set (s1 := new_ino_lease_held env ord t (lease_interval q t) q s) in *.
  assert (cl_leases c = lbit t) as El.
  { unfold s1, new_ino_lease_held in Ec. cbn in Ec. injection Ec as <-.
    destruct (has_any (lbit t) _); reflexivity. }
  assert (entries s1 !! 0%nat = Some c) as Hc by now rewrite Ec.
  pose proof (record_finish_view env t (lease_interval q t) ng is_get s1 q 0 c Hc) as Hf.
  destruct (record_finish _ _ _ _ _ _) as [s' q']. rewrite Hq in Hf.
  destruct Hf as (V & A & G). assert (view s1 = [(ord, lbit t)]) as V1.
  { unfold view. rewrite Ec. unfold rival. cbn. now rewrite Eo, El. }
  rewrite V1 in V. cbn in V. unfold lease_spec. rewrite V, Ev, G, A, Eo, El.
  cbn [blocked others_of existsb]. split; [|split; [|split; [now rewrite Ec | exact Hq]]].
  - unfold others_of. rewrite filter_cons_False by (cbn; auto). reflexivity.
  - unfold word_of. cbn. now rewrite decide_True.
Qed.

Lemma record_add_view (s : lst) (tb : lease_ino) :
  ln_leases (s_ip s) = Some tb -> Forall (entry_shape maxc) (li_lease tb) ->
  NoDup (cl_ord <$> li_lease tb) -> e_max_clients env = maxc ->
  let '(s', q') := sam_record_lease env id ord t q ng is_get s in lease_spec is_get q t ord s s' q'.
Proof.
  intros Et Hs Hn Em. unfold sam_record_lease. rewrite Et. unfold sam_add_ino_lease.
  destruct (add_locate_view env ord maxc s tb Et Hs Ho)
    as (s1 & i & others & mmap & El & Hv & W1 & W2 & Hsub).
  pose proof (add_locate_spec false false maxc env false id ord s Em Ho (good_refl _ _ _ s)) as Hl.
  rewrite El in Hl |- *. destruct Hl as [_ [(c & Hc & Eo) Hcov]]. cbn [add_finish].
  assert (others_of ord (view s1) = others_of ord (view s) /\
    word_of ord (view s1) = word_of ord (view s) /\ NoDup (view s1).*1) as (O1 & O2 & O3).
  { assert (NoDup (view s).*1) as Hns by now rewrite view_ords, (entries_Some tb s Et).
    destruct Hv as [->|[-> Hnew]]; [auto|]. split; [apply others_new|].
    assert (NoDup (view s ++ [(ord, 0)]).*1) as Hnd.
    { rewrite fmap_app. apply NoDup_app. split; [exact Hns|]. split; [|apply NoDup_singleton].
      intros x Hx ->%list_elem_of_singleton. auto. }
    split; [|exact Hnd]. rewrite (word_of_new ord (view s) Hnew).
    apply (word_of_at ord (length (view s)) 0); [exact Hnd|]. now apply list_lookup_middle. }
  assert (blocked q t ord (view s1) = blocked q t ord (view s)) as Eb.
  { unfold blocked. now rewrite O1. }
  pose proof (view_at s1 i c Hc) as Hvi. rewrite Eo in Hvi.
  pose proof (add_decide_view env ord maxc t q Emh Ht (lease_interval q t) i others mmap s1 c
    Hc Eo Hcov W1 W2 Hsub) as Hd.
  pose proof (word_of_at ord i (cl_leases c) (view s1) O3 Hvi) as Hwc.
  destruct (add_decide _ _ _ _ _ _ _ _ _) as [s2 q2]. rewrite Eb in Hd. unfold lease_spec.
  destruct (blocked q t ord (view s)).
  - destruct Hd as (V2 & A2 & c' & Hc' & Eo' & Hw').
    pose proof (record_finish_view env t (lease_interval q t) ng is_get s2 q2 i c' Hc') as Hf.
    destruct (record_finish _ _ _ _ _ _) as [s' q']. rewrite A2 in Hf.
    destruct Hf as (E' & A' & G'). unfold view at 1 3. rewrite E'. fold (view s2). rewrite V2.
    split; [exact O1|]. split; [exact O2|]. split; [exact A'|]. split; [exact G'|].
    exists c'. split; [eapply list_elem_of_lookup_2; eauto | auto].
  - destruct Hd as (V2 & A2 & F2).
    assert (view s2 !! i = Some (ord, Z.lor (cl_leases c) (lbit t))) as Hi2.
    { rewrite V2. apply list_lookup_insert_eq. eapply lookup_lt_Some; eauto. }
    unfold view in Hi2. rewrite list_lookup_fmap in Hi2.
    destruct (entries s2 !! i) as [c2|] eqn:Hc2; [|discriminate]. injection Hi2 as Eo2 El2.
    pose proof (record_finish_view env t (lease_interval q t) ng is_get s2 q2 i c2 Hc2) as Hf.
    destruct (record_finish _ _ _ _ _ _) as [s' q']. rewrite A2 in Hf.
    assert (length (view s') = length (entries s2)) as Hlen.
    { destruct Hf as (-> & _). unfold view. now rewrite length_insert, length_fmap. }
    destruct Hf as (V' & A' & G'). rewrite (implicit_filemode t is_get q q2 _ F2), <- Hlen in V', G'.
    set (imp := imp_bits _) in *. clearbody imp. clear Hlen.
    rewrite V2, list_insert_insert_eq, Eo2, El2 in V'. rewrite V', G', A'.
    split; [|split; [|split; [reflexivity | exact A2]]].
    + rewrite (others_insert ord i (cl_leases c)); [exact O1 | exact Hvi].
    + rewrite (word_of_insert ord i (cl_leases c)), <- O2, Hwc; [|exact O3 | exact Hvi].
      now rewrite Z.lor_assoc.
Qed.
End Refine.
