(* ===== verification/LeaseReq.v ===== *)
(** * Lease messages

    [sam_process_lease_request] of src/src/fs/samfs/server.c and the handlers of the five
    lease operations. The block layer, truncation, staging and the host's file locks are
    an interface ([ReqCalls]). *)
From S2P Require Import Prelude Lease LeaseOps.

Definition EAGAIN : Z := 11.
Definition EPROTO : Z := 71.

(** [sam_map_t], the values used here. *)
Inductive map_flag : Type :=
| SAM_ALLOC_BITMAP | SAM_ALLOC_BLOCK | SAM_ALLOC_ZERO | SAM_WRITE_SPARSE.

(** [enum SPARSE_type] (src/src/fs/include/ioblk.h). *)
Definition SPARSE_nozero : Z := 1.
Definition SPARSE_zeroall : Z := 2.
Definition SPARSE_directio : Z := 3.
Definition SPARSE_noalloc : Z := 4.

(** The commands of a file lock request: cancel (0), query, and set. *)
Inductive frcmd : Type :=
| FR_CANCEL | F_HASREMOTELOCKS | F_GETLK | F_SETLK | F_SETLKW.

#[export] Instance frcmd_eq_dec : EqDecision frcmd.
Proof. solve_decision. Defined.

(** What the handlers call: [sam_map_block] (inode, errno, number of DAUs in the bit map),
    [sam_update_inode], [sam_client_allocate_append], [sam_server_truncate],
    [sam_proc_offline] with the flags around it, the host's [reclock] and [VOP_FRLOCK],
    and [sam_blkd_frlock_start]. *)
Class ReqCalls : Type := {
  rc_map_block : lnode -> Z -> Z -> map_flag -> lnode * Z * Z;
  rc_update_inode : lnode -> lnode * Z;
  rc_allocate_append : lnode -> lreq -> lnode * lreq * Z;
  rc_server_truncate : lnode -> lreq -> lnode * lreq * Z;
  rc_proc_offline : lnode -> lnode * Z;
  rc_reclock : lnode -> lreq -> frcmd -> Z;
  rc_blkd_frlock_start : lnode -> lreq -> Z;
  rc_has_remote_locks : lnode -> lreq -> Z
}.

(** They leave the lease table alone. *)
Definition keeps_table (n n' : lnode) : Prop :=
  ln_leases n' = ln_leases n /\ ln_ino n' = ln_ino n.

Class ReqCallsLaws `{ReqCalls} : Prop := {
  rc_map_keeps n o l f : keeps_table n (rc_map_block n o l f).1.1;
  rc_update_keeps n : keeps_table n (rc_update_inode n).1;
  rc_append_keeps n q : keeps_table n (rc_allocate_append n q).1.1;
  rc_truncate_keeps n q : keeps_table n (rc_server_truncate n q).1.1;
  rc_offline_keeps n : keeps_table n (rc_proc_offline n).1
}.

(** The operation of a message; the mask of all but the first is the field [ltype]. *)
Inductive lease_op : Type :=
| LEASE_get (t : LEASE_type)
| LEASE_remove (mask : Z)
| LEASE_reset (mask : Z)
| LEASE_relinquish (mask : Z)
| LEASE_extend (mask : Z)
| LEASE_unknown.

(** The message: operation, sender, whether a thread waits for the reply
    ([wait_flag <= SHARE_wait]), and for a file lock its command and whether it unlocks. *)
Record lmessage : Type := mkMsg {
  m_op : lease_op;
  m_ord : Z;
  m_wait : bool;
  m_cmd : frcmd;
  m_unlck : bool
}.

(** Of the inode and the mount point: mandatory locking, object file, preallocated file,
    and the ordinal of the server host. *)
Record genv : Type := mkGenv {
  g_mandlock : bool;
  g_object : bool;
  g_direct_map : bool;
  g_server_ord : Z
}.

Section Handlers.
Context `{LeaseCalls} `{ReqCalls} (env : lenv) (g : genv) (other : lst -> lst).

(** A call that replaces the inode. *)
Definition with_ip (n : lnode) : lst -> lst := on_ip (fun _ => n).

(** Lines 969-977 and 1107-1115: the reply after an allocation. *)
Definition allocated (actions error : Z) (s : lst) (q : lreq) : lst * lreq * Z :=
if error =? 0 then
  let q := set_q_sr_offset (q_offset q) (set_q_actions (Z.lor (q_actions q) actions) q) in
  let '(n, error) := rc_update_inode (set_updated (s_ip s)) in
  (with_ip n s, q, error)
else (s, q, error).

Definition get_write (ord : Z) (s : lst) (q : lreq) : lst * lreq * Z :=
let s := if e_mh_write env then s
         else on_ip (fun n => set_owners (ln_size_owner n) ord n) s in
if q_sparse q =? SPARSE_noalloc then (s, q, 0)
else if (q_sparse q =? SPARSE_zeroall) || (q_sparse q =? SPARSE_directio) then
  let '(n, error, daus) := rc_map_block (s_ip s) (q_offset q) (q_resid q) SAM_ALLOC_BITMAP in
  allocated (SR_STALE_INDIRECT ∣∣ SR_INVAL_PAGES) error (with_ip n s) (set_q_no_daus daus q)
else if (q_sparse q =? SPARSE_nozero) || q_directio q then
  let '(n, error, _) := rc_map_block (s_ip s) (q_offset q) (q_resid q) SAM_ALLOC_BLOCK in
  allocated (SR_STALE_INDIRECT ∣∣ SR_INVAL_PAGES) error (with_ip n s) (set_q_no_daus 0 q)
else (s, q, 0).

Definition get_stage (s : lst) (q : lreq) : lst * lreq * Z :=
if g_object g then (s, q, 0)
else let '(n, q, error) := rc_allocate_append (s_ip s) q in (with_ip n s, q, error).

Definition get_append (ord : Z) (s : lst) (q : lreq) : lst * lreq * Z :=
let first := negb (ln_size_owner (s_ip s) =? ord) in
let q := if first then set_q_actions (Z.lor (q_actions q) SR_FORCE_SIZE) q else q in
let q := if has_any (q_filemode q) FAPPEND && first
         then set_q_offset (ln_size (s_ip s)) q else q in
let s := on_ip (fun n => set_owners ord (ln_write_owner n) n) s in
if g_object g then (s, q, 0)
else if g_direct_map g || (ord =? g_server_ord g) then (s, q, 0)
else if q_offset q <? ln_size (s_ip s) then
  let '(n, error, _) := rc_map_block (s_ip s) (q_offset q) (ln_size (s_ip s) - q_offset q)
                          SAM_ALLOC_ZERO in
  let s := with_ip n s in
  if error =? 0 then get_stage s q else (s, q, error)
else get_stage s q.

Definition get_truncate (ord : Z) (s : lst) (q : lreq) : lst * lreq * Z :=
let '(n, q, error) := rc_server_truncate (s_ip s) q in
let '(s, act, rmv_err) :=
  sam_remove_lease env other ord (q_actions q) CL_TRUNCATE None (with_ip n s) in
(s, set_q_actions act q, if error =? 0 then rmv_err else error).

Definition get_mmap (ord : Z) (s : lst) (q : lreq) : lst * lreq * Z :=
if has_any (q_filemode q) FREAD then (s, q, 0)
else if q_sparse q =? 0 then (s, q, 0)
else if ord =? g_server_ord g then
  let '(n, error, _) := rc_map_block (s_ip s) (q_offset q) (q_resid q) SAM_WRITE_SPARSE in
  allocated SR_STALE_INDIRECT error (with_ip n s) (set_q_no_daus 0 q)
else
  let '(n, error, daus) := rc_map_block (s_ip s) (q_offset q) (q_resid q) SAM_ALLOC_BITMAP in
  allocated SR_STALE_INDIRECT error (with_ip n s)
    (if error =? 0 then set_q_no_daus daus q else q).

(** [sam_process_frlock_request]. What a request does to the host's locks and to the list
    of blocked ones is not part of the state; [F_SETLKW] stands for [F_SETLKW64] too. *)
Definition sam_process_frlock_request (ord : Z) (cmd : frcmd) (unlck is_get : bool)
  (s : lst) (q : lreq) : lst * lreq * Z :=
let q := set_q_granted 0 q in
let '(q, error) :=
  match cmd with
  | FR_CANCEL => (q, 0)
  | F_HASREMOTELOCKS => (q, rc_has_remote_locks (s_ip s) q)
  | _ =>
    let error := rc_reclock (s_ip s) q cmd in
    if (error =? EAGAIN) && bool_decide (cmd = F_SETLKW) then
      let error := rc_blkd_frlock_start (s_ip s) q in
      if error =? EAGAIN then (set_q_actions (Z.lor (q_actions q) SR_WAIT_LEASE) q, 0)
      else (q, error)
    else (q, error)
  end in
match cmd with
| F_GETLK | F_HASREMOTELOCKS => (s, q, error)
| _ =>
  if error =? 0 then
    if bool_decide (cmd = FR_CANCEL) || unlck then
      let '(s, act, error) := sam_remove_lease env other ord (q_actions q) CL_FRLOCK None s in
      (s, set_q_actions act q, error)
    else
      let '(s, q) := sam_record_lease env other ord LTYPE_frlock q false is_get s in (s, q, 0)
  else (s, q, error)
end.

(** [sam_process_get_lease]. *)
Definition sam_process_get_lease (t : LEASE_type) (m : lmessage) (s : lst) (q : lreq) :
  lst * lreq * Z :=
let ord := m_ord m in
if g_mandlock g then (s, q, EACCES)
else if decide (t = LTYPE_frlock) then
  sam_process_frlock_request ord (m_cmd m) (m_unlck m) true s q
else
  let '(s, q) := sam_record_lease env other ord t q (m_wait m) true s in
  if has_any (q_actions q) SR_WAIT_LEASE then (s, q, 0)
  else
    let '(s, q, error) :=
      match t with
      | LTYPE_write => get_write ord s q
      | LTYPE_append => get_append ord s q
      | LTYPE_stage => get_stage s q
      | LTYPE_truncate => get_truncate ord s q
      | LTYPE_mmap => get_mmap ord s q
      | _ => (s, q, 0)
      end in
    if error =? EDQUOT then
      let '(s, act, _) := sam_remove_lease env other ord (q_actions q) (lbit t) None s in
      (s, set_q_actions act q, error)
    else (s, q, error).

(** [sam_process_rm_lease]: generations are checked when the open lease is removed. *)
Definition sam_process_rm_lease (mask : Z) (m : lmessage) (s : lst) (q : lreq) :
  lst * lreq * Z :=
let gens := if has_any mask CL_OPEN then Some (q_gen q) else None in
let '(s, act, error) := sam_remove_lease env other (m_ord m) (q_actions q) mask gens s in
(s, set_q_actions act q, error).

(** A turn of the loop of [sam_process_reset_lease]. *)
Definition reset_type (ord mask : Z) (sq : lst * lreq) (t : LEASE_type) : lst * lreq :=
if has_any mask (lbit t) then
  let '(s, q) := sam_record_lease env other ord t sq.2 false false sq.1 in
  match t with
  | LTYPE_append => (on_ip (fun n => set_owners ord (ln_write_owner n) n) s, q)
  | LTYPE_write =>
    if e_mh_write env then (s, q)
    else (on_ip (fun n => set_owners (ln_size_owner n) ord n) s, q)
  | _ => (s, q)
  end
else sq.

(** [sam_process_reset_lease]. *)
Definition sam_process_reset_lease (mask : Z) (m : lmessage) (s : lst) (q : lreq) :
  lst * lreq * Z :=
let '(s, q, error) :=
  if has_any mask CL_FRLOCK then
    sam_process_frlock_request (m_ord m) (m_cmd m) (m_unlck m) false s q
  else
    let '(s, q) := fold_left (reset_type (m_ord m) (Z.land mask (~~ CL_STAGE))) all_ltypes (s, q) in
    if has_any mask CL_STAGE then
      let '(n, error) := rc_proc_offline (s_ip s) in (with_ip n s, q, error)
    else (s, q, 0) in
(on_ip mark_changed s, set_q_actions 0 q, error).

(** [sam_process_relinquish_lease]. *)
Definition sam_process_relinquish_lease (mask : Z) (m : lmessage) (s : lst) (q : lreq) :
  lst * lreq * Z :=
let '(s, act, error) :=
  sam_remove_lease env other (m_ord m) (q_actions q) mask (Some (q_gen q)) s in
(s, set_q_actions act q, error).

(** [sam_process_extend_lease]. *)
Definition sam_process_extend_lease (mask : Z) (m : lmessage) (s : lst) (q : lreq) :
  lst * lreq * Z :=
let '(s, error) := sam_extend_lease env (m_ord m) mask q s in (s, q, error).

(** [sam_process_lease_request]. *)
Definition sam_process_lease_request (m : lmessage) (s : lst) (q : lreq) : lst * lreq * Z :=
let q := set_q_sr_offset 0 (set_q_actions 0 q) in
match m_op m with
| LEASE_get t => sam_process_get_lease t m s q
| LEASE_remove mask => sam_process_rm_lease mask m s q
| LEASE_reset mask => sam_process_reset_lease mask m s q
| LEASE_relinquish mask =>
  if e_failover env then (s, q, EBUSY) else sam_process_relinquish_lease mask m s q
| LEASE_extend mask =>
  if e_failover env then (s, q, EBUSY) else sam_process_extend_lease mask m s q
| LEASE_unknown => (s, q, EPROTO)
end.
End Handlers.
