(* ===== verification/LeaseHandlers.v ===== *)
(** * Lease messages keep the invariant

    The handlers of [LeaseReq] leave a consistent table. *)
From S2P Require Import Prelude Lease LeaseOps LeaseTable LeaseGrant LeaseInv LeaseRemove LeaseServer LeaseReq.

(** [sam_record_lease] changes neither the file mode nor the truncation flag. *)
Lemma add_decide_q (env : lenv) (ord : Z) (t : LEASE_type) (iv : Z) (q : lreq) (i : nat)
    (others mmap : Z) (s : lst) :
  let q' := (add_decide env ord t iv q i others mmap s).2 in
  q_filemode q' = q_filemode q /\ q_lflag q' = q_lflag q.
Proof.
  unfold add_decide. destruct (entries s !! i) as [c|]; [|auto].
  pose proof (add_flags_spec 0 (s_ip s) t q c) as Hf.
  destruct (add_flags (s_ip s) t q c) as [c1 q1]. destruct Hf as (_ & _ & Hm & Hl).
  rewrite <- Hm, <- Hl. destruct (lease_verdict _ _ _ _ _ _ _) as [|r|]; cbn [fst snd].
  - case_match; [|auto]. destruct (grant_entry _ _ _ _ _ _) as [[c2 reply] seqno]. auto.
  - auto.
  - destruct (sam_callout_directio _ _ _) as [[l ms] w]. destruct w; [auto|].
    case_match; [|auto]. destruct (grant_entry _ _ _ _ _ _) as [[c2 reply] seqno]. auto.
Qed.

Lemma add_finish_q (env : lenv) (ord : Z) (t : LEASE_type) (iv : Z) (q : lreq) (loc : located) :
  let q' := (add_finish env ord t iv q loc).1.2 in
  q_filemode q' = q_filemode q /\ q_lflag q' = q_lflag q.
Proof.
  destruct loc as [s i others mmap|s]; cbn; [|auto].
  pose proof (add_decide_q env ord t iv q i others mmap s) as Hd.
  destruct (add_decide _ _ _ _ _ _ _ _ _) as [s' q']. exact Hd.
Qed.

Lemma record_finish_q (env : lenv) (t : LEASE_type) (iv : Z) (ng is_get : bool)
    (r : lst * lreq * nat) :
  let q' := (record_finish env t iv ng is_get r).2 in
  q_filemode q' = q_filemode r.1.2 /\ q_lflag q' = q_lflag r.1.2.
Proof.
  destruct r as [[s q] i]. unfold record_finish. cbn [fst snd].
  destruct (entries s !! i) as [c|], (negb _); auto.
  destruct ng, (implicit_type _ _ _ _); auto.
Qed.

Lemma record_q (env : lenv) (other : lst -> lst) (ord : Z) (t : LEASE_type) (q : lreq)
    (ng is_get : bool) (s : lst) :
  let q' := (sam_record_lease env other ord t q ng is_get s).2 in
  q_filemode q' = q_filemode q /\ q_lflag q' = q_lflag q.
Proof.
  unfold sam_record_lease. set (r := match ln_leases (s_ip s) with Some _ => _ | None => _ end).
  assert (q_filemode r.1.2 = q_filemode q /\ q_lflag r.1.2 = q_lflag q) as [E1 E2].
  { unfold r. destruct (ln_leases (s_ip s)); [apply add_finish_q|].
    unfold sam_new_ino_lease. destruct (ln_leases (s_ip (other s))); [apply add_finish_q | auto]. }
  destruct (record_finish_q env t (lease_interval q t) ng is_get r) as [E3 E4].
  split; congruence.
Qed.

Section Handled.
Context `{LeaseCallsLaws} `{ReqCallsLaws} (mh rel : bool) (maxc : Z).
Context (env : lenv) (g : genv) (other : lst -> lst).
#[local] Abbreviation gd := (good mh rel maxc).
Hypotheses (Henv : env_ok mh maxc env) (Hother : forall s, gd s (other s)).

(** What is assumed of a message: a request for a mapping asks for reading or writing, and
    without [rel] a requested or reset truncation lease is not for a release. *)
Definition sound_req (m : lmessage) (q : lreq) : Prop :=
  match m_op m with
  | LEASE_get t => req_ok rel true q t
  | LEASE_reset mask => forall t, has_any mask (lbit t) = true -> req_ok rel false q t
  | _ => True
  end.

Lemma req_ok_same (is_get : bool) (q q' : lreq) (t : LEASE_type) :
  q_filemode q' = q_filemode q -> q_lflag q' = q_lflag q ->
  req_ok rel is_get q t -> req_ok rel is_get q' t.
Proof. intros E1 E2 Hq. unfold req_ok. rewrite E1, E2. apply Hq. Qed.

Lemma record_good (ord : Z) (t : LEASE_type) (q : lreq) (ng is_get : bool) (s : lst) :
  1 <= ord <= maxc -> req_ok rel is_get q t ->
  gd s (sam_record_lease env other ord t q ng is_get s).1.
Proof. intros Ho Hq. destruct Henv. now apply record_lease_spec. Qed.

Lemma remove_good (ord act mask : Z) (gens : option (list Z)) (s : lst) :
  gd s (sam_remove_lease env other ord act mask gens s).1.1.
Proof. apply remove_lease_good. apply Hother. Qed.

Lemma with_ip_good (n : lnode) (s : lst) : keeps_table (s_ip s) n -> gd s (with_ip n s).
Proof. intros [E1 E2]. now apply good_ip. Qed.

Lemma allocated_good (act error : Z) (s : lst) (q : lreq) : gd s (allocated act error s q).1.1.
Proof.
  unfold allocated. destruct (error =? 0); [|reflexivity].
  pose proof (rc_update_keeps (set_updated (s_ip s))) as Hk.
  destruct (rc_update_inode _) as [n e]. now apply with_ip_good.
Qed.

Lemma map_good (s : lst) (o l : Z) (f : map_flag) :
  gd s (with_ip (rc_map_block (s_ip s) o l f).1.1 s).
Proof. apply with_ip_good, rc_map_keeps. Qed.

Ltac map_step s o l f :=
  pose proof (map_good s o l f); destruct (rc_map_block (s_ip s) o l f) as [[? ?] ?]; cbn [fst] in *.

Lemma get_write_good (ord : Z) (s : lst) (q : lreq) : gd s (get_write env ord s q).1.1.
Proof.
  unfold get_write. set (s1 := if e_mh_write env then _ else _).
  assert (gd s s1) as G1.
  { unfold s1. destruct (e_mh_write env); [reflexivity | now apply good_ip]. }
  clearbody s1. destruct (_ =? SPARSE_noalloc); [exact G1|].
  destruct (_ || _); [|destruct (_ || _); [|exact G1]].
  - map_step s1 (q_offset q) (q_resid q) SAM_ALLOC_BITMAP.
    transitivity s1; [exact G1|]. etransitivity; [eassumption | apply allocated_good].
  - map_step s1 (q_offset q) (q_resid q) SAM_ALLOC_BLOCK.
    transitivity s1; [exact G1|]. etransitivity; [eassumption | apply allocated_good].
Qed.

Lemma get_stage_good (s : lst) (q : lreq) : gd s (get_stage g s q).1.1.
Proof.
  unfold get_stage. destruct (g_object g); [reflexivity|].
  pose proof (rc_append_keeps (s_ip s) q) as Hk.
  destruct (rc_allocate_append _ _) as [[n q'] e]. now apply with_ip_good.
Qed.

Lemma get_append_good (ord : Z) (s : lst) (q : lreq) : gd s (get_append g ord s q).1.1.
Proof.
  unfold get_append. set (s1 := on_ip _ s). set (q1 := if _ && _ then _ else _).
  assert (gd s s1) as G1 by now apply good_ip.
  clearbody s1 q1. destruct (g_object g) eqn:Eo; [exact G1|]. destruct (_ || _); [exact G1|].
  transitivity s1; [exact G1|]. destruct (_ <? _); [|apply get_stage_good].
  map_step s1 (q_offset q1) (ln_size (s_ip s1) - q_offset q1) SAM_ALLOC_ZERO.
  destruct (_ =? 0); [|assumption]. etransitivity; [eassumption | apply get_stage_good].
Qed.

Lemma get_truncate_good (ord : Z) (s : lst) (q : lreq) :
  gd s (get_truncate env other ord s q).1.1.
Proof.
  unfold get_truncate. pose proof (rc_truncate_keeps (s_ip s) q) as Hk.
  destruct (rc_server_truncate _ _) as [[n q'] e].
  pose proof (remove_good ord (q_actions q') CL_TRUNCATE None (with_ip n s)) as Hr.
  destruct (sam_remove_lease _ _ _ _ _ _ _) as [[s' act] e'].
  transitivity (with_ip n s); [now apply with_ip_good | exact Hr].
Qed.

Lemma get_mmap_good (ord : Z) (s : lst) (q : lreq) : gd s (get_mmap g ord s q).1.1.
Proof.
  unfold get_mmap. destruct (has_any _ _); [reflexivity|]. destruct (_ =? 0); [reflexivity|].
  destruct (_ =? _).
  - map_step s (q_offset q) (q_resid q) SAM_WRITE_SPARSE.
    etransitivity; [eassumption | apply allocated_good].
  - map_step s (q_offset q) (q_resid q) SAM_ALLOC_BITMAP.
    etransitivity; [eassumption | apply allocated_good].
Qed.

Lemma frlock_good (ord : Z) (cmd : frcmd) (unlck is_get : bool) (s : lst) (q : lreq) :
  1 <= ord <= maxc ->
  gd s (sam_process_frlock_request env other ord cmd unlck is_get s q).1.1.
Proof.
  intros Ho. unfold sam_process_frlock_request.
  set (p := match cmd with FR_CANCEL => _ | _ => _ end). destruct p as [q1 error].
  assert (req_ok rel is_get q1 LTYPE_frlock) as Hp by (split; discriminate).
  assert (forall b1 b2 : bool, gd s (if error =? 0 then
    if b1 || b2 then let '(s, act, error) := sam_remove_lease env other ord (q_actions q1) CL_FRLOCK None s in
        (s, set_q_actions act q1, error)
      else let '(s, q) := sam_record_lease env other ord LTYPE_frlock q1 false is_get s in (s, q, 0)
    else (s, q1, error)).1.1) as Hend.
  { intros b1 b2. destruct (error =? 0); [|reflexivity]. destruct (b1 || b2).
    - pose proof (remove_good ord (q_actions q1) CL_FRLOCK None s) as Hr.
      destruct (sam_remove_lease _ _ _ _ _ _ _) as [[s' act] e']. exact Hr.
    - pose proof (record_good ord LTYPE_frlock q1 false is_get s Ho Hp) as Hr.
      destruct (sam_record_lease _ _ _ _ _ _ _ _) as [s' q']. exact Hr. }
  destruct cmd; reflexivity || apply Hend.
Qed.

Lemma get_lease_good (t : LEASE_type) (m : lmessage) (s : lst) (q : lreq) :
  1 <= m_ord m <= maxc -> req_ok rel true q t ->
  gd s (sam_process_get_lease env g other t m s q).1.1.
Proof.
  intros Ho Hq. unfold sam_process_get_lease. destruct (g_mandlock g); [reflexivity|].
  destruct (decide _); [now apply frlock_good|].
  pose proof (record_good (m_ord m) t q (m_wait m) true s Ho Hq) as G1.
  destruct (sam_record_lease _ _ _ _ _ _ _ _) as [s1 q1]. cbn [fst] in G1.
  destruct (has_any _ _); [exact G1|].
  set (r := match t with LTYPE_write => _ | _ => _ end).
  assert (gd s1 r.1.1) as G2.
  { unfold r. destruct t; try reflexivity; [apply get_write_good | apply get_append_good
      | apply get_truncate_good | apply get_stage_good | apply get_mmap_good]. }
  destruct r as [[s2 q2] error]. cbn [fst] in G2. transitivity s1; [exact G1|].
  destruct (error =? EDQUOT); [|exact G2]. transitivity s2; [exact G2|].
  pose proof (remove_good (m_ord m) (q_actions q2) (lbit t) None s2) as Hr.
  destruct (sam_remove_lease _ _ _ _ _ _ _) as [[s' act] e']. exact Hr.
Qed.

(** The types of a reset mask. *)
Definition resets (mask : Z) (q : lreq) : Prop :=
  forall t, has_any mask (lbit t) = true -> req_ok rel false q t.

Lemma reset_type_good (ord mask : Z) (sq : lst * lreq) (t : LEASE_type) :
  1 <= ord <= maxc -> resets mask sq.2 ->
  gd sq.1 (reset_type env other ord mask sq t).1 /\ resets mask (reset_type env other ord mask sq t).2.
Proof.
  intros Ho Hq. unfold reset_type. destruct (has_any mask (lbit t)) eqn:Em; [|split; [reflexivity | exact Hq]].
  pose proof (record_good ord t sq.2 false false sq.1 Ho (Hq t Em)) as G1.
  pose proof (record_q env other ord t sq.2 false false sq.1) as [E1 E2].
  destruct (sam_record_lease _ _ _ _ _ _ _ _) as [s1 q1]. cbn [fst snd] in *.
  assert (resets mask q1) as Hq1 by (intros u Hu; now apply (req_ok_same false sq.2), Hq).
  assert (forall f, (forall n, keeps_table n (f n)) -> gd sq.1 (on_ip f s1)) as Hon.
  { intros f Hf. transitivity s1; [exact G1 | apply good_ip; apply Hf]. }
  destruct t; try (split; [exact G1 | exact Hq1]).
  - destruct (e_mh_write env); cbn [fst snd]; (split; [|exact Hq1]); [exact G1|].
    now apply Hon.
  - split; [now apply Hon | exact Hq1].
Qed.

Lemma reset_loop_good (ord mask : Z) (ts : list LEASE_type) (sq : lst * lreq) :
  1 <= ord <= maxc -> resets mask sq.2 ->
  gd sq.1 (fold_left (reset_type env other ord mask) ts sq).1.
Proof.
  intros Ho. revert sq. induction ts as [|t ts IH]; intros sq Hq; [reflexivity|]. cbn [fold_left].
  destruct (reset_type_good ord mask sq t Ho Hq) as [G1 Hq1].
  etransitivity; [exact G1 | now apply IH].
Qed.

Lemma reset_lease_good (mask : Z) (m : lmessage) (s : lst) (q : lreq) :
  1 <= m_ord m <= maxc -> resets mask q ->
  gd s (sam_process_reset_lease env other mask m s q).1.1.
Proof.
  intros Ho Hq. unfold sam_process_reset_lease. set (r := if has_any mask CL_FRLOCK then _ else _).
  assert (gd s r.1.1) as G1.
  { unfold r. destruct (has_any mask CL_FRLOCK); [now apply frlock_good|].
    assert (resets (Z.land mask (~~ CL_STAGE)) q) as Hq1.
    { intros t Ht. apply Hq. rewrite has_any_lbit in Ht |- *. rewrite holds_land in Ht.
      now apply andb_true_iff in Ht. }
    pose proof (reset_loop_good (m_ord m) (Z.land mask (~~ CL_STAGE)) all_ltypes (s, q) Ho Hq1) as Hl.
    destruct (fold_left _ _ _) as [s1 q1]. cbn [fst] in Hl.
    destruct (has_any mask CL_STAGE); [|exact Hl].
    pose proof (rc_offline_keeps (s_ip s1)) as Hk. destruct (rc_proc_offline _) as [n e].
    transitivity s1; [exact Hl | now apply with_ip_good]. }
  destruct r as [[s1 q1] e]. cbn [fst] in *. transitivity s1; [exact G1 | now apply good_ip].
Qed.

Lemma lease_request_good (m : lmessage) (s : lst) (q : lreq) :
  1 <= m_ord m <= maxc -> sound_req m q ->
  gd s (sam_process_lease_request env g other m s q).1.1.
Proof.
  intros Ho Hq. unfold sam_process_lease_request.
  set (q1 := set_q_sr_offset 0 (set_q_actions 0 q)).
  assert (sound_req m q1) as Hq1 by exact Hq. clearbody q1. unfold sound_req in Hq1.
  destruct (m_op m) as [t|mask|mask|mask|mask|].
  - now apply get_lease_good.
  - unfold sam_process_rm_lease.
    pose proof (remove_good (m_ord m) (q_actions q1) mask
      (if has_any mask CL_OPEN then Some (q_gen q1) else None) s) as Hr.
    destruct (sam_remove_lease _ _ _ _ _ _ _) as [[s' act] e']. exact Hr.
  - now apply reset_lease_good.
  - destruct (e_failover env); [reflexivity|]. unfold sam_process_relinquish_lease.
    pose proof (remove_good (m_ord m) (q_actions q1) mask (Some (q_gen q1)) s) as Hr.
    destruct (sam_remove_lease _ _ _ _ _ _ _) as [[s' act] e']. exact Hr.
  - destruct (e_failover env); [reflexivity|]. unfold sam_process_extend_lease.
    pose proof (extend_lease_good mh rel maxc env (m_ord m) mask q1 s) as Hr.
    destruct (sam_extend_lease _ _ _ _ _) as [s' e']. exact Hr.
  - reflexivity.
Qed.
End Handled.
