(* ===== verification/LeaseProps.v ===== *)
(** * Properties of the lease server

    What the clients of a shared file system rely on: leases of different clients do not
    conflict, whatever the threads of the server do; requests, removals and extensions
    have exactly the effect asked for; leases that are due expire and everyone concerned
    is told. The last section has what the code does where it differs from its
    comments. *)
From S2P Require Import Prelude Lease LeaseOps LeaseExpire LeaseTable LeaseGrant LeaseInv LeaseRemove LeaseTimes LeaseClients LeaseServer LeaseRun LeaseDecide LeaseReq LeaseHandlers.

(** ** A concrete server *)

(** The block layer of the examples: nothing is allocated, truncation only sets the size,
    and locks are granted. *)
#[export] Instance demo_calls : LeaseCalls := {| lc_trunc_excess := fun n => (n, 0) |}.
#[export] Instance demo_laws : LeaseCallsLaws.
Proof. split; reflexivity. Qed.

Definition demo_req_calls (map_errno : Z) : ReqCalls := {|
  rc_map_block := fun n _ _ _ => (n, map_errno, 0);
  rc_update_inode := fun n => (n, 0);
  rc_allocate_append := fun n q => (n, q, map_errno);
  rc_server_truncate := fun n q => (set_ip_size (q_resid q) n, q, 0);
  rc_proc_offline := fun n => (n, 0);
  rc_reclock := fun _ _ _ => 0;
  rc_blkd_frlock_start := fun _ _ => 0;
  rc_has_remote_locks := fun _ _ => 0
|}.

Lemma demo_req_laws (e : Z) : @ReqCallsLaws (demo_req_calls e).
Proof. split; intros; split; reflexivity. Qed.

(** A mount point with four client hosts and inode 7, at tick 1000 of a clock with 100
    ticks a second. *)
Definition demo_env : lenv := mkEnv false (-1) 4 1000 100 false false.
Definition demo_mh : lenv := mkEnv true (-1) 4 1000 100 false false.
Definition demo_node : lnode :=
  mkLn 7 None 0 false false false false false false false 4096 0 0 1.
Definition demo_mp : lmnt := mkLm [] [] false 0 [].
Definition demo_srv : lsrv := mkSv {[7 := demo_node]} demo_mp ∅ [].
Definition demo_req : lreq :=
  mkReq 0 0 0 0 FREAD 0 0 0 false false [30; 30; 30] (replicate 10 0) 0.

(** A server that has just been mounted: no inode has a lease table. *)
Definition fresh_srv (v : lsrv) : Prop :=
  (forall i n, v_nodes v !! i = Some n -> ln_ino n = i /\ ln_leases n = None) /\
  lm_chain (v_mp v) = [].

Lemma fresh_srv_ok (mh rel : bool) (maxc : Z) (v : lsrv) : fresh_srv v -> srv_ok mh rel maxc v.
Proof.
  intros [H1 H2]. split; rewrite ?H2.
  - intros i n Hi. destruct (H1 i n Hi) as [Ei En]. split; [exact Ei|].
    split; cbn; rewrite ?En, ?H2; [discriminate | constructor |].
    split; [intros [? [=]] | intros H; now apply not_elem_of_nil in H].
  - intros i H. now apply not_elem_of_nil in H.
  - constructor.
Qed.

Lemma demo_fresh : fresh_srv demo_srv.
Proof.
  split; [|reflexivity]. intros i n. cbn. rewrite lookup_singleton_Some. intros [<- <-]. auto.
Qed.

(** Client [ord] asks for lease [t] of inode 7: the section after the window, when there
    is no table or a full one. *)
Definition ask_new (ord : Z) (t : LEASE_type) (v : lsrv) : lsrv :=
  on_inode 7 (fun s => (record_new demo_env ord t demo_req true true s).1) v.
Definition ask_full (ord : Z) (t : LEASE_type) (v : lsrv) : lsrv :=
  on_inode 7 (fun s => (record_full demo_env ord t demo_req true true s).1) v.

(** Clients 1 and 2 read inode 7. *)
Definition two_readers : lsrv := ask_full 2 LTYPE_read (ask_new 1 LTYPE_read demo_srv).

Lemma demo_req_ok (is_get : bool) (t : LEASE_type) : req_ok false is_get demo_req t.
Proof. split; [reflexivity | discriminate]. Qed.

Lemma two_readers_steps : rtc (lstep false false 4) demo_srv two_readers.
Proof.
  eapply rtc_l; [|eapply rtc_l; [|apply rtc_refl]].
  - apply (step_inode false false 4 7). apply (sec_record_new false false 4 demo_env 1 LTYPE_read demo_req true true);
      [split; reflexivity | lia | apply demo_req_ok].
  - apply (step_inode false false 4 7). apply (sec_record_full false false 4 demo_env 2 LTYPE_read demo_req true true);
      [split; reflexivity | lia | apply demo_req_ok].
Qed.

(** ** Safety *)



(** C16. In the same executions a lease table never outgrows its array, the array never
    outgrows the number of client hosts although it is enlarged without the mutex being
    held throughout, every client has one entry, and the chain of the mount point has
    exactly the inodes with a table, once each. *)
Theorem lease_table_bounded `{LeaseCallsLaws} (mh rel : bool) (maxc : Z) (v0 v : lsrv)
    (i : Z) (n : lnode) :
  fresh_srv v0 -> rtc (lstep mh rel maxc) v0 v -> v_nodes v !! i = Some n ->
  NoDup (lm_chain (v_mp v)) /\ (is_Some (ln_leases n) <-> i ∈ lm_chain (v_mp v)) /\
  forall t, ln_leases n = Some t ->
    Z.of_nat (length (li_lease t)) <= li_max t <= maxc /\ NoDup (cl_ord <$> li_lease t) /\
    forall c, c ∈ li_lease t -> 1 <= cl_ord c <= maxc /\ 0 <= cl_leases c < 2 ^ 10.
Proof.
  intros Hf Hs En.
  pose proof (lsteps_ok mh rel maxc v0 v Hs (fresh_srv_ok _ _ _ _ Hf)) as Hok.
  destruct (so_node _ _ _ _ Hok i n En) as [Ei Hn]. split; [apply Hok|].
  split; [rewrite <- Ei at 1; apply (lo_linked _ _ _ _ Hn)|].
  intros t Et. destruct (lo_table _ _ _ _ Hn t Et) as [[T1 T2 _] Ts _ _].
  split; [exact Ts|]. split; [exact T1|]. intros c Hc. rewrite Forall_forall in T2.
  destruct (T2 c Hc) as (S1 & S2 & _). split; [exact S1 | exact S2].
Qed.

Lemma lease_table_bounded_witness :
  exists n t, v_nodes two_readers !! 7 = Some n /\ ln_leases n = Some t /\
    Z.of_nat (length (li_lease t)) <= li_max t <= 4.
Proof.
  eexists _, _. split; [vm_compute; reflexivity|]. split; [vm_compute; reflexivity|].
  apply (lease_table_bounded false false 4 demo_srv two_readers 7 _ demo_fresh two_readers_steps
    ltac:(vm_compute; reflexivity)). vm_compute. reflexivity.
Defined.

(** C11. [sam_process_lease_request] keeps the table of the inode consistent and leaves the
    other inodes of the chain alone, whatever the operation, the lease, the sender and the
    arguments of the message are, provided that a request for a mapping asks for reading
    or writing and that other threads keep the table consistent while the mutex is
    dropped. ([rel] allows truncations that release a file; the conflicts that they may
    cause are then not counted as such.) *)
Theorem sam_process_lease_request_safe `{LeaseCallsLaws} `{ReqCallsLaws} (mh rel : bool)
    (maxc : Z) (env : lenv) (g : genv) (other : lst -> lst) (m : lmessage) (s : lst) (q : lreq) :
  env_ok mh maxc env -> (forall s, good mh rel maxc s (other s)) -> 1 <= m_ord m <= maxc ->
  sound_req rel m q -> lease_ok mh rel maxc s ->
  let s' := (sam_process_lease_request env g other m s q).1.1 in
  lease_ok mh rel maxc s' /\ lframe s s'.
Proof. intros Henv Ho Hord Hq Hok. now apply (lease_request_good mh rel maxc). Qed.

(** Inode 7 with the reading clients 1 and 2. *)
Definition demo_st (v : lsrv) : lst :=
  mkLs (default demo_node (v_nodes v !! 7)) (v_mp v).

Lemma two_readers_ok : lease_ok false false 4 (demo_st two_readers).
Proof.
  pose proof (lsteps_ok false false 4 _ _ two_readers_steps (fresh_srv_ok _ _ _ _ demo_fresh)) as Hok.
  destruct (v_nodes two_readers !! 7) as [n|] eqn:E; [|vm_compute in E; discriminate].
  unfold demo_st. rewrite E. exact (proj2 (so_node _ _ _ _ Hok 7 n E)).
Qed.

(** Client 1 truncates the file as the Linux client does, with [O_TRUNC] as the only file
    mode; it waits for the reader. *)
Definition truncate_req : lreq :=
  mkReq 0 0 0 0 FTRUNC 0 0 0 false false [30; 30; 30] (replicate 10 0) 0.
Definition truncate_msg : lmessage := mkMsg (LEASE_get LTYPE_truncate) 1 true FR_CANCEL false.

Lemma sam_process_lease_request_safe_witness :
  let r := @sam_process_lease_request demo_calls (demo_req_calls 0) demo_env
    (mkGenv false false false 1) id truncate_msg (demo_st two_readers) truncate_req in
  lease_ok false false 4 r.1.1 /\ q_actions r.1.2 = SR_WAIT_LEASE.
Proof.
  split; [|vm_compute; reflexivity].
  apply (@sam_process_lease_request_safe demo_calls demo_laws (demo_req_calls 0) (demo_req_laws 0)
    false false 4 demo_env (mkGenv false false false 1) id truncate_msg (demo_st two_readers) truncate_req);
    [split; reflexivity | intros s; apply good_refl | vm_compute; split; discriminate
    | split; discriminate | exact two_readers_ok].
Defined.

(** ** Requests *)





(** ** Removal and extension *)

(** The lease [t] of entry [c] has the generation of the request. *)
Definition gen_matches (gens : option (list Z)) (c : client_lease) (t : LEASE_type) : bool :=
  match gens with None => true | Some g => default 0 (g !! ltype_ix t) =? get_gen t c end.

Lemma check_gen_holds (gens : option (list Z)) (c : client_lease) (mask : Z) (t : LEASE_type) :
  holds (check_gen gens c mask) t = holds mask t && gen_matches gens c t.
Proof.
  destruct gens as [g|]; cbn [check_gen gen_matches]; [|now rewrite andb_true_r].
  set (bad t := negb (default 0 (g !! ltype_ix t) =? get_gen t c)).
  assert (forall ts mask, holds (fold_left (fun mask t =>
      if has_any mask (lbit t) && bad t then Z.land mask (~~ (lbit t)) else mask) ts mask) t =
    holds mask t && negb (bool_decide (t ∈ ts) && bad t)) as Hgen.
  { induction ts as [|u ts IH]; intros m; cbn [fold_left].
    { rewrite bool_decide_false by apply not_elem_of_nil. now rewrite andb_true_r. }
    rewrite IH, has_any_lbit. destruct (decide (t = u)) as [->|Hne].
    - rewrite (bool_decide_true (u ∈ u :: ts)) by constructor.
      destruct (holds m u) eqn:Em, (bad u) eqn:Eb; cbn [andb negb];
        rewrite ?holds_land, ?holds_lnot, ?holds_lbit, ?Em; cbn;
        rewrite ?(bool_decide_true (u = u)) by reflexivity; cbn; now rewrite ?andb_false_r.
    - rewrite (bool_decide_ext (t ∈ u :: ts) (t ∈ ts)) by (rewrite elem_of_cons; naive_solver).
      f_equal. destruct (holds m u && bad u); [|reflexivity]. autorewrite with lease.
      rewrite bool_decide_false by congruence. now rewrite andb_true_r. }
  rewrite Hgen, bool_decide_true by apply all_ltypes_in. unfold bad. cbn [andb].
  now rewrite negb_involutive.
Qed.

(** Messages that tell a client to ask again for its lease. *)
Definition is_notify (m : lmsg) : bool :=
  match m with NOTIFY_lease _ _ => true | _ => false end.

(** Nothing but fields outside the table and messages that are no notifications. *)
Definition quiet (s s' : lst) : Prop :=
  entries s' = entries s /\
  exists rest, lm_out (s_mp s') = lm_out (s_mp s) ++ rest /\
    Forall (fun m => is_notify m = false) rest.

#[export] Instance quiet_refl : Reflexive quiet.
Proof. intros s. split; [reflexivity|]. exists []. now rewrite app_nil_r. Qed.

#[export] Instance quiet_trans : Transitive quiet.
Proof.
  intros x y z [E1 (r1 & H1 & F1)] [E2 (r2 & H2 & F2)]. split; [congruence|]. exists (r1 ++ r2).
  rewrite H2, H1, app_assoc. split; [reflexivity | now apply Forall_app].
Qed.

Lemma quiet_ip (f : lnode -> lnode) (s : lst) :
  ln_leases (f (s_ip s)) = ln_leases (s_ip s) -> quiet s (on_ip f s).
Proof.
  intros E. split; [unfold entries; cbn; now rewrite E|]. exists []. cbn. now rewrite app_nil_r.
Qed.

Lemma quiet_send (ms : list lmsg) (s : lst) :
  Forall (fun m => is_notify m = false) ms -> quiet s (send ms s).
Proof. intros H. split; [reflexivity | exists ms; split; [reflexivity | exact H]]. Qed.

Lemma quiet_sched (env : lenv) (ticks : Z) (force : bool) (s : lst) :
  quiet s (on_mp (sam_sched_expire_server_leases env ticks force) s).
Proof.
  split; [reflexivity|]. exists []. cbn. unfold sam_sched_expire_server_leases.
  rewrite app_nil_r. split; [|constructor]. repeat case_match; reflexivity.
Qed.

Lemma rm_first_quiet `{LeaseCallsLaws} (ord act mask : Z) (gens : option (list Z)) (s : lst) :
  quiet (rm_section ord act mask gens s).1 (rm_first ord act mask gens s).1.1.1 /\
  (rm_first ord act mask gens s).1.1.2 = (rm_section ord act mask gens s).2.
Proof.
  unfold rm_first. destruct (rm_section ord act mask gens s) as [s1 a]. cbn [fst snd].
  set (s2 := if ra_write_remains a then _ else _).
  assert (quiet s1 s2) as Q2.
  { unfold s2. destruct (ra_write_remains a); [reflexivity | now apply quiet_ip]. }
  destruct (ra_append a); [|auto]. destruct (ra_append_client a).
  { split; [transitivity s2; [exact Q2 | apply quiet_send; now repeat constructor] | reflexivity]. }
  set (s3 := on_ip _ s2). assert (quiet s1 s3) as Q3 by (transitivity s2; [exact Q2 | now apply quiet_ip]).
  destruct (ln_staging (s_ip s3)); [auto|].
  pose proof (lc_trunc_table (s_ip s3)) as Ht. destruct (lc_trunc_excess (s_ip s3)) as [n error].
  split; [transitivity s3; [exact Q3 | now apply quiet_ip] | reflexivity].
Qed.

Lemma rm_second_quiet (env : lenv) (ord : Z) (a : rm_acc) (s : lst) :
  quiet s (rm_second env ord a s).
Proof.
  unfold rm_second. set (s1 := if _ || _ || _ then _ else _). assert (quiet s s1) as Q1.
  { unfold s1. destruct (_ || _ || _); [|reflexivity].
    etransitivity; [apply quiet_send | now apply quiet_ip].
    apply Forall_fmap, Forall_forall. reflexivity. }
  clearbody s1. destruct (ra_last a); [|exact Q1].
  set (s2 := if _ || _ then _ else _). assert (quiet s1 s2) as Q2.
  { unfold s2. transitivity (on_ip (set_ip_abr false) s1); [now apply quiet_ip|].
    match goal with |- quiet _ (if ?b then _ else _) => destruct b end; [now apply quiet_ip | reflexivity]. }
  clearbody s2. transitivity s1; [exact Q1|]. transitivity s2; [exact Q2|].
  destruct (0 <? _); apply quiet_sched.
Qed.

(** C12. [sam_remove_lease] takes from the client exactly the leases of the mask, those of
    another generation than the request's excepted, and no lease from anyone else. It
    notifies the clients that wait, each exactly once and in the order of the table from
    the client whose turn it is, and nobody else; nobody is left marked as waiting. No
    other thread changes the table while the mutex is dropped between its two parts. *)
Theorem sam_remove_lease_exact `{LeaseCallsLaws} (mh rel : bool) (maxc : Z) (env : lenv)
    (ord act mask : Z) (gens : option (list Z)) (s : lst) (tb : lease_ino) :
  lease_ok mh rel maxc s -> ln_leases (s_ip s) = Some tb ->
  let s' := (sam_remove_lease env id ord act mask gens s).1.1 in
  (exists f, entries s' = f <$> entries s /\
     forall c, cl_ord (f c) = cl_ord c /\ waiting (f c) = false /\
       forall t, holds (cl_leases (f c)) t =
         holds (cl_leases c) t &&
           negb ((cl_ord c =? ord) && holds mask t && gen_matches gens c t)) /\
  (exists rest, lm_out (s_mp s') = lm_out (s_mp s) ++
     ((fun c => NOTIFY_lease (ln_ino (s_ip s)) (cl_ord c)) <$>
        filter (fun c => waiting c = true)
          (drop (rm_start tb) (entries s) ++ take (rm_start tb) (entries s))) ++ rest /\
     Forall (fun m => is_notify m = false) rest).
Proof.
  intros Hok Et s'. destruct (lo_table _ _ _ _ Hok tb Et) as [[T1 _ _] _ _ T4].
  pose proof (rm_section_inv ord act mask gens s tb Et T1 T4) as Hi.
  destruct (rm_first_quiet ord act mask gens s) as [Q1 Ea].
  assert (quiet (rm_section ord act mask gens s).1 s') as [Es (rest & Hr & Hq)].
  { unfold s', sam_remove_lease.
    destruct (rm_first ord act mask gens s) as [[[s1 a] act'] error]. cbn [fst snd] in *.
    transitivity s1; [exact Q1 | apply rm_second_quiet]. }
  clearbody s'. clear Q1 Ea. unfold rm_section in *. rewrite Et in *.
  set (a := rm_loop _ _ _ _ _ _) in *. destruct Hi as (vis & _ & Hv & Hinv & Hl).
  pose proof (ri_out _ _ _ _ _ _ _ Hinv) as Hout. rewrite Hv in Hout.
  cbn [fst] in Es, Hr. split.
  - exists (removed ord mask gens). rewrite (entries_Some tb s Et). split; [rewrite Es; exact Hl|].
    intros c. split; [apply (removed_shrinks maxc)|]. split; [apply clear_wait_clears|].
    intros t. unfold removed. pose proof (clear_wait_rival
      (if cl_ord c =? ord then set_leases (Z.land (cl_leases c) (~~ (check_gen gens c mask)))
         (set_wt (Z.land (cl_wt c) (~~ (check_gen gens c mask))) c) else c)) as [= _ El].
    rewrite El. destruct (cl_ord c =? ord); cbn [cl_leases set_leases]; [|now rewrite andb_true_r].
    rewrite holds_land, holds_lnot, check_gen_holds. reflexivity.
  - exists rest. split; [|exact Hq]. rewrite (entries_Some tb s Et), Hr. cbn.
    now rewrite <- Hout, app_assoc.
Qed.

(** Client 2 asks to append while client 1 reads and waits; when client 1 gives up its
    lease, client 2 is told. *)
Definition waiting_append : lst :=
  (sam_record_lease demo_env id 2 LTYPE_append demo_req true true (demo_st two_readers)).1.

Lemma waiting_append_ok : lease_ok false false 4 waiting_append.
Proof.
  apply (record_lease_spec false false 4 demo_env id 2 LTYPE_append demo_req true true
    (demo_st two_readers)); [reflexivity | reflexivity | lia | apply demo_req_ok | apply good_refl |].
  exact two_readers_ok.
Qed.

Lemma sam_remove_lease_exact_witness :
  let s' := (sam_remove_lease demo_env id 1 0 CL_READ None waiting_append).1.1 in
  (exists rest, lm_out (s_mp s') = lm_out (s_mp waiting_append) ++ NOTIFY_lease 7 2 :: rest /\
     Forall (fun m => is_notify m = false) rest).
Proof.
  intros s'.
  destruct (sam_remove_lease_exact false false 4 demo_env 1 0 CL_READ None waiting_append
    _ waiting_append_ok ltac:(vm_compute; reflexivity)) as [_ (rest & H)].
  exists rest. exact H.
Defined.

Lemma mask_type_lbit (t : LEASE_type) : mask_type (lbit t) = Some t.
Proof. destruct t; reflexivity. Qed.

Lemma lease_ok_nodup (mh rel : bool) (maxc : Z) (s : lst) :
  lease_ok mh rel maxc s -> NoDup (cl_ord <$> entries s).
Proof.
  intros [H _ _]. unfold entries. destruct (ln_leases (s_ip s)) as [tb|]; [|constructor].
  apply (H tb eq_refl).
Qed.

(** Client ordinals tell entries apart. *)
Lemma nodup_ord (l : list client_lease) (i j : nat) (c d : client_lease) :
  NoDup (cl_ord <$> l) -> l !! i = Some c -> l !! j = Some d -> cl_ord c = cl_ord d -> i = j.
Proof.
  intros Hn Hi Hj E. apply (NoDup_lookup (cl_ord <$> l) i j (cl_ord c) Hn);
    rewrite list_lookup_fmap, ?Hi, ?Hj; cbn; congruence.
Qed.

(** The entry of a client is replaced. *)
Lemma insert_own (l : list client_lease) (i : nat) (c : client_lease) (ord : Z)
    (f : client_lease -> client_lease) :
  NoDup (cl_ord <$> l) -> l !! i = Some c -> cl_ord c = ord ->
  <[i := f c]> l = (fun c => if cl_ord c =? ord then f c else c) <$> l.
Proof.
  intros Hn Hi Ho. apply list_eq. intros j. rewrite list_lookup_fmap.
  destruct (decide (i = j)) as [<-|Hne].
  - rewrite list_lookup_insert_eq, Hi by (eapply lookup_lt_Some; eauto). cbn.
    now rewrite (proj2 (Z.eqb_eq _ _) Ho).
  - rewrite list_lookup_insert_ne by exact Hne. destruct (l !! j) as [d|] eqn:Ej; [|reflexivity].
    cbn. destruct (Z.eqb_spec (cl_ord d) ord) as [Ed|_]; [|reflexivity].
    exfalso. apply Hne, (nodup_ord l i j c d Hn Hi Ej). congruence.
Qed.

(** C15. [sam_extend_lease] extends a lease exactly when the client holds it and no other
    client waits for anything: the lease then ends at the time asked for and nothing else
    in the table changes. In all other cases it answers [ECANCELED] and changes nothing. *)
Theorem sam_extend_lease_iff (mh rel : bool) (maxc : Z) (env : lenv) (ord : Z)
    (t : LEASE_type) (q : lreq) (s : lst) :
  lease_ok mh rel maxc s ->
  let '(s', error) := sam_extend_lease env ord (lbit t) q s in
  (error = 0 <->
     (exists c, c ∈ entries s /\ cl_ord c = ord /\ holds (cl_leases c) t = true) /\
     forall b, b ∈ entries s -> cl_ord b <> ord -> cl_wt b = 0) /\
  (error = 0 -> entries s' =
     (fun c => if cl_ord c =? ord
               then set_time t (e_lbolt env + lease_ticks env (lease_interval q t)) c else c)
     <$> entries s) /\
  (error <> 0 -> error = ECANCELED /\ s' = s).
Proof.
  intros Hok. pose proof (lease_ok_nodup mh rel maxc s Hok) as Hnd.
  unfold sam_extend_lease. rewrite mask_type_lbit.
  pose proof (scan_wt ord (entries s)) as Hwt.
  destruct (sc_index (lease_scan ord (entries s))) as [i|] eqn:Ei.
  2:{ apply scan_none in Ei. split; [|easy]. split; [discriminate|]. intros [(c & Hc & Ho & _) _].
      exfalso. apply Ei, list_elem_of_fmap. eauto. }
  destruct (scan_found _ _ _ Ei) as (c & Hc & Ho). rewrite Hc, has_any_lbit.
  assert (forall d, d ∈ entries s -> cl_ord d = ord -> d = c) as Huniq.
  { intros d Hd Ed. apply list_elem_of_lookup_1 in Hd as [j Hj].
    assert (i = j) as <- by (apply (nodup_ord _ i j c d Hnd Hc Hj); congruence). congruence. }
  destruct ((sc_wt _ =? 0) && holds (cl_leases c) t) eqn:Ec.
  - apply andb_true_iff in Ec as [Ew%Z.eqb_eq Eh]. split; [|split; [|easy]].
    + split; [intros _|reflexivity]. split; [|now apply Hwt]. exists c.
      split; [eapply list_elem_of_lookup_2; eauto | auto].
    + intros _. rewrite <- (insert_own (entries s) i c ord _ Hnd Hc Ho).
      unfold entries in Hc |- *. cbn.
      destruct (ln_leases (s_ip s)) as [tb|]; [reflexivity | discriminate].
  - split; [|easy]. split; [discriminate|]. intros [(d & Hd & Ed & Hh) Hb]. exfalso.
    rewrite (Huniq d Hd Ed) in Hh. rewrite Hh, andb_true_r in Ec. apply Z.eqb_neq in Ec.
    now apply Ec, Hwt.
Qed.

(** Client 1 extends its lease when nobody waits, and not while client 2 does. *)
Lemma sam_extend_lease_iff_witness :
  (sam_extend_lease demo_env 1 CL_READ demo_req (demo_st two_readers)).2 = 0 /\
  (sam_extend_lease demo_env 1 CL_READ demo_req waiting_append).2 = ECANCELED.
Proof.
  pose proof (sam_extend_lease_iff false false 4 demo_env 1 LTYPE_read demo_req
    (demo_st two_readers) two_readers_ok) as H1.
  pose proof (sam_extend_lease_iff false false 4 demo_env 1 LTYPE_read demo_req
    waiting_append waiting_append_ok) as H2.
  change (lbit LTYPE_read) with CL_READ in *.
  destruct (sam_extend_lease demo_env 1 CL_READ demo_req (demo_st two_readers)) as [s1 e1] eqn:E1.
  destruct (sam_extend_lease demo_env 1 CL_READ demo_req waiting_append) as [s2 e2] eqn:E2.
  split; cbn [snd].
  - destruct H1 as (_ & _ & H1). destruct (decide (e1 = 0)) as [->|Hne]; [reflexivity|].
    apply (f_equal snd) in E1. vm_compute in E1. congruence.
  - destruct H2 as (_ & _ & H2). apply H2. apply (f_equal snd) in E2. vm_compute in E2. congruence.
Defined.

(** ** Expiry *)

#[local] Opaque sam_process_lease_times.

(** In the table [l], a lease of entry [c] is due. *)
Definition loses (now : Z) (staging : bool) (l : list client_lease) (c : client_lease) : Prop :=
  exists t, holds (cl_leases c) t = true /\ expires now staging (length l) c t = true.

(** What the run at [now] should leave to client [c]: the leases that are not due, and of a
    client that is down only those that expire and a truncation. *)
Definition keeps (now : Z) (staging : bool) (sc_down : Z -> bool) (l : list client_lease)
    (c : client_lease) (t : LEASE_type) : Prop :=
  holds (cl_leases c) t = true /\ expires now staging (length l) c t = false /\
  sc_down (cl_ord c) && down_type t = false.

(** A client that is down and holds leases that do not expire also holds one that is due.
    Otherwise the code forgets to take them ([down_client_keeps_lease]). *)
Definition down_due (now : Z) (staging : bool) (sc_down : Z -> bool) (l : list client_lease)
    (c : client_lease) : Prop :=
  forall t, holds (cl_leases c) t = true -> sc_down (cl_ord c) && down_type t = true ->
    loses now staging l c.

(** The messages of the callouts of a run over one table. *)
Definition run_msgs (ino : Z) (a : ex_acc) : list lmsg :=
  match xa_callouts a with Some co => callout_msgs ino co | None => [] end.

Section Expiry.
Context (env : lenv) (sc_down : Z -> bool) (ino now : Z) (staging : bool) (maxc wait : Z)
  (l : list client_lease).
Hypothesis Hshape : Forall (entry_shape maxc) l.
#[local] Abbreviation res := (outcome env sc_down ino now staging (length l)).
#[local] Abbreviation run := (run_entry env sc_down ino now staging (length l)).

Lemma run_of_holds (p : pt_acc) (c : client_lease) (t : LEASE_type) :
  same_but_times c (pa_c p) ->
  holds (cl_leases (run_of p)) t =
    (if pa_expired p then holds (pa_remaining p) t else holds (cl_leases c) t).
Proof. intros ([= _ El] & _). unfold run_of. destruct (pa_expired p); [reflexivity|]. now rewrite El. Qed.

Lemma expired_loses (c : client_lease) :
  entry_shape maxc c -> pa_expired (res c) = true <-> loses now staging l c.
Proof.
  intros Hs. destruct (outcome_spec env sc_down ino now staging maxc (length l) c Hs)
    as (_ & _ & _ & He & _). exact He.
Qed.

Lemma some_loses :
  existsb (fun c => pa_expired (res c)) l = true <-> exists c, c ∈ l /\ loses now staging l c.
Proof.
  rewrite existsb_exists. rewrite Forall_forall in Hshape.
  split; intros (c & Hc & He); exists c; rewrite ?list_elem_of_In in *;
    (split; [exact Hc|]); apply expired_loses; auto; apply Hshape, list_elem_of_In, Hc.
Qed.

Lemma run_keeps (c : client_lease) (t : LEASE_type) :
  entry_shape maxc c -> down_due now staging sc_down l c ->
  holds (cl_leases (run c)) t = true <-> keeps now staging sc_down l c t.
Proof.
  intros Hs Hdd. destruct (outcome_spec env sc_down ino now staging maxc (length l) c Hs)
    as (Hsame & _ & Hr & _). pose proof (expired_loses c Hs) as He.
  unfold run_entry. rewrite (run_of_holds _ c t Hsame). unfold keeps.
  destruct (pa_expired (res c)).
  - rewrite Hr, !andb_true_iff, !negb_true_iff. tauto.
  - assert (~ loses now staging l c) as Hno by (intros H; now apply He in H).
    split; [|tauto]. intros Hh. split; [exact Hh|]. split.
    + apply not_true_iff_false. intros Hx. apply Hno. exists t. auto.
    + apply not_true_iff_false. intros Hx. apply Hno. now apply (Hdd t).
Qed.

(** The mask of a client's callout. *)
Lemma run_mask (c : client_lease) :
  entry_shape maxc c ->
  co_expired (run_callout env sc_down ino now staging (length l) true c) <> 0 <->
  loses now staging l c.
Proof.
  intros Hs. pose proof (expired_loses c Hs) as He. unfold run_callout. cbn [co_expired andb].
  destruct (outcome_spec env sc_down ino now staging maxc (length l) c Hs) as (_ & _ & Hr & _).
  rewrite <- He. destruct (pa_expired (res c)); [|split; [easy | discriminate]].
  split; [reflexivity|]. intros _ E0. destruct (proj1 He eq_refl) as (t & Ht & Hx).
  apply (f_equal (fun z => holds z t)) in E0. rewrite holds_land, holds_lnot, Hr, Ht, Hx, holds_0 in E0.
  discriminate.
Qed.

(** A client that loses nothing has all its leases. *)
Lemma run_same (c : client_lease) :
  entry_shape maxc c -> ~ loses now staging l c -> cl_leases (run c) = cl_leases c.
Proof.
  intros Hs Hno. destruct (outcome_spec env sc_down ino now staging maxc (length l) c Hs)
    as (([= _ El] & _) & _). pose proof (expired_loses c Hs) as He.
  unfold run_entry, run_of. destruct (pa_expired (res c)); [|exact El]. exfalso. tauto.
Qed.

Lemma run_mask_eq (c : client_lease) :
  entry_shape maxc c -> loses now staging l c ->
  co_expired (run_callout env sc_down ino now staging (length l) true c) =
  Z.land (cl_leases c) (~~ (cl_leases (run c))).
Proof.
  intros Hs He%(expired_loses c Hs). unfold run_callout, run_entry, run_of. cbn [co_expired andb].
  now rewrite He.
Qed.
End Expiry.

Lemma callout_expire_in (ino ord mask : Z) (co : list callout) :
  NOTIFY_lease_expire ino ord mask ∈ callout_msgs ino co <->
  exists o, o ∈ co /\ co_ord o = ord /\ co_expired o = mask /\ mask <> 0.
Proof.
  unfold callout_msgs. rewrite list_elem_of_bind. setoid_rewrite elem_of_app. split.
  - intros (o & [H|H] & Ho); exists o; (split; [exact Ho|]).
    + destruct (Z.eqb_spec (co_expired o) 0); [now apply not_elem_of_nil in H|].
      apply list_elem_of_singleton in H as [= -> ->]. auto.
    + destruct (co_waiting o); [now apply list_elem_of_singleton in H | now apply not_elem_of_nil in H].
  - intros (o & Ho & <- & <- & Hne). exists o. split; [|exact Ho]. left.
    rewrite (proj2 (Z.eqb_neq _ _) Hne). now apply list_elem_of_singleton.
Qed.

Lemma callout_wait_in (ino ord : Z) (co : list callout) :
  NOTIFY_lease ino ord ∈ callout_msgs ino co <->
  exists o, o ∈ co /\ co_ord o = ord /\ co_waiting o = true.
Proof.
  unfold callout_msgs. rewrite list_elem_of_bind. setoid_rewrite elem_of_app. split.
  - intros (o & [H|H] & Ho); exists o; (split; [exact Ho|]).
    + destruct (co_expired o =? 0); [now apply not_elem_of_nil in H | now apply list_elem_of_singleton in H].
    + destruct (co_waiting o); [|now apply not_elem_of_nil in H].
      apply list_elem_of_singleton in H as [= ->]. auto.
  - intros (o & Ho & <- & Hw). exists o. split; [|exact Ho]. right. rewrite Hw.
    now apply list_elem_of_singleton.
Qed.

Lemma run_expire_in (env : lenv) (sc_down : Z -> bool) (ino now : Z) (staging : bool) (maxc : Z)
    (l : list client_lease) (ord mask : Z) :
  (forall c, c ∈ l -> entry_shape maxc c) ->
  NOTIFY_lease_expire ino ord mask ∈
    callout_msgs ino (run_callout env sc_down ino now staging (length l) true <$> l) <->
  exists c, c ∈ l /\ cl_ord c = ord /\ mask <> 0 /\
    mask = Z.land (cl_leases c)
      (~~ (cl_leases (run_entry env sc_down ino now staging (length l) c))).
Proof.
  intros Hs. rewrite callout_expire_in. split.
  - intros (o & (c & -> & Hc)%list_elem_of_fmap & Eo & Em & Hne). exists c.
    rewrite <- Em in Hne. pose proof (proj1 (run_mask env sc_down ino now staging maxc l c (Hs c Hc)) Hne) as Hl.
    rewrite <- Em. repeat (split; [assumption|]).
    exact (run_mask_eq env sc_down ino now staging maxc l c (Hs c Hc) Hl).
  - intros (c & Hc & Eo & Hne & Em).
    destruct (expired_loses env sc_down ino now staging maxc l c (Hs c Hc)) as [H1 _].
    eexists. split; [apply list_elem_of_fmap; exists c; split; [reflexivity | exact Hc]|].
    split; [exact Eo|]. split; [|exact Hne]. rewrite Em.
    apply (run_mask_eq env sc_down ino now staging maxc l c (Hs c Hc)).
    destruct (pa_expired (outcome env sc_down ino now staging (length l) c)) eqn:Ep; [auto|].
    exfalso. apply Hne. rewrite Em, (run_same env sc_down ino now staging maxc l c (Hs c Hc)), Z.land_lnot_diag;
      [reflexivity|]. intros Hl. apply (expired_loses env sc_down ino now staging maxc l c (Hs c Hc)) in Hl.
    congruence.
Qed.

Lemma run_wait_in (env : lenv) (sc_down : Z -> bool) (ino now : Z) (staging : bool)
    (l : list client_lease) (ord : Z) :
  NOTIFY_lease ino ord ∈
    callout_msgs ino (run_callout env sc_down ino now staging (length l) true <$> l) <->
  exists c, c ∈ l /\ cl_ord c = ord /\ waiting c = true.
Proof.
  rewrite callout_wait_in. split.
  - intros (o & (c & -> & Hc)%list_elem_of_fmap & Eo & Hw). eauto.
  - intros (c & Hc & Eo & Hw). eexists.
    split; [apply list_elem_of_fmap; exists c; split; [reflexivity | exact Hc]|]. auto.
Qed.

(** C14. A run over the clients of an inode, provided that every client that is down and
    holds leases that do not expire also holds one that is due: it removes exactly the
    leases that are due and, from the clients that are down, the others that do not expire
    but for a truncation. Every client that loses leases, and nobody else, is told which;
    when some lease was due every client that waits is told to ask again, and nobody is
    left waiting. *)
Theorem expire_clients_exact (env : lenv) (sc_down : Z -> bool) (ino now : Z)
    (staging : bool) (maxc wait : Z) (l : list client_lease) :
  Forall (entry_shape maxc) l ->
  (forall c, c ∈ l -> down_due now staging sc_down l c) ->
  let a := expire_clients env sc_down ino now staging wait l in
  exists f, xa_l a = f <$> l /\
    (forall c, c ∈ l -> cl_ord (f c) = cl_ord c /\
       (forall t, holds (cl_leases (f c)) t = true <-> keeps now staging sc_down l c t) /\
       ((exists d, d ∈ l /\ loses now staging l d) -> waiting (f c) = false)) /\
    (forall ord mask, NOTIFY_lease_expire ino ord mask ∈ run_msgs ino a <->
       exists c, c ∈ l /\ cl_ord c = ord /\ mask <> 0 /\
         mask = Z.land (cl_leases c) (~~ (cl_leases (f c)))) /\
    (forall ord, NOTIFY_lease ino ord ∈ run_msgs ino a <->
       (exists c, c ∈ l /\ cl_ord c = ord /\ waiting c = true) /\
       exists d, d ∈ l /\ loses now staging l d).
Proof.
  intros Hs Hdd a.
  destruct (expire_clients_result env sc_down ino now staging maxc l wait Hs) as (El & Ec & _).
  fold a in El, Ec. clearbody a.
  pose proof (some_loses env sc_down ino now staging maxc l Hs) as Hsome.
  set (b := existsb _ l) in *.
  exists (fun c => calm b (run_entry env sc_down ino now staging (length l) c)).
  assert (forall c, cl_leases (calm b (run_entry env sc_down ino now staging (length l) c)) =
    cl_leases (run_entry env sc_down ino now staging (length l) c)) as Hcl.
  { intros c. apply calm_actions_keep. }
  rewrite Forall_forall in Hs. split; [exact El|]. split.
  - intros c Hc. specialize (Hs c Hc). split; [|split].
    + pose proof (calm_rival b (run_entry env sc_down ino now staging (length l) c)) as [= -> _].
      exact (run_entry_ord env sc_down ino now staging maxc l c Hs).
    + intros t. rewrite Hcl. exact (run_keeps env sc_down ino now staging maxc l c t Hs (Hdd c Hc)).
    + intros H. rewrite (proj2 Hsome H). apply clear_wait_clears.
  - unfold run_msgs. rewrite Ec. destruct b.
    2:{ split; intros; (split; [intros H; now apply not_elem_of_nil in H|]).
        - intros (c & Hc & _ & Hne & Em). exfalso. apply Hne. rewrite Em, Hcl,
            (run_same env sc_down ino now staging maxc l c (Hs c Hc)), Z.land_lnot_diag; [reflexivity|].
          intros H. assert (false = true) by (apply Hsome; eauto). discriminate.
        - intros [_ H]. assert (false = true) by (now apply Hsome). discriminate. }
    split; intros ord.
    + intros mask. setoid_rewrite Hcl. now apply (run_expire_in _ _ _ _ _ maxc).
    + rewrite run_wait_in. split; [|tauto]. intros H. split; [exact H | now apply Hsome].
Qed.

(** At tick 200000 the read leases of clients 1 and 2 are due; client 1 also has the file
    open and is down, and client 2 waits for an append lease. *)
Definition due_clients : list client_lease :=
  Eval vm_compute in alter (set_leases (CL_READ ∣∣ CL_OPEN)) 0%nat (entries waiting_append).
Definition one_down (ord : Z) : bool := ord =? 1.

Lemma due_clients_shape : Forall (entry_shape 4) due_clients.
Proof.
  repeat (apply Forall_cons; split); [| |constructor];
    unfold entry_shape, lease_word; cbn; repeat split; lia.
Qed.

Lemma due_clients_down (c : client_lease) :
  c ∈ due_clients -> down_due 200000 false one_down due_clients c.
Proof.
  intros Hc t _ _. exists LTYPE_read. unfold due_clients in Hc.
  apply elem_of_cons in Hc as [->|Hc]; [split; reflexivity|].
  apply list_elem_of_singleton in Hc as ->. split; reflexivity.
Qed.

(** Client 1 is told that it has lost both, client 2 that it can ask again. *)
Lemma expire_clients_exact_witness :
  let a := expire_clients demo_env one_down 7 200000 false LONG_MAX due_clients in
  (exists mask, NOTIFY_lease_expire 7 1 mask ∈ run_msgs 7 a /\
     holds mask LTYPE_read = true /\ holds mask LTYPE_open = true) /\
  NOTIFY_lease 7 2 ∈ run_msgs 7 a.
Proof.
  destruct (expire_clients_exact demo_env one_down 7 200000 false 4 LONG_MAX due_clients
    due_clients_shape due_clients_down) as (f & _ & K & H1 & H2).
  assert (exists c, c ∈ due_clients /\ cl_ord c = 1 /\ loses 200000 false due_clients c /\
    forall t, t = LTYPE_read \/ t = LTYPE_open -> holds (cl_leases c) t = true /\
      ~ keeps 200000 false one_down due_clients c t) as (c1 & M1 & O1 & L1 & N1).
  { eexists. split; [apply (list_elem_of_lookup_2 _ 0%nat); reflexivity|]. split; [reflexivity|].
    split; [exists LTYPE_read; split; reflexivity|].
    intros t [->| ->]; (split; [reflexivity|]); intros (_ & A & B); discriminate. }
  assert (exists c, c ∈ due_clients /\ cl_ord c = 2 /\ waiting c = true) as (c2 & M2 & O2 & W2).
  { eexists. split; [apply (list_elem_of_lookup_2 _ 1%nat); reflexivity|]. split; reflexivity. }
  split; [|apply H2; split; eauto 10].
  set (mask := Z.land (cl_leases c1) (~~ (cl_leases (f c1)))).
  assert (forall t, t = LTYPE_read \/ t = LTYPE_open -> holds mask t = true) as Hm.
  { intros t Ht. destruct (N1 t Ht) as [A B]. unfold mask. rewrite holds_land, holds_lnot, A.
    destruct (holds (cl_leases (f c1)) t) eqn:Ef; [|reflexivity]. now apply (K c1 M1) in Ef. }
  exists mask. split; [|auto]. apply H1. exists c1. split; [exact M1|]. split; [exact O1|].
  split; [|reflexivity]. intros E0. specialize (Hm LTYPE_read (or_introl eq_refl)).
  rewrite E0, holds_0 in Hm. discriminate.
Defined.

Lemma expire_reschedule_chain (env : lenv) (wait : Z) (m : lmnt) :
  lm_chain (expire_reschedule env wait m) = lm_chain m.
Proof. unfold expire_reschedule. repeat case_match; reflexivity. Qed.

(** The next run is due when the first lease ends, or half a second from now. *)
Lemma reschedule_at (env : lenv) (wait time : Z) (m : lmnt) :
  0 < e_hz env -> wait <= time -> wait < LONG_MAX -> e_taskq_err env = false ->
  let m' := expire_reschedule env wait m in
  lm_sch m' = true /\ last (lm_tasks m') = Some (lm_next m' - e_lbolt env) /\
  lm_next m' <= Z.max time (e_lbolt env + SAM_EXPIRE_MIN_TICKS env).
Proof.
  intros Hhz Hle Hlt Hq. unfold expire_reschedule. rewrite (proj2 (Z.eqb_neq _ _)), Hq by lia.
  cbn [lm_sch lm_tasks lm_next]. rewrite last_snoc. split; [reflexivity|].
  set (x := if wait - e_lbolt env <? _ then _ else _).
  assert (x <= Z.max (wait - e_lbolt env) (SAM_EXPIRE_MIN_TICKS env)) as Hx
    by (unfold x; destruct (Z.ltb_spec (wait - e_lbolt env) (SAM_EXPIRE_MIN_TICKS env)); lia).
  clearbody x. set (y := if x >? _ then _ else _).
  assert (y <= x) as Hy by (unfold y; rewrite Z.gtb_ltb; destruct (Z.ltb_spec (SAM_EXPIRE_MAX_TICKS env) x); lia).
  clearbody y. split; [f_equal; lia | lia].
Qed.

(** A lease that is in a table is in the table of an inode of the chain. *)
Lemma node_entries_chain (mh rel : bool) (maxc i : Z) (v : lsrv) (c : client_lease) :
  srv_ok mh rel maxc v -> c ∈ node_entries i v ->
  exists n t, v_nodes v !! i = Some n /\ ln_leases n = Some t /\ i ∈ lm_chain (v_mp v) /\
    c ∈ li_lease t.
Proof.
  intros Hok. unfold node_entries. destruct (v_nodes v !! i) as [n|] eqn:En;
    [|intros H; now apply not_elem_of_nil in H].
  destruct (ln_leases n) as [t|] eqn:Et; [|intros H; now apply not_elem_of_nil in H].
  intros Hc. destruct (so_node _ _ _ _ Hok i n En) as [Ei [_ _ Hl]]. exists n, t.
  split; [reflexivity|]. split; [exact Et|]. split; [|exact Hc].
  cbn in Hl. rewrite Ei in Hl. apply Hl. eauto.
Qed.

(** C13. A run of the expiry task ends, whatever the chain and the tables are, although it
    starts again from the head of the chain after each callout. Afterwards the server is
    consistent; an unmount or a failover has freed all tables; and otherwise every lease
    left ends in the future, with the next run scheduled no later than half a second
    after the earliest of them (if the task queue accepts it). *)
Theorem expire_run_terminates (mh rel : bool) (maxc : Z) (env : lenv) (r : run_env) (v : lsrv) :
  0 < e_hz env -> 0 < lease_ticks env 30 ->
  (r_forced r = false -> e_failover env = false) ->
  srv_ok mh rel maxc v -> v_busy v = ∅ ->
  exists v', sam_expire_server_leases env r id (run_fuel v) v = Some v' /\
    srv_ok mh rel maxc v' /\ v_busy v' = ∅ /\
    (r_forced r = true -> lm_chain (v_mp v') = []) /\
    forall i c t, c ∈ node_entries i v' -> holds (cl_leases c) t = true ->
      e_lbolt env < get_time t c /\
      (get_time t c < LONG_MAX -> e_taskq_err env = false ->
         lm_sch (v_mp v') = true /\
         last (lm_tasks (v_mp v')) = Some (lm_next (v_mp v') - e_lbolt env) /\
         lm_next (v_mp v') <= Z.max (get_time t c) (e_lbolt env + SAM_EXPIRE_MIN_TICKS env)).
Proof.
  intros Hhz Htk Hfo Hok Hb.
  destruct (expire_loop_ends mh rel maxc env r Hhz Htk Hfo (run_fuel v) (lm_chain (v_mp v))
    LONG_MAX v Hok Hb (fun _ H => H) (fun _ H => or_introl H)) as (w & wait & E & Hw & Hbw & Hs).
  { unfold run_fuel. lia. }
  exists (set_mp (expire_reschedule env wait (v_mp w)) w).
  assert (lm_chain (expire_reschedule env wait (v_mp w)) = lm_chain (v_mp w)) as Ec
    by apply expire_reschedule_chain.
  split; [unfold sam_expire_server_leases; now rewrite E|].
  split; [now apply (srv_ok_same mh rel maxc w)|]. split; [exact Hbw|]. split.
  - intros Hf. cbn. rewrite Ec. destruct (lm_chain (v_mp w)) as [|i ch] eqn:El; [reflexivity|].
    destruct (Hs i ltac:(constructor)). congruence.
  - intros i c t Hc Ht. change (node_entries i _) with (node_entries i w) in Hc.
    destruct (node_entries_chain mh rel maxc i w c Hw Hc) as (n & tb & Hn & Etb & Hch & Hct).
    destruct (Hs i Hch) as (_ & n' & tb' & Hn' & Etb' & _ & Hall). simplify_eq.
    destruct (Hall c Hct) as [_ Ht']. destruct (Ht' t Ht) as [T1 T2]. split; [exact T1|].
    intros Hlt Hq. cbn. apply reschedule_at; auto; lia.
Qed.

(** Clients 1 and 2 read from tick 1000 on; at tick 200000 the run frees the table. *)
Definition late_env : lenv := mkEnv false (-1) 4 200000 100 false false.
Definition timed_run : run_env := mkRun false (fun _ => false).

Lemma expire_run_terminates_witness :
  exists v', sam_expire_server_leases late_env timed_run id (run_fuel two_readers) two_readers
    = Some v' /\ srv_ok false false 4 v' /\ v_busy v' = ∅.
Proof.
  destruct (expire_run_terminates false false 4 late_env timed_run two_readers
    ltac:(reflexivity) ltac:(reflexivity) ltac:(reflexivity)
    (lsteps_ok false false 4 _ _ two_readers_steps (fresh_srv_ok _ _ _ _ demo_fresh))
    ltac:(reflexivity)) as (v' & E & Hok & Hb & _).
  exists v'. split; [exact E|]. split; [exact Hok | exact Hb].
Defined.

Example two_readers_expire :
  (fun v => (lm_chain (v_mp v), lm_out (v_mp v), lm_sch (v_mp v))) <$>
    sam_expire_server_leases late_env timed_run id (run_fuel two_readers) two_readers =
  Some ([], [NOTIFY_lease_expire 7 1 CL_READ; NOTIFY_lease_expire 7 2 CL_READ], false).
Proof. vm_compute. reflexivity. Qed.

(** ** Where the code differs from its comments *)

(** Who holds what, after a series of requests for inode 7. *)
Definition held (s : lst) : list (Z * Z) := rival <$> entries s.

(** A lease that client [ord] asks for. *)
Definition get_lease (env : lenv) (map_errno ord : Z) (t : LEASE_type) (q : lreq) (s : lst) :
    lst * lreq * Z :=
  @sam_process_lease_request demo_calls (demo_req_calls map_errno) env
    (mkGenv false false false 1) id (mkMsg (LEASE_get t) ord true FR_CANCEL false) s q.

Definition empty_st : lst := demo_st demo_srv.

(** A client that the cluster reports as down keeps its open lease when none of its leases
    is due: what remains is stored with an expired lease only. *)
Example down_client_keeps_lease :
  let s := (get_lease demo_env 0 2 LTYPE_open demo_req empty_st).1.1 in
  let a := expire_clients demo_env (fun _ => true) 7 1000 false LONG_MAX (entries s) in
  rival <$> xa_l a = [(2, CL_OPEN ∣∣ CL_READ)].
Proof. vm_compute. reflexivity. Qed.

(** An append request that runs out of quota loses the append lease but keeps the write
    lease that came with it, although the request failed. *)
Example failed_append_keeps_write :
  let '(s, q, error) := get_lease demo_env EDQUOT 2 LTYPE_append demo_req empty_st in
  error = EDQUOT /\ held s = [(2, CL_WRITE)].
Proof. vm_compute. auto. Qed.

(** With multi-host writes a truncation that enlarges the file is granted beside the
    exclusive lease of another client. *)
Example truncate_up_beside_exclusive :
  let s := (sam_record_lease demo_mh id 1 LTYPE_exclusive demo_req true true empty_st).1 in
  let q := mkReq 0 0 0 0 FREAD 0 8192 0 false false [30; 30; 30] (replicate 10 0) 0 in
  held (sam_record_lease demo_mh id 2 LTYPE_truncate q true true s).1 =
  [(1, CL_EXCLUSIVE); (2, CL_TRUNCATE)].
Proof. vm_compute. reflexivity. Qed.

(** A client that re-establishes its append lease after a failover becomes the owner of the
    file size although the lease has to wait for another client's. *)
Example reset_owns_size_without_lease :
  let s := (get_lease demo_env 0 1 LTYPE_append demo_req empty_st).1.1 in
  let '(s', _, _) :=
    @sam_process_lease_request demo_calls (demo_req_calls 0) demo_env (mkGenv false false false 1)
      id (mkMsg (LEASE_reset CL_APPEND) 2 true FR_CANCEL false) s demo_req in
  held s' = [(1, CL_APPEND ∣∣ CL_WRITE); (2, 0)] /\ ln_size_owner (s_ip s') = 2.
Proof. vm_compute. auto. Qed.

(** The write lease of the first client of a file does not count in the inode's write
    sequence number; the same lease of a client that is in the table does. *)
Example first_write_not_counted :
  let s := (get_lease demo_env 0 1 LTYPE_write demo_req empty_st).1.1 in
  ln_write_seqno (s_ip s) = 0 /\
  ln_write_seqno (s_ip (get_lease demo_env 0 1 LTYPE_write demo_req s).1.1) = 1.
Proof. vm_compute. auto. Qed.

(** A client that waits for an exclusive lease does not hold up others: client 3 gets a read
    lease while client 2 waits for client 1. *)
Example exclusive_waiter_overtaken :
  let s := (sam_record_lease demo_env id 1 LTYPE_read demo_req true true empty_st).1 in
  let s := (sam_record_lease demo_env id 2 LTYPE_exclusive demo_req true true s).1 in
  let s := (sam_record_lease demo_env id 3 LTYPE_read demo_req true true s).1 in
  held s = [(1, CL_READ); (2, 0); (3, CL_READ)] /\
  (cl_wt <$> entries s) = [0; CL_EXCLUSIVE; 0].
Proof. vm_compute. auto. Qed.

(** A request for a mapping without a mode is checked as one for reading, but gets a write
    lease: client 2 has it beside the read lease of client 1. *)
Example mmap_without_mode :
  let s := (get_lease demo_env 0 1 LTYPE_read demo_req empty_st).1.1 in
  let q := mkReq 0 0 0 0 0 0 0 0 false false [30; 30; 30] (replicate 10 0) 0 in
  held (get_lease demo_env 0 2 LTYPE_mmap q s).1.1 =
  [(1, CL_READ); (2, CL_MMAP ∣∣ CL_WRITE)].
Proof. vm_compute. reflexivity. Qed.
